(* ===== verification/_CoqProject ===== *)
-Q . S2P
Prelude.v
Interaction.v
GoStrings.v
Utf8Facts.v
Limiter.v
ProviderSessions.v
GoFloat.v
NetText.v
Json.v
Diagnostics.v
Errors.v
Availability.v
AvailabilityFacts.v
AvailabilityEffects.v
KeyPool.v
KeyPoolFacts.v
KeyPoolTraces.v
KeyPoolClaims.v
Routes.v
AutoChain.v
AutoChainFacts.v
Affinity.v
Pricing.v
Messages.v
Responses.v
Inputs.v
InputRules.v
InputFacts.v
Streams.v
RequestMessages.v
Translators.v
Upstream.v
StreamCall.v
StreamTypes.v
StreamContent.v
StreamFacts.v
StreamClaims.v
StreamDemo.v
ResponseFacts.v
TranslationFacts.v
PromptCache.v
PromptFacts.v
EstimateFacts.v
TranslationDemo.v
IdleTimer.v
Budget.v
BudgetFacts.v
View.v
Catalog.v
CatalogFacts.v
Config.v
Routing.v
RoutingFacts.v
RoutingResolve.v
RoutingOrder.v
ConfigFacts.v
Reload.v
ReloadFacts.v
Frontend.v
FrontFacts.v
RetryGuidance.v
RetryFacts.v
Payload.v
PayloadFacts.v
Dispatch.v
ClientCall.v
RouteCall.v
DispatchFacts.v
RequestFacts.v
System.v
SystemFacts.v
Reconciliation.v
ReconciliationFacts.v
Statements.v
StatementFacts.v
Content.v
ContentFacts.v
Commands.v
CommandFacts.v
CommandClaims.v
