(* ===== verification/Prelude.v ===== *)
(** * TideMux: verification of the gateway's core logic

    TideMux is a local gateway between coding clients and model providers: it
    admits a request, resolves the model it names to a route (a provider and a
    model), picks one of the provider's keys, calls the provider, and feeds the
    outcome back into the state that the next request is routed by.  This
    library models that state and those decisions, and proves what they
    promise.

    ** The program and the files

    - [Limiter.v] (internal/limiter): [Module Concurrency], the gate that
      bounds the calls in flight, as a step relation over threads; [Module
      Sessions], the limiter of active sessions, operation by operation.
    - [Diagnostics.v] (internal/diagnostics): failures, retry headers and
      routing decisions, their redaction and normalisation with the program's
      own regular expressions.
    - [Errors.v] (internal/adapter/errors.go, error_mapping.go,
      failure_details.go, attempt_observer.go and [CallError] of client.go):
      categories of provider errors, the operator's mappings, waits.
    - [Availability.v] (internal/gateway/availability.go): the health table of
      providers and models with its recovery claims.  Entries and leases are
      compared by pointer in the code, so they live in an explicit heap.
      [AvailabilityFacts.v] has the invariant over all interleavings of
      admissions, completions and reloads; [AvailabilityEffects.v] what a
      completion does to a target.
    - [KeyPool.v] (provider_key_pool.go, provider_retry_after.go,
      key_diagnostics.go): the keys of a provider, cooldowns, rate-limit
      streaks, the wait a provider asked for (one state per endpoint, shared by
      the pools of all credential generations) and the counters.
      [KeyPoolFacts.v], [KeyPoolTraces.v] and [KeyPoolClaims.v] hold the
      properties of the selection, of traces of operations, and of the claims
      and counters over several pools.
    - [Routes.v] (route_recovery.go, auto_chain_config.go), [AutoChain.v] and
      [AutoChainFacts.v] (auto_chain.go): the ordered chain behind the model
      [auto] and the sessions bound to its entries.
    - [Affinity.v] (shared_model_affinity.go): the binding of sessions to the
      providers of a shared model, fenced by view epochs.
    - [Pricing.v] (internal/adapter/pricing.go and the prices of protocol.go).
    - [View.v] (the routing parts of config.go, gateway.go, model_aliases.go,
      cooldown_switch.go and routing.go): one admitted configuration, model
      identifiers and candidates.
    - [Catalog.v] (internal/provider/capabilities.go, provider.go): what a
      provider's model catalog says, and the protocols found by probing;
      [CatalogFacts.v] has its properties.
    - [Config.v] (internal/gateway/config.go): the records of a
      configuration, every rule of its validation, the resolution of
      credentials, and the decoder of the file, with its defaults and unknown
      fields.  [NetText.v] has the media types, addresses and dates of Go's
      standard library that the rules read.  [ConfigFacts.v] has what an
      accepted configuration guarantees.
    - [Reload.v] and [ReloadFacts.v] (config.go, gateway.go and
      config_reload.go of internal/gateway): from a file to a published view,
      at the start and at every tick of the watcher; [ReloadFacts.v] ends
      with configurations and reloads that are run.
    - [Commands.v] (the commands of cmd/tidemux that change the configuration:
      provider_command.go, provider_mutation_commands.go, gateway_command.go
      and the files they share): each command as a program that asks for the
      file, the key chain and the terminal, with the text of the configuration
      that it writes.  [CommandFacts.v] says what every moment of such a
      program leaves behind when operations fail or it is killed,
      [CommandClaims.v] what follows for all commands, and runs some.
    - [Routing.v] (routing.go, cooldown_switch.go, routing_reload.go and
      [routeWaitLocked] of retry_guidance.go): waits, hold or switch, price
      order, the resolution of a request, the publication of a view.
      [RoutingFacts.v], [RoutingResolve.v] and [RoutingOrder.v] hold its
      properties, and [RoutingOrder.v] ends with a configuration run through it.
    - [Frontend.v] (gateway.go, up to the call of a route): authentication, the
      models a client can see, and the checks of a completion request.
      [FrontFacts.v] has its properties; the end of [PayloadFacts.v] runs
      requests and renders rejections.
    - [RetryGuidance.v] and [RetryFacts.v] (retry_guidance.go): the advice and
      the headers of a failed request.
    - [Payload.v] and [PayloadFacts.v] (gateway.go,
      error_policy.go, retry_guidance.go, lifecycle.go): what a client is told
      of a failure, and what the ledger is asked to record of a rejection.
    - [ProviderSessions.v] (provider_sessions.go, lifecycle.go): the session
      limiters that the requests of one provider share across published
      configurations, and the admission of calls against a shutdown.
    - [Json.v] (encoding/json as the code uses it, and [decodeJSON] of
      protocol.go): documents with their source text, decoders of Go types,
      the encoder; [GoFloat.v] has its numbers.
    - [Messages.v], [Responses.v] (protocol.go, tools.go, native_content.go,
      translate.go, response_model.go): content blocks, usage, the validation
      and the translation of a whole response; [ResponseFacts.v] has
      their properties.
    - [Streams.v], [Translators.v], [StreamCall.v] (stream.go, translate.go,
      response_model.go, client.go): the reader of a provider's stream, its
      translation frame by frame, and its delivery, which holds completion
      back.  [StreamTypes.v] has the client as an automaton over events,
      [StreamContent.v] what a translation conveys, [StreamFacts.v] the loop,
      [StreamClaims.v] the properties, [StreamDemo.v] runs.
    - [Inputs.v], [InputRules.v], [RequestMessages.v] (protocol.go, tools.go,
      request.go, translate.go): the request of a client, its validation with
      the fields that are discarded or ignored, and its translation.
      [InputFacts.v] says what the validation accepts, the end of
      [RequestMessages.v] when text in [strconv.Quote] is JSON,
      [TranslationFacts.v] what a translation keeps, refuses and names; [TranslationDemo.v] runs requests,
      responses and prompts.
    - [PromptCache.v] (prompt_cache.go, estimate.go): the prompt history of the
      sessions and the local estimates of tokens and cost.  [PromptFacts.v]
      compares the cache with a bounded recency list, [EstimateFacts.v] the
      byte loops with their counterparts on characters.
    - [IdleTimer.v] (stream_timeout.go): the timer that cancels a stream
      without progress, with callbacks that run late.
    - [Upstream.v] (options.go, limits.go, failure_details.go, client.go): call
      options and limits, and the error that each end of an upstream attempt
      becomes.
    - [Dispatch.v], [ClientCall.v] and [RouteCall.v] (provider_dispatch.go,
      client.go, gateway.go, route_recovery.go): one request, from its route to
      the settlement of its cost, as a program that asks its components.
      [Interaction.v] has these programs: a tree of questions and answers,
      their runs, protocols and specifications.  [DispatchFacts.v] proves
      that every run obeys the protocol of the components, [RequestFacts.v]
      what follows for a request.
    - [System.v] and [SystemFacts.v]: all components in one shared state,
      which interleaved requests and published configurations change by the
      actions of [Interaction.v]; the end of [SystemFacts.v] runs
      requests, alone and in the gateway.
    - [Budget.v] and [BudgetFacts.v] (internal/ledger/budget.go, the recovery
      of internal/ledger/gateway.go): rolling budgets over settled charges.
    - [Reconciliation.v] and [Statements.v] (reconciliation_schema.go,
      reconcile.go, billing_export.go, billing_view.go and audit.go of
      internal/ledger, internal/gateway/reconciliation.go): the tables that
      match audited requests with supplier statements, kept by triggers; the
      statistics of a period; the import of a statement, the scans of its
      directory, the exported bill.  [ReconciliationFacts.v] and
      [StatementFacts.v] have their properties and run a ledger.
    - [Content.v] (internal/contentlog/content.go): the optional log of request
      contents: captures, their events as JSON lines, the bounded queue, the
      writer and its files.  [ContentFacts.v] is the whole log as a step
      relation over any number of handlers, the writer, its ticks, the shutdown
      and the collectors that remove files, with its invariants and a run.
    - This file: record update, machine integers, time, list and map lemmas;
      [GoStrings.v] and [GoFloat.v]: what the code uses of Go's strings, UTF-8,
      regular expressions, sorting and float64; [Utf8Facts.v]: texts and their
      encoding.

    ** How the model corresponds to the code

    Definitions keep the source's names; where two types have a method of one
    name, the file or a prefix tells them apart.  A method that runs under a
    mutex is one function from the state and its arguments to the new state and
    the results; what happens between two critical sections is a sequence of
    such steps, quantified over in the theorems ([reachable], [run_ops],
    lists of operations).  The clock, the random choices, SHA-256, the keys'
    labels and the results of I/O are arguments.  A nil pointer is [None]; maps
    are [gmap]; a loop over a Go map goes through the class [MapRange], whose
    order is arbitrary, so that theorems hold for every order.  Numbers are
    [Z]; where the code can wrap or saturate, the bound is written out.
    Floats are IEEE doubles without fused operations.

    ** What the theorems show

    - Composition: every run of a request, whatever the components and the
      upstream answer, is a run of their protocol that ends with nothing held
      ([request_refines_conduct]), makes at most one call upstream
      ([one_upstream_attempt]), gives back what it takes, itself and once
      ([request_gives_back]), settles each reservation it is granted
      ([reservations_settled]), and ends ([request_ends]); interleaved requests
      and reloads, which may change every setting, take each component only through the states that its own
      theorems speak of ([gateway_refines_components]), so those theorems
      hold of the whole gateway ([recovery_belongs_to_request],
      [gateway_session_capacity]).
    - Safety of recovery: a recovering target or key pool is tried by one
      request at a time, claims always have a live owner, and requests of an
      old configuration or an old observation cannot overwrite newer health
      ([AvailabilityFacts], [AvailabilityEffects], [KeyPoolClaims],
      [older_success_fenced], [affinity_fences_old_views]).
    - Functional correctness of routing: every resolution is a justified route
      or an explained error; the price order and the chain order are what the
      documentation says; sessions stay where they are while that provider can
      serve them, and a hold on a blocked one is bounded by the threshold.
    - Configurations: an accepted configuration has the names, limits and
      routes that routing relies on ([valid_config_routes]), credentials
      either all fit their providers or nothing is published
      ([credentials_fit]), a configuration that fails leaves the last valid
      view in place ([last_valid_view_kept]), a command leaves the old file or
      a new one whose credentials are in the key chain ([credentials_kept]), an
      old configuration is migrated to a valid one ([migration_valid]), a connection keeps its
      generation exactly as long as it stays the same
      ([generation_identifies_connection]), and every client redacts all
      secrets it can send ([secrets_redacted]).
    - Catalogs: a limit is learned only when every entry of a model agrees on
      it and never replaces one that the operator set, and a protocol is
      detected only from evidence ([CatalogFacts]).
    - The front end: only a caller that shows the token is answered
      ([only_token_holders]); what is handed to a route was checked, and every
      refusal gives its true reason ([requests_answered], with
      [resolution_justified] for the route); what is listed can be looked up
      and called ([discovery_agrees]).  A rejection is recorded as it is
      answered ([rejections_accounted]) and invites a retry exactly when one
      can help ([rejections_invite]).
    - Requests: the rules accept exactly the well-formed requests and name a
      field in every refusal ([rules_exact]); a translation keeps the messages,
      calls and results in order, numbers in what is encoded again as doubles,
      refuses validated messages for named reasons
      only, and its warnings name exactly what it leaves out
      ([TranslationFacts]); text written with [strconv.Quote] is JSON only
      without certain characters ([quoted_text_roundtrip]).
    - Streams and responses: only a complete stream is answered, nothing that
      completes the client's turn is handed over before the audit, a stream
      of the client's own protocol passes byte for byte, and a translated one
      is a well-formed stream of the other protocol that keeps every text,
      tool call and argument fragment in order, as long as tool calls are not
      resumed and events are named ([StreamClaims]); whole
      responses keep their content and name what they drop, usage is
      consistent and finish reasons correspond ([ResponseFacts]).
    - Estimates: the prompt cache is a bounded recency list with expiry
      ([cache_refines_lru]), cached input is counted only against the same
      session's last prompt and as long as that fits ([hit_from_session],
      [prompt_retained]), up to a whole character ([common_prefix_longest]);
      an estimate counts every character once ([estimate_consistent]).
    - Idle streams: only a read without progress for the whole idle time is
      cancelled, and such a read can be ([idle_only_without_progress],
      [idle_read_cancelled]).
    - Reconciliation: the tables are what their views say, after any operations
      ([tables_maintained]); a file is imported as a whole and once
      ([import_all_or_nothing], [imported_once]); a difference is only given
      over requests and charges that all belong together
      ([complete_statement]); the exported bill is complete and can be read
      back ([export_reads_back]).
    - Content log: a terminal event that says complete is only written after
      all events of its capture ([complete_means_complete]); files that are
      handed off hold whole lines of written events and are bounded
      ([sealed_files_whole]), and so is the directory ([directory_bounded]);
      no chunk is too long for a line ([chunk_taken]).
    - Agreement of separate computations: retry guidance and admission
      ([route_wait_agrees_with_selection]), key status and key selection, the
      mapping loop and the documented rule, the backoff loop and its closed
      form.
    - Bounds: cooldowns and backoffs, the size of the health table, the
      session and concurrency limits, budgets, retry delays, cost estimates.
    - Truthful advice: a response says when to retry exactly as the routes of
      its request allow ([advice_exact]), and nothing after an audit failure.

    ** Fuel

    Only loops without a structural measure take fuel: [skip_failed] of the
    chain (the entries left), [double_base] of the backoff (the number of
    failures, which bounds the doublings; [backoff_closed_form] shows that it
    is enough), UTF-8, regular-expression, string and JSON scans (the length of the
    input, twice for JSON values), the loops of the prompt cache (its
    elements; [cache_refines_lru] shows that making room never runs out), the lines of a stream (one more than its
    bytes; [read_lines_ends] shows that they are enough), the rows of a
    statement (the lines of its file; [import_rows_spec] shows that they are
    enough), the loop over the routes of a request ([request_ends] bounds it by the
    providers of the configuration).

    ** What is not modelled

    The results of the file system in the content log, its directory lock and
    permissions, and the random names of its files (arguments; a new name is
    supposed not to have been used before).  The status pages and what the handler writes of a successful response, the
    summaries in the log, how an instant is written in a payload (a
    parameter), which field a
    [json.UnmarshalTypeError] names, which characters [strconv.IsPrint]
    accepts, how [url.Parse] splits an address, how numbers are read
    from the flags of a command, and how a statement's times of
    RFC 3339 and amounts are read (all are parameters;
    routing takes the acceptance of a body as one, which the front end fills in), SQLite (the budget ledger
    takes its failures, sums and row order as parameters, reconciliation
    has its tables as maps and its sums as lists of addends), sockets, and of
    the command line the commands that only read, the dialogue and the detection
    of [provider add] (their results are arguments), reports and services.  The bytes of a configuration file and the answers of the
    key chain are arguments of a reload.  A nil and an empty map of a
    configuration are not told apart.  The telemetry that routing does not read is
    not threaded through a resolution, which runs at one instant of the clock.

    In the composition the queue, the ledger, the bodies and the upstream
    answer arbitrarily; a panic of a handler is not an answer.  The recovery
    path of a gateway without a health table is left out: the server always
    creates one.

    ** Plan

    Next: the views of audited requests and the daily reports. *)

From stdpp Require Export base gmap strings list fin_maps sorting.
From Stdlib Require Export ZArith Lia.

#[global] Open Scope Z_scope.

(** ** Scope, tactics and hint database of the development *)

Declare Scope go_scope.
Delimit Scope go_scope with go.
#[global] Open Scope go_scope.

Create HintDb tidemux.

(** ** Record update

    [r <| f := v |>] is [r] with field [f] set to [v].  An [Eta] instance
    writes the record as its constructor applied to its projections; the
    update replaces one projection in that expression. *)

Class Eta (R : Type) := eta : R -> R.
Class Update {R T : Type} (field : R -> T) := update : (T -> T) -> R -> R.

Ltac solve_update field :=
  lazymatch type of field with
  | ?R -> ?T =>
      let body := eval hnf in (@eta R _) in
      lazymatch eval pattern field in body with
      | ?abstracted field =>
          let upd := constr:(fun (g : T -> T) => abstracted (fun r => g (field r))) in
          let upd := eval cbv beta in upd in
          exact upd
      end
  end.

#[export] Hint Extern 0 (Update ?field) => solve_update field : typeclass_instances.

Notation "r <| f := v |>" := (update (field := f) (fun _ => v) r)
  (at level 1, f at level 0, left associativity) : go_scope.

(** ** Machine integers

    Go's [int] and [int64] are 64 bits wide here, as on the only platform the
    program supports.  Sums that the code guards are written with plain [Z]
    arithmetic; where the code can wrap, [wrap64] is written out. *)

Definition max_int64 : Z := 9223372036854775807.
Definition min_int64 : Z := -9223372036854775808.
Definition max_uint16 : Z := 65535.
Definition max_uint64 : Z := 18446744073709551615.

Definition wrap64 (z : Z) : Z := (z + 2 ^ 63) mod 2 ^ 64 - 2 ^ 63.
Definition clamp64 (z : Z) : Z := Z.max min_int64 (Z.min max_int64 z).

(** [if *counter < math.MaxUint64 { *counter++ }] *)
Definition saturating_inc (limit c : Z) : Z := if c <? limit then c + 1 else c.
Definition increment (c : Z) : Z := saturating_inc max_uint64 c.

Lemma wrap64_id z : min_int64 <= z <= max_int64 -> wrap64 z = z.
Proof.
  unfold wrap64, min_int64, max_int64. intros.
  rewrite Z.mod_small; lia.
Qed.

Lemma clamp64_id z : min_int64 <= z <= max_int64 -> clamp64 z = z.
Proof. unfold clamp64. lia. Qed.

Lemma clamp64_mono a b : a <= b -> clamp64 a <= clamp64 b.
Proof. unfold clamp64. lia. Qed.

Lemma increment_le c : c <= increment c.
Proof. unfold increment, saturating_inc. destruct (Z.ltb_spec c max_uint64); lia. Qed.

(** ** Time

    A [time.Time] is the number of nanoseconds since Go's zero time
    (0001-01-01T00:00:00Z), so that [Time.IsZero] is a comparison with zero; a
    [time.Duration] is a number of nanoseconds.  The monotonic reading that
    [time.Now] adds is not modelled: one clock gives every instant. *)

Abbreviation time := Z (only parsing).
Abbreviation duration := Z (only parsing).

Definition Nanosecond : duration := 1.
Definition Millisecond : duration := 1000000.
Definition Second : duration := 1000000000.
Definition Minute : duration := 60 * Second.
Definition Hour : duration := 60 * Minute.

Module Time.
Definition zero : time := 0.
Definition is_zero (t : time) : bool := t =? 0.
Definition after (t u : time) : bool := u <? t.
Definition before (t u : time) : bool := t <? u.
Definition add (t : time) (d : duration) : time := t + d.
(** [Time.Sub] saturates at the bounds of [Duration]. *)
Definition sub (t u : time) : duration := clamp64 (t - u).

(** Seconds between the zero time and the Unix epoch. *)
Definition epoch_seconds : Z := 62135596800.
Definition unix (t : time) : Z := t / Second - epoch_seconds.
Definition nanosecond (t : time) : Z := t mod Second.
Definition unix_milli (t : time) : Z := unix t * 1000 + nanosecond t / Millisecond.
(** [time.Unix(sec, nsec)] for [0 <= nsec < 1e9]. *)
Definition of_unix (sec nsec : Z) : time := (sec + epoch_seconds) * Second + nsec.

Lemma of_unix_parts t : of_unix (unix t) (nanosecond t) = t.
Proof.
  unfold of_unix, unix, nanosecond, Second.
  pose proof (Z.div_mod t 1000000000). lia.
Qed.

Lemma sub_nonneg t u : u <= t -> 0 <= sub t u.
Proof. unfold sub, clamp64, min_int64, max_int64. lia. Qed.

Lemma sub_le t u : u <= t -> sub t u <= t - u.
Proof. unfold sub, clamp64, min_int64, max_int64. lia. Qed.

Lemma sub_ge_bound t u d : 0 <= d <= max_int64 -> d <= sub t u <-> d <= t - u.
Proof. unfold sub, clamp64, min_int64, max_int64. lia. Qed.
End Time.

Lemma after_spec t u : reflect (u < t) (Time.after t u).
Proof. apply Z.ltb_spec0. Qed.

Lemma before_spec t u : reflect (t < u) (Time.before t u).
Proof. apply Z.ltb_spec0. Qed.

Lemma is_zero_spec t : reflect (t = 0) (Time.is_zero t).
Proof. apply Z.eqb_spec. Qed.

(** Case analysis on the boolean tests of the code: each comparison found in
    the goal or in a hypothesis is replaced by its proposition. *)
Ltac case_test :=
  match goal with
  | |- context [Time.after ?a ?b] => destruct (after_spec a b)
  | |- context [Time.before ?a ?b] => destruct (before_spec a b)
  | |- context [Time.is_zero ?a] => destruct (is_zero_spec a)
  | |- context [?a <? ?b] => destruct (Z.ltb_spec a b)
  | |- context [?a <=? ?b] => destruct (Z.leb_spec a b)
  | |- context [?a >? ?b] => rewrite (Z.gtb_ltb a b)
  | |- context [?a >=? ?b] => rewrite (Z.geb_leb a b)
  | |- context [?a =? ?b] => destruct (Z.eqb_spec a b)
  | |- context [String.eqb ?a ?b] => destruct (String.eqb_spec a b)
  | |- context [bool_decide ?P] => destruct (bool_decide_reflect P)
  | H : context [Time.after ?a ?b] |- _ => destruct (after_spec a b)
  | H : context [Time.before ?a ?b] |- _ => destruct (before_spec a b)
  | H : context [Time.is_zero ?a] |- _ => destruct (is_zero_spec a)
  | H : context [?a <? ?b] |- _ => destruct (Z.ltb_spec a b)
  | H : context [?a <=? ?b] |- _ => destruct (Z.leb_spec a b)
  | H : context [?a >? ?b] |- _ => rewrite (Z.gtb_ltb a b) in H
  | H : context [?a >=? ?b] |- _ => rewrite (Z.geb_leb a b) in H
  | H : context [?a =? ?b] |- _ => destruct (Z.eqb_spec a b)
  | H : context [String.eqb ?a ?b] |- _ => destruct (String.eqb_spec a b)
  | H : context [bool_decide ?P] |- _ => destruct (bool_decide_reflect P)
  end.

Ltac case_tests := repeat (case_test; simpl in *; subst; try done).

(** ** Generic list lemmas *)

(** Number of elements satisfying a boolean test. *)
Fixpoint count {A} (f : A -> bool) (l : list A) : nat :=
  match l with
  | [] => 0%nat
  | x :: l' => (if f x then 1 else 0) + count f l'
  end%nat.

Section count.
Context {A : Type} (f : A -> bool).
Implicit Types l : list A.

Lemma count_app l k : count f (l ++ k) = (count f l + count f k)%nat.
Proof. induction l as [|x l IH]; simpl; [done|]. rewrite IH. lia. Qed.

Lemma count_insert l i x y :
  l !! i = Some x ->
  (count f (<[i := y]> l) + (if f x then 1 else 0) = count f l + (if f y then 1 else 0))%nat.
Proof.
  revert i. induction l as [|z l IH]; intros [|i] H; simpl in *; simplify_eq; [lia|].
  specialize (IH i H). lia.
Qed.

Lemma count_positive l i x : l !! i = Some x -> f x = true -> (0 < count f l)%nat.
Proof.
  revert i. induction l as [|z l IH]; intros [|i] H Hf; simpl in *; simplify_eq.
  - rewrite Hf. lia.
  - specialize (IH i H Hf). lia.
Qed.

Lemma count_filter (P : A -> Prop) `{!forall x, Decision (P x)} l :
  (forall x, x ∈ l -> f x = bool_decide (P x)) -> count f l = length (filter P l).
Proof.
  induction l as [|x l IH]; intros Hf; [done|]. simpl. rewrite filter_cons, IH by (intros y Hy; apply Hf; by right).
  rewrite (Hf x) by left. by destruct (decide (P x)) as [Hp|Hp]; [rewrite bool_decide_eq_true_2|rewrite bool_decide_eq_false_2].
Qed.

Lemma count_none l : (forall x, x ∈ l -> f x = false) -> count f l = 0%nat.
Proof.
  induction l as [|x l IH]; intros Hf; [done|]. simpl. rewrite (Hf x) by left.
  apply IH. intros y Hy. apply Hf. by right.
Qed.

Lemma count_complement l : (count (fun x => negb (f x)) l + count f l = length l)%nat.
Proof. induction l as [|x l IH]; simpl; [done|]. destruct (f x); simpl; lia. Qed.
End count.

Lemma filter_all {A} (P : A -> Prop) `{!forall x, Decision (P x)} (l : list A) :
  (forall x, x ∈ l -> P x) -> filter P l = l.
Proof.
  induction l as [|x l IH]; intros Hall; [done|]. rewrite filter_cons, decide_True by (apply Hall; left).
  rewrite IH; [done|]. intros y Hy. apply Hall. by right.
Qed.

(** ** Ranging over a map

    Go leaves the order of [for k, v := range m] unspecified.  Where the result
    can depend on it the code is modelled against this interface; theorems
    hold for every order, witnesses use the one of [map_to_list]. *)

Class MapRange (K V : Type) `{Countable K} := {
  range : gmap K V -> list (K * V);
  range_perm m : range m ≡ₚ map_to_list m;
}.

#[export] Instance map_to_list_range `{Countable K} V : MapRange K V | 10 :=
  {| range := map_to_list; range_perm m := reflexivity _ |}.

Lemma elem_of_range `{Countable K} {V} `{MapRange K V} (m : gmap K V) k v :
  (k, v) ∈ range m <-> m !! k = Some v.
Proof. rewrite range_perm. apply elem_of_map_to_list. Qed.
