(* ===== verification/Interaction.v ===== *)
(** * Programs that interact with shared state

    A request runs as a sequence of critical sections and of calls to the
    outside, and other requests run in between.  [prog] is such a program: a
    tree whose nodes are the actions it performs and whose branches are the
    answers it may get.  A program is finite by construction, so every run of
    it ends.  [runs] gives its traces; a [protocol] is an automaton over
    actions and [wp] the condition under which a program obeys it, whatever
    the answers, that is, under any interference. *)

From S2P Require Import Prelude.

Section interaction.
Context {action : Type} {answer : action -> Type}.

Inductive prog (A : Type) : Type :=
  | Return (x : A)
  | Act (a : action) (k : answer a -> prog A).
#[global] Arguments Return {A} x.
#[global] Arguments Act {A} a k.

Fixpoint bind {A B} (p : prog A) (f : A -> prog B) : prog B :=
  match p with
  | Return x => f x
  | Act a k => Act a (fun r => bind (k r) f)
  end.

Definition act (a : action) : prog (answer a) := Act a Return.

(** An action with the answer it got. *)
Definition event : Type := {a : action & answer a}.

(** [tr] is a complete trace of [p] that returns [x]. *)
Fixpoint runs {A} (p : prog A) (tr : list event) (x : A) : Prop :=
  match p with
  | Return y => tr = [] /\ x = y
  | Act a k => exists r rest, tr = existT a r :: rest /\ runs (k r) rest x
  end.

Lemma runs_bind {A B} (p : prog A) (f : A -> prog B) tr y :
  runs (bind p f) tr y <-> exists tr1 x tr2, tr = tr1 ++ tr2 /\ runs p tr1 x /\ runs (f x) tr2 y.
Proof.
  revert tr. induction p as [x|a k IH]; intros tr; cbn.
  - split; [intros H; exists [], x, tr; auto|intros (? & ? & ? & -> & [-> ->] & H); done].
  - split.
    + intros (r & rest & -> & (tr1 & x & tr2 & -> & H1 & H2)%IH).
      exists (existT a r :: tr1), x, tr2. split_and!; [done|by exists r, tr1|done].
    + intros (? & x & tr2 & -> & (r & rest & -> & H1) & H2). exists r, (rest ++ tr2).
      split; [done|]. apply IH. by exists rest, x, tr2.
Qed.

(** A program always has a run: the one that follows a strategy of answers. *)
Lemma runs_total {A} (p : prog A) (strategy : forall a, answer a) :
  exists tr x, runs p tr x /\ Forall (fun e => projT2 e = strategy (projT1 e)) tr.
Proof.
  induction p as [x|a k IH]; [by exists [], x|].
  destruct (IH (strategy a)) as (tr & x & H & Hall). exists (existT a (strategy a) :: tr), x. split; [|by constructor].
  by exists (strategy a), tr.
Qed.

(** The run against answers that may depend on what happened before. *)
Fixpoint play (strategy : list event -> forall a, answer a) {A} (past : list event) (p : prog A) : list event * A :=
  match p with
  | Return x => ([], x)
  | Act a k =>
      let r := strategy past a in
      let (tr, x) := play strategy (past ++ [existT a r]) (k r) in (existT a r :: tr, x)
  end.

Lemma play_runs strategy {A} (p : prog A) past : runs p (play strategy past p).1 (play strategy past p).2.
Proof.
  revert past. induction p as [x|a k IH]; intros past; cbn; [done|].
  specialize (IH (strategy past a) (past ++ [existT a (strategy past a)])). destruct (play _ _ _) as [tr x].
  by exists (strategy past a), tr.
Qed.

(** ** Protocols *)

Record protocol := {
  pstate : Type;
  allows : pstate -> action -> Prop;
  after : pstate -> forall a, answer a -> pstate;
}.

Section with_protocol.
Context (P : protocol).

Fixpoint wp {A} (s : pstate P) (p : prog A) (Q : pstate P -> A -> Prop) : Prop :=
  match p with
  | Return x => Q s x
  | Act a k => allows P s a /\ forall r, wp (after P s a r) (k r) Q
  end.

Lemma wp_mono {A} s (p : prog A) (Q Q' : pstate P -> A -> Prop) :
  wp s p Q -> (forall s' x, Q s' x -> Q' s' x) -> wp s p Q'.
Proof.
  intros H HQ. revert s H. induction p as [x|a k IH]; cbn; [auto|]. intros s [Ha Hk]. split; [done|]. auto.
Qed.

Lemma wp_bind {A B} s (p : prog A) (f : A -> prog B) Q :
  wp s p (fun s' x => wp s' (f x) Q) <-> wp s (bind p f) Q.
Proof.
  revert s. induction p as [x|a k IH]; intros s; cbn; [done|].
  split; intros [Ha Hk]; (split; [done|]); intros r; by apply IH.
Qed.

(** The rule for a call: its own specification, then the continuation. *)
Lemma wp_seq {A B} s (p : prog A) (f : A -> prog B) (R : pstate P -> A -> Prop) Q :
  wp s p R -> (forall s' x, R s' x -> wp s' (f x) Q) -> wp s (bind p f) Q.
Proof. intros Hp Hf. apply wp_bind. by eapply wp_mono. Qed.

Lemma wp_and {A} s (p : prog A) (Q Q' : pstate P -> A -> Prop) :
  wp s p Q -> wp s p Q' -> wp s p (fun s' x => Q s' x /\ Q' s' x).
Proof. revert s. induction p as [x|a k IH]; cbn; [done|]. intros s [Ha Hk] [_ Hk']. auto. Qed.

(** The state of the automaton after a trace, and its acceptance. *)
Definition advance (s : pstate P) (e : event) : pstate P := after P s (projT1 e) (projT2 e).
Definition state_after (s : pstate P) (tr : list event) : pstate P := foldl advance s tr.

Fixpoint accepts (s : pstate P) (tr : list event) : Prop :=
  match tr with
  | [] => True
  | e :: tr => allows P s (projT1 e) /\ accepts (advance s e) tr
  end.

(** A program that meets [wp] only has accepted runs, and they end as it says. *)
Lemma wp_sound {A} s (p : prog A) Q tr x :
  wp s p Q -> runs p tr x -> accepts s tr /\ Q (state_after s tr) x.
Proof.
  revert s tr. induction p as [y|a k IH]; intros s tr; cbn.
  - intros HQ [-> ->]. done.
  - intros [Ha Hk] (r & rest & -> & Hr). destruct (IH r _ rest (Hk r) Hr) as [H1 H2]. done.
Qed.

Lemma accepts_app s tr1 tr2 : accepts s (tr1 ++ tr2) <-> accepts s tr1 /\ accepts (state_after s tr1) tr2.
Proof. revert s. induction tr1 as [|e tr1 IH]; intros s; cbn; [tauto|]. rewrite IH. tauto. Qed.

Lemma state_after_app s tr1 tr2 : state_after s (tr1 ++ tr2) = state_after (state_after s tr1) tr2.
Proof. apply foldl_app. Qed.
End with_protocol.

(** ** Counting *)

Definition occurrences (F : event -> bool) (tr : list event) : nat := length (List.filter F tr).

Lemma occurrences_app F tr1 tr2 : occurrences F (tr1 ++ tr2) = (occurrences F tr1 + occurrences F tr2)%nat.
Proof. unfold occurrences. by rewrite List.filter_app, length_app. Qed.

Lemma occurrences_snoc F tr e : occurrences F (tr ++ [e]) = (occurrences F tr + if F e then 1 else 0)%nat.
Proof. rewrite occurrences_app. unfold occurrences. cbn. by destruct (F e). Qed.

(** What the events of an accepted trace take minus what they give is what the
    state holds: a balance that each permitted action keeps. *)
Lemma accepts_balance (P : protocol) (hold : pstate P -> nat) (take give : event -> bool) s tr :
  accepts P s tr ->
  (forall s a r, allows P s a ->
     (hold (after P s a r) + (if give (existT a r) then 1 else 0) = hold s + (if take (existT a r) then 1 else 0))%nat) ->
  (hold (state_after P s tr) + occurrences give tr = hold s + occurrences take tr)%nat.
Proof.
  intros Htr Hstep. revert s Htr. induction tr as [|[a r] tr IH]; intros s; [done|]. intros [Ha Htr].
  specialize (IH _ Htr). specialize (Hstep s a r Ha). unfold occurrences, state_after in *. cbn in *.
  change (advance P s (existT a r)) with (after P s a r) in IH |- *. revert Hstep. destruct (give _), (take _); cbn; lia.
Qed.

(** The protocol with a budget of [n] actions that [F] selects. *)
Definition allowance (F : action -> bool) : protocol :=
  {| pstate := nat; allows n a := F a = true -> (0 < n)%nat; after n a _ := if F a then Nat.pred n else n |}.

Lemma allowance_bound F n tr :
  accepts (allowance F) n tr -> (occurrences (fun e => F (projT1 e)) tr <= n)%nat.
Proof.
  revert n. induction tr as [|[a r] tr IH]; intros n; [cbn; lia|]. intros [Ha Htr]. specialize (IH _ Htr).
  cbn in *. destruct (F a); cbn; [specialize (Ha eq_refl); unfold occurrences in *; lia|done].
Qed.

(** ** Procedures: programs over local variables *)

Section procedures.
Context {L : Type}.

Definition proc (A : Type) : Type := L -> prog (L * A).

Definition ret {A} (x : A) : proc A := fun l => Return (l, x).
Definition seq {A B} (m : proc A) (f : A -> proc B) : proc B := fun l => bind (m l) (fun '(l, x) => f x l).
Definition do (a : action) : proc (answer a) := fun l => Act a (fun r => Return (l, r)).
Definition get {A} (f : L -> A) : proc A := fun l => Return (l, f l).
Definition set (f : L -> L) : proc unit := fun l => Return (f l, tt).

(** [m] obeys [P] from [s] and the variables [l], and ends in [Q]. *)
Definition spec (P : protocol) {A} (s : pstate P) (l : L) (m : proc A) (Q : pstate P -> L -> A -> Prop) : Prop :=
  wp P s (m l) (fun s' lx => Q s' lx.1 lx.2).

Lemma spec_ret P {A} s l (x : A) Q : Q s l x -> spec P s l (ret x) Q.
Proof. done. Qed.

Lemma spec_seq P {A B} s l (m : proc A) (f : A -> proc B) R Q :
  spec P s l m R -> (forall s' l' x, R s' l' x -> spec P s' l' (f x) Q) -> spec P s l (seq m f) Q.
Proof. intros Hm Hf. unfold spec, seq. eapply wp_seq; [exact Hm|]. intros s' [l' x] H. by apply Hf. Qed.

Lemma spec_bind P {A B} s l (m : proc A) (f : A -> proc B) Q :
  spec P s l m (fun s' l' x => spec P s' l' (f x) Q) -> spec P s l (seq m f) Q.
Proof. intros H. by eapply spec_seq. Qed.

Lemma spec_mono P {A} s l (m : proc A) (Q Q' : pstate P -> L -> A -> Prop) :
  spec P s l m Q -> (forall s' l' x, Q s' l' x -> Q' s' l' x) -> spec P s l m Q'.
Proof. intros H HQ. eapply wp_mono; [exact H|]. intros s' [l' x]. apply HQ. Qed.

Lemma spec_do P s l a Q :
  allows P s a -> (forall r, Q (after P s a r) l r) -> spec P s l (do a) Q.
Proof. intros Ha Hr. split; [done|]. exact Hr. Qed.

Lemma spec_get P {A} s l (f : L -> A) Q : Q s l (f l) -> spec P s l (get f) Q.
Proof. done. Qed.

Lemma spec_set P s l f Q : Q s (f l) tt -> spec P s l (set f) Q.
Proof. done. Qed.

Lemma spec_and P {A} s l (m : proc A) (Q Q' : pstate P -> L -> A -> Prop) :
  spec P s l m Q -> spec P s l m Q' -> spec P s l m (fun s' l' x => Q s' l' x /\ Q' s' l' x).
Proof. apply wp_and. Qed.

(** The protocol that only restricts which actions occur. *)
Definition flat (F : action -> bool) : protocol :=
  {| pstate := unit; allows _ a := F a = true; after _ _ _ := tt |}.

(** A procedure that only performs actions [P] ignores leaves the state of [P]
    alone. *)
Lemma spec_flat (F : action -> bool) P {A} s l (m : proc A) Q :
  spec (flat F) tt l m Q ->
  (forall a, F a = true -> allows P s a /\ forall r, after P s a r = s) ->
  spec P s l m (fun s' l' x => s' = s /\ Q tt l' x).
Proof.
  intros H HF. unfold spec in *. revert H. induction (m l) as [[l' x]|a k IH]; cbn; [done|].
  intros [Ha Hk]. destruct (HF a Ha) as [Hallow Hafter]. split; [done|]. intros r. rewrite Hafter. by apply IH.
Qed.

(** [m] performs no action outside [F]. *)
Definition avoids (F : action -> bool) {A} (m : proc A) : Prop := forall l, spec (flat F) tt l m (fun _ _ _ => True).

Lemma avoids_seq F {A B} (m : proc A) (f : A -> proc B) : avoids F m -> (forall x, avoids F (f x)) -> avoids F (seq m f).
Proof. intros Hm Hf l. eapply spec_seq; [apply Hm|]. intros [] l' x _. apply Hf. Qed.

Lemma avoids_do F a : F a = true -> avoids F (do a).
Proof. intros Ha l. by apply spec_do. Qed.

Lemma avoids_ret F {A} (x : A) : avoids F (ret x).
Proof. done. Qed.

Lemma avoids_get F {A} (f : L -> A) : avoids F (get f).
Proof. done. Qed.

Lemma avoids_set F f : avoids F (set f).
Proof. done. Qed.
End procedures.
End interaction.

#[global] Arguments prog {action} answer A.
#[global] Arguments spec {action answer L} P {A} s l m Q : simpl never.
#[global] Arguments proc {action} answer L A.
#[global] Arguments protocol {action} answer.
#[global] Arguments event {action} answer.
#[global] Arguments avoids {action answer L} F {A} m : simpl never.

Declare Scope proc_scope.
Delimit Scope proc_scope with proc.
Notation "x <- m ;; k" := (seq m (fun x => k))
  (at level 60, m at next level, right associativity) : proc_scope.
Notation "m ;;; k" := (seq m (fun _ => k)) (at level 60, right associativity) : proc_scope.

(** Runs a specification through the straight-line part of a procedure. *)
Ltac spec_step :=
  lazymatch goal with
  | |- spec _ _ _ (seq _ _) _ => apply spec_bind
  | |- spec _ _ _ (ret _) _ => apply spec_ret
  | |- spec ?P ?s ?l (do ?a) ?Q => refine (spec_do P s l a Q _ _); [cbn; auto|intros ?]
  | |- spec _ _ _ (get _) _ => apply spec_get
  | |- spec _ _ _ (set _) _ => apply spec_set
  | |- spec _ _ _ (match ?x with _ => _ end) _ => destruct x eqn:?
  end.


Create HintDb avoids.

(** Walks through a procedure whose calls are in the database [avoids]. *)
Ltac avoid :=
  repeat first
    [ progress intros
    | solve [eauto with avoids]
    | apply avoids_seq
    | apply avoids_ret | apply avoids_get | apply avoids_set
    | lazymatch goal with |- avoids ?F (do ?a) => exact (avoids_do F a eq_refl) end
    | lazymatch goal with |- avoids _ (match ?x with _ => _ end) => destruct x end ].
