(* ===== verification/GoStrings.v ===== *)
(** * Go strings and UTF-8

    A Go string is a sequence of bytes: [String.string] here, or [list Z] of
    byte values where the code works on [[]byte].  This file holds what the
    modelled code uses of [strings], [unicode] and [unicode/utf8]. *)

From S2P Require Import Prelude.

Abbreviation byte := Z (only parsing).

Definition byte_of_ascii (a : Ascii.ascii) : byte := Z.of_N (Ascii.N_of_ascii a).
Definition ascii_of_byte (b : byte) : Ascii.ascii := Ascii.ascii_of_N (Z.to_N b).

Definition bytes_of_string (s : string) : list byte := byte_of_ascii <$> String.list_ascii_of_string s.
Definition string_of_bytes (l : list byte) : string := String.string_of_list_ascii (ascii_of_byte <$> l).

Lemma ascii_of_byte_of_ascii a : ascii_of_byte (byte_of_ascii a) = a.
Proof. unfold ascii_of_byte, byte_of_ascii. by rewrite N2Z.id, Ascii.ascii_N_embedding. Qed.

Lemma string_of_bytes_of_string s : string_of_bytes (bytes_of_string s) = s.
Proof.
  unfold string_of_bytes, bytes_of_string. rewrite <- list_fmap_compose.
  rewrite (list_fmap_ext _ id).
  - by rewrite list_fmap_id, String.string_of_list_ascii_of_string.
  - intros. apply ascii_of_byte_of_ascii.
Qed.

Lemma bytes_of_string_of_bytes l : Forall (fun b => 0 <= b < 256) l -> bytes_of_string (string_of_bytes l) = l.
Proof.
  intros Hl. unfold bytes_of_string, string_of_bytes. rewrite String.list_ascii_of_string_of_list_ascii.
  rewrite <- list_fmap_compose. induction Hl as [|b l Hb _ IH]; [done|]. cbn. f_equal; [|done].
  unfold byte_of_ascii, ascii_of_byte. rewrite Ascii.N_ascii_embedding; lia.
Qed.

(** ** [unicode/utf8] *)

Module Utf8.
Definition RuneError : Z := 65533.
Definition between (lo hi b : Z) : bool := (lo <=? b) && (b <=? hi).
Definition continuation (b : byte) : bool := between 128 191 b.
(** [utf8.RuneStart(b)]: [b&0xC0 != 0x80]. *)
Definition RuneStart (b : byte) : bool := negb (Z.land b 192 =? 128).

(** The accepted range of the second byte for each leading byte. *)
Definition second_ok (b0 b1 : byte) : bool :=
  if b0 =? 224 then between 160 191 b1
  else if b0 =? 237 then between 128 159 b1
  else if b0 =? 240 then between 144 191 b1
  else if b0 =? 244 then between 128 143 b1
  else continuation b1.

(** [utf8.DecodeRune]: the first rune and its width; an invalid encoding
    gives [(RuneError, 1)]. *)
Definition DecodeRune (p : list byte) : Z * nat :=
  match p with
  | [] => (RuneError, 0%nat)
  | b0 :: rest =>
      if b0 <? 128 then (b0, 1%nat)
      else match rest with
      | b1 :: rest1 =>
          if between 194 223 b0 && continuation b1 then
            (Z.land b0 31 * 64 + Z.land b1 63, 2%nat)
          else match rest1 with
          | b2 :: rest2 =>
              if between 224 239 b0 && second_ok b0 b1 && continuation b2 then
                (Z.land b0 15 * 4096 + Z.land b1 63 * 64 + Z.land b2 63, 3%nat)
              else match rest2 with
              | b3 :: _ =>
                  if between 240 244 b0 && second_ok b0 b1 && continuation b2 && continuation b3 then
                    (Z.land b0 7 * 262144 + Z.land b1 63 * 4096 + Z.land b2 63 * 64 + Z.land b3 63, 4%nat)
                  else (RuneError, 1%nat)
              | [] => (RuneError, 1%nat)
              end
          | [] => (RuneError, 1%nat)
          end
      | [] => (RuneError, 1%nat)
      end
  end.

(** [utf8.EncodeRune]: surrogates and values out of range become
    [RuneError]. *)
Definition valid_rune (r : Z) : bool := between 0 55295 r || between 57344 1114111 r.
Definition encode_valid (r : Z) : list byte :=
  if r <? 128 then [r]
  else if r <? 2048 then [Z.lor 192 (Z.shiftr r 6); Z.lor 128 (Z.land r 63)]
  else if r <? 65536 then
    [Z.lor 224 (Z.shiftr r 12); Z.lor 128 (Z.land (Z.shiftr r 6) 63); Z.lor 128 (Z.land r 63)]
  else
    [Z.lor 240 (Z.shiftr r 18); Z.lor 128 (Z.land (Z.shiftr r 12) 63);
     Z.lor 128 (Z.land (Z.shiftr r 6) 63); Z.lor 128 (Z.land r 63)].
Definition EncodeRune (r : Z) : list byte := encode_valid (if valid_rune r then r else RuneError).

Lemma DecodeRune_width p :
  p <> [] -> (1 <= (DecodeRune p).2 <= length p)%nat.
Proof.
  intros Hp. destruct p as [|b0 [|b1 [|b2 [|b3 rest]]]]; [done|..]; simpl;
    repeat case_match; simpl; lia.
Qed.

(** The runes of a byte string, each with its encoding.  The fuel is the
    number of bytes; every rune consumes at least one. *)
Fixpoint runes_fuel (fuel : nat) (p : list byte) : list (Z * list byte) :=
  match fuel, p with
  | S fuel, _ :: _ =>
      let '(r, size) := DecodeRune p in
      (r, take size p) :: runes_fuel fuel (drop size p)
  | _, _ => []
  end.
Definition runes (p : list byte) : list (Z * list byte) := runes_fuel (length p) p.

Lemma runes_fuel_concat fuel p :
  (length p <= fuel)%nat -> concat (snd <$> runes_fuel fuel p) = p.
Proof.
  revert p. induction fuel as [|fuel IH]; intros [|b p] Hlen; try done; [simpl in *; lia|].
  pose proof (DecodeRune_width (b :: p) ltac:(done)) as Hw.
  cbn [runes_fuel]. destruct (DecodeRune (b :: p)) as [r size].
  cbn [fmap list_fmap concat snd] in *. rewrite IH; [by rewrite take_drop|].
  rewrite length_drop. simpl in *. lia.
Qed.

Lemma runes_concat p : concat (snd <$> runes p) = p.
Proof. by apply runes_fuel_concat. Qed.
End Utf8.

(** ** [unicode] *)

Module Unicode.
Definition IsControl (r : Z) : bool := Utf8.between 0 31 r || Utf8.between 127 159 r.
(** The category Cf (format characters) of the Unicode tables. *)
Definition Cf (r : Z) : bool :=
  existsb (fun p => Utf8.between p.1 p.2 r)
    [(173, 173); (1536, 1541); (1564, 1564); (1757, 1757); (1807, 1807); (2192, 2193);
     (2274, 2274); (6158, 6158); (8203, 8207); (8234, 8238); (8288, 8292); (8294, 8303);
     (65279, 65279); (65529, 65531); (69821, 69821); (69837, 69837); (78896, 78911);
     (113824, 113827); (119155, 119162); (917505, 917505); (917536, 917631)].
Definition IsSpace (r : Z) : bool :=
  (Utf8.between 9 13 r) || (r =? 32) || (r =? 133) || (r =? 160) || (r =? 5760) ||
  (Utf8.between 8192 8202 r) || (r =? 8232) || (r =? 8233) || (r =? 8239) ||
  (r =? 8287) || (r =? 12288).
End Unicode.

(** ** [strings] *)

Module Strings.
Fixpoint drop_while {A} (f : A -> bool) (l : list A) : list A :=
  match l with
  | [] => []
  | x :: l' => if f x then drop_while f l' else l
  end.

Definition trim_runes (l : list (Z * list byte)) : list (Z * list byte) :=
  let space rb := Unicode.IsSpace rb.1 in
  rev (drop_while space (rev (drop_while space l))).

Definition TrimSpace (s : string) : string :=
  string_of_bytes (concat (snd <$> trim_runes (Utf8.runes (bytes_of_string s)))).

Definition HasPrefix (s prefix : string) : bool := String.prefix prefix s.
Fixpoint string_rev (s acc : string) : string :=
  match s with
  | EmptyString => acc
  | String c s' => string_rev s' (String c acc)
  end.
Definition HasSuffix (s suffix : string) : bool :=
  String.prefix (string_rev suffix "") (string_rev s "").

(** [strings.Contains]. *)
Fixpoint Contains (s sub : string) : bool :=
  String.prefix sub s ||
  match s with
  | EmptyString => false
  | String _ s' => Contains s' sub
  end.

(** [strings.ReplaceAll] for a nonempty [old]. *)
Fixpoint replace_fuel (fuel : nat) (s old new : string) : string :=
  match fuel, s with
  | S fuel, String c s' =>
      if String.prefix old s
      then new +:+ replace_fuel fuel (String.substring (String.length old) (String.length s) s) old new
      else String c (replace_fuel fuel s' old new)
  | _, _ => s
  end.
Definition ReplaceAll (s old new : string) : string := replace_fuel (String.length s) s old new.

(** The runes of a string ([[]rune(s)]) and back ([string(runes)]). *)
Definition runes (s : string) : list Z := fst <$> Utf8.runes (bytes_of_string s).
Definition of_runes (l : list Z) : string := string_of_bytes (concat (Utf8.EncodeRune <$> l)).

(** [strings.Map] for a mapping that drops no rune. *)
Definition Map (f : Z -> Z) (s : string) : string := of_runes (f <$> runes s).

(** [strings.Fields]: maximal runs of non-space runes. *)
Fixpoint fields (l : list (Z * list byte)) (word : list byte) : list (list byte) :=
  match l with
  | [] => if word is [] then [] else [word]
  | (r, bs) :: l =>
      if Unicode.IsSpace r
      then (if word is [] then fields l [] else word :: fields l [])
      else fields l (word ++ bs)
  end.
Definition Fields (s : string) : list string :=
  string_of_bytes <$> fields (Utf8.runes (bytes_of_string s)) [].

Definition Join (l : list string) (sep : string) : string := String.concat sep l.

(** [strings.ToLower] and [strings.ToUpper] on ASCII text. *)
Definition lower_ascii (a : Ascii.ascii) : Ascii.ascii :=
  let b := byte_of_ascii a in if Utf8.between 65 90 b then ascii_of_byte (b + 32) else a.
Definition upper_ascii (a : Ascii.ascii) : Ascii.ascii :=
  let b := byte_of_ascii a in if Utf8.between 97 122 b then ascii_of_byte (b - 32) else a.
Definition map_ascii (f : Ascii.ascii -> Ascii.ascii) (s : string) : string :=
  String.string_of_list_ascii (f <$> String.list_ascii_of_string s).
Definition ToLowerASCII (s : string) : string := map_ascii lower_ascii s.
Definition ToUpperASCII (s : string) : string := map_ascii upper_ascii s.

(** [len(s)]. *)
Definition len (s : string) : Z := Z.of_nat (String.length s).

Definition all (f : Z -> bool) (s : string) : bool :=
  forallb (fun a => f (byte_of_ascii a)) (String.list_ascii_of_string s).

Definition contains_byte (set : string) (b : Z) : bool :=
  existsb (fun a => byte_of_ascii a =? b) (String.list_ascii_of_string set).
End Strings.

(** ** [strconv] *)

Module Strconv.
Fixpoint digits_value (l : list byte) (acc : Z) : Z :=
  match l with
  | [] => acc
  | b :: l => digits_value l (acc * 10 + (b - 48))
  end.
(** [strconv.ParseInt(s, 10, 64)] of a string of decimal digits: [None] when
    it is empty, has another byte, or does not fit. *)
Definition ParseDigits (s : string) : option Z :=
  if String.eqb s "" || negb (Strings.all (Utf8.between 48 57) s) then None
  else let n := digits_value (bytes_of_string s) 0 in
       if n <=? max_int64 then Some n else None.
End Strconv.

Example trim_space_ascii : Strings.TrimSpace "  a b	" = "a b".
Proof. reflexivity. Qed.

Example trim_space_blank : Strings.TrimSpace "  " = "".
Proof. reflexivity. Qed.

(** ** [regexp]

    The part of Go's regular expressions that the program uses: rune sets,
    concatenation, alternation, greedy repetition, anchors, ASCII word
    boundaries and capturing groups, with leftmost-first matching.  The
    subject is a list of runes, each with the bytes it was decoded from. *)

Module Regexp.
Abbreviation subject := (list (Z * list byte)) (only parsing).

Inductive re :=
  | REmpty
  | RSet (accepts : Z -> bool)
  | RCat (a b : re)
  | RAlt (a b : re)
  | RStar (a : re)
  | RWord
  | RBegin
  | REnd
  | RGroup (n : nat) (a : re).

Definition text (s : subject) : list byte := concat (snd <$> s).

Definition word_rune (r : option Z) : bool :=
  match r with
  | Some r => Utf8.between 48 57 r || Utf8.between 65 90 r || Utf8.between 97 122 r || (r =? 95)
  | None => false
  end.

Definition next_rune (s : subject) : option Z := fst <$> head s.

(** A match in progress: the previous rune, what is left, and the groups
    recorded so far. *)
Record position := {
  prev : option Z;
  rest : subject;
  groups : list (nat * list byte);
}.

Section match_at.
Context {A : Type}.

(** [greedy n one p k]: as many repetitions of [one] as possible, at most
    [n], each consuming something, then [k]. *)
Fixpoint greedy (n : nat) (one : position -> (position -> option A) -> option A)
    (p : position) (k : position -> option A) : option A :=
  match n with
  | O => k p
  | S n =>
      match one p (fun q => if (length (rest q) <? length (rest p))%nat then greedy n one q k else None) with
      | Some a => Some a
      | None => k p
      end
  end.

Fixpoint matches (r : re) (p : position) (k : position -> option A) : option A :=
  match r with
  | REmpty => k p
  | RSet f =>
      match rest p with
      | (c, _) :: s => if f c then k {| prev := Some c; rest := s; groups := groups p |} else None
      | [] => None
      end
  | RCat a b => matches a p (fun q => matches b q k)
  | RAlt a b => match matches a p k with Some x => Some x | None => matches b p k end
  | RStar a => greedy (length (rest p)) (matches a) p k
  | RWord => if xorb (word_rune (prev p)) (word_rune (next_rune (rest p))) then k p else None
  | RBegin => match prev p with None => k p | Some _ => None end
  | REnd => match rest p with [] => k p | _ => None end
  | RGroup n a =>
      matches a p (fun q =>
        k {| prev := prev q; rest := rest q;
             groups := groups q ++ [(n, text (take (length (rest p) - length (rest q)) (rest p)))] |})
  end.
End match_at.

Definition start (pr : option Z) (s : subject) : position := {| prev := pr; rest := s; groups := [] |}.

(** First match at this position or later: the runes skipped, the position
    after the match. *)
Fixpoint find_from (r : re) (pr : option Z) (s : subject) : option (subject * position) :=
  match matches r (start pr s) Some with
  | Some q => Some ([], q)
  | None =>
      match s with
      | [] => None
      | c :: s' =>
          match find_from r (Some c.1) s' with
          | Some (skipped, q) => Some (c :: skipped, q)
          | None => None
          end
      end
  end.

Definition subject_of (s : string) : subject := Utf8.runes (bytes_of_string s).
Definition MatchString (r : re) (s : string) : bool :=
  match find_from r None (subject_of s) with Some _ => true | None => false end.

(** Successive non-overlapping matches of expressions that match no empty
    string, as all those of the program: the text before each match and its
    groups, then the text after the last one. *)
Fixpoint all_matches (fuel : nat) (r : re) (pr : option Z) (s : subject)
    : list (list byte * list (nat * list byte)) * list byte :=
  match fuel with
  | O => ([], text s)
  | S fuel =>
      match find_from r pr s with
      | None => ([], text s)
      | Some (skipped, q) =>
          if (length (rest q) <? length s)%nat then
            let '(ms, tail) := all_matches fuel r (prev q) (rest q) in
            ((text skipped, groups q) :: ms, tail)
          else ([], text s)
      end
  end.

Definition find_all (r : re) (s : string) : list (list byte * list (nat * list byte)) * list byte :=
  let sub := subject_of s in all_matches (length sub) r None sub.

Definition ReplaceAllString (r : re) (s repl : string) : string :=
  let '(ms, tail) := find_all r s in
  string_of_bytes (concat (map (fun m => m.1 ++ bytes_of_string repl) ms) ++ tail).

Definition FindAllStringSubmatch (r : re) (s : string) : list (list (nat * string)) :=
  map (fun m => map (fun g => (g.1, string_of_bytes g.2)) m.2) (find_all r s).1.

(** *** Building expressions *)

Definition in_ranges (l : list (Z * Z)) (c : Z) : bool := existsb (fun r => Utf8.between r.1 r.2 c) l.
Definition set (l : list (Z * Z)) : re := RSet (in_ranges l).
Definition set_not (l : list (Z * Z)) : re := RSet (fun c => negb (in_ranges l c)).
Definition rune (c : Z) : re := set [(c, c)].
Definition opt (r : re) : re := RAlt r REmpty.
Definition plus (r : re) : re := RCat r (RStar r).
Fixpoint times (n : nat) (r : re) : re := match n with O => REmpty | S n => RCat r (times n r) end.
Fixpoint at_most (n : nat) (r : re) : re :=
  match n with O => REmpty | S n => opt (RCat r (at_most n r)) end.
Definition repeat (lo hi : nat) (r : re) : re := RCat (times lo r) (at_most (hi - lo) r).
Definition at_least (lo : nat) (r : re) : re := RCat (times lo r) (RStar r).
Definition seq (l : list re) : re := foldr RCat REmpty l.
Definition alt (l : list re) : re := match l with [] => REmpty | r :: l => foldl RAlt r l end.
Definition exact (s : string) : re := seq (rune <$> bytes_of_string s).

(** A letter under [(?i)]: both cases, and the two non-ASCII runes that fold
    to an ASCII letter (U+017F for s, U+212A for k). *)
Definition fold_rune (c : Z) : re :=
  set ([(c, c)] ++ (if Utf8.between 97 122 c then [(c - 32, c - 32)] else [])
       ++ (if c =? 115 then [(383, 383)] else []) ++ (if c =? 107 then [(8490, 8490)] else [])).
Definition folded (s : string) : re := seq (fold_rune <$> bytes_of_string s).

(** Classes used by the program's patterns. *)
Definition digits : list (Z * Z) := [(48, 57)].
Definition lower : list (Z * Z) := [(97, 122)].
Definition upper : list (Z * Z) := [(65, 90)].
Definition alnum : list (Z * Z) := upper ++ lower ++ digits.
Definition space_class : list (Z * Z) := [(9, 10); (12, 13); (32, 32)].
Definition one_of (s : string) : list (Z * Z) := (fun b => (b, b)) <$> bytes_of_string s.
(** A class under [(?i)] that contains all ASCII letters also contains the
    two runes that fold to one. *)
Definition folded_letters : list (Z * Z) := [(383, 383); (8490, 8490)].
End Regexp.

Example regexp_anchored :
  Regexp.MatchString (Regexp.seq [Regexp.RBegin; Regexp.repeat 1 8 (Regexp.set Regexp.digits); Regexp.REnd]) "1234" = true.
Proof. reflexivity. Qed.

Example regexp_replace :
  Regexp.ReplaceAllString (Regexp.seq [Regexp.RWord; Regexp.folded "sk-"; Regexp.at_least 6 (Regexp.set Regexp.alnum)])
    "key SK-abcdef12, ask-abcdefgh" "[redacted]" = "key [redacted], ask-abcdefgh".
Proof. vm_compute. reflexivity. Qed.

(** ** Sorting: [sort.Strings] orders by bytes *)

Module Sort.
Definition le (s t : string) : Prop := String.leb s t = true.

#[export] Instance le_dec : RelDecision le.
Proof. intros s t. unfold le. apply _. Defined.

#[export] Instance le_total : Total le.
Proof. intros s t. apply String.leb_total. Qed.

#[export] Instance le_antisymm : AntiSymm (=) le.
Proof. intros s t. apply String.leb_antisym. Qed.

Lemma compare_refl s : String.compare s s = Eq.
Proof. pose proof (String.compare_antisym s s) as H. by destruct (String.compare s s). Qed.

#[export] Instance le_trans : Transitive le.
Proof.
  assert (Hc : forall a b, Ascii.compare a b = N.compare (Ascii.N_of_ascii a) (Ascii.N_of_ascii b)) by done.
  unfold le, String.leb. intros s. induction s as [|a s IH]; intros [|b t] [|c u]; simpl; try done.
  rewrite !Hc. specialize (IH t u).
  destruct (N.compare_spec (Ascii.N_of_ascii a) (Ascii.N_of_ascii b)) as [E1|E1|E1],
           (N.compare_spec (Ascii.N_of_ascii b) (Ascii.N_of_ascii c)) as [E2|E2|E2],
           (N.compare_spec (Ascii.N_of_ascii a) (Ascii.N_of_ascii c)) as [E3|E3|E3]; try done; try lia.
Qed.

Definition Strings (l : list string) : list string := merge_sort le l.

Lemma Strings_perm l : Strings l ≡ₚ l.
Proof. apply merge_sort_Permutation. Qed.

Lemma Strings_sorted l : StronglySorted le (Strings l).
Proof. apply StronglySorted_merge_sort; apply _. Qed.

Lemma elem_of_Strings x l : x ∈ Strings l <-> x ∈ l.
Proof. by rewrite Strings_perm. Qed.
End Sort.
