(* ===== verification/Utf8Facts.v ===== *)
(** * UTF-8 text

    [Utf8.DecodeRune] and [Utf8.encode_valid] are inverse to each other, and
    the runes of an encoded text are the ones that were encoded. *)

From S2P Require Import Prelude GoStrings.

Lemma high_bits b k n : 0 <= b < 2 ^ k -> k <= n -> Z.testbit b n = false.
Proof.
  intros Hb Hn. destruct (decide (b = 0)) as [->|Hne]; [apply Z.testbit_0_l|].
  apply Z.bits_above_log2; [lia|]. enough (Z.log2 b < k) by lia. apply Z.log2_lt_pow2; lia.
Qed.

Lemma lor_add a k b : 0 <= k -> 0 <= b < 2 ^ k -> Z.lor (a * 2 ^ k) b = a * 2 ^ k + b.
Proof.
  intros Hk Hb. rewrite <- Z.add_lor_land. enough (Z.land (a * 2 ^ k) b = 0) by lia.
  apply Z.bits_inj'. intros n Hn. rewrite Z.land_spec, Z.testbit_0_l. destruct (decide (n < k)) as [Hlt|Hge].
  - by rewrite Z.mul_pow2_bits_low.
  - rewrite (high_bits b k n) by lia. apply andb_false_r.
Qed.

(** The leading bits of a byte, and its payload. *)
Lemma tag_byte tag k b : 0 <= k -> 0 <= b < 2 ^ k -> tag mod 2 ^ k = 0 ->
  Z.lor tag b = tag + b /\ Z.land (tag + b) (2 ^ k - 1) = b.
Proof.
  intros Hk Hb Htag. assert (Ht : tag = tag / 2 ^ k * 2 ^ k) by (pose proof (Z.div_mod tag (2 ^ k)); lia).
  split; [rewrite Ht; by apply lor_add|].
  change (2 ^ k - 1) with (Z.pred (2 ^ k)). rewrite <- Z.ones_equiv, Z.land_ones by done.
  rewrite Ht, Z.add_comm, Z.mod_add by lia. by apply Z.mod_small.
Qed.

Lemma low_bits a k : 0 <= k -> Z.land a (2 ^ k - 1) = a mod 2 ^ k.
Proof. intros Hk. change (2 ^ k - 1) with (Z.pred (2 ^ k)). by rewrite <- Z.ones_equiv, Z.land_ones. Qed.

Lemma between_true lo hi b : Utf8.between lo hi b = true <-> lo <= b <= hi.
Proof. unfold Utf8.between. rewrite andb_true_iff, !Z.leb_le. done. Qed.

(** The six low bits of a rune, and the rest. *)
Lemma split6 r : 0 <= r -> exists q b, r = q * 64 + b /\ 0 <= b < 64 /\ 0 <= q /\ Z.shiftr r 6 = q /\ Z.land r 63 = b.
Proof.
  intros Hr. exists (r / 64), (r mod 64). pose proof (Z.div_mod r 64 ltac:(lia)). pose proof (Z.mod_pos_bound r 64 ltac:(lia)).
  pose proof (Z.div_pos r 64 ltac:(lia) ltac:(lia)).
  split_and!; [lia..|by rewrite Z.shiftr_div_pow2|exact (low_bits r 6 ltac:(lia))].
Qed.

Lemma continuation_byte b : 0 <= b < 64 ->
  Z.lor 128 b = 128 + b /\ Utf8.continuation (128 + b) = true /\ Z.land (128 + b) 63 = b.
Proof.
  intros Hb. destruct (tag_byte 128 6 b ltac:(lia) ltac:(lia) eq_refl) as [H1 H2]. split_and!; [done| |done].
  apply between_true. lia.
Qed.

Lemma decode_two q b rest : 2 <= q < 32 -> 0 <= b < 64 ->
  Utf8.DecodeRune ([Z.lor 192 q; Z.lor 128 b] ++ rest) = (q * 64 + b, 2%nat).
Proof.
  intros Hq Hb. destruct (tag_byte 192 5 q ltac:(lia) ltac:(lia) eq_refl) as [-> H2].
  destruct (continuation_byte b Hb) as (-> & Hc & H3). cbn [app Utf8.DecodeRune]. change (2 ^ 5 - 1) with 31 in H2.
  rewrite (proj2 (Z.ltb_ge _ _)) by lia. rewrite (proj2 (between_true 194 223 _)) by lia. by rewrite Hc, H2, H3.
Qed.

Lemma decode_three p q b rest : 0 <= p < 16 -> 0 <= q < 64 -> 0 <= b < 64 -> (p = 0 -> 32 <= q) -> (p = 13 -> q < 32) ->
  Utf8.DecodeRune ([Z.lor 224 p; Z.lor 128 q; Z.lor 128 b] ++ rest) = ((p * 64 + q) * 64 + b, 3%nat).
Proof.
  intros Hp Hq Hb H0 H13. destruct (tag_byte 224 4 p ltac:(lia) ltac:(lia) eq_refl) as [-> H2].
  destruct (continuation_byte q Hq) as (-> & Hc & H3). destruct (continuation_byte b Hb) as (-> & Hd & H4).
  cbn [app Utf8.DecodeRune]. change (2 ^ 4 - 1) with 15 in H2. rewrite (proj2 (Z.ltb_ge _ _)) by lia.
  assert (Hn : Utf8.between 194 223 (224 + p) = false) by (apply not_true_iff_false; rewrite between_true; lia). rewrite Hn.
  cbn [andb]. rewrite (proj2 (between_true 224 239 _)) by lia.
  assert (Hs : Utf8.second_ok (224 + p) (128 + q) = true).
  { unfold Utf8.second_ok. repeat case_match; rewrite ?Z.eqb_eq, ?Z.eqb_neq in *; try done; apply between_true; lia. }
  rewrite Hs, Hd, H2, H3, H4. cbn [andb]. f_equal. lia.
Qed.

Lemma decode_four o p q b rest : 0 <= o < 5 -> 0 <= p < 64 -> 0 <= q < 64 -> 0 <= b < 64 -> (o = 0 -> 16 <= p) -> (o = 4 -> p < 16) ->
  Utf8.DecodeRune ([Z.lor 240 o; Z.lor 128 p; Z.lor 128 q; Z.lor 128 b] ++ rest) = (((o * 64 + p) * 64 + q) * 64 + b, 4%nat).
Proof.
  intros Ho Hp Hq Hb H0 H4'. destruct (tag_byte 240 3 o ltac:(lia) ltac:(lia) eq_refl) as [-> H2].
  destruct (continuation_byte p Hp) as (-> & Hc & H3). destruct (continuation_byte q Hq) as (-> & Hd & H4).
  destruct (continuation_byte b Hb) as (-> & He & H5).
  cbn [app Utf8.DecodeRune]. change (2 ^ 3 - 1) with 7 in H2. rewrite (proj2 (Z.ltb_ge _ _)) by lia.
  assert (Hn : Utf8.between 194 223 (240 + o) = false) by (apply not_true_iff_false; rewrite between_true; lia).
  assert (Hm : Utf8.between 224 239 (240 + o) = false) by (apply not_true_iff_false; rewrite between_true; lia). rewrite Hn, Hm.
  cbn [andb]. rewrite (proj2 (between_true 240 244 _)) by lia.
  assert (Hs : Utf8.second_ok (240 + o) (128 + p) = true).
  { unfold Utf8.second_ok. repeat case_match; rewrite ?Z.eqb_eq, ?Z.eqb_neq in *; try done; apply between_true; lia. }
  rewrite Hs, Hd, He, H2, H3, H4, H5. cbn [andb]. f_equal. lia.
Qed.

Lemma shiftr_12 r : Z.shiftr r 12 = Z.shiftr (Z.shiftr r 6) 6.
Proof. by rewrite Z.shiftr_shiftr. Qed.
Lemma shiftr_18 r : Z.shiftr r 18 = Z.shiftr (Z.shiftr (Z.shiftr r 6) 6) 6.
Proof. by rewrite !Z.shiftr_shiftr. Qed.

(** Decoding gives back the rune that was encoded. *)
Lemma decode_encode r rest : Utf8.valid_rune r = true ->
  Utf8.DecodeRune (Utf8.encode_valid r ++ rest) = (r, length (Utf8.encode_valid r)).
Proof.
  unfold Utf8.valid_rune. rewrite orb_true_iff, !between_true. intros Hv. unfold Utf8.encode_valid.
  destruct (Z.ltb_spec r 128).
  { cbn. by rewrite (proj2 (Z.ltb_lt r 128)). }
  destruct (split6 r) as (q & b & Hr & Hb & Hq & Hs & Hl); [lia|]. rewrite ?shiftr_18, ?shiftr_12, !Hs, Hl.
  destruct (Z.ltb_spec r 2048); [rewrite decode_two by lia; by rewrite <- Hr|].
  destruct (split6 q) as (p & b' & Hr' & Hb' & Hp & Hs' & Hl'); [lia|]. rewrite !Hs', Hl'.
  destruct (Z.ltb_spec r 65536).
  { rewrite decode_three by lia. f_equal. lia. }
  destruct (split6 p) as (o & b'' & Hr'' & Hb'' & Ho & Hs'' & Hl''); [lia|]. rewrite Hs'', Hl''.
  rewrite decode_four by lia. f_equal. lia.
Qed.

Lemma encode_valid_bytes r : Utf8.valid_rune r = true ->
  Forall (fun b => 0 <= b < 256) (Utf8.encode_valid r) /\ (1 <= length (Utf8.encode_valid r))%nat.
Proof.
  unfold Utf8.valid_rune. rewrite orb_true_iff, !between_true. intros Hv. unfold Utf8.encode_valid.
  destruct (Z.ltb_spec r 128); [split; [by repeat constructor; lia|done]|].
  destruct (split6 r) as (q & b & Hr & Hb & Hq & Hs & Hl); [lia|]. rewrite ?shiftr_18, ?shiftr_12, !Hs, Hl.
  destruct (continuation_byte b Hb) as (-> & _).
  destruct (Z.ltb_spec r 2048).
  { destruct (tag_byte 192 5 q ltac:(lia) ltac:(lia) eq_refl) as [-> _]. split; [repeat constructor; lia|simpl; lia]. }
  destruct (split6 q) as (p & b' & Hr' & Hb' & Hp & Hs' & Hl'); [lia|]. rewrite !Hs', Hl'.
  destruct (continuation_byte b' Hb') as (-> & _).
  destruct (Z.ltb_spec r 65536).
  { destruct (tag_byte 224 4 p ltac:(lia) ltac:(lia) eq_refl) as [-> _]. split; [repeat constructor; lia|simpl; lia]. }
  destruct (split6 p) as (o & b'' & Hr'' & Hb'' & Ho & Hs'' & Hl''); [lia|]. rewrite Hs'', Hl''.
  destruct (continuation_byte b'' Hb'') as (-> & _).
  destruct (tag_byte 240 3 o ltac:(lia) ltac:(lia) eq_refl) as [-> _]. split; [repeat constructor; lia|simpl; lia].
Qed.

(** The first byte of a rune outside ASCII. *)
Lemma encode_valid_high r : Utf8.valid_rune r = true -> 128 <= r ->
  exists b l, Utf8.encode_valid r = b :: l /\ 128 <= b /\ (2 <= length (Utf8.encode_valid r))%nat.
Proof.
  unfold Utf8.valid_rune. rewrite orb_true_iff, !between_true. intros Hv Hr. unfold Utf8.encode_valid.
  rewrite (proj2 (Z.ltb_ge r 128)) by lia.
  assert (H : forall tag x, 0 <= tag -> Z.testbit tag 7 = true -> 0 <= x -> 128 <= Z.lor tag x).
  { intros tag x Ht H7 Hx. assert (0 <= Z.lor tag x) by (by apply Z.lor_nonneg).
    destruct (Z.le_gt_cases 128 (Z.lor tag x)); [done|]. exfalso.
    assert (Hb : Z.testbit (Z.lor tag x) 7 = false) by (apply high_bits with 7; lia). by rewrite Z.lor_spec, H7 in Hb. }
  assert (Hshift : forall n, 0 <= Z.shiftr r n) by (intros n; apply Z.shiftr_nonneg; lia).
  destruct (r <? 2048); [|destruct (r <? 65536)]; eexists _, _; (split; [reflexivity|]; split; [apply H; [lia|done|done]|simpl; lia]).
Qed.

Definition valid_runes (rs : list Z) : Prop := Forall (fun r => Utf8.valid_rune r = true) rs.

Lemma runes_encoded rs : valid_runes rs ->
  Utf8.runes (concat (Utf8.encode_valid <$> rs)) = (fun r => (r, Utf8.encode_valid r)) <$> rs.
Proof.
  intros Hrs. unfold Utf8.runes. generalize (le_n (length (concat (Utf8.encode_valid <$> rs)))).
  generalize (length (concat (Utf8.encode_valid <$> rs))) at 2 3 as fuel. revert Hrs.
  induction rs as [|r rs IH]; intros Hrs fuel Hf; [by destruct fuel|]. inversion_clear Hrs as [|? ? Hr Hrs'].
  destruct (encode_valid_bytes r Hr) as [_ Hlen]. cbn [fmap list_fmap concat] in *. rewrite length_app in Hf.
  destruct fuel as [|fuel]; [lia|]. pose proof (decode_encode r (concat (Utf8.encode_valid <$> rs)) Hr) as Hd.
  destruct (Utf8.encode_valid r ++ concat (Utf8.encode_valid <$> rs)) as [|b l] eqn:Hl.
  { apply (f_equal length) in Hl. rewrite length_app in Hl. simpl in Hl. lia. }
  cbn [Utf8.runes_fuel]. rewrite Hd, <- Hl, take_app_length, drop_app_length. f_equal. apply IH; [done|lia].
Qed.


(** ** Decoding first *)

Lemma payload tag k b lo hi : 0 <= k -> tag mod 2 ^ k = 0 -> lo = tag -> hi <= tag + 2 ^ k - 1 -> lo <= b <= hi ->
  exists q, b = tag + q /\ 0 <= q < 2 ^ k /\ Z.land b (2 ^ k - 1) = q /\ Z.lor tag q = b.
Proof.
  intros Hk Htag -> Hhi Hb. exists (b - tag). split; [lia|]. split; [lia|].
  destruct (tag_byte tag k (b - tag) Hk ltac:(lia) Htag) as [H1 H2]. replace (tag + (b - tag)) with b in * by lia. done.
Qed.

Lemma continuation_payload b : Utf8.continuation b = true -> exists q, b = 128 + q /\ 0 <= q < 64 /\ Z.land b 63 = q /\ Z.lor 128 q = b.
Proof. intros H%between_true. apply (payload 128 6 b 128 191); try done; lia. Qed.

Lemma join_shift q b : 0 <= b < 64 -> Z.shiftr (q * 64 + b) 6 = q /\ Z.land (q * 64 + b) 63 = b.
Proof.
  intros Hb. rewrite Z.shiftr_div_pow2 by lia. change (2 ^ 6) with 64. rewrite Z.div_add_l, Z.div_small by lia. split; [lia|].
  change 63 with (2 ^ 6 - 1). rewrite low_bits by lia. change (2 ^ 6) with 64. rewrite Z.add_comm, Z.mod_add by lia. by apply Z.mod_small.
Qed.

Lemma second_payload b0 b1 : Utf8.second_ok b0 b1 = true -> exists q, b1 = 128 + q /\ 0 <= q < 64 /\ Z.land b1 63 = q /\ Z.lor 128 q = b1 /\
  (b0 = 224 -> 32 <= q) /\ (b0 = 237 -> q < 32) /\ (b0 = 240 -> 16 <= q) /\ (b0 = 244 -> q < 16).
Proof.
  intros H. assert (Hc : Utf8.continuation b1 = true).
  { unfold Utf8.second_ok in H. apply between_true. repeat case_match; rewrite ?between_true in H; try lia. by apply between_true in H. }
  destruct (continuation_payload b1 Hc) as (q & E & Hq & H1 & H2). exists q. split_and!; try done; try lia.
  all: intros ->; unfold Utf8.second_ok in H; cbn in H; apply between_true in H; lia.
Qed.

Lemma valid_in_range r : 0 <= r < 55296 \/ 57344 <= r <= 1114111 -> Utf8.valid_rune r = true.
Proof. unfold Utf8.valid_rune. rewrite orb_true_iff, !between_true. lia. Qed.

Definition is_bytes (l : list byte) : Prop := Forall (fun b => 0 <= b < 256) l.

(** What is decoded is an error of one byte, or was an encoding. *)
Lemma decode_valid p : is_bytes p -> p <> [] -> let (r, n) := Utf8.DecodeRune p in
  r = Utf8.RuneError /\ n = 1%nat \/ Utf8.valid_rune r = true /\ take n p = Utf8.encode_valid r.
Proof.
  intros Hp Hne. destruct p as [|b0 p]; [done|]. apply Forall_cons in Hp as [H0 _]. cbn [Utf8.DecodeRune].
  destruct (Z.ltb_spec b0 128) as [Hlo|Hhi].
  { right. unfold Utf8.encode_valid. rewrite (proj2 (Z.ltb_lt b0 128)) by lia. split; [apply valid_in_range; lia|done]. }
  destruct p as [|b1 p]; [by left|]. destruct (Utf8.between 194 223 b0 && Utf8.continuation b1) eqn:E2.
  { right. apply andb_true_iff in E2 as [E0%between_true E1].
    destruct (payload 192 5 b0 192 223) as (q & -> & Hq & L0 & R0); try done; try lia. change (2 ^ 5 - 1) with 31 in L0. change (2 ^ 5) with 32 in Hq.
    destruct (continuation_payload b1 E1) as (b & E & Hb & L1 & R1). rewrite L0, L1. destruct (join_shift q b Hb) as [S1 S2].
    split; [apply valid_in_range; lia|]. unfold Utf8.encode_valid. rewrite (proj2 (Z.ltb_ge _ 128)), (proj2 (Z.ltb_lt _ 2048)) by lia.
    rewrite S1, S2, R0, R1. done. }
  destruct p as [|b2 p]; [by left|]. destruct (Utf8.between 224 239 b0 && _ && _) eqn:E3.
  { right. rewrite !andb_true_iff, between_true in E3. destruct E3 as [[E0 E1] E3].
    destruct (payload 224 4 b0 224 239) as (o & Eo & Ho & L0 & R0); try done; try lia. change (2 ^ 4 - 1) with 15 in L0. change (2 ^ 4) with 16 in Ho.
    destruct (second_payload b0 b1 E1) as (q & Eq & Hq & L1 & R1 & C1 & C2 & _). destruct (continuation_payload b2 E3) as (b & E & Hb & L2 & R2).
    rewrite L0, L1, L2. replace (o * 4096 + q * 64 + b) with ((o * 64 + q) * 64 + b) by lia.
    destruct (join_shift (o * 64 + q) b Hb) as [S1 S2], (join_shift o q Hq) as [S3 S4].
    split; [apply valid_in_range; lia|]. unfold Utf8.encode_valid.
    rewrite (proj2 (Z.ltb_ge _ 128)), (proj2 (Z.ltb_ge _ 2048)), (proj2 (Z.ltb_lt _ 65536)) by lia.
    rewrite shiftr_12, S1, S2, S3, S4, R0, R1, R2. done. }
  destruct p as [|b3 p]; [by left|]. destruct (Utf8.between 240 244 b0 && _ && _ && _) eqn:E4; [|by left].
  right. rewrite !andb_true_iff, between_true in E4. destruct E4 as [[[E0 E1] E4] E5].
  destruct (payload 240 3 b0 240 244) as (o & Eo & Ho & L0 & R0); try done; try lia. change (2 ^ 3 - 1) with 7 in L0. change (2 ^ 3) with 8 in Ho.
  destruct (second_payload b0 b1 E1) as (p' & Ep & Hp' & L1 & R1 & _ & _ & C1 & C2). destruct (continuation_payload b2 E4) as (q & Eq & Hq & L2 & R2).
  destruct (continuation_payload b3 E5) as (b & E & Hb & L3 & R3). rewrite L0, L1, L2, L3.
  replace (o * 262144 + p' * 4096 + q * 64 + b) with (((o * 64 + p') * 64 + q) * 64 + b) by lia.
  destruct (join_shift ((o * 64 + p') * 64 + q) b Hb) as [S1 S2], (join_shift (o * 64 + p') q Hq) as [S3 S4], (join_shift o p' Hp') as [S5 S6].
  split; [apply valid_in_range; lia|]. unfold Utf8.encode_valid.
  rewrite (proj2 (Z.ltb_ge _ 128)), (proj2 (Z.ltb_ge _ 2048)), (proj2 (Z.ltb_ge _ 65536)) by lia.
  rewrite shiftr_18, shiftr_12, S1, S2, S3, S4, S5, S6, R0, R1, R2, R3. done.
Qed.

(** ** Text *)

(** Bytes that encode runes. *)
Definition encoded (rs : list Z) : list byte := concat (Utf8.encode_valid <$> rs).
Definition is_text (l : list byte) : Prop := exists rs, valid_runes rs /\ l = encoded rs.

Lemma encoded_app rs rs' : encoded (rs ++ rs') = encoded rs ++ encoded rs'.
Proof. unfold encoded. by rewrite fmap_app, concat_app. Qed.
Lemma is_text_nil : is_text [].
Proof. exists []. by split; [apply Forall_nil_2|]. Qed.
Lemma is_text_app l l' : is_text l -> is_text l' -> is_text (l ++ l').
Proof. intros (rs & H & ->) (rs' & H' & ->). exists (rs ++ rs'). split; [by apply Forall_app|by rewrite encoded_app]. Qed.
Lemma is_text_cons b l : 0 <= b < 128 -> is_text l -> is_text (b :: l).
Proof.
  intros Hb Hl. apply (is_text_app [b] l); [|done]. exists [b]. split; [constructor; [apply valid_in_range; lia|constructor]|].
  unfold encoded. cbn. unfold Utf8.encode_valid. by rewrite (proj2 (Z.ltb_lt b 128)) by lia.
Qed.
Lemma is_text_ascii l : Forall (fun b => 0 <= b < 128) l -> is_text l.
Proof. induction 1 as [|b l Hb _ IH]; [apply is_text_nil|by apply is_text_cons]. Qed.
Lemma is_text_concat l : Forall is_text l -> is_text (concat l).
Proof. induction 1 as [|x l Hx _ IH]; [apply is_text_nil|by apply is_text_app]. Qed.

Lemma bytes_of_string_bytes s : is_bytes (bytes_of_string s).
Proof.
  unfold bytes_of_string. apply Forall_fmap, Forall_true. intros a. unfold byte_of_ascii. cbn. pose proof (Ascii.N_ascii_bounded a). lia.
Qed.

(** The decoded runes of any bytes, each an error or an encoding. *)
Lemma runes_parts p : is_bytes p ->
  Forall (fun rb => rb.1 = Utf8.RuneError /\ length rb.2 = 1%nat \/ Utf8.valid_rune rb.1 = true /\ rb.2 = Utf8.encode_valid rb.1) (Utf8.runes p).
Proof.
  unfold Utf8.runes. generalize (length p) as fuel. intros fuel Hp. revert p Hp.
  induction fuel as [|fuel IH]; intros p Hp; [constructor|]. destruct p as [|b p]; [constructor|]. cbn [Utf8.runes_fuel].
  pose proof (decode_valid (b :: p) Hp ltac:(done)) as Hd. pose proof (Utf8.DecodeRune_width (b :: p) ltac:(done)) as Hw.
  destruct (Utf8.DecodeRune (b :: p)) as [r n]. cbn [snd] in Hw. constructor.
  - cbn [fst snd]. destruct Hd as [[-> ->]|Hd]; [by left|by right].
  - apply IH. rewrite <- (take_drop n (b :: p)) in Hp. by apply Forall_app in Hp as [_ Hp].
Qed.
