(* ===== verification/Limiter.v ===== *)
(** * Admission primitives: [internal/limiter]

    [Module Concurrency] models the buffered-channel gate of
    [concurrency.go] as a step relation over the goroutines that call
    [Acquire] and [Release]; [Module Sessions] models the mutex-protected
    session table of [sessions.go] as one function per method. *)

From S2P Require Import Prelude GoStrings.

(** ** The concurrency gate *)

Module Concurrency.

Record Admission := { Queued : bool; QueueWait : duration }.

(** [slots == nil] is [None]; [Some n] is a channel of capacity [n]. *)
Record ConcurrencyGate := { slots : option nat }.

Inductive gate_error := ErrNegativeLimit.

Definition NewConcurrencyGate (maxInFlight : Z) : ConcurrencyGate + gate_error :=
  if maxInFlight <? 0 then inr ErrNegativeLimit
  else if maxInFlight =? 0 then inl {| slots := None |}
  else inl {| slots := Some (Z.to_nat maxInFlight) |}.

(** Where one goroutine stands inside [Acquire]. *)
Inductive pc :=
  | Idle                          (** outside the gate *)
  | Selecting                     (** before the first [select] *)
  | SentFast                      (** its send succeeded without waiting *)
  | Waiting (started : time)      (** blocked in the second [select] *)
  | SentQueued (started : time)   (** its send succeeded after waiting *)
  | Entered (slot : bool) (a : Admission)
  | Cancelled (a : Admission).    (** returned [ctx.Err()] *)

#[export] Instance Admission_eq_dec : EqDecision Admission.
Proof. solve_decision. Defined.
#[export] Instance pc_eq_dec : EqDecision pc.
Proof. solve_decision. Defined.

(** The system: the channel's occupancy and every goroutine's position;
    [cancelled] is the set of goroutines whose context has ended. *)
Record system := {
  gate : ConcurrencyGate;
  occupied : nat;
  threads : gmap nat pc;
  cancelled : gset nat;
}.

Definition pc_of (s : system) (t : nat) : pc := default Idle (threads s !! t).

Definition goto (s : system) (t : nat) (p : pc) (n : nat) : system :=
  {| gate := gate s; occupied := n; threads := <[t := p]> (threads s);
     cancelled := cancelled s |}.

Definition has_room (s : system) : bool :=
  match slots (gate s) with
  | Some cap => bool_decide (occupied s < cap)%nat
  | None => false
  end.

Definition not_queued : Admission := {| Queued := false; QueueWait := 0 |}.
Definition queued_for (started now : time) : Admission :=
  {| Queued := true; QueueWait := Time.sub now started |}.

(** One atomic action of goroutine [t]; [now] is what [time.Now] returns. *)
Inductive step (now : time) (t : nat) : system -> system -> Prop :=
  | step_cancel s :
      step now t s {| gate := gate s; occupied := occupied s; threads := threads s;
                      cancelled := {[t]} ∪ cancelled s |}
  | step_enter_cancelled s :
      pc_of s t = Idle -> t ∈ cancelled s ->
      step now t s (goto s t (Cancelled not_queued) (occupied s))
  | step_enter_unlimited s :
      pc_of s t = Idle -> t ∉ cancelled s -> slots (gate s) = None ->
      step now t s (goto s t (Entered false not_queued) (occupied s))
  | step_enter s :
      pc_of s t = Idle -> t ∉ cancelled s -> slots (gate s) <> None ->
      step now t s (goto s t Selecting (occupied s))
  | step_send s :
      pc_of s t = Selecting -> has_room s = true ->
      step now t s (goto s t SentFast (S (occupied s)))
  | step_default s :
      pc_of s t = Selecting -> has_room s = false ->
      step now t s (goto s t (Waiting now) (occupied s))
  | step_sent_cancelled s :
      pc_of s t = SentFast -> t ∈ cancelled s ->
      step now t s (goto s t (Cancelled not_queued) (pred (occupied s)))
  | step_sent_ok s :
      pc_of s t = SentFast -> t ∉ cancelled s ->
      step now t s (goto s t (Entered true not_queued) (occupied s))
  | step_wait_send s started :
      pc_of s t = Waiting started -> has_room s = true ->
      step now t s (goto s t (SentQueued started) (S (occupied s)))
  | step_wait_done s started :
      pc_of s t = Waiting started -> t ∈ cancelled s ->
      step now t s (goto s t (Cancelled (queued_for started now)) (occupied s))
  | step_queued_cancelled s started :
      pc_of s t = SentQueued started -> t ∈ cancelled s ->
      step now t s (goto s t (Cancelled not_queued) (pred (occupied s)))
  | step_queued_ok s started :
      pc_of s t = SentQueued started -> t ∉ cancelled s ->
      step now t s (goto s t (Entered true (queued_for started now)) (occupied s))
  | step_release s slot a :
      pc_of s t = Entered slot a ->
      (slots (gate s) <> None -> (0 < occupied s)%nat) ->
      step now t s (goto s t Idle
        (match slots (gate s) with Some _ => pred (occupied s) | None => occupied s end)).

Definition initial (g : ConcurrencyGate) : system :=
  {| gate := g; occupied := 0; threads := ∅; cancelled := ∅ |}.

Inductive reachable (g : ConcurrencyGate) : system -> Prop :=
  | reachable_init : reachable g (initial g)
  | reachable_step now t s s' : reachable g s -> step now t s s' -> reachable g s'.

(** A goroutine holds a slot from its send to its receive. *)
Definition holds (p : pc) : bool :=
  match p with
  | SentFast | SentQueued _ | Entered true _ => true
  | _ => false
  end.

Definition holders (s : system) : gset nat :=
  dom (filter (fun kv => holds kv.2 = true) (threads s)).

(** What a goroutine's position says about the gate and its slot. *)
Definition pc_wf (g : ConcurrencyGate) (p : pc) : Prop :=
  match p with
  | Idle | Cancelled _ => True
  | Entered slot _ => slot = true <-> slots g <> None
  | _ => slots g <> None
  end.

Definition within_capacity (g : ConcurrencyGate) (n : nat) : Prop :=
  match slots g with Some cap => (n <= cap)%nat | None => n = 0%nat end.

Record gate_inv (g : ConcurrencyGate) (s : system) : Prop := {
  inv_gate : gate s = g;
  inv_count : occupied s = size (holders s);
  inv_capacity : within_capacity g (occupied s);
  inv_pc : forall t, pc_wf g (pc_of s t);
}.

Lemma elem_of_holders s t : t ∈ holders s <-> holds (pc_of s t) = true.
Proof.
  unfold holders, pc_of. rewrite elem_of_dom. unfold is_Some.
  setoid_rewrite map_lookup_filter_Some. simpl.
  destruct (threads s !! t) as [p|]; simpl; naive_solver.
Qed.

Lemma pc_of_goto s t p n t' :
  pc_of (goto s t p n) t' = if decide (t = t') then p else pc_of s t'.
Proof.
  unfold pc_of, goto. simpl. destruct (decide (t = t')); subst.
  - by rewrite lookup_insert_eq.
  - by rewrite lookup_insert_ne.
Qed.

Lemma holders_goto_in s t p n :
  holds p = true -> holders (goto s t p n) = {[t]} ∪ holders s.
Proof.
  intros Hp. apply set_eq. intros t'.
  rewrite elem_of_union, elem_of_singleton, !elem_of_holders, pc_of_goto.
  destruct (decide (t = t')) as [<-|]; rewrite ?Hp; intuition congruence.
Qed.

Lemma holders_goto_out s t p n :
  holds p = false -> holders (goto s t p n) = holders s ∖ {[t]}.
Proof.
  intros Hp. apply set_eq. intros t'.
  rewrite elem_of_difference, elem_of_singleton, !elem_of_holders, pc_of_goto.
  destruct (decide (t = t')) as [<-|]; rewrite ?Hp; intuition congruence.
Qed.

(** Effect of one move on the number of slots held. *)
Lemma size_holders_goto s t p n :
  size (holders (goto s t p n)) =
    match holds (pc_of s t), holds p with
    | false, true => S (size (holders s))
    | true, false => pred (size (holders s))
    | _, _ => size (holders s)
    end.
Proof.
  destruct (holds p) eqn:Hp; [rewrite holders_goto_in by done|rewrite holders_goto_out by done];
    destruct (holds (pc_of s t)) eqn:Ht.
  - f_equal. apply set_eq. intros t'. pose proof (elem_of_holders s t) as Hin. rewrite Ht in Hin. set_solver.
  - rewrite size_union.
    + rewrite size_singleton. lia.
    + pose proof (elem_of_holders s t) as Hin. rewrite Ht in Hin. set_solver.
  - rewrite size_difference.
    + rewrite size_singleton. lia.
    + pose proof (elem_of_holders s t) as Hin. rewrite Ht in Hin. set_solver.
  - f_equal. apply set_eq. intros t'. pose proof (elem_of_holders s t) as Hin. rewrite Ht in Hin. set_solver.
Qed.

Lemma holder_positive s t : holds (pc_of s t) = true -> (0 < size (holders s))%nat.
Proof.
  intros H%elem_of_holders. destruct (size (holders s)) eqn:E; [|lia].
  apply size_empty_inv in E. set_solver.
Qed.

Lemma gate_inv_goto g s t p n :
  gate_inv g s ->
  n = size (holders (goto s t p n)) -> within_capacity g n -> pc_wf g p ->
  gate_inv g (goto s t p n).
Proof.
  intros [Hg Hc Hw Hp] Hn Hw' Hp'. split; simpl; [done|done|done|].
  intros t'. rewrite pc_of_goto. destruct (decide (t = t')); auto.
Qed.

Lemma gate_inv_step g now t s s' : gate_inv g s -> step now t s s' -> gate_inv g s'.
Proof.
  intros Hinv Hstep. pose proof Hinv as [Hg Hc Hw Hp]. specialize (Hp t).
  pose proof (holder_positive s t) as Hpos.
  destruct Hstep; [by destruct Hinv; split|..];
    apply gate_inv_goto; try done;
    try (rewrite size_holders_goto);
    repeat match goal with H : pc_of _ _ = _ |- _ => rewrite H in * end;
    unfold has_room, within_capacity in *; rewrite ?Hg in *; simpl in *;
    destruct (slots g) as [cap|] eqn:?; simpl in *;
    try (destruct slot; simpl in *); try case_bool_decide;
    first [lia | intuition (congruence || lia)].
Qed.

Lemma gate_inv_reachable g s : reachable g s -> gate_inv g s.
Proof.
  induction 1 as [|now t s s' _ IH Hstep]; [|by eapply gate_inv_step].
  split; simpl; try done.
  unfold within_capacity. destruct (slots g); simpl; lia.
Qed.

(** Goroutines whose [Acquire] returned without error and that have not yet
    called [Release]. *)
Definition entered (p : pc) : bool := match p with Entered _ _ => true | _ => false end.
Definition in_flight (s : system) : gset nat :=
  dom (filter (fun kv => entered kv.2 = true) (threads s)).

Lemma in_flight_holders g s :
  slots g <> None -> gate_inv g s -> in_flight s ⊆ holders s.
Proof.
  intros Hg Hinv t. unfold in_flight. rewrite elem_of_dom. intros [p Hp].
  apply map_lookup_filter_Some in Hp as [Hlook Hp].
  apply elem_of_holders. pose proof (inv_pc _ _ Hinv t) as Hwf.
  unfold pc_of in *. rewrite Hlook in *. simpl in *.
  destruct p as [| | | | |[] a|]; simpl in *; try done. tauto.
Qed.

Lemma new_gate_slots maxInFlight g :
  NewConcurrencyGate maxInFlight = inl g -> 0 < maxInFlight ->
  slots g = Some (Z.to_nat maxInFlight).
Proof.
  unfold NewConcurrencyGate. intros H ?. case_tests; try lia. by injection H as <-.
Qed.

(** What a slot holder does next never blocks. *)
Lemma holder_moves g now s t :
  gate_inv g s -> holds (pc_of s t) = true -> exists s', step now t s s'.
Proof.
  intros Hinv Hh. pose proof (holder_positive s t Hh) as Hpos.
  rewrite <- (inv_count _ _ Hinv) in Hpos.
  destruct (pc_of s t) as [| | | | |[] a|] eqn:Hpc; try done;
    destruct (decide (t ∈ cancelled s)); eauto using step.
Qed.

Lemma full_gate_has_holder g s :
  slots g <> Some 0%nat -> slots g <> None -> gate_inv g s -> has_room s = false ->
  exists t, holds (pc_of s t) = true.
Proof.
  intros H0 Hn [Hg Hc Hw _] Hroom. unfold has_room, within_capacity in *. rewrite Hg in Hroom.
  destruct (slots g) as [cap|]; [|done]. case_bool_decide; [done|].
  destruct (set_choose_or_empty (holders s)) as [[t Ht]|He].
  - exists t. by apply elem_of_holders.
  - apply size_empty_iff in He. assert (cap <> 0%nat) by congruence. lia.
Qed.

(** A gate built for [maxInFlight] slots never has more than that many
    provider calls in flight, whatever the interleaving of arrivals,
    cancellations and releases: the channel holds exactly one element per
    slot holder, so no cancelled caller leaks its slot. *)
Theorem gate_limits_in_flight maxInFlight g s :
  NewConcurrencyGate maxInFlight = inl g -> 0 < maxInFlight -> reachable g s ->
  Z.of_nat (size (in_flight s)) <= maxInFlight /\ occupied s = size (holders s).
Proof.
  intros Hnew Hpos Hr. pose proof (new_gate_slots _ _ Hnew Hpos) as Hslots.
  apply gate_inv_reachable in Hr as Hinv. split; [|apply Hinv].
  assert (size (in_flight s) <= size (holders s))%nat.
  { apply subseteq_size, (in_flight_holders g); [by rewrite Hslots|done]. }
  pose proof (inv_capacity _ _ Hinv) as Hw. unfold within_capacity in Hw.
  rewrite Hslots, (inv_count _ _ Hinv) in Hw. lia.
Qed.

(** Nobody waits on a dead gate: when a caller is blocked in the queue,
    either it can take its slot now, or some other caller holds one and has an
    enabled move (in particular [Release] never blocks on its receive). *)
Theorem gate_waiter_progress maxInFlight g s t started now :
  NewConcurrencyGate maxInFlight = inl g -> 0 < maxInFlight -> reachable g s ->
  pc_of s t = Waiting started ->
  (exists s', step now t s s' /\ pc_of s' t = SentQueued started) \/
  (exists t' s', t' <> t /\ holds (pc_of s t') = true /\ step now t' s s').
Proof.
  intros Hnew Hpos Hr Hpc. pose proof (new_gate_slots _ _ Hnew Hpos) as Hslots.
  apply gate_inv_reachable in Hr as Hinv.
  destruct (has_room s) eqn:Hroom.
  - left. exists (goto s t (SentQueued started) (S (occupied s))).
    split; [by constructor|]. rewrite pc_of_goto. by rewrite decide_True.
  - right. destruct (full_gate_has_holder g s) as [t' Ht']; try done.
    { rewrite Hslots. injection. lia. }
    { by rewrite Hslots. }
    destruct (holder_moves g now s t' Hinv Ht') as [s' Hs'].
    exists t', s'. split; [|done]. intros ->. by rewrite Hpc in Ht'.
Qed.

(** A concrete run: one slot, goroutine 1 admitted, goroutine 2 queued. *)
Definition one_slot : ConcurrencyGate := {| slots := Some 1%nat |}.
Definition busy_system : system :=
  goto (goto (goto (goto (goto (initial one_slot) 1%nat Selecting 0) 1%nat SentFast 1)
         1%nat (Entered true not_queued) 1) 2%nat Selecting 1) 2%nat (Waiting 7) 1.

Lemma busy_system_reachable : reachable one_slot busy_system.
Proof.
  unfold busy_system.
  eapply (reachable_step _ 7 2); [|by apply step_default].
  eapply (reachable_step _ 7 2); [|by apply step_enter].
  eapply (reachable_step _ 0 1); [|by apply step_sent_ok].
  eapply (reachable_step _ 0 1); [|by apply step_send].
  eapply (reachable_step _ 0 1); [|by apply step_enter].
  constructor.
Qed.

Lemma gate_limits_in_flight_witness :
  reachable one_slot busy_system /\
  (Z.of_nat (size (in_flight busy_system)) <= 1 /\ occupied busy_system = size (holders busy_system)).
Proof.
  split; [exact busy_system_reachable|].
  apply (gate_limits_in_flight 1 one_slot); [reflexivity|lia|exact busy_system_reachable].
Defined.

Lemma gate_waiter_progress_witness :
  pc_of busy_system 2 = Waiting 7 /\
  ((exists s', step 9 2 busy_system s' /\ pc_of s' 2 = SentQueued 7) \/
   (exists t' s', t' <> 2%nat /\ holds (pc_of busy_system t') = true /\ step 9 t' busy_system s')).
Proof.
  split; [reflexivity|].
  apply (gate_waiter_progress 1 one_slot); [reflexivity|lia|exact busy_system_reachable|reflexivity].
Defined.
End Concurrency.

(** ** The session limiter *)

Module Sessions.

Inductive session_error :=
  | ErrActiveSessionLimit | ErrNegativeMax | ErrNegativeIdle | ErrContext | ErrSessionRequired.

Definition defaultSessionIdleTTL : duration := 5 * Minute.

Record sessionEntry := {
  requests : Z;
  lastInput : time;
  lastOutput : time;
  retain : bool;
}.

Record SessionLimiter := {
  max : Z;
  idleTTL : duration;
  sessions : gmap string sessionEntry;
  rejected : Z;
}.

(** A lease either names its limiter or (unlimited [Acquire]) does not;
    [released] is set inside [once.Do], so it is also the [once] flag. *)
Record SessionLease := {
  limited : bool;
  lease_id : string;
  released : bool;
}.

Definition NewSessionLimiter (max idleTTL : Z) : SessionLimiter + session_error :=
  if max <? 0 then inr ErrNegativeMax
  else if idleTTL <? 0 then inr ErrNegativeIdle
  else inl {| max := max;
              idleTTL := if idleTTL =? 0 then defaultSessionIdleTTL else idleTTL;
              sessions := ∅; rejected := 0 |}.

Definition idleSinceBothDirections (e : sessionEntry) (now : time) (ttl : duration) : bool :=
  let inputIdle := Time.is_zero (lastInput e) || (ttl <=? Time.sub now (lastInput e)) in
  let outputIdle := Time.is_zero (lastOutput e) || (ttl <=? Time.sub now (lastOutput e)) in
  inputIdle && outputIdle.

Definition expired (l : SessionLimiter) (now : time) (e : sessionEntry) : bool :=
  (requests e =? 0) && idleSinceBothDirections e now (idleTTL l).

Definition set_sessions (l : SessionLimiter) (m : gmap string sessionEntry) : SessionLimiter :=
  {| max := max l; idleTTL := idleTTL l; sessions := m; rejected := rejected l |}.

Definition expireLocked (l : SessionLimiter) (now : time) : SessionLimiter :=
  set_sessions l (filter (fun kv => expired l now kv.2 = false) (sessions l)).

Definition reject (l : SessionLimiter) : SessionLimiter :=
  {| max := max l; idleTTL := idleTTL l; sessions := sessions l;
     rejected := (rejected l + 1) mod 2 ^ 64 |}.

Definition new_entry : sessionEntry :=
  {| requests := 0; lastInput := Time.zero; lastOutput := Time.zero; retain := false |}.
Definition enter (e : sessionEntry) (now : time) : sessionEntry :=
  {| requests := requests e + 1; lastInput := now; lastOutput := lastOutput e; retain := retain e |}.

Definition AcquireWithLimit (l : SessionLimiter) (ctx_err : bool) (id : string) (max : Z) (now : time)
    : SessionLimiter * (SessionLease + session_error) :=
  if max <? 0 then (l, inr ErrNegativeMax)
  else if ctx_err then (l, inr ErrContext)
  else let id := Strings.TrimSpace id in
  if String.eqb id "" then (l, inr ErrSessionRequired)
  else
    let l := expireLocked l now in
    match sessions l !! id with
    | None =>
        if (0 <? max) && (max <=? Z.of_nat (size (sessions l))) then
          (reject l, inr ErrActiveSessionLimit)
        else
          (set_sessions l (<[id := enter new_entry now]> (sessions l)),
           inl {| limited := true; lease_id := id; released := false |})
    | Some entry =>
        (set_sessions l (<[id := enter entry now]> (sessions l)),
         inl {| limited := true; lease_id := id; released := false |})
    end.

Definition Acquire (l : SessionLimiter) (ctx_err : bool) (id : string) (now : time)
    : SessionLimiter * (SessionLease + session_error) :=
  if max l =? 0 then (l, inl {| limited := false; lease_id := ""; released := false |})
  else AcquireWithLimit l ctx_err id (max l) now.

Definition touch_entry (input : bool) (now : time) (e : sessionEntry) : sessionEntry :=
  if input
  then {| requests := requests e; lastInput := now; lastOutput := lastOutput e; retain := retain e |}
  else {| requests := requests e; lastInput := lastInput e; lastOutput := now; retain := retain e |}.

Definition touch (l : SessionLimiter) (lease : SessionLease) (input : bool) (now : time) : SessionLimiter :=
  if negb (limited lease) then l
  else if released lease then l
  else match sessions l !! lease_id lease with
  | None => l
  | Some entry => set_sessions l (<[lease_id lease := touch_entry input now entry]> (sessions l))
  end.
Definition TouchInput l lease now := touch l lease true now.
Definition TouchOutput l lease now := touch l lease false now.

Definition leave (e : sessionEntry) (retain_arg : bool) : sessionEntry :=
  {| requests := if 0 <? requests e then requests e - 1 else requests e;
     lastInput := lastInput e; lastOutput := lastOutput e;
     retain := if retain_arg then true else retain e |}.

Definition Release (l : SessionLimiter) (lease : SessionLease) (retain_arg : bool)
    : SessionLimiter * SessionLease :=
  if negb (limited lease) then (l, lease)
  else if released lease then (l, lease)
  else
    let lease' := {| limited := limited lease; lease_id := lease_id lease; released := true |} in
    match sessions l !! lease_id lease with
    | None => (l, lease')
    | Some entry =>
        let entry := leave entry retain_arg in
        if (requests entry =? 0) && negb (retain entry)
        then (set_sessions l (delete (lease_id lease) (sessions l)), lease')
        else (set_sessions l (<[lease_id lease := entry]> (sessions l)), lease')
    end.

Definition Close (l : SessionLimiter) : SessionLimiter := set_sessions l ∅.

Definition Stats (l : SessionLimiter) (now : time) : SessionLimiter * (Z * Z * Z) :=
  let l := expireLocked l now in
  (l, (max l, Z.of_nat (size (sessions l)), rejected l)).

(** *** Every use of one limiter *)

(** The leases handed out so far, in order: a request keeps the index of its
    lease and may touch or release it any number of times. *)
Record world := { lim : SessionLimiter; leases : list SessionLease }.

Inductive op :=
  | OpAcquire (ctx_err : bool) (id : string) (limit : Z)
  | OpTouch (slot : nat) (input : bool)
  | OpRelease (slot : nat) (retain_arg : bool)
  | OpStats.

Definition exec (w : world) (o : time * op) : world :=
  let now := o.1 in
  match o.2 with
  | OpAcquire ctx_err id limit =>
      match AcquireWithLimit (lim w) ctx_err id limit now with
      | (l, inl lease) => {| lim := l; leases := leases w ++ [lease] |}
      | (l, inr _) => {| lim := l; leases := leases w |}
      end
  | OpTouch slot input =>
      match leases w !! slot with
      | Some lease => {| lim := touch (lim w) lease input now; leases := leases w |}
      | None => w
      end
  | OpRelease slot retain_arg =>
      match leases w !! slot with
      | Some lease =>
          let '(l, lease') := Release (lim w) lease retain_arg in
          {| lim := l; leases := <[slot := lease']> (leases w) |}
      | None => w
      end
  | OpStats => {| lim := (Stats (lim w) now).1; leases := leases w |}
  end.

Definition run (l : SessionLimiter) (ops : list (time * op)) : world :=
  foldl exec {| lim := l; leases := [] |} ops.

Definition live_for (id : string) (lease : SessionLease) : bool :=
  limited lease && negb (released lease) && String.eqb (lease_id lease) id.
Definition live (w : world) (id : string) : nat := count (live_for id) (leases w).

(** The table is the abstract count of live leases, plus retained sessions. *)
Definition entry_ok (n : nat) (o : option sessionEntry) : Prop :=
  match o with
  | None => n = 0%nat
  | Some e => requests e = Z.of_nat n /\ (requests e = 0 -> retain e = true)
  end.
Definition accounted (w : world) : Prop :=
  forall id, entry_ok (live w id) (sessions (lim w) !! id).

Lemma expire_lookup l now id :
  sessions (expireLocked l now) !! id =
    match sessions l !! id with
    | Some e => if expired l now e then None else Some e
    | None => None
    end.
Proof.
  unfold expireLocked. simpl. rewrite map_lookup_filter.
  destruct (sessions l !! id) as [e|]; simpl; [|done].
  destruct (expired l now e) eqn:E; [by rewrite option_guard_False by congruence|].
  by rewrite option_guard_True.
Qed.

Lemma entry_ok_expire l now n id :
  entry_ok n (sessions l !! id) -> entry_ok n (sessions (expireLocked l now) !! id).
Proof.
  rewrite expire_lookup. destruct (sessions l !! id) as [e|]; [|done].
  unfold expired. simpl. destruct (Z.eqb_spec (requests e) 0); simpl; [|done].
  case_match; simpl; [|done]. intros [? _]. lia.
Qed.

(** The three outcomes of [AcquireWithLimit]. *)
Inductive acquire_outcome (l : SessionLimiter) (id : string) (limit : Z) (now : time) :
    SessionLimiter * (SessionLease + session_error) -> Prop :=
  | outcome_refused err : acquire_outcome l id limit now (l, inr err)
  | outcome_full :
      sessions (expireLocked l now) !! Strings.TrimSpace id = None ->
      0 < limit -> limit <= Z.of_nat (size (sessions (expireLocked l now))) ->
      acquire_outcome l id limit now (reject (expireLocked l now), inr ErrActiveSessionLimit)
  | outcome_admitted e :
      e = default new_entry (sessions (expireLocked l now) !! Strings.TrimSpace id) ->
      (is_Some (sessions (expireLocked l now) !! Strings.TrimSpace id) \/ limit = 0 \/
       Z.of_nat (size (sessions (expireLocked l now))) < limit) ->
      acquire_outcome l id limit now
        (set_sessions (expireLocked l now)
           (<[Strings.TrimSpace id := enter e now]> (sessions (expireLocked l now))),
         inl {| limited := true; lease_id := Strings.TrimSpace id; released := false |}).

Lemma acquire_outcomes l ctx_err id limit now :
  acquire_outcome l id limit now (AcquireWithLimit l ctx_err id limit now).
Proof.
  unfold AcquireWithLimit.
  destruct (Z.ltb_spec limit 0); [constructor|]. destruct ctx_err; [constructor|].
  destruct (String.eqb _ ""); [constructor|].
  destruct (sessions (expireLocked l now) !! Strings.TrimSpace id) as [e|] eqn:Hlook.
  - apply outcome_admitted; rewrite Hlook; [done|left; eauto].
  - destruct (Z.ltb_spec 0 limit), (Z.leb_spec limit (Z.of_nat (size (sessions (expireLocked l now)))));
      simpl; [by apply outcome_full|apply outcome_admitted; rewrite ?Hlook; [done|lia]..].
Qed.

Lemma accounted_acquire w now ctx_err id limit :
  accounted w -> accounted (exec w (now, OpAcquire ctx_err id limit)).
Proof.
  intros Hw. unfold exec; simpl. destruct (acquire_outcomes (lim w) ctx_err id limit now) as [| |e -> _].
  - intros i. apply Hw.
  - intros i. apply (entry_ok_expire _ now), Hw.
  - intros i. pose proof (entry_ok_expire _ now _ _ (Hw i)) as He.
    unfold live in *. cbn [lim leases sessions set_sessions]. rewrite count_app.
    set (m := sessions (expireLocked (lim w) now)) in *. clearbody m.
    unfold live_for at 2. simpl.
    destruct (String.eqb_spec (Strings.TrimSpace id) i) as [<-|Hne].
    + rewrite lookup_insert_eq.
      destruct (m !! _) as [e|]; simpl in *; [destruct He|]; split; lia.
    + rewrite lookup_insert_ne by done. by rewrite Nat.add_0_r.
Qed.

Lemma live_for_touch id now input l lease :
  sessions (touch l lease input now) !! id =
    match sessions l !! id with
    | Some e => if live_for id lease then Some (touch_entry input now e) else Some e
    | None => None
    end.
Proof.
  unfold touch, live_for. destruct (limited lease), (released lease); simpl;
    try by destruct (sessions l !! id).
  destruct (String.eqb_spec (lease_id lease) id) as [<-|Hne].
  - destruct (sessions l !! lease_id lease) as [e|] eqn:E; simpl; [|by rewrite E].
    by rewrite lookup_insert_eq.
  - destruct (sessions l !! lease_id lease) as [e|] eqn:E; simpl.
    + rewrite lookup_insert_ne by done. by destruct (sessions l !! id).
    + by destruct (sessions l !! id).
Qed.

Lemma accounted_touch w now slot input :
  accounted w -> accounted (exec w (now, OpTouch slot input)).
Proof.
  intros Hw. unfold exec; simpl. destruct (leases w !! slot) as [lease|]; [|done].
  intros id. specialize (Hw id). unfold live in *. simpl. rewrite live_for_touch.
  destruct (sessions (lim w) !! id) as [e|]; [|done].
  case_match; [|done]. by destruct input.
Qed.

Definition release_entry (e : sessionEntry) (b : bool) : option sessionEntry :=
  if (requests (leave e b) =? 0) && negb (retain (leave e b)) then None else Some (leave e b).

Lemma release_lookup l lease b id :
  sessions (Release l lease b).1 !! id =
    match sessions l !! id with
    | Some e => if live_for id lease then release_entry e b else Some e
    | None => None
    end.
Proof.
  unfold Release, live_for, release_entry.
  destruct (limited lease), (released lease); cbn [negb andb fst]; try by destruct (sessions l !! id).
  destruct (sessions l !! lease_id lease) as [e|] eqn:E; cbn [fst].
  - destruct ((requests (leave e b) =? 0) && negb (retain (leave e b))) eqn:Hd;
      (destruct (String.eqb_spec (lease_id lease) id) as [<-|Hne];
        cbn [fst sessions set_sessions]; [rewrite E, ?Hd|]; simplify_map_eq; try done;
        by destruct (sessions l !! id)).
  - destruct (String.eqb_spec (lease_id lease) id) as [<-|Hne]; [by rewrite E|].
    by destruct (sessions l !! id).
Qed.

Lemma release_live_for l lease b id : live_for id (Release l lease b).2 = false.
Proof.
  unfold Release, live_for. destruct lease as [[] id' []]; simpl; try done.
  destruct (sessions l !! id') as [e|]; [|done]. by repeat case_match; simplify_eq.
Qed.

Lemma entry_ok_release n e b :
  entry_ok (S n) (Some e) -> entry_ok n (release_entry e b).
Proof.
  unfold release_entry, entry_ok, leave. simpl. intros [Hr Hk].
  destruct (Z.ltb_spec 0 (requests e)); [|lia].
  destruct b, (retain e), (Z.eqb_spec (requests e - 1) 0); simpl; try lia; split; done || lia.
Qed.

Lemma accounted_release w now slot b :
  accounted w -> accounted (exec w (now, OpRelease slot b)).
Proof.
  intros Hw. unfold exec; simpl. destruct (leases w !! slot) as [lease|] eqn:Hl; [|done].
  pose proof (release_lookup (lim w) lease b) as Hlook.
  pose proof (release_live_for (lim w) lease b) as Hdead.
  destruct (Release (lim w) lease b) as [l lease']. simpl in Hlook, Hdead.
  intros i. specialize (Hw i). unfold live in *. simpl. rewrite Hlook.
  pose proof (count_insert (live_for i) _ _ _ lease' Hl) as Hcount. rewrite Hdead in Hcount.
  destruct (live_for i lease) eqn:Hlive.
  - destruct (sessions (lim w) !! i) as [e|]; [|simpl in *; lia].
    apply entry_ok_release. by replace (S _) with (count (live_for i) (leases w)) by lia.
  - replace (count (live_for i) (<[slot:=lease']> (leases w)))
      with (count (live_for i) (leases w)) by lia.
    by destruct (sessions (lim w) !! i).
Qed.

Lemma accounted_exec w o : accounted w -> accounted (exec w o).
Proof.
  destruct o as [now []].
  - apply accounted_acquire.
  - apply accounted_touch.
  - apply accounted_release.
  - intros Hw id. apply (entry_ok_expire (lim w) now), Hw.
Qed.

Lemma accounted_run l ops : sessions l = ∅ -> accounted (run l ops).
Proof.
  intros Hl. unfold run. assert (accounted {| lim := l; leases := [] |}) as H0.
  { intros id. simpl. by rewrite Hl. }
  revert H0. generalize {| lim := l; leases := [] |}.
  induction ops as [|o ops IH]; intros w Hw; simpl; [done|]. by apply IH, accounted_exec.
Qed.

Lemma new_limiter_sessions m ttl l : NewSessionLimiter m ttl = inl l -> sessions l = ∅.
Proof. unfold NewSessionLimiter. intros H. case_tests; by injection H as <-. Qed.

(** *** Capacity *)

(** The limits that the requests are admitted under satisfy [P]. *)
Definition limits_in (P : Z -> Prop) (o : time * op) : Prop :=
  match o.2 with OpAcquire _ _ m => P m | _ => True end.

Definition within (limit m : Z) : Prop := 0 < m <= limit.

Lemma size_expire l now : (size (sessions (expireLocked l now)) <= size (sessions l))%nat.
Proof. apply map_size_filter. Qed.

Lemma size_release l lease b : (size (sessions (Release l lease b).1) <= size (sessions l))%nat.
Proof.
  rewrite <- !size_dom. apply subseteq_size. intros id. rewrite !elem_of_dom.
  rewrite release_lookup. destruct (sessions l !! id); [eauto|intros [? ?]; done].
Qed.

Lemma size_touch l lease input now : size (sessions (touch l lease input now)) = size (sessions l).
Proof.
  rewrite <- !size_dom. f_equal. apply set_eq. intros id. rewrite !elem_of_dom, live_for_touch.
  destruct (sessions l !! id); [case_match|]; split; intros [? ?]; eauto.
Qed.

Lemma size_exec limit w o :
  limits_in (within limit) o -> Z.of_nat (size (sessions (lim w))) <= limit ->
  Z.of_nat (size (sessions (lim (exec w o)))) <= limit.
Proof.
  intros Hlim Hsize. destruct o as [now [ctx_err id m|slot input|slot b|]];
    unfold exec, limits_in, within in *; simpl in *.
  - pose proof (size_expire (lim w) now).
    destruct (acquire_outcomes (lim w) ctx_err id m now) as [| |e _ Hroom]; simpl in *; [lia..|].
    destruct (sessions (expireLocked (lim w) now) !! Strings.TrimSpace id) as [e'|] eqn:Hlook.
    + rewrite map_size_insert_Some by eauto. simpl in *. lia.
    + rewrite map_size_insert_None by done. destruct Hroom as [[? ?]|[?|?]]; simpl in *; [congruence|lia..].
  - destruct (leases w !! slot); simpl; [|done]. by rewrite size_touch.
  - destruct (leases w !! slot) as [lease|]; simpl; [|done].
    pose proof (size_release (lim w) lease b). destruct (Release (lim w) lease b). simpl in *. lia.
  - pose proof (size_expire (lim w) now). simpl in *. lia.
Qed.

Lemma size_run limit l ops :
  0 < limit -> Forall (limits_in (within limit)) ops -> sessions l = ∅ ->
  Z.of_nat (size (sessions (lim (run l ops)))) <= limit.
Proof.
  intros Hpos Hops Hl. unfold run.
  assert (Z.of_nat (size (sessions (lim {| lim := l; leases := [] |}))) <= limit) as H0
    by (simpl; rewrite Hl, map_size_empty; lia).
  revert H0. generalize {| lim := l; leases := [] |}.
  induction Hops as [|o ops Ho _ IH]; intros w Hw; simpl; [done|]. by apply IH, size_exec.
Qed.

(** Session accounting.  After any sequence of acquisitions, touches,
    releases (repeated ones included) and idle sweeps, an entry of the table
    counts exactly the unreleased leases of its session: a session in use is
    never dropped, and one with no lease left is there only because a release
    asked to retain it. *)
Theorem session_accounting m ttl l ops id :
  NewSessionLimiter m ttl = inl l ->
  match sessions (lim (run l ops)) !! id with
  | Some e => requests e = Z.of_nat (live (run l ops) id) /\ (requests e = 0 -> retain e = true)
  | None => live (run l ops) id = 0%nat
  end.
Proof.
  intros Hnew%new_limiter_sessions. pose proof (accounted_run l ops Hnew id) as H.
  by destruct (sessions _ !! id).
Qed.

Lemma capacity_run m ttl l ops limit ids :
  NewSessionLimiter m ttl = inl l -> 0 < limit -> Forall (limits_in (within limit)) ops ->
  NoDup ids -> Forall (fun id => (0 < live (run l ops) id)%nat) ids ->
  Z.of_nat (length ids) <= limit.
Proof.
  intros Hnew%new_limiter_sessions Hpos Hops Hnd Hlive.
  pose proof (size_run limit l ops Hpos Hops Hnew) as Hsize.
  assert (list_to_set ids ⊆ dom (sessions (lim (run l ops)))) as Hsub.
  { intros id Hid. apply elem_of_list_to_set in Hid. rewrite Forall_forall in Hlive.
    specialize (Hlive id Hid). pose proof (accounted_run l ops Hnew id) as H.
    apply elem_of_dom. destruct (sessions _ !! id); [eauto|]. simpl in H. lia. }
  apply subseteq_size in Hsub. rewrite size_list_to_set, size_dom in Hsub by done. lia.
Qed.

(** Session capacity.  While every request is admitted under a positive limit
    of at most [limit], which may change from request to request, the number
    of distinct sessions with a request in flight never exceeds it. *)
Theorem session_capacity m ttl l ops limit ids :
  NewSessionLimiter m ttl = inl l -> 0 < limit -> Forall (limits_in (within limit)) ops ->
  NoDup ids -> Forall (fun id => (0 < live (run l ops) id)%nat) ids ->
  Z.of_nat (length ids) <= limit.
Proof. apply capacity_run. Qed.

(** *** Retention *)

(** An entry that is retained and had input at [t0] or later. *)
Definition kept (id : string) (t0 : time) (w : world) : Prop :=
  exists e, sessions (lim w) !! id = Some e /\ retain e = true /\ t0 <= lastInput e /\ 0 < lastInput e.

Lemma kept_not_expired l now e t0 :
  t0 <= lastInput e -> 0 < lastInput e -> 0 < idleTTL l <= max_int64 -> now < t0 + idleTTL l ->
  expired l now e = false.
Proof.
  intros. unfold expired, idleSinceBothDirections.
  destruct (is_zero_spec (lastInput e)); [lia|]. simpl.
  destruct (Z.leb_spec (idleTTL l) (Time.sub now (lastInput e))) as [Hle|];
    [rewrite Time.sub_ge_bound in Hle by lia; lia|]. by rewrite andb_false_r.
Qed.

Lemma idleTTL_exec w o : idleTTL (lim (exec w o)) = idleTTL (lim w).
Proof.
  destruct o as [now [ctx_err id m|slot input|slot b|]]; unfold exec; simpl; [..|done].
  - by destruct (acquire_outcomes (lim w) ctx_err id m now).
  - destruct (leases w !! slot); simpl; [|done]. unfold touch. by repeat case_match.
  - destruct (leases w !! slot) as [lease|]; simpl; [|done].
    unfold Release. by repeat case_match; simplify_eq.
Qed.

Lemma kept_exec id t0 w o :
  0 < t0 -> 0 < idleTTL (lim w) <= max_int64 -> t0 <= o.1 < t0 + idleTTL (lim w) ->
  kept id t0 w -> kept id t0 (exec w o).
Proof.
  intros H0 Httl Hnow (e & He & Hret & Hin & Hpos).
  assert (sessions (expireLocked (lim w) o.1) !! id = Some e) as Hexp.
  { rewrite expire_lookup, He. by rewrite (kept_not_expired _ _ _ t0) by (try done; lia). }
  destruct o as [now [ctx_err id' m|slot input|slot b|]]; unfold exec, kept; simpl in Hnow |- *.
  - destruct (acquire_outcomes (lim w) ctx_err id' m now) as [| |e' -> _]; [by exists e..|].
    cbn [lim sessions set_sessions]. destruct (decide (Strings.TrimSpace id' = id)) as [->|Hne].
    + exists (enter e now). rewrite lookup_insert_eq. cbn [fst] in Hexp. rewrite Hexp. simpl. repeat split; done || lia.
    + exists e. by rewrite lookup_insert_ne.
  - destruct (leases w !! slot) as [lease|]; simpl; [|by exists e].
    rewrite live_for_touch, He. case_match; [|by exists e].
    eexists. split; [done|]. destruct input; simpl; split; try done; lia.
  - destruct (leases w !! slot) as [lease|]; simpl; [|by exists e].
    pose proof (release_lookup (lim w) lease b id) as Hl. rewrite He in Hl.
    destruct (Release (lim w) lease b). simpl in *. rewrite Hl.
    destruct (live_for id lease); [|by exists e]. exists (leave e b). unfold release_entry.
    replace (retain (leave e b)) with true by (simpl; rewrite Hret; by destruct b).
    by rewrite andb_false_r.
  - exists e. by split; [exact Hexp|].
Qed.

Lemma kept_run id t0 w ops :
  0 < t0 -> 0 < idleTTL (lim w) <= max_int64 ->
  Forall (fun o => t0 <= o.1 < t0 + idleTTL (lim w)) ops ->
  kept id t0 w -> kept id t0 (foldl exec w ops) /\ idleTTL (lim (foldl exec w ops)) = idleTTL (lim w).
Proof.
  intros H0. revert w. induction ops as [|o ops IH]; intros w Httl Hops Hk; simpl; [done|].
  apply Forall_cons in Hops as [Ho Hops].
  destruct (IH (exec w o)) as [? Hi]; rewrite ?idleTTL_exec in *; try done.
  by apply kept_exec.
Qed.

(** Retention.  A session retained by a successful request stays
    admitted for the whole idle TTL counted from its last input: whatever the
    other sessions do meanwhile, a new request for it is accepted, even when
    the table is full, and takes no additional slot. *)
Theorem retained_session_readmitted w id e ops now limit :
  sessions (lim w) !! id = Some e -> retain e = true -> Strings.TrimSpace id = id -> id <> "" ->
  0 < lastInput e -> 0 < idleTTL (lim w) <= max_int64 -> 0 <= limit ->
  Forall (fun o => lastInput e <= o.1 < lastInput e + idleTTL (lim w)) ops ->
  lastInput e <= now < lastInput e + idleTTL (lim w) ->
  let l := lim (foldl exec w ops) in
  exists l' lease, AcquireWithLimit l false id limit now = (l', inl lease) /\
    lease_id lease = id /\ size (sessions l') = size (sessions (expireLocked l now)).
Proof.
  intros He Hret Htrim Hne Hpos Httl Hlimit Hops Hnow l.
  assert (kept id (lastInput e) w) as Hkept by (exists e; repeat split; lia || done).
  destruct (kept_run id (lastInput e) w ops) as [(e' & He' & _ & Hin' & Hpos') Hi]; try done.
  subst l. set (l := lim (foldl exec w ops)) in *. clearbody l.
  unfold AcquireWithLimit. rewrite (proj2 (Z.ltb_ge limit 0)) by lia.
  rewrite Htrim. destruct (String.eqb_spec id ""); [done|].
  assert (sessions (expireLocked l now) !! id = Some e') as Hexp.
  { rewrite expire_lookup, He'. by rewrite (kept_not_expired _ _ _ (lastInput e)) by lia. }
  rewrite Hexp. eexists _, _. split; [done|]. split; [done|].
  cbn [sessions set_sessions]. by rewrite map_size_insert_Some by eauto.
Qed.

(** *** Witnesses *)

Definition demo_limiter : SessionLimiter :=
  {| max := 1; idleTTL := 5 * Minute; sessions := ∅; rejected := 0 |}.
Definition demo_ops : list (time * op) :=
  [(100, OpAcquire false "a" 1); (200, OpAcquire false "b" 1); (300, OpAcquire false " a " 1);
   (400, OpRelease 0 true); (500, OpRelease 0 true)].

Lemma session_accounting_witness :
  NewSessionLimiter 1 0 = inl demo_limiter /\
  match sessions (lim (run demo_limiter demo_ops)) !! "a" with
  | Some e => requests e = Z.of_nat (live (run demo_limiter demo_ops) "a") /\
              (requests e = 0 -> retain e = true)
  | None => live (run demo_limiter demo_ops) "a" = 0%nat
  end.
Proof. split; [reflexivity|]. exact (session_accounting 1 0 demo_limiter demo_ops "a" eq_refl). Defined.

Lemma session_capacity_witness :
  (0 < live (run demo_limiter demo_ops) "a")%nat /\ Z.of_nat (length ["a"]) <= 1.
Proof.
  assert (0 < live (run demo_limiter demo_ops) "a")%nat as H by (vm_compute; lia).
  split; [exact H|].
  apply (session_capacity 1 0 demo_limiter demo_ops 1); [reflexivity|lia|..].
  - repeat constructor; cbn; unfold within; lia.
  - apply NoDup_singleton.
  - by constructor.
Defined.

(** After [demo_ops] session "a" is retained; "c" is refused, "a" is not. *)
Lemma retained_session_readmitted_witness :
  let l := lim (run demo_limiter (demo_ops ++ [(600, OpAcquire false "c" 1)])) in
  exists l' lease, AcquireWithLimit l false "a" 1 700 = (l', inl lease) /\
    lease_id lease = "a" /\ size (sessions l') = size (sessions (expireLocked l 700)).
Proof.
  apply (retained_session_readmitted (run demo_limiter demo_ops) "a"
    {| requests := 1; lastInput := 300; lastOutput := 0; retain := true |}
    [(600, OpAcquire false "c" 1)] 700 1);
    [reflexivity|reflexivity|reflexivity|discriminate|reflexivity|vm_compute; split; [reflexivity|discriminate]|lia| |vm_compute; split; [discriminate|reflexivity]].
  repeat constructor; vm_compute; discriminate || reflexivity.
Defined.
End Sessions.
