(* ===== verification/ProviderSessions.v ===== *)
(** * Sessions per provider and the calls of a server

    [Module Providers]: the session limiters of the providers
    (internal/gateway/provider_sessions.go).  A limiter is created when a
    provider is first used and dropped when the provider left the
    configuration and has no session; requests keep pointers to the leases they
    took.  A pointer to a lease is the limiter's pointer and a position in the
    list of leases that limiter handed out ([Sessions.world] of Limiter.v).
    [Module Calls]: admission and cancellation of calls at shutdown
    (internal/gateway/lifecycle.go). *)

From S2P Require Import Prelude GoStrings Limiter.

Module Providers.
Import Sessions.

Record lease_ptr := Lease { of_limiter : nat; slot : nat }.

(** [h.providerSessions] and the limiters it points or pointed to. *)
Record state := {
  limiters : gmap nat world;
  providerSessions : gmap string nat;
  next_limiter : nat;
}.

#[export] Instance state_eta : Eta state := fun s =>
  {| limiters := limiters s; providerSessions := providerSessions s; next_limiter := next_limiter s |}.

Definition no_sessions : state := {| limiters := ∅; providerSessions := ∅; next_limiter := 0 |}.

Definition step_limiter (s : state) (l : nat) (o : time * op) : state :=
  s <| limiters := alter (fun w => exec w o) l (limiters s) |>.

Definition limiter_of (s : state) (l : nat) : option SessionLimiter := lim <$> limiters s !! l.
Definition current (s : state) (l : nat) : nat := default 0%nat (size ∘ sessions <$> limiter_of s l).

(** [_, current, _ := sessions.Stats()] for every limiter of the map; Stats
    also drops idle sessions. *)
Definition stats_all (s : state) (now : time) : state :=
  map_fold (fun _ l s => step_limiter s l (now, OpStats)) s (providerSessions s).

(** The pruning loop of [acquireProvider]. *)
Definition prune (configured : string -> bool) (s : state) (now : time) : state :=
  let s := stats_all s now in
  s <| providerSessions := filter (fun kv => configured kv.1 = true \/ current s kv.2 <> 0%nat) (providerSessions s) |>.

(** [limiter.NewSessionLimiter(0, idle)] stored under [ref]. *)
Definition new_limiter (s : state) (ref : string) (idle : duration) : state * (nat + session_error) :=
  match NewSessionLimiter 0 idle with
  | inl l => (s <| limiters := <[next_limiter s := {| lim := l; leases := [] |}]> (limiters s) |>
                <| providerSessions := <[ref := next_limiter s]> (providerSessions s) |>
                <| next_limiter := S (next_limiter s) |>, inl (next_limiter s))
  | inr e => (s, inr e)
  end.

(** The limiter's own [AcquireWithLimit], through its pointer. *)
Definition acquire_at (s : state) (l : nat) (ctx_err : bool) (id : string) (limit : Z) (now : time)
    : state * (lease_ptr + session_error) :=
  match limiters s !! l with
  | None => (s, inr ErrContext)
  | Some w => (step_limiter s l (now, OpAcquire ctx_err id limit),
               match (AcquireWithLimit (lim w) ctx_err id limit now).2 with
               | inl _ => inl (Lease l (length (leases w)))
               | inr e => inr e
               end)
  end.

(** [requestSessionAdmission.acquireProvider].  [held] are the leases of the
    request; the new lease is added to them unless the call fails, or the
    request is unlimited and already cancelled. *)
Definition acquireProvider (configured : string -> bool) (idle : duration) (s : state) (held : gmap string lease_ptr)
    (id ref : string) (limit : Z) (ctx_err : bool) (now : time)
    : state * gmap string lease_ptr * option session_error :=
  match held !! ref with
  | Some _ => (s, held, None)
  | None =>
      let s := prune configured s now in
      let '(s, l) := match providerSessions s !! ref with
                     | Some l => (s, inl l)
                     | None => new_limiter s ref idle
                     end in
      match l with
      | inr e => (s, held, Some e)
      | inl l =>
          match acquire_at s l ctx_err id limit now with
          | (s, inl lease) => (s, <[ref := lease]> held, None)
          | (s, inr e) => (s, held, if (limit =? 0) && ctx_err then None else Some e)
          end
      end
  end.

Definition release_lease (now : time) (retain : bool) (s : state) (p : lease_ptr) : state :=
  step_limiter s (of_limiter p) (now, OpRelease (slot p) retain).

Definition releaseProvider (s : state) (held : gmap string lease_ptr) (ref : string) (now : time)
    : state * gmap string lease_ptr :=
  match held !! ref with
  | Some p => (release_lease now false s p, delete ref held)
  | None => (s, held)
  end.

Definition touchOutput (s : state) (held : gmap string lease_ptr) (now : time) : state :=
  map_fold (fun _ p s => step_limiter s (of_limiter p) (now, OpTouch (slot p) false)) s held.

(** [release], when the request ends. *)
Definition release_all (s : state) (held : gmap string lease_ptr) (retain : bool) (now : time) : state :=
  map_fold (fun _ p s => release_lease now retain s p) s held.

(** [sessionStatus]: limit, current sessions and rejections of a provider. *)
Definition provider_status (s : state) (limit : Z) (ref : string) : Z * Z * Z :=
  match providerSessions s !! ref ≫= limiter_of s with
  | Some l => (limit, Z.of_nat (size (sessions l)), rejected l)
  | None => (limit, 0, 0)
  end.

Definition sessionStatus (limits : gmap string Z) (s : state) (now : time) : state * gmap string (Z * Z * Z) :=
  let s := map_fold (fun ref _ s => match providerSessions s !! ref with
                                    | Some l => step_limiter s l (now, OpStats)
                                    | None => s
                                    end) s limits in
  (s, map_imap (fun ref limit => Some (provider_status s limit ref)) limits).

(** ** All the requests of a server *)

(** A request: its session identity and the leases it holds. *)
Record system := {
  shared : state;
  requests_of : gmap nat (string * gmap string lease_ptr);
}.

Section system.
(** The limits that the published configurations set for each provider; the
    limit, the providers of the current view and the idle timeout can differ
    from step to step. *)
Context (limits_of : string -> Z -> Prop).

Inductive step : system -> system -> Prop :=
  | step_admit x r id :
      requests_of x !! r = None ->
      step x {| shared := shared x; requests_of := <[r := (id, ∅)]> (requests_of x) |}
  | step_acquire x r id held ref limit configured idle ctx_err now s held' e :
      requests_of x !! r = Some (id, held) -> limits_of ref limit ->
      acquireProvider configured idle (shared x) held id ref limit ctx_err now = (s, held', e) ->
      step x {| shared := s; requests_of := <[r := (id, held')]> (requests_of x) |}
  | step_release x r id held ref now s held' :
      requests_of x !! r = Some (id, held) ->
      releaseProvider (shared x) held ref now = (s, held') ->
      step x {| shared := s; requests_of := <[r := (id, held')]> (requests_of x) |}
  | step_touch x r id held now :
      requests_of x !! r = Some (id, held) ->
      step x {| shared := touchOutput (shared x) held now; requests_of := requests_of x |}
  | step_end x r id held retain now :
      requests_of x !! r = Some (id, held) ->
      step x {| shared := release_all (shared x) held retain now; requests_of := delete r (requests_of x) |}
  | step_status x limits now :
      step x {| shared := (sessionStatus limits (shared x) now).1; requests_of := requests_of x |}.

Inductive reachable : system -> Prop :=
  | reach_start : reachable {| shared := no_sessions; requests_of := ∅ |}
  | reach_step x y : reachable x -> step x y -> reachable y.

(** ** The invariant *)

Definition held_live (s : state) (id : string) (p : lease_ptr) : Prop :=
  exists w lease, limiters s !! of_limiter p = Some w /\ leases w !! slot p = Some lease /\
                  live_for (Strings.TrimSpace id) lease = true.

Record inv (s : state) (R : gmap nat (string * gmap string lease_ptr)) : Prop := {
  inv_fresh : forall l, is_Some (limiters s !! l) -> (l < next_limiter s)%nat;
  inv_trace : forall ref l, providerSessions s !! ref = Some l ->
    exists ttl l0 ops, NewSessionLimiter 0 ttl = inl l0 /\ limiters s !! l = Some (run l0 ops) /\
                       Forall (limits_in (limits_of ref)) ops;
  inv_names : forall ref ref' l, providerSessions s !! ref = Some l -> providerSessions s !! ref' = Some l -> ref = ref';
  inv_held : forall r id held ref p, R !! r = Some (id, held) -> held !! ref = Some p ->
    providerSessions s !! ref = Some (of_limiter p) /\ held_live s id p;
  inv_owner : forall r id held r' id' held' ref ref' p, R !! r = Some (id, held) -> R !! r' = Some (id', held') ->
    held !! ref = Some p -> held' !! ref' = Some p -> r = r' /\ ref = ref';
}.

Definition holds (R : gmap nat (string * gmap string lease_ptr)) (p : lease_ptr) : Prop :=
  exists r id held ref, R !! r = Some (id, held) /\ held !! ref = Some p.

(** The operation leaves lease [k] alone. *)
Definition spares (o : op) (k : nat) : Prop := match o with OpRelease slot _ => slot <> k | _ => True end.

Lemma exec_leases w now o k lease :
  leases w !! k = Some lease -> spares o k -> leases (exec w (now, o)) !! k = Some lease.
Proof.
  intros Hk Ho. unfold exec. cbn. destruct o as [ctx id m|j input|j b|]; cbn in *; try done.
  - destruct (AcquireWithLimit _ _ _ _ _) as [l [lease'|]]; cbn; [|done]. by apply lookup_app_l_Some.
  - by destruct (leases w !! j).
  - destruct (leases w !! j) as [lj|]; [|done]. destruct (Release _ _ _) as [l lease']. cbn.
    by rewrite list_lookup_insert_ne.
Qed.

Lemma step_limiter_held s l now o id p :
  held_live s id p -> (of_limiter p = l -> spares o (slot p)) -> held_live (step_limiter s l (now, o)) id p.
Proof.
  intros (w & lease & Hw & Hl & Hlive) Ho. unfold held_live, step_limiter. cbn.
  destruct (decide (l = of_limiter p)) as [->|Hne].
  - rewrite lookup_alter_eq, Hw. exists (exec w (now, o)), lease. split; [done|]. split; [|done]. apply exec_leases; auto.
  - rewrite lookup_alter_ne by done. by exists w, lease.
Qed.

Lemma inv_step_limiter s R l now o :
  inv s R -> (forall ref, providerSessions s !! ref = Some l -> limits_in (limits_of ref) (now, o)) ->
  (forall p, holds R p -> of_limiter p = l -> spares o (slot p)) ->
  inv (step_limiter s l (now, o)) R.
Proof.
  intros [Hf Ht Hn Hh Ho] Hlim Hsp. split; cbn; try done.
  - intros k. rewrite lookup_alter_is_Some. apply Hf.
  - intros ref k Hk. destruct (Ht ref k Hk) as (ttl & l0 & ops & Hnew & Hw & Hops). exists ttl, l0.
    destruct (decide (l = k)) as [->|Hne].
    + exists (ops ++ [(now, o)]). rewrite lookup_alter_eq, Hw. cbn. split; [done|]. split.
      * unfold run. by rewrite foldl_app.
      * apply Forall_app_2; [done|]. constructor; [by apply Hlim|constructor].
    + exists ops. by rewrite lookup_alter_ne.
  - intros r id held ref p Hr Hp. destruct (Hh r id held ref p Hr Hp) as [H1 H2]. split; [done|].
    apply step_limiter_held; [done|]. apply Hsp. by exists r, id, held, ref.
Qed.

(** Sweeps and touches are harmless. *)
Definition idle_op (o : op) : Prop := match o with OpTouch _ _ | OpStats => True | _ => False end.

Lemma inv_idle s R l now o : inv s R -> idle_op o -> inv (step_limiter s l (now, o)) R.
Proof. intros H Ho. apply inv_step_limiter; [done|by destruct o|by destruct o]. Qed.

Lemma inv_fold {A} (f : state -> A -> state) (l : list A) s R :
  inv s R -> (forall s x, inv s R -> In x l -> inv (f s x) R) -> inv (foldr (fun x s => f s x) s l) R.
Proof.
  intros Hs Hf. induction l as [|x l IH]; cbn; [done|].
  apply Hf; [|by left]. apply IH. intros s' y Hs' Hy. apply Hf; [done|by right].
Qed.

Lemma foldr_names (l : list (string * nat)) s now :
  providerSessions (foldr (fun kv s => step_limiter s kv.2 (now, OpStats)) s l) = providerSessions s.
Proof. by induction l. Qed.

Lemma stats_all_foldr s now :
  stats_all s now = foldr (fun kv s => step_limiter s kv.2 (now, OpStats)) s (map_to_list (providerSessions s)).
Proof. unfold stats_all. rewrite map_fold_foldr. by induction (map_to_list _) as [|[? ?] l IH]; cbn; [|rewrite <- IH]. Qed.

Lemma live_current s R ref l id p :
  inv s R -> providerSessions s !! ref = Some l -> of_limiter p = l -> held_live s id p -> current s l <> 0%nat.
Proof.
  intros H Href <- (w & lease & Hw & Hl & Hlive).
  destruct (inv_trace _ _ H _ _ Href) as (ttl & l0 & ops & Hnew & Hw' & _). simplify_eq.
  pose proof (accounted_run l0 ops (new_limiter_sessions _ _ _ Hnew) (Strings.TrimSpace id)) as Hacc.
  assert (Hpos : (0 < live (run l0 ops) (Strings.TrimSpace id))%nat).
  { unfold live. by eapply count_positive. }
  unfold current, limiter_of. rewrite Hw. cbn.
  destruct (sessions (lim (run l0 ops)) !! Strings.TrimSpace id) eqn:He; cbn in Hacc; [|lia].
  intros Hz%map_size_empty_iff. rewrite Hz in He. by rewrite lookup_empty in He.
Qed.

Lemma inv_stats_all s R now : inv s R -> inv (stats_all s now) R.
Proof. intros H. rewrite stats_all_foldr. apply (inv_fold (fun s kv => step_limiter s kv.2 _)); [done|]. intros s' kv Hs' _. by apply inv_idle. Qed.

Lemma inv_prune_table configured s R now : inv s R -> inv (prune configured s now) R.
Proof.
  intros H%(inv_stats_all _ _ now). unfold prune. cbn zeta. pose proof H as [Hf Ht Hn Hh Ho].
  split; cbn; try done.
  - intros ref l [Hl _]%map_lookup_filter_Some. eauto.
  - intros ref ref' l [Hl _]%map_lookup_filter_Some [Hl' _]%map_lookup_filter_Some. eauto.
  - intros r id held ref p Hr Hp. destruct (Hh r id held ref p Hr Hp) as [H1 H2]. split; [|exact H2].
    apply map_lookup_filter_Some. split; [done|]. right. cbn. by eapply live_current.
Qed.

Lemma inv_new_limiter s R ref idle s' l :
  inv s R -> providerSessions s !! ref = None -> new_limiter s ref idle = (s', inl l) ->
  inv s' R /\ providerSessions s' !! ref = Some l.
Proof.
  intros [Hf Ht Hn Hh Ho] Href. unfold new_limiter. destruct (NewSessionLimiter 0 idle) as [l0|] eqn:Hnew; [|done].
  intros [= <- <-]. set (n := next_limiter s).
  assert (Hn0 : limiters s !! n = None).
  { destruct (limiters s !! n) eqn:E; [|done]. assert (n < n)%nat by (apply Hf; eauto). lia. }
  assert (Hne : forall ref' l', providerSessions s !! ref' = Some l' -> l' <> n).
  { intros ref' l' H ->. destruct (Ht _ _ H) as (? & ? & ? & _ & Hw & _). congruence. }
  split; [split; cbn; fold n|cbn; fold n; by simplify_map_eq].
  - intros k. rewrite lookup_insert_is_Some. intros [->|[_ Hk]]; [lia|]. apply Hf in Hk. fold n in Hk. lia.
  - intros ref' l'. rewrite lookup_insert_Some. intros [[<- <-]|[_ H]].
    + exists idle, l0, []. rewrite lookup_insert_eq. done.
    + rewrite lookup_insert_ne by (by apply not_eq_sym, (Hne ref')). eauto.
  - intros ref1 ref2 l'. rewrite !lookup_insert_Some.
    intros [[<- <-]|[_ H1]] [[<- H2]|[_ H2]]; try done; [by apply Hne in H2|subst l'; by apply Hne in H1|eauto].
  - intros r id held ref' p Hr Hp. destruct (Hh r id held ref' p Hr Hp) as [H1 (w & lease & Hw & H2)].
    assert (ref <> ref') by congruence. split; [by rewrite lookup_insert_ne|].
    exists w, lease. cbn. fold n. rewrite lookup_insert_ne; [done|]. intros Heq. rewrite <- Heq in Hw. congruence.
  - eauto.
Qed.

Lemma acquired_lease l ctx id m now l' lease :
  AcquireWithLimit l ctx id m now = (l', inl lease) ->
  lease = {| limited := true; lease_id := Strings.TrimSpace id; released := false |}.
Proof. unfold AcquireWithLimit. intros H. repeat case_match; by simplify_eq. Qed.

Lemma holds_old s R p w : inv s R -> holds R p -> limiters s !! of_limiter p = Some w -> (slot p < length (leases w))%nat.
Proof.
  intros H (r & id & held & ref & Hr & Hp) Hw. destruct (inv_held _ _ H _ _ _ _ _ Hr Hp) as [_ (w' & lease & Hw' & Hl & _)].
  simplify_eq. by eapply lookup_lt_Some.
Qed.

(** A fresh lease added to what request [r] holds. *)
Lemma inv_take s R r id held ref p :
  inv s R -> R !! r = Some (id, held) -> held !! ref = None -> providerSessions s !! ref = Some (of_limiter p) ->
  held_live s id p -> ~ holds R p -> inv s (<[r := (id, <[ref := p]> held)]> R).
Proof.
  intros [Hf Ht Hn Hh Ho] Hr Href Hname Hlive Hnew. split; try done.
  - intros r' id' held' ref' p'. rewrite lookup_insert_Some. intros [[<- Heq]|[Hne Hr']]; [|eauto].
    simplify_eq. rewrite lookup_insert_Some. intros [[<- <-]|[_ Hp']]; eauto.
  - intros r1 id1 held1 r2 id2 held2 ref1 ref2 p'. rewrite !lookup_insert_Some.
    intros [[<- Heq1]|[Hne1 Hr1]] [[<- Heq2]|[Hne2 Hr2]] H1 H2; simplify_eq.
    + rewrite lookup_insert_Some in H1, H2. destruct H1 as [[<- <-]|[_ H1]], H2 as [[<- H2]|[_ H2]]; try done.
      * destruct Hnew. by exists r, id1, held, ref2.
      * subst p'. destruct Hnew. by exists r, id1, held, ref1.
      * eauto.
    + rewrite lookup_insert_Some in H1. destruct H1 as [[<- <-]|[_ H1]]; [|eauto].
      destruct Hnew. by exists r2, id2, held2, ref2.
    + rewrite lookup_insert_Some in H2. destruct H2 as [[<- <-]|[_ H2]]; [|eauto].
      destruct Hnew. by exists r1, id1, held1, ref1.
    + eauto.
Qed.

Lemma inv_acquire_at s R r id held ref limit l ctx now s' res :
  limits_of ref limit -> inv s R -> R !! r = Some (id, held) -> held !! ref = None -> providerSessions s !! ref = Some l ->
  acquire_at s l ctx id limit now = (s', res) ->
  inv s' (<[r := (id, match res with inl p => <[ref := p]> held | inr _ => held end)]> R).
Proof.
  intros Hlimit H Hr Href Hname. unfold acquire_at. destruct (limiters s !! l) as [w|] eqn:Hw;
    [|intros [= <- <-]; by rewrite insert_id].
  assert (Hs : inv (step_limiter s l (now, OpAcquire ctx id limit)) R).
  { apply inv_step_limiter; [done| |done]. intros ref' Hr'. cbn. by rewrite <- (inv_names _ _ H _ _ _ Hname Hr'). }
  destruct (AcquireWithLimit (lim w) ctx id limit now) as [l' [lease|e]] eqn:Hacq; cbn; intros [= <- <-];
    [|by rewrite insert_id].
  apply inv_take; try done.
  - exists (exec w (now, OpAcquire ctx id limit)), lease. cbn. rewrite lookup_alter_eq, Hw. split; [done|].
    unfold exec. cbn. rewrite Hacq. cbn. rewrite lookup_app_r, Nat.sub_diag by done. split; [done|].
    rewrite (acquired_lease _ _ _ _ _ _ _ Hacq). unfold live_for. cbn. apply String.eqb_refl.
  - intros Hh. pose proof (holds_old _ _ _ _ H Hh Hw). cbn in *. lia.
Qed.

Lemma inv_acquireProvider configured idle s R r id held ref limit ctx now s' held' e :
  limits_of ref limit -> inv s R -> R !! r = Some (id, held) ->
  acquireProvider configured idle s held id ref limit ctx now = (s', held', e) ->
  inv s' (<[r := (id, held')]> R).
Proof.
  intros Hlimit H Hr. unfold acquireProvider. destruct (held !! ref) as [p|] eqn:Href; [intros [= <- <- _]; by rewrite insert_id|].
  apply (inv_prune_table configured _ _ now) in H. set (s1 := prune configured s now) in *. clearbody s1. clear s.
  assert (Hat : forall s2 l, inv s2 R -> providerSessions s2 !! ref = Some l ->
            match acquire_at s2 l ctx id limit now with
            | (s3, inl lease) => (s3, <[ref := lease]> held, None)
            | (s3, inr e) => (s3, held, if (limit =? 0) && ctx then None else Some e)
            end = (s', held', e) -> inv s' (<[r := (id, held')]> R)).
  { intros s2 l H2 Hl. destruct (acquire_at _ _ _ _ _ _) as [s3 res] eqn:Hat.
    pose proof (inv_acquire_at s2 R r id held ref limit l ctx now s3 res Hlimit H2 Hr Href Hl Hat). destruct res; by intros [= <- <- _]. }
  destruct (providerSessions s1 !! ref) as [l|] eqn:Hl; [by apply Hat|].
  destruct (new_limiter s1 ref idle) as [s2 [l|e']] eqn:Hnew.
  - destruct (inv_new_limiter _ _ _ _ _ _ H Hl Hnew) as [H2 Hl2]. by apply Hat.
  - unfold new_limiter in Hnew. destruct (NewSessionLimiter 0 idle); simplify_eq. intros [= <- <- _]. by rewrite insert_id.
Qed.

(** Releasing a lease that nobody holds any more. *)
Lemma inv_release_lease now retain s R p : inv s R -> ~ holds R p -> inv (release_lease now retain s p) R.
Proof.
  intros H Hp. apply inv_step_limiter; [done|done|]. intros q Hq Heq Hslot. destruct Hp.
  destruct p, q. cbn in *. by subst.
Qed.

Lemma inv_drop s R r id held held' :
  inv s R -> R !! r = Some (id, held) -> (forall ref p, held' !! ref = Some p -> held !! ref = Some p) ->
  inv s (<[r := (id, held')]> R).
Proof.
  intros [Hf Ht Hn Hh Ho] Hr Hsub. split; try done.
  - intros r' id' h' ref' p'. rewrite lookup_insert_Some. intros [[<- Heq]|[Hne Hr']]; [|eauto]. simplify_eq. eauto.
  - intros r1 id1 held1 r2 id2 held2 ref1 ref2 p'. rewrite !lookup_insert_Some.
    intros [[<- Heq1]|[Hne1 Hr1]] [[<- Heq2]|[Hne2 Hr2]] H1 H2; simplify_eq; eauto.
Qed.

Lemma inv_end s R r : inv s R -> inv s (delete r R).
Proof.
  intros [Hf Ht Hn Hh Ho]. split; try done.
  - intros r' id' h' ref' p' [_ Hr']%lookup_delete_Some. eauto.
  - intros r1 id1 held1 r2 id2 held2 ref1 ref2 p' [_ H1]%lookup_delete_Some [_ H2]%lookup_delete_Some. eauto.
Qed.

Lemma not_held_after s R r id held ref p :
  inv s R -> R !! r = Some (id, held) -> held !! ref = Some p ->
  ~ holds (delete r R) p /\ ~ holds (<[r := (id, delete ref held)]> R) p.
Proof.
  intros H Hr Hp. split; intros (r' & id' & held' & ref' & Hr' & Hp').
  - apply lookup_delete_Some in Hr' as [Hne Hr']. destruct (inv_owner _ _ H _ _ _ _ _ _ _ _ _ Hr Hr' Hp Hp'); congruence.
  - apply lookup_insert_Some in Hr' as [[<- Heq]|[Hne Hr']].
    + simplify_eq. apply lookup_delete_Some in Hp' as [Hne Hp'].
      destruct (inv_owner _ _ H _ _ _ _ _ _ _ _ _ Hr Hr Hp Hp'); congruence.
    + destruct (inv_owner _ _ H _ _ _ _ _ _ _ _ _ Hr Hr' Hp Hp'); congruence.
Qed.

Lemma map_fold_inv {K A} `{Countable K} (f : K -> A -> state -> state) (m : gmap K A) s R :
  inv s R -> (forall s k x, inv s R -> m !! k = Some x -> inv (f k x s) R) -> inv (map_fold f s m) R.
Proof.
  intros Hs Hf. rewrite map_fold_foldr. apply (inv_fold (fun s kv => f kv.1 kv.2 s)) with (l := map_to_list m) in Hs.
  - revert Hs. generalize (map_to_list m). intros l. by assert (foldr (fun x s => f x.1 x.2 s) s l =
      foldr (uncurry f) s l) as -> by (induction l as [|[? ?] l IH]; cbn; [done|by rewrite IH]).
  - intros s' [k x] Hs' Hin. apply Hf; [done|]. by apply elem_of_map_to_list, list_elem_of_In.
Qed.

Lemma sessions_step_inv x y : inv (shared x) (requests_of x) -> step x y -> inv (shared y) (requests_of y).
Proof.
  intros H Hstep. destruct Hstep as [x r id Hr|x r id held ref limit configured idle ctx_err now s held' e Hr Hlimit Hacq
    |x r id held ref now s held' Hr Hrel|x r id held now Hr|x r id held retain now Hr|x limits now]; cbn in *.
  - destruct H as [Hf Ht Hn Hh Ho]. split; try done.
    + intros r' id' h' ref' p'. rewrite lookup_insert_Some. intros [[<- Heq]|[Hne Hr']]; simplify_eq; [by rewrite lookup_empty|eauto].
    + intros r1 id1 held1 r2 id2 held2 ref1 ref2 p'. rewrite !lookup_insert_Some.
      intros [[<- Heq1]|[Hne1 Hr1]] [[<- Heq2]|[Hne2 Hr2]] H1 H2; simplify_eq; try (by rewrite lookup_empty in *); eauto.
  - by eapply inv_acquireProvider.
  - unfold releaseProvider in Hrel. destruct (held !! ref) as [p|] eqn:Hp; simplify_eq; [|by rewrite insert_id].
    apply inv_release_lease; [|by eapply not_held_after].
    eapply inv_drop; [done..|]. intros ref' p' [_ ?]%lookup_delete_Some. done.
  - apply map_fold_inv; [done|]. intros s ref p Hs _. by apply inv_idle.
  - apply map_fold_inv; [by apply inv_end|]. intros s ref p Hs Hp. apply inv_release_lease; [done|]. by eapply not_held_after.
  - apply map_fold_inv; [done|]. intros s ref limit Hs _. destruct (providerSessions s !! ref); [|done]. by apply inv_idle.
Qed.

Lemma sessions_reachable_inv x : reachable x -> inv (shared x) (requests_of x).
Proof.
  induction 1 as [|x y _ IH Hstep]; [|by eapply sessions_step_inv].
  split; cbn; intros *; rewrite ?lookup_empty; try done.
Qed.

(** *** Every live lease is held *)

Definition accounted_for (s : state) (H : lease_ptr -> Prop) : Prop :=
  forall l w k lease, limiters s !! l = Some w -> leases w !! k = Some lease ->
    limited lease && negb (released lease) = true -> H (Lease l k).

Lemma live_flags id lease : live_for id lease = true -> limited lease && negb (released lease) = true.
Proof. unfold live_for. by intros [? _]%andb_true_iff. Qed.

Lemma accounted_step s H l now o :
  accounted_for s H ->
  accounted_for (step_limiter s l (now, o)) (fun q => match o with
    | OpRelease k _ => H q /\ q <> Lease l k
    | OpAcquire ctx id m => H q \/ exists p, acquire_at s l ctx id m now = (step_limiter s l (now, o), inl p) /\ q = p
    | _ => H q end).
Proof.
  intros Hs l' w k lease. cbn. destruct (decide (l = l')) as [->|Hne].
  2: { rewrite lookup_alter_ne by done. intros Hw Hk Hlive. specialize (Hs _ _ _ _ Hw Hk Hlive). destruct o; auto.
       split; [done|congruence]. }
  rewrite lookup_alter_eq. destruct (limiters s !! l') as [w0|] eqn:Hw0; [|done]. cbn. intros [= <-].
  unfold exec. cbn. destruct o as [ctx id m|j input|j b|]; cbn.
  - destruct (AcquireWithLimit _ _ _ _ _) as [l1 [lease1|]] eqn:Hacq; cbn; [|intros Hk Hlive; left; eauto].
    intros [Hk|[Hlen Hk]]%lookup_app_Some Hlive; [left; eauto|]. right. exists (Lease l' (length (leases w0))).
    unfold acquire_at. rewrite Hw0, Hacq. split; [done|]. apply list_lookup_singleton_Some in Hk as [Hk _]. f_equal. lia.
  - destruct (leases w0 !! j); cbn; intros Hk Hlive; eauto.
  - destruct (leases w0 !! j) as [lj|] eqn:Hj; [|intros Hk Hlive; split; [eauto|congruence]].
    pose proof (release_live_for (lim w0) lj b (lease_id lj)) as Hdead.
    destruct (Release (lim w0) lj b) as [l1 lj'] eqn:Hrel. cbn. intros Hk Hlive.
    destruct (decide (j = k)) as [->|Hjk].
    + rewrite list_lookup_insert_eq in Hk by (by eapply lookup_lt_Some). injection Hk as <-. exfalso.
      cbn in Hdead. unfold live_for in Hdead.
      assert (Hid : lease_id lj' = lease_id lj) by (unfold Release in Hrel; repeat case_match; by simplify_eq).
      rewrite Hlive, Hid, String.eqb_refl in Hdead. done.
    + rewrite list_lookup_insert_ne in Hk by done. split; [eauto|congruence].
  - intros Hk Hlive; eauto.
Qed.

Lemma accounted_mono s (H H' : lease_ptr -> Prop) :
  accounted_for s H -> (forall q, H q -> H' q) -> accounted_for s H'.
Proof. intros Hs Hi l w k lease Hw Hk Hlive. eauto. Qed.

Lemma accounted_idle s H l now o : accounted_for s H -> idle_op o -> accounted_for (step_limiter s l (now, o)) H.
Proof. intros Hs Ho. pose proof (accounted_step _ _ l now o Hs). by destruct o. Qed.

Lemma accounted_fold_idle {K A} `{Countable K} (f : K -> A -> state -> state) (m : gmap K A) s H0 :
  accounted_for s H0 -> (forall k x s, accounted_for s H0 -> accounted_for (f k x s) H0) -> accounted_for (map_fold f s m) H0.
Proof.
  intros Hs Hf. rewrite map_fold_foldr. induction (map_to_list m) as [|[k x] l IH]; cbn; [done|]. by apply Hf.
Qed.

Lemma accounted_release_all s H held retain now :
  accounted_for s H -> accounted_for (release_all s held retain now) (fun q => H q /\ forall ref, held !! ref <> Some q).
Proof.
  intros Hs. unfold release_all. rewrite map_fold_foldr.
  apply accounted_mono with (H := fun q => H q /\ forall ref, (ref, q) ∉ map_to_list held).
  - induction (map_to_list held) as [|[ref p] l IH]; cbn.
    + apply (accounted_mono _ H); [done|]. intros q Hq. split; [done|]. intros ref. apply not_elem_of_nil.
    + apply (accounted_step _ _ (of_limiter p) now (OpRelease (slot p) retain)) in IH.
      eapply accounted_mono; [exact IH|]. cbn. intros q [[Hq Hl] Hne]. split; [done|].
      intros ref' [[= _ ->]|Hin]%elem_of_cons; [by destruct p|by eapply Hl].
  - intros q [Hq Hno]. split; [done|]. intros ref Href%elem_of_map_to_list. by eapply Hno.
Qed.

Lemma accounted_prune configured s H now : accounted_for s H -> accounted_for (prune configured s now) H.
Proof.
  intros Hs. assert (H1 : accounted_for (stats_all s now) H); [|exact H1].
  unfold stats_all. apply accounted_fold_idle; [done|]. intros k x s' Hs'. by apply accounted_idle.
Qed.

Lemma accounted_new s H ref idle s' l : accounted_for s H -> new_limiter s ref idle = (s', l) -> accounted_for s' H.
Proof.
  intros Hs. unfold new_limiter. destruct (NewSessionLimiter 0 idle) as [l0|]; intros [= <- <-]; [|done].
  intros l' w k lease. cbn. rewrite lookup_insert_Some. intros [[<- <-]|[_ Hw]]; [done|eauto].
Qed.

Lemma accounted_acquireProvider configured idle s R r id held ref limit ctx now s' held' e :
  accounted_for s (holds R) -> R !! r = Some (id, held) ->
  acquireProvider configured idle s held id ref limit ctx now = (s', held', e) ->
  accounted_for s' (holds (<[r := (id, held')]> R)).
Proof.
  intros H Hr. unfold acquireProvider. destruct (held !! ref) as [p|] eqn:Href; [intros [= <- <- _]; by rewrite insert_id|].
  apply (accounted_prune configured _ _ now) in H. set (s1 := prune configured s now) in *. clearbody s1. clear s.
  assert (Hat : forall s2 l, accounted_for s2 (holds R) ->
            match acquire_at s2 l ctx id limit now with
            | (s3, inl lease) => (s3, <[ref := lease]> held, None)
            | (s3, inr e) => (s3, held, if (limit =? 0) && ctx then None else Some e)
            end = (s', held', e) -> accounted_for s' (holds (<[r := (id, held')]> R))).
  { intros s2 l H2. pose proof (accounted_step _ _ l now (OpAcquire ctx id limit) H2) as Hst. cbn in Hst.
    destruct (acquire_at _ _ _ _ _ _) as [s3 res] eqn:Hat.
    assert (H3 : s3 = step_limiter s2 l (now, OpAcquire ctx id limit) \/ s3 = s2 /\ exists e', res = inr e').
    { unfold acquire_at in Hat. destruct (limiters s2 !! l); simplify_eq; [by left|right; eauto]. }
    destruct H3 as [->|[-> [e' ->]]]; [|intros [= <- <- _]; by rewrite insert_id].
    destruct res as [p|e']; intros [= <- <- _].
    - eapply accounted_mono; [exact Hst|]. cbn. intros q [(r' & id' & held1 & ref' & Hr' & Hq)|(p' & [= <-] & ->)].
      + destruct (decide (r = r')) as [<-|Hne].
        * rewrite Hr in Hr'. injection Hr' as <- <-. exists r, id, (<[ref := p]> held), ref'. rewrite lookup_insert_eq. split; [done|].
          rewrite lookup_insert_ne; [done|congruence].
        * exists r', id', held1, ref'. by rewrite lookup_insert_ne.
      + exists r, id, (<[ref := p]> held), ref. by rewrite !lookup_insert_eq.
    - rewrite insert_id by done. eapply accounted_mono; [exact Hst|]. cbn. by intros q [?|(p' & ? & ->)]. }
  destruct (providerSessions s1 !! ref) as [l|] eqn:Hl; [by apply Hat|].
  destruct (new_limiter s1 ref idle) as [s2 [l|e']] eqn:Hnew; pose proof (accounted_new _ _ _ _ _ _ H Hnew) as H2.
  - by apply Hat.
  - intros [= <- <- _]. by rewrite insert_id.
Qed.

Lemma holds_other R r id held q :
  R !! r = Some (id, held) -> holds R q -> (forall ref, held !! ref <> Some q) -> holds (delete r R) q.
Proof.
  intros Hr (r' & id' & held' & ref & Hr' & Hq) Hno. exists r', id', held', ref. split; [|done].
  rewrite lookup_delete_ne; [done|]. intros <-. simplify_eq. by destruct (Hno ref).
Qed.

Lemma step_accounted x y :
  accounted_for (shared x) (holds (requests_of x)) -> step x y -> accounted_for (shared y) (holds (requests_of y)).
Proof.
  intros H Hstep. destruct Hstep as [x r id Hr|x r id held ref limit configured idle ctx_err now s held' e Hr Hlimit Hacq
    |x r id held ref now s held' Hr Hrel|x r id held now Hr|x r id held retain now Hr|x limits now]; cbn in *.
  - eapply accounted_mono; [exact H|]. intros q (r' & id' & held' & ref & Hr' & Hq). exists r', id', held', ref.
    rewrite lookup_insert_ne; [done|congruence].
  - by eapply accounted_acquireProvider.
  - unfold releaseProvider in Hrel. destruct (held !! ref) as [p|] eqn:Hp; simplify_eq; [|by rewrite insert_id].
    eapply accounted_mono; [exact (accounted_step _ _ _ _ _ H)|]. cbn.
    intros q [(r' & id' & held' & ref' & Hr' & Hq) Hne]. destruct (decide (r = r')) as [<-|Hrr].
    + rewrite Hr in Hr'. injection Hr' as <- <-. exists r, id, (delete ref held), ref'. rewrite lookup_insert_eq. split; [done|].
      rewrite lookup_delete_ne; [done|]. intros <-. destruct p; cbn in *; congruence.
    + exists r', id', held', ref'. by rewrite lookup_insert_ne.
  - apply accounted_fold_idle; [done|]. intros ref p s Hs. by apply accounted_idle.
  - eapply accounted_mono; [by apply accounted_release_all|]. cbn. intros q [Hq Hno]. by eapply holds_other.
  - apply accounted_fold_idle; [done|]. intros ref limit s Hs. destruct (providerSessions s !! ref); [|done]. by apply accounted_idle.
Qed.

Lemma reachable_accounted x : reachable x -> accounted_for (shared x) (holds (requests_of x)).
Proof.
  induction 1 as [|x y _ IH Hstep]; [|by eapply step_accounted].
  intros l w k lease. cbn. by rewrite lookup_empty.
Qed.

(** *** What the limiters count *)

Definition live_slot (ls : list SessionLease) (id : string) (k : nat) : bool :=
  match ls !! k with Some lease => live_for id lease | None => false end.

Lemma count_slots ls id : count (live_for id) ls = length (List.filter (live_slot ls id) (seq 0 (length ls))).
Proof.
  induction ls as [|x ls IH] using rev_ind; [done|].
  rewrite count_app, length_app, seq_app, List.filter_app, length_app. cbn. rewrite IH. f_equal.
  - f_equal. apply filter_ext_in. intros k Hk%in_seq. unfold live_slot. rewrite lookup_app_l by lia. done.
  - unfold live_slot. rewrite lookup_app_r, Nat.sub_diag by done. cbn. by destruct (live_for id x).
Qed.

(** The requests in flight that use provider [ref] for session [id]. *)
Definition uses (ref id : string) (v : string * gmap string lease_ptr) : bool :=
  String.eqb (Strings.TrimSpace v.1) id && bool_decide (is_Some (v.2 !! ref)).
Definition users (x : system) (ref id : string) : list (nat * (string * gmap string lease_ptr)) :=
  List.filter (fun kv => uses ref id kv.2) (map_to_list (requests_of x)).

Definition slot_at (ref : string) (kv : nat * (string * gmap string lease_ptr)) : nat :=
  match kv.2.2 !! ref with Some p => slot p | None => 0%nat end.

Lemma users_spec x ref id r v :
  (r, v) ∈ users x ref id <-> requests_of x !! r = Some v /\ Strings.TrimSpace v.1 = id /\ is_Some (v.2 !! ref).
Proof.
  unfold users, uses. rewrite list_elem_of_In, filter_In, <- list_elem_of_In, elem_of_map_to_list. cbn.
  by rewrite andb_true_iff, String.eqb_eq, bool_decide_eq_true.
Qed.

Lemma live_users x ref l w id :
  reachable x -> providerSessions (shared x) !! ref = Some l -> limiters (shared x) !! l = Some w ->
  live w id = length (users x ref id).
Proof.
  intros Hx Href Hw. pose proof (sessions_reachable_inv x Hx) as H. pose proof (reachable_accounted x Hx) as Hacc.
  unfold live. rewrite count_slots, <- (length_fmap (slot_at ref) (users x ref id)). apply Permutation_length, NoDup_Permutation.
  - apply NoDup_ListNoDup, List.NoDup_filter, List.seq_NoDup.
  - apply NoDup_fmap_2_strong.
    + intros [r1 [id1 h1]] [r2 [id2 h2]] (Hr1 & _ & [p1 Hp1])%users_spec (Hr2 & _ & [p2 Hp2])%users_spec Heq.
      cbn in *. unfold slot_at in Heq. cbn in Heq. rewrite Hp1, Hp2 in Heq.
      destruct (inv_held _ _ H _ _ _ _ _ Hr1 Hp1) as [N1 _], (inv_held _ _ H _ _ _ _ _ Hr2 Hp2) as [N2 _].
      assert (p1 = p2) as <- by (destruct p1, p2; cbn in *; congruence).
      destruct (inv_owner _ _ H _ _ _ _ _ _ _ _ _ Hr1 Hr2 Hp1 Hp2) as [<- _]. congruence.
    + apply NoDup_ListNoDup, List.NoDup_filter, NoDup_ListNoDup, NoDup_map_to_list.
  - intros k. rewrite list_elem_of_In, filter_In, <- list_elem_of_In, list_elem_of_fmap, elem_of_seq. unfold live_slot. split.
    + intros [_ Hlive]. destruct (leases w !! k) as [lease|] eqn:Hk; [|done].
      destruct (Hacc l w k lease Hw Hk (live_flags _ _ Hlive)) as (r & id' & held & ref' & Hr & Hp).
      destruct (inv_held _ _ H _ _ _ _ _ Hr Hp) as [Hname (w' & lease' & Hw' & Hk' & Hlive')]. cbn in *.
      assert (ref' = ref) as -> by (by eapply inv_names). simplify_eq.
      exists (r, (id', held)). split; [unfold slot_at; cbn; by rewrite Hp|]. apply users_spec. cbn [fst snd].
      split_and!; [done| |eauto]. unfold live_for in Hlive, Hlive'.
      apply andb_true_iff in Hlive as [_ Hid%String.eqb_eq], Hlive' as [_ Hid'%String.eqb_eq]. congruence.
    + intros ([r [id' held]] & -> & (Hr & Hid & [p Hp])%users_spec). cbn [fst snd] in *.
      destruct (inv_held _ _ H _ _ _ _ _ Hr Hp) as [Hname (w' & lease' & Hw' & Hk' & Hlive')].
      rewrite Href in Hname. injection Hname as ->. rewrite Hw in Hw'. injection Hw' as <-.
      unfold slot_at. cbn. rewrite Hp, Hk'. split; [apply lookup_lt_Some in Hk'; lia|congruence].
Qed.

(** Sessions of a provider are counted exactly.  Whatever requests come and
    go, whichever configurations prune the table in between, all requests that
    use a provider share one limiter, and it counts for each session the
    requests that use it now: pruning never splits the state of a provider,
    and no lease leaks.  With no request left, every session is idle. *)
Theorem provider_sessions_exact x ref l id :
  reachable x -> providerSessions (shared x) !! ref = Some l ->
  (forall r id' held p, requests_of x !! r = Some (id', held) -> held !! ref = Some p -> of_limiter p = l) /\
  match limiter_of (shared x) l ≫= fun m => sessions m !! id with
  | Some e => requests e = Z.of_nat (length (users x ref id))
  | None => length (users x ref id) = 0%nat
  end.
Proof.
  intros Hx Href. pose proof (sessions_reachable_inv x Hx) as H. split.
  - intros r id' held p Hr Hp. destruct (inv_held _ _ H _ _ _ _ _ Hr Hp) as [Hname _]. congruence.
  - destruct (inv_trace _ _ H _ _ Href) as (ttl & l0 & ops & Hnew & Hw & _).
    rewrite <- (live_users x ref l (run l0 ops) id Hx Href Hw). unfold limiter_of. rewrite Hw. cbn.
    pose proof (accounted_run l0 ops (new_limiter_sessions _ _ _ Hnew) id) as Hacc. unfold entry_ok in Hacc.
    destruct (sessions _ !! id); [by destruct Hacc|done].
Qed.

Lemma capacity_users x ref n ids :
  reachable x -> 0 < n -> (forall m, limits_of ref m -> within n m) -> NoDup ids -> Forall (fun id => users x ref id <> []) ids ->
  Z.of_nat (length ids) <= n.
Proof.
  intros Hx Hpos Hlimits Hnd Hids. pose proof (sessions_reachable_inv x Hx) as H.
  destruct ids as [|id0 ids0] eqn:E; [cbn; lia|]. rewrite <- E in *.
  assert (Hex : exists l, providerSessions (shared x) !! ref = Some l).
  { rewrite E in Hids. apply Forall_cons in Hids as [Hu _]. destruct (users x ref id0) as [|[r [id held]] us] eqn:Hus; [done|].
    assert (Hin : (r, (id, held)) ∈ users x ref id0) by (rewrite Hus; by left).
    apply users_spec in Hin as (Hr & _ & [p Hp]). exists (of_limiter p). by eapply inv_held. }
  destruct Hex as [l Href]. destruct (inv_trace _ _ H _ _ Href) as (ttl & l0 & ops & Hnew & Hw & Hops).
  eapply capacity_run; [exact Hnew|exact Hpos| |done|].
  - eapply Forall_impl; [exact Hops|]. intros [now [| | |]]; cbn; auto.
  - eapply Forall_impl; [exact Hids|]. cbn. intros id Hu. rewrite (live_users x ref l _ id Hx Href Hw).
    destruct (users x ref id); [done|cbn; lia].
Qed.

(** Capacity per provider.  While the published configurations give a provider
    positive limits of at most [n], the requests in flight that use it belong
    to at most [n] distinct sessions, over all models and whatever other
    providers do. *)
Theorem provider_session_capacity x ref n ids :
  reachable x -> 0 < n -> (forall m, limits_of ref m -> within n m) -> NoDup ids -> Forall (fun id => users x ref id <> []) ids ->
  Z.of_nat (length ids) <= n.
Proof. apply capacity_users. Qed.
End system.

(** *** Witnesses *)

(** [p] was published with one session, then with two. *)
Definition demo_limit (ref : string) (m : Z) : Prop := if String.eqb ref "p" then m = 1 \/ m = 2 else m = 0.
Definition demo_acquire (x : system) (r : nat) (now : time) : system :=
  match requests_of x !! r with
  | Some (id, held) =>
      let '(s, held', _) := acquireProvider (fun _ => true) 0 (shared x) held id "p" 2 false now in
      {| shared := s; requests_of := <[r := (id, held')]> (requests_of x) |}
  | None => x
  end.
Definition demo_admit (x : system) (r : nat) (id : string) : system :=
  {| shared := shared x; requests_of := <[r := (id, ∅)]> (requests_of x) |}.

Lemma demo_acquire_reachable x r now :
  is_Some (requests_of x !! r) -> reachable demo_limit x -> reachable demo_limit (demo_acquire x r now).
Proof.
  intros [[id held] Hr] Hx. unfold demo_acquire. rewrite Hr.
  destruct (acquireProvider _ _ _ _ _ _ _ _ _) as [[s held'] e] eqn:Hacq.
  eapply reach_step; [exact Hx|]. eapply (step_acquire demo_limit x r id held "p"); [done|by right|exact Hacq].
Qed.
Lemma demo_admit_reachable x r id :
  requests_of x !! r = None -> reachable demo_limit x -> reachable demo_limit (demo_admit x r id).
Proof. intros Hr Hx. eapply reach_step; [exact Hx|]. by apply step_admit. Qed.

(** Two sessions use [p], one of them with two requests. *)
Definition demo_start : system := {| shared := no_sessions; requests_of := ∅ |}.
Definition demo_busy : system :=
  let x := demo_admit (demo_admit (demo_admit demo_start 0 "a") 1 "b") 2 "a" in
  demo_acquire (demo_acquire (demo_acquire x 0 10) 1 20) 2 30.

Lemma demo_busy_reachable : reachable demo_limit demo_busy.
Proof.
  unfold demo_busy. cbv zeta. repeat apply demo_acquire_reachable; try (vm_compute; by eexists).
  repeat apply demo_admit_reachable; try done. apply reach_start.
Qed.

Lemma provider_sessions_exact_witness :
  match limiter_of (shared demo_busy) 0 ≫= fun m => sessions m !! "a" with
  | Some e => requests e = Z.of_nat (length (users demo_busy "p" "a"))
  | None => length (users demo_busy "p" "a") = 0%nat
  end /\ length (users demo_busy "p" "a") = 2%nat.
Proof.
  split; [|by vm_compute]. apply (provider_sessions_exact demo_limit demo_busy "p" 0 "a" demo_busy_reachable). by vm_compute.
Defined.

Lemma provider_session_capacity_witness : Z.of_nat (length ["a"; "b"]) <= 2.
Proof.
  apply (provider_session_capacity demo_limit demo_busy "p"); [apply demo_busy_reachable|done|unfold demo_limit, within; cbn; lia| |].
  - apply NoDup_ListNoDup. repeat constructor; cbn; intuition congruence.
  - repeat constructor; vm_compute; discriminate.
Defined.
End Providers.

Module Calls.

Inductive cause := Canceled | ErrServerShuttingDown | ParentDone.

(** Contexts are numbered in the order of their creation; [causes] has the
    cause of those that ended.  [pending] are the calls of a [CancelCauseFunc]
    that a goroutine makes after it released the mutex, [inflight] the calls
    whose handler has not returned. *)
Record state := {
  draining : bool;
  nextCallID : Z;
  activeCalls : gmap Z nat;
  causes : gmap nat cause;
  pending : list (nat * cause);
  inflight : gset nat;
  next_ctx : nat;
}.

#[export] Instance state_eta : Eta state := fun s =>
  {| draining := draining s; nextCallID := nextCallID s; activeCalls := activeCalls s; causes := causes s;
     pending := pending s; inflight := inflight s; next_ctx := next_ctx s |}.

Definition idle : state :=
  {| draining := false; nextCallID := 0; activeCalls := ∅; causes := ∅; pending := []; inflight := ∅; next_ctx := 0 |}.

(** [beginCall]: the identifier and the context of an admitted call. *)
Definition beginCall (s : state) : state * option (Z * nat) :=
  let c := next_ctx s in
  let s := s <| next_ctx := S c |> in
  if draining s then (s <| pending := (c, ErrServerShuttingDown) :: pending s |>, None)
  else
    let id := (nextCallID s + 1) mod 2 ^ 64 in
    (s <| nextCallID := id |> <| activeCalls := <[id := c]> (activeCalls s) |> <| inflight := {[c]} ∪ inflight s |>,
     Some (id, c)).

(** The function that [beginCall] returns. *)
Definition finishCall (s : state) (id : Z) (c : nat) : state :=
  s <| activeCalls := delete id (activeCalls s) |> <| pending := (c, Canceled) :: pending s |>
    <| inflight := inflight s ∖ {[c]} |>.

Definition beginShutdown (s : state) : state :=
  if draining s then s
  else s <| draining := true |>
         <| pending := ((fun kv => (kv.2, ErrServerShuttingDown)) <$> map_to_list (activeCalls s)) ++ pending s |>.

(** The first cancellation decides the cause. *)
Definition cancel (s : state) (c : nat) (why : cause) : state :=
  match causes s !! c with Some _ => s | None => s <| causes := <[c := why]> (causes s) |> end.

Inductive step : state -> state -> Prop :=
  | step_begin s : step s (beginCall s).1
  | step_finish s c : c ∈ inflight s -> step s (finishCall s ((Z.of_nat c + 1) mod 2 ^ 64) c)
  | step_shutdown s : step s (beginShutdown s)
  | step_cancel s c why before rest :
      pending s = before ++ (c, why) :: rest -> step s ((cancel s c why) <| pending := before ++ rest |>)
  | step_parent s c : (c < next_ctx s)%nat -> step s (cancel s c ParentDone).

Inductive reachable : state -> Prop :=
  | reach_idle : reachable idle
  | reach_step s s' : reachable s -> step s s' -> reachable s'.

Record inv (s : state) : Prop := {
  inv_next : nextCallID s = Z.of_nat (next_ctx s) \/ draining s = true;
  inv_active : forall c, c ∈ inflight s -> activeCalls s !! ((Z.of_nat c + 1) mod 2 ^ 64) = Some c /\ (c < next_ctx s)%nat;
  inv_calls : forall id c, activeCalls s !! id = Some c -> (c < next_ctx s)%nat;
  inv_causes : forall c, c ∈ inflight s -> causes s !! c = Some Canceled -> False;
  inv_pending : forall c, c ∈ inflight s -> (c, Canceled) ∉ pending s;
  inv_known : forall c why, (c, why) ∈ pending s -> (c < next_ctx s)%nat;
  inv_past : forall c, is_Some (causes s !! c) -> (c < next_ctx s)%nat;
  inv_told : draining s = true -> forall c, c ∈ inflight s -> is_Some (causes s !! c) \/ (c, ErrServerShuttingDown) ∈ pending s;
}.

Lemma cancel_fields s c why :
  draining (cancel s c why) = draining s /\ nextCallID (cancel s c why) = nextCallID s /\
  activeCalls (cancel s c why) = activeCalls s /\ pending (cancel s c why) = pending s /\
  inflight (cancel s c why) = inflight s /\ next_ctx (cancel s c why) = next_ctx s.
Proof. unfold cancel. by destruct (causes s !! c). Qed.

Lemma cancel_causes s c why c' :
  causes (cancel s c why) !! c' = if decide (c = c') then Some (default why (causes s !! c)) else causes s !! c'.
Proof.
  unfold cancel. destruct (causes s !! c) as [w|] eqn:Hc; cbn; case_decide as Heq; subst; try done.
  - by rewrite lookup_insert_eq.
  - by rewrite lookup_insert_ne.
Qed.

Lemma mod_id c : Z.of_nat c + 1 < 2 ^ 64 -> (Z.of_nat c + 1) mod 2 ^ 64 = Z.of_nat c + 1.
Proof. intros. apply Z.mod_small. lia. Qed.

Lemma cancel_told s c why c' d :
  is_Some (causes s !! c') \/ (c', d) ∈ pending s -> is_Some (causes (cancel s c why) !! c') \/ (c', d) ∈ pending s.
Proof. intros [H|H]; [left|by right]. rewrite cancel_causes. case_decide; [eauto|done]. Qed.

Lemma begin_inv s : inv s -> Z.of_nat (next_ctx (beginCall s).1) + 1 < 2 ^ 64 -> inv (beginCall s).1.
Proof.
  intros H Hb. destruct H as [Hn Ha Hm Hc Hp Hk Hpast Ht]. unfold beginCall in *. cbn in *.
  destruct (draining s) eqn:Hd; cbn in *.
  - split; cbn; rewrite ?Hd; try done; auto.
    + intros c Hin. destruct (Ha c Hin). split; [done|lia].
    + intros id c Hin%Hm. lia.
    + intros c Hin [[=]|Hin']%elem_of_cons. by eapply Hp.
    + intros c why [[= -> ->]|Hin%Hk]%elem_of_cons; lia.
    + intros c Hin%Hpast. lia.
    + intros _ c Hin. destruct (Ht eq_refl c Hin) as [?|?]; [by left|right; by right].
  - destruct Hn as [Hn|]; [|done]. rewrite Hn, mod_id by lia. split; cbn; rewrite ?Hd; try done.
    + left. lia.
    + intros c [->%elem_of_singleton|Hin]%elem_of_union.
      * rewrite mod_id, lookup_insert_eq by lia. split; [done|lia].
      * destruct (Ha c Hin) as [Hact Hlt]. rewrite mod_id in * by lia. split; [|lia]. rewrite lookup_insert_ne; [done|lia].
    + intros id c. rewrite lookup_insert_Some. intros [[_ <-]|[_ Hin%Hm]]; lia.
    + intros c [->%elem_of_singleton|Hin]%elem_of_union Hca; [|by eapply Hc].
      assert (next_ctx s < next_ctx s)%nat by (apply Hpast; eauto). lia.
    + intros c [->%elem_of_singleton|Hin]%elem_of_union; [|by apply Hp]. intros Hin%Hk. lia.
    + intros c why Hin%Hk. lia.
    + intros c Hin%Hpast. lia.
Qed.

Lemma shutdown_inv s : inv s -> inv (beginShutdown s).
Proof.
  intros H. unfold beginShutdown. destruct (draining s) eqn:Hd; [done|]. destruct H as [Hn Ha Hm Hc Hp Hk Hpast Ht].
  split; cbn; try done; [by right|..].
  - intros c Hin. rewrite elem_of_app, list_elem_of_fmap. intros [([id c'] & [=] & _)|Hin']. by eapply Hp.
  - intros c why. rewrite elem_of_app, list_elem_of_fmap. intros [([id c'] & [= -> ->] & Hin%elem_of_map_to_list)|Hin]; [|by eapply Hk].
    by eapply Hm.
  - intros _ c Hin. right. apply elem_of_app. left. apply list_elem_of_fmap.
    exists ((Z.of_nat c + 1) mod 2 ^ 64, c). split; [done|]. apply elem_of_map_to_list. by apply Ha.
Qed.

Lemma finish_inv s c :
  inv s -> c ∈ inflight s -> Z.of_nat (next_ctx s) + 1 < 2 ^ 64 -> inv (finishCall s ((Z.of_nat c + 1) mod 2 ^ 64) c).
Proof.
  intros H Hin Hb. destruct H as [Hn Ha Hm Hc Hp Hk Hpast Ht]. split; cbn; try done.
  - intros c' [Hin' Hne%not_elem_of_singleton]%elem_of_difference. destruct (Ha c Hin), (Ha c' Hin') as [Ha' ?].
    split; [|done]. rewrite !mod_id in * by lia. rewrite lookup_delete_ne; [done|lia].
  - intros id c' [_ Hid]%lookup_delete_Some. by eapply Hm.
  - intros c' [Hin' _]%elem_of_difference. by apply Hc.
  - intros c' [Hin' Hne%not_elem_of_singleton]%elem_of_difference [[= ->]|Hin'']%elem_of_cons; [done|by eapply Hp].
  - intros c' why [[= -> ->]|Hin']%elem_of_cons; [by apply Ha|by eapply Hk].
  - intros Hd c' [Hin' _]%elem_of_difference. destruct (Ht Hd c' Hin') as [?|?]; [by left|right; by right].
Qed.

Lemma cancel_inv s c why :
  inv s -> (c < next_ctx s)%nat -> (why = Canceled -> c ∉ inflight s) -> inv (cancel s c why).
Proof.
  intros H Hlt Hwhy. destruct H as [Hn Ha Hm Hc Hp Hk Hpast Ht].
  destruct (cancel_fields s c why) as (F1 & F2 & F3 & F4 & F5 & F6).
  split; rewrite ?F1, ?F2, ?F3, ?F4, ?F5, ?F6; try done.
  - intros c' Hin. rewrite cancel_causes. case_decide as Heq; [subst c'|by apply Hc].
    destruct (causes s !! c) as [w|] eqn:Hw; cbn; intros [= ->]; [by eapply Hc|by apply Hwhy].
  - intros c'. rewrite cancel_causes. case_decide as Heq; [subst c'; done|apply Hpast].
  - intros Hd c' Hin. destruct (Ht Hd c' Hin) as [Hs|?]; [left|by right]. rewrite cancel_causes. case_decide; [eauto|done].
Qed.

(** A pending cancellation that was made is no longer pending. *)
Lemma pop_inv s c why before rest :
  inv s -> pending s = before ++ (c, why) :: rest -> is_Some (causes s !! c) -> inv (s <| pending := before ++ rest |>).
Proof.
  intros H Hpend Hdone. destruct H as [Hn Ha Hm Hc Hp Hk Hpast Ht].
  assert (Hsub : forall x, x ∈ before ++ rest -> x ∈ pending s) by (intros x; rewrite Hpend; set_solver).
  split; cbn; try done.
  - intros c' Hin Hin'%Hsub. by eapply Hp.
  - intros c' why' Hin%Hsub. by eapply Hk.
  - intros Hd c' Hin. destruct (Ht Hd c' Hin) as [?|Hp']; [by left|]. rewrite Hpend in Hp'.
    apply elem_of_app in Hp' as [?|[[= -> ->]|?]%elem_of_cons]; [right; set_solver|by left|right; set_solver].
Qed.

Lemma calls_step_inv s s' : inv s -> step s s' -> Z.of_nat (next_ctx s') + 1 < 2 ^ 64 -> inv s'.
Proof.
  intros H Hstep Hb. destruct Hstep as [s|s c Hc|s|s c why before rest Hp|s c Hc].
  - by apply begin_inv.
  - by apply finish_inv.
  - by apply shutdown_inv.
  - destruct (cancel_fields s c why) as (F1 & F2 & F3 & F4 & F5 & F6).
    assert (Hin : (c, why) ∈ pending s) by (rewrite Hp; set_solver).
    apply (pop_inv _ c why).
    + apply cancel_inv; [done|by eapply inv_known|]. intros -> Hc. by eapply inv_pending.
    + by rewrite F4.
    + rewrite cancel_causes, decide_True by done. eauto.
  - apply cancel_inv; [done..|discriminate].
Qed.

Lemma step_next s s' : step s s' -> (next_ctx s <= next_ctx s')%nat.
Proof.
  destruct 1; cbn; try lia.
  - unfold beginCall. destruct (draining _); cbn; lia.
  - unfold beginShutdown. destruct (draining _); cbn; lia.
  - destruct (cancel_fields s c why) as (_ & _ & _ & _ & _ & ->). lia.
  - destruct (cancel_fields s c ParentDone) as (_ & _ & _ & _ & _ & ->). lia.
Qed.

Lemma calls_reachable_inv s : reachable s -> Z.of_nat (next_ctx s) + 1 < 2 ^ 64 -> inv s.
Proof.
  induction 1 as [|s s' _ IH Hstep]; intros Hb.
  - split; cbn; try done; [by left|..]; try set_solver; intros *; rewrite ?lookup_empty; try done.
  - eapply calls_step_inv; [|exact Hstep|done]. apply IH. apply step_next in Hstep. lia.
Qed.

(** Shutdown reaches every call.  Once [beginShutdown] ran, no call is
    admitted any more, and every call in flight is told: its context has ended
    (with the shutdown as its cause, unless the client left first) or the
    cancellation is about to be made.  The bound is the width of the call
    counter. *)
Theorem shutdown_reaches_every_call s :
  reachable s -> Z.of_nat (next_ctx s) + 1 < 2 ^ 64 -> draining s = true ->
  (beginCall s).2 = None /\
  forall c, c ∈ inflight s ->
    causes s !! c = Some ErrServerShuttingDown \/ causes s !! c = Some ParentDone \/
    (c, ErrServerShuttingDown) ∈ pending s.
Proof.
  intros Hs Hb Hd. pose proof (calls_reachable_inv s Hs Hb) as H. split; [unfold beginCall; cbn; by rewrite Hd|].
  intros c Hc. destruct (inv_told _ H Hd c Hc) as [[why Hw]|]; [|by auto].
  destruct why; auto. exfalso. by eapply inv_causes.
Qed.

(** Two calls, the first finished, then the shutdown. *)
Definition demo : state :=
  let s := (beginCall (beginCall idle).1).1 in beginShutdown (finishCall s 1 0).

Lemma demo_reachable : reachable demo.
Proof.
  eapply reach_step; [|apply step_shutdown]. eapply reach_step; [|apply (step_finish _ 0); set_solver].
  do 2 (eapply reach_step; [|apply step_begin]). apply reach_idle.
Qed.

Lemma shutdown_reaches_every_call_witness :
  1%nat ∈ inflight demo /\ (beginCall demo).2 = None /\
  (causes demo !! 1%nat = Some ErrServerShuttingDown \/ causes demo !! 1%nat = Some ParentDone \/
   (1%nat, ErrServerShuttingDown) ∈ pending demo).
Proof.
  assert (Hin : 1%nat ∈ inflight demo) by set_solver. split; [done|].
  destruct (shutdown_reaches_every_call demo demo_reachable) as [H1 H2]; [by vm_compute|by vm_compute|]. split; [done|]. by apply H2.
Defined.
End Calls.
