(* ===== verification/GoFloat.v ===== *)
(** * IEEE 754 double precision, and numbers as text

    Go's [float64] as the specification floats of the standard library with
    53 bits of precision; every operation rounds to nearest even.  Then what the
    code uses of [strconv] and of number encoding in [encoding/json]: decimal
    integers, the exact rounding of a decimal text to a double, and the shortest
    decimal that is rounded back to a double. *)

From S2P Require Import Prelude.
From Stdlib Require Import SpecFloat.

Module Float.
Abbreviation float64 := spec_float (only parsing).

Definition prec : Z := 53.
Definition emax : Z := 1024.

(** [float64(n)] for an [int64]. *)
Definition of_Z (n : Z) : float64 := binary_normalize prec emax n 0 false.
Definition zero : float64 := S754_zero false.

Definition add (x y : float64) : float64 := SFadd prec emax x y.
Definition mul (x y : float64) : float64 := SFmul prec emax x y.
Definition div (x y : float64) : float64 := SFdiv prec emax x y.

Definition lt (x y : float64) : bool := SFltb x y.
Definition le (x y : float64) : bool := SFleb x y.
(** [==]: false on NaN, and the two zeros are equal. *)
Definition eq (x y : float64) : bool := SFeqb x y.

Definition is_nan (x : float64) : bool := match x with S754_nan => true | _ => false end.
Definition is_inf (x : float64) : bool := match x with S754_infinity _ => true | _ => false end.

#[export] Instance float64_eq_dec : EqDecision spec_float.
Proof. solve_decision. Defined.

(** Comparison is a total preorder away from NaN. *)
Lemma compare_antisym x y :
  SFcompare y x = match SFcompare x y with Some c => Some (CompOpp c) | None => None end.
Proof.
  destruct x as [[]|[]| |[] mx ex], y as [[]|[]| |[] my ey]; simpl; try done;
    rewrite (Z.compare_antisym ex ey); destruct (ex ?= ey)%Z; simpl; try done;
    f_equal; change (Pos.compare_cont Eq my mx) with (my ?= mx)%positive;
    rewrite (Pos.compare_antisym mx my); by rewrite ?CompOpp_involutive.
Qed.

Lemma lt_irrefl x : lt x x = false.
Proof.
  unfold lt, SFltb. destruct (SFcompare x x) as [[]|] eqn:E; try done.
  pose proof (compare_antisym x x) as H. rewrite E in H. done.
Qed.

Lemma lt_asym x y : lt x y = true -> lt y x = false.
Proof.
  unfold lt, SFltb. rewrite (compare_antisym x y). by destruct (SFcompare x y) as [[]|].
Qed.
End Float.

Example price_sum : Float.lt (Float.add (Float.of_Z 1) (Float.of_Z 2)) (Float.of_Z 4) = true.
Proof. reflexivity. Qed.

(** ** Order: comparison is a total preorder away from NaN *)

Module FloatOrder.
Import Float.

Ltac compare_cases :=
  unfold lt, eq, SFltb, SFeqb, SFcompare;
  repeat match goal with |- context [Pos.compare_cont Eq ?a ?b] => change (Pos.compare_cont Eq a b) with (a ?= b)%positive end;
  repeat match goal with |- context [(?a ?= ?b)%Z] => destruct (Z.compare_spec a b); subst; try done; try lia end;
  repeat match goal with |- context [(?a ?= ?b)%positive] => destruct (Pos.compare_spec a b); subst; try done; try lia end.

Lemma lt_trans x y z : lt x y = true -> lt y z = true -> lt x z = true.
Proof.
  destruct x as [[]|[]| |[] mx ex], y as [[]|[]| |[] my ey], z as [[]|[]| |[] mz ez]; try done; compare_cases.
Qed.

Lemma eq_trans x y z : eq x y = true -> eq y z = true -> eq x z = true.
Proof.
  destruct x as [[]|[]| |[] mx ex], y as [[]|[]| |[] my ey], z as [[]|[]| |[] mz ez]; try done; compare_cases.
Qed.

Lemma lt_eq_trans x y z : lt x y = true -> eq y z = true -> lt x z = true.
Proof.
  destruct x as [[]|[]| |[] mx ex], y as [[]|[]| |[] my ey], z as [[]|[]| |[] mz ez]; try done; compare_cases.
Qed.

Lemma eq_sym x y : eq x y = eq y x.
Proof. unfold eq, SFeqb. rewrite (compare_antisym x y). by destruct (SFcompare x y) as [[]|]. Qed.

Lemma lt_not_eq x y : lt x y = true -> eq x y = false.
Proof. unfold lt, eq, SFltb, SFeqb. by destruct (SFcompare x y) as [[]|]. Qed.

Lemma eq_lt_trans x y z : eq x y = true -> lt y z = true -> lt x z = true.
Proof.
  destruct x as [[]|[]| |[] mx ex], y as [[]|[]| |[] my ey], z as [[]|[]| |[] mz ez]; try done; compare_cases.
Qed.

Lemma total x y : is_nan x = false -> is_nan y = false -> lt x y = true \/ eq x y = true \/ lt y x = true.
Proof.
  intros Hx Hy. unfold lt, eq, SFltb, SFeqb. rewrite (compare_antisym x y).
  destruct (SFcompare x y) as [[]|] eqn:E; try tauto.
  by destruct x as [[]|[]| |[] mx ex], y as [[]|[]| |[] my ey].
Qed.
End FloatOrder.

(** ** Signs: sums, products and quotients of non-negative numbers *)

Module FloatSigns.
Import Float.

(** Not below zero, or not a number. *)
Definition nonneg (x : spec_float) : Prop :=
  match x with
  | S754_infinity true | S754_finite true _ _ => False
  | _ => True
  end.

Lemma round_aux_nonneg m e l : nonneg (binary_round_aux prec emax false m e l).
Proof.
  unfold binary_round_aux. destruct (shr_fexp _ _ m e l) as [r e'].
  destruct (shr_fexp _ _ _ _ loc_Exact) as [r' e'']. destruct (shr_m r') as [|q|q]; try done.
  by destruct (Z.leb _ _).
Qed.

Lemma normalize_nonneg m e : 0 <= m -> nonneg (binary_normalize prec emax m e false).
Proof.
  intros Hm. destruct m as [|m|m]; [done| |lia]. unfold binary_normalize, binary_round.
  destruct (shl_align _ _ _) as [mz ez]. apply round_aux_nonneg.
Qed.

Lemma of_Z_nonneg n : 0 <= n -> nonneg (of_Z n).
Proof. apply normalize_nonneg. Qed.

Lemma add_nonneg x y : nonneg x -> nonneg y -> nonneg (add x y).
Proof.
  destruct x as [[]|[]| |[] mx ex], y as [[]|[]| |[] my ey]; simpl; intros Hx Hy; try done.
  exact (normalize_nonneg (Z.pos ((shl_align mx ex (Z.min ex ey)).1 + (shl_align my ey (Z.min ex ey)).1)) _ ltac:(lia)).
Qed.

Lemma mul_nonneg x y : nonneg x -> nonneg y -> nonneg (mul x y).
Proof.
  destruct x as [[]|[]| |[] mx ex], y as [[]|[]| |[] my ey]; simpl; intros Hx Hy; try done.
  unfold mul, SFmul. apply round_aux_nonneg.
Qed.

Lemma div_nonneg x m e : nonneg x -> nonneg (div x (S754_finite false m e)).
Proof.
  destruct x as [[]|[]| |[] mx ex]; simpl; intros Hx; try done.
  unfold div, SFdiv. destruct (SFdiv_core_binary _ _ _ _ _ _) as [[mz ez] lz]. apply round_aux_nonneg.
Qed.

Lemma nonneg_le x : nonneg x -> is_nan x = false -> le zero x = true.
Proof. by destruct x as [[]|[]| |[] m e]. Qed.

Lemma not_below_zero x : lt x zero = false -> nonneg x \/ is_nan x = true.
Proof. destruct x as [[]|[]| |[] m e]; simpl; intros H; try done; by (left + right). Qed.
End FloatSigns.

(** * Numbers as text *)

From S2P Require Import Prelude GoStrings.
From Stdlib Require Import SpecFloat.

(** ** Integers *)

Module Decimal.

Fixpoint digits_fuel (fuel : nat) (n : Z) (acc : list byte) : list byte :=
  match fuel with
  | O => acc
  | S fuel =>
      let acc := 48 + n mod 10 :: acc in
      if n / 10 =? 0 then acc else digits_fuel fuel (n / 10) acc
  end.
(** The decimal digits of [n >= 0]: the binary length of [n] bounds their
    number. *)
Definition digits (n : Z) : list byte := digits_fuel (S (Z.to_nat (Z.log2 n))) n [].

(** [strconv.Itoa], [strconv.AppendInt(b, n, 10)]. *)
Definition of_Z (n : Z) : string :=
  if n <? 0 then String (ascii_of_byte 45) (string_of_bytes (digits (- n))) else string_of_bytes (digits n).

(** [strconv.ParseInt(s, 10, 64)] of a JSON number: an optional minus sign
    and digits; [None] when there is anything else or it does not fit. *)
Definition ParseInt (s : string) : option Z :=
  match s with
  | String c t =>
      let (neg, body) := if byte_of_ascii c =? 45 then (true, t) else (false, s) in
      if String.eqb body "" || negb (Strings.all (Utf8.between 48 57) body) then None
      else
        let n := Strconv.digits_value (bytes_of_string body) 0 in
        let n := if neg then - n else n in
        if (min_int64 <=? n) && (n <=? max_int64) then Some n else None
  | EmptyString => None
  end.

End Decimal.

(** ** Floats *)

Module FloatText.

(** The double nearest to [m * 10^e], ties to even: exact for [0 <= e];
    otherwise a quotient with at least two bits more than a mantissa, the last
    one of them sticky. *)
Definition of_decimal (neg : bool) (m e : Z) : spec_float :=
  if m =? 0 then S754_zero neg
  else
    let x :=
      if 0 <=? e then binary_normalize Float.prec Float.emax (m * 10 ^ e) 0 false
      else
        let d := 10 ^ (- e) in
        let k := Z.max 0 (Float.prec + 3 + Z.log2 d - Z.log2 m) in
        let q := Z.shiftl m k / d in
        let r := Z.shiftl m k mod d in
        binary_normalize Float.prec Float.emax (2 * q + (if r =? 0 then 0 else 1)) (- (k + 1)) false in
    if neg then SFopp x else x.

(** The parts of a JSON number: sign, digits before and after the point, and
    exponent; as [strconv.readFloat] does, the exponent stops growing at
    10000. *)
Record parts := { negative : bool; integer : list byte; fraction : list byte; exponent : Z }.

Fixpoint span_digits (l : list byte) : list byte * list byte :=
  match l with
  | b :: l' => if Utf8.between 48 57 b then let (d, r) := span_digits l' in (b :: d, r) else ([], l)
  | [] => ([], [])
  end.

Fixpoint exponent_value (l : list byte) (acc : Z) : Z :=
  match l with
  | [] => acc
  | b :: l => exponent_value l (if acc <? 10000 then acc * 10 + (b - 48) else acc)
  end.

Definition split (s : string) : parts :=
  let l := bytes_of_string s in
  let (neg, l) := match l with 45 :: l' => (true, l') | _ => (false, l) end in
  let (i, l) := span_digits l in
  let (f, l) := match l with 46 :: l' => span_digits l' | _ => ([], l) end in
  let e := match l with
           | _ :: 45 :: l' => - exponent_value l' 0
           | _ :: 43 :: l' => exponent_value l' 0
           | _ :: l' => exponent_value l' 0
           | [] => 0
           end in
  {| negative := neg; integer := i; fraction := f; exponent := e |}.

(** [strconv.ParseFloat(s, 64)] of a JSON number: [None] for [ErrRange]. *)
Definition ParseFloat (s : string) : option spec_float :=
  let p := split s in
  let m := Strconv.digits_value (integer p ++ fraction p) 0 in
  let x := of_decimal (negative p) m (exponent p - Z.of_nat (length (fraction p))) in
  if Float.is_inf x then None else Some x.

(** The exact value of a finite double as a fraction. *)
Definition value (m : positive) (e : Z) : Z * Z :=
  if 0 <=? e then (Z.pos m * 2 ^ e, 1) else (Z.pos m, 2 ^ (- e)).

(** The number [k] with [10^k <= n/d < 10^(k+1)], searched up from below. *)
Fixpoint magnitude (fuel : nat) (n d k : Z) : Z :=
  match fuel with
  | O => k
  | S fuel =>
      if (if 0 <=? k + 1 then 10 ^ (k + 1) * d <=? n else d <=? n * 10 ^ (- (k + 1)))
      then magnitude fuel n d (k + 1) else k
  end.

(** The shortest digits [c] and exponent [t] such that [c * 10^t] is rounded
    to [x], the closest one of that length. *)
Fixpoint shortest (fuel : nat) (x : spec_float) (n d k len : Z) : Z * Z :=
  let t := k - len + 1 in
  let (num, den) := if 0 <=? t then (n, d * 10 ^ t) else (n * 10 ^ (- t), d) in
  let lo := num / den in
  let r := num mod den in
  let ok c := Float.eq (of_decimal false c t) x in
  match fuel with
  | O => (lo, t)
  | S fuel =>
      match ok lo, ok (lo + 1) with
      | true, true => if 2 * r <=? den then (lo, t) else (lo + 1, t)
      | true, false => (lo, t)
      | false, true => (lo + 1, t)
      | false, false => shortest fuel x n d k (len + 1)
      end
  end.

(** The digits of a decimal without trailing zeros, and the exponent of its
    first digit. *)
Fixpoint drop_zeros (l : list byte) : list byte :=
  match l with 48 :: l => drop_zeros l | l => l end.

Definition shortest_digits (m : positive) (e : Z) : list byte * Z :=
  let (n, d) := value m e in
  let low := 3 * (Z.log2 (Z.pos m) + e) / 10 - 2 in
  let k := magnitude 40 n d low in
  let '(c, t) := shortest 17 (S754_finite false m e) n d k 1 in
  let ds := Decimal.digits c in
  (rev (drop_zeros (rev ds)), t + Z.of_nat (length ds) - 1).

Definition zeros (n : Z) : list byte := repeat 48 (Z.to_nat n).

(** [%f] and [%e] of the shortest digits; the exponent of [%e] has the two
    digits of Go, of which [encoding/json] drops a leading zero of a negative
    one. *)
Definition plain (ds : list byte) (k : Z) : list byte :=
  if k <? 0 then [48; 46] ++ zeros (- k - 1) ++ ds
  else let before := take (Z.to_nat (k + 1)) ds in
       let after := drop (Z.to_nat (k + 1)) ds in
       before ++ zeros (k + 1 - Z.of_nat (length ds)) ++ (match after with [] => [] | _ => 46 :: after end).

Definition scientific (ds : list byte) (k : Z) : list byte :=
  match ds with
  | [] => []
  | d :: rest =>
      [d] ++ (match rest with [] => [] | _ => 46 :: rest end) ++ [101] ++
      (if k <? 0 then 45 :: Decimal.digits (- k) else 43 :: Decimal.digits k)
  end.

(** The number encoding of [encoding/json] for a finite double. *)
Definition format (x : spec_float) : string :=
  match x with
  | S754_finite neg m e =>
      let (ds, k) := shortest_digits m e in
      let body := if (k <? -6) || (21 <=? k) then scientific ds k else plain ds k in
      string_of_bytes ((if neg then [45] else []) ++ body)
  | S754_zero true => "-0"
  | S754_zero false => "0"
  | _ => ""
  end.

End FloatText.
