(* ===== verification/NetText.v ===== *)
(** * Texts of the network

    What the configuration and the discovery of models use of Go's [net],
    [mime], [time] and [net/url]: addresses, media types and dates, as bytes.
    [URL] has the parts of a parsed URL that the code reads. *)

From S2P Require Import Prelude GoStrings.

Definition trim_left (l : list byte) : list byte :=
  concat (snd <$> Strings.drop_while (fun rb : Z * list byte => Unicode.IsSpace rb.1) (Utf8.runes l)).

(** The first byte [b] of a text: what is before it and after it. *)
Fixpoint cut_byte (b : byte) (l : list byte) : option (list byte * list byte) :=
  match l with
  | [] => None
  | c :: l => if c =? b then Some ([], l) else '(x, y) ← cut_byte b l; Some (c :: x, y)
  end.
Definition last_cut (b : byte) (l : list byte) : option (list byte * list byte) :=
  '(x, y) ← cut_byte b (rev l); Some (rev y, rev x).
Definition has_byte (b : byte) (l : list byte) : bool := existsb (Z.eqb b) l.
Fixpoint split_byte (b : byte) (l : list byte) : list (list byte) :=
  match l with
  | [] => [[]]
  | c :: l => if c =? b then [] :: split_byte b l
              else match split_byte b l with [] => [[c]] | x :: xs => (c :: x) :: xs end
  end.

Definition digit (b : byte) : bool := Utf8.between 48 57 b.
Definition number (l : list byte) : Z := foldl (fun n b => n * 10 + (b - 48)) 0 l.

(** ** Media types *)

Module Mime.
Definition tspecial (b : byte) : bool := has_byte b [40; 41; 60; 62; 64; 44; 59; 58; 92; 34; 47; 91; 93; 63; 61].
Definition token_char (b : byte) : bool := Utf8.between 33 126 b && negb (tspecial b).

Fixpoint consumeToken (l : list byte) : list byte * list byte :=
  match l with
  | b :: l' => if token_char b then let (t, r) := consumeToken l' in (b :: t, r) else ([], l)
  | [] => ([], [])
  end.
(** After the opening quote; [None] when there is no value. *)
Fixpoint quoted_value (l acc : list byte) : option (list byte * list byte) :=
  match l with
  | [] => None
  | 34 :: l => Some (rev acc, l)
  | 92 :: ((b :: l'') as l') => if tspecial b then quoted_value l'' (b :: acc) else quoted_value l' (92 :: acc)
  | b :: l => if (b =? 13) || (b =? 10) then None else quoted_value l (b :: acc)
  end.
Definition consumeValue (l : list byte) : option (list byte * list byte) :=
  match l with
  | 34 :: l => quoted_value l []
  | _ => match consumeToken l with ([], _) => None | r => Some r end
  end.

Section types.
Context (ToLower : string -> string).

Definition lower (l : list byte) : list byte := bytes_of_string (ToLower (string_of_bytes l)).

(** [consumeMediaParam]: the name, the value and the rest; [None] when the
    code returns an empty name. *)
Definition consumeMediaParam (l : list byte) : option (list byte * list byte * list byte) :=
  match trim_left l with
  | 59 :: rest =>
      let (name, rest) := consumeToken (trim_left rest) in
      match lower name, trim_left rest with
      | [], _ => None
      | name, 61 :: rest => '(v, rest) ← consumeValue (trim_left rest); Some (name, v, rest)
      | _, _ => None
      end
  | _ => None
  end.

(** The parameters have to be readable and to agree with each other; each of
    them takes at least a byte. *)
Fixpoint params_ok (fuel : nat) (seen : list (list byte * list byte)) (l : list byte) : bool :=
  match trim_left l, fuel with
  | [], _ => true
  | l, S fuel =>
      match consumeMediaParam l with
      | None => String.eqb (Strings.TrimSpace (string_of_bytes l)) ";"
      | Some (name, v, rest) =>
          negb (existsb (fun kv => bool_decide (kv.1 = name /\ kv.2 <> v)) seen) && params_ok fuel ((name, v) :: seen) rest
      end
  | _, O => false
  end.

Definition checkMediaTypeDisposition (l : list byte) : bool :=
  match consumeToken l with
  | ([], _) => false
  | (_, []) => true
  | (_, 47 :: rest) => match consumeToken rest with (_ :: _, []) => true | _ => false end
  | _ => false
  end.

(** [mime.ParseMediaType]: the type, when there is no error. *)
Definition ParseMediaType (v : string) : option string :=
  let l := bytes_of_string v in
  let base := match cut_byte 59 l with Some (x, _) => x | None => l end in
  let mediatype := Strings.TrimSpace (ToLower (string_of_bytes base)) in
  if checkMediaTypeDisposition (bytes_of_string mediatype) && params_ok (length l) [] (drop (length base) l)
  then Some mediatype else None.
End types.
End Mime.

(** ** Addresses *)

Module Net.
Definition octet (l : list byte) : option Z :=
  match l with
  | [] => None
  | 48 :: _ :: _ => None
  | _ => if forallb digit l && (number l <=? 255) then Some (number l) else None
  end.
Definition parseIPv4 (l : list byte) : option (list Z) :=
  let fields := split_byte 46 l in
  if (length fields =? 4)%nat then mapM octet fields else None.

Definition hex_digit (b : byte) : option Z :=
  if digit b then Some (b - 48)
  else if Utf8.between 97 102 b then Some (b - 97 + 10)
  else if Utf8.between 65 70 b then Some (b - 65 + 10) else None.
(** Hexadecimal digits: how many, their value, the rest. *)
Fixpoint hex_span (l : list byte) (n : nat) (v : Z) : nat * Z * list byte :=
  match l with
  | b :: l' => match hex_digit b with Some d => hex_span l' (S n) (v * 16 + d) | None => (n, v, l) end
  | [] => (n, v, [])
  end.

(** The fields of an IPv6 address, two bytes each: the bytes so far, where the
    ellipsis was, the rest of the text.  An address has at most eight fields. *)
Fixpoint fields (fuel : nat) (ip : list Z) (ellipsis : option nat) (l : list byte) : option (list Z * option nat) :=
  match fuel with
  | O => match l with [] => Some (ip, ellipsis) | _ => None end
  | S fuel =>
      let '(n, v, rest) := hex_span l 0 0 in
      if (n =? 0)%nat || (4 <? n)%nat then None
      else
        match rest with
        | 46 :: _ =>
            if (bool_decide (ellipsis = None) && negb (length ip =? 12)%nat) || (12 <? length ip)%nat then None
            else four ← parseIPv4 l; Some (ip ++ four, ellipsis)
        | [] => Some (ip ++ [v / 256; v mod 256], ellipsis)
        | 58 :: [] => None
        | 58 :: 58 :: rest =>
            let ip := ip ++ [v / 256; v mod 256] in
            match ellipsis, rest with
            | Some _, _ => None
            | None, [] => Some (ip, Some (length ip))
            | None, _ => fields fuel ip (Some (length ip)) rest
            end
        | 58 :: rest => fields fuel (ip ++ [v / 256; v mod 256]) ellipsis rest
        | _ => None
        end
  end.
(** The zeros of the ellipsis. *)
Definition expand (r : list Z * option nat) : option (list Z) :=
  let (ip, ellipsis) := r in
  match ellipsis with
  | None => if (length ip =? 16)%nat then Some ip else None
  | Some i => if (length ip <? 16)%nat then Some (take i ip ++ replicate (16 - length ip) 0 ++ drop i ip) else None
  end.
Definition parseIPv6 (l : list byte) : option (list Z) :=
  r ← match l with
      | [58; 58] => Some ([], Some O)
      | 58 :: 58 :: l => fields 8 [] (Some O) l
      | _ => fields 8 [] None l
      end;
  expand r.

(** [net.ParseIP], which refuses zones. *)
Definition ParseIP (s : string) : option (list Z) :=
  let l := bytes_of_string s in
  match List.find (fun b => (b =? 46) || (b =? 58) || (b =? 37)) l with
  | Some 46 => (fun four => replicate 10 0 ++ [255; 255] ++ four) <$> parseIPv4 l
  | Some 58 => if has_byte 37 l then None else parseIPv6 l
  | _ => None
  end.
Definition IsLoopback (ip : list Z) : bool :=
  if bool_decide (take 12 ip = replicate 10 0 ++ [255; 255]) then bool_decide (head (drop 12 ip) = Some 127)
  else bool_decide (ip = replicate 15 0 ++ [1]).

(** [net.SplitHostPort]. *)
Definition SplitHostPort (s : string) : option (string * string) :=
  let l := bytes_of_string s in
  '(before, port) ← last_cut 58 l;
  match l with
  | 91 :: inner =>
      '(host, after) ← cut_byte 93 inner;
      (** the bracket is closed right before the last colon *)
      if bool_decide (before = 91 :: host ++ [93]) && negb (has_byte 91 inner) && negb (has_byte 93 after)
      then Some (string_of_bytes host, string_of_bytes port) else None
  | _ => if has_byte 58 before || has_byte 91 l || has_byte 93 l then None
         else Some (string_of_bytes before, string_of_bytes port)
  end.
End Net.

(** ** Dates and times of day *)

Module Dates.
Definition leap (y : Z) : bool := (y mod 4 =? 0) && (negb (y mod 100 =? 0) || (y mod 400 =? 0)).
Definition daysIn (m y : Z) : Z :=
  if m =? 2 then (if leap y then 29 else 28)
  else if (m =? 4) || (m =? 6) || (m =? 9) || (m =? 11) then 30 else 31.
(** [time.Parse(2006-01-02, value)] succeeds. *)
Definition is_date (value : string) : bool :=
  match bytes_of_string value with
  | [a; b; c; d; 45; e; f; 45; g; h] =>
      let year := number [a; b; c; d] in
      let month := number [e; f] in
      let day := number [g; h] in
      forallb digit [a; b; c; d; e; f; g; h] && (1 <=? month) && (month <=? 12) && (1 <=? day) && (day <=? daysIn month year)
  | _ => false
  end.
(** [time.Parse(15:04, value)] for digits around a colon. *)
Definition is_clock (value : string) : bool :=
  match bytes_of_string value with
  | [a; b; 58; c; d] => forallb digit [a; b; c; d] && (number [a; b] <? 24) && (number [c; d] <? 60)
  | _ => false
  end.
End Dates.

(** ** URLs *)

(** The parts of a [url.URL] that the code reads; [User] is whether there is
    one. *)
Record URL := {
  Scheme : string;
  Opaque : string;
  User : bool;
  Host : string;
  Hostname : string;
  RawQuery : string;
  Fragment : string;
}.

(** ** Examples *)

Example ip_v4 : Net.ParseIP "127.0.0.1" = Some (replicate 10 0 ++ [255; 255; 127; 0; 0; 1]).
Proof. vm_compute. reflexivity. Qed.
Example ip_loopback : Net.IsLoopback <$> Net.ParseIP "::1" = Some true.
Proof. vm_compute. reflexivity. Qed.
Example ip_mapped : Net.IsLoopback <$> Net.ParseIP "::ffff:127.0.0.1" = Some true.
Proof. vm_compute. reflexivity. Qed.
Example ip_bad : Net.ParseIP <$> ["127.1"; "01.2.3.4"; "1:2"; "fe80::1%eth0"; "1::2::3"; ""; "::1:"; "1:2:3:4:5:6:7:8:9"] =
  replicate 8 None.
Proof. vm_compute. reflexivity. Qed.
Example split_brackets : Net.SplitHostPort "[::1]:8080" = Some ("::1", "8080").
Proof. vm_compute. reflexivity. Qed.
Example split_colons : Net.SplitHostPort "::1:8080" = None.
Proof. vm_compute. reflexivity. Qed.
Example media_type : Mime.ParseMediaType Strings.ToLowerASCII "Application/JSON; charset=utf-8" = Some "application/json".
Proof. vm_compute. reflexivity. Qed.
Example media_type_bad : Mime.ParseMediaType Strings.ToLowerASCII "application/json; charset=a; charset=b" = None.
Proof. vm_compute. reflexivity. Qed.
Example dates : Dates.is_date <$> ["2023-06-01"; "2024-02-29"; "2023-02-29"; "2023-6-1"; "2023-13-01"] = [true; true; false; false; false].
Proof. vm_compute. reflexivity. Qed.
