(* ===== verification/Json.v ===== *)
(** * JSON texts

    What the code uses of [encoding/json]: the grammar with its nesting limit,
    the unquoting of strings, decoding into integers, strings, pointers,
    slices, maps and structs, [json.RawMessage], and encoding; with
    [StrictJSON] and [LenientJSON] of internal/adapter/protocol.go and
    [object] of tools.go.

    A [json.RawMessage] holds a text that was validated when it was cut out of
    its document, so it is kept together with what it parses to: a tree whose
    nodes carry their source text ([source]).  Decoding a raw message again
    decodes its tree. *)

From S2P Require Import Prelude GoStrings GoFloat.
From Stdlib Require Import SpecFloat.

Inductive json :=
| JNull
| JBool (b : bool)
| JNum (lexeme : string)
| JStr (text : string) (value : string)
| JArr (text : string) (items : list json)
| JObj (text : string) (members : list (string * json)).

(** The bytes of the value in its document. *)
Definition source (j : json) : string :=
  match j with
  | JNull => "null"
  | JBool true => "true"
  | JBool false => "false"
  | JNum s => s
  | JStr s _ | JArr s _ | JObj s _ => s
  end.

(** A [json.RawMessage]: [None] is the empty (or nil) one. *)
Abbreviation RawMessage := (option json) (only parsing).

Definition is_null (j : json) : bool := match j with JNull => true | _ => false end.

(** [len(raw) == 0 || string(raw) == "null"]. *)
Definition raw_blank (raw : RawMessage) : bool := match raw with None => true | Some j => is_null j end.

(** ** Bytes *)

Definition quote_byte : byte := 34.
Definition dq : string := String (ascii_of_byte 34) "".

Definition is_space (b : byte) : bool := (b =? 32) || (b =? 9) || (b =? 10) || (b =? 13).

Fixpoint skip_space (l : list byte) : list byte :=
  match l with b :: l' => if is_space b then skip_space l' else l | [] => [] end.

(** What [l] has before its suffix [rest]. *)
Definition before (l rest : list byte) : string := string_of_bytes (take (length l - length rest) l).

(** ** Strings *)

Definition hex_value (b : byte) : option Z :=
  if Utf8.between 48 57 b then Some (b - 48)
  else if Utf8.between 97 102 b then Some (b - 97 + 10)
  else if Utf8.between 65 70 b then Some (b - 65 + 10)
  else None.

(** [getu4] without its prefix: four hexadecimal digits. *)
Definition hex4 (l : list byte) : option (Z * list byte) :=
  match l with
  | a :: b :: c :: d :: l =>
      a ← hex_value a; b ← hex_value b; c ← hex_value c; d ← hex_value d;
      Some (((a * 16 + b) * 16 + c) * 16 + d, l)
  | _ => None
  end.

Definition escaped_byte (b : byte) : option byte :=
  if b =? 34 then Some 34 else if b =? 92 then Some 92 else if b =? 47 then Some 47
  else if b =? 98 then Some 8 else if b =? 102 then Some 12 else if b =? 110 then Some 10
  else if b =? 114 then Some 13 else if b =? 116 then Some 9 else None.

Definition is_surrogate (r : Z) : bool := Utf8.between 55296 57343 r.
(** [utf16.DecodeRune]. *)
Definition decode_surrogates (r1 r2 : Z) : option Z :=
  if Utf8.between 55296 56319 r1 && Utf8.between 56320 57343 r2
  then Some ((r1 - 55296) * 1024 + (r2 - 56320) + 65536) else None.

(** The rune of the escape [\u] whose digits have been read, and what is left;
    a surrogate without its other half is U+FFFD. *)
Definition unicode_escape (r : Z) (l : list byte) : Z * list byte :=
  if is_surrogate r then
    match l with
    | 92 :: 117 :: l' =>
        match hex4 l' with
        | Some (r2, l'') => match decode_surrogates r r2 with Some r => (r, l'') | None => (Utf8.RuneError, l) end
        | None => (Utf8.RuneError, l)
        end
    | _ => (Utf8.RuneError, l)
    end
  else (r, l).

(** The rest of a string literal after its opening quote: its value, reversed,
    and what follows the closing quote.  Bytes that are not UTF-8 become
    U+FFFD; control bytes and unknown escapes are errors. *)
Fixpoint string_body (fuel : nat) (l : list byte) (acc : list byte) : option (list byte * list byte) :=
  match fuel with
  | O => None
  | S fuel =>
      match l with
      | [] => None
      | 34 :: l => Some (acc, l)
      | 92 :: 117 :: l =>
          '(r, l) ← hex4 l;
          let (r, l) := unicode_escape r l in
          string_body fuel l (rev_append (Utf8.EncodeRune r) acc)
      | 92 :: b :: l => c ← escaped_byte b; string_body fuel l (c :: acc)
      | b :: l' =>
          if b <? 32 then None
          else if b =? 92 then None
          else if b <? 128 then string_body fuel l' (b :: acc)
          else let (r, n) := Utf8.DecodeRune l in
               string_body fuel (drop n l) (rev_append (Utf8.EncodeRune r) acc)
      end
  end.

Definition parse_string (l : list byte) : option (string * list byte) :=
  '(acc, rest) ← string_body (length l) l [];
  Some (string_of_bytes (rev acc), rest).

(** ** Numbers *)

Definition digits1 (l : list byte) : option (list byte) :=
  match FloatText.span_digits l with ([], _) => None | (_, r) => Some r end.

(** The grammar of a number, as what is left after it. *)
Definition number_rest (l : list byte) : option (list byte) :=
  let l := match l with 45 :: l' => l' | _ => l end in
  l ← match l with
      | 48 :: l' => Some l'
      | b :: _ => if Utf8.between 49 57 b then digits1 l else None
      | [] => None
      end;
  l ← match l with 46 :: l' => digits1 l' | _ => Some l end;
  match l with
  | b :: l' =>
      if (b =? 101) || (b =? 69) then
        match l' with
        | c :: l'' => if (c =? 43) || (c =? 45) then digits1 l'' else digits1 l'
        | [] => None
        end
      else Some l
  | [] => Some l
  end.

(** ** Values *)

(** [maxNestingDepth] of [encoding/json]. *)
Definition maxNestingDepth : Z := 10000.

Fixpoint starts_with (word : list byte) (l : list byte) : option (list byte) :=
  match word, l with
  | [], _ => Some l
  | w :: word, b :: l => if w =? b then starts_with word l else None
  | _, [] => None
  end.

(** One value at the head of [l], after [depth] open brackets.  [parse_items]
    reads the items of an array and [parse_members] the members of an object,
    each after an opening bracket or a comma. *)
Fixpoint parse_value (fuel : nat) (depth : Z) (l : list byte) : option (json * list byte) :=
  match fuel with
  | O => None
  | S fuel =>
      match l with
      | 34 :: l' => '(v, rest) ← parse_string l'; Some (JStr (before l rest) v, rest)
      | 91 :: l' =>
          if maxNestingDepth <=? depth then None
          else
            '(items, rest) ← match skip_space l' with
                             | 93 :: rest => Some ([], rest)
                             | l' => parse_items fuel (depth + 1) l'
                             end;
            Some (JArr (before l rest) items, rest)
      | 123 :: l' =>
          if maxNestingDepth <=? depth then None
          else
            '(members, rest) ← match skip_space l' with
                               | 125 :: rest => Some ([], rest)
                               | l' => parse_members fuel (depth + 1) l'
                               end;
            Some (JObj (before l rest) members, rest)
      | 110 :: _ => rest ← starts_with (bytes_of_string "null") l; Some (JNull, rest)
      | 116 :: _ => rest ← starts_with (bytes_of_string "true") l; Some (JBool true, rest)
      | 102 :: _ => rest ← starts_with (bytes_of_string "false") l; Some (JBool false, rest)
      | _ => rest ← number_rest l; Some (JNum (before l rest), rest)
      end
  end
with parse_items (fuel : nat) (depth : Z) (l : list byte) : option (list json * list byte) :=
  match fuel with
  | O => None
  | S fuel =>
      '(j, rest) ← parse_value fuel depth (skip_space l);
      match skip_space rest with
      | 44 :: rest => '(items, rest) ← parse_items fuel depth rest; Some (j :: items, rest)
      | 93 :: rest => Some ([j], rest)
      | _ => None
      end
  end
with parse_members (fuel : nat) (depth : Z) (l : list byte) : option (list (string * json) * list byte) :=
  match fuel with
  | O => None
  | S fuel =>
      match skip_space l with
      | 34 :: l =>
          '(key, rest) ← parse_string l;
          match skip_space rest with
          | 58 :: rest =>
              '(j, rest) ← parse_value fuel depth (skip_space rest);
              match skip_space rest with
              | 44 :: rest => '(members, rest) ← parse_members fuel depth rest; Some ((key, j) :: members, rest)
              | 125 :: rest => Some ([(key, j)], rest)
              | _ => None
              end
          | _ => None
          end
      | _ => None
      end
  end.

(** A whole text: one value with space around it.  Every call reads at least
    one byte or is followed by one that does, so twice the length is enough
    fuel. *)
Definition parse_bytes (l : list byte) : option json :=
  match parse_value (2 * length l + 1) 0 (skip_space l) with
  | Some (j, rest) => match skip_space rest with [] => Some j | _ => None end
  | None => None
  end.
Definition parse (data : string) : option json := parse_bytes (bytes_of_string data).

(** ** Decoding

    A decoder reads a value into an existing one, as [json.Unmarshal] does:
    [null] leaves strings, numbers and structs as they are and clears
    pointers, slices and maps; a member whose key matches no field is ignored,
    and of members with the same key the later ones are read over the earlier
    ones.  [None] is an error; the code never uses what was decoded before
    one.  (An array under a repeated key is decoded afresh.) *)

Definition decoder (A : Type) : Type := json -> A -> option A.

Definition dec_string : decoder string := fun j cur =>
  match j with JStr _ v => Some v | JNull => Some cur | _ => None end.
Definition dec_bool : decoder bool := fun j cur =>
  match j with JBool b => Some b | JNull => Some cur | _ => None end.
Definition dec_int64 : decoder Z := fun j cur =>
  match j with JNum s => Decimal.ParseInt s | JNull => Some cur | _ => None end.
Definition dec_float64 : decoder spec_float := fun j cur =>
  match j with JNum s => FloatText.ParseFloat s | JNull => Some cur | _ => None end.
(** [json.RawMessage] has its own [UnmarshalJSON], which also takes [null]. *)
Definition dec_raw : decoder RawMessage := fun j _ => Some (Some j).
Definition dec_ptr {A} (zero : A) (d : decoder A) : decoder (option A) := fun j cur =>
  match j with JNull => Some None | _ => Some <$> d j (default zero cur) end.
Definition dec_slice {A} (zero : A) (d : decoder A) : decoder (list A) := fun j _ =>
  match j with
  | JNull => Some []
  | JArr _ items => mapM (fun j => d j zero) items
  | _ => None
  end.

(** The last member of exactly this name. *)
Definition last_member (name : string) (members : list (string * json)) : option json :=
  snd <$> last (List.filter (fun kv => String.eqb kv.1 name) members).

(** [map[string]json.RawMessage]; [None] is the nil map. *)
Definition members_map (members : list (string * json)) : gmap string json :=
  foldl (fun m kv => <[kv.1 := kv.2]> m) ∅ members.
Definition dec_map : decoder (option (gmap string json)) := fun j cur =>
  match j with
  | JNull => Some None
  | JObj _ members => Some (Some (foldl (fun m kv => <[kv.1 := kv.2]> m) (default ∅ cur) members))
  | _ => None
  end.

(** The folding of names in [encoding/json]: upper case, and the two other
    runes that fold to an ASCII letter. *)
Fixpoint fold_bytes (l : list byte) : list byte :=
  match l with
  | 197 :: 191 :: l => 83 :: fold_bytes l
  | 226 :: 132 :: 170 :: l => 75 :: fold_bytes l
  | b :: l => (if Utf8.between 97 122 b then b - 32 else b) :: fold_bytes l
  | [] => []
  end.
Definition same_name (name key : string) : bool :=
  bool_decide (fold_bytes (bytes_of_string name) = fold_bytes (bytes_of_string key)).

(** A field of a struct: its name on the wire, and how a member is read into
    the struct. *)
Definition field (R : Type) : Type := string * decoder R.
Definition field_of {R A} (name : string) (d : decoder A) (get : R -> A) (set : A -> R -> R) : field R :=
  (name, fun j r => (fun a => set a r) <$> d j (get r)).

Definition read_member {R} (strict : bool) (fields : list (field R)) (r : R) (kv : string * json) : option R :=
  match List.find (fun f => same_name f.1 kv.1) fields with
  | Some f => f.2 kv.2 r
  | None => if strict then None else Some r
  end.
(** A struct; with [strict], [DisallowUnknownFields]. *)
Definition dec_struct_mode {R} (strict : bool) (fields : list (field R)) : decoder R := fun j cur =>
  match j with
  | JNull => Some cur
  | JObj _ members => foldl (fun acc kv => r ← acc; read_member strict fields r kv) (Some cur) members
  | _ => None
  end.
Definition dec_struct {R} : list (field R) -> decoder R := dec_struct_mode false.

(** [json.Unmarshal(data, &x)] for a fresh [x], of a text and of a raw
    message. *)
Definition Unmarshal {A} (d : decoder A) (zero : A) (data : string) : option A := j ← parse data; d j zero.
Definition unmarshal_raw {A} (d : decoder A) (zero : A) (raw : RawMessage) : option A := j ← raw; d j zero.

(** [var s string; json.Unmarshal(raw, &s)]. *)
Definition raw_string (raw : RawMessage) : option string := unmarshal_raw dec_string "" raw.

(** [object] of tools.go. *)
Definition object (raw : RawMessage) : bool :=
  match raw with Some (JObj _ _) => true | _ => false end.

(** ** [StrictJSON] and [LenientJSON]

    The walk over the tokens refuses keys that are equal up to case, and
    numbers that are no doubles, which it reads as [float64]; [ToLower] is
    [strings.ToLower]. *)

Section strict.
Context (ToLower : string -> string).

Fixpoint walk (j : json) : bool :=
  match j with
  | JNum s => match FloatText.ParseFloat s with Some _ => true | None => false end
  | JArr _ items => forallb walk items
  | JObj _ members =>
      bool_decide (NoDup ((fun kv => ToLower kv.1) <$> members)) && forallb (fun kv => walk kv.2) members
  | _ => true
  end.

(** [decodeJSON] up to the final decoding: the checked document. *)
Definition decodeJSON (j : json) : option json :=
  if walk j && negb (is_null j) then Some j else None.
Definition LenientJSON {A} (d : decoder A) (zero : A) (raw : RawMessage) : option A :=
  j ← raw; j ← decodeJSON j; d j zero.
Definition LenientText {A} (d : decoder A) (zero : A) (data : string) : option A :=
  LenientJSON d zero (parse data).
(** [StrictJSON] into a map, which has no unknown fields. *)
Definition StrictMap (data : string) : option (gmap string json) :=
  m ← LenientText dec_map None data; m.
End strict.

(** ** Encoding *)

(** What the code gives to [json.Marshal]: a [VMap] is a Go map, encoded in
    the order of its keys; a [VStruct] the fields of a struct in order, after
    [omitempty]. *)
Inductive value :=
| VNull
| VBool (b : bool)
| VInt (n : Z)
| VFloat (x : spec_float)
| VStr (s : string)
| VArr (items : list value)
| VMap (members : list (string * value))
| VStruct (fields : list (string * value))
| VRaw (raw : json).

Definition hex_digit (n : Z) : byte := if n <? 10 then 48 + n else 97 + (n - 10).
Definition unicode_u (r : Z) : list byte :=
  [92; 117; hex_digit (r / 4096); hex_digit (r / 256 mod 16); hex_digit (r / 16 mod 16); hex_digit (r mod 16)].

(** The encoding of one rune of a string, with HTML escaping; [bytes] is what
    it was decoded from. *)
Definition escape_rune (r : Z) (bytes : list byte) : list byte :=
  if (r =? 34) || (r =? 92) then [92; r]
  else if r =? 8 then [92; 98] else if r =? 12 then [92; 102] else if r =? 10 then [92; 110]
  else if r =? 13 then [92; 114] else if r =? 9 then [92; 116]
  else if (r <? 32) || (r =? 60) || (r =? 62) || (r =? 38) || (r =? 8232) || (r =? 8233) then unicode_u r
  else if (r =? Utf8.RuneError) && (length bytes =? 1)%nat then unicode_u Utf8.RuneError
  else bytes.

Definition encode_string (s : string) : list byte :=
  34 :: concat ((fun rb => escape_rune rb.1 rb.2) <$> Utf8.runes (bytes_of_string s)) ++ [34].

(** [appendCompact] of a raw message with HTML escaping: [inside] a string,
    and after a backslash there. *)
Fixpoint compact (inside escaped : bool) (l : list byte) : list byte :=
  match l with
  | [] => []
  | 226 :: 128 :: 168 :: l => unicode_u 8232 ++ compact inside false l
  | 226 :: 128 :: 169 :: l => unicode_u 8233 ++ compact inside false l
  | b :: l =>
      if inside then
        (if (b =? 60) || (b =? 62) || (b =? 38) then unicode_u b else [b]) ++
        compact (escaped || negb (b =? 34)) (negb escaped && (b =? 92)) l
      else if is_space b then compact false false l
      else b :: compact (b =? 34) false l
  end.

Definition join_bytes (sep : byte) (l : list (list byte)) : list byte :=
  match l with [] => [] | x :: l => x ++ concat ((fun y => sep :: y) <$> l) end.

(** The keys of a map in increasing order, with their encoded values. *)
Definition key_le (x y : string * list byte) : Prop := Sort.le x.1 y.1.
#[export] Instance key_le_dec : RelDecision key_le.
Proof. intros x y. apply Sort.le_dec. Defined.

Definition encode_members (l : list (string * list byte)) : list byte :=
  123 :: join_bytes 44 ((fun kv => encode_string kv.1 ++ 58 :: kv.2) <$> l) ++ [125].

Fixpoint encode (v : value) : list byte :=
  match v with
  | VNull => bytes_of_string "null"
  | VBool true => bytes_of_string "true"
  | VBool false => bytes_of_string "false"
  | VInt n => bytes_of_string (Decimal.of_Z n)
  | VFloat x => bytes_of_string (FloatText.format x)
  | VStr s => encode_string s
  | VArr items => 91 :: join_bytes 44 (encode <$> items) ++ [93]
  | VMap members => encode_members (merge_sort key_le ((fun kv => (kv.1, encode kv.2)) <$> members))
  | VStruct fields => encode_members ((fun kv => (kv.1, encode kv.2)) <$> fields)
  | VRaw raw => compact false false (bytes_of_string (source raw))
  end.

(** [json.Marshal], which cannot fail on these values: numbers are finite and
    raw messages valid. *)
Definition Marshal (v : value) : string := string_of_bytes (encode v).

(** A [map[string]json.RawMessage]. *)
Definition map_value (m : gmap string json) : value := VMap ((fun kv => (kv.1, VRaw kv.2)) <$> map_to_list m).

(** [var x any; json.Unmarshal(..., &x)]: numbers become doubles, and the
    members of an object a map. *)
Definition put {A} (l : list (string * A)) (kv : string * A) : list (string * A) :=
  filter (fun x => x.1 <> kv.1) l ++ [kv].
Fixpoint any (j : json) : option value :=
  match j with
  | JNull => Some VNull
  | JBool b => Some (VBool b)
  | JNum s => VFloat <$> FloatText.ParseFloat s
  | JStr _ v => Some (VStr v)
  | JArr _ items => VArr <$> mapM any items
  | JObj _ members =>
      l ← mapM (fun kv => (fun v => (kv.1, v)) <$> any kv.2) members;
      Some (VMap (foldl put [] l))
  end.
(** [var m map[string]any]: the members; an object or nothing. *)
Definition any_object (j : json) : option value := match j with JObj _ _ => any j | _ => None end.
