(* ===== verification/Diagnostics.v ===== *)
(** * Failure metadata: [internal/diagnostics]

    The bounded, redacted record that an upstream failure leaves in client
    errors, logs and audit rows ([failure.go], [message.go]) and the routing
    decision record ([routing.go]). *)

From S2P Require Import Prelude GoStrings.

(** ** Patterns *)

Module Patterns.
Import Regexp.

Definition word_class : list (Z * Z) := alnum ++ one_of "._:-".
Definition codePattern : re := seq [RBegin; repeat 1 128 (set word_class); REnd].
Definition numericCodePattern : re := seq [RBegin; repeat 1 8 (set digits); REnd].
Definition requestIDPattern : re :=
  seq [RBegin; set alnum; repeat 7 127 (set word_class); REnd].
Definition hex_lower : list (Z * Z) := [(97, 102)] ++ digits.
Definition keyLabelPattern : re :=
  seq [RBegin; exact "key-";
       alt [times 32 (set hex_lower); seq [exact "local-"; plus (set hex_lower)]]; REnd].

Definition space : re := set space_class.
Definition spaces : re := RStar space.
Definition jwt : re := plus (set (alnum ++ one_of "_-")).
Definition sep : re := opt (set (one_of "-_ ")).

Definition bearer : re :=
  seq [RWord; folded "bearer"; plus space; plus (set_not (space_class ++ one_of ",;'" ++ [(34, 34)]))].
Definition secret_key : re :=
  seq [RWord; folded "sk-"; at_least 6 (set (alnum ++ one_of "_-" ++ folded_letters))].
Definition long_hex : re :=
  seq [RWord; at_least 32 (set ([(65, 70); (97, 102)] ++ digits)); RWord].
Definition jwt_token : re := seq [RWord; exact "eyJ"; jwt; exact "."; jwt; exact "."; jwt].
Definition named_secret : re :=
  seq [RWord;
       alt [seq [folded "api"; sep; folded "key"]; seq [folded "access"; sep; folded "token"];
            folded "authorization";
            seq [folded "account"; sep; alt [folded "id"; folded "email"]]];
       spaces; set (one_of ":="); spaces; plus (set_not (space_class ++ one_of ",;"))].
Definition email : re :=
  seq [RWord; plus (set (alnum ++ one_of "._%+-")); exact "@"; plus (set (alnum ++ one_of ".-"));
       exact "."; at_least 2 (set (upper ++ lower)); RWord].
Definition credentialPatterns : list re :=
  [bearer; secret_key; long_hex; jwt_token; named_secret; email].

Definition ansiPattern : re :=
  seq [rune 27; exact "["; RStar (set [(48, 63)]); RStar (set [(32, 47)]); set [(64, 126)]].
Definition tokenComparison : re :=
  seq [RWord; RGroup 1 (plus (set digits)); spaces; folded "token"; opt (fold_rune 115); spaces;
       exact ">"; spaces; RGroup 2 (plus (set digits)); RWord].
Definition ambiguousNumber : re :=
  alt [seq [set digits; set (one_of ".,"); set digits]; seq [set (one_of "-+"); set digits]].
Definition contextComparison : re :=
  seq [RWord; folded "maximum context length is "; RGroup 1 (plus (set digits)); folded " tokens"; RWord;
       RStar (set_not ([(10, 10)] ++ one_of ".")); RWord; folded "requested "; RGroup 2 (plus (set digits));
       folded " tokens"; RWord].
End Patterns.

(** ** Messages *)

Definition credentialShaped (value : string) : bool :=
  existsb (fun p => Regexp.MatchString p value) Patterns.credentialPatterns.

Definition redactMessageShapes (message : string) : string :=
  foldl (fun m p => Regexp.ReplaceAllString p m "[redacted]") message Patterns.credentialPatterns.

Definition blank_control (r : Z) : Z :=
  if Unicode.IsControl r || Unicode.Cf r then 32 else r.

(** U+2026, the ellipsis that ends a truncated message. *)
Definition ellipsis : Z := 8230.

Definition cleanMessage (message : string) : string :=
  let message := redactMessageShapes message in
  let message := Regexp.ReplaceAllString Patterns.ansiPattern message "" in
  let message := Strings.Map blank_control message in
  let message := Strings.Join (Strings.Fields message) " " in
  let runes := Strings.runes message in
  if (512 <? length runes)%nat
  then Strings.of_runes (take 511 runes) +:+ Strings.of_runes [ellipsis]
  else message.

Definition group (n : nat) (m : list (nat * string)) : string :=
  match filter (fun g => g.1 = n) m with
  | g :: _ => g.2
  | [] => ""
  end.

(** One comparison of [TokenFacts]: [None] makes the facts unknown. *)
Definition add_fact (facts : Z * Z) (a l : string) : option (Z * Z) :=
  match Strconv.ParseDigits a, Strconv.ParseDigits l with
  | Some av, Some lv =>
      if (lv <=? 0) || (av <=? lv) ||
         (negb (facts.1 =? 0) && (negb (facts.1 =? av) || negb (facts.2 =? lv)))
      then None else Some (av, lv)
  | _, _ => None
  end.

Definition add_facts (actual_group limit_group : nat) (facts : option (Z * Z))
    (ms : list (list (nat * string))) : option (Z * Z) :=
  foldl (fun facts m =>
    match facts with
    | Some f => add_fact f (group actual_group m) (group limit_group m)
    | None => None
    end) facts ms.

Definition TokenFacts (message : string) : Z * Z :=
  if Regexp.MatchString Patterns.ambiguousNumber message then (0, 0)
  else
    let facts := add_facts 1 2 (Some (0, 0)) (Regexp.FindAllStringSubmatch Patterns.tokenComparison message) in
    let facts := add_facts 2 1 facts (Regexp.FindAllStringSubmatch Patterns.contextComparison message) in
    default (0, 0) facts.

(** ** Failures *)

Record RetryHeaders := {
  ShouldRetry : string;
  RetryAfterSeconds : option Z;
  RetryAfterMS : option Z;
}.

Record Failure := {
  Source : string;
  Phase : string;
  HTTPStatus : Z;
  ErrorStatus : Z;
  ProviderCode : string;
  CodeState : string;
  ConfiguredCode : bool;
  ProviderRequestID : string;
  ProviderType : string;
  ProviderMessage : string;
  ActualTokens : Z;
  LimitTokens : Z;
  KeyLabelField : string;
  BackendID : string;
  Category : string;
  Retryability : string;
  CooldownScope : string;
  CooldownSeconds : Z;
  CooldownUntilMS : Z;
  ProviderRateLimitStreak : Z;
  ResponseRetryHeaders : option RetryHeaders;
}.

#[export] Instance RetryHeaders_eta : Eta RetryHeaders := fun h =>
  {| ShouldRetry := ShouldRetry h; RetryAfterSeconds := RetryAfterSeconds h; RetryAfterMS := RetryAfterMS h |}.
#[export] Instance Failure_eta : Eta Failure := fun f =>
  {| Source := Source f; Phase := Phase f; HTTPStatus := HTTPStatus f; ErrorStatus := ErrorStatus f;
     ProviderCode := ProviderCode f; CodeState := CodeState f; ConfiguredCode := ConfiguredCode f;
     ProviderRequestID := ProviderRequestID f; ProviderType := ProviderType f;
     ProviderMessage := ProviderMessage f; ActualTokens := ActualTokens f; LimitTokens := LimitTokens f;
     KeyLabelField := KeyLabelField f; BackendID := BackendID f; Category := Category f;
     Retryability := Retryability f; CooldownScope := CooldownScope f; CooldownSeconds := CooldownSeconds f;
     CooldownUntilMS := CooldownUntilMS f; ProviderRateLimitStreak := ProviderRateLimitStreak f;
     ResponseRetryHeaders := ResponseRetryHeaders f |}.

(** [&diagnostics.Failure{}]. *)
Definition empty_Failure : Failure :=
  {| Source := ""; Phase := ""; HTTPStatus := 0; ErrorStatus := 0; ProviderCode := ""; CodeState := "";
     ConfiguredCode := false; ProviderRequestID := ""; ProviderType := ""; ProviderMessage := "";
     ActualTokens := 0; LimitTokens := 0; KeyLabelField := ""; BackendID := ""; Category := "";
     Retryability := ""; CooldownScope := ""; CooldownSeconds := 0; CooldownUntilMS := 0;
     ProviderRateLimitStreak := 0; ResponseRetryHeaders := None |}.

Definition member (value : string) (l : list string) : bool := existsb (String.eqb value) l.
Definition enum (value : string) (allowed : list string) : string :=
  if member value allowed then value else "unknown".

Definition standard_codes : list string :=
  ["api_error"; "internal_error"; "server_error"; "overloaded_error"; "rate_limit_error";
   "invalid_request_error"; "authentication_error"; "permission_error"; "not_found_error";
   "billing_error"; "timeout_error"; "insufficient_quota"; "context_length_exceeded";
   "rate_limit_exceeded"; "invalid_api_key"; "model_not_found"; "request_too_large"].
Definition StandardErrorCode (value : string) : bool := member value standard_codes.

Definition KeyLabel (value : string) : string :=
  if Regexp.MatchString Patterns.keyLabelPattern value then value else "".

Definition RetryHeaders_Normalize (h : RetryHeaders) : RetryHeaders :=
  let should := if String.eqb (ShouldRetry h) "true" || String.eqb (ShouldRetry h) "false"
                then ShouldRetry h else "" in
  let seconds := match RetryAfterSeconds h with
                 | Some s => if (0 <? s) && (s <=? 30) then Some s else None
                 | None => None
                 end in
  let ms := match RetryAfterMS h, seconds with
            | Some m, Some s => if m =? s * 1000 then Some m else None
            | _, _ => None
            end in
  if String.eqb should "false"
  then {| ShouldRetry := should; RetryAfterSeconds := None; RetryAfterMS := None |}
  else {| ShouldRetry := should; RetryAfterSeconds := seconds; RetryAfterMS := ms |}.

Definition sources : list string :=
  ["http_error"; "stream_error"; "transport"; "stream"; "response"; "conversion"; "downstream"; "canceled"].
Definition phases : list string :=
  ["request"; "dns"; "connect"; "tls"; "response_headers"; "response_body"; "stream"; "conversion"].
Definition code_states : list string := ["missing"; "retained"; "redacted"; "invalid"].
Definition categories : list string :=
  ["insufficient_balance"; "quota_exhausted"; "provider_access_denied"; "fair_use_throttled";
   "rate_limited"; "authentication"; "permission_denied"; "policy_denied"; "invalid_request";
   "model_not_found"; "temporarily_unavailable"; "transport_error"; "invalid_response";
   "downstream_error"; "timeout"; "canceled"; "upstream_error"].
Definition retryabilities : list string := ["retryable"; "terminal"].
Definition cooldown_scopes : list string := ["key"; "provider"].

(** The latest instant of RFC 3339, in Unix milliseconds. *)
Definition max_time_ms : Z := 253402300799999.

Definition outside (lo hi z : Z) : bool := (z <? lo) || (hi <? z).
Definition zero_outside (lo hi z : Z) : Z := if outside lo hi z then 0 else z.

Definition redact_code (n : Failure) : Failure :=
  n <| ProviderCode := "" |> <| CodeState := "redacted" |> <| ConfiguredCode := false |>.

(** May this provider code be kept? *)
Definition retained_code (n : Failure) : bool :=
  Regexp.MatchString Patterns.codePattern (ProviderCode n) &&
  (ConfiguredCode n || Regexp.MatchString Patterns.numericCodePattern (ProviderCode n) ||
   StandardErrorCode (ProviderCode n)).

Definition normalize_code (n : Failure) : Failure :=
  let n :=
    if negb (String.eqb (ProviderCode n) "") then
      if retained_code n then n <| CodeState := "retained" |> else redact_code n
    else if String.eqb (CodeState n) "retained" || String.eqb (CodeState n) "unknown"
    then n <| CodeState := "missing" |> <| ConfiguredCode := false |>
    else n in
  if String.eqb (ProviderCode n) "" then n <| ConfiguredCode := false |> else n.

Definition normalize_request_id (id : string) : string :=
  if Regexp.MatchString Patterns.requestIDPattern id then id else "".
(** The second look at a request ID.  It matches [requestIDPattern] or is
    empty there, so lower-casing it concerns ASCII letters only. *)
Definition secret_request_id (id : string) : bool :=
  Strings.HasPrefix (Strings.ToLowerASCII id) "sk-" || Regexp.MatchString Patterns.jwt_token id.

Definition Normalize (f : Failure) : Failure :=
  let n := f <| Source := enum (Source f) sources |> <| Phase := enum (Phase f) phases |>
             <| HTTPStatus := zero_outside 100 599 (HTTPStatus f) |>
             <| ErrorStatus := zero_outside 400 599 (ErrorStatus f) |>
             <| CodeState := enum (CodeState f) code_states |> in
  let n := normalize_code n in
  let n := n <| ProviderRequestID := normalize_request_id (ProviderRequestID n) |> in
  let n := if StandardErrorCode (ProviderType n) then n else n <| ProviderType := "" |> in
  let n := if credentialShaped (ProviderCode n) then redact_code n else n in
  let n := if secret_request_id (ProviderRequestID n) then n <| ProviderRequestID := "" |> else n in
  let n := n <| ProviderMessage := cleanMessage (ProviderMessage n) |> in
  let n := if (ActualTokens n <=? LimitTokens n) || (LimitTokens n <=? 0)
           then n <| ActualTokens := 0 |> <| LimitTokens := 0 |> else n in
  let n := n <| KeyLabelField := KeyLabel (KeyLabelField n) |> <| BackendID := KeyLabel (BackendID n) |>
             <| Category := enum (Category n) categories |>
             <| Retryability := enum (Retryability n) retryabilities |> in
  let n := if String.eqb (CooldownScope n) "" then n
           else n <| CooldownScope := enum (CooldownScope n) cooldown_scopes |> in
  n <| CooldownSeconds := zero_outside 0 86400 (CooldownSeconds n) |>
    <| CooldownUntilMS := zero_outside 0 max_time_ms (CooldownUntilMS n) |>
    <| ResponseRetryHeaders := option_map RetryHeaders_Normalize (ResponseRetryHeaders n) |>.

(** The body of the loop of [Redact]. *)
Definition redact_value (n : Failure) (value : string) : Failure :=
  if String.eqb value "" then n
  else
    let n := if Strings.Contains (ProviderCode n) value then redact_code n else n in
    let n := if Strings.Contains (ProviderRequestID n) value then n <| ProviderRequestID := "" |> else n in
    let n := if Strings.Contains (ProviderType n) value then n <| ProviderType := "" |> else n in
    n <| ProviderMessage := Strings.ReplaceAll (ProviderMessage n) value "[redacted]" |>.

Definition Redact (f : Failure) (values : list string) : Failure :=
  let n := foldl redact_value f values in
  let n := n <| ProviderMessage := redactMessageShapes (ProviderMessage n) |> in
  let '(actual, limit) := TokenFacts (ProviderMessage n) in
  Normalize (n <| ActualTokens := actual |> <| LimitTokens := limit |>).

(** ** Routing decisions *)

Record RoutingDecision := {
  FromProvider : string;
  ToProvider : string;
  Model : string;
  ToModel : string;
  Action : string;
  Reason : string;
  ThresholdMS : Z;
  RemainingMS : option Z;
  DecisionCooldownUntilMS : Z;
  WaitUnknown : bool;
}.

#[export] Instance RoutingDecision_eta : Eta RoutingDecision := fun d =>
  {| FromProvider := FromProvider d; ToProvider := ToProvider d; Model := Model d; ToModel := ToModel d;
     Action := Action d; Reason := Reason d; ThresholdMS := ThresholdMS d; RemainingMS := RemainingMS d;
     DecisionCooldownUntilMS := DecisionCooldownUntilMS d; WaitUnknown := WaitUnknown d |}.

Definition model_rune (r : Z) : bool :=
  Regexp.in_ranges Regexp.alnum r || (r =? 46) || (r =? 95) || (r =? 58) || (r =? 47) || (r =? 45).

Definition decision_reasons : list string :=
  ["within_threshold"; "exceeds_threshold"; "unknown_wait"; "no_eligible_alternative"; "affinity_disabled"].

Definition RoutingDecision_Normalize (d : RoutingDecision) : option RoutingDecision :=
  if negb (Regexp.MatchString Patterns.codePattern (FromProvider d)) ||
     negb (Regexp.MatchString Patterns.codePattern (ToProvider d)) ||
     (255 <? Strings.len (Model d)) || String.eqb (Model d) "" ||
     outside 0 86400000 (ThresholdMS d) then None
  else if 255 <? Strings.len (ToModel d) then None
  else if negb (forallb model_rune (Strings.runes (Model d +:+ ToModel d))) then None
  else if negb (String.eqb (Action d) "retain") && negb (String.eqb (Action d) "switch") then None
  else
    let n := d <| Reason := enum (Reason d) decision_reasons |> in
    if String.eqb (Reason n) "unknown" then None
    else if (match RemainingMS n with Some v => outside 0 max_time_ms v | None => false end) then None
    else if outside 0 max_time_ms (DecisionCooldownUntilMS n) then None
    else Some n.

Example clean_example :
  cleanMessage ("bad  key SK-abcdef123 at" +:+ Strings.of_runes [10; 8203] +:+ "line") = "bad key [redacted] at line".
Proof. vm_compute. reflexivity. Qed.

Example token_facts_example : TokenFacts "prompt: 9000 tokens > 8192 maximum" = (9000, 8192).
Proof. vm_compute. reflexivity. Qed.

Example token_facts_context :
  TokenFacts "This model's maximum context length is 8192 tokens, you requested 9000 tokens" = (9000, 8192).
Proof. vm_compute. reflexivity. Qed.
