(* ===== verification/Errors.v ===== *)
(** * Upstream errors: [internal/adapter]

    [error_mapping.go] (the closed set of categories and the operator's
    mappings), the [CallError] of [client.go], and the classification helpers
    of [errors.go] and [failure_details.go] that do not decode a body. *)

From S2P Require Import Prelude GoStrings GoFloat Diagnostics.

(** ** Categories *)

(** [ProviderErrorCategory] is a Go string; the empty string is no category. *)
Abbreviation category := string (only parsing).

Definition ProviderErrorInsufficientBalance : category := "insufficient_balance".
Definition ProviderErrorQuotaExhausted : category := "quota_exhausted".
Definition ProviderErrorAccessDenied : category := "provider_access_denied".
Definition ProviderErrorFairUseThrottled : category := "fair_use_throttled".
Definition ProviderErrorRateLimited : category := "rate_limited".
Definition ProviderErrorAuthentication : category := "authentication".
Definition ProviderErrorPermissionDenied : category := "permission_denied".
Definition ProviderErrorPolicyDenied : category := "policy_denied".
Definition ProviderErrorInvalidRequest : category := "invalid_request".
Definition ProviderErrorModelNotFound : category := "model_not_found".
Definition ProviderErrorTemporarilyUnavailable : category := "temporarily_unavailable".

Definition all_categories : list category :=
  [ProviderErrorInsufficientBalance; ProviderErrorQuotaExhausted; ProviderErrorAccessDenied;
   ProviderErrorFairUseThrottled; ProviderErrorRateLimited; ProviderErrorAuthentication;
   ProviderErrorPermissionDenied; ProviderErrorPolicyDenied; ProviderErrorInvalidRequest;
   ProviderErrorModelNotFound; ProviderErrorTemporarilyUnavailable].

Definition ProviderScopedTerminal (c : category) : bool :=
  member c [ProviderErrorInsufficientBalance; ProviderErrorQuotaExhausted;
            ProviderErrorAccessDenied; ProviderErrorFairUseThrottled].

(** A Go [switch] over strings with a default. *)
Fixpoint switch {A} (value : string) (cases : list (list string * A)) (dflt : A) : A :=
  match cases with
  | [] => dflt
  | (labels, result) :: cases => if member value labels then result else switch value cases dflt
  end.

Definition client_code (c : category) : string :=
  switch c
    [([ProviderErrorInsufficientBalance], "provider_insufficient_balance");
     ([ProviderErrorQuotaExhausted], "provider_quota_exhausted");
     ([ProviderErrorAccessDenied], "provider_access_denied");
     ([ProviderErrorFairUseThrottled], "provider_fair_use_throttled");
     ([ProviderErrorRateLimited], "upstream_rate_limited");
     ([ProviderErrorAuthentication], "upstream_authentication_failed");
     ([ProviderErrorPermissionDenied], "upstream_permission_denied");
     ([ProviderErrorPolicyDenied], "upstream_policy_denied");
     ([ProviderErrorInvalidRequest], "upstream_invalid_request");
     ([ProviderErrorModelNotFound], "provider_model_not_found");
     ([ProviderErrorTemporarilyUnavailable], "provider_temporarily_unavailable")]
    "upstream_error".

Definition client_message (c : category) : string :=
  switch c
    [([ProviderErrorInsufficientBalance], "The provider reports insufficient balance. Check its account balance or billing status, then retry.");
     ([ProviderErrorAccessDenied], "The provider subscription does not permit the selected model. Check the subscription entitlement or select an eligible alternative provider.");
     ([ProviderErrorFairUseThrottled], "The provider restricted this account under its fair use policy. Check account activity; if the unexpected load is not yours, investigate possible API key exposure and rotate the provider key. Request manual removal of the restriction in the provider account center; recovery time is unknown.");
     ([ProviderErrorQuotaExhausted], "The provider reports an exhausted quota. Wait for its quota reset or select an eligible alternative provider.");
     ([ProviderErrorRateLimited], "The provider is rate limiting requests. Wait for the indicated interval before retrying.");
     ([ProviderErrorAuthentication], "The provider rejected its credentials. Check the API key configured for this provider.");
     ([ProviderErrorPermissionDenied], "The provider denied access to this model or operation. Check the provider-side permissions.");
     ([ProviderErrorPolicyDenied], "The provider blocked this request under its usage or content policy.");
     ([ProviderErrorInvalidRequest], "The provider rejected the request as invalid.");
     ([ProviderErrorModelNotFound], "The provider does not have access to the selected model.");
     ([ProviderErrorTemporarilyUnavailable], "The provider is temporarily unavailable. TideMux may prefer another model:auto entry for new sessions.")]
    "The provider request failed.".

Definition client_kind (c : category) (protocol : string) : string :=
  if String.eqb protocol "anthropic" then
    switch c
      [([ProviderErrorInsufficientBalance], "billing_error");
       ([ProviderErrorRateLimited; ProviderErrorQuotaExhausted; ProviderErrorFairUseThrottled], "rate_limit_error");
       ([ProviderErrorAuthentication], "authentication_error");
       ([ProviderErrorPermissionDenied; ProviderErrorAccessDenied], "permission_error");
       ([ProviderErrorPolicyDenied], "permission_error");
       ([ProviderErrorInvalidRequest], "invalid_request_error");
       ([ProviderErrorModelNotFound], "not_found_error");
       ([ProviderErrorTemporarilyUnavailable], "api_error")]
      ""
  else
    switch c
      [([ProviderErrorInsufficientBalance], "insufficient_quota");
       ([ProviderErrorQuotaExhausted], "insufficient_quota");
       ([ProviderErrorRateLimited; ProviderErrorFairUseThrottled], "rate_limit_error");
       ([ProviderErrorAuthentication], "authentication_error");
       ([ProviderErrorPermissionDenied; ProviderErrorAccessDenied], "permission_error");
       ([ProviderErrorPolicyDenied], "permission_error");
       ([ProviderErrorInvalidRequest], "invalid_request_error");
       ([ProviderErrorModelNotFound], "not_found_error");
       ([ProviderErrorTemporarilyUnavailable], "server_error")]
      "api_error".

Definition client_status (c : category) : Z :=
  switch c
    [([ProviderErrorInsufficientBalance], 402);
     ([ProviderErrorRateLimited; ProviderErrorQuotaExhausted; ProviderErrorFairUseThrottled], 429);
     ([ProviderErrorAuthentication], 502);
     ([ProviderErrorPermissionDenied], 502);
     ([ProviderErrorAccessDenied], 403);
     ([ProviderErrorPolicyDenied], 403);
     ([ProviderErrorInvalidRequest], 400);
     ([ProviderErrorModelNotFound], 404);
     ([ProviderErrorTemporarilyUnavailable], 503)]
    502.

Definition ClientError (c : category) (protocol : string) : Z * string * string * string :=
  (client_status c, client_code c, client_message c, client_kind c protocol).

(** ** Mappings *)

Record ProviderErrorMapping := {
  UpstreamCode : string;
  MappedStatus : Z;
  MappedCategory : category;
}.

Definition code_byte (b : Z) : bool :=
  Utf8.between 97 122 b || Utf8.between 65 90 b || Utf8.between 48 57 b || Strings.contains_byte "._:-" b.

(** The code iterates over runes; every byte of a non-ASCII rune is rejected
    here as its rune is there. *)
Definition safeProviderErrorCode (value : string) : bool :=
  if String.eqb value "" || (128 <? Strings.len value) || negb (String.eqb (Strings.TrimSpace value) value)
  then false
  else Strings.all code_byte value.

Inductive mapping_error := ErrUpstreamCode | ErrHTTPStatus | ErrCategory | ErrTooManyMappings | ErrDuplicateMapping.

Definition Validate (m : ProviderErrorMapping) : option mapping_error :=
  if negb (safeProviderErrorCode (UpstreamCode m)) then Some ErrUpstreamCode
  else if negb (MappedStatus m =? 0) && ((MappedStatus m <? 400) || (599 <? MappedStatus m)) then Some ErrHTTPStatus
  else if member (MappedCategory m) all_categories then None
  else Some ErrCategory.

Definition same_mapping (a b : ProviderErrorMapping) : bool :=
  String.eqb (UpstreamCode a) (UpstreamCode b) && (MappedStatus a =? MappedStatus b).

(** The loop of [ValidateProviderErrorMappings]; [before] are the mappings
    already visited. *)
Fixpoint validate_mappings (before mappings : list ProviderErrorMapping) : option mapping_error :=
  match mappings with
  | [] => None
  | m :: mappings =>
      match Validate m with
      | Some err => Some err
      | None =>
          if existsb (fun b => same_mapping b m) before then Some ErrDuplicateMapping
          else validate_mappings (before ++ [m]) mappings
      end
  end.

Definition ValidateProviderErrorMappings (mappings : list ProviderErrorMapping) : option mapping_error :=
  if (256 <? length mappings)%nat then Some ErrTooManyMappings else validate_mappings [] mappings.

(** The loop of [resolveProviderErrorCategory]: the category and the boolean
    that the code returns. *)
Fixpoint resolve_loop (code : string) (status : Z) (mappings : list ProviderErrorMapping) (fallback : category)
    : category * bool :=
  match mappings with
  | [] => (fallback, negb (String.eqb fallback ""))
  | m :: mappings =>
      if negb (String.eqb (UpstreamCode m) code) then resolve_loop code status mappings fallback
      else if MappedStatus m =? status then (MappedCategory m, true)
      else resolve_loop code status mappings (if MappedStatus m =? 0 then MappedCategory m else fallback)
  end.
Definition resolveProviderErrorCategory (code : string) (status : Z) (mappings : list ProviderErrorMapping)
    : category * bool := resolve_loop code status mappings "".

(** The standard identifiers of [resolveErrorCategory]. *)
Definition standard_category (value : string) (status : Z) : option category :=
  switch value
    [(["insufficient_quota"], Some ProviderErrorQuotaExhausted);
     (["invalid_request_error"; "context_length_exceeded"; "request_too_large"], Some ProviderErrorInvalidRequest);
     (["rate_limit_error"; "rate_limit_exceeded"], Some ProviderErrorRateLimited);
     (["authentication_error"; "invalid_api_key"], Some ProviderErrorAuthentication);
     (["permission_error"], Some ProviderErrorPermissionDenied);
     (["not_found_error"; "model_not_found"], Some ProviderErrorModelNotFound);
     (["billing_error"], Some ProviderErrorInsufficientBalance);
     (["overloaded_error"; "server_error"; "api_error"; "internal_error"; "timeout_error"],
      if (status =? 0) || (500 <=? status) then Some ProviderErrorTemporarilyUnavailable else None)]
    None.

(** [resolveErrorCategory] on the two fields it reads from the body: the
    code chosen by [providerErrorCode] and [error.type]. *)
Definition resolveErrorCategory (code kind : string) (status : Z) (mappings : list ProviderErrorMapping)
    : category * bool :=
  match resolveProviderErrorCategory code status mappings with
  | (c, true) => (c, true)
  | (_, false) =>
      match standard_category code status with
      | Some c => (c, true)
      | None =>
          match standard_category kind status with
          | Some c => (c, true)
          | None => ("", false)
          end
      end
  end.

Definition mappedHTTPStatus (c : category) (upstreamStatus : Z) : Z :=
  let status := client_status c in
  if (upstreamStatus <? 400) || (499 <? upstreamStatus) then status
  else
    let keep l := if existsb (Z.eqb upstreamStatus) l then upstreamStatus else status in
    switch c
      [([ProviderErrorInsufficientBalance], keep [402; 403]);
       ([ProviderErrorAuthentication], keep [401; 403]);
       ([ProviderErrorPermissionDenied; ProviderErrorAccessDenied], keep [403]);
       ([ProviderErrorPolicyDenied], keep [400; 403]);
       ([ProviderErrorInvalidRequest], keep [400; 413; 422]);
       ([ProviderErrorModelNotFound], keep [400; 404])]
      status.

(** ** Call errors *)

Record CallError := {
  Status : Z;
  Code : string;
  UpstreamNotAttempted : bool;
  FailoverSafe : bool;
  BudgetCost : option SpecFloat.spec_float;
  Param : string;
  CallProviderCode : string;
  CallCategory : category;
  UpstreamStatus : Z;
  Cooldown : duration;
  CooldownUntil : time;
  RetryAfterSecs : Z;
  RetryProvided : bool;
  RetryAfterValue : string;
  CallFailure : option Failure;
  AllKeysCooling : bool;
  RateLimitFailures : Z;
  RequestStartedAt : time;
  QueueMS : Z;
}.

#[export] Instance CallError_eta : Eta CallError := fun e =>
  {| Status := Status e; Code := Code e; UpstreamNotAttempted := UpstreamNotAttempted e;
     FailoverSafe := FailoverSafe e; BudgetCost := BudgetCost e; Param := Param e;
     CallProviderCode := CallProviderCode e; CallCategory := CallCategory e;
     UpstreamStatus := UpstreamStatus e; Cooldown := Cooldown e; CooldownUntil := CooldownUntil e;
     RetryAfterSecs := RetryAfterSecs e; RetryProvided := RetryProvided e;
     RetryAfterValue := RetryAfterValue e; CallFailure := CallFailure e;
     AllKeysCooling := AllKeysCooling e; RateLimitFailures := RateLimitFailures e;
     RequestStartedAt := RequestStartedAt e; QueueMS := QueueMS e |}.

(** [&CallError{Status: status, Code: code}]. *)
Definition new_CallError (status : Z) (code : string) : CallError :=
  {| Status := status; Code := code; UpstreamNotAttempted := false; FailoverSafe := false;
     BudgetCost := None; Param := ""; CallProviderCode := ""; CallCategory := ""; UpstreamStatus := 0;
     Cooldown := 0; CooldownUntil := Time.zero; RetryAfterSecs := 0; RetryProvided := false;
     RetryAfterValue := ""; CallFailure := None; AllKeysCooling := false; RateLimitFailures := 0;
     RequestStartedAt := Time.zero; QueueMS := 0 |}.

(** A Go [error] as the gateway inspects it: a [*CallError] that [errors.As]
    finds, or any other error. *)
Inductive go_error :=
  | ECall (e : CallError)
  | EOther (message : string).

(** [errors.As(err, &callErr)]. *)
Definition as_CallError (err : option go_error) : option CallError :=
  match err with Some (ECall e) => Some e | _ => None end.

(** ** Waits *)

Definition maximumKeyCooldown : duration := 24 * Hour.
Definition defaultRateLimitCooldown : duration := Second.

Definition boundedCooldown (delay : duration) : duration :=
  if delay <? Second then Second
  else if maximumKeyCooldown <? delay then maximumKeyCooldown
  else delay.

Definition decimalSeconds (value : string) : bool :=
  negb (String.eqb value "") && Strings.all (Utf8.between 48 57) value.

(** [time.Date(9999, 12, 31, 23, 59, 59, 0, time.UTC)]. *)
Definition latest : time := Time.of_unix 253402300799 0.

Section retry_after.
(** [http.ParseTime], left abstract: the three HTTP date formats. *)
Context (ParseTime : string -> option time).

(** [header] is [resp.Header.Get("Retry-After")]. *)
Definition retryAfterDeadline (header : string) (now : time) : time * Z * bool :=
  let value := Strings.TrimSpace header in
  if decimalSeconds value then
    let maximumSeconds := Time.unix latest - Time.unix now - 1 in
    match Strconv.ParseDigits value with
    | Some seconds =>
        if maximumSeconds <? seconds then (latest, maximumSeconds, true)
        else (Time.of_unix (Time.unix now + seconds) (Time.nanosecond now), seconds, true)
    | None => (latest, maximumSeconds, true)
    end
  else match ParseTime value with
  | Some at_ =>
      if negb (Time.after at_ now) then (now, 0, true)
      else
        let seconds := Time.unix at_ - Time.unix now in
        let seconds := if Time.nanosecond now <? Time.nanosecond at_ then seconds + 1 else seconds in
        (at_, seconds, true)
  | None => (Time.zero, 0, false)
  end.

Definition waits_apply (c : category) : bool :=
  member c [ProviderErrorRateLimited; ProviderErrorQuotaExhausted; ProviderErrorAccessDenied;
            ProviderErrorFairUseThrottled; ProviderErrorTemporarilyUnavailable].

(** [mappedProviderError]: [status] and [header] are those of the response. *)
Definition mappedProviderError (status : Z) (header : string) (c : category) (providerCode : string)
    (now : time) : CallError :=
  let result := (new_CallError (mappedHTTPStatus c status) (client_code c))
      <| CallProviderCode := providerCode |> <| CallCategory := c |> <| UpstreamStatus := status |> in
  let result :=
    if ProviderScopedTerminal c || String.eqb c ProviderErrorModelNotFound ||
       String.eqb c ProviderErrorTemporarilyUnavailable
    then result <| FailoverSafe := true |> else result in
  if waits_apply c then
    let '(until, seconds, provided) := retryAfterDeadline header now in
    let result := result <| RetryAfterSecs := seconds |> <| RetryProvided := provided |> in
    if provided then
      result <| CooldownUntil := until |> <| Cooldown := Time.sub until now |>
             <| RetryAfterValue := Strings.TrimSpace header |>
    else if String.eqb c ProviderErrorRateLimited then result <| Cooldown := defaultRateLimitCooldown |>
    else result
  else if String.eqb c ProviderErrorAuthentication then result <| Cooldown := 30 * Second |>
  else result.
End retry_after.

(** ** Classification *)

Definition SafeFailureClass (err : option go_error) : string :=
  match as_CallError err with
  | None => "upstream_error"
  | Some f =>
      if member (CallCategory f) all_categories then CallCategory f
      else if UpstreamStatus f =? 401 then "authentication"
      else if UpstreamStatus f =? 403 then "permission_denied"
      else if UpstreamStatus f =? 429 then "rate_limited"
      else switch (Code f)
        [(["upstream_transport_error"], "transport_error");
         (["invalid_upstream_response"; "invalid_upstream_stream"; "invalid_upstream_content_type";
           "upstream_read_error"; "upstream_response_too_large"], "invalid_response");
         (["downstream_write_error"], "downstream_error");
         (["upstream_timeout"], "timeout");
         (["request_canceled"; "server_shutting_down"], "canceled")]
        "upstream_error"
  end.

Record HTTPAttemptResult := { Outcome : string; FailureClass : string }.

(** [cause_deadline]: [errors.Is(context.Cause(ctx), context.DeadlineExceeded)];
    [ctx_canceled]: [errors.Is(ctx.Err(), context.Canceled)]. *)
Definition httpAttemptResult (cause_deadline ctx_canceled : bool) (err : option go_error) (timedOut : bool)
    : HTTPAttemptResult :=
  match err with
  | None => {| Outcome := "success"; FailureClass := "" |}
  | Some _ =>
      let class := SafeFailureClass err in
      if timedOut || cause_deadline || String.eqb class "timeout"
      then {| Outcome := "timeout"; FailureClass := "timeout" |}
      else if ctx_canceled || String.eqb class "canceled"
      then {| Outcome := "canceled"; FailureClass := "canceled" |}
      else {| Outcome := "failure"; FailureClass := class |}
  end.

Definition terminal_codes : list string := ["request_canceled"; "server_shutting_down"; "downstream_write_error"].
Definition retryable_codes : list string :=
  ["upstream_timeout"; "upstream_transport_error"; "upstream_read_error"; "upstream_stream_read_error";
   "incomplete_upstream_stream"].

Definition failureRetryability (e : CallError) : string :=
  if ProviderScopedTerminal (CallCategory e) then "terminal"
  else if member (Code e) terminal_codes then "terminal"
  else if member (CallCategory e) [ProviderErrorRateLimited; ProviderErrorTemporarilyUnavailable] then "retryable"
  else if member (CallCategory e)
    [ProviderErrorAuthentication; ProviderErrorPermissionDenied; ProviderErrorPolicyDenied;
     ProviderErrorInvalidRequest; ProviderErrorModelNotFound; ProviderErrorInsufficientBalance;
     ProviderErrorQuotaExhausted] then "terminal"
  else
    let status := match CallFailure e with
                  | Some f => if negb (ErrorStatus f =? 0) then ErrorStatus f else UpstreamStatus e
                  | None => UpstreamStatus e
                  end in
    if (status =? 408) || (status =? 409) || (status =? 429) || ((500 <=? status) && (status <=? 599))
    then "retryable"
    else if (400 <=? status) && (status <=? 499) then "terminal"
    else if member (Code e) retryable_codes then "retryable"
    else "unknown".

Definition terminalHTTPStatus (delivered : bool) (err : option go_error) : Z :=
  match err with
  | None => 200
  | Some err' =>
      if delivered then 200
      else match err' with
      | EOther _ => 500
      | ECall e =>
          let status := if negb (String.eqb (CallCategory e) "") && ((Status e <? 400) || (599 <? Status e))
                        then client_status (CallCategory e) else Status e in
          if (status <? 100) || (599 <? status) then 500 else status
      end
  end.

(** ** Properties *)

Lemma member_spec v l : member v l = true <-> In v l.
Proof.
  unfold member. rewrite existsb_exists. split.
  - intros (x & Hx & ->%String.eqb_eq). done.
  - intros. exists v. by rewrite String.eqb_refl.
Qed.

(** *** Resolution of the operator's mappings *)

(** First mapping of [code] for [status], as the loop's early return finds it. *)
Definition mapping_for (code : string) (status : Z) (m : ProviderErrorMapping) : bool :=
  String.eqb (UpstreamCode m) code && (MappedStatus m =? status).
Definition lookup_mapping (code : string) (status : Z) (ms : list ProviderErrorMapping) : option category :=
  MappedCategory <$> List.find (mapping_for code status) ms.

(** The documented rule: an exact status wins over a mapping without one. *)
Definition mapping_spec (code : string) (status : Z) (ms : list ProviderErrorMapping) : category * bool :=
  match lookup_mapping code status ms with
  | Some c => (c, true)
  | None =>
      match lookup_mapping code 0 ms with
      | Some c => (c, true)
      | None => ("", false)
      end
  end.

Record valid_mappings (ms : list ProviderErrorMapping) : Prop := {
  valid_categories : Forall (fun m => In (MappedCategory m) all_categories) ms;
  valid_keys : NoDup (map (fun m => (UpstreamCode m, MappedStatus m)) ms);
}.

Lemma Validate_category m : Validate m = None -> In (MappedCategory m) all_categories.
Proof. unfold Validate. repeat case_match; try done. intros _. by apply member_spec. Qed.

Lemma same_mapping_spec a b :
  same_mapping a b = true <-> (UpstreamCode a, MappedStatus a) = (UpstreamCode b, MappedStatus b).
Proof.
  unfold same_mapping. rewrite andb_true_iff, String.eqb_eq, Z.eqb_eq.
  split; [intros [-> ->]; done|by intros [= -> ->]].
Qed.

Lemma validate_loop_valid before ms :
  validate_mappings before ms = None -> valid_mappings before -> valid_mappings (before ++ ms).
Proof.
  revert before. induction ms as [|m ms IH]; intros before H Hb; simpl in *; [by rewrite app_nil_r|].
  destruct (Validate m) eqn:Hm; [done|]. destruct (existsb _ _) eqn:Hdup; [done|].
  rewrite cons_middle, (assoc_L (++)). apply IH; [done|]. destruct Hb as [Hc Hk]. split.
  - apply Forall_app. split; [done|]. constructor; [by apply Validate_category|constructor].
  - rewrite map_app. apply NoDup_app. split; [done|]. split; [|apply NoDup_singleton].
    intros k Hk1 Hk2. simpl in Hk2. apply list_elem_of_singleton in Hk2 as ->.
    apply list_elem_of_In, in_map_iff in Hk1 as (b & Hb & Hin).
    apply not_true_iff_false in Hdup. apply Hdup, existsb_exists. exists b.
    split; [done|]. by apply same_mapping_spec.
Qed.

Lemma validated ms : ValidateProviderErrorMappings ms = None -> valid_mappings ms.
Proof.
  unfold ValidateProviderErrorMappings. case_match; [done|]. intros H1.
  apply (validate_loop_valid [] ms H1). split; constructor.
Qed.

Lemma category_nonempty c : In c all_categories -> String.eqb c "" = false.
Proof. intros H. repeat (destruct H as [<-|H]; [reflexivity|]). destruct H. Qed.

Lemma resolve_loop_spec code status ms fallback :
  Forall (fun m => In (MappedCategory m) all_categories) ms ->
  NoDup (map (fun m => (UpstreamCode m, MappedStatus m)) ms) ->
  resolve_loop code status ms fallback =
    match lookup_mapping code status ms with
    | Some c => (c, true)
    | None =>
        match lookup_mapping code 0 ms with
        | Some c => (c, true)
        | None => (fallback, negb (String.eqb fallback ""))
        end
    end.
Proof.
  unfold lookup_mapping. revert fallback.
  induction ms as [|m ms IH]; intros fallback Hc Hk; simpl in *; [done|].
  apply Forall_cons in Hc as [Hm Hc]. apply NoDup_cons in Hk as [Hnew Hk].
  unfold mapping_for at 1 3. destruct (String.eqb_spec (UpstreamCode m) code) as [Hcode|]; simpl;
    [|by apply IH].
  destruct (Z.eqb_spec (MappedStatus m) status) as [Hs|Hs]; simpl; [done|].
  rewrite IH by done. destruct (List.find (mapping_for code status) ms) eqn:Hfind; simpl; [done|].
  destruct (Z.eqb_spec (MappedStatus m) 0) as [H0|H0]; simpl; [|done].
  destruct (List.find (mapping_for code 0) ms) as [m'|] eqn:Hf0; simpl.
  - exfalso. apply Hnew, list_elem_of_In, in_map_iff. apply List.find_some in Hf0 as [Hin Hm'].
    unfold mapping_for in Hm'. apply andb_true_iff in Hm' as [Hu%String.eqb_eq Hz%Z.eqb_eq].
    exists m'. split; [congruence|done].
  - by rewrite category_nonempty.
Qed.

Lemma find_mapping_Permutation code status ms ms' :
  NoDup (map (fun m => (UpstreamCode m, MappedStatus m)) ms) -> ms ≡ₚ ms' ->
  List.find (mapping_for code status) ms = List.find (mapping_for code status) ms'.
Proof.
  intros Hnd Hp. induction Hp as [|m l l' _ IH|m m' l|l1 l2 l3 H1 IH1 _ IH2]; simpl in *.
  - done.
  - apply NoDup_cons in Hnd as [_ Hnd]. by rewrite IH.
  - destruct (mapping_for code status m) eqn:E1, (mapping_for code status m') eqn:E2; try done.
    exfalso. apply NoDup_cons in Hnd as [Hnin _]. apply Hnin, list_elem_of_In. left.
    unfold mapping_for in *.
    apply andb_true_iff in E1 as [->%String.eqb_eq ->%Z.eqb_eq].
    by apply andb_true_iff in E2 as [->%String.eqb_eq ->%Z.eqb_eq].
  - rewrite IH1 by done. apply IH2. by rewrite <- H1.
Qed.

(** Mapping resolution.  On mappings that configuration validation
    accepts, the code's single pass implements the documented rule (an exact
    HTTP status first, then the mapping without a status), whatever the order
    in which the operator wrote them, and a resolved category is always one
    of the eleven canonical ones. *)
Theorem resolve_mapping_rule code status ms ms' :
  ValidateProviderErrorMappings ms = None -> ms ≡ₚ ms' ->
  resolveProviderErrorCategory code status ms' = mapping_spec code status ms /\
  (forall c, resolveProviderErrorCategory code status ms' = (c, true) -> In c all_categories).
Proof.
  intros Hv%validated Hp. destruct Hv as [Hc Hk]. unfold resolveProviderErrorCategory.
  rewrite Hp in Hc. rewrite resolve_loop_spec; [|done|by rewrite <- Hp].
  unfold mapping_spec, lookup_mapping.
  rewrite !(find_mapping_Permutation _ _ ms ms') by done. split; [done|].
  rewrite List.Forall_forall in Hc. intros c.
  destruct (List.find (mapping_for code status) ms') as [m|] eqn:E1; simpl;
    [|destruct (List.find (mapping_for code 0) ms') as [m|] eqn:E2; simpl]; intros [= <-];
    apply Hc; by eapply List.find_some.
Qed.

Definition demo_mappings : list ProviderErrorMapping :=
  [{| UpstreamCode := "1302"; MappedStatus := 0; MappedCategory := ProviderErrorRateLimited |};
   {| UpstreamCode := "1302"; MappedStatus := 403; MappedCategory := ProviderErrorAccessDenied |}].

Lemma resolve_mapping_rule_witness :
  resolveProviderErrorCategory "1302" 403 (rev demo_mappings) = mapping_spec "1302" 403 demo_mappings /\
  (forall c, resolveProviderErrorCategory "1302" 403 (rev demo_mappings) = (c, true) -> In c all_categories).
Proof.
  apply (resolve_mapping_rule "1302" 403 demo_mappings); [vm_compute; reflexivity|].
  apply Permutation_rev.
Defined.

(** *** Retry-After *)

Lemma unix_latest : Time.unix latest = 253402300799.
Proof. reflexivity. Qed.

Lemma latest_value : latest = (253402300799 + Time.epoch_seconds) * Second.
Proof. reflexivity. Qed.

Lemma now_parts now : now = (Time.unix now + Time.epoch_seconds) * Second + Time.nanosecond now.
Proof. symmetry. apply Time.of_unix_parts. Qed.

Lemma nanosecond_range now : 0 <= Time.nanosecond now < Second.
Proof. apply Z.mod_pos_bound. reflexivity. Qed.

(** A numeric [Retry-After] of any length fails closed: the deadline is
    the exact instant it names, or the latest representable one when it is
    beyond; it is never an earlier one, and never missing. *)
Theorem retry_after_fails_closed ParseTime header now :
  decimalSeconds (Strings.TrimSpace header) = true -> 0 <= now -> Time.unix now < Time.unix latest ->
  let n := Strconv.digits_value (bytes_of_string (Strings.TrimSpace header)) 0 in
  let '(until, seconds, provided) := retryAfterDeadline ParseTime header now in
  provided = true /\ Z.min (now + n * Second) latest <= until /\
  (n < Time.unix latest - Time.unix now -> until = now + n * Second /\ seconds = n).
Proof.
  intros Hd H0 Hnow n. unfold retryAfterDeadline. rewrite Hd.
  unfold Strconv.ParseDigits. unfold decimalSeconds in Hd.
  apply andb_true_iff in Hd as [->%negb_true_iff ->]. simpl. fold n.
  pose proof (now_parts now) as Hp. pose proof (nanosecond_range now) as Hn.
  rewrite unix_latest in *. rewrite latest_value. unfold Time.of_unix, Time.epoch_seconds, Second in *.
  destruct (Z.leb_spec n max_int64) as [Hle|Hgt]; unfold max_int64 in *;
    [destruct (Z.ltb_spec (253402300799 - Time.unix now - 1) n)|]; split; try done; lia.
Qed.

Lemma retry_after_fails_closed_witness :
  decimalSeconds (Strings.TrimSpace " 120 ") = true /\
  (let n := Strconv.digits_value (bytes_of_string (Strings.TrimSpace " 120 ")) 0 in
   let '(until, seconds, provided) := retryAfterDeadline (fun _ => None) " 120 " 500 in
   provided = true /\ Z.min (500 + n * Second) latest <= until /\
   (n < Time.unix latest - Time.unix 500 -> until = 500 + n * Second /\ seconds = n)).
Proof.
  split; [reflexivity|].
  apply (retry_after_fails_closed (fun _ => None) " 120 " 500); [reflexivity|lia|reflexivity].
Defined.
