(* ===== verification/Availability.v ===== *)
(** * Upstream health: [internal/gateway/availability.go]

    Observations per provider and per provider/model, the cooldown after a
    confirmed failure and the single request that may probe a target once its
    cooldown is over.  The code keeps pointers to entries in the map and in
    the leases of requests in flight, and compares them; the model keeps the
    same aliasing with an explicit store.  Every operation below holds
    [s.mu] from start to end in the code, so it is one atomic step here. *)

From S2P Require Import Prelude GoStrings GoFloat Diagnostics Errors.

Definition availabilityLimit : Z := 4096.
Definition availabilityTTL : duration := 24 * Hour.
Definition availabilityMaxBackoff : duration := 30 * Minute.
Definition routeRecoveryCooldown : duration := 30 * Second.
Definition billingExhaustionCooldown : duration := 5 * Minute.

(** [recoveryJitter] with [rand.Int63n] as an argument. *)
Definition recoveryJitter (Int63n : Z -> Z) (base : duration) : duration := Int63n (base ÷ 5 + 1).

(** ** Targets, entries, leases *)

(** An empty model denotes provider scope. *)
Record availabilityTarget := Target {
  provider : string;
  model : string;
  generation : Z;
}.

#[export] Instance availabilityTarget_eq_dec : EqDecision availabilityTarget.
Proof. solve_decision. Defined.
#[export] Instance availabilityTarget_countable : Countable availabilityTarget.
Proof.
  apply (inj_countable' (fun t => (provider t, model t, generation t))
           (fun x => Target x.1.1 x.1.2 x.2)). by intros [].
Defined.

(** Pointers to entries and to leases. *)
Abbreviation entry_ptr := nat (only parsing).
Abbreviation lease_ptr := nat (only parsing).

Record availabilityEntry := {
  reason : string;
  failures : Z;
  lastSuccess : time;
  lastFailure : time;
  retryAt : time;
  touched : time;
  probing : bool;
  owner : option lease_ptr;
}.

#[export] Instance availabilityEntry_eta : Eta availabilityEntry := fun e =>
  {| reason := reason e; failures := failures e; lastSuccess := lastSuccess e;
     lastFailure := lastFailure e; retryAt := retryAt e; touched := touched e;
     probing := probing e; owner := owner e |}.

Definition fresh_entry (now : time) : availabilityEntry :=
  {| reason := ""; failures := 0; lastSuccess := Time.zero; lastFailure := Time.zero;
     retryAt := Time.zero; touched := now; probing := false; owner := None |}.

Definition eligible (e : option availabilityEntry) (now : time) : bool :=
  match e with
  | None => true
  | Some e => (failures e =? 0) || (negb (probing e) && negb (Time.before now (retryAt e)))
  end.

Definition state_name (e : option availabilityEntry) : string :=
  match e with
  | None => "unknown"
  | Some e => if probing e then "probing" else if 0 <? failures e then "cooling" else "available"
  end.

Record availabilityLease := {
  lease_epoch : Z;
  targets : list availabilityTarget;
  lease_entries : list (option entry_ptr);
}.

#[export] Instance availabilityLease_eta : Eta availabilityLease := fun l =>
  {| lease_epoch := lease_epoch l; targets := targets l; lease_entries := lease_entries l |}.

Record availabilityState := {
  nextSweep : time;
  epoch : Z;
  generations : gmap string Z;
  entries : gmap availabilityTarget entry_ptr;
  heap : gmap entry_ptr availabilityEntry;   (** every entry allocated *)
  leases : gmap lease_ptr availabilityLease; (** every lease allocated *)
  next_entry : entry_ptr;
  next_lease : lease_ptr;
}.

#[export] Instance availabilityState_eta : Eta availabilityState := fun s =>
  {| nextSweep := nextSweep s; epoch := epoch s; generations := generations s; entries := entries s;
     heap := heap s; leases := leases s; next_entry := next_entry s; next_lease := next_lease s |}.

Definition newAvailabilityState : availabilityState :=
  {| nextSweep := Time.zero; epoch := 0; generations := ∅; entries := ∅; heap := ∅; leases := ∅;
     next_entry := 0; next_lease := 0 |}.

(** [&entry]: a new pointer. *)
Definition alloc (s : availabilityState) (e : availabilityEntry) : availabilityState * entry_ptr :=
  (s <| heap := <[next_entry s := e]> (heap s) |> <| next_entry := S (next_entry s) |>, next_entry s).

(** [*p = e]. *)
Definition store (s : availabilityState) (p : entry_ptr) (e : availabilityEntry) : availabilityState :=
  s <| heap := <[p := e]> (heap s) |>.

(** [s.entries[target]] followed to the entry. *)
Definition entry_at (s : availabilityState) (t : availabilityTarget) : option availabilityEntry :=
  entries s !! t ≫= (heap s !!.).

Definition deref (s : availabilityState) (p : option entry_ptr) : option availabilityEntry :=
  p ≫= (heap s !!.).

(** ** Sweeping and bounded insertion *)

Definition stale (s : availabilityState) (now : time) (p : entry_ptr) : bool :=
  match heap s !! p with
  | Some e => negb (probing e) && (availabilityTTL <=? Time.sub now (touched e))
  | None => false
  end.

Definition prune (s : availabilityState) (now : time) : availabilityState :=
  if Time.before now (nextSweep s) then s
  else s <| nextSweep := Time.add now Minute |>
         <| entries := filter (fun kv => stale s now kv.2 = false) (entries s) |>.

Section with_range.
Context {Range : MapRange availabilityTarget entry_ptr}.

(** The candidate of the eviction loop of [put]. *)
Definition evict_step (s : availabilityState) (acc : option (availabilityTarget * time))
    (kv : availabilityTarget * entry_ptr) : option (availabilityTarget * time) :=
  match heap s !! kv.2 with
  | Some e =>
      if negb (probing e) &&
         match acc with None => true | Some (_, oldest) => Time.before (touched e) oldest end
      then Some (kv.1, touched e) else acc
  | None => acc
  end.
Definition evict_candidate (s : availabilityState) : option availabilityTarget :=
  fst <$> foldl (evict_step s) None (range (entries s)).

Definition set_entry (s : availabilityState) (t : availabilityTarget) (p : entry_ptr) : availabilityState :=
  s <| entries := <[t := p]> (entries s) |>.

Definition put (s : availabilityState) (t : availabilityTarget) (p : entry_ptr) : availabilityState * bool :=
  match entries s !! t with
  | Some _ => (set_entry s t p, true)
  | None =>
      if availabilityLimit <=? Z.of_nat (size (entries s)) then
        match evict_candidate s with
        | None => (s, false)
        | Some victim => (set_entry (s <| entries := delete victim (entries s) |>) t p, true)
        end
      else (set_entry s t p, true)
  end.

(** ** Admission *)

Definition safe_model_byte (b : Z) : bool :=
  Utf8.between 97 122 b || Utf8.between 65 90 b || Utf8.between 48 57 b || Strings.contains_byte "._/-:@" b.
Definition safeAvailabilityModel (model : string) : bool :=
  if String.eqb model "" || (128 <? Strings.len model) then false else Strings.all safe_model_byte model.

(** [available] also sweeps. *)
Definition available (s : availabilityState) (ep : Z) (p m : string) (g : Z) (now : time)
    : availabilityState * bool :=
  if negb (ep =? epoch s) then (s, true)
  else
    let s := prune s now in
    (s, eligible (entry_at s (Target p "" g)) now && eligible (entry_at s (Target p m g)) now).

Definition availabilityError (e : availabilityEntry) (t : availabilityTarget) (now : time) : CallError :=
  let code := "model_" +:+ reason e +:+ "_cooling_down" in
  let code := if String.eqb (model t) "" then "provider_" +:+ reason e +:+ "_cooling_down" else code in
  let code := if negb (String.eqb (model t) "") && String.eqb (reason e) "model_not_found"
              then "model_not_found_cooling_down" else code in
  let code := if probing e then "recovery_in_progress" else code in
  let delay := Time.sub (retryAt e) now in
  let delay := if probing e || (delay <? 0) then 0 else delay in
  (new_CallError 429 code) <| Cooldown := delay |> <| UpstreamNotAttempted := true |>.

Definition isAvailabilityError (code : string) : bool :=
  String.eqb code "provider_keys_cooling_down" || String.eqb code "recovery_in_progress" ||
  (Strings.HasPrefix code "provider_" && Strings.HasSuffix code "_cooling_down") ||
  (Strings.HasPrefix code "model_" && Strings.HasSuffix code "_cooling_down").

Record availabilityTransition := {
  tr_target : availabilityTarget;
  tr_from : string;
  tr_to : string;
  tr_reason : string;
  tr_retryAt : time;
}.

(** First loop of [dispatch]: the first target that forbids the request.
    [held] are the entries of the lease. *)
Fixpoint blocked_by (s : availabilityState) (now : time) (held : list (option entry_ptr))
    (ts : list availabilityTarget) : option CallError :=
  match ts with
  | [] => None
  | t :: ts =>
      let mine := bool_decide (entries s !! t = mjoin (head held)) in
      match entry_at s t with
      | Some e =>
          if (0 <? failures e) && negb (probing e && mine) && negb (eligible (Some e) now)
          then Some (availabilityError e t now)
          else blocked_by s now (tail held) ts
      | None => blocked_by s now (tail held) ts
      end
  end.

(** Second loop: take the entries, claiming each target that is recovering. *)
Fixpoint claim (s : availabilityState) (l : lease_ptr) (ts : list availabilityTarget)
    : availabilityState * list (option entry_ptr) * list availabilityTransition :=
  match ts with
  | [] => (s, [], [])
  | t :: ts =>
      let '(s, trs) :=
        match entries s !! t, entry_at s t with
        | Some p, Some e =>
            if (0 <? failures e) && negb (probing e)
            then (store s p (e <| probing := true |> <| owner := Some l |>),
                  [{| tr_target := t; tr_from := "cooling"; tr_to := "probing";
                      tr_reason := reason e; tr_retryAt := retryAt e |}])
            else (s, [])
        | _, _ => (s, [])
        end in
      let '(s', held, trs') := claim s l ts in
      (s', (entries s !! t) :: held, trs ++ trs')
  end.

Definition dispatch (s : availabilityState) (l : lease_ptr) (now : time)
    : availabilityState * option CallError * list availabilityTransition :=
  match leases s !! l with
  | None => (s, None, [])
  | Some lease =>
      if negb (lease_epoch lease =? epoch s) then (s, None, [])
      else
        let s := prune s now in
        match blocked_by s now (lease_entries lease) (targets lease) with
        | Some err => (s, Some err, [])
        | None =>
            let '(s, held, trs) := claim s l (targets lease) in
            (s <| leases := <[l := lease <| lease_entries := held |>]> (leases s) |>, None, trs)
        end
  end.

Definition lease_targets (p m : string) (g : Z) : list availabilityTarget :=
  Target p "" g :: (if safeAvailabilityModel m then [Target p m g] else []).

(** [begin]; the new lease's pointer is returned with the state. *)
Definition begin (s : availabilityState) (ep : Z) (p m : string) (g : Z) (now : time)
    : availabilityState * lease_ptr * option CallError * list availabilityTransition :=
  let l := next_lease s in
  let ts := lease_targets p m g in
  let lease := {| lease_epoch := ep; targets := ts; lease_entries := (fun _ => None) <$> ts |} in
  let s := s <| leases := <[l := lease]> (leases s) |> <| next_lease := S l |> in
  let '(s, err, trs) := dispatch s l now in
  (s, l, err, trs).

(** ** Publication of a configuration *)

Definition kept (gens : gmap string Z) (valid : option (string -> string -> bool)) (t : availabilityTarget) : bool :=
  match gens !! provider t with
  | None => false
  | Some g =>
      (g =? generation t) &&
      (String.eqb (model t) "" || match valid with None => true | Some f => f (provider t) (model t) end)
  end.

(** The body of the loop over [s.entries]: a kept entry moves to a new
    pointer, which detaches the leases of the previous configuration. *)
Definition activate_step (gens : gmap string Z) (valid : option (string -> string -> bool))
    (s : availabilityState) (kv : availabilityTarget * entry_ptr) : availabilityState :=
  let '(t, p) := kv in
  if kept gens valid t then
    match heap s !! p with
    | Some e => let '(s, q) := alloc s e in set_entry s t q
    | None => s
    end
  else s <| entries := delete t (entries s) |>.

Definition activate (s : availabilityState) (ep : Z) (gens : gmap string Z)
    (valid : option (string -> string -> bool)) : availabilityState :=
  foldl (activate_step gens valid) (s <| epoch := ep |> <| generations := gens |>) (range (entries s)).

(** [apply] is a function on some other state. *)
Definition withCurrent {A} (s : availabilityState) (ep : Z) (p : string) (g : Z) (apply : A -> A) (a : A) : A * bool :=
  if negb (epoch s =? ep) || negb (default 0 (generations s !! p) =? g) then (a, false) else (apply a, true).

(** ** Classification of a completed request *)

(** The tail of [availabilityFailure], for an error without a category. *)
Definition unclassified_failure (e : CallError) : bool * string * duration :=
  let none := (false, "", 0) in
  match option_map Normalize (CallFailure e) with
  | None => none
  | Some f =>
      if String.eqb (Retryability f) "terminal" then none
      else if String.eqb (Source f) "stream_error" then
        if String.eqb (Retryability f) "unknown" then (true, "unclassified_stream_error", routeRecoveryCooldown)
        else (true, "upstream_stream_error", Cooldown e)
      else if negb (String.eqb (Retryability f) "retryable") then none
      else switch (Code e)
        [(["upstream_timeout"],
          if negb (String.eqb (Phase f) "conversion") && negb (String.eqb (Source f) "downstream")
          then (true, "upstream_timeout", Cooldown e) else none);
         (["upstream_stream_read_error"; "incomplete_upstream_stream"],
          if String.eqb (Source f) "stream" then (true, "stream_interrupted", Cooldown e) else none);
         (["upstream_read_error"; "upstream_transport_error"], (true, "transport_error", Cooldown e));
         (["upstream_error"],
          if String.eqb (Source f) "http_error" && (500 <=? HTTPStatus f)
          then (true, "upstream_error", Cooldown e) else none)]
        none
  end.

(** [ctxErr]: is the context's error non-nil?  The result is (modelScope,
    reason, cooldown); an empty reason means that nothing is confirmed. *)
Definition availabilityFailure (err : option go_error) (ctxErr handled : bool) : bool * string * duration :=
  let none := (false, "", 0) in
  if handled || ctxErr then none
  else match as_CallError err with
  | None => none
  | Some e =>
      if String.eqb (Code e) "upstream_transport_error" && UpstreamNotAttempted e && FailoverSafe e
      then (false, "transport_error", Cooldown e)
      else if UpstreamNotAttempted e then none
      else
        let c := CallCategory e in
        if String.eqb c ProviderErrorRateLimited then
          if AllKeysCooling e then (false, "rate_limited", Cooldown e) else none
        else if String.eqb c ProviderErrorModelNotFound then (true, "model_not_found", Cooldown e)
        else if String.eqb c ProviderErrorTemporarilyUnavailable then (true, "temporarily_unavailable", Cooldown e)
        else if String.eqb c ProviderErrorInsufficientBalance then (false, "insufficient_balance", Cooldown e)
        else if member c [ProviderErrorQuotaExhausted; ProviderErrorAccessDenied; ProviderErrorFairUseThrottled]
        then (false, c, Cooldown e)
        else if negb (String.eqb c "") then none
        else unclassified_failure e
  end.

(** [for n := uint16(1); n < failures && base < availabilityMaxBackoff; n++ { base *= 2 }];
    the fuel is the number of failures, which bounds the iterations. *)
Fixpoint double_base (fuel : nat) (n failures base : Z) : Z :=
  match fuel with
  | O => base
  | S fuel =>
      if (n <? failures) && (base <? availabilityMaxBackoff)
      then double_base fuel (n + 1) failures (base * 2) else base
  end.

Definition boundedRecoveryBackoff (reason : string) (failures : Z) (upstream : duration)
    (jitter : duration -> duration) : duration :=
  if String.eqb reason "rate_limited" && (10 <? failures) then 24 * Hour
  else
    let base := if ProviderScopedTerminal reason then billingExhaustionCooldown else routeRecoveryCooldown in
    let base := if negb (String.eqb reason "unclassified_stream_error")
                then double_base (Z.to_nat failures) 1 failures base else base in
    let base := if availabilityMaxBackoff <? base then availabilityMaxBackoff else base in
    let delay := base + jitter base in
    let delay := if delay <? upstream then upstream else delay in
    if 24 * Hour <? delay then 24 * Hour else delay.

(** ** Completion *)

(** [s.entries[target] = &next] with the entry of [e] copied. *)
Definition release (e : availabilityEntry) : availabilityEntry := e <| probing := false |> <| owner := None |>.

Definition transition_to (t : availabilityTarget) (from to : string) (e : availabilityEntry) : availabilityTransition :=
  {| tr_target := t; tr_from := from; tr_to := to; tr_reason := reason e; tr_retryAt := retryAt e |}.

(** Completion after the configuration changed: release, and change nothing else. *)
Fixpoint complete_stale (s : availabilityState) (l : lease_ptr) (ts : list availabilityTarget)
    : availabilityState * list availabilityTransition :=
  match ts with
  | [] => (s, [])
  | t :: ts =>
      let '(s, trs) :=
        match entry_at s t with
        | Some e =>
            if bool_decide (owner e = Some l) then
              let '(s, q) := alloc s (release e) in
              (set_entry s t q, [transition_to t "probing" "cooling" e])
            else (s, [])
        | None => (s, [])
        end in
      let '(s', trs') := complete_stale s l ts in (s', trs ++ trs')
  end.

Section complete.
(** What [complete] knows about the request: its error, whether its context
    ended, whether the error was handled before, the clock, the jitter drawn
    for each target. *)
Context (handled : bool) (err : option go_error) (ctxErr : bool) (now : time)
  (jitter : availabilityTarget -> duration -> duration).

Definition success : bool := negb handled && bool_decide (err = None) && negb ctxErr.
Definition failure_scope : bool := (availabilityFailure err ctxErr handled).1.1.
Definition failure_reason : string := (availabilityFailure err ctxErr handled).1.2.
Definition failure_cooldown : duration := (availabilityFailure err ctxErr handled).2.

(** [reason != "" && modelScope == (target.model != "")] *)
Definition classified (t : availabilityTarget) : bool :=
  negb (String.eqb failure_reason "") && Bool.eqb failure_scope (negb (String.eqb (model t) "")).

(** [fail]: classified for this scope, or an attempted probe that did not succeed. *)
Definition confirmed (previous : option availabilityEntry) (t : availabilityTarget) : bool :=
  classified t ||
  (match previous with Some e => probing e | None => false end && negb success && negb handled && negb ctxErr &&
   match as_CallError err with Some e => negb (UpstreamNotAttempted e) | None => false end).

Definition next_entry_value (previous : option availabilityEntry) (t : availabilityTarget) : availabilityEntry :=
  let next := match previous with Some e => (release e) <| touched := now |> | None => fresh_entry now end in
  if success then
    next <| lastSuccess := now |> <| reason := "" |> <| failures := 0 |> <| retryAt := Time.zero |>
  else
    let next := if classified t then next <| reason := failure_reason |> else next in
    let next := if failures next <? 16 then next <| failures := failures next + 1 |> else next in
    let next := next <| lastFailure := now |> in
    match as_CallError err with
    | Some e =>
        if String.eqb failure_reason "rate_limited" && AllKeysCooling e then
          let next := next <| failures := (if RateLimitFailures e =? 0 then 1 else RateLimitFailures e) |> in
          let next := next <| retryAt := Time.add now failure_cooldown |> in
          if negb (Time.is_zero (CooldownUntil e)) then next <| retryAt := CooldownUntil e |> else next
        else next <| retryAt := Time.add now
               (boundedRecoveryBackoff (reason next) (failures next) failure_cooldown (jitter t)) |>
    | None => next <| retryAt := Time.add now
               (boundedRecoveryBackoff (reason next) (failures next) failure_cooldown (jitter t)) |>
    end.

(** One iteration of the loop: [previous] is [lease.entries[i]]. *)
Definition complete_target (s : availabilityState) (t : availabilityTarget) (previous : option entry_ptr)
    : availabilityState * list availabilityTransition :=
  if negb (bool_decide (entries s !! t = previous)) then (s, [])
  else
    let prev := deref s previous in
    if negb success && negb (confirmed prev t) then
      match previous, prev with
      | Some p, Some e =>
          if probing e then (store s p (release e), [transition_to t "probing" "cooling" e]) else (s, [])
      | _, _ => (s, [])
      end
    else
      let next := next_entry_value prev t in
      let '(s, q) := alloc s next in
      let '(s, done) := put s t q in
      (s, if done && (negb (String.eqb (state_name prev) (state_name (Some next))) ||
                      match prev with Some e => negb (String.eqb (reason e) (reason next)) | None => false end)
          then [transition_to t (state_name prev) (state_name (Some next)) next] else []).

Fixpoint complete_targets (s : availabilityState) (ts : list availabilityTarget) (held : list (option entry_ptr))
    : availabilityState * list availabilityTransition :=
  match ts, held with
  | t :: ts, previous :: held =>
      let '(s, trs) := complete_target s t previous in
      let '(s', trs') := complete_targets s ts held in (s', trs ++ trs')
  | _, _ => (s, [])
  end.

Definition current_generation (s : availabilityState) (t : availabilityTarget) : bool :=
  bool_decide (generations s !! provider t = Some (generation t)).

Definition complete (s : availabilityState) (l : lease_ptr) : availabilityState * list availabilityTransition * bool :=
  match leases s !! l with
  | None => (s, [], false)
  | Some lease =>
      if negb (lease_epoch lease =? epoch s) then
        let '(s, trs) := complete_stale s l (targets lease) in (s, trs, false)
      else if negb (forallb (current_generation s) (targets lease)) then (s, [], false)
      else
        let '(s, trs) := complete_targets (prune s now) (targets lease) (lease_entries lease) in
        (s, trs, success)
  end.
End complete.
End with_range.

(** ** Status *)

Record AvailabilityStatus := {
  StatusState : string;
  StatusReason : string;
  LastSuccess : time;
  LastFailure : time;
  StatusRetryAt : time;
  ProbeDue : bool;
  ConsecutiveFailures : Z;
  StatusScope : string;
  StatusRetryAfterSeconds : option Z;
}.

(** [retryDeadlineSeconds], of internal/gateway/retry_guidance.go. *)
Definition retryDeadlineSeconds (until now : time) : Z :=
  if negb (Time.after until now) then 0
  else
    let seconds := Time.unix until - Time.unix now in
    if Time.nanosecond now <? Time.nanosecond until then seconds + 1 else seconds.

Definition availabilityStatus (entry : option availabilityEntry) (now : time) : AvailabilityStatus :=
  match entry with
  | None => {| StatusState := "unknown"; StatusReason := ""; LastSuccess := Time.zero; LastFailure := Time.zero;
               StatusRetryAt := Time.zero; ProbeDue := false; ConsecutiveFailures := 0; StatusScope := "";
               StatusRetryAfterSeconds := None |}
  | Some e =>
      let cooling := (0 <? failures e) && negb (probing e) in
      {| StatusState := state_name entry; StatusReason := reason e; LastSuccess := lastSuccess e;
         LastFailure := lastFailure e; StatusRetryAt := retryAt e;
         ProbeDue := cooling && negb (Time.before now (retryAt e));
         ConsecutiveFailures := failures e; StatusScope := "";
         StatusRetryAfterSeconds :=
           if cooling then Some (if Time.after (retryAt e) now then retryDeadlineSeconds (retryAt e) now else 0)
           else None |}
  end.

Definition availabilityStatusEligible (status : AvailabilityStatus) : bool :=
  negb (String.eqb (StatusState status) "unavailable") && negb (String.eqb (StatusState status) "probing") &&
  (negb (String.eqb (StatusState status) "cooling") || ProbeDue status).
