(* ===== verification/AvailabilityFacts.v ===== *)
(** * Upstream health: what [internal/gateway/availability.go] guarantees

    The configurations the state machine of Availability.v reaches under any
    interleaving of requests and configuration reloads, the invariant they
    satisfy, and the properties of the recovery claim. *)

From S2P Require Import Prelude GoStrings GoFloat Diagnostics Errors Availability.

(** ** Single operations *)

Lemma prune_fields s now :
  epoch (prune s now) = epoch s /\ generations (prune s now) = generations s /\ heap (prune s now) = heap s /\
  leases (prune s now) = leases s /\ next_entry (prune s now) = next_entry s /\
  next_lease (prune s now) = next_lease s.
Proof. unfold prune. by destruct (Time.before _ _). Qed.

Lemma prune_entries s now t p :
  entries (prune s now) !! t = Some p -> entries s !! t = Some p.
Proof.
  unfold prune. destruct (Time.before _ _); [done|]. cbn.
  intros H. by apply map_lookup_filter_Some in H as [H _].
Qed.

Lemma prune_keeps_probing s now t p e :
  entries s !! t = Some p -> heap s !! p = Some e -> probing e = true -> entries (prune s now) !! t = Some p.
Proof.
  intros Ht Hp He. unfold prune. destruct (Time.before _ _); [done|]. cbn.
  apply map_lookup_filter_Some. split; [done|]. unfold stale. cbn. by rewrite Hp, He.
Qed.

(** The claim of one entry by lease [l]. *)
Definition claim_entry (l : nat) (e : availabilityEntry) : availabilityEntry :=
  if (0 <? failures e) && negb (probing e) then e <| probing := true |> <| owner := Some l |> else e.

Lemma claim_entry_idemp l e : claim_entry l (claim_entry l e) = claim_entry l e.
Proof.
  unfold claim_entry at 2 3. destruct ((0 <? failures e) && negb (probing e)) eqn:H;
    unfold claim_entry; cbn; [by rewrite andb_false_r|by rewrite H].
Qed.

(** What a lease with targets [ts] finds in the map. *)
Definition found (s : availabilityState) (ts : list availabilityTarget) : list (option nat) :=
  (fun t => entries s !! t) <$> ts.

(** [claim] changes the heap only, and there only the entries of its targets. *)
Lemma claim_spec s l ts :
  (forall t p, entries s !! t = Some p -> is_Some (heap s !! p)) ->
  let '(s', held, _) := claim s l ts in
  held = found s ts /\ s' = s <| heap := heap s' |> /\
  forall p, heap s' !! p = if decide (Some p ∈ found s ts)
                           then claim_entry l <$> heap s !! p else heap s !! p.
Proof.
  revert s. induction ts as [|t ts IH]; intros s Halloc; cbn [claim].
  - split; [done|]. split; [by destruct s|]. intros p. by rewrite decide_False by apply not_elem_of_nil.
  - set (s1 := match _, _ with Some _, Some _ => _ | _, _ => _ end).
    assert (H1 : exists s1' trs, s1 = (s1', trs) /\ s1' = s <| heap := heap s1' |> /\
      forall p, heap s1' !! p = if decide (entries s !! t = Some p) then claim_entry l <$> heap s !! p else heap s !! p).
    { subst s1. unfold entry_at. destruct (entries s !! t) as [p|] eqn:Hp; cbn.
      - destruct (Halloc t p Hp) as [e He]. rewrite He.
        destruct ((0 <? failures e) && negb (probing e)) eqn:Hc.
        + eexists _, _; split; [done|]; split; [done|]. intros q. unfold store. cbn. case_decide as Hq; simplify_eq.
          * rewrite lookup_insert_eq, He. cbn. unfold claim_entry. by rewrite Hc.
          * rewrite lookup_insert_ne; [done|congruence].
        + eexists s, _; split; [done|]; split; [by destruct s|]. intros q. case_decide as Hq; simplify_eq; [|done].
          rewrite He. cbn. unfold claim_entry. by rewrite Hc.
      - eexists s, _; split; [done|]; split; [by destruct s|]. intros q. by rewrite decide_False. }
    destruct H1 as (s1' & trs0 & -> & Hs1 & Hh1).
    assert (He1 : entries s1' = entries s) by (by rewrite Hs1).
    specialize (IH s1'). destruct (claim s1' l ts) as [[s' held] trs'].
    destruct IH as (-> & Hs' & Hh').
    { rewrite He1. intros u p Hu. rewrite Hh1. destruct (Halloc u p Hu) as [e ->]. case_decide; cbn; eauto. }
    assert (Hf : found s1' ts = found s ts) by (unfold found; by rewrite He1).
    rewrite Hf, He1 in *. split; [done|]. split; [rewrite Hs', Hs1; by destruct s|].
    intros p. rewrite Hh', Hh1. unfold found at 2. cbn. fold (found s ts).
    destruct (decide (entries s !! t = Some p)) as [Htp|Htp]; cbn.
    + rewrite (decide_True (P := Some p ∈ _ :: _)) by (rewrite Htp; left).
      case_decide; [|done]. destruct (heap s !! p); cbn; [by rewrite claim_entry_idemp|done].
    + destruct (decide (Some p ∈ found s ts)).
      * by rewrite decide_True by (by right).
      * rewrite decide_False; [done|]. by intros [?|?]%elem_of_cons.
Qed.

Lemma blocked_by_none s now held ts i t e :
  blocked_by s now held ts = None -> ts !! i = Some t -> entry_at s t = Some e -> 0 < failures e ->
  (probing e = true /\ entries s !! t = mjoin (held !! i)) \/ eligible (Some e) now = true.
Proof.
  revert held i. induction ts as [|u ts IH]; intros held [|i]; cbn [blocked_by lookup list_lookup]; intros Hb Hi He Hf; try done.
  - simplify_eq. rewrite He, (proj2 (Z.ltb_lt 0 _) Hf) in Hb.
    destruct (eligible (Some e) now) eqn:Hel; [by right|]. left. rewrite andb_true_l, andb_true_r in Hb.
    destruct (probing e && _) eqn:Hm in Hb; [|done]. apply andb_true_iff in Hm as [Hp Hm].
    apply bool_decide_eq_true in Hm. split; [done|]. rewrite Hm. by destruct held.
  - assert (Hb' : blocked_by s now (tail held) ts = None).
    { destruct (entry_at s u); [|done]. by destruct (_ && _ && _). }
    destruct (IH (tail held) i Hb' Hi He Hf) as [[? ?]|]; [left|by right].
    split; [done|]. by destruct held, i.
Qed.

(** ** The invariant

    [G l t]: lease [l] is in flight and target [t] of it is not completed yet;
    [A]: the leases that may own an entry. *)

Section invariant.
Context (G : nat -> availabilityTarget -> Prop) (A : gset nat).

Record inv (s : availabilityState) : Prop := {
  inv_alloc : forall t p, entries s !! t = Some p -> is_Some (heap s !! p);
  inv_heap : forall p, is_Some (heap s !! p) -> (p < next_entry s)%nat;
  inv_inj : forall t u p, entries s !! t = Some p -> entries s !! u = Some p -> t = u;
  inv_gen : forall t p, entries s !! t = Some p -> generations s !! provider t = Some (generation t);
  inv_size : (size (entries s) <= Z.to_nat availabilityLimit)%nat;
  inv_fresh : forall l, is_Some (leases s !! l) -> (l < next_lease s)%nat;
  inv_lease : forall l le, leases s !! l = Some le ->
    NoDup (targets le) /\ length (lease_entries le) = length (targets le) /\
    forall t u, t ∈ targets le -> u ∈ targets le -> provider t = provider u /\ generation t = generation u;
  inv_held : forall l le i p, leases s !! l = Some le -> lease_entries le !! i = Some (Some p) -> (p < next_entry s)%nat;
  inv_claim : forall t p e, entries s !! t = Some p -> heap s !! p = Some e -> probing e = true ->
    0 < failures e /\
    exists l le i, owner e = Some l /\ l ∈ A /\ leases s !! l = Some le /\ lease_epoch le <= epoch s /\
      targets le !! i = Some t /\ (lease_epoch le = epoch s -> lease_entries le !! i = Some (Some p));
  inv_idle : forall t p e, entries s !! t = Some p -> heap s !! p = Some e -> probing e = false -> owner e = None;
  inv_owned : forall l le i t p e, G l t -> leases s !! l = Some le -> lease_epoch le = epoch s ->
    targets le !! i = Some t -> lease_entries le !! i = Some (Some p) ->
    entries s !! t = Some p -> heap s !! p = Some e -> 0 < failures e ->
    probing e = true /\ owner e = Some l;
}.

(** Removing entries keeps the invariant. *)
Lemma inv_subset s s' :
  inv s -> entries s' ⊆ entries s -> epoch s' = epoch s -> generations s' = generations s ->
  heap s' = heap s -> leases s' = leases s -> next_entry s' = next_entry s -> next_lease s' = next_lease s -> inv s'.
Proof.
  intros H Hsub He Hg Hh Hl Hn Hnl.
  assert (Hin : forall t p, entries s' !! t = Some p -> entries s !! t = Some p)
    by (intros t p; apply lookup_weaken, Hsub || (intros; by eapply lookup_weaken)).
  destruct H. split; rewrite ?He, ?Hg, ?Hh, ?Hl, ?Hn, ?Hnl; eauto.
  etransitivity; [|exact inv_size0].
  rewrite <- !size_dom. by apply subseteq_size, subseteq_dom.
Qed.

Lemma inv_prune s now : inv s -> inv (prune s now).
Proof.
  intros H. destruct (prune_fields s now) as (? & ? & ? & ? & ? & ?).
  apply (inv_subset s); try done. apply map_subseteq_spec. intros t p. apply prune_entries.
Qed.

Lemma inv_delete s t : inv s -> inv (s <| entries := delete t (entries s) |>).
Proof. intros H. apply (inv_subset s); try done. apply delete_subseteq. Qed.

(** A new entry that nobody probes. *)
Lemma inv_insert s t e :
  inv s -> probing e = false -> owner e = None -> generations s !! provider t = Some (generation t) ->
  (size (<[t := next_entry s]> (entries s)) <= Z.to_nat availabilityLimit)%nat ->
  inv (set_entry (fst (alloc s e)) t (next_entry s)).
Proof.
  intros H Hp Ho Hg Hsz.
  assert (Hnew : heap s !! next_entry s = None).
  { destruct (heap s !! next_entry s) eqn:E; [|done]. pose proof (inv_heap s H _ (mk_is_Some _ _ E)). lia. }
  assert (Hne : forall p, is_Some (heap s !! p) -> next_entry s <> p)
    by (intros p Hp' <-; rewrite Hnew in Hp'; by destruct Hp').
  assert (Hold : forall u p, entries s !! u = Some p -> next_entry s <> p)
    by (intros u p Hu; apply Hne; by eapply inv_alloc).
  unfold alloc, set_entry. split; cbn.
  - intros u p. rewrite lookup_insert_Some. intros [[<- <-]|[? Hu]]; [by rewrite lookup_insert_eq; eauto|].
    rewrite lookup_insert_ne by eauto. by eapply inv_alloc.
  - intros p. rewrite lookup_insert_is_Some. intros [<-|[? Hs]]; [lia|]. pose proof (inv_heap s H _ Hs). lia.
  - intros u v p. rewrite !lookup_insert_Some.
    intros [[<- <-]|[? Hu]] [[<- Hv]|[? Hv]]; try done; [by destruct (Hold v _ Hv)|by subst; destruct (Hold u _ Hu)|].
    by eapply inv_inj.
  - intros u p. rewrite lookup_insert_Some. intros [[<- <-]|[? Hu]]; [done|by eapply inv_gen].
  - done.
  - apply H.
  - apply H.
  - intros l le i p H1 H2. pose proof (inv_held s H _ _ _ _ H1 H2). lia.
  - intros u p e'. rewrite lookup_insert_Some. intros [[<- <-]|[? Hu]].
    + rewrite lookup_insert_eq. intros [= <-]. congruence.
    + rewrite lookup_insert_ne by eauto. by apply inv_claim.
  - intros u p e'. rewrite lookup_insert_Some. intros [[<- <-]|[? Hu]].
    + rewrite lookup_insert_eq. by intros [= <-].
    + rewrite lookup_insert_ne by eauto. by eapply inv_idle.
  - intros l le i u p e' Hgl Hl Hep Hi Hh. rewrite lookup_insert_Some. intros [[<- <-]|[? Hu]].
    + pose proof (inv_held s H _ _ _ _ Hl Hh). lia.
    + rewrite lookup_insert_ne by eauto. by eapply inv_owned.
Qed.

(** [put] of a new entry. *)
Context {Range : MapRange availabilityTarget nat}.

Lemma evict_candidate_elem s victim :
  evict_candidate s = Some victim ->
  exists p e, entries s !! victim = Some p /\ heap s !! p = Some e /\ probing e = false.
Proof.
  unfold evict_candidate. intros Hv.
  assert (Hall : forall kv, kv ∈ range (entries s) -> entries s !! kv.1 = Some kv.2)
    by (intros [k v]; apply elem_of_range).
  assert (Hacc : forall a : availabilityTarget * Z, @None (availabilityTarget * Z) = Some a ->
    exists p e, entries s !! a.1 = Some p /\ heap s !! p = Some e /\ probing e = false) by done.
  revert Hv Hall Hacc. generalize (range (entries s)), (@None (availabilityTarget * Z)).
  intros l. induction l as [|[k v] l IH]; intros acc Hv Hall Hacc; cbn in *.
  - destruct acc as [a|]; [|done]. cbn in Hv. simplify_eq. by apply Hacc.
  - eapply IH; [exact Hv|intros kv Hkv; apply Hall; by right|].
    intros a. unfold evict_step. cbn. destruct (heap s !! v) as [e|] eqn:He; [|apply Hacc].
    destruct (probing e) eqn:Hp; cbn; [apply Hacc|]. case_match; [|apply Hacc].
    intros [= <-]. cbn. exists v, e. split; [|done]. apply (Hall (k, v)). left.
Qed.

Lemma inv_put s t e :
  inv s -> probing e = false -> owner e = None -> generations s !! provider t = Some (generation t) ->
  inv (fst (put (fst (alloc s e)) t (next_entry s))).
Proof.
  intros Hi Hp Ho Hg. unfold put. change (entries (alloc s e).1) with (entries s).
  assert (Hbig : forall m : gmap availabilityTarget nat, (S (size m) <= Z.to_nat availabilityLimit)%nat ->
    (size (<[t := next_entry s]> m) <= Z.to_nat availabilityLimit)%nat).
  { intros m Hm. destruct (m !! t) eqn:E.
    - rewrite map_size_insert_Some by eauto. lia.
    - by rewrite map_size_insert_None. }
  destruct (entries s !! t) as [p|] eqn:Ht.
  - apply inv_insert; try done. rewrite map_size_insert_Some by eauto. apply Hi.
  - destruct (Z.leb_spec availabilityLimit (Z.of_nat (size (entries s)))) as [Hfull|Hroom].
    + destruct (evict_candidate _) as [victim|] eqn:Hv.
      * apply evict_candidate_elem in Hv as (p & e' & Hpv & _). cbn in Hpv.
        pose proof (inv_delete s victim Hi) as Hd.
        apply (inv_insert _ t e Hd); try done. apply Hbig. cbn.
        rewrite map_size_delete_Some by eauto. pose proof (inv_size s Hi).
        assert (size (entries s) <> 0)%nat by (apply map_size_non_empty_iff; intros E; by rewrite E in Hpv). lia.
      * cbn. (* refused: only the unreachable new entry remains *)
        destruct Hi. split; cbn; try done.
        -- intros u p Hu. rewrite lookup_insert_is_Some. destruct (decide (next_entry s = p)); eauto.
        -- intros p. rewrite lookup_insert_is_Some. intros [<-|[? Hs]]; [lia|]. pose proof (inv_heap0 _ Hs). lia.
        -- intros l le i p H1 H2. pose proof (inv_held0 _ _ _ _ H1 H2). lia.
        -- intros u p e' Hu. rewrite lookup_insert_ne; [by apply inv_claim0|].
           intros <-. pose proof (inv_heap0 _ (inv_alloc0 _ _ Hu)). lia.
        -- intros u p e' Hu. rewrite lookup_insert_ne; [by eapply inv_idle0|].
           intros <-. pose proof (inv_heap0 _ (inv_alloc0 _ _ Hu)). lia.
        -- intros l le i u p e' ? ? ? ? ? Hu. rewrite lookup_insert_ne; [by eapply inv_owned0|].
           intros <-. pose proof (inv_heap0 _ (inv_alloc0 _ _ Hu)). lia.
    + apply inv_insert; try done. apply Hbig. lia.
Qed.
End invariant.

Lemma inv_weaken (G G' : nat -> availabilityTarget -> Prop) (A A' : gset nat) s :
  inv G A s -> (forall l t, G' l t -> G l t) -> A ⊆ A' -> inv G' A' s.
Proof.
  intros H HG HA. destruct H. split; eauto.
  intros t p e Ht Hp He. destruct (inv_claim0 t p e Ht Hp He) as (? & l & le & i & ? & ? & ?).
  split; [done|]. exists l, le, i. split; [done|]. split; [by apply HA|done].
Qed.

(** No entry of the map at [t] is owned by [l]. *)
Definition not_owned (s : availabilityState) (l : nat) (t : availabilityTarget) : Prop :=
  forall p e, entries s !! t = Some p -> heap s !! p = Some e -> owner e <> Some l.

(** A lease that owns nothing can end. *)
Lemma inv_drop_owner G A s l le :
  inv G A s -> leases s !! l = Some le -> (forall t, t ∈ targets le -> not_owned s l t) ->
  inv G (A ∖ {[l]}) s.
Proof.
  intros H Hl Hno. destruct H. split; eauto.
  intros t p e Ht Hp He. destruct (inv_claim0 t p e Ht Hp He) as (? & l' & le' & i & Ho & HA & Hl' & ? & Hi & ?).
  split; [done|]. exists l', le', i. split_and!; try done.
  apply elem_of_difference. split; [done|]. intros ->%elem_of_singleton. simplify_eq.
  by destruct (Hno t (list_elem_of_lookup_2 _ _ _ Hi) p e Ht Hp).
Qed.

Lemma owned_probing G A s l t p e :
  inv G A s -> entries s !! t = Some p -> heap s !! p = Some e -> owner e = Some l -> probing e = true.
Proof.
  intros H Ht Hp Ho. destruct (probing e) eqn:He; [done|].
  pose proof (inv_idle _ _ _ H t p e Ht Hp He). congruence.
Qed.

(** ** Admission keeps the invariant *)

Lemma lookup_found s ts i x : found s ts !! i = Some x -> exists t, ts !! i = Some t /\ entries s !! t = x.
Proof. unfold found. rewrite list_lookup_fmap. intros (t & ? & ?)%fmap_Some. eauto. Qed.

Lemma found_lookup s ts i t : ts !! i = Some t -> found s ts !! i = Some (entries s !! t).
Proof. intros H. unfold found. by rewrite list_lookup_fmap, H. Qed.

Lemma claim_entry_failures l e : failures (claim_entry l e) = failures e.
Proof. unfold claim_entry. by destruct (_ && _). Qed.

(** Either the claim left the entry as it was, or it took an idle failing one. *)
Lemma claim_entry_cases l e :
  claim_entry l e = e \/
  (0 < failures e /\ probing e = false /\ probing (claim_entry l e) = true /\ owner (claim_entry l e) = Some l).
Proof.
  unfold claim_entry. destruct ((0 <? failures e) && negb (probing e)) eqn:Hc; [right|by left].
  apply andb_true_iff in Hc as [?%Z.ltb_lt ?%negb_true_iff]. done.
Qed.

Lemma claim_entry_probing l e : 0 < failures e -> probing (claim_entry l e) = true.
Proof.
  intros Hf. unfold claim_entry. rewrite (proj2 (Z.ltb_lt 0 _) Hf).
  by destruct (probing e) eqn:Hp; cbn.
Qed.

Lemma dispatch_inv G A s l now :
  inv G A s -> l ∈ A -> (forall t, G l t) -> inv G A (fst (fst (dispatch s l now))).
Proof.
  intros Hinv HlA HGl. unfold dispatch. destruct (leases s !! l) as [le|] eqn:Hl; [|done].
  destruct (Z.eqb_spec (lease_epoch le) (epoch s)) as [Hep|]; [cbn|done].
  destruct (prune_fields s now) as (Fe & _ & _ & Fl & _).
  apply (inv_prune _ _ _ now) in Hinv. rewrite <- Fe in Hep. rewrite <- Fl in Hl.
  set (s1 := prune s now) in *. clearbody s1. clear Fe Fl s.
  destruct (blocked_by _ _ _ _) eqn:Hb; [done|].
  pose proof (claim_spec s1 l (targets le) (inv_alloc _ _ _ Hinv)) as Hc.
  destruct (claim s1 l (targets le)) as [[s2 held] trs]. destruct Hc as (-> & Hs2 & Hh2). cbn.
  rewrite Hs2. clear Hs2. set (h2 := heap s2) in *. clearbody h2. clear s2.
  destruct (inv_lease _ _ _ Hinv l le Hl) as (Hnd & Hlen & Hsame).
  (* each heap value after the claim *)
  assert (Hback : forall p e2, h2 !! p = Some e2 -> exists e, heap s1 !! p = Some e /\
      (e2 = e \/ (e2 = claim_entry l e /\ Some p ∈ found s1 (targets le) /\ 0 < failures e /\ probing e = false))).
  { intros p e2. rewrite Hh2. case_decide as Hin; [|eauto].
    intros (e & He & ->)%fmap_Some. exists e. split; [done|].
    destruct (claim_entry_cases l e) as [->|(? & ? & _)]; eauto. }
  assert (Hfound : forall p t, Some p ∈ found s1 (targets le) -> entries s1 !! t = Some p ->
      exists i, targets le !! i = Some t).
  { intros p t (i & Hi)%list_elem_of_lookup Ht. apply lookup_found in Hi as (u & Hu & Hup).
    exists i. by rewrite (inv_inj _ _ _ Hinv t u p Ht Hup). }
  destruct Hinv. split; cbn; try done.
  - intros t p Ht. destruct (inv_alloc0 t p Ht) as [e He]. rewrite Hh2, He. case_decide; cbn; eauto.
  - intros p [e2 He2]. destruct (Hback p e2 He2) as (e & He & _). eauto.
  - intros l'. rewrite lookup_insert_is_Some. intros [<-|[? ?]]; eauto.
  - intros l' le'. rewrite lookup_insert_Some. intros [[<- <-]|[? Hl']]; [|by eapply inv_lease0].
    cbn. unfold found. by rewrite length_fmap.
  - intros l' le' i p. rewrite lookup_insert_Some. intros [[<- <-]|[? Hl']]; [|by eapply inv_held0].
    cbn. intros (t & _ & Ht)%lookup_found. eauto.
  - intros t p e2 Ht He2 Hp2. destruct (Hback p e2 He2) as (e & He & [->|(-> & Hin & Hf & Hnp)]).
    + destruct (inv_claim0 t p e Ht He Hp2) as (? & l' & le' & i & ? & ? & Hl' & ? & Hi & Hent).
      split; [done|]. destruct (decide (l' = l)) as [->|Hne].
      * simplify_eq. exists l, (le <| lease_entries := found s1 (targets le) |>), i.
        rewrite lookup_insert_eq. split_and!; try done. intros _. cbn. by rewrite (found_lookup _ _ _ _ Hi), Ht.
      * exists l', le', i. rewrite lookup_insert_ne by congruence. done.
    + destruct (Hfound p t Hin Ht) as [i Hi]. rewrite claim_entry_failures. split; [done|].
      exists l, (le <| lease_entries := found s1 (targets le) |>), i. rewrite lookup_insert_eq.
      destruct (claim_entry_cases l e) as [Heq|(_ & _ & _ & ?)]; [congruence|].
      split_and!; try done; [cbn; lia|]. intros _. cbn. by rewrite (found_lookup _ _ _ _ Hi), Ht.
  - intros t p e2 Ht He2 Hp2. destruct (Hback p e2 He2) as (e & He & [->|(-> & _ & Hf & _)]); [eauto|].
    by rewrite claim_entry_probing in Hp2.
  - intros l' le' i t p e2 HG. rewrite lookup_insert_Some. intros [[<- <-]|[Hne Hl']] Hep' Hi Hh Ht He2 Hf.
    + destruct (Hback p e2 He2) as (e & He & [->|(-> & Hin & Hf' & Hnp)]).
      * assert (Hpe : probing e = true).
        { cbn in Hi, Hh. rewrite (Hh2 p), He in He2.
          rewrite decide_True in He2 by (eapply list_elem_of_lookup_2, Hh). cbn in He2.
          assert (He2' : claim_entry l e = e) by congruence. rewrite <- He2'. by apply claim_entry_probing. }
        split; [done|]. cbn in Hi.
        destruct (blocked_by_none s1 now _ _ i t e Hb Hi) as [[_ Hold]|Hel]; [|done| |].
        -- unfold entry_at. by rewrite Ht.
        -- assert (Hold' : lease_entries le !! i = Some (Some p)).
           { rewrite Ht in Hold. destruct (lease_entries le !! i) as [[q|]|]; cbn in Hold; congruence. }
           by destruct (inv_owned0 l le i t p e (HGl t) Hl Hep Hi Hold' Ht He Hf).
        -- cbn in Hel. rewrite Hpe in Hel. cbn in Hel. apply orb_true_iff in Hel as [Hz|]; [|done].
           apply Z.eqb_eq in Hz. lia.
      * destruct (claim_entry_cases l e) as [Heq|(_ & _ & ? & ?)]; [|done].
        pose proof (claim_entry_probing l e Hf'). congruence.
    + destruct (Hback p e2 He2) as (e & He & [->|(-> & Hin & Hf' & Hnp)]); [by eapply inv_owned0|].
      destruct (inv_owned0 l' le' i t p e HG Hl' Hep' Hi Hh Ht He Hf') as [? _]. congruence.
Qed.

Lemma lease_targets_NoDup p m g : NoDup (lease_targets p m g).
Proof.
  unfold lease_targets, safeAvailabilityModel. destruct (String.eqb_spec m ""); cbn; [apply NoDup_singleton|].
  destruct (_ <? _); [apply NoDup_singleton|]. destruct (Strings.all _ _); [|apply NoDup_singleton].
  apply NoDup_cons. split; [|apply NoDup_singleton]. by intros [= ?]%list_elem_of_singleton.
Qed.

Lemma lease_targets_same p m g t : t ∈ lease_targets p m g -> provider t = p /\ generation t = g.
Proof.
  unfold lease_targets. intros [->|Ht]%elem_of_cons; [done|].
  destruct (safeAvailabilityModel m); [|by apply not_elem_of_nil in Ht]. by apply list_elem_of_singleton in Ht as ->.
Qed.

(** [begin] before its dispatch: the new lease holds nothing. *)
Definition with_lease (s : availabilityState) (ep : Z) (p m : string) (g : Z) : availabilityState :=
  s <| leases := <[next_lease s := {| lease_epoch := ep; targets := lease_targets p m g;
         lease_entries := (fun _ => None) <$> lease_targets p m g |}]> (leases s) |>
    <| next_lease := S (next_lease s) |>.

Lemma begin_dispatch s ep p m g now :
  begin s ep p m g now =
    let '(s', err, trs) := dispatch (with_lease s ep p m g) (next_lease s) now in (s', next_lease s, err, trs).
Proof. done. Qed.

Lemma with_lease_inv (G G' : nat -> availabilityTarget -> Prop) (A : gset nat) s ep p m g :
  inv G A s -> (forall l t, G' l t -> G l t \/ l = next_lease s) -> inv G' A (with_lease s ep p m g).
Proof.
  intros H HG. assert (Hnew : leases s !! next_lease s = None).
  { destruct (leases s !! next_lease s) eqn:E; [|done]. pose proof (inv_fresh _ _ _ H _ (mk_is_Some _ _ E)). lia. }
  destruct H. unfold with_lease. split; cbn -[lease_targets]; try done.
  - intros l. rewrite lookup_insert_is_Some. intros [<-|[? ?]]; [lia|]. assert (l < next_lease s)%nat by eauto. lia.
  - intros l le. rewrite lookup_insert_Some. intros [[<- <-]|[? Hl]]; [|by eapply inv_lease0]. cbn -[lease_targets].
    split; [apply lease_targets_NoDup|]. split; [apply length_fmap|].
    intros t u [-> ->]%lease_targets_same [-> ->]%lease_targets_same. done.
  - intros l le i q. rewrite lookup_insert_Some. intros [[<- <-]|[? Hl]]; [|by eapply inv_held0].
    cbn -[lease_targets]. rewrite list_lookup_fmap. by destruct (lease_targets p m g !! i).
  - intros t q e Ht Hq Hp. destruct (inv_claim0 t q e Ht Hq Hp) as (? & l & le & i & ? & ? & Hl & ?).
    split; [done|]. exists l, le, i. rewrite lookup_insert_ne; [done|congruence].
  - intros l le i t q e HG'. rewrite lookup_insert_Some. intros [[<- <-]|[? Hl]] Hep Hi Hh.
    + cbn -[lease_targets] in Hh. rewrite list_lookup_fmap in Hh. by destruct (lease_targets p m g !! i).
    + destruct (HG _ _ HG') as [HG''|?]; [|congruence]. by eapply inv_owned0.
Qed.

(** A refused dispatch only sweeps. *)
Lemma dispatch_refused s l now s' err trs :
  dispatch s l now = (s', Some err, trs) -> s' = prune s now.
Proof.
  unfold dispatch. destruct (leases s !! l); [|done]. destruct (_ =? _); [cbn|done].
  destruct (blocked_by _ _ _ _); [by intros [= <- _ _]|]. by destruct (claim _ _ _) as [[? ?] ?].
Qed.

(** ** Completion keeps the invariant *)

Lemma not_owned_mono s s' l u :
  not_owned s l u ->
  (forall p, entries s' !! u = Some p -> entries s !! u = Some p /\ heap s' !! p = heap s !! p) ->
  not_owned s' l u.
Proof. intros Hno Hsub p e Hp He. destruct (Hsub p Hp) as [? Hh]. apply (Hno p e); congruence. Qed.

(** Releasing an entry in place. *)
Lemma inv_store_release (G G' : nat -> availabilityTarget -> Prop) A s l t p e :
  inv G A s -> entries s !! t = Some p -> heap s !! p = Some e ->
  (forall l' u, G' l' u -> G l' u /\ ~ (l' = l /\ u = t)) -> owner e = Some l ->
  inv G' A (store s p (release e)).
Proof.
  intros H Ht Hp HG Ho. destruct H. unfold store. split; cbn; try done.
  - intros u q Hu. rewrite lookup_insert_is_Some. destruct (decide (p = q)); eauto.
  - intros q. rewrite lookup_insert_is_Some. intros [<-|[_ ?]]; eauto.
  - intros u q e' Hu. rewrite lookup_insert_Some. intros [[<- <-]|[? Hq]] Hpr; [done|].
    by eapply inv_claim0.
  - intros u q e' Hu. rewrite lookup_insert_Some. intros [[<- <-]|[? Hq]] Hpr; [done|].
    by eapply inv_idle0.
  - intros l' le i u q e' HG'. destruct (HG _ _ HG') as [HGo Hne]. intros Hl Hep Hi Hh Hu.
    rewrite lookup_insert_Some. intros [[<- <-]|[? Hq]] Hf; [|by eapply inv_owned0].
    pose proof (inv_inj0 _ _ _ Hu Ht) as ->.
    destruct (inv_owned0 l' le i t p e HGo Hl Hep Hi Hh Ht Hp Hf) as [_ Ho'].
    exfalso. apply Hne. split; [congruence|done].
Qed.

(** Entries owned by the completing lease at a target it holds another
    pointer for do not exist. *)
Lemma elsewhere_not_owned G A s l le i t previous :
  inv G A s -> leases s !! l = Some le -> lease_epoch le = epoch s ->
  targets le !! i = Some t -> lease_entries le !! i = Some previous -> entries s !! t <> previous ->
  not_owned s l t.
Proof.
  intros H Hl Hep Hi Hh Hne p e Ht Hp Ho.
  pose proof (owned_probing _ _ _ _ _ _ _ H Ht Hp Ho) as Hpr.
  destruct (inv_claim _ _ _ H t p e Ht Hp Hpr) as (_ & l' & le' & j & Ho' & _ & Hl' & _ & Hj & Hent).
  simplify_eq. destruct (inv_lease _ _ _ H _ _ Hl) as (Hnd & _ & _).
  pose proof (NoDup_lookup _ _ _ _ Hnd Hi Hj) as ->. specialize (Hent Hep). congruence.
Qed.

Section completion.
Context {Range : MapRange availabilityTarget nat}.

Lemma put_spec s t q :
  let '(s', ok) := put s t q in
  s' = s <| entries := entries s' |> /\
  (forall u p, u <> t -> entries s' !! u = Some p -> entries s !! u = Some p) /\
  if ok then entries s' !! t = Some q else s' = s /\ entries s !! t = None.
Proof.
  unfold put. destruct (entries s !! t) as [p|] eqn:Ht; cbn.
  - split; [done|]. split; [|by rewrite lookup_insert_eq]. intros u p' ?. by rewrite lookup_insert_ne.
  - destruct (_ <=? _); [destruct (evict_candidate s)|]; cbn.
    + split; [done|]. split; [|by rewrite lookup_insert_eq].
      intros u p' ?. rewrite lookup_insert_ne by done. by intros [_ ?]%lookup_delete_Some.
    + by destruct s.
    + split; [done|]. split; [|by rewrite lookup_insert_eq]. intros u p' ?. by rewrite lookup_insert_ne.
Qed.

Lemma next_entry_value_idle handled err ctxErr now jitter prev t :
  probing (next_entry_value handled err ctxErr now jitter prev t) = false /\
  owner (next_entry_value handled err ctxErr now jitter prev t) = None.
Proof.
  unfold next_entry_value. destruct prev; cbn; repeat (case_match; cbn); done.
Qed.

Context (handled : bool) (err : option go_error) (ctxErr : bool) (now : Z)
  (jitter : availabilityTarget -> Z -> Z).

(** One iteration releases the lease's claim on its target and touches no other. *)
Lemma complete_target_inv G A s l le i t previous :
  inv G A s -> leases s !! l = Some le -> lease_epoch le = epoch s ->
  targets le !! i = Some t -> lease_entries le !! i = Some previous -> G l t ->
  generations s !! provider t = Some (generation t) ->
  let s' := fst (complete_target handled err ctxErr now jitter s t previous) in
  inv (fun l' u => G l' u /\ ~ (l' = l /\ u = t)) A s' /\
  leases s' = leases s /\ epoch s' = epoch s /\ generations s' = generations s /\
  not_owned s' l t /\ forall u, u <> t -> not_owned s l u -> not_owned s' l u.
Proof.
  intros H Hl Hep Hi Hh HG Hgen. unfold complete_target.
  assert (Hw : inv (fun l' u => G l' u /\ ~ (l' = l /\ u = t)) A s) by (eapply inv_weaken; [done|naive_solver|done]).
  destruct (bool_decide_reflect (entries s !! t = previous)) as [Heq|Hne]; cbn.
  2:{ split_and!; try done. by eapply elsewhere_not_owned. }
  destruct (negb (success handled err ctxErr) && negb (confirmed _ _ _ _ _)) eqn:Hcase.
  - destruct previous as [p|]; cbn.
    2:{ split_and!; try done. intros p e Hp. congruence. }
    destruct (heap s !! p) as [e|] eqn:Hp; cbn.
    2:{ split_and!; try done. intros q e Hq ?. congruence. }
    destruct (probing e) eqn:Hpr; cbn.
    + destruct (inv_claim _ _ _ H t p e Heq Hp Hpr) as (Hf & _).
      destruct (inv_owned _ _ _ H l le i t p e HG Hl Hep Hi Hh Heq Hp Hf) as [_ Ho].
      split_and!; try done.
      * by eapply (inv_store_release G).
      * intros q e' Hq. cbn in Hq. unfold store. cbn. assert (q = p) as -> by congruence.
        rewrite lookup_insert_eq. by intros [= <-].
      * intros u Hu Hno. eapply not_owned_mono; [done|]. intros q Hq. split; [done|]. cbn.
        apply lookup_insert_ne. intros <-. by destruct Hu; eapply inv_inj.
    + split_and!; try done. intros q e' Hq Hq' Ho. assert (q = p) as -> by congruence. 
      pose proof (inv_idle _ _ _ H t p e Heq Hp Hpr). congruence.
  - set (next := next_entry_value _ _ _ _ _ _ _).
    destruct (next_entry_value_idle handled err ctxErr now jitter (deref s previous) t) as [Hn1 Hn2].
    fold next in Hn1, Hn2. clearbody next.
    pose proof (inv_put _ _ s t next Hw Hn1 Hn2 Hgen) as Hput.
    pose proof (put_spec (fst (alloc s next)) t (next_entry s)) as Hspec.
    set (s0 := s <| heap := <[next_entry s := next]> (heap s) |> <| next_entry := S (next_entry s) |>) in *.
    change (fst (alloc s next)) with s0 in Hput, Hspec.
    destruct (put s0 t (next_entry s)) as [s' ok]. cbn in Hput |- *.
    destruct Hspec as (Hs' & Hother & Hok).
    assert (Hheap : heap s' = <[next_entry s := next]> (heap s)) by (by rewrite Hs').
    split_and!; try done; try (by rewrite Hs').
    + intros p e Hp He Ho. destruct ok.
      * rewrite Hok in Hp. injection Hp as <-. rewrite Hheap, lookup_insert_eq in He. congruence.
      * destruct Hok as [-> Hnone]. cbn in *. congruence.
    + intros u Hu Hno. eapply not_owned_mono; [done|]. intros p Hp.
      specialize (Hother u p Hu Hp). cbn in Hother. split; [done|]. rewrite Hheap. apply lookup_insert_ne.
      intros <-. pose proof (inv_heap _ _ _ H _ (inv_alloc _ _ _ H _ _ Hother)). lia.
Qed.

Lemma complete_targets_inv G A l le ts held : forall s i,
  inv G A s -> leases s !! l = Some le -> lease_epoch le = epoch s ->
  targets le = take i (targets le) ++ ts -> lease_entries le = take i (lease_entries le) ++ held ->
  length ts = length held -> i = length (take i (targets le)) -> i = length (take i (lease_entries le)) ->
  (forall t, G l t \/ t ∈ take i (targets le)) ->
  (forall t, t ∈ ts -> generations s !! provider t = Some (generation t)) ->
  (forall t, t ∈ take i (targets le) -> not_owned s l t) ->
  exists G', (forall l' t, l' <> l -> G l' t -> G' l' t) /\
  let s' := fst (complete_targets handled err ctxErr now jitter s ts held) in
  inv G' A s' /\ leases s' = leases s /\ forall t, t ∈ targets le -> not_owned s' l t.
Proof.
  revert G held. induction ts as [|t ts IH]; intros G held s i Hinv Hl Hep Hts Hhs Hlen Hi1 Hi2 HG Hgen Hno.
  - exists G. split; [done|]. cbn. split_and!; try done. rewrite Hts, app_nil_r. done.
  - destruct held as [|previous held]; [done|]. cbn [complete_targets].
    assert (Ht : targets le !! i = Some t).
    { rewrite Hts, lookup_app_r by lia. rewrite <- Hi1, Nat.sub_diag. done. }
    assert (Hh : lease_entries le !! i = Some previous).
    { rewrite Hhs, lookup_app_r by lia. rewrite <- Hi2, Nat.sub_diag. done. }
    assert (Htake : take (S i) (targets le) = take i (targets le) ++ [t]) by (by apply take_S_r).
    assert (Htake' : take (S i) (lease_entries le) = take i (lease_entries le) ++ [previous]) by (by apply take_S_r).
    assert (Hfresh : t ∉ take i (targets le)).
    { destruct (inv_lease _ _ _ Hinv _ _ Hl) as (Hnd & _). rewrite Hts in Hnd.
      apply NoDup_app in Hnd as (_ & Hd & _). intros Hin. apply (Hd t Hin). left. }
    destruct (HG t) as [HGt|]; [|done].
    pose proof (complete_target_inv G A s l le i t previous Hinv Hl Hep Ht Hh HGt (Hgen t (list_elem_of_here _ _))) as Hone.
    destruct (complete_target _ _ _ _ _ s t previous) as [s1 trs]. cbn in Hone.
    destruct Hone as (Hinv1 & Hl1 & He1 & Hg1 & Hno1 & Hkeep).
    destruct (IH _ held s1 (S i) Hinv1) as (G' & HG' & Hrest).
    + by rewrite Hl1.
    + by rewrite He1.
    + by rewrite Htake, <- (assoc_L (++)).
    + by rewrite Htake', <- (assoc_L (++)).
    + cbn in Hlen. lia.
    + rewrite Htake, length_app. cbn. lia.
    + rewrite Htake', length_app. cbn. lia.
    + intros u. rewrite Htake. destruct (decide (u = t)) as [->|Hu]; [right; apply elem_of_app; right; by left|].
      destruct (HG u); [left; split; [done|naive_solver]|right; apply elem_of_app; by left].
    + intros u Hu. rewrite Hg1. apply Hgen. by right.
    + intros u. rewrite Htake. intros [Hu| ->%list_elem_of_singleton]%elem_of_app; [|done].
      apply Hkeep; [by intros ->|by apply Hno].
    + exists G'. split; [intros l' u Hne HGu; apply HG'; [done|split; [done|naive_solver]]|].
      destruct (complete_targets _ _ _ _ _ s1 ts held) as [s2 trs2]. cbn in Hrest |- *. by rewrite <- Hl1.
Qed.

Lemma complete_stale_inv G A l le ts : forall s,
  inv G A s -> leases s !! l = Some le -> (forall t, t ∈ targets le -> t ∈ ts \/ not_owned s l t) ->
  let s' := fst (complete_stale s l ts) in
  inv G A s' /\ leases s' = leases s /\ forall t, t ∈ targets le -> not_owned s' l t.
Proof.
  induction ts as [|t ts IH]; intros s Hinv Hl Hno; cbn [complete_stale].
  - split_and!; try done. intros t Ht. destruct (Hno t Ht) as [Hin|]; [by apply not_elem_of_nil in Hin|done].
  - set (s1 := match entry_at s t with Some _ => _ | None => _ end).
    assert (H1 : inv G A (fst s1) /\ leases (fst s1) = leases s /\ not_owned (fst s1) l t /\
      forall u, not_owned s l u -> not_owned (fst s1) l u).
    { subst s1. unfold entry_at. destruct (entries s !! t) as [p|] eqn:Ht; cbn.
      2:{ split_and!; try done. intros p e Hp. congruence. }
      destruct (heap s !! p) as [e|] eqn:Hp; cbn.
      2:{ split_and!; try done. intros q e Hq ?. congruence. }
      case_bool_decide as Ho.
      - cbn. split_and!; try done.
        + apply (inv_insert G A s t (release e)); try done; [by eapply inv_gen|].
          rewrite map_size_insert_Some by eauto. apply Hinv.
        + intros q e'. cbn. rewrite lookup_insert_eq. intros [= <-]. rewrite lookup_insert_eq. by intros [= <-].
        + intros u Hu q e'. cbn. rewrite lookup_insert_Some. intros [[<- <-]|[? Hq]].
          * rewrite lookup_insert_eq. by intros [= <-].
          * rewrite lookup_insert_ne; [by apply Hu|]. intros <-.
            pose proof (inv_heap _ _ _ Hinv _ (inv_alloc _ _ _ Hinv _ _ Hq)). lia.
      - split_and!; try done. intros q e'. cbn. intros Hq He'. assert (q = p) as -> by congruence.
        assert (e' = e) as -> by congruence. done. }
    destruct s1 as [s1 trs1]. destruct H1 as (Hinv1 & Hl1 & Hno1 & Hkeep). cbn in *.
    specialize (IH s1 Hinv1). rewrite Hl1 in IH. specialize (IH Hl).
    destruct (complete_stale s1 l ts) as [s2 trs2]. cbn in *. apply IH.
    intros u Hu. destruct (Hno u Hu) as [[->|]%elem_of_cons|]; [right| by left|right]; eauto.
Qed.

(** [complete] ends the lease: afterwards nothing is owned by it. *)
Lemma complete_inv (A : gset nat) s l :
  inv (fun l' _ => l' ∈ A) A s -> l ∈ A -> is_Some (leases s !! l) ->
  inv (fun l' _ => l' ∈ A ∖ {[l]}) (A ∖ {[l]}) (fst (fst (complete handled err ctxErr now jitter s l))).
Proof.
  intros Hinv HlA [le Hl]. unfold complete. rewrite Hl.
  destruct (Z.eqb_spec (lease_epoch le) (epoch s)) as [Hep|Hep]; cbn.
  - destruct (forallb (current_generation s) (targets le)) eqn:Hgen; cbn.
    + destruct (prune_fields s now) as (Fe & Fg & _ & Fl & _).
      destruct (inv_lease _ _ _ Hinv _ _ Hl) as (_ & Hlen & _).
      destruct (complete_targets_inv (fun l' _ => l' ∈ A) A l le (targets le) (lease_entries le) (prune s now) 0)
        as (G' & HG' & Hrest); rewrite ?Fe, ?Fg, ?Fl; try done.
      * by apply inv_prune.
      * by left.
      * intros t Ht. apply forallb_forall with (x := t) in Hgen; [|by apply list_elem_of_In].
        unfold current_generation in Hgen. by apply bool_decide_eq_true in Hgen.
      * intros t Ht. by apply not_elem_of_nil in Ht.
      * destruct (complete_targets _ _ _ _ _ _ _ _) as [s' trs]. cbn in *. destruct Hrest as (Hinv' & Hl' & Hno).
        rewrite Fl in Hl'. eapply inv_drop_owner; [|by rewrite Hl'|done].
        eapply inv_weaken; [exact Hinv'| |done]. intros l' t [? Hne]%elem_of_difference.
        apply HG'; [set_solver|done].
    + eapply inv_drop_owner; [|done|].
      * eapply inv_weaken; [exact Hinv| |done]. intros l' t. set_solver.
      * intros t Ht p e Hp. exfalso. apply not_true_iff_false in Hgen. apply Hgen, forallb_forall.
        intros u Hu%list_elem_of_In. unfold current_generation. apply bool_decide_eq_true.
        destruct (inv_lease _ _ _ Hinv _ _ Hl) as (_ & _ & Hsame). destruct (Hsame u t Hu Ht) as [-> ->].
        by eapply inv_gen.
  - destruct (complete_stale_inv (fun l' _ => l' ∈ A) A l le (targets le) s Hinv Hl) as (Hinv' & Hl' & Hno); [by left|].
    destruct (complete_stale s l (targets le)) as [s' trs]. cbn in *.
    eapply inv_drop_owner; [|by rewrite Hl'|done]. eapply inv_weaken; [exact Hinv'| |done]. intros l' t. set_solver.
Qed.
End completion.

(** ** Publication keeps the invariant *)

Section publication.
Context {Range : MapRange availabilityTarget nat}.
Context (gens : gmap string Z) (valid : option (string -> string -> bool)).

(** While the loop runs: the targets of [rest] are still to be visited, the
    others were deleted or point to a fresh copy of the entry they had. *)
Record publishing (s s' : availabilityState) (rest : list availabilityTarget) : Prop := {
  pub_same : s' = s <| entries := entries s' |> <| heap := heap s' |> <| next_entry := next_entry s' |>;
  pub_next : (next_entry s <= next_entry s')%nat;
  pub_heap : forall q, (q < next_entry s)%nat -> heap s' !! q = heap s !! q;
  pub_bound : forall q, is_Some (heap s' !! q) -> (q < next_entry s')%nat;
  pub_dom : dom (entries s') ⊆ dom (entries s);
  pub_rest : forall t, t ∈ rest -> entries s' !! t = entries s !! t;
  pub_done : forall t q, t ∉ rest -> entries s' !! t = Some q ->
    kept gens valid t = true /\ (next_entry s <= q)%nat /\ is_Some (heap s' !! q) /\
    exists p, entries s !! t = Some p /\ heap s' !! q = heap s !! p;
  pub_inj : forall t u q, t ∉ rest -> u ∉ rest -> entries s' !! t = Some q -> entries s' !! u = Some q -> t = u;
}.

Lemma publishing_step s s' t p rest :
  publishing s s' (t :: rest) -> t ∉ rest -> entries s !! t = Some p -> is_Some (heap s !! p) ->
  (forall q, is_Some (heap s !! q) -> (q < next_entry s)%nat) ->
  publishing s (activate_step gens valid s' (t, p)) rest.
Proof.
  intros H Ht Hp [e He] Hbound. destruct H. cbn.
  assert (Hout : forall u, u ∉ rest -> u <> t -> u ∉ t :: rest).
  { intros u Hu Hne [?|?]%elem_of_cons; congruence. }
  assert (Hpl : (p < next_entry s)%nat) by (apply Hbound; eauto).
  destruct (kept gens valid t) eqn:Hk.
  - rewrite (pub_heap0 p Hpl), He. cbn.
    assert (Hlt : forall u q, u ∉ rest -> u <> t -> entries s' !! u = Some q -> (q < next_entry s')%nat).
    { intros u q Hu Hne Hq. destruct (pub_done0 u q (Hout u Hu Hne) Hq) as (_ & _ & Hs & _). eauto. }
    split; cbn.
    + by rewrite pub_same0.
    + lia.
    + intros q Hq. rewrite lookup_insert_ne by lia. eauto.
    + intros q. rewrite lookup_insert_is_Some. intros [<-|[_ Hs]]; [lia|]. pose proof (pub_bound0 _ Hs). lia.
    + rewrite dom_insert. apply union_subseteq. split; [|done]. intros u ->%elem_of_singleton. by eapply elem_of_dom_2.
    + intros u Hu. rewrite lookup_insert_ne by congruence. apply pub_rest0. by right.
    + intros u q Hu. rewrite lookup_insert_Some. intros [[<- <-]|[Hne Hq]].
      * rewrite lookup_insert_eq. split_and!; [done|lia|eauto|]. exists p. by rewrite He.
      * assert (q < next_entry s')%nat by (eapply (Hlt u); congruence).
        rewrite lookup_insert_ne by lia. apply pub_done0; [by apply Hout; congruence|done].
    + intros u v q Hu Hv. rewrite !lookup_insert_Some. intros [[<- <-]|[Hne Hq]] [[<- Hq']|[Hne' Hq']]; try done.
      * assert (next_entry s' < next_entry s')%nat by (eapply (Hlt v); congruence). lia.
      * subst q. assert (next_entry s' < next_entry s')%nat by (eapply (Hlt u); congruence). lia.
      * eapply pub_inj0; try done; apply Hout; congruence.
  - split; cbn; try done.
    + by rewrite pub_same0.
    + rewrite dom_delete. set_solver.
    + intros u Hu. rewrite lookup_delete_ne by congruence. apply pub_rest0. by right.
    + intros u q Hu [Hne Hq]%lookup_delete_Some. apply pub_done0; [apply Hout; congruence|done].
    + intros u v q Hu Hv [Hne Hq]%lookup_delete_Some [Hne' Hq']%lookup_delete_Some.
      eapply pub_inj0; try done; apply Hout; congruence.
Qed.

Lemma publishing_loop s l : forall s',
  publishing s s' (l.*1) -> NoDup (l.*1) -> (forall t p, (t, p) ∈ l -> entries s !! t = Some p) ->
  (forall t p, entries s !! t = Some p -> is_Some (heap s !! p)) ->
  (forall q, is_Some (heap s !! q) -> (q < next_entry s)%nat) ->
  publishing s (foldl (activate_step gens valid) s' l) [].
Proof.
  induction l as [|[t p] l IH]; intros s' H Hnd Hin Halloc Hbound; cbn in *; [done|].
  apply NoDup_cons in Hnd as [Ht Hnd]. apply IH; try done.
  - assert (Hp : entries s !! t = Some p) by (apply Hin; left). eapply publishing_step; eauto.
  - intros u q Hu. apply Hin. by right.
Qed.

Lemma activate_publishing G A s ep :
  inv G A s -> publishing (s <| epoch := ep |> <| generations := gens |>) (activate s ep gens valid) [].
Proof.
  intros H. unfold activate. apply publishing_loop; cbn.
  - assert (Hdom : forall t, is_Some (entries s !! t) -> t ∈ (range (entries s)).*1).
    { intros t [p Hp]. apply list_elem_of_fmap. exists (t, p). split; [done|]. by apply elem_of_range. }
    split; cbn; try done.
    + apply H.
    + intros t q Ht Hq. by destruct Ht; apply Hdom; eauto.
    + intros t u q Ht _ Hq. by destruct Ht; apply Hdom; eauto.
  - rewrite range_perm. apply NoDup_fst_map_to_list.
  - intros t p. apply elem_of_range.
  - apply H.
  - apply H.
Qed.

Lemma activate_inv G A s ep : inv G A s -> epoch s < ep -> inv G A (activate s ep gens valid).
Proof.
  intros H Hep. pose proof (activate_publishing G A s ep H) as Hpub.
  set (s' := activate s ep gens valid) in *. clearbody s'. destruct Hpub. cbn in *.
  assert (Hl : leases s' = leases s) by (by rewrite pub_same0).
  assert (Hback : forall t q, entries s' !! t = Some q -> kept gens valid t = true /\ (next_entry s <= q)%nat /\
    is_Some (heap s' !! q) /\ exists p, entries s !! t = Some p /\ heap s' !! q = heap s !! p).
  { intros t q. apply pub_done0, not_elem_of_nil. }
  split; rewrite ?Hl.
  - intros t q Hq. by destruct (Hback t q Hq) as (_ & _ & ? & _).
  - done.
  - intros t u q. apply pub_inj0; apply not_elem_of_nil.
  - intros t q Hq. destruct (Hback t q Hq) as (Hk & _). rewrite pub_same0. cbn. unfold kept in Hk.
    destruct (gens !! provider t); [|done]. by apply andb_true_iff in Hk as [->%Z.eqb_eq _].
  - etransitivity; [|apply H]. rewrite <- !size_dom. by apply subseteq_size.
  - rewrite pub_same0. apply H.
  - apply H.
  - intros l le i q Hle Hi. pose proof (inv_held _ _ _ H _ _ _ _ Hle Hi). lia.
  - intros t q e Hq He Hpr. destruct (Hback t q Hq) as (_ & _ & _ & p & Hp & Hh). rewrite He in Hh.
    destruct (inv_claim _ _ _ H t p e Hp (eq_sym Hh) Hpr) as (? & l & le & i & ? & ? & ? & Hle & ? & _).
    split; [done|]. exists l, le, i. rewrite pub_same0. cbn. split_and!; try done; lia.
  - intros t q e Hq He. destruct (Hback t q Hq) as (_ & _ & _ & p & Hp & Hh). rewrite He in Hh.
    by apply (inv_idle _ _ _ H t p e).
  - intros l le i t q e _ Hle _ _ Hi Hq. pose proof (inv_held _ _ _ H _ _ _ _ Hle Hi).
    destruct (Hback t q Hq) as (_ & ? & _). lia.
Qed.
End publication.

(** ** Reachable configurations *)

Record world := { st : availabilityState; active : gset nat }.

Section reachable.
Context {Range : MapRange availabilityTarget nat}.

(** The gateway's protocol: a lease is dispatched while its request is in
    flight and completed once; each published view has a larger epoch. *)
Inductive step : world -> world -> Prop :=
  | step_begin w ep p m g now s l err trs :
      begin (st w) ep p m g now = (s, l, err, trs) ->
      step w {| st := s; active := match err with None => {[l]} ∪ active w | Some _ => active w end |}
  | step_dispatch w l now :
      l ∈ active w -> step w {| st := fst (fst (dispatch (st w) l now)); active := active w |}
  | step_complete w l handled err ctxErr now jitter :
      l ∈ active w ->
      step w {| st := fst (fst (complete handled err ctxErr now jitter (st w) l)); active := active w ∖ {[l]} |}
  | step_activate w ep gens valid :
      epoch (st w) < ep -> step w {| st := activate (st w) ep gens valid; active := active w |}
  | step_available w ep p m g now :
      step w {| st := fst (available (st w) ep p m g now); active := active w |}.

(** The first publication, at start-up, has epoch zero. *)
Inductive reachable : world -> Prop :=
  | reach_start gens valid : reachable {| st := activate newAvailabilityState 0 gens valid; active := ∅ |}
  | reach_step w w' : reachable w -> step w w' -> reachable w'.

Definition in_flight (w : world) (l : nat) (_ : availabilityTarget) : Prop := l ∈ active w.

Record consistent (w : world) : Prop := {
  consistent_inv : inv (in_flight w) (active w) (st w);
  consistent_active : forall l, l ∈ active w -> is_Some (leases (st w) !! l);
}.

Lemma dispatch_leases G A s l now l' :
  inv G A s -> is_Some (leases s !! l') -> is_Some (leases (fst (fst (dispatch s l now))) !! l').
Proof.
  intros Hinv. unfold dispatch. destruct (leases s !! l) as [le|] eqn:Hl; [|done]. destruct (_ =? _); [cbn|done].
  destruct (prune_fields s now) as (_ & _ & _ & Fl & _). apply (inv_prune _ _ _ now) in Hinv.
  destruct (blocked_by _ _ _ _); [cbn; by rewrite Fl|].
  pose proof (claim_spec (prune s now) l (targets le) (inv_alloc _ _ _ Hinv)) as Hc.
  destruct (claim _ _ _) as [[s2 held] trs]. destruct Hc as (_ & -> & _). cbn.
  rewrite Fl. intros ?. rewrite lookup_insert_is_Some. destruct (decide (l = l')); eauto.
Qed.

Lemma complete_leases handled err ctxErr now jitter s l :
  leases (fst (fst (complete handled err ctxErr now jitter s l))) = leases s.
Proof.
  unfold complete. destruct (leases s !! l) as [le|]; [|done]. destruct (_ =? _); cbn.
  - destruct (forallb _ _); [|done]. cbn. destruct (prune_fields s now) as (_ & _ & _ & Fl & _).
    rewrite <- Fl. generalize (prune s now) (lease_entries le). clear.
    induction (targets le) as [|t ts IH]; intros s [|q held]; try done. cbn [complete_targets].
    assert (H1 : leases (fst (complete_target handled err ctxErr now jitter s t q)) = leases s).
    { unfold complete_target. destruct (negb _); [done|]. destruct (_ && _); [by repeat case_match|].
      unfold alloc. cbn. match goal with |- context [put ?x ?y ?z] => pose proof (put_spec x y z) as Hp; destruct (put x y z) end.
      destruct Hp as (-> & _). done. }
    destruct (complete_target _ _ _ _ _ s t q) as [s1 trs]. specialize (IH s1 held).
    destruct (complete_targets _ _ _ _ _ s1 ts held). cbn in *. congruence.
  - generalize s. induction (targets le) as [|t ts IH]; intros s0; [done|]. cbn [complete_stale].
    destruct (entry_at s0 t) as [e|]; [case_bool_decide|].
    + cbn. match goal with |- context [complete_stale ?x l ts] => specialize (IH x); destruct (complete_stale x l ts) end.
      by cbn in *.
    + specialize (IH s0). by destruct (complete_stale s0 l ts).
    + specialize (IH s0). by destruct (complete_stale s0 l ts).
Qed.

Lemma start_inv gens valid : inv (fun _ _ => False) ∅ (activate newAvailabilityState 0 gens valid).
Proof.
  assert (Hr : range (∅ : gmap availabilityTarget nat) = []).
  { apply Permutation_nil. rewrite range_perm. by rewrite map_to_list_empty. }
  unfold activate. change (entries newAvailabilityState) with (∅ : gmap availabilityTarget nat). rewrite Hr.
  assert (Hs : forall A, is_Some (@None A) -> False) by (by intros A []).
  split; cbn; try done; intros *; rewrite ?lookup_empty; try done.
  all: try (intros H; by apply Hs in H). rewrite map_size_empty. lia.
Qed.

Lemma reachable_consistent w : reachable w -> consistent w.
Proof.
  induction 1 as [gens valid|w w' _ [Hinv Hact] Hstep].
  - split; [|by intros l ?%not_elem_of_empty]. by eapply inv_weaken; [apply start_inv| |]; cbn.
  - destruct Hstep as [w ep p m g now s l err trs Hb|w l now Hl|w l handled err ctxErr now jitter Hl|w ep gens valid Hep|w ep p m g now];
      split; cbn.
    + rewrite begin_dispatch in Hb.
      assert (H1 : inv (fun l' _ => l' ∈ {[next_lease (st w)]} ∪ active w) ({[next_lease (st w)]} ∪ active w)
                     (with_lease (st w) ep p m g)).
      { apply (inv_weaken (fun l' _ => l' ∈ {[next_lease (st w)]} ∪ active w) _ (active w));
          [|tauto|apply union_subseteq_r].
        eapply with_lease_inv; [exact Hinv|]. unfold in_flight. set_solver. }
      pose proof (dispatch_inv _ _ _ (next_lease (st w)) now H1) as Hd.
      destruct (dispatch _ _ now) as [[s' err'] trs'] eqn:Hdisp. simplify_eq. destruct err as [e|].
      * apply dispatch_refused in Hdisp as ->. apply inv_prune.
        eapply with_lease_inv; [exact Hinv|]. unfold in_flight. naive_solver.
      * apply Hd; [set_solver|]. intros _. set_solver.
    + rewrite begin_dispatch in Hb.
      assert (H1 : inv (in_flight w) (active w) (with_lease (st w) ep p m g)).
      { eapply with_lease_inv; [exact Hinv|]. by left. }
      pose proof (fun l' => dispatch_leases _ _ _ (next_lease (st w)) now l' H1) as Hd.
      assert (Hin : forall l', l' ∈ {[next_lease (st w)]} ∪ active w ->
                is_Some (leases (with_lease (st w) ep p m g) !! l')).
      { intros l' Hl'. unfold with_lease. cbn. apply lookup_insert_is_Some.
        destruct (decide (next_lease (st w) = l')); [by left|right; split; [done|]]. apply Hact. set_solver. }
      destruct (dispatch _ _ now) as [[s' err'] trs'] eqn:Hdisp. simplify_eq. intros l' Hl'. cbn in Hd.
      apply Hd, Hin. destruct err; set_solver.
    + eapply inv_weaken; [apply (dispatch_inv (fun l' _ => l' ∈ active w)); [exact Hinv|done|done]|done|done].
    + intros l' Hl'. eapply dispatch_leases; eauto.
    + eapply inv_weaken; [apply (complete_inv handled err ctxErr now jitter (active w)); [exact Hinv|done|eauto]|done|done].
    + intros l' [Hl' _]%elem_of_difference. rewrite complete_leases. eauto.
    + by apply activate_inv.
    + intros l Hl. pose proof (activate_publishing gens valid _ _ _ ep Hinv) as Hp.
      rewrite (pub_same _ _ _ _ _ Hp). cbn. eauto.
    + unfold available. destruct (negb _); [done|]. by apply inv_prune.
    + intros l Hl. unfold available. destruct (negb _); [by apply Hact|]. cbn.
      destruct (prune_fields (st w) now) as (_ & _ & _ & -> & _). by apply Hact.
Qed.

(** ** Properties *)

(** Lease [l] holds the recovery claim on target [t]. *)
Definition probes (s : availabilityState) (l : nat) (t : availabilityTarget) : Prop :=
  exists e, entry_at s t = Some e /\ probing e = true /\ owner e = Some l.

Lemma entry_at_Some s t e :
  entry_at s t = Some e <-> exists p, entries s !! t = Some p /\ heap s !! p = Some e.
Proof.
  unfold entry_at. destruct (entries s !! t) as [p|]; cbn; split; try done; eauto; naive_solver.
Qed.

(** Recovery claims are never orphaned.  In every configuration the gateway
    reaches, under any interleaving of requests, completions, sweeps and
    configuration reloads, an entry marked as probing belongs to a request that
    is still in flight and targets it; so a target can always be tried again
    once that request ends. *)
Theorem probe_has_live_owner w t e :
  reachable w -> entry_at (st w) t = Some e -> probing e = true ->
  exists l le, owner e = Some l /\ l ∈ active w /\ leases (st w) !! l = Some le /\ t ∈ targets le.
Proof.
  intros [Hinv _]%reachable_consistent (p & Ht & Hp)%entry_at_Some Hpr.
  destruct (inv_claim _ _ _ Hinv t p e Ht Hp Hpr) as (_ & l & le & i & ? & ? & ? & _ & Hi & _).
  exists l, le. split_and!; try done. by eapply list_elem_of_lookup_2.
Qed.

(** An admitted request holds the claim on every target that is
    recovering.  When [dispatch] admits a request in flight under the current
    configuration, each of its targets is either healthy or unknown, or is now
    probed by this very request, hence by no other. *)
Theorem admitted_holds_claims w l le now s' trs t e :
  reachable w -> l ∈ active w -> leases (st w) !! l = Some le -> lease_epoch le = epoch (st w) ->
  dispatch (st w) l now = (s', None, trs) -> t ∈ targets le -> entry_at s' t = Some e -> 0 < failures e ->
  probing e = true /\ owner e = Some l.
Proof.
  intros [Hinv _]%reachable_consistent HlA Hl Hep Hd Hin (p & Ht & Hp)%entry_at_Some Hf.
  pose proof (dispatch_inv (in_flight w) (active w) (st w) l now) as Hinv'.
  apply list_elem_of_lookup in Hin as [i Hi].
  assert (Hl' : exists le', leases s' !! l = Some le' /\ lease_epoch le' = epoch s' /\ targets le' !! i = Some t /\
                lease_entries le' !! i = Some (Some p)).
  { clear Hinv'. unfold dispatch in Hd. rewrite Hl, (proj2 (Z.eqb_eq _ _) Hep) in Hd. cbn in Hd.
    destruct (prune_fields (st w) now) as (Fe & _). apply (inv_prune _ _ _ now) in Hinv.
    destruct (blocked_by _ _ _ _); [done|].
    pose proof (claim_spec (prune (st w) now) l (targets le) (inv_alloc _ _ _ Hinv)) as Hc.
    destruct (claim _ _ _) as [[s2 held] trs2]. destruct Hc as (-> & Hs2 & _). simplify_eq. cbn in *.
    eexists. rewrite lookup_insert_eq. split; [done|]. cbn. rewrite Hs2 in Ht |- *. cbn in *.
    rewrite (found_lookup _ _ _ _ Hi), Ht. split_and!; try done. by rewrite Fe. }
  destruct Hl' as (le' & Hle' & Hep' & Hi' & Hh'). rewrite Hd in Hinv'. cbn in Hinv'.
  eapply inv_owned; [by apply Hinv'|done..].
Qed.

(** Another lease of the current configuration is refused. *)
Lemma probe_refuses w l l' le' t now :
  reachable w -> probes (st w) l t -> l <> l' -> l' ∈ active w ->
  leases (st w) !! l' = Some le' -> lease_epoch le' = epoch (st w) -> t ∈ targets le' ->
  exists err, dispatch (st w) l' now = (prune (st w) now, Some err, []).
Proof.
  intros [Hinv _]%reachable_consistent (e & (p & Ht & Hp)%entry_at_Some & Hpr & Ho) Hne HlA Hl Hep Hin.
  unfold dispatch. rewrite Hl, (proj2 (Z.eqb_eq _ _) Hep). cbn.
  destruct (blocked_by _ _ _ _) as [err|] eqn:Hb; [by exists err|]. exfalso.
  destruct (inv_claim _ _ _ Hinv t p e Ht Hp Hpr) as [Hf _].
  apply list_elem_of_lookup in Hin as [i Hi].
  destruct (prune_fields (st w) now) as (_ & _ & Fh & _).
  assert (Ht' : entries (prune (st w) now) !! t = Some p) by (by eapply prune_keeps_probing).
  destruct (blocked_by_none _ _ _ _ i t e Hb Hi) as [[_ Hmine]|Hel]; [|done| |].
  - apply entry_at_Some. exists p. by rewrite Fh.
  - assert (Hh : lease_entries le' !! i = Some (Some p)).
    { rewrite Ht' in Hmine. destruct (lease_entries le' !! i) as [[q|]|]; cbn in Hmine; congruence. }
    destruct (inv_owned _ _ _ Hinv l' le' i t p e HlA Hl Hep Hi Hh Ht Hp Hf) as [_ Ho']. congruence.
  - cbn in Hel. rewrite Hpr in Hel. cbn in Hel. apply orb_true_iff in Hel as [Hz|]; [|done].
    apply Z.eqb_eq in Hz. lia.
Qed.

Lemma prune_probes w l t now : reachable w -> probes (st w) l t -> probes (prune (st w) now) l t.
Proof.
  intros [Hinv _]%reachable_consistent (e & (p & Ht & Hp)%entry_at_Some & Hpr & Ho). exists e. split; [|done].
  destruct (prune_fields (st w) now) as (_ & _ & Fh & _). apply entry_at_Some. exists p. split; [by eapply prune_keeps_probing|by rewrite Fh].
Qed.

(** C16. A recovering target of the current configuration admits one request at
    a time.  While lease [l] holds the claim on [t], every other request of
    that configuration that is in flight for [t] is refused, with a recovery or
    cooldown error.  A request of an older configuration is let through, but
    reads and changes nothing of the table.  In both cases the claim stays with
    [l]. *)
Theorem one_probe_at_a_time w l l' le' t now :
  reachable w -> probes (st w) l t -> l <> l' -> l' ∈ active w ->
  leases (st w) !! l' = Some le' -> t ∈ targets le' ->
  (if lease_epoch le' =? epoch (st w) then exists err, snd (fst (dispatch (st w) l' now)) = Some err
   else dispatch (st w) l' now = (st w, None, [])) /\
  probes (fst (fst (dispatch (st w) l' now))) l t.
Proof.
  intros Hw Hp Hne HlA Hl Hin. destruct (Z.eqb_spec (lease_epoch le') (epoch (st w))) as [Hep|Hep].
  - destruct (probe_refuses w l l' le' t now Hw Hp Hne HlA Hl Hep Hin) as [err E]. rewrite E. split; [by exists err|]. by apply prune_probes.
  - assert (E : dispatch (st w) l' now = (st w, None, [])).
    { unfold dispatch. by rewrite Hl, (proj2 (Z.eqb_neq _ _) Hep). }
    by rewrite E.
Qed.

(** The store never exceeds its documented limit. *)
Theorem availability_bounded w : reachable w -> Z.of_nat (size (entries (st w))) <= availabilityLimit.
Proof.
  intros [Hinv _]%reachable_consistent. pose proof (inv_size _ _ _ Hinv). unfold availabilityLimit in *. lia.
Qed.
End reachable.

(** ** A concrete run

    Two requests for the same model start, the first fails with a temporary
    outage, and a third request, an hour later, probes the model. *)

Definition after_begin (w : world) (now : Z) : world :=
  let '(s, l, err, _) := begin (st w) 0 "p" "m" 1 now in
  {| st := s; active := match err with None => {[l]} ∪ active w | Some _ => active w end |}.

Lemma after_begin_reachable w now : reachable w -> reachable (after_begin w now).
Proof.
  intros Hw. eapply reach_step; [exact Hw|]. unfold after_begin.
  destruct (begin (st w) 0 "p" "m" 1 now) as [[[s l] err] trs] eqn:Hb. by eapply step_begin.
Qed.

Definition outage : CallError := (new_CallError 503 "provider_error") <| CallCategory := ProviderErrorTemporarilyUnavailable |>.
Definition no_jitter : availabilityTarget -> Z -> Z := fun _ _ => 0.

Definition demo_two : world :=
  after_begin (after_begin {| st := activate newAvailabilityState 0 {["p" := 1]} None; active := ∅ |} (100 * Hour)) (100 * Hour).
Definition demo_failed : world :=
  {| st := fst (fst (complete false (Some (ECall outage)) false (100 * Hour) no_jitter (st demo_two) 0));
     active := active demo_two ∖ {[0%nat]} |}.
Definition demo_probing : world := after_begin demo_failed (101 * Hour).

Lemma demo_failed_reachable : reachable demo_failed.
Proof.
  apply (reach_step demo_two); [repeat apply after_begin_reachable; apply reach_start|].
  apply step_complete. apply (bool_decide_unpack _). by vm_compute.
Qed.

Lemma demo_probing_reachable : reachable demo_probing.
Proof. apply after_begin_reachable, demo_failed_reachable. Qed.

Definition demo_target : availabilityTarget := Target "p" "m" 1.
Definition demo_entry : availabilityEntry :=
  {| reason := "temporarily_unavailable"; failures := 1; lastSuccess := 0; lastFailure := 100 * Hour;
     retryAt := 100 * Hour + 30 * Second; touched := 100 * Hour; probing := true; owner := Some 2%nat |}.
Definition demo_lease (held : list (option nat)) : availabilityLease :=
  {| lease_epoch := 0; targets := [Target "p" "" 1; demo_target]; lease_entries := held |}.

Lemma demo_entry_at : entry_at (st demo_probing) demo_target = Some demo_entry.
Proof. vm_compute. reflexivity. Qed.

Lemma probe_has_live_owner_witness :
  entry_at (st demo_probing) demo_target = Some demo_entry /\
  exists l le, owner demo_entry = Some l /\ l ∈ active demo_probing /\
    leases (st demo_probing) !! l = Some le /\ demo_target ∈ targets le.
Proof.
  split; [exact demo_entry_at|].
  apply (probe_has_live_owner demo_probing demo_target demo_entry demo_probing_reachable demo_entry_at eq_refl).
Defined.

Lemma admitted_holds_claims_witness :
  let '(s', err, trs) := dispatch (st demo_probing) 2 (101 * Hour) in
  err = None /\ (probing demo_entry = true /\ owner demo_entry = Some 2%nat).
Proof.
  destruct (dispatch (st demo_probing) 2 (101 * Hour)) as [[s' err] trs] eqn:Hd.
  assert (err = None) as -> by (apply (f_equal (fun x => snd (fst x))) in Hd; vm_compute in Hd; congruence).
  split; [reflexivity|].
  apply (admitted_holds_claims demo_probing 2 (demo_lease [None; Some 0%nat]) (101 * Hour) s' trs demo_target).
  - apply demo_probing_reachable.
  - apply (bool_decide_unpack _). vm_compute. exact I.
  - vm_compute. reflexivity.
  - reflexivity.
  - exact Hd.
  - right. left.
  - apply (f_equal (fun x => entry_at (fst (fst x)) demo_target)) in Hd. cbn [fst] in Hd. rewrite <- Hd.
    vm_compute. reflexivity.
  - reflexivity.
Defined.

Lemma one_probe_at_a_time_witness :
  (exists err, snd (fst (dispatch (st demo_probing) 1 (101 * Hour))) = Some err) /\
  probes (fst (fst (dispatch (st demo_probing) 1 (101 * Hour)))) 2 demo_target.
Proof.
  apply (one_probe_at_a_time demo_probing 2 1 (demo_lease [None; None]) demo_target).
  - apply demo_probing_reachable.
  - exists demo_entry. split; [exact demo_entry_at|]. split; reflexivity.
  - discriminate.
  - apply (bool_decide_unpack _). vm_compute. exact I.
  - vm_compute. reflexivity.
  - right. left.
Defined.

Lemma availability_bounded_witness : Z.of_nat (size (entries (st demo_probing))) <= availabilityLimit.
Proof. apply (availability_bounded demo_probing demo_probing_reachable). Defined.
