(* ===== verification/AvailabilityEffects.v ===== *)
(** * Upstream health: backoff and the effect of completions

    The exponential backoff of [boundedRecoveryBackoff] in closed form, and
    what [complete] does to the entry of a target on each branch. *)

From S2P Require Import Prelude GoStrings GoFloat Diagnostics Errors Availability AvailabilityFacts.

(** ** Backoff *)

Lemma double_base_min fuel : forall n failures base,
  failures - n <= Z.of_nat fuel -> 0 < base ->
  Z.min availabilityMaxBackoff (double_base fuel n failures base) =
  Z.min availabilityMaxBackoff (base * 2 ^ Z.max 0 (failures - n)).
Proof.
  induction fuel as [|fuel IH]; intros n failures base Hfuel Hb; cbn [double_base].
  - rewrite Z.max_l by lia. by rewrite Z.mul_1_r.
  - destruct (Z.ltb_spec n failures) as [Hn|Hn]; cbn; [|rewrite Z.max_l by lia; by rewrite Z.mul_1_r].
    replace (Z.max 0 (failures - n)) with (1 + Z.max 0 (failures - (n + 1))) by lia.
    rewrite Z.pow_add_r, Z.mul_assoc by lia. change (2 ^ 1) with 2.
    destruct (Z.ltb_spec base availabilityMaxBackoff) as [Hs|Hs]; [apply IH; lia|].
    assert (0 < 2 ^ Z.max 0 (failures - (n + 1))) by (apply Z.pow_pos_nonneg; lia).
    rewrite !Z.min_l; [done|nia|lia].
Qed.

Definition first_backoff (reason : string) : duration :=
  if ProviderScopedTerminal reason then billingExhaustionCooldown else routeRecoveryCooldown.

(** The closed form: the first delay doubled at each further failure, up to
    thirty minutes. *)
Definition backoff_base (reason : string) (failures : Z) : duration :=
  if String.eqb reason "unclassified_stream_error" then routeRecoveryCooldown
  else Z.min availabilityMaxBackoff (first_backoff reason * 2 ^ Z.max 0 (failures - 1)).

Lemma backoff_base_range reason failures :
  routeRecoveryCooldown <= backoff_base reason failures <= availabilityMaxBackoff.
Proof.
  unfold backoff_base, first_backoff. assert (0 < 2 ^ Z.max 0 (failures - 1)) by (apply Z.pow_pos_nonneg; lia).
  destruct (String.eqb _ _); [split; unfold routeRecoveryCooldown, availabilityMaxBackoff, Minute, Second; lia|].
  destruct (ProviderScopedTerminal reason);
    unfold routeRecoveryCooldown, billingExhaustionCooldown, availabilityMaxBackoff, Minute, Second; nia.
Qed.

(** The delay before a failed target is tried again is exponential in the
    number of consecutive failures: first delay times a power of two, capped at
    thirty minutes, plus jitter, never before what the provider asked for and
    never more than a day. *)
Theorem backoff_closed_form reason failures upstream jitter :
  boundedRecoveryBackoff reason failures upstream jitter =
    if String.eqb reason "rate_limited" && (10 <? failures) then 24 * Hour
    else let base := backoff_base reason failures in
         Z.min (24 * Hour) (Z.max upstream (base + jitter base)).
Proof.
  unfold boundedRecoveryBackoff. destruct (_ && _); [done|].
  set (first := if ProviderScopedTerminal reason then _ else _).
  assert (Hfirst : first = first_backoff reason) by done.
  assert (Hb : (if availabilityMaxBackoff <?
      (if negb (String.eqb reason "unclassified_stream_error")
       then double_base (Z.to_nat failures) 1 failures first else first) then availabilityMaxBackoff
     else (if negb (String.eqb reason "unclassified_stream_error")
       then double_base (Z.to_nat failures) 1 failures first else first)) = backoff_base reason failures).
  { unfold backoff_base. destruct (String.eqb_spec reason "unclassified_stream_error") as [->|]; [done|cbn [negb]].
    rewrite <- Hfirst, <- (double_base_min (Z.to_nat failures) 1 failures first); [|lia|].
    - destruct (Z.ltb_spec availabilityMaxBackoff (double_base (Z.to_nat failures) 1 failures first)); lia.
    - rewrite Hfirst. unfold first_backoff. by destruct (ProviderScopedTerminal reason). }
  rewrite Hb. cbn zeta. set (d := backoff_base reason failures + _).
  destruct (Z.ltb_spec d upstream) as [|]; case_test; lia.
Qed.

(** The jitter of [recoveryJitter]: at most a fifth of its base. *)
Definition bounded_jitter (jitter : duration -> duration) : Prop := forall b, 0 <= b -> 0 <= jitter b <= b ÷ 5.

(** [rand.Int63n(n)] is in [0, n). *)
Lemma recoveryJitter_bounded Int63n :
  (forall n, 0 < n -> 0 <= Int63n n < n) -> bounded_jitter (recoveryJitter Int63n).
Proof.
  intros H b Hb. unfold recoveryJitter. pose proof (Z.quot_pos b 5 Hb ltac:(lia)).
  specialize (H (b ÷ 5 + 1)). lia.
Qed.

Lemma backoff_range reason failures upstream jitter :
  bounded_jitter jitter ->
  Z.max routeRecoveryCooldown (Z.min upstream (24 * Hour)) <= boundedRecoveryBackoff reason failures upstream jitter
  <= 24 * Hour.
Proof.
  intros Hj. unfold boundedRecoveryBackoff.
  destruct (_ && _); [unfold routeRecoveryCooldown, Hour, Minute, Second; lia|].
  match goal with |- context [?b + jitter ?b] => set (base := b) end.
  assert (Hb : routeRecoveryCooldown <= base).
  { subst base. assert (Hd : forall fuel n f b, routeRecoveryCooldown <= b -> routeRecoveryCooldown <= double_base fuel n f b).
    { induction fuel as [|fuel IH]; intros n f b Hb; cbn [double_base]; [done|]. destruct (_ && _); [|done].
      apply IH. unfold routeRecoveryCooldown, Second in *. lia. }
    assert (Hf : routeRecoveryCooldown <= first_backoff reason)
      by (unfold first_backoff; by destruct (ProviderScopedTerminal reason)).
    unfold first_backoff in Hf. set (first := if ProviderScopedTerminal reason then _ else _) in *. clearbody first.
    match goal with |- context [_ <? ?x] => assert (Hx : routeRecoveryCooldown <= x) end.
    { destruct (negb _); [by apply Hd|done]. }
    destruct (_ <? _); [unfold routeRecoveryCooldown, availabilityMaxBackoff, Minute, Second; lia|done]. }
  clearbody base. assert (0 <= base) by (unfold routeRecoveryCooldown, Second in *; lia).
  specialize (Hj base ltac:(done)). unfold routeRecoveryCooldown, Hour, Minute, Second in *.
  repeat case_test; lia.
Qed.

(** ** A completion of an earlier configuration *)

(** What the release of lease [l] does to one entry. *)
Definition release_of (l : nat) (e : availabilityEntry) : availabilityEntry :=
  if decide (owner e = Some l) then release e else e.

Lemma entry_at_insert s t q e u :
  heap s !! next_entry s = None -> (forall v p, entries s !! v = Some p -> is_Some (heap s !! p)) ->
  q = next_entry s ->
  entry_at (set_entry (fst (alloc s e)) t q) u = if decide (u = t) then Some e else entry_at s u.
Proof.
  intros Hnew Halloc ->. unfold entry_at, set_entry, alloc. cbn. case_decide as Hu; [subst|].
  - rewrite lookup_insert_eq. cbn. by rewrite lookup_insert_eq.
  - rewrite lookup_insert_ne by congruence. destruct (entries s !! u) as [p|] eqn:Hp; cbn; [|done].
    apply lookup_insert_ne. intros <-. destruct (Halloc u _ Hp). congruence.
Qed.

Lemma inv_next_free G A s : inv G A s -> heap s !! next_entry s = None.
Proof.
  intros H. destruct (heap s !! next_entry s) eqn:E; [|done]. pose proof (inv_heap _ _ _ H _ (mk_is_Some _ _ E)). lia.
Qed.

Lemma complete_stale_effect G A l ts : forall s, inv G A s ->
  forall t, entry_at (fst (complete_stale s l ts)) t =
    if decide (t ∈ ts) then release_of l <$> entry_at s t else entry_at s t.
Proof.
  induction ts as [|u ts IH]; intros s Hinv t; cbn [complete_stale].
  { by rewrite decide_False by apply not_elem_of_nil. }
  assert (H1 : exists s1 trs, (match entry_at s u with
      | Some e => if bool_decide (owner e = Some l)
                  then let '(s, q) := alloc s (release e) in (set_entry s u q, [transition_to u "probing" "cooling" e])
                  else (s, [])
      | None => (s, []) end) = (s1, trs) /\ inv G A s1 /\
      forall v, entry_at s1 v = if decide (v = u) then release_of l <$> entry_at s v else entry_at s v).
  { destruct (entry_at s u) as [e|] eqn:He; cbn.
    - case_bool_decide as Ho.
      + apply entry_at_Some in He as Hp. destruct Hp as (p & Hp & Hpe).
        eexists _, _. split; [done|]. split.
        * apply (inv_insert G A s u (release e)); try done; [by eapply inv_gen|].
          rewrite map_size_insert_Some by eauto. apply Hinv.
        * intros v. rewrite (entry_at_insert s u _ (release e) v) by first [done | exact (inv_alloc _ _ _ Hinv) | exact (inv_next_free _ _ _ Hinv)].
          case_decide as Hv; [|done]. subst. rewrite He. cbn. unfold release_of. by rewrite decide_True.
      + eexists s, _. split; [done|]. split; [done|]. intros v. case_decide as Hv; [|done]. subst. rewrite He.
        cbn. unfold release_of. by rewrite decide_False.
    - eexists s, _. split; [done|]. split; [done|]. intros v. case_decide as Hv; [|done]. subst. by rewrite He. }
  destruct H1 as (s1 & trs & -> & Hinv1 & Heff). specialize (IH s1 Hinv1 t).
  destruct (complete_stale s1 l ts) as [s2 trs2]. cbn in IH |- *. rewrite IH, Heff.
  destruct (decide (t = u)) as [->|Htu].
  - rewrite (decide_True (P := u ∈ u :: ts)) by left. case_decide; [|done].
    destruct (entry_at s u) as [e|]; cbn; [|done]. unfold release_of at 1 2. f_equal. unfold release_of.
    destruct (decide (owner e = Some l)); [by rewrite decide_False|by rewrite decide_False].
  - destruct (decide (t ∈ ts)) as [Hin|Hin].
    + by rewrite decide_True by (by right).
    + rewrite decide_False; [done|]. by intros [?|?]%elem_of_cons.
Qed.

Section effects.
Context {Range : MapRange availabilityTarget nat}.

(** Fencing of old configurations: a request admitted under an earlier
    configuration that completes after a reload, whatever its outcome, only
    gives back the claims it held.  It never confirms, renews or clears the
    health of any target. *)
Theorem stale_completion_only_releases w l le handled err ctxErr now jitter s' trs res t :
  reachable w -> leases (st w) !! l = Some le -> lease_epoch le <> epoch (st w) ->
  complete handled err ctxErr now jitter (st w) l = (s', trs, res) ->
  res = false /\ entry_at s' t = (if decide (t ∈ targets le) then release_of l <$> entry_at (st w) t
                                  else entry_at (st w) t) /\
  forall e e', entry_at (st w) t = Some e -> entry_at s' t = Some e' ->
    reason e' = reason e /\ failures e' = failures e /\ retryAt e' = retryAt e /\
    lastSuccess e' = lastSuccess e /\ lastFailure e' = lastFailure e /\ touched e' = touched e.
Proof.
  intros [Hinv _]%reachable_consistent Hl Hep Hc. unfold complete in Hc.
  rewrite Hl, (proj2 (Z.eqb_neq _ _) Hep) in Hc. cbn in Hc.
  pose proof (complete_stale_effect _ _ l (targets le) _ Hinv t) as Heff.
  destruct (complete_stale (st w) l (targets le)) as [s2 trs2]. simplify_eq. cbn in Heff.
  split; [done|]. split; [done|]. intros e e' He He'. rewrite He, He' in Heff.
  assert (e' = e \/ e' = release e) as [->| ->]; [|done..].
  case_decide; cbn in Heff; simplify_eq; [|by left]. unfold release_of. case_decide; auto.
Qed.

(** ** A completion of the current configuration *)

Context (handled : bool) (err : option go_error) (ctxErr : bool) (now : time)
  (jitter : availabilityTarget -> duration -> duration).

(** [put] refuses a target only when the table is full of running probes. *)
Lemma put_refused s t q s' :
  put s t q = (s', false) ->
  s' = s /\ entries s !! t = None /\ availabilityLimit <= Z.of_nat (size (entries s)) /\
  forall u e, entry_at s u = Some e -> probing e = true.
Proof.
  unfold put. destruct (entries s !! t); [done|]. destruct (Z.leb_spec availabilityLimit (Z.of_nat (size (entries s))));
    [|done]. destruct (evict_candidate s) eqn:Hv; [done|]. intros [= ->]. split_and!; try done.
  intros u e (p & Hu & Hp)%entry_at_Some. apply elem_of_range in Hu. unfold evict_candidate in Hv.
  apply fmap_None in Hv. revert Hv Hu. generalize (range (entries s')). intros l0.
  assert (Hsome : forall l a, foldl (evict_step s') (Some a) l <> None).
  { induction l as [|kv l IH]; intros a; [done|]. cbn. unfold evict_step at 2.
    destruct (heap s' !! kv.2); [|done]. destruct (_ && _); done. }
  cut (forall acc, foldl (evict_step s') acc l0 = None -> (u, p) ∈ l0 -> probing e = true); [eauto|].
  induction l0 as [|kv l IH]; intros acc Hv Hin; [by apply not_elem_of_nil in Hin|].
  apply elem_of_cons in Hin as [<-|Hin]; [|by eapply IH]. cbn in Hv. unfold evict_step in Hv at 2. cbn in Hv.
  rewrite Hp in Hv. destruct (probing e); [done|]. cbn in Hv.
  destruct acc as [[t0 o]|]; [destruct (Time.before _ _)|]; by apply Hsome in Hv.
Qed.

Lemma complete_target_put s t previous :
  entries s !! t = previous -> success handled err ctxErr || classified handled err ctxErr t = true ->
  heap s !! next_entry s = None ->
  let s' := fst (complete_target handled err ctxErr now jitter s t previous) in
  entry_at s' t = Some (next_entry_value handled err ctxErr now jitter (deref s previous) t) \/
  (entries s !! t = None /\ availabilityLimit <= Z.of_nat (size (entries s)) /\
   forall u e, entry_at s u = Some e -> probing e = true).
Proof.
  intros Heq Hcase Hnew. unfold complete_target. rewrite bool_decide_eq_true_2 by done. cbn [negb].
  assert (Hb : negb (success handled err ctxErr) && negb (confirmed handled err ctxErr (deref s previous) t) = false).
  { unfold confirmed. by destruct (success _ _ _), (classified _ _ _ _). }
  rewrite Hb. set (next := next_entry_value _ _ _ _ _ _ _).
  pose proof (put_spec (fst (alloc s next)) t (next_entry s)) as Hp.
  cbn [alloc]. set (s0 := s <| heap := <[next_entry s := next]> (heap s) |> <| next_entry := S (next_entry s) |>) in *.
  change (fst (alloc s next)) with s0 in Hp.
  destruct (put s0 t (next_entry s)) as [s' [|]] eqn:Hput; cbn; destruct Hp as (Hs' & _ & Hok).
  - left. apply entry_at_Some. exists (next_entry s). split; [done|]. rewrite Hs'. cbn. apply lookup_insert_eq.
  - right. apply put_refused in Hput as (_ & Hnone & Hfull & Hall). split; [done|]. split; [done|].
    intros u e (p & Hu & Hpe)%entry_at_Some. apply (Hall u), entry_at_Some. exists p. split; [exact Hu|]. cbn.
    rewrite lookup_insert_ne; [done|]. intros <-. congruence.
Qed.

(** Effect of a confirmed failure.  When a request still holds the entry of
    a target, the completion classifies its failure for that target, and the
    failure is not a rate limit of every key, the target takes the
    classification, starts at least thirty seconds of cooldown and at most a
    day, admits nothing before the end of it and is probed from then on.  The
    update can be lost only when the table is full of running probes. *)
Theorem confirmed_failure_cools s t previous s' trs :
  success handled err ctxErr = false -> classified handled err ctxErr t = true ->
  failure_reason handled err ctxErr <> "rate_limited" -> bounded_jitter (jitter t) ->
  (forall p e, heap s !! p = Some e -> 0 <= failures e) -> heap s !! next_entry s = None ->
  entries s !! t = previous ->
  complete_target handled err ctxErr now jitter s t previous = (s', trs) ->
  (exists e, entry_at s' t = Some e /\ reason e = failure_reason handled err ctxErr /\
     failures e = Z.max (default 0 (failures <$> deref s previous))
                        (Z.min 16 (default 0 (failures <$> deref s previous) + 1)) /\
     now + routeRecoveryCooldown <= retryAt e <= now + 24 * Hour /\
     forall u, eligible (Some e) u = (retryAt e <=? u)) \/
  (entries s !! t = None /\ availabilityLimit <= Z.of_nat (size (entries s)) /\
   forall u e, entry_at s u = Some e -> probing e = true).
Proof.
  intros Hns Hcl Hrl Hj Hpos Hnew Heq Hc.
  pose proof (complete_target_put s t previous Heq) as Hput. rewrite Hcl, orb_true_r in Hput.
  specialize (Hput eq_refl Hnew). rewrite Hc in Hput. cbn in Hput.
  set (prev := deref s previous) in *.
  assert (Hprev : 0 <= default 0 (failures <$> prev)).
  { subst prev. destruct previous as [p|]; cbn; [|done]. destruct (heap s !! p) eqn:Hp; cbn; [by eapply Hpos|done]. }
  destruct Hput as [Hput|Hfull].
  - left. eexists. split; [exact Hput|].
    set (base := match prev with Some e => (release e) <| touched := now |> | None => fresh_entry now end).
    assert (Hbase : failures base = default 0 (failures <$> prev)) by (subst base; by destruct prev).
    assert (Hpr : probing base = false) by (subst base; by destruct prev).
    assert (Hval : exists d, next_entry_value handled err ctxErr now jitter prev t =
      (if failures base <? 16
       then base <| reason := failure_reason handled err ctxErr |> <| failures := failures base + 1 |>
       else base <| reason := failure_reason handled err ctxErr |>) <| lastFailure := now |>
        <| retryAt := Time.add now d |> /\ routeRecoveryCooldown <= d <= 24 * Hour).
    { unfold next_entry_value. rewrite Hns, Hcl. fold base. cbn zeta.
      rewrite (proj2 (String.eqb_neq _ _) Hrl).
      destruct (as_CallError err); cbn; (eexists; split; [done|]);
        pose proof (backoff_range (failure_reason handled err ctxErr)) as Hr;
        (destruct (failures base <? 16); cbn;
         match goal with |- context [boundedRecoveryBackoff ?r ?f ?c ?j] => specialize (Hr f c j Hj) end;
         unfold routeRecoveryCooldown, Hour, Minute, Second in *; lia). }
    destruct Hval as (d & -> & Hd). rewrite <- Hbase in Hprev |- *.
    assert (Hf : 0 < (if failures base <? 16 then failures base + 1 else failures base)) by (case_test; lia).
    destruct (Z.ltb_spec (failures base) 16); cbn; unfold Time.add; split_and!; try done; try lia;
      intros u; unfold eligible; cbn; rewrite Hpr; unfold Time.before;
      (destruct (Z.eqb_spec (failures base + 1) 0) || destruct (Z.eqb_spec (failures base) 0)); try lia; cbn;
      by rewrite <- Z.leb_antisym.
  - by right.
Qed.
End effects.

(** ** Concrete runs *)

Lemma demo_jitter : bounded_jitter (no_jitter demo_target).
Proof. intros b Hb. unfold no_jitter. pose proof (Z.quot_pos b 5 Hb ltac:(lia)). lia. Qed.

(** The configuration is reloaded while the third request of the run probes. *)
Definition demo_reloaded : world :=
  {| st := activate (st demo_probing) 1 {["p" := 1]} None; active := active demo_probing |}.

Lemma demo_reloaded_reachable : reachable demo_reloaded.
Proof. apply (reach_step demo_probing _ demo_probing_reachable), step_activate. reflexivity. Qed.

Definition demo_released : availabilityState * list availabilityTransition * bool :=
  complete false None false (101 * Hour) no_jitter (st demo_reloaded) 2.

Lemma stale_completion_only_releases_witness :
  snd demo_released = false /\
  entry_at (fst (fst demo_released)) demo_target =
    (if decide (demo_target ∈ targets (demo_lease [None; Some 0%nat]))
     then release_of 2 <$> entry_at (st demo_reloaded) demo_target else entry_at (st demo_reloaded) demo_target) /\
  forall e e', entry_at (st demo_reloaded) demo_target = Some e -> entry_at (fst (fst demo_released)) demo_target = Some e' ->
    reason e' = reason e /\ failures e' = failures e /\ retryAt e' = retryAt e /\
    lastSuccess e' = lastSuccess e /\ lastFailure e' = lastFailure e /\ touched e' = touched e.
Proof.
  apply (stale_completion_only_releases demo_reloaded 2 (demo_lease [None; Some 0%nat]) false None false (101 * Hour)
           no_jitter (fst (fst demo_released)) (snd (fst demo_released))).
  - apply demo_reloaded_reachable.
  - vm_compute. reflexivity.
  - vm_compute. discriminate.
  - unfold demo_released. destruct (complete _ _ _ _ _ _ _) as [[? ?] ?]. reflexivity.
Defined.

Definition cooled : availabilityState :=
  fst (complete_target false (Some (ECall outage)) false (101 * Hour) no_jitter (st demo_probing) demo_target (Some 0%nat)).

Lemma confirmed_failure_cools_witness :
  (exists e, entry_at cooled demo_target = Some e /\
     reason e = failure_reason false (Some (ECall outage)) false /\
     failures e = Z.max (default 0 (failures <$> deref (st demo_probing) (Some 0%nat)))
                        (Z.min 16 (default 0 (failures <$> deref (st demo_probing) (Some 0%nat)) + 1)) /\
     101 * Hour + routeRecoveryCooldown <= retryAt e <= 101 * Hour + 24 * Hour /\
     forall u, eligible (Some e) u = (retryAt e <=? u)) \/
  (entries (st demo_probing) !! demo_target = None /\
   availabilityLimit <= Z.of_nat (size (entries (st demo_probing))) /\
   forall u e, entry_at (st demo_probing) u = Some e -> probing e = true).
Proof.
  apply (confirmed_failure_cools false (Some (ECall outage)) false (101 * Hour) no_jitter (st demo_probing)
           demo_target (Some 0%nat) cooled
           (snd (complete_target false (Some (ECall outage)) false (101 * Hour) no_jitter (st demo_probing) demo_target (Some 0%nat)))).
  - reflexivity.
  - vm_compute. reflexivity.
  - vm_compute. discriminate.
  - apply demo_jitter.
  - assert (Hall : map_Forall (fun _ e => 0 <= failures e) (heap (st demo_probing)))
      by (apply (bool_decide_unpack _); vm_compute; exact I). exact Hall.
  - vm_compute. reflexivity.
  - vm_compute. reflexivity.
  - unfold cooled. destruct (complete_target _ _ _ _ _ _ _ _). reflexivity.
Defined.

(** ** A confirmed failure that the sweep discards

    A target that succeeded a day before its request was dispatched keeps that
    [touched] instant while the request runs.  The sweep at the start of
    [complete] then deletes the entry the lease holds, the comparison
    [s.entries[target] != previous] skips the target, and the failure the
    request observed is not recorded. *)

Definition restart : world := {| st := activate newAvailabilityState 0 {["p" := 1]} None; active := ∅ |}.
Definition healthy : world :=
  let w := after_begin restart (100 * Hour) in
  {| st := fst (fst (complete false None false (100 * Hour) no_jitter (st w) 0)); active := ∅ |}.
Definition long_request : world := after_begin healthy (124 * Hour - Minute).

(** A failure observed by a long request on a target that has been healthy
    for a day is lost: the completion's own sweep deletes the entry the request
    holds, nothing is recorded, and the target stays available. *)
Example swept_failure_is_lost :
  let '(s', trs, _) := complete false (Some (ECall outage)) false (124 * Hour) no_jitter (st long_request) 1 in
  entry_at (st long_request) demo_target <> None /\ entry_at s' demo_target = None /\ trs = [] /\
  snd (available s' 0 "p" "m" 1 (124 * Hour)) = true.
Proof. vm_compute. repeat split. discriminate. Qed.
