(* ===== verification/KeyPool.v ===== *)
(** * Provider key pools

    [internal/gateway/provider_key_pool.go], [provider_retry_after.go] and
    [key_diagnostics.go]: the credentials of one provider, their cooldowns,
    the rate-limit streaks, the wait a provider asked for (shared by every pool
    of the same endpoint) and the operational counters.

    Every method runs under [p.mu], and under the lock of the shared state when
    it touches it, so a method is one step on the pair (pool, shared state).
    Leases and counters are compared by pointer in the code: they are pointers
    (natural numbers) here.  The clock and the jitter are arguments. *)

From S2P Require Import Prelude GoStrings GoFloat Diagnostics Errors Availability.

Definition keyDecisionLimit : nat := 32.
Definition keyDecisionTTL : duration := Hour.

(** ** Data *)

Abbreviation rate_lease_ptr := nat (only parsing).
Abbreviation server_ptr := nat (only parsing).
Abbreviation counters_ptr := nat (only parsing).

Record providerRetryState := {
  server_until : time;
  server_version : Z;
  server_probe : option rate_lease_ptr;
}.

#[export] Instance providerRetryState_eta : Eta providerRetryState := fun s =>
  {| server_until := server_until s; server_version := server_version s; server_probe := server_probe s |}.

Definition new_providerRetryState : providerRetryState :=
  {| server_until := Time.zero; server_version := 0; server_probe := None |}.

Record KeyCounters := {
  Requests : Z;
  HTTPAttempts : Z;
  Successes : Z;
  Failures : Z;
  Cancellations : Z;
  Timeouts : Z;
  InFlight : Z;
}.

#[export] Instance KeyCounters_eta : Eta KeyCounters := fun c =>
  {| Requests := Requests c; HTTPAttempts := HTTPAttempts c; Successes := Successes c; Failures := Failures c;
     Cancellations := Cancellations c; Timeouts := Timeouts c; InFlight := InFlight c |}.

Definition new_KeyCounters : KeyCounters :=
  {| Requests := 0; HTTPAttempts := 0; Successes := 0; Failures := 0; Cancellations := 0; Timeouts := 0; InFlight := 0 |}.

Record KeyFailover := {
  Timestamp : time;
  From : string;
  To : string;
  FailoverReason : string;
}.

Record providerKeyPool := {
  backendID : string;
  labels : list string;
  failureClasses : list string;
  failureTimes : list time;
  counters : list counters_ptr;               (** nil while telemetry is off *)
  counter_heap : gmap counters_ptr KeyCounters;
  next_counter : counters_ptr;
  telemetryEnabled : bool;
  counterEpoch : Z;
  decisions : list KeyFailover;
  keys : list string;
  next : nat;
  cooldowns : list time;
  rateFailures : list Z;
  rateVersions : list Z;
  rateStreak : Z;
  rateVersion : Z;
  rateProviderUntil : time;
  providerRetry : server_ptr;
  lastRateLimit : time;
  rateProbe : option rate_lease_ptr;
}.

#[export] Instance providerKeyPool_eta : Eta providerKeyPool := fun p =>
  {| backendID := backendID p; labels := labels p; failureClasses := failureClasses p;
     failureTimes := failureTimes p; counters := counters p; counter_heap := counter_heap p;
     next_counter := next_counter p; telemetryEnabled := telemetryEnabled p; counterEpoch := counterEpoch p;
     decisions := decisions p; keys := keys p; next := next p; cooldowns := cooldowns p;
     rateFailures := rateFailures p; rateVersions := rateVersions p; rateStreak := rateStreak p;
     rateVersion := rateVersion p; rateProviderUntil := rateProviderUntil p; providerRetry := providerRetry p;
     lastRateLimit := lastRateLimit p; rateProbe := rateProbe p |}.

(** ** Telemetry switch and construction *)

(** [n] new counters, at the pool's next pointers. *)
Fixpoint alloc_counters (n : nat) (p : providerKeyPool) : providerKeyPool :=
  match n with
  | O => p
  | S n =>
      let c := next_counter p in
      alloc_counters n
        (p <| counters := counters p ++ [c] |> <| counter_heap := <[c := new_KeyCounters]> (counter_heap p) |>
           <| next_counter := S c |>)
  end.

Definition setDiagnostics (p : providerKeyPool) (enabled : bool) : providerKeyPool :=
  if Bool.eqb (telemetryEnabled p) enabled then p
  else
    let p := p <| telemetryEnabled := enabled |> <| counterEpoch := increment (counterEpoch p) |>
               <| counters := [] |> <| decisions := [] |> in
    if enabled then alloc_counters (length (keys p)) p else p.

(** [newProviderKeyPool]; [backend] and [key_labels] are the results of
    [assignedKeyLabel], [server] is the pointer to a new shared state. *)
Definition newProviderKeyPool (ks : list string) (backend : string) (key_labels : list string) (server : server_ptr)
    : option providerKeyPool :=
  match ks with
  | [] => None
  | _ =>
      let zeros := replicate (length ks) 0 in
      Some (setDiagnostics
        {| backendID := backend; labels := key_labels; failureClasses := replicate (length ks) "";
           failureTimes := zeros; counters := []; counter_heap := ∅; next_counter := 0; telemetryEnabled := false;
           counterEpoch := 0; decisions := []; keys := ks; next := 0; cooldowns := zeros; rateFailures := zeros;
           rateVersions := zeros; rateStreak := 0; rateVersion := 0; rateProviderUntil := Time.zero;
           providerRetry := server; lastRateLimit := Time.zero; rateProbe := None |} true)
  end.

(** ** Selection *)

Record providerKeyCandidate := Candidate { index : nat; key : string }.

(** An element of a slice; the code would panic out of range, which the
    length invariant below excludes. *)
Definition item (l : list Z) (i : nat) : Z := default 0 (l !! i).

Record candidates_acc := {
  acc_cooldowns : list time;
  acc_result : list providerKeyCandidate;
  acc_earliest : time;
}.

(** [earliest.IsZero() || until.Before(earliest)]: the earlier of two instants,
    the zero time standing for none. *)
Definition earlier (earliest until : time) : time :=
  if Time.is_zero earliest || Time.before until earliest then until else earliest.

(** One iteration of the loop of [CandidatesAt]. *)
Definition candidates_step (p : providerKeyPool) (start : nat) (now : time) (acc : candidates_acc) (offset : nat)
    : candidates_acc :=
  let i := ((start + offset) mod length (keys p))%nat in
  let until := item (acc_cooldowns acc) i in
  if Time.after until now then
    {| acc_cooldowns := acc_cooldowns acc; acc_result := acc_result acc;
       acc_earliest := earlier (acc_earliest acc) until |}
  else
    {| acc_cooldowns := <[i := Time.zero]> (acc_cooldowns acc);
       acc_result := acc_result acc ++ [Candidate i (default "" (keys p !! i))];
       acc_earliest := acc_earliest acc |}.

Definition CandidatesAt (p : providerKeyPool) (s : providerRetryState) (now : time)
    : providerKeyPool * list providerKeyCandidate * duration :=
  let n := length (keys p) in
  if (n =? 0)%nat then (p, [], 0)
  else if Time.after (server_until s) now then (p, [], Time.sub (server_until s) now)
  else
    let start := (next p mod n)%nat in
    let p := p <| next := ((start + 1) mod n)%nat |> in
    let acc := foldl (candidates_step p start now)
                 {| acc_cooldowns := cooldowns p; acc_result := []; acc_earliest := Time.zero |} (seq 0 n) in
    let p := p <| cooldowns := acc_cooldowns acc |> in
    match acc_result acc with
    | [] => if Time.is_zero (acc_earliest acc) then (p, [], 0)
            else (p, [], Time.sub (acc_earliest acc) now)
    | result => (p, result, 0)
    end.

Definition Next (p : providerKeyPool) (s : providerRetryState) (now : time) : providerKeyPool * string :=
  let '(p, candidates, _) := CandidatesAt p s now in
  (p, match candidates with [] => "" | c :: _ => key c end).

(** ** Cooldowns *)

Definition in_range (p : providerKeyPool) (i : Z) : bool := (0 <=? i) && (i <? Z.of_nat (length (keys p))).

(** [if until.After(p.cooldowns[index]) { p.cooldowns[index] = until }] *)
Definition extend (until current : time) : time := if Time.after until current then until else current.
Definition extend_at (p : providerKeyPool) (i : nat) (until : time) : providerKeyPool :=
  p <| cooldowns := <[i := extend until (item (cooldowns p) i)]> (cooldowns p) |>.

Definition record_failure (p : providerKeyPool) (i : nat) (class : string) (now : time) : providerKeyPool :=
  p <| failureClasses := <[i := class]> (failureClasses p) |> <| failureTimes := <[i := now]> (failureTimes p) |>.

Definition CooldownAt (p : providerKeyPool) (i : Z) (delay : duration) (now : time) (reason : option string)
    : providerKeyPool :=
  if negb (in_range p i) then p
  else
    let p := extend_at p (Z.to_nat i) (Time.add now (boundedCooldown delay)) in
    match reason with Some r => record_failure p (Z.to_nat i) r now | None => p end.

Definition CooldownAll (p : providerKeyPool) (delay : duration) (now : time) : providerKeyPool :=
  p <| cooldowns := extend (Time.add now (boundedCooldown delay)) <$> cooldowns p |>.

Record rateLimitObservation := {
  keyVersion : Z;
  providerVersion : Z;
  serverVersion : Z;
}.
Definition no_observation : rateLimitObservation := {| keyVersion := 0; providerVersion := 0; serverVersion := 0 |}.

Definition candidateStateAt (p : providerKeyPool) (s : providerRetryState) (i : Z) (now : time)
    : providerKeyPool * (bool * duration * rateLimitObservation) :=
  if negb (in_range p i) then (p, (false, 0, no_observation))
  else
    let i := Z.to_nat i in
    let until := item (cooldowns p) i in
    let until := if Time.after (server_until s) until then server_until s else until in
    let observation := {| keyVersion := item (rateVersions p) i; providerVersion := rateVersion p;
                          serverVersion := server_version s |} in
    if Time.after until now then (p, (false, Time.sub until now, observation))
    else (p <| cooldowns := <[i := Time.zero]> (cooldowns p) |>, (true, 0, observation)).

Definition CandidateReadyAt (p : providerKeyPool) (s : providerRetryState) (i : Z) (now : time)
    : providerKeyPool * (bool * duration) :=
  let '(p, (ready, delay, _)) := candidateStateAt p s i now in (p, (ready, delay)).

(** The loop of [cooldownWaitLocked]. *)
Fixpoint wait_loop (now : time) (l : list time) (earliest : time) : duration :=
  match l with
  | [] => if Time.is_zero earliest then 0 else Time.sub earliest now
  | until :: l => if negb (Time.after until now) then 0 else wait_loop now l (earlier earliest until)
  end.
Definition cooldownWaitLocked (p : providerKeyPool) (now : time) : duration := wait_loop now (cooldowns p) Time.zero.

Definition CooldownWaitAt (p : providerKeyPool) (s : providerRetryState) (now : time) : duration :=
  if bool_decide (rateProbe p <> None) || bool_decide (server_probe s <> None) then Second
  else
    foldl (fun delay until => let remaining := Time.sub until now in if delay <? remaining then remaining else delay)
      (cooldownWaitLocked p now) [rateProviderUntil p; server_until s].

Definition holdProviderUntil (p : providerKeyPool) (s : providerRetryState) (until : time)
    : providerKeyPool * providerRetryState * time :=
  if Time.is_zero until then (p, s, Time.zero)
  else
    let p := p <| rateVersion := increment (rateVersion p) |> in
    let s := s <| server_version := increment (server_version s) |> in
    let s := if Time.after until (server_until s) then s <| server_until := until |> else s in
    (p, s, server_until s).

(** ** Rate limits *)

(** The counters of [rateLimitedAt]. *)
Definition count_rate_limit (p : providerKeyPool) (i : nat) : providerKeyPool :=
  p <| rateFailures := alter (saturating_inc max_uint16) i (rateFailures p) |>
    <| rateStreak := saturating_inc max_uint16 (rateStreak p) |>
    <| rateVersions := alter increment i (rateVersions p) |>
    <| rateVersion := increment (rateVersion p) |>.

(** The delay of the key after [failures] consecutive limits. *)
Definition rate_key_delay (jitter : duration -> duration) (failures : Z) (upstream : duration) (provided : bool) : duration :=
  let keyDelay := if provided then upstream else boundedRecoveryBackoff "rate_limited" failures upstream jitter in
  let keyDelay := if keyDelay <? Second then Second else keyDelay in
  if (24 * Hour <? keyDelay) || (10 <? failures) then 24 * Hour else keyDelay.

(** The limited key starts its cooldown. *)
Definition limit_key (p : providerKeyPool) (i : nat) (keyDelay : duration) (now : time) : providerKeyPool :=
  (record_failure (extend_at p i (Time.add now keyDelay)) i "rate_limited" now) <| lastRateLimit := now |>.

(** The provider as a whole waits while every key is cooling, a day after more
    than ten limits in a row. *)
Definition limit_provider (p : providerKeyPool) (now : time) : providerKeyPool * duration :=
  let providerDelay := cooldownWaitLocked p now in
  let '(p, providerDelay) :=
    if (0 <? providerDelay) && (10 <? rateStreak p)
    then (p <| cooldowns := extend (Time.add now (24 * Hour)) <$> cooldowns p |>, 24 * Hour)
    else (p, providerDelay) in
  (if 0 <? providerDelay then p <| rateProviderUntil := Time.add now providerDelay |> else p, providerDelay).

Definition rateLimitedAt (jitter : duration -> duration) (p : providerKeyPool) (i : Z) (upstream : duration)
    (provided : bool) (now : time) : providerKeyPool * (duration * duration * Z) :=
  if negb (in_range p i) then (p, (0, 0, 0))
  else
    let i := Z.to_nat i in
    let p := count_rate_limit p i in
    let p := limit_key p i (rate_key_delay jitter (item (rateFailures p) i) upstream provided) now in
    let keyDelay := Time.sub (item (cooldowns p) i) now in
    let '(p, providerDelay) := limit_provider p now in
    (p, (keyDelay, providerDelay, rateStreak p)).

Definition rateSucceeded (p : providerKeyPool) (s : providerRetryState) (i : Z) (o : rateLimitObservation)
    : providerKeyPool * providerRetryState * bool :=
  if negb (in_range p i) then (p, s, false)
  else
    let i := Z.to_nat i in
    let p := if item (rateVersions p) i =? keyVersion o
             then p <| rateFailures := <[i := 0]> (rateFailures p) |> else p in
    if negb (rateVersion p =? providerVersion o) then (p, s, false)
    else if negb (server_version s =? serverVersion o) then (p, s, false)
    else
      let p := p <| rateStreak := 0 |> <| rateProviderUntil := Time.zero |> in
      if negb (Time.is_zero (server_until s))
      then (p, s <| server_until := Time.zero |> <| server_version := increment (server_version s) |>, true)
      else (p, s, true).

(** ** The recovery claim *)

Record rateRecoveryLease := RateLease {
  lease_id : rate_lease_ptr;
  lease_server : option server_ptr;
}.

(** [fresh] is the pointer of the lease that may be allocated. *)
Definition beginRateRecovery (p : providerKeyPool) (s : providerRetryState) (fresh : rate_lease_ptr) (now : time)
    : providerKeyPool * providerRetryState * option rateRecoveryLease * option CallError :=
  if bool_decide (rateProbe p <> None) || bool_decide (server_probe s <> None) then
    (p, s, None, Some ((new_CallError 429 "recovery_in_progress") <| UpstreamNotAttempted := true |>))
  else if ((rateStreak p =? 0) || Time.is_zero (rateProviderUntil p)) && Time.is_zero (server_until s) then
    (p, s, None, None)
  else
    let until := rateProviderUntil p in
    let until := if Time.after (server_until s) until then server_until s else until in
    if Time.after until now then
      let code := if Time.after (server_until s) now then "provider_retry_after_cooling_down"
                  else "provider_rate_limited_cooling_down" in
      (p, s, None, Some ((new_CallError 429 code) <| Cooldown := Time.sub until now |> <| CooldownUntil := until |>
                           <| UpstreamNotAttempted := true |>))
    else
      let p' := p <| rateProbe := Some fresh |> in
      if negb (Time.is_zero (server_until s))
      then (p', s <| server_probe := Some fresh |>, Some (RateLease fresh (Some (providerRetry p))), None)
      else (p', s, Some (RateLease fresh None), None).

(** [s] is the state the lease points to, when it does. *)
Definition finishRateRecovery (p : providerKeyPool) (s : providerRetryState) (lease : option rateRecoveryLease)
    : providerKeyPool * providerRetryState :=
  match lease with
  | None => (p, s)
  | Some l =>
      if bool_decide (rateProbe p = Some (lease_id l)) then
        (p <| rateProbe := None |>,
         match lease_server l with
         | Some _ => if bool_decide (server_probe s = Some (lease_id l)) then s <| server_probe := None |> else s
         | None => s
         end)
      else (p, s)
  end.

(** ** Operational counters *)

Definition set_counters (p : providerKeyPool) (c : counters_ptr) (k : KeyCounters) : providerKeyPool :=
  p <| counter_heap := <[c := k]> (counter_heap p) |>.

Fixpoint prune_decisions (now : time) (l : list KeyFailover) : list KeyFailover :=
  match l with
  | [] => []
  | d :: l' => if keyDecisionTTL <=? Time.sub now (Timestamp d) then prune_decisions now l' else l
  end.
Definition pruneDecisions (p : providerKeyPool) (now : time) : providerKeyPool :=
  p <| decisions := prune_decisions now (decisions p) |>.

(** The counters an attempt of key [i] starts with; [from] is the previous key
    of the request, -1 for none.  The result is the pool and the pointer the
    completion closure captures. *)
Definition beginAttempt (p : providerKeyPool) (i : Z) (first : bool) (from : Z) (reason : string) (now : time)
    : providerKeyPool * option (nat * counters_ptr) :=
  if negb (telemetryEnabled p) || (i <? 0) || (Z.of_nat (length (counters p)) <=? i) then (p, None)
  else
    let i' := Z.to_nat i in
    match counters p !! i' with
    | None => (p, None)
    | Some c =>
        let k := default new_KeyCounters (counter_heap p !! c) in
        let k := k <| HTTPAttempts := increment (HTTPAttempts k) |> <| InFlight := increment (InFlight k) |> in
        let k := if first then k <| Requests := increment (Requests k) |> else k in
        let p := set_counters p c k in
        let p :=
          if (0 <=? from) && negb (from =? i) && (from <? Z.of_nat (length (labels p))) then
            let p := pruneDecisions p now in
            let ds := if (length (decisions p) =? keyDecisionLimit)%nat then tail (decisions p) else decisions p in
            p <| decisions := ds ++ [{| Timestamp := now; From := default "" (labels p !! Z.to_nat from);
                                        To := default "" (labels p !! i'); FailoverReason := reason |}] |>
          else p in
        (p, Some (i', c))
    end.

(** The completion closure of an attempt. *)
Definition finishAttempt (p : providerKeyPool) (i : nat) (c : counters_ptr) (result : HTTPAttemptResult) (now : time)
    : providerKeyPool :=
  if negb (telemetryEnabled p) || negb (bool_decide (counters p !! i = Some c)) then p
  else
    let k := default new_KeyCounters (counter_heap p !! c) in
    let k := if 0 <? InFlight k then k <| InFlight := InFlight k - 1 |> else k in
    let k := switch (Outcome result)
      [(["success"], k <| Successes := increment (Successes k) |>);
       (["canceled"], k <| Cancellations := increment (Cancellations k) |>);
       (["timeout"], k <| Timeouts := increment (Timeouts k) |>)]
      (k <| Failures := increment (Failures k) |>) in
    let p := set_counters p c k in
    if negb (String.eqb (Outcome result) "success") then record_failure p i (FailureClass result) now else p.

(** ** Status *)

Record KeyStatus := {
  Label : string;
  KeyState : string;
  LastFailureClass : string;
  LastFailureAt : time;
  KeyCooldownUntil : time;
  KeyConsecutiveRateLimits : Z;
  KeyCountersField : option KeyCounters;
}.

Record KeyPoolStatus := {
  Capacity : nat;
  Eligible : nat;
  Cooling : nat;
  TelemetryEnabled : bool;
  CounterEpoch : Z;
  Keys : list KeyStatus;
  RecentFailovers : list KeyFailover;
  RecentLimit : nat;
  RecentTTLSeconds : Z;
  ConsecutiveRateLimits : Z;
  RateLimitRetryAt : time;
  ProviderRetryAt : time;
  LastRateLimitAt : time;
  RecoveryInProgress : bool;
}.

Definition key_until (p : providerKeyPool) (s : providerRetryState) (i : nat) : time :=
  let until := item (cooldowns p) i in
  if Time.after (server_until s) until then server_until s else until.

Definition key_status (p : providerKeyPool) (s : providerRetryState) (now : time) (i : nat) (label : string) : KeyStatus :=
  let cooling := Time.after (key_until p s i) now in
  {| Label := label; KeyState := if cooling then "cooling" else "eligible";
     LastFailureClass := default "" (failureClasses p !! i); LastFailureAt := item (failureTimes p) i;
     KeyCooldownUntil := if cooling then key_until p s i else Time.zero;
     KeyConsecutiveRateLimits := item (rateFailures p) i;
     KeyCountersField := if telemetryEnabled p then counters p !! i ≫= (counter_heap p !!.) else None |}.

Definition diagnosticStatus (p : providerKeyPool) (s : providerRetryState) (now : time) : providerKeyPool * KeyPoolStatus :=
  let p := pruneDecisions p now in
  let ks := imap (key_status p s now) (labels p) in
  let cooling k := String.eqb (KeyState k) "cooling" in
  (p, {| Capacity := length (keys p); Eligible := count (fun k => negb (cooling k)) ks; Cooling := count cooling ks;
         TelemetryEnabled := telemetryEnabled p; CounterEpoch := counterEpoch p; Keys := ks;
         RecentFailovers := decisions p; RecentLimit := keyDecisionLimit; RecentTTLSeconds := keyDecisionTTL / Second;
         ConsecutiveRateLimits := rateStreak p; RateLimitRetryAt := rateProviderUntil p;
         ProviderRetryAt := server_until s; LastRateLimitAt := lastRateLimit p;
         RecoveryInProgress := bool_decide (rateProbe p <> None) || bool_decide (server_probe s <> None) |}).
