(* ===== verification/KeyPoolFacts.v ===== *)
(** * Provider key pools: properties

    Selection order and fairness, cooldowns, version fencing of successes, the
    silence after repeated rate limits, the agreement of the status with the
    selection, the single recovery claim and the counters. *)

From S2P Require Import Prelude GoStrings GoFloat Diagnostics Errors Availability KeyPool.

(** ** Well-formed pools *)

Record pool_wf (p : providerKeyPool) : Prop := {
  wf_cooldowns : length (cooldowns p) = length (keys p);
  wf_labels : length (labels p) = length (keys p);
  wf_rateFailures : length (rateFailures p) = length (keys p);
  wf_rateVersions : length (rateVersions p) = length (keys p);
  wf_next : keys p <> [] -> (next p < length (keys p))%nat;
}.

Lemma item_insert l i j x : (i < length l)%nat -> item (<[i := x]> l) j = if decide (i = j) then x else item l j.
Proof.
  intros Hi. unfold item. case_decide; [subst; by rewrite list_lookup_insert_eq|by rewrite list_lookup_insert_ne].
Qed.

Lemma item_default l i : (length l <= i)%nat -> item l i = 0.
Proof. intros H. unfold item. by rewrite lookup_ge_None_2. Qed.

Lemma item_insert_le l i j x y : item l j <= y -> (i = j -> x <= y) -> item (<[i := x]> l) j <= y.
Proof.
  intros H Hx. destruct (decide (i < length l)%nat) as [Hi|Hi].
  - rewrite item_insert by done. case_decide; auto.
  - by rewrite list_insert_ge by lia.
Qed.

Lemma extend_ge until current : current <= extend until current /\ until <= extend until current.
Proof. unfold extend. case_test; lia. Qed.

Lemma in_range_spec p i : reflect (0 <= i < Z.of_nat (length (keys p))) (in_range p i).
Proof. unfold in_range. apply iff_reflect. rewrite andb_true_iff, Z.leb_le, Z.ltb_lt. done. Qed.

(** ** Selection order *)

Section selection.
Context (p : providerKeyPool) (now : time).
#[local] Abbreviation n := (length (keys p)).

(** Keys in round-robin order from [start]. *)
Definition rotation (start : nat) : list nat := (fun k => (start + k) mod n)%nat <$> seq 0 n.

Definition eligible_keys (cd : list time) (order : list nat) : list nat :=
  filter (fun i => item cd i <= now) order.

Definition candidate (i : nat) : providerKeyCandidate := Candidate i (default "" (keys p !! i)).

Lemma rotation_NoDup start : NoDup (rotation start).
Proof.
  unfold rotation. apply NoDup_fmap_2_strong; [|apply NoDup_seq].
  intros a b Ha%elem_of_seq Hb%elem_of_seq Heq.
  assert (H := Nat.div_mod_eq (start + a) n). assert (H' := Nat.div_mod_eq (start + b) n). rewrite Heq in H.
  set (q := ((start + a) / n)%nat) in *. set (q' := ((start + b) / n)%nat) in *.
  destruct (lt_eq_lt_dec q q') as [[?|Hq]|?]; [nia| |nia]. rewrite Hq in H. lia.
Qed.

Lemma elem_of_rotation start i : i ∈ rotation start -> (i < n)%nat.
Proof.
  unfold rotation. intros (k & -> & Hk%elem_of_seq)%list_elem_of_fmap. apply Nat.mod_upper_bound. lia.
Qed.

Lemma rotation_perm start : rotation start ≡ₚ seq 0 n.
Proof.
  apply submseteq_length_Permutation.
  - apply NoDup_submseteq; [apply rotation_NoDup|].
    intros i Hi%elem_of_rotation. apply elem_of_seq. lia.
  - unfold rotation. by rewrite length_fmap.
Qed.

(** The loop of [CandidatesAt]. *)
Lemma candidates_loop start cd : forall l acc,
  NoDup ((fun k => (start + k) mod n)%nat <$> l) ->
  (forall i, i ∈ (fun k => (start + k) mod n)%nat <$> l -> item (acc_cooldowns acc) i = item cd i /\ (i < length (acc_cooldowns acc))%nat) ->
  let visited := (fun k => (start + k) mod n)%nat <$> l in
  let acc' := foldl (candidates_step p start now) acc l in
  acc_result acc' = acc_result acc ++ (candidate <$> eligible_keys cd visited) /\
  acc_earliest acc' = foldl earlier (acc_earliest acc) (item cd <$> filter (fun i => now < item cd i) visited) /\
  length (acc_cooldowns acc') = length (acc_cooldowns acc) /\
  forall j, item (acc_cooldowns acc') j =
    if decide (j ∈ eligible_keys cd visited) then 0 else item (acc_cooldowns acc) j.
Proof.
  induction l as [|k l IH]; intros acc Hnd Hacc; cbn [foldl fmap list_fmap] in *.
  - cbn. by rewrite app_nil_r.
  - apply NoDup_cons in Hnd as [Hk Hnd]. set (i := ((start + k) mod n)%nat) in *.
    destruct (Hacc i ltac:(left)) as [Hi Hlen].
    set (acc1 := candidates_step p start now acc k).
    assert (Hstep : acc1 = if Time.after (item cd i) now
      then {| acc_cooldowns := acc_cooldowns acc; acc_result := acc_result acc; acc_earliest := earlier (acc_earliest acc) (item cd i) |}
      else {| acc_cooldowns := <[i := 0]> (acc_cooldowns acc); acc_result := acc_result acc ++ [candidate i];
              acc_earliest := acc_earliest acc |}).
    { subst acc1. unfold candidates_step. fold i. by rewrite Hi. }
    destruct (IH acc1) as (Hr & He & Hl & Hc).
    + done.
    + intros j Hj. rewrite Hstep. destruct (Time.after _ _); cbn; [apply Hacc; by right|].
      rewrite length_insert, item_insert by done. rewrite decide_False by (by intros ->). apply Hacc. by right.
    + rewrite Hr, He, Hl. unfold eligible_keys in *. rewrite !filter_cons, Hstep in *.
      destruct (after_spec (item cd i) now) as [Ha|Ha]; cbn.
      * rewrite decide_False by lia. rewrite (decide_True (P := now < item cd i)) by done.
        by split_and!.
      * rewrite decide_True by lia. rewrite (decide_False (P := now < item cd i)) by lia. cbn.
        rewrite length_insert, <- (assoc_L (++)). split_and!; try done.
        intros j. rewrite Hc. cbn. rewrite item_insert by done.
        destruct (decide (i = j)) as [->|Hne].
        -- rewrite (decide_True (P := j ∈ j :: _)) by left. by case_decide.
        -- repeat case_decide; try done; exfalso; set_solver.
Qed.
End selection.

(** The minimum that the [earliest] variable computes. *)
Lemma earliest_spec l e :
  (forall x, x ∈ l -> 0 < x) -> 0 <= e ->
  let m := foldl earlier e l in
  (m = e \/ m ∈ l) /\ (0 < e -> m <= e) /\ (forall x, x ∈ l -> m <= x) /\ (l <> [] -> 0 < m) /\ 0 <= m.
Proof.
  revert e. induction l as [|x l IH]; intros e Hpos He; cbn.
  - split_and!; [by left|lia|by intros x ?%not_elem_of_nil|done|done].
  - assert (Hx : 0 < x) by (apply Hpos; left).
    assert (Hmin : earlier e x = if decide (e = 0) then x else Z.min e x).
    { unfold earlier. destruct (is_zero_spec e); cbn [orb]; [by rewrite decide_True|].
      rewrite decide_False by done. destruct (before_spec x e); lia. }
    destruct (IH (earlier e x)) as (Hin & Hle & Hall & _ & Hnn).
    + intros y Hy. apply Hpos. by right.
    + rewrite Hmin. case_decide; lia.
    + assert (0 < earlier e x) by (rewrite Hmin; case_decide; lia). specialize (Hle ltac:(done)).
      set (m := foldl earlier (earlier e x) l) in *. clearbody m.
      assert (Hmx : m <= x) by (rewrite Hmin in Hle; case_decide; lia).
      split_and!.
      * destruct Hin as [->|?]; [|right; by right]. rewrite Hmin. case_decide; [right; left|].
        destruct (Z.min_spec e x) as [[_ ->]|[_ ->]]; [by left|right; left].
      * intros. rewrite Hmin in Hle. case_decide; lia.
      * intros y [->|Hy]%elem_of_cons; auto.
      * intros _. destruct Hin as [->|Hin]; [lia|]. apply Hpos. by right.
      * done.
Qed.

Section candidates.
Context (p : providerKeyPool) (s : providerRetryState) (now : time).
Context (wf : pool_wf p) (Hkeys : keys p <> []) (Hnow : 0 <= now).

Definition selection_start : nat := (next p mod length (keys p))%nat.
Definition selected : list nat := eligible_keys now (cooldowns p) (rotation p selection_start).

Lemma CandidatesAt_held : Time.after (server_until s) now = true ->
  CandidatesAt p s now = (p, [], Time.sub (server_until s) now).
Proof.
  intros H. unfold CandidatesAt. destruct (Nat.eqb_spec (length (keys p)) 0) as [H0|]; [|by rewrite H].
  by destruct (keys p).
Qed.

Lemma eligible_or_cooling order : eligible_keys now (cooldowns p) order = [] ->
  filter (fun i => now < item (cooldowns p) i) order = order.
Proof.
  unfold eligible_keys. induction order as [|i l IH]; [done|]. rewrite !filter_cons.
  destruct (decide (item (cooldowns p) i <= now)); [done|]. rewrite decide_True by lia. intros H. by rewrite IH.
Qed.

Lemma CandidatesAt_free : server_until s <= now ->
  let '(p', result, delay) := CandidatesAt p s now in
  result = candidate p <$> selected /\
  p' = p <| next := ((selection_start + 1) mod length (keys p))%nat |> <| cooldowns := cooldowns p' |> /\
  length (cooldowns p') = length (keys p) /\
  (forall j, (j < length (keys p))%nat ->
     item (cooldowns p') j = if decide (now < item (cooldowns p) j) then item (cooldowns p) j else 0) /\
  delay = match selected with
          | [] => Time.sub (foldl earlier 0 (item (cooldowns p) <$> rotation p selection_start)) now
          | _ => 0
          end.
Proof.
  intros Hs. unfold CandidatesAt. destruct (Nat.eqb_spec (length (keys p)) 0) as [H0|Hn]; [by destruct (keys p)|].
  destruct (after_spec (server_until s) now); [lia|]. fold selection_start.
  set (p1 := p <| next := _ |>).
  pose proof (candidates_loop p1 now selection_start (cooldowns p) (seq 0 (length (keys p)))
     {| acc_cooldowns := cooldowns p1; acc_result := []; acc_earliest := Time.zero |}
     (rotation_NoDup p selection_start)) as Hloop. cbn beta iota zeta delta [acc_cooldowns acc_result acc_earliest] in Hloop.
  destruct Hloop as (Hr & He & Hl & Hc).
  { intros i Hi. split; [done|]. change (cooldowns p1) with (cooldowns p).
    rewrite (wf_cooldowns _ wf). by apply (elem_of_rotation p selection_start). }
  set (acc := foldl _ _ _) in *. clearbody acc.
  change (keys p1) with (keys p) in *. change (cooldowns p1) with (cooldowns p) in *.
  fold (rotation p selection_start) in *. fold selected in Hr, Hc.
  assert (Hfinal : forall j, (j < length (keys p))%nat -> item (acc_cooldowns acc) j =
    if decide (now < item (cooldowns p) j) then item (cooldowns p) j else 0).
  { intros j Hj. rewrite Hc. assert (Hin : j ∈ rotation p selection_start).
    { rewrite rotation_perm. apply elem_of_seq. lia. }
    unfold selected, eligible_keys. destruct (decide (now < item (cooldowns p) j)).
    - rewrite decide_False; [done|]. intros [? _]%list_elem_of_filter. lia.
    - rewrite decide_True; [done|]. apply list_elem_of_filter. split; [lia|done]. }
  rewrite Hr, app_nil_l. destruct selected as [|i l] eqn:Hsel.
  - cbn. assert (Hrot : filter (fun i => now < item (cooldowns p) i) (rotation p selection_start) = rotation p selection_start)
      by (by apply eligible_or_cooling).
    assert (Hne : rotation p selection_start <> []).
    { intros E. apply (f_equal length) in E. unfold rotation in E. rewrite length_fmap, length_seq in E. cbn in E. lia. }
    destruct (earliest_spec (item (cooldowns p) <$> rotation p selection_start) 0) as (_ & _ & _ & Hpos & _).
    + intros x (j & -> & Hj)%list_elem_of_fmap. rewrite <- Hrot in Hj. apply list_elem_of_filter in Hj as [? _]. lia.
    + lia.
    + cbn zeta in Hpos. rewrite He. change (fun i : nat => now < item (cooldowns p) i) with (fun i => now < item (cooldowns p) i).
      rewrite Hrot. destruct (is_zero_spec (foldl earlier Time.zero (item (cooldowns p) <$> rotation p selection_start))) as [Hz|_].
      * change Time.zero with 0 in Hz. rewrite Hz in Hpos. assert (0 < 0); [|lia]. apply Hpos. by destruct (rotation p selection_start).
      * split_and!; try done. etransitivity; [exact Hl|apply wf].
  - cbn [fmap list_fmap]. cbn. split_and!; try done. etransitivity; [exact Hl|apply wf].
Qed.
End candidates.

(** *** Fairness *)

(** The keys of successive requests, one per instant. *)
Fixpoint next_calls (times : list time) (p : providerKeyPool) (s : providerRetryState) : list string :=
  match times with
  | [] => []
  | now :: times => let '(p, k) := Next p s now in k :: next_calls times p s
  end.

Lemma selection_start_next p : pool_wf p -> keys p <> [] -> selection_start p = next p.
Proof. intros wf Hk. unfold selection_start. apply Nat.mod_small. by apply wf. Qed.

(** Selecting keeps the pool well formed. *)
Lemma selected_wf p p' i :
  pool_wf p -> p' = p <| next := i |> <| cooldowns := cooldowns p' |> -> length (cooldowns p') = length (keys p) ->
  (i < length (keys p))%nat -> pool_wf p'.
Proof. intros wf -> Hl Hi. destruct wf. by split. Qed.

Lemma next_calls_spec s times : forall p,
  pool_wf p -> keys p <> [] ->
  (forall now, now ∈ times -> 0 <= now /\ server_until s <= now /\ forall j, (j < length (keys p))%nat -> item (cooldowns p) j <= now) ->
  next_calls times p s =
    (fun k => default "" (keys p !! ((next p + k) mod length (keys p))%nat)) <$> seq 0 (length times).
Proof.
  induction times as [|now times IH]; intros p wf Hk Ht; [done|].
  destruct (Ht now ltac:(left)) as (H0 & Hs & Hcd).
  assert (Hn : length (keys p) <> 0%nat) by (by destruct (keys p)).
  pose proof (CandidatesAt_free p s now wf Hk H0 Hs) as H. cbn [next_calls]. unfold Next.
  destruct (CandidatesAt p s now) as [[p' result] delay]. destruct H as (-> & Hp' & Hl & Hc & _).
  assert (Hsel : selected p now = rotation p (selection_start p)).
  { unfold selected, eligible_keys. apply filter_all. intros j Hj%elem_of_rotation. by apply Hcd. }
  rewrite Hsel, selection_start_next in * by done. cbn [length seq fmap list_fmap]. f_equal.
  - unfold rotation. destruct (length (keys p)) as [|m] eqn:Hlen; [done|]. done.
  - assert (Hi : ((next p + 1) mod length (keys p) < length (keys p))%nat) by (by apply Nat.mod_upper_bound).
    assert (Hk' : keys p' = keys p) by (by rewrite Hp').
    assert (Hnext : next p' = ((next p + 1) mod length (keys p))%nat) by (by rewrite Hp').
    rewrite IH.
    + rewrite Hk', Hnext, <- (fmap_S_seq 0), <- list_fmap_compose. apply list_fmap_ext. intros _ k _. cbn.
      do 2 f_equal. rewrite Nat.Div0.add_mod_idemp_l. f_equal. lia.
    + by eapply selected_wf.
    + by rewrite Hk'.
    + intros now' Hnow'. destruct (Ht now' ltac:(by right)) as (? & ? & Hcd'). rewrite Hk'. split_and!; try done.
      intros j Hj. rewrite Hc by done. case_decide; [by apply Hcd'|done].
Qed.

(** Fair rotation.  As many consecutive requests as the pool has keys, none
    of which is cooling, use every key exactly once, whatever key the pool was
    at. *)
Theorem round_robin_fair p s times :
  pool_wf p -> keys p <> [] -> length times = length (keys p) ->
  (forall now, now ∈ times -> 0 <= now /\ server_until s <= now /\ forall j, (j < length (keys p))%nat -> item (cooldowns p) j <= now) ->
  next_calls times p s ≡ₚ keys p.
Proof.
  intros wf Hk Hlen Ht. rewrite next_calls_spec, Hlen by done.
  change (fun k => default "" (keys p !! ((next p + k) mod length (keys p))%nat))
    with ((fun i => default "" (keys p !! i)) ∘ (fun k => ((next p + k) mod length (keys p))%nat)).
  rewrite list_fmap_compose. fold (rotation p (next p)). rewrite (rotation_perm p (next p)).
  assert (Hid : forall l : list string, (fun i => default "" (l !! i)) <$> seq 0 (length l) = l); [|by rewrite Hid].
  clear. intros l0. induction l0 as [|k l IH]; [done|]. cbn [length seq fmap list_fmap]. f_equal.
  rewrite <- (fmap_S_seq 0), <- list_fmap_compose. rewrite <- IH at 2. by apply list_fmap_ext.
Qed.

(** The status agrees with the selection: at any instant the number of
    keys [diagnosticStatus] calls eligible is the number of candidates a
    request gets, and every key is either eligible or cooling. *)
Theorem status_agrees_with_selection p s now :
  pool_wf p -> 0 <= now ->
  let status := snd (diagnosticStatus p s now) in
  Eligible status = length (snd (fst (CandidatesAt p s now))) /\
  (Eligible status + Cooling status)%nat = Capacity status.
Proof.
  intros wf Hnow. unfold diagnosticStatus. cbn.
  set (st_ := key_status (pruneDecisions p now) s now).
  assert (Hst : forall i lbl, KeyState (st_ i lbl) = if Time.after (key_until p s i) now then "cooling" else "eligible") by done.
  assert (Hcount : forall f, (forall i lbl, f (st_ i lbl) = Time.after (key_until p s i) now) ->
    count f (imap st_ (labels p)) = count (fun i => Time.after (key_until p s i) now) (seq 0 (length (keys p))) /\
    count (fun k => negb (f k)) (imap st_ (labels p)) =
      count (fun i => negb (Time.after (key_until p s i) now)) (seq 0 (length (keys p)))).
  { intros f Hf. rewrite <- (wf_labels p wf). clearbody st_. clear Hst wf.
    generalize (labels p). intros l.
    assert (Hgen : forall (l : list string) o, count f (imap (fun i => st_ (o + i)%nat) l) =
        count (fun i => Time.after (key_until p s i) now) (seq o (length l)) /\
        count (fun k => negb (f k)) (imap (fun i => st_ (o + i)%nat) l) =
        count (fun i => negb (Time.after (key_until p s i) now)) (seq o (length l))).
    { induction l0 as [|x l0 IH]; intros o; [done|]. cbn. rewrite !Hf, Nat.add_0_r.
      destruct (IH (S o)) as [IH1 IH2]. rewrite <- IH1, <- IH2.
      split; f_equal; f_equal; apply imap_ext; intros i y _; cbn; f_equal; lia. }
    apply (Hgen l 0%nat). }
  destruct (Hcount (fun k => String.eqb (KeyState k) "cooling")) as [Hc He].
  { intros i lbl. rewrite Hst. by destruct (Time.after _ _). }
  rewrite Hc, He. split.
  2:{ rewrite count_complement. apply length_seq. }
  clear Hcount Hc He. destruct (decide (keys p = [])) as [Hk|Hk].
  { unfold CandidatesAt. by rewrite Hk. }
  destruct (after_spec (server_until s) now) as [Hs|Hs].
  - rewrite CandidatesAt_held by (done || by apply Z.ltb_lt). cbn. apply count_none. intros i _.
    unfold key_until. repeat case_test; done || lia.
  - pose proof (CandidatesAt_free p s now wf Hk Hnow ltac:(lia)) as H.
    destruct (CandidatesAt p s now) as [[p' result] delay]. destruct H as (-> & _). cbn. rewrite length_fmap.
    unfold selected, eligible_keys. rewrite (rotation_perm p (selection_start p)).
    apply count_filter. intros i _. unfold key_until. repeat case_test; done || lia.
Qed.
