(* ===== verification/KeyPoolTraces.v ===== *)
(** * Provider key pools: properties of sequences of operations

    Cooldowns hold through any interleaving of requests, an older success
    cannot erase a newer limit, and repeated limits silence the provider. *)

From S2P Require Import Prelude GoStrings GoFloat Diagnostics Errors Availability KeyPool KeyPoolFacts.

(** ** Operations on one pool and the wait it shares *)

Inductive pool_op :=
  | OCandidates (now : time)
  | OCooldown (i : Z) (delay : duration) (now : time) (class : option string)
  | OCooldownAll (delay : duration) (now : time)
  | OReady (i : Z) (now : time)
  | ORateLimited (jitter : duration -> duration) (i : Z) (upstream : duration) (provided : bool) (now : time)
  | OSucceeded (i : Z) (o : rateLimitObservation)
  | OHold (until : time)
  | OOtherHold (until : time)  (** another pool of the same endpoint *)
  | OBegin (fresh : nat) (now : time)
  | OFinish (lease : option rateRecoveryLease)
  | ODiagnostics (enabled : bool).

Definition apply_op (op : pool_op) (x : providerKeyPool * providerRetryState) : providerKeyPool * providerRetryState :=
  let '(p, s) := x in
  match op with
  | OCandidates now => (fst (fst (CandidatesAt p s now)), s)
  | OCooldown i delay now class => (CooldownAt p i delay now class, s)
  | OCooldownAll delay now => (CooldownAll p delay now, s)
  | OReady i now => (fst (candidateStateAt p s i now), s)
  | ORateLimited jitter i upstream provided now => (fst (rateLimitedAt jitter p i upstream provided now), s)
  | OSucceeded i o => fst (rateSucceeded p s i o)
  | OHold until => fst (holdProviderUntil p s until)
  | OOtherHold until => (p, snd (fst (holdProviderUntil p s until)))
  | OBegin fresh now => fst (fst (beginRateRecovery p s fresh now))
  | OFinish lease => finishRateRecovery p s lease
  | ODiagnostics enabled => (setDiagnostics p enabled, s)
  end.

Definition run_ops (ops : list pool_op) (x : providerKeyPool * providerRetryState) : providerKeyPool * providerRetryState :=
  foldl (fun x op => apply_op op x) x ops.

(** The instant at which an operation may end a cooldown. *)
Definition op_time (op : pool_op) : option time :=
  match op with OCandidates now | OReady _ now => Some now | _ => None end.

(** ** What the operations keep *)

(** [q] has the keys of [p] and cooldowns that are nowhere shorter. *)
Record cools_more (p q : providerKeyPool) : Prop := {
  more_keys : keys q = keys p;
  more_wf : pool_wf p -> pool_wf q;
  more_cooldowns : forall j, item (cooldowns p) j <= item (cooldowns q) j;
}.

Lemma alloc_counters_fields n p :
  let q := alloc_counters n p in
  q = p <| counters := counters q |> <| counter_heap := counter_heap q |> <| next_counter := next_counter q |>.
Proof.
  revert p. induction n as [|n IH]; intros p; [by destruct p|]. cbn [alloc_counters].
  match goal with |- context [alloc_counters n ?x] => rewrite (IH x) end. done.
Qed.

Lemma setDiagnostics_fields p b :
  let q := setDiagnostics p b in
  q = p <| counters := counters q |> <| counter_heap := counter_heap q |> <| next_counter := next_counter q |>
        <| telemetryEnabled := telemetryEnabled q |> <| counterEpoch := counterEpoch q |> <| decisions := decisions q |>.
Proof.
  unfold setDiagnostics. destruct (Bool.eqb _ _); [by destruct p|]. destruct b; [|done].
  match goal with |- context [alloc_counters ?n ?x] => rewrite (alloc_counters_fields n x) end. done.
Qed.

Lemma cools_more_refl p : cools_more p p.
Proof. by split. Qed.

Lemma extend_at_more p i until : cools_more p (extend_at p i until).
Proof.
  unfold extend_at. split; cbn; [done| |].
  - intros []. split; cbn; rewrite ?length_insert; done.
  - intros j. destruct (decide (i < length (cooldowns p))%nat) as [Hi|Hi].
    + rewrite item_insert by done. case_decide; [subst; apply extend_ge|done].
    + by rewrite list_insert_ge by lia.
Qed.

Lemma extend_all_more p until : cools_more p (p <| cooldowns := extend until <$> cooldowns p |>).
Proof.
  split; cbn; [done| |].
  - intros []. split; cbn; rewrite ?length_fmap; done.
  - intros j. unfold item. rewrite list_lookup_fmap. destruct (cooldowns p !! j); cbn; [apply extend_ge|done].
Qed.

Lemma cools_more_trans p q r : cools_more p q -> cools_more q r -> cools_more p r.
Proof.
  intros [H1 H2 H3] [H1' H2' H3']. split; [congruence|auto|]. intros j. specialize (H3 j). specialize (H3' j). lia.
Qed.

(** Updates of the other fields. *)
Lemma same_more p q :
  keys q = keys p -> cooldowns q = cooldowns p -> labels q = labels p -> next q = next p ->
  length (rateFailures q) = length (rateFailures p) -> length (rateVersions q) = length (rateVersions p) ->
  cools_more p q.
Proof. intros Hk Hc Hl Hn Hf Hv. split; [done| |intros j; by rewrite Hc]. intros []. split; rewrite ?Hk, ?Hc, ?Hl, ?Hn, ?Hf, ?Hv; done. Qed.

Lemma count_rate_limit_more p i : cools_more p (count_rate_limit p i).
Proof. apply same_more; try done; cbn; by rewrite length_alter. Qed.

Lemma limit_key_more p i d now : cools_more p (limit_key p i d now).
Proof. unfold limit_key. eapply cools_more_trans; [apply extend_at_more|by apply same_more]. Qed.

Lemma limit_provider_more p now : cools_more p (fst (limit_provider p now)).
Proof.
  unfold limit_provider. destruct (_ && _).
  - cbn [fst]. destruct (_ <? _); [|apply extend_all_more].
    eapply cools_more_trans; [apply extend_all_more|by apply same_more].
  - cbn [fst]. destruct (_ <? _); [by apply same_more|apply cools_more_refl].
Qed.

Lemma rateLimitedAt_pool jitter p i upstream provided now :
  fst (rateLimitedAt jitter p i upstream provided now) =
    if in_range p i
    then let q := count_rate_limit p (Z.to_nat i) in
         fst (limit_provider (limit_key q (Z.to_nat i)
           (rate_key_delay jitter (item (rateFailures q) (Z.to_nat i)) upstream provided) now) now)
    else p.
Proof. unfold rateLimitedAt. destruct (in_range p i); [cbn [negb]|done]. by destruct (limit_provider _ now). Qed.

Lemma rateLimitedAt_more jitter p i upstream provided now : cools_more p (fst (rateLimitedAt jitter p i upstream provided now)).
Proof.
  rewrite rateLimitedAt_pool. destruct (in_range p i); [|apply cools_more_refl].
  eapply cools_more_trans; [apply count_rate_limit_more|].
  eapply cools_more_trans; [apply limit_key_more|apply limit_provider_more].
Qed.

(** A key cooling beyond the instants of an operation stays so. *)
Lemma apply_op_keeps op p s q t :
  apply_op op (p, s) = (q, t) -> (forall now, op_time op = Some now -> 0 <= now) -> pool_wf p ->
  keys q = keys p /\ pool_wf q /\
  forall j u, (forall now, op_time op = Some now -> now < u) -> u <= item (cooldowns p) j -> u <= item (cooldowns q) j.
Proof.
  intros Hop Htime wf.
  assert (Hmore : forall q, cools_more p q -> keys q = keys p /\ pool_wf q /\
    forall j u, (forall now, op_time op = Some now -> now < u) -> u <= item (cooldowns p) j -> u <= item (cooldowns q) j).
  { intros q' [Hk Hw Hc]. split; [done|]. split; [auto|]. intros j u _ Hu. specialize (Hc j). lia. }
  destruct op; cbn in Hop; simplify_eq.
  - destruct (decide (keys p = [])) as [Hk|Hk].
    { apply Hmore. unfold CandidatesAt. rewrite Hk. cbn. apply cools_more_refl. }
    specialize (Htime now eq_refl). destruct (after_spec (server_until t) now) as [Hs|Hs].
    { apply Hmore. rewrite CandidatesAt_held by (done || by apply Z.ltb_lt). apply cools_more_refl. }
    pose proof (CandidatesAt_free p t now wf Hk Htime ltac:(lia)) as H.
    destruct (CandidatesAt p t now) as [[p' result] delay]. destruct H as (_ & Hp' & Hl & Hc & _). cbn.
    split; [by rewrite Hp'|]. split.
    + eapply selected_wf; [done..|]. apply Nat.mod_upper_bound. by destruct (keys p).
    + intros j u Hu Hj. specialize (Hu now eq_refl). destruct (decide (j < length (keys p))%nat) as [Hlt|Hge].
      * rewrite Hc by done. rewrite decide_True by lia. done.
      * rewrite item_default in Hj by (rewrite (wf_cooldowns _ wf); lia). lia.
  - apply Hmore. unfold CooldownAt. destruct (negb _); [apply cools_more_refl|].
    destruct class; [|apply extend_at_more]. eapply cools_more_trans; [apply extend_at_more|by apply same_more].
  - apply Hmore. apply extend_all_more.
  - specialize (Htime now eq_refl). unfold candidateStateAt. destruct (negb _); [apply Hmore, cools_more_refl|].
    case_test; [apply Hmore, cools_more_refl|]. cbn. split; [done|]. split.
    + destruct wf. split; cbn; rewrite ?length_insert; done.
    + intros j u Hu Hj. specialize (Hu now eq_refl).
      destruct (decide (Z.to_nat i < length (cooldowns p))%nat) as [Hi|Hi]; [|by rewrite list_insert_ge by lia].
      rewrite item_insert by done. case_decide; [|done]. subst. case_test; lia.
  - apply Hmore. apply rateLimitedAt_more.
  - apply Hmore. unfold rateSucceeded in *. repeat case_match; simplify_eq/=; apply same_more; cbn; rewrite ?length_insert; done.
  - apply Hmore. unfold holdProviderUntil in *. repeat case_match; simplify_eq/=; by apply same_more.
  - apply Hmore. apply cools_more_refl.
  - apply Hmore. unfold beginRateRecovery in *. repeat case_match; simplify_eq/=; by apply same_more.
  - apply Hmore. unfold finishRateRecovery in *. repeat case_match; simplify_eq/=; by apply same_more.
  - apply Hmore. rewrite setDiagnostics_fields. by apply same_more.
Qed.

Definition op_before (u : time) (op : pool_op) : Prop := forall now, op_time op = Some now -> 0 <= now < u.

Lemma run_ops_keeps ops p s q t u :
  run_ops ops (p, s) = (q, t) -> Forall (op_before u) ops -> pool_wf p ->
  keys q = keys p /\ pool_wf q /\ forall j, u <= item (cooldowns p) j -> u <= item (cooldowns q) j.
Proof.
  revert p s. induction ops as [|op ops IH]; intros p s Hrun Hall wf; unfold run_ops in Hrun; cbn [foldl] in Hrun; [by simplify_eq|].
  apply Forall_cons in Hall as [Hop Hall]. destruct (apply_op op (p, s)) as [p1 s1] eqn:H1.
  destruct (apply_op_keeps op p s p1 s1 H1) as (Hk1 & wf1 & Hc1); [intros now Hnow; by apply Hop|done|].
  destruct (IH p1 s1 Hrun Hall wf1) as (Hk & wfq & Hc). split_and!; [congruence|done|].
  intros j Hj. apply Hc, Hc1; [|done]. intros now Hnow. by apply Hop.
Qed.

(** No candidate of a request is a cooling key. *)
Lemma candidates_eligible p s now c :
  pool_wf p -> 0 <= now -> c ∈ snd (fst (CandidatesAt p s now)) ->
  item (cooldowns p) (index c) <= now /\ (index c < length (keys p))%nat /\ server_until s <= now.
Proof.
  intros wf Hnow Hc. destruct (decide (keys p = [])) as [Hk|Hk].
  { unfold CandidatesAt in Hc. rewrite Hk in Hc. by apply not_elem_of_nil in Hc. }
  destruct (after_spec (server_until s) now) as [Hs|Hs].
  { rewrite CandidatesAt_held in Hc by (done || by apply Z.ltb_lt). by apply not_elem_of_nil in Hc. }
  pose proof (CandidatesAt_free p s now wf Hk Hnow ltac:(lia)) as H.
  destruct (CandidatesAt p s now) as [[p' result] delay]. destruct H as (-> & _). cbn in Hc.
  apply list_elem_of_fmap in Hc as (i & -> & Hi). unfold selected, eligible_keys in Hi.
  apply list_elem_of_filter in Hi as [Hi Hrot]. apply elem_of_rotation in Hrot. cbn. split_and!; [done|done|lia].
Qed.

(** Cooldowns are respected under every interleaving.  A key cooling until
    [u] is offered to no request and passes no check before dispatch at any
    instant before [u], whatever successes, failures, reloads, claims and
    selections (all at instants before [u]) happen in between. *)
Theorem cooling_key_not_selected ops p s q t i u now :
  pool_wf p -> u <= item (cooldowns p) i -> Forall (op_before u) ops -> run_ops ops (p, s) = (q, t) ->
  0 <= now < u ->
  (forall c, c ∈ snd (fst (CandidatesAt q t now)) -> index c <> i) /\
  fst (snd (CandidateReadyAt q t (Z.of_nat i) now)) = false.
Proof.
  intros wf Hi Hops Hrun Hnow. destruct (run_ops_keeps ops p s q t u Hrun Hops wf) as (_ & wfq & Hc).
  specialize (Hc i Hi). split.
  - intros c Hcand <-. apply candidates_eligible in Hcand as (? & _); [lia|done|lia].
  - unfold CandidateReadyAt, candidateStateAt. destruct (negb _); [done|]. rewrite Nat2Z.id.
    destruct (after_spec (server_until t) (item (cooldowns q) i)); case_test; done || lia.
Qed.

(** ** Version fencing *)

(** Operations that record a limit: a rejected attempt of one of the [n] keys,
    or a wait the provider asked for, here or through another pool. *)
Definition records_limit (n : nat) (op : pool_op) : Prop :=
  match op with
  | ORateLimited _ i _ _ _ => 0 <= i < Z.of_nat n
  | OHold until | OOtherHold until => until <> 0
  | _ => False
  end.

Lemma limit_provider_version p now : rateVersion (fst (limit_provider p now)) = rateVersion p.
Proof. unfold limit_provider. destruct (_ && _); cbn [fst]; by destruct (_ <? _). Qed.

Lemma hold_spec p s until :
  let '(q, t, _) := holdProviderUntil p s until in
  (until = 0 /\ q = p /\ t = s) \/
  (q = p <| rateVersion := increment (rateVersion p) |> /\ server_version t = increment (server_version s) /\
   server_probe t = server_probe s /\ server_until t = Z.max (server_until s) until).
Proof.
  unfold holdProviderUntil. destruct (is_zero_spec until); [by left|]. right. cbn.
  destruct (after_spec until (server_until s)); cbn; split_and!; try done; lia.
Qed.

Lemma apply_op_version op p s q t :
  apply_op op (p, s) = (q, t) ->
  keys q = keys p /\ rateVersion p <= rateVersion q /\ server_version s <= server_version t /\
  (records_limit (length (keys p)) op ->
   rateVersion q = increment (rateVersion p) \/ server_version t = increment (server_version s)).
Proof.
  intros Hop. assert (Hmono := increment_le).
  destruct op; cbn [apply_op] in Hop; simplify_eq; cbn [records_limit].
  - unfold CandidatesAt. destruct (_ =? _)%nat; [done|]. destruct (Time.after _ _); [done|].
    destruct (acc_result _); [destruct (Time.is_zero _)|]; done.
  - unfold CooldownAt. destruct (negb _); [done|]. by destruct class.
  - done.
  - unfold candidateStateAt. destruct (negb _); [done|]. by destruct (Time.after _ now).
  - rewrite rateLimitedAt_pool. destruct (in_range_spec p i) as [Hi|Hi]; [|by split_and!].
    cbn zeta. set (x := limit_key _ _ _ _). rewrite limit_provider_version. split_and!; try done.
    + rewrite (more_keys _ _ (limit_provider_more x now)). done.
    + by left.
  - unfold rateSucceeded in Hop. repeat case_match; simplify_eq/=; split_and!; try done; auto.
  - pose proof (hold_spec p s until) as H. destruct (holdProviderUntil p s until) as [[q' t'] u]. cbn in Hop. simplify_eq.
    destruct H as [(-> & -> & ->)|(-> & Hv & _)]; [done|]. cbn. rewrite Hv. split_and!; auto.
  - pose proof (hold_spec q s until) as H. destruct (holdProviderUntil q s until) as [[q' t'] u]. cbn.
    destruct H as [(-> & -> & ->)|(-> & Hv & _)]; [done|]. rewrite Hv. split_and!; auto. done.
  - unfold beginRateRecovery in Hop. repeat case_match; simplify_eq/=; done.
  - unfold finishRateRecovery in Hop. repeat case_match; simplify_eq/=; done.
  - rewrite setDiagnostics_fields. done.
Qed.

Lemma run_ops_version ops p s q t :
  run_ops ops (p, s) = (q, t) ->
  keys q = keys p /\ rateVersion p <= rateVersion q /\ server_version s <= server_version t /\
  (rateVersion q < max_uint64 -> server_version t < max_uint64 -> Exists (records_limit (length (keys p))) ops ->
   rateVersion p < rateVersion q \/ server_version s < server_version t).
Proof.
  revert p s. induction ops as [|op ops IH]; intros p s Hrun; unfold run_ops in Hrun; cbn [foldl] in Hrun.
  - simplify_eq. split_and!; try done. intros _ _ H. by apply Exists_nil in H.
  - destruct (apply_op op (p, s)) as [p1 s1] eqn:H1.
    destruct (apply_op_version op p s p1 s1 H1) as (Hk1 & Hr1 & Hs1 & Hl1).
    destruct (IH p1 s1 Hrun) as (Hk & Hr & Hs & Hl). split_and!; [congruence|lia|lia|].
    intros Hq Ht [Hop|Hops]%Exists_cons.
    + destruct (Hl1 Hop) as [H|H]; unfold increment, saturating_inc in H; case_test; lia.
    + rewrite <- Hk1 in Hops. destruct (Hl Hq Ht Hops); lia.
Qed.


(** ** Repeated limits *)

Lemma rate_key_delay_range jitter failures upstream provided :
  Second <= rate_key_delay jitter failures upstream provided <= 24 * Hour /\
  (provided = true -> Z.min upstream (24 * Hour) <= rate_key_delay jitter failures upstream provided) /\
  (10 < failures -> rate_key_delay jitter failures upstream provided = 24 * Hour).
Proof.
  unfold rate_key_delay. set (k := if provided then _ else _).
  assert (Hk : provided = true -> k = upstream) by (subst k; by intros ->). clearbody k.
  unfold Hour, Minute, Second. destruct (Z.ltb_spec k 1000000000);
    [destruct (Z.ltb_spec (24 * (60 * (60 * 1000000000))) 1000000000)|destruct (Z.ltb_spec (24 * (60 * (60 * 1000000000))) k)];
    destruct (Z.ltb_spec 10 failures); cbn [orb]; split_and!; try lia; intros Hp; specialize (Hk Hp); lia.
Qed.

Lemma limit_key_item p i d now :
  (i < length (cooldowns p))%nat -> now + d <= item (cooldowns (limit_key p i d now)) i.
Proof.
  intros Hi. unfold limit_key, extend_at. cbn. rewrite item_insert, decide_True by done. apply extend_ge.
Qed.

Lemma item_alter f l i : (i < length l)%nat -> item (alter f i l) i = f (item l i).
Proof.
  intros Hi. unfold item. rewrite list_lookup_alter_eq. by destruct (lookup_lt_is_Some_2 l i Hi) as [x ->].
Qed.

Lemma count_rate_limit_failures p i :
  (i < length (rateFailures p))%nat -> 10 <= item (rateFailures p) i < max_uint16 ->
  10 < item (rateFailures (count_rate_limit p i)) i.
Proof.
  intros Hi Hf. unfold count_rate_limit. cbn. rewrite item_alter by done. unfold saturating_inc. case_test; lia.
Qed.

Lemma limit_provider_spec p now :
  let '(q, d) := limit_provider p now in
  rateStreak q = rateStreak p /\
  (0 < d -> rateProviderUntil q = now + d /\
   (10 < rateStreak p -> d = 24 * Hour /\ forall j, (j < length (cooldowns p))%nat -> now + 24 * Hour <= item (cooldowns q) j)).
Proof.
  unfold limit_provider. set (d := cooldownWaitLocked p now). clearbody d.
  destruct (Z.ltb_spec 0 d); cbn [andb]; [destruct (Z.ltb_spec 10 (rateStreak p))|].
  - cbn [fst]. change (0 <? 24 * Hour) with true. cbn. split; [done|]. intros _. split; [done|]. intros _. split; [done|].
    intros j Hj. unfold item. rewrite list_lookup_fmap. destruct (lookup_lt_is_Some_2 _ _ Hj) as [x ->]. cbn.
    apply extend_ge.
  - rewrite (proj2 (Z.ltb_lt 0 d)) by done. cbn. split; [done|]. intros _. split; [done|lia].
  - rewrite (proj2 (Z.ltb_ge 0 d)) by done. split; [done|lia].
Qed.

#[local] Opaque count_rate_limit limit_key limit_provider.

(** What a rejected attempt does.  The rejected key cools for at least a
    second and for what the provider asked (up to a day), and for a whole day
    from the eleventh limit in a row; when no key is left and the provider has
    rejected more than ten attempts in a row, no request gets any key for a
    day, whatever operations follow. *)
Theorem rate_limit_silences jitter p i upstream provided now q keyDelay providerDelay streak :
  pool_wf p -> 0 <= i < Z.of_nat (length (keys p)) -> 0 <= now ->
  rateLimitedAt jitter p i upstream provided now = (q, (keyDelay, providerDelay, streak)) ->
  now + Second <= item (cooldowns q) (Z.to_nat i) /\
  (provided = true -> now + Z.min upstream (24 * Hour) <= item (cooldowns q) (Z.to_nat i)) /\
  (10 <= item (rateFailures p) (Z.to_nat i) < max_uint16 -> now + 24 * Hour <= item (cooldowns q) (Z.to_nat i)) /\
  (0 < providerDelay -> 10 < streak ->
   providerDelay = 24 * Hour /\ rateProviderUntil q = now + 24 * Hour /\
   forall ops s r t now', Forall (op_before (now + 24 * Hour)) ops -> run_ops ops (q, s) = (r, t) ->
     0 <= now' < now + 24 * Hour -> snd (fst (CandidatesAt r t now')) = []).
Proof.
  intros wf Hi Hnow Hr.
  pose proof (more_wf _ _ (rateLimitedAt_more jitter p i upstream provided now) wf) as wfq.
  pose proof (more_keys _ _ (rateLimitedAt_more jitter p i upstream provided now)) as Hkq. rewrite Hr in wfq, Hkq. cbn in wfq, Hkq.
  unfold rateLimitedAt in Hr. destruct (in_range_spec p i) as [_|]; [cbn [negb] in Hr|done].
  set (p1 := count_rate_limit p (Z.to_nat i)) in Hr.
  pose proof (more_keys _ _ (count_rate_limit_more p (Z.to_nat i))) as Hk1. fold p1 in Hk1.
  assert (wf1 : pool_wf p1) by (apply (more_wf _ _ (count_rate_limit_more p (Z.to_nat i)) wf)).
  assert (Hi1 : (Z.to_nat i < length (cooldowns p1))%nat) by (rewrite (wf_cooldowns _ wf1), Hk1; lia).
  destruct (rate_key_delay_range jitter (item (rateFailures p1) (Z.to_nat i)) upstream provided) as (Hd & Hprov & Hten).
  assert (Hf1 : 10 <= item (rateFailures p) (Z.to_nat i) < max_uint16 -> 10 < item (rateFailures p1) (Z.to_nat i)).
  { intros Hf. subst p1. apply count_rate_limit_failures; [rewrite (wf_rateFailures _ wf); lia|done]. }
  set (d := rate_key_delay _ _ _ _) in *. clearbody d.
  set (p2 := limit_key p1 (Z.to_nat i) d now) in Hr.
  assert (Hcool : now + d <= item (cooldowns p2) (Z.to_nat i)) by (by apply limit_key_item).
  pose proof (more_keys _ _ (limit_key_more p1 (Z.to_nat i) d now)) as Hk2. fold p2 in Hk2.
  assert (wf2 : pool_wf p2) by (apply (more_wf _ _ (limit_key_more p1 (Z.to_nat i) d now) wf1)).
  pose proof (more_cooldowns _ _ (limit_provider_more p2 now) (Z.to_nat i)) as Hmore.
  pose proof (limit_provider_spec p2 now) as Hspec. destruct (limit_provider p2 now) as [q' pd]. simplify_eq. cbn [fst] in Hmore.
  destruct Hspec as (Hstreak & Hpd). split_and!; [lia|intros; specialize (Hprov ltac:(done)); lia|intros Hf; specialize (Hten (Hf1 Hf)); lia|].
  intros Hpos Hten'. rewrite Hstreak in Hten'. destruct (Hpd Hpos) as [Hu Hall]. destruct (Hall Hten') as [-> Hcd].
  split; [done|]. split; [done|]. intros ops s r t now' Hops Hrun Hnow'.
  destruct (run_ops_keeps ops q s r t _ Hrun Hops wfq) as (Hkr & wfr & Hkeep).
  destruct (snd (fst (CandidatesAt r t now'))) as [|c l] eqn:Hc; [done|]. exfalso.
  destruct (candidates_eligible r t now' c wfr ltac:(lia)) as (Hle & Hlt & _); [rewrite Hc; left|].
  specialize (Hkeep (index c)). rewrite Hkr, Hkq in Hlt.
  specialize (Hkeep (Hcd (index c) ltac:(rewrite (wf_cooldowns _ wf2), Hk2, Hk1; lia))). lia.
Qed.

(** ** A concrete pool of three keys *)

Definition demo_pool : providerKeyPool :=
  match newProviderKeyPool ["a"; "b"; "c"] "backend" ["key-1"; "key-2"; "key-3"] 0
    as o return match o with Some _ => providerKeyPool | None => unit end with
  | Some p => p
  | None => tt
  end.
Definition demo_server : providerRetryState := new_providerRetryState.

Lemma demo_wf : pool_wf demo_pool.
Proof. split; try reflexivity. intros _. vm_compute. lia. Qed.

Lemma round_robin_fair_witness : next_calls [10; 11; 12] demo_pool demo_server ≡ₚ keys demo_pool.
Proof.
  apply (round_robin_fair demo_pool demo_server [10; 11; 12]).
  - exact demo_wf.
  - discriminate.
  - reflexivity.
  - assert (Hall : Forall (fun now => 0 <= now /\ server_until demo_server <= now /\
      forall j, (j < 3)%nat -> item (cooldowns demo_pool) j <= now) [10; 11; 12]).
    { repeat constructor; try (vm_compute; discriminate); intros [|[|[|j]]] Hj; try (vm_compute; discriminate); lia. }
    intros now Hin. rewrite Forall_forall in Hall. exact (Hall now Hin).
Defined.

Lemma status_agrees_with_selection_witness :
  let status := snd (diagnosticStatus (CooldownAt demo_pool 1 (5 * Second) 10 None) demo_server Second) in
  Eligible status = length (snd (fst (CandidatesAt (CooldownAt demo_pool 1 (5 * Second) 10 None) demo_server Second))) /\
  (Eligible status + Cooling status)%nat = Capacity status.
Proof.
  apply (status_agrees_with_selection (CooldownAt demo_pool 1 (5 * Second) 10 None) demo_server Second).
  - split; try reflexivity. intros _. vm_compute. lia.
  - vm_compute. discriminate.
Defined.

Definition demo_cooled : providerKeyPool := CooldownAt demo_pool 1 (5 * Second) 10 None.

Lemma demo_cooled_wf : pool_wf demo_cooled.
Proof. split; try reflexivity. intros _. vm_compute. lia. Qed.

Definition demo_ops : list pool_op :=
  [OCandidates 20; OReady 0 30; ORateLimited (fun _ => 0) 2 0 false 40; OSucceeded 0 no_observation; OHold 60].

Lemma demo_ops_before u : 30 < u -> Forall (op_before u) demo_ops.
Proof.
  intros Hu. unfold demo_ops.
  repeat (apply Forall_cons; split; [intros now Hn; cbn in Hn; (discriminate || (injection Hn as <-; lia))|]).
  apply Forall_nil_2.
Qed.

Lemma cooling_key_not_selected_witness :
  let '(q, t) := run_ops demo_ops (demo_cooled, demo_server) in
  (forall c, c ∈ snd (fst (CandidatesAt q t (4 * Second))) -> index c <> 1%nat) /\
  fst (snd (CandidateReadyAt q t (Z.of_nat 1) (4 * Second))) = false.
Proof.
  destruct (run_ops demo_ops (demo_cooled, demo_server)) as [q t] eqn:Hrun.
  apply (cooling_key_not_selected demo_ops demo_cooled demo_server q t 1 (5 * Second + 10) (4 * Second)).
  - exact demo_cooled_wf.
  - vm_compute. discriminate.
  - apply demo_ops_before. reflexivity.
  - exact Hrun.
  - split; [vm_compute; discriminate|reflexivity].
Defined.

(** The state and the observation of a check before dispatch. *)
Definition demo_checked := candidateStateAt demo_pool demo_server 0 10.
Definition demo_limited := run_ops [ORateLimited (fun _ => 0) 2 0 false 40] (fst demo_checked, demo_server).
Definition demo_success := rateSucceeded (fst demo_limited) (snd demo_limited) 0 (snd (snd demo_checked)).


Definition demo_rate := rateLimitedAt (fun _ => 0) demo_pool 2 (3 * Second) true 40.

Lemma rate_limit_silences_witness :
  let '(q, (keyDelay, providerDelay, streak)) := demo_rate in
  40 + Second <= item (cooldowns q) (Z.to_nat 2) /\
  (true = true -> 40 + Z.min (3 * Second) (24 * Hour) <= item (cooldowns q) (Z.to_nat 2)) /\
  (10 <= item (rateFailures demo_pool) (Z.to_nat 2) < max_uint16 -> 40 + 24 * Hour <= item (cooldowns q) (Z.to_nat 2)) /\
  (0 < providerDelay -> 10 < streak ->
   providerDelay = 24 * Hour /\ rateProviderUntil q = 40 + 24 * Hour /\
   forall ops s r t now', Forall (op_before (40 + 24 * Hour)) ops -> run_ops ops (q, s) = (r, t) ->
     0 <= now' < 40 + 24 * Hour -> snd (fst (CandidatesAt r t now')) = []).
Proof.
  destruct demo_rate as [q [[keyDelay providerDelay] streak]] eqn:Hrate.
  apply (rate_limit_silences (fun _ => 0) demo_pool 2 (3 * Second) true 40 q keyDelay providerDelay streak).
  - exact demo_wf.
  - vm_compute. split; [discriminate|reflexivity].
  - lia.
  - exact Hrate.
Defined.
