(* ===== verification/KeyPoolClaims.v ===== *)
(** * Provider key pools: the recovery claim and the attempt counters

    Pools of the same endpoint share a wait through a pointer.  A state holds
    every pool and every shared wait; the steps are the operations of any
    pool, in any order. *)

From S2P Require Import Prelude GoStrings GoFloat Diagnostics Errors Availability KeyPool KeyPoolFacts KeyPoolTraces.

(** ** The recovery claim *)

Record pools := {
  pool_of : gmap nat providerKeyPool;
  server_of : gmap nat providerRetryState;
  live : gmap nat (nat * rateRecoveryLease);  (** leases not finished, with their pool *)
  next_rate_lease : nat;
}.

(** An operation that neither takes nor returns a claim. *)
Definition plain (op : pool_op) : Prop :=
  match op with OBegin _ _ | OFinish _ => False | _ => True end.

Inductive pools_step : pools -> pools -> Prop :=
  | step_plain w k j p s q t op :
      pool_of w !! k = Some p -> providerRetry p = j -> server_of w !! j = Some s ->
      plain op -> apply_op op (p, s) = (q, t) ->
      pools_step w {| pool_of := <[k := q]> (pool_of w); server_of := <[j := t]> (server_of w);
                      live := live w; next_rate_lease := next_rate_lease w |}
  (** the telemetry of an attempt, which other pools do not see *)
  | step_attempt_begins w k p q x i first from reason now :
      pool_of w !! k = Some p -> beginAttempt p i first from reason now = (q, x) ->
      pools_step w {| pool_of := <[k := q]> (pool_of w); server_of := server_of w; live := live w;
                      next_rate_lease := next_rate_lease w |}
  | step_attempt_ends w k p i c result now :
      pool_of w !! k = Some p ->
      pools_step w {| pool_of := <[k := finishAttempt p i c result now]> (pool_of w); server_of := server_of w; live := live w;
                      next_rate_lease := next_rate_lease w |}
  | step_begin_recovery w k j p s q t lease err now :
      pool_of w !! k = Some p -> providerRetry p = j -> server_of w !! j = Some s ->
      beginRateRecovery p s (next_rate_lease w) now = (q, t, lease, err) ->
      pools_step w {| pool_of := <[k := q]> (pool_of w); server_of := <[j := t]> (server_of w);
                      live := match lease with Some l => <[lease_id l := (k, l)]> (live w) | None => live w end;
                      next_rate_lease := S (next_rate_lease w) |}
  | step_finish_recovery w k j p s q t l :
      live w !! lease_id l = Some (k, l) -> pool_of w !! k = Some p -> providerRetry p = j ->
      server_of w !! j = Some s -> finishRateRecovery p s (Some l) = (q, t) ->
      pools_step w {| pool_of := <[k := q]> (pool_of w); server_of := <[j := t]> (server_of w);
                      live := delete (lease_id l) (live w); next_rate_lease := next_rate_lease w |}
  (** a new endpoint, or a new credential generation of an existing one *)
  | step_new_server w j :
      server_of w !! j = None ->
      pools_step w {| pool_of := pool_of w; server_of := <[j := new_providerRetryState]> (server_of w);
                      live := live w; next_rate_lease := next_rate_lease w |}
  | step_new_pool w k j ks backend lbls p :
      pool_of w !! k = None -> is_Some (server_of w !! j) -> newProviderKeyPool ks backend lbls j = Some p ->
      pools_step w {| pool_of := <[k := p]> (pool_of w); server_of := server_of w;
                      live := live w; next_rate_lease := next_rate_lease w |}.

Inductive pools_reachable : pools -> Prop :=
  | pools_start : pools_reachable {| pool_of := ∅; server_of := ∅; live := ∅; next_rate_lease := 0 |}
  | pools_next w w' : pools_reachable w -> pools_step w w' -> pools_reachable w'.

Record claims_inv (w : pools) : Prop := {
  ci_fresh : forall i x, live w !! i = Some x -> (i < next_rate_lease w)%nat;
  ci_id : forall i k l, live w !! i = Some (k, l) -> lease_id l = i;
  ci_server : forall k p, pool_of w !! k = Some p -> is_Some (server_of w !! providerRetry p);
  ci_pool : forall k p i, pool_of w !! k = Some p -> rateProbe p = Some i <-> exists l, live w !! i = Some (k, l);
  ci_lease : forall i k l, live w !! i = Some (k, l) ->
    exists p, pool_of w !! k = Some p /\ (forall j, lease_server l = Some j -> providerRetry p = j);
  ci_probe : forall j s i, server_of w !! j = Some s ->
    server_probe s = Some i <-> exists k l, live w !! i = Some (k, l) /\ lease_server l = Some j;
}.

Lemma plain_keeps_claims op p s q t :
  plain op -> apply_op op (p, s) = (q, t) ->
  rateProbe q = rateProbe p /\ server_probe t = server_probe s /\ providerRetry q = providerRetry p.
Proof.
  intros Hplain Hop. destruct op; cbn [apply_op] in Hop; try done; simplify_eq.
  - unfold CandidatesAt. destruct (_ =? _)%nat; [done|]. destruct (Time.after _ _); [done|].
    destruct (acc_result _); [destruct (Time.is_zero _)|]; done.
  - unfold CooldownAt. destruct (negb _); [done|]. by destruct class.
  - done.
  - unfold candidateStateAt. destruct (negb _); [done|]. by destruct (Time.after _ now).
  - rewrite rateLimitedAt_pool. destruct (in_range p i); [|done]. cbn zeta. set (d := rate_key_delay _ _ _ _). clearbody d.
    unfold limit_provider. destruct (_ && _); cbn [fst]; by destruct (_ <? _).
  - unfold rateSucceeded in Hop. repeat case_match; simplify_eq/=; done.
  - pose proof (hold_spec p s until) as H. destruct (holdProviderUntil p s until) as [[q' t'] u]. cbn in Hop. simplify_eq.
    destruct H as [(-> & -> & ->)|(-> & _ & -> & _)]; done.
  - pose proof (hold_spec q s until) as H. destruct (holdProviderUntil q s until) as [[q' t'] u]. cbn.
    destruct H as [(-> & -> & ->)|(-> & _ & -> & _)]; done.
  - by rewrite setDiagnostics_fields.
Qed.

Lemma begin_spec p s fresh now :
  let '(q, t, lease, err) := beginRateRecovery p s fresh now in
  match lease with
  | None => q = p /\ t = s
  | Some l =>
      rateProbe p = None /\ server_probe s = None /\ err = None /\ lease_id l = fresh /\ q = p <| rateProbe := Some fresh |> /\
      ((lease_server l = None /\ t = s) \/
       (lease_server l = Some (providerRetry p) /\ t = s <| server_probe := Some fresh |>))
  end.
Proof.
  unfold beginRateRecovery. destruct (rateProbe p) eqn:Hp; [done|]. destruct (server_probe s) eqn:Hs; [done|]. cbn [bool_decide].
  repeat case_match; simplify_eq/=; try done; split_and!; try done; auto.
Qed.

Lemma beginAttempt_keeps p i first from reason now :
  let q := (beginAttempt p i first from reason now).1 in rateProbe q = rateProbe p /\ providerRetry q = providerRetry p.
Proof. unfold beginAttempt. by repeat case_match. Qed.

Lemma finishAttempt_keeps p i c result now :
  let q := finishAttempt p i c result now in rateProbe q = rateProbe p /\ providerRetry q = providerRetry p.
Proof. unfold finishAttempt. by repeat case_match. Qed.

(** A pool and its wait may change in everything but the claims. *)
Lemma claims_replace w k j p s q t :
  claims_inv w -> pool_of w !! k = Some p -> providerRetry p = j -> server_of w !! j = Some s ->
  rateProbe q = rateProbe p -> providerRetry q = providerRetry p -> server_probe t = server_probe s ->
  claims_inv {| pool_of := <[k := q]> (pool_of w); server_of := <[j := t]> (server_of w); live := live w;
                next_rate_lease := next_rate_lease w |}.
Proof.
  intros [] Hp Hj Hs Hr Hpr Hsp. split; cbn; try done.
  - intros k' p'. rewrite lookup_insert_is_Some', lookup_insert_Some. intros [[<- <-]|[? Hp']]; [rewrite Hpr; auto|eauto].
  - intros k' p' i. rewrite lookup_insert_Some. intros [[<- <-]|[? Hp']]; [rewrite Hr|]; eauto.
  - intros i k' l Hl. destruct (ci_lease0 i k' l Hl) as (p' & Hp' & Hsv).
    destruct (decide (k = k')) as [->|]; [|exists p'; by rewrite lookup_insert_ne].
    exists q. rewrite lookup_insert_eq. split; [done|]. simplify_eq. by rewrite Hpr.
  - intros j' s' i. rewrite lookup_insert_Some. intros [[<- <-]|[? Hs']]; [rewrite Hsp|]; eauto.
Qed.

Lemma claims_step w w' : claims_inv w -> pools_step w w' -> claims_inv w'.
Proof.
  intros H Hstep. destruct Hstep as [w k j p s q t op Hp Hj Hs Hplain Hop|w k p q x i first from reason now Hp Hb
    |w k p i c result now Hp|w k j p s q t lease err now Hp Hj Hs Hb
    |w k j p s q t l Hl Hp Hj Hs Hf|w j Hj|w k j ks backend lbls p Hk Hj Hnew].
  - destruct (plain_keeps_claims op p s q t Hplain Hop) as (Hr & Hsp & Hpr). by eapply claims_replace.
  - destruct (beginAttempt_keeps p i first from reason now) as [Hr Hpr]. rewrite Hb in Hr, Hpr. cbn in Hr, Hpr.
    destruct (ci_server w H k p Hp) as [s Hs].
    rewrite <- (insert_id (server_of w) (providerRetry p) s Hs). by eapply claims_replace.
  - destruct (finishAttempt_keeps p i c result now) as [Hr Hpr]. destruct (ci_server w H k p Hp) as [s Hs].
    rewrite <- (insert_id (server_of w) (providerRetry p) s Hs). by eapply claims_replace.
  - destruct H. pose proof (begin_spec p s (next_rate_lease w) now) as Hspec. rewrite Hb in Hspec. destruct lease as [l|].
    + destruct Hspec as (Hr & Hsp & _ & Hid & -> & Ht).
      assert (Hnew : live w !! next_rate_lease w = None).
      { destruct (live w !! next_rate_lease w) eqn:E; [|done]. apply ci_fresh0 in E. lia. }
      assert (Hold : forall i x, live w !! i = Some x -> next_rate_lease w <> i) by (intros i x Hi <-; congruence).
      split; cbn; rewrite ?Hid.
      * intros i x. rewrite lookup_insert_Some. intros [[<- <-]|[? Hi]]; [lia|]. apply ci_fresh0 in Hi. lia.
      * intros i k' l'. rewrite lookup_insert_Some. intros [[<- ?]|[? Hi]]; [congruence|eauto].
      * intros k' p'. rewrite lookup_insert_is_Some', lookup_insert_Some. intros [[<- <-]|[? Hp']]; [cbn; auto|eauto].
      * intros k' p' i. rewrite lookup_insert_Some. intros [[<- <-]|[? Hp']]; cbn.
        -- split; [intros [= <-]; exists l; by rewrite lookup_insert_eq|].
           intros (l' & Hl'). rewrite lookup_insert_Some in Hl'. destruct Hl' as [[<- _]|[? Hl']]; [done|].
           assert (rateProbe p = Some i) by (apply (ci_pool0 k p i Hp); eauto). congruence.
        -- rewrite (ci_pool0 k' p' i Hp'). split; intros (l' & Hl').
           ++ exists l'. rewrite lookup_insert_ne; [done|by eapply Hold].
           ++ rewrite lookup_insert_Some in Hl'. destruct Hl' as [[_ ?]|[_ Hl']]; [congruence|eauto].
      * intros i k' l'. rewrite lookup_insert_Some. intros [[<- ?]|[? Hi]]; simplify_eq.
        -- exists (p <| rateProbe := Some (next_rate_lease w) |>). rewrite lookup_insert_eq. split; [done|].
           intros j' Hj'. destruct Ht as [[? _]|[? _]]; cbn; congruence.
        -- destruct (ci_lease0 i k' l' Hi) as (p' & Hp' & Hsv). destruct (decide (k = k')) as [->|].
           ++ exists (p <| rateProbe := Some (next_rate_lease w) |>). rewrite lookup_insert_eq. simplify_eq. done.
           ++ exists p'. by rewrite lookup_insert_ne.
      * intros j' s' i. rewrite lookup_insert_Some. intros [[<- <-]|[Hne Hs']].
        -- destruct Ht as [[Hn ->]|[Hsome ->]]; cbn.
           ++ rewrite Hsp. split; [done|]. intros (k' & l' & Hl' & Hj'). rewrite lookup_insert_Some in Hl'.
              destruct Hl' as [[_ ?]|[? Hl']]; [congruence|].
              assert (server_probe s = Some i) by (apply (ci_probe0 _ _ i Hs); eauto). congruence.
           ++ split; [intros [= <-]; exists k, l; rewrite lookup_insert_eq; split; [done|congruence]|].
              intros (k' & l' & Hl' & Hj'). rewrite lookup_insert_Some in Hl'. destruct Hl' as [[<- _]|[? Hl']]; [done|].
              assert (server_probe s = Some i) by (apply (ci_probe0 _ _ i Hs); eauto). congruence.
        -- rewrite (ci_probe0 j' s' i Hs'). split; intros (k' & l' & Hl' & Hj').
           ++ exists k', l'. rewrite lookup_insert_ne; [done|by eapply Hold].
           ++ rewrite lookup_insert_Some in Hl'. destruct Hl' as [[_ ?]|[? Hl']]; [|eauto].
              simplify_eq. destruct Ht as [[? _]|[? _]]; congruence.
    + destruct Hspec as [-> ->]. rewrite !insert_id by (subst; done). split; cbn; try done.
      intros i x Hi. apply ci_fresh0 in Hi. lia.
  - destruct H. assert (Hprobe : rateProbe p = Some (lease_id l)) by (apply (ci_pool0 k p _ Hp); eauto).
    unfold finishRateRecovery in Hf. rewrite bool_decide_eq_true_2 in Hf by done. simplify_eq.
    assert (Huniq : forall i l', live w !! i = Some (k, l') -> i = lease_id l).
    { intros i l' Hi. assert (rateProbe p = Some i) by (apply (ci_pool0 k p i Hp); eauto). congruence. }
    set (t := match lease_server l with Some _ => _ | None => s end).
    split; cbn.
    + intros i x [? Hi]%lookup_delete_Some. eauto.
    + intros i k' l' [? Hi]%lookup_delete_Some. eauto.
    + intros k' p'. rewrite lookup_insert_is_Some', lookup_insert_Some. intros [[<- <-]|[? Hp']]; [cbn; auto|eauto].
    + intros k' p' i. rewrite lookup_insert_Some. intros [[<- <-]|[? Hp']]; cbn.
      * split; [done|]. intros (l' & [Hne Hi]%lookup_delete_Some). apply Huniq in Hi. congruence.
      * rewrite (ci_pool0 k' p' i Hp'). split; intros (l' & Hl').
        -- exists l'. apply lookup_delete_Some. split; [|done]. intros <-. congruence.
        -- apply lookup_delete_Some in Hl' as [_ Hl']. eauto.
    + intros i k' l' [? Hi]%lookup_delete_Some. destruct (ci_lease0 i k' l' Hi) as (p' & Hp' & Hsv).
      destruct (decide (k = k')) as [->|]; [|exists p'; by rewrite lookup_insert_ne].
      exists (p <| rateProbe := None |>). rewrite lookup_insert_eq. simplify_eq. done.
    + intros j' s' i. rewrite lookup_insert_Some. intros [[<- <-]|[Hne Hs']].
      * destruct (ci_lease0 _ _ _ Hl) as (p' & Hp' & Hsv). simplify_eq.
        subst t. destruct (lease_server l) as [j|] eqn:Hls.
        -- specialize (Hsv j eq_refl). assert (Hsp : server_probe s = Some (lease_id l)).
           { apply (ci_probe0 _ _ _ Hs). exists k, l. split; [done|congruence]. }
           rewrite bool_decide_eq_true_2 by done. cbn. split; [done|].
           intros (k' & l' & [Hne Hi]%lookup_delete_Some & Hj').
           assert (server_probe s = Some i) by (apply (ci_probe0 _ _ i Hs); eauto). congruence.
        -- rewrite (ci_probe0 _ _ i Hs). split; intros (k' & l' & Hi & Hj').
           ++ exists k', l'. split; [|done]. apply lookup_delete_Some. split; [|done]. intros <-. congruence.
           ++ apply lookup_delete_Some in Hi as [_ Hi]. eauto.
      * rewrite (ci_probe0 _ _ i Hs'). split; intros (k' & l' & Hi & Hj').
        -- exists k', l'. split; [|done]. apply lookup_delete_Some. split; [|done]. intros <-. simplify_eq.
           destruct (ci_lease0 _ _ _ Hl) as (p' & Hp' & Hsv). simplify_eq. specialize (Hsv j' Hj'). congruence.
        -- apply lookup_delete_Some in Hi as [_ Hi]. eauto.
  - destruct H. split; cbn; try done.
    + intros k p Hp. rewrite lookup_insert_is_Some'. eauto.
    + intros j' s i. rewrite lookup_insert_Some. intros [[<- <-]|[? Hs]]; [|eauto]. cbn. split; [done|].
      intros (k & l & Hl & Hj'). destruct (ci_lease0 _ _ _ Hl) as (p & Hp & Hsv).
      specialize (Hsv j Hj'). destruct (ci_server0 k p Hp) as [s Hs]. congruence.
  - destruct H. assert (Hq : rateProbe p = None /\ providerRetry p = j).
    { unfold newProviderKeyPool in Hnew. destruct ks; [done|]. injection Hnew as <-. rewrite setDiagnostics_fields. done. }
    destruct Hq as [Hpr Hpj].
    assert (Hno : forall i l, live w !! i <> Some (k, l)).
    { intros i l Hi. destruct (ci_lease0 i k l Hi) as (p' & Hp' & _). congruence. }
    split; cbn; try done.
    + intros k' p'. rewrite lookup_insert_Some. intros [[<- <-]|[? Hp']]; [congruence|eauto].
    + intros k' p' i. rewrite lookup_insert_Some. intros [[<- <-]|[? Hp']]; [|eauto]. rewrite Hpr. split; [done|].
      intros (l & Hl). by destruct (Hno i l).
    + intros i k' l Hi. destruct (ci_lease0 i k' l Hi) as (p' & Hp' & Hsv). exists p'.
      rewrite lookup_insert_ne; [done|]. intros <-. congruence.
Qed.

Lemma pools_reachable_inv w : pools_reachable w -> claims_inv w.
Proof.
  induction 1 as [|w w' _ IH Hstep]; [|by eapply claims_step].
  split; cbn; intros *; rewrite ?lookup_empty; try done.
Qed.

(** One recovery attempt at a time.  Whatever pools and credential
    generations exist, at most one request in flight holds the recovery claim
    of a pool, and at most one, over all the pools of an endpoint, holds the
    claim on the wait the endpoint asked for; and a request is told that a
    recovery is in progress only while such a request exists. *)
Theorem recovery_claim_exclusive w :
  pools_reachable w ->
  (forall i i' k l l', live w !! i = Some (k, l) -> live w !! i' = Some (k, l') -> i = i') /\
  (forall i i' k k' l l' j, live w !! i = Some (k, l) -> live w !! i' = Some (k', l') ->
     lease_server l = Some j -> lease_server l' = Some j -> i = i') /\
  (forall k p s fresh now q t err, pool_of w !! k = Some p -> server_of w !! providerRetry p = Some s ->
     beginRateRecovery p s fresh now = (q, t, None, Some err) -> Code err = "recovery_in_progress" ->
     exists i k' l, live w !! i = Some (k', l) /\ (k' = k \/ lease_server l = Some (providerRetry p))).
Proof.
  intros Hw%pools_reachable_inv. destruct Hw. split_and!.
  - intros i i' k l l' Hi Hi'. destruct (ci_lease0 i k l Hi) as (p & Hp & _).
    assert (rateProbe p = Some i) by (apply (ci_pool0 k p i Hp); eauto).
    assert (rateProbe p = Some i') by (apply (ci_pool0 k p i' Hp); eauto). congruence.
  - intros i i' k k' l l' j Hi Hi' Hj Hj'. destruct (ci_lease0 i k l Hi) as (p & Hp & Hsv).
    specialize (Hsv j Hj). destruct (ci_server0 k p Hp) as [s Hs]. rewrite Hsv in Hs.
    assert (server_probe s = Some i) by (apply (ci_probe0 j s i Hs); eauto).
    assert (server_probe s = Some i') by (apply (ci_probe0 j s i' Hs); eauto). congruence.
  - intros k p s fresh now q t err Hp Hs Hb Hcode. unfold beginRateRecovery in Hb.
    destruct (rateProbe p) as [i|] eqn:Hpr.
    { apply (ci_pool0 k p i Hp) in Hpr as [l Hl]. exists i, k, l. auto. }
    destruct (server_probe s) as [i|] eqn:Hsp.
    { apply (ci_probe0 _ _ i Hs) in Hsp as (k' & l & Hl & Hj). exists i, k', l. auto. }
    exfalso. cbn in Hb. repeat case_match; simplify_eq/=.
Qed.

(** ** Attempt counters *)

(** [n]: attempts started; [opened]: the completion closures not called yet. *)
Inductive attempts_reachable : nat -> providerKeyPool -> list (nat * nat) -> Prop :=
  | attempts_start ks backend lbls j p :
      newProviderKeyPool ks backend lbls j = Some p -> attempts_reachable 0 p []
  | attempts_begin n p opened i first from reason now q x :
      attempts_reachable n p opened -> beginAttempt p i first from reason now = (q, x) ->
      attempts_reachable (S n) q (match x with Some a => opened ++ [a] | None => opened end)
  | attempts_finish n p before after i c result now :
      attempts_reachable n p (before ++ (i, c) :: after) ->
      attempts_reachable n (finishAttempt p i c result now) (before ++ after)
  | attempts_other n p opened s op q t :
      attempts_reachable n p opened -> apply_op op (p, s) = (q, t) -> attempts_reachable n q opened.

Definition settled (k : KeyCounters) : Z := Successes k + Failures k + Cancellations k + Timeouts k.
Definition uses (c : nat) (a : nat * nat) : bool := bool_decide (a.2 = c).

Record balanced (n : nat) (opened : list (nat * nat)) (c : nat) (k : KeyCounters) : Prop := {
  bal_flight : InFlight k = Z.of_nat (count (uses c) opened);
  bal_total : HTTPAttempts k = settled k + InFlight k;
  bal_bound : HTTPAttempts k <= Z.of_nat n;
  bal_nonneg : 0 <= Successes k /\ 0 <= Failures k /\ 0 <= Cancellations k /\ 0 <= Timeouts k;
}.

Record attempts_inv (n : nat) (p : providerKeyPool) (opened : list (nat * nat)) : Prop := {
  ai_nodup : NoDup (counters p);
  ai_bound : forall c, c ∈ counters p -> (c < next_counter p)%nat;
  ai_opened : forall i c, (i, c) ∈ opened -> (c < next_counter p)%nat /\ (c ∈ counters p -> counters p !! i = Some c);
  ai_off : telemetryEnabled p = false -> counters p = [];
  ai_balanced : forall c, c ∈ counters p -> exists k, counter_heap p !! c = Some k /\ balanced n opened c k;
}.

Lemma alloc_counters_spec m p :
  let q := alloc_counters m p in
  counters q = counters p ++ seq (next_counter p) m /\ next_counter q = (next_counter p + m)%nat /\
  forall c, counter_heap q !! c =
    if decide (c ∈ seq (next_counter p) m) then Some new_KeyCounters else counter_heap p !! c.
Proof.
  revert p. induction m as [|m IH]; intros p; cbn [alloc_counters seq].
  - rewrite app_nil_r. split_and!; [done|lia|]. intros c. by rewrite decide_False by apply not_elem_of_nil.
  - match goal with |- context [alloc_counters m ?x] => destruct (IH x) as (Hc & Hn & Hh) end.
    cbn zeta. rewrite Hc, Hn. cbn. split_and!; [by rewrite <- (assoc_L (++))|lia|].
    intros c. rewrite Hh. cbn. destruct (decide (c = next_counter p)) as [->|Hne].
    + rewrite (decide_True (P := _ ∈ _ :: _)) by left. case_decide; [done|]. by rewrite lookup_insert_eq.
    + rewrite lookup_insert_ne by done. repeat case_decide; try done; exfalso; set_solver.
Qed.

Lemma setDiagnostics_inv n p opened b :
  attempts_inv n p opened -> attempts_inv n (setDiagnostics p b) opened.
Proof.
  intros H. unfold setDiagnostics. destruct (Bool.eqb (telemetryEnabled p) b) eqn:Hb; [done|].
  assert (Hop : forall i c, (i, c) ∈ opened -> (c < next_counter p)%nat) by (intros i c Hc; by apply (ai_opened _ _ _ H i)).
  destruct b.
  - set (p1 := p <| telemetryEnabled := true |> <| counterEpoch := _ |> <| counters := [] |> <| decisions := [] |>).
    destruct (alloc_counters_spec (length (keys p1)) p1) as (Hc & Hn & Hh).
    pose proof (alloc_counters_fields (length (keys p1)) p1) as Hf.
    set (q := alloc_counters _ p1) in *. clearbody q. change (counters p1 ++ ?l) with l in Hc.
    change (next_counter p1) with (next_counter p) in *. set (m := length (keys p1)) in *. clearbody m.
    split.
    + rewrite Hc. apply NoDup_seq.
    + intros c. rewrite Hc, Hn. intros ?%elem_of_seq. lia.
    + intros i c Hi. specialize (Hop i c Hi). rewrite Hc, Hn. split; [lia|]. intros ?%elem_of_seq. lia.
    + rewrite Hf. done.
    + intros c Hin. rewrite Hc in Hin. exists new_KeyCounters. rewrite Hh, decide_True by done. split; [done|].
      apply elem_of_seq in Hin. split; [cbn|done|cbn; lia|by cbn]. rewrite count_none; [done|].
      intros [i c'] Hi. apply bool_decide_eq_false. cbn. intros ->. specialize (Hop i c Hi). lia.
  - split; cbn; try done; [constructor|by intros c ?%not_elem_of_nil| |by intros c ?%not_elem_of_nil].
    intros i c Hi. split; [by eapply Hop|]. by intros ?%not_elem_of_nil.
Qed.

Lemma apply_op_counters op p s q t :
  apply_op op (p, s) = (q, t) ->
  (exists b, op = ODiagnostics b) \/
  (counters q = counters p /\ counter_heap q = counter_heap p /\ next_counter q = next_counter p /\
   telemetryEnabled q = telemetryEnabled p).
Proof.
  intros Hop. destruct op; cbn [apply_op] in Hop; simplify_eq; [right..|by left; eexists].
  - unfold CandidatesAt. destruct (_ =? _)%nat; [done|]. destruct (Time.after _ _); [done|].
    destruct (acc_result _); [destruct (Time.is_zero _)|]; done.
  - unfold CooldownAt. destruct (negb _); [done|]. by destruct class.
  - done.
  - unfold candidateStateAt. destruct (negb _); [done|]. by destruct (Time.after _ now).
  - rewrite rateLimitedAt_pool. destruct (in_range p i); [|done]. cbn zeta. set (d := rate_key_delay _ _ _ _). clearbody d.
    unfold limit_provider. destruct (_ && _); cbn [fst]; by destruct (_ <? _).
  - unfold rateSucceeded in Hop. repeat case_match; simplify_eq/=; done.
  - pose proof (hold_spec p s until) as H. destruct (holdProviderUntil p s until) as [[q' t'] u]. cbn in Hop. simplify_eq.
    destruct H as [(-> & -> & ->)|(-> & _)]; done.
  - done.
  - unfold beginRateRecovery in Hop. repeat case_match; simplify_eq/=; done.
  - unfold finishRateRecovery in Hop. repeat case_match; simplify_eq/=; done.
Qed.

Lemma set_counters_inv n m p opened opened' c k :
  attempts_inv n p opened -> (n <= m)%nat -> balanced m opened' c k ->
  (forall c', c' <> c -> count (uses c') opened' = count (uses c') opened) ->
  (forall i c', (i, c') ∈ opened' -> (i, c') ∈ opened \/ (c' = c /\ counters p !! i = Some c)) ->
  attempts_inv m (set_counters p c k) opened'.
Proof.
  intros H Hm Hk Hcount Hop. destruct H. split; cbn; try done.
  - intros i c' Hi. destruct (Hop i c' Hi) as [Hold|[-> Hc]]; [by apply ai_opened0|].
    split; [|done]. apply ai_bound0. by eapply list_elem_of_lookup_2.
  - intros c' Hc'. destruct (decide (c = c')) as [<-|Hne].
    + exists k. by rewrite lookup_insert_eq.
    + destruct (ai_balanced0 c' Hc') as (k' & Hk' & [? ? ? ?]). exists k'. rewrite lookup_insert_ne by done.
      split; [done|]. split; try done; [by rewrite Hcount|lia].
Qed.

Lemma same_counters_inv n m p q opened :
  attempts_inv n p opened -> (n <= m)%nat -> counters q = counters p -> counter_heap q = counter_heap p ->
  next_counter q = next_counter p -> telemetryEnabled q = telemetryEnabled p -> attempts_inv m q opened.
Proof.
  intros H Hm Hc Hh Hn Ht. destruct H. split; rewrite ?Hc, ?Hh, ?Hn, ?Ht; try done.
  intros c Hin. destruct (ai_balanced0 c Hin) as (k & Hk & [? ? ? ?]). exists k. split; [done|]. split; try done. lia.
Qed.

Lemma count_uses_app c l a : count (uses c) (l ++ [a]) = (count (uses c) l + if uses c a then 1 else 0)%nat.
Proof. rewrite count_app. cbn. lia. Qed.

Lemma increment_below k b : k < b -> b <= max_uint64 -> increment k = k + 1.
Proof. unfold increment, saturating_inc. case_test; lia. Qed.

Lemma beginAttempt_inv n p opened i first from reason now q x :
  attempts_inv n p opened -> Z.of_nat (S n) < max_uint64 -> beginAttempt p i first from reason now = (q, x) ->
  attempts_inv (S n) q (match x with Some a => opened ++ [a] | None => opened end).
Proof.
  intros H Hn Hb. unfold beginAttempt in Hb. destruct (_ || _).
  { simplify_eq. eapply same_counters_inv; eauto. }
  destruct (counters p !! Z.to_nat i) as [c|] eqn:Hc; [|simplify_eq; by eapply same_counters_inv; eauto].
  destruct (ai_balanced _ _ _ H c (list_elem_of_lookup_2 _ _ _ Hc)) as (k & Hk & [Hfl Htot Hbnd Hnn]).
  rewrite Hk in Hb. cbn [default from_option] in Hb.
  set (k1 := k <| HTTPAttempts := increment (HTTPAttempts k) |> <| InFlight := increment (InFlight k) |>) in Hb.
  change (id k) with k in Hb. fold k1 in Hb.
  set (k2 := if first then k1 <| Requests := increment (Requests k1) |> else k1) in Hb.
  assert (Hinc : increment (HTTPAttempts k) = HTTPAttempts k + 1) by (apply (increment_below _ max_uint64); lia).
  assert (Hinc' : increment (InFlight k) = InFlight k + 1).
  { apply (increment_below _ max_uint64); [|done]. unfold settled in Htot. lia. }
  assert (Hk2 : balanced (S n) (opened ++ [(Z.to_nat i, c)]) c k2).
  { assert (Hcnt : count (uses c) (opened ++ [(Z.to_nat i, c)]) = S (count (uses c) opened)).
    { rewrite count_uses_app. unfold uses at 2. cbn. rewrite bool_decide_eq_true_2 by done. lia. }
    unfold settled in *. split; subst k2 k1; destruct first; unfold settled; cbn; rewrite ?Hcnt, ?Hinc, ?Hinc'; lia. }
  assert (Hinv : attempts_inv (S n) (set_counters p c k2) (opened ++ [(Z.to_nat i, c)])).
  { eapply (set_counters_inv n (S n) p opened); try done; [lia| |].
    - intros c' Hne. rewrite count_uses_app. unfold uses at 2. cbn. rewrite bool_decide_eq_false_2 by done. lia.
    - intros i' c' [?|Heq%list_elem_of_singleton]%elem_of_app; [by left|right]. by simplify_eq. }
  clearbody k2. destruct (_ && _); simplify_eq; [|done].
  eapply same_counters_inv; [exact Hinv|lia|..]; by destruct (_ =? _)%nat.
Qed.

Lemma finishAttempt_inv n p before after i c result now :
  attempts_inv n p (before ++ (i, c) :: after) -> Z.of_nat n < max_uint64 ->
  attempts_inv n (finishAttempt p i c result now) (before ++ after).
Proof.
  intros H Hn.
  assert (Hsub : forall j c', (j, c') ∈ before ++ after -> (j, c') ∈ before ++ (i, c) :: after) by set_solver.
  assert (Hcnt : forall c', count (uses c') (before ++ (i, c) :: after) =
    (count (uses c') (before ++ after) + if uses c' (i, c) then 1 else 0)%nat).
  { intros c'. rewrite !count_app. cbn. lia. }
  assert (Hdrop : ~ (telemetryEnabled p = true /\ counters p !! i = Some c) -> attempts_inv n p (before ++ after)).
  { intros Hno. destruct H. split; try done; [eauto|].
    intros c' Hc'. destruct (ai_balanced0 c' Hc') as (k & Hk & [Hfl ? ? ?]). exists k. split; [done|]. split; try done.
    rewrite Hfl, Hcnt. unfold uses at 2. cbn. case_bool_decide as Heq; [|f_equal; lia]. subst c'. exfalso. apply Hno.
    split; [|by apply (ai_opened0 i c ltac:(set_solver))].
    destruct (telemetryEnabled p) eqn:E; [done|]. rewrite (ai_off0 eq_refl) in Hc'. by apply not_elem_of_nil in Hc'. }
  unfold finishAttempt. destruct (telemetryEnabled p) eqn:Hon; cbn [negb orb]; [|by apply Hdrop; intros [? _]].
  case_bool_decide as Hc; cbn [negb]; [|by apply Hdrop; intros [_ ?]].
  destruct (ai_balanced _ _ _ H c (list_elem_of_lookup_2 _ _ _ Hc)) as (k & Hk & [Hfl Htot Hbnd Hnn]).
  assert (Hused : uses c (i, c) = true) by (by apply bool_decide_eq_true).
  rewrite Hk. cbn [default from_option]. change (id k) with k.
  specialize (Hcnt c) as Hcc. rewrite Hused in Hcc.
  rewrite (proj2 (Z.ltb_lt 0 (InFlight k))) by lia.
  set (k1 := k <| InFlight := InFlight k - 1 |>).
  set (k2 := switch _ _ _).
  assert (Hk2 : balanced n (before ++ after) c k2).
  { unfold settled in Htot.
    assert (Hs : forall z, 0 <= z -> z <= HTTPAttempts k -> increment z = z + 1)
      by (intros; apply (increment_below _ max_uint64); lia).
    pose proof (Hs (Successes k) ltac:(lia) ltac:(lia)). pose proof (Hs (Failures k) ltac:(lia) ltac:(lia)).
    pose proof (Hs (Cancellations k) ltac:(lia) ltac:(lia)). pose proof (Hs (Timeouts k) ltac:(lia) ltac:(lia)).
    subst k2. unfold switch, member. cbn [existsb]. rewrite !orb_false_r.
    destruct (String.eqb (Outcome result) "success"); [|destruct (String.eqb (Outcome result) "canceled");
      [|destruct (String.eqb (Outcome result) "timeout")]];
      (split; unfold settled; cbn; lia). }
  clearbody k2. assert (Hinv : attempts_inv n (set_counters p c k2) (before ++ after)).
  { eapply (set_counters_inv n n); try done.
    - intros c' Hne. rewrite Hcnt. unfold uses at 3. cbn. rewrite bool_decide_eq_false_2 by done. lia.
    - intros j c' Hj. left. auto. }
  destruct (negb _); [|done]. by eapply same_counters_inv; eauto.
Qed.

Lemma attempts_reachable_inv n p opened :
  attempts_reachable n p opened -> Z.of_nat n < max_uint64 -> attempts_inv n p opened.
Proof.
  induction 1 as [ks backend lbls j p Hnew|n p opened i first from reason now q x Hr IH Hb
    |n p before after i c result now Hr IH|n p opened s op q t Hr IH Hop]; intros Hn.
  - unfold newProviderKeyPool in Hnew. destruct ks as [|k ks]; [done|]. injection Hnew as <-.
    apply setDiagnostics_inv. split; cbn; try done; [constructor|..]; by intros * ?%not_elem_of_nil.
  - eapply beginAttempt_inv; [apply IH; lia|done..].
  - by apply finishAttempt_inv; [apply IH|].
  - destruct (apply_op_counters op p s q t Hop) as [[b ->]|(? & ? & ? & ?)].
    + cbn in Hop. simplify_eq. by apply setDiagnostics_inv, IH.
    + by eapply same_counters_inv; [apply IH| |..].
Qed.

(** The operational counters balance.  For every key, the in-flight counter
    is the number of attempts begun and not finished since telemetry was last
    switched on, and attempts equal successes, failures, cancellations and
    timeouts plus those in flight; attempts of an earlier telemetry epoch never
    change the counters of the current one.  (Counters saturate at 2^64-1; the
    statement is for fewer attempts.) *)
Theorem attempt_counters_balance n p opened i c :
  attempts_reachable n p opened -> Z.of_nat n < max_uint64 -> counters p !! i = Some c ->
  exists k, counter_heap p !! c = Some k /\
    InFlight k = Z.of_nat (count (uses c) opened) /\
    HTTPAttempts k = Successes k + Failures k + Cancellations k + Timeouts k + InFlight k.
Proof.
  intros Hr Hn Hc. pose proof (attempts_reachable_inv n p opened Hr Hn) as H.
  destruct (ai_balanced _ _ _ H c (list_elem_of_lookup_2 _ _ _ Hc)) as (k & Hk & [? Htot ? ?]).
  exists k. unfold settled in Htot. done.
Qed.

(** ** A concrete run *)

Lemma attempt_counters_balance_witness :
  let '(q, x) := beginAttempt demo_pool 1 true (-1) "" 10 in
  exists k, counter_heap q !! 1%nat = Some k /\
    InFlight k = Z.of_nat (count (uses 1) (match x with Some a => [] ++ [a] | None => [] end)) /\
    HTTPAttempts k = Successes k + Failures k + Cancellations k + Timeouts k + InFlight k.
Proof.
  destruct (beginAttempt demo_pool 1 true (-1) "" 10) as [q x] eqn:Hb.
  apply (attempt_counters_balance 1 q (match x with Some a => [] ++ [a] | None => [] end) 1 1).
  - refine (attempts_begin 0 demo_pool [] 1 true (-1) "" 10 q x _ Hb).
    refine (attempts_start ["a"; "b"; "c"] "backend" ["key-1"; "key-2"; "key-3"] 0 demo_pool _). vm_compute. reflexivity.
  - vm_compute. reflexivity.
  - apply (f_equal (fun y => counters (fst y) !! 1%nat)) in Hb. cbn [fst] in Hb. rewrite <- Hb. vm_compute. reflexivity.
Defined.

(** A pool whose provider asked for a wait that is over. *)
Definition demo_pools : pools :=
  {| pool_of := {[0%nat := demo_pool]}; server_of := {[0%nat := demo_server]}; live := ∅; next_rate_lease := 0 |}.

Lemma demo_pools_reachable : pools_reachable demo_pools.
Proof.
  refine (pools_next {| pool_of := ∅; server_of := {[0%nat := demo_server]}; live := ∅; next_rate_lease := 0 |} _ _ _).
  - refine (pools_next _ _ pools_start _). exact (step_new_server _ 0 (lookup_empty 0)).
  - refine (step_new_pool _ 0 0 ["a"; "b"; "c"] "backend" ["key-1"; "key-2"; "key-3"] demo_pool _ _ _);
      [apply lookup_empty|eexists; apply lookup_insert_eq|vm_compute; reflexivity].
Qed.

Definition demo_held := apply_op (OHold 5) (demo_pool, demo_server).
Definition demo_waiting : pools :=
  {| pool_of := <[0%nat := fst demo_held]> (pool_of demo_pools);
     server_of := <[0%nat := snd demo_held]> (server_of demo_pools); live := ∅; next_rate_lease := 0 |}.

Lemma demo_waiting_reachable : pools_reachable demo_waiting.
Proof.
  refine (pools_next _ _ demo_pools_reachable _).
  refine (step_plain demo_pools 0 0 demo_pool demo_server (fst demo_held) (snd demo_held) (OHold 5) _ _ _ I _); vm_compute; reflexivity.
Qed.

Definition demo_begun := beginRateRecovery (fst demo_held) (snd demo_held) 0 10.
Definition demo_recovering : pools :=
  {| pool_of := <[0%nat := fst (fst (fst demo_begun))]> (pool_of demo_waiting);
     server_of := <[0%nat := snd (fst (fst demo_begun))]> (server_of demo_waiting);
     live := {[0%nat := (0%nat, RateLease 0 (Some 0%nat))]}; next_rate_lease := 1 |}.

Lemma demo_recovering_reachable : pools_reachable demo_recovering.
Proof.
  refine (pools_next _ _ demo_waiting_reachable _).
  refine (step_begin_recovery demo_waiting 0 0 (fst demo_held) (snd demo_held) (fst (fst (fst demo_begun)))
           (snd (fst (fst demo_begun))) (Some (RateLease 0 (Some 0%nat))) None 10 _ _ _ _); vm_compute; reflexivity.
Qed.

Lemma recovery_claim_exclusive_witness :
  (forall i i' k l l', live demo_recovering !! i = Some (k, l) -> live demo_recovering !! i' = Some (k, l') -> i = i') /\
  (forall i i' k k' l l' j, live demo_recovering !! i = Some (k, l) -> live demo_recovering !! i' = Some (k', l') ->
     lease_server l = Some j -> lease_server l' = Some j -> i = i') /\
  (forall k p s fresh now q t err, pool_of demo_recovering !! k = Some p -> server_of demo_recovering !! providerRetry p = Some s ->
     beginRateRecovery p s fresh now = (q, t, None, Some err) -> Code err = "recovery_in_progress" ->
     exists i k' l, live demo_recovering !! i = Some (k', l) /\ (k' = k \/ lease_server l = Some (providerRetry p))).
Proof. apply (recovery_claim_exclusive demo_recovering demo_recovering_reachable). Defined.
