(* ===== verification/Routes.v ===== *)
(** * Routes and their recovery

    The route of one request ([routeStep], of internal/gateway/routing.go), the
    remembered failure of a route and its recovery
    (internal/gateway/route_recovery.go), and the pairs of the automatic chain
    (internal/gateway/auto_chain_config.go).  Shared by the automatic chain,
    the session affinity and the routing decisions. *)

From S2P Require Import Prelude GoStrings GoFloat Diagnostics Errors Availability.

(** A session key: the bytes of a SHA-256 digest. *)
Abbreviation sharedModelSessionKey := string (only parsing).

Record routeStep := {
  route_provider : string;
  route_model : string;
  route_sessionKey : option sharedModelSessionKey;
  route_autoChainIndex : option nat;
  route_dynamic : bool;
  route_holdAffinity : bool;
  route_decision : option RoutingDecision;
}.

#[export] Instance routeStep_eta : Eta routeStep := fun r =>
  {| route_provider := route_provider r; route_model := route_model r; route_sessionKey := route_sessionKey r;
     route_autoChainIndex := route_autoChainIndex r; route_dynamic := route_dynamic r;
     route_holdAffinity := route_holdAffinity r; route_decision := route_decision r |}.

(** [routeStep{provider: p, model: m}]. *)
Definition new_routeStep (p m : string) : routeStep :=
  {| route_provider := p; route_model := m; route_sessionKey := None; route_autoChainIndex := None;
     route_dynamic := false; route_holdAffinity := false; route_decision := None |}.

(** ** A remembered failure *)

Abbreviation failure_ptr := nat (only parsing).

Record routeFailure := Failed {
  failure_retryAt : time;
  failure_probing : bool;
}.

Definition failure_eligible (f : option routeFailure) (now : time) : bool :=
  match f with
  | None => true
  | Some f => negb (failure_probing f) && negb (Time.before now (failure_retryAt f))
  end.

Definition recoveryCooldown (err : option CallError) : duration :=
  match err with
  | None => routeRecoveryCooldown
  | Some e =>
      let delay := if ProviderScopedTerminal (CallCategory e) then billingExhaustionCooldown else routeRecoveryCooldown in
      if delay <? Cooldown e then Cooldown e else delay
  end.

(** [completeRecovery]: the probe after the call and the success. *)
Definition completeRecovery (probe : routeFailure) (now : time) (handled : bool) (err : option go_error) (ctxErr : bool)
    : routeFailure * bool :=
  let released := Failed (failure_retryAt probe) false in
  if handled || ctxErr then (released, false)
  else match err with
  | None => (released, true)
  | Some _ =>
      let upstream := as_CallError err in
      if match upstream with None => true | Some e => negb (UpstreamNotAttempted e) end
      then (Failed (Time.add now (recoveryCooldown upstream)) false, false)
      else (released, false)
  end.

(** [autoChainFailureAdvances]: does a failure move later requests elsewhere? *)
Definition autoChainFailureAdvances (err : option CallError) (ctxErr delivered : bool) : bool :=
  match err with
  | None => false
  | Some e =>
      if negb (FailoverSafe e) || ctxErr then false
      else if String.eqb (Code e) "upstream_transport_error" && UpstreamNotAttempted e then negb delivered
      else member (CallCategory e) [ProviderErrorModelNotFound; ProviderErrorInsufficientBalance;
                                    ProviderErrorQuotaExhausted; ProviderErrorTemporarilyUnavailable]
  end.

(** ** Entries of the automatic chain *)

Record AutoChainEntry := ChainEntry {
  entry_provider : string;
  entry_model : string;
}.

#[export] Instance AutoChainEntry_eq_dec : EqDecision AutoChainEntry.
Proof. solve_decision. Defined.
#[export] Instance AutoChainEntry_countable : Countable AutoChainEntry.
Proof.
  apply (inj_countable' (fun e => (entry_provider e, entry_model e)) (fun x => ChainEntry x.1 x.2)). by intros [].
Defined.

(** ** Hashing of session identities *)

Definition hex_digit (n : Z) : byte := if n <? 10 then 48 + n else 87 + n.
(** [hex.EncodeToString]. *)
Definition EncodeToString (digest : string) : string :=
  string_of_bytes (bytes_of_string digest ≫= fun b => [hex_digit (b / 16); hex_digit (b mod 16)]).

Lemma completeRecovery_spec probe now handled err ctxErr f ok :
  completeRecovery probe now handled err ctxErr = (f, ok) ->
  failure_probing f = false /\ (ok = true <-> handled = false /\ ctxErr = false /\ err = None) /\
  (failure_retryAt f = failure_retryAt probe \/ now + routeRecoveryCooldown <= failure_retryAt f).
Proof.
  unfold completeRecovery. destruct handled; [intros [= <- <-]; naive_solver|].
  destruct ctxErr; [intros [= <- <-]; naive_solver|]. cbn. destruct err as [e|]; [|intros [= <- <-]; naive_solver].
  assert (Hno : false = true <-> false = false /\ false = false /\ Some e = None) by (split; [done|by intros (_ & _ & ?)]).
  assert (Hc : forall c, routeRecoveryCooldown <= recoveryCooldown c).
  { unfold recoveryCooldown, routeRecoveryCooldown, billingExhaustionCooldown, Minute, Second.
    intros [c|]; [|done]. destruct (ProviderScopedTerminal _); case_test; lia. }
  destruct e as [c|msg]; cbn [as_CallError]; [destruct (negb _)|];
    intros [= <- <-]; (split; [done|split; [done|]]); unfold Time.add; cbn [failure_retryAt].
  - right. apply Z.add_le_mono_l, (Hc (Some c)).
  - by left.
  - right. apply Z.add_le_mono_l, (Hc None).
Qed.
