(* ===== verification/AutoChain.v ===== *)
(** * The automatic chain: [internal/gateway/auto_chain.go]

    The ordered provider/model pairs that [model: auto] goes through, the
    binding of each logical session to one of them, and the failures that move
    new sessions on.  Failures are compared by pointer in the code, so they
    live in an explicit store.  Every operation holds [s.mu]; the clock is an
    argument, and so is [sha256.Sum256]. *)

From S2P Require Import Prelude GoStrings GoFloat Diagnostics Errors Availability Routes.

Definition defaultAutoChainSessionTTL : duration := 24 * Hour.
Definition autoChainPruneInterval : duration := Minute.

Record autoChainBinding := Binding {
  binding_index : nat;
  lastTouch : time;
}.

Record autoChainSelection := {
  selection_provider : string;
  selection_model : string;
  selection_index : nat;
}.

Record autoChainState := {
  chain : list AutoChainEntry;
  next : nat;
  ttl : duration;
  lastPrune : time;
  sessions : gmap string autoChainBinding;
  failed : gmap nat failure_ptr;
  failure_heap : gmap failure_ptr routeFailure;
  next_failure : failure_ptr;
}.

#[export] Instance autoChainState_eta : Eta autoChainState := fun s =>
  {| chain := chain s; next := next s; ttl := ttl s; lastPrune := lastPrune s; sessions := sessions s;
     failed := failed s; failure_heap := failure_heap s; next_failure := next_failure s |}.

Definition newAutoChainState (entries : list AutoChainEntry) (idleTTL : duration) : autoChainState :=
  {| chain := entries; next := 0;
     ttl := if idleTTL <? defaultAutoChainSessionTTL then defaultAutoChainSessionTTL else idleTTL;
     lastPrune := Time.zero; sessions := ∅; failed := ∅; failure_heap := ∅; next_failure := 0 |}.

(** [s.failed[index]] followed to the failure. *)
Definition failure_at (s : autoChainState) (i : nat) : option routeFailure :=
  failed s !! i ≫= (failure_heap s !!.).

(** [s.failed[index] = &failure]. *)
Definition set_failure (s : autoChainState) (i : nat) (f : routeFailure) : autoChainState :=
  s <| failed := <[i := next_failure s]> (failed s) |>
    <| failure_heap := <[next_failure s := f]> (failure_heap s) |>
    <| next_failure := S (next_failure s) |>.

Definition expired (s : autoChainState) (now : time) (b : autoChainBinding) : bool :=
  ttl s <=? Time.sub now (lastTouch b).

(** ** Selection *)

Definition sweep (s : autoChainState) (now : time) : autoChainState :=
  if Time.is_zero (lastPrune s) || (autoChainPruneInterval <=? Time.sub now (lastPrune s))
  then s <| sessions := filter (fun kv => expired s now kv.2 = false) (sessions s) |> <| lastPrune := now |>
  else s.

(** The closure [valid] of the selection. *)
Definition valid (s : autoChainState) (now : time) (available : option (AutoChainEntry -> bool)) (i : nat) : bool :=
  match chain s !! i with
  | None => false
  | Some e => failure_eligible (failure_at s i) now && match available with None => true | Some f => f e end
  end.

(** A failed earlier entry that may be tried again. *)
Definition reconsidered (s : autoChainState) (now : time) (available : option (AutoChainEntry -> bool)) (i : nat) : bool :=
  bool_decide (is_Some (failed s !! i)) && valid s now available i.

(** The index for a new binding: an earlier failed entry whose cooldown is
    over, else the first valid entry from [next] on. *)
Definition choose_index (s : autoChainState) (now : time) (available : option (AutoChainEntry -> bool)) : option nat :=
  let index := default (next s)
    (List.find (reconsidered s now available) (seq 0 (Nat.min (next s) (length (chain s))))) in
  List.find (valid s now available) (seq index (length (chain s) - index)).

Definition selection (s : autoChainState) (i : nat) : autoChainSelection :=
  let e := default (ChainEntry "" "") (chain s !! i) in
  {| selection_provider := entry_provider e; selection_model := entry_model e; selection_index := i |}.

Section with_hash.
Context (Sum256 : string -> string).

Definition hashAutoChainSessionID (sessionID : string) : string := EncodeToString (Sum256 sessionID).

Definition bind (s : autoChainState) (key : string) (i : nat) (now : time) : autoChainState :=
  s <| sessions := <[key := Binding i now]> (sessions s) |>.

Definition selectForSessionAvailable (s : autoChainState) (sessionID : string) (sticky : bool)
    (available : option (AutoChainEntry -> bool)) (now : time) : autoChainState * option autoChainSelection :=
  if String.eqb sessionID "" || bool_decide (chain s = []) then (s, None)
  else
    let s := if sticky then sweep s now else s in
    let key := hashAutoChainSessionID sessionID in
    let bound := if sticky then
                   match sessions s !! key with
                   | Some b => if negb (expired s now b) && valid s now available (binding_index b)
                               then Some (binding_index b) else None
                   | None => None
                   end
                 else None in
    match bound with
    | Some i => (bind s key i now, Some (selection s i))
    | None =>
        let s := if sticky then s <| sessions := delete key (sessions s) |> else s in
        match choose_index s now available with
        | None => (s, None)
        | Some i => (if sticky then bind s key i now else s, Some (selection s i))
        end
    end.

Definition selectForSession (s : autoChainState) (sessionID : string) (sticky : bool) (now : time)
    : autoChainState * option autoChainSelection := selectForSessionAvailable s sessionID sticky None now.

(** [selectRouteAvailable]: the session key's bytes, or a request without one. *)
Definition session_id (key : option sharedModelSessionKey) : string :=
  match key with Some k => EncodeToString k | None => "request-scoped" end.

Definition selectRouteAvailable (s : autoChainState) (key : option sharedModelSessionKey)
    (available : option (AutoChainEntry -> bool)) (now : time) : autoChainState * option routeStep :=
  let '(s, selected) := selectForSessionAvailable s (session_id key) (bool_decide (is_Some key)) available now in
  (s, (fun c => (new_routeStep (selection_provider c) (selection_model c))
                  <| route_autoChainIndex := Some (selection_index c) |>) <$> selected).

Definition selectRoute (s : autoChainState) (key : option sharedModelSessionKey) (now : time)
    : autoChainState * option routeStep := selectRouteAvailable s key None now.

Definition boundRoute (s : autoChainState) (key : option sharedModelSessionKey) (now : time)
    : autoChainState * option routeStep :=
  match key with
  | None => (s, None)
  | Some k =>
      let id := hashAutoChainSessionID (EncodeToString k) in
      match sessions s !! id with
      | None => (s, None)
      | Some b =>
          match chain s !! binding_index b with
          | Some e =>
              if expired s now b then (s, None)
              else (bind s id (binding_index b) now,
                    Some ((new_routeStep (entry_provider e) (entry_model e))
                            <| route_autoChainIndex := Some (binding_index b) |>
                            <| route_sessionKey := key |> <| route_dynamic := true |>))
          | None => (s, None)
          end
      end
  end.
End with_hash.

(** ** Failures *)

(** [for s.next < len(s.entries) && s.failed[s.next] != nil { s.next++ }]; the
    fuel is the number of entries left. *)
Fixpoint skip_failed (fuel : nat) (s : autoChainState) (i : nat) : nat :=
  match fuel with
  | O => i
  | S fuel => if bool_decide (is_Some (failed s !! i)) then skip_failed fuel s (S i) else i
  end.

Definition recordFailure (s : autoChainState) (i : nat) (err : option CallError) (ctxErr delivered retainBindings : bool)
    (now : time) : autoChainState :=
  if negb (autoChainFailureAdvances err ctxErr delivered) || (length (chain s) <=? i)%nat then s
  else
    let s := set_failure s i (Failed (Time.add now (recoveryCooldown err)) false) in
    let s := if retainBindings then s
             else s <| sessions := filter (fun kv => binding_index kv.2 <> i) (sessions s) |> in
    s <| next := skip_failed (length (chain s) - next s) s (next s) |>.

Definition advanceForNewSessions (s : autoChainState) (i : nat) : autoChainState :=
  if (i =? next s)%nat && (next s <? length (chain s))%nat then s <| next := S (next s) |> else s.

(** The result is the pointer of the failure the caller probes, if any, and
    whether the attempt is allowed. *)
Definition beginRecovery (s : autoChainState) (i : nat) (now : time) : autoChainState * option failure_ptr * bool :=
  match failed s !! i with
  | None => (s, None, true)
  | Some p =>
      match failure_heap s !! p with
      | None => (s, None, true)
      | Some f =>
          if failure_eligible (Some f) now
          then (s <| failure_heap := <[p := Failed (failure_retryAt f) true]> (failure_heap s) |>, Some p, true)
          else (s, None, false)
      end
  end.

Definition finishRecovery (s : autoChainState) (i : nat) (probe : option failure_ptr) (handled : bool)
    (err : option go_error) (ctxErr : bool) (now : time) : autoChainState :=
  match probe with
  | None => s
  | Some p =>
      if bool_decide (failed s !! i = Some p) then
        match failure_heap s !! p with
        | None => s
        | Some f =>
            let '(f, recovered) := completeRecovery f now handled err ctxErr in
            let s := s <| failure_heap := <[p := f]> (failure_heap s) |> in
            if recovered
            then s <| failed := delete i (failed s) |> <| next := Nat.min i (next s) |>
            else s
        end
      else s
  end.

Definition provider_of (s : autoChainState) (i : nat) : string :=
  match chain s !! i with Some e => entry_provider e | None => "" end.

(** [restoreProvider], of route_recovery.go. *)
Definition restore_step (provider : string) (s : autoChainState) (kv : nat * failure_ptr) : autoChainState :=
  if String.eqb (provider_of s kv.1) provider
  then s <| failed := delete kv.1 (failed s) |> <| next := Nat.min kv.1 (next s) |> else s.

Section with_range.
Context {RangeFailed : MapRange nat failure_ptr}.

Definition restoreProvider (s : autoChainState) (provider : string) : autoChainState :=
  foldl (restore_step provider) s (range (failed s)).

(** ** Reconfiguration *)

(** [indices[entry]]: the last position of [entry] in the new chain. *)
Fixpoint last_index (entries : list AutoChainEntry) (from : nat) (e : AutoChainEntry) : option nat :=
  match entries with
  | [] => None
  | e' :: entries =>
      match last_index entries (S from) e with
      | Some i => Some i
      | None => if decide (e = e') then Some from else None
      end
  end.

Section reconfigure.
Context (entries : list AutoChainEntry) (preserve preserveFailures : AutoChainEntry -> bool) (s : autoChainState).

Definition indices (e : AutoChainEntry) : option nat := last_index entries 0 e.

(** The new index of an old one, when its entry is still in the chain. *)
Definition moved (i : nat) : option (AutoChainEntry * nat) :=
  e ← chain s !! i; j ← indices e; Some (e, j).

Definition keep_failure (n : autoChainState) (kv : nat * failure_ptr) : autoChainState :=
  match moved kv.1, failure_heap s !! kv.2 with
  | Some (e, j), Some f => if preserveFailures e then set_failure n j (Failed (failure_retryAt f) false) else n
  | _, _ => n
  end.

Definition keep_binding (now : time) (b : autoChainBinding) : option autoChainBinding :=
  if expired s now b then None
  else match moved (binding_index b) with
  | Some (e, j) => if preserve e then Some (Binding j (lastTouch b)) else None
  | None => None
  end.

(** A failed route with new credentials is eligible again. *)
Definition earlier_next (n : nat) (kv : nat * failure_ptr) : nat :=
  match moved kv.1 with
  | Some (e, j) => if negb (preserveFailures e) && (j <? n)%nat then j else n
  | None => n
  end.

Definition reconfiguredWithFailures (idleTTL : duration) (resetPreference : bool) (now : time) : autoChainState :=
  let n := newAutoChainState entries idleTTL in
  let n := foldl keep_failure n (range (failed s)) in
  let n := n <| sessions := omap (keep_binding now) (sessions s) |> in
  let n := if resetPreference then n
           else n <| next := foldl earlier_next (next s) (range (failed s)) |> in
  n <| lastPrune := now |>.
End reconfigure.

Definition reconfigured (entries : list AutoChainEntry) (preserve : AutoChainEntry -> bool) (s : autoChainState)
    (idleTTL : duration) (resetPreference : bool) (now : time) : autoChainState :=
  reconfiguredWithFailures entries preserve preserve s idleTTL resetPreference now.
End with_range.
