(* ===== verification/AutoChainFacts.v ===== *)
(** * The automatic chain: properties *)

From S2P Require Import Prelude GoStrings GoFloat Diagnostics Errors Availability Routes AutoChain.

(** ** Search loops *)

Lemma find_seq_spec f a n :
  match List.find f (seq a n) with
  | Some i => (a <= i < a + n)%nat /\ f i = true /\ forall j, (a <= j < i)%nat -> f j = false
  | None => forall j, (a <= j < a + n)%nat -> f j = false
  end.
Proof.
  revert a. induction n as [|n IH]; intros a; cbn; [lia|]. destruct (f a) eqn:Ha.
  - split_and!; [lia|lia|done|lia].
  - specialize (IH (S a)). destruct (List.find f (seq (S a) n)) as [i|].
    + destruct IH as (? & ? & Hj). split_and!; [lia|lia|done|]. intros j Hlt.
      destruct (decide (j = a)) as [->|]; [done|]. apply Hj. lia.
    + intros j Hlt. destruct (decide (j = a)) as [->|]; [done|]. apply IH. lia.
Qed.

Lemma valid_lt s now available i : valid s now available i = true -> (i < length (chain s))%nat.
Proof. unfold valid. destruct (chain s !! i) eqn:E; [|done]. intros _. by eapply lookup_lt_Some. Qed.

(** What [choose_index] returns: an earlier failed entry that may be tried
    again, the first such, or the first valid entry from [next] on. *)
Lemma choose_index_spec s now available :
  match choose_index s now available with
  | Some i => valid s now available i = true /\
      (((i < next s)%nat /\ is_Some (failed s !! i) /\ forall j, (j < i)%nat -> reconsidered s now available j = false) \/
       ((next s <= i)%nat /\ (forall j, (next s <= j < i)%nat -> valid s now available j = false) /\
        forall j, (j < next s)%nat -> reconsidered s now available j = false))
  | None => (forall j, (next s <= j)%nat -> valid s now available j = false) /\
            forall j, (j < next s)%nat -> reconsidered s now available j = false
  end.
Proof.
  unfold choose_index.
  pose proof (find_seq_spec (reconsidered s now available) 0 (Nat.min (next s) (length (chain s)))) as Hearly.
  assert (Hout : forall j, (length (chain s) <= j)%nat -> valid s now available j = false).
  { intros j Hj. destruct (valid s now available j) eqn:E; [|done]. apply valid_lt in E. lia. }
  assert (Hrec : forall j, valid s now available j = false -> reconsidered s now available j = false).
  { intros j Hj. unfold reconsidered. by rewrite Hj, andb_false_r. }
  destruct (List.find _ (seq 0 _)) as [e|]; cbn [default from_option].
  - destruct Hearly as (Hlt & He & Hmin). unfold reconsidered in He. apply andb_true_iff in He as [Hf Hv].
    apply bool_decide_eq_true in Hf. change (id e) with e.
    pose proof (find_seq_spec (valid s now available) e (length (chain s) - e)) as Hfind.
    destruct (List.find (valid s now available) _) as [i|].
    + destruct Hfind as (Hi & Hvi & Hbetween). assert (i = e) as ->.
      { destruct (decide (i = e)); [done|]. specialize (Hbetween e ltac:(lia)). congruence. }
      split; [done|]. left. split_and!; [lia|done|]. intros j Hj. apply Hmin. lia.
    + specialize (Hfind e ltac:(lia)). congruence.
  - assert (Hno : forall j, (j < next s)%nat -> reconsidered s now available j = false).
    { intros j Hj. destruct (decide (j < length (chain s))%nat); [apply Hearly; lia|apply Hrec, Hout; lia]. }
    pose proof (find_seq_spec (valid s now available) (next s) (length (chain s) - next s)) as Hfind.
    destruct (List.find (valid s now available) _) as [i|].
    + destruct Hfind as (Hi & Hvi & Hbetween). split; [done|]. right. split_and!; [lia|done|done].
    + split; [|done]. intros j Hj. destruct (decide (j < length (chain s))%nat); [apply Hfind; lia|apply Hout; lia].
Qed.

(** ** Operations *)

Section chain.
Context (Sum256 : string -> string).
Context {RangeFailed : MapRange nat nat}.

Inductive chain_op :=
  | CSelect (sessionID : string) (sticky : bool) (available : option (AutoChainEntry -> bool)) (now : time)
  | CBound (key : option string) (now : time)
  | CFailure (i : nat) (err : option CallError) (ctxErr delivered retain : bool) (now : time)
  | CBegin (i : nat) (now : time)
  | CFinish (i : nat) (probe : option nat) (handled : bool) (err : option go_error) (ctxErr : bool) (now : time)
  | CRestore (provider : string).

Definition apply_chain (s : autoChainState) (op : chain_op) : autoChainState :=
  match op with
  | CSelect id sticky available now => fst (selectForSessionAvailable Sum256 s id sticky available now)
  | CBound key now => fst (boundRoute Sum256 s key now)
  | CFailure i err ctxErr delivered retain now => recordFailure s i err ctxErr delivered retain now
  | CBegin i now => fst (fst (beginRecovery s i now))
  | CFinish i probe handled err ctxErr now => finishRecovery s i probe handled err ctxErr now
  | CRestore provider => restoreProvider s provider
  end.

Definition run_chain (ops : list chain_op) (s : autoChainState) : autoChainState := foldl apply_chain s ops.

(** *** Exhaustion *)

(** Every entry before [next] has a recorded failure. *)
Record chain_inv (s : autoChainState) : Prop := {
  chain_passed : forall j, (j < next s)%nat -> is_Some (failed s !! j);
  chain_heap : forall i p, failed s !! i = Some p -> is_Some (failure_heap s !! p) /\ (p < next_failure s)%nat;
}.

Lemma chain_inv_sessions s s' :
  chain_inv s -> next s' = next s -> failed s' = failed s -> failure_heap s' = failure_heap s ->
  next_failure s' = next_failure s -> chain_inv s'.
Proof. intros [H1 H2] Hn Hf Hh Hp. split; rewrite ?Hn, ?Hf, ?Hh, ?Hp; done. Qed.

Lemma sweep_fields s now :
  chain (sweep s now) = chain s /\ next (sweep s now) = next s /\ failed (sweep s now) = failed s /\
  failure_heap (sweep s now) = failure_heap s /\ next_failure (sweep s now) = next_failure s /\ ttl (sweep s now) = ttl s.
Proof. unfold sweep. by destruct (_ || _). Qed.

Lemma select_fields s id sticky available now s' r :
  selectForSessionAvailable Sum256 s id sticky available now = (s', r) ->
  chain s' = chain s /\ next s' = next s /\ failed s' = failed s /\ failure_heap s' = failure_heap s /\
  next_failure s' = next_failure s /\ ttl s' = ttl s.
Proof.
  unfold selectForSessionAvailable. destruct (_ || _); [by intros [= <- _]|].
  pose proof (sweep_fields s now) as Hsw. set (s1 := if sticky then sweep s now else s).
  assert (H1 : chain s1 = chain s /\ next s1 = next s /\ failed s1 = failed s /\ failure_heap s1 = failure_heap s /\
    next_failure s1 = next_failure s /\ ttl s1 = ttl s) by (subst s1; by destruct sticky).
  clearbody s1. destruct (if sticky then _ else None) as [i|]; [by intros [= <- _]|].
  destruct (choose_index _ _ _); intros [= <- _]; by destruct sticky.
Qed.

Lemma skip_failed_spec fuel s i : forall j, (i <= j < skip_failed fuel s i)%nat -> is_Some (failed s !! j).
Proof.
  revert i. induction fuel as [|fuel IH]; intros i j Hj; cbn in Hj; [lia|].
  case_bool_decide as Hf; [|lia]. destruct (decide (j = i)) as [->|]; [done|]. apply (IH (S i)). lia.
Qed.

Lemma skip_failed_stops fuel s i :
  let k := skip_failed fuel s i in (i <= k <= i + fuel)%nat /\ (k = (i + fuel)%nat \/ failed s !! k = None).
Proof.
  revert i. induction fuel as [|fuel IH]; intros i; cbn; [lia|]. case_bool_decide as Hf.
  - destruct (IH (S i)) as [Hr [Hk|Hk]]; (split; [lia|]); [left; lia|by right].
  - split; [lia|]. right. by apply eq_None_not_Some.
Qed.

Lemma set_failure_inv s i f : chain_inv s -> chain_inv (set_failure s i f).
Proof.
  intros [H1 H2]. unfold set_failure. split; cbn.
  - intros j Hj. rewrite lookup_insert_is_Some'. auto.
  - intros j p. rewrite lookup_insert_Some. intros [[<- <-]|[? Hp]]; [rewrite lookup_insert_eq; split; [eauto|lia]|].
    destruct (H2 j p Hp) as [Hs ?]. rewrite lookup_insert_is_Some'. split; [auto|lia].
Qed.

Lemma recordFailure_inv s i err ctxErr delivered retain now :
  chain_inv s -> chain_inv (recordFailure s i err ctxErr delivered retain now).
Proof.
  intros H. unfold recordFailure. destruct (_ || _); [done|].
  apply (set_failure_inv s i (Failed (Time.add now (recoveryCooldown err)) false)) in H.
  set (s1 := set_failure _ _ _) in *. clearbody s1.
  assert (H2 : chain_inv (if retain then s1 else s1 <| sessions := filter (fun kv => binding_index kv.2 <> i) (sessions s1) |>))
    by (destruct retain; [done|by eapply chain_inv_sessions]).
  set (s2 := if retain then s1 else _) in *. clearbody s2. destruct H2 as [H2 H3]. split; cbn; [|done].
  intros j Hj. destruct (decide (j < next s2)%nat); [auto|]. eapply skip_failed_spec. split; [|exact Hj]. lia.
Qed.

Lemma heap_update_inv s p f : chain_inv s -> is_Some (failure_heap s !! p) ->
  chain_inv (s <| failure_heap := <[p := f]> (failure_heap s) |>).
Proof.
  intros [H1 H2] Hp. split; cbn; [done|]. intros i q Hq. destruct (H2 i q Hq). rewrite lookup_insert_is_Some'. auto.
Qed.

Lemma drop_failure_inv s i : chain_inv s -> chain_inv (s <| failed := delete i (failed s) |> <| next := Nat.min i (next s) |>).
Proof.
  intros [H1 H2]. split; cbn.
  - intros j Hj. rewrite lookup_delete_ne by lia. apply H1. lia.
  - intros j p [_ Hp]%lookup_delete_Some. eauto.
Qed.

Lemma apply_chain_inv s op : chain_inv s -> chain_inv (apply_chain s op).
Proof.
  intros H. destruct op; cbn [apply_chain].
  - destruct (selectForSessionAvailable _ _ _ _ _ _) as [s' r] eqn:Hs. destruct (select_fields _ _ _ _ _ _ _ Hs) as (_ & ? & ? & ? & ? & _).
    by eapply chain_inv_sessions.
  - unfold boundRoute. repeat case_match; try done; by eapply chain_inv_sessions.
  - by apply recordFailure_inv.
  - unfold beginRecovery. destruct (failed s !! i) as [p|]; [|done]. destruct (failure_heap s !! p) eqn:Hp; [|done].
    destruct (failure_eligible _ _); [|done]. cbn. apply heap_update_inv; eauto.
  - unfold finishRecovery. destruct probe as [p|]; [|done]. case_bool_decide; [|done].
    destruct (failure_heap s !! p) eqn:Hp; [|done]. destruct (completeRecovery _ _ _ _ _) as [f ok].
    pose proof (heap_update_inv s p f H (mk_is_Some _ _ Hp)) as H'. destruct ok; [by apply (drop_failure_inv _ i) in H'|done].
  - unfold restoreProvider. revert H. generalize (range (failed s)). intros l. revert s.
    induction l as [|[i p] l IH]; intros s H; [done|]. cbn. apply IH. unfold restore_step. cbn.
    destruct (String.eqb _ _); [by apply drop_failure_inv|done].
Qed.

Lemma run_chain_inv ops s : chain_inv s -> chain_inv (run_chain ops s).
Proof.
  revert s. induction ops as [|op ops IH]; intros s H; [done|]. cbn. apply IH. by apply apply_chain_inv.
Qed.

Lemma new_chain_inv entries idleTTL : chain_inv (newAutoChainState entries idleTTL).
Proof. split; cbn; [lia|]. intros i p. by rewrite lookup_empty. Qed.

(** The chain is exhausted only when nothing in it can be used.  After any
    sequence of selections, failures, probes and recoveries, a request without
    a usable binding gets a route that is valid now (no failure, or one whose
    cooldown is over and that nobody probes, and available), and is refused only
    when no entry of the chain is valid. *)
Theorem chain_selection_complete entries idleTTL ops id sticky available now s' r :
  id <> "" -> entries <> [] ->
  let s := run_chain ops (newAutoChainState entries idleTTL) in
  selectForSessionAvailable Sum256 s id sticky available now = (s', r) ->
  match r with
  | Some c => valid s now available (selection_index c) = true /\ c = selection s (selection_index c)
  | None => forall i, valid s now available i = false
  end.
Proof.
  intros Hid Hne s Hsel. assert (Hinv : chain_inv s) by apply run_chain_inv, new_chain_inv.
  assert (Hchain : chain s = entries).
  { subst s. clear. assert (Hop : forall op s, chain (apply_chain s op) = chain s).
    { intros op s. destruct op; cbn [apply_chain].
      - destruct (selectForSessionAvailable _ _ _ _ _ _) as [s' r] eqn:Hs. by destruct (select_fields _ _ _ _ _ _ _ Hs) as (? & _).
      - unfold boundRoute. by repeat case_match.
      - unfold recordFailure. destruct (_ || _); [done|]. by destruct retain.
      - unfold beginRecovery. by repeat case_match.
      - unfold finishRecovery. by repeat case_match.
      - unfold restoreProvider. generalize (range (failed s)). intros l. revert s.
        induction l as [|[i p] l IH]; intros s; [done|]. cbn. rewrite IH. unfold restore_step. by destruct (String.eqb _ _). }
    assert (Hrun : forall s, chain (run_chain ops s) = chain s).
    { induction ops as [|op l IH]; intros s; [done|]. change (chain (run_chain l (apply_chain s op)) = chain s). by rewrite IH, Hop. }
    by rewrite Hrun. }
  unfold selectForSessionAvailable in Hsel. rewrite (proj2 (String.eqb_neq _ _) Hid) in Hsel.
  rewrite bool_decide_eq_false_2 in Hsel by congruence. cbn [orb] in Hsel.
  set (s1 := if sticky then sweep s now else s) in Hsel.
  assert (Hvalid : forall x, chain x = chain s -> failed x = failed s -> failure_heap x = failure_heap s ->
    forall i, valid x now available i = valid s now available i).
  { intros x Hc Hf Hh i. unfold valid, failure_at. by rewrite Hc, Hf, Hh. }
  assert (H1 : chain s1 = chain s /\ next s1 = next s /\ failed s1 = failed s /\ failure_heap s1 = failure_heap s).
  { subst s1. destruct sticky; [|done]. by destruct (sweep_fields s now) as (? & ? & ? & ? & _). }
  destruct H1 as (Hc1 & Hn1 & Hf1 & Hh1). clearbody s1.
  assert (Hsel' : forall x i, chain x = chain s -> selection x i = selection s i) by (intros x i E; unfold selection; by rewrite E).
  destruct (if sticky then _ else None) as [i|] eqn:Hbound.
  - simplify_eq. cbn. rewrite Hsel' by done. split; [|done]. destruct sticky; [|done].
    destruct (sessions s1 !! _) as [b|]; [|done]. destruct (negb _ && _) eqn:Hb; [|done]. simplify_eq.
    apply andb_true_iff in Hb as [_ Hb]. by rewrite Hvalid in Hb.
  - set (s2 := if sticky then s1 <| sessions := _ |> else s1) in Hsel.
    assert (H2 : chain s2 = chain s /\ next s2 = next s /\ failed s2 = failed s /\ failure_heap s2 = failure_heap s)
      by (subst s2; by destruct sticky).
    destruct H2 as (Hc2 & Hn2 & Hf2 & Hh2). clearbody s2.
    pose proof (choose_index_spec s2 now available) as Hspec. destruct (choose_index s2 now available) as [i|].
    + destruct Hspec as [Hv _]. rewrite Hvalid in Hv by done. simplify_eq. cbn. by rewrite Hsel'.
    + destruct Hspec as [Hlate Hearly]. simplify_eq. intros i. rewrite <- (Hvalid s' Hc2 Hf2 Hh2).
      destruct (decide (next s' <= i)%nat) as [|Hlt]; [by apply Hlate|]. specialize (Hearly i ltac:(lia)).
      unfold reconsidered in Hearly. rewrite bool_decide_eq_true_2 in Hearly; [done|].
      rewrite Hf2. apply Hinv. lia.
Qed.

(** *** Stability of a session's route *)

Abbreviation session_key := (hashAutoChainSessionID Sum256).

(** Operations that leave the binding of session [id] to entry [i] alone,
    while it is less than [ttl] older than [t0]. *)
Definition leaves_binding (id : string) (i : nat) (t0 limit : Z) (op : chain_op) : Prop :=
  match op with
  | CSelect id' sticky _ now => session_key id' <> session_key id /\ Time.sub now t0 < limit
  | CBound _ now => t0 <= now
  | CFailure j err ctxErr delivered retain _ => retain = true \/ j <> i \/ autoChainFailureAdvances err ctxErr delivered = false
  | _ => True
  end.

Definition bound_since (s : autoChainState) (id : string) (i : nat) (t0 : Z) : Prop :=
  exists b, sessions s !! session_key id = Some b /\ binding_index b = i /\ t0 <= lastTouch b.

Lemma not_expired s now t0 b : t0 <= lastTouch b -> Time.sub now t0 < ttl s -> expired s now b = false.
Proof.
  intros Hb Hnow. unfold expired. apply Z.leb_gt. unfold Time.sub in *.
  pose proof (clamp64_mono (now - lastTouch b) (now - t0)). lia.
Qed.

Lemma bind_since s key j now id i t0 :
  bound_since s id i t0 -> (key = session_key id -> j = i /\ t0 <= now) -> bound_since (bind s key j now) id i t0.
Proof.
  intros (b & Hb & Hi & Ht) Hk. unfold bind, bound_since. cbn. destruct (decide (key = session_key id)) as [->|Hne].
  - exists (Binding j now). rewrite lookup_insert_eq. destruct (Hk eq_refl). done.
  - exists b. by rewrite lookup_insert_ne.
Qed.

Lemma apply_chain_binding s op id i t0 :
  bound_since s id i t0 -> leaves_binding id i t0 (ttl s) op ->
  bound_since (apply_chain s op) id i t0 /\ ttl (apply_chain s op) = ttl s.
Proof.
  intros Hb Hop. destruct op; cbn [apply_chain leaves_binding] in *.
  - destruct (selectForSessionAvailable _ _ _ _ _ _) as [s' r] eqn:Hs.
    destruct (select_fields _ _ _ _ _ _ _ Hs) as (_ & _ & _ & _ & _ & Httl). split; [cbn|done].
    destruct Hop as [Hne Hnow]. unfold selectForSessionAvailable in Hs. destruct (_ || _); [by simplify_eq|].
    set (s1 := if sticky then sweep s now else s) in Hs.
    assert (H1 : bound_since s1 id i t0).
    { subst s1. destruct sticky; [|done]. unfold sweep. destruct (_ || _); [|done].
      destruct Hb as (b & Hb & Hi & Ht). exists b. cbn. rewrite map_lookup_filter_Some. split_and!; try done. cbn.
      by eapply not_expired. }
    clearbody s1. destruct (if sticky then _ else None) as [j|].
    { simplify_eq. by apply bind_since. }
    assert (H2 : bound_since (if sticky then s1 <| sessions := delete (session_key sessionID) (sessions s1) |> else s1) id i t0).
    { destruct sticky; [|done]. destruct H1 as (b & Hb1 & Hi & Ht). exists b. cbn. by rewrite lookup_delete_ne. }
    set (s2 := if sticky then _ else s1) in *. clearbody s2.
    destruct (choose_index s2 now available) as [j|]; simplify_eq; [|done]. destruct sticky; [by apply bind_since|done].
  - unfold boundRoute. destruct key as [k|]; [|done]. destruct (sessions s !! _) as [b|] eqn:Hkey; [|done].
    destruct (chain s !! _); [|done]. destruct (expired _ _ _); [done|]. split; [|done]. apply bind_since; [done|].
    intros Heq. rewrite Heq in Hkey. destruct Hb as (b' & Hb & Hi & _). simplify_eq. done.
  - unfold recordFailure. destruct (_ || _) eqn:Hno; [done|]. apply orb_false_iff in Hno as [Hadv%negb_false_iff _].
    destruct Hop as [->|[Hne|?]]; [done| |congruence]. destruct retain; [done|]. split; [|done].
    destruct Hb as (b & Hb & Hi & Ht). exists b. cbn. rewrite map_lookup_filter_Some. split_and!; try done. cbn. congruence.
  - unfold beginRecovery. by repeat case_match.
  - unfold finishRecovery. by repeat case_match.
  - unfold restoreProvider. generalize (range (failed s)). intros l.
    assert (Hl : forall x, bound_since x id i t0 /\ ttl x = ttl s ->
      bound_since (foldl (restore_step provider) x l) id i t0 /\ ttl (foldl (restore_step provider) x l) = ttl s).
    { induction l as [|kv l IH]; intros x Hx; [done|]. cbn. apply IH. unfold restore_step. by destruct (String.eqb _ _). }
    by apply Hl.
Qed.

Lemma run_chain_binding ops : forall s id i t0,
  bound_since s id i t0 -> Forall (leaves_binding id i t0 (ttl s)) ops ->
  bound_since (run_chain ops s) id i t0 /\ ttl (run_chain ops s) = ttl s.
Proof.
  induction ops as [|op ops IH]; intros s id i t0 Hb Hops; [done|]. apply Forall_cons in Hops as [Hop Hops].
  destruct (apply_chain_binding s op id i t0 Hb Hop) as [Hb' Httl].
  change (run_chain (op :: ops) s) with (run_chain ops (apply_chain s op)). rewrite <- Httl in Hops.
  destruct (IH _ id i t0 Hb' Hops) as [? ?]. split; [done|congruence].
Qed.

Lemma select_bound s id i t0 available now :
  bound_since s id i t0 -> id <> "" -> Time.sub now t0 < ttl s -> valid s now available i = true ->
  exists s', selectForSessionAvailable Sum256 s id true available now = (s', Some (selection s i)).
Proof.
  intros (b & Hb & <- & Ht) Hid Hnow Hv. unfold selectForSessionAvailable.
  rewrite (proj2 (String.eqb_neq _ _) Hid), bool_decide_eq_false_2; [cbn [orb]|].
  2:{ intros E. apply valid_lt in Hv. rewrite E in Hv. cbn in Hv. lia. }
  destruct (sweep_fields s now) as (Hc & _ & Hf & Hh & _ & Httl).
  assert (Hb1 : sessions (sweep s now) !! session_key id = Some b).
  { unfold sweep. destruct (_ || _); [|done]. cbn. rewrite map_lookup_filter_Some. split; [done|]. by eapply not_expired. }
  rewrite Hb1. assert (Hexp : expired (sweep s now) now b = false) by (eapply not_expired; [exact Ht|by rewrite Httl]).
  assert (Hv1 : valid (sweep s now) now available (binding_index b) = true) by (unfold valid, failure_at in *; by rewrite Hc, Hf, Hh).
  rewrite Hexp, Hv1. cbn [negb andb]. eexists. unfold selection. by rewrite Hc.
Qed.

(** A session keeps its route.  Once a session got entry [i], it gets the
    same provider and model again, as long as less than the idle time passed
    and the entry is valid, whatever other sessions select, whatever failures
    of other entries, probes and recoveries happen in between. *)
Theorem chain_session_pinned s id available now s1 c ops available' now' :
  selectForSessionAvailable Sum256 s id true available now = (s1, Some c) ->
  Forall (leaves_binding id (selection_index c) now (ttl s)) ops ->
  let s2 := run_chain ops s1 in
  Time.sub now' now < ttl s -> valid s2 now' available' (selection_index c) = true ->
  exists s3, selectForSessionAvailable Sum256 s2 id true available' now' = (s3, Some (selection s2 (selection_index c))).
Proof.
  intros Hsel Hops s2 Hnow' Hv.
  destruct (select_fields _ _ _ _ _ _ _ Hsel) as (_ & _ & _ & _ & _ & Httl).
  assert (Hb : bound_since s1 id (selection_index c) now /\ id <> "").
  { unfold selectForSessionAvailable in Hsel. destruct (String.eqb_spec id ""); [done|]. split; [|done].
    destruct (bool_decide _); [done|]. cbn [orb] in Hsel.
    assert (Hnew : forall x j, bound_since (bind x (session_key id) j now) id j now)
      by (intros x j; exists (Binding j now); cbn; by rewrite lookup_insert_eq).
    destruct (sessions (sweep s now) !! session_key id) as [b|]; [destruct (negb _ && _); [by simplify_eq|]|];
      (destruct (choose_index _ _ _) as [j|]; by simplify_eq). }
  destruct Hb as [Hb Hid]. rewrite <- Httl in Hops. destruct (run_chain_binding ops s1 id _ now Hb Hops) as [Hb2 Httl2].
  eapply select_bound; [exact Hb2|done| |done]. subst s2. by rewrite Httl2, Httl.
Qed.

(** *** Reconfiguration *)

Lemma last_index_spec entries e : forall from i,
  last_index entries from e = Some i -> (from <= i)%nat /\ entries !! (i - from)%nat = Some e.
Proof.
  induction entries as [|e' entries IH]; intros from i; cbn; [done|].
  destruct (last_index entries (S from) e) as [j|] eqn:Hj.
  - intros [= <-]. destruct (IH (S from) j Hj) as [Hle Hl]. split; [lia|].
    replace (j - from)%nat with (S (j - S from)) by lia. done.
  - case_decide; [|done]. intros [= <-]. by rewrite Nat.sub_diag; subst.
Qed.

Lemma last_index_None entries e : forall from, last_index entries from e = None <-> e ∉ entries.
Proof.
  induction entries as [|e' entries IH]; intros from; cbn.
  - split; [intros _; apply not_elem_of_nil|done].
  - destruct (last_index entries (S from) e) eqn:Hl.
    + split; [done|]. intros Hno. exfalso. apply Hno. right. apply last_index_spec in Hl as [_ Hl].
      by eapply list_elem_of_lookup_2.
    + apply IH in Hl. case_decide; split; try done; try (intros Hno; exfalso; apply Hno; by left; subst).
      * intros H'. exfalso. apply H'. subst. left.
      * intros _ [?|?]%elem_of_cons; done.
Qed.

(** A reload moves sessions by meaning, not by position: a session is bound
    in the new chain exactly when its old binding had not expired, and its
    provider/model pair is still in the chain and preserved; it is then bound
    to the very same pair, with the same idle time. *)
Theorem reconfigured_sessions entries preserve preserveFailures s idleTTL reset now key :
  let n := reconfiguredWithFailures entries preserve preserveFailures s idleTTL reset now in
  chain n = entries /\
  (forall b', sessions n !! key = Some b' ->
     exists b e, sessions s !! key = Some b /\ expired s now b = false /\ preserve e = true /\
       chain s !! binding_index b = Some e /\ chain n !! binding_index b' = Some e /\ lastTouch b' = lastTouch b) /\
  (forall b e, sessions s !! key = Some b -> expired s now b = false -> chain s !! binding_index b = Some e ->
     preserve e = true -> e ∈ entries -> is_Some (sessions n !! key)).
Proof.
  intros n.
  assert (Hfold : forall l x, chain (foldl (keep_failure entries preserveFailures s) x l) = chain x).
  { induction l as [|kv l IH]; intros x; [done|]. cbn. rewrite IH. unfold keep_failure. by repeat case_match. }
  assert (Hc : chain n = entries) by (subst n; unfold reconfiguredWithFailures; destruct reset; apply (Hfold _ (newAutoChainState entries idleTTL))).
  assert (Hs : sessions n !! key = sessions s !! key ≫= keep_binding entries preserve s now).
  { assert (Hs' : sessions n = omap (keep_binding entries preserve s now) (sessions s)) by (subst n; unfold reconfiguredWithFailures; by destruct reset).
    by rewrite Hs', lookup_omap. }
  clearbody n. split; [done|]. rewrite Hc, Hs. unfold keep_binding, moved, indices. split.
  - intros b' Hb'. destruct (sessions s !! key) as [b|] eqn:Hb; [|done]. cbn in Hb'.
    destruct (expired s now b) eqn:Hexp; [done|]. destruct (chain s !! binding_index b) as [e|] eqn:He; [|done]. cbn in Hb'.
    destruct (last_index entries 0 e) as [j|] eqn:Hj; [|done]. cbn in Hb'. destruct (preserve e) eqn:Hp; [|done].
    simplify_eq. exists b, e. apply last_index_spec in Hj as [_ Hj]. rewrite Nat.sub_0_r in Hj. done.
  - intros b e Hb Hexp He Hp Hin. rewrite Hb. cbn. rewrite Hexp, He. cbn.
    destruct (last_index entries 0 e) as [j|] eqn:Hj; [cbn; rewrite Hp; eauto|].
    by apply last_index_None in Hj.
Qed.
End chain.

(** ** Concrete runs *)

Definition demo_chain : list AutoChainEntry := [ChainEntry "a" "m"; ChainEntry "b" "m"; ChainEntry "c" "n"].
Definition demo_hash : string -> string := fun x => x.
Definition demo_outage : CallError :=
  (new_CallError 503 "provider_error") <| CallCategory := ProviderErrorTemporarilyUnavailable |> <| FailoverSafe := true |>.

(** The first entry fails, its session moves to the second one. *)
Definition demo_run : list chain_op :=
  [CSelect "s1" true None (10 * Hour); CFailure 0 (Some demo_outage) false false false (10 * Hour + Second)].
Definition demo_state : autoChainState := run_chain demo_hash demo_run (newAutoChainState demo_chain 0).

Lemma chain_selection_complete_witness :
  let '(s', r) := selectForSessionAvailable demo_hash demo_state "s1" true None (10 * Hour + 2 * Second) in
  match r with
  | Some c => valid demo_state (10 * Hour + 2 * Second) None (selection_index c) = true /\
              c = selection demo_state (selection_index c)
  | None => forall i, valid demo_state (10 * Hour + 2 * Second) None i = false
  end.
Proof.
  destruct (selectForSessionAvailable demo_hash demo_state "s1" true None (10 * Hour + 2 * Second)) as [s' r] eqn:Hs.
  apply (chain_selection_complete demo_hash demo_chain 0 demo_run "s1" true None (10 * Hour + 2 * Second) s' r).
  - discriminate.
  - discriminate.
  - exact Hs.
Defined.

Definition demo_pin := selectForSessionAvailable demo_hash demo_state "s1" true None (10 * Hour + 2 * Second).
Definition demo_others : list chain_op :=
  [CSelect "s2" true None (11 * Hour); CFailure 2 (Some demo_outage) false false false (11 * Hour); CRestore "a"].

Lemma chain_session_pinned_witness :
  exists s3, selectForSessionAvailable demo_hash (run_chain demo_hash demo_others (fst demo_pin)) "s1" true None (12 * Hour) =
    (s3, Some (selection (run_chain demo_hash demo_others (fst demo_pin)) 1)).
Proof.
  apply (chain_session_pinned demo_hash demo_state "s1" None (10 * Hour + 2 * Second) (fst demo_pin)
           {| selection_provider := "b"; selection_model := "m"; selection_index := 1 |} demo_others None (12 * Hour)).
  - vm_compute. reflexivity.
  - apply Forall_cons. split; [vm_compute; split; [discriminate|reflexivity]|].
    apply Forall_cons. split; [right; left; discriminate|].
    apply Forall_cons. split; [exact I|apply Forall_nil_2].
  - vm_compute. reflexivity.
  - vm_compute. reflexivity.
Defined.
