(* ===== verification/Affinity.v ===== *)
(** * Session affinity of shared models: [internal/gateway/shared_model_affinity.go]

    The binding of each session (by the hash of its identity) to a provider of
    a model that several providers serve, and the failures that end it.  Only
    the view of the active epoch may change bindings and failures.  Failures
    are compared by pointer in the code: they live in an explicit store.  Every
    operation holds [a.mu]; the clock is an argument. *)

From S2P Require Import Prelude GoStrings GoFloat Diagnostics Errors Availability Routes.

Definition sharedModelSessionIdleTTL : duration := 24 * Hour.

(** ** Session keys *)

(** [binary.BigEndian.PutUint64]. *)
Definition PutUint64 (n : Z) : string :=
  string_of_bytes ((fun k => Z.shiftr n (8 * Z.of_nat k) mod 256) <$> rev (seq 0 8)).

(** The bytes hashed: each field after its length, so that no two lists of
    fields give the same bytes. *)
Definition key_field (field : string) : string := PutUint64 (Strings.len field) +:+ field.
Definition key_material (namespace protocol model sessionID : string) : string :=
  key_field namespace +:+ key_field protocol +:+ key_field (Strings.TrimSpace model) +:+
  key_field (Strings.TrimSpace sessionID).
Definition newSharedModelSessionKey (Sum256 : string -> string) (namespace protocol model sessionID : string)
    : sharedModelSessionKey := Sum256 (key_material namespace protocol model sessionID).

(** ** State *)

Record sharedModelRoute := SharedRoute {
  shared_provider : string;
  shared_model : string;
  shared_generation : Z;
}.

#[export] Instance sharedModelRoute_eq_dec : EqDecision sharedModelRoute.
Proof. solve_decision. Defined.
#[export] Instance sharedModelRoute_countable : Countable sharedModelRoute.
Proof.
  apply (inj_countable' (fun r => (shared_provider r, shared_model r, shared_generation r))
           (fun x => SharedRoute x.1.1 x.1.2 x.2)). by intros [].
Defined.

Record sharedModelBinding := {
  bound_provider : string;
  lastUsed : time;
  bound_model : string;
  bound_generation : Z;
}.

#[export] Instance sharedModelBinding_eta : Eta sharedModelBinding := fun b =>
  {| bound_provider := bound_provider b; lastUsed := lastUsed b; bound_model := bound_model b;
     bound_generation := bound_generation b |}.

Record sharedModelAffinity := {
  bindings : gmap sharedModelSessionKey sharedModelBinding;
  affinity_nextSweep : time;
  activeEpoch : Z;
  failedRoutes : gmap sharedModelRoute failure_ptr;
  route_failures : gmap failure_ptr routeFailure;
  next_route_failure : failure_ptr;
}.

#[export] Instance sharedModelAffinity_eta : Eta sharedModelAffinity := fun a =>
  {| bindings := bindings a; affinity_nextSweep := affinity_nextSweep a; activeEpoch := activeEpoch a;
     failedRoutes := failedRoutes a; route_failures := route_failures a; next_route_failure := next_route_failure a |}.

Definition new_sharedModelAffinity : sharedModelAffinity :=
  {| bindings := ∅; affinity_nextSweep := Time.zero; activeEpoch := 0; failedRoutes := ∅; route_failures := ∅;
     next_route_failure := 0 |}.

Definition route_failure (a : sharedModelAffinity) (r : sharedModelRoute) : option routeFailure :=
  failedRoutes a !! r ≫= (route_failures a !!.).

(** [a.failedRoutes[route] = &failure]. *)
Definition set_route_failure (a : sharedModelAffinity) (r : sharedModelRoute) (f : routeFailure) : sharedModelAffinity :=
  a <| failedRoutes := <[r := next_route_failure a]> (failedRoutes a) |>
    <| route_failures := <[next_route_failure a := f]> (route_failures a) |>
    <| next_route_failure := S (next_route_failure a) |>.

Definition idle (now : time) (b : sharedModelBinding) : bool :=
  sharedModelSessionIdleTTL <=? Time.sub now (lastUsed b).

(** ** Publication of a view *)

Section with_range.
Context {RangeRoutes : MapRange sharedModelRoute failure_ptr}.

Definition activate_route (ok : sharedModelBinding -> bool) (generation : option (string -> Z))
    (a : sharedModelAffinity) (kv : sharedModelRoute * failure_ptr) : sharedModelAffinity :=
  let r := kv.1 in
  let b := {| bound_provider := shared_provider r; lastUsed := Time.zero; bound_model := shared_model r;
              bound_generation := shared_generation r |} in
  if negb (ok b) ||
     match generation with Some g => negb (shared_generation r =? g (shared_provider r)) | None => false end
  then a <| failedRoutes := delete r (failedRoutes a) |>
  else match route_failures a !! kv.2 with
  | Some f => set_route_failure a r (Failed (failure_retryAt f) false)
  | None => a
  end.

Definition activate_binding (ok : sharedModelBinding -> bool) (generation : option (string -> Z))
    (available : option (string -> bool)) (b : sharedModelBinding) : option sharedModelBinding :=
  if negb (ok b) || match available with Some f => negb (f (bound_provider b)) | None => false end then None
  else Some match generation with
            | Some g => b <| bound_generation := g (bound_provider b) |>
            | None => b
            end.

Definition activateForView (a : sharedModelAffinity) (ep : Z) (ok : sharedModelBinding -> bool)
    (generation : option (string -> Z)) (available : option (string -> bool)) : sharedModelAffinity :=
  let a := a <| activeEpoch := ep |> in
  let a := foldl (activate_route ok generation) a (range (failedRoutes a)) in
  a <| bindings := omap (activate_binding ok generation available) (bindings a) |>.

Definition activate (a : sharedModelAffinity) (ep : Z) (ok : sharedModelBinding -> bool)
    (generation : option (string -> Z)) : sharedModelAffinity := activateForView a ep ok generation None.
End with_range.

(** ** Selection *)

Definition sweep_bindings (a : sharedModelAffinity) (now : time) : sharedModelAffinity :=
  if Time.before now (affinity_nextSweep a) then a
  else a <| bindings := filter (fun kv => idle now kv.2 = false) (bindings a) |>
         <| affinity_nextSweep := Time.add now Minute |>.

Definition set_binding (a : sharedModelAffinity) (key : sharedModelSessionKey) (b : sharedModelBinding) : sharedModelAffinity :=
  a <| bindings := <[key := b]> (bindings a) |>.

Definition eligible_provider (a : sharedModelAffinity) (m : string) (available : string -> bool)
    (generation : string -> Z) (now : time) (p : string) : bool :=
  failure_eligible (route_failure a (SharedRoute p m (generation p))) now && available p.

(** The binding that [selectProviderForView] keeps. *)
Definition kept_binding (a : sharedModelAffinity) (key : sharedModelSessionKey) (eligible : list string)
    (generation : string -> Z) (now : time) : option sharedModelBinding :=
  match bindings a !! key with
  | Some b => if negb (idle now b) && member (bound_provider b) eligible &&
                 (bound_generation b =? generation (bound_provider b)) then Some b else None
  | None => None
  end.

(** [choose] is the random index; [prefer] the tie-break among the eligible. *)
Definition selectProviderForView (a : sharedModelAffinity) (key : sharedModelSessionKey) (m : string) (ep : Z)
    (candidates : list string) (available : string -> bool) (choose : Z -> Z) (generation : string -> Z)
    (prefer : option (list string -> list string)) (now : time) : sharedModelAffinity * option string :=
  let a := sweep_bindings a now in
  let eligible := List.filter (eligible_provider a m available generation now) candidates in
  match kept_binding a key eligible generation now with
  | Some b =>
      (if ep =? activeEpoch a then set_binding a key (b <| lastUsed := now |>) else a, Some (bound_provider b))
  | None =>
      let a := if ep =? activeEpoch a then a <| bindings := delete key (bindings a) |> else a in
      match eligible with
      | [] => (a, None)
      | _ =>
          let eligible := match prefer with Some f => f eligible | None => eligible end in
          let index := choose (Z.of_nat (length eligible)) in
          let index := if (index <? 0) || (Z.of_nat (length eligible) <=? index) then 0 else index in
          let p := default "" (eligible !! Z.to_nat index) in
          (if ep =? activeEpoch a
           then set_binding a key {| bound_provider := p; lastUsed := now; bound_model := m; bound_generation := generation p |}
           else a, Some p)
      end
  end.

Definition selectProvider (a : sharedModelAffinity) (key : sharedModelSessionKey) (candidates : list string)
    (available : string -> bool) (choose : Z -> Z) (now : time) : sharedModelAffinity * option string :=
  selectProviderForView a key "" 0 candidates available choose (fun _ => 0) None now.

Definition affinity_boundRoute (a : sharedModelAffinity) (key : sharedModelSessionKey) (m : string) (ep : Z)
    (candidates : list string) (generations : gmap string Z) (now : time) : sharedModelAffinity * option routeStep :=
  match bindings a !! key with
  | None => (a, None)
  | Some b =>
      if negb (activeEpoch a =? ep) || idle now b || negb (String.eqb (bound_model b) m) ||
         negb (bound_generation b =? default 0 (generations !! bound_provider b)) ||
         negb (member (bound_provider b) candidates)
      then (a, None)
      else (set_binding a key (b <| lastUsed := now |>),
            Some ((new_routeStep (bound_provider b) m) <| route_sessionKey := Some key |> <| route_dynamic := true |>))
  end.

(** ** Failures *)

Definition bound_to (p m : string) (g : Z) (b : sharedModelBinding) : bool :=
  String.eqb (bound_provider b) p && String.eqb (bound_model b) m && (bound_generation b =? g).

Definition affinity_recordFailure (a : sharedModelAffinity) (ep : Z) (p m : string) (g : Z) (err : option CallError)
    (ctxErr delivered : bool) (now : time) : sharedModelAffinity :=
  if negb (autoChainFailureAdvances err ctxErr delivered) ||
     match err with Some e => String.eqb (CallCategory e) "" | None => true end then a
  else if negb (ep =? activeEpoch a) then a
  else
    let a := set_route_failure a (SharedRoute p m g) (Failed (Time.add now (recoveryCooldown err)) false) in
    a <| bindings := filter (fun kv => bound_to p m g kv.2 = false) (bindings a) |>.

Definition affinity_beginRecovery (a : sharedModelAffinity) (ep : Z) (r : sharedModelRoute) (now : time)
    : sharedModelAffinity * option failure_ptr * bool :=
  if negb (ep =? activeEpoch a) then (a, None, true)
  else match failedRoutes a !! r with
  | None => (a, None, true)
  | Some p =>
      match route_failures a !! p with
      | None => (a, None, true)
      | Some f =>
          if failure_eligible (Some f) now
          then (a <| route_failures := <[p := Failed (failure_retryAt f) true]> (route_failures a) |>, Some p, true)
          else (a, None, false)
      end
  end.

Definition affinity_finishRecovery (a : sharedModelAffinity) (ep : Z) (r : sharedModelRoute) (probe : option failure_ptr)
    (handled : bool) (err : option go_error) (ctxErr : bool) (now : time) : sharedModelAffinity :=
  match probe with
  | None => a
  | Some p =>
      if negb (ep =? activeEpoch a) || negb (bool_decide (failedRoutes a !! r = Some p)) then a
      else match route_failures a !! p with
      | None => a
      | Some f =>
          let '(f, recovered) := completeRecovery f now handled err ctxErr in
          let a := a <| route_failures := <[p := f]> (route_failures a) |> in
          if recovered then a <| failedRoutes := delete r (failedRoutes a) |> else a
      end
  end.

(** ** Properties *)

Lemma member_List_filter f l x : member x (List.filter f l) = true <-> In x l /\ f x = true.
Proof. rewrite member_spec, filter_In. done. Qed.

(** The provider a selection returns. *)
Lemma selection_spec a key m ep candidates available choose generation prefer now a' r :
  (forall f l, prefer = Some f -> l <> [] -> f l <> [] /\ forall x, In x (f l) -> In x l) ->
  selectProviderForView a key m ep candidates available choose generation prefer now = (a', r) ->
  match r with
  | Some p => In p candidates /\ eligible_provider a m available generation now p = true
  | None => forall p, In p candidates -> eligible_provider a m available generation now p = false
  end.
Proof.
  intros Hprefer. unfold selectProviderForView.
  assert (Hel : forall p, eligible_provider (sweep_bindings a now) m available generation now p =
                          eligible_provider a m available generation now p).
  { intros p. unfold eligible_provider, route_failure, sweep_bindings. by destruct (Time.before _ _). }
  set (a1 := sweep_bindings a now) in *. set (el := List.filter _ candidates).
  assert (Hin : forall p, In p el <-> In p candidates /\ eligible_provider a m available generation now p = true).
  { intros p. unfold el. rewrite filter_In, Hel. done. }
  clearbody a1 el.
  destruct (kept_binding a1 key el generation now) as [b|] eqn:Hb.
  - intros [= _ <-]. unfold kept_binding in Hb. destruct (bindings a1 !! key) as [b'|]; [|done]. destruct (_ && _) eqn:Hc; [|done]. simplify_eq.
    apply andb_true_iff in Hc as [Hc _]. apply andb_true_iff in Hc as [_ Hc]. by apply Hin, member_spec.
  - destruct el as [|p0 el']; [intros [= _ <-]|].
    + intros p Hp. destruct (eligible_provider a m available generation now p) eqn:E; [|done].
      by destruct (proj2 (Hin p) (conj Hp E)).
    + set (el2 := match prefer with Some f => f (p0 :: el') | None => p0 :: el' end).
      assert (H2 : el2 <> [] /\ forall x, In x el2 -> In x (p0 :: el')).
      { subst el2. destruct prefer as [f|]; [by apply Hprefer|done]. }
      destruct H2 as [Hne Hsub]. clearbody el2. set (i := if _ || _ then 0 else _).
      assert (Hi : 0 <= i < Z.of_nat (length el2)).
      { subst i. assert (0 < length el2)%nat by (destruct el2; [done|cbn; lia]).
        destruct (Z.ltb_spec (choose (Z.of_nat (length el2))) 0); cbn [orb]; [lia|].
        destruct (Z.leb_spec (Z.of_nat (length el2)) (choose (Z.of_nat (length el2)))); lia. }
      clearbody i. destruct (lookup_lt_is_Some_2 el2 (Z.to_nat i) ltac:(lia)) as [p Hp]. rewrite Hp.
      intros [= _ <-]. apply Hin, Hsub. apply list_elem_of_In. by eapply list_elem_of_lookup_2.
Qed.

(** The selected provider can be used.  It is a candidate of the model,
    available, with no failure of its current generation that is still cooling
    or being probed; and a request is refused only when no candidate is so. *)
Theorem affinity_selects_eligible a key m ep candidates available choose generation prefer now a' r :
  (forall f l, prefer = Some f -> l <> [] -> f l <> [] /\ forall x, In x (f l) -> In x l) ->
  selectProviderForView a key m ep candidates available choose generation prefer now = (a', r) ->
  match r with
  | Some p => In p candidates /\ eligible_provider a m available generation now p = true
  | None => forall p, In p candidates -> eligible_provider a m available generation now p = false
  end.
Proof. apply selection_spec. Qed.

(** Views are fenced.  A request admitted under an earlier configuration
    neither binds, rebinds nor unbinds a session (its selection may only sweep
    bindings that were idle for a day), and never touches the failures. *)
Theorem affinity_fences_old_views a ep :
  ep <> activeEpoch a ->
  (forall key m candidates available choose generation prefer now a' r,
     selectProviderForView a key m ep candidates available choose generation prefer now = (a', r) ->
     failedRoutes a' = failedRoutes a /\ route_failures a' = route_failures a /\ activeEpoch a' = activeEpoch a /\
     forall k, bindings a' !! k = bindings a !! k \/
               (bindings a' !! k = None /\ exists b, bindings a !! k = Some b /\ idle now b = true)) /\
  (forall p m g err ctxErr delivered now, affinity_recordFailure a ep p m g err ctxErr delivered now = a) /\
  (forall r now, affinity_beginRecovery a ep r now = (a, None, true)) /\
  (forall r probe handled err ctxErr now, affinity_finishRecovery a ep r probe handled err ctxErr now = a) /\
  (forall key m candidates generations now, affinity_boundRoute a key m ep candidates generations now = (a, None)).
Proof.
  intros Hep. apply Z.eqb_neq in Hep as Hb. split_and!.
  - intros key m candidates available choose generation prefer now a' r. unfold selectProviderForView.
    assert (Hsw : failedRoutes (sweep_bindings a now) = failedRoutes a /\ route_failures (sweep_bindings a now) = route_failures a /\
      activeEpoch (sweep_bindings a now) = activeEpoch a /\
      forall k, bindings (sweep_bindings a now) !! k = bindings a !! k \/
        (bindings (sweep_bindings a now) !! k = None /\ exists b, bindings a !! k = Some b /\ idle now b = true)).
    { unfold sweep_bindings. destruct (Time.before _ _); [split_and!; try done; by left|]. cbn. split_and!; try done.
      intros k. destruct (bindings a !! k) as [b|] eqn:Hk.
      - destruct (idle now b) eqn:Hi.
        + right. split; [|eauto]. apply map_lookup_filter_None. right. intros b' Hb' Hno. simplify_eq/=. congruence.
        + left. apply map_lookup_filter_Some. done.
      - left. apply map_lookup_filter_None. by left. }
    set (a1 := sweep_bindings a now) in *. clearbody a1. destruct Hsw as (? & ? & He & ?).
    assert (Hf : (ep =? activeEpoch a1) = false) by (by rewrite He). rewrite Hf. cbn iota zeta. rewrite ?Hf.
    intros Hs. assert (a' = a1) as ->; [|done].
    destruct (kept_binding _ _ _ _ _); [by simplify_eq|].
    destruct (List.filter _ candidates); by simplify_eq.
  - intros. unfold affinity_recordFailure. destruct (_ || _); [done|]. by rewrite Hb.
  - intros. unfold affinity_beginRecovery. by rewrite Hb.
  - intros. unfold affinity_finishRecovery. destruct probe; [|done]. by rewrite Hb.
  - intros. unfold affinity_boundRoute. destruct (bindings a !! key); [|done]. by rewrite (Z.eqb_sym _ ep), Hb.
Qed.

(** A bound session keeps its provider.  A session that was given a provider
    under the active view gets the same one again within the idle time, while
    that provider is a usable candidate of the same generation, whatever the
    random choice and the preference would give. *)
Theorem affinity_is_sticky a key m candidates available choose generation prefer now a1 p
    m' candidates' available' choose' generation' prefer' now' :
  selectProviderForView a key m (activeEpoch a) candidates available choose generation prefer now = (a1, Some p) ->
  Time.sub now' now < sharedModelSessionIdleTTL -> In p candidates' ->
  eligible_provider a1 m' available' generation' now' p = true ->
  (forall b, bindings a1 !! key = Some b -> bound_generation b = generation' p) ->
  snd (selectProviderForView a1 key m' (activeEpoch a1) candidates' available' choose' generation' prefer' now') = Some p.
Proof.
  intros Hsel Hnow Hin Hel Hgen.
  assert (Hb : exists b, bindings a1 !! key = Some b /\ bound_provider b = p /\ lastUsed b = now).
  { unfold selectProviderForView in Hsel.
    assert (He : activeEpoch (sweep_bindings a now) = activeEpoch a) by (unfold sweep_bindings; by destruct (Time.before _ _)).
    set (a0 := sweep_bindings a now) in *. clearbody a0. rewrite He, Z.eqb_refl in Hsel.
    destruct (kept_binding _ _ _ _ _) as [b|].
    - simplify_eq. unfold set_binding. cbn. eexists. by rewrite lookup_insert_eq.
    - destruct (List.filter _ candidates); [done|].
      change (activeEpoch (a0 <| bindings := delete key (bindings a0) |>)) with (activeEpoch a0) in Hsel.
      rewrite He, Z.eqb_refl in Hsel. injection Hsel as <- <-. eexists. split_and!; [apply lookup_insert_eq|done|done]. }
  destruct Hb as (b & Hb & <- & Hlast). specialize (Hgen b Hb). unfold selectProviderForView.
  assert (Hidle : idle now' b = false) by (unfold idle; rewrite Hlast; by apply Z.leb_gt).
  assert (Hsw : bindings (sweep_bindings a1 now') !! key = Some b).
  { unfold sweep_bindings. destruct (Time.before _ _); [done|]. cbn. by apply map_lookup_filter_Some. }
  assert (Hel' : eligible_provider (sweep_bindings a1 now') m' available' generation' now' (bound_provider b) = true).
  { unfold eligible_provider, route_failure, sweep_bindings in *. by destruct (Time.before _ _). }
  unfold kept_binding. rewrite Hsw, Hidle. rewrite (proj2 (member_List_filter _ _ _) (conj Hin Hel')).
  rewrite (proj2 (Z.eqb_eq _ _) Hgen). done.
Qed.

(** ** Session keys are unambiguous *)

Lemma bytes_of_string_app a b : bytes_of_string (a +:+ b) = bytes_of_string a ++ bytes_of_string b.
Proof.
  unfold bytes_of_string. induction a as [|c a IH]; [reflexivity|].
  change (String.String c a +:+ b) with (String.String c (a +:+ b)). cbn [String.list_ascii_of_string fmap list_fmap app].
  by f_equal.
Qed.

Lemma bytes_of_string_inj a b : bytes_of_string a = bytes_of_string b -> a = b.
Proof. intros H. by rewrite <- (string_of_bytes_of_string a), <- (string_of_bytes_of_string b), H. Qed.

Definition uint64_bytes (n : Z) : list byte := (fun k => Z.shiftr n (8 * Z.of_nat k) mod 256) <$> rev (seq 0 8).

Lemma PutUint64_bytes n : bytes_of_string (PutUint64 n) = uint64_bytes n.
Proof.
  apply bytes_of_string_of_bytes. apply Forall_forall. intros b (k & -> & _)%list_elem_of_fmap. by apply Z.mod_pos_bound.
Qed.

Lemma uint64_bytes_inj n m : 0 <= n < 2 ^ 64 -> 0 <= m < 2 ^ 64 -> uint64_bytes n = uint64_bytes m -> n = m.
Proof.
  intros Hn Hm H. apply Z.bits_inj'. intros i Hi. destruct (Z.lt_ge_cases i 64) as [Hlt|Hge].
  - assert (Hk : forall k, (k < 8)%nat -> Z.shiftr n (8 * Z.of_nat k) mod 2 ^ 8 = Z.shiftr m (8 * Z.of_nat k) mod 2 ^ 8).
    { intros k Hk. change (2 ^ 8) with 256. unfold uint64_bytes in H. cbn [seq rev app fmap list_fmap] in H.
      injection H as H7 H6 H5 H4 H3 H2 H1 H0. do 8 (destruct k as [|k]; [done|]). lia. }
    specialize (Hk (Z.to_nat (i / 8))). assert (0 <= i / 8 < 8) by (split; [by apply Z.div_pos|by apply Z.div_lt_upper_bound]).
    specialize (Hk ltac:(lia)). rewrite Z2Nat.id in Hk by lia.
    apply (f_equal (fun z => Z.testbit z (i mod 8))) in Hk. pose proof (Z.mod_pos_bound i 8 ltac:(lia)).
    rewrite !Z.mod_pow2_bits_low, !Z.shiftr_spec in Hk by lia.
    replace (i mod 8 + 8 * (i / 8)) with i in Hk by (rewrite (Z.div_mod i 8) at 1; lia). done.
  - assert (Hb : forall x, 0 <= x < 2 ^ 64 -> Z.testbit x i = false).
    { intros x Hx. destruct (decide (x = 0)) as [->|]; [apply Z.testbit_0_l|]. apply Z.bits_above_log2; [lia|].
      apply Z.log2_lt_pow2; [lia|]. apply Z.lt_le_trans with (2 ^ 64); [lia|]. apply Z.pow_le_mono_r; lia. }
    by rewrite !Hb.
Qed.

Lemma key_field_inj f g x y :
  Strings.len f < 2 ^ 64 -> Strings.len g < 2 ^ 64 -> key_field f +:+ x = key_field g +:+ y -> f = g /\ x = y.
Proof.
  intros Hf Hg H. unfold key_field in H. apply (f_equal bytes_of_string) in H.
  rewrite !bytes_of_string_app, !PutUint64_bytes, <- !(assoc_L (++)) in H.
  assert (Hlen : forall s, 0 <= Strings.len s) by (intros; unfold Strings.len; lia).
  apply app_inj_1 in H as [Hn H]; [|by unfold uint64_bytes; rewrite !length_fmap].
  apply uint64_bytes_inj in Hn; [|by split..].
  assert (Hl : forall s, Strings.len s = Z.of_nat (length (bytes_of_string s))).
  { intros s. unfold Strings.len, bytes_of_string. rewrite length_fmap. f_equal.
    induction s as [|c s IH]; [done|]. cbn. by f_equal. }
  rewrite !Hl in Hn. apply app_inj_1 in H as [H1 H2]; [|lia]. split; by apply bytes_of_string_inj.
Qed.

(** No two identities share a key except by a collision of SHA-256: the
    bytes that are hashed determine the caller, the protocol, the model and the
    session (each up to surrounding spaces), because every field is preceded by
    its length. *)
Theorem session_keys_unambiguous ns pr m sid ns' pr' m' sid' :
  Forall (fun f => Strings.len f < 2 ^ 64) [ns; pr; Strings.TrimSpace m; Strings.TrimSpace sid] ->
  Forall (fun f => Strings.len f < 2 ^ 64) [ns'; pr'; Strings.TrimSpace m'; Strings.TrimSpace sid'] ->
  key_material ns pr m sid = key_material ns' pr' m' sid' ->
  ns = ns' /\ pr = pr' /\ Strings.TrimSpace m = Strings.TrimSpace m' /\ Strings.TrimSpace sid = Strings.TrimSpace sid'.
Proof.
  intros (H1 & (H2 & (H3 & (H4 & _)%Forall_cons)%Forall_cons)%Forall_cons)%Forall_cons
         (H1' & (H2' & (H3' & (H4' & _)%Forall_cons)%Forall_cons)%Forall_cons)%Forall_cons H.
  unfold key_material in H.
  apply key_field_inj in H as [-> H]; [|done..]. apply key_field_inj in H as [-> H]; [|done..].
  apply key_field_inj in H as [-> H]; [|done..].
  assert (He : key_field (Strings.TrimSpace sid) +:+ "" = key_field (Strings.TrimSpace sid') +:+ "") by (by rewrite H).
  apply key_field_inj in He as [-> _]; done.
Qed.

(** ** Concrete runs *)

Definition demo_affinity : sharedModelAffinity := new_sharedModelAffinity.
Definition demo_select := selectProviderForView demo_affinity "k" "m" 0 ["a"; "b"] (fun _ => true) (fun _ => 1) (fun _ => 7) None (30 * Hour).

Lemma affinity_selects_eligible_witness :
  match snd demo_select with
  | Some p => In p ["a"; "b"] /\ eligible_provider demo_affinity "m" (fun _ => true) (fun _ => 7) (30 * Hour) p = true
  | None => forall p, In p ["a"; "b"] -> eligible_provider demo_affinity "m" (fun _ => true) (fun _ => 7) (30 * Hour) p = false
  end.
Proof.
  apply (affinity_selects_eligible demo_affinity "k" "m" 0 ["a"; "b"] (fun _ => true) (fun _ => 1) (fun _ => 7) None (30 * Hour)
           (fst demo_select)); [discriminate|vm_compute; reflexivity].
Defined.

Lemma affinity_fences_old_views_witness :
  3 <> activeEpoch (fst demo_select) /\
  affinity_beginRecovery (fst demo_select) 3 (SharedRoute "b" "m" 1) Hour = (fst demo_select, None, true).
Proof.
  split; [vm_compute; discriminate|].
  apply (affinity_fences_old_views (fst demo_select) 3). vm_compute. discriminate.
Defined.

Lemma affinity_is_sticky_witness :
  snd (selectProviderForView (fst demo_select) "k" "m" (activeEpoch (fst demo_select)) ["b"; "c"] (fun _ => true) (fun _ => 1)
         (fun _ => 7) None (31 * Hour)) = Some "b".
Proof.
  apply (affinity_is_sticky demo_affinity "k" "m" ["a"; "b"] (fun _ => true) (fun _ => 1) (fun _ => 7) None (30 * Hour)
           (fst demo_select) "b").
  - vm_compute. reflexivity.
  - reflexivity.
  - left. reflexivity.
  - vm_compute. reflexivity.
  - intros b Hb. vm_compute in Hb. injection Hb as <-. reflexivity.
Defined.

Lemma session_keys_unambiguous_witness :
  "n" = "n" /\ "openai" = "openai" /\ Strings.TrimSpace "m" = Strings.TrimSpace " m" /\ Strings.TrimSpace "s" = Strings.TrimSpace "s ".
Proof.
  apply (session_keys_unambiguous "n" "openai" "m" "s" "n" "openai" " m" "s ");
    [repeat (apply Forall_cons; split; [reflexivity|]); apply Forall_nil_2..|vm_compute; reflexivity].
Defined.
