(* ===== verification/Pricing.v ===== *)
(** * Prices and cost estimates

    [Price], [TokenUsage], [Price.Validate] and [Price.Estimate] of
    internal/adapter/protocol.go and [BuiltInPrice] of
    internal/adapter/pricing.go.  A nil [*float64] or [*int64] is [None].
    [strings.ToUpper], [strings.ToLower] and the host name of [url.Parse] are
    arguments: the code only compares their results. *)

From S2P Require Import Prelude GoStrings GoFloat Diagnostics.
From Stdlib Require Import SpecFloat.

Record TokenUsage := {
  Input : option Z;
  Output : option Z;
  CacheRead : option Z;
  CacheWrite : option Z;
}.

Record Price := {
  Currency : string;
  Source : string;
  Version : string;
  InputCacheHit : option spec_float;
  InputCacheMiss : option spec_float;
  OutputPrice : option spec_float;
}.

Definition no_price : Price :=
  {| Currency := ""; Source := ""; Version := ""; InputCacheHit := None; InputCacheMiss := None; OutputPrice := None |}.

(** A rate below zero, not a number or infinite. *)
Definition invalid_rate (x : option spec_float) : bool :=
  match x with Some x => Float.lt x Float.zero || Float.is_nan x || Float.is_inf x | None => false end.

Definition is_nil {A} (x : option A) : bool := match x with None => true | Some _ => false end.

(** [Price.Validate]: [None] is a nil error. *)
Definition Validate (ToUpper : string -> string) (p : Price) : option string :=
  if negb (Strings.len (Currency p) =? 3) || negb (String.eqb (ToUpper (Currency p)) (Currency p)) ||
     String.eqb (Strings.TrimSpace (Source p)) "" || String.eqb (Strings.TrimSpace (Version p)) "" ||
     is_nil (InputCacheHit p) || is_nil (InputCacheMiss p) || is_nil (OutputPrice p)
  then Some "pricing requires currency, source, version, input cache hit, input cache miss and output rates"
  else if existsb invalid_rate [InputCacheHit p; InputCacheMiss p; OutputPrice p] then Some "invalid price"
  else None.

(** [Price.Estimate].  [cost] is computed without fused operations. *)
Definition estimate_input (u : TokenUsage) (input : Z) (hit miss cost : spec_float) : option spec_float :=
  match CacheRead u with
  | None => if negb (Float.eq hit miss) then None else Some (Float.add cost (Float.mul (Float.of_Z input) miss))
  | Some cacheRead =>
      let cacheMiss := input - cacheRead in
      Some (Float.add cost (Float.add (Float.mul (Float.of_Z cacheRead) hit) (Float.mul (Float.of_Z cacheMiss) miss)))
  end.

Definition negative (n : option Z) : bool := match n with Some n => n <? 0 | None => false end.

Definition Estimate (p : Price) (u : TokenUsage) : option spec_float :=
  match Input u, Output u, InputCacheHit p, InputCacheMiss p, OutputPrice p with
  | Some input, Some output, Some hit, Some miss, Some out =>
      if (input <? 0) || (output <? 0) || negative (CacheRead u) then None
      else
        let cacheRead := default 0 (CacheRead u) in
        if match CacheWrite u with
           | Some w => (w <? 0) || (input <? cacheRead) || (input - cacheRead <? w)
           | None => false
           end then None
        else if input <? cacheRead then None
        else
          match estimate_input u input hit miss (Float.mul (Float.of_Z output) out) with
          | None => None
          | Some cost =>
              let cost := Float.div cost (Float.of_Z 1000000) in
              if Float.is_inf cost || Float.is_nan cost then None else Some cost
          end
  | _, _, _, _, _ => None
  end.

(** ** Built-in prices *)

Definition deepSeekPricingSource : string := "https://api-docs.deepseek.com/quick_start/pricing/".

(** The constants [0.006], [0.30] and [1.20], rounded to double precision. *)
Definition decimal (n d : Z) : spec_float := Float.div (Float.of_Z n) (Float.of_Z d).

Definition BuiltInPrice (ToLower : string -> string) (hostname : string -> option string) (baseURL model : string)
    : option Price :=
  match hostname baseURL with
  | None => None
  | Some host =>
      if negb (String.eqb (ToLower host) "api.deepseek.com") then None
      else if member model ["deepseek-flash"; "deepseek-v4-flash"; "deepseek-v4-flash-vision-exp"]
      then Some {| Currency := "USD"; Source := deepSeekPricingSource; Version := "deepseek-v4-pricing-2026-08-16-peak";
                   InputCacheHit := Some (decimal 6 1000); InputCacheMiss := Some (decimal 30 100);
                   OutputPrice := Some (decimal 120 100) |}
      else None
  end.

(** ** Properties *)

Lemma valid_rate x : invalid_rate (Some x) = false -> FloatSigns.nonneg x.
Proof.
  cbn [invalid_rate]. rewrite !orb_false_iff. intros [[Hlt Hnan] _].
  destruct (FloatSigns.not_below_zero x Hlt) as [|Hn]; [done|congruence].
Qed.

Lemma product_nonneg n x : 0 <= n -> FloatSigns.nonneg x -> FloatSigns.nonneg (Float.mul (Float.of_Z n) x).
Proof. intros. apply FloatSigns.mul_nonneg; [by apply FloatSigns.of_Z_nonneg|done]. Qed.

Lemma estimate_input_nonneg u input hit miss cost c :
  0 <= default 0 (CacheRead u) <= input -> FloatSigns.nonneg hit -> FloatSigns.nonneg miss -> FloatSigns.nonneg cost ->
  estimate_input u input hit miss cost = Some c -> FloatSigns.nonneg c.
Proof.
  intros Hr Hh Hm Hc. unfold estimate_input. destruct (CacheRead u) as [r|]; simpl in Hr.
  - intros [= <-]. apply FloatSigns.add_nonneg; [done|]. apply FloatSigns.add_nonneg; apply product_nonneg; done || lia.
  - destruct (negb _); [done|]. intros [= <-]. apply FloatSigns.add_nonneg; [done|]. apply product_nonneg; done || lia.
Qed.

Lemma Validate_rates ToUpper p : Validate ToUpper p = None ->
  exists hit miss out, InputCacheHit p = Some hit /\ InputCacheMiss p = Some miss /\ OutputPrice p = Some out /\
    FloatSigns.nonneg hit /\ FloatSigns.nonneg miss /\ FloatSigns.nonneg out.
Proof.
  unfold Validate. destruct (_ || _) eqn:E; [done|]. rewrite !orb_false_iff in E. destruct E as [[[_ Eh] Em] Eo].
  destruct (InputCacheHit p) as [hit|], (InputCacheMiss p) as [miss|], (OutputPrice p) as [out|]; try done.
  destruct (existsb _ _) eqn:E; [done|]. cbn [existsb] in E. rewrite 3!orb_false_iff in E.
  destruct E as (E1 & E2 & E3 & _). intros _. exists hit, miss, out. repeat split; by apply valid_rate.
Qed.

(** An estimate is a price of the usage.  Under a valid price, an estimate is
    given only for a consistent usage (no negative count, the cached tokens
    within the input, and the uncached split known when the two input rates
    differ), and it is a finite amount, never negative. *)
Theorem estimate_sound ToUpper p u c :
  Validate ToUpper p = None -> Estimate p u = Some c ->
  Float.le Float.zero c = true /\ Float.is_inf c = false /\ Float.is_nan c = false /\
  exists input output, Input u = Some input /\ Output u = Some output /\ 0 <= input /\ 0 <= output /\
    0 <= default 0 (CacheRead u) /\ 0 <= default 0 (CacheWrite u) /\
    default 0 (CacheRead u) + default 0 (CacheWrite u) <= input /\
    (CacheRead u = None -> forall hit miss, InputCacheHit p = Some hit -> InputCacheMiss p = Some miss ->
       Float.eq hit miss = true).
Proof.
  intros (hit & miss & out & Eh & Em & Eo & Hh & Hm & Ho)%Validate_rates. unfold Estimate. rewrite Eh, Em, Eo.
  destruct (Input u) as [input|]; [|done]. destruct (Output u) as [output|]; [|done].
  destruct (_ || _) eqn:E1; [done|]. rewrite !orb_false_iff in E1. destruct E1 as [[E1 E2] E3].
  destruct (match CacheWrite u with Some _ => _ | None => _ end) eqn:E4; [done|].
  destruct (input <? default 0 (CacheRead u)) eqn:E5; [done|]. destruct (estimate_input _ _ _ _ _) as [c0|] eqn:Ec; [|done].
  destruct (_ || _) eqn:E6; [done|]. intros [= <-]. rewrite orb_false_iff in E6. destruct E6 as [Hi Hn].
  assert (Hr : 0 <= default 0 (CacheRead u)).
  { unfold negative in E3. destruct (CacheRead u); simpl; [by apply Z.ltb_ge|lia]. }
  apply Z.ltb_ge in E1, E2, E5.
  assert (Hc : FloatSigns.nonneg c0).
  { apply (estimate_input_nonneg u input hit miss (Float.mul (Float.of_Z output) out)); [lia|done|done|by apply product_nonneg|exact Ec]. }
  split; [|split; [done|split; [done|]]].
  { apply FloatSigns.nonneg_le; [|done]. by apply FloatSigns.div_nonneg. }
  exists input, output. repeat split; try done.
  - destruct (CacheWrite u); simpl; [|lia]. rewrite !orb_false_iff, !Z.ltb_ge in E4. lia.
  - destruct (CacheWrite u); simpl; [|lia]. rewrite !orb_false_iff, !Z.ltb_ge in E4. lia.
  - intros Hnone h m [= <-] [= <-]. unfold estimate_input in Ec. rewrite Hnone in Ec.
    by destruct (Float.eq hit miss).
Qed.

Definition demo_price : Price := default no_price (BuiltInPrice (fun s => s) Some "api.deepseek.com" "deepseek-flash").
Definition demo_usage : TokenUsage := {| Input := Some 1000; Output := Some 500; CacheRead := Some 400; CacheWrite := Some 100 |}.

Lemma estimate_sound_witness :
  Validate (fun s => s) demo_price = None /\ exists c, Estimate demo_price demo_usage = Some c /\ Float.le Float.zero c = true.
Proof.
  split; [by vm_compute|]. destruct (Estimate demo_price demo_usage) as [c|] eqn:E; [|by vm_compute in E].
  exists c. split; [done|]. exact (proj1 (estimate_sound (fun s => s) demo_price demo_usage c ltac:(by vm_compute) E)).
Defined.
