(* ===== verification/Messages.v ===== *)
(** * Messages, content blocks and token usage

    The parts of requests and responses that both protocols share: tool calls
    and content blocks (internal/adapter/tools.go, native_content.go), the
    validation of a provider's response and its usage (protocol.go), and the
    finish reasons and usage that translate.go converts.

    A Go struct is a record of the fields that the code reads; the decoder of
    a field that it only decodes is [checked]. *)

From S2P Require Import Prelude GoStrings GoFloat Json.
From S2P Require Export Pricing.

(** A field whose value has to decode and is not used. *)
Definition checked {R A} (name : string) (d : decoder A) (zero : A) : field R :=
  (name, fun j r => (fun _ => r) <$> d j zero).

(** ** Tool calls *)

Record ToolCall := { call_ID : string; call_Type : string; call_Name : string; call_Arguments : string }.
#[export] Instance ToolCall_eta : Eta ToolCall := fun c =>
  {| call_ID := call_ID c; call_Type := call_Type c; call_Name := call_Name c; call_Arguments := call_Arguments c |}.
Definition no_call : ToolCall := {| call_ID := ""; call_Type := ""; call_Name := ""; call_Arguments := "" |}.

(** The nested [Function struct{Name, Arguments}]. *)
Definition dec_call_function : decoder ToolCall :=
  dec_struct [field_of "name" dec_string call_Name (fun s c => c <| call_Name := s |>);
              field_of "arguments" dec_string call_Arguments (fun s c => c <| call_Arguments := s |>)].
Definition dec_ToolCall : decoder ToolCall :=
  dec_struct [field_of "id" dec_string call_ID (fun s c => c <| call_ID := s |>);
              field_of "type" dec_string call_Type (fun s c => c <| call_Type := s |>);
              ("function", dec_call_function)].

Definition validCalls (calls : list ToolCall) : bool :=
  (fix loop (seen : list string) (calls : list ToolCall) : bool :=
     match calls with
     | [] => true
     | c :: calls =>
         if String.eqb (call_ID c) "" || bool_decide (call_ID c ∈ seen) || negb (String.eqb (call_Type c) "function") ||
            String.eqb (Strings.TrimSpace (call_Name c)) ""
         then false else loop (call_ID c :: seen) calls
     end) [] calls.

(** ** Content blocks *)

Record CacheControl := { cache_Type : string; cache_TTL : string }.
#[export] Instance CacheControl_eta : Eta CacheControl := fun c => {| cache_Type := cache_Type c; cache_TTL := cache_TTL c |}.
Definition dec_CacheControl : decoder CacheControl :=
  dec_struct [field_of "type" dec_string cache_Type (fun s c => c <| cache_Type := s |>);
              field_of "ttl" dec_string cache_TTL (fun s c => c <| cache_TTL := s |>)].
Definition no_cache_control : CacheControl := {| cache_Type := ""; cache_TTL := "" |}.

(** [valid] of a [*CacheControl]. *)
Definition cache_valid (c : option CacheControl) : bool :=
  match c with
  | None => true
  | Some c => String.eqb (cache_Type c) "ephemeral" &&
              (String.eqb (cache_TTL c) "" || String.eqb (cache_TTL c) "5m" || String.eqb (cache_TTL c) "1h")
  end.

Record contentBlock := {
  block_Type : string;
  block_Text : option string;
  block_CacheControl : option CacheControl;
  block_ID : string;
  block_Name : string;
  block_Input : option json;
  block_ToolUseID : string;
  block_Content : option json;
  block_IsError : option bool;
  block_Thinking : option string;
}.
#[export] Instance contentBlock_eta : Eta contentBlock := fun b =>
  {| block_Type := block_Type b; block_Text := block_Text b; block_CacheControl := block_CacheControl b; block_ID := block_ID b;
     block_Name := block_Name b; block_Input := block_Input b; block_ToolUseID := block_ToolUseID b;
     block_Content := block_Content b; block_IsError := block_IsError b; block_Thinking := block_Thinking b |}.
Definition no_block : contentBlock :=
  {| block_Type := ""; block_Text := None; block_CacheControl := None; block_ID := ""; block_Name := ""; block_Input := None;
     block_ToolUseID := ""; block_Content := None; block_IsError := None; block_Thinking := None |}.

Definition dec_pstring : decoder (option string) := dec_ptr "" dec_string.

Definition contentBlock_fields : list (field contentBlock) :=
  [field_of "type" dec_string block_Type (fun s b => b <| block_Type := s |>);
   field_of "text" dec_pstring block_Text (fun s b => b <| block_Text := s |>);
   field_of "cache_control" (dec_ptr no_cache_control dec_CacheControl) block_CacheControl (fun s b => b <| block_CacheControl := s |>);
   field_of "id" dec_string block_ID (fun s b => b <| block_ID := s |>);
   field_of "name" dec_string block_Name (fun s b => b <| block_Name := s |>);
   field_of "input" dec_raw block_Input (fun s b => b <| block_Input := s |>);
   field_of "tool_use_id" dec_string block_ToolUseID (fun s b => b <| block_ToolUseID := s |>);
   field_of "content" dec_raw block_Content (fun s b => b <| block_Content := s |>);
   field_of "is_error" (dec_ptr false dec_bool) block_IsError (fun s b => b <| block_IsError := s |>);
   field_of "thinking" dec_pstring block_Thinking (fun s b => b <| block_Thinking := s |>);
   checked "signature" dec_string ""; checked "data" dec_string ""; checked "source" dec_raw None;
   checked "citations" dec_raw None; checked "transformations" dec_raw None; checked "title" dec_string "";
   checked "context" dec_string ""; checked "caller" dec_raw None; checked "encrypted_content" dec_string "";
   checked "return_code" (dec_ptr 0 dec_int64) None; checked "stderr" dec_string ""; checked "file_id" dec_string ""].
Definition dec_contentBlock : decoder contentBlock := dec_struct contentBlock_fields.

(** The anonymous [struct{Type string; Text string}] and [struct{Type string;
    Text *string}] of the validations. *)
Definition dec_text_part : decoder (string * string) :=
  dec_struct [field_of "type" dec_string fst (fun s p => (s, p.2)); field_of "text" dec_string snd (fun s p => (p.1, s))].
Definition dec_text_block : decoder (string * option string) :=
  dec_struct [field_of "type" dec_string fst (fun s p => (s, p.2)); field_of "text" dec_pstring snd (fun s p => (p.1, s))].
Definition dec_typed : decoder string := dec_struct [field_of "type" dec_string id (fun s _ => s)].

Section lenient.
Context (ToLower : string -> string).

Definition nativeContentBlocks (raw : RawMessage) : bool :=
  match LenientJSON ToLower (dec_slice "" dec_typed) [] raw with
  | Some blocks => forallb (fun kind => negb (String.eqb kind "")) blocks
  | None => false
  end.
Definition nativeContentBlock (raw : RawMessage) : bool :=
  match LenientJSON ToLower dec_typed "" raw with Some kind => negb (String.eqb kind "") | None => false end.

Definition messageContent (protocol : string) (raw : RawMessage) : bool :=
  if negb (is_nil (raw_string raw)) && negb (raw_blank raw) then true
  else if String.eqb protocol "anthropic" then nativeContentBlocks raw
  else match LenientJSON ToLower (dec_slice ("", None) dec_text_block) [] raw with
       | Some (b :: bs) => forallb (fun b => String.eqb b.1 "text" && negb (is_nil b.2)) (b :: bs)
       | _ => false
       end.

Definition textContent (raw : RawMessage) : bool :=
  match raw_string raw with
  | Some s => negb (String.eqb s "")
  | None =>
      match LenientJSON ToLower (dec_slice ("", "") dec_text_part) [] raw with
      | Some (b :: bs) => forallb (fun b => String.eqb b.1 "text" && negb (String.eqb b.2 "")) (b :: bs)
      | _ => false
      end
  end.
End lenient.

(** ** Usage *)

Definition no_usage : TokenUsage := {| Input := None; Output := None; CacheRead := None; CacheWrite := None |}.

(** [1_000_000_000_000] *)
Definition max_tokens_reported : Z := 1000000000000.

(** The count under a key: nothing when it is missing or null, and an error
    when it is no count within the bound. *)
Definition usage_count (m : gmap string json) (key : string) : string + option Z :=
  match m !! key with
  | None | Some JNull => inr None
  | Some j =>
      match dec_int64 j 0 with
      | Some n => if (n <? 0) || (max_tokens_reported <? n) then inl "invalid usage" else inr (Some n)
      | None => inl "invalid usage"
      end
  end.

Definition bind_err {E A B} (x : E + A) (f : A -> E + B) : E + B := match x with inl e => inl e | inr a => f a end.
Notation "'let!' x ':=' e 'in' k" := (bind_err e (fun x => k)) (at level 10, x binder, e at level 200, k at level 200) : go_scope.

Lemma bind_err_inr {E A B} (x : E + A) (f : A -> E + B) b : bind_err x f = inr b -> exists a, x = inr a /\ f a = inr b.
Proof. destruct x; simpl; [done|eauto]. Qed.

(** The loop over [prompt_tokens_details]: a count there replaces the one
    read before. *)
Definition detail_count (d : gmap string json) (key : string) (before : option Z) : string + option Z :=
  let! n := usage_count d key in inr (match n with Some n => Some n | None => before end).

Definition sum_counts (start : Z) (l : list (option Z)) : Z :=
  foldl (fun v n => match n with Some n => wrap64 (v + n) | None => v end) start l.

Definition openai_usage (m : gmap string json) : string + TokenUsage :=
  let! input := usage_count m "prompt_tokens" in
  let! output := usage_count m "completion_tokens" in
  let! hit := usage_count m "prompt_cache_hit_tokens" in
  let! caches :=
    match m !! "prompt_tokens_details" with
    | None => inr (hit, None)
    | Some details =>
        match dec_map details None with
        | None => inl "invalid usage"
        | Some d =>
            let d := default ∅ d in
            let! read := detail_count d "cached_tokens" hit in
            let! write := detail_count d "cache_write_tokens" None in
            inr (read, write)
        end
    end in
  let! miss := usage_count m "prompt_cache_miss_tokens" in
  let u := {| Input := input; Output := output; CacheRead := caches.1; CacheWrite := caches.2 |} in
  match miss with
  | None => inr u
  | Some miss =>
      match Input u, CacheRead u with
      | Some input, Some read => if wrap64 (miss + read) =? input then inr u else inl "incomplete cache usage"
      | _, _ => inl "incomplete cache usage"
      end
  end.

Definition anthropic_usage (m : gmap string json) : string + TokenUsage :=
  let! input := usage_count m "input_tokens" in
  let! output := usage_count m "output_tokens" in
  let! read := usage_count m "cache_read_input_tokens" in
  let! write := usage_count m "cache_creation_input_tokens" in
  inr {| Input := (fun n => sum_counts n [read; write]) <$> input; Output := output; CacheRead := read; CacheWrite := write |}.

Definition ParseUsage (protocol : string) (raw : RawMessage) : string + TokenUsage :=
  match unmarshal_raw dec_map None raw with
  | Some (Some m) =>
      let! u := (if String.eqb protocol "openai" then openai_usage m else anthropic_usage m) in
      match Input u with
      | Some input => if input <? sum_counts 0 [CacheRead u; CacheWrite u] then inl "invalid cache usage" else inr u
      | None => inr u
      end
  | _ => inr no_usage
  end.

(** ** Responses *)

(** The message of a chat completion, as [ValidateResponse] and
    [translateOpenAIResponseWithWarnings] decode it. *)
Record response_message := {
  message_Role : string;
  message_Content : option json;
  message_Refusal : string;
  message_Reasoning : string;
  message_ToolCalls : list ToolCall;
}.
#[export] Instance response_message_eta : Eta response_message := fun m =>
  {| message_Role := message_Role m; message_Content := message_Content m; message_Refusal := message_Refusal m;
     message_Reasoning := message_Reasoning m; message_ToolCalls := message_ToolCalls m |}.
Record response_choice := { choice_Message : response_message; choice_FinishReason : option string }.
#[export] Instance response_choice_eta : Eta response_choice := fun c =>
  {| choice_Message := choice_Message c; choice_FinishReason := choice_FinishReason c |}.
Record openai_response := {
  response_ID : string;
  response_Model : string;
  response_Choices : list response_choice;
  response_Usage : option json;
}.
#[export] Instance openai_response_eta : Eta openai_response := fun r =>
  {| response_ID := response_ID r; response_Model := response_Model r; response_Choices := response_Choices r;
     response_Usage := response_Usage r |}.

Definition no_message : response_message :=
  {| message_Role := ""; message_Content := None; message_Refusal := ""; message_Reasoning := ""; message_ToolCalls := [] |}.
Definition no_choice : response_choice := {| choice_Message := no_message; choice_FinishReason := None |}.
Definition no_openai_response : openai_response :=
  {| response_ID := ""; response_Model := ""; response_Choices := []; response_Usage := None |}.

Definition dec_response_message : decoder response_message :=
  dec_struct [field_of "role" dec_string message_Role (fun s m => m <| message_Role := s |>);
              field_of "content" dec_raw message_Content (fun s m => m <| message_Content := s |>);
              field_of "refusal" dec_string message_Refusal (fun s m => m <| message_Refusal := s |>);
              field_of "reasoning_content" dec_string message_Reasoning (fun s m => m <| message_Reasoning := s |>);
              field_of "tool_calls" (dec_slice no_call dec_ToolCall) message_ToolCalls (fun s m => m <| message_ToolCalls := s |>)].
Definition dec_choice : decoder response_choice :=
  dec_struct [field_of "message" dec_response_message choice_Message (fun s c => c <| choice_Message := s |>);
              field_of "finish_reason" dec_pstring choice_FinishReason (fun s c => c <| choice_FinishReason := s |>)].
(** The validation does not read [id] and [model], so it accepts values of
    any type there. *)
Definition dec_validated_response : decoder openai_response :=
  dec_struct [field_of "choices" (dec_slice no_choice dec_choice) response_Choices (fun s r => r <| response_Choices := s |>);
              field_of "usage" dec_raw response_Usage (fun s r => r <| response_Usage := s |>)].

Record anthropic_envelope := { envelope_Type : string; envelope_Role : string; envelope_Content : option json; envelope_Usage : option json }.
#[export] Instance anthropic_envelope_eta : Eta anthropic_envelope := fun r =>
  {| envelope_Type := envelope_Type r; envelope_Role := envelope_Role r; envelope_Content := envelope_Content r;
     envelope_Usage := envelope_Usage r |}.
Definition no_envelope : anthropic_envelope :=
  {| envelope_Type := ""; envelope_Role := ""; envelope_Content := None; envelope_Usage := None |}.
Definition dec_envelope : decoder anthropic_envelope :=
  dec_struct [field_of "type" dec_string envelope_Type (fun s r => r <| envelope_Type := s |>);
              field_of "role" dec_string envelope_Role (fun s r => r <| envelope_Role := s |>);
              field_of "content" dec_raw envelope_Content (fun s r => r <| envelope_Content := s |>);
              field_of "usage" dec_raw envelope_Usage (fun s r => r <| envelope_Usage := s |>)].

Definition valid_choice (ToLower : string -> string) (c : response_choice) : bool :=
  let m := choice_Message c in
  String.eqb (message_Role m) "assistant" &&
  (textContent ToLower (message_Content m) || negb (String.eqb (message_Refusal m) "") ||
   negb (String.eqb (message_Reasoning m) "") || negb (bool_decide (message_ToolCalls m = []))) &&
  validCalls (message_ToolCalls m).

Definition ValidateResponse (ToLower : string -> string) (protocol data : string) : string + TokenUsage :=
  if String.eqb protocol "openai" then
    match LenientText ToLower dec_validated_response no_openai_response data with
    | Some r =>
        if bool_decide (response_Choices r = []) || negb (forallb (valid_choice ToLower) (response_Choices r))
        then inl "invalid_upstream_response" else ParseUsage protocol (response_Usage r)
    | None => inl "invalid_upstream_response"
    end
  else
    match LenientText ToLower dec_envelope no_envelope data with
    | Some r =>
        if String.eqb (envelope_Type r) "message" && String.eqb (envelope_Role r) "assistant" &&
           messageContent ToLower "anthropic" (envelope_Content r)
        then ParseUsage protocol (envelope_Usage r) else inl "invalid_upstream_response"
    | None => inl "invalid_upstream_response"
    end.
