(* ===== verification/Responses.v ===== *)
(** * Translation of responses

    [TranslateResponse] and the functions it calls in
    internal/adapter/translate.go: finish reasons, usage and content in both
    directions, and [setResponseModel] of response_model.go.  Encoded outputs
    are given as the value that is encoded and as its text. *)

From S2P Require Import Prelude GoStrings GoFloat Json.
From S2P Require Export Messages.

(** An error of a translation: [TranslationError], or one with a fixed text. *)
Inductive translate_error :=
| TranslationError (Code Field : string)
| PlainError (text : string).

Definition firstNonEmpty (value fallback : string) : string := if negb (String.eqb value "") then value else fallback.

(** ** Finish reasons *)

(** [reason == nil || *reason == ""]. *)
Definition no_reason (reason : option string) : bool := match reason with None => true | Some r => String.eqb r "" end.

Definition translateOpenAIStopReason (reason : option string) : translate_error + string :=
  if no_reason reason then inr "end_turn"
  else
    let r := default "" reason in
    if String.eqb r "stop" then inr "end_turn"
    else if String.eqb r "length" then inr "max_tokens"
    else if String.eqb r "tool_calls" then inr "tool_use"
    else inl (TranslationError "unrepresentable_finish_reason" "choices[0].finish_reason").

(** The reason and the fields it loses. *)
Definition translateAnthropicStopReason (reason : option string) : translate_error + (string * list string) :=
  if no_reason reason then inr ("stop", [])
  else
    let r := default "" reason in
    if String.eqb r "end_turn" then inr ("stop", [])
    else if String.eqb r "max_tokens" then inr ("length", [])
    else if String.eqb r "tool_use" then inr ("tool_calls", [])
    else if String.eqb r "stop_sequence" then inr ("stop", ["stop_sequence"])
    else if String.eqb r "refusal" then inr ("stop", ["stop_reason"])
    else inl (TranslationError "unrepresentable_finish_reason" "stop_reason").

(** ** Usage *)

Definition count_member (name : string) (n : option Z) : list (string * value) :=
  match n with Some n => [(name, VInt n)] | None => [] end.

(** [None] is the nil map. *)
Definition translateOpenAIUsage (raw : RawMessage) : option value :=
  if raw_blank raw then None
  else
    match ParseUsage "openai" raw with
    | inr u =>
        if is_nil (Input u) && is_nil (Output u) then None
        else Some (VMap (count_member "input_tokens" (Input u) ++ count_member "output_tokens" (Output u) ++
                         count_member "cache_read_input_tokens" (CacheRead u) ++
                         count_member "cache_creation_input_tokens" (CacheWrite u)))
    | inl _ => None
    end.

(** A count that is an [int64] and not negative; there is no other bound. *)
Definition any_count (m : gmap string json) (name : string) : option Z :=
  j ← m !! name; n ← dec_int64 j 0; if n <? 0 then None else Some n.

Definition translateAnthropicUsage (raw : RawMessage) (inputFallback : option Z) : option value :=
  values ← (if raw_blank raw then match inputFallback with None => None | Some _ => Some ∅ end
            else m ← unmarshal_raw dec_map None raw; m);
  let input := match any_count values "input_tokens" with Some n => Some n | None => inputFallback end in
  let cacheRead := any_count values "cache_read_input_tokens" in
  let cacheWrite := any_count values "cache_creation_input_tokens" in
  let input := (fun n => sum_counts n [cacheRead; cacheWrite]) <$> input in
  let output := any_count values "output_tokens" in
  if is_nil input && is_nil output then None
  else Some (VMap (count_member "prompt_tokens" input ++ count_member "completion_tokens" output ++
                   match cacheRead with
                   | Some n => [("prompt_tokens_details", VMap [("cached_tokens", VInt n)])]
                   | None => []
                   end ++
                   [("total_tokens", VInt (wrap64 (default 0 input + default 0 output)))])).

(** ** A response of the Messages API for a client of chat completions *)

Record messages_response := {
  reply_ID : string;
  reply_Model : string;
  reply_Role : string;
  reply_Content : list contentBlock;
  reply_StopReason : option string;
  reply_StopSequence : option string;
  reply_Usage : option json;
}.
#[export] Instance messages_response_eta : Eta messages_response := fun r =>
  {| reply_ID := reply_ID r; reply_Model := reply_Model r; reply_Role := reply_Role r; reply_Content := reply_Content r;
     reply_StopReason := reply_StopReason r; reply_StopSequence := reply_StopSequence r; reply_Usage := reply_Usage r |}.
Definition no_reply : messages_response :=
  {| reply_ID := ""; reply_Model := ""; reply_Role := ""; reply_Content := []; reply_StopReason := None;
     reply_StopSequence := None; reply_Usage := None |}.
Definition dec_messages_response : decoder messages_response :=
  dec_struct [field_of "id" dec_string reply_ID (fun s r => r <| reply_ID := s |>);
              field_of "model" dec_string reply_Model (fun s r => r <| reply_Model := s |>);
              field_of "role" dec_string reply_Role (fun s r => r <| reply_Role := s |>);
              field_of "content" (dec_slice no_block dec_contentBlock) reply_Content (fun s r => r <| reply_Content := s |>);
              field_of "stop_reason" dec_pstring reply_StopReason (fun s r => r <| reply_StopReason := s |>);
              field_of "stop_sequence" dec_pstring reply_StopSequence (fun s r => r <| reply_StopSequence := s |>);
              field_of "usage" dec_raw reply_Usage (fun s r => r <| reply_Usage := s |>)].

Definition invalid_response : translate_error := PlainError "invalid_upstream_response".

(** [fmt.Sprintf("content[%d].type", index)] and the like. *)
Definition indexed (prefix : string) (index : Z) (suffix : string) : string :=
  prefix +:+ "[" +:+ Decimal.of_Z index +:+ "]" +:+ suffix.

(** What the loop over the content blocks collects: text, reasoning, tool
    calls (id, name, arguments) and warnings. *)
Record collected := {
  collected_text : string;
  collected_reasoning : string;
  collected_calls : list (string * string * string);
  collected_warnings : list string;
}.
#[export] Instance collected_eta : Eta collected := fun c =>
  {| collected_text := collected_text c; collected_reasoning := collected_reasoning c;
     collected_calls := collected_calls c; collected_warnings := collected_warnings c |}.

Definition collect_block (c : collected) (index : Z) (b : contentBlock) : option collected :=
  if String.eqb (block_Type b) "text" then
    t ← block_Text b; Some (c <| collected_text := collected_text c +:+ t |>)
  else if String.eqb (block_Type b) "thinking" then
    Some (match block_Thinking b with Some t => c <| collected_reasoning := collected_reasoning c +:+ t |> | None => c end)
  else if String.eqb (block_Type b) "tool_use" then
    if String.eqb (block_ID b) "" || String.eqb (block_Name b) "" || negb (object (block_Input b)) then None
    else Some (c <| collected_calls := collected_calls c ++
                      [(block_ID b, block_Name b, match block_Input b with Some j => source j | None => "" end)] |>)
  else Some (c <| collected_warnings := collected_warnings c ++ [indexed "content" index ".type"] |>).

Fixpoint collect_blocks (c : collected) (index : Z) (blocks : list contentBlock) : option collected :=
  match blocks with
  | [] => Some c
  | b :: blocks => c ← collect_block c index b; collect_blocks c (index + 1) blocks
  end.
Definition nothing_collected : collected :=
  {| collected_text := ""; collected_reasoning := ""; collected_calls := []; collected_warnings := [] |}.

Definition call_value (c : string * string * string) : value :=
  VMap [("id", VStr c.1.1); ("type", VStr "function");
        ("function", VMap [("name", VStr c.1.2); ("arguments", VStr c.2)])].

(** [sort.Strings] and [uniqueStrings]. *)
Fixpoint uniqueStrings (l : list string) : list string :=
  match l with
  | x :: (y :: _) as l' => if String.eqb x y then uniqueStrings l' else x :: uniqueStrings l'
  | l => l
  end.
Definition sortedUniqueStrings (l : list string) : list string := uniqueStrings (Sort.Strings l).

(** In increasing order, each once. *)
Definition increasing (l : list string) : Prop := StronglySorted (fun x y => Sort.le x y /\ x <> y) l.

Lemma elem_of_uniqueStrings x l : x ∈ uniqueStrings l <-> x ∈ l.
Proof.
  induction l as [|a [|b l] IH]; [done|done|]. cbn [uniqueStrings] in *. destruct (String.eqb_spec a b) as [->|Hne].
  - rewrite IH, !elem_of_cons. naive_solver.
  - by rewrite elem_of_cons, IH, (elem_of_cons (b :: l)).
Qed.

Lemma unique_increasing l : StronglySorted Sort.le l -> increasing (uniqueStrings l).
Proof.
  unfold increasing. induction l as [|a [|b l] IH]; [constructor|by repeat constructor|]. intros Hl.
  apply StronglySorted_inv in Hl as [Hl Ha]. specialize (IH Hl).
  change (uniqueStrings (a :: b :: l)) with (if String.eqb a b then uniqueStrings (b :: l) else a :: uniqueStrings (b :: l)).
  destruct (String.eqb_spec a b) as [->|Hne]; [done|].
  constructor; [done|]. apply Forall_forall. intros x Hx. rewrite elem_of_uniqueStrings in Hx. rewrite Forall_forall in Ha. split; [by apply Ha|]. intros ->.
  apply Hne, Sort.le_antisymm.
  - apply Ha. by left.
  - apply StronglySorted_inv in Hl as [_ Hb]. rewrite Forall_forall in Hb. apply elem_of_cons in Hx as [->|Hx]; [by destruct (Sort.le_total b b)|by apply Hb].
Qed.

Lemma elem_of_sortedUnique x l : x ∈ sortedUniqueStrings l <-> x ∈ l.
Proof. unfold sortedUniqueStrings. by rewrite elem_of_uniqueStrings, Sort.elem_of_Strings. Qed.

Lemma sortedUnique_increasing l : increasing (sortedUniqueStrings l).
Proof. apply unique_increasing, Sort.Strings_sorted. Qed.

(** The message of the choice. *)
Definition collected_message (c : collected) : value :=
  VMap ([("role", VStr "assistant");
         ("content", if String.eqb (collected_text c) "" then VNull else VStr (collected_text c))] ++
        (if String.eqb (collected_reasoning c) "" then [] else [("reasoning_content", VStr (collected_reasoning c))]) ++
        (if bool_decide (collected_calls c = []) then [] else [("tool_calls", VArr (call_value <$> collected_calls c))])).

Definition usage_member (u : option value) : list (string * value) := match u with Some u => [("usage", u)] | None => [] end.

(** The body and the warnings. *)
Definition translateMessagesResponse (in_ : messages_response) (defaultModel : string) : translate_error + (value * list string) :=
  if negb (String.eqb (reply_Role in_) "assistant") || bool_decide (reply_Content in_ = []) then inl invalid_response
  else
    match collect_blocks nothing_collected 0 (reply_Content in_) with
    | None => inl invalid_response
    | Some c =>
        if String.eqb (collected_text c) "" && String.eqb (collected_reasoning c) "" && bool_decide (collected_calls c = []) then
          inl (match collected_warnings c with
               | w :: _ => TranslationError "unrepresentable_response_content" w
               | [] => invalid_response
               end)
        else
          let! finish := translateAnthropicStopReason (reply_StopReason in_) in
          let warnings := collected_warnings c ++ finish.2 ++
                          (if no_reason (reply_StopSequence in_) then [] else ["stop_sequence"]) in
          let model := if String.eqb (reply_Model in_) "" then defaultModel else reply_Model in_ in
          let choice := VMap [("index", VInt 0); ("message", collected_message c); ("finish_reason", VStr finish.1)] in
          inr (VMap ([("id", VStr (reply_ID in_)); ("object", VStr "chat.completion"); ("model", VStr model);
                      ("choices", VArr [choice])] ++ usage_member (translateAnthropicUsage (reply_Usage in_) None)),
               sortedUniqueStrings warnings)
    end.

(** ** A chat completion for a client of the Messages API *)

Definition dec_openai_response : decoder openai_response :=
  dec_struct [field_of "id" dec_string response_ID (fun s r => r <| response_ID := s |>);
              field_of "model" dec_string response_Model (fun s r => r <| response_Model := s |>);
              field_of "choices" (dec_slice no_choice dec_choice) response_Choices (fun s r => r <| response_Choices := s |>);
              field_of "usage" dec_raw response_Usage (fun s r => r <| response_Usage := s |>)].

Definition text_value (s : string) : value := VMap [("type", VStr "text"); ("text", VStr s)].

(** The text blocks of a message content: a string, or a list of text
    parts. *)
Definition content_texts (raw : RawMessage) : option (list string) :=
  if raw_blank raw then Some []
  else
    match raw_string raw with
    | Some t => Some (if String.eqb t "" then [] else [t])
    | None =>
        parts ← unmarshal_raw (dec_slice ("", "") dec_text_part) [] raw;
        if bool_decide (parts = []) || negb (forallb (fun p => String.eqb p.1 "text") parts) then None
        else Some (snd <$> parts)
    end.

Definition tool_use_value (c : ToolCall) : option value :=
  if String.eqb (call_ID c) "" || String.eqb (call_Name c) "" then None
  else
    input ← (j ← parse (call_Arguments c); any_object j);
    Some (VMap [("type", VStr "tool_use"); ("id", VStr (call_ID c)); ("name", VStr (call_Name c)); ("input", input)]).

Definition translateOpenAIResponseContent (raw : RawMessage) (refusal : string) (calls : list ToolCall) : option (list value) :=
  texts ← content_texts raw;
  tools ← mapM tool_use_value calls;
  let out := (text_value <$> texts) ++ (if String.eqb refusal "" then [] else [text_value refusal]) ++ tools in
  if bool_decide (out = []) then None else Some out.

(** [string(raw) == "\"\""]: the literal of the empty string. *)
Definition raw_empty_string (raw : RawMessage) : bool :=
  match raw with Some (JStr text _) => String.eqb text (dq +:+ dq) | _ => false end.

Definition translateChatResponse (in_ : openai_response) (defaultModel : string) : translate_error + (value * list string) :=
  match response_Choices in_ with
  | [choice] =>
      let m := choice_Message choice in
      if String.eqb (response_ID in_) "" || negb (String.eqb (message_Role m) "assistant") then inl invalid_response
      else if negb (String.eqb (message_Reasoning m) "") && (raw_blank (message_Content m) || raw_empty_string (message_Content m)) &&
              String.eqb (message_Refusal m) "" && bool_decide (message_ToolCalls m = [])
      then inl (TranslationError "unrepresentable_reasoning_only_response" "choices[0].message.reasoning_content")
      else
        let warnings := (if String.eqb (message_Reasoning m) "" then [] else ["choices[0].message.reasoning_content"]) ++
                        (if String.eqb (message_Refusal m) "" then [] else ["choices[0].message.refusal"]) in
        match translateOpenAIResponseContent (message_Content m) (message_Refusal m) (message_ToolCalls m) with
        | None => inl invalid_response
        | Some content =>
            let model := firstNonEmpty (response_Model in_) defaultModel in
            if String.eqb model "" then inl invalid_response
            else
              let! finish := translateOpenAIStopReason (choice_FinishReason choice) in
              inr (VMap ([("id", VStr (response_ID in_)); ("type", VStr "message"); ("role", VStr "assistant");
                          ("model", VStr model); ("content", VArr content); ("stop_reason", VStr finish);
                          ("stop_sequence", VNull)] ++ usage_member (translateOpenAIUsage (response_Usage in_))),
                   sortedUniqueStrings warnings)
        end
  | _ => inl invalid_response
  end.

(** ** [TranslateResponseWithWarnings] and [setResponseModel] *)

Definition TranslateResponseWithWarnings (providerProtocol clientProtocol data defaultModel : string) :
    translate_error + (string * list string) :=
  let encode (r : translate_error + (value * list string)) := let! vw := r in inr (Marshal vw.1, vw.2) in
  if String.eqb providerProtocol clientProtocol then inr (data, [])
  else if String.eqb providerProtocol "openai" && String.eqb clientProtocol "anthropic" then
    match Unmarshal dec_openai_response no_openai_response data with
    | Some in_ => encode (translateChatResponse in_ defaultModel)
    | None => inl invalid_response
    end
  else if negb (String.eqb providerProtocol "anthropic") || negb (String.eqb clientProtocol "openai") then
    inl (PlainError "unsupported_protocol_translation")
  else
    match Unmarshal dec_messages_response no_reply data with
    | Some in_ => encode (translateMessagesResponse in_ defaultModel)
    | None => inl invalid_response
    end.

(** Replacing a member of a map of raw messages by a string. *)
Definition raw_map_value (m : gmap string json) (key : string) (v : value) : value :=
  VMap ((key, v) :: ((fun kv => (kv.1, VRaw kv.2)) <$> map_to_list (delete key m))).

Definition setResponseModel (response model : string) : string :=
  if String.eqb model "" then response
  else
    match Unmarshal dec_map None response with
    | Some (Some payload) => Marshal (raw_map_value payload "model" (VStr model))
    | _ => response
    end.
