(* ===== verification/Inputs.v ===== *)
(** * The request of a client

    The types of a request (internal/adapter/protocol.go, tools.go): what
    [encoding/json] decodes into them and what it encodes of them.  A message
    that the gateway writes has its content as text, because the code puts
    together some of that text itself ([Message] over [string]). *)

From Stdlib Require Import SpecFloat.
From S2P Require Import Prelude GoStrings GoFloat Json.
From S2P Require Export Messages.

(** ** Fields with [omitempty] *)

Definition omit_string (name s : string) : list (string * value) := if String.eqb s "" then [] else [(name, VStr s)].
Definition omit_pointer {A} (name : string) (f : A -> value) (x : option A) : list (string * value) :=
  match x with None => [] | Some a => [(name, f a)] end.
Definition omit_raw (name : string) (raw : RawMessage) : list (string * value) := omit_pointer name VRaw raw.
Definition omit_bool (name : string) (b : bool) : list (string * value) := if b then [(name, VBool b)] else [].
Definition omit_list {A} (name : string) (f : A -> value) (l : list A) : list (string * value) :=
  match l with [] => [] | _ => [(name, VArr (f <$> l))] end.
(** A raw message that is always written; [nil] as [null]. *)
Definition raw_value (raw : RawMessage) : value := match raw with Some j => VRaw j | None => VNull end.

(** ** Messages *)

Record Message (Content : Type) := {
  msg_Role : string;
  msg_Content : Content;
  msg_ToolCalls : list ToolCall;
  msg_ToolCallID : string;
  msg_Reasoning : option string;
}.
Arguments msg_Role {Content}.
Arguments msg_Content {Content}.
Arguments msg_ToolCalls {Content}.
Arguments msg_ToolCallID {Content}.
Arguments msg_Reasoning {Content}.
#[export] Instance Message_eta C : Eta (Message C) := fun m =>
  {| msg_Role := msg_Role m; msg_Content := msg_Content m; msg_ToolCalls := msg_ToolCalls m;
     msg_ToolCallID := msg_ToolCallID m; msg_Reasoning := msg_Reasoning m |}.
Definition client_message : Type := Message (option json).
Definition no_client_message : client_message :=
  {| msg_Role := ""; msg_Content := None; msg_ToolCalls := []; msg_ToolCallID := ""; msg_Reasoning := None |}.

Definition dec_Message : decoder client_message :=
  dec_struct [field_of "role" dec_string msg_Role (fun s m => m <| msg_Role := s |>);
              field_of "content" dec_raw msg_Content (fun s m => m <| msg_Content := s |>);
              field_of "tool_calls" (dec_slice no_call dec_ToolCall) msg_ToolCalls (fun s m => m <| msg_ToolCalls := s |>);
              field_of "tool_call_id" dec_string msg_ToolCallID (fun s m => m <| msg_ToolCallID := s |>);
              field_of "reasoning_content" dec_pstring msg_Reasoning (fun s m => m <| msg_Reasoning := s |>)].

Definition ToolCall_value (c : ToolCall) : value :=
  VStruct [("id", VStr (call_ID c)); ("type", VStr (call_Type c));
           ("function", VStruct [("name", VStr (call_Name c)); ("arguments", VStr (call_Arguments c))])].
Definition Message_value {C} (content : value) (m : Message C) : value :=
  VStruct ([("role", VStr (msg_Role m)); ("content", content)] ++ omit_list "tool_calls" ToolCall_value (msg_ToolCalls m) ++
           omit_string "tool_call_id" (msg_ToolCallID m) ++ omit_pointer "reasoning_content" VStr (msg_Reasoning m)).
Definition client_message_value (m : client_message) : value := Message_value (raw_value (msg_Content m)) m.

(** ** Options *)

Record Thinking := { thinking_Type : string; thinking_BudgetTokens : option Z; thinking_Display : string }.
#[export] Instance Thinking_eta : Eta Thinking := fun t =>
  {| thinking_Type := thinking_Type t; thinking_BudgetTokens := thinking_BudgetTokens t; thinking_Display := thinking_Display t |}.
Definition no_thinking : Thinking := {| thinking_Type := ""; thinking_BudgetTokens := None; thinking_Display := "" |}.
Definition dec_pint64 : decoder (option Z) := dec_ptr 0 dec_int64.
Definition dec_pbool : decoder (option bool) := dec_ptr false dec_bool.
Definition dec_Thinking : decoder Thinking :=
  dec_struct [field_of "type" dec_string thinking_Type (fun s t => t <| thinking_Type := s |>);
              field_of "budget_tokens" dec_pint64 thinking_BudgetTokens (fun s t => t <| thinking_BudgetTokens := s |>);
              field_of "display" dec_string thinking_Display (fun s t => t <| thinking_Display := s |>)].
Definition Thinking_value (t : Thinking) : value :=
  VStruct ([("type", VStr (thinking_Type t))] ++ omit_pointer "budget_tokens" VInt (thinking_BudgetTokens t) ++
           omit_string "display" (thinking_Display t)).

(** [StreamOptions] is its one field. *)
Record StreamOptions := { IncludeUsage : bool }.
#[export] Instance StreamOptions_eta : Eta StreamOptions := fun o => {| IncludeUsage := IncludeUsage o |}.
Definition dec_StreamOptions : decoder StreamOptions :=
  dec_struct [field_of "include_usage" dec_bool IncludeUsage (fun b o => o <| IncludeUsage := b |>)].
Definition StreamOptions_value (o : StreamOptions) : value := VStruct [("include_usage", VBool (IncludeUsage o))].

Record OutputFormat := { format_Type : string; format_Schema : option json }.
#[export] Instance OutputFormat_eta : Eta OutputFormat := fun f => {| format_Type := format_Type f; format_Schema := format_Schema f |}.
Definition no_format : OutputFormat := {| format_Type := ""; format_Schema := None |}.
Definition dec_OutputFormat : decoder OutputFormat :=
  dec_struct [field_of "type" dec_string format_Type (fun s f => f <| format_Type := s |>);
              field_of "schema" dec_raw format_Schema (fun s f => f <| format_Schema := s |>)].
Definition OutputFormat_value (f : OutputFormat) : value :=
  VStruct ([("type", VStr (format_Type f))] ++ omit_raw "schema" (format_Schema f)).

Record OutputConfig := { config_Effort : string; config_Format : option OutputFormat }.
#[export] Instance OutputConfig_eta : Eta OutputConfig := fun c => {| config_Effort := config_Effort c; config_Format := config_Format c |}.
Definition no_output_config : OutputConfig := {| config_Effort := ""; config_Format := None |}.
Definition dec_OutputConfig : decoder OutputConfig :=
  dec_struct [field_of "effort" dec_string config_Effort (fun s c => c <| config_Effort := s |>);
              field_of "format" (dec_ptr no_format dec_OutputFormat) config_Format (fun s c => c <| config_Format := s |>)].
Definition OutputConfig_value (c : OutputConfig) : value :=
  VStruct (omit_string "effort" (config_Effort c) ++ omit_pointer "format" OutputFormat_value (config_Format c)).

Record JSONSchema := { schema_Name : string; schema_Description : string; schema_Schema : option json; schema_Strict : option bool }.
#[export] Instance JSONSchema_eta : Eta JSONSchema := fun s =>
  {| schema_Name := schema_Name s; schema_Description := schema_Description s; schema_Schema := schema_Schema s;
     schema_Strict := schema_Strict s |}.
Definition no_schema : JSONSchema := {| schema_Name := ""; schema_Description := ""; schema_Schema := None; schema_Strict := None |}.
Definition dec_JSONSchema : decoder JSONSchema :=
  dec_struct [field_of "name" dec_string schema_Name (fun s x => x <| schema_Name := s |>);
              field_of "description" dec_string schema_Description (fun s x => x <| schema_Description := s |>);
              field_of "schema" dec_raw schema_Schema (fun s x => x <| schema_Schema := s |>);
              field_of "strict" dec_pbool schema_Strict (fun s x => x <| schema_Strict := s |>)].
Definition JSONSchema_value (s : JSONSchema) : value :=
  VStruct ([("name", VStr (schema_Name s))] ++ omit_string "description" (schema_Description s) ++
           [("schema", raw_value (schema_Schema s))] ++ omit_pointer "strict" VBool (schema_Strict s)).

Record ResponseFormat := { response_Type : string; response_JSONSchema : option JSONSchema }.
#[export] Instance ResponseFormat_eta : Eta ResponseFormat := fun f =>
  {| response_Type := response_Type f; response_JSONSchema := response_JSONSchema f |}.
Definition no_response_format : ResponseFormat := {| response_Type := ""; response_JSONSchema := None |}.
Definition dec_ResponseFormat : decoder ResponseFormat :=
  dec_struct [field_of "type" dec_string response_Type (fun s f => f <| response_Type := s |>);
              field_of "json_schema" (dec_ptr no_schema dec_JSONSchema) response_JSONSchema (fun s f => f <| response_JSONSchema := s |>)].
Definition ResponseFormat_value (f : ResponseFormat) : value :=
  VStruct ([("type", VStr (response_Type f))] ++ omit_pointer "json_schema" JSONSchema_value (response_JSONSchema f)).

Record Metadata := { UserID : string }.
#[export] Instance Metadata_eta : Eta Metadata := fun m => {| UserID := UserID m |}.
Definition dec_Metadata : decoder Metadata := dec_struct [field_of "user_id" dec_string UserID (fun s m => m <| UserID := s |>)].
Definition Metadata_value (m : Metadata) : value := VStruct (omit_string "user_id" (UserID m)).

(** ** Tools *)

Record Function := { function_Name : string; function_Description : string; function_Parameters : option json; function_Strict : option bool }.
#[export] Instance Function_eta : Eta Function := fun f =>
  {| function_Name := function_Name f; function_Description := function_Description f;
     function_Parameters := function_Parameters f; function_Strict := function_Strict f |}.
Definition no_function : Function :=
  {| function_Name := ""; function_Description := ""; function_Parameters := None; function_Strict := None |}.
Definition dec_Function : decoder Function :=
  dec_struct [field_of "name" dec_string function_Name (fun s f => f <| function_Name := s |>);
              field_of "description" dec_string function_Description (fun s f => f <| function_Description := s |>);
              field_of "parameters" dec_raw function_Parameters (fun s f => f <| function_Parameters := s |>);
              field_of "strict" dec_pbool function_Strict (fun s f => f <| function_Strict := s |>)].
Definition Function_value (f : Function) : value :=
  VStruct ([("name", VStr (function_Name f))] ++ omit_string "description" (function_Description f) ++
           omit_raw "parameters" (function_Parameters f) ++ omit_pointer "strict" VBool (function_Strict f)).

Definition CacheControl_value (c : CacheControl) : value :=
  VStruct ([("type", VStr (cache_Type c))] ++ omit_string "ttl" (cache_TTL c)).

Record Tool := {
  tool_Type : string;
  tool_Function : option Function;
  tool_Name : string;
  tool_Description : string;
  tool_InputSchema : option json;
  tool_CacheControl : option CacheControl;
  tool_Eager : option bool;
  tool_Extensions : gmap string json;
}.
#[export] Instance Tool_eta : Eta Tool := fun t =>
  {| tool_Type := tool_Type t; tool_Function := tool_Function t; tool_Name := tool_Name t;
     tool_Description := tool_Description t; tool_InputSchema := tool_InputSchema t;
     tool_CacheControl := tool_CacheControl t; tool_Eager := tool_Eager t; tool_Extensions := tool_Extensions t |}.
Definition no_tool : Tool :=
  {| tool_Type := ""; tool_Function := None; tool_Name := ""; tool_Description := ""; tool_InputSchema := None;
     tool_CacheControl := None; tool_Eager := None; tool_Extensions := ∅ |}.

(** [wireTool], the fields with their usual decoding and encoding. *)
Definition dec_wireTool : decoder Tool :=
  dec_struct [field_of "type" dec_string tool_Type (fun s t => t <| tool_Type := s |>);
              field_of "function" (dec_ptr no_function dec_Function) tool_Function (fun s t => t <| tool_Function := s |>);
              field_of "name" dec_string tool_Name (fun s t => t <| tool_Name := s |>);
              field_of "description" dec_string tool_Description (fun s t => t <| tool_Description := s |>);
              field_of "input_schema" dec_raw tool_InputSchema (fun s t => t <| tool_InputSchema := s |>);
              field_of "cache_control" (dec_ptr no_cache_control dec_CacheControl) tool_CacheControl
                (fun s t => t <| tool_CacheControl := s |>);
              field_of "eager_input_streaming" dec_pbool tool_Eager (fun s t => t <| tool_Eager := s |>)].
Definition wireTool_fields (t : Tool) : list (string * value) :=
  omit_string "type" (tool_Type t) ++ omit_pointer "function" Function_value (tool_Function t) ++
  omit_string "name" (tool_Name t) ++ omit_string "description" (tool_Description t) ++
  omit_raw "input_schema" (tool_InputSchema t) ++ omit_pointer "cache_control" CacheControl_value (tool_CacheControl t) ++
  omit_pointer "eager_input_streaming" VBool (tool_Eager t).
Definition known_tool_fields : list string :=
  ["type"; "function"; "name"; "description"; "input_schema"; "cache_control"; "eager_input_streaming"].

(** The custom tools of a client; the other types are tools that the provider
    hosts. *)
Definition custom_tool (t : Tool) : bool := String.eqb (tool_Type t) "" || String.eqb (tool_Type t) "custom".

(** [MarshalJSON].  The encoded fields are decoded into a map, which gets the
    extensions that they do not name, and are encoded again as they are. *)
Definition Tool_value (t : Tool) : value :=
  let fields := wireTool_fields t in
  if custom_tool t || bool_decide (tool_Extensions t = ∅) then VStruct fields
  else VMap (fields ++ ((fun kv => (kv.1, VRaw kv.2)) <$>
                        filter (fun kv => kv.1 ∉ fields.*1) (map_to_list (tool_Extensions t)))).

(** ** The whole request *)

Record Input := {
  in_ContextManagement : option json;
  in_StreamOptions : option StreamOptions;
  in_Metadata : option Metadata;
  in_OutputConfig : option OutputConfig;
  in_ResponseFormat : option ResponseFormat;
  in_ReasoningEffort : string;
  in_User : string;
  in_Tools : list Tool;
  in_ToolChoice : option json;
  in_ParallelToolCalls : option bool;
  in_Thinking : option Thinking;
  in_Model : string;
  in_Messages : list client_message;
  in_Stream : bool;
  in_MaxTokens : option Z;
  in_MaxCompletionTokens : option Z;
  in_System : option json;
  in_Temperature : option spec_float;
  in_TopP : option spec_float;
  in_Stop : option json;
  in_StopSequences : list string;
}.
#[export] Instance Input_eta : Eta Input := fun i =>
  {| in_ContextManagement := in_ContextManagement i; in_StreamOptions := in_StreamOptions i; in_Metadata := in_Metadata i;
     in_OutputConfig := in_OutputConfig i; in_ResponseFormat := in_ResponseFormat i; in_ReasoningEffort := in_ReasoningEffort i;
     in_User := in_User i; in_Tools := in_Tools i; in_ToolChoice := in_ToolChoice i; in_ParallelToolCalls := in_ParallelToolCalls i;
     in_Thinking := in_Thinking i; in_Model := in_Model i; in_Messages := in_Messages i; in_Stream := in_Stream i;
     in_MaxTokens := in_MaxTokens i; in_MaxCompletionTokens := in_MaxCompletionTokens i; in_System := in_System i;
     in_Temperature := in_Temperature i; in_TopP := in_TopP i; in_Stop := in_Stop i; in_StopSequences := in_StopSequences i |}.
Definition no_input : Input :=
  {| in_ContextManagement := None; in_StreamOptions := None; in_Metadata := None; in_OutputConfig := None;
     in_ResponseFormat := None; in_ReasoningEffort := ""; in_User := ""; in_Tools := []; in_ToolChoice := None;
     in_ParallelToolCalls := None; in_Thinking := None; in_Model := ""; in_Messages := []; in_Stream := false;
     in_MaxTokens := None; in_MaxCompletionTokens := None; in_System := None; in_Temperature := None; in_TopP := None;
     in_Stop := None; in_StopSequences := [] |}.

Section decoding.
Context (ToLower : string -> string).

(** [UnmarshalJSON] of a tool: its fields, and every other member as an
    extension. *)
Definition dec_Tool : decoder Tool := fun j _ =>
  t ← dec_wireTool j no_tool;
  m ← dec_map j None;
  Some (t <| tool_Extensions := filter (fun kv => ToLower kv.1 ∉ known_tool_fields) (default ∅ m) |>).

Definition Input_fields : list (field Input) :=
  [field_of "context_management" dec_raw in_ContextManagement (fun s i => i <| in_ContextManagement := s |>);
   field_of "stream_options" (dec_ptr {| IncludeUsage := false |} dec_StreamOptions) in_StreamOptions
     (fun s i => i <| in_StreamOptions := s |>);
   field_of "metadata" (dec_ptr {| UserID := "" |} dec_Metadata) in_Metadata (fun s i => i <| in_Metadata := s |>);
   field_of "output_config" (dec_ptr no_output_config dec_OutputConfig) in_OutputConfig (fun s i => i <| in_OutputConfig := s |>);
   field_of "response_format" (dec_ptr no_response_format dec_ResponseFormat) in_ResponseFormat
     (fun s i => i <| in_ResponseFormat := s |>);
   field_of "reasoning_effort" dec_string in_ReasoningEffort (fun s i => i <| in_ReasoningEffort := s |>);
   field_of "user" dec_string in_User (fun s i => i <| in_User := s |>);
   field_of "tools" (dec_slice no_tool dec_Tool) in_Tools (fun s i => i <| in_Tools := s |>);
   field_of "tool_choice" dec_raw in_ToolChoice (fun s i => i <| in_ToolChoice := s |>);
   field_of "parallel_tool_calls" dec_pbool in_ParallelToolCalls (fun s i => i <| in_ParallelToolCalls := s |>);
   field_of "thinking" (dec_ptr no_thinking dec_Thinking) in_Thinking (fun s i => i <| in_Thinking := s |>);
   field_of "model" dec_string in_Model (fun s i => i <| in_Model := s |>);
   field_of "messages" (dec_slice no_client_message dec_Message) in_Messages (fun s i => i <| in_Messages := s |>);
   field_of "stream" dec_bool in_Stream (fun s i => i <| in_Stream := s |>);
   field_of "max_tokens" dec_pint64 in_MaxTokens (fun s i => i <| in_MaxTokens := s |>);
   field_of "max_completion_tokens" dec_pint64 in_MaxCompletionTokens (fun s i => i <| in_MaxCompletionTokens := s |>);
   field_of "system" dec_raw in_System (fun s i => i <| in_System := s |>);
   field_of "temperature" (dec_ptr Float.zero dec_float64) in_Temperature (fun s i => i <| in_Temperature := s |>);
   field_of "top_p" (dec_ptr Float.zero dec_float64) in_TopP (fun s i => i <| in_TopP := s |>);
   field_of "stop" dec_raw in_Stop (fun s i => i <| in_Stop := s |>);
   field_of "stop_sequences" (dec_slice "" dec_string) in_StopSequences (fun s i => i <| in_StopSequences := s |>)].
Definition dec_Input_mode (strict : bool) : decoder Input := dec_struct_mode strict Input_fields.
End decoding.

Definition Input_value (i : Input) : value :=
  VStruct (
    omit_raw "context_management" (in_ContextManagement i) ++
    omit_pointer "stream_options" StreamOptions_value (in_StreamOptions i) ++
    omit_pointer "metadata" Metadata_value (in_Metadata i) ++
    omit_pointer "output_config" OutputConfig_value (in_OutputConfig i) ++
    omit_pointer "response_format" ResponseFormat_value (in_ResponseFormat i) ++
    omit_string "reasoning_effort" (in_ReasoningEffort i) ++
    omit_string "user" (in_User i) ++
    omit_list "tools" Tool_value (in_Tools i) ++
    omit_raw "tool_choice" (in_ToolChoice i) ++
    omit_pointer "parallel_tool_calls" VBool (in_ParallelToolCalls i) ++
    omit_pointer "thinking" Thinking_value (in_Thinking i) ++
    [("model", VStr (in_Model i)); ("messages", VArr (client_message_value <$> in_Messages i))] ++
    omit_bool "stream" (in_Stream i) ++
    omit_pointer "max_tokens" VInt (in_MaxTokens i) ++
    omit_pointer "max_completion_tokens" VInt (in_MaxCompletionTokens i) ++
    omit_raw "system" (in_System i) ++
    omit_pointer "temperature" VFloat (in_Temperature i) ++
    omit_pointer "top_p" VFloat (in_TopP i) ++
    omit_raw "stop" (in_Stop i) ++
    omit_list "stop_sequences" VStr (in_StopSequences i)).
