(* ===== verification/InputRules.v ===== *)
(** * The validation of a request

    internal/adapter/request.go and [RequestWithWarnings] of protocol.go: the
    fields of the other protocol are discarded from the raw document, what is
    left is decoded, the fields that nothing reads become warnings, and the
    rules of the protocol are checked in the code's order. *)

From Stdlib Require Import SpecFloat.
From S2P Require Import Prelude GoStrings GoFloat Json.
From S2P Require Export Responses Inputs.

(** ** Raw messages that are written and read again *)

(** A raw message after [json.Marshal]: its text is compact. *)
Definition compact_text (s : string) : string := string_of_bytes (compact false false (bytes_of_string s)).
Fixpoint recode (j : json) : json :=
  match j with
  | JStr s v => JStr (compact_text s) v
  | JArr s items => JArr (compact_text s) (recode <$> items)
  | JObj s members => JObj (compact_text s) ((fun kv => (kv.1, recode kv.2)) <$> members)
  | _ => j
  end.

(** [json.Marshal] of a [[]json.RawMessage] and of a
    [map[string]json.RawMessage], as raw messages. *)
Definition raw_array (items : list json) : json := JArr (Marshal (VArr (VRaw <$> items))) (recode <$> items).
Definition member_le (x y : string * json) : Prop := Sort.le x.1 y.1.
#[export] Instance member_le_dec : RelDecision member_le.
Proof. intros x y. apply Sort.le_dec. Defined.
Definition raw_object (m : gmap string json) : json :=
  JObj (Marshal (map_value m)) (merge_sort member_le ((fun kv => (kv.1, recode kv.2)) <$> map_to_list m)).

(** A loop over a slice with its index. *)
Section map_index.
Context {A B : Type} (f : nat -> A -> B).
Fixpoint map_from (index : nat) (l : list A) : list B :=
  match l with [] => [] | x :: l => f index x :: map_from (S index) l end.
End map_index.
Definition map_index {A B} (f : nat -> A -> B) (l : list A) : list B := map_from f 0 l.

(** ** The fields of a type *)

(** What [reflect] shows of a type: [Opaque] is a raw message, an interface or
    a type without fields. *)
Inductive schema := Opaque | StructOf (fields : list (string * schema)) | SliceOf (elem : schema).

Definition opaque_fields (names : list string) : list (string * schema) := (fun n => (n, Opaque)) <$> names.
Definition CacheControl_schema : schema := StructOf (opaque_fields ["type"; "ttl"]).
Definition contentBlock_schema : schema :=
  StructOf (("cache_control", CacheControl_schema) ::
            opaque_fields ["type"; "text"; "id"; "name"; "input"; "tool_use_id"; "content"; "is_error"; "thinking"; "signature";
                           "data"; "source"; "citations"; "transformations"; "title"; "context"; "caller"; "encrypted_content";
                           "return_code"; "stderr"; "file_id"]).
Definition openai_choice_schema : schema := StructOf [("type", Opaque); ("function", StructOf [("name", Opaque)])].
Definition Function_schema : schema := StructOf (opaque_fields ["name"; "description"; "parameters"; "strict"]).
Definition Tool_schema : schema :=
  StructOf ([("function", Function_schema); ("cache_control", CacheControl_schema)] ++
            opaque_fields ["type"; "name"; "description"; "input_schema"; "eager_input_streaming"]).
Definition ToolCall_schema : schema :=
  StructOf [("id", Opaque); ("type", Opaque); ("function", StructOf (opaque_fields ["name"; "arguments"]))].
Definition Message_schema : schema :=
  StructOf (("tool_calls", SliceOf ToolCall_schema) :: opaque_fields ["role"; "content"; "tool_call_id"; "reasoning_content"]).
Definition Input_schema : schema :=
  StructOf ([("stream_options", StructOf [("include_usage", Opaque)]);
             ("metadata", StructOf [("user_id", Opaque)]);
             ("output_config", StructOf [("effort", Opaque); ("format", StructOf (opaque_fields ["type"; "schema"]))]);
             ("response_format", StructOf [("type", Opaque);
                ("json_schema", StructOf (opaque_fields ["name"; "description"; "schema"; "strict"]))]);
             ("tools", SliceOf Tool_schema);
             ("thinking", StructOf (opaque_fields ["type"; "budget_tokens"; "display"]));
             ("messages", SliceOf Message_schema)] ++
            opaque_fields ["context_management"; "reasoning_effort"; "user"; "tool_choice"; "parallel_tool_calls"; "model"; "stream";
                           "max_tokens"; "max_completion_tokens"; "system"; "temperature"; "top_p"; "stop"; "stop_sequences"]).

Definition joinJSONPath (parent child : string) : string := if String.eqb parent "" then child else parent +:+ "." +:+ child.
(** [fmt.Sprintf("%s[%d]", path, index)]. *)
Definition item_path (path : string) (index : nat) : string := path +:+ "[" +:+ Decimal.of_Z (Z.of_nat index) +:+ "]".

(** [errors] of a request: with a field, with a code only, or of
    [json.Marshal]. *)
Inductive request_error :=
| ValidationError (code param : string)
| RequestError (code : string)
| EncodeError.

(** The codes that name a field themselves. *)
Definition parameter_codes : list string :=
  ["model"; "thinking"; "stream_options"; "context_management"; "response_format"; "output_config"; "parallel_tool_calls"; "messages";
   "tools"; "tool_choice"; "tool_calls"; "tool_call_id"; "reasoning_content"; "max_tokens"; "max_completion_tokens"; "temperature";
   "top_p"; "stop"; "stop_sequences"; "system"; "invalid_session_id"; "invalid_beta_header"; "unsupported_request_feature"].
Definition ValidationParameter (e : request_error) : string :=
  match e with
  | ValidationError _ param => param
  | RequestError code => if bool_decide (Strings.TrimSpace code ∈ parameter_codes) then Strings.TrimSpace code else ""
  | EncodeError => ""
  end.

(** The struct that [validChoice] decodes. *)
Record tool_choice := { choice_Type : string; choice_Name : string; choice_Function : option string; choice_DisableParallel : option bool }.
#[export] Instance tool_choice_eta : Eta tool_choice := fun c =>
  {| choice_Type := choice_Type c; choice_Name := choice_Name c; choice_Function := choice_Function c;
     choice_DisableParallel := choice_DisableParallel c |}.
Definition no_tool_choice : tool_choice :=
  {| choice_Type := ""; choice_Name := ""; choice_Function := None; choice_DisableParallel := None |}.
Definition dec_function_name : decoder string := dec_struct [field_of "name" dec_string id (fun s _ => s)].
Definition dec_tool_choice : decoder tool_choice :=
  dec_struct [field_of "type" dec_string choice_Type (fun s c => c <| choice_Type := s |>);
              field_of "name" dec_string choice_Name (fun s c => c <| choice_Name := s |>);
              field_of "function" (dec_ptr "" dec_function_name) choice_Function (fun s c => c <| choice_Function := s |>);
              field_of "disable_parallel_tool_use" dec_pbool choice_DisableParallel (fun s c => c <| choice_DisableParallel := s |>)].

Section rules.
Context (ToLower : string -> string).
Context {Range : MapRange string json}.

(** The members of a raw object, without duplicates. *)
Definition lenient_object (j : json) : option (gmap string json) := m ← LenientJSON ToLower dec_map None (Some j); m.
(** [json.Unmarshal] into [[]json.RawMessage], when it is not nil. *)
Definition raw_items (raw : RawMessage) : option (list json) :=
  match raw with Some (JArr _ items) => Some items | _ => None end.

(** The key that stands for [field], in the order of the range. *)
Definition findJSONField (m : gmap string json) (field : string) : option (string * json) :=
  List.find (fun kv => same_name field kv.1) (range m).

Definition removeJSONFields (m : gmap string json) (fields : list string) : gmap string json * list string :=
  (filter (fun kv => ToLower kv.1 ∉ fields) m, filter (fun f => f ∈ fields) ((fun kv => ToLower kv.1) <$> range m)).

(** [pruneUnknownJSONFields]: the raw message without the members that the
    type does not have, and their paths. *)
Fixpoint pruneUnknownJSONFields (target : schema) (j : json) (path : string) : json * list string :=
  match target with
  | Opaque => (j, [])
  | StructOf fields =>
      let known : list (string * (json -> string -> json * list string)) :=
        (fun f => (f.1, pruneUnknownJSONFields f.2)) <$> fields in
      match lenient_object j with
      | None => (j, [])
      | Some m =>
          let pruned := (fun kv : string * json =>
            let fieldPath := joinJSONPath path kv.1 in
            match List.find (fun f => String.eqb f.1 (ToLower kv.1)) known with
            | None => (@None (string * json), [fieldPath])
            | Some f => let (child, paths) := f.2 kv.2 fieldPath in (Some (kv.1, child), paths)
            end) <$> range m in
          (raw_object (list_to_map (omap fst pruned)), concat (snd <$> pruned))
      end
  | SliceOf elem =>
      match raw_items (Some j) with
      | None => (j, [])
      | Some items =>
          let pruned := map_index (fun index child => pruneUnknownJSONFields elem child (item_path path index)) items in
          (raw_array pruned.*1, concat pruned.*2)
      end
  end.

(** [sanitizeContentBlocks] for OpenAI content: the blocks without
    [cache_control] and without unknown members, also inside a tool result.
    Neither changes the [content] of a block, so the recursion is on what it
    was in the document. *)
Fixpoint sanitizeContentBlocks (j : json) (path : string) : json * list string :=
  match j with
  | JArr _ blocks =>
      let cleaned := map_index (fun index block =>
        let blockPath := item_path path index in
        let inner : string -> string -> option (json * list string) := fun key path =>
          match block with
          | JObj _ members =>
              (fix find (members : list (string * json)) :=
                 match members with
                 | [] => None
                 | (k, v) :: members => if String.eqb k key then Some (sanitizeContentBlocks v path) else find members
                 end) members
          | _ => None
          end in
        let (block, removed) :=
          match lenient_object block with
          | Some m => let (m, removed) := removeJSONFields m ["cache_control"] in
                      (raw_object m, (fun field => blockPath +:+ "." +:+ field) <$> removed)
          | None => (block, [])
          end in
        let (block, unknown) := pruneUnknownJSONFields contentBlock_schema block blockPath in
        match lenient_object block with
        | None => (block, removed ++ unknown)
        | Some m =>
            let kind := match findJSONField m "type" with Some (_, j) => default "" (raw_string (Some j)) | None => "" end in
            let found := if String.eqb kind "tool_result" then key ← findJSONField m "content"; (fun r => (key.1, r)) <$> inner key.1 (blockPath +:+ ".content") else None in
            match found with
            | Some (key, (nested, nestedFields)) => (raw_object (<[key := nested]> m), removed ++ unknown ++ nestedFields)
            | None => (raw_object m, removed ++ unknown)
            end
        end) blocks in
      (raw_array cleaned.*1, concat cleaned.*2)
  | _ => (j, [])
  end.

(** One message of [sanitizeRequestContent]; a malformed one stays for the
    typed decoder. *)
Definition sanitize_message (index : nat) (item : json) : json * list string :=
  match lenient_object item with
  | None => (item, [])
  | Some message =>
      match findJSONField message "content" with
      | None => (item, [])
      | Some (key, content) =>
          let (cleaned, paths) := sanitizeContentBlocks content (item_path "messages" index +:+ ".content") in
          (raw_object (<[key := cleaned]> message), paths)
      end
  end.

(** The messages of a document, each rewritten by [f]. *)
Definition rewrite_messages (f : nat -> json -> json * list string) (m : gmap string json) : gmap string json * list string :=
  match findJSONField m "messages" with
  | None => (m, [])
  | Some (key, messages) =>
      match raw_items (Some messages), messages with
      | Some items, _ => let rewritten := map_index f items in (<[key := raw_array rewritten.*1]> m, concat rewritten.*2)
      | None, JNull => (<[key := JNull]> m, [])
      | None, _ => (m, [])
      end
  end.
Definition sanitizeRequestContent (m : gmap string json) : gmap string json * list string := rewrite_messages sanitize_message m.

Definition foreign_message_fields : list string := ["tool_calls"; "tool_call_id"; "reasoning_content"].
Definition strip_message (index : nat) (item : json) : json * list string :=
  match lenient_object item with
  | None => (item, [])
  | Some message =>
      let (message, removed) := removeJSONFields message foreign_message_fields in
      (raw_object message, (fun field => item_path "messages" index +:+ "." +:+ field) <$> removed)
  end.

Definition foreign_top_level (protocol : string) : list string :=
  if String.eqb protocol "openai" then ["system"; "stop_sequences"; "metadata"; "output_config"; "context_management"]
  else if String.eqb protocol "anthropic" then
    ["user"; "stream_options"; "response_format"; "reasoning_effort"; "parallel_tool_calls"; "max_completion_tokens"; "stop"]
  else [].

(** [discardForeignProtocolFields]: what is left of the document, and the
    fields that are gone; [None] when it is no object with distinct keys. *)
Definition discardForeignProtocolFields (data protocol : string) : option (json * list string) :=
  j ← parse data;
  m ← lenient_object j;
  let (m, foreign) := removeJSONFields m (foreign_top_level protocol) in
  let (m, choiceFields) :=
    if String.eqb protocol "openai" then
      match findJSONField m "tool_choice" with
      | Some (key, choice) =>
          let (cleaned, paths) := pruneUnknownJSONFields openai_choice_schema choice "tool_choice" in (<[key := cleaned]> m, paths)
      | None => (m, [])
      end
    else (m, []) in
  let (m, contentFields) :=
    if String.eqb protocol "openai" then sanitizeRequestContent m
    else if String.eqb protocol "anthropic" then rewrite_messages strip_message m
    else (m, []) in
  Some (raw_object m, sortedUniqueStrings (foreign ++ choiceFields ++ contentFields)).

(** ** Fields that nothing reads *)

(** [collectUnknownFields]; the document has passed [LenientJSON], so that its
    objects are maps. *)
Fixpoint collectUnknownFields (target : schema) (j : json) (path : string) : list string :=
  match target, j with
  | StructOf fields, JObj _ members =>
      let known : list (string * (json -> string -> list string)) := (fun f => (f.1, collectUnknownFields f.2)) <$> fields in
      range (members_map members) ≫= fun kv =>
        let fieldPath := joinJSONPath path kv.1 in
        match List.find (fun f => String.eqb f.1 (ToLower kv.1)) known with
        | None => [fieldPath]
        | Some f => f.2 kv.2 fieldPath
        end
  | SliceOf elem, JArr _ items => concat (map_index (fun index child => collectUnknownFields elem child (item_path path index)) items)
  | _, _ => []
  end.

Definition ignoredRequestFields (data : string) (input : Input) (protocol : string) : list string :=
  match parse data with
  | None => []
  | Some j =>
      let fields := collectUnknownFields Input_schema j "" in
      let hosted := concat (map_index (fun index tool => if custom_tool tool then [] else [item_path "tools" index]) (in_Tools input)) in
      let fields :=
        if String.eqb protocol "anthropic"
        then List.filter (fun field => negb (existsb (fun prefix => Strings.HasPrefix field (prefix +:+ ".")) hosted)) fields
        else fields in
      let eager := concat (map_index (fun index tool =>
        if is_nil (tool_Eager tool) then [] else [item_path "tools" index +:+ ".eager_input_streaming"]) (in_Tools input)) in
      sortedUniqueStrings (fields ++ eager)
  end.

(** ** The rules *)

Definition validTool (protocol : string) (t : Tool) : bool :=
  if String.eqb protocol "openai" then
    String.eqb (tool_Type t) "function" &&
    match tool_Function t with
    | None => false
    | Some f => negb (String.eqb (Strings.TrimSpace (function_Name f)) "") &&
                (is_nil (function_Parameters f) || object (function_Parameters f))
    end &&
    String.eqb (tool_Name t) "" && is_nil (tool_InputSchema t) && is_nil (tool_CacheControl t) && String.eqb (tool_Description t) ""
  else
    is_nil (tool_Function t) && negb (String.eqb (Strings.TrimSpace (tool_Name t)) "") && cache_valid (tool_CacheControl t) &&
    (negb (custom_tool t) || object (tool_InputSchema t)).
Definition validTools (protocol : string) (tools : list Tool) : bool := forallb (validTool protocol) tools.

Definition validChoice (protocol : string) (raw : RawMessage) : bool :=
  if is_nil raw then true
  else match raw_string raw with
  | Some s => String.eqb protocol "openai" && (String.eqb s "auto" || String.eqb s "none" || String.eqb s "required")
  | None =>
      match LenientJSON ToLower dec_tool_choice no_tool_choice raw with
      | None => false
      | Some c =>
          if String.eqb protocol "openai" then
            String.eqb (choice_Type c) "function" && negb (String.eqb (default "" (choice_Function c)) "") &&
            String.eqb (choice_Name c) "" && is_nil (choice_DisableParallel c)
          else
            is_nil (choice_Function c) &&
            ((String.eqb (choice_Type c) "auto" || String.eqb (choice_Type c) "any" || String.eqb (choice_Type c) "none") &&
               String.eqb (choice_Name c) "" ||
             String.eqb (choice_Type c) "tool" && negb (String.eqb (choice_Name c) ""))
      end
  end.

Definition native_block_types : list string :=
  ["text"; "image"; "document"; "search_result"; "tool_use"; "tool_result"; "thinking"; "redacted_thinking"; "compaction";
   "server_tool_use"; "web_search_tool_result"; "web_fetch_tool_result"; "code_execution_tool_result";
   "bash_code_execution_tool_result"; "text_editor_code_execution_tool_result"; "tool_search_tool_result"; "container_upload"].
Definition supportedContentBlockType (protocol kind : string) : bool :=
  if String.eqb protocol "openai" then String.eqb kind "text" else bool_decide (kind ∈ native_block_types).

(** The [struct{Type string; Content json.RawMessage}] of a block. *)
Definition dec_kind : decoder string :=
  dec_struct [field_of "type" dec_string id (fun s _ => s); checked "content" dec_raw None].
Fixpoint unsupportedContentBlockPath (protocol : string) (j : json) (path : string) : string :=
  match j with
  | JArr _ items =>
      match mapM (fun item => dec_kind item "") items with
      | None => path
      | Some _ =>
          default path (list_find (fun s : string => s <> "")
            (map_index (fun index item =>
               let blockPath := item_path path index in
               let kind := default "" (dec_kind item "") in
               if negb (supportedContentBlockType protocol kind) then blockPath +:+ ".type"
               else if String.eqb kind "tool_result" then
                 match item with
                 | JObj _ members =>
                     foldl (fun acc kv => if same_name "content" kv.1
                                          then unsupportedContentBlockPath protocol kv.2 (blockPath +:+ ".content") else acc)
                       (blockPath +:+ ".content") members
                 | _ => blockPath +:+ ".content"
                 end
               else "") items) ≫= fun x => Some x.2)
      end
  | _ => path
  end.

Definition check (refused : bool) (code param : string) : request_error + unit :=
  if refused then inl (ValidationError code param) else inr tt.

Definition thinking_rules (protocol : string) (t : Thinking) : request_error + unit :=
  let anthropic := String.eqb protocol "anthropic" in
  let kind := thinking_Type t in
  let! _ := check (negb (String.eqb (thinking_Display t) "") &&
                   (negb anthropic || String.eqb kind "disabled" ||
                    negb (String.eqb (thinking_Display t) "summarized") && negb (String.eqb (thinking_Display t) "omitted")))
              "thinking" "thinking.display" in
  if String.eqb kind "disabled" || String.eqb kind "adaptive" then
    check (negb (is_nil (thinking_BudgetTokens t)) || String.eqb kind "adaptive" && negb anthropic) "thinking" "thinking.budget_tokens"
  else if String.eqb kind "enabled" then
    let! _ := check (anthropic && (default 0 (thinking_BudgetTokens t) <? 1024)) "thinking" "thinking.budget_tokens" in
    check (match thinking_BudgetTokens t with Some n => (n <? 1) || (1000000 <? n) | None => false end) "thinking" "thinking.budget_tokens"
  else inl (ValidationError "thinking" "thinking.type").

Definition response_format_rules (f : ResponseFormat) : request_error + unit :=
  if String.eqb (response_Type f) "json_schema" then
    check (match response_JSONSchema f with
           | None => true
           | Some s => String.eqb (schema_Name s) "" || negb (object (schema_Schema s))
           end) "response_format" "response_format.json_schema"
  else check (negb (String.eqb (response_Type f) "json_object") && negb (String.eqb (response_Type f) "text") ||
              negb (is_nil (response_JSONSchema f))) "response_format" "response_format.type".

Definition output_config_rules (c : OutputConfig) : request_error + unit :=
  let! _ := check (negb (bool_decide (config_Effort c ∈ [""; "low"; "medium"; "high"; "max"]))) "output_config" "output_config.effort" in
  check (match config_Format c with
         | None => false
         | Some f => negb (String.eqb (format_Type f) "json_schema") || negb (object (format_Schema f))
         end) "output_config" "output_config.format".

Definition optional {A} (rules : A -> request_error + unit) (x : option A) : request_error + unit :=
  match x with None => inr tt | Some a => rules a end.

Definition allowed_role (protocol role : string) : bool :=
  bool_decide (role ∈ ["user"; "assistant"; "system"]) ||
  String.eqb protocol "openai" && bool_decide (role ∈ ["system"; "developer"; "tool"]).

Definition message_rules (protocol : string) (index : nat) (m : client_message) : request_error + unit :=
  let role := msg_Role m in
  let calls := negb (bool_decide (msg_ToolCalls m = [])) in
  let! _ := check (negb (allowed_role protocol role)) "messages" "messages.role" in
  let! _ := check (String.eqb protocol "anthropic" &&
                   (calls || negb (String.eqb (msg_ToolCallID m) "") || negb (is_nil (msg_Reasoning m)))) "messages" "messages" in
  let! _ := check (calls && (negb (String.eqb role "assistant") || negb (validCalls (msg_ToolCalls m))))
              "tool_calls" "messages.tool_calls" in
  let! _ := check (negb (Bool.eqb (String.eqb role "tool") (negb (String.eqb (msg_ToolCallID m) ""))))
              "tool_call_id" "messages.tool_call_id" in
  let! _ := check (negb (is_nil (msg_Reasoning m)) && negb (String.eqb role "assistant"))
              "reasoning_content" "messages.reasoning_content" in
  let emptyAssistant := String.eqb protocol "openai" && String.eqb role "assistant" && calls && raw_blank (msg_Content m) in
  if emptyAssistant || messageContent ToLower protocol (msg_Content m) then inr tt
  else
    let path := item_path "messages" index +:+ ".content" in
    let unsupported := match msg_Content m with Some j => unsupportedContentBlockPath protocol j path | None => path end in
    if String.eqb unsupported path then inl (ValidationError "messages" path)
    else inl (ValidationError "unsupported_request_feature" unsupported).

Fixpoint messages_rules (protocol : string) (index : nat) (l : list client_message) : request_error + unit :=
  match l with
  | [] => inr tt
  | m :: l => let! _ := message_rules protocol index m in messages_rules protocol (S index) l
  end.

Definition tokens_out_of_range (n : option Z) : bool :=
  match n with Some n => (n <? 1) || (1000000 <? n) | None => false end.
Definition float_outside (lo hi : Z) (x : option spec_float) : bool :=
  match x with Some x => Float.lt x (Float.of_Z lo) || Float.lt (Float.of_Z hi) x | None => false end.

(** The rules of one protocol only. *)
Definition anthropic_rules (i : Input) : request_error + unit :=
  let! _ := check (is_nil (in_MaxTokens i) || negb (is_nil (in_MaxCompletionTokens i)) || negb (is_nil (in_Stop i)))
              "invalid_request"
              (if negb (is_nil (in_MaxCompletionTokens i)) then "max_completion_tokens"
               else if negb (is_nil (in_Stop i)) then "stop" else "max_tokens") in
  let! _ := check (match in_Thinking i with
                   | Some t => String.eqb (thinking_Type t) "enabled" &&
                               match thinking_BudgetTokens t with
                               | Some n => default 0 (in_MaxTokens i) <=? n
                               | None => false
                               end
                   | None => false
                   end) "thinking" "thinking.budget_tokens" in
  let! _ := check (negb (is_nil (in_System i)) && negb (messageContent ToLower "anthropic" (in_System i))) "system" "system" in
  check (float_outside 0 1 (in_Temperature i)) "temperature" "temperature".
Definition valid_stop (raw : RawMessage) : bool :=
  negb (is_nil (raw_string raw)) ||
  match unmarshal_raw (dec_slice "" dec_string) [] raw with
  | Some l => (1 <=? length l)%nat && (length l <=? 4)%nat
  | None => false
  end.
Definition openai_rules (i : Input) : request_error + unit :=
  let! _ := check (negb (is_nil (in_MaxTokens i)) && negb (is_nil (in_MaxCompletionTokens i))) "invalid_request" "max_completion_tokens" in
  check (negb (is_nil (in_Stop i)) && negb (valid_stop (in_Stop i))) "stop" "stop".

(** The rules in the code's order. *)
Definition request_rules (protocol : string) (i : Input) : request_error + unit :=
  let! _ := check (String.eqb (Strings.TrimSpace (in_Model i)) "") "model" "model" in
  let! _ := optional (thinking_rules protocol) (in_Thinking i) in
  let! _ := check (negb (is_nil (in_StreamOptions i)) && negb (in_Stream i)) "stream_options" "stream_options" in
  let! _ := check (negb (is_nil (in_ContextManagement i)) && negb (object (in_ContextManagement i)))
              "context_management" "context_management" in
  let! _ := optional response_format_rules (in_ResponseFormat i) in
  let! _ := optional output_config_rules (in_OutputConfig i) in
  let! _ := check (bool_decide (in_Messages i = [])) "messages" "messages" in
  let! _ := check (negb (validTools protocol (in_Tools i))) "tools" "tools" in
  let! _ := check (negb (validChoice protocol (in_ToolChoice i))) "tools" "tool_choice" in
  let! _ := messages_rules protocol 0 (in_Messages i) in
  let! _ := check (tokens_out_of_range (in_MaxTokens i)) "max_tokens" "max_tokens" in
  let! _ := check (tokens_out_of_range (in_MaxCompletionTokens i)) "max_completion_tokens" "max_completion_tokens" in
  let! _ := check (float_outside 0 2 (in_Temperature i)) "temperature" "temperature" in
  let! _ := check (float_outside 0 1 (in_TopP i)) "top_p" "top_p" in
  if String.eqb protocol "anthropic" then anthropic_rules i
  else if String.eqb protocol "openai" then openai_rules i else inr tt.

(** What the validation adds and takes away: the model, the usage of an
    OpenAI stream, the client's hint on every tool. *)
Definition with_model (defaultModel : string) (i : Input) : Input :=
  if String.eqb (in_Model i) "" then i <| in_Model := defaultModel |> else i.
Definition normalized (protocol : string) (i : Input) : Input :=
  let i := if in_Stream i && String.eqb protocol "openai" && is_nil (in_StreamOptions i)
           then i <| in_StreamOptions := Some {| IncludeUsage := true |} |> else i in
  i <| in_Tools := (fun t => t <| tool_Eager := None |>) <$> in_Tools i |>.

(** [TypeErrorField] is the field that [json.UnmarshalTypeError] names. *)
Context (TypeErrorField : json -> string).

(** The request that [RequestWithWarnings] accepts, before it is encoded. *)
Definition checked_request (protocol data defaultModel : string) : list string * (request_error + Input) :=
  match discardForeignProtocolFields data protocol with
  | None => ([], inl (ValidationError "invalid_request" ""))
  | Some (filtered, foreignFields) =>
      match LenientJSON ToLower (dec_Input_mode ToLower false) no_input (Some filtered) with
      | None => ([], inl (ValidationError "invalid_request" (TypeErrorField filtered)))
      | Some i =>
          let warnings := sortedUniqueStrings (ignoredRequestFields data i protocol ++ foreignFields) in
          let i := with_model defaultModel i in
          (warnings, let! _ := request_rules protocol i in inr (normalized protocol i))
      end
  end.
Definition RequestWithWarnings (protocol data defaultModel : string) : list string * (request_error + (string * string)) :=
  let (warnings, r) := checked_request protocol data defaultModel in
  (warnings, let! i := r in inr (Marshal (Input_value i), in_Model i)).

(** [HasAnthropicServerTools]. *)
Definition HasAnthropicServerTools (data : string) : bool :=
  match Unmarshal (dec_struct [field_of "tools" (dec_slice no_tool (dec_Tool ToLower)) id (fun tools _ => tools)]) [] data with
  | Some tools => existsb (fun tool => negb (custom_tool tool)) tools
  | None => false
  end.
End rules.
