(* ===== verification/InputFacts.v ===== *)
(** * What the validation of a request accepts

    A declarative account of a well-formed request ([well_formed]), and the
    theorem that the rules of [InputRules.v] accept exactly those. *)

From S2P Require Import Prelude GoStrings GoFloat Json InputRules.

(** ** Rules in sequence *)

Lemma check_passes b code param : check b code param = inr tt <-> b = false.
Proof. unfold check. destruct b; split; congruence. Qed.

Lemma rules_pass {E A} (x : E + unit) (k : unit -> E + A) a : (let! y := x in k y) = inr a <-> x = inr tt /\ k tt = inr a.
Proof.
  destruct x as [e|[]]; cbn; split; [done|by intros []|by split|by intros []].
Qed.

Lemma optional_passes {A} (rules : A -> request_error + unit) x : optional rules x = inr tt <-> forall a, x = Some a -> rules a = inr tt.
Proof. destruct x as [a|]; cbn; split; [by intros H b [= <-]|by intros H; apply H|done|done]. Qed.

(** A refusal is an error that names its field. *)
Definition explained (x : request_error + unit) : Prop :=
  forall e, x = inl e -> exists code param, e = ValidationError code param /\ code <> "" /\ param <> "".

Lemma explained_check b code param : code <> "" -> param <> "" -> explained (check b code param).
Proof. intros Hc Hp e. unfold check. destruct b; [intros [= <-]; by exists code, param|done]. Qed.

Lemma explained_ok : explained (inr tt).
Proof. by intros e. Qed.

Lemma explained_error code param : code <> "" -> param <> "" -> explained (inl (ValidationError code param)).
Proof. intros Hc Hp e [= <-]. by exists code, param. Qed.

Lemma explained_seq (x : request_error + unit) k : explained x -> explained (k tt) -> explained (let! y := x in k y).
Proof. intros Hx Hk. destruct x as [e|[]]; cbn; [intros e' [= <-]; by apply Hx|done]. Qed.

Lemma explained_optional {A} (rules : A -> request_error + unit) x : (forall a, explained (rules a)) -> explained (optional rules x).
Proof. intros H. destruct x; [apply H|apply explained_ok]. Qed.

Lemma explained_if (b : bool) (x y : request_error + unit) : explained x -> explained y -> explained (if b then x else y).
Proof. by destruct b. Qed.

Create HintDb rules.
#[export] Hint Resolve explained_ok explained_check explained_error explained_seq explained_optional explained_if : rules.

(** ** Well-formed requests *)

Section spec.
Context (ToLower : string -> string) {Range : MapRange string json}.

Definition roles (protocol : string) : list string :=
  ["user"; "assistant"; "system"] ++ if String.eqb protocol "openai" then ["developer"; "tool"] else [].

(** Distinct calls of named functions. *)
Definition calls_ok (calls : list ToolCall) : Prop :=
  NoDup (call_ID <$> calls) /\
  Forall (fun c => call_ID c <> "" /\ call_Type c = "function" /\ Strings.TrimSpace (call_Name c) <> "") calls.

Record message_ok (protocol : string) (m : client_message) : Prop := {
  ok_role : msg_Role m ∈ roles protocol;
  ok_native : protocol = "anthropic" -> msg_ToolCalls m = [] /\ msg_ToolCallID m = "" /\ msg_Reasoning m = None;
  ok_calls : msg_ToolCalls m <> [] -> msg_Role m = "assistant" /\ calls_ok (msg_ToolCalls m);
  ok_result : msg_Role m = "tool" <-> msg_ToolCallID m <> "";
  ok_reasoning : msg_Reasoning m <> None -> msg_Role m = "assistant";
  ok_content : messageContent ToLower protocol (msg_Content m) = true \/
    protocol = "openai" /\ msg_Role m = "assistant" /\ msg_ToolCalls m <> [] /\ raw_blank (msg_Content m) = true;
}.

Definition within (lo hi : Z) (n : option Z) : Prop := forall x, n = Some x -> lo <= x <= hi.

(** A thinking configuration and its budget. *)
Definition thinking_ok (protocol : string) (t : Thinking) : Prop :=
  (thinking_Display t <> "" -> protocol = "anthropic" /\ thinking_Type t <> "disabled" /\ thinking_Display t ∈ ["summarized"; "omitted"]) /\
  (thinking_Type t = "disabled" /\ thinking_BudgetTokens t = None \/
   thinking_Type t = "adaptive" /\ thinking_BudgetTokens t = None /\ protocol = "anthropic" \/
   thinking_Type t = "enabled" /\ within 1 1000000 (thinking_BudgetTokens t) /\
     (protocol = "anthropic" -> exists n, thinking_BudgetTokens t = Some n /\ 1024 <= n)).

Definition response_format_ok (f : ResponseFormat) : Prop :=
  response_Type f = "json_schema" /\
    (exists s, response_JSONSchema f = Some s /\ schema_Name s <> "" /\ object (schema_Schema s) = true) \/
  response_Type f ∈ ["json_object"; "text"] /\ response_JSONSchema f = None.

Definition output_config_ok (c : OutputConfig) : Prop :=
  config_Effort c ∈ [""; "low"; "medium"; "high"; "max"] /\
  forall f, config_Format c = Some f -> format_Type f = "json_schema" /\ object (format_Schema f) = true.

(** What only one of the protocols asks for. *)
Definition anthropic_ok (i : Input) : Prop :=
  (exists max, in_MaxTokens i = Some max /\
     forall t n, in_Thinking i = Some t -> thinking_Type t = "enabled" -> thinking_BudgetTokens t = Some n -> n < max) /\
  in_MaxCompletionTokens i = None /\ in_Stop i = None /\
  (in_System i <> None -> messageContent ToLower "anthropic" (in_System i) = true) /\
  float_outside 0 1 (in_Temperature i) = false.
Definition openai_ok (i : Input) : Prop :=
  (in_MaxTokens i = None \/ in_MaxCompletionTokens i = None) /\ (in_Stop i <> None -> valid_stop (in_Stop i) = true).

Record well_formed (protocol : string) (i : Input) : Prop := {
  wf_model : Strings.TrimSpace (in_Model i) <> "";
  wf_thinking : forall t, in_Thinking i = Some t -> thinking_ok protocol t;
  wf_stream_options : in_StreamOptions i <> None -> in_Stream i = true;
  wf_context : in_ContextManagement i <> None -> object (in_ContextManagement i) = true;
  wf_response_format : forall f, in_ResponseFormat i = Some f -> response_format_ok f;
  wf_output_config : forall c, in_OutputConfig i = Some c -> output_config_ok c;
  wf_messages : in_Messages i <> [] /\ Forall (message_ok protocol) (in_Messages i);
  wf_tools : Forall (fun t => validTool protocol t = true) (in_Tools i);
  wf_choice : validChoice ToLower protocol (in_ToolChoice i) = true;
  wf_tokens : within 1 1000000 (in_MaxTokens i) /\ within 1 1000000 (in_MaxCompletionTokens i);
  wf_temperature : float_outside 0 2 (in_Temperature i) = false;
  wf_top_p : float_outside 0 1 (in_TopP i) = false;
  wf_anthropic : protocol = "anthropic" -> anthropic_ok i;
  wf_openai : protocol = "openai" -> openai_ok i;
}.

Lemma nil_true {A} (x : option A) : is_nil x = true <-> x = None.
Proof. by destruct x. Qed.
Lemma nil_false {A} (x : option A) : is_nil x = false <-> x <> None.
Proof. by destruct x. Qed.

Local Ltac bools := rewrite ?rules_pass, ?check_passes, ?orb_false_iff, ?andb_false_iff, ?negb_false_iff, ?negb_true_iff,
  ?andb_true_iff, ?orb_true_iff, ?orb_false_iff, ?andb_false_iff, ?negb_false_iff, ?negb_true_iff, ?String.eqb_eq, ?String.eqb_neq,
  ?bool_decide_eq_true, ?bool_decide_eq_false, ?nil_true, ?nil_false, ?Z.ltb_lt, ?Z.ltb_ge, ?Z.leb_gt.

Lemma thinking_rules_exact protocol t : thinking_rules protocol t = inr tt <-> thinking_ok protocol t.
Proof.
  unfold thinking_rules, thinking_ok, within. rewrite rules_pass, check_passes.
  assert (Hd : negb (String.eqb (thinking_Display t) "") &&
      (negb (String.eqb protocol "anthropic") || String.eqb (thinking_Type t) "disabled" ||
       negb (String.eqb (thinking_Display t) "summarized") && negb (String.eqb (thinking_Display t) "omitted")) = false <->
    (thinking_Display t <> "" -> protocol = "anthropic" /\ thinking_Type t <> "disabled" /\ thinking_Display t ∈ ["summarized"; "omitted"])).
  { rewrite elem_of_cons, list_elem_of_singleton. bools. destruct (decide (thinking_Display t = "")); naive_solver. }
  rewrite Hd. apply and_iff_compat_l. clear Hd.
  destruct (String.eqb_spec (thinking_Type t) "disabled") as [->|N1]; cbn [orb].
  { rewrite check_passes. bools. destruct (thinking_BudgetTokens t); naive_solver. }
  destruct (String.eqb_spec (thinking_Type t) "adaptive") as [->|N2]; cbn [orb].
  { rewrite check_passes. bools. destruct (thinking_BudgetTokens t), (decide (protocol = "anthropic")); naive_solver. }
  destruct (String.eqb_spec (thinking_Type t) "enabled") as [->|N3]; [|naive_solver]. rewrite rules_pass, !check_passes. bools.
  split.
  - intros [Ha Hb]. right. right. split_and!; [done| |].
    + intros x Hx. rewrite Hx in Hb. revert Hb. bools. lia.
    + intros ->. destruct (thinking_BudgetTokens t) as [n|]; [|cbn in Ha; naive_solver lia]. exists n. cbn in Ha. split; [done|naive_solver].
  - intros [[? _]|[[? _]|(_ & Hr & Ha)]]; [done|done|]. split.
    + destruct (decide (protocol = "anthropic")) as [Hp|Hp]; [|by left]. right. destruct (Ha Hp) as (n & -> & Hn). done.
    + destruct (thinking_BudgetTokens t) as [n|]; [|done]. bools. specialize (Hr n eq_refl). lia.
Qed.

Lemma response_format_exact f : response_format_rules f = inr tt <-> response_format_ok f.
Proof.
  unfold response_format_rules, response_format_ok. rewrite elem_of_cons, list_elem_of_singleton.
  destruct (String.eqb_spec (response_Type f) "json_schema") as [->|N]; rewrite check_passes.
  - destruct (response_JSONSchema f) as [s|]; bools; naive_solver.
  - bools. destruct (response_JSONSchema f); naive_solver.
Qed.

Lemma output_config_exact c : output_config_rules c = inr tt <-> output_config_ok c.
Proof.
  unfold output_config_rules, output_config_ok. rewrite rules_pass, !check_passes, negb_false_iff, bool_decide_eq_true.
  apply and_iff_compat_l. destruct (config_Format c) as [f|]; bools; naive_solver.
Qed.

Lemma tokens_exact n : tokens_out_of_range n = false <-> within 1 1000000 n.
Proof.
  unfold tokens_out_of_range, within. destruct n as [n|]; [|done]. bools. split; [intros H x [= <-]; lia|]. intros H. specialize (H n eq_refl). lia.
Qed.

Lemma validCalls_exact calls : validCalls calls = true <-> calls_ok calls.
Proof.
  unfold validCalls, calls_ok. assert (H : forall seen, (fix loop (seen : list string) (calls : list ToolCall) : bool :=
     match calls with
     | [] => true
     | c :: calls =>
         if String.eqb (call_ID c) "" || bool_decide (call_ID c ∈ seen) || negb (String.eqb (call_Type c) "function") ||
            String.eqb (Strings.TrimSpace (call_Name c)) ""
         then false else loop (call_ID c :: seen) calls
     end) seen calls = true <->
    (forall c, c ∈ calls -> call_ID c ∉ seen) /\ NoDup (call_ID <$> calls) /\
    Forall (fun c => call_ID c <> "" /\ call_Type c = "function" /\ Strings.TrimSpace (call_Name c) <> "") calls).
  { induction calls as [|c calls IH]; intros seen.
    - split; [intros _; split_and!; [by intros c ?%elem_of_nil|by apply NoDup_nil_2|by apply Forall_nil_2]|done].
    - destruct (_ || _) eqn:Hc.
      + split; [done|]. intros (H1 & _ & H3). apply Forall_cons in H3 as [(A & B & C) _].
        specialize (H1 c ltac:(by left)). revert Hc. rewrite !orb_true_iff, negb_true_iff, !String.eqb_eq, String.eqb_neq, bool_decide_eq_true. naive_solver.
      + revert Hc. rewrite !orb_false_iff, negb_false_iff, String.eqb_eq, !String.eqb_neq, bool_decide_eq_false. intros [[[A B] C] D].
        rewrite IH, fmap_cons, NoDup_cons, Forall_cons, list_elem_of_fmap. setoid_rewrite elem_of_cons. split.
        * intros (H1 & H2 & H3). split_and!; try done; [intros c' [->|Hc]; naive_solver|]. intros (c' & E & Hc). naive_solver.
        * intros (H1 & (H2 & H2') & (_ & H3)). split_and!; try done. intros c' Hc [E|Hs]; [apply H2; by exists c'|naive_solver]. }
  rewrite H. split; [by intros (_ & ? & ?)|]. intros [? ?]. split; [intros c _; apply not_elem_of_nil|done].
Qed.

Lemma roles_exact protocol role : allowed_role protocol role = true <-> role ∈ roles protocol.
Proof.
  unfold allowed_role, roles. rewrite elem_of_app, orb_true_iff, andb_true_iff, !bool_decide_eq_true.
  destruct (String.eqb protocol "openai"); rewrite ?elem_of_cons, ?elem_of_nil; naive_solver.
Qed.

Lemma gate (b c : bool) (x y : request_error) : (if b then inr tt else if c then inl x else inl y) = inr tt <-> b = true.
Proof. destruct b, c; done. Qed.

Lemma message_rules_exact protocol index m : protocol = "anthropic" \/ protocol = "openai" ->
  message_rules ToLower protocol index m = inr tt <-> message_ok protocol m.
Proof.
  intros Hp. unfold message_rules. cbv zeta. rewrite !rules_pass, !check_passes, negb_false_iff, roles_exact.
  set (calls := negb (bool_decide (msg_ToolCalls m = []))).
  assert (Hcalls : calls = true <-> msg_ToolCalls m <> []) by (unfold calls; by rewrite negb_true_iff, bool_decide_eq_false).
  assert (Hcalls' : calls = false <-> msg_ToolCalls m = []) by (unfold calls; by rewrite negb_false_iff, bool_decide_eq_true).
  rewrite gate, orb_true_iff, !andb_true_iff, Hcalls, !String.eqb_eq.
  rewrite !andb_false_iff, !orb_false_iff, Hcalls', !negb_false_iff, eqb_true_iff, nil_true, validCalls_exact.
  assert (Hr : String.eqb (msg_Role m) "tool" = negb (String.eqb (msg_ToolCallID m) "") <-> (msg_Role m = "tool" <-> msg_ToolCallID m <> "")).
  { destruct (String.eqb_spec (msg_Role m) "tool"), (String.eqb_spec (msg_ToolCallID m) ""); naive_solver. }
  rewrite Hr. split.
  - intros (A & B & C & D & E & F). split; [done| | |done| |].
    + intros ->. destruct B as [B|[[B1 B2] B3]]; [by apply String.eqb_neq in B|]. apply String.eqb_eq in B2. done.
    + intros Hc. destruct C as [?|[C1 C2]]; [done|]. apply String.eqb_eq in C1. done.
    + intros Hc. destruct E as [E|E]; [done|by apply String.eqb_eq in E].
    + destruct F as [[[[F1 F2] F3] F4]|F]; [right|left]; done.
  - intros [A B C D E F]. split; [done|]. split; [|split; [|split; [done|split]]].
    + destruct Hp as [->| ->]; [right|by left]. destruct (B eq_refl) as (B1 & B2 & B3). rewrite String.eqb_eq. done.
    + destruct (decide (msg_ToolCalls m = [])) as [Hn|Hn]; [by left|right]. destruct (C Hn) as [C1 C2]. rewrite String.eqb_eq. done.
    + destruct (msg_Reasoning m); [right|by left]. rewrite String.eqb_eq. by apply E.
    + destruct F as [F|(F1 & F2 & F3 & F4)]; [right|left]; done.
Qed.

Lemma messages_rules_exact protocol index l : protocol = "anthropic" \/ protocol = "openai" ->
  messages_rules ToLower protocol index l = inr tt <-> Forall (message_ok protocol) l.
Proof.
  intros Hp. revert index. induction l as [|m l IH]; intros index; [by split|]. cbn [messages_rules].
  by rewrite rules_pass, message_rules_exact, IH, Forall_cons.
Qed.

Lemma anthropic_rules_exact i : anthropic_rules ToLower i = inr tt <-> anthropic_ok i.
Proof.
  unfold anthropic_rules, anthropic_ok. rewrite !rules_pass, !check_passes, !orb_false_iff, !negb_false_iff, !nil_true, nil_false, andb_false_iff,
    !negb_false_iff, nil_true.
  assert (Hb : forall max, in_MaxTokens i = Some max ->
    match in_Thinking i with
    | Some t => String.eqb (thinking_Type t) "enabled" &&
                match thinking_BudgetTokens t with Some n => default 0 (in_MaxTokens i) <=? n | None => false end
    | None => false
    end = false <->
    forall t n, in_Thinking i = Some t -> thinking_Type t = "enabled" -> thinking_BudgetTokens t = Some n -> n < max).
  { intros max ->. cbn. destruct (in_Thinking i) as [t|]; [|naive_solver].
    destruct (thinking_BudgetTokens t) as [n|] eqn:Hn; rewrite andb_false_iff, String.eqb_neq, ?Z.leb_gt; [|naive_solver]. split.
    - intros H t' n' [= <-] Ht Hn'. naive_solver.
    - intros H. destruct (decide (thinking_Type t = "enabled")); [right; naive_solver|by left]. }
  split.
  - intros ([[H1 H2] H3] & H4 & H5 & H6). destruct (in_MaxTokens i) as [max|]; [|done]. split_and!; try done.
    + exists max. split; [done|]. by apply Hb.
    + intros Hs. by destruct H5.
  - intros ((max & Hm & H1) & H2 & H3 & H4 & H5). split_and!; try done; [by rewrite Hm|by apply (Hb max)|].
    destruct (in_System i); [right; by apply H4|by left].
Qed.

Lemma openai_rules_exact i : openai_rules i = inr tt <-> openai_ok i.
Proof.
  unfold openai_rules, openai_ok. rewrite !rules_pass, !check_passes, !andb_false_iff, !negb_false_iff, !nil_true.
  destruct (in_Stop i); naive_solver.
Qed.

Lemma unsupported_path_nonempty protocol j path : path <> "" -> unsupportedContentBlockPath protocol j path <> "".
Proof.
  intros Hp. destruct j as [| | | |text items|]; cbn [unsupportedContentBlockPath]; try done. destruct (mapM _ _); [|done].
  destruct (list_find _ _) as [[k s]|] eqn:Hf; [|done]. by apply list_find_Some in Hf as (_ & Hs & _).
Qed.

Lemma message_explained protocol index m : explained (message_rules ToLower protocol index m).
Proof.
  unfold message_rules. cbv zeta. repeat (apply explained_seq; [apply explained_check; by vm_compute|]).
  set (path := item_path "messages" index +:+ ".content"). assert (Hpath : path <> "") by done.
  apply explained_if; [apply explained_ok|]. destruct (msg_Content m) as [j|].
  - destruct (String.eqb_spec (unsupportedContentBlockPath protocol j path) path) as [_|Hne]; [by apply explained_error|].
    apply explained_error; [done|]. by apply unsupported_path_nonempty.
  - rewrite String.eqb_refl. by apply explained_error.
Qed.

Lemma messages_explained protocol index l : explained (messages_rules ToLower protocol index l).
Proof.
  revert index. induction l as [|m l IH]; intros index; [apply explained_ok|].
  apply explained_seq; [apply message_explained|apply IH].
Qed.

Local Ltac explain := repeat first
  [ apply explained_ok | apply explained_check; [by vm_compute|] | apply explained_error; [by vm_compute|] | apply messages_explained
  | apply explained_seq | apply explained_if | apply explained_optional; intros ? ]; try (by vm_compute).

Lemma rules_explained protocol i : explained (request_rules ToLower protocol i).
Proof.
  unfold request_rules, thinking_rules, response_format_rules, output_config_rules, anthropic_rules, openai_rules. cbv zeta. explain.
  by repeat case_match.
Qed.

Lemma rules_accept protocol i : protocol = "anthropic" \/ protocol = "openai" ->
  request_rules ToLower protocol i = inr tt <-> well_formed protocol i.
Proof.
  intros Hp. unfold request_rules. rewrite !rules_pass, !optional_passes, !check_passes, messages_rules_exact by done.
  rewrite !tokens_exact, !andb_false_iff, !negb_false_iff, String.eqb_neq, !nil_true, bool_decide_eq_false.
  assert (Hlast : (if String.eqb protocol "anthropic" then anthropic_rules ToLower i
                   else if String.eqb protocol "openai" then openai_rules i else inr tt) = inr tt <->
                  (protocol = "anthropic" -> anthropic_ok i) /\ (protocol = "openai" -> openai_ok i)).
  { destruct Hp as [->| ->]; cbn [String.eqb Ascii.eqb Bool.eqb]; rewrite ?anthropic_rules_exact, ?openai_rules_exact;
      (split; [intros H; by split|intros [H1 H2]; auto]). }
  rewrite Hlast. setoid_rewrite thinking_rules_exact. setoid_rewrite response_format_exact. setoid_rewrite output_config_exact.
  assert (Htools : validTools protocol (in_Tools i) = true <-> Forall (fun t => validTool protocol t = true) (in_Tools i)).
  { unfold validTools. rewrite forallb_forall, Forall_forall. by setoid_rewrite list_elem_of_In. }
  rewrite Htools. clear Hlast Htools. split.
  + intros (A & B & C & D & E & F & G & H & I & J & K & L & M & N & O & P). split; try done.
    * intros Hs. by destruct C.
    * intros Hs. by destruct D.
  + intros [A B C D E F [G J] H I [K L] M N O P]. split_and!; try done.
    * destruct (in_StreamOptions i); [right; by apply C|by left].
    * destruct (in_ContextManagement i); [right; by apply D|by left].
Qed.

(** C20. The rules on a decoded request accept exactly the well-formed requests
    of the client's protocol, and each of their refusals has a code and names a
    field.  (A body that does not decode, or repeats a name, is refused before,
    without a field; and for nested content the named field can be the wrong
    one: [wrong_block_named].) *)
Theorem rules_exact protocol i : protocol = "anthropic" \/ protocol = "openai" ->
  (request_rules ToLower protocol i = inr tt <-> well_formed protocol i) /\ explained (request_rules ToLower protocol i).
Proof.
  intros Hp. split; [by apply rules_accept|apply rules_explained].
Qed.
End spec.
