(* ===== verification/Streams.v ===== *)
(** * Event streams

    Reading a provider's event stream (internal/adapter/stream.go), translating
    it event by event (the stream translators of translate.go), rewriting the
    model of its events (response_model.go) and handing it to the client, as
    the streaming branch of [doAttempt] in client.go does.

    A translator's output is a list of typed events, and its bytes are their
    rendering. *)

From S2P Require Import Prelude GoStrings GoFloat Json.
From S2P Require Export Responses.

(** ** Lines and frames *)

Definition newline : byte := 10.
Definition nl : string := String (ascii_of_byte 10) "".
Definition cr : string := String (ascii_of_byte 13) "".

(** [strings.SplitAfter(s, "\n")] and [strings.Split(s, "\n")]. *)
Fixpoint split_after (s word : string) : list string :=
  match s with
  | EmptyString => [Strings.string_rev word ""]
  | String c s => if byte_of_ascii c =? newline then Strings.string_rev (String c word) "" :: split_after s ""
                  else split_after s (String c word)
  end.
Definition TrimSuffix (s suffix : string) : string :=
  if Strings.HasSuffix s suffix then String.substring 0 (String.length s - String.length suffix) s else s.
Definition TrimPrefix (s prefix : string) : string :=
  if Strings.HasPrefix s prefix then String.substring (String.length prefix) (String.length s) s else s.
Definition lines (s : string) : list string := (fun l => TrimSuffix l nl) <$> split_after s "".

(** [strings.Split(s, sep)] and [SplitAfter] for a nonempty separator. *)
Fixpoint split_on (keep : bool) (fuel : nat) (sep s word : string) : list string :=
  match fuel with
  | O => [Strings.string_rev word ""]
  | S fuel =>
      match s with
      | EmptyString => [Strings.string_rev word ""]
      | String c s' =>
          if Strings.HasPrefix s sep
          then (Strings.string_rev word "" +:+ (if keep then sep else "")) :: split_on keep fuel sep (TrimPrefix s sep) ""
          else split_on keep fuel sep s' (String c word)
      end
  end.
Definition Split (s sep : string) : list string := split_on false (S (String.length s)) sep s "".
Definition SplitAfter (s sep : string) : list string := split_on true (S (String.length s)) sep s "".

(** The last [event:] line of a frame and its [data:] lines, each treated by
    [trim] after its prefix. *)
Definition frame_fields (trim : string -> string) (frame : string) : string * list string :=
  foldl (fun acc l =>
           let l := TrimSuffix l cr in
           let event := if Strings.HasPrefix l "event:" then trim (TrimPrefix l "event:") else acc.1 in
           let data := if Strings.HasPrefix l "data:" then acc.2 ++ [trim (TrimPrefix l "data:")] else acc.2 in
           (event, data)) ("", []) (lines frame).

(** [parseSSEFrame]: event and data; it has no errors. *)
Definition parseSSEFrame (frame : string) : string * string :=
  let '(event, data) := frame_fields Strings.TrimSpace frame in (event, Strings.Join data nl).

(** ** Reading a stream *)

(** How the upstream body ends. *)
Inductive body_end := BodyEOF | BodyError.

(** The next line of [bufio.Scanner] with a buffer of [EventBytes + 1] bytes:
    with its line feed, or what is left at the end. *)
Inductive scanned := Line (line : string) (rest : list byte) | TooLong | NoLine.

Fixpoint take_line (n : nat) (l : list byte) : option (list byte * list byte) :=
  match n, l with
  | S n, b :: l => if b =? newline then Some ([b], l) else '(line, rest) ← take_line n l; Some (b :: line, rest)
  | _, _ => None
  end.
Definition scan_line (EventBytes : Z) (l : list byte) : scanned :=
  let size := Z.to_nat (EventBytes + 1) in
  match take_line size l with
  | Some (line, rest) => Line (string_of_bytes line) rest
  | None => if (size <=? length l)%nat then TooLong
            else if bool_decide (l = []) then NoLine else Line (string_of_bytes l) []
  end.

(** An error of a stream: of the gateway, an error event of the provider with
    its data, or what the consumer of the frames returned. *)
Inductive stream_error (E : Type) :=
| StreamFailure (code : string)
| ProviderEvent (data : string)
| EmitError (e : E).
Arguments StreamFailure {E}.
Arguments ProviderEvent {E}.
Arguments EmitError {E}.

Record reader := {
  read_frame : string;
  read_usage : gmap string json;
  read_total : Z;
  read_started : bool;
  read_finished : bool;
}.
#[export] Instance reader_eta : Eta reader := fun r =>
  {| read_frame := read_frame r; read_usage := read_usage r; read_total := read_total r;
     read_started := read_started r; read_finished := read_finished r |}.
Definition new_reader : reader :=
  {| read_frame := ""; read_usage := ∅; read_total := 0; read_started := false; read_finished := false |}.

(** [merge]: the members of a usage object over those read before. *)
Definition merge_usage (raw : RawMessage) (usage : gmap string json) : option (gmap string json) :=
  if raw_blank raw then Some usage
  else match unmarshal_raw dec_map None raw with Some (Some u) => Some (u ∪ usage) | _ => None end.

Record chunk_choice := { chunk_Index : Z; chunk_Delta : option json; chunk_Finish : option string }.
#[export] Instance chunk_choice_eta : Eta chunk_choice := fun c =>
  {| chunk_Index := chunk_Index c; chunk_Delta := chunk_Delta c; chunk_Finish := chunk_Finish c |}.
Definition dec_chunk_choice : decoder chunk_choice :=
  dec_struct [field_of "index" dec_int64 chunk_Index (fun s c => c <| chunk_Index := s |>);
              field_of "delta" dec_raw chunk_Delta (fun s c => c <| chunk_Delta := s |>);
              field_of "finish_reason" dec_pstring chunk_Finish (fun s c => c <| chunk_Finish := s |>)].
Definition no_chunk_choice : chunk_choice := {| chunk_Index := 0; chunk_Delta := None; chunk_Finish := None |}.

Section reader.
Context (ToLower : string -> string).

(** One chunk of a chat completion stream: the new reader, or a failure. *)
Definition read_chunk (obj : gmap string json) (r : reader) : string + reader :=
  match unmarshal_raw (dec_slice no_chunk_choice dec_chunk_choice) [] (obj !! "choices") with
  | None => inl "invalid_upstream_stream"
  | Some choices =>
      if negb (forallb (fun c => object (chunk_Delta c)) choices) then inl "invalid_upstream_stream"
      else
        let started := existsb (fun c => chunk_Index c =? 0) choices in
        let finished := existsb (fun c => (chunk_Index c =? 0) && negb (no_reason (chunk_Finish c))) choices in
        match merge_usage (obj !! "usage") (read_usage r) with
        | None => inl "invalid_upstream_usage"
        | Some usage => inr (r <| read_usage := usage |> <| read_started := read_started r || started |>
                               <| read_finished := read_finished r || finished |>)
        end
  end.

(** The message of [message_start], and the delta of [message_delta]. *)
Definition dec_start : decoder anthropic_envelope :=
  dec_struct [field_of "usage" dec_raw envelope_Usage (fun s r => r <| envelope_Usage := s |>);
              field_of "role" dec_string envelope_Role (fun s r => r <| envelope_Role := s |>);
              field_of "content" dec_raw envelope_Content (fun s r => r <| envelope_Content := s |>)].
Definition dec_stop_delta : decoder (option string) :=
  dec_struct [field_of "stop_reason" dec_pstring id (fun s _ => s)].

(** One event of the Messages API: the new reader and whether it is the last
    event. *)
Definition read_event (kind : string) (obj : gmap string json) (r : reader) : string + (reader * bool) :=
  let invalid := inl "invalid_upstream_stream" in
  if String.eqb kind "message_start" then
    if read_started r then invalid
    else
      match unmarshal_raw dec_start no_envelope (obj !! "message") with
      | None => invalid
      | Some msg =>
          match merge_usage (envelope_Usage msg) (read_usage r) with
          | None => invalid
          | Some usage =>
              if negb (String.eqb (envelope_Role msg) "assistant") then invalid
              else if negb (is_nil (envelope_Content msg)) && negb (messageContent ToLower "anthropic" (envelope_Content msg))
              then invalid
              else inr (r <| read_usage := usage |> <| read_started := true |>, false)
          end
      end
  else if String.eqb kind "content_block_start" then
    if read_started r && nativeContentBlock ToLower (obj !! "content_block") then inr (r, false) else invalid
  else if String.eqb kind "message_delta" then
    if negb (read_started r) then invalid
    else
      match unmarshal_raw dec_stop_delta None (obj !! "delta") with
      | None => invalid
      | Some stop =>
          match merge_usage (obj !! "usage") (read_usage r) with
          | None => inl "invalid_upstream_usage"
          | Some usage => inr (r <| read_usage := usage |> <| read_finished := read_finished r || negb (no_reason stop) |>, false)
          end
      end
  else if String.eqb kind "message_stop" then
    if read_started r && read_finished r then inr (r, true) else inl "incomplete_upstream_stream"
  else if String.eqb kind "ping" then inr (r, false)
  else if read_started r then inr (r, false) else invalid.

Context {E S : Type} (emit : S -> string -> S * option E).
Context (protocol : string) (StreamBytes EventBytes : Z).

(** [strings.TrimPrefix(strings.TrimPrefix(l, "data:"), " ")]. *)
Definition trim_one (s : string) : string := TrimPrefix s " ".

(** A frame with data: the new reader and whether it is the last frame. *)
Definition read_data (event data : string) (r : reader) : stream_error E + (reader * bool) :=
  let fail code := inl (StreamFailure code) in
  if String.eqb event "error" then inl (ProviderEvent data)
  else if String.eqb protocol "openai" && negb (String.eqb event "") && negb (String.eqb event "message")
  then fail "invalid_upstream_stream"
  else if String.eqb protocol "openai" && String.eqb data "[DONE]" then
    if read_started r && read_finished r then inr (r, true) else fail "incomplete_upstream_stream"
  else
    match StrictMap ToLower data with
    | None => fail "invalid_upstream_stream"
    | Some obj =>
        let kind := default "" (raw_string (obj !! "type")) in
        if String.eqb protocol "anthropic" && negb (String.eqb event "") && negb (String.eqb event kind)
        then fail "invalid_upstream_stream"
        else if negb (is_nil (obj !! "error")) || String.eqb kind "error" then inl (ProviderEvent data)
        else if String.eqb protocol "openai" then
          match read_chunk obj r with inl code => fail code | inr r => inr (r, false) end
        else match read_event kind obj r with inl code => fail code | inr rt => inr rt end
    end.

(** What one line of the scanner does: the loop goes on, or it returns. *)
Inductive line_result :=
| Next (r : reader) (s : S)
| Stop (s : S) (result : stream_error E + (TokenUsage * string)).

Definition emit_frame (r : reader) (s : S) (raw : string) : line_result :=
  match emit s raw with
  | (s, None) => Next r s
  | (s, Some e) => Stop s (inl (EmitError e))
  end.

Definition read_line (r : reader) (s : S) (wireLine : string) : line_result :=
  let line := TrimSuffix (TrimSuffix wireLine nl) cr in
  let r := r <| read_total := read_total r + Strings.len wireLine |> in
  if StreamBytes <? read_total r then Stop s (inl (StreamFailure "upstream_response_too_large"))
  else
    let r := r <| read_frame := read_frame r +:+ wireLine |> in
    if EventBytes <? Strings.len (read_frame r) then Stop s (inl (StreamFailure "upstream_event_too_large"))
    else if negb (String.eqb line "") then Next r s
    else
      let raw := read_frame r in
      let r := r <| read_frame := "" |> in
      match frame_fields trim_one raw with
      | (_, []) => emit_frame r s raw
      | (event, data) =>
          match read_data event (Strings.Join data nl) r with
          | inl e => Stop s (inl e)
          | inr (r, true) =>
              match ParseUsage protocol (parse (Marshal (map_value (read_usage r)))) with
              | inr u => Stop s (inr (u, raw))
              | inl _ => Stop s (inl (StreamFailure "invalid_upstream_usage"))
              end
          | inr (r, false) => emit_frame r s raw
          end
      end.

(** The loop over the lines; each one takes at least a byte, so that the
    length of the body is enough fuel. *)
Fixpoint read_lines (fuel : nat) (ending : body_end) (body : list byte) (r : reader) (s : S) :
    S * (stream_error E + (TokenUsage * string)) :=
  match fuel with
  | O => (s, inl (StreamFailure ""))
  | Datatypes.S fuel =>
      match scan_line EventBytes body with
      | TooLong => (s, inl (StreamFailure "upstream_event_too_large"))
      | NoLine => (s, inl (StreamFailure (match ending with
                                          | BodyEOF => "incomplete_upstream_stream"
                                          | BodyError => "upstream_stream_read_error"
                                          end)))
      | Line line rest =>
          match read_line r s line with
          | Next r s => read_lines fuel ending rest r s
          | Stop s result => (s, result)
          end
      end
  end.

(** [readStreamWithLimits]: the body is cut off one byte after the limit,
    which ends it as [io.EOF]. *)
Definition readStreamWithLimits (body : list byte) (ending : body_end) (s : S) : S * (stream_error E + (TokenUsage * string)) :=
  let size := Z.to_nat (StreamBytes + 1) in
  let ending := if (size <=? length body)%nat then BodyEOF else ending in
  let body := take size body in
  read_lines (Datatypes.S (length body)) ending body new_reader s.
End reader.
