(* ===== verification/RequestMessages.v ===== *)
(** * The translation of requests

    internal/adapter/translate.go, from [PrepareRequestWithWarnings] on: a
    validated request of one protocol becomes a request of the other.  The
    code puts some of the new raw messages together itself, with
    [strconv.Quote] for strings, so a raw message is a text here and the
    request only encodes when each of them is JSON; [quoted_text_roundtrip] at
    the end says for which texts [strconv.Quote] writes JSON. *)

From Stdlib Require Import SpecFloat.
From S2P Require Import Prelude GoStrings GoFloat Json.
From S2P Require Import Streams.
From S2P Require Export InputRules.

Definition defaultAnthropicMaxTokens : Z := 4096.

(** A [json.RawMessage] as text, [nil] when it is empty: what it encodes to. *)
Definition raw_source (raw : RawMessage) : string := match raw with Some j => source j | None => "" end.
Definition text_raw (s : string) : option value := if String.eqb s "" then Some VNull else VRaw <$> parse s.
Definition omit_text (name s : string) : option (list (string * value)) :=
  if String.eqb s "" then Some [] else (fun j => [(name, VRaw j)]) <$> parse s.

Definition sent_message : Type := Message string.
Definition new_message (role content : string) : sent_message :=
  {| msg_Role := role; msg_Content := content; msg_ToolCalls := []; msg_ToolCallID := ""; msg_Reasoning := None |}.
Definition sent_message_value (m : sent_message) : option value :=
  (fun content => Message_value content m) <$> text_raw (msg_Content m).

Section quote.
(** [strconv.IsPrint] outside ASCII. *)
Context (IsPrint : Z -> bool).

Definition hex_text (width : nat) (n : Z) : list byte :=
  reverse ((fun k => hex_digit (n / 16 ^ Z.of_nat k mod 16)) <$> seq 0 width).
Definition quote_rune (r : Z) (bytes : list byte) : list byte :=
  if (length bytes =? 1)%nat && (r =? Utf8.RuneError) then
    [92; 120] ++ hex_text 2 (default 0 (head bytes))
  else if (r =? 34) || (r =? 92) then [92; r]
  else if (if r <? 128 then (32 <=? r) && (r <=? 126) else IsPrint r) then bytes
  else if r =? 7 then [92; 97] else if r =? 8 then [92; 98] else if r =? 12 then [92; 102] else if r =? 10 then [92; 110]
  else if r =? 13 then [92; 114] else if r =? 9 then [92; 116] else if r =? 11 then [92; 118]
  else if (r <? 32) || (r =? 127) then [92; 120] ++ hex_text 2 r
  else if r <? 65536 then [92; 117] ++ hex_text 4 r
  else [92; 85] ++ hex_text 8 r.
(** [strconv.Quote]. *)
Definition Quote (s : string) : string :=
  string_of_bytes (34 :: concat ((fun rb => quote_rune rb.1 rb.2) <$> Utf8.runes (bytes_of_string s)) ++ [34]).

Context (ToLower : string -> string).
Context {Range : MapRange string json}.

(** ** From the Messages API to chat completions *)

Definition text_blocks (raw : RawMessage) : option (list contentBlock) :=
  LenientJSON ToLower (dec_slice no_block dec_contentBlock) [] raw.
(** The texts of blocks that all have one. *)
Fixpoint all_texts (blocks : list contentBlock) : option (list string) :=
  match blocks with
  | [] => Some []
  | b :: blocks =>
      if String.eqb (block_Type b) "text" then t ← block_Text b; (fun l => t :: l) <$> all_texts blocks else None
  end.
(** A string, or the texts of blocks. *)
Definition text_of (join : list string -> string) (raw : RawMessage) : option string :=
  if raw_blank raw then Some ""
  else match raw_string raw with
  | Some text => Some text
  | None => match text_blocks raw with Some (b :: blocks) => join <$> all_texts (b :: blocks) | _ => None end
  end.
Definition anthropicSystemText (raw : RawMessage) : option string := text_of (fun l => Strings.Join l nl) raw.
Definition anthropicToolResultText (raw : RawMessage) : option string := text_of (String.concat "") raw.

Definition content_path (message : nat) : string := item_path "messages" message +:+ ".content".
Definition block_path (message block : nat) : string := item_path (content_path message) block.

(** The loop over the blocks of an assistant: its text and its calls. *)
Fixpoint assistant_blocks (message index : nat) (blocks : list contentBlock) (text : string) (calls : list ToolCall) :
    request_error + (string * list ToolCall) :=
  match blocks with
  | [] => inr (text, calls)
  | b :: blocks =>
      if String.eqb (block_Type b) "text" then
        match block_Text b with
        | None => inl (ValidationError "invalid_request" (block_path message index +:+ ".text"))
        | Some t => assistant_blocks message (S index) blocks (text +:+ t) calls
        end
      else if String.eqb (block_Type b) "tool_use" then
        if String.eqb (block_ID b) "" || String.eqb (block_Name b) "" || negb (object (block_Input b))
        then inl (ValidationError "invalid_request" (block_path message index))
        else assistant_blocks message (S index) blocks text
               (calls ++ [{| call_ID := block_ID b; call_Type := "function"; call_Name := block_Name b;
                             call_Arguments := raw_source (block_Input b) |}])
      else inl (ValidationError "unsupported_request_feature" (block_path message index +:+ ".type"))
  end.
Definition translateAnthropicAssistantBlocks (blocks : list contentBlock) (message : nat) : request_error + sent_message :=
  let! tc := assistant_blocks message 0 blocks "" [] in
  inr ((new_message "assistant" (if String.eqb tc.1 "" then "" else Quote tc.1)) <| msg_ToolCalls := tc.2 |>).

(** The loop over the blocks of a user: the text that has not been flushed
    and the messages so far. *)
Definition flush_text (text : option string) (out : list sent_message) : list sent_message :=
  match text with None => out | Some t => out ++ [new_message "user" (Quote t)] end.
Fixpoint user_blocks (message index : nat) (blocks : list contentBlock) (text : option string) (out : list sent_message) :
    request_error + list sent_message :=
  match blocks with
  | [] => inr (flush_text text out)
  | b :: blocks =>
      if String.eqb (block_Type b) "text" then
        match block_Text b with
        | None => inl (ValidationError "invalid_request" (block_path message index +:+ ".text"))
        | Some t => user_blocks message (S index) blocks (Some (default "" text +:+ t)) out
        end
      else if String.eqb (block_Type b) "tool_result" then
        let out := flush_text text out in
        if String.eqb (block_ToolUseID b) "" then inl (ValidationError "invalid_request" (block_path message index +:+ ".tool_use_id"))
        else match anthropicToolResultText (block_Content b) with
             | None => inl (ValidationError "unsupported_request_feature" (block_path message index +:+ ".content"))
             | Some content =>
                 let content := if default false (block_IsError b) then "Tool error: " +:+ content else content in
                 user_blocks message (S index) blocks None
                   (out ++ [(new_message "tool" (Quote content)) <| msg_ToolCallID := block_ToolUseID b |>])
             end
      else inl (ValidationError "unsupported_request_feature" (block_path message index +:+ ".type"))
  end.
Definition translateAnthropicUserBlocks (blocks : list contentBlock) (message : nat) : request_error + list sent_message :=
  let! out := user_blocks message 0 blocks None [] in
  if bool_decide (out = []) then inl (ValidationError "invalid_request" (block_path message (pred (length blocks)))) else inr out.

(** One message of the Messages API. *)
Definition translate_anthropic_message (index : nat) (m : client_message) : request_error + list sent_message :=
  let invalid := inl (ValidationError "invalid_request" (content_path index)) in
  if raw_blank (msg_Content m) then invalid
  else match raw_string (msg_Content m) with
  | Some _ => inr [new_message (msg_Role m) (raw_source (msg_Content m))]
  | None =>
      match text_blocks (msg_Content m) with
      | None | Some [] => invalid
      | Some blocks =>
          if String.eqb (msg_Role m) "assistant" then
            let! t := translateAnthropicAssistantBlocks blocks index in inr [t]
          else if String.eqb (msg_Role m) "user" then translateAnthropicUserBlocks blocks index
          else if String.eqb (msg_Role m) "system" then inr [new_message "system" (raw_source (msg_Content m))]
          else inl (ValidationError "invalid_request" (item_path "messages" index +:+ ".role"))
      end
  end.
Fixpoint translate_anthropic_loop (index : nat) (messages : list client_message) : request_error + list sent_message :=
  match messages with
  | [] => inr []
  | m :: messages =>
      let! out := translate_anthropic_message index m in
      let! rest := translate_anthropic_loop (S index) messages in
      inr (out ++ rest)
  end.
Definition translateAnthropicMessages (system : RawMessage) (messages : list client_message) :
    request_error + (string * list sent_message) :=
  match anthropicSystemText system with
  | None => inl (ValidationError "invalid_request" "system")
  | Some text => let! out := translate_anthropic_loop 0 messages in inr (text, out)
  end.

(** What the translation drops, by its path. *)
Fixpoint appendBlockConversionLosses (j : json) (prefix : string) : list string :=
  match text_blocks (Some j) with
  | None => []
  | Some blocks =>
      match j with
      | JArr _ items =>
          concat (map_index (fun index item =>
            let path := item_path prefix index in
            match blocks !! index with
            | None => []
            | Some b =>
                (if is_nil (block_CacheControl b) then [] else [path +:+ ".cache_control"]) ++
                (if String.eqb (block_Type b) "tool_result" && default false (block_IsError b) then [path +:+ ".is_error"] else []) ++
                (if String.eqb (block_Type b) "tool_result" then
                   match item with
                   | JObj _ members =>
                       foldl (fun acc kv => if same_name "content" kv.1
                                            then appendBlockConversionLosses kv.2 (path +:+ ".content") else acc) [] members
                   | _ => []
                   end
                 else [])
            end) items)
      | _ => []
      end
  end.
Definition anthropicConversionLosses (i : Input) : list string :=
  let block_losses prefix raw := match raw with Some j => appendBlockConversionLosses j prefix | None => [] end in
  sortedUniqueStrings (
    (match in_OutputConfig i with
     | Some c => if String.eqb (config_Effort c) "" then [] else ["output_config.effort"]
     | None => []
     end) ++
    concat (map_index (fun index tool =>
      if is_nil (tool_CacheControl tool) then [] else [item_path "tools" index +:+ ".cache_control"]) (in_Tools i)) ++
    block_losses "system" (in_System i) ++
    concat (map_index (fun index m => block_losses (content_path index) (msg_Content m)) (in_Messages i))).

Definition dec_anthropic_choice : decoder tool_choice :=
  dec_struct [field_of "type" dec_string choice_Type (fun s c => c <| choice_Type := s |>);
              field_of "name" dec_string choice_Name (fun s c => c <| choice_Name := s |>);
              field_of "disable_parallel_tool_use" dec_pbool choice_DisableParallel (fun s c => c <| choice_DisableParallel := s |>)].
Definition translateAnthropicToolChoice (raw : RawMessage) : option (value * option bool) :=
  c ← LenientJSON ToLower dec_anthropic_choice no_tool_choice raw;
  result ← (if String.eqb (choice_Type c) "auto" || String.eqb (choice_Type c) "none" then Some (VStr (choice_Type c))
            else if String.eqb (choice_Type c) "any" then Some (VStr "required")
            else if String.eqb (choice_Type c) "tool" && negb (String.eqb (choice_Name c) "")
            then Some (VMap [("type", VStr "function"); ("function", VMap [("name", VStr (choice_Name c))])])
            else None);
  Some (result, if default false (choice_DisableParallel c) then Some false else None).

Definition function_tool (t : Tool) : Tool :=
  no_tool <| tool_Type := "function" |>
          <| tool_Function := Some {| function_Name := tool_Name t; function_Description := tool_Description t;
                                      function_Parameters := Some (default (JObj "{}" []) (tool_InputSchema t));
                                      function_Strict := None |} |>.

(** The request for the provider, encoded; [EncodeError] when a raw message is
    not JSON. *)
Definition encode_openai_request (i : Input) (messages : list sent_message) (toolChoice : option value) (parallel : option bool) :
    option value :=
  messages ← mapM sent_message_value messages;
  Some (VStruct (
    [("model", VStr (in_Model i)); ("messages", VArr messages)] ++
    omit_raw "context_management" (in_ContextManagement i) ++
    omit_pointer "thinking" Thinking_value (in_Thinking i) ++
    omit_pointer "max_tokens" VInt (in_MaxTokens i) ++
    omit_bool "stream" (in_Stream i) ++
    omit_pointer "temperature" VFloat (in_Temperature i) ++
    omit_pointer "top_p" VFloat (in_TopP i) ++
    omit_list "stop" VStr (in_StopSequences i) ++
    omit_list "tools" (fun t => Tool_value (function_tool t)) (in_Tools i) ++
    omit_pointer "tool_choice" id toolChoice ++
    omit_pointer "parallel_tool_calls" VBool parallel ++
    omit_pointer "response_format" (fun f =>
      VMap [("type", VStr "json_schema"); ("json_schema", VMap [("name", VStr "response"); ("schema", raw_value (format_Schema f))])])
      (c ← in_OutputConfig i; config_Format c) ++
    omit_string "user" (match in_Metadata i with Some m => UserID m | None => "" end))).

(** The body of [translateAnthropicRequestWithWarnings] after the validation;
    the warnings go with the request and with an error. *)
Definition translate_anthropic_input (i : Input) (warnings : list string) : list string * (request_error + value) :=
  if negb (forallb custom_tool (in_Tools i)) then (warnings, inl (ValidationError "unsupported_request_feature" "tools"))
  else
    let warnings := sortedUniqueStrings (warnings ++ anthropicConversionLosses i) in
    (warnings,
      let! translated := translateAnthropicMessages (in_System i) (in_Messages i) in
      let (system, messages) := translated in
      let messages := if String.eqb system "" then messages else new_message "system" (Quote system) :: messages in
      let! _ := check (4 <? length (in_StopSequences i))%nat "stop_sequences" "stop_sequences" in
      let! choice := (if is_nil (in_ToolChoice i) then inr (None, None)
                      else match translateAnthropicToolChoice (in_ToolChoice i) with
                           | None => inl (ValidationError "tools" "tool_choice")
                           | Some (choice, parallel) => inr (Some choice, parallel)
                           end) in
      match encode_openai_request i messages choice.1 choice.2 with
      | None => inl EncodeError
      | Some v => inr v
      end).

(** ** From chat completions to the Messages API *)

Definition text_block (text : string) : value := VMap [("type", VStr "text"); ("text", VStr text)].
Definition tool_use_block (call : ToolCall) : option value :=
  input ← (j ← parse (call_Arguments call); any_object j);
  Some (VMap [("type", VStr "tool_use"); ("id", VStr (call_ID call)); ("name", VStr (call_Name call)); ("input", input)]).

(** [translateMessageContent]: the raw message, or the code of the error. *)
Definition translateMessageContent (m : client_message) : string + string :=
  if String.eqb (msg_Role m) "tool" then
    if String.eqb (msg_ToolCallID m) "" then inl "tool_call_id"
    else inr (Marshal (VArr [VMap [("type", VStr "tool_result"); ("tool_use_id", VStr (msg_ToolCallID m));
                                   ("content", raw_value (msg_Content m))]]))
  else if bool_decide (msg_ToolCalls m = []) then inr (raw_source (msg_Content m))
  else
    let! blocks :=
      (if raw_blank (msg_Content m) then inr []
       else match raw_string (msg_Content m) with
            | Some text => inr [text_block text]
            | None =>
                match LenientJSON ToLower (fun j _ => match j with JArr _ items => mapM any items | _ => None end) [] (msg_Content m) with
                | None => inl "messages"
                | Some existing => inr existing
                end
            end) in
    match mapM tool_use_block (msg_ToolCalls m) with
    | None => inl "tool_calls"
    | Some calls => inr (Marshal (VArr (blocks ++ calls)))
    end.

Definition is_system (m : client_message) : bool := String.eqb (msg_Role m) "system" || String.eqb (msg_Role m) "developer".

(** The loop over the messages: the texts and the parts of the system prompt,
    whether it has blocks, and the other messages. *)
Record translated_messages := {
  tr_systemText : list string;
  tr_systemParts : list value;
  tr_hasSystemBlocks : bool;
  tr_out : list (string * string);       (** role and raw content *)
}.
#[export] Instance translated_messages_eta : Eta translated_messages := fun t =>
  {| tr_systemText := tr_systemText t; tr_systemParts := tr_systemParts t; tr_hasSystemBlocks := tr_hasSystemBlocks t;
     tr_out := tr_out t |}.
Definition no_messages : translated_messages :=
  {| tr_systemText := []; tr_systemParts := []; tr_hasSystemBlocks := false; tr_out := [] |}.

Definition system_message (t : translated_messages) (m : client_message) : string + translated_messages :=
  match raw_string (msg_Content m) with
  | Some text => inr (t <| tr_systemText := tr_systemText t ++ [text] |> <| tr_systemParts := tr_systemParts t ++ [text_block text] |>)
  | None =>
      match LenientJSON ToLower (fun j _ => raw_items (Some j)) [] (msg_Content m) with
      | None | Some [] => inl "system"
      | Some blocks =>
          match mapM any blocks with
          | None => inl "system"
          | Some parts => inr (t <| tr_hasSystemBlocks := true |> <| tr_systemParts := tr_systemParts t ++ parts |>)
          end
      end
  end.
Definition translate_message (t : translated_messages) (m : client_message) : string + translated_messages :=
  if is_system m then system_message t m
  else
    let! content := translateMessageContent m in
    inr (t <| tr_out := tr_out t ++ [(if String.eqb (msg_Role m) "tool" then "user" else msg_Role m, content)] |>).
Fixpoint translate_loop (t : translated_messages) (messages : list client_message) : string + translated_messages :=
  match messages with
  | [] => inr t
  | m :: messages => let! t := translate_message t m in translate_loop t messages
  end.

(** [translateMessages]: the raw system prompt and the messages. *)
Definition translateMessages (messages : list client_message) : string + (string * list (string * string)) :=
  let! t := translate_loop no_messages messages in
  if bool_decide (tr_out t = []) then inl "messages"
  else inr (if tr_hasSystemBlocks t then Marshal (VArr (tr_systemParts t))
            else if bool_decide (tr_systemText t = []) then "" else Quote (Strings.Join (tr_systemText t) nl),
            tr_out t).

Definition stopSequences (raw : RawMessage) : option (list string) :=
  if raw_blank raw then Some []
  else match raw_string raw with
  | Some single => Some [single]
  | None => unmarshal_raw (dec_slice "" dec_string) [] raw
  end.

Definition dec_openai_choice : decoder tool_choice :=
  dec_struct [field_of "type" dec_string choice_Type (fun s c => c <| choice_Type := s |>);
              ("function", dec_struct [field_of "name" dec_string choice_Name (fun s c => c <| choice_Name := s |>)])].
(** The members of the translated choice. *)
Definition translateToolChoice (raw : RawMessage) : option (list (string * value)) :=
  match raw_string raw with
  | Some name =>
      if String.eqb name "auto" || String.eqb name "none" then Some [("type", VStr name)]
      else if String.eqb name "required" then Some [("type", VStr "any")] else None
  | None =>
      c ← LenientJSON ToLower dec_openai_choice no_tool_choice raw;
      if String.eqb (choice_Type c) "function" && negb (String.eqb (choice_Name c) "")
      then Some [("type", VStr "tool"); ("name", VStr (choice_Name c))] else None
  end.
Definition translateOpenAIToolChoice (raw : RawMessage) (parallel : option bool) : option value :=
  choice ← (if is_nil raw then Some [("type", VStr "auto")] else translateToolChoice raw);
  Some (VMap (choice ++ match parallel with None => [] | Some p => [("disable_parallel_tool_use", VBool (negb p))] end)).

Definition openAIRequestConversionLosses (i : Input) : list string :=
  let fix roles (started : bool) (index : nat) (l : list client_message) :=
    match l with
    | [] => []
    | m :: l =>
        if is_system m then (if started then [item_path "messages" index +:+ ".role"] else []) ++ roles started (S index) l
        else roles true (S index) l
    end in
  sortedUniqueStrings (roles false 0%nat (in_Messages i) ++
    concat (map_index (fun index tool => match tool_Function tool with
                                    | Some f => if is_nil (function_Strict f) then [] else [item_path "tools" index +:+ ".function.strict"]
                                    | None => []
                                    end) (in_Tools i))).

Definition anthropic_max_tokens (i : Input) (maxOutputTokens : Z) : Z :=
  match in_MaxCompletionTokens i, in_MaxTokens i with
  | Some n, _ => n
  | None, Some n => n
  | None, None => if 0 <? maxOutputTokens then maxOutputTokens else defaultAnthropicMaxTokens
  end.
Definition budget_fits (i : Input) (maxTokens : Z) : bool :=
  match in_Thinking i with
  | Some t => if String.eqb (thinking_Type t) "enabled"
              then match thinking_BudgetTokens t with Some n => (1024 <=? n) && (n <? maxTokens) | None => false end
              else true
  | None => true
  end.

(** The schema of any object. *)
Definition object_schema : RawMessage :=
  parse ("{" +:+ dq +:+ "type" +:+ dq +:+ ":" +:+ dq +:+ "object" +:+ dq +:+ "}").
(** The output format for a response format, with the warnings. *)
Definition anthropic_format (f : ResponseFormat) : request_error + (option value * list string) :=
  let format schema := Some (VStruct [("format", VStruct ([("type", VStr "json_schema")] ++ omit_raw "schema" schema))]) in
  if String.eqb (response_Type f) "text" then inr (None, [])
  else if String.eqb (response_Type f) "json_object" then inr (format object_schema, [])
  else if String.eqb (response_Type f) "json_schema" then
    match response_JSONSchema f with
    | None => inl (ValidationError "response_format" "response_format.json_schema")
    | Some s => inr (format (schema_Schema s),
        (if String.eqb (schema_Name s) "" then [] else ["response_format.json_schema.name"]) ++
        (if String.eqb (schema_Description s) "" then [] else ["response_format.json_schema.description"]) ++
        (if is_nil (schema_Strict s) then [] else ["response_format.json_schema.strict"]))
    end
  else inl (ValidationError "response_format" "response_format.type").

Definition anthropicTool_value (f : Function) : value :=
  VStruct ([("name", VStr (function_Name f))] ++ omit_string "description" (function_Description f) ++
           [("input_schema", VRaw (default (JObj "{}" []) (function_Parameters f)))]).
Definition encode_anthropic_request (i : Input) (maxTokens : Z) (system : string) (messages : list (string * string))
    (stop : list string) (tools : list Function) (toolChoice format : option value) : option value :=
  messages ← mapM (fun m => (fun content => VStruct [("role", VStr m.1); ("content", content)]) <$> text_raw m.2) messages;
  system ← omit_text "system" system;
  Some (VStruct (
    [("model", VStr (in_Model i)); ("messages", VArr messages)] ++
    omit_pointer "thinking" Thinking_value (in_Thinking i) ++
    [("max_tokens", VInt maxTokens)] ++
    omit_bool "stream" (in_Stream i) ++
    system ++
    omit_pointer "temperature" VFloat (in_Temperature i) ++
    omit_pointer "top_p" VFloat (in_TopP i) ++
    omit_list "stop_sequences" VStr stop ++
    omit_list "tools" anthropicTool_value tools ++
    omit_pointer "tool_choice" id toolChoice ++
    omit_pointer "metadata" (fun user => Metadata_value {| UserID := user |}) (if String.eqb (in_User i) "" then None else Some (in_User i)) ++
    omit_pointer "output_config" id format)).

Definition code_error {A} (x : string + A) : request_error + A := match x with inl code => inl (RequestError code) | inr a => inr a end.
Definition or_error {A} (code : string) (x : option A) : request_error + A :=
  match x with None => inl (RequestError code) | Some a => inr a end.

(** The body of [translateOpenAIRequestWithWarnings] after the validation. *)
Definition translate_openai_input (i : Input) (warnings : list string) (maxOutputTokens : Z) : list string * (request_error + value) :=
  let warnings := warnings ++ openAIRequestConversionLosses i ++
                  (if String.eqb (in_ReasoningEffort i) "" then [] else ["reasoning_effort"]) in
  let maxTokens := anthropic_max_tokens i maxOutputTokens in
  let format := match in_ResponseFormat i with None => inr (None, []) | Some f => anthropic_format f end in
  let result :=
    let! _ := check (negb (budget_fits i maxTokens)) "thinking" "thinking.budget_tokens" in
    let! translated := code_error (translateMessages (in_Messages i)) in
    let! stop := or_error "stop" (stopSequences (in_Stop i)) in
    let! tools := or_error "tools" (mapM tool_Function (in_Tools i)) in
    let! choice := (if negb (bool_decide (in_Tools i = [])) && (negb (is_nil (in_ToolChoice i)) || negb (is_nil (in_ParallelToolCalls i)))
                    then let! c := or_error "tools" (translateOpenAIToolChoice (in_ToolChoice i) (in_ParallelToolCalls i)) in inr (Some c)
                    else inr None) in
    let! f := format in
    inr (translated, stop, tools, choice, f) in
  match result with
  | inl e => (warnings, inl e)
  | inr (translated, stop, tools, choice, f) =>
      (sortedUniqueStrings (warnings ++ f.2),
       match encode_anthropic_request i maxTokens translated.1 translated.2 stop tools choice f.1 with
       | None => inl EncodeError
       | Some v => inr v
       end)
  end.

(** ** [PrepareRequestWithWarnings] *)

Context (TypeErrorField : json -> string).

(** [StrictJSON(validated, &in)]: the nested structures have the fields of
    their types by construction. *)
Definition validated_input (validated : string) : option Input :=
  LenientJSON ToLower (dec_Input_mode ToLower true) no_input (parse validated).
Definition translate_request (protocol : string) (translate : Input -> list string -> list string * (request_error + value))
    (data defaultModel : string) : list string * (request_error + (string * string)) :=
  let (warnings, r) := RequestWithWarnings ToLower TypeErrorField protocol data defaultModel in
  match r with
  | inl e => (warnings, inl e)
  | inr (validated, model) =>
      match validated_input validated with
      | None => (warnings, inl (RequestError "invalid_request"))
      | Some i => let (warnings, r) := translate i warnings in (warnings, let! v := r in inr (Marshal v, model))
      end
  end.

Definition modelFromBody (data : string) : string :=
  default "" (Unmarshal (dec_struct [field_of "model" dec_string id (fun s _ => s)]) "" data).

Definition PrepareRequestWithWarnings (clientProtocol providerProtocol data defaultModel : string) (maxOutputTokens : Z) :
    list string * (request_error + (string * string)) :=
  if String.eqb clientProtocol providerProtocol then ([], inr (data, firstNonEmpty (modelFromBody data) defaultModel))
  else if String.eqb clientProtocol "openai" && String.eqb providerProtocol "anthropic" then
    translate_request "openai" (fun i warnings => translate_openai_input i warnings maxOutputTokens) data defaultModel
  else if String.eqb clientProtocol "anthropic" && String.eqb providerProtocol "openai" then
    translate_request "anthropic" translate_anthropic_input data defaultModel
  else ([], inl (RequestError "unsupported_protocol_translation")).
End quote.

(** * Quoted text and JSON *)

From S2P Require Import Prelude GoStrings GoFloat Json Utf8Facts.

(** ** The scanner of strings *)

Section quote.
Context (IsPrint : Z -> bool).

(** The runes that [strconv.Quote] writes as JSON would: not the escapes
    [\a], [\v], [\x] and [\U]. *)
Definition json_rune (r : Z) : bool :=
  if r <? 128 then Utf8.between 32 126 r || bool_decide (r ∈ [8; 9; 10; 12; 13]) else IsPrint r || (r <? 65536).

Lemma string_body_high fuel b l acc : 128 <= b ->
  string_body (S fuel) (b :: l) acc =
  let (r, n) := Utf8.DecodeRune (b :: l) in string_body fuel (drop n (b :: l)) (rev_append (Utf8.EncodeRune r) acc).
Proof.
  intros Hb. cbn [string_body]. rewrite (proj2 (Z.ltb_ge b 32)), (proj2 (Z.eqb_neq b 92)), (proj2 (Z.ltb_ge b 128)) by lia.
  destruct b as [|p|p]; [lia| |lia].
  do 7 (destruct p as [p|p|]; try lia; try reflexivity).
Qed.

Lemma quote_ascii r fuel rest acc : 0 <= r < 128 ->
  string_body (S fuel) (quote_rune IsPrint r [r] ++ rest) acc = if json_rune r then string_body fuel rest (r :: acc) else None.
Proof.
  intros Hr. assert (Hin : r ∈ seqZ 0 128) by (apply elem_of_seqZ; lia). clear Hr. revert r Hin. apply Forall_forall.
  change (seqZ 0 128) with (Z.of_nat <$> seq 0 128). apply Forall_fmap. repeat (apply Forall_cons; split; [reflexivity|]). apply Forall_nil_2.
Qed.

Lemma hex_digit_value d : 0 <= d < 16 -> hex_value (hex_digit d) = Some d.
Proof.
  intros Hd. assert (Hin : d ∈ seqZ 0 16) by (apply elem_of_seqZ; lia). clear Hd. revert d Hin. apply Forall_forall.
  by repeat (apply Forall_cons; split; [reflexivity|]); apply Forall_nil_2.
Qed.

Lemma hex4_text r l : 0 <= r < 65536 -> hex4 (hex_text 4 r ++ l) = Some (r, l).
Proof.
  intros Hr. unfold hex_text. cbn [seq fmap list_fmap]. change (reverse ?l) with (rev_append l []) at 1. cbn [rev_append app hex4].
  rewrite !hex_digit_value by (apply Z.mod_pos_bound; lia). cbn [mbind option_bind]. do 2 f_equal.
  change (16 ^ Z.of_nat 3) with 4096. change (16 ^ Z.of_nat 2) with 256. change (16 ^ Z.of_nat 1) with 16. change (16 ^ Z.of_nat 0) with 1.
  rewrite Z.div_1_r. assert (E2 : r / 256 = r / 16 / 16) by (by rewrite Z.div_div). assert (E3 : r / 4096 = r / 16 / 16 / 16) by (by rewrite !Z.div_div).
  rewrite E2, E3. pose proof (Z.div_mod r 16). pose proof (Z.div_mod (r / 16) 16). pose proof (Z.div_mod (r / 16 / 16) 16).
  pose proof (Z.div_lt_upper_bound (r / 16 / 16) 16 256). pose proof (Z.div_lt_upper_bound (r / 16) 16 4096).
  pose proof (Z.div_lt_upper_bound r 16 4096). assert (0 <= r / 16 / 16 / 16) by (repeat apply Z.div_pos; lia).
  assert (r / 16 / 16 / 16 < 16) by (rewrite !Z.div_div by lia; apply Z.div_lt_upper_bound; lia).
  rewrite (Z.mod_small (r / 16 / 16 / 16)) by lia. lia.
Qed.

Lemma valid_not_surrogate r : Utf8.valid_rune r = true -> is_surrogate r = false.
Proof. unfold Utf8.valid_rune, is_surrogate. rewrite orb_true_iff, !between_true, <- not_true_iff_false, between_true. lia. Qed.

(** One rune of the quoted text is read back, or is no JSON. *)
Lemma quote_step r fuel rest acc : Utf8.valid_rune r = true ->
  string_body (S fuel) (quote_rune IsPrint r (Utf8.encode_valid r) ++ rest) acc =
  if json_rune r then string_body fuel rest (rev_append (Utf8.encode_valid r) acc) else None.
Proof.
  intros Hv. pose proof Hv as Hrange. unfold Utf8.valid_rune in Hrange. rewrite orb_true_iff, !between_true in Hrange.
  destruct (Z.lt_ge_cases r 128) as [Hlo|Hhi].
  { assert (He : Utf8.encode_valid r = [r]) by (unfold Utf8.encode_valid; by rewrite (proj2 (Z.ltb_lt r 128))).
    rewrite He. apply quote_ascii. lia. }
  destruct (encode_valid_high r Hv Hhi) as (b & l & He & Hb & Hlen). unfold quote_rune, json_rune.
  destruct (Nat.eqb_spec (length (Utf8.encode_valid r)) 1); [lia|]. cbn [andb].
  rewrite (proj2 (Z.eqb_neq r 34)), (proj2 (Z.eqb_neq r 92)), (proj2 (Z.ltb_ge r 128)) by lia. cbn [orb].
  destruct (IsPrint r); cbn [orb].
  { pose proof (decode_encode r rest Hv) as Hd. rewrite He in Hd |- *. cbn [app] in *. rewrite string_body_high by done.
    rewrite Hd. cbv beta iota. change (b :: l ++ rest) with ((b :: l) ++ rest). rewrite drop_app_length.
    f_equal. unfold Utf8.EncodeRune. by rewrite Hv, He. }
  repeat match goal with |- context [r =? ?k] => rewrite (proj2 (Z.eqb_neq r k)) by lia end.
  rewrite (proj2 (Z.ltb_ge r 32)) by lia. cbn [orb]. destruct (Z.ltb_spec r 65536).
  - change (([92; 117] ++ hex_text 4 r) ++ rest) with (92 :: 117 :: (hex_text 4 r ++ rest)). cbn [string_body].
    rewrite hex4_text by lia. cbn [mbind option_bind]. unfold unicode_escape. rewrite valid_not_surrogate by done.
    unfold Utf8.EncodeRune. by rewrite Hv.
  - reflexivity.
Qed.

Lemma quote_body rs fuel rest acc : valid_runes rs -> (length rs < fuel)%nat ->
  string_body fuel (concat ((fun r => quote_rune IsPrint r (Utf8.encode_valid r)) <$> rs) ++ 34 :: rest) acc =
  if forallb json_rune rs then Some (rev_append (concat (Utf8.encode_valid <$> rs)) acc, rest) else None.
Proof.
  intros Hrs. revert fuel acc. induction Hrs as [|r rs Hr Hrs IH]; intros [|fuel] acc Hf; simpl in Hf; try lia; [done|].
  cbn [fmap list_fmap concat forallb]. rewrite <- app_assoc, quote_step by done. destruct (json_rune r); [|done]. cbn [andb].
  rewrite IH by lia. destruct (forallb json_rune rs); [|done]. by rewrite !rev_append_rev, rev_app_distr, <- app_assoc.
Qed.

Lemma hex_digit_byte n : 0 <= n < 16 -> 0 <= hex_digit n < 256.
Proof. intros Hn. unfold hex_digit. destruct (n <? 10); lia. Qed.

Lemma hex_text_bytes width n : Forall (fun b => 0 <= b < 256) (hex_text width n).
Proof.
  unfold hex_text. apply Forall_reverse, Forall_fmap, Forall_true. intros k. apply hex_digit_byte, Z.mod_pos_bound. lia.
Qed.

Lemma quote_rune_bytes r : Utf8.valid_rune r = true ->
  Forall (fun b => 0 <= b < 256) (quote_rune IsPrint r (Utf8.encode_valid r)) /\
  (1 <= length (quote_rune IsPrint r (Utf8.encode_valid r)))%nat.
Proof.
  intros Hv. destruct (encode_valid_bytes r Hv) as [He Hl]. pose proof (hex_text_bytes 2 r). pose proof (hex_text_bytes 4 r).
  pose proof (hex_text_bytes 8 r). pose proof (hex_text_bytes 2 (default 0 (head (Utf8.encode_valid r)))).
  unfold quote_rune. repeat case_match; (split; [|by rewrite ?length_app; simpl; lia]); try done;
    repeat first [assumption | apply Forall_cons; split | apply Forall_nil_2 | apply Forall_app; split]; try done; try lia.
  all: rewrite ?orb_true_iff, ?Z.eqb_eq in *; lia.
Qed.

Lemma quote_bytes rs : valid_runes rs ->
  Forall (fun b => 0 <= b < 256) (concat ((fun r => quote_rune IsPrint r (Utf8.encode_valid r)) <$> rs)) /\
  (length rs <= length (concat ((fun r => quote_rune IsPrint r (Utf8.encode_valid r)) <$> rs)))%nat.
Proof.
  induction 1 as [|r rs Hr Hrs [IH1 IH2]]; [by split; [apply Forall_nil_2|]|].
  destruct (quote_rune_bytes r Hr) as [H1 H2]. rewrite fmap_cons. cbn [concat length]. rewrite length_app.
  split; [by apply Forall_app|lia].
Qed.

Lemma of_valid_runes rs : valid_runes rs ->
  Strings.of_runes rs = string_of_bytes (concat (Utf8.encode_valid <$> rs)) /\
  bytes_of_string (Strings.of_runes rs) = concat (Utf8.encode_valid <$> rs).
Proof.
  intros Hrs. assert (He : Strings.of_runes rs = string_of_bytes (concat (Utf8.encode_valid <$> rs))).
  { unfold Strings.of_runes. do 2 f_equal. apply list_fmap_ext. intros i r Hr. unfold Utf8.EncodeRune.
    by rewrite (Forall_lookup_1 _ _ _ _ Hrs Hr). }
  split; [done|]. rewrite He. apply bytes_of_string_of_bytes. clear He. induction Hrs as [|r rs Hr Hrs IH]; [apply Forall_nil_2|].
  cbn [fmap list_fmap concat]. apply Forall_app. split; [by apply encode_valid_bytes|done].
Qed.

(** Text that the gateway writes with [strconv.Quote] is JSON exactly when
    none of its characters needs one of Go's own escapes: the bell, the
    vertical tab, every other control character but backspace, tab, line
    feed, form feed and carriage return, DEL, and characters above U+FFFF that
    are not printable.  It then reads back as the same text; otherwise it is
    no JSON at all, and the request that holds it cannot be encoded. *)
Theorem quoted_text_roundtrip rs :
  valid_runes rs ->
  let s := Strings.of_runes rs in
  parse (Quote IsPrint s) = if forallb json_rune rs then Some (JStr (Quote IsPrint s) s) else None.
Proof.
  intros Hrs s. destruct (of_valid_runes rs Hrs) as [Hs Hb]. fold s in Hs, Hb. destruct (quote_bytes rs Hrs) as [H1 H2].
  set (body := concat ((fun r => quote_rune IsPrint r (Utf8.encode_valid r)) <$> rs)) in *.
  assert (Hq : Quote IsPrint s = string_of_bytes (34 :: body ++ [34])).
  { unfold Quote. rewrite Hb, runes_encoded by done. by rewrite <- list_fmap_compose. }
  assert (Hqb : bytes_of_string (Quote IsPrint s) = 34 :: body ++ [34]).
  { rewrite Hq. apply bytes_of_string_of_bytes. apply Forall_cons. split; [lia|]. apply Forall_app. split; [done|]. repeat constructor; lia. }
  set (tail := body ++ [34]) in *. assert (Hlen : (length rs < length tail)%nat) by (unfold tail; rewrite length_app; simpl; lia).
  assert (Hbody : string_body (length tail) tail [] =
                  if forallb json_rune rs then Some (rev_append (concat (Utf8.encode_valid <$> rs)) [], []) else None)
    by (by apply quote_body).
  unfold parse, parse_bytes. rewrite Hqb. change (skip_space (34 :: tail)) with (34 :: tail).
  rewrite Nat.add_1_r. cbn [parse_value]. unfold parse_string. rewrite Hbody.
  destruct (forallb json_rune rs); [|done]. cbn [mbind option_bind skip_space]. do 2 f_equal.
  - unfold before. rewrite Nat.sub_0_r, firstn_all. by rewrite Hq.
  - by rewrite rev_append_rev, app_nil_r, rev_involutive.
Qed.
End quote.
