(* ===== verification/Translators.v ===== *)
(** * Stream translators

    [anthropicStreamTranslator] and [openAIStreamTranslator] of
    internal/adapter/translate.go, one frame at a time.  A translator returns
    the events it appends to its output; [render_chunk] and [render_event] give
    their bytes. *)

From S2P Require Import Prelude GoStrings GoFloat Json.
From S2P Require Export Streams.

Definition invalid_stream : translate_error := PlainError "invalid_upstream_stream".

(** ** Messages API to chat completions *)

(** The [delta] of a chunk, as the map literals of [frame] build it. *)
Inductive chat_delta :=
| DRole
| DToolStart (index : Z) (id name : string)
| DContent (text : string)
| DReasoning (text : string)
| DToolArguments (index : Z) (arguments : string)
| DEmpty.

Definition delta_value (d : chat_delta) : value :=
  VMap match d with
       | DRole => [("role", VStr "assistant"); ("content", VStr "")]
       | DToolStart index id name =>
           [("tool_calls", VArr [VMap [("index", VInt index); ("id", VStr id); ("type", VStr "function");
                                       ("function", VMap [("name", VStr name); ("arguments", VStr "")])]])]
       | DContent text => [("content", VStr text)]
       | DReasoning text => [("reasoning_content", VStr text)]
       | DToolArguments index arguments =>
           [("tool_calls", VArr [VMap [("index", VInt index); ("function", VMap [("arguments", VStr arguments)])]])]
       | DEmpty => []
       end.

(** The output of [chunk]: the identity of the message, the delta, the finish
    reason and the usage. *)
Record chat_chunk := {
  out_id : string;
  out_created : Z;
  out_model : string;
  out_delta : chat_delta;
  out_finish : option string;
  out_usage : option value;
}.

Definition chunk_value (c : chat_chunk) : value :=
  VMap ([("id", VStr (out_id c)); ("object", VStr "chat.completion.chunk"); ("created", VInt (out_created c));
         ("model", VStr (out_model c));
         ("choices", VArr [VMap [("index", VInt 0); ("delta", delta_value (out_delta c));
                                 ("finish_reason", match out_finish c with Some f => VStr f | None => VNull end)]])] ++
        usage_member (out_usage c)).
Definition render_chunk (c : chat_chunk) : string := "data: " +:+ Marshal (chunk_value c) +:+ nl +:+ nl.
Definition done_frame : string := "data: [DONE]" +:+ nl +:+ nl.

Record anthropicStreamTranslator := {
  at_model : string;
  at_id : string;
  at_created : Z;
  at_inputTokens : option Z;
  at_toolIndices : gmap Z Z;
  at_serverTools : gset Z;
  at_nextTool : Z;
  at_omitted : list string;
  at_sawVisible : bool;
  at_sawReasoning : bool;
  at_sawDropped : bool;
}.
#[export] Instance anthropicStreamTranslator_eta : Eta anthropicStreamTranslator := fun t =>
  {| at_model := at_model t; at_id := at_id t; at_created := at_created t; at_inputTokens := at_inputTokens t;
     at_toolIndices := at_toolIndices t; at_serverTools := at_serverTools t; at_nextTool := at_nextTool t;
     at_omitted := at_omitted t; at_sawVisible := at_sawVisible t; at_sawReasoning := at_sawReasoning t;
     at_sawDropped := at_sawDropped t |}.
Definition newAnthropicStreamTranslator (model : string) (now : Z) : anthropicStreamTranslator :=
  {| at_model := model; at_id := ""; at_created := now; at_inputTokens := None; at_toolIndices := ∅; at_serverTools := ∅;
     at_nextTool := 0; at_omitted := []; at_sawVisible := false; at_sawReasoning := false; at_sawDropped := false |}.

Definition chunk (t : anthropicStreamTranslator) (d : chat_delta) (finish : option string) (usage : option value) : chat_chunk :=
  {| out_id := at_id t; out_created := at_created t; out_model := at_model t; out_delta := d; out_finish := finish; out_usage := usage |}.

(** The structs that [frame] decodes. *)
Record start_message := { start_ID : string; start_Model : string; start_Usage : option json }.
#[export] Instance start_message_eta : Eta start_message := fun m =>
  {| start_ID := start_ID m; start_Model := start_Model m; start_Usage := start_Usage m |}.
Definition dec_start_message : decoder start_message :=
  dec_struct [field_of "id" dec_string start_ID (fun s m => m <| start_ID := s |>);
              field_of "model" dec_string start_Model (fun s m => m <| start_Model := s |>);
              field_of "usage" dec_raw start_Usage (fun s m => m <| start_Usage := s |>)].
Definition no_start : start_message := {| start_ID := ""; start_Model := ""; start_Usage := None |}.

Definition dec_block_start : decoder (Z * contentBlock) :=
  dec_struct [field_of "index" dec_int64 fst (fun s p => (s, p.2)); field_of "content_block" dec_contentBlock snd (fun s p => (p.1, s))].

Record block_delta := { delta_Type : string; delta_Text : string; delta_Thinking : string; delta_PartialJSON : string }.
#[export] Instance block_delta_eta : Eta block_delta := fun d =>
  {| delta_Type := delta_Type d; delta_Text := delta_Text d; delta_Thinking := delta_Thinking d; delta_PartialJSON := delta_PartialJSON d |}.
Definition dec_delta : decoder block_delta :=
  dec_struct [field_of "type" dec_string delta_Type (fun s d => d <| delta_Type := s |>);
              field_of "text" dec_string delta_Text (fun s d => d <| delta_Text := s |>);
              field_of "thinking" dec_string delta_Thinking (fun s d => d <| delta_Thinking := s |>);
              field_of "partial_json" dec_string delta_PartialJSON (fun s d => d <| delta_PartialJSON := s |>)].
Definition no_delta : block_delta := {| delta_Type := ""; delta_Text := ""; delta_Thinking := ""; delta_PartialJSON := "" |}.
Definition dec_block_delta : decoder (Z * block_delta) :=
  dec_struct [field_of "index" dec_int64 fst (fun s p => (s, p.2)); field_of "delta" dec_delta snd (fun s p => (p.1, s))].

Record message_delta := { stop_Reason : option string; stop_Sequence : option string; stop_Usage : option json }.
#[export] Instance message_delta_eta : Eta message_delta := fun d =>
  {| stop_Reason := stop_Reason d; stop_Sequence := stop_Sequence d; stop_Usage := stop_Usage d |}.
Definition no_message_delta : message_delta := {| stop_Reason := None; stop_Sequence := None; stop_Usage := None |}.
Definition dec_stop : decoder message_delta :=
  dec_struct [field_of "stop_reason" dec_pstring stop_Reason (fun s d => d <| stop_Reason := s |>);
              field_of "stop_sequence" dec_pstring stop_Sequence (fun s d => d <| stop_Sequence := s |>)].
Definition dec_message_delta : decoder message_delta :=
  dec_struct [("delta", dec_stop); field_of "usage" dec_raw stop_Usage (fun s d => d <| stop_Usage := s |>)].

(** [anthropicInputTokens]. *)
Definition anthropicInputTokens (raw : RawMessage) : option Z :=
  n ← unmarshal_raw (dec_struct [field_of "input_tokens" dec_int64 id (fun s _ => s)]) 0 raw;
  if n <? 0 then None else Some n.

Abbreviation frame_result T O := (translate_error + (T * O))%type (only parsing).

Definition block_start (t : anthropicStreamTranslator) (index : Z) (b : contentBlock) :
    frame_result anthropicStreamTranslator (option chat_chunk) :=
  if negb (String.eqb (block_Type b) "tool_use") then
    let t := if String.eqb (block_Type b) "server_tool_use" then t <| at_serverTools := {[index]} ∪ at_serverTools t |> else t in
    let t := if negb (String.eqb (block_Type b) "text") && negb (String.eqb (block_Type b) "thinking")
             then t <| at_omitted := at_omitted t ++ [indexed "content" index ".type"] |> <| at_sawDropped := true |> else t in
    inr (t, None)
  else if String.eqb (block_ID b) "" || String.eqb (block_Name b) "" then inl invalid_stream
  else
    let tool := at_nextTool t in
    let t := t <| at_sawVisible := true |> <| at_nextTool := tool + 1 |> <| at_toolIndices := <[index := tool]> (at_toolIndices t) |> in
    inr (t, Some (chunk t (DToolStart tool (block_ID b) (block_Name b)) None None)).

Definition delta_event (t : anthropicStreamTranslator) (index : Z) (d : block_delta) :
    frame_result anthropicStreamTranslator (option chat_chunk) :=
  if String.eqb (delta_Type d) "text_delta" then
    let t := if String.eqb (delta_Text d) "" then t else t <| at_sawVisible := true |> in
    inr (t, Some (chunk t (DContent (delta_Text d)) None None))
  else if String.eqb (delta_Type d) "thinking_delta" then
    let t := if String.eqb (delta_Thinking d) "" then t else t <| at_sawReasoning := true |> in
    inr (t, Some (chunk t (DReasoning (delta_Thinking d)) None None))
  else if String.eqb (delta_Type d) "input_json_delta" then
    if bool_decide (index ∈ at_serverTools t) then inr (t, None)
    else match at_toolIndices t !! index with
         | None => inl invalid_stream
         | Some tool => inr (t, Some (chunk t (DToolArguments tool (delta_PartialJSON d)) None None))
         end
  else inr (t <| at_omitted := at_omitted t ++ ["content_block_delta.delta.type"] |> <| at_sawDropped := true |>, None).

Definition stop_event (t : anthropicStreamTranslator) (d : message_delta) :
    frame_result anthropicStreamTranslator (option chat_chunk) :=
  let! finish := translateAnthropicStopReason (stop_Reason d) in
  let omitted := at_omitted t ++ finish.2 ++ (if no_reason (stop_Sequence d) then [] else ["stop_sequence"]) in
  let t := t <| at_omitted := omitted |> in
  inr (t, Some (chunk t DEmpty (Some finish.1) (translateAnthropicUsage (stop_Usage d) (at_inputTokens t)))).

Section frames.
Context (ToLower : string -> string).

(** [frame]: at most one chunk.  The structs of the inner events are decoded
    from the data again; [obj] is the document that [StrictJSON] accepted. *)
Definition anthropic_frame (t : anthropicStreamTranslator) (frame : string) :
    frame_result anthropicStreamTranslator (option chat_chunk) :=
  let '(event, data) := parseSSEFrame frame in
  if String.eqb data "" then inr (t, None)
  else
    match StrictMap ToLower data with
    | None => inl invalid_stream
    | Some obj =>
        if String.eqb event "message_start" then
          match unmarshal_raw dec_start_message no_start (obj !! "message") with
          | None => inl invalid_stream
          | Some m =>
              let t := t <| at_id := start_ID m |> <| at_model := firstNonEmpty (start_Model m) (at_model t) |> in
              let t := match anthropicInputTokens (start_Usage m) with Some n => t <| at_inputTokens := Some n |> | None => t end in
              inr (t, Some (chunk t DRole None None))
          end
        else if String.eqb event "content_block_start" then
          match Unmarshal dec_block_start (0, no_block) data with
          | None => inl invalid_stream
          | Some (index, b) => block_start t index b
          end
        else if String.eqb event "content_block_delta" then
          match Unmarshal dec_block_delta (0, no_delta) data with
          | None => inl invalid_stream
          | Some (index, d) => delta_event t index d
          end
        else if String.eqb event "message_delta" then
          match Unmarshal dec_message_delta no_message_delta data with
          | None => inl invalid_stream
          | Some d => stop_event t d
          end
        else inr (t, None)
    end.
End frames.

(** [terminal]: the closing frame. *)
Definition anthropic_terminal (t : anthropicStreamTranslator) : translate_error + string :=
  if at_sawDropped t && negb (at_sawVisible t) && negb (at_sawReasoning t)
  then inl (TranslationError "unrepresentable_response_content" (default "" (head (at_omitted t))))
  else inr done_frame.

(** ** Chat completions to the Messages API *)

Inductive message_event :=
| EvMessageStart (id model : string) (input : Z)
| EvTextStart (index : Z)
| EvToolStart (index : Z) (id name : string)
| EvTextDelta (index : Z) (text : string)
| EvJSONDelta (index : Z) (partial_json : string)
| EvBlockStop (index : Z)
| EvMessageDelta (stop_reason : string) (output : option Z)
| EvMessageStop.

Definition event_name (e : message_event) : string :=
  match e with
  | EvMessageStart _ _ _ => "message_start"
  | EvTextStart _ | EvToolStart _ _ _ => "content_block_start"
  | EvTextDelta _ _ | EvJSONDelta _ _ => "content_block_delta"
  | EvBlockStop _ => "content_block_stop"
  | EvMessageDelta _ _ => "message_delta"
  | EvMessageStop => "message_stop"
  end.

Definition event_value (e : message_event) : value :=
  VMap (("type", VStr (event_name e)) ::
        match e with
        | EvMessageStart id model input =>
            [("message", VMap [("id", VStr id); ("type", VStr "message"); ("role", VStr "assistant"); ("model", VStr model);
                               ("content", VArr []); ("stop_reason", VNull); ("stop_sequence", VNull);
                               ("usage", VMap [("input_tokens", VInt input)])])]
        | EvTextStart index => [("index", VInt index); ("content_block", VMap [("type", VStr "text"); ("text", VStr "")])]
        | EvToolStart index id name =>
            [("index", VInt index);
             ("content_block", VMap [("type", VStr "tool_use"); ("id", VStr id); ("name", VStr name); ("input", VMap [])])]
        | EvTextDelta index text =>
            [("index", VInt index); ("delta", VMap [("type", VStr "text_delta"); ("text", VStr text)])]
        | EvJSONDelta index json =>
            [("index", VInt index); ("delta", VMap [("type", VStr "input_json_delta"); ("partial_json", VStr json)])]
        | EvBlockStop index => [("index", VInt index)]
        | EvMessageDelta reason output =>
            ("delta", VMap [("stop_reason", VStr reason); ("stop_sequence", VNull)]) ::
            match output with Some n => [("usage", VMap [("output_tokens", VInt n)])] | None => [] end
        | EvMessageStop => []
        end).

(** [anthropicEvent]. *)
Definition render_event (e : message_event) : string :=
  "event: " +:+ event_name e +:+ nl +:+ "data: " +:+ Marshal (event_value e) +:+ nl +:+ nl.

(** [activeType] is empty, [text] or [tool_use]. *)
Record openAIStreamTranslator := {
  ot_model : string;
  ot_id : string;
  ot_started : bool;
  ot_finished : bool;
  ot_finishReason : option string;
  ot_inputTokens : option Z;
  ot_outputTokens : option Z;
  ot_nextIndex : Z;
  ot_activeType : string;
  ot_activeIndex : Z;
  ot_toolIndices : gmap Z Z;
  ot_omitted : list string;
  ot_sawReasoning : bool;
  ot_sawVisible : bool;
}.
#[export] Instance openAIStreamTranslator_eta : Eta openAIStreamTranslator := fun t =>
  {| ot_model := ot_model t; ot_id := ot_id t; ot_started := ot_started t; ot_finished := ot_finished t;
     ot_finishReason := ot_finishReason t; ot_inputTokens := ot_inputTokens t; ot_outputTokens := ot_outputTokens t;
     ot_nextIndex := ot_nextIndex t; ot_activeType := ot_activeType t; ot_activeIndex := ot_activeIndex t;
     ot_toolIndices := ot_toolIndices t; ot_omitted := ot_omitted t; ot_sawReasoning := ot_sawReasoning t;
     ot_sawVisible := ot_sawVisible t |}.
Definition newOpenAIStreamTranslator (model : string) : openAIStreamTranslator :=
  {| ot_model := model; ot_id := ""; ot_started := false; ot_finished := false; ot_finishReason := None; ot_inputTokens := None;
     ot_outputTokens := None; ot_nextIndex := 0; ot_activeType := ""; ot_activeIndex := 0; ot_toolIndices := ∅; ot_omitted := [];
     ot_sawReasoning := false; ot_sawVisible := false |}.

(** The chunk that [frame] decodes. *)
Record call_delta := { cd_Index : Z; cd_ID : string; cd_Name : string; cd_Arguments : string }.
#[export] Instance call_delta_eta : Eta call_delta := fun c =>
  {| cd_Index := cd_Index c; cd_ID := cd_ID c; cd_Name := cd_Name c; cd_Arguments := cd_Arguments c |}.
Definition no_call_delta : call_delta := {| cd_Index := 0; cd_ID := ""; cd_Name := ""; cd_Arguments := "" |}.
Definition dec_call_delta_function : decoder call_delta :=
  dec_struct [field_of "name" dec_string cd_Name (fun s c => c <| cd_Name := s |>);
              field_of "arguments" dec_string cd_Arguments (fun s c => c <| cd_Arguments := s |>)].
Definition dec_call_delta : decoder call_delta :=
  dec_struct [field_of "index" dec_int64 cd_Index (fun s c => c <| cd_Index := s |>);
              field_of "id" dec_string cd_ID (fun s c => c <| cd_ID := s |>);
              checked "type" dec_string ""; ("function", dec_call_delta_function)].

Record choice_delta := {
  dl_Index : Z;
  dl_Content : option json;
  dl_Refusal : string;
  dl_Reasoning : string;
  dl_ToolCalls : list call_delta;
  dl_Finish : option string;
}.
#[export] Instance choice_delta_eta : Eta choice_delta := fun c =>
  {| dl_Index := dl_Index c; dl_Content := dl_Content c; dl_Refusal := dl_Refusal c; dl_Reasoning := dl_Reasoning c;
     dl_ToolCalls := dl_ToolCalls c; dl_Finish := dl_Finish c |}.
Definition no_choice_delta : choice_delta :=
  {| dl_Index := 0; dl_Content := None; dl_Refusal := ""; dl_Reasoning := ""; dl_ToolCalls := []; dl_Finish := None |}.
Definition dec_choice_fields : decoder choice_delta :=
  dec_struct [checked "role" dec_string "";
              field_of "content" dec_raw dl_Content (fun s c => c <| dl_Content := s |>);
              field_of "refusal" dec_string dl_Refusal (fun s c => c <| dl_Refusal := s |>);
              field_of "reasoning_content" dec_string dl_Reasoning (fun s c => c <| dl_Reasoning := s |>);
              field_of "tool_calls" (dec_slice no_call_delta dec_call_delta) dl_ToolCalls (fun s c => c <| dl_ToolCalls := s |>)].
Definition dec_choice_delta : decoder choice_delta :=
  dec_struct [field_of "index" dec_int64 dl_Index (fun s c => c <| dl_Index := s |>); ("delta", dec_choice_fields);
              field_of "finish_reason" dec_pstring dl_Finish (fun s c => c <| dl_Finish := s |>)].

Record chat_frame := { cf_ID : string; cf_Model : string; cf_Choices : list choice_delta; cf_Usage : option json }.
#[export] Instance chat_frame_eta : Eta chat_frame := fun c =>
  {| cf_ID := cf_ID c; cf_Model := cf_Model c; cf_Choices := cf_Choices c; cf_Usage := cf_Usage c |}.
Definition no_chat_frame : chat_frame := {| cf_ID := ""; cf_Model := ""; cf_Choices := []; cf_Usage := None |}.
Definition dec_chat_frame : decoder chat_frame :=
  dec_struct [field_of "id" dec_string cf_ID (fun s c => c <| cf_ID := s |>);
              field_of "model" dec_string cf_Model (fun s c => c <| cf_Model := s |>);
              field_of "choices" (dec_slice no_choice_delta dec_choice_delta) cf_Choices (fun s c => c <| cf_Choices := s |>);
              field_of "usage" dec_raw cf_Usage (fun s c => c <| cf_Usage := s |>)].

(** [streamText]. *)
Definition streamText (raw : RawMessage) : option string := if raw_blank raw then None else raw_string raw.

Definition updateUsage (t : openAIStreamTranslator) (raw : RawMessage) : openAIStreamTranslator :=
  if raw_blank raw then t
  else
    match unmarshal_raw dec_map None raw with
    | None => t
    | Some values =>
        let values := default ∅ values in
        let t := match any_count values "prompt_tokens" with Some n => t <| ot_inputTokens := Some n |> | None => t end in
        match any_count values "completion_tokens" with Some n => t <| ot_outputTokens := Some n |> | None => t end
    end.

(** The output grows as the translator runs. *)
Abbreviation emitting := (openAIStreamTranslator * list message_event)%type (only parsing).

Definition stopActiveBlock (s : emitting) : emitting :=
  let (t, out) := s in
  if String.eqb (ot_activeType t) "" then s
  else (t <| ot_activeType := "" |>, out ++ [EvBlockStop (ot_activeIndex t)]).

Definition startBlock (s : emitting) (blockType id name : string) : translate_error + emitting :=
  if String.eqb (ot_activeType s.1) blockType && String.eqb blockType "text" then inr s
  else
    let (t, out) := stopActiveBlock s in
    let index := ot_nextIndex t in
    let t := t <| ot_activeType := blockType |> <| ot_activeIndex := index |> <| ot_nextIndex := index + 1 |> in
    if String.eqb blockType "text" then inr (t, out ++ [EvTextStart index])
    else if String.eqb id "" || String.eqb name "" then inl invalid_stream
    else inr (t, out ++ [EvToolStart index id name]).

(** Visible text: of the content, or of a refusal. *)
Definition text_out (s : emitting) (text : string) : translate_error + emitting :=
  let! s := startBlock s "text" "" "" in
  let (t, out) := s in
  inr (t <| ot_sawVisible := true |>, out ++ [EvTextDelta (ot_activeIndex t) text]).

(** One entry of [tool_calls]. *)
Definition call_out (s : emitting) (call : call_delta) : translate_error + emitting :=
  let (t, out) := s in
  let t := t <| ot_sawVisible := true |> in
  let! found :=
    match ot_toolIndices t !! cd_Index call with
    | None =>
        if String.eqb (cd_ID call) "" || String.eqb (cd_Name call) "" then inl invalid_stream
        else
          let! s := startBlock (t, out) "tool_use" (cd_ID call) (cd_Name call) in
          let (t, out) := s in
          let index := ot_activeIndex t in
          inr (t <| ot_toolIndices := <[cd_Index call := index]> (ot_toolIndices t) |>, out, index)
    | Some index =>
        if negb (String.eqb (ot_activeType t) "tool_use") || negb (ot_activeIndex t =? index) then
          let (t, out) := stopActiveBlock (t, out) in
          inr (t <| ot_activeType := "tool_use" |> <| ot_activeIndex := index |>, out, index)
        else inr (t, out, index)
    end in
  let '(t, out, index) := found in
  inr (t, if String.eqb (cd_Arguments call) "" then out else out ++ [EvJSONDelta index (cd_Arguments call)]).

Fixpoint calls_out (s : emitting) (calls : list call_delta) : translate_error + emitting :=
  match calls with
  | [] => inr s
  | c :: calls => let! s := call_out s c in calls_out s calls
  end.

(** The body of the loop over the choices. *)
Definition choice_out (s : emitting) (c : choice_delta) : translate_error + emitting :=
  if negb (dl_Index c =? 0) then inr s
  else
    let (t, out) := s in
    let t := if String.eqb (dl_Reasoning c) "" then t
             else t <| ot_sawReasoning := true |> <| ot_omitted := ot_omitted t ++ ["choices[0].delta.reasoning_content"] |> in
    let! s := match streamText (dl_Content c) with
              | Some text => if String.eqb text "" then inr (t, out) else text_out (t, out) text
              | None => inr (t, out)
              end in
    let! s := (if String.eqb (dl_Refusal c) "" then inr s
               else
                 let! s := text_out s (dl_Refusal c) in
                 inr (s.1 <| ot_omitted := ot_omitted s.1 ++ ["choices[0].delta.refusal"] |>, s.2)) in
    let! s := calls_out s (dl_ToolCalls c) in
    inr (if no_reason (dl_Finish c) then s
         else (s.1 <| ot_finished := true |> <| ot_finishReason := dl_Finish c |>, s.2)).

Fixpoint choices_out (s : emitting) (choices : list choice_delta) : translate_error + emitting :=
  match choices with
  | [] => inr s
  | c :: choices => let! s := choice_out s c in choices_out s choices
  end.

(** [frame] after its decoding. *)
Definition openai_chunk (t : openAIStreamTranslator) (c : chat_frame) : translate_error + emitting :=
  let t := if String.eqb (cf_ID c) "" then t else t <| ot_id := cf_ID c |> in
  let t := if String.eqb (cf_Model c) "" then t else t <| ot_model := cf_Model c |> in
  let t := updateUsage t (cf_Usage c) in
  let s := if ot_started t then (t, [])
           else (t <| ot_started := true |>, [EvMessageStart (ot_id t) (ot_model t) (default 0 (ot_inputTokens t))]) in
  choices_out s (cf_Choices c).

Definition openai_frame (t : openAIStreamTranslator) (frame : string) : translate_error + emitting :=
  let '(_, data) := parseSSEFrame frame in
  if String.eqb data "" then inr (t, [])
  else match Unmarshal dec_chat_frame no_chat_frame data with
       | None => inl invalid_stream
       | Some c => openai_chunk t c
       end.

Definition openai_terminal (t : openAIStreamTranslator) : translate_error + emitting :=
  if negb (ot_started t) || negb (ot_finished t) then inl invalid_stream
  else if ot_sawReasoning t && negb (ot_sawVisible t)
  then inl (TranslationError "unrepresentable_reasoning_only_response" "choices[0].delta.reasoning_content")
  else
    let! finish := translateOpenAIStopReason (ot_finishReason t) in
    let (t, out) := stopActiveBlock (t, []) in
    inr (t, out ++ [EvMessageDelta finish (ot_outputTokens t); EvMessageStop]).

(** ** [newStreamTranslator] *)

Inductive streamTranslator :=
| FromAnthropic (t : anthropicStreamTranslator)
| FromOpenAI (t : openAIStreamTranslator).

Definition newStreamTranslator (providerProtocol clientProtocol model : string) (now : Z) : option streamTranslator :=
  if String.eqb providerProtocol "anthropic" && String.eqb clientProtocol "openai"
  then Some (FromAnthropic (newAnthropicStreamTranslator model now))
  else if String.eqb providerProtocol "openai" && String.eqb clientProtocol "anthropic"
  then Some (FromOpenAI (newOpenAIStreamTranslator model))
  else None.

Definition render_chunks (l : list chat_chunk) : string := String.concat "" (render_chunk <$> l).
Definition render_events (l : list message_event) : string := String.concat "" (render_event <$> l).

Definition translator_frame (ToLower : string -> string) (t : streamTranslator) (frame : string) :
    translate_error + (streamTranslator * string) :=
  match t with
  | FromAnthropic t => let! tc := anthropic_frame ToLower t frame in
                       inr (FromAnthropic tc.1, match tc.2 with Some c => render_chunk c | None => "" end)
  | FromOpenAI t => let! te := openai_frame t frame in inr (FromOpenAI te.1, render_events te.2)
  end.

Definition translator_terminal (t : streamTranslator) : translate_error + string :=
  match t with
  | FromAnthropic t => anthropic_terminal t
  | FromOpenAI t => let! te := openai_terminal t in inr (render_events te.2)
  end.

Definition translator_warnings (t : streamTranslator) : list string :=
  sortedUniqueStrings match t with FromAnthropic t => at_omitted t | FromOpenAI t => ot_omitted t end.
