(* ===== verification/Upstream.v ===== *)
(** * One upstream attempt

    Call options and limits (internal/adapter/options.go, limits.go), the
    errors a provider's response becomes (errors.go, failure_details.go) and
    what [doAttempt] of internal/adapter/client.go makes of each way an attempt
    can end.  JSON decoding is done before: an error body is given by the
    fields that the code reads from it, a response by its status and headers.
    Reading and translating the response is not modelled here; an attempt ends
    in one of the ways [attempt_result] lists. *)

From S2P Require Import Prelude GoStrings GoFloat Diagnostics Errors.
From S2P Require Pricing.

(** ** Call options *)

Record CallOptions := {
  AnthropicBeta : string;
  SessionID : string;
  RequestScopedSession : bool;
  ResponseModel : string;
  OptionsStartedAt : time;
  PriorQueueMS : Z;
  OptionsDecision : option RoutingDecision;
}.

#[export] Instance CallOptions_eta : Eta CallOptions := fun o =>
  {| AnthropicBeta := AnthropicBeta o; SessionID := SessionID o; RequestScopedSession := RequestScopedSession o;
     ResponseModel := ResponseModel o; OptionsStartedAt := OptionsStartedAt o; PriorQueueMS := PriorQueueMS o;
     OptionsDecision := OptionsDecision o |}.

Definition SessionIDHeader : string := "X-TideMux-Session-ID".

(** [strings.ContainsAny(s, "\r\n\x00")]. *)
Definition header_breaking (s : string) : bool := negb (Strings.all (fun b => negb (b =? 13) && negb (b =? 10) && negb (b =? 0)) s).

Definition beta_rune (c : Z) : bool :=
  Utf8.between 97 122 c || Utf8.between 65 90 c || Utf8.between 48 57 c || (c =? 45) || (c =? 95) || (c =? 46).

(** [strings.Split(s, ",")]. *)
Fixpoint split_commas (s : string) (word : string) : list string :=
  match s with
  | EmptyString => [Strings.string_rev word ""]
  | String c s => if byte_of_ascii c =? 44 then Strings.string_rev word "" :: split_commas s "" else split_commas s (String c word)
  end.

Definition beta_feature (feature : string) : bool :=
  let feature := Strings.TrimSpace feature in
  negb (String.eqb feature "") && forallb beta_rune (Strings.runes feature).

(** [CallOptions.Validate]: the error and the parameter it names. *)
Definition CallOptions_Validate (o : CallOptions) (protocol : string) : option (string * string) :=
  if (256 <? Strings.len (SessionID o)) || header_breaking (SessionID o) then Some ("invalid_session_id", SessionIDHeader)
  else if String.eqb (AnthropicBeta o) "" then None
  else if negb (String.eqb protocol "anthropic") || (4096 <? Strings.len (AnthropicBeta o)) || header_breaking (AnthropicBeta o)
  then Some ("invalid_beta_header", "anthropic-beta")
  else if forallb beta_feature (split_commas (AnthropicBeta o) "") then None
  else Some ("invalid_beta_header", "anthropic-beta").

(** ** Limits *)

Record Limits := {
  UpstreamTimeoutSeconds : Z;
  RequestBytes : Z;
  ResponseBytes : Z;
  StreamBytes : Z;
  EventBytes : Z;
}.

Definition or_default (value fallback : Z) : Z := if value =? 0 then fallback else value.

Definition Effective (l : Limits) : Limits :=
  {| UpstreamTimeoutSeconds := or_default (UpstreamTimeoutSeconds l) 60;
     RequestBytes := or_default (RequestBytes l) (Z.shiftl 32 20);
     ResponseBytes := or_default (ResponseBytes l) (Z.shiftl 8 20);
     StreamBytes := or_default (StreamBytes l) (Z.shiftl 64 20);
     EventBytes := or_default (EventBytes l) (Z.shiftl 1 20) |}.

Definition UpstreamTimeout (l : Limits) (stream : bool) : duration :=
  if stream && (UpstreamTimeoutSeconds l =? 0) then 0
  else wrap64 (UpstreamTimeoutSeconds (Effective l) * Second).

Definition Limits_Validate (l : Limits) : option string :=
  if (UpstreamTimeoutSeconds l <? 0) || (3600 <? UpstreamTimeoutSeconds l)
  then Some "limits.upstream_timeout_seconds must be 0..3600"
  else if existsb (fun n => (n <? 0) || (Z.shiftl 1 30 <? n)) [RequestBytes l; ResponseBytes l; StreamBytes l; EventBytes l]
  then Some "byte limits must be 0..1073741824"
  else if StreamBytes (Effective l) <? EventBytes (Effective l) then Some "limits.event_bytes must not exceed stream_bytes"
  else None.

(** ** Error responses *)

Record response := {
  resp_status : Z;
  resp_header : string -> string;        (** [Header.Get] *)
}.

(** What the code decodes from the body of an error. *)
Record error_body := {
  body_code : string;                    (** [providerErrorCode] *)
  body_kind : string;                    (** [error.type], of [resolveErrorCategory] *)
  body_status : Z;                       (** [providerErrorHTTPStatus] *)
  body_detail : option (string * string);  (** [error.type] and [error.message], when both decode *)
  body_envelope : option bool;           (** the envelope decodes, and has a code or a type *)
  body_invalid_request : option (string * string); (** [error.message] and [error.param] *)
}.

Section errors.
Context (ParseTime : string -> option time) (ToLower : string -> string) (mappings : list ProviderErrorMapping).

Definition request_id_headers : list string := ["request-id"; "x-request-id"; "x-ms-request-id"].

Definition normal_request_id (id : string) : string :=
  ProviderRequestID (Normalize (empty_Failure <| ProviderRequestID := id |>)).

Definition providerRequestID (header : string -> string) : string :=
  default "" (List.find (fun id => negb (String.eqb id "")) ((fun name => normal_request_id (header name)) <$> request_id_headers)).

Definition providerFailure (body : error_body) (resp : response) (source : string) : Failure :=
  let f := empty_Failure <| Source := source |> <| CodeState := "missing" |> <| HTTPStatus := resp_status resp |>
             <| ProviderRequestID := providerRequestID (resp_header resp) |> <| ErrorStatus := body_status body |> in
  let f := match body_detail body with
           | Some (kind, message) => f <| ProviderType := kind |> <| ProviderMessage := message |>
           | None => f
           end in
  if negb (String.eqb (body_code body) "") then
    let status := if String.eqb source "stream_error" then ErrorStatus f else HTTPStatus f in
    f <| ProviderCode := body_code body |> <| ConfiguredCode := (resolveProviderErrorCategory (body_code body) status mappings).2 |>
  else match body_envelope body with
       | None => f <| CodeState := "invalid" |>
       | Some true => f <| CodeState := "redacted" |>
       | Some false => f
       end.

Definition unsupported_phrases : list string :=
  ["not support"; "unsupported"; "unavailable"; "unknown parameter"; "unrecognized"; "extra inputs are not permitted"].
Definition known_parameters : list string :=
  ["response_format"; "output_config"; "reasoning_effort"; "thinking"; "temperature"; "tools"; "tool_choice"].

Definition invalidProviderRequestError (resp : response) (body : error_body) : CallError :=
  let plain := (new_CallError (resp_status resp) "upstream_invalid_request") <| UpstreamStatus := resp_status resp |> in
  match body_invalid_request body with
  | None => plain
  | Some (message, param) =>
      let message := ToLower message in
      if existsb (Strings.Contains message) unsupported_phrases then
        match List.find (fun p => String.eqb param p || Strings.Contains message p) known_parameters with
        | Some p => plain <| Code := "unsupported_parameter_" +:+ p |> <| Param := p |>
        | None => plain
        end
      else plain
  end.

Definition retry_after (resp : response) : string := resp_header resp "Retry-After".

(** The answer to a server error that nothing classifies. *)
Definition server_error (resp : response) (now : time) : CallError :=
  let '(until, seconds, provided) := retryAfterDeadline ParseTime (retry_after resp) now in
  let e := (new_CallError 502 "upstream_error") <| UpstreamStatus := resp_status resp |> <| RetryProvided := provided |> in
  if provided then e <| CooldownUntil := until |> <| Cooldown := Time.sub until now |> <| RetryAfterSecs := seconds |>
                     <| RetryAfterValue := Strings.TrimSpace (retry_after resp) |>
  else e.

Definition unclassified_error (resp : response) (body : error_body) (now : time) : CallError :=
  let status := resp_status resp in
  if status =? 429
  then (mappedProviderError ParseTime status (retry_after resp) ProviderErrorRateLimited "" now) <| CallProviderCode := "" |>
  else if (status =? 401) || (status =? 403)
  then (new_CallError 502 "upstream_error") <| UpstreamStatus := status |> <| Cooldown := 30 * Second |>
  else if (500 <=? status) && (status <=? 599) then server_error resp now
  else if negb (status =? 400) && negb (status =? 413) && negb (status =? 422)
  then (new_CallError 502 "upstream_error") <| UpstreamStatus := status |>
  else invalidProviderRequestError resp body.

Definition upstreamError (resp : response) (body : error_body) (now : time) : CallError :=
  let '(c, ok) := resolveErrorCategory (body_code body) (body_kind body) (resp_status resp) mappings in
  let invalid := invalidProviderRequestError resp body in
  let e := if ok then
             if String.eqb c ProviderErrorInvalidRequest && negb (String.eqb (Param invalid) "") then invalid
             else mappedProviderError ParseTime (resp_status resp) (retry_after resp) c (body_code body) now
           else unclassified_error resp body now in
  e <| CallFailure := Some (providerFailure body resp "http_error") |>.

Definition providerStreamError (resp : response) (body : error_body) (now : time) : CallError :=
  let status := body_status body in
  let unknown := new_CallError 502 "upstream_stream_error" in
  let e := if String.eqb (body_code body) "" && negb (status =? 429) then unknown
           else
             let '(c, ok) := resolveErrorCategory (body_code body) (body_kind body) status mappings in
             let '(c, ok) := if negb ok && (status =? 429) then (ProviderErrorRateLimited, true) else (c, ok) in
             if negb ok then unknown
             else mappedProviderError ParseTime (if 0 <? status then status else resp_status resp) (retry_after resp) c
                    (body_code body) now in
  e <| CallFailure := Some (providerFailure body resp "stream_error") |>.
End errors.

(** ** The end of an attempt *)

Inductive attempt_result :=
  | TransportFailure (headersWritten ctxErr : bool)     (** [client.Do] failed *)
  | ErrorResponse (body : error_body)                   (** a status outside 200..299 *)
  | StreamErrorEvent (body : error_body)                (** an error event inside a stream *)
  | LocalFailure (code : string)                        (** the response breaks a rule of the gateway *)
  | ConversionFailure (code field : string)             (** [TranslationError] *)
  | Answered (data : string) (usage : Pricing.TokenUsage).

Record attempt := {
  att_phase : nat;                  (** the last phase of the request trace *)
  att_resp : response;              (** the response, when [client.Do] returned one *)
  att_idle_expired : bool;          (** the idle timer of a stream cancelled it *)
  att_cause_deadline : bool;        (** the cause of the context's end is a deadline *)
  att_ctx_canceled : bool;
  att_timed_out : bool;             (** a network operation reported a timeout *)
  att_delivered : bool;             (** the sink was given a frame *)
  att_observed : bool;              (** some of the body was read *)
  att_now : time;
  att_result : attempt_result;
}.

Definition attempt_response (a : attempt) : option response :=
  match att_result a with TransportFailure _ _ => None | _ => Some (att_resp a) end.

Definition phase_names : list string :=
  ["request"; "dns"; "connect"; "tls"; "request"; "response_headers"; "response_body"; "stream"; "conversion"].

Section attempt.
Context (ParseTime : string -> option time) (ToLower : string -> string) (mappings : list ProviderErrorMapping).
(** [secrets]: the key, the session identifier and the client's redacted
    values; [forward]: [ForwardErrorMessages]; [stream]: is there a sink? *)
Context (secrets : list string) (forward : option bool) (stream : bool).

Definition transport_error (headersWritten ctxErr : bool) : CallError :=
  let e := new_CallError 502 "upstream_transport_error" in
  if negb headersWritten && negb ctxErr
  then e <| Cooldown := 5 * Second |> <| UpstreamNotAttempted := true |> <| FailoverSafe := true |> else e.

(** The error an attempt returns before its deferred functions run. *)
Definition raw_error (a : attempt) : option CallError :=
  match att_result a with
  | TransportFailure headersWritten ctxErr => Some (transport_error headersWritten ctxErr)
  | ErrorResponse body => Some (upstreamError ParseTime ToLower mappings (att_resp a) body (att_now a))
  | StreamErrorEvent body => Some (providerStreamError ParseTime mappings (att_resp a) body (att_now a))
  | LocalFailure code => Some (new_CallError 502 code)
  | ConversionFailure code field => Some ((new_CallError 502 code) <| Param := field |>)
  | Answered _ _ => None
  end.

Definition failure_source (phase : nat) (resp : option response) (e : CallError) : string :=
  if String.eqb (Code e) "downstream_write_error" then "downstream"
  else if (phase =? 8)%nat then "conversion"
  else match resp with None => "transport" | Some _ => if stream then "stream" else "response" end.

(** The metadata of the failure, before redaction. *)
Definition describe_failure (phase : nat) (resp : option response) (e : CallError) : Failure :=
  let f := default empty_Failure (CallFailure e) in
  let f := if String.eqb (Source f) "" then f <| Source := failure_source phase resp e |> else f in
  let f := f <| Phase := nth phase phase_names "" |> in
  let f := match resp with
           | Some r =>
               let f := f <| HTTPStatus := resp_status r |> in
               if String.eqb (ProviderRequestID f) "" then f <| ProviderRequestID := providerRequestID (resp_header r) |> else f
           | None => f
           end in
  let class := SafeFailureClass (Some (ECall e)) in
  let f := f <| Category := if String.eqb class "upstream_error" then "unknown" else class |> in
  let f := if ProviderScopedTerminal (CallCategory e) then f <| CooldownScope := "provider" |> else f in
  f <| Retryability := failureRetryability (e <| CallFailure := Some f |>) |>.

(** The deferred function of [doAttempt]. *)
Definition describe_error (phase : nat) (resp : option response) (idle_expired : bool) (e : CallError) : CallError :=
  let e := if idle_expired then (new_CallError 504 "upstream_timeout") <| CallFailure := CallFailure e |> else e in
  let f := Redact (describe_failure phase resp e) secrets in
  let f := match forward with Some false => f <| ProviderMessage := "" |> | _ => f end in
  let leaked := existsb (fun s => negb (String.eqb s "") && Strings.Contains (CallProviderCode e) s) secrets in
  let e := if leaked then e <| CallProviderCode := "" |> else e in
  e <| CallFailure := Some f |>.

Definition attempt_error (a : attempt) : option CallError :=
  describe_error (att_phase a) (attempt_response a) (att_idle_expired a) <$> raw_error a.

(** [UpstreamNotAttempted] from an attempt means that the connection failed
    before any header was written. *)
Lemma mappedProviderError_attempted status header c code now :
  UpstreamNotAttempted (mappedProviderError ParseTime status header c code now) = false.
Proof. unfold mappedProviderError. repeat case_match; done. Qed.

Lemma invalidProviderRequestError_attempted resp body :
  UpstreamNotAttempted (invalidProviderRequestError ToLower resp body) = false.
Proof. unfold invalidProviderRequestError. repeat case_match; done. Qed.

Lemma upstreamError_attempted resp body now :
  UpstreamNotAttempted (upstreamError ParseTime ToLower mappings resp body now) = false.
Proof.
  assert (Hu : UpstreamNotAttempted (unclassified_error ParseTime ToLower resp body now) = false).
  { unfold unclassified_error, server_error. pose proof (mappedProviderError_attempted) as Hm.
    pose proof (invalidProviderRequestError_attempted) as Hi.
    destruct (_ =? 429); [exact (Hm (resp_status resp) (retry_after resp) ProviderErrorRateLimited "" now)|]. destruct (_ || _); [done|].
    destruct (_ && _); [by destruct (retryAfterDeadline _ _ _) as [[? ?] []]|]. destruct (_ && _); [done|]. apply Hi. }
  unfold upstreamError. cbn zeta.
  destruct (resolveErrorCategory _ _ _ _) as [c []]; [destruct (_ && _)|]; cbn; auto using invalidProviderRequestError_attempted,
    mappedProviderError_attempted.
Qed.

Lemma providerStreamError_attempted resp body now :
  UpstreamNotAttempted (providerStreamError ParseTime mappings resp body now) = false.
Proof.
  unfold providerStreamError. pose proof (mappedProviderError_attempted) as Hm. repeat case_match; cbn; auto.
Qed.

Lemma raw_error_unattempted a e :
  raw_error a = Some e -> UpstreamNotAttempted e = true -> Code e = "upstream_transport_error".
Proof.
  unfold raw_error. destruct (att_result a); intros [= <-]; try done.
  - unfold transport_error. by destruct (_ && _).
  - by rewrite upstreamError_attempted.
  - by rewrite providerStreamError_attempted.
Qed.

Lemma describe_error_fields phase resp e :
  UpstreamNotAttempted (describe_error phase resp false e) = UpstreamNotAttempted e /\
  Code (describe_error phase resp false e) = Code e /\
  CallCategory (describe_error phase resp false e) = CallCategory e.
Proof. unfold describe_error. cbn zeta. repeat case_match; done. Qed.

Lemma describe_error_idle phase resp e :
  UpstreamNotAttempted (describe_error phase resp true e) = false /\
  Code (describe_error phase resp true e) = "upstream_timeout" /\
  CallCategory (describe_error phase resp true e) = "".
Proof. unfold describe_error. cbn zeta. repeat case_match; done. Qed.

Lemma attempt_error_unattempted a e :
  attempt_error a = Some e -> UpstreamNotAttempted e = true -> Code e = "upstream_transport_error".
Proof.
  unfold attempt_error. destruct (raw_error a) as [e0|] eqn:Hr; [|done]. cbn. intros [= <-].
  destruct (att_idle_expired a).
  - destruct (describe_error_idle (att_phase a) (attempt_response a) e0) as (-> & _). done.
  - destruct (describe_error_fields (att_phase a) (attempt_response a) e0) as (-> & -> & _).
    by apply (raw_error_unattempted a).
Qed.
End attempt.
