(* ===== verification/StreamCall.v ===== *)
(** * Delivering a stream

    The streaming branch of [doAttempt] in internal/adapter/client.go: every
    frame of the provider is translated, its model renamed, and handed to the
    client, except that the frames from the first one that signals completion
    are held back for the caller ([streamSignalsCompletion] of stream.go,
    [setStreamResponseModel] of response_model.go).  At the end, what errors.go,
    error_mapping.go and failure_details.go decode of an error body or an error
    event, and the end of an attempt that a stream or a response comes to. *)

From S2P Require Import Prelude GoStrings GoFloat Json.
From S2P Require Export Translators.
From S2P Require Upstream.

(** ** [streamSignalsCompletion] *)

Record completion_probe := { probe_Type : string; probe_StopReason : string; probe_Finish : list string }.
#[export] Instance completion_probe_eta : Eta completion_probe := fun p =>
  {| probe_Type := probe_Type p; probe_StopReason := probe_StopReason p; probe_Finish := probe_Finish p |}.
Definition no_probe : completion_probe := {| probe_Type := ""; probe_StopReason := ""; probe_Finish := [] |}.
Definition dec_probe : decoder completion_probe :=
  dec_struct [field_of "type" dec_string probe_Type (fun s p => p <| probe_Type := s |>);
              ("delta", dec_struct [field_of "stop_reason" dec_string probe_StopReason (fun s p => p <| probe_StopReason := s |>)]);
              field_of "choices" (dec_slice "" (dec_struct [field_of "finish_reason" dec_string id (fun s _ => s)])) probe_Finish
                (fun s p => p <| probe_Finish := s |>)].

Definition frame_signals (protocol frame : string) : bool :=
  let data := (parseSSEFrame frame).2 in
  if String.eqb protocol "openai" && String.eqb data "[DONE]" then true
  else
    match Unmarshal dec_probe no_probe data with
    | None => false
    | Some v =>
        (String.eqb protocol "anthropic" &&
         (String.eqb (probe_Type v) "message_stop" ||
          String.eqb (probe_Type v) "message_delta" && negb (String.eqb (probe_StopReason v) ""))) ||
        (String.eqb protocol "openai" && existsb (fun f => negb (String.eqb f "")) (probe_Finish v))
    end.
Definition streamSignalsCompletion (protocol frames : string) : bool :=
  existsb (frame_signals protocol) (Split (Strings.ReplaceAll frames (cr +:+ nl) nl) (nl +:+ nl)).

(** ** [setStreamResponseModel] *)

(** The payload with its model replaced, when the event names one. *)
Definition renamed_payload (protocol event : string) (payload : gmap string json) (model : string) : option value :=
  if String.eqb protocol "anthropic" then
    let kind := default "" (raw_string (payload !! "type")) in
    if negb (String.eqb event "message_start") && negb (String.eqb kind "message_start") then None
    else
      match unmarshal_raw dec_map None (payload !! "message") with
      | Some (Some message) => Some (raw_map_value payload "message" (raw_map_value message "model" (VStr model)))
      | _ => None
      end
  else if is_nil (payload !! "choices") then None
  else Some (raw_map_value payload "model" (VStr model)).

(** The first [data:] line with the new payload; the other ones are dropped. *)
Fixpoint rebuild (encoded : string) (replaced : bool) (l : list string) : string :=
  match l with
  | [] => ""
  | line :: l =>
      if negb (Strings.HasPrefix (TrimSuffix (TrimSuffix line nl) cr) "data:") then line +:+ rebuild encoded replaced l
      else if replaced then rebuild encoded true l
      else
        let ending := if Strings.HasSuffix line (cr +:+ nl) then cr +:+ nl else if Strings.HasSuffix line nl then nl else "" in
        ("data: " +:+ encoded +:+ ending) +:+ rebuild encoded true l
  end.

Definition setSingleStreamResponseModel (protocol frame model : string) : string :=
  if String.eqb model "" then frame
  else
    let '(event, data) := parseSSEFrame frame in
    if String.eqb data "" then frame
    else
      match Unmarshal dec_map None data with
      | Some (Some payload) =>
          match renamed_payload protocol event payload model with
          | Some v => rebuild (Marshal v) false (split_after frame "")
          | None => frame
          end
      | _ => frame
      end.

Definition setStreamResponseModel (protocol frames model : string) : string :=
  if String.eqb model "" then frames
  else String.concat ""
         (group ← SplitAfter frames (nl +:+ nl);
          frame ← SplitAfter group (cr +:+ nl +:+ cr +:+ nl);
          [setSingleStreamResponseModel protocol frame model]).

(** ** The frames of one attempt *)

(** What is behind the two closures of the attempt: the translator, the held
    frames, and the frames handed to the sink so far. *)
Record delivery := {
  dv_translator : option streamTranslator;
  dv_completion : string;
  dv_sent : list string;
  dv_delivered : bool;
}.
#[export] Instance delivery_eta : Eta delivery := fun d =>
  {| dv_translator := dv_translator d; dv_completion := dv_completion d; dv_sent := dv_sent d; dv_delivered := dv_delivered d |}.

(** An error on the side of the gateway: a conversion, one of the translator
    without a field, or another code. *)
Inductive delivery_error :=
| Conversion (code field : string)
| Untranslatable
| Delivery (code : string).

Definition conversion_error (e : translate_error) : delivery_error :=
  match e with TranslationError code field => Conversion code field | PlainError _ => Untranslatable end.

Section delivery.
Context (ToLower : string -> string) (clientProtocol ResponseModel : string) (StreamBytes : Z).
(** [sink sent frame]: does the client take [frame] after [sent]? *)
Context (sink : list string -> string -> bool).

Definition translate_frame (t : option streamTranslator) (frame : string) : translate_error + (option streamTranslator * string) :=
  match t with
  | None => inr (None, frame)
  | Some t => let! tf := translator_frame ToLower t frame in inr (Some tf.1, tf.2)
  end.

(** The closure that [readStreamWithLimits] calls. *)
Definition deliver (d : delivery) (frame : string) : delivery * option delivery_error :=
  match translate_frame (dv_translator d) frame with
  | inl e => (d, Some (conversion_error e))
  | inr (t, frame) =>
      let d := d <| dv_translator := t |> in
      let frame := if String.eqb ResponseModel "" then frame else setStreamResponseModel clientProtocol frame ResponseModel in
      if String.eqb frame "" then (d, None)
      else if negb (String.eqb (dv_completion d) "") || streamSignalsCompletion clientProtocol frame then
        if StreamBytes <? Strings.len (dv_completion d) + Strings.len frame
        then (d, Some (Delivery "upstream_response_too_large"))
        else (d <| dv_completion := dv_completion d +:+ frame |>, None)
      else
        let accepted := sink (dv_sent d) frame in
        let d := d <| dv_delivered := true |> <| dv_sent := dv_sent d ++ [frame] |> in
        (d, if accepted then None else Some (Delivery "downstream_write_error"))
  end.

(** How the stream ends: the tail for the caller, an error event of the
    provider, or a failure. *)
Inductive stream_result :=
| StreamAnswered (tail : string) (usage : TokenUsage)
| StreamProviderError (data : string)
| StreamConversion (code field : string)
| StreamFailed (code : string)
| StreamPlain (text : string).          (** not a [CallError] *)

Definition read_failure (e : stream_error delivery_error) : stream_result :=
  match e with
  | StreamFailure code => StreamFailed code
  | ProviderEvent data => StreamProviderError data
  | EmitError (Conversion code field) => StreamConversion code field
  | EmitError Untranslatable => StreamFailed "invalid_upstream_stream"
  | EmitError (Delivery code) => StreamFailed code
  end.

Definition stream_attempt (providerProtocol model : string) (now : Z) (EventBytes : Z) (body : list byte) (ending : body_end) :
    delivery * stream_result :=
  let d := {| dv_translator := newStreamTranslator providerProtocol clientProtocol model now; dv_completion := "";
              dv_sent := []; dv_delivered := false |} in
  match readStreamWithLimits ToLower deliver providerProtocol StreamBytes EventBytes body ending d with
  | (d, inl e) => (d, read_failure e)
  | (d, inr (usage, raw)) =>
      match match dv_translator d with None => inr raw | Some t => translator_terminal t end with
      | inl (TranslationError code field) => (d, StreamConversion code field)
      | inl (PlainError text) => (d, StreamPlain text)
      | inr data =>
          if StreamBytes <? Strings.len (dv_completion d) + Strings.len data
          then (d, StreamFailed "upstream_response_too_large")
          else (d, StreamAnswered (dv_completion d +:+ data) usage)
      end
  end.
End delivery.

(** The other branch: the whole response, read up to its limit. *)
Definition response_attempt (ToLower : string -> string) (providerProtocol clientProtocol model ResponseModel : string)
    (ResponseBytes : Z) (data : string) (ending : body_end) : stream_result :=
  match ending with
  | BodyError => StreamFailed "upstream_read_error"
  | BodyEOF =>
      if ResponseBytes <? Strings.len data then StreamFailed "upstream_response_too_large"
      else
        match ValidateResponse ToLower providerProtocol data with
        | inl _ => StreamFailed "invalid_upstream_response"
        | inr usage =>
            match TranslateResponseWithWarnings providerProtocol clientProtocol data model with
            | inl (TranslationError code field) => StreamConversion code field
            | inl (PlainError _) => StreamFailed "invalid_upstream_response"
            | inr (data, _) =>
                StreamAnswered (if String.eqb ResponseModel "" then data else setResponseModel data ResponseModel) usage
            end
        end
  end.

(** * The body of a provider's error *)

From S2P Require Import Prelude GoStrings GoFloat Json Errors.
From S2P Require Upstream.

(** [struct{Error json.RawMessage}]; [None] when it does not decode or has no
    error. *)
Definition error_member (data : string) : RawMessage :=
  j ← Unmarshal (dec_struct [field_of "error" dec_raw id (fun s _ => s)]) None data; j.

(** [numericProviderCode]. *)
Definition numericProviderCode (raw : RawMessage) : string :=
  let value := Strings.TrimSpace (match raw with Some j => source j | None => "" end) in
  if decimalSeconds value && safeProviderErrorCode value then value else "".

Definition dec_code_type : decoder (option json * option json) :=
  dec_struct [field_of "code" dec_raw fst (fun s p => (s, p.2)); field_of "type" dec_raw snd (fun s p => (p.1, s))].

Definition safe_string (raw : RawMessage) : option string :=
  s ← raw_string raw; if safeProviderErrorCode s then Some s else None.

Definition providerErrorCode (data : string) : string :=
  match unmarshal_raw dec_code_type (None, None) (error_member data) with
  | None => ""
  | Some (code, kind) =>
      match safe_string code with
      | Some code => code
      | None => if negb (String.eqb (numericProviderCode code) "") then numericProviderCode code else default "" (safe_string kind)
      end
  end.

Definition dec_status : decoder (Z * Z) :=
  dec_struct [field_of "status" dec_int64 fst (fun s p => (s, p.2)); field_of "status_code" dec_int64 snd (fun s p => (p.1, s))].

Definition providerErrorHTTPStatus (data : string) : Z :=
  match unmarshal_raw dec_status (0, 0) (error_member data) with
  | None => 0
  | Some (status, statusCode) => default 0 (List.find (fun s => (400 <=? s) && (s <=? 599)) [status; statusCode])
  end.

(** The [struct{Error struct{...}}] of the other readers: two strings of the
    error. *)
Definition dec_error_strings (a b : string) : decoder (string * string) :=
  dec_struct [("error", dec_struct [field_of a dec_string fst (fun s p => (s, p.2)); field_of b dec_string snd (fun s p => (p.1, s))])].

(** The error type that [resolveErrorCategory] reads. The error of the decoder
    is ignored, so what was read before a value of another type remains. *)
Definition read_type (kind : string) (kv : string * json) : string :=
  match kv.2 with JStr _ value => if same_name "type" kv.1 then value else kind | _ => kind end.
Definition read_error_type (kind : string) (kv : string * json) : string :=
  match kv.2 with JObj _ members => if same_name "error" kv.1 then foldl read_type kind members else kind | _ => kind end.
Definition error_kind (data : string) : string :=
  match parse data with Some (JObj _ members) => foldl read_error_type "" members | _ => "" end.

(** [envelope.Error["code"] != nil || envelope.Error["type"] != nil]. *)
Definition envelope_state (data : string) : option bool :=
  m ← Unmarshal (dec_struct [field_of "error" dec_map id (fun s _ => s)]) None data;
  let m := default ∅ m in Some (negb (is_nil (m !! "code")) || negb (is_nil (m !! "type"))).

Definition decode_error_body (data : string) : Upstream.error_body :=
  {| Upstream.body_code := providerErrorCode data;
     Upstream.body_kind := error_kind data;
     Upstream.body_status := providerErrorHTTPStatus data;
     Upstream.body_detail := Unmarshal (dec_error_strings "type" "message") ("", "") data;
     Upstream.body_envelope := envelope_state data;
     Upstream.body_invalid_request := Unmarshal (dec_error_strings "message" "param") ("", "") data |}.

(** [maxProviderErrorBody] *)
Definition maxProviderErrorBody : Z := 64 * 1024.
Definition read_error_body (body : list byte) : Upstream.error_body :=
  decode_error_body (string_of_bytes (take (Z.to_nat maxProviderErrorBody) body)).

(** The end of an attempt; an error that is no [CallError] has none. *)
Definition attempt_end (r : stream_result) : option Upstream.attempt_result :=
  match r with
  | StreamAnswered tail u => Some (Upstream.Answered tail u)
  | StreamProviderError data => Some (Upstream.StreamErrorEvent (decode_error_body data))
  | StreamConversion code field => Some (Upstream.ConversionFailure code field)
  | StreamFailed code => Some (Upstream.LocalFailure code)
  | StreamPlain _ => None
  end.
