(* ===== verification/StreamTypes.v ===== *)
(** * The events a client of the Messages API receives

    What a client may rely on in an event stream, as an automaton over typed
    events, and the proof that the translation of any chat completion stream
    obeys it. *)

From S2P Require Import Prelude GoStrings Json Translators.

(** ** The automaton *)

Inductive block_kind := BText | BTool.
#[export] Instance block_kind_eq_dec : EqDecision block_kind.
Proof. solve_decision. Defined.

(** The client's view: the blocks started so far in order, the open one, and
    how far the message is. *)
Inductive phase := Fresh | Streaming | Stopping | Ended.
Record client := { cl_phase : phase; cl_blocks : list block_kind; cl_open : option Z }.
#[export] Instance client_eta : Eta client := fun c =>
  {| cl_phase := cl_phase c; cl_blocks := cl_blocks c; cl_open := cl_open c |}.
Definition new_client : client := {| cl_phase := Fresh; cl_blocks := []; cl_open := None |}.

Definition block_at (c : client) (i : Z) : option block_kind := if i <? 0 then None else cl_blocks c !! Z.to_nat i.

(** A block that can take a delta or a stop: the open one; with [resume], also
    a tool block that was closed before, while no block is open. *)
Definition writable (resume : bool) (c : client) (i : Z) (k : block_kind) : bool :=
  bool_decide (block_at c i = Some k) &&
  (bool_decide (cl_open c = Some i) || (resume && bool_decide (cl_open c = None) && bool_decide (k = BTool))).

Definition streaming (c : client) : bool := match cl_phase c with Streaming => true | _ => false end.

Definition start_block (c : client) (i : Z) (k : block_kind) : option client :=
  if streaming c && bool_decide (cl_open c = None) && (i =? Z.of_nat (length (cl_blocks c)))
  then Some (c <| cl_blocks := cl_blocks c ++ [k] |> <| cl_open := Some i |>) else None.

Definition accept (resume : bool) (c : client) (e : message_event) : option client :=
  match e with
  | EvMessageStart _ _ _ => match cl_phase c with Fresh => Some (c <| cl_phase := Streaming |>) | _ => None end
  | EvTextStart i => start_block c i BText
  | EvToolStart i id name => if String.eqb id "" || String.eqb name "" then None else start_block c i BTool
  | EvTextDelta i _ => if streaming c && writable resume c i BText then Some (c <| cl_open := Some i |>) else None
  | EvJSONDelta i _ => if streaming c && writable resume c i BTool then Some (c <| cl_open := Some i |>) else None
  | EvBlockStop i =>
      if streaming c && (writable resume c i BText || writable resume c i BTool) then Some (c <| cl_open := None |>) else None
  | EvMessageDelta _ _ => if streaming c && bool_decide (cl_open c = None) then Some (c <| cl_phase := Stopping |>) else None
  | EvMessageStop => match cl_phase c with Stopping => Some (c <| cl_phase := Ended |>) | _ => None end
  end.

Definition accepts (resume : bool) (c : client) (es : list message_event) : option client :=
  foldl (fun c e => c ← c; accept resume c e) (Some c) es.

Lemma client_accepts_app resume c es es' :
  accepts resume c (es ++ es') = c ← accepts resume c es; accepts resume c es'.
Proof.
  unfold accepts. rewrite foldl_app. destruct (foldl _ _ es); simpl; [done|].
  by induction es' as [|e es' IH].
Qed.

Lemma accepts_snoc resume c es e : accepts resume c (es ++ [e]) = c ← accepts resume c es; accept resume c e.
Proof. rewrite client_accepts_app. by destruct (accepts resume c es). Qed.

(** ** Tool calls that are not resumed

    The condition on a chat completion stream under which no closed block is
    written again: the deltas of a tool call follow each other without text or
    another call between them. *)

Record call_order := { co_current : option Z; co_seen : list Z }.

Definition order_text (o : call_order) (visible : bool) : call_order :=
  if visible then {| co_current := None; co_seen := co_seen o |} else o.
Definition order_call (o : call_order) (k : Z) : option call_order :=
  if bool_decide (co_current o = Some k) then Some o
  else if bool_decide (k ∈ co_seen o) then None
  else Some {| co_current := Some k; co_seen := k :: co_seen o |}.

(** The visible text of a choice: its content and its refusal. *)
Definition nonempty (s : string) : list string := if String.eqb s "" then [] else [s].
Definition choice_texts (c : choice_delta) : list string :=
  if dl_Index c =? 0 then nonempty (default "" (streamText (dl_Content c))) ++ nonempty (dl_Refusal c) else [].
Definition choice_calls (c : choice_delta) : list call_delta := if dl_Index c =? 0 then dl_ToolCalls c else [].

Fixpoint order_calls (o : call_order) (calls : list call_delta) : option call_order :=
  match calls with
  | [] => Some o
  | c :: calls => o ← order_call o (cd_Index c); order_calls o calls
  end.
Definition order_choice (o : call_order) (c : choice_delta) : option call_order :=
  order_calls (order_text o (negb (bool_decide (choice_texts c = [])))) (choice_calls c).
Fixpoint order_choices (o : call_order) (cs : list choice_delta) : option call_order :=
  match cs with
  | [] => Some o
  | c :: cs => o ← order_choice o c; order_choices o cs
  end.
Fixpoint order_chunks (o : call_order) (cs : list chat_frame) : option call_order :=
  match cs with
  | [] => Some o
  | c :: cs => o ← order_choices o (cf_Choices c); order_chunks o cs
  end.

(** No tool call of the stream is resumed. *)
Definition sequential (cs : list chat_frame) : Prop :=
  is_Some (order_chunks {| co_current := None; co_seen := [] |} cs).
#[export] Instance sequential_dec cs : Decision (sequential cs).
Proof. unfold sequential. apply _. Defined.

(** ** The translator against the automaton *)

(** The translator over the chunks of a stream. *)
Fixpoint openai_chunks (s : openAIStreamTranslator * list message_event) (cs : list chat_frame) :
    translate_error + (openAIStreamTranslator * list message_event) :=
  match cs with
  | [] => inr s
  | c :: cs => let! te := openai_chunk s.1 c in openai_chunks (te.1, s.2 ++ te.2) cs
  end.

Ltac binds :=
  repeat match goal with
         | H : bind_err _ _ = inr _ |- _ => apply bind_err_inr in H; destruct H as [? [? H]]
         | H : inr _ = inr _ |- _ => injection H as H; subst
         | H : inl _ = inr _ |- _ => discriminate H
         end.

Section typed.
Context (resume : bool).

(** The active block of the translator is the open one of the client; when
    tool calls may be resumed it can also be a closed tool block, while none
    is open. *)
Definition active_agrees (t : openAIStreamTranslator) (c : client) : Prop :=
  (ot_activeType t = "" /\ cl_open c = None) \/
  (ot_activeType t = "text" /\ cl_open c = Some (ot_activeIndex t) /\ block_at c (ot_activeIndex t) = Some BText) \/
  (ot_activeType t = "tool_use" /\ block_at c (ot_activeIndex t) = Some BTool /\
   (cl_open c = Some (ot_activeIndex t) \/ (resume = true /\ cl_open c = None))).

(** Without resumption, the order of the calls so far says which call is
    open. *)
Definition order_agrees (o : call_order) (t : openAIStreamTranslator) : Prop :=
  resume = false ->
  (forall k, k ∈ co_seen o <-> is_Some (ot_toolIndices t !! k)) /\
  (forall k, co_current o = Some k -> ot_activeType t = "tool_use" /\ ot_toolIndices t !! k = Some (ot_activeIndex t)).

Definition agrees (o : call_order) (t : openAIStreamTranslator) (c : client) : Prop :=
  cl_phase c = (if ot_started t then Streaming else Fresh) /\
  ot_nextIndex t = Z.of_nat (length (cl_blocks c)) /\
  active_agrees t c /\
  (forall k i, ot_toolIndices t !! k = Some i -> block_at c i = Some BTool) /\
  order_agrees o t.

(** [out] is accepted and leads to a client that agrees with [t]; [pre] is the
    output of the frames before. *)
Definition good (pre : list message_event) (o : call_order) (s : openAIStreamTranslator * list message_event) : Prop :=
  exists c, accepts resume new_client (pre ++ s.2) = Some c /\ agrees o s.1 c /\ ot_started s.1 = true.

Lemma good_extend pre o o' t out t' e :
  good pre o (t, out) ->
  (forall c, agrees o t c -> ot_started t = true -> exists c', accept resume c e = Some c' /\ agrees o' t' c' /\ ot_started t' = true) ->
  good pre o' (t', out ++ [e]).
Proof.
  intros (c & Ha & Hag & Hs) He. destruct (He c Hag Hs) as (c' & Hc' & Hag' & Hs'). exists c'.
  simpl in *. rewrite app_assoc, accepts_snoc, Ha. auto.
Qed.

Lemma good_same pre o o' t out t' :
  good pre o (t, out) -> (forall c, agrees o t c -> agrees o' t' c) -> ot_started t' = ot_started t -> good pre o' (t', out).
Proof. intros (c & Ha & Hag & Hs) He Hst. exists c. simpl in *. rewrite Hst. auto. Qed.

Definition closed (o : call_order) : call_order := {| co_current := None; co_seen := co_seen o |}.

Lemma order_agrees_closed o t t' :
  ot_toolIndices t' = ot_toolIndices t -> order_agrees o t -> order_agrees (closed o) t'.
Proof. intros Ht Ho Hr. destruct (Ho Hr) as [Hs _]. rewrite Ht.
  split; [exact Hs|]. intros k [=]. Qed.

Lemma writable_open c i k : block_at c i = Some k -> cl_open c = Some i -> writable resume c i k = true.
Proof.
  intros Hb Ho. unfold writable. by rewrite (bool_decide_true (block_at c i = Some k)), (bool_decide_true (cl_open c = Some i)).
Qed.

Lemma writable_tool c i :
  block_at c i = Some BTool -> cl_open c = Some i \/ resume = true /\ cl_open c = None -> writable resume c i BTool = true.
Proof.
  intros Hb [Ho|[-> Ho]]; [by apply writable_open|]. unfold writable.
  by rewrite (bool_decide_true (block_at c i = Some BTool)), (bool_decide_true (cl_open c = None)), orb_true_r.
Qed.

Lemma block_at_snoc c i k j : block_at c i = Some k -> block_at (c <| cl_blocks := cl_blocks c ++ j |>) i = Some k.
Proof. unfold block_at. destruct (i <? 0); [done|]. apply lookup_app_l_Some. Qed.

Lemma block_at_new c k : block_at (c <| cl_blocks := cl_blocks c ++ [k] |>) (Z.of_nat (length (cl_blocks c))) = Some k.
Proof.
  unfold block_at. rewrite (proj2 (Z.ltb_ge _ _)) by lia. rewrite Nat2Z.id. by apply list_lookup_middle.
Qed.

Lemma good_stop pre o s : good pre o s -> good pre (closed o) (stopActiveBlock s) /\ ot_activeType (stopActiveBlock s).1 = "".
Proof.
  destruct s as [t out]. intros Hg. unfold stopActiveBlock. destruct (String.eqb_spec (ot_activeType t) "") as [Hn|Hn].
  - split; [|done]. eapply good_same; [exact Hg| |done]. intros c (H1 & H2 & H3 & H4 & H5).
    split_and!; auto. by eapply order_agrees_closed.
  - split; [|done]. eapply good_extend; [exact Hg|]. intros c (H1 & H2 & H3 & H4 & H5) Hst.
    rewrite Hst in H1. exists (c <| cl_open := None |>). cbn. unfold streaming. rewrite H1. split.
    + destruct H3 as [[H3 _]|[(H3 & Ho & Hb)|(H3 & Hb & Ho)]]; [done| |].
      * by rewrite (writable_open _ _ BText).
      * by rewrite (writable_tool _ _ Hb Ho), orb_true_r.
    + split; [|done]. split_and!; [cbn; by rewrite H1, Hst|done|by left|done|].
      apply (order_agrees_closed o t); [done|exact H5].
Qed.

Lemma good_start pre o s ty id name s' :
  ty = "text" \/ ty = "tool_use" -> good pre o s -> startBlock s ty id name = inr s' ->
  good pre (closed o) s' /\ ot_activeType s'.1 = ty /\ ot_toolIndices s'.1 = ot_toolIndices s.1.
Proof.
  intros Hty Hg. unfold startBlock. destruct (_ && _) eqn:Hsame.
  { intros [= <-]. apply andb_true_iff in Hsame as [H1%String.eqb_eq H2%String.eqb_eq]. split_and!; try done.
    destruct s as [t out]. eapply good_same; [exact Hg| |done]. intros c (? & ? & ? & ? & H5).
    split_and!; auto.
    exact (order_agrees_closed o t t eq_refl H5). }
  destruct (good_stop _ _ _ Hg) as [Hg' Ha].
  assert (Ht : ot_toolIndices (stopActiveBlock s).1 = ot_toolIndices s.1).
  { destruct s as [t out]. unfold stopActiveBlock. simpl.
    by destruct (String.eqb (ot_activeType t) ""). }
  destruct (stopActiveBlock s) as [t out]. simpl in Ha, Ht. intros Hs.
  assert (Hstart : forall k e,
    (ty = "text" /\ k = BText \/ ty = "tool_use" /\ k = BTool) ->
    (forall c, accept resume c e = start_block c (ot_nextIndex t) k) ->
    good pre (closed o) (t <| ot_activeType := ty |> <| ot_activeIndex := ot_nextIndex t |> <| ot_nextIndex := ot_nextIndex t + 1 |>,
                         out ++ [e])).
  { intros k e Hk He. eapply good_extend; [exact Hg'|]. intros c (H1 & H2 & H3 & H4 & H5) Hst. rewrite Hst in H1.
    assert (Ho : cl_open c = None) by (destruct H3 as [[_ H3]|[(H3 & _)|(H3 & _)]]; congruence).
    exists ((c <| cl_blocks := cl_blocks c ++ [k] |>) <| cl_open := Some (ot_nextIndex t) |>). rewrite He. unfold start_block, streaming.
    rewrite H1, Ho, H2, Z.eqb_refl. split; [done|]. split; [|done]. split_and!.
    - cbn. by rewrite H1, Hst.
    - cbn. rewrite length_app. simpl. lia.
    - right. pose proof (block_at_new c k) as Hb.
      destruct Hk as [[-> ->]|[-> ->]]; [left|right]; split_and!; try done; by left.
    - intros k' i Hi. apply (block_at_snoc c i BTool [k]). by apply H4 in Hi.
    - apply (order_agrees_closed (closed o) t); [done|exact H5]. }
  destruct Hty as [-> | ->]; simpl in Hs.
  - injection Hs as <-. split_and!; [|done|done]. apply (Hstart BText); [by left|done].
  - destruct (String.eqb id "" || String.eqb name "") eqn:Hid; [done|]. injection Hs as <-. split_and!; [|done|done].
    apply (Hstart BTool); [by right|]. intros c. simpl. by rewrite Hid.
Qed.

Lemma good_delta pre o t out k e :
  (ot_activeType t = "text" /\ k = BText \/ ot_activeType t = "tool_use" /\ k = BTool) ->
  (forall c, accept resume c e =
     if streaming c && writable resume c (ot_activeIndex t) k then Some (c <| cl_open := Some (ot_activeIndex t) |>) else None) ->
  good pre o (t, out) -> good pre o (t, out ++ [e]).
Proof.
  intros Hk He Hg. eapply good_extend; [exact Hg|]. intros c (H1 & H2 & H3 & H4 & H5) Hst. rewrite Hst in H1.
  exists (c <| cl_open := Some (ot_activeIndex t) |>).
  assert (Hw : writable resume c (ot_activeIndex t) k = true /\ block_at c (ot_activeIndex t) = Some k).
  { destruct H3 as [[Ha _]|[(Ha & Ho & Hb)|(Ha & Hb & Ho)]], Hk as [[Ha' ->]|[Ha' ->]]; try congruence.
    - split; [by apply writable_open|done].
    - split; [by apply writable_tool|done]. }
  destruct Hw as [Hw Hb]. rewrite He, Hw. unfold streaming. rewrite H1. split; [done|]. split; [|done].
  split_and!; [cbn; by rewrite H1, Hst|done| |done|done].
  right. destruct Hk as [[Ha ->]|[Ha ->]]; [left|right]; split_and!; try done. by left.
Qed.

Lemma good_visible pre o t out : good pre o (t, out) -> good pre o (t <| ot_sawVisible := true |>, out).
Proof. intros Hg. eapply good_same; [exact Hg| |done]. by intros c (? & ? & ? & ? & ?). Qed.

Lemma good_text pre o s text s' : good pre o s -> text_out s text = inr s' -> good pre (closed o) s'.
Proof.
  intros Hg H. unfold text_out in H. binds. destruct x as [t out].
  destruct (good_start _ _ _ "text" "" "" _ (or_introl eq_refl) Hg H0) as (Hg' & Ha & _).
  injection H as <-. apply (good_delta _ _ _ _ BText); [by left|done|]. by apply good_visible.
Qed.

(** The order after a call, whatever it is when calls may be resumed. *)
Definition ordered (o : call_order) (k : Z) (o' : call_order) : Prop := resume = false -> order_call o k = Some o'.

Lemma ordered_new o k o' t : ordered o k o' -> order_agrees o t -> ot_toolIndices t !! k = None ->
  resume = false -> o' = {| co_current := Some k; co_seen := k :: co_seen o |}.
Proof.
  intros Ho Ha Hk Hr. specialize (Ho Hr). destruct (Ha Hr) as [Hs Hc]. unfold order_call in Ho.
  case_bool_decide as H1; [destruct (Hc k H1); congruence|].
  case_bool_decide as H2; [apply Hs in H2 as [? ?]; congruence|]. congruence.
Qed.

Lemma ordered_known o k o' t i : ordered o k o' -> order_agrees o t -> ot_toolIndices t !! k = Some i ->
  resume = false -> o' = o /\ ot_activeType t = "tool_use" /\ ot_activeIndex t = i.
Proof.
  intros Ho Ha Hk Hr. specialize (Ho Hr). destruct (Ha Hr) as [Hs Hc]. unfold order_call in Ho.
  case_bool_decide as H1; [destruct (Hc k H1); split_and!; congruence|].
  case_bool_decide as H2; [done|]. destruct H2. apply Hs. eauto.
Qed.

Lemma good_new_call pre o o' k t out i :
  good pre (closed o) (t, out) -> ot_activeType t = "tool_use" -> i = ot_activeIndex t ->
  (resume = false -> o' = {| co_current := Some k; co_seen := k :: co_seen o |}) ->
  good pre o' (t <| ot_toolIndices := <[k := i]> (ot_toolIndices t) |>, out).
Proof.
  intros Hg Ha -> Ho. eapply good_same; [exact Hg| |done]. intros c (H1 & H2 & H3 & H4 & H5). split_and!; [done|done|done| |].
  - intros k' i. cbn. destruct (decide (k' = k)) as [->|Hn].
    + rewrite lookup_insert_eq. intros [= <-]. destruct H3 as [[? ?]|[(? & ?)|(? & ? & ?)]]; congruence.
    + rewrite lookup_insert_ne by done. apply H4.
  - intros Hr. rewrite (Ho Hr). destruct (H5 Hr) as [Hs _]. cbn. split.
    + intros k'. rewrite elem_of_cons, lookup_insert_is_Some'. cbn in Hs. rewrite Hs. split; intros [->|?]; auto.
    + intros ? [= <-]. by rewrite lookup_insert_eq.
Qed.

Lemma good_resumed pre o o' t out i :
  good pre o (t, out) -> ot_activeType t = "" -> resume = true -> (exists k, ot_toolIndices t !! k = Some i) ->
  good pre o' (t <| ot_activeType := "tool_use" |> <| ot_activeIndex := i |>, out).
Proof.
  intros Hg Ha Hr [k Hk]. eapply good_same; [exact Hg| |done]. intros c (H1 & H2 & H3 & H4 & H5).
  split_and!; [done|done| |done|intros; congruence].
  right. right. split_and!; [done|by eapply H4|]. right. split; [done|]. destruct H3 as [[_ H3]|[[H3 _]|[H3 _]]]; congruence.
Qed.

Lemma good_call pre o o' s call s' :
  good pre o s -> ordered o (cd_Index call) o' -> call_out s call = inr s' -> good pre o' s'.
Proof.
  intros Hg Ho H. destruct s as [t out]. unfold call_out in H. apply bind_err_inr in H as [[[t' out'] i] [Hf H]].
  assert (Hagree : order_agrees o t) by by destruct Hg as (? & ? & (? & ? & ? & ? & ?) & ?).
  assert (Hd : good pre o' (t', out') /\ ot_activeType t' = "tool_use" /\ ot_activeIndex t' = i).
  { apply good_visible in Hg. cbn in Hf. destruct (ot_toolIndices t !! cd_Index call) as [index|] eqn:Hk; cbn in Hf.
    - destruct (_ || _) eqn:Hc.
      + destruct (good_stop _ _ _ Hg) as [Hg' Ha]. unfold stopActiveBlock in *. cbn in Hf, Hg', Ha.
        assert (Hr : resume = true).
        { apply not_false_is_true. intros Hr. destruct (ordered_known _ _ _ _ _ Ho Hagree Hk Hr) as (_ & H1 & H2).
          by rewrite H1, H2, Z.eqb_refl in Hc. }
        destruct (String.eqb (ot_activeType t) ""); injection Hf as <- <- <-; (split; [|done]);
          (apply (good_resumed _ (closed o)); [exact Hg'|exact Ha|done|by eexists]).
      + injection Hf as <- <- <-. apply orb_false_iff in Hc as [H1%negb_false_iff%String.eqb_eq H2%negb_false_iff%Z.eqb_eq].
        split_and!; [|done|done]. eapply good_same; [exact Hg| |done]. intros c (? & ? & ? & ? & H5).
        split_and!; try done.
        intros Hr. destruct (ordered_known _ _ _ _ _ Ho Hagree Hk Hr) as (-> & _). by apply H5.
    - destruct (_ || _); [done|]. apply bind_err_inr in Hf as [[t1 out1] [Hs Hf]]. injection Hf as <- <- <-.
      destruct (good_start _ _ _ "tool_use" _ _ _ (or_intror eq_refl) Hg Hs) as (Hg' & Ha & Ht). split_and!; [|done|done].
      apply (good_new_call _ o); [done|done|done|]. by eapply ordered_new. }
  destruct Hd as (Hd & Ha & Hi). injection H as <-. destruct (String.eqb (cd_Arguments call) ""); [done|].
  apply (good_delta _ _ _ _ BTool); [by right| |done]. intros c. simpl. by rewrite Hi.
Qed.

Lemma good_any pre o o' s : (resume = false -> o = o') -> good pre o s -> good pre o' s.
Proof.
  intros Ho Hg. destruct s as [t out]. eapply good_same; [exact Hg| |done]. intros c (? & ? & ? & ? & H5). split_and!; try done.
  intros Hr. rewrite <- (Ho Hr). by apply H5.
Qed.

(** Sequences of steps: each one keeps [good] under the order it leads to. *)
Lemma bound_order {A} (f : call_order -> A -> option call_order) (rest : call_order -> option call_order) o x o' :
  (resume = false -> (o ← f o x; rest o) = Some o') ->
  exists o1, (resume = false -> f o x = Some o1) /\ (resume = false -> rest o1 = Some o').
Proof.
  intros Ho. destruct (f o x) as [o1|]; [by exists o1|]. exists o. split; intros Hr; by specialize (Ho Hr).
Qed.

Lemma good_calls pre o o' s calls s' :
  good pre o s -> (resume = false -> order_calls o calls = Some o') -> calls_out s calls = inr s' -> good pre o' s'.
Proof.
  revert o s. induction calls as [|call calls IH]; intros o s Hg Ho H; simpl in H.
  - injection H as <-. apply (good_any _ o); [|done]. intros Hr. by injection (Ho Hr).
  - apply bind_err_inr in H as [s1 [H1 H]]. apply (bound_order (fun o c => order_call o (cd_Index c)) (fun o => order_calls o calls)) in Ho as (o1 & Ho1 & Ho).
    apply (IH o1 s1); [|done|done]. by apply (good_call _ o _ _ _ _ Hg Ho1).
Qed.

Lemma good_texts pre o o' t out text s' :
  good pre o (t, out) -> (if String.eqb text "" then inr (t, out) else text_out (t, out) text) = inr s' ->
  o' = order_text o (negb (String.eqb text "")) -> good pre o' s'.
Proof.
  intros Hg H ->. destruct (String.eqb text ""); simpl.
  - by injection H as <-.
  - by eapply good_text.
Qed.

Lemma good_choice pre o o' s c s' :
  good pre o s -> (resume = false -> order_choice o c = Some o') -> choice_out s c = inr s' -> good pre o' s'.
Proof.
  intros Hg Ho H. unfold choice_out in H. unfold order_choice, choice_texts, choice_calls in Ho.
  destruct (dl_Index c =? 0) eqn:Hi; simpl in H.
  2: { injection H as <-. apply (good_any _ o); [|done]. intros Hr. by injection (Ho Hr). }
  destruct s as [t out]. apply bind_err_inr in H as [s1 [H1 H]]. apply bind_err_inr in H as [s2 [H2 H]]. apply bind_err_inr in H as [s3 [H3 H]].
  set (t0 := if String.eqb (dl_Reasoning c) "" then t else _) in H1.
  assert (Hg0 : good pre o (t0, out)).
  { unfold t0. destruct (String.eqb (dl_Reasoning c) ""); [done|]. eapply good_same; [exact Hg| |done]. by intros ? (? & ? & ? & ? & ?). }
  clearbody t0. set (text := default "" (streamText (dl_Content c))) in *.
  assert (Hg1 : good pre (order_text o (negb (String.eqb text ""))) s1).
  { eapply (good_texts _ _ _ t0 out text); [done| |done]. unfold text. destruct (streamText (dl_Content c)); [done|]. by simpl. }
  assert (Hg2 : good pre (order_text (order_text o (negb (String.eqb text ""))) (negb (String.eqb (dl_Refusal c) ""))) s2).
  { destruct (String.eqb (dl_Refusal c) "") eqn:Hrf; simpl in *; [by injection H2 as <-|].
    apply bind_err_inr in H2 as [[t2 out2] [H2 H4]]. injection H4 as <-. apply (good_text _ _ _ _ _ Hg1) in H2.
    eapply good_same; [exact H2| |done]. by intros ? (? & ? & ? & ? & ?). }
  assert (Hg3 : good pre o' s3).
  { eapply good_calls; [exact Hg2| |exact H3]. intros Hr. rewrite <- (Ho Hr). f_equal. unfold nonempty.
    destruct (String.eqb text ""), (String.eqb (dl_Refusal c) ""); done. }
  injection H as <-. destruct (no_reason (dl_Finish c)); [done|]. destruct s3 as [t3 out3].
  eapply good_same; [exact Hg3| |done]. by intros ? (? & ? & ? & ? & ?).
Qed.

Lemma good_choices pre o o' s cs s' :
  good pre o s -> (resume = false -> order_choices o cs = Some o') -> choices_out s cs = inr s' -> good pre o' s'.
Proof.
  revert o s. induction cs as [|c cs IH]; intros o s Hg Ho H; simpl in H.
  - injection H as <-. apply (good_any _ o); [|done]. intros Hr. by injection (Ho Hr).
  - apply bind_err_inr in H as [s1 [H1 H]]. apply (bound_order order_choice (fun o => order_choices o cs)) in Ho as (o1 & Ho1 & Ho).
    apply (IH o1 s1); [|done|done]. by eapply good_choice.
Qed.

(** Before its first frame the translator is fresh; after it, [good]. *)
Definition ready (pre : list message_event) (o : call_order) (t : openAIStreamTranslator) : Prop :=
  good pre o (t, []) \/ pre = [] /\ ot_started t = false /\ agrees o t new_client.

Lemma updateUsage_agrees o t raw c :
  agrees o t c -> agrees o (updateUsage t raw) c /\ ot_started (updateUsage t raw) = ot_started t.
Proof.
  intros Ha. unfold updateUsage. destruct (raw_blank raw); [done|]. destruct (unmarshal_raw _ _ _); [|done].
  destruct (any_count _ "prompt_tokens"), (any_count _ "completion_tokens"); (split; [|done]); by destruct Ha as (? & ? & ? & ? & ?).
Qed.

Lemma good_chunk pre o o' t c s' :
  ready pre o t -> (resume = false -> order_choices o (cf_Choices c) = Some o') -> openai_chunk t c = inr s' -> good pre o' s'.
Proof.
  intros Hr Ho H. unfold openai_chunk in H.
  set (t0 := if String.eqb (cf_ID c) "" then t else _) in H. set (t1 := if String.eqb (cf_Model c) "" then t0 else _) in H.
  assert (H1 : forall cl, agrees o t cl -> agrees o (updateUsage t1 (cf_Usage c)) cl).
  { intros cl Ha. apply updateUsage_agrees. unfold t1, t0.
    destruct (String.eqb (cf_ID c) ""), (String.eqb (cf_Model c) ""); by destruct Ha as (? & ? & ? & ? & ?). }
  assert (H2 : ot_started (updateUsage t1 (cf_Usage c)) = ot_started t).
  { destruct Hr as [(cl & _ & Ha & _)|(_ & _ & Ha)]; simpl in Ha; apply H1 in Ha as Ha'; destruct Ha as [Ha _], Ha' as [Ha' _];
      rewrite Ha' in Ha; by destruct (ot_started (updateUsage t1 (cf_Usage c))), (ot_started t). }
  clearbody t0 t1. cbn zeta in H. rewrite H2 in H. destruct Hr as [Hg|(-> & Hs & Ha)].
  - assert (Hs : ot_started t = true) by by destruct Hg as (? & ? & ? & ?). rewrite Hs in H.
    eapply good_choices; [|exact Ho|exact H]. by eapply good_same; [exact Hg|exact H1|].
  - rewrite Hs in H. eapply good_choices; [|exact Ho|exact H].
    apply H1 in Ha as (A1 & A2 & A3 & A4 & A5). rewrite H2, Hs in A1.
    exists (new_client <| cl_phase := Streaming |>). split; [done|]. split; [|done]. by split_and!.
Qed.

Lemma good_ready pre o t out : good pre o (t, out) -> ready (pre ++ out) o t.
Proof. intros (c & Ha & Hag). left. exists c. simpl in *. by rewrite app_nil_r. Qed.

Lemma ready_chunks o o' pre t cs t' out :
  ready pre o t -> (resume = false -> order_chunks o cs = Some o') -> openai_chunks (t, pre) cs = inr (t', out) -> ready out o' t'.
Proof.
  revert o pre t. induction cs as [|c cs IH]; intros o pre t Hr Ho H; simpl in H.
  - injection H as <- <-. destruct Hr as [Hg|(Hp & Hs & Ha)].
    + left. apply (good_any _ o); [|done]. intros Hr. by injection (Ho Hr).
    + right. split_and!; try done. destruct Ha as (? & ? & ? & ? & H5). split_and!; try done.
      intros Hr. injection (Ho Hr) as <-. by apply H5.
  - apply bind_err_inr in H as [[t1 out1] [H1 H]].
    apply (bound_order (fun o c => order_choices o (cf_Choices c)) (fun o => order_chunks o cs)) in Ho as (o1 & Ho1 & Ho).
    eapply IH; [|exact Ho|exact H]. by eapply good_ready, good_chunk.
Qed.

Lemma ready_new model : ready [] {| co_current := None; co_seen := [] |} (newOpenAIStreamTranslator model).
Proof.
  right. split_and!; try done. split_and!; try done; [by left|].
  intros _. split; [|done]. intros k. cbn. rewrite lookup_empty, is_Some_alt. split; [by intros ?%not_elem_of_nil|done].
Qed.

Lemma good_terminal pre o t t' tail :
  ready pre o t -> openai_terminal t = inr (t', tail) ->
  exists c, accepts resume new_client (pre ++ tail) = Some c /\ cl_phase c = Ended.
Proof.
  intros Hr H. unfold openai_terminal in H. destruct (_ || _) eqn:Hs; [done|]. destruct (_ && _); [done|].
  apply orb_false_iff in Hs as [Hs%negb_false_iff _]. destruct Hr as [Hg|(_ & Hs' & _)]; [|congruence].
  apply bind_err_inr in H as [reason [_ H]]. destruct (good_stop _ _ _ Hg) as [(c & Ha & (A1 & _ & A3 & _) & A6) Hn].
  destruct (stopActiveBlock (t, [])) as [t1 out]. injection H as <- <-. simpl in *.
  assert (Ho : cl_open c = None) by (destruct A3 as [[_ A3]|[[A3 _]|[A3 _]]]; congruence).
  exists (c <| cl_phase := Ended |>). split; [|done].
  change (out ++ [EvMessageDelta reason (ot_outputTokens t1); EvMessageStop])
    with (out ++ ([EvMessageDelta reason (ot_outputTokens t1)] ++ [EvMessageStop])).
  rewrite app_assoc, app_assoc, !accepts_snoc, Ha. cbn. unfold streaming. by rewrite A1, A6, Ho.
Qed.
End typed.

(** Every output of the translator so far is accepted, and a finished one
    ends the message. *)
Lemma translated_typed resume model cs t evs :
  (resume = false -> sequential cs) ->
  openai_chunks (newOpenAIStreamTranslator model, []) cs = inr (t, evs) ->
  is_Some (accepts resume new_client evs) /\
  forall t' tail, openai_terminal t = inr (t', tail) ->
    exists c, accepts resume new_client (evs ++ tail) = Some c /\ cl_phase c = Ended.
Proof.
  intros Hs H.
  assert (Hr : exists o', ready resume evs o' t).
  { destruct (order_chunks {| co_current := None; co_seen := [] |} cs) as [o'|] eqn:Ho.
    - exists o'. eapply ready_chunks; [apply ready_new| |exact H]. done.
    - exists {| co_current := None; co_seen := [] |}. eapply ready_chunks; [apply ready_new| |exact H].
      intros Hr. destruct (Hs Hr) as [o'' Ho'']. congruence. }
  destruct Hr as [o' Hr]. split.
  - destruct Hr as [(c & Ha & _)|(-> & _)]; [|done]. simpl in Ha. rewrite app_nil_r in Ha. eauto.
  - intros t' tail Ht. by eapply good_terminal.
Qed.
