(* ===== verification/StreamContent.v ===== *)
(** * The content of a translated stream

    The translation of a chat completion stream loses no visible text and no
    tool call: text deltas arrive in order, and each call keeps its identifier,
    its name and its arguments in a block of its own. *)

From S2P Require Import Prelude GoStrings Json Translators StreamTypes.

(** What a stream conveys: visible texts and entries of tool calls. *)
Inductive item := IText (text : string) | ICall (c : call_delta).
Definition choice_items (c : choice_delta) : list item := (IText <$> choice_texts c) ++ (ICall <$> choice_calls c).
Definition chunk_items (cs : list chat_frame) : list item := cs ≫= (fun c => cf_Choices c ≫= choice_items).

Definition item_texts (its : list item) : list string := omap (fun i => match i with IText s => Some s | _ => None end) its.
Definition item_calls (k : Z) (its : list item) : list call_delta :=
  omap (fun i => match i with ICall c => if cd_Index c =? k then Some c else None | _ => None end) its.
(** The argument fragments of a call, and the identity its first entry
    gives. *)
Definition call_arguments (k : Z) (its : list item) : list string := item_calls k its ≫= (fun c => nonempty (cd_Arguments c)).
Definition call_identity (k : Z) (its : list item) : option (string * string) :=
  (fun c => (cd_ID c, cd_Name c)) <$> head (item_calls k its).

Definition event_texts (es : list message_event) : list string :=
  omap (fun e => match e with EvTextDelta _ s => Some s | _ => None end) es.
Definition block_arguments (i : Z) (es : list message_event) : list string :=
  omap (fun e => match e with EvJSONDelta j s => if j =? i then Some s else None | _ => None end) es.
Definition block_identity (i : Z) (es : list message_event) : list (string * string) :=
  omap (fun e => match e with EvToolStart j id name => if j =? i then Some (id, name) else None | _ => None end) es.

Lemma item_texts_app a b : item_texts (a ++ b) = item_texts a ++ item_texts b.
Proof. apply omap_app. Qed.
Lemma item_calls_app k a b : item_calls k (a ++ b) = item_calls k a ++ item_calls k b.
Proof. apply omap_app. Qed.
Lemma event_texts_app a b : event_texts (a ++ b) = event_texts a ++ event_texts b.
Proof. apply omap_app. Qed.
Lemma block_arguments_app i a b : block_arguments i (a ++ b) = block_arguments i a ++ block_arguments i b.
Proof. apply omap_app. Qed.
Lemma block_identity_app i a b : block_identity i (a ++ b) = block_identity i a ++ block_identity i b.
Proof. apply omap_app. Qed.
Lemma call_arguments_snoc k its c :
  call_arguments k (its ++ [ICall c]) = call_arguments k its ++ (if cd_Index c =? k then nonempty (cd_Arguments c) else []).
Proof.
  unfold call_arguments. rewrite item_calls_app, bind_app. f_equal. cbn. destruct (cd_Index c =? k); [|done]. cbn. by rewrite app_nil_r.
Qed.
Lemma call_identity_snoc k its c :
  call_identity k (its ++ [ICall c]) =
  match call_identity k its with Some x => Some x | None => if cd_Index c =? k then Some (cd_ID c, cd_Name c) else None end.
Proof.
  unfold call_identity. rewrite item_calls_app. destruct (item_calls k its); [|done]. cbn. by destruct (cd_Index c =? k).
Qed.

(** The blocks of the translator against what it has conveyed. *)
Record conveys (its : list item) (t : openAIStreamTranslator) (out : list message_event) : Prop := {
  cv_texts : event_texts out = item_texts its;
  cv_call : forall k i, ot_toolIndices t !! k = Some i ->
    i < ot_nextIndex t /\ block_arguments i out = call_arguments k its /\
    exists id, call_identity k its = Some id /\ block_identity i out = [id];
  cv_new : forall k, ot_toolIndices t !! k = None -> item_calls k its = [];
  cv_inj : forall k k' i, ot_toolIndices t !! k = Some i -> ot_toolIndices t !! k' = Some i -> k = k';
  cv_fresh : forall i, ot_nextIndex t <= i -> block_arguments i out = [] /\ block_identity i out = [];
  cv_range : forall k i, ot_toolIndices t !! k = Some i -> 0 <= i;
  cv_next : 0 <= ot_nextIndex t;
}.

(** Events without content, which start no tool block. *)
Definition silent (e : message_event) : Prop :=
  match e with EvTextDelta _ _ | EvJSONDelta _ _ | EvToolStart _ _ _ => False | _ => True end.

Lemma conveys_silent its t t' out e :
  silent e -> conveys its t out -> ot_toolIndices t' = ot_toolIndices t -> ot_nextIndex t <= ot_nextIndex t' ->
  conveys its t' (out ++ [e]).
Proof.
  intros He [H1 H2 H3 H4 H5 H6 H7] Ht Hn.
  assert (Hq : event_texts [e] = [] /\ forall i, block_arguments i [e] = [] /\ block_identity i [e] = []).
  { destruct e; try done; cbn; split; done. }
  destruct Hq as [Hq1 Hq2]. split; rewrite ?Ht; try done; try lia.
  - by rewrite event_texts_app, Hq1, app_nil_r.
  - intros k i Hk. destruct (H2 k i Hk) as (? & ? & ?). destruct (Hq2 i) as [Ha Hb].
    rewrite block_arguments_app, block_identity_app, Ha, Hb, !app_nil_r. split_and!; [lia|done|done].
  - intros i Hi. destruct (Hq2 i) as [Ha Hb]. rewrite block_arguments_app, block_identity_app, Ha, Hb, !app_nil_r. apply H5. lia.
Qed.

Lemma conveys_same its t t' out :
  conveys its t out -> ot_toolIndices t' = ot_toolIndices t -> ot_nextIndex t' = ot_nextIndex t -> conveys its t' out.
Proof. intros [H1 H2 H3 H4 H5 H6 H7] Ht Hn. split; rewrite ?Ht, ?Hn; done. Qed.

Lemma conveys_stop its t out :
  conveys its t out -> conveys its (stopActiveBlock (t, out)).1 (stopActiveBlock (t, out)).2 /\
  ot_toolIndices (stopActiveBlock (t, out)).1 = ot_toolIndices t /\ ot_nextIndex (stopActiveBlock (t, out)).1 = ot_nextIndex t.
Proof.
  intros Hc. unfold stopActiveBlock. destruct (String.eqb (ot_activeType t) ""); [done|]. split; [|done].
  by eapply conveys_silent; [|exact Hc| |].
Qed.

Lemma conveys_text its t out text t' out' :
  conveys its t out -> text_out (t, out) text = inr (t', out') -> conveys (its ++ [IText text]) t' out'.
Proof.
  intros Hc H. unfold text_out in H. apply bind_err_inr in H as [[t1 out1] [Hs H]]. injection H as <- <-.
  assert (H1 : conveys its t1 out1).
  { unfold startBlock in Hs. destruct (_ && _); [by injection Hs as <- <-|].
    destruct (conveys_stop its t out Hc) as (H1 & H2 & H3). destruct (stopActiveBlock (t, out)) as [t2 out2]. simpl in *.
    injection Hs as <- <-. eapply conveys_silent; [done|exact H1|done|]. cbn. lia. }
  destruct H1 as [H1 H2 H3 H4 H5 H6 H7]. split; try done.
  - by rewrite event_texts_app, item_texts_app, H1.
  - intros k i Hk. destruct (H2 k i Hk) as (A & B & C). split; [done|]. rewrite block_arguments_app, block_identity_app. cbn.
    unfold call_arguments, call_identity in *. rewrite item_calls_app. cbn. by rewrite !app_nil_r.
  - intros k Hk. rewrite item_calls_app, H3 by done. done.
  - intros i Hi. rewrite block_arguments_app, block_identity_app. cbn. rewrite !app_nil_r. by apply H5.
Qed.

Definition argument_events (i : Z) (c : call_delta) : list message_event :=
  if String.eqb (cd_Arguments c) "" then [] else [EvJSONDelta i (cd_Arguments c)].

Lemma argument_events_spec i c :
  event_texts (argument_events i c) = [] /\ (forall j, block_identity j (argument_events i c) = []) /\
  (forall j, block_arguments j (argument_events i c) = if i =? j then nonempty (cd_Arguments c) else []).
Proof.
  unfold argument_events, nonempty. destruct (String.eqb (cd_Arguments c) ""); cbn; split_and!; try done.
  - intros j. by destruct (i =? j).
  - intros j. by destruct (i =? j).
Qed.

Lemma conveys_known its t out c i t' :
  conveys its t out -> ot_toolIndices t !! cd_Index c = Some i ->
  ot_toolIndices t' = ot_toolIndices t -> ot_nextIndex t' = ot_nextIndex t ->
  conveys (its ++ [ICall c]) t' (out ++ argument_events i c).
Proof.
  intros [H1 H2 H3 H4 H5 H6 H7] Hi Ht Hn. destruct (argument_events_spec i c) as (A1 & A2 & A3). split; rewrite ?Ht, ?Hn; try done.
  - by rewrite event_texts_app, A1, app_nil_r, item_texts_app, app_nil_r.
  - intros k j Hk. destruct (H2 k j Hk) as (B1 & B2 & id & B3 & B4). split_and!; [done| |].
    + rewrite block_arguments_app, call_arguments_snoc, A3, B2. f_equal.
      destruct (Z.eqb_spec i j) as [->|Hij], (Z.eqb_spec (cd_Index c) k) as [Hck|Hck]; try done.
      * by destruct Hck; eapply H4.
      * subst. congruence.
    + exists id. rewrite call_identity_snoc, B3, block_identity_app, A2, app_nil_r. done.
  - intros k Hk. rewrite item_calls_app, H3 by done. cbn. destruct (Z.eqb_spec (cd_Index c) k); [congruence|done].
  - intros j Hj. destruct (H5 j Hj) as [B1 B2]. rewrite block_arguments_app, block_identity_app, A2, A3, B1, B2.
    destruct (Z.eqb_spec i j) as [->|]; [|done]. destruct (H2 _ _ Hi). lia.
Qed.

Lemma conveys_opened its t out c t' :
  conveys its t out -> ot_toolIndices t !! cd_Index c = None ->
  ot_toolIndices t' = <[cd_Index c := ot_nextIndex t]> (ot_toolIndices t) -> ot_nextIndex t' = ot_nextIndex t + 1 ->
  conveys (its ++ [ICall c]) t'
    ((out ++ [EvToolStart (ot_nextIndex t) (cd_ID c) (cd_Name c)]) ++ argument_events (ot_nextIndex t) c).
Proof.
  intros [H1 H2 H3 H4 H5 H6 H7] Hnone Ht Hn. set (n := ot_nextIndex t) in *. destruct (argument_events_spec n c) as (A1 & A2 & A3).
  assert (Hnew : call_identity (cd_Index c) its = None) by (unfold call_identity; by rewrite H3).
  assert (Hargs : call_arguments (cd_Index c) its = []) by (unfold call_arguments; by rewrite H3).
  split; rewrite ?Ht, ?Hn; try lia.
  - rewrite !event_texts_app, A1, item_texts_app, H1. cbn. by rewrite !app_nil_r.
  - intros k j. destruct (decide (k = cd_Index c)) as [->|Hk].
    + rewrite lookup_insert_eq. intros [= <-]. destruct (H5 n) as [B1 B2]; [done|]. split_and!; [lia| |].
      * rewrite !block_arguments_app, call_arguments_snoc, A3, B1, Hargs, !Z.eqb_refl. done.
      * exists (cd_ID c, cd_Name c). rewrite call_identity_snoc, Hnew, !block_identity_app, A2, B2. cbn. by rewrite !Z.eqb_refl.
    + rewrite lookup_insert_ne by done. intros Hj. destruct (H2 k j Hj) as (B1 & B2 & id & B3 & B4). split_and!; [lia| |].
      * rewrite !block_arguments_app, call_arguments_snoc, A3, B2. cbn.
        rewrite (proj2 (Z.eqb_neq _ _)) by lia. by rewrite (proj2 (Z.eqb_neq _ _)), !app_nil_r by done.
      * exists id. rewrite call_identity_snoc, B3, !block_identity_app, A2, B4. cbn.
        rewrite (proj2 (Z.eqb_neq _ _)) by lia. done.
  - intros k. rewrite lookup_insert_None. intros [Hk Hne]. rewrite item_calls_app, H3 by done. cbn.
    by rewrite (proj2 (Z.eqb_neq _ _)).
  - intros k k' j. rewrite !lookup_insert_Some. intros [[<- <-]|[Hk Hj]] [[<- Hj']|[Hk' Hj']]; try done.
    + destruct (H2 _ _ Hj'). lia.
    + subst. destruct (H2 _ _ Hj). lia.
    + by eapply H4.
  - intros j Hj. destruct (H5 j) as [B1 B2]; [lia|]. rewrite !block_arguments_app, !block_identity_app, A2, A3, B1, B2. cbn.
    rewrite (proj2 (Z.eqb_neq _ _)) by lia. done.
  - intros k j. rewrite lookup_insert_Some. intros [[_ <-]|[_ Hj]]; [done|by eapply H6].
Qed.

Lemma conveys_call its t out c t' out' :
  conveys its t out -> call_out (t, out) c = inr (t', out') -> conveys (its ++ [ICall c]) t' out'.
Proof.
  intros Hc H. unfold call_out in H. cbv zeta in H. set (t0 := t <| ot_sawVisible := true |>) in H.
  assert (Hc0 : conveys its t0 out) by by eapply conveys_same.
  clearbody t0. apply bind_err_inr in H as [[[t1 out1] i] [Hf H]]. injection H as <- <-.
  assert (Hargs : (if String.eqb (cd_Arguments c) "" then out1 else out1 ++ [EvJSONDelta i (cd_Arguments c)]) = out1 ++ argument_events i c).
  { unfold argument_events. destruct (String.eqb (cd_Arguments c) ""); [by rewrite app_nil_r|done]. }
  rewrite Hargs.
  destruct (conveys_stop its t0 out Hc0) as (H1 & H2 & H3).
  destruct (ot_toolIndices t0 !! cd_Index c) as [j|] eqn:Hk.
  - destruct (_ || _).
    + destruct (stopActiveBlock (t0, out)) as [t2 out2]. simpl in *. injection Hf as <- <- <-.
      eapply conveys_known; [exact H1|by rewrite H2|done|done].
    + injection Hf as <- <- <-. by eapply conveys_known.
  - destruct (_ || _); [done|]. apply bind_err_inr in Hf as [[t2 out2] [Hs Hf]]. injection Hf as <- <- <-.
    unfold startBlock in Hs. destruct (_ && _) eqn:Hsame; [by rewrite andb_false_r in Hsame|].
    destruct (stopActiveBlock (t0, out)) as [t3 out3]. simpl in *. destruct (_ || _); [done|]. injection Hs as <- <-.
    eapply conveys_opened; [exact H1|by rewrite H2|cbn; by rewrite H2|done].
Qed.

Lemma conveys_calls its t out calls t' out' :
  conveys its t out -> calls_out (t, out) calls = inr (t', out') -> conveys (its ++ (ICall <$> calls)) t' out'.
Proof.
  revert its t out. induction calls as [|c calls IH]; intros its t out Hc H; simpl in H.
  - injection H as <- <-. by rewrite app_nil_r.
  - apply bind_err_inr in H as [[t1 out1] [H1 H]]. apply (conveys_call _ _ _ _ _ _ Hc) in H1. apply (IH _ _ _ H1) in H.
    by rewrite <- (assoc_L _) in H.
Qed.

Lemma conveys_choice its t out c t' out' :
  conveys its t out -> choice_out (t, out) c = inr (t', out') -> conveys (its ++ choice_items c) t' out'.
Proof.
  intros Hc H. unfold choice_out in H. unfold choice_items, choice_texts, choice_calls. destruct (dl_Index c =? 0); simpl in H.
  2: { injection H as <- <-. by rewrite app_nil_r. }
  apply bind_err_inr in H as [[t1 out1] [H1 H]]. apply bind_err_inr in H as [[t2 out2] [H2 H]]. apply bind_err_inr in H as [[t3 out3] [H3 H]].
  set (t0 := if String.eqb (dl_Reasoning c) "" then t else _) in H1.
  assert (Hc0 : conveys its t0 out) by (unfold t0; destruct (String.eqb (dl_Reasoning c) ""); [done|by eapply conveys_same]).
  clearbody t0. rewrite fmap_app.
  assert (Hc1 : conveys (its ++ (IText <$> nonempty (default "" (streamText (dl_Content c))))) t1 out1).
  { unfold nonempty. destruct (streamText (dl_Content c)) as [text|]; simpl in *.
    - destruct (String.eqb text ""); [injection H1 as <- <-; by rewrite app_nil_r|]. by eapply conveys_text.
    - injection H1 as <- <-. by rewrite app_nil_r. }
  assert (Hc2 : conveys ((its ++ (IText <$> nonempty (default "" (streamText (dl_Content c))))) ++ (IText <$> nonempty (dl_Refusal c))) t2 out2).
  { unfold nonempty at 2. destruct (String.eqb (dl_Refusal c) "") eqn:Hr.
    - injection H2 as <- <-. by rewrite app_nil_r.
    - apply bind_err_inr in H2 as [[t4 out4] [H2 H4]]. injection H4 as <- <-. eapply conveys_same; [by eapply conveys_text|done|done]. }
  apply (conveys_calls _ _ _ _ _ _ Hc2) in H3. rewrite <- !(assoc_L _) in H3. rewrite <- (assoc_L _).
  destruct (no_reason (dl_Finish c)); injection H as <- <-; [done|]. by eapply conveys_same.
Qed.

Lemma conveys_choices its t out cs t' out' :
  conveys its t out -> choices_out (t, out) cs = inr (t', out') -> conveys (its ++ (cs ≫= choice_items)) t' out'.
Proof.
  revert its t out. induction cs as [|c cs IH]; intros its t out Hc H; simpl in H.
  - injection H as <- <-. by rewrite app_nil_r.
  - apply bind_err_inr in H as [[t1 out1] [H1 H]]. apply (conveys_choice _ _ _ _ _ _ Hc) in H1. apply (IH _ _ _ H1) in H.
    by rewrite <- (assoc_L _) in H.
Qed.

(** ** Output that grows

    The functions of the translator append to the output, whatever it is. *)

Section shift.
Context (pre : list message_event).

Definition shifts (f : openAIStreamTranslator * list message_event -> translate_error + (openAIStreamTranslator * list message_event)) : Prop :=
  forall t out t' out', f (t, out) = inr (t', out') -> f (t, pre ++ out) = inr (t', pre ++ out').

Lemma shift_bind f g : shifts f -> shifts g -> shifts (fun s => let! s := f s in g s).
Proof.
  intros Hf Hg t out t' out' H. apply bind_err_inr in H as [[t1 out1] [H1 H]]. apply Hf in H1. apply Hg in H. by rewrite H1.
Qed.

Lemma shift_stop t out :
  stopActiveBlock (t, pre ++ out) = ((stopActiveBlock (t, out)).1, pre ++ (stopActiveBlock (t, out)).2).
Proof. unfold stopActiveBlock. destruct (String.eqb (ot_activeType t) ""); [done|]. simpl. by rewrite (assoc_L _). Qed.

Lemma shift_start ty id name : shifts (fun s => startBlock s ty id name).
Proof.
  intros t out t' out'. unfold startBlock. cbn [fst]. destruct (_ && _); [by intros [= -> ->]|]. rewrite shift_stop.
  destruct (stopActiveBlock (t, out)) as [t1 out1]. cbn [fst snd].
  destruct (String.eqb ty "text"); [|destruct (_ || _); [done|]]; intros [= <- <-]; by rewrite (assoc_L _).
Qed.

Lemma shift_text text : shifts (fun s => text_out s text).
Proof.
  intros t out t' out' H. unfold text_out in *. apply bind_err_inr in H as [[t1 out1] [H1 H]]. apply shift_start in H1. rewrite H1.
  injection H as <- <-. cbn. by rewrite (assoc_L _).
Qed.

Lemma shift_call c : shifts (fun s => call_out s c).
Proof.
  intros t out t' out' H. unfold call_out in *. cbv zeta in *. set (t0 := t <| ot_sawVisible := true |>) in *. clearbody t0.
  apply bind_err_inr in H as [[[t1 out1] i] [Hf H]]. injection H as <- <-.
  assert (Hgoal : forall x, x = inr (t1, pre ++ out1, i) -> (let! found := x in
    let '(t2, out2, index) := found in
    inr (A := translate_error) (t2, if String.eqb (cd_Arguments c) "" then out2 else out2 ++ [EvJSONDelta index (cd_Arguments c)])) =
    inr (t1, pre ++ (if String.eqb (cd_Arguments c) "" then out1 else out1 ++ [EvJSONDelta i (cd_Arguments c)]))).
  { intros x ->. cbn. destruct (String.eqb (cd_Arguments c) ""); [done|by rewrite (assoc_L _)]. }
  apply Hgoal. destruct (ot_toolIndices t0 !! cd_Index c) as [j|].
  - destruct (_ || _); [|by injection Hf as <- <- <-]. rewrite shift_stop.
    destruct (stopActiveBlock (t0, out)) as [t2 out2]. cbn in *. by injection Hf as <- <- <-.
  - destruct (_ || _); [done|]. apply bind_err_inr in Hf as [[t2 out2] [Hs Hf]]. apply shift_start in Hs. rewrite Hs.
    injection Hf as <- <- <-. done.
Qed.

Lemma shift_calls calls : shifts (fun s => calls_out s calls).
Proof.
  induction calls as [|c calls IH]; [by intros t out t' out' [= -> ->]|]. apply (shift_bind (fun s => call_out s c)); [apply shift_call|exact IH].
Qed.

Lemma shift_choice c : shifts (fun s => choice_out s c).
Proof.
  intros t out t' out' H. unfold choice_out in *. destruct (negb _); [by injection H as <- <-|].
  set (t0 := if String.eqb (dl_Reasoning c) "" then t else _) in *. clearbody t0.
  apply bind_err_inr in H as [[t1 out1] [H1 H]]. apply bind_err_inr in H as [[t2 out2] [H2 H]]. apply bind_err_inr in H as [[t3 out3] [H3 H]].
  assert (E1 : match streamText (dl_Content c) with
               | Some text => if String.eqb text "" then inr (t0, pre ++ out) else text_out (t0, pre ++ out) text
               | None => inr (t0, pre ++ out)
               end = inr (t1, pre ++ out1)).
  { destruct (streamText _) as [text|]; [|by injection H1 as <- <-].
    destruct (String.eqb text ""); [by injection H1 as <- <-|]. by apply shift_text. }
  rewrite E1. cbn [bind_err].
  assert (E2 : (if String.eqb (dl_Refusal c) "" then inr (t1, pre ++ out1)
                else let! s := text_out (t1, pre ++ out1) (dl_Refusal c) in
                     inr (s.1 <| ot_omitted := ot_omitted s.1 ++ ["choices[0].delta.refusal"] |>, s.2)) = inr (t2, pre ++ out2)).
  { destruct (String.eqb (dl_Refusal c) ""); [by injection H2 as <- <-|].
    apply bind_err_inr in H2 as [[t4 out4] [H2 H4]]. injection H4 as <- <-. apply shift_text in H2. by rewrite H2. }
  rewrite E2. cbn [bind_err]. apply shift_calls in H3. rewrite H3. cbn.
  by destruct (no_reason (dl_Finish c)); injection H as <- <-.
Qed.

Lemma shift_choices cs : shifts (fun s => choices_out s cs).
Proof.
  induction cs as [|c cs IH]; [by intros t out t' out' [= -> ->]|]. apply (shift_bind (fun s => choice_out s c)); [apply shift_choice|exact IH].
Qed.
End shift.

(** ** Whole streams *)

Lemma updateUsage_blocks t raw :
  ot_toolIndices (updateUsage t raw) = ot_toolIndices t /\ ot_nextIndex (updateUsage t raw) = ot_nextIndex t.
Proof.
  unfold updateUsage. destruct (raw_blank raw); [done|]. destruct (unmarshal_raw _ _ _); [|done].
  by destruct (any_count _ "prompt_tokens"), (any_count _ "completion_tokens").
Qed.

Lemma conveys_chunk its t pre c t' out :
  conveys its t pre -> openai_chunk t c = inr (t', out) -> conveys (its ++ (cf_Choices c ≫= choice_items)) t' (pre ++ out).
Proof.
  intros Hc H. unfold openai_chunk in H. cbv zeta in H. set (t1 := updateUsage _ _) in H.
  assert (Hc1 : conveys its t1 pre).
  { destruct (updateUsage_blocks (if String.eqb (cf_Model c) "" then if String.eqb (cf_ID c) "" then t else t <| ot_id := cf_ID c |>
      else (if String.eqb (cf_ID c) "" then t else t <| ot_id := cf_ID c |>) <| ot_model := cf_Model c |>) (cf_Usage c)) as [H1 H2].
    eapply conveys_same; [exact Hc| |]; unfold t1; rewrite ?H1, ?H2;
      by destruct (String.eqb (cf_Model c) ""), (String.eqb (cf_ID c) ""). }
  clearbody t1. destruct (ot_started t1).
  - apply (shift_choices pre) in H. rewrite app_nil_r in H. by eapply conveys_choices.
  - apply (shift_choices pre) in H. eapply conveys_choices; [|exact H]. by eapply conveys_silent; [|exact Hc1| |].
Qed.

Lemma conveys_chunks its t pre cs t' out :
  conveys its t pre -> openai_chunks (t, pre) cs = inr (t', out) -> conveys (its ++ chunk_items cs) t' out.
Proof.
  revert its t pre. induction cs as [|c cs IH]; intros its t pre Hc H; simpl in H.
  - injection H as <- <-. by rewrite app_nil_r.
  - apply bind_err_inr in H as [[t1 out1] [H1 H]]. apply (conveys_chunk _ _ _ _ _ _ Hc) in H1. apply (IH _ _ _ H1) in H.
    by rewrite <- (assoc_L _) in H.
Qed.

Lemma conveys_new model : conveys [] (newOpenAIStreamTranslator model) [].
Proof. split; try done. Qed.

Lemma terminal_silent t t' tail :
  openai_terminal t = inr (t', tail) -> event_texts tail = [] /\ forall i, block_arguments i tail = [] /\ block_identity i tail = [].
Proof.
  unfold openai_terminal. destruct (_ || _); [done|]. destruct (_ && _); [done|]. intros H. apply bind_err_inr in H as [reason [_ H]].
  unfold stopActiveBlock in H. destruct (String.eqb (ot_activeType t) ""); by injection H as <- <-.
Qed.
