(* ===== verification/StreamFacts.v ===== *)
(** * What a stream delivers

    The reader hands every frame of the provider on, in order and unchanged,
    and answers only a complete stream ([read_spec]); what the delivery does
    with the frames follows by induction over them. *)

From S2P Require Import Prelude GoStrings Json StreamCall.

(** ** Strings and bytes *)

Lemma append_cons c (s t : string) : String c s +:+ t = String c (s +:+ t).
Proof. done. Qed.

Lemma append_nil (s : string) : s +:+ "" = s.
Proof. induction s as [|c s IH]; [done|]. by rewrite append_cons, IH. Qed.

Lemma append_assoc (s t u : string) : (s +:+ t) +:+ u = s +:+ t +:+ u.
Proof. induction s as [|c s IH]; [done|]. by rewrite !append_cons, IH. Qed.

Lemma string_of_bytes_app l k : string_of_bytes (l ++ k) = string_of_bytes l +:+ string_of_bytes k.
Proof.
  unfold string_of_bytes. rewrite fmap_app. induction (ascii_of_byte <$> l) as [|a m IH]; [done|].
  cbn [app String.string_of_list_ascii]. by rewrite IH.
Qed.

Lemma concat_string_app (l k : list string) : String.concat "" (l ++ k) = String.concat "" l +:+ String.concat "" k.
Proof.
  assert (Hc : forall x (m : list string), String.concat "" (x :: m) = x +:+ String.concat "" m).
  { intros x [|y m]; simpl; [by rewrite append_nil|done]. }
  induction l as [|x l IH]; [done|]. change ((x :: l) ++ k) with (x :: (l ++ k)). by rewrite !Hc, IH, append_assoc.
Qed.

Lemma concat_string_snoc (l : list string) x : String.concat "" (l ++ [x]) = String.concat "" l +:+ x.
Proof. apply concat_string_app. Qed.

(** [s] begins with [p]. *)
Definition begins (p s : string) : Prop := exists rest, s = p +:+ rest.

Section read.
Context (ToLower : string -> string) {E S : Type} (emit : S -> string -> S * option E).
Context (protocol : string) (StreamBytes EventBytes : Z).

(** The consumer takes all of [frames]. *)
Fixpoint feed (s : S) (frames : list string) : option S :=
  match frames with
  | [] => Some s
  | f :: frames => match emit s f with (s', None) => feed s' frames | _ => None end
  end.

Lemma feed_snoc s frames f s' : feed s frames = Some s' -> feed s (frames ++ [f]) = match emit s' f with (s2, None) => Some s2 | _ => None end.
Proof.
  revert s. induction frames as [|g frames IH]; intros s; simpl.
  - intros [= ->]. by destruct (emit s' f) as [? []].
  - destruct (emit s g) as [s1 []]; [done|]. apply IH.
Qed.

Abbreviation outcome := (stream_error E + (TokenUsage * string))%type (only parsing).
Abbreviation read_line := (read_line ToLower emit protocol StreamBytes EventBytes) (only parsing).
Abbreviation read_lines := (read_lines ToLower emit protocol StreamBytes EventBytes) (only parsing).

Definition data_of (raw : string) : string * string :=
  let '(event, data) := frame_fields trim_one raw in (event, Strings.Join data nl).

(** Data that ends the stream once the reader has seen a start and a
    finish. *)
Definition terminal_data (data : string) : Prop :=
  if String.eqb protocol "openai" then data = "[DONE]"
  else exists obj, StrictMap ToLower data = Some obj /\ raw_string (obj !! "type") = Some "message_stop".

(** Data that gives a reason to finish: of the first choice, or of the
    message. *)
Definition finishing_data (data : string) : Prop :=
  exists obj, StrictMap ToLower data = Some obj /\
    if String.eqb protocol "openai" then
      exists cs c, unmarshal_raw (dec_slice no_chunk_choice dec_chunk_choice) [] (obj !! "choices") = Some cs /\
        c ∈ cs /\ chunk_Index c = 0 /\ no_reason (chunk_Finish c) = false
    else
      raw_string (obj !! "type") = Some "message_delta" /\
      exists stop, unmarshal_raw dec_stop_delta None (obj !! "delta") = Some stop /\ no_reason stop = false.

Lemma read_chunk_finished obj r r' :
  read_chunk obj r = inr r' -> read_finished r' = true -> read_finished r = true \/
  exists cs c, unmarshal_raw (dec_slice no_chunk_choice dec_chunk_choice) [] (obj !! "choices") = Some cs /\
    c ∈ cs /\ chunk_Index c = 0 /\ no_reason (chunk_Finish c) = false.
Proof.
  unfold read_chunk. destruct (unmarshal_raw _ _ _) as [cs|] eqn:Hc; [|done]. destruct (negb _); [done|].
  destruct (merge_usage _ _) as [u|]; [|done]. intros [= <-]. cbn. intros [H|H]%orb_true_iff; [by left|]. right.
  apply existsb_exists in H as (c & Hin & [H1%Z.eqb_eq H2%negb_true_iff]%andb_true_iff).
  exists cs, c. split_and!; try done. by apply list_elem_of_In.
Qed.

Lemma read_event_spec kind obj r r' fin :
  read_event ToLower kind obj r = inr (r', fin) ->
  (fin = true -> kind = "message_stop" /\ read_finished r = true) /\
  (read_finished r' = true -> read_finished r = true \/
     kind = "message_delta" /\ exists stop, unmarshal_raw dec_stop_delta None (obj !! "delta") = Some stop /\ no_reason stop = false) /\
  read_frame r' = read_frame r /\ read_total r' = read_total r.
Proof.
  unfold read_event.
  repeat (match goal with |- context [if String.eqb kind ?k then _ else _] => destruct (String.eqb_spec kind k) as [->|?] end).
  - destruct (read_started r); [done|]. destruct (unmarshal_raw _ _ _); [|done]. destruct (merge_usage _ _); [|done].
    destruct (negb _); [done|]. destruct (_ && _); [done|]. intros [= <- <-]. cbn. by split_and!; auto.
  - destruct (_ && _); [|done]. intros [= <- <-]. by split_and!; auto.
  - destruct (negb _); [done|]. destruct (unmarshal_raw _ _ _) as [stop|]; [|done]. destruct (merge_usage _ _); [|done].
    intros [= <- <-]. cbn. split_and!; [done| |done|done]. intros [H|H%negb_true_iff]%orb_true_iff; [by left|right; eauto].
  - destruct (read_started r), (read_finished r) eqn:Hf; try done. intros [= <- <-]. by split_and!; auto.
  - intros [= <- <-]. by split_and!; auto.
  - destruct (read_started r); [|done]. intros [= <- <-]. by split_and!; auto.
Qed.

Lemma read_data_spec event data r r' fin :
  read_data (E := E) ToLower protocol event data r = inr (r', fin) ->
  (fin = true -> terminal_data data /\ read_finished r = true) /\
  (read_finished r' = true -> read_finished r = true \/ finishing_data data) /\ read_frame r' = read_frame r /\
  read_total r' = read_total r.
Proof.
  unfold read_data, terminal_data, finishing_data. destruct (String.eqb event "error"); [done|]. destruct (_ && negb _ && negb _); [done|].
  destruct (String.eqb protocol "openai") eqn:Hp; simpl.
  - destruct (String.eqb_spec data "[DONE]") as [->|].
    { destruct (read_started r), (read_finished r) eqn:Hf; try done. intros [= <- <-]. split_and!; auto. }
    destruct (StrictMap ToLower data) as [obj|]; [|done]. destruct (_ && _ && _); [done|]. destruct (_ || _); [done|].
    destruct (read_chunk obj r) as [|r1] eqn:Hc; [done|]. intros [= <- <-].
    assert (read_frame r1 = read_frame r /\ read_total r1 = read_total r) as [? ?].
    { unfold read_chunk in Hc. destruct (unmarshal_raw _ _ _); [|done]. destruct (negb _); [done|].
      destruct (merge_usage _ _); [|done]. by injection Hc as <-. }
    split_and!; try done. intros Hf. destruct (read_chunk_finished _ _ _ Hc Hf) as [?|(cs & c & ?)]; [by left|right].
    exists obj. split; [done|]. eauto.
  - destruct (StrictMap ToLower data) as [obj|]; [|done]. destruct (_ && _ && _); [done|]. destruct (_ || _); [done|].
    destruct (read_event _ _ obj r) as [|[r1 b]] eqn:Hc; [done|]. intros [= <- <-].
    destruct (read_event_spec _ _ _ _ _ Hc) as (H1 & H2 & H3 & H4). split_and!; try done.
    + intros Hb. destruct (H1 Hb) as [Hk ?]. split; [|done]. exists obj. split; [done|].
      destruct (raw_string (obj !! "type")); [by simpl in Hk; subst|done].
    + intros Hf. destruct (H2 Hf) as [?|[Hk ?]]; [by left|right]. exists obj. split; [done|].
      destruct (raw_string (obj !! "type")); [by simpl in Hk; subst|done].
Qed.

(** ** The loop over the lines *)

(** A frame on the wire: whole lines that are not blank, and a blank one. *)
Definition blank (l : string) : Prop := TrimSuffix (TrimSuffix l nl) cr = "".
Definition whole_line (l : string) : Prop := exists bs, l = string_of_bytes (bs ++ [newline]) /\ newline ∉ bs.
Definition inner_lines (f : string) : Prop := exists ls, f = String.concat "" ls /\ Forall (fun l => whole_line l /\ ~ blank l) ls.
Definition framed (f : string) : Prop := exists before last, f = before +:+ last /\ inner_lines before /\ blank last /\ last <> "".
Definition frame_within (f : string) : Prop := Strings.len f <= EventBytes /\ framed f.

Lemma inner_snoc f l : inner_lines f -> whole_line l -> ~ blank l -> inner_lines (f +:+ l).
Proof.
  intros (ls & -> & Hl) H1 H2. exists (ls ++ [l]). split; [by rewrite concat_string_snoc|].
  apply Forall_app. split; [done|]. by repeat constructor.
Qed.

(** What a call of the loop has done, for a reader whose frame began with
    [r]: the frames it handed on, and how it ended. *)
Definition finished_by (r : reader) (frames : list string) : Prop :=
  read_finished r = true \/ exists f, f ∈ frames /\ finishing_data (data_of f).2.

Definition read_outcome (r : reader) (s : S) (body : string) (s' : S) (res : outcome) : Prop :=
  exists frames, Forall frame_within frames /\
    match res with
    | inr (u, raw) =>
        feed s frames = Some s' /\ begins (String.concat "" frames +:+ raw) (read_frame r +:+ body) /\ frame_within raw /\
        terminal_data (data_of raw).2 /\ finished_by r frames /\
        exists m, ParseUsage protocol m = inr u
    | inl (EmitError e) =>
        exists s1 f, feed s frames = Some s1 /\ emit s1 f = (s', Some e) /\
          begins (String.concat "" frames +:+ f) (read_frame r +:+ body)
    | inl _ => feed s frames = Some s' /\ begins (String.concat "" frames) (read_frame r +:+ body)
    end.

Lemma begins_nil s : begins "" s.
Proof. by exists s. Qed.

Lemma begins_app p s rest : begins p s -> begins p (s +:+ rest).
Proof. intros [t ->]. exists (t +:+ rest). by rewrite append_assoc. Qed.

Lemma begins_cons f p s : begins p s -> begins (f +:+ p) (f +:+ s).
Proof. intros [t ->]. exists t. by rewrite append_assoc. Qed.

Lemma begins_refl s : begins s s.
Proof. exists "". by rewrite append_nil. Qed.

(** Nothing has been handed on. *)
Lemma outcome_fail r s body e : (forall x, e <> EmitError x) -> read_outcome r s body s (inl e).
Proof. intros He. exists []. split; [by constructor|]. destruct e; [| |by destruct (He e)]; by split; [|apply begins_nil]. Qed.

(** A reader that has handed on [raw] and goes on. *)
Lemma outcome_emit r r1 s s1 raw rest s' res :
  emit s raw = (s1, None) -> read_frame r1 = "" -> frame_within raw ->
  (read_finished r1 = true -> read_finished r = true \/ finishing_data (data_of raw).2) ->
  read_outcome r1 s1 rest s' res ->
  read_outcome (r <| read_frame := "" |>) s (raw +:+ rest) s' res.
Proof.
  intros He Hr Hw Hfin (frames & Hall & H). exists (raw :: frames). split; [by constructor|].
  assert (Hcat : forall x, String.concat "" (raw :: frames) +:+ x = raw +:+ String.concat "" frames +:+ x).
  { intros x. change (raw :: frames) with ([raw] ++ frames). by rewrite concat_string_app, append_assoc. }
  assert (Hcat0 : String.concat "" (raw :: frames) = raw +:+ String.concat "" frames).
  { rewrite <- (append_nil (String.concat "" (raw :: frames))), Hcat. by rewrite append_nil. }
  assert (Hfeed : feed s (raw :: frames) = feed s1 frames) by (simpl; by rewrite He).
  rewrite Hr in H. change (read_frame (r <| read_frame := "" |>)) with "". change ("" +:+ (raw +:+ rest)) with (raw +:+ rest).
  change ("" +:+ rest) with rest in H. destruct res as [[code|data|e]|[u raw']]; rewrite Hfeed.
  - destruct H as [H1 H2]. split; [done|]. rewrite Hcat0. by apply begins_cons.
  - destruct H as [H1 H2]. split; [done|]. rewrite Hcat0. by apply begins_cons.
  - destruct H as (s2 & f & H1 & H2 & H3). exists s2, f. split_and!; try done. rewrite Hcat. by apply begins_cons.
  - destruct H as (H1 & H2 & H3 & H4 & H5 & H6). split_and!; try done.
    + rewrite Hcat. by apply begins_cons.
    + destruct H5 as [H5|(f & Hf & H5)].
      * destruct (Hfin H5) as [?|?]; [by left|]. right. exists raw. split; [by left|done].
      * right. exists f. split; [by right|done].
Qed.

(** A line inside a frame: the reader has grown. *)
Lemma outcome_grow r r1 s line rest s' res :
  read_frame r1 = read_frame r +:+ line -> read_finished r1 = read_finished r ->
  read_outcome r1 s rest s' res -> read_outcome r s (line +:+ rest) s' res.
Proof.
  intros Hr Hf (frames & Hall & H). exists frames. split; [done|]. rewrite Hr, append_assoc in H. unfold finished_by in *.
  by rewrite Hf in H.
Qed.

Lemma read_line_spec r s line rest :
  inner_lines (read_frame r) -> line <> "" -> (whole_line line \/ rest = "") ->
  match read_line r s line with
  | Next r1 s1 =>
      (inner_lines (read_frame r1) \/ rest = "") /\
      forall s' res, read_outcome r1 s1 rest s' res -> read_outcome r s (line +:+ rest) s' res
  | Stop s1 res => read_outcome r s (line +:+ rest) s1 res
  end.
Proof.
  intros Hin Hne Hwhole.
  unfold Streams.read_line. cbn zeta. destruct (_ <? _); [by apply outcome_fail|]. destruct (EventBytes <? _) eqn:Hw; [by apply outcome_fail|].
  apply Z.ltb_ge in Hw. cbn in Hw. set (r0 := (r <| read_total := _ |>) <| read_frame := _ |>).
  destruct (String.eqb_spec (TrimSuffix (TrimSuffix line nl) cr) "") as [Hblank|Hblank]; cbn [negb];
    [|split; [destruct Hwhole; [left; by apply inner_snoc|by right]|intros s' res; by apply outcome_grow]].
  change (read_frame r0) with (read_frame r +:+ line). set (raw := read_frame r +:+ line) in *.
  assert (Hraw : frame_within raw) by (split; [done|by exists (read_frame r), line]). clear Hblank.
  assert (Hout : forall s1 res, read_outcome (r <| read_frame := "" |>) s (raw +:+ rest) s1 res ->
                                read_outcome r s (line +:+ rest) s1 res).
  { intros s1 res (frames & Hall & H). exists frames. split; [done|]. unfold raw in H. rewrite append_assoc in H.
    change (read_frame (r <| read_frame := "" |>)) with "" in H. by change ("" +:+ ?x) with x in H. }
  assert (Hemit : forall r1, read_frame r1 = "" -> (read_finished r1 = true -> read_finished r = true \/ finishing_data (data_of raw).2) ->
    match emit_frame emit r1 s raw with
    | Next r1 s1 => (inner_lines (read_frame r1) \/ rest = "") /\ forall s' res, read_outcome r1 s1 rest s' res -> read_outcome r s (line +:+ rest) s' res
    | Stop s1 res => read_outcome r s (line +:+ rest) s1 res
    end).
  { intros r1 Hr1 Hf1. unfold emit_frame. destruct (emit s raw) as [s1 [e|]] eqn:He.
    - apply Hout. exists []. split; [by constructor|]. exists s, raw. split_and!; [done|done|]. exists rest. done.
    - split; [left; rewrite Hr1; by exists []|]. intros s' res H. apply Hout. by eapply outcome_emit. }
  destruct (frame_fields trim_one raw) as [event data] eqn:Hd.
  assert (Hdata : (data_of raw).2 = Strings.Join data nl) by (unfold data_of; by rewrite Hd).
  destruct data as [|d data]; [by apply Hemit; [|left]|].
  destruct (read_data _ _ _ _ _) as [e|[r1 fin]] eqn:Hr1.
  { apply Hout, outcome_fail. intros x ->. unfold read_data in Hr1. repeat case_match; congruence. }
  apply read_data_spec in Hr1 as (Ht & Hfin & Hframe & _). rewrite <- Hdata in Ht, Hfin. destruct fin.
  - destruct (Ht eq_refl) as [Hterm Hfinished]. destruct (ParseUsage _ _) as [|u] eqn:Hu; [by apply Hout, outcome_fail|].
    apply Hout. exists []. split; [by constructor|]. split_and!; [done| |done|done|by left|by eexists]. exists rest. done.
  - apply Hemit; [by rewrite Hframe|]. intros H. destruct (Hfin H) as [?|?]; [by left|by right].
Qed.

Lemma take_line_app n l line rest : take_line n l = Some (line, rest) ->
  l = line ++ rest /\ exists bs, line = bs ++ [newline] /\ newline ∉ bs.
Proof.
  revert l line rest. induction n as [|n IH]; intros [|b l] line rest; simpl; try done.
  destruct (Z.eqb_spec b newline) as [->|Hb]; [intros [= <- <-]; split; [done|]; exists []; split; [done|]; apply not_elem_of_nil|].
  destruct (take_line n l) as [[line' rest']|] eqn:Hl; [|done].
  simpl. intros [= <- <-]. destruct (IH _ _ _ Hl) as (-> & bs & -> & Hbs). split; [done|]. exists (b :: bs). split; [done|].
  apply not_elem_of_cons. by split.
Qed.

Lemma scan_line_spec body line rest :
  scan_line EventBytes body = Line line rest ->
  string_of_bytes body = line +:+ string_of_bytes rest /\ (length rest < length body)%nat /\
  line <> "" /\ (whole_line line \/ rest = []).
Proof.
  unfold scan_line. destruct (take_line _ body) as [[l r]|] eqn:Hl.
  - intros [= <- <-]. apply take_line_app in Hl as (-> & bs & -> & Hn). rewrite string_of_bytes_app. split; [done|].
    rewrite !length_app. split; [simpl; lia|]. split; [by destruct bs|]. left. by exists bs.
  - destruct (_ <=? _)%nat; [done|]. case_bool_decide as Hn; [done|]. intros [= <- <-]. split; [by rewrite append_nil|].
    destruct body; [done|]. split_and!; [simpl; lia|done|by right].
Qed.

Lemma read_lines_spec fuel ending body r s s' res :
  inner_lines (read_frame r) \/ body = [] ->
  read_lines fuel ending body r s = (s', res) -> read_outcome r s (string_of_bytes body) s' res.
Proof.
  revert body r s. induction fuel as [|fuel IH]; intros body r s Hr; simpl; [intros [= <- <-]; by apply outcome_fail|].
  destruct (scan_line EventBytes body) as [line rest| |] eqn:Hl; [|intros [= <- <-]; by apply outcome_fail..].
  apply scan_line_spec in Hl as (Hb & Hlt & Hne & Hwhole). rewrite Hb.
  destruct Hr as [Hr| ->]; [|simpl in Hlt; lia].
  assert (Hw : whole_line line \/ string_of_bytes rest = "") by (destruct Hwhole as [?| ->]; [by left|by right]).
  pose proof (read_line_spec r s line (string_of_bytes rest) Hr Hne Hw) as Hs.
  destruct (read_line r s line) as [r1 s1|s1 res1]; [|by intros [= <- <-]]. intros H. destruct Hs as [Hopen Hs]. apply Hs, IH; [|done].
  destruct Hopen as [?|Hrest]; [by left|right; by destruct rest].
Qed.

(** Enough fuel: the loop ends by itself, so a failure has one of the code's
    reasons. *)
Lemma read_lines_ends fuel ending body r s :
  (length body < fuel)%nat -> (read_lines fuel ending body r s).2 <> inl (StreamFailure "").
Proof.
  assert (Hd : forall event data r, read_data (E := E) ToLower protocol event data r <> inl (StreamFailure "")).
  { intros event data r0. unfold read_data, read_chunk, read_event. cbn zeta. repeat case_match; congruence. }
  revert body r s. induction fuel as [|fuel IH]; intros body r s Hf; [lia|]. simpl.
  destruct (scan_line EventBytes body) as [line rest| |] eqn:Hl; [|done|by destruct ending].
  apply scan_line_spec in Hl as (_ & Hl & _). destruct (read_line r s line) as [r1 s1|s1 res1] eqn:Hr; [apply IH; lia|].
  simpl. intros ->. revert Hr. unfold Streams.read_line. cbn zeta. destruct (_ <? _); [done|]. destruct (_ <? _); [done|].
  destruct (negb _); [done|]. destruct (frame_fields _ _) as [event [|d data]].
  { unfold emit_frame. by destruct (emit _ _) as [? []]. }
  destruct (read_data _ _ _ _ _) as [e|[r2 []]] eqn:Hdata.
  - intros [= <- ->]. by destruct (Hd _ _ _ Hdata).
  - by destruct (ParseUsage _ _).
  - unfold emit_frame. by destruct (emit _ _) as [? []].
Qed.

(** The outcome of a whole read. *)
Lemma read_spec body ending s s' res :
  readStreamWithLimits ToLower emit protocol StreamBytes EventBytes body ending s = (s', res) ->
  read_outcome new_reader s (string_of_bytes body) s' res.
Proof.
  unfold readStreamWithLimits. intros H. apply read_lines_spec in H as (frames & Hall & H); [|left; by exists []]. exists frames. split; [done|].
  assert (Hb : forall p, begins p (string_of_bytes (take (Z.to_nat (StreamBytes + 1)) body)) -> begins p (string_of_bytes body)).
  { intros p Hp. rewrite <- (take_drop (Z.to_nat (StreamBytes + 1)) body), string_of_bytes_app. by apply begins_app. }
  change (read_frame new_reader +:+ ?x) with x in *. destruct res as [[]|[u raw]]; naive_solver.
Qed.
End read.
