(* ===== verification/StreamClaims.v ===== *)
(** * Properties of a delivered stream

    Theorems about [stream_attempt]: what the client has been given when a
    stream ends in any way, and what the caller is given for the end of it. *)

From S2P Require Import Prelude GoStrings Json StreamCall StreamTypes StreamContent StreamFacts.

Local Arguments streamSignalsCompletion : simpl never.

(** ** The output of the delivery *)

(** What has been handed to the client, and what is held back for it. *)
Definition delivered (d : delivery) : string := String.concat "" (dv_sent d) +:+ dv_completion d.

Section deliver.
Context (ToLower : string -> string) (clientProtocol ResponseModel : string) (StreamBytes : Z).
Context (sink : list string -> string -> bool).
Local Abbreviation deliver := (deliver ToLower clientProtocol ResponseModel StreamBytes sink) (only parsing).

(** The translator over the frames of a stream, with its output. *)
Fixpoint translate_frames (t : option streamTranslator) (frames : list string) : translate_error + (option streamTranslator * string) :=
  match frames with
  | [] => inr (t, "")
  | f :: frames =>
      let! tf := translate_frame ToLower t f in
      let! rest := translate_frames tf.1 frames in inr (rest.1, tf.2 +:+ rest.2)
  end.

Definition withheld (d : delivery) : Prop :=
  Forall (fun f => streamSignalsCompletion clientProtocol f = false) (dv_sent d) /\
  Strings.len (dv_completion d) <= Z.max 0 StreamBytes.

Lemma len_app (s t : string) : Strings.len (s +:+ t) = Strings.len s + Strings.len t.
Proof.
  unfold Strings.len. induction s as [|c s IH]; [done|]. rewrite append_cons. cbn [String.length]. lia.
Qed.

Lemma deliver_withheld d f : withheld d -> withheld (deliver d f).1.
Proof.
  intros [H1 H2]. unfold StreamCall.deliver. destruct (translate_frame _ _ _) as [e|[t out]]; [done|]. cbv zeta.
  set (out' := if String.eqb ResponseModel "" then out else _). clearbody out'. destruct (String.eqb out' ""); [done|].
  destruct (negb (String.eqb (dv_completion (d <| dv_translator := t |>)) "") || _) eqn:Hs.
  - destruct (_ <? _) eqn:Hb; [done|]. split; [done|]. apply Z.ltb_ge in Hb. cbn in *. rewrite len_app. lia.
  - apply orb_false_iff in Hs as [_ Hs]. split; [|done]. cbn. rewrite Forall_app. split; [done|]. by constructor.
Qed.

Lemma feed_withheld d frames d' : withheld d -> feed deliver d frames = Some d' -> withheld d'.
Proof.
  revert d. induction frames as [|f frames IH]; intros d Hd; simpl; [by intros [= <-]|].
  pose proof (deliver_withheld d f Hd) as Hf. destruct (deliver d f) as [d1 []]; [done|]. by apply IH.
Qed.

(** A frame that is delivered adds its translation to the output. *)
Lemma deliver_output d f d' :
  ResponseModel = "" -> deliver d f = (d', None) ->
  exists out, translate_frame ToLower (dv_translator d) f = inr (dv_translator d', out) /\ delivered d' = delivered d +:+ out.
Proof.
  intros Hm. unfold StreamCall.deliver. destruct (translate_frame _ _ _) as [e|[t out]]; [done|]. rewrite Hm. cbn.
  destruct (String.eqb_spec out "") as [->|Hne]; [intros [= <-]; exists ""; split; [done|by rewrite append_nil]|].
  destruct (String.eqb_spec (dv_completion d) "") as [Hc|Hc]; cbn.
  - destruct (streamSignalsCompletion clientProtocol out).
    + destruct (StreamBytes <? _); [done|]. intros [= <-]. exists out. split; [done|]. unfold delivered. cbn. by rewrite append_assoc.
    + intros [= <- ?]. exists out. split; [done|]. unfold delivered. cbn. by rewrite concat_string_snoc, Hc, !append_nil.
  - destruct (StreamBytes <? _); [done|]. intros [= <-]. exists out. split; [done|]. unfold delivered. cbn. by rewrite append_assoc.
Qed.

Lemma feed_output d frames d' :
  ResponseModel = "" -> feed deliver d frames = Some d' ->
  exists out, translate_frames (dv_translator d) frames = inr (dv_translator d', out) /\ delivered d' = delivered d +:+ out.
Proof.
  intros Hm. revert d. induction frames as [|f frames IH]; intros d; simpl.
  - intros [= <-]. exists "". split; [done|by rewrite append_nil].
  - destruct (deliver d f) as [d1 []] eqn:Hd; [done|]. intros H. apply (deliver_output _ _ _ Hm) in Hd as (out & Ht & Ho).
    destruct (IH _ H) as (out' & Ht' & Ho'). exists (out +:+ out'). rewrite Ht. cbn. rewrite Ht'. cbn. split; [done|].
    by rewrite Ho', Ho, append_assoc.
Qed.

(** A frame that is not delivered adds its translation or nothing. *)
Lemma deliver_failed d f d' e :
  ResponseModel = "" -> deliver d f = (d', Some e) ->
  delivered d' = delivered d \/
  exists out, translate_frame ToLower (dv_translator d) f = inr (dv_translator d', out) /\ delivered d' = delivered d +:+ out.
Proof.
  intros Hm. unfold StreamCall.deliver. destruct (translate_frame _ _ _) as [e1|[t out]]; [intros [= <- _]; by left|]. rewrite Hm. cbn.
  destruct (String.eqb out ""); [done|]. destruct (String.eqb_spec (dv_completion d) "") as [Hc|Hc]; cbn.
  - destruct (streamSignalsCompletion clientProtocol out).
    + destruct (StreamBytes <? _); [intros [= <- _]; by left|done].
    + intros [= <- _]. right. exists out. split; [done|]. unfold delivered. cbn. by rewrite concat_string_snoc, Hc, !append_nil.
  - destruct (StreamBytes <? _); [intros [= <- _]; by left|done].
Qed.
End deliver.

(** ** The translators over frames *)

(** What the translator reads from a frame of a chat completion stream. *)
Definition frame_chunk (frame : string) : option chat_frame :=
  let data := (parseSSEFrame frame).2 in
  if String.eqb data "" then None else Unmarshal dec_chat_frame no_chat_frame data.

Lemma render_events_app a b : render_events (a ++ b) = render_events a +:+ render_events b.
Proof. unfold render_events. by rewrite fmap_app, concat_string_app. Qed.

Lemma openai_chunks_shift pre t cs t' evs :
  openai_chunks (t, []) cs = inr (t', evs) -> openai_chunks (t, pre) cs = inr (t', pre ++ evs).
Proof.
  assert (Hgen : forall pre0 pre1, openai_chunks (t, pre1) cs = inr (t', evs) -> openai_chunks (t, pre0 ++ pre1) cs = inr (t', pre0 ++ evs)).
  { revert t. induction cs as [|c cs IH]; intros t pre0 pre1 H; simpl in *; [by injection H as -> ->|].
    apply bind_err_inr in H as [[t1 out1] [H1 H]]. rewrite H1. cbn in *. rewrite <- (assoc_L _). by apply IH. }
  intros H. rewrite <- (app_nil_r pre) at 1. by apply Hgen.
Qed.

Lemma openai_frames ToLower t frames t' out :
  translate_frames ToLower (Some (FromOpenAI t)) frames = inr (t', out) ->
  exists t1 evs, t' = Some (FromOpenAI t1) /\ openai_chunks (t, []) (omap frame_chunk frames) = inr (t1, evs) /\
    out = render_events evs.
Proof.
  revert t t' out. induction frames as [|f frames IH]; intros t t' out H; simpl in H.
  - injection H as <- <-. by exists t, [].
  - apply bind_err_inr in H as [[t2 out2] [H2 H]]. apply bind_err_inr in H as [[t3 out3] [H3 H]]. injection H as <- <-.
    apply bind_err_inr in H2 as [[t4 out4] [H2 H4]]. injection H4 as <- <-.
    apply bind_err_inr in H2 as [[t5 evs5] [H2 H5]]. injection H5 as <- <-. cbn in H3.
    destruct (IH _ _ _ H3) as (t1 & evs & -> & Hevs & ->). exists t1, (evs5 ++ evs). split; [done|]. split; [|by rewrite render_events_app].
    unfold openai_frame in H2. cbn. unfold frame_chunk at 1. destruct (parseSSEFrame f) as [event data]. cbn.
    destruct (String.eqb data ""); [by injection H2 as <- <-|]. destruct (Unmarshal _ _ _) as [c|]; [|done].
    simpl. rewrite H2. cbn. by apply openai_chunks_shift.
Qed.

(** ** Chunks of a translated Messages stream

    What a client of chat completions may rely on: the tool calls are numbered
    from zero in the order they start, a start names the call, and arguments
    are only sent for a call that has started. *)

Definition chat_accept (calls : Z) (c : chat_chunk) : option Z :=
  match out_delta c with
  | DToolStart i id name =>
      if (i =? calls) && negb (String.eqb id "") && negb (String.eqb name "") then Some (calls + 1) else None
  | DToolArguments i _ => if (0 <=? i) && (i <? calls) then Some calls else None
  | _ => Some calls
  end.
Fixpoint chat_accepts (calls : Z) (cs : list chat_chunk) : option Z :=
  match cs with
  | [] => Some calls
  | c :: cs => calls ← chat_accept calls c; chat_accepts calls cs
  end.

(** The type that the data of an event gives it, and the text of a
    [content_block_delta]. *)
Definition data_type (data : string) : string :=
  default "" (Unmarshal (dec_struct [field_of "type" dec_string id (fun s _ => s)]) "" data).
Definition data_text (data : string) : list string :=
  if String.eqb (data_type data) "content_block_delta" then
    match Unmarshal dec_block_delta (0, no_delta) data with
    | Some (_, d) => if String.eqb (delta_Type d) "text_delta" then [delta_Text d] else []
    | None => []
    end
  else [].
Definition frame_text (frame : string) : list string := data_text (parseSSEFrame frame).2.
(** An event line that names the type of the data, as the Messages API sends it. *)
Definition named (frame : string) : Prop := (parseSSEFrame frame).1 = data_type (parseSSEFrame frame).2.

(** What the translator goes by is the name. *)
Definition named_text (frame : string) : list string :=
  let '(event, data) := parseSSEFrame frame in
  if String.eqb event "content_block_delta" then
    match Unmarshal dec_block_delta (0, no_delta) data with
    | Some (_, d) => if String.eqb (delta_Type d) "text_delta" then [delta_Text d] else []
    | None => []
    end
  else [].
Lemma named_texts frames : Forall named frames -> frames ≫= named_text = frames ≫= frame_text.
Proof.
  induction 1 as [|f frames Hf _ IH]; [done|]. rewrite !bind_cons, IH. f_equal. unfold named, named_text, frame_text, data_text in *.
  destruct (parseSSEFrame f) as [event data]. cbn in *. by rewrite Hf.
Qed.
Definition chunk_text (c : chat_chunk) : option string := match out_delta c with DContent s => Some s | _ => None end.

Definition tools_numbered (t : anthropicStreamTranslator) : Prop :=
  0 <= at_nextTool t /\ forall k i, at_toolIndices t !! k = Some i -> 0 <= i < at_nextTool t.

Lemma chat_frame_step ToLower t frame t' out :
  tools_numbered t -> anthropic_frame ToLower t frame = inr (t', out) ->
  tools_numbered t' /\ chat_accepts (at_nextTool t) (option_list out) = Some (at_nextTool t') /\
  omap chunk_text (option_list out) = named_text frame.
Proof.
  intros Ht. unfold anthropic_frame, named_text. destruct (parseSSEFrame frame) as [event data].
  destruct (String.eqb_spec data "") as [->|_]; [intros [= <- <-]; by destruct (String.eqb event "content_block_delta")|].
  destruct (StrictMap ToLower data) as [obj|]; [|done].
  destruct (String.eqb_spec event "message_start") as [->|_].
  { destruct (unmarshal_raw _ _ _) as [m|]; [|done]. intros [= <- <-].
    by destruct (anthropicInputTokens (start_Usage m)). }
  destruct (String.eqb_spec event "content_block_start") as [->|_].
  { destruct (Unmarshal dec_block_start _ _) as [[index b]|]; [|done]. unfold block_start. destruct (negb _).
    - intros [= <- <-]. destruct (String.eqb (block_Type b) "server_tool_use"), (_ && _); done.
    - destruct (_ || _) eqn:Hid; [done|]. intros [= <- <-]. destruct Ht as [H1 H2]. cbn. rewrite Z.eqb_refl.
      apply orb_false_iff in Hid as [-> ->]. cbn. split_and!; [|done|done]. split; cbn; [lia|].
      intros k i. rewrite lookup_insert_Some. intros [[_ <-]|[_ Hk]]; [lia|]. destruct (H2 _ _ Hk). lia. }
  destruct (String.eqb_spec event "content_block_delta") as [->|_].
  { destruct (Unmarshal dec_block_delta _ _) as [[index d]|]; [|done]. unfold delta_event.
    destruct (String.eqb (delta_Type d) "text_delta"); [intros [= <- <-]; by destruct (String.eqb (delta_Text d) "")|].
    destruct (String.eqb (delta_Type d) "thinking_delta"); [intros [= <- <-]; by destruct (String.eqb (delta_Thinking d) "")|].
    destruct (String.eqb (delta_Type d) "input_json_delta"); [|by intros [= <- <-]].
    destruct (bool_decide _); [by intros [= <- <-]|]. destruct (at_toolIndices t !! index) as [tool|] eqn:Hk; [|done].
    intros [= <- <-]. cbn. destruct Ht as [H1 H2]. destruct (H2 _ _ Hk) as [H3 H4].
    rewrite (proj2 (Z.leb_le _ _)), (proj2 (Z.ltb_lt _ _)) by lia. done. }
  destruct (String.eqb_spec event "message_delta") as [->|_]; [|by intros [= <- <-]].
  destruct (Unmarshal dec_message_delta _ _) as [d|]; [|done]. unfold stop_event. intros H. apply bind_err_inr in H as [finish [_ H]].
  injection H as <- <-. done.
Qed.

Lemma render_chunks_app a b : render_chunks (a ++ b) = render_chunks a +:+ render_chunks b.
Proof. unfold render_chunks. by rewrite fmap_app, concat_string_app. Qed.

Lemma chat_accepts_app n m a b : chat_accepts n a = Some m -> chat_accepts n (a ++ b) = chat_accepts m b.
Proof.
  revert n. induction a as [|c a IH]; intros n; simpl; [by intros [= ->]|]. destruct (chat_accept n c); [apply IH|done].
Qed.

Lemma anthropic_frames ToLower t frames t' out :
  tools_numbered t -> translate_frames ToLower (Some (FromAnthropic t)) frames = inr (t', out) ->
  exists t1 cs, t' = Some (FromAnthropic t1) /\ out = render_chunks cs /\ tools_numbered t1 /\
    chat_accepts (at_nextTool t) cs = Some (at_nextTool t1) /\ omap chunk_text cs = frames ≫= named_text.
Proof.
  revert t t' out. induction frames as [|f frames IH]; intros t t' out Ht H; simpl in H.
  - injection H as <- <-. by exists t, [].
  - apply bind_err_inr in H as [[t2 out2] [H2 H]]. apply bind_err_inr in H as [[t3 out3] [H3 H]]. injection H as <- <-.
    apply bind_err_inr in H2 as [[t4 out4] [H2 H4]]. injection H4 as <- <-.
    apply bind_err_inr in H2 as [[t5 c5] [H2 H5]]. injection H5 as <- <-. cbn in H3.
    destruct (chat_frame_step _ _ _ _ _ Ht H2) as (H5 & H6 & H7).
    destruct (IH _ _ _ H5 H3) as (t1 & cs & -> & -> & A1 & A2 & A3). exists t1, (option_list c5 ++ cs). split_and!; try done.
    + rewrite render_chunks_app. f_equal. cbn. destruct c5 as [c|]; [|done]. unfold render_chunks. cbn. done.
    + by rewrite (chat_accepts_app _ _ _ _ H6).
    + by rewrite omap_app, H7, A3.
Qed.

(** ** What ends a turn

    By the data of its events alone, apart from how the gateway decodes them:
    [[DONE]] or a choice with a reason to finish of a chat completion, a
    [message_stop] or a [message_delta] with a stop reason of the Messages API.
    The members that say so have to be of their types, for the gateway reads
    them as one struct. *)

Definition member (name : string) (j : json) : option json := match j with JObj _ members => last_member name members | _ => None end.
Definition text_member (name : string) (j : json) : string := match member name j with Some (JStr _ s) => s | _ => "" end.

(** Members that are called [name], up to case, have that name and are [ok]. *)
Definition typed_member (name : string) (ok : json -> bool) (kv : string * json) : bool :=
  if same_name name kv.1 then String.eqb kv.1 name && ok kv.2 else true.
Definition text_or_null (j : json) : bool := match j with JStr _ _ | JNull => true | _ => false end.
Definition object_with (name : string) (ok : json -> bool) (j : json) : bool :=
  match j with JObj _ members => forallb (typed_member name ok) members | _ => false end.
Definition typed_event (j : json) : bool :=
  object_with "type" text_or_null j && object_with "delta" (object_with "stop_reason" text_or_null) j &&
  object_with "choices" (fun j => match j with JArr _ cs => forallb (object_with "finish_reason" text_or_null) cs | _ => false end) j.

Definition ends_turn (protocol : string) (j : json) : bool :=
  if String.eqb protocol "anthropic" then
    String.eqb (text_member "type" j) "message_stop" ||
    String.eqb (text_member "type" j) "message_delta" &&
      match member "delta" j with Some delta => negb (String.eqb (text_member "stop_reason" delta) "") | None => false end
  else if String.eqb protocol "openai" then
    match member "choices" j with
    | Some (JArr _ cs) => existsb (fun c => negb (String.eqb (text_member "finish_reason" c) "")) cs
    | _ => false
    end
  else false.

(** One of the events of a frame, which may be several after a translation. *)
Definition event_ends (protocol data : string) : bool :=
  String.eqb protocol "openai" && String.eqb data "[DONE]" ||
  match parse data with Some j => typed_event j && ends_turn protocol j | None => false end.
Definition completes (protocol frame : string) : bool :=
  existsb (fun event => event_ends protocol (parseSSEFrame event).2) (Split (Strings.ReplaceAll frame (cr +:+ nl) nl) (nl +:+ nl)).

(** *** The gateway recognises it *)

Lemma member_snoc text ms kv name :
  member name (JObj text (ms ++ [kv])) = if String.eqb kv.1 name then Some kv.2 else member name (JObj text ms).
Proof.
  cbn. unfold last_member. rewrite List.filter_app. cbn [List.filter]. destruct (String.eqb kv.1 name); [by rewrite last_snoc|by rewrite app_nil_r].
Qed.
Lemma forallb_snoc {A} (f : A -> bool) l x : forallb f (l ++ [x]) = true <-> forallb f l = true /\ f x = true.
Proof. rewrite forallb_app. cbn. rewrite andb_true_r. apply andb_true_iff. Qed.

Lemma dec_struct_snoc {R} (fields : list (field R)) text ms kv r :
  dec_struct fields (JObj text (ms ++ [kv])) r = (r' ← dec_struct fields (JObj text ms) r; read_member false fields r' kv).
Proof. unfold dec_struct, dec_struct_mode. by rewrite foldl_app. Qed.

(** A struct of one field that reads a text. *)
Lemma one_text_read {R} (name : string) (get : R -> string) (set : string -> R -> R) text ms r :
  (forall s r, get (set s r) = s) ->
  forallb (typed_member name text_or_null) ms = true ->
  exists r', dec_struct [field_of name dec_string get set] (JObj text ms) r = Some r' /\
             (text_member name (JObj text ms) <> "" -> get r' = text_member name (JObj text ms)) /\
             forall P : R -> Prop, (forall s r, P r -> P (set s r)) -> P r -> P r'.
Proof.
  intros Hget. induction ms as [|[k v] ms IH] using rev_ind; [by exists r|]. rewrite forallb_snoc. intros [Hms Hkv].
  destruct (IH Hms) as (r1 & H1 & H2 & H3). rewrite dec_struct_snoc, H1. cbn [mbind option_bind]. unfold read_member. cbn [List.find fst field_of].
  unfold text_member in *. rewrite member_snoc. cbn [fst snd]. unfold typed_member in Hkv. cbn [fst snd] in Hkv. destruct (same_name name k) eqn:Hn.
  - apply andb_true_iff in Hkv as [Hk Hv]. rewrite Hk. destruct v; try done; cbn.
    + eexists. split; [done|]. split; [done|]. intros P HP Hr. by apply HP, H3.
    + eexists. split; [done|]. split; [intros _; apply Hget|]. intros P HP Hr. by apply HP, H3.
  - destruct (String.eqb_spec k name) as [->|]; [|by exists r1].
    unfold same_name in Hn. by rewrite bool_decide_eq_true_2 in Hn.
Qed.

Lemma reasons_read cs : forallb (object_with "finish_reason" text_or_null) cs = true ->
  exists l, mapM (fun j => dec_struct [field_of "finish_reason" dec_string id (fun s _ => s)] j "") cs = Some l /\
    (existsb (fun c => negb (String.eqb (text_member "finish_reason" c) "")) cs = true -> existsb (fun f => negb (String.eqb f "")) l = true).
Proof.
  induction cs as [|c cs IH]; [by exists []|]. cbn [forallb]. intros [Hc Hcs]%andb_true_iff. destruct (IH Hcs) as (l & Hl & Hsome).
  destruct c as [| | | | |t ms]; try done.
  destruct (one_text_read "finish_reason" id (fun s _ => s) t ms "" (fun _ _ => eq_refl) Hc) as (f & Hf & Hval & _).
  exists (f :: l). cbn [mapM]. rewrite Hf. cbn. rewrite Hl. cbn. split; [done|]. intros [H|H]%orb_true_iff.
  - destruct (String.eqb_spec (text_member "finish_reason" (JObj t ms)) "") as [|Hne]; [done|]. rewrite <- (Hval Hne) in Hne.
    unfold id in Hne. by apply String.eqb_neq in Hne as ->.
  - by rewrite (Hsome H), orb_true_r.
Qed.

Lemma named_member name ok kv : typed_member name ok kv = true ->
  same_name name kv.1 = String.eqb kv.1 name /\ (String.eqb kv.1 name = true -> ok kv.2 = true).
Proof.
  unfold typed_member. destruct (same_name name kv.1) eqn:Hn.
  - by intros [-> ?]%andb_true_iff.
  - intros _. destruct (String.eqb_spec kv.1 name) as [E|]; [|done]. unfold same_name in Hn. by rewrite E, bool_decide_eq_true_2 in Hn.
Qed.

Lemma probe_read text ms : typed_event (JObj text ms) = true ->
  exists p, dec_probe (JObj text ms) no_probe = Some p /\
    (text_member "type" (JObj text ms) <> "" -> probe_Type p = text_member "type" (JObj text ms)) /\
    (forall d, member "delta" (JObj text ms) = Some d -> text_member "stop_reason" d <> "" -> probe_StopReason p = text_member "stop_reason" d) /\
    (forall t cs, member "choices" (JObj text ms) = Some (JArr t cs) ->
       existsb (fun c => negb (String.eqb (text_member "finish_reason" c) "")) cs = true -> existsb (fun f => negb (String.eqb f "")) (probe_Finish p) = true).
Proof.
  unfold typed_event, object_with at 1 2 4. induction ms as [|[k v] ms IH] using rev_ind; [by exists no_probe|].
  rewrite !andb_true_iff, !forallb_snoc. intros [[[T1 T2] [D1 D2]] [C1 C2]]. destruct IH as (p & Hp & Ht & Hd & Hc); [by rewrite T1, D1, C1|].
  apply named_member in T2 as [T2 T3], D2 as [D2 D3], C2 as [C2 C3]. cbn [fst snd] in *.
  unfold dec_probe in Hp |- *. rewrite dec_struct_snoc, Hp. cbn [mbind option_bind]. unfold read_member. cbn [List.find fst snd field_of].
  rewrite T2, D2, C2. unfold text_member in Ht |- *. setoid_rewrite member_snoc. cbn [fst snd].
  destruct (String.eqb_spec k "type") as [->|Hk1].
  { specialize (T3 eq_refl). destruct v; try done; cbn; eexists; (split; [done|]); split_and!; done. }
  destruct (String.eqb_spec k "delta") as [->|Hk2].
  { specialize (D3 eq_refl). destruct v as [| | | | |t dm]; try done.
    destruct (one_text_read "stop_reason" probe_StopReason (fun s p => p <| probe_StopReason := s |>) t dm p ltac:(by intros ? []) D3) as (q & Hq & Hs & HP).
    exists q. split; [exact Hq|]. split_and!.
    - intros Hne. rewrite <- (Ht Hne). by apply (HP (fun r => probe_Type r = probe_Type p)).
    - intros d [= <-] Hne. by apply Hs.
    - intros t' cs Hm Hex. assert (E : probe_Finish q = probe_Finish p) by (by apply (HP (fun r => probe_Finish r = probe_Finish p))). rewrite E. by eapply Hc. }
  destruct (String.eqb_spec k "choices") as [->|Hk3]; [|by exists p].
  specialize (C3 eq_refl). destruct v as [| | | |t cs|]; try done. destruct (reasons_read cs C3) as (l & Hl & Hex). cbn. unfold dec_slice. rewrite Hl. cbn.
  eexists. split; [done|]. split_and!; [done|done|]. intros t' cs' [= <- <-]. cbn. done.
Qed.

Lemma event_ends_signals protocol event : event_ends protocol (parseSSEFrame event).2 = true -> frame_signals protocol event = true.
Proof.
  unfold event_ends, frame_signals. set (data := (parseSSEFrame event).2). destruct (_ && _); [done|]. cbn [orb]. unfold Unmarshal.
  destruct (parse data) as [j|]; [|done]. cbn [mbind option_bind]. intros [Hj He]%andb_true_iff. destruct j as [| | | | |t ms]; try done.
  destruct (probe_read t ms Hj) as (p & -> & Ht & Hd & Hc). revert He. unfold ends_turn. destruct (String.eqb_spec protocol "anthropic") as [->|_].
  - intros [He|He]%orb_true_iff; apply orb_true_iff; left; cbn [String.eqb andb].
    + apply String.eqb_eq in He. rewrite Ht by (by rewrite He). by rewrite He.
    + apply andb_true_iff in He as [He Hdel]. apply String.eqb_eq in He. rewrite Ht by (by rewrite He). rewrite He.
      destruct (member "delta" (JObj t ms)) as [d|] eqn:Hm; [|done]. apply negb_true_iff, String.eqb_neq in Hdel. rewrite (Hd d eq_refl Hdel).
      apply String.eqb_neq in Hdel. by rewrite Hdel.
  - cbn [andb orb]. destruct (String.eqb protocol "openai"); [|done]. cbn [andb]. destruct (member "choices" (JObj t ms)) as [[| | | |t' cs|]|] eqn:Hm; try done. exact (Hc t' cs eq_refl).
Qed.

Lemma completes_signals protocol frame : streamSignalsCompletion protocol frame = false -> completes protocol frame = false.
Proof.
  unfold streamSignalsCompletion, completes. generalize (Split (Strings.ReplaceAll frame (cr +:+ nl) nl) (nl +:+ nl)) as l.
  induction l as [|e l IH]; [done|]. cbn [existsb]. intros [He Hl]%orb_false_iff. rewrite (IH Hl), orb_false_r.
  destruct (event_ends protocol (parseSSEFrame e).2) eqn:H; [|done]. by rewrite (event_ends_signals _ _ H) in He.
Qed.

(** ** Claims *)

Section claims.
Context (ToLower : string -> string) (providerProtocol clientProtocol model ResponseModel : string) (now StreamBytes EventBytes : Z).
Context (sink : list string -> string -> bool).
Local Abbreviation attempt :=
  (stream_attempt ToLower clientProtocol ResponseModel StreamBytes sink providerProtocol model now EventBytes) (only parsing).

Definition start_delivery : delivery :=
  {| dv_translator := newStreamTranslator providerProtocol clientProtocol model now; dv_completion := ""; dv_sent := [];
     dv_delivered := false |}.

(** The provider's frames up to its terminal frame [raw]: the blank lines of
    the body determine them. *)
Definition complete_stream (body : list byte) (frames : list string) (raw : string) : Prop :=
  begins (String.concat "" frames +:+ raw) (string_of_bytes body) /\ Forall framed frames /\ framed raw /\
  terminal_data ToLower providerProtocol (data_of raw).2.

(** The frames that an attempt has read. *)
Lemma attempt_frames body ending d res :
  attempt body ending = (d, res) ->
  exists frames,
    (feed (deliver ToLower clientProtocol ResponseModel StreamBytes sink) start_delivery frames = Some d \/
     exists d1 f e, feed (deliver ToLower clientProtocol ResponseModel StreamBytes sink) start_delivery frames = Some d1 /\
       deliver ToLower clientProtocol ResponseModel StreamBytes sink d1 f = (d, Some e) /\
       begins (String.concat "" frames +:+ f) (string_of_bytes body) /\ forall tail u, res <> StreamAnswered tail u) /\
    begins (String.concat "" frames) (string_of_bytes body) /\
    forall tail u, res = StreamAnswered tail u ->
      feed (deliver ToLower clientProtocol ResponseModel StreamBytes sink) start_delivery frames = Some d /\
      (exists m, ParseUsage providerProtocol m = inr u) /\
      Strings.len tail <= Z.max 0 StreamBytes /\
      exists raw data, match dv_translator d with None => inr raw | Some t => translator_terminal t end = inr data /\
        tail = dv_completion d +:+ data /\ complete_stream body frames raw /\
        exists f, f ∈ frames /\ finishing_data ToLower providerProtocol (data_of f).2.
Proof.
  unfold stream_attempt. fold start_delivery. destruct (readStreamWithLimits _ _ _ _ _ _ _ _) as [d1 r] eqn:Hr.
  apply read_spec in Hr as (frames & Hall & Hr). change (read_frame new_reader +:+ string_of_bytes body) with (string_of_bytes body) in Hr.
  intros H. exists frames. destruct r as [e|[u raw]].
  - injection H as <- <-. destruct e as [code|data|e].
    + destruct Hr as [H1 H2]. split_and!; [by left|done|done].
    + destruct Hr as [H1 H2]. split_and!; [by left|done|done].
    + destruct Hr as (s1 & f & H1 & H2 & H3). split_and!; [|by destruct H3 as [x ->]; rewrite append_assoc; by eexists|by destruct e].
      right. exists s1, f, e. split_and!; try done. by destruct e.
  - destruct Hr as (H1 & H2 & H3 & H4 & H5 & H6).
    assert (Hd : d = d1) by (repeat case_match; congruence). subst d1. split_and!; [by left| |].
    { destruct H2 as [x ->]. rewrite append_assoc. by eexists. }
    intros tail u0 ->. destruct (match dv_translator d with None => _ | Some _ => _ end) as [[]|data] eqn:Ht; try discriminate H.
    destruct (StreamBytes <? _) eqn:Hb; [discriminate H|]. injection H as <- <-. apply Z.ltb_ge in Hb.
    split_and!; [done|done|rewrite len_app; lia|]. exists raw, data. split_and!; try done.
    { split_and!; [done| |by destruct H3|done]. eapply Forall_impl; [exact Hall|by intros x []]. }
    destruct H5 as [H5|H5]; [done|exact H5].
Qed.

(** C11. Whatever a provider sends and however the stream ends, no frame that
    completes the client's turn has been handed to the client: no [[DONE]] and
    no well-typed choice with a reason to finish, no [message_stop] and no
    well-typed [message_delta] with a stop reason.  What is held back is within
    the stream limit, and an answered stream gives it to the caller, which
    commits its audit first.  (A chunk that carries a reason to finish but has
    a top-level [type] or [delta] of another type is not recognised:
    [mistyped_finish_delivered].) *)
Theorem completion_withheld body ending d res :
  attempt body ending = (d, res) ->
  Forall (fun f => completes clientProtocol f = false) (dv_sent d) /\
  Strings.len (dv_completion d) <= Z.max 0 StreamBytes /\
  forall tail u, res = StreamAnswered tail u ->
    Strings.len tail <= Z.max 0 StreamBytes /\ exists rest, tail = dv_completion d +:+ rest.
Proof.
  intros H. destruct (attempt_frames _ _ _ _ H) as (frames & Hf & _ & Ha).
  assert (H0 : withheld clientProtocol StreamBytes start_delivery) by (split; [apply Forall_nil_2|change (0 <= Z.max 0 StreamBytes); lia]).
  assert (Hw : withheld clientProtocol StreamBytes d).
  { destruct Hf as [Hf|(d1 & f & e & Hf & Hd & _)]; apply (feed_withheld _ _ _ _ _ _ _ _ H0) in Hf; [done|].
    apply (deliver_withheld ToLower clientProtocol ResponseModel StreamBytes sink d1 f) in Hf. by rewrite Hd in Hf. }
  destruct Hw as [Hw1 Hw2]. split_and!; [eapply Forall_impl; [exact Hw1|]; intros f; apply completes_signals|done|]. intros tail u Hres. destruct (Ha _ _ Hres) as (_ & _ & Hl & raw & data & _ & -> & _).
  split; [done|by exists data].
Qed.

(** A provider that speaks the client's protocol is passed through: what
    has been sent and held back is, byte for byte and in order, the beginning
    of the provider's stream, and with the tail of an answered stream it is
    the provider's frames up to the terminal one. *)
Theorem stream_verbatim body ending d res :
  providerProtocol = clientProtocol -> ResponseModel = "" ->
  attempt body ending = (d, res) ->
  begins (delivered d) (string_of_bytes body) /\
  forall tail u, res = StreamAnswered tail u ->
    exists frames raw, complete_stream body frames raw /\ String.concat "" (dv_sent d) +:+ tail = String.concat "" frames +:+ raw.
Proof.
  intros Hp Hm H. destruct (attempt_frames _ _ _ _ H) as (frames & Hf & Hb & Ha).
  assert (H0 : dv_translator start_delivery = None).
  { cbn. unfold newStreamTranslator. rewrite Hp. destruct (String.eqb_spec clientProtocol "anthropic") as [->|]; [done|].
    destruct (String.eqb_spec clientProtocol "openai") as [->|]; done. }
  assert (Hnone : forall fs t out, translate_frames ToLower None fs = inr (t, out) -> t = None /\ out = String.concat "" fs).
  { induction fs as [|f fs IH]; intros t out Hfs; simpl in Hfs; [by injection Hfs as <- <-|].
    apply bind_err_inr in Hfs as [[t1 out1] [H1 H2]]. injection H2 as <- <-. destruct (IH _ _ H1) as [-> ->]. split; [done|].
    change (f +:+ String.concat "" fs = String.concat "" ([f] ++ fs)). by rewrite concat_string_app. }
  assert (Hfeed : forall d1, feed (deliver ToLower clientProtocol ResponseModel StreamBytes sink) start_delivery frames = Some d1 ->
            dv_translator d1 = None /\ delivered d1 = String.concat "" frames).
  { intros d1 Hd1. apply (feed_output _ _ _ _ _ _ _ _ Hm) in Hd1 as (out & Ht & Ho). rewrite H0 in Ht. apply Hnone in Ht as [-> ->].
    by rewrite Ho. }
  split.
  - destruct Hf as [Hf|(d1 & f & e & Hf & Hd & Hbf & _)]; apply Hfeed in Hf as [Ht Ho]; [by rewrite Ho|].
    apply (deliver_failed _ _ _ _ _ _ _ _ _ Hm) in Hd as [->|(out & Hout & ->)]; [by rewrite Ho|].
    rewrite Ht in Hout. cbn in Hout. injection Hout as _ <-. by rewrite Ho.
  - intros tail u Hres. destruct (Ha _ _ Hres) as (Hf' & _ & _ & raw & data & Hraw & -> & Hc & _).
    apply Hfeed in Hf' as [Ht Ho]. rewrite Ht in Hraw. injection Hraw as <-.
    exists frames, raw. split; [done|]. rewrite <- Ho. unfold delivered. by rewrite append_assoc.
Qed.

(** C12. Only a complete stream is answered: the provider has sent its
    terminal frame after a frame with a reason to finish, and the usage that
    is reported has passed the checks of [ParseUsage]; a stream that is cut
    off, also after its content, is a failure. *)
Theorem only_complete_streams body ending d tail u :
  attempt body ending = (d, StreamAnswered tail u) ->
  exists frames raw f,
    complete_stream body frames raw /\
    f ∈ frames /\ finishing_data ToLower providerProtocol (data_of f).2 /\
    exists m, ParseUsage providerProtocol m = inr u.
Proof.
  intros H. destruct (attempt_frames _ _ _ _ H) as (frames & _ & _ & Ha).
  destruct (Ha _ _ eq_refl) as (_ & Hu & _ & raw & data & _ & _ & Hc & f & Hf & Hfin). by exists frames, raw, f.
Qed.
End claims.

(** ** Claims about translated streams *)

Section translated.
Context (ToLower : string -> string) (model : string) (now StreamBytes EventBytes : Z) (sink : list string -> string -> bool).

Lemma messages_answered body ending d tail u :
  stream_attempt ToLower "anthropic" "" StreamBytes sink "openai" model now EventBytes body ending = (d, StreamAnswered tail u) ->
  exists frames raw t evs t' close,
    complete_stream ToLower "openai" body frames raw /\
    openai_chunks (newOpenAIStreamTranslator model, []) (omap frame_chunk frames) = inr (t, evs) /\
    openai_terminal t = inr (t', close) /\ String.concat "" (dv_sent d) +:+ tail = render_events (evs ++ close).
Proof.
  intros H. destruct (attempt_frames _ _ _ _ _ _ _ _ _ _ _ _ _ H) as (frames & _ & _ & Ha).
  destruct (Ha _ _ eq_refl) as (Hf & _ & _ & raw & data & Hdata & -> & Hc & _).
  apply (feed_output _ _ "" _ _ _ _ _ eq_refl) in Hf as (out & Ht & Ho). apply openai_frames in Ht as (t & evs & Hd & Hevs & ->).
  rewrite Hd in Hdata. cbn in Hdata. apply bind_err_inr in Hdata as [[t' close] [Hclose Hdata]]. injection Hdata as <-.
  exists frames, raw, t, evs, t', close. split_and!; try done. rewrite render_events_app, <- append_assoc. f_equal. exact Ho.
Qed.

(** C10. An answered chat completion stream that resumes no tool call reaches a
    client of the Messages API as a well-formed event stream: one
    [message_start] first, blocks numbered in order with at most one open,
    deltas of the open block's kind and only while it is open, every block
    closed once, before [message_delta] and [message_stop] at the end.  When
    the provider resumes tool calls one of these rules can break, that a
    closed tool block stays closed ([resumed_calls_break_the_stream]); all the
    others hold of any answered stream. *)
Theorem messages_stream_typed body ending d tail u :
  stream_attempt ToLower "anthropic" "" StreamBytes sink "openai" model now EventBytes body ending = (d, StreamAnswered tail u) ->
  exists frames raw evs,
    complete_stream ToLower "openai" body frames raw /\
    String.concat "" (dv_sent d) +:+ tail = render_events evs /\
    (sequential (omap frame_chunk frames) -> exists c, accepts false new_client evs = Some c /\ cl_phase c = Ended) /\
    (exists c, accepts true new_client evs = Some c /\ cl_phase c = Ended).
Proof.
  intros H. destruct (messages_answered _ _ _ _ _ H) as (frames & raw & t & evs & t' & close & Hb & Hevs & Hclose & Hout).
  exists frames, raw, (evs ++ close). split_and!; try done.
  - intros Hs. destruct (translated_typed false model _ t evs (fun _ => Hs) Hevs) as [_ Ht]. by eapply Ht.
  - assert (Hn : true = false -> sequential (omap frame_chunk frames)) by done.
    destruct (translated_typed true model _ t evs Hn Hevs) as [_ Ht]. by eapply Ht.
Qed.

(** C13. The translation of an answered chat completion stream loses no
    content: the text deltas are the visible texts of the first choice in
    order, and every tool call has a block of its own, which carries its
    identifier, its name and all its argument fragments in order. *)
Theorem messages_stream_content body ending d tail u :
  stream_attempt ToLower "anthropic" "" StreamBytes sink "openai" model now EventBytes body ending = (d, StreamAnswered tail u) ->
  exists frames raw evs (block : Z -> Z),
    complete_stream ToLower "openai" body frames raw /\
    String.concat "" (dv_sent d) +:+ tail = render_events evs /\
    let its := chunk_items (omap frame_chunk frames) in
    event_texts evs = item_texts its /\
    (forall k, item_calls k its <> [] ->
       block_arguments (block k) evs = call_arguments k its /\
       exists id, call_identity k its = Some id /\ block_identity (block k) evs = [id]) /\
    (forall k k', item_calls k its <> [] -> item_calls k' its <> [] -> block k = block k' -> k = k').
Proof.
  intros H. destruct (messages_answered _ _ _ _ _ H) as (frames & raw & t & evs & t' & close & Hb & Hevs & Hclose & Hout).
  apply (conveys_chunks _ _ _ _ _ _ (conveys_new model)) in Hevs as [H1 H2 H3 H4 H5 H6 H7]. simpl in *.
  destruct (terminal_silent _ _ _ Hclose) as [S1 S2]. set (its := chunk_items _) in *.
  assert (Hknown : forall k, item_calls k its <> [] -> ot_toolIndices t !! k = Some (default 0 (ot_toolIndices t !! k))).
  { intros k Hk. destruct (ot_toolIndices t !! k) eqn:E; [done|]. by destruct Hk; apply H3. }
  exists frames, raw, (evs ++ close), (fun k => default 0 (ot_toolIndices t !! k)).
  split; [done|]. split; [done|]. cbv zeta. split; [|split].
  - by rewrite event_texts_app, S1, app_nil_r.
  - intros k Hk. apply Hknown in Hk. destruct (H2 _ _ Hk) as (_ & A & id & B & C). destruct (S2 (default 0 (ot_toolIndices t !! k))) as [D1 D2].
    rewrite block_arguments_app, block_identity_app, D1, D2, !app_nil_r. eauto.
  - intros k k' Hk Hk' Heq. apply Hknown in Hk, Hk'. rewrite Heq in Hk. by eapply H4.
Qed.

(** C17. An answered Messages stream reaches a client of chat completions as
    chunks that number the tool calls from zero, with arguments only for calls
    that have been announced with an identifier and a name, and ends with
    [[DONE]].  When every event is named by the type of its data, as the
    Messages API sends it, the chunks carry the text of every text delta in
    order.  (Without event lines the content is lost, though the stream is
    answered: [unnamed_events_are_lost].) *)
Theorem chat_stream_typed body ending d tail u :
  stream_attempt ToLower "openai" "" StreamBytes sink "anthropic" model now EventBytes body ending = (d, StreamAnswered tail u) ->
  exists frames raw cs calls,
    complete_stream ToLower "anthropic" body frames raw /\
    String.concat "" (dv_sent d) +:+ tail = render_chunks cs +:+ done_frame /\
    chat_accepts 0 cs = Some calls /\ (Forall named frames -> omap chunk_text cs = frames ≫= frame_text).
Proof.
  intros H. destruct (attempt_frames _ _ _ _ _ _ _ _ _ _ _ _ _ H) as (frames & _ & _ & Ha).
  destruct (Ha _ _ eq_refl) as (Hf & _ & _ & raw & data & Hdata & -> & Hc & _).
  apply (feed_output _ _ "" _ _ _ _ _ eq_refl) in Hf as (out & Ht & Ho).
  apply anthropic_frames in Ht as (t & cs & Hd & -> & Hn & Hacc & Htext); [|split; [done|intros k i Hk; discriminate Hk]].
  rewrite Hd in Hdata. cbn in Hdata. unfold anthropic_terminal in Hdata. destruct (_ && _); [done|]. injection Hdata as <-.
  exists frames, raw, cs, (at_nextTool t). split_and!; try done; [rewrite <- append_assoc; f_equal; exact Ho|]. intros Hnamed. by rewrite Htext, named_texts.
Qed.
End translated.
