(* ===== verification/StreamDemo.v ===== *)
(** * Streams run through the model

    Concrete provider streams, byte for byte, through [stream_attempt]:
    witnesses of the theorems of [StreamClaims.v], and the behaviours that the
    findings name. *)

From S2P Require Import Prelude GoStrings Json StreamCall StreamTypes StreamContent StreamFacts StreamClaims.

(** A text in which apostrophes stand for quotation marks. *)
Definition quoted (s : string) : string := string_of_bytes ((fun b => if b =? 39 then 34 else b) <$> bytes_of_string s).
Definition data_frame (data : string) : string := "data: " +:+ quoted data +:+ nl +:+ nl.
Definition event_frame (event data : string) : string := "event: " +:+ event +:+ nl +:+ data_frame data.

Definition run (provider client : string) (body : string) : delivery * stream_result :=
  stream_attempt Strings.ToLowerASCII client "" 100000 (fun _ _ => true) provider "m" 5 10000 (bytes_of_string body) BodyEOF.

Definition run_tail (r : delivery * stream_result) : string := match r.2 with StreamAnswered tail _ => tail | _ => "" end.
Definition run_usage (r : delivery * stream_result) : TokenUsage := match r.2 with StreamAnswered _ u => u | _ => no_usage end.

(** A chat completion stream with text and a tool call. *)
Definition chat_body : string :=
  data_frame "{'id':'x','model':'g','choices':[{'index':0,'delta':{'role':'assistant','content':'he'}}]}" +:+
  data_frame "{'id':'x','choices':[{'index':0,'delta':{'tool_calls':[{'index':0,'id':'t','function':{'name':'f','arguments':'{'}}]}}]}" +:+
  data_frame "{'id':'x','choices':[{'index':0,'delta':{'tool_calls':[{'index':0,'function':{'arguments':'}'}}]}}]}" +:+
  data_frame "{'id':'x','choices':[{'index':0,'delta':{},'finish_reason':'tool_calls'}],'usage':{'prompt_tokens':4,'completion_tokens':5}}" +:+
  done_frame.

(** A Messages stream with text. *)
Definition messages_body : string :=
  event_frame "message_start" "{'type':'message_start','message':{'id':'m1','model':'c','role':'assistant','usage':{'input_tokens':3}}}" +:+
  event_frame "content_block_start" "{'type':'content_block_start','index':0,'content_block':{'type':'text','text':''}}" +:+
  event_frame "content_block_delta" "{'type':'content_block_delta','index':0,'delta':{'type':'text_delta','text':'hi'}}" +:+
  event_frame "message_delta" "{'type':'message_delta','delta':{'stop_reason':'end_turn'},'usage':{'output_tokens':2}}" +:+
  event_frame "message_stop" "{'type':'message_stop'}".

(** ** Witnesses *)

Lemma completion_withheld_witness :
  let r := run "anthropic" "openai" messages_body in
  length (dv_sent r.1) = 2%nat /\ completes "openai" (dv_completion r.1) = true /\
  Forall (fun f => completes "openai" f = false) (dv_sent r.1).
Proof.
  split; [vm_compute; reflexivity|]. split; [vm_compute; reflexivity|].
  exact (proj1 (completion_withheld Strings.ToLowerASCII "anthropic" "openai" "m" "" 5 100000 10000 (fun _ _ => true)
    (bytes_of_string messages_body) BodyEOF _ _ (surjective_pairing _))).
Defined.

Lemma stream_verbatim_witness :
  let r := run "openai" "openai" chat_body in
  length (dv_sent r.1) = 3%nat /\ begins (delivered r.1) (string_of_bytes (bytes_of_string chat_body)).
Proof.
  split; [vm_compute; reflexivity|].
  exact (proj1 (stream_verbatim Strings.ToLowerASCII "openai" "openai" "m" "" 5 100000 10000 (fun _ _ => true)
    (bytes_of_string chat_body) BodyEOF _ _ eq_refl eq_refl (surjective_pairing _))).
Defined.

Lemma only_complete_streams_witness :
  exists frames raw f,
    complete_stream Strings.ToLowerASCII "anthropic" (bytes_of_string messages_body) frames raw /\
    f ∈ frames /\ finishing_data Strings.ToLowerASCII "anthropic" (data_of f).2 /\
    exists m, ParseUsage "anthropic" m = inr (run_usage (run "anthropic" "anthropic" messages_body)).
Proof.
  refine (only_complete_streams Strings.ToLowerASCII "anthropic" "anthropic" "m" "" 5 100000 10000 (fun _ _ => true)
    (bytes_of_string messages_body) BodyEOF (run "anthropic" "anthropic" messages_body).1
    (run_tail (run "anthropic" "anthropic" messages_body)) _ _).
  vm_compute. reflexivity.
Defined.

Lemma messages_stream_typed_witness :
  exists frames raw evs,
    complete_stream Strings.ToLowerASCII "openai" (bytes_of_string chat_body) frames raw /\
    String.concat "" (dv_sent (run "openai" "anthropic" chat_body).1) +:+ run_tail (run "openai" "anthropic" chat_body) = render_events evs /\
    (sequential (omap frame_chunk frames) -> exists c, accepts false new_client evs = Some c /\ cl_phase c = Ended) /\
    (exists c, accepts true new_client evs = Some c /\ cl_phase c = Ended).
Proof.
  refine (messages_stream_typed Strings.ToLowerASCII "m" 5 100000 10000 (fun _ _ => true) (bytes_of_string chat_body) BodyEOF
    (run "openai" "anthropic" chat_body).1 (run_tail (run "openai" "anthropic" chat_body))
    (run_usage (run "openai" "anthropic" chat_body)) _).
  vm_compute. reflexivity.
Defined.

Lemma messages_stream_content_witness :
  exists frames raw evs (block : Z -> Z),
    complete_stream Strings.ToLowerASCII "openai" (bytes_of_string chat_body) frames raw /\
    String.concat "" (dv_sent (run "openai" "anthropic" chat_body).1) +:+ run_tail (run "openai" "anthropic" chat_body) = render_events evs /\
    let its := chunk_items (omap frame_chunk frames) in
    event_texts evs = item_texts its /\
    (forall k, item_calls k its <> [] ->
       block_arguments (block k) evs = call_arguments k its /\
       exists id, call_identity k its = Some id /\ block_identity (block k) evs = [id]) /\
    (forall k k', item_calls k its <> [] -> item_calls k' its <> [] -> block k = block k' -> k = k').
Proof.
  refine (messages_stream_content Strings.ToLowerASCII "m" 5 100000 10000 (fun _ _ => true) (bytes_of_string chat_body) BodyEOF
    (run "openai" "anthropic" chat_body).1 (run_tail (run "openai" "anthropic" chat_body))
    (run_usage (run "openai" "anthropic" chat_body)) _).
  vm_compute. reflexivity.
Defined.

Lemma chat_stream_typed_witness :
  exists frames raw cs calls,
    complete_stream Strings.ToLowerASCII "anthropic" (bytes_of_string messages_body) frames raw /\
    String.concat "" (dv_sent (run "anthropic" "openai" messages_body).1) +:+ run_tail (run "anthropic" "openai" messages_body) =
      render_chunks cs +:+ done_frame /\
    chat_accepts 0 cs = Some calls /\ (Forall named frames -> omap chunk_text cs = frames ≫= frame_text).
Proof.
  refine (chat_stream_typed Strings.ToLowerASCII "m" 5 100000 10000 (fun _ _ => true) (bytes_of_string messages_body) BodyEOF
    (run "anthropic" "openai" messages_body).1 (run_tail (run "anthropic" "openai" messages_body))
    (run_usage (run "anthropic" "openai" messages_body)) _).
  vm_compute. reflexivity.
Defined.

(** The two streams satisfy the conditions of the claims: no tool call is
    resumed, and every event is named by its type. *)
Definition pieces (body : string) : list string := (fun event => event +:+ nl +:+ nl) <$> Split body (nl +:+ nl).
Example chat_body_sequential :
  length (omap frame_chunk (pieces (TrimSuffix chat_body done_frame))) = 4%nat /\
  bool_decide (sequential (omap frame_chunk (pieces (TrimSuffix chat_body done_frame)))) = true.
Proof. vm_compute. split; reflexivity. Qed.
Example messages_body_named : Forall named (pieces messages_body) /\ pieces messages_body ≫= frame_text = ["hi"].
Proof. split; [|vm_compute; reflexivity]. repeat constructor; vm_compute; reflexivity. Qed.

(** ** Behaviours that the findings name *)

(** Two tool calls whose argument fragments alternate, as the chat completion
    protocol allows. *)
Definition interleaved : list chat_frame :=
  let start k id := no_call_delta <| cd_Index := k |> <| cd_ID := id |> <| cd_Name := "f" |> in
  let more k := no_call_delta <| cd_Index := k |> <| cd_Arguments := "{}" |> in
  let frame calls finish := no_chat_frame <| cf_Choices := [no_choice_delta <| dl_ToolCalls := calls |> <| dl_Finish := finish |>] |> in
  [frame [start 0 "a"; start 1 "b"] None; frame [more 0; more 1] (Some "tool_calls")].

(** Block 0 is written again after its stop: the events are no stream of the
    Messages API. *)
Example resumed_calls_break_the_stream :
  match openai_chunks (newOpenAIStreamTranslator "m", []) interleaved with
  | inr (_, evs) =>
      evs = [EvMessageStart "" "m" 0; EvToolStart 0 "a" "f"; EvBlockStop 0; EvToolStart 1 "b" "f"; EvBlockStop 1;
             EvJSONDelta 0 "{}"; EvBlockStop 0; EvJSONDelta 1 "{}"] /\
      accepts false new_client evs = None
  | inl _ => False
  end.
Proof. vm_compute. split; reflexivity. Qed.

(** The same Messages stream without its [event:] lines, which the reader
    accepts: its content and its usage never reach the client. *)
Definition messages_body_unnamed : string :=
  data_frame "{'type':'message_start','message':{'id':'m1','model':'c','role':'assistant','usage':{'input_tokens':3}}}" +:+
  data_frame "{'type':'content_block_start','index':0,'content_block':{'type':'text','text':''}}" +:+
  data_frame "{'type':'content_block_delta','index':0,'delta':{'type':'text_delta','text':'hi'}}" +:+
  data_frame "{'type':'message_delta','delta':{'stop_reason':'end_turn'},'usage':{'output_tokens':2}}" +:+
  data_frame "{'type':'message_stop'}".

Example unnamed_events_are_lost :
  (run "anthropic" "anthropic" messages_body_unnamed).2 = StreamAnswered (run_tail (run "anthropic" "anthropic" messages_body_unnamed))
    {| Input := Some 3; Output := Some 2; CacheRead := None; CacheWrite := None |} /\
  dv_sent (run "anthropic" "openai" messages_body_unnamed).1 = [] /\
  run_tail (run "anthropic" "openai" messages_body_unnamed) = done_frame.
Proof. split; [vm_compute; reflexivity|]. split; vm_compute; reflexivity. Qed.

(** A reason to finish beside a top-level [type] that is no text is handed over
    at once. *)
Example mistyped_finish_delivered :
  let frame := data_frame "{'id':'x','type':1,'choices':[{'index':0,'delta':{},'finish_reason':'stop'}]}" in
  let r := run "openai" "openai" frame in r.2 = StreamFailed "incomplete_upstream_stream" /\ dv_sent r.1 = [frame].
Proof. vm_compute. split; reflexivity. Qed.

(** What is held back of both translations completes a turn. *)
Example held_back :
  completes "anthropic" (dv_completion (run "anthropic" "anthropic" messages_body).1) = true /\
  completes "anthropic" (run_tail (run "openai" "anthropic" chat_body)) = true /\
  completes "openai" (dv_completion (run "openai" "openai" chat_body).1) = true.
Proof. vm_compute. split_and!; reflexivity. Qed.

(** A chunk with a null [error] member ends the stream as an error of the
    provider. *)
Example null_error_fails_the_stream :
  (run "openai" "openai" (data_frame "{'id':'x','error':null,'choices':[{'index':0,'delta':{'content':'a'}}]}" +:+ chat_body)).2 =
  StreamProviderError (quoted "{'id':'x','error':null,'choices':[{'index':0,'delta':{'content':'a'}}]}").
Proof. vm_compute. reflexivity. Qed.
