(* ===== verification/ResponseFacts.v ===== *)
(** * What a translated response keeps

    The bounds of the usage a provider reports, the correspondence of finish
    reasons, and the content of a response in both directions. *)

From S2P Require Import Prelude GoStrings GoFloat Json Responses StreamFacts.

(** ** Usage *)

Definition within (hi : Z) (n : option Z) : Prop := match n with Some n => 0 <= n <= hi | None => True end.

Lemma usage_count_within m key n : usage_count m key = inr n -> within max_tokens_reported n.
Proof.
  unfold usage_count. destruct (m !! key) as [j|]; [|by intros [= <-]].
  assert (Hj : match dec_int64 j 0 with
               | Some n => if (n <? 0) || (max_tokens_reported <? n) then inl "invalid usage" else inr (Some n)
               | None => inl "invalid usage"
               end = inr n -> within max_tokens_reported n).
  { destruct (dec_int64 j 0) as [k|]; [|done]. destruct (_ || _) eqn:H; [done|]. intros [= <-].
    apply orb_false_iff in H as [H1%Z.ltb_ge H2%Z.ltb_ge]. simpl. lia. }
  destruct j; try exact Hj. by intros [= <-].
Qed.

Lemma detail_count_within d key before n :
  within max_tokens_reported before -> detail_count d key before = inr n -> within max_tokens_reported n.
Proof.
  unfold detail_count. destruct (usage_count d key) as [|k] eqn:Hk; [done|]. apply usage_count_within in Hk. simpl.
  destruct k; intros ? [= <-]; done.
Qed.

Ltac counts :=
  repeat match goal with
         | H : bind_err ?x _ = inr _ |- _ => destruct x as [|?] eqn:?; [discriminate H|]; simpl in H
         | H : usage_count _ _ = inr _ |- _ => apply usage_count_within in H
         end.

(** Sums of two counts do not wrap. *)
Lemma sum_counts_exact n a b :
  0 <= n <= max_tokens_reported -> within max_tokens_reported a -> within max_tokens_reported b ->
  sum_counts n [a; b] = n + default 0 a + default 0 b.
Proof.
  intros Hn Ha Hb. unfold within, max_tokens_reported in *. cbn. unfold max_int64 in *.
  assert (H64 : forall z, 0 <= z <= 4000000000000 -> wrap64 z = z) by (intros; apply wrap64_id; unfold min_int64, max_int64; lia).
  destruct a as [a|]; simpl in *; [rewrite (H64 (n + a)) by lia|]; destruct b as [b|]; simpl in *; rewrite ?H64 by lia; lia.
Qed.

Local Arguments sum_counts : simpl never.

Definition usage_within (u : TokenUsage) : Prop :=
  within (3 * max_tokens_reported) (Input u) /\ within max_tokens_reported (Output u) /\
  within max_tokens_reported (CacheRead u) /\ within max_tokens_reported (CacheWrite u).

Lemma within_wider n : within max_tokens_reported n -> within (3 * max_tokens_reported) n.
Proof. destruct n; simpl; unfold max_tokens_reported; lia. Qed.

Lemma openai_usage_within m u : openai_usage m = inr u -> usage_within u.
Proof.
  unfold openai_usage. intros H. counts.
  match goal with
  | H : match m !! "prompt_tokens_details" with None => _ | Some _ => _ end = inr ?c |- _ =>
      assert (Hc : within max_tokens_reported c.1 /\ within max_tokens_reported c.2);
        [destruct (m !! "prompt_tokens_details") as [details|]; [|by injection H as <-];
         destruct (dec_map details None); [|discriminate H];
         apply bind_err_inr in H as (r & Hr & H); apply bind_err_inr in H as (w & Hw & H); injection H as <-;
         apply detail_count_within in Hr; [|done]; apply detail_count_within in Hw; done|]
  end.
  destruct Hc as [Hc1 Hc2]. unfold usage_within.
  destruct (_ : option Z) as [miss|] in H.
  - repeat case_match; try discriminate H; injection H as <-; split_and!; try done; by apply within_wider.
  - injection H as <-. split_and!; try done. by apply within_wider.
Qed.

Lemma anthropic_usage_within m u : anthropic_usage m = inr u -> usage_within u.
Proof.
  unfold anthropic_usage. intros H. counts. injection H as <-. unfold usage_within. simpl. split_and!; try done.
  match goal with |- within _ (_ <$> ?i) => destruct i as [n|]; [|done] end. simpl in *.
  rewrite sum_counts_exact by done.
  repeat match goal with H : within _ ?o |- _ => destruct o; simpl in H end; simpl; unfold max_tokens_reported in *; lia.
Qed.

(** A usage that [ParseUsage] accepts is consistent, with no overflow on
    the way: counts are between zero and 10^12, the input of the Messages API
    includes its cache counts and so stays below 3 * 10^12, and the cache
    counts fit into the input they are part of. *)
Theorem usage_consistent protocol raw u :
  ParseUsage protocol raw = inr u ->
  within (3 * max_tokens_reported) (Input u) /\ within max_tokens_reported (Output u) /\
  within max_tokens_reported (CacheRead u) /\ within max_tokens_reported (CacheWrite u) /\
  forall n, Input u = Some n -> default 0 (CacheRead u) + default 0 (CacheWrite u) <= n.
Proof.
  unfold ParseUsage. destruct (unmarshal_raw _ _ _) as [[m|]|]; [|by intros [= <-]..].
  intros H. apply bind_err_inr in H as (v & Hv & H).
  assert (Hw : within (3 * max_tokens_reported) (Input v) /\ within max_tokens_reported (Output v) /\
               within max_tokens_reported (CacheRead v) /\ within max_tokens_reported (CacheWrite v)).
  { destruct (String.eqb protocol "openai").
    - exact (openai_usage_within _ _ Hv).
    - exact (anthropic_usage_within _ _ Hv). }
  destruct Hw as (H1 & H2 & H3 & H4). destruct (Input v) as [n|] eqn:Hn.
  - destruct (_ <? _) eqn:Hs; [done|]. injection H as <-. rewrite Hn. split_and!; try done. intros ? [= <-].
    rewrite sum_counts_exact in Hs by (done || unfold max_tokens_reported; lia). apply Z.ltb_ge in Hs. lia.
  - injection H as <-. by rewrite Hn.
Qed.

(** ** Finish reasons *)

(** The finish reasons that both protocols have correspond one to one: a
    reason that is translated there and back is the same, without a warning,
    and a reason that has no counterpart is an error and never another
    reason. *)
Theorem finish_reasons_correspond r :
  (forall a, translateOpenAIStopReason (Some r) = inr a -> r <> "" -> translateAnthropicStopReason (Some a) = inr (r, [])) /\
  (forall o, translateAnthropicStopReason (Some r) = inr (o, []) -> r <> "" -> translateOpenAIStopReason (Some o) = inr r) /\
  (r <> "" -> r ∉ ["stop"; "length"; "tool_calls"] ->
     translateOpenAIStopReason (Some r) = inl (TranslationError "unrepresentable_finish_reason" "choices[0].finish_reason")).
Proof.
  destruct (decide (r ∈ [""; "stop"; "length"; "tool_calls"; "end_turn"; "max_tokens"; "tool_use"; "stop_sequence"; "refusal"])) as [Hr|Hr].
  - rewrite !elem_of_cons, elem_of_nil in Hr.
    repeat (destruct Hr as [->|Hr];
      [split_and!; [intros a Ha Hne; vm_compute in Ha; by simplify_eq|intros o Ho Hne; vm_compute in Ho; by simplify_eq|intros Hne Hin; first [done|by destruct Hne|destruct Hin; rewrite !elem_of_cons; by auto 6]]|]).
    done.
  - rewrite !not_elem_of_cons in Hr. destruct Hr as (N1 & N2 & N3 & N4 & N5 & N6 & N7 & N8 & N9 & _).
    assert (Ho : translateOpenAIStopReason (Some r) = inl (TranslationError "unrepresentable_finish_reason" "choices[0].finish_reason")).
    { unfold translateOpenAIStopReason, no_reason. cbv zeta. change (default "" (Some r)) with r.
      by rewrite (proj2 (String.eqb_neq r _) N1), (proj2 (String.eqb_neq r _) N2), (proj2 (String.eqb_neq r _) N3),
        (proj2 (String.eqb_neq r _) N4). }
    assert (Ha : translateAnthropicStopReason (Some r) = inl (TranslationError "unrepresentable_finish_reason" "stop_reason")).
    { unfold translateAnthropicStopReason, no_reason. cbv zeta. change (default "" (Some r)) with r.
      by rewrite (proj2 (String.eqb_neq r _) N1), (proj2 (String.eqb_neq r _) N5), (proj2 (String.eqb_neq r _) N6),
        (proj2 (String.eqb_neq r _) N7), (proj2 (String.eqb_neq r _) N8), (proj2 (String.eqb_neq r _) N9). }
    rewrite Ho, Ha. by split_and!.
Qed.

(** ** Content of a Messages response *)

Definition is_type (kind : string) (b : contentBlock) : bool := String.eqb (block_Type b) kind.
Definition block_texts (b : contentBlock) : list string := if is_type "text" b then option_list (block_Text b) else [].
Definition block_thinking (b : contentBlock) : list string := if is_type "thinking" b then option_list (block_Thinking b) else [].
(** Identifier, name and arguments; the arguments are the bytes of the block's
    input. *)
Definition block_calls (b : contentBlock) : list (string * string * string) :=
  if is_type "tool_use" b then (fun j => (block_ID b, block_Name b, source j)) <$> option_list (block_Input b) else [].
Definition representable (b : contentBlock) : bool := is_type "text" b || is_type "thinking" b || is_type "tool_use" b.
Definition block_warnings (i : Z) (b : contentBlock) : list string := if representable b then [] else [indexed "content" i ".type"].

Lemma collect_block_spec c i b c1 :
  collect_block c i b = Some c1 ->
  collected_text c1 = collected_text c +:+ String.concat "" (block_texts b) /\
  collected_reasoning c1 = collected_reasoning c +:+ String.concat "" (block_thinking b) /\
  collected_calls c1 = collected_calls c ++ block_calls b /\
  collected_warnings c1 = collected_warnings c ++ block_warnings i b.
Proof.
  unfold collect_block, block_texts, block_thinking, block_calls, block_warnings, representable, is_type.
  destruct (String.eqb_spec (block_Type b) "text") as [->|_].
  { destruct (block_Text b) as [t|]; [|done]. intros [= <-]. cbn. by rewrite append_nil, !app_nil_r. }
  destruct (String.eqb_spec (block_Type b) "thinking") as [->|_].
  { destruct (block_Thinking b) as [t|]; intros [= <-]; cbn; by rewrite ?append_nil, !app_nil_r. }
  destruct (String.eqb_spec (block_Type b) "tool_use") as [_|_].
  { destruct (_ || _) eqn:Hbad; [done|]. intros [= <-]. apply orb_false_iff in Hbad as [_ Hobj%negb_false_iff].
    destruct (block_Input b) as [j|]; [|done]. cbn. by rewrite !append_nil, app_nil_r. }
  intros [= <-]. cbn. by rewrite !append_nil, app_nil_r.
Qed.

Lemma collect_blocks_spec bs c i c' :
  collect_blocks c i bs = Some c' ->
  collected_text c' = collected_text c +:+ String.concat "" (bs ≫= block_texts) /\
  collected_reasoning c' = collected_reasoning c +:+ String.concat "" (bs ≫= block_thinking) /\
  collected_calls c' = collected_calls c ++ (bs ≫= block_calls) /\
  collected_warnings c' = collected_warnings c ++ concat (imap (fun k b => block_warnings (i + Z.of_nat k) b) bs).
Proof.
  revert c i. induction bs as [|b bs IH]; intros c i H; simpl in H.
  { injection H as <-. by rewrite !append_nil, !app_nil_r. }
  destruct (collect_block c i b) as [c1|] eqn:Hc; [|done]. apply IH in H as (-> & -> & -> & ->).
  apply collect_block_spec in Hc as (-> & -> & -> & ->). rewrite !bind_cons, !concat_string_app, !append_assoc, <- !(assoc_L _).
  split_and!; try done. rewrite imap_cons. cbn [concat]. rewrite Z.add_0_r. do 3 f_equal. apply imap_ext. intros k x _. cbn. f_equal. lia.
Qed.

(** A translated Messages response carries all its text, its reasoning
    and its tool calls in order, the arguments of a call as the very bytes the
    provider sent, and names every block it leaves out in its warnings. *)
Theorem messages_response_content m defaultModel v warnings :
  translateMessagesResponse m defaultModel = inr (v, warnings) ->
  exists c finish fields usage,
    v = VMap (fields ++ [("choices", VArr [VMap [("index", VInt 0); ("message", collected_message c); ("finish_reason", VStr finish)]])] ++ usage) /\
    collected_text c = String.concat "" (reply_Content m ≫= block_texts) /\
    collected_reasoning c = String.concat "" (reply_Content m ≫= block_thinking) /\
    collected_calls c = reply_Content m ≫= block_calls /\
    (collected_text c <> "" \/ collected_reasoning c <> "" \/ collected_calls c <> []) /\
    forall k b, reply_Content m !! k = Some b -> representable b = false -> indexed "content" (Z.of_nat k) ".type" ∈ warnings.
Proof.
  unfold translateMessagesResponse. destruct (_ || _); [done|]. destruct (collect_blocks _ _ _) as [c|] eqn:Hc; [|done].
  destruct (_ && _ && _) eqn:He; [by destruct (collected_warnings c)|].
  intros H. apply bind_err_inr in H as [finish [_ H]]. injection H as <- <-.
  apply collect_blocks_spec in Hc as (H1 & H2 & H3 & H4). exists c, finish.1, [("id", VStr (reply_ID m)); ("object", VStr "chat.completion");
    ("model", VStr (if String.eqb (reply_Model m) "" then defaultModel else reply_Model m))], (usage_member (translateAnthropicUsage (reply_Usage m) None)).
  split_and!; [done|done|done|done| |].
  - destruct (String.eqb_spec (collected_text c) ""); [|by left]. destruct (String.eqb_spec (collected_reasoning c) ""); [|by right; left].
    right; right. by apply andb_false_iff in He as [?|?%bool_decide_eq_false].
  - intros k b Hk Hb. apply elem_of_sortedUnique. apply elem_of_app; left. rewrite H4. apply list_elem_of_In, in_concat.
    exists (block_warnings (Z.of_nat k) b). split; [|unfold block_warnings; rewrite Hb; by left].
    apply list_elem_of_In, list_elem_of_lookup. exists k. by rewrite list_lookup_imap, Hk.
Qed.

(** ** Content of a chat completion *)

(** A translated chat completion carries its text, its refusal and its
    tool calls in order, each call with its identifier, its name and the
    object that its arguments decode to, in which numbers are doubles; it is
    never empty, and reasoning and
    refusals are named in its warnings. *)
Theorem chat_response_content r defaultModel v warnings :
  translateChatResponse r defaultModel = inr (v, warnings) ->
  exists choice texts tools fields rest,
    response_Choices r = [choice] /\
    let m := choice_Message choice in
    let refusal := if String.eqb (message_Refusal m) "" then [] else [text_value (message_Refusal m)] in
    v = VMap (fields ++ [("content", VArr ((text_value <$> texts) ++ refusal ++ tools))] ++ rest) /\
    content_texts (message_Content m) = Some texts /\
    Forall2 (fun call tool => exists j input, parse (call_Arguments call) = Some j /\ any_object j = Some input /\
               call_ID call <> "" /\ call_Name call <> "" /\
               tool = VMap [("type", VStr "tool_use"); ("id", VStr (call_ID call)); ("name", VStr (call_Name call)); ("input", input)])
      (message_ToolCalls m) tools /\
    (text_value <$> texts) ++ refusal ++ tools <> [] /\
    (message_Reasoning m <> "" -> "choices[0].message.reasoning_content" ∈ warnings) /\
    (message_Refusal m <> "" -> "choices[0].message.refusal" ∈ warnings).
Proof.
  unfold translateChatResponse. destruct (response_Choices r) as [|choice [|]]; [done| |done]. destruct (_ || _); [done|].
  destruct (_ && _ && _ && _); [done|]. destruct (translateOpenAIResponseContent _ _ _) as [content|] eqn:Hc; [|done].
  destruct (String.eqb (firstNonEmpty _ _) ""); [done|]. intros H. apply bind_err_inr in H as [finish [_ H]]. injection H as <- <-.
  unfold translateOpenAIResponseContent in Hc. destruct (content_texts _) as [texts|] eqn:Ht; [|done]. cbn in Hc.
  destruct (mapM tool_use_value _) as [tools|] eqn:Htools; [|done]. cbn in Hc. case_bool_decide as Hne; [done|]. injection Hc as <-.
  exists choice, texts, tools, [("id", VStr (response_ID r)); ("type", VStr "message"); ("role", VStr "assistant");
    ("model", VStr (firstNonEmpty (response_Model r) defaultModel))],
    ([("stop_reason", VStr finish); ("stop_sequence", VNull)] ++ usage_member (translateOpenAIUsage (response_Usage r))).
  split; [done|]. cbv zeta. split_and!; [done|done| |done| |].
  - apply mapM_Some in Htools. eapply Forall2_impl; [exact Htools|]. intros call tool. unfold tool_use_value.
    destruct (_ || _) eqn:Hid; [done|]. apply orb_false_iff in Hid as [H1%String.eqb_neq H2%String.eqb_neq].
    destruct (parse (call_Arguments call)) as [j|] eqn:Hp; [|done]. cbn. destruct (any_object j) as [input|] eqn:Ho; [|done].
    intros [= <-]. by exists j, input.
  - intros Hr. apply elem_of_sortedUnique, elem_of_app; left. apply String.eqb_neq in Hr. rewrite Hr. by left.
  - intros Hr. apply elem_of_sortedUnique, elem_of_app; right. apply String.eqb_neq in Hr. rewrite Hr. by left.
Qed.
