(* ===== verification/TranslationFacts.v ===== *)
(** * What the translation of requests keeps

    Content and order of the messages in both directions, what is refused,
    and what the warnings name. *)

From S2P Require Import Prelude GoStrings GoFloat Json Streams StreamFacts ResponseFacts InputFacts RequestMessages.

(** ** The messages of the Messages API *)

(** What a user's blocks say, independently of how they are grouped: text as
    characters, and the results of tools. *)
Inductive part := Said (c : Ascii.ascii) | Result (id text : string).
Definition chars (s : string) : list part := Said <$> String.list_ascii_of_string s.

Lemma chars_app s t : chars (s +:+ t) = chars s ++ chars t.
Proof. unfold chars. rewrite <- fmap_app. f_equal. induction s as [|c s IH]; [done|]. rewrite append_cons. simpl. by rewrite IH. Qed.

Section messages.
Context (IsPrint : Z -> bool) (ToLower : string -> string) {Range : MapRange string json}.

Definition result_text (b : contentBlock) : option string :=
  (fun content => if default false (block_IsError b) then "Tool error: " +:+ content else content) <$>
  anthropicToolResultText ToLower (block_Content b).
Definition user_parts (b : contentBlock) : list part :=
  if is_type "text" b then default [] (chars <$> block_Text b)
  else if is_type "tool_result" b then (fun text => Result (block_ToolUseID b) text) <$> option_list (result_text b) else [].

(** A message for the provider that says these parts. *)
Definition says (m : sent_message) (parts : list part) : Prop :=
  (exists text, m = new_message "user" (Quote IsPrint text) /\ parts = chars text) \/
  (exists id text, m = (new_message "tool" (Quote IsPrint text)) <| msg_ToolCallID := id |> /\ id <> "" /\ parts = [Result id text]).

Definition pending (text : option string) : list part := default [] (chars <$> text).

Lemma flush_says text out : exists new parts,
  flush_text IsPrint text out = out ++ new /\ Forall2 says new parts /\ concat parts = pending text.
Proof.
  destruct text as [t|]; [|by exists [], []; rewrite app_nil_r]. exists [new_message "user" (Quote IsPrint t)], [chars t].
  cbn. rewrite app_nil_r. split_and!; [done| |done]. constructor; [|constructor]. left. by exists t.
Qed.

Lemma user_blocks_parts message index blocks text out out' :
  user_blocks IsPrint ToLower message index blocks text out = inr out' ->
  exists new parts, out' = out ++ new /\ Forall2 says new parts /\ concat parts = pending text ++ (blocks ≫= user_parts).
Proof.
  revert index text out. induction blocks as [|b blocks IH]; intros index text out H; cbn [user_blocks] in H.
  { injection H as <-. destruct (flush_says text out) as (new & parts & -> & H1 & H2). exists new, parts. by rewrite app_nil_r. }
  rewrite bind_cons. unfold user_parts at 1. unfold is_type. destruct (String.eqb (block_Type b) "text") eqn:Ht.
  - destruct (block_Text b) as [t|]; [|done]. apply IH in H as (new & parts & -> & H1 & H2). exists new, parts. split_and!; [done|done|].
    rewrite H2. cbn. rewrite app_assoc. f_equal. destruct text as [s|]; cbn; [apply chars_app|done].
  - destruct (String.eqb (block_Type b) "tool_result") eqn:Hr; [|done]. destruct (String.eqb_spec (block_ToolUseID b) "") as [|Hid]; [done|].
    unfold result_text. destruct (anthropicToolResultText ToLower (block_Content b)) as [content|]; [|done]. cbn [fmap option_fmap option_map option_list].
    destruct (flush_says text out) as (new0 & parts0 & Hflush & H01 & H02). rewrite Hflush in H.
    apply IH in H as (new & parts & -> & H1 & H2). eexists (new0 ++ [_] ++ new), (parts0 ++ [[_]] ++ parts). split_and!.
    + by rewrite <- !app_assoc.
    + apply Forall2_app; [done|]. constructor; [|done]. right. by eexists _, _.
    + rewrite !concat_app, H02, H2. done.
Qed.

Definition call_of (c : string * string * string) : ToolCall :=
  {| call_ID := c.1.1; call_Type := "function"; call_Name := c.1.2; call_Arguments := c.2 |}.

Lemma assistant_blocks_parts message index blocks text calls text' calls' :
  assistant_blocks message index blocks text calls = inr (text', calls') ->
  text' = text +:+ String.concat "" (blocks ≫= block_texts) /\ calls' = calls ++ (call_of <$> (blocks ≫= block_calls)).
Proof.
  revert index text calls. induction blocks as [|b blocks IH]; intros index text calls H; cbn [assistant_blocks] in H.
  { injection H as <- <-. by rewrite append_nil, app_nil_r. }
  rewrite !bind_cons, concat_string_app, fmap_app, <- append_assoc, app_assoc. unfold block_texts at 1, block_calls at 1, is_type.
  destruct (String.eqb_spec (block_Type b) "text") as [->|_].
  - destruct (block_Text b) as [t|]; [|done]. apply IH in H as [-> ->]. cbn. by rewrite app_nil_r.
  - destruct (String.eqb (block_Type b) "tool_use"); [|done]. destruct (_ || _) eqn:Hbad; [done|].
    apply orb_false_iff in Hbad as [_ Hobj%negb_false_iff]. apply IH in H as [-> ->].
    destruct (block_Input b) as [j|]; [|done]. cbn. by rewrite append_nil.
Qed.

(** The messages for the provider that convey one of the client. *)
Definition conveyed (m : client_message) (out : list sent_message) : Prop :=
  (exists text, raw_string (msg_Content m) = Some text /\ out = [new_message (msg_Role m) (raw_source (msg_Content m))]) \/
  exists blocks, text_blocks ToLower (msg_Content m) = Some blocks /\
    (msg_Role m = "assistant" /\
       (let text := String.concat "" (blocks ≫= block_texts) in
        out = [(new_message "assistant" (if String.eqb text "" then "" else Quote IsPrint text))
                 <| msg_ToolCalls := call_of <$> (blocks ≫= block_calls) |>]) \/
     msg_Role m = "user" /\ out <> [] /\ (exists parts, Forall2 says out parts /\ concat parts = blocks ≫= user_parts) \/
     msg_Role m = "system" /\ out = [new_message "system" (raw_source (msg_Content m))]).

Lemma translate_message_conveyed index m out :
  translate_anthropic_message IsPrint ToLower index m = inr out -> conveyed m out.
Proof.
  unfold translate_anthropic_message, conveyed. destruct (raw_blank (msg_Content m)); [done|].
  destruct (raw_string (msg_Content m)) as [text|]; [intros [= <-]; left; by exists text|].
  destruct (text_blocks ToLower (msg_Content m)) as [[|b blocks]|] eqn:Hb; [done| |done].
  set (bs := b :: blocks). intros H. right. exists bs. split; [done|].
  destruct (String.eqb_spec (msg_Role m) "assistant") as [Ha|_].
  { left. split; [done|]. apply bind_err_inr in H as (t & Ht & H). injection H as <-.
    apply bind_err_inr in Ht as ([text calls] & Htc & Ht). injection Ht as <-. by apply assistant_blocks_parts in Htc as [-> ->]. }
  destruct (String.eqb_spec (msg_Role m) "user") as [Hu|_].
  { right. left. split; [done|]. apply bind_err_inr in H as (o & Ho & H). case_bool_decide as Hne; [done|]. injection H as <-.
    split; [done|]. apply user_blocks_parts in Ho as (new & parts & -> & H1 & H2). by exists parts. }
  destruct (String.eqb_spec (msg_Role m) "system") as [Hs|_]; [|done]. injection H as <-. by right; right.
Qed.

(** C18. The translation of a Messages request keeps its messages in order.  A
    string stays as it is, an assistant's text and tool calls are kept with
    the source of each input, and what a user says, texts and tool results
    with their errors marked, appears in the same order, character by
    character, in messages for the roles user and tool. *)
Theorem anthropic_messages_kept system messages text out :
  translateAnthropicMessages IsPrint ToLower system messages = inr (text, out) ->
  anthropicSystemText ToLower system = Some text /\ exists outs, out = concat outs /\ Forall2 conveyed messages outs.
Proof.
  unfold translateAnthropicMessages. destruct (anthropicSystemText ToLower system) as [t|]; [|done].
  intros H. apply bind_err_inr in H as (o & Ho & H). injection H as <- <-. split; [done|].
  assert (Hloop : forall index, translate_anthropic_loop IsPrint ToLower index messages = inr o ->
            exists outs, o = concat outs /\ Forall2 conveyed messages outs); [|by apply (Hloop 0%nat)].
  clear Ho. revert o. induction messages as [|m messages IH]; intros o index H; cbn [translate_anthropic_loop] in H.
  { injection H as <-. by exists []. }
  apply bind_err_inr in H as (o1 & H1 & H). apply bind_err_inr in H as (o2 & H2 & H). injection H as <-.
  apply IH in H2 as (outs & -> & Hall). exists (o1 :: outs). split; [done|]. constructor; [by eapply translate_message_conveyed|done].
Qed.
End messages.

(** ** The messages of a chat completion *)

(** A document that has passed the walk has numbers that are doubles. *)
Lemma walk_any ToLower j : walk ToLower j = true -> exists v, any j = Some v.
Proof.
  revert j. fix IH 1. intros [|b|s|s v|s items|s members]; cbn [walk any]; intros H; try by eexists.
  - destruct (FloatText.ParseFloat s); [by eexists|done].
  - assert (Hi : exists vs, mapM any items = Some vs); [|destruct Hi as [vs ->]; by eexists].
    induction items as [|j items IHi]; cbn in *; [by eexists|]. apply andb_true_iff in H as [Hj H].
    destruct (IH j Hj) as [v ->], (IHi H) as [vs ->]. by eexists.
  - apply andb_true_iff in H as [_ H].
    assert (Hi : exists vs, mapM (fun kv => (fun v => (kv.1, v)) <$> any kv.2) members = Some vs); [|destruct Hi as [vs ->]; by eexists].
    induction members as [|[k j] members IHm]; cbn in *; [by eexists|]. apply andb_true_iff in H as [Hj H].
    destruct (IH j Hj) as [v ->], (IHm H) as [vs ->]. by eexists.
Qed.

(** What a client is to take for the value of a text: the same value, except
    that a number is the double nearest to it, and that of members of one name
    the last one counts. *)
Inductive decoded : json -> value -> Prop :=
  | decoded_null : decoded JNull VNull
  | decoded_bool b : decoded (JBool b) (VBool b)
  | decoded_number s x : FloatText.ParseFloat s = Some x -> decoded (JNum s) (VFloat x)
  | decoded_text s v : decoded (JStr s v) (VStr v)
  | decoded_array s items vs : Forall2 decoded items vs -> decoded (JArr s items) (VArr vs)
  | decoded_object s members l :
      NoDup l.*1 -> (forall k, k ∈ l.*1 <-> k ∈ members.*1) ->
      (forall k v, (k, v) ∈ l -> exists j, last_member k members = Some j /\ decoded j v) ->
      decoded (JObj s members) (VMap l).

(** The members that [put] keeps: each name once, with its last value. *)
Lemma put_all {A} (l : list (string * A)) :
  let r := foldl put [] l in
  NoDup r.*1 /\ (forall k, k ∈ r.*1 <-> k ∈ l.*1) /\
  forall k v, (k, v) ∈ r -> snd <$> last (List.filter (fun kv => String.eqb kv.1 k) l) = Some v.
Proof.
  cbv zeta. induction l as [|[k v] l (H1 & H2 & H3)] using rev_ind; [split_and!; [constructor|done|by intros k v ?%elem_of_nil]|].
  rewrite foldl_snoc. unfold put at 1 3 5. cbn [fst]. set (r := foldl put [] l) in *.
  assert (Hr : forall x, x ∈ filter (fun x : string * A => x.1 <> k) r <-> x.1 <> k /\ x ∈ r) by (intros x; by rewrite list_elem_of_filter). split_and!.
  - rewrite fmap_app. apply NoDup_app. split_and!; [|intros x Hx|apply NoDup_singleton].
    + eapply sublist_NoDup; [exact H1|]. apply fmap_sublist. clear. induction r as [|x r IH]; [constructor|]. rewrite filter_cons. case_decide; by constructor.
    + apply list_elem_of_fmap in Hx as (y & -> & Hy). apply Hr in Hy as [Hy _]. by intros ?%list_elem_of_singleton.
  - intros k'. rewrite !fmap_app, !elem_of_app. cbn. rewrite !list_elem_of_singleton, <- H2. split; (intros [Hk|Hk]; [|by right]).
    + left. apply list_elem_of_fmap in Hk as (y & -> & Hy). apply Hr in Hy as [_ Hy]. by apply list_elem_of_fmap_2.
    + destruct (decide (k' = k)) as [|Hne]; [by right|]. left. apply list_elem_of_fmap in Hk as (y & -> & Hy). apply list_elem_of_fmap_2, Hr. done.
  - intros k' v'. rewrite elem_of_app, Hr, List.filter_app. cbn [List.filter fst]. intros [[Hne Hin]|[= -> ->]%list_elem_of_singleton].
    + cbn in Hne. destruct (String.eqb_spec k k') as [->|_]; [done|]. rewrite app_nil_r. by apply H3.
    + rewrite String.eqb_refl. by rewrite last_snoc.
Qed.

(** The decoded members of the same names, in the same places. *)
Lemma last_decoded members (l : list (string * value)) k v :
  Forall2 (fun kv x => x.1 = kv.1 /\ any kv.2 = Some x.2) members l ->
  snd <$> last (List.filter (fun kv => String.eqb kv.1 k) l) = Some v ->
  exists j, last_member k members = Some j /\ (k, j) ∈ members /\ any j = Some v.
Proof.
  unfold last_member. revert l. induction members as [|kv members IH] using rev_ind; intros l H; [by apply Forall2_nil_inv_l in H as ->|].
  apply Forall2_app_inv_l in H as (l1 & l2 & Hall & Hx & ->). apply Forall2_cons_inv_l in Hx as (x & l3 & [E Hv] & ->%Forall2_nil_inv_l & ->).
  rewrite !List.filter_app. cbn [List.filter]. rewrite E. destruct (String.eqb_spec kv.1 k) as [<-|].
  - rewrite !last_snoc. cbn. intros [= <-]. exists kv.2. split_and!; [done| |done]. apply elem_of_app. right. apply list_elem_of_singleton. by destruct kv.
  - rewrite !app_nil_r. intros Hl. destruct (IH l1 Hall Hl) as (j & H1 & H2 & H3). exists j. split_and!; [done|apply elem_of_app; by left|done].
Qed.

Lemma any_decoded j v : any j = Some v -> decoded j v.
Proof.
  revert j v. fix IH 1. intros [|b|s|s x|s items|s members] v; cbn [any].
  - intros [= <-]. constructor.
  - intros [= <-]. constructor.
  - destruct (FloatText.ParseFloat s) eqn:E; [|done]. intros [= <-]. by constructor.
  - intros [= <-]. constructor.
  - intros (vs & Hvs & ->)%fmap_Some. constructor. apply mapM_Some in Hvs. revert vs Hvs.
    induction items as [|j items IHi]; intros vs H; inversion H; subst; constructor; [by apply IH|by apply IHi].
  - intros (l & Hl & H)%bind_Some. injection H as <-. apply mapM_Some in Hl.
    assert (Hall : forall k j w, (k, j) ∈ members -> any j = Some w -> decoded j w).
    { clear Hl. induction members as [|[k' j'] members IHm]; intros k j w Hin; [by apply elem_of_nil in Hin|]. apply elem_of_cons in Hin as [[= -> ->]|Hin]; [apply IH|by eapply IHm]. }
    assert (Hm : Forall2 (fun kv x => x.1 = kv.1 /\ any kv.2 = Some x.2) members l).
    { eapply Forall2_impl; [exact Hl|]. cbn. intros [k j] [k' w] (w' & Hw & [= -> ->])%fmap_Some. done. }
    destruct (put_all l) as (H1 & H2 & H3). constructor; [done| |].
    + intros k. rewrite H2. replace (l.*1) with (members.*1); [done|]. clear -Hm. induction Hm as [|kv x ms l [E _] _ IHm]; [done|]. cbn. by rewrite E, IHm.
    + intros k w Hin. apply H3 in Hin. destruct (last_decoded members l k w Hm Hin) as (j & J1 & J2 & J3). exists j. split; [done|]. by eapply Hall.
Qed.

Section chat.
Context (IsPrint : Z -> bool) (ToLower : string -> string) {Range : MapRange string json}.

(** The values of a raw array. *)
Definition values_of (raw : RawMessage) (vs : list value) : Prop :=
  exists text items, raw = Some (JArr text items) /\ Forall2 decoded items vs.
(** The blocks that an assistant's content becomes before its calls. *)
Definition content_blocks (raw : RawMessage) (blocks : list value) : Prop :=
  raw_blank raw = true /\ blocks = [] \/ (exists text, raw_string raw = Some text /\ blocks = [text_block text]) \/ values_of raw blocks.
Definition call_block (call : ToolCall) (v : value) : Prop :=
  exists text members input, parse (call_Arguments call) = Some (JObj text members) /\ decoded (JObj text members) input /\
    v = VMap [("type", VStr "tool_use"); ("id", VStr (call_ID call)); ("name", VStr (call_Name call)); ("input", input)].

(** A message of the Messages API, its role and raw content, that conveys one
    of the client. *)
Definition conveyed_chat (m : client_message) (sent : string * string) : Prop :=
  msg_Role m = "tool" /\ msg_ToolCallID m <> "" /\
    sent = ("user", Marshal (VArr [VMap [("type", VStr "tool_result"); ("tool_use_id", VStr (msg_ToolCallID m));
                                         ("content", raw_value (msg_Content m))]])) \/
  msg_Role m <> "tool" /\ msg_ToolCalls m = [] /\ sent = (msg_Role m, raw_source (msg_Content m)) \/
  msg_Role m <> "tool" /\ msg_ToolCalls m <> [] /\
    exists blocks calls, sent = (msg_Role m, Marshal (VArr (blocks ++ calls))) /\
      content_blocks (msg_Content m) blocks /\ Forall2 call_block (msg_ToolCalls m) calls.

Definition system_parts (m : client_message) (parts : list value) : Prop :=
  (exists text, raw_string (msg_Content m) = Some text /\ parts = [text_block text]) \/
  raw_string (msg_Content m) = None /\ values_of (msg_Content m) parts.
Definition system_text (m : client_message) : option string := raw_string (msg_Content m).
(** The system prompt of these messages: their texts, one per line, or all
    their parts when one of them has blocks. *)
Definition system_prompt (l : list client_message) (system : string) : Prop :=
  exists parts, Forall2 system_parts l parts /\
    system = if existsb (fun m => is_nil (system_text m)) l then Marshal (VArr (concat parts))
             else if bool_decide (omap system_text l = []) then "" else Quote IsPrint (Strings.Join (omap system_text l) nl).

Lemma lenient_values {A} (d : decoder A) zero raw x :
  LenientJSON ToLower d zero raw = Some x -> exists j, raw = Some j /\ walk ToLower j = true /\ j <> JNull /\ d j zero = Some x.
Proof.
  unfold LenientJSON, decodeJSON. destruct raw as [j|]; [|done]. cbn [mbind option_bind]. destruct (walk ToLower j) eqn:Hw; [|done].
  intros H. exists j. split_and!; [done|done|by intros ->|by destruct j].
Qed.

Lemma mapM_any items vs : mapM any items = Some vs -> Forall2 decoded items vs.
Proof. intros H%mapM_Some. eapply Forall2_impl; [exact H|]. exact any_decoded. Qed.

Lemma calls_blocks calls vs : mapM tool_use_block calls = Some vs -> Forall2 call_block calls vs.
Proof.
  intros H%mapM_Some. eapply Forall2_impl; [exact H|]. intros c v Hv. unfold tool_use_block in Hv.
  destruct (parse (call_Arguments c)) as [j|] eqn:Hj; [|done]. cbn in Hv. destruct (any_object j) as [input|] eqn:Hi; [|done].
  injection Hv as <-. destruct j as [| | | | |text members]; try done. exists text, members, input. split_and!; [done|by apply any_decoded|done].
Qed.

Lemma translate_content_conveyed m raw : translateMessageContent ToLower m = inr raw ->
  conveyed_chat m (if String.eqb (msg_Role m) "tool" then "user" else msg_Role m, raw).
Proof.
  unfold translateMessageContent, conveyed_chat. destruct (String.eqb_spec (msg_Role m) "tool") as [Hr|Hr].
  { destruct (String.eqb_spec (msg_ToolCallID m) ""); [done|]. intros [= <-]. by left. }
  case_bool_decide as Hc; [intros [= <-]; right; by left|]. intros H. right. right. split_and!; [done|done|].
  apply bind_err_inr in H as (blocks & Hb & H). destruct (mapM tool_use_block (msg_ToolCalls m)) as [calls|] eqn:Hcalls; [|done].
  injection H as <-. exists blocks, calls. split_and!; [done| |by apply calls_blocks]. unfold content_blocks.
  destruct (raw_blank (msg_Content m)); [injection Hb as <-; by left|]. right.
  destruct (raw_string (msg_Content m)) as [text|]; [injection Hb as <-; left; by exists text|]. right.
  destruct (LenientJSON _ _ _ _) as [vs|] eqn:Hl; [|done]. injection Hb as <-.
  apply lenient_values in Hl as (j & Hj & _ & _ & Hd). destruct j as [| | | |text items|]; try done. exists text, items. split; [done|by apply mapM_any].
Qed.

Lemma system_message_parts t m t' : system_message ToLower t m = inr t' ->
  exists parts, system_parts m parts /\ tr_systemParts t' = tr_systemParts t ++ parts /\
    tr_systemText t' = tr_systemText t ++ option_list (system_text m) /\
    tr_hasSystemBlocks t' = tr_hasSystemBlocks t || is_nil (system_text m) /\ tr_out t' = tr_out t.
Proof.
  unfold system_message, system_parts, system_text. destruct (raw_string (msg_Content m)) as [text|].
  { intros [= <-]. exists [text_block text]. split; [left; by exists text|]. cbn. by rewrite orb_false_r. }
  destruct (LenientJSON _ _ _ _) as [[|b bs]|] eqn:Hl; [done| |done]. destruct (mapM any (b :: bs)) as [parts|] eqn:Hp; [|done].
  intros [= <-]. exists parts. cbn. rewrite app_nil_r, orb_true_r. split_and!; try done. right. split; [done|].
  apply lenient_values in Hl as (j & Hj & _ & _ & Hd). destruct j as [| | | |text items|]; try done. injection Hd as ->.
  exists text, (b :: bs). split; [done|by apply mapM_any].
Qed.

Lemma translate_loop_spec t messages t' : translate_loop ToLower t messages = inr t' ->
  let system := List.filter is_system messages in
  exists out parts,
    tr_out t' = tr_out t ++ out /\ Forall2 conveyed_chat (List.filter (fun m => negb (is_system m)) messages) out /\
    tr_systemParts t' = tr_systemParts t ++ concat parts /\ Forall2 system_parts system parts /\
    tr_systemText t' = tr_systemText t ++ omap system_text system /\
    tr_hasSystemBlocks t' = tr_hasSystemBlocks t || existsb (fun m => is_nil (system_text m)) system.
Proof.
  revert t. induction messages as [|m messages IH]; intros t H; cbn [translate_loop] in H.
  { injection H as <-. exists [], []. cbn. rewrite !app_nil_r, orb_false_r. by split_and!. }
  apply bind_err_inr in H as (t1 & H1 & H). apply IH in H as (out & parts & A & B & C & D & E & F). unfold translate_message in H1.
  cbn [List.filter]. destruct (is_system m); cbn [negb].
  - apply system_message_parts in H1 as (ps & Hps & C1 & E1 & F1 & A1). exists out, (ps :: parts).
    rewrite A, C, E, F, A1, C1, E1, F1, <- !app_assoc. split_and!; try done; [by constructor| |].
    + f_equal. cbn. by destruct (system_text m).
    + cbn. by rewrite orb_assoc.
  - apply bind_err_inr in H1 as (raw & Hraw & H1). injection H1 as <-. cbn in A, C, E, F. eexists (_ :: out), parts.
    rewrite A, <- app_assoc. split_and!; try done. constructor; [|done]. by apply translate_content_conveyed.
Qed.

(** C19. The translation of a chat completion request keeps its messages: the
    system and developer messages together, in order, as the system prompt,
    and every other one in order with its content, a tool result under the
    role of the user, an assistant's calls after its content with the objects
    that their arguments denote.  Blocks that are encoded again - the calls, the
    content before them, and a system prompt of blocks - keep their values up
    to numbers, which become doubles: an integer above 2^53 in the arguments of
    a call can change ([request_arguments_change]). *)
Theorem chat_messages_kept messages system out :
  translateMessages IsPrint ToLower messages = inr (system, out) ->
  out <> [] /\ Forall2 conveyed_chat (List.filter (fun m => negb (is_system m)) messages) out /\
  system_prompt (List.filter is_system messages) system.
Proof.
  unfold translateMessages. intros H. apply bind_err_inr in H as (t & Ht & H).
  apply translate_loop_spec in Ht as (o & parts & A & B & C & D & E & F). cbn in A, C, E, F.
  case_bool_decide as Ho; [done|]. injection H as <- <-. rewrite A in Ho |- *. split_and!; [done|done|].
  exists parts. split; [done|]. by rewrite C, E, F.
Qed.

(** ** What is refused *)

Lemma bind_err_inl {E A B} (x : E + A) (f : A -> E + B) e : bind_err x f = inl e -> x = inl e \/ exists a, x = inr a /\ f a = inl e.
Proof. destruct x as [e'|a]; cbn; [intros [= <-]; by left|right; by exists a]. Qed.

(** Content that the validation accepts is a string or a list of values. *)
Lemma content_values raw : messageContent ToLower "openai" raw = true ->
  (exists text, raw_string raw = Some text) \/
  exists text item items vs, raw = Some (JArr text (item :: items)) /\ walk ToLower (JArr text (item :: items)) = true /\
    mapM any (item :: items) = Some vs.
Proof.
  unfold messageContent. destruct (raw_string raw) as [text|]; cbn [is_nil negb andb]; [by left; exists text|]. cbn [String.eqb Ascii.eqb Bool.eqb].
  destruct (LenientJSON _ _ _ _) as [bs|] eqn:Hl; [|done]. intros Hbs. right.
  apply lenient_values in Hl as (j & -> & Hw & Hn & Hd). destruct j as [| | | |text items|]; try done.
  destruct items as [|item items]; [injection Hd as <-; done|]. pose proof (walk_any _ _ Hw) as [v Hv]. cbn [any] in Hv.
  exists text, item, items. destruct (mapM any (item :: items)) as [vs|]; [by exists vs|done].
Qed.

Lemma lenient_array {A} (d : decoder A) zero text items :
  walk ToLower (JArr text items) = true -> LenientJSON ToLower d zero (Some (JArr text items)) = d (JArr text items) zero.
Proof. intros H. unfold LenientJSON, decodeJSON. cbn [mbind option_bind]. by rewrite H. Qed.

Definition unusable_call (c : ToolCall) : Prop := (j ← parse (call_Arguments c); any_object j) = None.

Lemma translate_message_refused t m code : message_ok ToLower "openai" m -> translate_message ToLower t m = inl code ->
  code = "tool_calls" /\ exists c, c ∈ msg_ToolCalls m /\ unusable_call c.
Proof.
  intros Hm H. unfold translate_message in H. destruct (is_system m) eqn:Hs.
  - exfalso. unfold is_system in Hs. rewrite orb_true_iff, !String.eqb_eq in Hs.
    destruct (ok_content _ _ _ Hm) as [Hc|(_ & Hr & _)]; [|destruct Hs; congruence]. unfold system_message in H.
    destruct (content_values _ Hc) as [[text Ht]|(text & item & items & vs & Hraw & Hw & Hvs)]; [by rewrite Ht in H|].
    rewrite Hraw in H. change (raw_string (Some (JArr text (item :: items)))) with (@None string) in H.
    rewrite lenient_array in H by done. cbn [raw_items] in H. by rewrite Hvs in H.
  - apply bind_err_inl in H as [H|(raw & _ & H)]; [|done]. unfold translateMessageContent in H.
    destruct (String.eqb_spec (msg_Role m) "tool") as [Hr|Hr].
    { exfalso. apply (ok_result _ _ _ Hm) in Hr. by destruct (String.eqb_spec (msg_ToolCallID m) ""). }
    case_bool_decide as Hc; [done|]. apply bind_err_inl in H as [H|(blocks & _ & H)].
    + exfalso. destruct (raw_blank (msg_Content m)) eqn:Hblank; [done|].
      destruct (ok_content _ _ _ Hm) as [Hok|(_ & _ & _ & Hb)]; [|congruence].
      destruct (content_values _ Hok) as [[text Ht]|(text & item & items & vs & Hraw & Hw & Hvs)]; [by rewrite Ht in H|].
      rewrite Hraw in H. change (raw_string (Some (JArr text (item :: items)))) with (@None string) in H.
      rewrite lenient_array in H by done. by rewrite Hvs in H.
    + destruct (mapM tool_use_block (msg_ToolCalls m)) as [|] eqn:Hcalls; [done|]. injection H as <-. split; [done|].
      apply mapM_None, Exists_exists in Hcalls as (c & Hc1 & Hc2). exists c. split; [done|]. unfold tool_use_block in Hc2.
      unfold unusable_call. by destruct (j ← parse (call_Arguments c); any_object j).
Qed.

Lemma translate_loop_refused t messages code : Forall (message_ok ToLower "openai") messages ->
  translate_loop ToLower t messages = inl code ->
  code = "tool_calls" /\ exists m c, m ∈ messages /\ c ∈ msg_ToolCalls m /\ unusable_call c.
Proof.
  intros Hall. revert t. induction Hall as [|m messages Hm Hall IH]; intros t H; [done|]. cbn [translate_loop] in H.
  apply bind_err_inl in H as [H|(t1 & _ & H)].
  - apply translate_message_refused in H as (-> & c & Hc); [|done]. split; [done|]. exists m, c. split; [by left|done].
  - apply IH in H as (-> & m' & c & Hm' & Hc). split; [done|]. exists m', c. split; [by right|done].
Qed.

(** The messages of a chat completion request that has passed the
    validation are refused by the translation for two reasons only: the
    arguments of a tool call are no JSON object, or there is no message
    besides the system prompt. *)
Theorem chat_messages_refused messages code :
  Forall (message_ok ToLower "openai") messages ->
  translateMessages IsPrint ToLower messages = inl code ->
  code = "tool_calls" /\ (exists m c, m ∈ messages /\ c ∈ msg_ToolCalls m /\ unusable_call c) \/
  code = "messages" /\ Forall (fun m => is_system m = true) messages.
Proof.
  intros Hall H. unfold translateMessages in H. apply bind_err_inl in H as [H|(t & Ht & H)].
  - left. by eapply translate_loop_refused.
  - right. apply translate_loop_spec in Ht as (out & _ & A & B & _). case_bool_decide as Ho; [|done]. injection H as <-. split; [done|].
    rewrite Ho in A. symmetry in A. apply app_nil in A as [_ ->]. apply Forall2_nil_inv_r in B. apply Forall_forall. intros m Hm.
    destruct (is_system m) eqn:Hs; [done|]. exfalso.
    assert (Hin : m ∈ List.filter (fun m => negb (is_system m)) messages) by (rewrite list_elem_of_In, filter_In, <- list_elem_of_In, Hs; done).
    rewrite B in Hin. by apply elem_of_nil in Hin.
Qed.
End chat.

(** ** What the warnings name *)

Lemma elem_of_map_from {A B} (f : nat -> A -> list B) n l w :
  w ∈ concat (map_from f n l) <-> exists k x, l !! k = Some x /\ w ∈ f (n + k)%nat x.
Proof.
  revert n. induction l as [|x l IH]; intros n; cbn [map_from concat].
  - split; [by intros ?%elem_of_nil|by intros (k & y & H & _)].
  - rewrite elem_of_app, IH. split.
    + intros [H|(k & y & H1 & H2)]; [exists 0%nat, x; by rewrite Nat.add_0_r|exists (S k), y; by rewrite Nat.add_succ_r].
    + intros ([|k] & y & H1 & H2); [injection H1 as ->; left; by rewrite Nat.add_0_r in H2|].
      right. exists k, y. by rewrite Nat.add_succ_r in H2.
Qed.
Lemma elem_of_map_index {A B} (f : nat -> A -> list B) l w : w ∈ concat (map_index f l) <-> exists k x, l !! k = Some x /\ w ∈ f k x.
Proof. apply elem_of_map_from. Qed.
(** The member that a decoder sees, the last of its name. *)
Definition last_such {A} (P : A -> bool) (l : list A) (x : A) : Prop :=
  exists l1 l2, l = l1 ++ x :: l2 /\ P x = true /\ Forall (fun y => P y = false) l2.
Lemma elem_of_last {A B} (P : A -> bool) (g : A -> list B) l w :
  w ∈ foldl (fun acc x => if P x then g x else acc) [] l <-> exists x, last_such P l x /\ w ∈ g x.
Proof.
  unfold last_such. induction l as [|y l IH] using rev_ind; cbn.
  - split; [by intros ?%elem_of_nil|]. intros (x & (l1 & l2 & H & _) & _). by destruct l1.
  - rewrite foldl_snoc. destruct (P y) eqn:Hy.
    + split; [intros Hw; exists y; split; [by exists l, []|done]|].
      intros (x & (l1 & l2 & E & Hx & Hall) & Hw). destruct l2 as [|z l2 _] using rev_ind.
      * by apply app_inj_tail in E as [_ ->].
      * rewrite app_comm_cons, app_assoc in E. apply app_inj_tail in E as [_ ->]. rewrite Forall_app, Forall_singleton in Hall. destruct Hall. congruence.
    + rewrite IH. split; intros (x & (l1 & l2 & E & Hx & Hall) & Hw); exists x; (split; [|done]).
      * exists l1, (l2 ++ [y]). rewrite E, <- app_assoc. split_and!; [done|done|]. by apply Forall_app_2; [|constructor].
      * destruct l2 as [|z l2 _] using rev_ind; [apply app_inj_tail in E as [_ ->]; congruence|].
        rewrite app_comm_cons, app_assoc in E. apply app_inj_tail in E as [-> ->]. exists l1, l2. apply Forall_app in Hall as [? _]. done.
Qed.

Section losses.
Context (IsPrint : Z -> bool) (ToLower : string -> string) {Range : MapRange string json}.

(** The fields of the blocks of [j], at the path [prefix], that chat
    completions have no place for: marks of the cache, and the errors of tool
    results, also inside the results. *)
Inductive block_loss : json -> string -> string -> Prop :=
  | loss_cache text items blocks prefix k b :
      text_blocks ToLower (Some (JArr text items)) = Some blocks -> blocks !! k = Some b -> block_CacheControl b <> None ->
      block_loss (JArr text items) prefix (item_path prefix k +:+ ".cache_control")
  | loss_error text items blocks prefix k b :
      text_blocks ToLower (Some (JArr text items)) = Some blocks -> blocks !! k = Some b ->
      block_Type b = "tool_result" -> block_IsError b = Some true ->
      block_loss (JArr text items) prefix (item_path prefix k +:+ ".is_error")
  | loss_content text items blocks prefix k b source members kv path :
      text_blocks ToLower (Some (JArr text items)) = Some blocks -> blocks !! k = Some b ->
      block_Type b = "tool_result" -> items !! k = Some (JObj source members) ->
      last_such (fun kv : string * json => same_name "content" kv.1) members kv ->
      block_loss kv.2 (item_path prefix k +:+ ".content") path ->
      block_loss (JArr text items) prefix path.

Lemma text_blocks_items j blocks : text_blocks ToLower (Some j) = Some blocks ->
  exists text items, j = JArr text items /\ length blocks = length items.
Proof.
  unfold text_blocks. intros H. apply lenient_values in H as (j' & [= <-] & _ & Hn & H). destruct j as [| | | |text items|]; try done. exists text, items. split; [done|].
  cbn in H. symmetry. apply mapM_Some in H. by eapply Forall2_length.
Qed.

Lemma block_losses_exact j : forall prefix w, w ∈ appendBlockConversionLosses ToLower j prefix <-> block_loss j prefix w.
Proof.
  revert j. fix IH 1. intros j prefix w. split.
  - destruct j as [|b|s|s v|text items|text members]; cbn [appendBlockConversionLosses].
    all: destruct (text_blocks ToLower _) as [blocks|] eqn:Hb; try by intros ?%elem_of_nil.
    rewrite elem_of_map_index.
    assert (Hin : forall k item, items !! k = Some item ->
      match item with
      | JObj _ members => forall kv prefix w, kv ∈ members -> w ∈ appendBlockConversionLosses ToLower kv.2 prefix -> block_loss kv.2 prefix w
      | _ => True
      end).
    { clear Hb. induction items as [|item items IHi]; [done|]. intros [|k] item'; [intros [= <-]|apply IHi].
      destruct item as [| | | | |source members]; try done. clear IHi.
      induction members as [|[name j] members IHm]; intros kv p w' Hkv; [by apply elem_of_nil in Hkv|]. cbn in Hkv.
      apply elem_of_cons in Hkv as [->|Hkv]; [apply IH|by apply IHm]. }
    intros (k & item & Hitem & Hw). destruct (blocks !! k) as [b|] eqn:Hk; [|by apply elem_of_nil in Hw].
    rewrite !elem_of_app in Hw. destruct Hw as [Hw|[Hw|Hw]].
    + destruct (block_CacheControl b) eqn:Hc; cbn in Hw; [|by apply elem_of_nil in Hw]. apply list_elem_of_singleton in Hw as ->.
      eapply loss_cache; [done|done|congruence].
    + destruct (String.eqb_spec (block_Type b) "tool_result") as [Ht|]; [|by apply elem_of_nil in Hw]. cbn in Hw.
      destruct (block_IsError b) as [[]|] eqn:He; [|by apply elem_of_nil in Hw..]. apply list_elem_of_singleton in Hw as ->. by eapply loss_error.
    + destruct (String.eqb_spec (block_Type b) "tool_result") as [Ht|]; [|by apply elem_of_nil in Hw].
      specialize (Hin _ _ Hitem). destruct item as [| | | | |source members]; try by apply elem_of_nil in Hw.
      rewrite (elem_of_last (fun kv : string * json => same_name "content" kv.1)
        (fun kv => appendBlockConversionLosses ToLower kv.2 (item_path prefix k +:+ ".content"))) in Hw.
      destruct Hw as (kv & Hlast & Hw). eapply loss_content; try done. apply Hin; [|done].
      destruct Hlast as (l1 & l2 & -> & _). apply elem_of_app. right. by left.
  - clear IH. intros H. induction H as [text items blocks prefix k b Hb Hk Hc|text items blocks prefix k b Hb Hk Ht He|text items blocks prefix k b source members kv path Hb Hk Ht Hitem Hlast _ IH].
    all: cbn [appendBlockConversionLosses]; rewrite Hb, elem_of_map_index.
    3: { exists k, (JObj source members). split; [done|]. rewrite Hk, !elem_of_app, Ht. right. right. cbn [String.eqb Ascii.eqb Bool.eqb].
      rewrite (elem_of_last (fun kv : string * json => same_name "content" kv.1)
        (fun kv => appendBlockConversionLosses ToLower kv.2 (item_path prefix k +:+ ".content"))). by exists kv. }
    all: assert (Hlen : (k < length items)%nat) by
      (apply lookup_lt_Some in Hk; apply text_blocks_items in Hb as (? & ? & [= -> ->] & Hl); lia).
    all: apply lookup_lt_is_Some_2 in Hlen as [item Hitem]; exists k, item; split; [done|]; rewrite Hk, !elem_of_app.
    + left. destruct (block_CacheControl b); [by left|done].
    + right. left. rewrite Ht, He. by left.
Qed.

Definition raw_loss (raw : RawMessage) (prefix path : string) : Prop := exists j, raw = Some j /\ block_loss j prefix path.

(** What chat completions cannot express of a Messages request. *)
Definition anthropic_loss (i : Input) (path : string) : Prop :=
  (exists c, in_OutputConfig i = Some c /\ config_Effort c <> "" /\ path = "output_config.effort") \/
  (exists k tool, in_Tools i !! k = Some tool /\ tool_CacheControl tool <> None /\ path = item_path "tools" k +:+ ".cache_control") \/
  raw_loss (in_System i) "system" path \/
  exists k m, in_Messages i !! k = Some m /\ raw_loss (msg_Content m) (content_path k) path.

Lemma raw_losses_exact raw prefix path :
  path ∈ match raw with Some j => appendBlockConversionLosses ToLower j prefix | None => [] end <-> raw_loss raw prefix path.
Proof.
  unfold raw_loss. destruct raw as [j|]; [rewrite block_losses_exact|]; split; try (by intros ?%elem_of_nil); try (by intros (? & ? & _)).
  - by exists j.
  - by intros (j' & [= <-] & H).
Qed.

(** When a Messages request is translated, the warnings that go with the
    request, or with the error, are sorted and without repetition, and they
    name exactly the fields that the validation has left out and those that
    the translation leaves out, wherever they are. *)
Theorem losses_named i warnings warnings' r : forallb custom_tool (in_Tools i) = true ->
  translate_anthropic_input IsPrint ToLower i warnings = (warnings', r) ->
  increasing warnings' /\ forall path, path ∈ warnings' <-> path ∈ warnings \/ anthropic_loss i path.
Proof.
  intros Ht. unfold translate_anthropic_input. rewrite Ht. cbn [negb]. intros [= <- _]. split; [apply sortedUnique_increasing|].
  intros path. rewrite elem_of_sortedUnique, elem_of_app. unfold anthropicConversionLosses, anthropic_loss.
  rewrite elem_of_sortedUnique, !elem_of_app, !elem_of_map_index, raw_losses_exact. apply or_iff_compat_l. apply Morphisms_Prop.or_iff_morphism; [|apply Morphisms_Prop.or_iff_morphism; [|apply or_iff_compat_l]].
  - destruct (in_OutputConfig i) as [c|]; [|split; [by intros ?%elem_of_nil|by intros (? & ? & _)]].
    destruct (String.eqb_spec (config_Effort c) ""); [split; [by intros ?%elem_of_nil|intros (? & [= <-] & ? & _); done]|].
    rewrite list_elem_of_singleton. split; [intros ->; by exists c|by intros (? & _ & _ & ->)].
  - split.
    + intros (k & tool & H1 & H2). exists k, tool. destruct (tool_CacheControl tool); [|by apply elem_of_nil in H2]. by apply list_elem_of_singleton in H2.
    + intros (k & tool & H1 & H2 & ->). exists k, tool. split; [done|]. destruct (tool_CacheControl tool); [by left|done].
  - by setoid_rewrite raw_losses_exact.
Qed.

(** ** The limit on the output *)

Lemma budget_fits_exact i n : budget_fits i n = true <->
  forall t, in_Thinking i = Some t -> thinking_Type t = "enabled" -> exists b, thinking_BudgetTokens t = Some b /\ 1024 <= b < n.
Proof.
  unfold budget_fits. destruct (in_Thinking i) as [t|]; [|done]. destruct (String.eqb_spec (thinking_Type t) "enabled") as [Ht|Hn].
  - destruct (thinking_BudgetTokens t) as [b|] eqn:Hb.
    + rewrite andb_true_iff, Z.leb_le, Z.ltb_lt. split; [intros H t' [= <-] _; exists b; by split; [|lia]|].
      intros H. destruct (H t eq_refl Ht) as (b' & Hb' & ?). assert (b' = b) as -> by congruence. lia.
    + split; [done|]. intros H. destruct (H t eq_refl Ht) as (b & ? & _). congruence.
  - split; [|done]. intros _ t' [= <-] Ht. done.
Qed.

(** A translated chat completion request always carries a limit on its
    output, the one of the client, or the configured one, or 4096, between 1
    and the largest of a million and the configured one; a request to think
    keeps its configuration, with a budget of at least 1024 tokens below that
    limit. *)
Theorem thinking_fits i warnings maxOutputTokens warnings' v :
  well_formed ToLower "openai" i ->
  translate_openai_input IsPrint ToLower i warnings maxOutputTokens = (warnings', inr v) ->
  exists members n, v = VStruct members /\ ("max_tokens", VInt n) ∈ members /\
    1 <= n <= Z.max 1000000 maxOutputTokens /\ n = anthropic_max_tokens i maxOutputTokens /\
    forall t, in_Thinking i = Some t -> ("thinking", Thinking_value t) ∈ members /\
      (thinking_Type t = "enabled" -> exists b, thinking_BudgetTokens t = Some b /\ 1024 <= b < n).
Proof.
  intros Hwf. unfold translate_openai_input. set (n := anthropic_max_tokens i maxOutputTokens).
  match goal with |- match ?r with _ => _ end = _ -> _ => destruct r as [e|((((translated & stop) & tools) & choice) & f)] eqn:Hr end; [done|].
  destruct (encode_anthropic_request _ _ _ _ _ _ _ _) as [v'|] eqn:Hv; [|done]. intros [= _ <-].
  apply rules_pass in Hr as [Hbudget _]. rewrite check_passes, negb_false_iff, budget_fits_exact in Hbudget.
  unfold encode_anthropic_request in Hv. destruct (mapM _ _) as [ms|]; [|done]. cbn [mbind option_bind] in Hv.
  destruct (omit_text _ _) as [sys|]; [|done]. apply (inj Some) in Hv as <-. eexists _, n. split; [reflexivity|]. split_and!; [| | |done|].
  - rewrite !elem_of_app. do 2 right. left. by left.
  - unfold n, anthropic_max_tokens, defaultAnthropicMaxTokens. destruct (wf_tokens _ _ _ Hwf) as [H1 H2]. unfold within in H1, H2.
    destruct (in_MaxCompletionTokens i) as [x|]; [by apply H2|]. destruct (in_MaxTokens i) as [x|]; [by apply H1|]. destruct (0 <? maxOutputTokens) eqn:?; lia.
  - unfold n, anthropic_max_tokens, defaultAnthropicMaxTokens. destruct (wf_tokens _ _ _ Hwf) as [H1 H2]. unfold within in H1, H2.
    destruct (in_MaxCompletionTokens i) as [x|]; [specialize (H2 x eq_refl); lia|].
    destruct (in_MaxTokens i) as [x|]; [specialize (H1 x eq_refl); lia|]. destruct (0 <? maxOutputTokens) eqn:?; lia.
  - intros t Ht. split; [|by apply Hbudget]. rewrite !elem_of_app. right. left. rewrite Ht. by left.
Qed.
End losses.
