(* ===== verification/PromptCache.v ===== *)
(** * Prompt history and local estimates

    internal/adapter/prompt_cache.go and estimate.go: what a request costs when
    the provider did not say, counted over its text, with the prefix that it
    shares with the previous request of its session as input that was read
    from a cache.  The list of the cache is a list of elements, each a pointer
    with its entry, and the map goes from keys to pointers. *)

From Stdlib Require Import SpecFloat.
From S2P Require Import Prelude GoStrings GoFloat Json Streams Pricing Inputs.

(** ** The cache *)

Definition promptCacheMaxEntries : Z := 256.
Definition promptCacheMaxBytes : Z := Z.shiftl 16 20.
Definition promptCacheIdleTTL : duration := 5 * Minute.

Record promptEntry := { entry_key : string; entry_prompt : list byte; entry_touched : time }.
Definition element : Type := nat * promptEntry.

Record PromptCache := {
  prompts : gmap string nat;
  recent : list element;          (** front first *)
  bytes : Z;
  maxEntries : Z;
  maxBytes : Z;
  idleTTL : duration;
  closed : bool;
  next_element : nat;             (** a pointer that no element has *)
}.
#[export] Instance PromptCache_eta : Eta PromptCache := fun c =>
  {| prompts := prompts c; recent := recent c; bytes := bytes c; maxEntries := maxEntries c; maxBytes := maxBytes c;
     idleTTL := idleTTL c; closed := closed c; next_element := next_element c |}.

Definition newPromptCache (entries size : Z) (ttl : duration) : PromptCache :=
  {| prompts := ∅; recent := []; bytes := 0; maxEntries := entries; maxBytes := size; idleTTL := ttl; closed := false;
     next_element := 0 |}.
Definition NewPromptCache : PromptCache := newPromptCache promptCacheMaxEntries promptCacheMaxBytes promptCacheIdleTTL.

Definition Close (c : PromptCache) : PromptCache :=
  if closed c then c else c <| closed := true |> <| prompts := ∅ |> <| recent := [] |> <| bytes := 0 |>.

Definition entry_size (e : promptEntry) : Z := Strings.len (entry_key e) + Z.of_nat (length (entry_prompt e)).
Definition removeLocked (c : PromptCache) (e : element) : PromptCache :=
  c <| prompts := delete (entry_key e.2) (prompts c) |>
    <| bytes := bytes c - entry_size e.2 |>
    <| recent := filter (fun x : element => x.1 <> e.1) (recent c) |>.

(** The loop ends with the elements. *)
Fixpoint expire_loop (fuel : nat) (c : PromptCache) (now : time) : PromptCache :=
  match last (recent c), fuel with
  | Some oldest, S fuel =>
      if Time.sub now (entry_touched oldest.2) <? idleTTL c then c else expire_loop fuel (removeLocked c oldest) now
  | _, _ => c
  end.
Definition expireLocked (c : PromptCache) (now : time) : PromptCache := expire_loop (length (recent c)) c now.

(** The element of a key. *)
Definition find_element (c : PromptCache) (key : string) : option element :=
  id ← prompts c !! key; List.find (fun x : element => (x.1 =? id)%nat) (recent c).

(** The loop that makes room; [None] is the panic of [removeLocked(nil)]. *)
Fixpoint evict_loop (fuel : nat) (c : PromptCache) (size : Z) : option PromptCache :=
  if (maxEntries c <=? Z.of_nat (base.size (prompts c))) || (maxBytes c <? bytes c + size) then
    match last (recent c), fuel with
    | Some oldest, S fuel => evict_loop fuel (removeLocked c oldest) size
    | _, _ => None
    end
  else Some c.

Definition rememberLocked (c : PromptCache) (key : string) (prompt : list byte) (now : time) : option PromptCache :=
  let c := match find_element c key with Some previous => removeLocked c previous | None => c end in
  let entry := {| entry_key := key; entry_prompt := prompt; entry_touched := now |} in
  if closed c || (maxBytes c <? entry_size entry) then Some c
  else
    c ← evict_loop (length (recent c)) c (entry_size entry);
    let element := next_element c in
    Some (c <| recent := (element, entry) :: recent c |> <| next_element := S element |>
            <| prompts := <[key := element]> (prompts c) |> <| bytes := bytes c + entry_size entry |>).

(** [Stats], and the tick of the housekeeping. *)
Definition Stats (c : PromptCache) (now : time) : PromptCache * (Z * Z) :=
  let c := expireLocked c now in (c, (Z.of_nat (base.size (prompts c)), bytes c)).
Definition tick (c : PromptCache) (now : time) : PromptCache := expireLocked c now.

(** ** Prefixes *)

Fixpoint same_bytes (a b : list byte) : nat :=
  match a, b with
  | x :: a, y :: b => if x =? y then S (same_bytes a b) else 0%nat
  | _, _ => 0%nat
  end.
(** Back to the start of a rune. *)
Fixpoint rune_boundary (a b : list byte) (i : nat) : nat :=
  match i with
  | O => O
  | S j =>
      if (i <? length a)%nat && (i <? length b)%nat && negb (Utf8.RuneStart (default 0 (a !! i))) then rune_boundary a b j else i
  end.
Definition commonPrefix (a b : list byte) : nat := rune_boundary a b (same_bytes a b).

Definition prompt_key (protocol model session : string) : string :=
  protocol +:+ String Ascii.zero model +:+ String Ascii.zero session.

(** The new cache and the bytes of the prompt that its session sent before. *)
Definition prefixAndRemember (c : option PromptCache) (protocol model session : string) (prompt : list byte) (now : time) :
    option (option PromptCache * nat) :=
  match c with
  | None => Some (c, 0%nat)
  | Some c =>
      if String.eqb (Strings.TrimSpace session) "" then Some (Some c, 0%nat)
      else
        let key := prompt_key protocol model session in
        let c := expireLocked c now in
        let hit := match find_element c key with Some previous => commonPrefix (entry_prompt previous.2) prompt | None => 0%nat end in
        c ← rememberLocked c key prompt now;
        Some (Some c, hit)
  end.

(** ** Estimates *)

Definition ignored_prompt_fields : list string :=
  ["model"; "stream"; "stream_options"; "max_tokens"; "max_completion_tokens"; "temperature"; "top_p"; "stop"; "stop_sequences"; "metadata"].
Definition normalizedPrompt (body : string) : list byte :=
  match parse body with
  | Some JNull => encode VNull
  | Some j => match any_object j with
              | Some (VMap members) => encode (VMap (filter (fun kv => kv.1 ∉ ignored_prompt_fields) members))
              | _ => []
              end
  | None => []
  end.

Definition Remember (c : option PromptCache) (protocol model session request : string) (now : time) : option (option PromptCache) :=
  match c with
  | None => Some None
  | Some cache =>
      if String.eqb (Strings.TrimSpace session) "" then Some c
      else
        let prompt := normalizedPrompt request in
        if bool_decide (prompt = []) then Some c
        else Some <$> rememberLocked (expireLocked cache now) (prompt_key protocol model session) prompt now
  end.

(** A character that counts for a quarter of a token. *)
Definition word_character (r : Z) : bool :=
  Utf8.between 65 90 r || Utf8.between 97 122 r || Utf8.between 48 57 r || (r =? 32) || (r =? 9) || (r =? 10).
Definition flush_run (st : Z * Z) : Z := if 0 <? st.2 then st.1 + (st.2 + 3) / 4 else st.1.
Definition count_rune (st : Z * Z) (rb : Z * list byte) : Z * Z :=
  if (rb.1 =? Utf8.RuneError) && (length rb.2 =? 1)%nat then (flush_run st + 1, 0)
  else if rb.1 <? 128 then if word_character rb.1 then (st.1, st.2 + 1) else (flush_run st + 1, 0)
  else (flush_run st + 1, 0).
Definition estimateTokens (data : list byte) : Z :=
  if bool_decide (data = []) then 0
  else
    let tokens := flush_run (foldl count_rune (0, 0) (Utf8.runes data)) in
    if tokens =? 0 then 1 else tokens.

Section estimate.
Context (ToLower : string -> string) {Range : MapRange string (list byte)}.

Definition output_fields : list string :=
  ["content"; "text"; "thinking"; "reasoning_content"; "arguments"; "input_json"; "output_text"].
(** The closure [walk] of [appendOutputFields]: the text that it writes. *)
Fixpoint output_text (v : value) (key : string) : list byte :=
  match v with
  | VMap members =>
      let texts := (fun kv => (kv.1, output_text kv.2 (ToLower kv.1))) <$> members in
      concat (snd <$> range (list_to_map texts : gmap string (list byte)))
  | VArr items => concat ((fun child => output_text child key) <$> items)
  | VStr s => if bool_decide (key ∈ output_fields) then bytes_of_string s else []
  | _ => []
  end.
Definition appendOutputFields (out : list byte) (data : string) : list byte :=
  match (j ← parse data; any j) with Some v => out ++ output_text v "" | None => out end.

(** One line of a stream. *)
Definition output_line (out : list byte) (line : string) : list byte :=
  let line := TrimSuffix line cr in
  if Strings.HasPrefix line "data:" then
    let line := Strings.TrimSpace (TrimPrefix line "data:") in
    if String.eqb line "[DONE]" then out else appendOutputFields out line
  else out.
Definition estimateOutputTokens (data : string) : Z :=
  if String.eqb data "" then 0
  else
    let text := foldl output_line [] (Split data nl) in
    estimateTokens (if bool_decide (text = []) then appendOutputFields text data else text).

(** [SessionID]. *)
Definition SessionID (protocol body : string) : string :=
  match Unmarshal (dec_Input_mode ToLower false) no_input body with
  | Some i => match in_Metadata i with
              | Some m => if String.eqb protocol "anthropic" then Strings.TrimSpace (UserID m) else ""
              | None => ""
              end
  | None => ""
  end.

(** [LocalEstimate]: the new cache, the cost, the usage and the source. *)
Definition no_usage : TokenUsage := {| Pricing.Input := None; Output := None; CacheRead := None; CacheWrite := None |}.
Definition LocalEstimate (c : option PromptCache) (protocol model session request response : string) (price : Price) (now : time) :
    option (option PromptCache * (option spec_float * TokenUsage * string)) :=
  let prompt := normalizedPrompt request in
  if bool_decide (prompt = []) then Some (c, (None, no_usage, ""))
  else
    r ← prefixAndRemember c protocol model session prompt now;
    let hitBytes := if (0 <? r.2)%nat && is_nil (InputCacheHit price) then 0%nat else r.2 in
    let hit := estimateTokens (take hitBytes prompt) in
    let miss := estimateTokens (drop hitBytes prompt) in
    let out := estimateOutputTokens response in
    let usage := {| Pricing.Input := Some (hit + miss); Output := Some out; CacheRead := Some hit; CacheWrite := None |} in
    Some (r.1, match Estimate price usage with
               | None => (None, usage, "")
               | Some cost => (Some cost, usage, "local_estimated_cache_prefix")
               end).
End estimate.
