(* ===== verification/PromptFacts.v ===== *)
(** * What the prompt cache promises

    The map, the linked list and the byte counter of the cache implement a
    list of entries, the most recent first, of which an operation keeps the
    longest part that fits ([cache_refines_lru]); a session finds its last
    prompt there as long as what came after it fits as well. *)

From Stdlib Require Import SpecFloat.
From S2P Require Import Prelude GoStrings GoFloat Json Streams Pricing Inputs PromptCache.

(** ** The specification *)

Record lru := { lru_entries : list promptEntry; lru_closed : bool }.

Section spec.
Context (entries size : Z) (ttl : duration).

Definition stale (now : time) (e : promptEntry) : bool := negb (Time.sub now (entry_touched e) <? ttl).
(** Without the stale entries at the end. *)
Fixpoint fresh_part (now : time) (l : list promptEntry) : list promptEntry :=
  match l with
  | [] => []
  | e :: l => let l := fresh_part now l in if bool_decide (l = []) && stale now e then [] else e :: l
  end.
(** The longest part of at most [n] entries and [b] bytes. *)
Fixpoint fitting_part (n b : Z) (l : list promptEntry) : list promptEntry :=
  match l with
  | [] => []
  | e :: l => if (1 <=? n) && (entry_size e <=? b) then e :: fitting_part (n - 1) (b - entry_size e) l else []
  end.
Definition spec_remember (s : lru) (key : string) (prompt : list byte) (now : time) : lru :=
  let entry := {| entry_key := key; entry_prompt := prompt; entry_touched := now |} in
  let others := filter (fun e => entry_key e <> key) (lru_entries s) in
  {| lru_entries := if lru_closed s || (size <? entry_size entry) then others
                    else entry :: fitting_part (entries - 1) (size - entry_size entry) others;
     lru_closed := lru_closed s |}.
Definition spec_expire (s : lru) (now : time) : lru :=
  {| lru_entries := fresh_part now (lru_entries s); lru_closed := lru_closed s |}.
Definition spec_find (s : lru) (key : string) : option promptEntry :=
  List.find (fun e => String.eqb (entry_key e) key) (lru_entries s).
Fixpoint sizes (l : list promptEntry) : Z := match l with [] => 0 | e :: l => entry_size e + sizes l end.

(** The methods of the cache. *)
Inductive cache_op :=
| PrefixAndRemember (protocol model session : string) (prompt : list byte)
| RememberRequest (protocol model session request : string)
| ReadStats
| Tick
| CloseCache.

Definition cache_step (c : PromptCache) (now : time) (op : cache_op) : option (PromptCache * (Z * Z)) :=
  match op with
  | PrefixAndRemember protocol model session prompt =>
      r ← prefixAndRemember (Some c) protocol model session prompt now; c ← r.1; Some (c, (Z.of_nat r.2, 0))
  | RememberRequest protocol model session request =>
      r ← Remember (Some c) protocol model session request now; c ← r; Some (c, (0, 0))
  | ReadStats => Some (Stats c now)
  | Tick => Some (tick c now, (0, 0))
  | CloseCache => Some (Close c, (0, 0))
  end.
Definition spec_step (s : lru) (now : time) (op : cache_op) : lru * (Z * Z) :=
  match op with
  | PrefixAndRemember protocol model session prompt =>
      if String.eqb (Strings.TrimSpace session) "" then (s, (0, 0))
      else
        let s := spec_expire s now in
        let key := prompt_key protocol model session in
        (spec_remember s key prompt now,
         (match spec_find s key with Some e => Z.of_nat (commonPrefix (entry_prompt e) prompt) | None => 0 end, 0))
  | RememberRequest protocol model session request =>
      let prompt := normalizedPrompt request in
      if String.eqb (Strings.TrimSpace session) "" || bool_decide (prompt = []) then (s, (0, 0))
      else (spec_remember (spec_expire s now) (prompt_key protocol model session) prompt now, (0, 0))
  | ReadStats => let s := spec_expire s now in (s, (Z.of_nat (length (lru_entries s)), sizes (lru_entries s)))
  | Tick => (spec_expire s now, (0, 0))
  | CloseCache => ({| lru_entries := []; lru_closed := true |}, (0, 0))
  end.
End spec.

Fixpoint cache_run (c : PromptCache) (ops : list (time * cache_op)) : option (PromptCache * list (Z * Z)) :=
  match ops with
  | [] => Some (c, [])
  | (now, op) :: ops => r ← cache_step c now op; rest ← cache_run r.1 ops; Some (rest.1, r.2 :: rest.2)
  end.
Fixpoint spec_run (entries size : Z) (ttl : duration) (s : lru) (ops : list (time * cache_op)) : lru * list (Z * Z) :=
  match ops with
  | [] => (s, [])
  | (now, op) :: ops =>
      let (s, out) := spec_step entries size ttl s now op in
      let (s, outs) := spec_run entries size ttl s ops in (s, out :: outs)
  end.

(** ** The representation *)

Lemma entry_size_nonneg e : 0 <= entry_size e.
Proof. unfold entry_size, Strings.len. lia. Qed.
Lemma sizes_nonneg l : 0 <= sizes l.
Proof. induction l as [|e l IH]; cbn; [lia|]. pose proof (entry_size_nonneg e). lia. Qed.
Lemma sizes_app l1 l2 : sizes (l1 ++ l2) = sizes l1 + sizes l2.
Proof. induction l1; cbn; [done|lia]. Qed.

Definition index_of (l : list element) : gmap string nat := list_to_map ((fun e => (entry_key e.2, e.1)) <$> l).

Record represents (entries size : Z) (ttl : duration) (c : PromptCache) (s : lru) : Prop := {
  rep_entries : (recent c).*2 = lru_entries s;
  rep_closed : closed c = lru_closed s;
  rep_limits : maxEntries c = entries /\ maxBytes c = size /\ idleTTL c = ttl;
  rep_index : prompts c = index_of (recent c);
  rep_keys : NoDup (entry_key <$> lru_entries s);
  rep_elements : NoDup (recent c).*1;
  rep_next : Forall (fun e : element => (e.1 < next_element c)%nat) (recent c);
  rep_bytes : bytes c = sizes (lru_entries s);
  rep_bounds : Z.of_nat (length (lru_entries s)) <= entries /\ sizes (lru_entries s) <= size;
  rep_empty : lru_closed s = true -> lru_entries s = [];
}.

Lemma keys_entries (l : list element) : (fun e : element => entry_key e.2) <$> l = entry_key <$> l.*2.
Proof. by rewrite <- list_fmap_compose. Qed.

Lemma index_lookup l key id : NoDup (entry_key <$> l.*2) -> index_of l !! key = Some id <-> exists e, (id, e) ∈ l /\ entry_key e = key.
Proof.
  intros Hl. unfold index_of. rewrite <- elem_of_list_to_map.
  - rewrite list_elem_of_fmap. split; [intros ([id' e] & [= -> ->] & H); by exists e|intros (e & H & <-); by exists (id, e)].
  - rewrite <- list_fmap_compose. by rewrite <- keys_entries in Hl.
Qed.

Lemma index_split l1 e l2 : NoDup (entry_key <$> (l1 ++ e :: l2).*2) ->
  delete (entry_key e.2) (index_of (l1 ++ e :: l2)) = index_of (l1 ++ l2).
Proof.
  intros Hl. apply map_eq. intros key. apply option_eq. intros id.
  assert (Hl' : NoDup (entry_key <$> (l1 ++ l2).*2)).
  { rewrite !fmap_app in Hl |- *. cbn in Hl. apply NoDup_app in Hl as (H1 & H2 & [_ H3]%NoDup_cons). apply NoDup_app.
    split_and!; [done|intros x Hx Hx2; apply (H2 x Hx); by right|done]. }
  rewrite lookup_delete_Some, !index_lookup by done. setoid_rewrite elem_of_app. setoid_rewrite elem_of_cons. split.
  - intros (Hne & x & [H|[[= <-]|H]] & <-); [exists x; auto|done|exists x; auto].
  - intros (x & Hx & <-). split; [|exists x; naive_solver].
    rewrite !fmap_app in Hl. cbn in Hl. apply NoDup_app in Hl as (_ & H2 & [H3 _]%NoDup_cons). destruct Hx as [Hx|Hx]; intros E.
    + apply (H2 (entry_key x)); [|rewrite <- E; by left]. apply list_elem_of_fmap. exists x. split; [done|]. apply list_elem_of_fmap. by exists (id, x).
    + apply H3. rewrite E. apply list_elem_of_fmap. exists x. split; [done|]. apply list_elem_of_fmap. by exists (id, x).
Qed.

Lemma remove_split (l1 l2 : list element) e : NoDup (l1 ++ e :: l2).*1 -> filter (fun x : element => x.1 <> e.1) (l1 ++ e :: l2) = l1 ++ l2.
Proof.
  rewrite fmap_app. cbn. rewrite NoDup_app, NoDup_cons. intros (_ & H1 & H2 & _). rewrite filter_app, filter_cons_False by auto.
  f_equal; apply filter_all; intros x Hx E.
  - apply (H1 x.1); [by apply list_elem_of_fmap_2|rewrite E; by left].
  - apply H2. rewrite <- E. by apply list_elem_of_fmap_2.
Qed.

Section refinement.
Context (entries size : Z) (ttl : duration).
#[local] Abbreviation rep := (represents entries size ttl).

Lemma rep_remove c s l1 e l2 : rep c s -> recent c = l1 ++ e :: l2 ->
  rep (removeLocked c e) {| lru_entries := l1.*2 ++ l2.*2; lru_closed := lru_closed s |} /\ recent (removeLocked c e) = l1 ++ l2.
Proof.
  intros [He Hc Hl Hi Hk Hn Hx Hb [Hb1 Hb2] Hm] E. rewrite E in *.
  assert (Hr : recent (removeLocked c e) = l1 ++ l2) by (cbn; rewrite E; by apply remove_split).
  split; [|done]. assert (Hs : lru_entries s = l1.*2 ++ e.2 :: l2.*2) by (rewrite <- He, fmap_app; done).
  rewrite Hs in *. rewrite sizes_app in *. cbn [sizes] in *. pose proof (entry_size_nonneg e.2).
  split; cbn [lru_entries lru_closed]; try done.
  - by rewrite Hr, fmap_app.
  - rewrite Hr. cbn. rewrite Hi. apply index_split. by rewrite fmap_app.
  - rewrite fmap_app in Hk |- *. cbn in Hk. apply NoDup_app in Hk as (H1 & H2 & [_ H3]%NoDup_cons). apply NoDup_app.
    split_and!; [done|intros x H4 H5; apply (H2 x H4); by right|done].
  - rewrite Hr. rewrite fmap_app in Hn |- *. cbn in Hn. apply NoDup_app in Hn as (H1 & H2 & [_ H3]%NoDup_cons). apply NoDup_app.
    split_and!; [done|intros x H4 H5; apply (H2 x H4); by right|done].
  - rewrite Hr. rewrite Forall_app, Forall_cons in Hx. apply Forall_app. cbn. naive_solver.
  - cbn [bytes removeLocked]. change (bytes c - entry_size e.2 = sizes (l1.*2 ++ l2.*2)). rewrite Hb, sizes_app. lia.
  - rewrite !length_app in *. cbn in Hb1. rewrite sizes_app. lia.
  - intros Hcl. apply Hm in Hcl. by destruct (l1.*2).
Qed.

Lemma fresh_part_app now l e : fresh_part ttl now (l ++ [e]) = if stale ttl now e then fresh_part ttl now l else l ++ [e].
Proof.
  induction l as [|x l IH]; cbn [app fresh_part].
  - rewrite bool_decide_true by done. cbn. by destruct (stale ttl now e).
  - rewrite IH. destruct (stale ttl now e); [done|]. by rewrite bool_decide_false by (by destruct l).
Qed.

Lemma rep_no_entries c s : rep c s -> recent c = [] -> lru_entries s = [].
Proof. intros Hr E. by rewrite <- (rep_entries _ _ _ _ _ Hr), E. Qed.

Lemma rep_expire_loop fuel c s now : rep c s -> (length (recent c) <= fuel)%nat ->
  rep (expire_loop fuel c now) (spec_expire ttl s now).
Proof.
  revert c s. induction fuel as [|fuel IH]; intros c s Hr Hf; cbn [expire_loop]; destruct (last (recent c)) as [e|] eqn:E.
  - apply last_Some in E as [l E]. rewrite E, length_app in Hf. cbn in Hf. lia.
  - apply last_None in E. pose proof (rep_no_entries _ _ Hr E) as Hs. unfold spec_expire. rewrite Hs. cbn. destruct s; cbn in *. by subst.
  - apply last_Some in E as [l E]. destruct (rep_limits _ _ _ _ _ Hr) as (_ & _ & ->).
    assert (Hs : lru_entries s = l.*2 ++ [e.2]) by (rewrite <- (rep_entries _ _ _ _ _ Hr), E, fmap_app; done).
    unfold spec_expire. rewrite Hs, fresh_part_app. unfold stale at 1. destruct (Time.sub now (entry_touched e.2) <? ttl); cbn [negb].
    + rewrite <- Hs. by destruct s.
    + destruct (rep_remove c s l e [] Hr E) as [Hr' E']. rewrite app_nil_r in E'. cbn in Hr'. rewrite app_nil_r in Hr'.
      specialize (IH _ _ Hr'). apply IH. rewrite E'. rewrite E, length_app in Hf. cbn in Hf. lia.
  - apply last_None in E. pose proof (rep_no_entries _ _ Hr E) as Hs. unfold spec_expire. rewrite Hs. cbn. destruct s; cbn in *. by subst.
Qed.
Lemma rep_expire c s now : rep c s -> rep (expireLocked c now) (spec_expire ttl s now).
Proof. intros Hr. by apply rep_expire_loop. Qed.

(** The element of a key, where it is. *)
Lemma rep_find c s key : rep c s ->
  match find_element c key with
  | Some e => entry_key e.2 = key /\ (exists l1 l2, recent c = l1 ++ e :: l2) /\ spec_find s key = Some e.2
  | None => spec_find s key = None /\ Forall (fun e => entry_key e <> key) (lru_entries s)
  end.
Proof.
  intros [He _ _ Hi Hk Hn _ _ _ _]. unfold find_element, spec_find. rewrite Hi. rewrite <- He in *.
  destruct (index_of (recent c) !! key) as [id|] eqn:E; cbn [mbind option_bind].
  - apply index_lookup in E as (e & Hin & <-); [|done]. apply list_elem_of_split in Hin as (l1 & l2 & Hl). rewrite Hl in *.
    assert (Hf : List.find (fun x : element => (x.1 =? id)%nat) (l1 ++ (id, e) :: l2) = Some (id, e)).
    { rewrite fmap_app in Hn. cbn in Hn. apply NoDup_app in Hn as (_ & Hn & _). clear -Hn. induction l1 as [|x l1 IH]; cbn; [by rewrite Nat.eqb_refl|].
      destruct (Nat.eqb_spec x.1 id) as [Hx|_]; [exfalso; apply (Hn x.1); [by left|rewrite Hx; by left]|]. apply IH. intros y Hy. apply Hn. by right. }
    rewrite Hf. cbn. split_and!; [done|by exists l1, l2|].
    rewrite !fmap_app in Hk. cbn in Hk. apply NoDup_app in Hk as (_ & Hk & _). rewrite fmap_app. cbn. clear -Hk.
    induction l1 as [|x l1 IH]; cbn; [by rewrite String.eqb_refl|]. destruct (String.eqb_spec (entry_key x.2) (entry_key e)) as [Hx|_].
    + exfalso. apply (Hk (entry_key x.2)); [by left|rewrite Hx; by left].
    + apply IH. intros y Hy. apply Hk. by right.
  - assert (Hall : Forall (fun e => entry_key e <> key) (recent c).*2).
    { apply Forall_forall. intros e Hin Hkey. apply list_elem_of_fmap in Hin as ([id x] & -> & Hin).
      assert (index_of (recent c) !! key = Some id) by (apply index_lookup; [done|by exists x]). congruence. }
    split; [|done]. clear -Hall. induction Hall as [|x l Hx _ IH]; cbn; [done|]. by destruct (String.eqb_spec (entry_key x) key).
Qed.

Lemma fitting_all n b l : Z.of_nat (length l) <= n -> sizes l <= b -> fitting_part n b l = l.
Proof.
  revert n b. induction l as [|e l IH]; intros n b Hn Hb; cbn [fitting_part]; [done|]. cbn [length sizes] in *.
  pose proof (sizes_nonneg l). rewrite (proj2 (Z.leb_le 1 n)), (proj2 (Z.leb_le (entry_size e) b)) by lia. cbn. by rewrite IH by lia.
Qed.
Lemma fitting_last n b l e : n < Z.of_nat (length (l ++ [e])) \/ b < sizes (l ++ [e]) -> fitting_part n b (l ++ [e]) = fitting_part n b l.
Proof.
  revert n b. induction l as [|x l IH]; intros n b H; cbn [app fitting_part] in *.
  - cbn in H. rewrite (proj2 (andb_false_iff _ _)); [done|]. rewrite !Z.leb_gt. lia.
  - cbn [length sizes] in H. destruct (_ && _); [|done]. rewrite IH; [done|]. lia.
Qed.

Lemma rep_count c s : rep c s -> base.size (prompts c) = length (lru_entries s).
Proof.
  intros [He _ _ Hi Hk _ _ _ _ _]. rewrite Hi, <- He. rewrite <- He, <- keys_entries in Hk. unfold index_of.
  rewrite map_size_list_to_map by (by rewrite <- list_fmap_compose). by rewrite !length_fmap.
Qed.

Lemma rep_evict fuel c s need : rep c s -> 1 <= entries -> need <= size -> (length (recent c) <= fuel)%nat ->
  exists c', evict_loop fuel c need = Some c' /\
    rep c' {| lru_entries := fitting_part (entries - 1) (size - need) (lru_entries s); lru_closed := lru_closed s |} /\
    next_element c' = next_element c.
Proof.
  intros Hr H1 H2. revert c s Hr. induction fuel as [|fuel IH]; intros c s Hr Hf; cbn [evict_loop];
    rewrite (rep_count _ _ Hr); destruct (rep_limits _ _ _ _ _ Hr) as (-> & -> & _); rewrite (rep_bytes _ _ _ _ _ Hr);
    destruct (_ || _) eqn:Hfull.
  - assert (E : recent c = []) by (destruct (recent c); [done|cbn in Hf; lia]). rewrite (rep_no_entries _ _ Hr E) in Hfull. cbn in Hfull.
    rewrite orb_true_iff, Z.leb_le, Z.ltb_lt in Hfull. lia.
  - exists c. split_and!; [done| |done]. rewrite orb_false_iff, Z.leb_gt, Z.ltb_ge in Hfull. rewrite fitting_all by lia. by destruct s.
  - rewrite orb_true_iff, Z.leb_le, Z.ltb_lt in Hfull. destruct (last (recent c)) as [e|] eqn:E.
    + apply last_Some in E as [l E]. destruct (rep_remove c s l e [] Hr E) as [Hr' E']. cbn in Hr'. rewrite !app_nil_r in *.
      destruct (IH _ _ Hr') as (c' & Hev & Hr'' & Hne); [rewrite E'; rewrite E, length_app in Hf; cbn in Hf; lia|].
      exists c'. split_and!; [done| |by rewrite Hne].
      assert (Hs : lru_entries s = l.*2 ++ [e.2]) by (rewrite <- (rep_entries _ _ _ _ _ Hr), E, fmap_app; done).
      rewrite Hs in *. rewrite fitting_last by lia. done.
    + apply last_None in E. rewrite (rep_no_entries _ _ Hr E) in Hfull. cbn in Hfull. lia.
  - exists c. split_and!; [done| |done]. rewrite orb_false_iff, Z.leb_gt, Z.ltb_ge in Hfull. rewrite fitting_all by lia. by destruct s.
Qed.

Lemma fitting_bounds n b l : 0 <= n -> 0 <= b -> Z.of_nat (length (fitting_part n b l)) <= n /\ sizes (fitting_part n b l) <= b.
Proof.
  revert n b. induction l as [|e l IH]; intros n b Hn Hb; cbn [fitting_part]; [cbn; lia|].
  destruct (_ && _) eqn:H; [|cbn; lia]. rewrite andb_true_iff, !Z.leb_le in H. cbn [length sizes]. destruct (IH (n - 1) (b - entry_size e)); lia.
Qed.
Lemma fitting_prefix n b l : exists rest, l = fitting_part n b l ++ rest.
Proof.
  revert n b. induction l as [|e l IH]; intros n b; cbn [fitting_part]; [by exists []|]. destruct (_ && _); [|by exists (e :: l)].
  destruct (IH (n - 1) (b - entry_size e)) as [rest Hrest]. exists rest. cbn. by rewrite <- Hrest.
Qed.

Lemma rep_drop_key c s key : rep c s ->
  rep (match find_element c key with Some previous => removeLocked c previous | None => c end)
      {| lru_entries := filter (fun e => entry_key e <> key) (lru_entries s); lru_closed := lru_closed s |} /\
  next_element (match find_element c key with Some previous => removeLocked c previous | None => c end) = next_element c.
Proof.
  intros Hr. pose proof (rep_find c s key Hr) as Hf. destruct (find_element c key) as [e|].
  - destruct Hf as (<- & (l1 & l2 & E) & _). destruct (rep_remove c s l1 e l2 Hr E) as [Hr' _]. split; [|done].
    assert (Hs : lru_entries s = l1.*2 ++ e.2 :: l2.*2) by (rewrite <- (rep_entries _ _ _ _ _ Hr), E, fmap_app; done).
    pose proof (rep_keys _ _ _ _ _ Hr) as Hk. rewrite Hs, fmap_app in Hk. cbn in Hk. apply NoDup_app in Hk as (_ & H2 & [H3 _]%NoDup_cons).
    rewrite Hs, filter_app, filter_cons_False by auto. rewrite !filter_all; [done|..]; intros x Hx Hkey.
    + apply H3. rewrite <- Hkey. by apply list_elem_of_fmap_2.
    + apply (H2 (entry_key x)); [by apply list_elem_of_fmap_2|rewrite Hkey; by left].
  - destruct Hf as [_ Hall]. rewrite Forall_forall in Hall. rewrite filter_all by done. split; [by destruct s|done].
Qed.

Lemma rep_remember c s key prompt now : rep c s -> 1 <= entries ->
  exists c', rememberLocked c key prompt now = Some c' /\ rep c' (spec_remember entries size s key prompt now).
Proof.
  intros Hr H1. unfold rememberLocked, spec_remember. destruct (rep_drop_key c s key Hr) as [Hr1 _].
  set (c1 := match find_element c key with Some previous => removeLocked c previous | None => c end) in *.
  set (others := filter _ _) in *. set (entry := {| entry_key := key; entry_prompt := prompt; entry_touched := now |}).
  destruct (rep_limits _ _ _ _ _ Hr1) as (_ & -> & _). rewrite (rep_closed _ _ _ _ _ Hr1). cbn [lru_closed].
  destruct (lru_closed s || (size <? entry_size entry)) eqn:Hskip; [by exists c1|].
  apply orb_false_iff in Hskip as [Hopen Hsize]. apply Z.ltb_ge in Hsize.
  destruct (rep_evict (length (recent c1)) c1 _ (entry_size entry) Hr1 H1 Hsize ltac:(done)) as (c2 & -> & Hr2 & _). cbn [mbind option_bind].
  eexists. split; [done|]. cbn [lru_entries lru_closed] in Hr2. set (kept := fitting_part _ _ others) in *.
  destruct (fitting_bounds (entries - 1) (size - entry_size entry) others) as [B1 B2]; [lia..|]. fold kept in B1, B2.
  assert (Hother : Forall (fun e => entry_key e <> key) kept).
  { destruct (fitting_prefix (entries - 1) (size - entry_size entry) others) as [rest Hrest]. fold kept in Hrest.
    assert (Hall : Forall (fun e => entry_key e <> key) others).
    { apply Forall_forall. intros e He. unfold others in He. by apply list_elem_of_filter in He as [He _]. }
    rewrite Hrest in Hall. by apply Forall_app in Hall as [? _]. }
  destruct Hr2 as [He Hc Hl Hi Hk Hn Hx Hb Hb' Hm]. cbn [lru_entries lru_closed] in *. split; cbn [lru_entries lru_closed]; try done.
  - cbn. by rewrite He.
  - cbn. by rewrite Hi.
  - cbn. rewrite NoDup_cons. split; [|done]. intros Hin. apply list_elem_of_fmap in Hin as (e & He' & Hin). rewrite Forall_forall in Hother. by apply (Hother e).
  - cbn. rewrite NoDup_cons. split; [|done]. intros Hin. apply list_elem_of_fmap in Hin as (e & He' & Hin). rewrite Forall_forall in Hx.
    specialize (Hx e Hin). lia.
  - cbn. apply Forall_cons. split; [cbn; lia|]. eapply Forall_impl; [exact Hx|]. cbn. lia.
  - cbn [sizes]. change (bytes c2 + entry_size entry = entry_size entry + sizes kept). lia.
  - cbn [sizes length]. lia.
  - intros Hcl. by rewrite Hcl in Hopen.
Qed.
End refinement.

(** ** Refinement *)

Section claims.
Context (entries size : Z) (ttl : duration).
#[local] Abbreviation rep := (represents entries size ttl).

Lemma rep_new : 1 <= entries -> 0 <= size -> rep (newPromptCache entries size ttl) {| lru_entries := []; lru_closed := false |}.
Proof. intros H1 H2. split; cbn; try done; try constructor; lia. Qed.

Lemma rep_step c s now op : rep c s -> 1 <= entries -> 0 <= size ->
  exists c', cache_step c now op = Some (c', (spec_step entries size ttl s now op).2) /\ rep c' (spec_step entries size ttl s now op).1.
Proof.
  intros Hr H1 H2. destruct op as [protocol model session prompt|protocol model session request| | |]; cbn [cache_step spec_step].
  - unfold prefixAndRemember. destruct (String.eqb (Strings.TrimSpace session) ""); [by exists c|].
    pose proof (rep_expire entries size ttl c s now Hr) as Hr1. pose proof (rep_find _ _ _ _ _ (prompt_key protocol model session) Hr1) as Hf.
    destruct (rep_remember _ _ _ _ _ (prompt_key protocol model session) prompt now Hr1 H1) as (c' & Hc & Hr'). rewrite Hc. cbn [mbind option_bind fst snd].
    exists c'. split; [|done]. do 3 f_equal. destruct (find_element _ _) as [e|].
    + by destruct Hf as (_ & _ & ->).
    + by destruct Hf as [-> _].
  - unfold Remember. destruct (String.eqb (Strings.TrimSpace session) ""); cbn [orb]; [by exists c|]. case_bool_decide; [by exists c|].
    pose proof (rep_expire entries size ttl c s now Hr) as Hr1.
    destruct (rep_remember _ _ _ _ _ (prompt_key protocol model session) (normalizedPrompt request) now Hr1 H1) as (c' & Hc & Hr'). rewrite Hc. cbn. by exists c'.
  - pose proof (rep_expire entries size ttl c s now Hr) as Hr1. unfold Stats. eexists. split; [|exact Hr1].
    cbn [snd]. by rewrite (rep_count _ _ _ _ _ Hr1), (rep_bytes _ _ _ _ _ Hr1).
  - eexists. split; [done|]. by apply rep_expire.
  - eexists. split; [done|]. unfold Close. destruct (closed c) eqn:Hc.
    + pose proof (rep_closed _ _ _ _ _ Hr) as Hcl. rewrite Hc in Hcl. symmetry in Hcl. pose proof (rep_empty _ _ _ _ _ Hr Hcl) as He.
      destruct s as [es cl]. cbn in *. by subst.
    + destruct (rep_limits _ _ _ _ _ Hr) as (E1 & E2 & E3). split; cbn; try done; try constructor; lia.
Qed.

Lemma rep_run ops c s : rep c s -> 1 <= entries -> 0 <= size ->
  exists c', cache_run c ops = Some (c', (spec_run entries size ttl s ops).2) /\ rep c' (spec_run entries size ttl s ops).1.
Proof.
  intros Hr H1 H2. revert c s Hr. induction ops as [|[now op] ops IH]; intros c s Hr; cbn [cache_run spec_run]; [by exists c|].
  destruct (rep_step c s now op Hr H1 H2) as (c1 & Hc1 & Hr1). rewrite Hc1. cbn [mbind option_bind fst snd].
  destruct (spec_step entries size ttl s now op) as [s1 out]. cbn [fst snd] in *.
  destruct (IH _ _ Hr1) as (c2 & Hc2 & Hr2). rewrite Hc2. cbn. destruct (spec_run entries size ttl s1 ops) as [s2 outs]. by exists c2.
Qed.

Definition fresh_lru : lru := {| lru_entries := []; lru_closed := false |}.
Definition lru_run (ops : list (time * cache_op)) : lru * list (Z * Z) := spec_run entries size ttl fresh_lru ops.

(** C26. The cache implements the specification: whatever its methods are
    called with, in any order and with any readings of the clock, none of them
    panics, each returns what the specification says, and the map, the list
    and the byte counter hold exactly the entries of the specification, at
    most [entries] of them with at most [size] bytes of keys and prompts. *)
Theorem cache_refines_lru ops : 1 <= entries -> 0 <= size ->
  exists c, cache_run (newPromptCache entries size ttl) ops = Some (c, (lru_run ops).2) /\ rep c (lru_run ops).1.
Proof. intros H1 H2. by apply rep_run; [apply rep_new|..]. Qed.

(** ** The history *)

Definition remembers (op : cache_op) : option (string * list byte) :=
  match op with
  | PrefixAndRemember protocol model session prompt =>
      if String.eqb (Strings.TrimSpace session) "" then None else Some (prompt_key protocol model session, prompt)
  | RememberRequest protocol model session request =>
      if String.eqb (Strings.TrimSpace session) "" || bool_decide (normalizedPrompt request = []) then None
      else Some (prompt_key protocol model session, normalizedPrompt request)
  | _ => None
  end.
(** When the last prompt under a key was remembered, and the prompt. *)
Definition latest (ops : list (time * cache_op)) (key : string) : option (time * list byte) :=
  foldl (fun acc top => match remembers top.2 with
                        | Some (k, prompt) => if String.eqb k key then Some (top.1, prompt) else acc
                        | None => acc
                        end) None ops.

(** A step without its result. *)
Lemma spec_step_state s now op : (spec_step entries size ttl s now op).1 =
  match remembers op, op with
  | Some (key, prompt), _ => spec_remember entries size (spec_expire ttl s now) key prompt now
  | None, (ReadStats | Tick) => spec_expire ttl s now
  | None, CloseCache => {| lru_entries := []; lru_closed := true |}
  | None, _ => s
  end.
Proof.
  destruct op as [p m x r|p m x r| | |]; cbn [spec_step remembers]; try done; [by destruct (String.eqb _ _)|by destruct (_ || _)].
Qed.

Lemma spec_run_app s ops1 ops2 :
  spec_run entries size ttl s (ops1 ++ ops2) =
    ((spec_run entries size ttl (spec_run entries size ttl s ops1).1 ops2).1,
     (spec_run entries size ttl s ops1).2 ++ (spec_run entries size ttl (spec_run entries size ttl s ops1).1 ops2).2).
Proof.
  revert s. induction ops1 as [|[now op] ops1 IH]; intros s; cbn [app spec_run fst snd]; [apply surjective_pairing|].
  destruct (spec_step entries size ttl s now op) as [s1 out]. rewrite IH.
  by destruct (spec_run entries size ttl s1 ops1) as [s2 outs].
Qed.

Lemma fresh_part_prefix now l : exists rest, l = fresh_part ttl now l ++ rest.
Proof.
  induction l as [|e l [rest IH]]; cbn [fresh_part]; [by exists []|]. destruct (_ && _); [by exists (e :: l)|]. exists rest. cbn. by rewrite <- IH.
Qed.
Lemma Forall_part (P : promptEntry -> Prop) l l' rest : l = l' ++ rest -> Forall P l -> Forall P l'.
Proof. intros -> [H _]%Forall_app. done. Qed.

(** Every entry is the last prompt of its key, the newest first. *)
Definition faithful (ops : list (time * cache_op)) (l : list promptEntry) : Prop :=
  Forall (fun e => latest ops (entry_key e) = Some (entry_touched e, entry_prompt e)) l.
Definition newest_first (now : time) (l : list promptEntry) : Prop :=
  StronglySorted (fun e e' => entry_touched e' <= entry_touched e) l /\ Forall (fun e => entry_touched e <= now) l.

Lemma latest_snoc ops now op key : latest (ops ++ [(now, op)]) key =
  match remembers op with
  | Some (k, prompt) => if String.eqb k key then Some (now, prompt) else latest ops key
  | None => latest ops key
  end.
Proof. unfold latest. by rewrite foldl_snoc. Qed.

Lemma newest_part now now' l l' rest : l = l' ++ rest -> now <= now' -> newest_first now l -> newest_first now' l'.
Proof.
  intros -> Hle [H1 H2]. apply Forall_app in H2 as [H2 _]. split.
  - clear H2. induction l' as [|e l' IH]; [constructor|]. cbn in H1. apply StronglySorted_inv in H1 as [H1 H3]. apply Forall_app in H3 as [H3 _]. by constructor; [apply IH|].
  - eapply Forall_impl; [exact H2|]. cbn. lia.
Qed.
Lemma newest_filter now l key : newest_first now l -> newest_first now (filter (fun e => entry_key e <> key) l).
Proof.
  intros [H1 H2]. split.
  - induction H1 as [|e l H1 IH H3]; [constructor|]. apply Forall_cons in H2 as [_ H2]. rewrite filter_cons. destruct (decide _); [|by apply IH].
    constructor; [by apply IH|]. apply Forall_forall. intros x [_ Hx]%list_elem_of_filter. by rewrite Forall_forall in H3; apply H3.
  - apply Forall_forall. intros x [_ Hx]%list_elem_of_filter. by rewrite Forall_forall in H2; apply H2.
Qed.

Lemma history_step ops s t now op : faithful ops (lru_entries s) -> newest_first t (lru_entries s) -> t <= now ->
  let s' := (spec_step entries size ttl s now op).1 in
  faithful (ops ++ [(now, op)]) (lru_entries s') /\ newest_first now (lru_entries s').
Proof.
  intros Hf Hs Ht. cbv zeta. rewrite spec_step_state. unfold faithful. setoid_rewrite latest_snoc.
  assert (Hexp : faithful ops (lru_entries (spec_expire ttl s now)) /\ newest_first now (lru_entries (spec_expire ttl s now))).
  { destruct (fresh_part_prefix now (lru_entries s)) as [rest E]. cbn. split; [by eapply Forall_part|by eapply newest_part]. }
  destruct (remembers op) as [[key prompt]|].
  - destruct Hexp as [He Hn]. unfold spec_remember. cbn [lru_entries]. set (l := lru_entries (spec_expire ttl s now)) in *.
    set (others := filter (fun e => entry_key e <> key) l).
    assert (Ho : Forall (fun e => (if String.eqb key (entry_key e) then Some (now, prompt) else latest ops (entry_key e)) =
                                  Some (entry_touched e, entry_prompt e)) others).
    { apply Forall_forall. intros e [Hk Hin]%list_elem_of_filter. unfold faithful in He. rewrite Forall_forall in He.
      destruct (String.eqb_spec key (entry_key e)); [congruence|by apply He]. }
    pose proof (newest_filter now l key Hn) as Hno. fold others in Hno.
    destruct (_ || _); [by split|]. set (entry := {| entry_key := key; entry_prompt := prompt; entry_touched := now |}).
    destruct (fitting_prefix (entries - 1) (size - entry_size entry) others) as [rest E]. split.
    + constructor; [cbn; by rewrite String.eqb_refl|]. by eapply Forall_part.
    + pose proof (newest_part now now _ _ _ E ltac:(lia) Hno) as [N1 N2]. split; constructor; done.
  - assert (Hid : faithful ops (lru_entries s) /\ newest_first now (lru_entries s)).
    { split; [done|]. by apply (newest_part t now (lru_entries s) _ []); [rewrite app_nil_r|..]. }
    destruct op; try exact Hid; try exact Hexp. split; [apply Forall_nil_2|split; constructor].
Qed.

(** The instants of a list of operations, in order and not before [t]. *)
Fixpoint in_order (t : time) (ops : list (time * cache_op)) : Prop :=
  match ops with [] => True | (now, _) :: ops => t <= now /\ in_order now ops end.
Fixpoint end_time (t : time) (ops : list (time * cache_op)) : time := match ops with [] => t | (now, _) :: ops => end_time now ops end.

Lemma history_run done_ops ops s t : faithful done_ops (lru_entries s) -> newest_first t (lru_entries s) -> in_order t ops ->
  let s' := (spec_run entries size ttl s ops).1 in
  faithful (done_ops ++ ops) (lru_entries s') /\ newest_first (end_time t ops) (lru_entries s').
Proof.
  revert done_ops s t. induction ops as [|[now op] ops IH]; intros done_ops s t Hf Hn Ho; cbn [spec_run].
  { by rewrite app_nil_r. }
  destruct Ho as [Ht Ho]. destruct (history_step done_ops s t now op Hf Hn Ht) as [Hf' Hn'].
  destruct (spec_step entries size ttl s now op) as [s1 out]. cbn [fst] in Hf', Hn'.
  destruct (IH _ _ now Hf' Hn' Ho) as [H1 H2]. destruct (spec_run entries size ttl s1 ops) as [s2 outs]. cbn [fst] in *.
  rewrite <- app_assoc in H1. done.
Qed.

Lemma fresh_part_fresh now l : newest_first now l -> Forall (fun e => Time.sub now (entry_touched e) < ttl) (fresh_part ttl now l).
Proof.
  intros [H1 _]. induction H1 as [|e l H1 IH H2]; cbn [fresh_part]; [constructor|].
  destruct (fresh_part ttl now l) as [|x l'] eqn:E; cbn [bool_decide andb].
  - rewrite bool_decide_true by done. unfold stale. destruct (Z.ltb_spec (Time.sub now (entry_touched e)) ttl); cbn; [by repeat constructor|constructor].
  - rewrite bool_decide_false by done. cbn. constructor; [|done]. apply Forall_cons in IH as [IH _].
    destruct (fresh_part_prefix now l) as [rest Hl]. rewrite E in Hl. rewrite Hl in H2. apply Forall_cons in H2 as [H2 _].
    assert (Time.sub now (entry_touched e) <= Time.sub now (entry_touched x)); [|lia]. unfold Time.sub, clamp64, min_int64, max_int64. lia.
Qed.

Lemma history ops t : in_order t ops ->
  faithful ops (lru_entries (lru_run ops).1) /\ newest_first (end_time t ops) (lru_entries (lru_run ops).1).
Proof. intros Ho. apply (history_run [] ops fresh_lru t); [constructor|split; constructor|done]. Qed.

Lemma in_order_app t ops1 ops2 : in_order t (ops1 ++ ops2) <-> in_order t ops1 /\ in_order (end_time t ops1) ops2.
Proof. revert t. induction ops1 as [|[now op] ops1 IH]; intros t; cbn; [naive_solver|]. rewrite IH. naive_solver. Qed.

(** The last result of a run that ends with a lookup. *)
Lemma last_lookup ops now protocol model session prompt c outs hit : 1 <= entries -> 0 <= size ->
  cache_run (newPromptCache entries size ttl) (ops ++ [(now, PrefixAndRemember protocol model session prompt)]) = Some (c, outs) ->
  last outs = Some hit -> Strings.TrimSpace session <> "" ->
  hit = (match spec_find (spec_expire ttl (lru_run ops).1 now) (prompt_key protocol model session) with
         | Some e => Z.of_nat (commonPrefix (entry_prompt e) prompt)
         | None => 0
         end, 0).
Proof.
  intros H1 H2 Hrun Hlast Hs. destruct (rep_run (ops ++ [(now, PrefixAndRemember protocol model session prompt)]) _ _ (rep_new H1 H2) H1 H2) as (c' & Hc & _).
  rewrite Hrun in Hc. injection Hc as -> ->. rewrite spec_run_app in Hlast. cbn [snd fst spec_run] in Hlast.
  change (spec_run entries size ttl {| lru_entries := []; lru_closed := false |} ops) with (lru_run ops) in Hlast.
  cbn [spec_step] in Hlast. destruct (String.eqb_spec (Strings.TrimSpace session) ""); [done|]. cbn [snd] in Hlast.
  rewrite last_snoc in Hlast. by injection Hlast as <-.
Qed.

(** What a request is said to have read from the cache comes from the last
    prompt that was remembered for its session, provider protocol and model,
    however many requests of other sessions came in between, and that was less
    than the idle time ago; it is the length of their common prefix. *)
Theorem hit_from_session ops now protocol model session prompt c outs hit t : 1 <= entries -> 0 <= size ->
  in_order t (ops ++ [(now, PrefixAndRemember protocol model session prompt)]) ->
  cache_run (newPromptCache entries size ttl) (ops ++ [(now, PrefixAndRemember protocol model session prompt)]) = Some (c, outs) ->
  last outs = Some (hit, 0) -> hit <> 0 ->
  exists touched previous, latest ops (prompt_key protocol model session) = Some (touched, previous) /\
    Time.sub now touched < ttl /\ hit = Z.of_nat (commonPrefix previous prompt).
Proof.
  intros H1 H2 Ho Hrun Hlast Hhit. apply in_order_app in Ho as [Ho [Hnow _]].
  destruct (decide (Strings.TrimSpace session = "")) as [Hs|Hs].
  { exfalso. destruct (rep_run (ops ++ [(now, PrefixAndRemember protocol model session prompt)]) _ _ (rep_new H1 H2) H1 H2) as (c' & Hc & _).
    rewrite Hrun in Hc. injection Hc as -> ->. rewrite spec_run_app in Hlast. cbn [snd fst spec_run spec_step] in Hlast. rewrite Hs in Hlast.
    cbn [String.eqb snd] in Hlast. rewrite last_snoc in Hlast. congruence. }
  pose proof (last_lookup _ _ _ _ _ _ _ _ _ H1 H2 Hrun Hlast Hs) as Hh.
  destruct (spec_find _ _) as [e|] eqn:Hf; [|congruence]. injection Hh as ->.
  destruct (history ops t Ho) as [Hfaith Hnew]. cbn in Hf. unfold spec_find in Hf. cbn in Hf. apply find_some in Hf as [Hin Hkey].
  apply String.eqb_eq in Hkey. apply list_elem_of_In in Hin.
  destruct (fresh_part_prefix now (lru_entries (lru_run ops).1)) as [rest E].
  exists (entry_touched e), (entry_prompt e). split_and!; [| |done].
  - rewrite <- Hkey. pose proof (Forall_part _ _ _ _ E Hfaith) as Hp. rewrite Forall_forall in Hp. by apply Hp.
  - assert (Hfr : newest_first now (lru_entries (lru_run ops).1)).
    { by apply (newest_part (end_time t ops) now (lru_entries (lru_run ops).1) _ []); [rewrite app_nil_r|..]. }
    apply fresh_part_fresh in Hfr. rewrite Forall_forall in Hfr. by apply Hfr.
Qed.

(** ** Retention *)

Definition added (ops : list (time * cache_op)) : list (string * list byte) := omap (fun top => remembers top.2) ops.
Definition added_size (l : list (string * list byte)) : Z :=
  sizes ((fun kp => {| entry_key := kp.1; entry_prompt := kp.2; entry_touched := 0 |}) <$> l).

(** The entry [e] with at most [n] entries and [b] bytes before it. *)
Definition holds (e : promptEntry) (n b : Z) (s : lru) : Prop :=
  lru_closed s = false /\ exists front back, lru_entries s = front ++ e :: back /\ Z.of_nat (length front) <= n /\ sizes front <= b.

Lemma fresh_part_keeps now front e back : stale ttl now e = false -> fresh_part ttl now (front ++ e :: back) = front ++ e :: fresh_part ttl now back.
Proof.
  intros He. induction front as [|x front IH]; cbn [app fresh_part]; [by rewrite He, andb_false_r|].
  rewrite IH. by rewrite bool_decide_false by (by destruct front).
Qed.
Lemma fitting_keeps n b front e back : Z.of_nat (length front) + 1 <= n -> sizes front + entry_size e <= b ->
  exists back', fitting_part n b (front ++ e :: back) = front ++ e :: back'.
Proof.
  revert n b. induction front as [|x front IH]; intros n b Hn Hb; cbn [app fitting_part length sizes] in *.
  - rewrite (proj2 (Z.leb_le 1 n)), (proj2 (Z.leb_le (entry_size e) b)) by lia. by eexists.
  - pose proof (sizes_nonneg front). pose proof (entry_size_nonneg e).
    rewrite (proj2 (Z.leb_le 1 n)), (proj2 (Z.leb_le (entry_size x) b)) by lia. destruct (IH (n - 1) (b - entry_size x)) as [back' ->]; [lia..|]. by exists back'.
Qed.
Lemma filter_smaller key l : Z.of_nat (length (filter (fun e => entry_key e <> key) l)) <= Z.of_nat (length l) /\
  sizes (filter (fun e => entry_key e <> key) l) <= sizes l.
Proof.
  induction l as [|e l [IH1 IH2]]; [cbn; lia|]. rewrite filter_cons. pose proof (entry_size_nonneg e). destruct (decide _); cbn [length sizes]; lia.
Qed.

Lemma holds_expire e n b s now : holds e n b s -> Time.sub now (entry_touched e) < ttl -> holds e n b (spec_expire ttl s now).
Proof.
  intros (Hc & front & back & E & Hn & Hb) Ht. split; [done|]. exists front, (fresh_part ttl now back). cbn. split; [|done].
  rewrite E. apply fresh_part_keeps. unfold stale. apply negb_false_iff, Z.ltb_lt. lia.
Qed.
Lemma holds_remember e n b s key prompt now :
  let m := Strings.len key + Z.of_nat (length prompt) in
  holds e n b s -> key <> entry_key e -> n + 2 <= entries -> b + m + entry_size e <= size ->
  holds e (n + 1) (b + m) (spec_remember entries size s key prompt now).
Proof.
  cbv zeta. intros (Hc & front & back & E & Hn & Hb) Hk H1 H2. split; [done|]. unfold spec_remember. rewrite Hc, E. cbn [orb lru_entries].
  rewrite filter_app, filter_cons_True by auto. destruct (filter_smaller key front) as [F1 F2].
  set (entry := {| entry_key := key; entry_prompt := prompt; entry_touched := now |}).
  assert (Hsz : entry_size entry = Strings.len key + Z.of_nat (length prompt)) by done. pose proof (entry_size_nonneg entry). pose proof (entry_size_nonneg e).
  pose proof (sizes_nonneg front).
  destruct (Z.ltb_spec size (entry_size entry)); [exists (filter (fun e => entry_key e <> key) front); eexists; split; [done|]; lia|].
  destruct (fitting_keeps (entries - 1) (size - entry_size entry) (filter (fun e => entry_key e <> key) front) e
              (filter (fun e => entry_key e <> key) back)) as [back' ->]; [lia..|].
  exists (entry :: filter (fun e => entry_key e <> key) front), back'. cbn [app length sizes]. split; [done|]. lia.
Qed.

Lemma holds_run e ops s n b : holds e n b s -> ~ (exists now, (now, CloseCache) ∈ ops) ->
  Forall (fun top => Time.sub top.1 (entry_touched e) < ttl) ops ->
  Forall (fun kp : string * list byte => kp.1 <> entry_key e) (added ops) ->
  n + Z.of_nat (length (added ops)) + 1 <= entries -> b + added_size (added ops) + entry_size e <= size ->
  exists n' b', holds e n' b' (spec_run entries size ttl s ops).1.
Proof.
  revert s n b. induction ops as [|[now op] ops IH]; intros s n b Hh Hopen Ht Hk Hn Hb; cbn [spec_run]; [by exists n, b|].
  apply Forall_cons in Ht as [Ht0 Ht]. cbn in Ht0.
  assert (Hopen' : ~ (exists now, (now, CloseCache) ∈ ops)) by (intros [u Hu]; apply Hopen; exists u; by right).
  pose proof (spec_step_state s now op) as Hstep. destruct (spec_step entries size ttl s now op) as [s1 out] eqn:E1. cbn [fst] in Hstep.
  destruct (spec_run entries size ttl s1 ops) as [s2 outs] eqn:E2.
  assert (Hgoal : forall n b, holds e n b s1 -> Forall (fun kp : string * list byte => kp.1 <> entry_key e) (added ops) ->
            n + Z.of_nat (length (added ops)) + 1 <= entries -> b + added_size (added ops) + entry_size e <= size ->
            exists n' b', holds e n' b' s2).
  { intros n1 b1 Hh1 Hk1 Hn1 Hb1. specialize (IH s1 n1 b1 Hh1 Hopen' Ht Hk1 Hn1 Hb1). by rewrite E2 in IH. }
  cbn [fst]. clear IH E1 E2. cbn [added omap list_omap] in Hk, Hn, Hb. destruct (remembers op) as [[key prompt]|] eqn:Hr; cbn [omap list_omap snd] in Hk, Hn, Hb.
  - rewrite Hr in Hk, Hn, Hb. apply Forall_cons in Hk as [Hk0 Hk]. fold (added ops) in Hk, Hn, Hb. cbn [length] in Hn.
    change (added_size ((key, prompt) :: added ops)) with (Strings.len key + Z.of_nat (length prompt) + added_size (added ops)) in Hb.
    pose proof (sizes_nonneg ((fun kp => {| entry_key := kp.1; entry_prompt := kp.2; entry_touched := 0 |}) <$> added ops)) as Hpos.
    fold (added_size (added ops)) in Hpos.
    apply (Hgoal (n + 1) (b + (Strings.len key + Z.of_nat (length prompt)))); [|done|lia|lia].
    rewrite Hstep. apply holds_remember; [by apply holds_expire|done|lia|lia].
  - rewrite Hr in Hk, Hn, Hb. fold (added ops) in Hk, Hn, Hb. apply (Hgoal n b); try done. rewrite Hstep.
    destruct op; try done; try by apply holds_expire. exfalso. apply Hopen. exists now. by left.
Qed.

Lemma open_run ops s : lru_closed s = false -> ~ (exists now, (now, CloseCache) ∈ ops) -> lru_closed (spec_run entries size ttl s ops).1 = false.
Proof.
  revert s. induction ops as [|[now op] ops IH]; intros s Hs Hopen; cbn [spec_run]; [done|].
  pose proof (spec_step_state s now op) as Hstep. destruct (spec_step entries size ttl s now op) as [s1 out]. cbn [fst] in Hstep.
  assert (Hs1 : lru_closed s1 = false).
  { rewrite Hstep. destruct (remembers op) as [[key prompt]|]; [done|]. destruct op; try done. exfalso. apply Hopen. exists now. by left. }
  specialize (IH s1 Hs1). destruct (spec_run entries size ttl s1 ops) as [s2 outs]. apply IH. intros [u Hu]. apply Hopen. exists u. by right.
Qed.

Lemma find_keyed front e back : NoDup (entry_key <$> front ++ e :: back) ->
  List.find (fun x => String.eqb (entry_key x) (entry_key e)) (front ++ e :: back) = Some e.
Proof.
  rewrite fmap_app. cbn. intros (_ & Hnd & _)%NoDup_app. induction front as [|x front IH]; cbn [app List.find]; [by rewrite String.eqb_refl|].
  destruct (String.eqb_spec (entry_key x) (entry_key e)) as [Hx|_].
  - exfalso. apply (Hnd (entry_key x)); [by left|]. rewrite Hx. by left.
  - apply IH. intros y Hy. apply Hnd. by right.
Qed.

(** After the operations that follow the one that remembered [e]. *)
Lemma held_after s t0 op key previous ops : let e := {| entry_key := key; entry_prompt := previous; entry_touched := t0 |} in
  lru_closed s = false -> remembers op = Some (key, previous) -> ~ (exists t, (t, CloseCache) ∈ ops) ->
  Forall (fun top : time * cache_op => Time.sub top.1 t0 < ttl) ops ->
  Forall (fun kp : string * list byte => kp.1 <> key) (added ops) ->
  Z.of_nat (length (added ops)) + 1 <= entries -> added_size (added ops) + entry_size e <= size ->
  exists n b, holds e n b (spec_run entries size ttl s ((t0, op) :: ops)).1.
Proof.
  cbv zeta. set (e := {| entry_key := key; entry_prompt := previous; entry_touched := t0 |}). intros Hs Hop Hopen Ht Hk Hn Hb. cbn [spec_run].
  pose proof (spec_step_state s t0 op) as Hstep. rewrite Hop in Hstep. destruct (spec_step entries size ttl s t0 op) as [s1 out]. cbn [fst] in Hstep.
  assert (Hpos : 0 <= added_size (added ops)) by apply sizes_nonneg.
  assert (Hh1 : holds e 0 0 s1).
  { rewrite Hstep. split; [done|]. unfold spec_remember. cbn [lru_entries spec_expire lru_closed]. rewrite Hs. fold e. cbn [orb].
    rewrite (proj2 (Z.ltb_ge size (entry_size e))) by lia. eexists [], _. split; [reflexivity|]. cbn. lia. }
  destruct (holds_run e ops s1 0 0 Hh1 Hopen Ht Hk ltac:(lia) ltac:(lia)) as (n' & b' & Hh2). exists n', b'.
  by destruct (spec_run entries size ttl s1 ops).
Qed.

(** C36. A session finds its last prompt again for the whole idle time, as long
    as the prompts that other sessions remembered since then fit into the
    cache together with it: the common prefix is counted as read from the
    cache, whatever was in the cache before. *)
Theorem prompt_retained ops1 t0 op ops2 now protocol model session previous prompt : 1 <= entries ->
  let key := prompt_key protocol model session in
  remembers op = Some (key, previous) -> Strings.TrimSpace session <> "" ->
  ~ (exists t, (t, CloseCache) ∈ ops1 ++ ops2) ->
  Forall (fun top : time * cache_op => Time.sub top.1 t0 < ttl) ops2 -> Time.sub now t0 < ttl ->
  Forall (fun kp : string * list byte => kp.1 <> key) (added ops2) ->
  Z.of_nat (length (added ops2)) + 1 <= entries ->
  added_size (added ops2) + Strings.len key + Z.of_nat (length previous) <= size ->
  exists c outs,
    cache_run (newPromptCache entries size ttl) (ops1 ++ (t0, op) :: ops2 ++ [(now, PrefixAndRemember protocol model session prompt)]) =
      Some (c, outs ++ [(Z.of_nat (commonPrefix previous prompt), 0)]).
Proof.
  cbv zeta. intros H1 Hop Hs Hopen Ht2 Htn Hk Hn Hb. set (key := prompt_key protocol model session) in *.
  assert (Hpos : 0 <= added_size (added ops2)) by apply sizes_nonneg. assert (H2 : 0 <= size) by (unfold Strings.len in Hb; lia).
  set (all := ops1 ++ (t0, op) :: ops2). set (look := PrefixAndRemember protocol model session prompt).
  assert (Eall : ops1 ++ (t0, op) :: ops2 ++ [(now, look)] = all ++ [(now, look)]) by (unfold all; by rewrite <- app_assoc). rewrite Eall.
  destruct (rep_run (all ++ [(now, look)]) _ _ (rep_new H1 H2) H1 H2) as (c & Hc & _). exists c, (lru_run all).2. rewrite Hc. do 2 f_equal.
  rewrite spec_run_app. cbn [snd]. f_equal. change (spec_run entries size ttl {| lru_entries := []; lru_closed := false |} all) with (lru_run all).
  cbn [spec_run look spec_step]. destruct (String.eqb_spec (Strings.TrimSpace session) ""); [done|]. cbn [snd]. do 2 f_equal. fold key.
  assert (Hopen1 : lru_closed (spec_run entries size ttl fresh_lru ops1).1 = false).
  { apply open_run; [done|]. intros [u Hu]. apply Hopen. exists u. apply elem_of_app. by left. }
  destruct (held_after _ t0 op key previous ops2 Hopen1 Hop) as (n' & b' & Hh); [|done|done|done|unfold entry_size; cbn; lia|].
  { intros [u Hu]. apply Hopen. exists u. apply elem_of_app. by right. }
  replace (spec_run entries size ttl (spec_run entries size ttl fresh_lru ops1).1 ((t0, op) :: ops2)).1 with (lru_run all).1 in Hh
    by (unfold lru_run, all; by rewrite spec_run_app).
  apply (holds_expire _ _ _ _ now) in Hh; [|done]. destruct Hh as (_ & front & back & E & _).
  destruct (rep_run all _ _ (rep_new H1 H2) H1 H2) as (c1 & _ & Hr1). pose proof (rep_keys _ _ _ _ _ (rep_expire _ _ _ _ _ now Hr1)) as Hnd.
  change (spec_run entries size ttl {| lru_entries := []; lru_closed := false |} all) with (lru_run all) in Hnd.
  unfold spec_find. rewrite E in *. pose proof (find_keyed _ _ _ Hnd) as Hfind. cbn [entry_key] in Hfind. by rewrite Hfind.
Qed.
End claims.
