(* ===== verification/EstimateFacts.v ===== *)
(** * What an estimate counts

    The common prefix of two prompts is the one of their characters, and the
    parts of a prompt before and after it count for at most one token more
    than the whole. *)

From Stdlib Require Import SpecFloat.
From S2P Require Import Prelude GoStrings GoFloat Json Utf8Facts Streams Pricing Inputs PromptCache.

(** ** Common prefixes *)

Fixpoint common_runes (ra rb : list Z) : list Z :=
  match ra, rb with
  | x :: ra, y :: rb => if x =? y then x :: common_runes ra rb else []
  | _, _ => []
  end.

Lemma same_bytes_spec a b : let n := same_bytes a b in
  (n <= length a)%nat /\ (n <= length b)%nat /\ take n a = take n b.
Proof.
  revert b. induction a as [|x a IH]; intros [|y b]; cbn; try (split_and!; [lia..|done]).
  destruct (Z.eqb_spec x y) as [->|]; [|cbn; split_and!; [lia..|done]]. destruct (IH b) as (H1 & H2 & H3). cbn. split_and!; [lia..|by f_equal].
Qed.
Lemma same_bytes_app p a b : same_bytes (p ++ a) (p ++ b) = (length p + same_bytes a b)%nat.
Proof. induction p as [|x p IH]; cbn; [done|]. by rewrite Z.eqb_refl, IH. Qed.

(** A rune starts with a byte that starts a rune, and goes on with others. *)

Lemma start_byte b : 0 <= b < 256 -> Utf8.RuneStart b = negb (Utf8.continuation b).
Proof.
  intros Hb. assert (Hin : b ∈ seqZ 0 256) by (apply elem_of_seqZ; lia). clear Hb. revert b Hin. apply Forall_forall.
  change (seqZ 0 256) with (Z.of_nat <$> seq 0 256). apply Forall_fmap. repeat (apply Forall_cons; split; [reflexivity|]). apply Forall_nil_2.
Qed.

Lemma encode_shape r : Utf8.valid_rune r = true -> exists b l, Utf8.encode_valid r = b :: l /\ Utf8.RuneStart b = true /\
  Forall (fun c => Utf8.RuneStart c = false) l.
Proof.
  intros Hv. pose proof (encode_valid_bytes r Hv) as [Hbytes _]. unfold Utf8.valid_rune in Hv. rewrite orb_true_iff, !between_true in Hv.
  assert (Hstart : forall tag k x, 0 <= k -> 0 <= x < 2 ^ k -> tag mod 2 ^ k = 0 -> 192 <= tag -> tag + x < 256 -> Utf8.RuneStart (Z.lor tag x) = true).
  { intros tag k x Hk Hx Ht Hlo Hhi. destruct (tag_byte tag k x Hk Hx Ht) as [-> _]. rewrite start_byte by lia. apply negb_true_iff, not_true_iff_false.
    unfold Utf8.continuation. rewrite between_true. lia. }
  assert (Hcont : forall x, 0 <= x < 64 -> Utf8.RuneStart (Z.lor 128 x) = false).
  { intros x Hx. destruct (continuation_byte x Hx) as (-> & Hc & _). rewrite start_byte by lia. by rewrite Hc. }
  unfold Utf8.encode_valid in *. destruct (Z.ltb_spec r 128).
  { eexists _, _. split; [done|]. split; [|constructor]. rewrite start_byte by lia. apply negb_true_iff, not_true_iff_false.
    unfold Utf8.continuation. rewrite between_true. lia. }
  destruct (split6 r) as (q & b & Hr & Hb & Hq & Hs & Hl); [lia|]. rewrite ?shiftr_18, ?shiftr_12, !Hs, Hl in *.
  destruct (Z.ltb_spec r 2048).
  { eexists _, _. split; [done|]. split; [apply (Hstart 192 5); try done; lia|]. repeat constructor. by apply Hcont. }
  destruct (split6 q) as (p & b' & Hr' & Hb' & Hp & Hs' & Hl'); [lia|]. rewrite !Hs', Hl' in *.
  destruct (Z.ltb_spec r 65536).
  { eexists _, _. split; [done|]. split; [apply (Hstart 224 4); try done; lia|]. repeat constructor; by apply Hcont. }
  destruct (split6 p) as (o & b'' & Hr'' & Hb'' & Ho & Hs'' & Hl''); [lia|]. rewrite Hs'', Hl'' in *.
  eexists _, _. split; [done|]. split; [apply (Hstart 240 3); try done; lia|]. repeat constructor; by apply Hcont.
Qed.

(** Back from inside a rune to its start. *)
Lemma boundary_inside p b l rest other k : Utf8.RuneStart b = true -> Forall (fun c => Utf8.RuneStart c = false) l -> (k <= length l)%nat ->
  (length p + k < length (p ++ b :: l ++ rest))%nat -> (length p + k < length other)%nat ->
  rune_boundary (p ++ b :: l ++ rest) other (length p + k) = length p.
Proof.
  intros Hb Hl Hk. induction k as [|k IH]; intros H1 H2.
  - rewrite Nat.add_0_r in *. destruct (length p) as [|n] eqn:E; [done|]. cbn [rune_boundary].
    rewrite (proj2 (Nat.ltb_lt _ _)), (proj2 (Nat.ltb_lt _ _)) by lia. rewrite lookup_app_r by lia. rewrite E, Nat.sub_diag. change ((b :: l ++ rest) !! 0%nat) with (Some b). cbn [from_option id]. by rewrite Hb, !andb_false_r.
  - rewrite Nat.add_succ_r in *. cbn [rune_boundary]. rewrite (proj2 (Nat.ltb_lt _ _)), (proj2 (Nat.ltb_lt _ _)) by lia.
    rewrite lookup_app_r by lia. replace (S (length p + k) - length p)%nat with (S k) by lia. change ((b :: l ++ rest) !! S k) with ((l ++ rest) !! k).
    rewrite lookup_app_l by lia. destruct (lookup_lt_is_Some_2 l k) as [c Hc]; [lia|]. rewrite Hc. cbn [from_option id].
    rewrite Forall_forall in Hl. rewrite (Hl c) by (by eapply list_elem_of_lookup_2). cbn [negb andb]. apply IH; lia.
Qed.

(** Different runes differ before either of them ends. *)
Lemma same_bytes_runes x y a b : Utf8.valid_rune x = true -> Utf8.valid_rune y = true -> x <> y ->
  (same_bytes (Utf8.encode_valid x ++ a) (Utf8.encode_valid y ++ b) < length (Utf8.encode_valid x))%nat /\
  (same_bytes (Utf8.encode_valid x ++ a) (Utf8.encode_valid y ++ b) < length (Utf8.encode_valid y))%nat.
Proof.
  intros Hx Hy Hne. destruct (same_bytes_spec (Utf8.encode_valid x ++ a) (Utf8.encode_valid y ++ b)) as (_ & _ & Htake).
  set (n := same_bytes _ _) in *. pose proof (decode_encode x a Hx) as Dx. pose proof (decode_encode y b Hy) as Dy.
  split; apply Nat.nle_gt; intros Hn.
  - assert (E : Utf8.encode_valid y ++ b = Utf8.encode_valid x ++ drop (length (Utf8.encode_valid x)) (Utf8.encode_valid y ++ b)).
    { rewrite <- (take_drop (length (Utf8.encode_valid x)) (Utf8.encode_valid y ++ b)) at 1. f_equal.
      replace (take (length (Utf8.encode_valid x)) (Utf8.encode_valid y ++ b)) with (take (length (Utf8.encode_valid x)) (take n (Utf8.encode_valid y ++ b)))
        by (rewrite take_take; f_equal; lia). rewrite <- Htake, take_take, Nat.min_l by lia. by rewrite take_app_length. }
    rewrite E, decode_encode in Dy by done. congruence.
  - assert (E : Utf8.encode_valid x ++ a = Utf8.encode_valid y ++ drop (length (Utf8.encode_valid y)) (Utf8.encode_valid x ++ a)).
    { rewrite <- (take_drop (length (Utf8.encode_valid y)) (Utf8.encode_valid x ++ a)) at 1. f_equal.
      replace (take (length (Utf8.encode_valid y)) (Utf8.encode_valid x ++ a)) with (take (length (Utf8.encode_valid y)) (take n (Utf8.encode_valid x ++ a)))
        by (rewrite take_take; f_equal; lia). rewrite Htake, take_take, Nat.min_l by lia. by rewrite take_app_length. }
    rewrite E, decode_encode in Dx by done. congruence.
Qed.

Lemma boundary_end a b i : (length a <= i)%nat \/ (length b <= i)%nat -> rune_boundary a b i = i.
Proof.
  intros H. destruct i as [|i]; [done|]. cbn [rune_boundary].
  assert (E : ((S i <? length a)%nat && (S i <? length b)%nat) = false); [|by rewrite E].
  apply andb_false_iff. rewrite !Nat.ltb_ge. lia.
Qed.

Lemma common_split ra rb : exists ra' rb', ra = common_runes ra rb ++ ra' /\ rb = common_runes ra rb ++ rb' /\
  match ra', rb' with x :: _, y :: _ => x <> y | _, _ => True end.
Proof.
  revert rb. induction ra as [|x ra IH]; intros [|y rb]; cbn [common_runes]; try by eexists _, _.
  destruct (Z.eqb_spec x y) as [->|Hne]; [|by exists (x :: ra), (y :: rb)]. destruct (IH rb) as (ra' & rb' & H1 & H2 & H3).
  exists ra', rb'. cbn. by rewrite <- H1, <- H2.
Qed.

Lemma common_prefix_runes ra rb : valid_runes ra -> valid_runes rb ->
  commonPrefix (encoded ra) (encoded rb) = length (encoded (common_runes ra rb)).
Proof.
  intros Ha Hb. destruct (common_split ra rb) as (ra' & rb' & Ea & Eb & Hne). unfold commonPrefix. set (p := common_runes ra rb) in *.
  rewrite Ea, Eb, !encoded_app, same_bytes_app. rewrite Ea in Ha. rewrite Eb in Hb. apply Forall_app in Ha as [_ Ha]. apply Forall_app in Hb as [_ Hb].
  destruct ra' as [|x ra']; [cbn; rewrite Nat.add_0_r; apply boundary_end; left; by rewrite app_nil_r|].
  destruct rb' as [|y rb'].
  { change (encoded []) with (@nil byte). assert (E : same_bytes (encoded (x :: ra')) [] = 0%nat) by (by destruct (encoded (x :: ra'))).
    rewrite E, Nat.add_0_r. apply boundary_end. right. by rewrite app_nil_r. }
  apply Forall_cons in Ha as [Hx _]. apply Forall_cons in Hb as [Hy _].
  change (encoded (x :: ra')) with (Utf8.encode_valid x ++ encoded ra'). change (encoded (y :: rb')) with (Utf8.encode_valid y ++ encoded rb').
  destruct (same_bytes_runes x y (encoded ra') (encoded rb') Hx Hy Hne) as [Lx Ly]. set (k := same_bytes _ _) in *.
  destruct (encode_shape x Hx) as (b & l & Ex & Hs & Hl). rewrite Ex in *. cbn [app length] in *.
  apply boundary_inside; [done|done|lia|rewrite length_app; cbn; rewrite length_app; lia|rewrite !length_app; lia].
Qed.

Lemma common_runes_longest q ra rb : q `prefix_of` ra -> q `prefix_of` rb -> q `prefix_of` common_runes ra rb.
Proof.
  intros [ra' ->] [rb' ->]. induction q as [|x q IH]; [apply prefix_nil|]. cbn. rewrite Z.eqb_refl. by apply prefix_cons.
Qed.

(** The bytes that two prompts share, as the code counts them, are the
    encoding of their longest common prefix of characters, although it compares
    them byte by byte: it never stops inside a character. *)
Theorem common_prefix_longest ra rb : valid_runes ra -> valid_runes rb ->
  exists p, commonPrefix (encoded ra) (encoded rb) = length (encoded p) /\ p `prefix_of` ra /\ p `prefix_of` rb /\
    forall q, q `prefix_of` ra -> q `prefix_of` rb -> q `prefix_of` p.
Proof.
  intros Ha Hb. exists (common_runes ra rb). destruct (common_split ra rb) as (ra' & rb' & Ea & Eb & _).
  split_and!; [by apply common_prefix_runes|by exists ra'|by exists rb'|]. intros q. apply common_runes_longest.
Qed.

(** ** Tokens *)

Definition quarter (n : Z) : Z := (n + 3) / 4.
(** The tokens of runes after [run] characters of a word. *)
Fixpoint tokens_from (run : Z) (rs : list Z) : Z :=
  match rs with
  | [] => quarter run
  | r :: rs => if (r <? 128) && word_character r then tokens_from (run + 1) rs else quarter run + 1 + tokens_from 0 rs
  end.
Definition tokens (rs : list Z) : Z := tokens_from 0 rs.

Lemma flush_quarter t run : 0 <= run -> flush_run (t, run) = t + quarter run.
Proof.
  intros H. unfold flush_run, quarter. cbn. destruct (Z.ltb_spec 0 run); [done|]. replace run with 0 by lia. change ((0 + 3) / 4) with 0. lia.
Qed.
Lemma quarter_add a b : 0 <= a -> 0 <= b -> quarter (a + b) <= quarter a + quarter b <= quarter (a + b) + 1.
Proof.
  intros Ha Hb. unfold quarter. pose proof (Z.div_mod (a + 3) 4). pose proof (Z.div_mod (b + 3) 4). pose proof (Z.div_mod (a + b + 3) 4).
  pose proof (Z.mod_pos_bound (a + 3) 4). pose proof (Z.mod_pos_bound (b + 3) 4). pose proof (Z.mod_pos_bound (a + b + 3) 4). lia.
Qed.
Lemma quarter_bounds a : 0 <= a -> 0 <= quarter a <= a.
Proof. intros Ha. unfold quarter. pose proof (Z.div_mod (a + 3) 4). pose proof (Z.mod_pos_bound (a + 3) 4). lia. Qed.
Lemma quarter_pos a : 1 <= a -> 1 <= quarter a.
Proof. intros Ha. unfold quarter. pose proof (Z.div_mod (a + 3) 4). pose proof (Z.mod_pos_bound (a + 3) 4). lia. Qed.

Lemma count_runes rs t run : valid_runes rs -> 0 <= run ->
  flush_run (foldl count_rune (t, run) ((fun r => (r, Utf8.encode_valid r)) <$> rs)) = t + tokens_from run rs.
Proof.
  intros Hrs. revert t run. induction Hrs as [|r rs Hr Hrs IH]; intros t run H; cbn [fmap list_fmap foldl tokens_from]; [by apply flush_quarter|].
  unfold count_rune at 2. cbn [fst snd]. rewrite flush_quarter by done.
  assert (Hnot : ((r =? Utf8.RuneError) && (length (Utf8.encode_valid r) =? 1)%nat) = false).
  { apply andb_false_iff. destruct (Z.eqb_spec r Utf8.RuneError) as [->|]; [by right|by left]. }
  rewrite Hnot. destruct (r <? 128); cbn [andb]; [destruct (word_character r)|]; rewrite IH by lia; lia.
Qed.

Lemma tokens_run run rs : 0 <= run -> tokens_from run rs <= quarter run + tokens rs <= tokens_from run rs + 1.
Proof.
  intros H. unfold tokens. assert (Hgen : forall run', 0 <= run' -> tokens_from (run + run') rs <= quarter run + tokens_from run' rs <= tokens_from (run + run') rs + 1);
    [|by specialize (Hgen 0 ltac:(lia)); rewrite Z.add_0_r in Hgen].
  induction rs as [|r rs IH]; intros run' H'; cbn [tokens_from]; [by apply quarter_add|]. destruct (_ && _).
  - rewrite <- Z.add_assoc. apply IH. lia.
  - pose proof (quarter_add run run' H H'). lia.
Qed.
Lemma tokens_split run rs rs' : 0 <= run -> tokens_from run (rs ++ rs') <= tokens_from run rs + tokens rs' <= tokens_from run (rs ++ rs') + 1.
Proof.
  revert run. induction rs as [|r rs IH]; intros run H; cbn [app tokens_from]; [by apply tokens_run|]. destruct (_ && _); [apply IH; lia|].
  specialize (IH 0 ltac:(lia)). lia.
Qed.
Lemma tokens_bounds run rs : 0 <= run -> quarter run <= tokens_from run rs <= quarter run + Z.of_nat (length rs) /\ (rs <> [] -> 1 <= tokens_from run rs).
Proof.
  revert run. induction rs as [|r rs IH]; intros run H; cbn [tokens_from length]; [split; [lia|done]|].
  pose proof (quarter_bounds run H). pose proof (quarter_add run 1 H ltac:(lia)). change (quarter 1) with 1 in *. destruct (_ && _).
  - destruct (IH (run + 1) ltac:(lia)) as [B _]. pose proof (quarter_pos (run + 1) ltac:(lia)).
    assert (quarter run <= quarter (run + 1)) by (unfold quarter; apply Z.div_le_mono; lia). split; [lia|]. lia.
  - destruct (IH 0 ltac:(lia)) as [B _]. change (quarter 0) with 0 in B. split; [lia|]. lia.
Qed.

Lemma encoded_nil rs : valid_runes rs -> encoded rs = [] -> rs = [].
Proof.
  destruct rs as [|r rs]; [done|]. intros [Hr _]%Forall_cons E. destruct (encode_valid_bytes r Hr) as [_ Hl].
  change (Utf8.encode_valid r ++ encoded rs = []) in E. apply app_nil in E as [E _]. rewrite E in Hl. cbn in Hl. lia.
Qed.

Lemma estimate_encoded rs : valid_runes rs -> estimateTokens (encoded rs) = tokens rs.
Proof.
  intros Hrs. unfold estimateTokens. case_bool_decide as He; [by rewrite (encoded_nil rs Hrs He)|].
  change (encoded rs) with (concat (Utf8.encode_valid <$> rs)). rewrite runes_encoded, count_runes by done. cbn [Z.add].
  destruct (tokens_bounds 0 rs ltac:(lia)) as [_ Hpos]. rewrite Z.add_0_l. destruct (Z.eqb_spec (tokens_from 0 rs) 0) as [E|]; [|done].
  rewrite E in Hpos. exfalso. enough (1 <= 0) by lia. apply Hpos. intros ->. by apply He.
Qed.

(** ** What is encoded is text *)

Lemma hex_digit_ascii n : 0 <= n < 16 -> 0 <= hex_digit n < 128.
Proof. intros Hn. unfold hex_digit. destruct (n <? 10); lia. Qed.
Lemma unicode_u_text r : 0 <= r < 65536 -> is_text (unicode_u r).
Proof.
  intros Hr. apply is_text_ascii. unfold unicode_u.
  assert (0 <= r / 4096 < 16) by (split; [apply Z.div_pos; lia|apply Z.div_lt_upper_bound; lia]).
  repeat (apply Forall_cons; split); try apply Forall_nil_2; try lia; apply hex_digit_ascii; try apply Z.mod_pos_bound; lia.
Qed.
Lemma escape_text r bytes : r = Utf8.RuneError /\ length bytes = 1%nat \/ Utf8.valid_rune r = true /\ bytes = Utf8.encode_valid r ->
  is_text (escape_rune r bytes).
Proof.
  intros Hp. assert (Hr : 0 <= r <= 1114111).
  { destruct Hp as [[-> _]|[Hv _]]; [done|]. unfold Utf8.valid_rune in Hv. rewrite orb_true_iff, !between_true in Hv. lia. }
  assert (Hascii : forall l, Forall (fun b => 0 <= b < 128) l -> is_text l) by apply is_text_ascii.
  unfold escape_rune. repeat match goal with |- context [if ?b then _ else _] => destruct b eqn:? end.
  all: rewrite ?orb_true_iff, ?Z.eqb_eq, ?Z.ltb_lt in *.
  all: try (apply is_text_ascii; repeat (apply Forall_cons; split); try apply Forall_nil_2; lia).
  all: try (apply unicode_u_text; unfold Utf8.RuneError; lia).
  destruct Hp as [[-> Hl]|[Hv ->]]; [by rewrite Hl in *|]. exists [r]. split; [by constructor|]. unfold encoded. cbn. by rewrite app_nil_r.
Qed.
Lemma encode_string_text s : is_text (encode_string s).
Proof.
  apply is_text_cons; [lia|]. apply is_text_app; [|by apply is_text_cons; [lia|apply is_text_nil]]. apply is_text_concat, Forall_fmap.
  eapply Forall_impl; [apply runes_parts, bytes_of_string_bytes|]. intros rb H. by apply escape_text.
Qed.
Lemma join_text sep l : 0 <= sep < 128 -> Forall is_text l -> is_text (join_bytes sep l).
Proof.
  intros Hs H. destruct H as [|x l Hx H]; [apply is_text_nil|]. apply is_text_app; [done|]. apply is_text_concat, Forall_fmap.
  eapply Forall_impl; [exact H|]. intros y Hy. by apply is_text_cons.
Qed.
Lemma encode_members_text l : Forall (fun kv : string * list byte => is_text kv.2) l -> is_text (encode_members l).
Proof.
  intros H. apply is_text_cons; [lia|]. apply is_text_app; [|by apply is_text_cons; [lia|apply is_text_nil]].
  apply join_text; [lia|]. apply Forall_fmap. eapply Forall_impl; [exact H|]. intros kv Hkv. apply is_text_app; [apply encode_string_text|].
  by apply is_text_cons; [lia|].
Qed.

(** Numbers are ASCII. *)
Definition ascii (l : list byte) : Prop := Forall (fun b => 0 <= b < 128) l.
Lemma digits_ascii n : ascii (Decimal.digits n).
Proof.
  unfold Decimal.digits. generalize (S (Z.to_nat (Z.log2 n))) as fuel. intros fuel. assert (Hacc : ascii []) by constructor. revert n Hacc.
  generalize (@nil byte) as acc. induction fuel as [|fuel IH]; intros acc n Hacc; cbn [Decimal.digits_fuel]; [done|].
  assert (Hn : ascii (48 + n mod 10 :: acc)) by (apply Forall_cons; split; [pose proof (Z.mod_pos_bound n 10); lia|done]).
  destruct (n / 10 =? 0); [done|by apply IH].
Qed.
Lemma drop_zeros_ascii l : ascii l -> ascii (FloatText.drop_zeros l).
Proof.
  induction 1 as [|b l Hb H IH]; cbn [FloatText.drop_zeros]; [constructor|]. assert (ascii (b :: l)) by (by constructor).
  repeat case_match; done.
Qed.
Lemma format_text x : is_text (bytes_of_string (FloatText.format x)).
Proof.
  apply is_text_ascii. destruct x as [[]|neg| |neg m e]; try by repeat constructor. cbn [FloatText.format].
  destruct (FloatText.shortest_digits m e) as [ds k] eqn:Hds. assert (Ha : ascii ds).
  { unfold FloatText.shortest_digits in Hds. destruct (FloatText.value m e), (FloatText.shortest _ _ _ _ _ _) as [c t]. injection Hds as <- _.
    apply Forall_rev, drop_zeros_ascii, Forall_rev, digits_ascii. }
  assert (Hz : forall n, ascii (FloatText.zeros n)) by (intros n; unfold FloatText.zeros; induction (Z.to_nat n); cbn; constructor; [lia|done]).
  assert (Hbody : ascii (if (k <? -6) || (21 <=? k) then FloatText.scientific ds k else FloatText.plain ds k)).
  { destruct (_ || _).
    - unfold FloatText.scientific. destruct ds as [|d rest]; [constructor|]. apply Forall_cons in Ha as [Hd Hr]. apply Forall_cons. split; [done|].
      apply Forall_app. split; [destruct rest; [constructor|apply Forall_cons; split; [lia|done]]|]. apply Forall_cons. split; [lia|].
      destruct (k <? 0); apply Forall_cons; (split; [lia|apply digits_ascii]).
    - unfold FloatText.plain. destruct (k <? 0).
      + repeat (apply Forall_cons; split; [lia|]). apply Forall_app. split; [apply Hz|done].
      + apply Forall_app. split; [by apply Forall_take|]. apply Forall_app. split; [apply Hz|].
        pose proof (Forall_drop _ (Z.to_nat (k + 1)) _ Ha) as Hd. destruct (drop _ ds); [constructor|]. apply Forall_cons. split; [lia|done]. }
  rewrite bytes_of_string_of_bytes.
  - apply Forall_app. split; [destruct neg; repeat constructor; lia|done].
  - apply Forall_app. split; [destruct neg; repeat constructor; lia|]. eapply Forall_impl; [exact Hbody|]. cbn. lia.
Qed.

Lemma put_Forall {A} (P : string * A -> Prop) l acc : Forall P l -> Forall P acc -> Forall P (foldl put acc l).
Proof.
  intros Hl. revert acc. induction Hl as [|x l Hx Hl IH]; intros acc Ha; [done|]. cbn [foldl]. apply IH. unfold put. apply Forall_app.
  split; [|by constructor]. apply Forall_forall. intros y [_ Hy]%list_elem_of_filter. rewrite Forall_forall in Ha. by apply Ha.
Qed.
Lemma sorted_members l : Forall (fun kv : string * list byte => is_text kv.2) l -> is_text (encode_members (merge_sort key_le l)).
Proof. intros H. apply encode_members_text. by rewrite (merge_sort_Permutation key_le l). Qed.

Lemma word_text l : forallb (Utf8.between 0 127) l = true -> is_text l.
Proof.
  intros H. apply is_text_ascii, Forall_forall. intros b Hb%list_elem_of_In. rewrite forallb_forall in H. specialize (H b Hb).
  apply between_true in H. lia.
Qed.

Lemma any_text j v : any j = Some v -> is_text (encode v).
Proof.
  revert j v. fix IH 1. intros [|b|s|s x|s items|s members] v; cbn [any].
  - intros [= <-]. by apply word_text.
  - intros [= <-]. apply word_text. by destruct b.
  - destruct (FloatText.ParseFloat s) as [x|]; [|done]. intros [= <-]. apply format_text.
  - intros [= <-]. apply encode_string_text.
  - destruct (mapM any items) as [vs|] eqn:E; [|done]. intros [= <-]. cbn [encode]. apply is_text_cons; [lia|].
    apply is_text_app; [|by apply is_text_cons; [lia|apply is_text_nil]]. apply join_text; [lia|]. apply Forall_fmap.
    revert vs E. induction items as [|j items IHi]; intros vs E; cbn in E; [injection E as <-; constructor|].
    destruct (any j) as [y|] eqn:Ey; [|done]. cbn in E. destruct (mapM any items) as [ys|]; [|done]. injection E as <-.
    constructor; [by apply (IH j)|by apply IHi].
  - destruct (mapM _ members) as [vs|] eqn:E; [|done]. intros [= <-]. cbn [encode]. apply sorted_members, Forall_fmap. apply put_Forall; [|constructor].
    revert vs E. induction members as [|[k j] members IHm]; intros vs E; cbn in E; [injection E as <-; constructor|].
    destruct (any j) as [y|] eqn:Ey; [|done]. cbn in E. destruct (mapM _ members) as [ys|]; [|done]. injection E as <-.
    constructor; [by apply (IH j)|by apply IHm].
Qed.

Lemma normalized_text body : is_text (normalizedPrompt body).
Proof.
  unfold normalizedPrompt. destruct (parse body) as [j|]; [|apply is_text_nil]. destruct j as [|b|s|s x|s items|s members]; try apply is_text_nil.
  { by apply word_text. }
  unfold any_object. destruct (any (JObj s members)) as [v|] eqn:E; [|apply is_text_nil]. cbn [any] in E.
  destruct (mapM _ members) as [vs|] eqn:Em; [|done]. injection E as <-. cbn [encode]. apply sorted_members, Forall_fmap.
  assert (Hall : Forall (fun kv => is_text (encode kv.2)) vs).
  { apply mapM_Some in Em. clear -Em. induction Em as [|kv kv' l l' H _ IH]; constructor; [|done]. destruct (any kv.2) as [y|] eqn:Ey; [|done].
    injection H as <-. by apply (any_text kv.2). }
  apply Forall_forall. intros kv [_ Hkv]%list_elem_of_filter. pose proof (put_Forall _ vs [] Hall (Forall_nil_2 _)) as Hp. rewrite Forall_forall in Hp. by apply Hp.
Qed.

(** ** The prompts in the cache *)

Definition keeps (P : element -> Prop) (c : PromptCache) : Prop := Forall P (recent c).

Lemma keeps_remove P c e : keeps P c -> keeps P (removeLocked c e).
Proof.
  unfold keeps. intros H. cbn. apply Forall_forall. intros x [_ Hx]%list_elem_of_filter. rewrite Forall_forall in H. by apply H.
Qed.
Lemma keeps_expire P c now : keeps P c -> keeps P (expireLocked c now).
Proof.
  unfold expireLocked. generalize (length (recent c)) as fuel. intros fuel. revert c. induction fuel as [|fuel IH]; intros c H; cbn [expire_loop];
    destruct (last (recent c)); try done. destruct (_ <? _); [done|]. by apply IH, keeps_remove.
Qed.
Lemma keeps_evict P fuel c need c' : keeps P c -> evict_loop fuel c need = Some c' -> keeps P c'.
Proof.
  revert c. induction fuel as [|fuel IH]; intros c H; cbn [evict_loop]; destruct (_ || _); try (by intros [= <-]);
    destruct (last (recent c)); try done. intros He. by eapply IH; [apply keeps_remove|].
Qed.
Lemma keeps_remember P c key prompt now c' : keeps P c ->
  (forall id, P (id, {| entry_key := key; entry_prompt := prompt; entry_touched := now |})) -> rememberLocked c key prompt now = Some c' -> keeps P c'.
Proof.
  intros H Hnew. unfold rememberLocked.
  assert (H1 : keeps P (match find_element c key with Some previous => removeLocked c previous | None => c end))
    by (destruct (find_element c key); [by apply keeps_remove|done]).
  destruct (_ || _); [by intros [= <-]|]. destruct (evict_loop _ _ _) as [c1|] eqn:He; [|done]. intros [= <-].
  pose proof (keeps_evict _ _ _ _ _ H1 He) as H2. unfold keeps. cbn. by constructor.
Qed.
Lemma find_keeps P c key e : keeps P c -> find_element c key = Some e -> P e.
Proof.
  intros H. unfold find_element. destruct (prompts c !! key); [|done]. cbn. intros [Hin _]%find_some. rewrite <- list_elem_of_In in Hin.
  unfold keeps in H. rewrite Forall_forall in H. by apply H.
Qed.

Definition text_element (e : element) : Prop := is_text (entry_prompt e.2).
Definition texts (c : option PromptCache) : Prop := forall cache, c = Some cache -> keeps text_element cache.

Lemma texts_some c : keeps text_element c -> texts (Some c).
Proof. by intros H cache [= <-]. Qed.

(** Where a prompt is cut. *)
Lemma prefix_text c protocol model session prompt now c' hit : texts c -> is_text prompt ->
  prefixAndRemember c protocol model session prompt now = Some (c', hit) ->
  texts c' /\ exists rs rs', valid_runes rs /\ valid_runes rs' /\ prompt = encoded rs ++ encoded rs' /\ hit = length (encoded rs).
Proof.
  intros Hc Hp. assert (Hzero : exists rs rs', valid_runes rs /\ valid_runes rs' /\ prompt = encoded rs ++ encoded rs' /\ 0%nat = length (encoded rs)).
  { destruct Hp as (rs & Hrs & ->). exists [], rs. split_and!; [constructor|done..]. }
  unfold prefixAndRemember. destruct c as [c|]; [|by intros [= <- <-]]. destruct (String.eqb _ _); [by intros [= <- <-]|].
  set (key := prompt_key protocol model session). pose proof (keeps_expire _ _ now (Hc c eq_refl)) as Hx.
  destruct (rememberLocked _ _ _ _) as [c1|] eqn:Hr; [|done]. cbn. intros [= <- <-]. split.
  - intros cache [= <-]. eapply keeps_remember; [exact Hx| |exact Hr]. by intros id.
  - destruct (find_element _ key) as [e|] eqn:Hf; [|done]. pose proof (find_keeps _ _ _ _ Hx Hf) as (ra & Ha & Ea).
    destruct Hp as (rb & Hb & ->). rewrite Ea, common_prefix_runes by done.
    destruct (common_split ra rb) as (ra' & rb' & _ & Erb & _). exists (common_runes ra rb), rb'. rewrite Erb in Hb. apply Forall_app in Hb as [H1 H2].
    split_and!; [done|done| |done]. by rewrite <- encoded_app, <- Erb.
Qed.

Lemma tokens_nonneg data : 0 <= estimateTokens data.
Proof.
  unfold estimateTokens. case_bool_decide; [done|]. assert (H0 : forall l st, 0 <= st.1 -> 0 <= st.2 -> 0 <= flush_run (foldl count_rune st l)).
  { induction l as [|rb l IH]; intros [t run] Ht Hr; cbn [foldl]; [unfold flush_run; cbn in *; destruct (0 <? run); [|done];
      pose proof (Z.div_pos (run + 3) 4); lia|].
    assert (Hf : 0 <= flush_run (t, run)) by (unfold flush_run; cbn in *; destruct (0 <? run); [|done]; pose proof (Z.div_pos (run + 3) 4); lia).
    unfold count_rune at 2. cbn [fst snd] in *. destruct (_ && _); [apply IH; cbn; lia|]. destruct (_ <? _); [destruct (word_character _)|]; apply IH; cbn; lia. }
  specialize (H0 (Utf8.runes data) (0, 0) ltac:(done) ltac:(done)). destruct (_ =? 0); lia.
Qed.

Section local.
Context (ToLower : string -> string) {Range : MapRange string (list byte)}.

Lemma output_nonneg response : 0 <= estimateOutputTokens ToLower response.
Proof. unfold estimateOutputTokens. destruct (String.eqb _ _); [done|]. apply tokens_nonneg. Qed.

(** A local estimate counts every character of a prompt once: its input is
    what the whole prompt counts for, or one token more, at most that much of
    it is read from the cache, none without a price for it, and the cost is
    the price of that usage. *)
Theorem estimate_consistent c protocol model session request response price now c' cost usage source : texts c ->
  LocalEstimate ToLower c protocol model session request response price now = Some (c', (cost, usage, source)) ->
  texts c' /\
  (let prompt := normalizedPrompt request in
   prompt = [] /\ c' = c /\ cost = None /\ usage = no_usage \/
   exists hit input output,
     usage = {| Pricing.Input := Some input; Output := Some output; CacheRead := Some hit; CacheWrite := None |} /\
     0 <= hit <= estimateTokens prompt /\ estimateTokens prompt <= input <= estimateTokens prompt + 1 /\ hit <= input /\ 0 <= output /\
     (InputCacheHit price = None -> hit = 0) /\ cost = Estimate price usage).
Proof.
  intros Hc. unfold LocalEstimate. cbv zeta. case_bool_decide as He; [intros [= <- <- <- <-]; split; [done|by left]|].
  destruct (prefixAndRemember _ _ _ _ _ _) as [[c1 n]|] eqn:Hp; [|done]. cbn [mbind option_bind fst snd].
  destruct (prefix_text _ _ _ _ _ _ _ _ Hc (normalized_text request) Hp) as (Hc1 & rs & rs' & Hrs & Hrs' & E & ->).
  set (cut := if _ && _ then 0%nat else length (encoded rs)). intros H.
  assert (Husage : c' = c1 /\ usage = {| Pricing.Input := Some (estimateTokens (take cut (normalizedPrompt request)) + estimateTokens (drop cut (normalizedPrompt request)));
    Output := Some (estimateOutputTokens ToLower response); CacheRead := Some (estimateTokens (take cut (normalizedPrompt request))); CacheWrite := None |} /\
    cost = Estimate price usage).
  { destruct (Estimate price _) as [x|] eqn:Ex in H; injection H as <- <- <- <-; by rewrite Ex. }
  destruct Husage as (-> & Hu & Hcost). split; [done|]. right. clear H.
  assert (Hcut : exists ra rb, valid_runes ra /\ valid_runes rb /\ normalizedPrompt request = encoded (ra ++ rb) /\
    take cut (normalizedPrompt request) = encoded ra /\ drop cut (normalizedPrompt request) = encoded rb /\ (InputCacheHit price = None -> ra = [])).
  { unfold cut. destruct (_ && _) eqn:Hno.
    - exists [], (rs ++ rs'). split_and!; try done; [apply Forall_nil_2|by apply Forall_app|by rewrite E, <- encoded_app|by rewrite E, <- encoded_app].
    - exists rs, rs'. rewrite E, take_app_length, drop_app_length. split_and!; try done; [by rewrite encoded_app|]. intros Hh. rewrite Hh, andb_false_iff, Nat.ltb_ge in Hno.
      destruct Hno as [Hno|Hno]; [|done]. apply encoded_nil; [done|]. apply length_zero_iff_nil. lia. }
  destruct Hcut as (ra & rb & Ha & Hb & Ep & Et & Ed & Hnone). rewrite Et, Ed, !estimate_encoded in Hu by done.
  assert (Hab : valid_runes (ra ++ rb)) by (by apply Forall_app). rewrite Ep, estimate_encoded by done.
  eexists _, _, _. split; [exact Hu|]. destruct (tokens_bounds 0 ra ltac:(lia)) as [Bra _], (tokens_bounds 0 rb ltac:(lia)) as [Brb Pos].
  change (quarter 0) with 0 in *. fold (tokens ra) in Bra. fold (tokens rb) in Brb, Pos. pose proof (tokens_split 0 ra rb ltac:(lia)) as Hsplit. fold (tokens ra) (tokens (ra ++ rb)) in Hsplit.
  pose proof (output_nonneg response). split_and!; try lia; [|by intros Hh; rewrite (Hnone Hh)|done].
  destruct rb as [|r rb]; [rewrite app_nil_r; lia|]. specialize (Pos ltac:(done)). lia.
Qed.
End local.

(** Without a price for cached input there is no estimate at all. *)
Lemma no_hit_rate_no_cost {ToLower : string -> string} {Range : MapRange string (list byte)} c protocol model session request response price now r :
  InputCacheHit price = None -> LocalEstimate ToLower c protocol model session request response price now = Some r -> r.2.1.1 = None.
Proof.
  intros Hp. unfold LocalEstimate. case_bool_decide; [by intros [= <-]|]. destruct (prefixAndRemember _ _ _ _ _ _); [|done].
  cbn [mbind option_bind]. unfold Estimate. rewrite Hp. by intros [= <-].
Qed.
