(* ===== verification/TranslationDemo.v ===== *)
(** * Requests, responses and prompts run through the model

    Witnesses of the theorems on requests, responses, prompts and estimates;
    two requests that the translation does not treat as it says, the arguments
    that the translation of a tool call changes, and an estimate that depends
    on the order of a map. *)

From S2P Require Import Prelude GoStrings GoFloat Json Streams StreamCall StreamFacts StreamDemo.
From S2P Require Import InputFacts RequestMessages TranslationFacts.

Definition low : string -> string := Strings.ToLowerASCII.
(** Printable for these requests: what is not a control character. *)
Definition printable (r : Z) : bool := 160 <=? r.
Definition prepare : string -> string -> string -> string -> Z -> list string * (request_error + (string * string)) :=
  PrepareRequestWithWarnings printable low (fun _ => "").
Definition input_of (text : string) : Input := default no_input (validated_input low text).

(** ** Requests *)

Definition messages_request : string := quoted
  "{'model':'m','max_tokens':5000,'system':'sys','thinking':{'type':'enabled','budget_tokens':2048},'messages':[{'role':'user','content':[{'type':'text','text':'he <b> llo','cache_control':{'type':'ephemeral'}},{'type':'text','text':' world'}]},{'role':'assistant','content':[{'type':'tool_use','id':'t1','name':'f','input':{'a': 1}}]},{'role':'user','content':[{'type':'tool_result','tool_use_id':'t1','content':[{'type':'text','text':'res','cache_control':{'type':'ephemeral'}}],'is_error':true},{'type':'text','text':'go on'}]}],'tools':[{'name':'f','input_schema':{'type':'object'}}],'tool_choice':{'type':'any'}}".
Definition chat_request : string := quoted
  "{'model':'m','max_completion_tokens':5000,'thinking':{'type':'enabled','budget_tokens':2048},'messages':[{'role':'system','content':'sys'},{'role':'user','content':'hi'},{'role':'assistant','content':null,'tool_calls':[{'id':'t1','type':'function','function':{'name':'f','arguments':'{}'}}]},{'role':'tool','tool_call_id':'t1','content':'out'},{'role':'system','content':'late'}],'tools':[{'type':'function','function':{'name':'f'}}]}".
Definition broken_call : string := quoted
  "{'model':'m','messages':[{'role':'assistant','content':null,'tool_calls':[{'id':'t1','type':'function','function':{'name':'f','arguments':'['}}]}]}".

Definition messages_input : Input := input_of messages_request.
Definition chat_input : Input := input_of chat_request.

(** ** Witnesses *)

Lemma rules_exact_witness :
  (request_rules low "anthropic" messages_input = inr tt <-> well_formed low "anthropic" messages_input) /\
  explained (request_rules low "anthropic" messages_input) /\ request_rules low "anthropic" messages_input = inr tt.
Proof.
  destruct (rules_exact low "anthropic" messages_input (or_introl eq_refl)) as [H1 H2]. split; [exact H1|]. split; [exact H2|].
  vm_compute. reflexivity.
Defined.

Lemma quoted_text_roundtrip_witness :
  parse (Quote printable (Strings.of_runes [104; 10; 228; 66000])) =
    Some (JStr (Quote printable (Strings.of_runes [104; 10; 228; 66000])) (Strings.of_runes [104; 10; 228; 66000])).
Proof.
  refine (quoted_text_roundtrip printable [104; 10; 228; 66000] _). repeat constructor; vm_compute; intuition discriminate.
Defined.

Definition from_messages : string * list sent_message :=
  match translateAnthropicMessages printable low (in_System messages_input) (in_Messages messages_input) with inr x => x | inl _ => ("", []) end.

Lemma anthropic_messages_kept_witness :
  anthropicSystemText low (in_System messages_input) = Some from_messages.1 /\
  exists outs, from_messages.2 = concat outs /\ Forall2 (conveyed printable low) (in_Messages messages_input) outs.
Proof.
  refine (anthropic_messages_kept printable low (in_System messages_input) (in_Messages messages_input) from_messages.1 from_messages.2 _).
  vm_compute. reflexivity.
Defined.

Definition from_chat : string * list (string * string) :=
  match translateMessages printable low (in_Messages chat_input) with inr x => x | inl _ => ("", []) end.

Lemma chat_messages_kept_witness :
  from_chat.2 <> [] /\
  Forall2 conveyed_chat (List.filter (fun m => negb (is_system m)) (in_Messages chat_input)) from_chat.2 /\
  system_prompt printable (List.filter is_system (in_Messages chat_input)) from_chat.1.
Proof.
  refine (chat_messages_kept printable low (in_Messages chat_input) from_chat.1 from_chat.2 _). vm_compute. reflexivity.
Defined.

Lemma chat_messages_refused_witness :
  "tool_calls" = "tool_calls" /\ (exists m c, m ∈ in_Messages (input_of broken_call) /\ c ∈ msg_ToolCalls m /\ unusable_call c) \/
  "tool_calls" = "messages" /\ Forall (fun m => is_system m = true) (in_Messages (input_of broken_call)).
Proof.
  refine (chat_messages_refused printable low (in_Messages (input_of broken_call)) "tool_calls" _ _).
  - apply (messages_rules_exact low "openai" 0); [right; reflexivity|]. vm_compute. reflexivity.
  - vm_compute. reflexivity.
Defined.

Definition losses_found : list string * (request_error + value) := translate_anthropic_input printable low messages_input ["thinking"].

Lemma losses_named_witness :
  (increasing losses_found.1 /\ forall path, path ∈ losses_found.1 <-> path ∈ ["thinking"] \/ anthropic_loss low messages_input path) /\
  losses_found.1 = ["messages[0].content[0].cache_control"; "messages[2].content[0].content[0].cache_control";
                    "messages[2].content[0].is_error"; "thinking"].
Proof.
  split; [|vm_compute; reflexivity].
  refine (losses_named printable low messages_input ["thinking"] losses_found.1 losses_found.2 _ _).
  - vm_compute. reflexivity.
  - apply surjective_pairing.
Defined.

Definition chat_translated : value :=
  match (translate_openai_input printable low chat_input [] 0).2 with inr v => v | inl _ => VNull end.

Lemma thinking_fits_witness :
  exists members n, chat_translated = VStruct members /\ ("max_tokens", VInt n) ∈ members /\
    1 <= n <= Z.max 1000000 0 /\ n = anthropic_max_tokens chat_input 0 /\
    forall t, in_Thinking chat_input = Some t -> ("thinking", Thinking_value t) ∈ members /\
      (thinking_Type t = "enabled" -> exists b, thinking_BudgetTokens t = Some b /\ 1024 <= b < n).
Proof.
  refine (thinking_fits printable low chat_input [] 0 (translate_openai_input printable low chat_input [] 0).1 chat_translated _ _).
  - apply (rules_accept low "openai" chat_input); [right; reflexivity|]. vm_compute. reflexivity.
  - vm_compute. reflexivity.
Defined.

(** ** Whole requests *)

Example chat_for_messages : prepare "openai" "anthropic" chat_request "d" 0 =
  ([item_path "messages" 4 +:+ ".role"], inr (quoted
  "{'model':'m','messages':[{'role':'user','content':'hi'},{'role':'assistant','content':[{'id':'t1','input':{},'name':'f','type':'tool_use'}]},{'role':'user','content':[{'content':'out','tool_use_id':'t1','type':'tool_result'}]}],'thinking':{'type':'enabled','budget_tokens':2048},'max_tokens':5000,'system':'sys\nlate','tools':[{'name':'f','input_schema':{}}]}", "m")).
Proof. vm_compute. reflexivity. Qed.

(** The output of a program that colours its text: the escape character is
    written as [strconv.Quote] does, which is not JSON, and a valid request
    fails. *)
Example coloured_result_fails : prepare "anthropic" "openai" (quoted
  "{'max_tokens':10,'messages':[{'role':'user','content':[{'type':'tool_result','tool_use_id':'a','content':'\u001b[31mred'}]}]}") "d" 0 =
  ([], inl EncodeError).
Proof. vm_compute. reflexivity. Qed.

(** The reasoning of an earlier answer is left out, and no warning says so. *)
Example reasoning_left_out : prepare "openai" "anthropic" (quoted
  "{'messages':[{'role':'user','content':'a'},{'role':'assistant','content':'b','reasoning_content':'c'}]}") "d" 0 =
  ([], inr (quoted "{'model':'d','messages':[{'role':'user','content':'a'},{'role':'assistant','content':'b'}],'max_tokens':4096}", "d")).
Proof. vm_compute. reflexivity. Qed.

(** The block without a type is the second one; the error names the content of
    the first, which is in order. *)
Example wrong_block_named : RequestWithWarnings low (fun _ => "") "anthropic" (quoted
  "{'max_tokens':10,'messages':[{'role':'user','content':[{'type':'tool_result','tool_use_id':'a','content':'ok'},{}]}]}") "d" =
  ([], inl (ValidationError "unsupported_request_feature" "messages[0].content[0].content")).
Proof. vm_compute. reflexivity. Qed.

(** * Responses *)

From S2P Require Import Prelude GoStrings GoFloat Json Responses StreamFacts ResponseFacts StreamCall StreamDemo.

Definition usage_text : string := quoted "{'prompt_tokens':10,'completion_tokens':3,'prompt_tokens_details':{'cached_tokens':4}}".

Lemma usage_consistent_witness :
  let u := {| Input := Some 10; Output := Some 3; CacheRead := Some 4; CacheWrite := None |} in
  ParseUsage "openai" (parse usage_text) = inr u /\
  within (3 * max_tokens_reported) (Input u) /\ within max_tokens_reported (Output u) /\
  within max_tokens_reported (CacheRead u) /\ within max_tokens_reported (CacheWrite u) /\
  forall n, Input u = Some n -> default 0 (CacheRead u) + default 0 (CacheWrite u) <= n.
Proof.
  assert (H : ParseUsage "openai" (parse usage_text) = inr {| Input := Some 10; Output := Some 3; CacheRead := Some 4; CacheWrite := None |})
    by (vm_compute; reflexivity).
  split; [exact H|]. exact (usage_consistent _ _ _ H).
Defined.

Lemma finish_reasons_correspond_witness :
  translateOpenAIStopReason (Some "length") = inr "max_tokens" /\ translateAnthropicStopReason (Some "max_tokens") = inr ("length", []).
Proof.
  split; [reflexivity|]. exact (proj1 (finish_reasons_correspond "length") "max_tokens" eq_refl ltac:(discriminate)).
Defined.

(** A Messages response with text, a search result of the provider and a tool
    call. *)
Definition messages_reply : string := quoted
  "{'id':'m1','model':'c','type':'message','role':'assistant','stop_reason':'tool_use','content':[{'type':'text','text':'hi'},{'type':'web_search_tool_result','content':[]},{'type':'tool_use','id':'t','name':'f','input':{'n': 12345678901234567890}}]}".
Definition decoded_reply : messages_response := default no_reply (Unmarshal dec_messages_response no_reply messages_reply).
Definition translated_reply : value * list string :=
  match translateMessagesResponse decoded_reply "m" with inr x => x | inl _ => (VNull, []) end.

Lemma messages_response_content_witness :
  exists c finish fields usage,
    translated_reply.1 = VMap (fields ++ [("choices", VArr [VMap [("index", VInt 0); ("message", collected_message c); ("finish_reason", VStr finish)]])] ++ usage) /\
    collected_text c = String.concat "" (reply_Content decoded_reply ≫= block_texts) /\
    collected_reasoning c = String.concat "" (reply_Content decoded_reply ≫= block_thinking) /\
    collected_calls c = reply_Content decoded_reply ≫= block_calls /\
    (collected_text c <> "" \/ collected_reasoning c <> "" \/ collected_calls c <> []) /\
    forall k b, reply_Content decoded_reply !! k = Some b -> representable b = false ->
      indexed "content" (Z.of_nat k) ".type" ∈ translated_reply.2.
Proof.
  refine (messages_response_content decoded_reply "m" translated_reply.1 translated_reply.2 _).
  vm_compute. reflexivity.
Defined.

(** A chat completion with a tool call. *)
Definition chat_reply : string := quoted
  "{'id':'x','model':'g','choices':[{'index':0,'message':{'role':'assistant','content':'hi','tool_calls':[{'id':'t','type':'function','function':{'name':'f','arguments':'{}'}}]},'finish_reason':'tool_calls'}]}".
Definition decoded_chat (text : string) : openai_response := default no_openai_response (Unmarshal dec_openai_response no_openai_response text).
Definition translated_chat (text : string) : value * list string :=
  match translateChatResponse (decoded_chat text) "m" with inr x => x | inl _ => (VNull, []) end.

Lemma chat_response_content_witness :
  exists choice texts tools fields rest,
    response_Choices (decoded_chat chat_reply) = [choice] /\
    let m := choice_Message choice in
    let refusal := if String.eqb (message_Refusal m) "" then [] else [text_value (message_Refusal m)] in
    (translated_chat chat_reply).1 = VMap (fields ++ [("content", VArr ((text_value <$> texts) ++ refusal ++ tools))] ++ rest) /\
    content_texts (message_Content m) = Some texts /\
    Forall2 (fun call tool => exists j input, parse (call_Arguments call) = Some j /\ any_object j = Some input /\
               call_ID call <> "" /\ call_Name call <> "" /\
               tool = VMap [("type", VStr "tool_use"); ("id", VStr (call_ID call)); ("name", VStr (call_Name call)); ("input", input)])
      (message_ToolCalls m) tools /\
    (text_value <$> texts) ++ refusal ++ tools <> [] /\
    (message_Reasoning m <> "" -> "choices[0].message.reasoning_content" ∈ (translated_chat chat_reply).2) /\
    (message_Refusal m <> "" -> "choices[0].message.refusal" ∈ (translated_chat chat_reply).2).
Proof.
  refine (chat_response_content (decoded_chat chat_reply) "m" (translated_chat chat_reply).1 (translated_chat chat_reply).2 _).
  vm_compute. reflexivity.
Defined.

(** The arguments of a tool call pass through a [float64] on the way to a
    client of the Messages API: an integer beyond 2^53 becomes another
    one. *)
Definition tool_arguments : string := quoted "{'id':9007199254740993}".
Example tool_arguments_change :
  (fun v => Marshal v) <$> tool_use_value {| call_ID := "t"; call_Type := "function"; call_Name := "f"; call_Arguments := tool_arguments |} =
  Some (quoted "{'id':'t','input':{'id':9007199254740992},'name':'f','type':'tool_use'}").
Proof. vm_compute. reflexivity. Qed.

(** The same on the way to a provider of the Messages API. *)
Definition call_message : client_message := no_client_message <| msg_Role := "assistant" |>
  <| msg_ToolCalls := [{| call_ID := "t"; call_Type := "function"; call_Name := "f"; call_Arguments := tool_arguments |}] |>.
Example request_arguments_change :
  translateMessageContent Strings.ToLowerASCII call_message =
  inr (quoted "[{'id':'t','input':{'id':9007199254740992},'name':'f','type':'tool_use'}]").
Proof. vm_compute. reflexivity. Qed.

(** * Prompts and estimates *)

From Stdlib Require Import SpecFloat.
From S2P Require Import Prelude GoStrings GoFloat Json Utf8Facts Streams StreamDemo Pricing Inputs PromptCache PromptFacts EstimateFacts.

Definition prompt_request (text : string) : string := quoted ("{'model':'m','messages':[{'role':'user','content':'" +:+ text +:+ "'}]}").
Definition prompt_of (text : string) : list byte := normalizedPrompt (prompt_request text).
Definition small_cache : PromptCache := newPromptCache 2 4096 Minute.

(** Three sessions in a cache of two entries. *)
Definition demo_ops : list (time * cache_op) :=
  [(0, RememberRequest "openai" "m" "a" (prompt_request "first")); (1, RememberRequest "openai" "m" "b" (prompt_request "second"));
   (2, PrefixAndRemember "openai" "m" "a" (prompt_of "first, again")); (3, RememberRequest "openai" "m" "c" (prompt_request "third"));
   (4, ReadStats)].

Lemma cache_refines_lru_witness :
  exists c, cache_run small_cache demo_ops = Some (c, (lru_run 2 4096 Minute demo_ops).2) /\
    represents 2 4096 Minute c (lru_run 2 4096 Minute demo_ops).1.
Proof. refine (cache_refines_lru 2 4096 Minute demo_ops _ _); vm_compute; discriminate. Defined.

Definition run_of (ops : list (time * cache_op)) : PromptCache * list (Z * Z) := default (small_cache, []) (cache_run small_cache ops).
Definition demo_lookup (session : string) : time * cache_op := (5, PrefixAndRemember "openai" "m" session (prompt_of "first of all")).

Lemma hit_from_session_witness :
  exists touched previous, latest demo_ops (prompt_key "openai" "m" "a") = Some (touched, previous) /\
    Time.sub 5 touched < Minute /\ 30 = Z.of_nat (commonPrefix previous (prompt_of "first of all")).
Proof.
  refine (hit_from_session 2 4096 Minute demo_ops 5 "openai" "m" "a" (prompt_of "first of all") (run_of (demo_ops ++ [demo_lookup "a"])).1
            (run_of (demo_ops ++ [demo_lookup "a"])).2 30 0 _ _ _ _ _ _); vm_compute; intuition discriminate.
Defined.

Lemma prompt_retained_witness :
  exists c outs, cache_run small_cache
    ([] ++ (0, RememberRequest "openai" "m" "a" (prompt_request "first")) ::
     [(1, RememberRequest "openai" "m" "b" (prompt_request "second")); (2, Tick)] ++
     [(3, PrefixAndRemember "openai" "m" "a" (prompt_of "first, again"))]) =
    Some (c, outs ++ [(Z.of_nat (commonPrefix (prompt_of "first") (prompt_of "first, again")), 0)]).
Proof.
  refine (prompt_retained 2 4096 Minute [] 0 (RememberRequest "openai" "m" "a" (prompt_request "first"))
            [(1, RememberRequest "openai" "m" "b" (prompt_request "second")); (2, Tick)] 3 "openai" "m" "a" (prompt_of "first") (prompt_of "first, again")
            _ _ _ _ _ _ _ _ _).
  - vm_compute. discriminate.
  - vm_compute. reflexivity.
  - vm_compute. discriminate.
  - intros [t Ht]. repeat (apply elem_of_cons in Ht as [Ht|Ht]; [discriminate Ht|]). by apply elem_of_nil in Ht.
  - repeat constructor.
  - vm_compute. reflexivity.
  - vm_compute. repeat constructor. discriminate.
  - vm_compute. discriminate.
  - vm_compute. discriminate.
Defined.

Lemma common_prefix_longest_witness :
  exists p, commonPrefix (encoded [97; 228; 98]) (encoded [97; 246]) = length (encoded p) /\ p `prefix_of` [97; 228; 98] /\ p `prefix_of` [97; 246] /\
    forall q, q `prefix_of` [97; 228; 98] -> q `prefix_of` [97; 246] -> q `prefix_of` p.
Proof. refine (common_prefix_longest [97; 228; 98] [97; 246] _ _); repeat constructor. Defined.

Definition one : spec_float := Float.of_Z 1.
Definition flat_price : Price :=
  {| Currency := "USD"; Source := "test"; Version := "1"; InputCacheHit := Some (Float.div one (Float.of_Z 10)); InputCacheMiss := Some one;
     OutputPrice := Some one |}.
Definition warm_cache : option PromptCache := Some (run_of demo_ops).1.
Definition demo_response : string := quoted "{'choices':[{'message':{'content':'hello there'}}]}".
Definition demo_estimate : option (option PromptCache * (option spec_float * TokenUsage * string)) :=
  LocalEstimate (fun s => s) warm_cache "openai" "m" "a" (prompt_request "first of all") demo_response flat_price 5.

Lemma warm_texts : texts warm_cache.
Proof.
  apply texts_some. unfold keeps.
  assert (E : recent (run_of demo_ops).1 =
    [(3%nat, {| entry_key := prompt_key "openai" "m" "c"; entry_prompt := prompt_of "third"; entry_touched := 3 |});
     (2%nat, {| entry_key := prompt_key "openai" "m" "a"; entry_prompt := prompt_of "first, again"; entry_touched := 2 |})])
    by (vm_compute; reflexivity).
  rewrite E. apply Forall_cons. split; [apply normalized_text|]. apply Forall_cons. split; [apply normalized_text|apply Forall_nil_2].
Qed.

Lemma estimate_consistent_witness :
  let r := default (None, (None, no_usage, "")) demo_estimate in
  texts r.1 /\
  (let prompt := normalizedPrompt (prompt_request "first of all") in
   prompt = [] /\ r.1 = warm_cache /\ r.2.1.1 = None /\ r.2.1.2 = no_usage \/
   exists hit input output,
     r.2.1.2 = {| Pricing.Input := Some input; Output := Some output; CacheRead := Some hit; CacheWrite := None |} /\
     0 <= hit <= estimateTokens prompt /\ estimateTokens prompt <= input <= estimateTokens prompt + 1 /\ hit <= input /\ 0 <= output /\
     (InputCacheHit flat_price = None -> hit = 0) /\ r.2.1.1 = Estimate flat_price r.2.1.2).
Proof.
  cbv zeta. refine (estimate_consistent (fun s => s) warm_cache "openai" "m" "a" (prompt_request "first of all") demo_response flat_price 5 _ _ _
    (default (None, (None, no_usage, "")) demo_estimate).2.2 warm_texts _).
  vm_compute. reflexivity.
Defined.

(** The texts of a response are joined in the order of a map: with another
    order the same response counts for another number of tokens. *)
Definition rotate {A} (l : list A) : list A := match l with [] => [] | x :: l => l ++ [x] end.
Lemma rotate_perm {A} (l : list A) : rotate l ≡ₚ l.
Proof. destruct l as [|x l]; [done|]. cbn. by rewrite Permutation_app_comm. Qed.
Definition rotated : MapRange string (list byte) := {| range m := rotate (map_to_list m); range_perm m := rotate_perm (map_to_list m) |}.
Definition mixed_response : string := quoted "{'content':'a','text':'!','thinking':'b'}".
Example estimate_depends_on_order : exists R R' : MapRange string (list byte),
  estimateOutputTokens (Range := R) (fun s => s) mixed_response <> estimateOutputTokens (Range := R') (fun s => s) mixed_response.
Proof. exists (map_to_list_range (list byte)), rotated. vm_compute. discriminate. Qed.
