(* ===== verification/IdleTimer.v ===== *)
(** * The idle timer of a stream

    internal/adapter/stream_timeout.go as a step relation.  A callback of
    [time.AfterFunc] may run at any instant from its deadline on; [Timer.Stop]
    takes it back only before that, so a callback that is about to run can
    still run after [stop], and after the [start] of the next read.  The
    generations keep it from cancelling anything then. *)

From S2P Require Import Prelude.

Definition defaultStreamIdleTimeout : duration := 10 * Minute.

Inductive cause := Canceled | DeadlineExceeded.

Record streamIdleTimer := {
  timer : option Z;              (** the generation that [t.timer] was started for *)
  generation : Z;                (** [uint64] *)
  scheduled : list (Z * time);   (** the callbacks that can run: their generation and deadline *)
  cancelled : option cause;      (** of the context, by the first call of [cancel] *)
}.
#[export] Instance streamIdleTimer_eta : Eta streamIdleTimer := fun t =>
  {| timer := timer t; generation := generation t; scheduled := scheduled t; cancelled := cancelled t |}.
Definition new_timer : streamIdleTimer := {| timer := None; generation := 0; scheduled := []; cancelled := None |}.

Definition next_generation (g : Z) : Z := (g + 1) mod 2 ^ 64.
#[local] Arguments next_generation : simpl never.
Definition cancel (c : cause) (t : streamIdleTimer) : streamIdleTimer :=
  match cancelled t with Some _ => t | None => t <| cancelled := Some c |> end.

Definition start (now : time) (t : streamIdleTimer) : streamIdleTimer :=
  match timer t with
  | Some _ => t
  | None =>
      let g := next_generation (generation t) in
      t <| generation := g |> <| timer := Some g |> <| scheduled := (g, now + defaultStreamIdleTimeout) :: scheduled t |>
  end.

(** [stop]: the callback of the timer stays if its deadline has passed and
    [late] says that it was already on its way. *)
Definition stop (now : time) (late : bool) (t : streamIdleTimer) : streamIdleTimer :=
  let t := t <| generation := next_generation (generation t) |> in
  match timer t with
  | None => t
  | Some g => t <| timer := None |>
                <| scheduled := if late then filter (fun c : Z * time => c.1 <> g \/ c.2 <= now) (scheduled t)
                                else filter (fun c : Z * time => c.1 <> g) (scheduled t) |>
  end.
Definition close (now : time) (late : bool) (t : streamIdleTimer) : streamIdleTimer := cancel Canceled (stop now late t).

(** The callback of generation [g]. *)
Definition run_callback (g : Z) (t : streamIdleTimer) : streamIdleTimer :=
  let t := t <| scheduled := filter (fun c : Z * time => c.1 <> g) (scheduled t) |> in
  if generation t =? g then cancel DeadlineExceeded t else t.

Inductive event := Start | Stop | Close | Callback.
Inductive step (now : time) : streamIdleTimer -> event -> streamIdleTimer -> Prop :=
| step_start t : step now t Start (start now t)
| step_stop t late : step now t Stop (stop now late t)
| step_close t late : step now t Close (close now late t)
| step_callback t g deadline : (g, deadline) ∈ scheduled t -> deadline <= now -> step now t Callback (run_callback g t).

(** One [Read] of the body: the events around it. *)
Definition Read (n : Z) (failed : bool) : list event := Start :: (if (0 <? n) || failed then [Stop] else []).

(** The states after timed events, the latest first. *)
Inductive reached : list (time * event) -> streamIdleTimer -> Prop :=
| reached_new : reached [] new_timer
| reached_step events t now e t' : reached events t -> Forall (fun te : time * event => te.1 <= now) events ->
    step now t e t' -> reached ((now, e) :: events) t'.

(** ** Waiting without progress *)

(** When the read that is waiting began to wait. *)
Fixpoint waiting_since (events : list (time * event)) : option time :=
  match events with
  | [] => None
  | (now, Start) :: events => match waiting_since events with Some t => Some t | None => Some now end
  | (_, (Stop | Close)) :: _ => None
  | (_, Callback) :: events => waiting_since events
  end.
Definition changes (events : list (time * event)) : Z := Z.of_nat (length events).

Lemma next_generation_small g n : 0 <= g <= n -> n + 1 < 2 ^ 64 -> next_generation g = g + 1.
Proof. intros Hg Hn. unfold next_generation. apply Z.mod_small. lia. Qed.

Record timer_ok (events : list (time * event)) (t : streamIdleTimer) : Prop := {
  ok_bound : 0 <= generation t <= changes events;
  ok_scheduled : Forall (fun c : Z * time => 1 <= c.1 <= generation t) (scheduled t);
  ok_waiting : match waiting_since events with
               | Some t0 => timer t = Some (generation t) /\ 1 <= generation t /\
                            Forall (fun c : Z * time => c.1 = generation t -> c.2 = t0 + defaultStreamIdleTimeout) (scheduled t)
               | None => timer t = None /\ Forall (fun c : Z * time => c.1 < generation t) (scheduled t)
               end;
}.

Lemma Forall_filter_sub {A} (P Q : A -> Prop) `{!forall x, Decision (Q x)} l : Forall P l -> Forall P (filter Q l).
Proof. intros Hl. apply Forall_forall. intros x [_ Hx]%list_elem_of_filter. rewrite Forall_forall in Hl. by apply Hl. Qed.

Lemma stop_ok events now late t e : timer_ok events t -> changes events + 1 < 2 ^ 64 -> (e = Stop \/ e = Close) ->
  timer_ok ((now, e) :: events) (stop now late t).
Proof.
  intros [B S W] Hn He. unfold changes in *. assert (Hnext : next_generation (generation t) = generation t + 1).
  { apply (next_generation_small _ (Z.of_nat (length events))); lia. }
  assert (Hsub : forall l, Forall (fun c : Z * time => 1 <= c.1 <= generation t) l ->
    Forall (fun c : Z * time => 1 <= c.1 <= generation t + 1) l /\ Forall (fun c : Z * time => c.1 < generation t + 1) l).
  { intros l Hl. split; (eapply Forall_impl; [exact Hl|]); cbn; lia. }
  assert (Hwait : waiting_since ((now, e) :: events) = None) by (by destruct He as [-> | ->]).
  unfold stop. cbv zeta. change (timer (t <| generation := next_generation (generation t) |>)) with (timer t). destruct (timer t) as [g|] eqn:Ht.
  - assert (Hf : Forall (fun c : Z * time => 1 <= c.1 <= generation t)
      (if late then filter (fun c : Z * time => c.1 <> g \/ c.2 <= now) (scheduled t) else filter (fun c : Z * time => c.1 <> g) (scheduled t)))
      by (destruct late; by apply Forall_filter_sub).
    destruct (Hsub _ Hf) as [H1 H2]. split; rewrite ?Hwait; cbn; rewrite ?Hnext; [unfold changes; cbn; lia|done|by split].
  - destruct (Hsub _ S) as [H1 H2]. split; rewrite ?Hwait; cbn; rewrite ?Hnext, ?Ht; [unfold changes; cbn; lia|done|by split].
Qed.

Lemma cancel_ok events c t : timer_ok events t -> timer_ok events (cancel c t).
Proof. intros [B S W]. unfold cancel. destruct (cancelled t); by split. Qed.

Lemma start_ok events now t : timer_ok events t -> changes events + 1 < 2 ^ 64 -> timer_ok ((now, Start) :: events) (start now t).
Proof.
  intros [B S W] Hn. unfold changes in *. assert (Hnext : next_generation (generation t) = generation t + 1).
  { apply (next_generation_small _ (Z.of_nat (length events))); lia. }
  unfold start. destruct (waiting_since events) as [t0|] eqn:Hw.
  - destruct W as (W1 & W2 & W3). rewrite W1. split; cbn [waiting_since]; rewrite ?Hw; [unfold changes; cbn; lia|done|done].
  - destruct W as [W1 W2]. rewrite W1. split; cbn [waiting_since timer generation scheduled]; rewrite ?Hw; cbn; rewrite ?Hnext.
    + unfold changes. cbn. lia.
    + constructor; [cbn; lia|]. eapply Forall_impl; [exact S|]. cbn. lia.
    + split_and!; [done|lia|]. constructor; [done|]. eapply Forall_impl; [exact W2|]. cbn. lia.
Qed.

Lemma callback_ok events now g t : timer_ok events t -> timer_ok ((now, Callback) :: events) (run_callback g t).
Proof.
  intros [B S W]. unfold changes in *. set (t1 := t <| scheduled := filter (fun c : Z * time => c.1 <> g) (scheduled t) |>).
  assert (H1 : timer_ok ((now, Callback) :: events) t1).
  { split; cbn [waiting_since]; [cbn; unfold changes; cbn; lia|by apply Forall_filter_sub|].
    destruct (waiting_since events) as [t0|]; [destruct W as (W1 & W2 & W3); split_and!; [done..|by apply Forall_filter_sub]|].
    destruct W as [W1 W2]. split; [done|by apply Forall_filter_sub]. }
  unfold run_callback. fold t1. destruct (generation t1 =? g); [by apply cancel_ok|done].
Qed.

Lemma timer_ok_reached events t : reached events t -> changes events < 2 ^ 64 -> timer_ok events t.
Proof.
  induction 1 as [|events t now e t' Hr IH Hle Hstep]; intros Hn; [split; [done|constructor|by split; [|constructor]]|].
  assert (Hn' : changes events + 1 < 2 ^ 64) by (unfold changes in *; cbn [length] in Hn; lia).
  specialize (IH ltac:(lia)). destruct Hstep; [by apply start_ok|by apply stop_ok; auto|by apply cancel_ok, stop_ok; auto|by apply callback_ok].
Qed.

(** The waiting read began to wait, and nothing stopped the timer since. *)
Lemma waiting_split events t0 : waiting_since events = Some t0 -> exists later earlier,
  events = later ++ (t0, Start) :: earlier /\ Forall (fun te : time * event => te.2 = Start \/ te.2 = Callback) later.
Proof.
  revert t0. induction events as [|[now e] events IH]; intros t0 H; [done|]. destruct e; cbn [waiting_since] in H; try done.
  - destruct (waiting_since events) as [t1|] eqn:Hw; injection H as <-.
    + destruct (IH t1 eq_refl) as (later & earlier & -> & Hl). exists ((now, Start) :: later), earlier. split; [done|]. constructor; [by left|done].
    + by exists [], events.
  - destruct (IH t0 H) as (later & earlier & -> & Hl). exists ((now, Callback) :: later), earlier. split; [done|]. constructor; [by right|done].
Qed.

(** C27. A stream is cancelled for inactivity only when one read has been
    waiting for the whole idle timeout: it began to wait that long ago and no
    progress has stopped the timer since, even if callbacks of earlier reads
    run late. *)
Theorem idle_only_without_progress events now t t' : reached events t -> changes events < 2 ^ 64 ->
  step now t Callback t' -> cancelled t = None -> cancelled t' <> None ->
  cancelled t' = Some DeadlineExceeded /\ exists later t0 earlier,
    events = later ++ (t0, Start) :: earlier /\ t0 + defaultStreamIdleTimeout <= now /\
    Forall (fun te : time * event => te.2 = Start \/ te.2 = Callback) later.
Proof.
  intros Hr Hn Hstep Hnone Hcan. destruct (timer_ok_reached events t Hr Hn) as [B S W]. inversion Hstep as [| | |t1 g deadline Hin Hd]; subst.
  unfold run_callback in *. cbn [generation] in *. change (generation (t <| scheduled := _ |>)) with (generation t) in *.
  destruct (Z.eqb_spec (generation t) g) as [Hg|]; [|by cbn in Hcan]. unfold cancel in *. cbn [cancelled] in *.
  change (cancelled (t <| scheduled := _ |>)) with (cancelled t) in *. rewrite Hnone in *. split; [done|].
  destruct (waiting_since events) as [t0|] eqn:Hw.
  - destruct W as (_ & _ & W). rewrite Forall_forall in W. specialize (W _ Hin ltac:(by cbn)). cbn in W.
    destruct (waiting_split events t0 Hw) as (later & earlier & E & Hl). exists later, t0, earlier. split_and!; [done|lia|done].
  - destruct W as [_ W]. rewrite Forall_forall in W. specialize (W _ Hin). cbn in W. lia.
Qed.

Lemma waiting_scheduled events t t0 : reached events t -> changes events < 2 ^ 64 -> waiting_since events = Some t0 ->
  (generation t, t0 + defaultStreamIdleTimeout) ∈ scheduled t \/ cancelled t <> None.
Proof.
  intros Hr. revert t0. induction Hr as [|events t now e t' Hr IH Hle Hstep]; intros t0 Hn Hw; [done|].
  assert (Hn' : changes events + 1 < 2 ^ 64) by (unfold changes in *; cbn [length] in Hn; lia).
  destruct (timer_ok_reached events t Hr ltac:(lia)) as [B S W]. destruct Hstep as [t|t late|t late|t g deadline Hin Hd]; cbn [waiting_since] in Hw; try done.
  - unfold start. destruct (waiting_since events) as [t1|] eqn:Hw1; injection Hw as <-.
    + destruct W as [-> _]. by apply IH; [lia|].
    + destruct W as [-> _]. left. by left.
  - unfold run_callback. change (generation (t <| scheduled := _ |>)) with (generation t). unfold cancel.
    change (cancelled (t <| scheduled := _ |>)) with (cancelled t). destruct (IH t0 ltac:(lia) Hw) as [H|H].
    + destruct (Z.eqb_spec (generation t) g) as [Hg|Hg]; [right; destruct (cancelled t) eqn:E; cbn; congruence|].
      left. cbn. apply list_elem_of_filter. by split.
    + right. destruct (_ =? _); [destruct (cancelled t) eqn:E; cbn; congruence|done].
Qed.

(** A read that has been waiting for the idle timeout is cancelled: its
    callback is there to run from then on, and cancels the stream, unless that
    has been done. *)
Theorem idle_read_cancelled events now t t0 : reached events t -> changes events < 2 ^ 64 ->
  waiting_since events = Some t0 -> cancelled t = None -> t0 + defaultStreamIdleTimeout <= now ->
  exists t', step now t Callback t' /\ cancelled t' = Some DeadlineExceeded.
Proof.
  intros Hr Hn Hw Hno Hd. destruct (waiting_scheduled events t t0 Hr Hn Hw) as [Hin|]; [|done].
  eexists. split; [by eapply step_callback|]. unfold run_callback.
  change (generation (t <| scheduled := _ |>)) with (generation t). rewrite Z.eqb_refl. unfold cancel.
  change (cancelled (t <| scheduled := _ |>)) with (cancelled t). by rewrite Hno.
Qed.

(** ** Runs *)

Definition started : streamIdleTimer := start 0 new_timer.
Lemma started_reached : reached [(0, Start)] started.
Proof. apply (reached_step [] new_timer 0 Start); [constructor|constructor|apply step_start]. Qed.

Lemma idle_only_without_progress_witness :
  let t' := run_callback 1 started in
  cancelled t' = Some DeadlineExceeded /\ exists later t0 earlier,
    [(0, Start)] = later ++ (t0, Start) :: earlier /\ t0 + defaultStreamIdleTimeout <= 10 * Minute /\
    Forall (fun te : time * event => te.2 = Start \/ te.2 = Callback) later.
Proof.
  cbv zeta. refine (idle_only_without_progress [(0, Start)] (10 * Minute) started (run_callback 1 started) started_reached _ _ _ _).
  - vm_compute. reflexivity.
  - apply (step_callback _ _ 1 (10 * Minute)); [left|vm_compute; discriminate].
  - reflexivity.
  - vm_compute. discriminate.
Defined.

Lemma idle_read_cancelled_witness : exists t', step (11 * Minute) started Callback t' /\ cancelled t' = Some DeadlineExceeded.
Proof.
  refine (idle_read_cancelled [(0, Start)] (11 * Minute) started 0 started_reached _ _ _ _); vm_compute; [reflexivity..|discriminate].
Defined.

(** A late callback of the first read, after the second has begun, cancels
    nothing. *)
Definition second_read : streamIdleTimer := start (11 * Minute) (stop (11 * Minute) true started).
Example late_callback_harmless : step (11 * Minute) second_read Callback (run_callback 1 second_read) /\ cancelled (run_callback 1 second_read) = None.
Proof. split; [|reflexivity]. apply (step_callback _ _ 1 (10 * Minute)); [right; left|vm_compute; discriminate]. Qed.
