(* ===== verification/Budget.v ===== *)
(** * Budgets: [internal/ledger/budget.go] and the recovery of
    [internal/ledger/gateway.go]

    Admission against rolling windows of settled charges, release and
    settlement of a request's row, resets.  The tables are finite maps keyed by
    their primary keys; a transaction that fails leaves them as they were.
    SQLite is not modelled: [fault] says which statements it refuses, [SUM] is
    its aggregate, and [MapRange] the order in which it visits the rows. *)

From S2P Require Import Prelude GoStrings GoFloat.
From Stdlib Require Import SpecFloat.

(** ** Data *)

Definition BudgetWindowFiveHour : string := "5h".
Definition BudgetWindowSevenDay : string := "7d".

Record BudgetPolicy := {
  Currency : string;
  FiveHourLimit : spec_float;
  WeeklyLimit : spec_float;
  AlertThreshold : spec_float;
  Mode : string;
}.

Record BudgetDecision := Decision { Warning : bool }.

(** A row of [budget_charges]; its key is [request_id]. *)
Record charge := {
  audit_id : string;
  charged_at_ms : Z;
  provider_scope : string;
  currency : string;
  charged_amount : spec_float;
  state : string;
}.

#[export] Instance charge_eta : Eta charge := fun c =>
  {| audit_id := audit_id c; charged_at_ms := charged_at_ms c; provider_scope := provider_scope c; currency := currency c;
     charged_amount := charged_amount c; state := state c |}.

Record tables := {
  budget_charges : gmap string charge;
  budget_resets : gmap (string * string) Z;
  request_audit : gmap string (option spec_float);    (** [estimated_cost] *)
}.

#[export] Instance tables_eta : Eta tables := fun t =>
  {| budget_charges := budget_charges t; budget_resets := budget_resets t; request_audit := request_audit t |}.

(** ** Statements and transactions *)

Inductive statement :=
| BeginTx | SelectReset | CountUnknown | SumFiveHour | SumWeekly | InsertCharge | DeleteCharge | UpdateCharge
| SelectCost | UpsertReset | Commit | RecoverPending.

Definition tx (A : Type) : Type := tables -> (string + A) * tables.

Definition ret {A} (x : A) : tx A := fun t => (inr x, t).
Definition fail {A} (e : string) : tx A := fun t => (inl e, t).
Definition bind_tx {A B} (m : tx A) (k : A -> tx B) : tx B := fun t =>
  match m t with
  | (inl e, t) => (inl e, t)
  | (inr x, t) => k x t
  end.
Notation "x <-- m ; k" := (bind_tx m (fun x => k)) (at level 60, m at next level, k at level 200, right associativity) : go_scope.

(** [defer tx.Rollback()]: an error restores the tables. *)
Definition transaction {A} (m : tx A) : tx A := fun t =>
  match m t with
  | (inl e, _) => (inl e, t)
  | (inr x, t) => (inr x, t)
  end.

(** [fmt.Errorf("...: %w", err)]. *)
Definition wrapped {A} (context : string) (m : tx A) : tx A := fun t =>
  match m t with
  | (inl e, t) => (inl (context +:+ ": " +:+ e), t)
  | r => r
  end.

Definition invalid_limit (x : spec_float) : bool := Float.lt x Float.zero || Float.is_nan x || Float.is_inf x.

(** [p == (BudgetPolicy{})]. *)
Definition zero_policy (p : BudgetPolicy) : bool :=
  String.eqb (Currency p) "" && Float.eq (FiveHourLimit p) Float.zero && Float.eq (WeeklyLimit p) Float.zero &&
  Float.eq (AlertThreshold p) Float.zero && String.eqb (Mode p) "".

Section budget.
Context (ToUpper : string -> string) (fault : statement -> option string) (SUM : list spec_float -> spec_float).
Context {Rows : MapRange string charge}.

Definition BudgetPolicy_Validate (p : BudgetPolicy) : option string :=
  if zero_policy p then None
  else if negb (Strings.len (Currency p) =? 3) || negb (String.eqb (ToUpper (Currency p)) (Currency p))
  then Some "budget currency must be a three-letter uppercase code"
  else if invalid_limit (FiveHourLimit p) || invalid_limit (WeeklyLimit p) ||
          (Float.eq (FiveHourLimit p) Float.zero && Float.eq (WeeklyLimit p) Float.zero)
  then Some "budget requires a positive five_hour_limit or weekly_limit"
  else if Float.le (AlertThreshold p) Float.zero || Float.lt (Float.of_Z 1) (AlertThreshold p) ||
          (negb (String.eqb (Mode p) "alert") && negb (String.eqb (Mode p) "soft") && negb (String.eqb (Mode p) "hard"))
  then Some "invalid budget threshold or mode"
  else None.

(** A statement that the database accepts or refuses. *)
Definition exec (st : statement) : tx unit := match fault st with Some e => fail e | None => ret tt end.
Definition query {A} (st : statement) (f : tables -> A) : tx A := _ <-- exec st; fun t => (inr (f t), t).
Definition modify (st : statement) (f : tables -> tables) : tx unit := _ <-- exec st; fun t => (inr tt, f t).

(** ** Admission *)

Definition ratio (value limit : spec_float) : spec_float := if Float.le limit Float.zero then Float.zero else Float.div value limit.

(** [provider_scope=? OR provider_scope=''], and the currency. *)
Definition in_scope (provider cur : string) (c : charge) : bool :=
  (String.eqb (provider_scope c) provider || String.eqb (provider_scope c) "") && String.eqb (currency c) cur.

Definition in_window (start now_ms : Z) (c : charge) : bool := (start <=? charged_at_ms c) && (charged_at_ms c <=? now_ms).

(** The start of a window after the reset of the provider. *)
Definition window_start (start : Z) (reset : option Z) : Z :=
  match reset with Some r => if start <=? r then r + 1 else start | None => start end.

Definition positive (x : spec_float) : bool := Float.lt Float.zero x.

(** The row counts as unknown usage in a window that the policy limits. *)
Definition unknown_row (p : BudgetPolicy) (provider : string) (five weekly now_ms : Z) (c : charge) : bool :=
  in_scope provider (Currency p) c && String.eqb (state c) "unknown" &&
  ((positive (FiveHourLimit p) && in_window five now_ms c) || (positive (WeeklyLimit p) && in_window weekly now_ms c)).

Definition charges_in (provider cur : string) (start now_ms : Z) (t : tables) : list spec_float :=
  charged_amount <$> List.filter (fun c => in_scope provider cur c && in_window start now_ms c) (range (budget_charges t)).*2.

Definition over_limit (limit spent : spec_float) : bool := positive limit && Float.le limit spent.

Definition insert_charge (requestID : string) (c : charge) : tx unit :=
  _ <-- exec InsertCharge;
  fun t => match budget_charges t !! requestID with
           | Some _ => (inl "UNIQUE constraint failed: budget_charges.request_id", t)
           | None => (inr tt, t <| budget_charges := <[requestID := c]> (budget_charges t) |>)
           end.

(** The decision on the sums of the two windows. *)
Definition decide_budget (p : BudgetPolicy) (confirmed : bool) (five weekly : spec_float) : string + bool :=
  let over := over_limit (FiveHourLimit p) five || over_limit (WeeklyLimit p) weekly in
  let warning := Float.le (AlertThreshold p) (ratio five (FiveHourLimit p)) ||
                 Float.le (AlertThreshold p) (ratio weekly (WeeklyLimit p)) in
  if String.eqb (Mode p) "hard" && over then inl "budget_hard_limit"
  else if String.eqb (Mode p) "soft" && (over || warning) && negb confirmed then inl "budget_confirmation_required"
  else inr warning.

Definition pending_row (provider cur : string) (now_ms : Z) : charge :=
  {| audit_id := ""; charged_at_ms := now_ms; provider_scope := provider; currency := cur;
     charged_amount := Float.zero; state := "pending" |}.

(** The query [COUNT] of the unknown rows of the limited windows. *)
Definition count_unknown (provider : string) (p : BudgetPolicy) (five weekly now_ms : Z) : tx nat :=
  if positive (FiveHourLimit p) || positive (WeeklyLimit p)
  then query CountUnknown (fun t => count (unknown_row p provider five weekly now_ms) (range (budget_charges t)).*2)
  else ret 0%nat.

Definition CheckBudget_tx (requestID provider : string) (p : BudgetPolicy) (confirmed : bool) (now : time) : tx BudgetDecision :=
  let now_ms := Time.unix_milli now in
  _ <-- exec BeginTx;
  fiveReset <-- query SelectReset (fun t => budget_resets t !! (provider, BudgetWindowFiveHour));
  weeklyReset <-- query SelectReset (fun t => budget_resets t !! (provider, BudgetWindowSevenDay));
  let five := window_start (Time.unix_milli (Time.add now (-5 * Hour))) fiveReset in
  let weekly := window_start (Time.unix_milli (Time.add now (-168 * Hour))) weeklyReset in
  unknown <-- count_unknown provider p five weekly now_ms;
  if (0 <? unknown)%nat then fail "budget_usage_unknown"
  else
    fiveSum <-- query SumFiveHour (fun t => SUM (charges_in provider (Currency p) five now_ms t));
    weeklySum <-- query SumWeekly (fun t => SUM (charges_in provider (Currency p) weekly now_ms t));
    match decide_budget p confirmed fiveSum weeklySum with
    | inl e => fail e
    | inr warning =>
        _ <-- insert_charge requestID (pending_row provider (Currency p) now_ms);
        _ <-- exec Commit;
        ret (Decision warning)
    end.

Definition is_some {A} (x : option A) : bool := match x with Some _ => true | None => false end.

Definition CheckBudget (requestID provider : string) (p : BudgetPolicy) (confirmed : bool) (now : time) : tx BudgetDecision :=
  if String.eqb requestID "" || String.eqb (Strings.TrimSpace provider) "" || is_some (BudgetPolicy_Validate p)
  then fail "invalid budget policy"
  else transaction (CheckBudget_tx requestID provider p confirmed now).

(** ** Settlement *)

Definition ReleaseBudgetReservation (requestID : string) : tx unit :=
  if String.eqb (Strings.TrimSpace requestID) "" then fail "invalid budget reservation"
  else
    _ <-- wrapped "release budget reservation" (exec DeleteCharge);
    fun t => match budget_charges t !! requestID with
             | Some c => if String.eqb (state c) "pending"
                         then (inr tt, t <| budget_charges := delete requestID (budget_charges t) |>)
                         else (inl "budget reservation is not pending", t)
             | None => (inl "budget reservation is not pending", t)
             end.

Definition ErrBudgetAuditMissing : string := "budget_audit_missing".

(** The update of the row, or its insertion when there is none; the error for
    a missing audit row comes after the commit. *)
Definition recordBudgetCharge (requestID auditID provider cur : string) (chargedAt : time) (amount : spec_float) (st : string)
    (auditMissing : bool) : tx unit :=
  let c := {| audit_id := auditID; charged_at_ms := Time.unix_milli chargedAt; provider_scope := provider; currency := cur;
              charged_amount := amount; state := st |} in
  _ <-- transaction
      (_ <-- wrapped "record budget charge begin" (exec BeginTx);
       _ <-- wrapped "record budget charge" (exec UpdateCharge);
       _ <-- (fun t => match budget_charges t !! requestID with
                       | Some _ => (inr tt, t <| budget_charges := <[requestID := c]> (budget_charges t) |>)
                       | None => wrapped "record budget charge insert" (insert_charge requestID c) t
                       end);
       wrapped "record budget charge commit" (exec Commit));
  if auditMissing then fail ErrBudgetAuditMissing else ret tt.

Definition RecordBudgetCharge (requestID auditID provider cur : string) (chargedAt : time) : tx unit :=
  row <-- query SelectCost (fun t => request_audit t !! auditID);
  match row with
  | Some (Some cost) => recordBudgetCharge requestID auditID provider cur chargedAt cost "settled" false
  | Some None => recordBudgetCharge requestID auditID provider cur chargedAt Float.zero "unknown" false
  | None => recordBudgetCharge requestID auditID provider cur chargedAt Float.zero "unknown" true
  end.

Definition RecordBudgetChargeWithCost (requestID auditID provider cur : string) (chargedAt : time) (cost : spec_float) : tx unit :=
  if invalid_limit cost then fail "invalid budget charge cost"
  else recordBudgetCharge requestID auditID provider cur chargedAt cost "settled" false.

Definition ResetProviderBudget (provider window : string) (resetAt : time) : tx unit :=
  if String.eqb (Strings.TrimSpace provider) "" ||
     (negb (String.eqb window BudgetWindowFiveHour) && negb (String.eqb window BudgetWindowSevenDay))
  then fail "provider and budget window (5h or 7d) are required"
  else modify UpsertReset (fun t => t <| budget_resets := <[(provider, window) := Time.unix_milli resetAt]> (budget_resets t) |>).

(** The recovery of [OpenForGateway]: abandoned attempts are unknown usage. *)
Definition abandon (c : charge) : charge := if String.eqb (state c) "pending" then c <| state := "unknown" |> else c.
Definition recover_pending : tx unit :=
  match fault RecoverPending with
  | Some _ => fail "cannot recover abandoned budget attempts"
  | None => fun t => (inr tt, t <| budget_charges := abandon <$> budget_charges t |>)
  end.
End budget.
