(* ===== verification/BudgetFacts.v ===== *)
(** * Budgets: properties

    An admitted request is within its budget, a refused one leaves no trace,
    and unknown usage keeps blocking until it is settled, reset or out of the
    window. *)

From S2P Require Import Prelude GoStrings GoFloat Budget.
From Stdlib Require Import SpecFloat.

Section facts.
Context (ToUpper : string -> string) (fault : statement -> option string) (SUM : list spec_float -> spec_float).
Context {Rows : MapRange string charge}.

#[local] Abbreviation check := (CheckBudget ToUpper fault SUM).

Lemma exec_inv st t x t' : exec fault st t = (inr x, t') -> t' = t.
Proof. unfold exec, ret, fail. destruct (fault st); [done|]. by intros [= _ <-]. Qed.

Lemma bind_inv {A B} (m : tx A) (k : A -> tx B) t y t' :
  bind_tx m k t = (inr y, t') -> exists x t1, m t = (inr x, t1) /\ k x t1 = (inr y, t').
Proof. unfold bind_tx. destruct (m t) as [[e|x] t1]; [done|]. eauto. Qed.

Lemma query_inv {A} st (f : tables -> A) t x t' : query fault st f t = (inr x, t') -> t' = t /\ x = f t.
Proof. unfold query. intros ([] & t1 & ->%exec_inv & [= <- <-])%bind_inv. done. Qed.

Lemma elem_of_rows (m : gmap string charge) c : c ∈ (range m).*2 <-> exists id, m !! id = Some c.
Proof.
  rewrite list_elem_of_fmap. split.
  - intros ([id c'] & -> & Hin%elem_of_range). eauto.
  - intros [id H]. exists (id, c). split; [done|]. by apply elem_of_range.
Qed.

(** The starts of the two windows at [now]. *)
Definition five_start (t : tables) (provider : string) (now : time) : Z :=
  window_start (Time.unix_milli (Time.add now (-5 * Hour))) (budget_resets t !! (provider, BudgetWindowFiveHour)).
Definition weekly_start (t : tables) (provider : string) (now : time) : Z :=
  window_start (Time.unix_milli (Time.add now (-168 * Hour))) (budget_resets t !! (provider, BudgetWindowSevenDay)).

Definition spent (t : tables) (provider cur : string) (start : Z) (now : time) : spec_float :=
  SUM (charges_in provider cur start (Time.unix_milli now) t).

(** A row that must stop the admission. *)
Definition blocking (t : tables) (p : BudgetPolicy) (provider : string) (now : time) (c : charge) : Prop :=
  unknown_row p provider (five_start t provider now) (weekly_start t provider now) (Time.unix_milli now) c = true.

Lemma count_unknown_inv provider p five weekly now_ms t n t' :
  count_unknown fault provider p five weekly now_ms t = (inr n, t') ->
  t' = t /\ (n = 0%nat <-> forall id c, budget_charges t !! id = Some c -> unknown_row p provider five weekly now_ms c = false).
Proof.
  unfold count_unknown. destruct (positive (FiveHourLimit p) || positive (WeeklyLimit p)) eqn:E.
  - intros [-> ->]%query_inv. split; [done|]. split.
    + intros Hz id c Hc. destruct (unknown_row _ _ _ _ _ c) eqn:Eu; [|done].
      destruct (proj1 (list_elem_of_lookup _ _) (proj2 (elem_of_rows (budget_charges t) c) (ex_intro _ id Hc))) as [i Hi].
      pose proof (count_positive _ _ i c Hi Eu). lia.
    + intros H. apply count_none. intros c [id Hc]%elem_of_rows. by eapply H.
  - intros [= <- <-]. split; [done|]. split; [|done]. intros _ id c _. unfold unknown_row.
    rewrite orb_false_iff in E. destruct E as [-> ->]. by rewrite andb_false_r.
Qed.

(** What a committed admission did. *)
Lemma check_tx_inv requestID provider p confirmed now t d t' :
  CheckBudget_tx fault SUM requestID provider p confirmed now t = (inr d, t') ->
  (forall id c, budget_charges t !! id = Some c -> ~ blocking t p provider now c) /\
  decide_budget p confirmed (spent t provider (Currency p) (five_start t provider now) now)
    (spent t provider (Currency p) (weekly_start t provider now) now) = inr (Warning d) /\
  budget_charges t !! requestID = None /\
  t' = t <| budget_charges := <[requestID := pending_row provider (Currency p) (Time.unix_milli now)]> (budget_charges t) |>.
Proof.
  unfold CheckBudget_tx. intros (? & ? & ->%exec_inv & H)%bind_inv.
  apply bind_inv in H as (? & ? & [-> ->]%query_inv & H). apply bind_inv in H as (? & ? & [-> ->]%query_inv & H).
  apply bind_inv in H as (n & ? & [-> Hn]%count_unknown_inv & H). fold (five_start t provider now) (weekly_start t provider now) in *.
  destruct (Nat.ltb_spec 0 n) as [|Hz]; [done|].
  apply bind_inv in H as (? & ? & [-> ->]%query_inv & H). apply bind_inv in H as (? & ? & [-> ->]%query_inv & H).
  fold (spent t provider (Currency p) (five_start t provider now) now) (spent t provider (Currency p) (weekly_start t provider now) now) in H.
  destruct (decide_budget _ _ _ _) as [|warning] eqn:Ed; [done|].
  apply bind_inv in H as ([] & t1 & Hi & H). apply bind_inv in H as ([] & ? & ->%exec_inv & [= <- <-]).
  unfold insert_charge in Hi. apply bind_inv in Hi as ([] & ? & ->%exec_inv & Hi).
  destruct (budget_charges t !! requestID) eqn:Er; [done|]. injection Hi as <-.
  split; [|done]. intros id c Hc Hb. unfold blocking in Hb.
  rewrite (proj1 Hn ltac:(lia) id c Hc) in Hb. done.
Qed.

Lemma transaction_error {A} (m : tx A) t e t' : transaction m t = (inl e, t') -> t' = t.
Proof. unfold transaction. destruct (m t) as [[|] ?]; [by intros [= _ <-]|done]. Qed.

Lemma transaction_ok {A} (m : tx A) t x t' : transaction m t = (inr x, t') -> m t = (inr x, t').
Proof. unfold transaction. by destruct (m t) as [[|] ?]. Qed.

(** C35. Admission follows the mode of the budget.  A request is admitted only
    under a valid policy, with no unknown usage in a limited window, under both
    limits in hard mode, and in soft mode below limits and alert threshold
    unless it is confirmed; alert mode only warns, so there a request is
    admitted over the limits too, as a confirmed one is in soft mode.  An
    admitted request has exactly one new row, pending and of no cost.  A
    refused request, for whatever reason, leaves the tables as they were. *)
Theorem admitted_within_budget requestID provider p confirmed now t :
  let five := spent t provider (Currency p) (five_start t provider now) now in
  let weekly := spent t provider (Currency p) (weekly_start t provider now) now in
  let over := over_limit (FiveHourLimit p) five || over_limit (WeeklyLimit p) weekly in
  match check requestID provider p confirmed now t with
  | (inr d, t') =>
      BudgetPolicy_Validate ToUpper p = None /\
      (forall id c, budget_charges t !! id = Some c -> ~ blocking t p provider now c) /\
      (Mode p = "hard" -> over = false) /\
      (Mode p = "soft" -> confirmed = true \/ (over = false /\ Warning d = false)) /\
      budget_charges t !! requestID = None /\
      t' = t <| budget_charges := <[requestID := pending_row provider (Currency p) (Time.unix_milli now)]> (budget_charges t) |>
  | (inl _, t') => t' = t
  end.
Proof.
  intros five weekly over. unfold CheckBudget. destruct (_ || is_some _) eqn:Ev; [done|].
  rewrite orb_false_iff in Ev. destruct Ev as [_ Ev].
  destruct (transaction _ t) as [[e|d] t'] eqn:E; [by apply transaction_error in E|].
  apply transaction_ok, check_tx_inv in E as (Hb & Hd & Hr & Ht). fold five weekly in Hd.
  split; [by destruct (BudgetPolicy_Validate ToUpper p)|]. split; [done|].
  unfold decide_budget in Hd. fold over in Hd. split; [|split; [|done]].
  - intros Hm. rewrite Hm in Hd. cbn in Hd. by destruct over.
  - intros Hm. rewrite Hm in Hd. cbn in Hd. destruct confirmed; [by left|right].
    rewrite andb_true_r in Hd. destruct over; [done|]. cbn in Hd. destruct (_ || _) eqn:Ew; [done|]. by injection Hd as <-.
Qed.

(** ** Unknown usage *)

(** Operations on the tables, in any order, each with its own outcome. *)
Inductive budget_op :=
| OpCheck (requestID provider : string) (p : BudgetPolicy) (confirmed : bool) (now : time)
| OpRelease (requestID : string)
| OpRecord (requestID auditID provider cur : string) (chargedAt : time)
| OpRecordCost (requestID auditID provider cur : string) (chargedAt : time) (cost : spec_float)
| OpReset (provider window : string) (resetAt : time)
| OpRecover.

Definition apply_op (t : tables) (op : budget_op) : tables :=
  match op with
  | OpCheck id provider p confirmed now => snd (check id provider p confirmed now t)
  | OpRelease id => snd (ReleaseBudgetReservation fault id t)
  | OpRecord id audit provider cur chargedAt => snd (RecordBudgetCharge fault id audit provider cur chargedAt t)
  | OpRecordCost id audit provider cur chargedAt cost => snd (RecordBudgetChargeWithCost fault id audit provider cur chargedAt cost t)
  | OpReset provider window resetAt => snd (ResetProviderBudget fault provider window resetAt t)
  | OpRecover => snd (recover_pending fault t)
  end.

(** The operation neither settles the row [id] nor resets [provider]. *)
Definition leaves_row (id provider : string) (op : budget_op) : Prop :=
  match op with
  | OpRecord id' _ _ _ _ | OpRecordCost id' _ _ _ _ _ => id' <> id
  | OpReset provider' _ _ => provider' <> provider
  | _ => True
  end.

Definition keeps (id provider : string) (c : charge) (t t' : tables) : Prop :=
  (budget_charges t !! id = Some c -> budget_charges t' !! id = Some c) /\
  (forall w, budget_resets t' !! (provider, w) = budget_resets t !! (provider, w)).

Lemma exec_same st t r t' : exec fault st t = (r, t') -> t' = t.
Proof. unfold exec, ret, fail. by destruct (fault st) as [e|]; intros [= _ <-]. Qed.

Lemma record_keeps id id' audit provider provider' cur chargedAt amount st missing c t :
  id' <> id -> keeps id provider c t (snd (recordBudgetCharge fault id' audit provider' cur chargedAt amount st missing t)).
Proof.
  intros Hne. unfold recordBudgetCharge.
  match goal with |- context [transaction ?m] => set (body := m) end.
  assert (Hbody : forall x t', transaction body t = (x, t') -> keeps id provider c t t').
  { intros x t' H. destruct x as [e|[]]; [by apply transaction_error in H as ->|]. apply transaction_ok in H. subst body.
    apply bind_inv in H as ([] & t1 & H1 & H). unfold wrapped in H1. destruct (exec fault BeginTx t) as [[|] t1'] eqn:E1; [done|].
    apply exec_same in E1 as ->. injection H1 as _ <-.
    apply bind_inv in H as ([] & t2 & H2 & H). unfold wrapped in H2. destruct (exec fault UpdateCharge t) as [[|] t2'] eqn:E2; [done|].
    apply exec_same in E2 as ->. injection H2 as _ <-.
    apply bind_inv in H as ([] & t3 & H3 & H). unfold wrapped in H. destruct (exec fault Commit t3) as [[|] t4] eqn:E4; [done|].
    apply exec_same in E4 as ->. injection H as _ <-.
    destruct (budget_charges t !! id').
    - injection H3 as <-. split; [|done]. intros Hc. cbn. by rewrite lookup_insert_ne.
    - unfold wrapped, insert_charge, bind_tx in H3. destruct (exec fault InsertCharge t) as [[|] t5] eqn:E5; [done|].
      apply exec_same in E5 as ->. destruct (budget_charges t !! id'); [done|]. injection H3 as <-.
      split; [|done]. intros Hc. cbn. by rewrite lookup_insert_ne. }
  unfold bind_tx at 1. destruct (transaction body t) as [[e|x] t'] eqn:E; [by eapply Hbody|]. destruct missing; by eapply Hbody.
Qed.

Lemma keeps_refl id provider c t : keeps id provider c t t.
Proof. by split. Qed.

Lemma budget_op_keeps id provider c op t : state c = "unknown" -> leaves_row id provider op -> keeps id provider c t (apply_op t op).
Proof.
  intros Hc Hop. destruct op as [id' provider' p confirmed now|id'|id' audit provider' cur at'|id' audit provider' cur at' cost|provider' w at'|];
    cbn [apply_op leaves_row] in *.
  - unfold CheckBudget. destruct (_ || is_some _); [apply keeps_refl|].
    destruct (transaction _ t) as [[e|d] t'] eqn:E; [apply transaction_error in E as ->; apply keeps_refl|].
    apply transaction_ok, check_tx_inv in E as (_ & _ & Hr & ->). split; [|done]. intros Hid. cbn.
    rewrite lookup_insert_ne; [done|]. intros ->. congruence.
  - unfold ReleaseBudgetReservation. destruct (String.eqb _ _); [apply keeps_refl|]. unfold bind_tx, wrapped.
    destruct (exec fault DeleteCharge t) as [[e|[]] t'] eqn:E; apply exec_same in E as ->; [apply keeps_refl|].
    destruct (budget_charges t !! id') as [c'|] eqn:Er; [|apply keeps_refl].
    destruct (String.eqb_spec (state c') "pending") as [Hp|]; [|apply keeps_refl]. split; [|done]. intros Hid. cbn.
    rewrite lookup_delete_ne; [done|]. intros ->. rewrite Hid in Er. injection Er as ->. by rewrite Hp in Hc.
  - unfold RecordBudgetCharge. unfold bind_tx. destruct (query fault SelectCost _ t) as [[e|row] t'] eqn:E.
    + unfold query, bind_tx in E. destruct (exec fault SelectCost t) as [[|] t1] eqn:E1; [|done].
      apply exec_same in E1 as ->. injection E as _ <-. apply keeps_refl.
    + apply query_inv in E as [-> _]. destruct row as [[cost|]|]; by apply record_keeps.
  - unfold RecordBudgetChargeWithCost. destruct (invalid_limit cost); [apply keeps_refl|]. by apply record_keeps.
  - unfold ResetProviderBudget. destruct (_ || _); [apply keeps_refl|]. unfold modify, bind_tx.
    destruct (exec fault UpsertReset t) as [[e|[]] t'] eqn:E; apply exec_same in E as ->; [apply keeps_refl|].
    split; [done|]. intros w'. cbn. rewrite lookup_insert_ne; [done|]. by intros [= ? _].
  - unfold recover_pending. destruct (fault RecoverPending); [apply keeps_refl|]. split; [|done]. intros Hid. cbn.
    rewrite lookup_fmap, Hid. cbn. unfold abandon. by rewrite Hc.
Qed.

Lemma run_ops_keep id provider c ops : forall t, state c = "unknown" -> Forall (leaves_row id provider) ops ->
  keeps id provider c t (foldl apply_op t ops).
Proof.
  induction ops as [|op ops IH]; intros t Hc Hops; [apply keeps_refl|]. apply Forall_cons in Hops as [Hop Hops].
  destruct (budget_op_keeps id provider c op t Hc Hop) as [H1 H2]. destruct (IH (apply_op t op) Hc Hops) as [H3 H4].
  cbn [foldl]. split; [auto|]. intros w. by rewrite H4, H2.
Qed.

(** Unknown usage blocks.  A row whose cost never became known stops every
    later admission of its provider and currency while it lies in a limited
    window, whatever other requests, crashes and recoveries happen in between
    and whatever the database refuses: until the row is settled, the provider
    is reset, or the window has passed. *)
Theorem unknown_usage_blocks id c provider p ops t requestID confirmed now :
  budget_charges t !! id = Some c -> state c = "unknown" -> in_scope provider (Currency p) c = true ->
  Forall (leaves_row id provider) ops ->
  charged_at_ms c <= Time.unix_milli now ->
  (positive (FiveHourLimit p) = true /\ five_start t provider now <= charged_at_ms c \/
   positive (WeeklyLimit p) = true /\ weekly_start t provider now <= charged_at_ms c) ->
  let t' := foldl apply_op t ops in
  exists e, check requestID provider p confirmed now t' = (inl e, t').
Proof.
  intros Hrow Hstate Hscope Hops Hat Hwin t'. destruct (run_ops_keep id provider c ops t Hstate Hops) as [Hkeep Hresets].
  specialize (Hkeep Hrow). fold t' in Hkeep, Hresets. clearbody t'.
  unfold CheckBudget. destruct (_ || is_some _); [by eexists|].
  destruct (transaction _ t') as [[e|d] t1] eqn:E; [apply transaction_error in E as ->; by eexists|exfalso].
  apply transaction_ok, check_tx_inv in E as (Hb & _). apply (Hb id c Hkeep). unfold blocking, unknown_row.
  rewrite Hscope, Hstate. unfold five_start, weekly_start, in_window in *. rewrite !Hresets.
  apply Z.leb_le in Hat. rewrite Hat, !andb_true_r. cbn [String.eqb andb].
  destruct Hwin as [[-> H]|[-> H]]; apply Z.leb_le in H; rewrite H; cbn; [done|by rewrite orb_true_r].
Qed.
End facts.

(** ** A concrete ledger *)

Definition demo_policy : BudgetPolicy :=
  {| Currency := "USD"; FiveHourLimit := Float.of_Z 5; WeeklyLimit := Float.of_Z 20; AlertThreshold := Float.of_Z 1; Mode := "hard" |}.
Definition demo_now : time := (Time.epoch_seconds + 1000000) * Second.
Definition demo_tables : tables := {| budget_charges := ∅; budget_resets := ∅; request_audit := {["a" := None]} |}.
Definition no_fault (_ : statement) : option string := None.
Definition demo_sum (l : list spec_float) : spec_float := foldl Float.add Float.zero l.

(** A request is admitted, and its cost does not become known. *)
Definition demo_unknown : tables :=
  snd (RecordBudgetCharge no_fault "r1" "a" "prov" "USD" (demo_now + Minute)
         (snd (CheckBudget (fun s => s) no_fault demo_sum "r1" "prov" demo_policy false demo_now demo_tables))).

Definition demo_row : charge :=
  {| audit_id := "a"; charged_at_ms := Time.unix_milli (demo_now + Minute); provider_scope := "prov"; currency := "USD";
     charged_amount := Float.zero; state := "unknown" |}.

Lemma unknown_usage_blocks_witness :
  budget_charges demo_unknown !! "r1" = Some demo_row /\
  exists e, CheckBudget (fun s => s) no_fault demo_sum "r2" "prov" demo_policy true (demo_now + Hour)
              (foldl (apply_op (fun s => s) no_fault demo_sum) demo_unknown [OpRecover; OpRelease "r1"]) =
            (inl e, foldl (apply_op (fun s => s) no_fault demo_sum) demo_unknown [OpRecover; OpRelease "r1"]).
Proof.
  assert (Hrow : budget_charges demo_unknown !! "r1" = Some demo_row) by (vm_compute; reflexivity).
  split; [exact Hrow|].
  apply (unknown_usage_blocks (fun s => s) no_fault demo_sum "r1" demo_row "prov" demo_policy [OpRecover; OpRelease "r1"]
           demo_unknown "r2" true (demo_now + Hour) Hrow).
  - reflexivity.
  - reflexivity.
  - repeat constructor.
  - vm_compute. discriminate.
  - left. split; [reflexivity|]. vm_compute. discriminate.
Defined.
