(* ===== verification/View.v ===== *)
(** * The routing view: providers, models and candidates

    One admitted configuration as the handler sees it: the provider profiles of
    internal/gateway/config.go, the model lists and candidate selection of
    internal/gateway/gateway.go, the aliases of model_aliases.go and the switch
    thresholds of cooldown_switch.go.  The body checks of the adapter
    ([HasAnthropicServerTools], [PrepareRequestWithWarnings]) are arguments:
    routing only asks whether a client accepts the body. *)

From S2P Require Import Prelude GoStrings GoFloat Diagnostics Errors Availability Pricing Routes.
From S2P Require Budget.

(** ** Configuration *)

(** [Provider], without the fields that only the clients and the command line read. *)
Record Provider := {
  BaseURL : string;
  SupportedModels : list string;
  ModelAliases : gmap string string;
  ProviderSwitchThreshold : option Z;
  ModelSwitchThresholds : gmap string Z;
  Prices : gmap string Price;
  MaxActiveSessions : Z;
  ProviderBudget : option Budget.BudgetPolicy;
}.

(** The zero [Provider], which the lookup of an absent name gives. *)
Definition no_Provider : Provider :=
  {| BaseURL := ""; SupportedModels := []; ModelAliases := ∅; ProviderSwitchThreshold := None;
     ModelSwitchThresholds := ∅; Prices := ∅;
     MaxActiveSessions := 0; ProviderBudget := None |}.

Record RoutingConfig := {
  SharedModelStrategy : string;
  RoutingSwitchThreshold : option Z;
}.

Definition defaultProviderSwitchThreshold : Z := 60.

Definition EffectiveRouting (c : option RoutingConfig) : RoutingConfig :=
  default {| SharedModelStrategy := ""; RoutingSwitchThreshold := None |} c.

Definition EffectiveProviderSwitchThreshold (r : RoutingConfig) : Z :=
  default defaultProviderSwitchThreshold (RoutingSwitchThreshold r).

Definition validSwitchThreshold (value : option Z) : option string :=
  match value with
  | Some v => if (v <? 0) || (86400 <? v)
              then Some "provider_switch_threshold must be an integer number of seconds in 0..86400" else None
  | None => None
  end.

Definition RoutingConfig_Validate (r : RoutingConfig) : option string :=
  match validSwitchThreshold (RoutingSwitchThreshold r) with
  | Some e => Some e
  | None => if member (SharedModelStrategy r) [""; "random"; "price_priority"] then None
            else Some "routing.shared_model_strategy must be random or price_priority"
  end.

(** ** Aliases and thresholds of a provider *)

Definition UpstreamModel (p : Provider) (model : string) : string := default model (ModelAliases p !! model).

Definition validAliasModelID (model : string) : bool := negb (String.eqb model "auto") && safeAvailabilityModel model.

(** Errors of one alias; the loop over the map returns the first one found. *)
Definition alias_error (p : Provider) (alias upstream : string) : option string :=
  if negb (validAliasModelID alias) || Strings.Contains alias "/" || negb (validAliasModelID upstream)
  then Some "use model labels of at most 128 ASCII bytes with letters, numbers or ._/-:@; aliases must be unqualified and neither name may be auto"
  else if bool_decide (is_Some (ModelAliases p !! upstream))
  then Some "alias targets must be upstream IDs, not another alias or the alias itself"
  else None.

Definition threshold_error (model : string) (seconds : Z) : option string :=
  if String.eqb model "" || negb (String.eqb (Strings.TrimSpace model) model) || (255 <? Strings.len model)
  then Some "model_switch_thresholds requires nonempty model IDs up to 255 bytes"
  else validSwitchThreshold (Some seconds).

(** The first error of a list of checks. *)
Fixpoint first_error {A} (f : A -> option string) (l : list A) : option string :=
  match l with [] => None | x :: l => match f x with Some e => Some e | None => first_error f l end end.

Section with_range.
Context {RangeAliases : MapRange string string} {RangeThresholds : MapRange string Z}.

Definition validateModelAliases (p : Provider) : option string :=
  if 128 <? Z.of_nat (size (ModelAliases p)) then Some "at most 128 aliases are allowed"
  else first_error (fun kv => alias_error p kv.1 kv.2) (range (ModelAliases p)).

Definition validateSwitchThresholds (p : Provider) : option string :=
  match validSwitchThreshold (ProviderSwitchThreshold p) with
  | Some e => Some e
  | None =>
      if 256 <? Z.of_nat (size (ModelSwitchThresholds p))
      then Some "model_switch_thresholds may contain at most 256 entries"
      else first_error (fun kv => threshold_error kv.1 kv.2) (range (ModelSwitchThresholds p))
  end.
End with_range.

(** ** The view *)

Record Client := {
  Protocol : string;
  MaxOutputTokens : Z;
  ModelOutputLimits : gmap string Z;
}.

Definition defaultAnthropicMaxTokens : Z := 4096.

Definition OutputTokenDefault (c : Client) (model : string) : Z :=
  if 0 <? MaxOutputTokens c then MaxOutputTokens c
  else
    let limit := default 0 (ModelOutputLimits c !! model) in
    if (0 <? limit) && (limit <? defaultAnthropicMaxTokens) then limit else 0.

(** The parts of the handler that a published view never changes. *)
Record handler := {
  Routing : option RoutingConfig;
  AutoChain : list AutoChainEntry;
  AccessToken : string;
  providers : gmap string Provider;
  clients : gmap string Client;                    (** a nil client is absent *)
  unavailableProviders : gmap string string;
  discovered : gmap string (list string);          (** [h.models] *)
  modelsKnown : gmap string bool;
  providerGenerations : gmap string Z;
  routingEpoch : Z;
  reusedConnections : gmap string bool;
  HealthDiagnostics : bool;                        (** [config.HealthDiagnosticsEnabled()] *)
  ActiveSessionIdleTimeoutSeconds : Z;
}.

Definition provider (h : handler) (name : string) : Provider := default no_Provider (providers h !! name).
Definition strategy (h : handler) : string := SharedModelStrategy (EffectiveRouting (Routing h)).
Definition generation (h : handler) (name : string) : Z := default 0 (providerGenerations h !! name).
Definition unavailable (h : handler) (name : string) : bool := bool_decide (is_Some (unavailableProviders h !! name)).
Definition has_client (h : handler) (name : string) : bool := bool_decide (is_Some (clients h !! name)).

Definition containsModel (models : list string) (model : string) : bool := existsb (fun c => String.eqb c model) models.

Definition switchThreshold (h : handler) (name model : string) : Z :=
  let p := provider h name in
  match ModelSwitchThresholds p !! model, ProviderSwitchThreshold p, RoutingSwitchThreshold (EffectiveRouting (Routing h)) with
  | Some seconds, _, _ => seconds
  | None, Some seconds, _ => seconds
  | None, None, Some seconds => seconds
  | None, None, None => defaultProviderSwitchThreshold
  end.

Definition providerBindingPresent (h : handler) (name : string) : bool := negb (unavailable h name) && has_client h name.

Definition supportScopeAllows (h : handler) (name model : string) : bool :=
  match providers h !! name with
  | None => false
  | Some p => bool_decide (SupportedModels p = []) || containsModel (SupportedModels p) model
  end.

Definition upstreamScopeAllows (h : handler) (name model : string) : bool :=
  match providers h !! name with
  | None => false
  | Some p =>
      (String.eqb (UpstreamModel p model) model && supportScopeAllows h name model) ||
      existsb (fun kv => String.eqb kv.2 model && supportScopeAllows h name kv.1) (map_to_list (ModelAliases p))
  end.

(** ** Model identifiers *)

(** [strings.IndexByte]. *)
Fixpoint IndexByte (s : string) (c : Ascii.ascii) : option nat :=
  match s with
  | EmptyString => None
  | String a s => if Ascii.eqb a c then Some O else S <$> IndexByte s c
  end.

(** [strings.ContainsAny(value, "\r\n\x00")]. *)
Definition control_bytes (value : string) : bool :=
  existsb (fun b => (b =? 13) || (b =? 10) || (b =? 0)) (bytes_of_string value).

Definition parseQualifiedModelID (value : string) : option (string * string) :=
  match IndexByte value (ascii_of_byte 47) with
  | None => None
  | Some separator =>
      if (separator <=? 0)%nat || (separator =? String.length value - 1)%nat then None
      else
        let providerName := String.substring 0 separator value in
        let model := String.substring (S separator) (String.length value - S separator) value in
        if negb (String.eqb (Strings.TrimSpace providerName) providerName) ||
           negb (String.eqb (Strings.TrimSpace model) model) || control_bytes value
        then None else Some (providerName, model)
  end.

Definition qualifiedModelID (providerName model : string) : string := providerName +:+ "/" +:+ model.

(** ** Candidates

    The code ranges over the map of providers and sorts what it collected, so
    the order of the iteration does not show. *)

Definition modelsForProvider (h : handler) (name : string) : list string * bool :=
  match providers h !! name with
  | Some p =>
      if bool_decide (SupportedModels p = []) then
        let known := default [] (discovered h !! name) in
        let aliases := List.filter (fun a => negb (containsModel known a)) (map_to_list (ModelAliases p)).*1 in
        (Sort.Strings (known ++ aliases), default false (modelsKnown h !! name))
      else (SupportedModels p, true)
  | None => (Sort.Strings (default [] (discovered h !! name)), default false (modelsKnown h !! name))
  end.

Definition allQualifiedModels (h : handler) : list string :=
  Sort.Strings (mjoin ((fun name => qualifiedModelID name <$> (modelsForProvider h name).1)
                        <$> List.filter (fun name => negb (unavailable h name)) (map_to_list (providers h)).*1)).

(** One provider of the loop of [bareModelCandidates]. *)
Definition bare_candidate (h : handler) (model : string) (requireKnownScope : bool) (name : string) : bool :=
  let p := provider h name in
  negb (unavailable h name) &&
  (if negb (bool_decide (SupportedModels p = [])) then containsModel (SupportedModels p) model
   else if requireKnownScope then
     let '(models, known) := modelsForProvider h name in
     bool_decide (is_Some (ModelAliases p !! model)) || (known && containsModel models model)
   else true).

Definition bareModelCandidates (h : handler) (model : string) (requireKnownScope : bool) : list string :=
  Sort.Strings (List.filter (bare_candidate h model requireKnownScope) (map_to_list (providers h)).*1).

Definition StatusBadRequest : Z := 400.
Definition StatusNotFound : Z := 404.
Definition StatusServiceUnavailable : Z := 503.

Definition resolveRequestModel (h : handler) (modelID : string) : string * string * string * Z :=
  let bare :=
    match parseQualifiedModelID modelID with
    | Some (ref, suffix) => if bool_decide (is_Some (providers h !! ref)) then inl (ref, suffix) else inr true
    | None => inr false
    end in
  match bare with
  | inl (ref, suffix) => (ref, suffix, "", 0)
  | inr qualified =>
      match bareModelCandidates h modelID qualified with
      | [] => ("", "", if qualified then "provider_not_found" else "model_not_found", StatusNotFound)
      | [name] => (name, modelID, "", 0)
      | _ => ("", "", "model_ambiguous", StatusBadRequest)
      end
  end.

Section with_adapter.
Context (HasAnthropicServerTools : string -> bool).
(** [PrepareRequestWithWarnings clientProtocol protocol body model default]
    returns no error. *)
Context (PrepareRequest : string -> string -> string -> string -> Z -> bool).

Definition supportsNativeAnthropicTools (h : handler) (name : string) : bool :=
  match clients h !! name with Some c => String.eqb (Protocol c) "anthropic" | None => false end.

(** The client accepts the body for the upstream model of [model]. *)
Definition prepared (h : handler) (c : Client) (name model clientProtocol body : string) : bool :=
  let upstreamModel := UpstreamModel (provider h name) model in
  PrepareRequest clientProtocol (Protocol c) body upstreamModel (OutputTokenDefault c upstreamModel).

Definition routing_candidate (h : handler) (model clientProtocol body name : string) : bool :=
  if String.eqb clientProtocol "anthropic" && HasAnthropicServerTools body && negb (supportsNativeAnthropicTools h name)
  then false
  else match clients h !! name with
  | Some c =>
      if negb (String.eqb (strategy h) "") && (0 <? Strings.len body)
      then prepared h c name model clientProtocol body else true
  | None => true
  end.

Definition routingCandidates (h : handler) (model : string) (requireKnownScope : bool) (clientProtocol body : string)
    : list string :=
  List.filter (routing_candidate h model clientProtocol body) (bareModelCandidates h model requireKnownScope).

Definition routeRequestCompatible (h : handler) (name model protocol body : string) : bool :=
  match clients h !! name with
  | None => false
  | Some c =>
      if String.eqb protocol "anthropic" && HasAnthropicServerTools body && negb (supportsNativeAnthropicTools h name)
      then false
      else if Strings.len body =? 0 then true
      else prepared h c name model protocol body
  end.
End with_adapter.
