(* ===== verification/Catalog.v ===== *)
(** * Model catalogs and their limits

    internal/gateway/provider.go and capabilities.go: the list of models that
    a provider answers, the token limits it states, how they combine with the
    configured ones, and the detection of a provider's protocol from the
    shape of that list.  The HTTP exchange is an argument: what was received
    for each of the two ways to authenticate. *)

From S2P Require Import Prelude GoStrings Json NetText View.

(** ** Capabilities *)

Record ModelCapabilities := { cap_ContextTokens : Z; cap_MaxOutputTokens : Z }.
#[export] Instance ModelCapabilities_eta : Eta ModelCapabilities := fun c =>
  {| cap_ContextTokens := cap_ContextTokens c; cap_MaxOutputTokens := cap_MaxOutputTokens c |}.
#[export] Instance ModelCapabilities_eq : EqDecision ModelCapabilities.
Proof. solve_decision. Defined.
Definition no_capabilities : ModelCapabilities := {| cap_ContextTokens := 0; cap_MaxOutputTokens := 0 |}.

Definition ModelCapabilities_Validate (c : ModelCapabilities) : option string :=
  if (cap_ContextTokens c <? 0) || (1000000000 <? cap_ContextTokens c) || (cap_MaxOutputTokens c <? 0) ||
     (1000000000 <? cap_MaxOutputTokens c) then Some "model token capabilities must be 0..1000000000"
  else if (0 <? cap_ContextTokens c) && (cap_ContextTokens c <? cap_MaxOutputTokens c) then Some "model output limit exceeds context"
  else None.

Definition addToModel (c : ModelCapabilities) (model : list (string * value)) : list (string * value) :=
  let model := if 0 <? cap_ContextTokens c then put model ("context_length", VInt (cap_ContextTokens c)) else model in
  if 0 <? cap_MaxOutputTokens c then put model ("max_output_tokens", VInt (cap_MaxOutputTokens c)) else model.

(** ** The list of models *)

Record model_item := { item_ID : string; item_Object : string; item_Type : string }.
#[export] Instance model_item_eta : Eta model_item := fun i =>
  {| item_ID := item_ID i; item_Object := item_Object i; item_Type := item_Type i |}.
Definition no_item : model_item := {| item_ID := ""; item_Object := ""; item_Type := "" |}.

Record envelope (Data : Type) := { env_Object : string; env_HasMore : option bool; env_Data : Data }.
Arguments env_Object {Data}.
Arguments env_HasMore {Data}.
Arguments env_Data {Data}.
#[export] Instance envelope_eta D : Eta (envelope D) := fun e =>
  {| env_Object := env_Object e; env_HasMore := env_HasMore e; env_Data := env_Data e |}.
Definition no_envelope {D} (d : D) : envelope D := {| env_Object := ""; env_HasMore := None; env_Data := d |}.
Definition dec_envelope {D} (d : decoder D) : decoder (envelope D) :=
  dec_struct [field_of "object" dec_string env_Object (fun x e => e <| env_Object := x |>);
              field_of "has_more" (dec_ptr false dec_bool) env_HasMore (fun x e => e <| env_HasMore := x |>);
              field_of "data" d env_Data (fun x e => e <| env_Data := x |>)].
Definition dec_item : decoder model_item :=
  dec_struct [field_of "id" dec_string item_ID (fun x i => i <| item_ID := x |>);
              field_of "type" dec_string item_Type (fun x i => i <| item_Type := x |>)].

(** The identifiers that are kept, in the order of the answer. *)
Definition bad_model_id (id : string) : bool := String.eqb id "" || (256 <? Strings.len id) || control_bytes id.
Fixpoint collect_ids (seen : list string) (items : list model_item) : list string :=
  match items with
  | [] => seen
  | i :: items =>
      let id := Strings.TrimSpace (item_ID i) in
      if bad_model_id id || bool_decide (id ∈ seen) then collect_ids seen items else collect_ids (seen ++ [id]) items
  end.

Definition recognized (protocol : string) (e : envelope (list model_item)) : bool :=
  if String.eqb protocol "openai" then String.eqb (env_Object e) "list"
  else if String.eqb protocol "anthropic" then
    bool_decide (is_Some (env_HasMore e)) || existsb (fun i => String.eqb (item_Type i) "model") (env_Data e)
  else false.

Definition parseProviderModels (body protocol : string) : list string * bool :=
  match Unmarshal (dec_envelope (dec_slice no_item dec_item)) (no_envelope []) body with
  | None => ([], false)
  | Some e =>
      if negb (recognized protocol e) || default false (env_HasMore e) then ([], false)
      else (Sort.Strings (collect_ids [] (env_Data e)), true)
  end.

(** ** Limits of a catalog *)

(** [warnings] is the set of the models that it maps to true. *)
Record providerCatalog := {
  cat_models : list string;
  cat_known : bool;
  capabilities : gmap string ModelCapabilities;
  warnings : gset string;
}.
#[export] Instance providerCatalog_eta : Eta providerCatalog := fun c =>
  {| cat_models := cat_models c; cat_known := cat_known c; capabilities := capabilities c; warnings := warnings c |}.
Definition no_catalog : providerCatalog := {| cat_models := []; cat_known := false; capabilities := ∅; warnings := ∅ |}.

Definition raw_field (item : option (gmap string json)) (name : string) : option json := m ← item; m !! name.

Fixpoint token_limit (item : option (gmap string json)) (fields : list string) (v : Z) : Z * bool :=
  match fields with
  | [] => (v, false)
  | f :: fields =>
      let raw := raw_field item f in
      if raw_blank raw then token_limit item fields v
      else
        match unmarshal_raw dec_int64 0 raw with
        | None => (0, true)
        | Some n =>
            if (n <? 0) || (1000000000 <? n) then (0, true)
            else if n =? 0 then token_limit item fields v
            else if negb (v =? 0) && negb (v =? n) then (0, true)
            else token_limit item fields n
        end
  end.
Definition catalogTokenLimit (item : option (gmap string json)) (fields : list string) : Z * bool := token_limit item fields 0.

Definition context_fields (protocol : string) : list string :=
  ["context_length"; "max_model_len"] ++ (if String.eqb protocol "anthropic" then ["max_input_tokens"] else []).
Definition output_fields (protocol : string) : list string :=
  ["max_output_tokens"] ++ (if String.eqb protocol "anthropic" then ["max_tokens"] else []).

(** The limits that one record states, and whether it states bad ones. *)
Definition stated (protocol : string) (item : option (gmap string json)) : ModelCapabilities * bool :=
  let '(context, contextBad) := catalogTokenLimit item (context_fields protocol) in
  let '(output, outputBad) := catalogTokenLimit item (output_fields protocol) in
  let caps := {| cap_ContextTokens := context; cap_MaxOutputTokens := output |} in
  match ModelCapabilities_Validate caps with
  | Some _ => (no_capabilities, true)
  | None => (caps, contextBad || outputBad)
  end.

(** The model of a record, if the catalog has it. *)
Definition record_id (models : list string) (item : option (gmap string json)) : option string :=
  id ← raw_string (raw_field item "id");
  let id := Strings.TrimSpace id in
  if bool_decide (id ∈ models) then Some id else None.

Definition catalog_step (protocol : string) (c : providerCatalog) (item : option (gmap string json)) : providerCatalog :=
  match record_id (cat_models c) item with
  | None => c
  | Some id =>
      let '(caps, bad) := stated protocol item in
      let '(caps, bad) := match capabilities c !! id with
                          | Some before => if bool_decide (before <> caps) then (no_capabilities, true) else (caps, bad)
                          | None => (caps, bad)
                          end in
      (if bad : bool then c <| warnings := {[id]} ∪ warnings c |> else c) <| capabilities := <[id := caps]> (capabilities c) |>
  end.

Definition dec_records : decoder (envelope (list (option (gmap string json)))) :=
  dec_struct [field_of "data" (dec_slice None dec_map) env_Data (fun x e => e <| env_Data := x |>)].
Definition catalog_records (body : string) : list (option (gmap string json)) :=
  match Unmarshal dec_records (no_envelope []) body with Some e => env_Data e | None => [] end.

Definition parseProviderCatalog (body protocol : string) : providerCatalog :=
  let '(models, known) := parseProviderModels body protocol in
  let c := {| cat_models := models; cat_known := known; capabilities := ∅; warnings := ∅ |} in
  if known then foldl (catalog_step protocol) c (catalog_records body) else c.

(** ** Configured and discovered limits *)

Definition differ (declared resolved : Z) : bool := (0 <? declared) && (0 <? resolved) && negb (declared =? resolved).

(** [declared] is the [ModelCapabilities] of the provider. *)
Definition effectiveModelCapabilities (p : Provider) (declared : ModelCapabilities) (c : providerCatalog) (model : string) :
    ModelCapabilities * bool :=
  let found := default no_capabilities (capabilities c !! UpstreamModel p model) in
  let conflict := differ (cap_ContextTokens declared) (cap_ContextTokens found) ||
                  differ (cap_MaxOutputTokens declared) (cap_MaxOutputTokens found) in
  let resolved := if 0 <? cap_ContextTokens declared then found <| cap_ContextTokens := cap_ContextTokens declared |> else found in
  let resolved := if 0 <? cap_MaxOutputTokens declared then resolved <| cap_MaxOutputTokens := cap_MaxOutputTokens declared |> else resolved in
  match ModelCapabilities_Validate resolved with
  | None => (resolved, conflict)
  | Some _ => (if 0 <? cap_ContextTokens declared then resolved <| cap_MaxOutputTokens := 0 |>
               else resolved <| cap_ContextTokens := 0 |>, true)
  end.

Definition providerOutputLimits (p : Provider) (declared : ModelCapabilities) (c : providerCatalog) : gmap string Z :=
  map_imap (fun model _ => Some (cap_MaxOutputTokens (effectiveModelCapabilities p declared c model).1)) (capabilities c).

(** [warnModelCapabilities]: the codes it logs, for the models of the provider. *)
Definition warnModelCapabilities (p : Provider) (declared : ModelCapabilities) (c : providerCatalog) (models : list string) (known : bool) :
    list string :=
  let effective := effectiveModelCapabilities p declared c <$> models in
  let unknown := ((negb known || bool_decide (models = [])) && (cap_ContextTokens declared =? 0)) ||
                 existsb (fun r => cap_ContextTokens r.1 =? 0) effective in
  (if bool_decide (warnings c = ∅) then [] else ["model_capabilities_invalid"]) ++
  (if existsb snd effective then ["model_capabilities_conflict"] else []) ++
  (if unknown then ["model_capabilities_unknown"] else []).

(** ** Detection of the protocol *)

(** Fields of [[]json.RawMessage]: [None] is the nil slice. *)
Definition dec_raw_slice : decoder (option (list json)) := fun j _ =>
  match j with JNull => Some None | JArr _ items => Some (Some items) | _ => None end.
Definition dec_full_item : decoder model_item :=
  dec_struct [field_of "id" dec_string item_ID (fun x i => i <| item_ID := x |>);
              field_of "object" dec_string item_Object (fun x i => i <| item_Object := x |>);
              field_of "type" dec_string item_Type (fun x i => i <| item_Type := x |>)].
Definition readable_item (j : json) : option model_item :=
  i ← dec_full_item j no_item; if String.eqb (item_ID i) "" then None else Some i.

Definition classifyProviderModelSemantics (body : string) : bool * bool :=
  match Unmarshal (dec_envelope dec_raw_slice) (no_envelope None) body with
  | Some e =>
      match env_Data e ≫= mapM readable_item with
      | Some items =>
          (String.eqb (env_Object e) "list" && bool_decide (env_HasMore e = None) &&
             forallb (fun i => String.eqb (item_Object i) "model") items,
           bool_decide (is_Some (env_HasMore e)) && forallb (fun i => String.eqb (item_Type i) "model") items)
      | None => (false, false)
      end
  | None => (false, false)
  end.

Record providerModelsResponse := { resp_status : Z; resp_contentType : string; resp_body : string }.

Definition defaultAnthropicAPIVersion : string := "2023-06-01".
Definition trim_slashes (s : string) : string :=
  string_of_bytes (rev (Strings.drop_while (Z.eqb 47) (rev (bytes_of_string s)))).
Definition models_url (baseURL : string) : string := trim_slashes baseURL +:+ "/models".
(** The headers of the request; nothing is sent for another protocol. *)
Definition models_headers (protocol apiKey apiVersion : string) : option (list (string * string)) :=
  if String.eqb protocol "openai" then Some [("Authorization", "Bearer " +:+ apiKey)]
  else if String.eqb protocol "anthropic" then
    Some [("x-api-key", apiKey);
          ("anthropic-version", if String.eqb apiVersion "" then defaultAnthropicAPIVersion else apiVersion)]
  else None.

Definition success_status (status : Z) : bool := (200 <=? status) && (status <? 300).
(** What was received: the status, the content type and the body, unless
    reading it failed; at most one mebibyte of it is accepted. *)
Abbreviation received := (option (Z * string * option string)) (only parsing).
Definition requestProviderModels (protocol : string) (exchange : received) : option providerModelsResponse :=
  _ ← models_headers protocol "" "";
  '(status, contentType, body) ← exchange;
  if negb (success_status status) then Some {| resp_status := status; resp_contentType := contentType; resp_body := "" |}
  else
    body ← body;
    if Z.shiftl 1 20 <? Strings.len body then None
    else Some {| resp_status := status; resp_contentType := contentType; resp_body := body |}.

Definition discoverProviderCatalog (protocol : string) (exchange : received) : providerCatalog :=
  match requestProviderModels protocol exchange with
  | Some r => if negb (success_status (resp_status r)) || String.eqb (resp_body r) "" then no_catalog
              else parseProviderCatalog (resp_body r) protocol
  | None => no_catalog
  end.

Section detection.
Context (ToLower : string -> string).

Definition isJSONMediaType (v : string) : bool :=
  String.eqb (Strings.TrimSpace v) "" ||
  match Mime.ParseMediaType ToLower v with
  | Some t => String.eqb t "application/json" || Strings.HasSuffix t "+json"
  | None => false
  end.

(** One probe of [detectProviderCatalog], over what is confirmed so far. *)
Definition detect_step (exchange : string -> received) (confirmed : gmap string providerCatalog) (auth : string) :
    gmap string providerCatalog :=
  match requestProviderModels auth (exchange auth) with
  | None => confirmed
  | Some r =>
      if negb (success_status (resp_status r)) || String.eqb (resp_body r) "" || negb (isJSONMediaType (resp_contentType r))
      then confirmed
      else
        let '(openAI, anthropic) := classifyProviderModelSemantics (resp_body r) in
        if Bool.eqb openAI anthropic then confirmed
        else
          let protocol := if openAI : bool then "openai" else "anthropic" in
          <[protocol := parseProviderCatalog (resp_body r) protocol]> confirmed
  end.

Definition detectProviderCatalog (exchange : string -> received) : option (string * providerCatalog) :=
  let confirmed := foldl (detect_step exchange) ∅ ["openai"; "anthropic"] in
  match map_to_list confirmed with [r] => Some r | _ => None end.

Definition normalizeProviderProtocol (v : string) : string := ToLower (Strings.TrimSpace v).
End detection.
