(* ===== verification/CatalogFacts.v ===== *)
(** * What a catalog tells

    Properties of [Catalog.v]: the models that are learned, the limits that
    are trusted, their combination with the configured ones, and the
    detection of a protocol. *)

From S2P Require Import Prelude GoStrings Json NetText View Catalog.

(** ** Models *)

Definition good_model (id : string) : Prop := bad_model_id id = false.

Lemma collect_ids_good seen items : NoDup seen -> Forall good_model seen ->
  NoDup (collect_ids seen items) /\ Forall good_model (collect_ids seen items).
Proof.
  revert seen. induction items as [|i items IH]; intros seen Hn Hg; [done|]. cbn.
  destruct (bad_model_id _) eqn:Hb; [by apply IH|]. case_bool_decide as Hin; [by apply IH|]. cbn.
  apply IH; [|by apply Forall_app; split; [|constructor]].
  apply NoDup_app. split_and!; [done| |apply NoDup_singleton]. intros x Hx ->%list_elem_of_singleton. done.
Qed.

Lemma collect_ids_complete seen items i : i ∈ items -> good_model (Strings.TrimSpace (item_ID i)) ->
  Strings.TrimSpace (item_ID i) ∈ collect_ids seen items.
Proof.
  assert (Hkeep : forall items seen x, x ∈ seen -> x ∈ collect_ids seen items).
  { clear. induction items as [|i items IH]; intros seen x Hx; [done|]. cbn. destruct (_ || _); apply IH; [done|].
    apply elem_of_app. by left. }
  intros Hi Hg. revert seen. induction Hi as [items|i j items Hi IH]; intros seen; cbn; [|destruct (_ || _); by apply IH].
  unfold good_model in Hg. rewrite Hg. cbn. case_bool_decide as Hin; [by apply Hkeep|]. apply Hkeep, elem_of_app. right. by left.
Qed.

Lemma parse_models body protocol models known : parseProviderModels body protocol = (models, known) ->
  (known = false /\ models = []) \/
  exists e, known = true /\ Unmarshal (dec_envelope (dec_slice no_item dec_item)) (no_envelope []) body = Some e /\
    recognized protocol e = true /\ default false (env_HasMore e) = false /\ models = Sort.Strings (collect_ids [] (env_Data e)).
Proof.
  unfold parseProviderModels. destruct (Unmarshal _ _ _) as [e|] eqn:He; [|intros [= <- <-]; by left].
  destruct (recognized protocol e) eqn:Hr; [|intros [= <- <-]; by left]. destruct (default false (env_HasMore e)) eqn:Hm; [intros [= <- <-]; by left|].
  intros H. right. exists e. apply (f_equal fst) in H as H1. apply (f_equal snd) in H. cbn in *. by split_and!.
Qed.

(** The models that a gateway learns from a provider's answer: every one
    is a clean identifier, listed once and in order, and every clean identifier
    of the answer is listed; nothing is learned from an answer that is
    incomplete or that the protocol does not describe. *)
Theorem models_learned body protocol models known : parseProviderModels body protocol = (models, known) ->
  NoDup models /\ StronglySorted Sort.le models /\ Forall good_model models /\
  (known = false -> models = []) /\
  (known = true -> exists e, Unmarshal (dec_envelope (dec_slice no_item dec_item)) (no_envelope []) body = Some e /\
     (protocol = "openai" \/ protocol = "anthropic") /\ env_HasMore e <> Some true /\
     forall i, i ∈ env_Data e -> good_model (Strings.TrimSpace (item_ID i)) -> Strings.TrimSpace (item_ID i) ∈ models).
Proof.
  intros [[-> ->]|(e & -> & He & Hr & Hm & ->)]%parse_models.
  { split_and!; try done; constructor. }
  destruct (collect_ids_good [] (env_Data e)) as [Hn Hg]; [constructor..|].
  pose proof (Sort.Strings_perm (collect_ids [] (env_Data e))) as Hp. split_and!.
  - by rewrite Hp.
  - apply Sort.Strings_sorted.
  - by rewrite Hp.
  - done.
  - intros _. exists e. split_and!; [done| | |].
    + unfold recognized in Hr. destruct (String.eqb_spec protocol "openai"); [by left|].
      destruct (String.eqb_spec protocol "anthropic"); [by right|done].
    + intros HH. by rewrite HH in Hm.
    + intros i Hi Hgi. rewrite Hp. by apply collect_ids_complete.
Qed.

(** ** Limits *)

Definition valid_caps (c : ModelCapabilities) : Prop := ModelCapabilities_Validate c = None.

Lemma valid_caps_spec c : valid_caps c <->
  0 <= cap_ContextTokens c <= 1000000000 /\ 0 <= cap_MaxOutputTokens c <= 1000000000 /\
  (0 < cap_ContextTokens c -> cap_MaxOutputTokens c <= cap_ContextTokens c).
Proof.
  unfold valid_caps, ModelCapabilities_Validate. destruct c as [x y]. cbn.
  destruct (Z.ltb_spec x 0), (Z.ltb_spec 1000000000 x), (Z.ltb_spec y 0), (Z.ltb_spec 1000000000 y), (Z.ltb_spec 0 x), (Z.ltb_spec x y);
    cbn; split; intros; try done; try lia.
Qed.

(** The limits that the records of a model state, in order, and what they
    agree on: contradictory records tell nothing. *)
Definition statements (protocol : string) (models : list string) (items : list (option (gmap string json))) (id : string) :
    list ModelCapabilities :=
  (fun item => (stated protocol item).1) <$> filter (fun item => record_id models item = Some id) items.
Definition agreed (l : list ModelCapabilities) : option ModelCapabilities :=
  match l with [] => None | c :: l => Some (if decide (Forall (eq c) l) then c else no_capabilities) end.

Lemma agreed_snoc l c : agreed (l ++ [c]) =
  Some (match agreed l with Some before => if decide (before = c) then c else no_capabilities | None => c end).
Proof.
  destruct l as [|x l]; [done|]. cbn. f_equal. destruct (decide (Forall (eq x) l)) as [Hl|Hl].
  - destruct (decide (x = c)) as [->|Hx].
    + rewrite decide_True; [done|]. apply Forall_app. by split; [|constructor].
    + rewrite decide_False; [done|]. intros [_ Hc]%Forall_app. by inversion Hc.
  - rewrite decide_False by (intros [? _]%Forall_app; done). by destruct (decide (no_capabilities = c)).
Qed.

Lemma agreed_same l l' : l ≡ₚ l' -> agreed l = agreed l'.
Proof.
  destruct l as [|x l]; [by intros ->%Permutation_nil_l|]. destruct l' as [|y l']; [by intros ?%symmetry%Permutation_nil_cons|].
  intros Hp. cbn. f_equal.
  assert (Hall : forall (z : ModelCapabilities) k, (forall w, w ∈ z :: k -> z = w) <-> Forall (eq z) k).
  { intros z k. rewrite Forall_forall. split; intros H w Hw; [apply H; by right|]. inversion Hw; subst; [done|by apply H]. }
  destruct (decide (Forall (eq x) l)) as [Hl|Hl], (decide (Forall (eq y) l')) as [Hl'|Hl']; rewrite <-Hall in Hl, Hl'; try done.
  - apply Hl. rewrite Hp. left.
  - destruct Hl'. intros w Hw. rewrite <-Hp in Hw. transitivity x; [|by apply Hl]. symmetry. apply Hl. rewrite Hp. left.
  - destruct Hl. intros w Hw. rewrite Hp in Hw. transitivity y; [|by apply Hl']. symmetry. apply Hl'. rewrite <-Hp. left.
Qed.

Lemma stated_valid protocol item : valid_caps (stated protocol item).1.
Proof.
  unfold stated. destruct (catalogTokenLimit _ _) as [x xb], (catalogTokenLimit _ _) as [y yb].
  destruct (ModelCapabilities_Validate _) eqn:E; done.
Qed.

Lemma agreed_valid l c : Forall valid_caps l -> agreed l = Some c -> valid_caps c.
Proof. destruct l as [|x l]; [done|]. intros Hl [= <-]. destruct (decide _); [by inversion Hl|done]. Qed.

Section steps.
Context (protocol : string) (c0 : providerCatalog) (Hfresh : capabilities c0 = ∅).

Lemma steps_models items : cat_models (foldl (catalog_step protocol) c0 items) = cat_models c0 /\
  cat_known (foldl (catalog_step protocol) c0 items) = cat_known c0.
Proof.
  induction items as [|i items [IH1 IH2]] using rev_ind; [done|]. rewrite foldl_snoc. set (c := foldl _ _ _) in *.
  unfold catalog_step. destruct (record_id _ _); [|done]. destruct (stated protocol i) as [caps bad].
  destruct (capabilities c !! s); [destruct (bool_decide _)|]; [|destruct bad..]; done.
Qed.

Lemma steps_limits items id : capabilities (foldl (catalog_step protocol) c0 items) !! id =
  agreed (statements protocol (cat_models c0) items id).
Proof.
  induction items as [|i items IH] using rev_ind; [cbn; by rewrite Hfresh|]. rewrite foldl_snoc.
  pose proof (steps_models items) as [Hm _]. set (c := foldl _ _ _) in *.
  unfold statements. rewrite filter_app, fmap_app. unfold catalog_step. rewrite Hm, filter_cons, filter_nil.
  destruct (record_id _ i) as [id'|]; [|by rewrite decide_False, app_nil_r].
  destruct (decide (Some id' = Some id)) as [[= ->]|Hne].
  - cbn [fmap list_fmap]. rewrite agreed_snoc. fold (statements protocol (cat_models c0) items id). rewrite <-IH.
    destruct (stated protocol i) as [caps bad]. cbn [fst].
    destruct (capabilities c !! id) as [before|] eqn:Hc; [case_bool_decide as Hb|].
    + cbn. rewrite lookup_insert_eq. by rewrite decide_False.
    + rewrite (decide_True _ _ Hb). destruct bad; cbn; by rewrite lookup_insert_eq.
    + destruct bad; cbn; by rewrite lookup_insert_eq.
  - rewrite fmap_nil, app_nil_r. fold (statements protocol (cat_models c0) items id). rewrite <-IH.
    assert (id' <> id) by congruence. destruct (stated protocol i) as [caps bad].
    destruct (capabilities c !! id'); [case_bool_decide|]; [|destruct bad..]; cbn; by rewrite lookup_insert_ne.
Qed.
End steps.

Lemma statements_in protocol models items id : statements protocol models items id <> [] -> id ∈ models.
Proof.
  unfold statements. intros H. destruct (filter _ items) as [|i l] eqn:Hf; [done|].
  assert (Hi : i ∈ filter (fun item => record_id models item = Some id) items) by (rewrite Hf; left).
  apply list_elem_of_filter in Hi as [Hr _]. unfold record_id in Hr. destruct (raw_string _); [|done]. cbn in Hr.
  case_bool_decide; [by injection Hr as <-|done].
Qed.

Lemma catalog_limits body protocol id : let c := parseProviderCatalog body protocol in
  capabilities c !! id = if cat_known c then agreed (statements protocol (cat_models c) (catalog_records body) id) else None.
Proof.
  cbv zeta. unfold parseProviderCatalog. destruct (parseProviderModels body protocol) as [models [|]]; [|done].
  set (c0 := {| cat_models := models |}). destruct (steps_models protocol c0 (catalog_records body)) as [-> ->]. by rewrite steps_limits.
Qed.

Lemma catalog_valid body protocol id caps : capabilities (parseProviderCatalog body protocol) !! id = Some caps -> valid_caps caps.
Proof.
  rewrite catalog_limits. destruct (cat_known _); [|done]. apply agreed_valid. apply Forall_fmap, Forall_forall. intros i _. apply stated_valid.
Qed.

(** The token limits that a catalog gives a model are those that all of its
    records state, whatever their order: a model whose records contradict each
    other, or state impossible limits, has none.  Only models of a complete
    catalog have limits, and what they have is consistent. *)
Theorem catalog_limits_agreed body protocol : let c := parseProviderCatalog body protocol in
  (forall id, capabilities c !! id =
     if cat_known c then agreed (statements protocol (cat_models c) (catalog_records body) id) else None) /\
  (forall id caps, capabilities c !! id = Some caps -> id ∈ cat_models c /\ valid_caps caps) /\
  (cat_known c = true -> forall records, records ≡ₚ catalog_records body ->
     capabilities (foldl (catalog_step protocol) (c <| capabilities := ∅ |>) records) = capabilities c).
Proof.
  cbv zeta. set (c := parseProviderCatalog body protocol). split_and!.
  - intros id. apply catalog_limits.
  - intros id caps H. split; [|by apply (catalog_valid body protocol id)]. unfold c in H. rewrite catalog_limits in H. fold c in H.
    destruct (cat_known c); [|done]. apply (statements_in protocol _ (catalog_records body)). by destruct (statements _ _ _ _).
  - intros Hk records Hp. apply map_eq. intros id.
    rewrite steps_limits by done. unfold c. rewrite catalog_limits. fold c. rewrite Hk. apply agreed_same. unfold statements.
    change (cat_models (c <| capabilities := ∅ |>)) with (cat_models c). by rewrite Hp.
Qed.

(** ** Effective limits *)

(** The limits that the gateway uses for a model: what the operator
    declared is never changed, what was not declared comes from the catalog of
    the dispatched model or stays unknown, the result is consistent, and
    without a reported conflict nothing was overridden or left out. *)
Theorem effective_limits p declared c model : valid_caps declared -> map_Forall (fun _ => valid_caps) (capabilities c) ->
  let found := default no_capabilities (capabilities c !! UpstreamModel p model) in
  let '(caps, conflict) := effectiveModelCapabilities p declared c model in
  valid_caps caps /\
  (0 < cap_ContextTokens declared -> cap_ContextTokens caps = cap_ContextTokens declared) /\
  (0 < cap_MaxOutputTokens declared -> cap_MaxOutputTokens caps = cap_MaxOutputTokens declared) /\
  (cap_ContextTokens declared = 0 -> cap_ContextTokens caps = cap_ContextTokens found \/ cap_ContextTokens caps = 0) /\
  (cap_MaxOutputTokens declared = 0 -> cap_MaxOutputTokens caps = cap_MaxOutputTokens found \/ cap_MaxOutputTokens caps = 0) /\
  (conflict = false ->
     (0 < cap_ContextTokens found -> cap_ContextTokens caps = cap_ContextTokens found) /\
     (0 < cap_MaxOutputTokens found -> cap_MaxOutputTokens caps = cap_MaxOutputTokens found)).
Proof.
  intros Hd Hc. cbv zeta. unfold effectiveModelCapabilities. set (found := default no_capabilities _).
  assert (Hf : valid_caps found).
  { unfold found. destruct (capabilities c !! _) eqn:E; [by apply (Hc _ _ E)|done]. }
  clearbody found. clear Hc. rewrite valid_caps_spec in Hd, Hf. destruct declared as [dx dy], found as [fx fy]. cbn in Hd, Hf |- *.
  unfold differ.
  destruct (Z.ltb_spec 0 dx), (Z.ltb_spec 0 dy); cbn; destruct (ModelCapabilities_Validate _) eqn:E;
    try fold (valid_caps {| cap_ContextTokens := dx; cap_MaxOutputTokens := dy |}) in E;
    rewrite ?valid_caps_spec; cbn;
    repeat match goal with
      | H : ModelCapabilities_Validate ?v = None |- _ => apply valid_caps_spec in H; cbn in H
      | H : ModelCapabilities_Validate ?v = Some _ |- _ =>
          assert (~ valid_caps v) by (unfold valid_caps; congruence); clear H
      | H : ~ valid_caps _ |- _ => rewrite valid_caps_spec in H; cbn in H
      end; case_tests; split_and!; intros; try done; try lia.
Qed.

(** ** Detection *)

Definition is_openai (protocol : string) : bool := String.eqb protocol "openai".
Definition is_anthropic (protocol : string) : bool := String.eqb protocol "anthropic".

Lemma classified_once body : classifyProviderModelSemantics body <> (true, true).
Proof.
  unfold classifyProviderModelSemantics. destruct (Unmarshal _ _ _) as [e|]; [|done]. destruct (env_Data e ≫= _) as [items|]; [|done].
  destruct (env_HasMore e); cbn; [by rewrite andb_false_r|done].
Qed.

Section detect.
Context (ToLower : string -> string) (exchange : string -> option (Z * string * option string)).

(** The readable answer to the request that authenticates as [auth], and the
    protocol that it is an answer of. *)
Definition answered (auth body : string) : Prop :=
  exists r, requestProviderModels auth (exchange auth) = Some r /\ success_status (resp_status r) = true /\
            isJSONMediaType ToLower (resp_contentType r) = true /\ resp_body r = body /\ body <> "".
Definition identifies (body protocol : string) : Prop :=
  (protocol = "openai" /\ classifyProviderModelSemantics body = (true, false)) \/
  (protocol = "anthropic" /\ classifyProviderModelSemantics body = (false, true)).

Lemma detect_step_spec confirmed auth :
  (detect_step ToLower exchange confirmed auth = confirmed /\ forall body protocol, answered auth body -> ~ identifies body protocol) \/
  exists body protocol, answered auth body /\ identifies body protocol /\
    detect_step ToLower exchange confirmed auth = <[protocol := parseProviderCatalog body protocol]> confirmed.
Proof.
  unfold detect_step. destruct (requestProviderModels auth (exchange auth)) as [r|] eqn:Hr.
  2: { left. split; [done|]. intros body protocol (r' & Hr' & _) _. congruence. }
  destruct (success_status (resp_status r)) eqn:Hs; cbn [negb orb].
  2: { left. split; [done|]. intros body protocol (r' & Hr' & Hs' & _) _. congruence. }
  destruct (String.eqb_spec (resp_body r) ""); cbn [orb].
  { left. split; [done|]. intros body protocol (r' & Hr' & _ & _ & Hb & He) _. congruence. }
  destruct (isJSONMediaType ToLower (resp_contentType r)) eqn:Hj; cbn [negb].
  2: { left. split; [done|]. intros body protocol (r' & Hr' & _ & Hj' & _) _. congruence. }
  assert (Ha : answered auth (resp_body r)) by (exists r; by split_and!).
  assert (Hunique : forall body, answered auth body -> body = resp_body r).
  { intros body (r' & Hr' & _ & _ & <- & _). congruence. }
  pose proof (classified_once (resp_body r)) as Honce. destruct (classifyProviderModelSemantics (resp_body r)) as [[|] [|]] eqn:Hcl; [done|..]; cbn.
  - right. exists (resp_body r), "openai". split_and!; [done| |done]. by left.
  - right. exists (resp_body r), "anthropic". split_and!; [done| |done]. by right.
  - left. split; [done|]. intros body protocol ->%Hunique. intros [[_ H]|[_ H]]; congruence.
Qed.

Lemma identifies_one body p q : identifies body p -> identifies body q -> p = q.
Proof. intros [[-> H]|[-> H]] [[-> H']|[-> H']]; congruence. Qed.

Lemma one_entry {A} (m : gmap string A) r : map_to_list m = [r] -> m = {[r.1 := r.2]}.
Proof. intros H. rewrite <-(list_to_map_to_list m), H. by destruct r. Qed.

(** A protocol is detected only from evidence: some readable, successful
    JSON answer identifies it, its models come from such an answer, and no
    answer identifies the other one; and whenever the evidence is of that
    kind, it is detected.  The shape of one answer never fits both. *)
Theorem detection_sound :
  match detectProviderCatalog ToLower exchange with
  | Some (protocol, c) =>
      (exists auth body, answered auth body /\ identifies body protocol /\ c = parseProviderCatalog body protocol) /\
      (forall auth body other, auth ∈ ["openai"; "anthropic"] -> answered auth body -> identifies body other -> other = protocol)
  | None =>
      forall protocol, (exists auth body, auth ∈ ["openai"; "anthropic"] /\ answered auth body /\ identifies body protocol) ->
      exists auth body other, auth ∈ ["openai"; "anthropic"] /\ answered auth body /\ identifies body other /\ other <> protocol
  end.
Proof.
  assert (Hone : forall auth b b', answered auth b -> answered auth b' -> b = b').
  { intros auth b b' (r & Hr & _ & _ & <- & _) (r' & Hr' & _ & _ & <- & _). congruence. }
  unfold detectProviderCatalog. cbn [foldl].
  destruct (detect_step_spec ∅ "openai") as [[H1 N1]|(b1 & p1 & A1 & I1 & H1)]; rewrite H1;
    [destruct (detect_step_spec ∅ "anthropic") as [[H2 N2]|(b2 & p2 & A2 & I2 & H2)]
    |destruct (detect_step_spec (<[p1 := parseProviderCatalog b1 p1]> ∅) "anthropic") as [[H2 N2]|(b2 & p2 & A2 & I2 & H2)]]; rewrite H2.
  - rewrite map_to_list_empty. intros protocol (auth & b & Ha & Hb & Hi).
    apply list_elem_of_In in Ha as [<-|[<-|[]]]; [by destruct (N1 b protocol)|by destruct (N2 b protocol)].
  - rewrite insert_empty, map_to_list_singleton. split; [by exists "anthropic", b2|].
    intros auth b other Ha Hb Hi. apply list_elem_of_In in Ha as [<-|[<-|[]]]; [by destruct (N1 b other)|].
    rewrite (Hone _ _ _ Hb A2) in Hi. by apply (identifies_one b2).
  - rewrite insert_empty, map_to_list_singleton. split; [by exists "openai", b1|].
    intros auth b other Ha Hb Hi. apply list_elem_of_In in Ha as [<-|[<-|[]]]; [|by destruct (N2 b other)].
    rewrite (Hone _ _ _ Hb A1) in Hi. by apply (identifies_one b1).
  - destruct (decide (p1 = p2)) as [<-|Hne].
    + rewrite insert_insert_eq, insert_empty, map_to_list_singleton. split; [by exists "anthropic", b2|].
      intros auth b other Ha Hb Hi. apply list_elem_of_In in Ha as [<-|[<-|[]]].
      * rewrite (Hone _ _ _ Hb A1) in Hi. by apply (identifies_one b1).
      * rewrite (Hone _ _ _ Hb A2) in Hi. by apply (identifies_one b2).
    + assert (Hsize : length (map_to_list (<[p2 := parseProviderCatalog b2 p2]> (<[p1 := parseProviderCatalog b1 p1]> ∅ : gmap string providerCatalog))) = 2%nat).
      { rewrite length_map_to_list, map_size_insert_None, insert_empty, map_size_singleton; [done|]. by rewrite insert_empty, lookup_singleton_ne. }
      destruct (map_to_list _) as [|x [|y l]]; [done..|]. intros protocol _.
      destruct (decide (p1 = protocol)) as [<-|]; [exists "anthropic", b2, p2|exists "openai", b1, p1]; split_and!; try done;
        apply list_elem_of_In; cbn; auto.
Qed.
End detect.
