(* ===== verification/Config.v ===== *)
(** * Configurations

    internal/gateway/config.go and what it validates: the records of a
    configuration file, their decoding, the rules of [Config.Validate] with
    those of auto_chain_config.go, report_schedule.go, reconciliation.go and
    contentlog.Config, and the resolution of credentials.  The fields of a
    [Provider] that routing reads are [View.Provider]; a [Profile] has all of
    them. *)

From Stdlib Require Import SpecFloat.
From S2P Require Import Prelude GoStrings GoFloat Json NetText Diagnostics Errors Pricing Routes View Catalog.
From S2P Require Upstream Budget.

(** ** Records *)

Record KeychainReference := { Service : string; Account : string }.
#[export] Instance KeychainReference_eta : Eta KeychainReference := fun k => {| Service := Service k; Account := Account k |}.
#[export] Instance KeychainReference_eq : EqDecision KeychainReference.
Proof. solve_decision. Defined.
Definition no_reference : KeychainReference := {| Service := ""; Account := "" |}.

Record Profile := {
  profile : Provider;
  prof_Protocol : string;
  prof_Keychain : KeychainReference;
  prof_Keychains : list KeychainReference;
  prof_APIVersion : string;
  prof_UpstreamID : string;
  prof_Capabilities : ModelCapabilities;
  ErrorCodeMappings : list ProviderErrorMapping;
  prof_ForwardErrorMessages : option bool;
  prof_APIKey : string;
  prof_APIKeys : list string;
}.
#[export] Instance Provider_eta : Eta Provider := fun p =>
  {| BaseURL := BaseURL p; SupportedModels := SupportedModels p; ModelAliases := ModelAliases p;
     ProviderSwitchThreshold := ProviderSwitchThreshold p; ModelSwitchThresholds := ModelSwitchThresholds p;
     Prices := Prices p; MaxActiveSessions := MaxActiveSessions p; ProviderBudget := ProviderBudget p |}.
#[export] Instance Profile_eta : Eta Profile := fun p =>
  {| profile := profile p; prof_Protocol := prof_Protocol p; prof_Keychain := prof_Keychain p; prof_Keychains := prof_Keychains p;
     prof_APIVersion := prof_APIVersion p; prof_UpstreamID := prof_UpstreamID p; prof_Capabilities := prof_Capabilities p;
     ErrorCodeMappings := ErrorCodeMappings p; prof_ForwardErrorMessages := prof_ForwardErrorMessages p;
     prof_APIKey := prof_APIKey p; prof_APIKeys := prof_APIKeys p |}.
Definition no_Profile : Profile :=
  {| profile := no_Provider; prof_Protocol := ""; prof_Keychain := no_reference; prof_Keychains := []; prof_APIVersion := "";
     prof_UpstreamID := ""; prof_Capabilities := no_capabilities; ErrorCodeMappings := []; prof_ForwardErrorMessages := None;
     prof_APIKey := ""; prof_APIKeys := [] |}.

(** [contentlog.Config]. *)
Record ContentConfig := { Enabled : bool; Directory : string; FileBytes : Z; DirectoryBytes : Z; QueueEvents : Z }.
#[export] Instance ContentConfig_eta : Eta ContentConfig := fun c =>
  {| Enabled := Enabled c; Directory := Directory c; FileBytes := FileBytes c; DirectoryBytes := DirectoryBytes c; QueueEvents := QueueEvents c |}.
#[export] Instance ContentConfig_eq : EqDecision ContentConfig.
Proof. solve_decision. Defined.
Definition no_content : ContentConfig := {| Enabled := false; Directory := ""; FileBytes := 0; DirectoryBytes := 0; QueueEvents := 0 |}.

Record ReconciliationConfig := { StatementDir : string; PollIntervalSeconds : Z }.
#[export] Instance ReconciliationConfig_eta : Eta ReconciliationConfig := fun c =>
  {| StatementDir := StatementDir c; PollIntervalSeconds := PollIntervalSeconds c |}.
Record ReportSchedule := { schedule_Time : string; schedule_Channel : string }.
#[export] Instance ReportSchedule_eta : Eta ReportSchedule := fun c =>
  {| schedule_Time := schedule_Time c; schedule_Channel := schedule_Channel c |}.
#[export] Instance ReportSchedule_eq : EqDecision ReportSchedule.
Proof. solve_decision. Defined.
Definition no_schedule : ReportSchedule := {| schedule_Time := ""; schedule_Channel := "" |}.
Record ReportWebhookConfig := { webhook_Provider : string; webhook_Keychain : KeychainReference }.
#[export] Instance ReportWebhookConfig_eta : Eta ReportWebhookConfig := fun c =>
  {| webhook_Provider := webhook_Provider c; webhook_Keychain := webhook_Keychain c |}.
#[export] Instance ReportWebhookConfig_eq : EqDecision ReportWebhookConfig.
Proof. solve_decision. Defined.
Definition no_webhook : ReportWebhookConfig := {| webhook_Provider := ""; webhook_Keychain := no_reference |}.

Record Config := {
  ContentOutput : ContentConfig;
  cfg_HealthDiagnostics : option bool;
  Reconciliation : ReconciliationConfig;
  Schedule : ReportSchedule;
  ReportWebhook : ReportWebhookConfig;
  cfg_Capabilities : ModelCapabilities;
  cfg_Limits : Upstream.Limits;
  ListenAddr : string;
  cfg_Protocol : string;
  cfg_BaseURL : string;
  cfg_ForwardErrorMessages : option bool;
  Providers : gmap string Profile;
  cfg_Routing : option RoutingConfig;
  cfg_AutoChain : list AutoChainEntry;
  cfg_Model : string;
  cfg_UpstreamID : string;
  cfg_APIVersion : string;
  cfg_Keychain : KeychainReference;
  AccessTokenKeychain : KeychainReference;
  MaxInFlight : Z;
  IdleTimeoutSeconds : Z;
  LedgerPath : string;
  cfg_Prices : gmap string Price;
  cfg_APIKey : string;
  cfg_AccessToken : string;
  ReportWebhookURL : string;
}.
#[export] Instance Config_eta : Eta Config := fun c =>
  {| ContentOutput := ContentOutput c; cfg_HealthDiagnostics := cfg_HealthDiagnostics c; Reconciliation := Reconciliation c;
     Schedule := Schedule c; ReportWebhook := ReportWebhook c; cfg_Capabilities := cfg_Capabilities c; cfg_Limits := cfg_Limits c;
     ListenAddr := ListenAddr c; cfg_Protocol := cfg_Protocol c; cfg_BaseURL := cfg_BaseURL c;
     cfg_ForwardErrorMessages := cfg_ForwardErrorMessages c; Providers := Providers c; cfg_Routing := cfg_Routing c;
     cfg_AutoChain := cfg_AutoChain c; cfg_Model := cfg_Model c; cfg_UpstreamID := cfg_UpstreamID c; cfg_APIVersion := cfg_APIVersion c;
     cfg_Keychain := cfg_Keychain c; AccessTokenKeychain := AccessTokenKeychain c; MaxInFlight := MaxInFlight c;
     IdleTimeoutSeconds := IdleTimeoutSeconds c; LedgerPath := LedgerPath c; cfg_Prices := cfg_Prices c; cfg_APIKey := cfg_APIKey c;
     cfg_AccessToken := cfg_AccessToken c; ReportWebhookURL := ReportWebhookURL c |}.
Definition no_Limits : Upstream.Limits :=
  {| Upstream.UpstreamTimeoutSeconds := 0; Upstream.RequestBytes := 0; Upstream.ResponseBytes := 0; Upstream.StreamBytes := 0;
     Upstream.EventBytes := 0 |}.
Definition no_Config : Config :=
  {| ContentOutput := no_content; cfg_HealthDiagnostics := None; Reconciliation := {| StatementDir := ""; PollIntervalSeconds := 0 |};
     Schedule := no_schedule; ReportWebhook := no_webhook; cfg_Capabilities := no_capabilities; cfg_Limits := no_Limits;
     ListenAddr := ""; cfg_Protocol := ""; cfg_BaseURL := ""; cfg_ForwardErrorMessages := None; Providers := ∅; cfg_Routing := None;
     cfg_AutoChain := []; cfg_Model := ""; cfg_UpstreamID := ""; cfg_APIVersion := ""; cfg_Keychain := no_reference;
     AccessTokenKeychain := no_reference; MaxInFlight := 0; IdleTimeoutSeconds := 0; LedgerPath := ""; cfg_Prices := ∅;
     cfg_APIKey := ""; cfg_AccessToken := ""; ReportWebhookURL := "" |}.

Definition HealthDiagnosticsEnabled (c : Config) : bool := default true (cfg_HealthDiagnostics c).

(** ** Rules *)

(** [if bad { return errors.New(message) }]. *)
Definition rule (bad : bool) (message : string) : option string := if bad then Some message else None.
(** Checks in order: the first error. *)
Definition all_rules (l : list (option string)) : option string := first_error (fun e => e) l.
Definition prefixed (prefix : string) (e : option string) : option string := (fun m => prefix +:+ m) <$> e.

Definition blank (s : string) : bool := String.eqb (Strings.TrimSpace s) "".
(** [strings.ContainsAny]. *)
Definition contains_any (set : list byte) (s : string) : bool := existsb (fun b => has_byte b set) (bytes_of_string s).
Definition line_breaks : list byte := [13; 10].
(** Space, slash, colon, at sign, question mark and line breaks. *)
Definition label_breakers : list byte := [32; 47; 58; 64; 63; 13; 10].

Definition KeychainReference_Validate (r : KeychainReference) (name : string) : option string :=
  rule (blank (Service r) || blank (Account r)) (name +:+ " requires service and account").
Definition credentialReferenceEmpty (r : KeychainReference) : bool := String.eqb (Service r) "" && String.eqb (Account r) "".

Fixpoint validate_references (seen refs : list KeychainReference) : option string :=
  match refs with
  | [] => None
  | r :: refs =>
      match KeychainReference_Validate r "upstream_keychains" with
      | Some e => Some e
      | None => if bool_decide (r ∈ seen) then Some "upstream_keychains must not contain duplicate references"
                else validate_references (r :: seen) refs
      end
  end.
Definition KeychainReferences (p : Profile) : string + list KeychainReference :=
  let legacy := negb (credentialReferenceEmpty (prof_Keychain p)) in
  if legacy && negb (bool_decide (prof_Keychains p = [])) then inl "use either upstream_keychain or upstream_keychains, not both"
  else
    let refs := if legacy then [prof_Keychain p] else prof_Keychains p in
    if bool_decide (refs = []) || (128 <? length refs)%nat then inl "provider must have between 1 and 128 upstream Keychain references"
    else match validate_references [] refs with Some e => inl e | None => inr refs end.
Definition ResolvedAPIKeys (p : Profile) : list string :=
  if negb (bool_decide (prof_APIKeys p = [])) then prof_APIKeys p
  else if negb (String.eqb (prof_APIKey p) "") then [prof_APIKey p] else [].

(** [filepath.IsAbs] on Unix. *)
Definition IsAbs (path : string) : bool := Strings.HasPrefix path "/".
Definition MaxEventBytes : Z := Z.shiftl 64 10.
Definition ContentConfig_Effective (c : ContentConfig) : ContentConfig :=
  c <| FileBytes := Upstream.or_default (FileBytes c) (Z.shiftl 8 20) |>
    <| DirectoryBytes := Upstream.or_default (DirectoryBytes c) (Z.shiftl 256 20) |>
    <| QueueEvents := Upstream.or_default (QueueEvents c) 256 |>.
Definition ContentConfig_Validate (c : ContentConfig) : option string :=
  if bool_decide (c = no_content) then None
  else
    let c := ContentConfig_Effective c in
    rule (negb (IsAbs (Directory c)) || (FileBytes c <? MaxEventBytes) || (DirectoryBytes c <? FileBytes c) || (QueueEvents c <? 1) ||
          (4096 <? QueueEvents c))
      "content_output requires an absolute directory, file_bytes >= 65536, directory_bytes >= file_bytes and queue_events in 1..4096".

Definition ReconciliationConfig_Validate (c : ReconciliationConfig) : option string :=
  all_rules [rule (negb (String.eqb (StatementDir c) "") && (negb (IsAbs (StatementDir c)) || blank (StatementDir c)))
               "reconciliation.statement_dir must be an absolute path";
             rule ((PollIntervalSeconds c <? 0) || (86400 <? PollIntervalSeconds c))
               "reconciliation.poll_interval_seconds must be 1..86400 or omitted"].

(** The canonical time; [None] is the error.  A time of five bytes that
    [time.Parse] accepts is formatted as it was. *)
Definition NormalizeReportScheduleTime (v : string) : option string :=
  let v := Strings.TrimSpace v in if Dates.is_clock v then Some v else None.
Definition ReportSchedule_Validate (s : ReportSchedule) : option string :=
  if bool_decide (s = no_schedule) then None
  else all_rules [rule (blank (schedule_Time s)) "report_schedule.time is required";
                  rule (negb (bool_decide (is_Some (NormalizeReportScheduleTime (schedule_Time s))))) "report notification time must use HH:MM";
                  rule (negb (String.eqb (schedule_Channel s) "") && negb (String.eqb (schedule_Channel s) "macos") &&
                        negb (String.eqb (schedule_Channel s) "webhook")) "report_schedule.channel must be macos or webhook"].
Definition HourMinute (s : ReportSchedule) : option (Z * Z) :=
  match bytes_of_string <$> NormalizeReportScheduleTime (schedule_Time s) with
  | Some [a; b; _; c; d] => Some (number [a; b], number [c; d])
  | _ => None
  end.
Definition EffectiveChannel (s : ReportSchedule) : string := if String.eqb (schedule_Channel s) "webhook" then "webhook" else "macos".

Definition ReportWebhookConfig_Validate (c : ReportWebhookConfig) : option string :=
  if bool_decide (c = no_webhook) then None
  else all_rules [rule (negb (member (webhook_Provider c) ["generic"; "telegram"; "discord"; "lark"]))
                    "report_webhook.provider must be generic, telegram, discord or lark";
                  KeychainReference_Validate (webhook_Keychain c) "report_webhook.keychain"].

Definition name_byte (b : Z) : bool :=
  Utf8.between 97 122 b || Utf8.between 65 90 b || Utf8.between 48 57 b || (b =? 46) || (b =? 95) || (b =? 45).
(** The code tests the runes; every byte of a rune above 127 fails the test as
    the rune does. *)
Definition validProviderName (name : string) : bool :=
  negb (String.eqb name "") && String.eqb name (Strings.TrimSpace name) && (Strings.len name <=? 80) && Strings.all name_byte name.

Fixpoint validate_models (name : string) (seen models : list string) : option string :=
  match models with
  | [] => None
  | m :: models =>
      if blank m || negb (String.eqb m (Strings.TrimSpace m))
      then Some ("providers." +:+ name +:+ ".supported_models must contain non-empty model IDs without surrounding whitespace")
      else if bool_decide (m ∈ seen) then Some ("providers." +:+ name +:+ ".supported_models must not contain duplicate model IDs")
      else validate_models name (m :: seen) models
  end.

Definition mapping_error_text (e : mapping_error) : string :=
  match e with
  | ErrUpstreamCode => "upstream_code must contain 1..128 ASCII letters, digits, '.', '_' , ':' or '-'"
  | ErrHTTPStatus => "http_status must be 400..599 when supplied"
  | ErrCategory => "category must be insufficient_balance, quota_exhausted, provider_access_denied, fair_use_throttled, rate_limited, authentication, permission_denied, policy_denied, invalid_request, model_not_found or temporarily_unavailable"
  | ErrTooManyMappings => "error_code_mappings may contain at most 256 entries"
  | ErrDuplicateMapping => "error_code_mappings must not contain duplicate upstream_code/http_status pairs"
  end.

Definition maxAutoChainEntries : nat := 64.
(** [strings.EqualFold] with a word whose letters have no other folding. *)
Definition fold_auto (model : string) : bool := String.eqb (Strings.ToLowerASCII model) "auto".
Fixpoint validate_chain (providers : gmap string Profile) (seen chain : list AutoChainEntry) : option string :=
  match chain with
  | [] => None
  | e :: chain =>
      match providers !! entry_provider e with
      | None => Some "auto_chain entries must reference configured named providers"
      | Some p =>
          let model := entry_model e in
          if blank model || negb (String.eqb model (Strings.TrimSpace model)) || fold_auto model || control_bytes model
          then Some "auto_chain entries require explicit non-empty model IDs other than auto"
          else if negb (bool_decide (SupportedModels (profile p) = [])) && negb (containsModel (SupportedModels (profile p)) model)
          then Some "auto_chain models must be allowed by their provider's supported_models"
          else if bool_decide (e ∈ seen) then Some "auto_chain must not contain duplicate provider/model entries"
          else validate_chain providers (e :: seen) chain
      end
  end.
Definition validateAutoChain (c : Config) : option string :=
  if (maxAutoChainEntries <? length (cfg_AutoChain c))%nat then Some "auto_chain may contain at most 64 provider/model entries"
  else validate_chain (Providers c) [] (cfg_AutoChain c).

Section rules.
Context (ToLower ToUpper : string -> string) (parse_url : string -> option URL).
Context {RangeProviders : MapRange string Profile} {RangePrices : MapRange string Price}.
Context {RangeAliases : MapRange string string} {RangeThresholds : MapRange string Z}.

Definition validateBaseURL (v name : string) : option string :=
  let root := name +:+ " must be an API root without credentials, query or fragment" in
  match parse_url v with
  | None => Some root
  | Some u =>
      all_rules [rule (String.eqb (Host u) "" || User u || negb (String.eqb (RawQuery u) "") || negb (String.eqb (Fragment u) "") ||
                       negb (String.eqb (Opaque u) "")) root;
                 rule (negb (String.eqb (Scheme u) "https") &&
                       (negb (String.eqb (Scheme u) "http") || negb (default false (Net.IsLoopback <$> Net.ParseIP (Hostname u)))))
                   (name +:+ " requires HTTPS, except loopback HTTP")]
  end.

Definition validatePrices (prices : gmap string Price) : option string :=
  first_error (fun kv => if blank kv.1 then Some "empty pricing model" else Pricing.Validate ToUpper kv.2) (range prices).

Definition known_protocol (protocol : string) : bool := member protocol [""; "auto"; "openai"; "anthropic"].

(** The body of the loop over the providers. *)
Definition validate_provider (name : string) (p : Profile) : option string :=
  let protocol := normalizeProviderProtocol ToLower (prof_Protocol p) in
  all_rules
    [rule (negb (validProviderName name))
       "provider names must be short non-secret labels using letters, numbers, dots, underscores or hyphens";
     rule ((MaxActiveSessions (profile p) <? 0) || (4096 <? MaxActiveSessions (profile p)))
       ("providers." +:+ name +:+ ".max_active_sessions must be 0..4096");
     rule (negb (known_protocol protocol)) ("providers." +:+ name +:+ ".protocol must be auto, openai or anthropic");
     validateBaseURL (BaseURL (profile p)) ("providers." +:+ name +:+ ".base_url");
     prefixed ("providers." +:+ name +:+ ".") (match KeychainReferences p with inl e => Some e | inr _ => None end);
     validate_models name [] (SupportedModels (profile p));
     prefixed ("providers." +:+ name +:+ ".model_aliases: ") (validateModelAliases (profile p));
     rule (String.eqb protocol "openai" && negb (String.eqb (prof_APIVersion p) ""))
       "anthropic_version is valid only for the anthropic endpoint";
     rule ((String.eqb protocol "anthropic" || String.eqb protocol "auto") && negb (String.eqb (prof_APIVersion p) "") &&
           negb (Dates.is_date (prof_APIVersion p))) ("providers." +:+ name +:+ ".anthropic_version must be YYYY-MM-DD");
     validateSwitchThresholds (profile p);
     ModelCapabilities_Validate (prof_Capabilities p);
     prefixed ("providers." +:+ name +:+ ".error_code_mappings: ") (mapping_error_text <$> ValidateProviderErrorMappings (ErrorCodeMappings p));
     validatePrices (Prices (profile p));
     match ProviderBudget (profile p) with
     | Some b => if Budget.zero_policy b then None
                 else prefixed ("providers." +:+ name +:+ ".budget: ") (Budget.BudgetPolicy_Validate ToUpper b)
     | None => None
     end].

(** The fields of a configuration without named providers. *)
Definition legacy_fields (c : Config) : bool :=
  negb (String.eqb (cfg_Protocol c) "") || negb (String.eqb (cfg_APIVersion c) "") || negb (String.eqb (cfg_Model c) "") ||
  negb (String.eqb (cfg_UpstreamID c) "") || negb (bool_decide (cfg_Capabilities c = no_capabilities)) ||
  negb (bool_decide (size (cfg_Prices c) = 0%nat)) || negb (String.eqb (cfg_APIKey c) "").

Definition validate_legacy (c : Config) : option string :=
  let protocol := normalizeProviderProtocol ToLower (cfg_Protocol c) in
  if String.eqb (cfg_BaseURL c) ""
  then rule (legacy_fields c || negb (credentialReferenceEmpty (cfg_Keychain c))) "incomplete legacy provider configuration"
  else all_rules
    [validateBaseURL (cfg_BaseURL c) "base_url";
     rule (negb (known_protocol protocol)) "protocol must be auto, openai or anthropic";
     KeychainReference_Validate (cfg_Keychain c) "upstream_keychain";
     rule (String.eqb protocol "anthropic" && negb (Dates.is_date (cfg_APIVersion c))) "anthropic_version must be YYYY-MM-DD";
     rule (blank (cfg_UpstreamID c)) "upstream_id is required"].

Definition validate_providers (c : Config) : option string :=
  all_rules
    [rule (negb (String.eqb (cfg_BaseURL c) "") || legacy_fields c || negb (bool_decide (cfg_Keychain c = no_reference)))
       "use either legacy single-provider fields or providers, not both";
     rule (128 <? size (Providers c))%nat "providers may contain at most 128 named entries";
     first_error (fun kv => validate_provider kv.1 kv.2) (range (Providers c))].

Definition bad_label (id : string) : bool := (80 <? Strings.len id) || contains_any label_breakers id.

Definition validate_listen (addr : string) : option string :=
  match Net.SplitHostPort addr with
  | Some (host, port) =>
      match Net.ParseIP host with
      | Some ip => if String.eqb port "" then Some "listen_addr must use an IP address and port"
                   else rule (negb (Net.IsLoopback ip) && negb (String.eqb host "0.0.0.0")) "listen_addr must use a loopback IP or 0.0.0.0"
      | None => Some "listen_addr must use an IP address and port"
      end
  | None => Some "listen_addr must use an IP address and port"
  end.

Definition Config_Validate (c : Config) : option string :=
  let named := negb (bool_decide (size (Providers c) = 0%nat)) in
  all_rules
    [ContentConfig_Validate (ContentOutput c);
     rule (named && bool_decide (is_Some (cfg_ForwardErrorMessages c))) "forward_error_messages belongs inside each named provider";
     ReconciliationConfig_Validate (Reconciliation c);
     ReportSchedule_Validate (Schedule c);
     ReportWebhookConfig_Validate (ReportWebhook c);
     match cfg_Routing c with Some r => RoutingConfig_Validate r | None => None end;
     rule (String.eqb (schedule_Channel (Schedule c)) "webhook" && bool_decide (ReportWebhook c = no_webhook))
       "webhook report schedule requires report_webhook configuration";
     Upstream.Limits_Validate (cfg_Limits c);
     validate_listen (ListenAddr c);
     ModelCapabilities_Validate (cfg_Capabilities c);
     (if named then validate_providers c else validate_legacy c);
     rule (negb named && bad_label (cfg_UpstreamID c)) "upstream_id must be a short non-secret label";
     first_error (fun kv => rule (bad_label (prof_UpstreamID kv.2))
                              ("providers." +:+ kv.1 +:+ ".upstream_id must be a short non-secret label")) (range (Providers c));
     rule ((MaxInFlight c <? 0) || (1024 <? MaxInFlight c)) "max_in_flight must be 0..1024; zero disables the limit";
     rule ((IdleTimeoutSeconds c <? 0) || (86400 <? IdleTimeoutSeconds c))
       "active_session_idle_timeout_seconds must be 0..86400; zero uses the five-minute default";
     rule (blank (LedgerPath c)) "ledger_path is required";
     KeychainReference_Validate (AccessTokenKeychain c) "access_token_keychain";
     (if named then None else validatePrices (cfg_Prices c));
     validateAutoChain c].
End rules.

(** ** Credentials *)

Section credentials.
Context (ToLower ToUpper : string -> string) (parse_url : string -> option URL).
Context {RangeProviders : MapRange string Profile} {RangePrices : MapRange string Price}.
Context {RangeAliases : MapRange string string} {RangeThresholds : MapRange string Z}.
(** The lookup in the key chain; [None] is an error. *)
Context (lookup_key : KeychainReference -> option string).

Definition bad_credential (k : string) : bool := blank k || contains_any line_breaks k.

(** One provider of the loop: its keys are resolved in the order of their
    references. *)
Definition resolve_provider (name : string) (p : Profile) : string + Profile :=
  match KeychainReferences p with
  | inl e => inl ("providers." +:+ name +:+ "." +:+ e)
  | inr refs =>
      match mapM lookup_key refs with
      | Some keys => inr (p <| prof_APIKeys := keys |> <| prof_APIKey := default "" (head keys) |>)
      | None => inl "upstream Keychain item unavailable"
      end
  end.
Fixpoint resolve_all (l : list (string * Profile)) (providers : gmap string Profile) (keys : list string) :
    string + gmap string Profile * list string :=
  match l with
  | [] => inr (providers, keys)
  | (name, p) :: l =>
      match resolve_provider name p with
      | inl e => inl e
      | inr p => resolve_all l (<[name := p]> providers) (keys ++ prof_APIKeys p)
      end
  end.

Definition check_keys (token : string) (keys : list string) : option string :=
  first_error (fun k => all_rules [rule (bad_credential k) "invalid Keychain credential";
                                   rule (String.eqb k token) "use separate upstream and gateway credentials"]) keys.
Definition check_groups (providers : gmap string Profile) : option string :=
  first_error (fun kv : string * Profile => rule (negb (bool_decide (NoDup (prof_APIKeys kv.2)))) "provider API keys must be unique within a key group")
    (range providers).

(** The configuration with its credentials, or the error. *)
Definition ResolveCredentials (c : Config) : string + Config :=
  match Config_Validate ToLower ToUpper parse_url c with
  | Some e => inl e
  | None =>
      match lookup_key (AccessTokenKeychain c) with
      | None => inl "gateway Keychain item unavailable"
      | Some token =>
          let c := c <| cfg_AccessToken := token |> in
          let resolved :=
            if bool_decide (size (Providers c) = 0%nat) then
              if String.eqb (cfg_BaseURL c) "" then inr (c, [])
              else match lookup_key (cfg_Keychain c) with
                   | Some key => inr (c <| cfg_APIKey := key |>, [key])
                   | None => inl "upstream Keychain item unavailable"
                   end
            else match resolve_all (range (Providers c)) (Providers c) [] with
                 | inl e => inl e
                 | inr (providers, keys) => inr (c <| Providers := providers |>, keys)
                 end in
          match resolved with
          | inl e => inl e
          | inr (c, keys) =>
              match all_rules [rule (bad_credential token) "invalid Keychain credential"; check_keys token keys; check_groups (Providers c)] with
              | Some e => inl e
              | None => inr c
              end
          end
      end
  end.
End credentials.

(** * The text of a configuration *)

From Stdlib Require Import SpecFloat.
From S2P Require Import Prelude GoStrings GoFloat Json NetText Diagnostics Errors Pricing Routes View Catalog.
From S2P Require Upstream Budget.

Definition strict_struct {R} (fields : list (field R)) : decoder R := dec_struct_mode true fields.

(** [map[string]T]: a fresh element under each key; [null] is the nil map. *)
Definition dec_map_of {A} (zero : A) (d : decoder A) : decoder (gmap string A) := fun j cur =>
  match j with
  | JNull => Some ∅
  | JObj _ members => foldl (fun acc kv => m ← acc; a ← d kv.2 zero; Some (<[kv.1 := a]> m)) (Some cur) members
  | _ => None
  end.

Definition dec_reference : decoder KeychainReference :=
  strict_struct [field_of "service" dec_string Service (fun x k => k <| Service := x |>);
                 field_of "account" dec_string Account (fun x k => k <| Account := x |>)].
Definition dec_capabilities : decoder ModelCapabilities :=
  strict_struct [field_of "context_tokens" dec_int64 cap_ContextTokens (fun x c => c <| cap_ContextTokens := x |>);
                 field_of "max_output_tokens" dec_int64 cap_MaxOutputTokens (fun x c => c <| cap_MaxOutputTokens := x |>)].

#[export] Instance ProviderErrorMapping_eta : Eta ProviderErrorMapping := fun m =>
  {| UpstreamCode := UpstreamCode m; MappedStatus := MappedStatus m; MappedCategory := MappedCategory m |}.
Definition no_mapping : ProviderErrorMapping := {| UpstreamCode := ""; MappedStatus := 0; MappedCategory := "" |}.
Definition dec_mapping : decoder ProviderErrorMapping :=
  strict_struct [field_of "upstream_code" dec_string UpstreamCode (fun x m => m <| UpstreamCode := x |>);
                 field_of "http_status" dec_int64 MappedStatus (fun x m => m <| MappedStatus := x |>);
                 field_of "category" dec_string MappedCategory (fun x m => m <| MappedCategory := x |>)].

#[export] Instance Price_eta : Eta Price := fun p =>
  {| Currency := Currency p; Source := Source p; Version := Version p; InputCacheHit := InputCacheHit p;
     InputCacheMiss := InputCacheMiss p; OutputPrice := OutputPrice p |}.
Definition dec_pfloat : decoder (option spec_float) := dec_ptr Float.zero dec_float64.
Definition dec_Price : decoder Price :=
  strict_struct [field_of "currency" dec_string Currency (fun x p => p <| Currency := x |>);
                 field_of "source" dec_string Source (fun x p => p <| Source := x |>);
                 field_of "version" dec_string Version (fun x p => p <| Version := x |>);
                 field_of "input_cache_hit_per_million" dec_pfloat InputCacheHit (fun x p => p <| InputCacheHit := x |>);
                 field_of "input_cache_miss_per_million" dec_pfloat InputCacheMiss (fun x p => p <| InputCacheMiss := x |>);
                 field_of "output_per_million" dec_pfloat OutputPrice (fun x p => p <| OutputPrice := x |>)].

#[export] Instance BudgetPolicy_eta : Eta Budget.BudgetPolicy := fun b =>
  {| Budget.Currency := Budget.Currency b; Budget.FiveHourLimit := Budget.FiveHourLimit b; Budget.WeeklyLimit := Budget.WeeklyLimit b;
     Budget.AlertThreshold := Budget.AlertThreshold b; Budget.Mode := Budget.Mode b |}.
Definition no_budget : Budget.BudgetPolicy :=
  {| Budget.Currency := ""; Budget.FiveHourLimit := Float.zero; Budget.WeeklyLimit := Float.zero;
     Budget.AlertThreshold := Float.zero; Budget.Mode := "" |}.
Definition dec_BudgetPolicy : decoder Budget.BudgetPolicy :=
  strict_struct [field_of "currency" dec_string Budget.Currency (fun x b => b <| Budget.Currency := x |>);
                 field_of "five_hour_limit" dec_float64 Budget.FiveHourLimit (fun x b => b <| Budget.FiveHourLimit := x |>);
                 field_of "weekly_limit" dec_float64 Budget.WeeklyLimit (fun x b => b <| Budget.WeeklyLimit := x |>);
                 field_of "alert_threshold" dec_float64 Budget.AlertThreshold (fun x b => b <| Budget.AlertThreshold := x |>);
                 field_of "mode" dec_string Budget.Mode (fun x b => b <| Budget.Mode := x |>)].

#[export] Instance Limits_eta : Eta Upstream.Limits := fun l =>
  {| Upstream.UpstreamTimeoutSeconds := Upstream.UpstreamTimeoutSeconds l; Upstream.RequestBytes := Upstream.RequestBytes l;
     Upstream.ResponseBytes := Upstream.ResponseBytes l; Upstream.StreamBytes := Upstream.StreamBytes l;
     Upstream.EventBytes := Upstream.EventBytes l |}.
Definition dec_Limits : decoder Upstream.Limits :=
  strict_struct [field_of "upstream_timeout_seconds" dec_int64 Upstream.UpstreamTimeoutSeconds (fun x l => l <| Upstream.UpstreamTimeoutSeconds := x |>);
                 field_of "request_bytes" dec_int64 Upstream.RequestBytes (fun x l => l <| Upstream.RequestBytes := x |>);
                 field_of "response_bytes" dec_int64 Upstream.ResponseBytes (fun x l => l <| Upstream.ResponseBytes := x |>);
                 field_of "stream_bytes" dec_int64 Upstream.StreamBytes (fun x l => l <| Upstream.StreamBytes := x |>);
                 field_of "event_bytes" dec_int64 Upstream.EventBytes (fun x l => l <| Upstream.EventBytes := x |>)].

Definition dec_content : decoder ContentConfig :=
  strict_struct [field_of "enabled" dec_bool Enabled (fun x c => c <| Enabled := x |>);
                 field_of "directory" dec_string Directory (fun x c => c <| Directory := x |>);
                 field_of "file_bytes" dec_int64 FileBytes (fun x c => c <| FileBytes := x |>);
                 field_of "directory_bytes" dec_int64 DirectoryBytes (fun x c => c <| DirectoryBytes := x |>);
                 field_of "queue_events" dec_int64 QueueEvents (fun x c => c <| QueueEvents := x |>)].
Definition dec_reconciliation : decoder ReconciliationConfig :=
  strict_struct [field_of "statement_dir" dec_string StatementDir (fun x c => c <| StatementDir := x |>);
                 field_of "poll_interval_seconds" dec_int64 PollIntervalSeconds (fun x c => c <| PollIntervalSeconds := x |>)].
Definition dec_schedule : decoder ReportSchedule :=
  strict_struct [field_of "time" dec_string schedule_Time (fun x c => c <| schedule_Time := x |>);
                 field_of "channel" dec_string schedule_Channel (fun x c => c <| schedule_Channel := x |>)].
Definition dec_webhook : decoder ReportWebhookConfig :=
  strict_struct [field_of "provider" dec_string webhook_Provider (fun x c => c <| webhook_Provider := x |>);
                 field_of "keychain" dec_reference webhook_Keychain (fun x c => c <| webhook_Keychain := x |>)].

#[export] Instance RoutingConfig_eta : Eta RoutingConfig := fun r =>
  {| SharedModelStrategy := SharedModelStrategy r; RoutingSwitchThreshold := RoutingSwitchThreshold r |}.
Definition no_routing : RoutingConfig := {| SharedModelStrategy := ""; RoutingSwitchThreshold := None |}.
Definition dec_pint : decoder (option Z) := dec_ptr 0 dec_int64.
Definition dec_optional_bool : decoder (option bool) := dec_ptr false dec_bool.
Definition dec_routing : decoder RoutingConfig :=
  strict_struct [field_of "shared_model_strategy" dec_string SharedModelStrategy (fun x r => r <| SharedModelStrategy := x |>);
                 field_of "provider_switch_threshold" dec_pint RoutingSwitchThreshold (fun x r => r <| RoutingSwitchThreshold := x |>)].

#[export] Instance AutoChainEntry_eta : Eta AutoChainEntry := fun e =>
  {| entry_provider := entry_provider e; entry_model := entry_model e |}.
Definition dec_entry : decoder AutoChainEntry :=
  strict_struct [field_of "provider" dec_string entry_provider (fun x e => e <| entry_provider := x |>);
                 field_of "model" dec_string entry_model (fun x e => e <| entry_model := x |>)].

(** A field of a [Profile] that routing reads. *)
Definition routing_field {A} (name : string) (d : decoder A) (get : Provider -> A) (set : A -> Provider -> Provider) : field Profile :=
  field_of name d (fun p => get (profile p)) (fun x p => p <| profile := set x (profile p) |>).
Definition dec_Profile : decoder Profile :=
  strict_struct
    [field_of "protocol" dec_string prof_Protocol (fun x p => p <| prof_Protocol := x |>);
     routing_field "base_url" dec_string BaseURL (fun x p => p <| BaseURL := x |>);
     field_of "upstream_keychain" dec_reference prof_Keychain (fun x p => p <| prof_Keychain := x |>);
     field_of "upstream_keychains" (dec_slice no_reference dec_reference) prof_Keychains (fun x p => p <| prof_Keychains := x |>);
     field_of "anthropic_version" dec_string prof_APIVersion (fun x p => p <| prof_APIVersion := x |>);
     routing_field "supported_models" (dec_slice "" dec_string) SupportedModels (fun x p => p <| SupportedModels := x |>);
     routing_field "model_aliases" (dec_map_of "" dec_string) ModelAliases (fun x p => p <| ModelAliases := x |>);
     field_of "upstream_id" dec_string prof_UpstreamID (fun x p => p <| prof_UpstreamID := x |>);
     field_of "model_capabilities" dec_capabilities prof_Capabilities (fun x p => p <| prof_Capabilities := x |>);
     field_of "error_code_mappings" (dec_slice no_mapping dec_mapping) ErrorCodeMappings (fun x p => p <| ErrorCodeMappings := x |>);
     routing_field "provider_switch_threshold" dec_pint ProviderSwitchThreshold (fun x p => p <| ProviderSwitchThreshold := x |>);
     routing_field "model_switch_thresholds" (dec_map_of 0 dec_int64) ModelSwitchThresholds (fun x p => p <| ModelSwitchThresholds := x |>);
     field_of "forward_error_messages" dec_optional_bool prof_ForwardErrorMessages (fun x p => p <| prof_ForwardErrorMessages := x |>);
     routing_field "prices" (dec_map_of no_price dec_Price) Prices (fun x p => p <| Prices := x |>);
     routing_field "budget" (dec_ptr no_budget dec_BudgetPolicy) ProviderBudget (fun x p => p <| ProviderBudget := x |>);
     routing_field "max_active_sessions" dec_int64 MaxActiveSessions (fun x p => p <| MaxActiveSessions := x |>)].

Definition dec_Config : decoder Config :=
  strict_struct
    [field_of "content_output" dec_content ContentOutput (fun x c => c <| ContentOutput := x |>);
     field_of "health_diagnostics" dec_optional_bool cfg_HealthDiagnostics (fun x c => c <| cfg_HealthDiagnostics := x |>);
     field_of "reconciliation" dec_reconciliation Reconciliation (fun x c => c <| Reconciliation := x |>);
     field_of "report_schedule" dec_schedule Schedule (fun x c => c <| Schedule := x |>);
     field_of "report_webhook" dec_webhook ReportWebhook (fun x c => c <| ReportWebhook := x |>);
     field_of "model_capabilities" dec_capabilities cfg_Capabilities (fun x c => c <| cfg_Capabilities := x |>);
     field_of "limits" dec_Limits cfg_Limits (fun x c => c <| cfg_Limits := x |>);
     field_of "listen_addr" dec_string ListenAddr (fun x c => c <| ListenAddr := x |>);
     field_of "protocol" dec_string cfg_Protocol (fun x c => c <| cfg_Protocol := x |>);
     field_of "base_url" dec_string cfg_BaseURL (fun x c => c <| cfg_BaseURL := x |>);
     field_of "forward_error_messages" dec_optional_bool cfg_ForwardErrorMessages (fun x c => c <| cfg_ForwardErrorMessages := x |>);
     field_of "providers" (dec_map_of no_Profile dec_Profile) Providers (fun x c => c <| Providers := x |>);
     field_of "routing" (dec_ptr no_routing dec_routing) cfg_Routing (fun x c => c <| cfg_Routing := x |>);
     field_of "auto_chain" (dec_slice (ChainEntry "" "") dec_entry) cfg_AutoChain (fun x c => c <| cfg_AutoChain := x |>);
     field_of "model" dec_string cfg_Model (fun x c => c <| cfg_Model := x |>);
     field_of "upstream_id" dec_string cfg_UpstreamID (fun x c => c <| cfg_UpstreamID := x |>);
     field_of "anthropic_version" dec_string cfg_APIVersion (fun x c => c <| cfg_APIVersion := x |>);
     field_of "upstream_keychain" dec_reference cfg_Keychain (fun x c => c <| cfg_Keychain := x |>);
     field_of "access_token_keychain" dec_reference AccessTokenKeychain (fun x c => c <| AccessTokenKeychain := x |>);
     field_of "max_in_flight" dec_int64 MaxInFlight (fun x c => c <| MaxInFlight := x |>);
     field_of "active_session_idle_timeout_seconds" dec_int64 IdleTimeoutSeconds (fun x c => c <| IdleTimeoutSeconds := x |>);
     field_of "ledger_path" dec_string LedgerPath (fun x c => c <| LedgerPath := x |>);
     field_of "prices" (dec_map_of no_price dec_Price) cfg_Prices (fun x c => c <| cfg_Prices := x |>)].

(** A budget that only has zero values counts as none. *)
Definition drop_zero_budget (p : Profile) : Profile :=
  match ProviderBudget (profile p) with
  | Some b => if Budget.zero_policy b then p <| profile := (profile p) <| ProviderBudget := None |> |> else p
  | None => p
  end.

Definition obsolete_field : string := "max_active_sessions".
Definition decodeConfig (ToLower : string -> string) (data : string) : string + Config :=
  match StrictMap ToLower data ≫= lookup obsolete_field with
  | Some _ => inl "top-level max_active_sessions was removed; remove the field, including a zero value, and use providers.<ref>.max_active_sessions via tidemux provider update REF --max-active-sessions N"
  | None =>
      match LenientText ToLower dec_Config no_Config data with
      | None => inl "invalid config: use the current example; plaintext and legacy fields are not supported"
      | Some c => inr (c <| Providers := drop_zero_budget <$> Providers c |>)
      end
  end.
