(* ===== verification/Routing.v ===== *)
(** * Routing decisions

    Which provider serves a request: the waits of a route
    (internal/gateway/retry_guidance.go), the switch or hold decision of
    cooldown_switch.go, the order of the providers of a shared model and the
    resolution of a model identifier (routing.go), and the availability checks
    they use (availability.go, routing_reload.go).

    A resolution reads the clock several times; here it runs at one instant.
    The sweep of the health table that [available] performs on the way and the
    pruning of telemetry by [diagnosticStatus] are not threaded through: the
    next [begin] sweeps again, and routing does not read the telemetry. *)

From S2P Require Import Prelude GoStrings GoFloat Diagnostics Errors Availability KeyPool Pricing Routes.
From Stdlib Require Import SpecFloat.
From S2P Require AutoChain Affinity.
From S2P Require Import View.

#[local] Existing Instances Affinity.sharedModelRoute_eq_dec Affinity.sharedModelRoute_countable.

(** The mutable state that routing reads and writes. *)
Record runtime := {
  availability : availabilityState;
  keyPools : gmap string providerKeyPool;
  retryStates : gmap server_ptr providerRetryState;
  autoChain : AutoChain.autoChainState;
  sharedAffinity : Affinity.sharedModelAffinity;
}.

#[export] Instance runtime_eta : Eta runtime := fun r =>
  {| availability := availability r; keyPools := keyPools r; retryStates := retryStates r; autoChain := autoChain r;
     sharedAffinity := sharedAffinity r |}.

(** [pool.providerRetry], followed. *)
Definition retry_state (rt : runtime) (p : providerKeyPool) : providerRetryState :=
  default new_providerRetryState (retryStates rt !! providerRetry p).

(** ** Waits *)

Record routeWait := {
  blocked : bool;
  unknown_wait : bool;
  wait_retryAt : time;
  temporary : bool;
  terminal : bool;
  wait_terminalCategory : string;
}.

#[export] Instance routeWait_eta : Eta routeWait := fun w =>
  {| blocked := blocked w; unknown_wait := unknown_wait w; wait_retryAt := wait_retryAt w; temporary := temporary w;
     terminal := terminal w; wait_terminalCategory := wait_terminalCategory w |}.

Definition no_wait : routeWait :=
  {| blocked := false; unknown_wait := false; wait_retryAt := Time.zero; temporary := false; terminal := false;
     wait_terminalCategory := "" |}.

(** [routeWait.add]. *)
Definition add_wait (w : routeWait) (until : time) (unknown : bool) : routeWait :=
  let w := w <| blocked := true |> <| unknown_wait := unknown_wait w || unknown |> in
  if Time.after until (wait_retryAt w) then w <| wait_retryAt := until |> else w.

Definition terminal_reasons : list string :=
  [ProviderErrorQuotaExhausted; ProviderErrorAccessDenied; ProviderErrorFairUseThrottled].

(** The wait of one target of the health table. *)
Definition add_health (rt : runtime) (now : time) (t : availabilityTarget) (w : routeWait) : routeWait :=
  match entry_at (availability rt) t with
  | None => w
  | Some e =>
      if eligible (Some e) now then w
      else
        let w := add_wait w (retryAt e) (probing e) in
        if member (reason e) terminal_reasons
        then w <| terminal := true |> <| wait_terminalCategory := reason e |> else w
  end.

(** The earliest cooldown of the keys of a pool. *)
Definition earliest_key (ks : list KeyStatus) : time := foldl (fun e k => earlier e (KeyCooldownUntil k)) Time.zero ks.

Definition add_pool (now : time) (pool : KeyPoolStatus) (w : routeWait) : routeWait :=
  let w := if RecoveryInProgress pool then add_wait w Time.zero true else w in
  let w := if Time.after (RateLimitRetryAt pool) now then add_wait w (RateLimitRetryAt pool) false else w in
  let w := if Time.after (ProviderRetryAt pool) now then add_wait w (ProviderRetryAt pool) false else w in
  if (0 <? Capacity pool)%nat && (Eligible pool =? 0)%nat
  then add_wait w (earliest_key (Keys pool)) (Time.is_zero (earliest_key (Keys pool))) else w.

Definition route_upstream (h : handler) (r : routeStep) : string := UpstreamModel (provider h (route_provider r)) (route_model r).

(** The two targets of a route in the health table. *)
Definition route_target (h : handler) (r : routeStep) (m : string) : availabilityTarget :=
  Target (route_provider r) m (generation h (route_provider r)).

Definition pool_status (rt : runtime) (now : time) (name : string) : option KeyPoolStatus :=
  (fun p => (diagnosticStatus p (retry_state rt p) now).2) <$> keyPools rt !! name.

Definition routeWaitLocked (h : handler) (rt : runtime) (r : routeStep) (now : time) : routeWait :=
  if negb (has_client h (route_provider r)) || unavailable h (route_provider r) then add_wait no_wait Time.zero true
  else
    let w := add_health rt now (route_target h r "") no_wait in
    let w := add_health rt now (route_target h r (route_upstream h r)) w in
    let w := match pool_status rt now (route_provider r) with Some s => add_pool now s w | None => w end in
    w <| temporary := blocked w |>.

(** ** Availability checks *)

Definition providerRouteAvailable (h : handler) (rt : runtime) (name : string) (now : time) : bool :=
  if unavailable h name || negb (has_client h name) then false
  else match keyPools rt !! name with
  | None => true
  | Some p => CooldownWaitAt p (retry_state rt p) now =? 0
  end.

Definition modelRouteAvailable (h : handler) (rt : runtime) (name model : string) (now : time) : bool :=
  providerRouteAvailable h rt name now &&
  (available (availability rt) (routingEpoch h) name (UpstreamModel (provider h name) model) (generation h name) now).2.

Definition reusableRandomCandidates (h : handler) (rt : runtime) (now : time) (candidates : list string) : list string :=
  let reusable := List.filter (fun name => default false (reusedConnections h !! name) && providerRouteAvailable h rt name now)
                    candidates in
  match reusable with [] => candidates | _ => reusable end.

(** ** Hold or switch *)

(** Milliseconds left, rounded up, at least one. *)
Definition remaining_ms (until now : time) : Z :=
  let remaining := Time.unix_milli until - Time.unix_milli now in
  let remaining := if Time.nanosecond now mod Millisecond <? Time.nanosecond until mod Millisecond
                   then remaining + 1 else remaining in
  if remaining <? 1 then 1 else remaining.

Definition wait_decision (r : routeStep) (threshold : Z) (w : routeWait) (now : time) : RoutingDecision :=
  let d := {| FromProvider := route_provider r; ToProvider := route_provider r; Model := route_model r; ToModel := "";
              Action := "retain"; Reason := "within_threshold"; ThresholdMS := threshold * 1000; RemainingMS := None;
              DecisionCooldownUntilMS := 0; WaitUnknown := unknown_wait w |} in
  if Time.after (wait_retryAt w) now
  then d <| RemainingMS := Some (remaining_ms (wait_retryAt w) now) |>
         <| DecisionCooldownUntilMS := Time.unix_milli (wait_retryAt w) |>
  else d.

(** Another provider that could serve the request now. *)
Definition alternative_ready (h : handler) (rt : runtime) (r : routeStep) (now : time) (a : routeStep) : bool :=
  negb (String.eqb (route_provider a) (route_provider r)) && negb (blocked (routeWaitLocked h rt a now)).

Definition long_wait (w : routeWait) (threshold : Z) (now : time) : bool :=
  Time.after (wait_retryAt w) (Time.add now (wrap64 (threshold * Second))).

Definition cooldownChoiceLocked (h : handler) (rt : runtime) (r : routeStep) (alternatives : list routeStep) (now : time)
    : option RoutingDecision * bool :=
  if negb (providerBindingPresent h (route_provider r)) then (None, false)
  else
    let w := routeWaitLocked h rt r now in
    if negb (blocked w) then (None, false)
    else
      let threshold := switchThreshold h (route_provider r) (route_model r) in
      let d := wait_decision r threshold w now in
      let long := long_wait w threshold now in
      if unknown_wait w && negb long && negb (threshold =? 0) then (Some (d <| Reason := "unknown_wait" |>), true)
      else if negb long && negb (unknown_wait w && (threshold =? 0)) then (Some d, true)
      else if existsb (alternative_ready h rt r now) alternatives then
        (Some (d <| Action := "switch" |>
                 <| Reason := if unknown_wait w && negb long then "affinity_disabled" else "exceeds_threshold" |>), false)
      else if threshold =? 0 then (None, false)
      else (Some (d <| Reason := "no_eligible_alternative" |>), true).

Definition cooldownChoice (h : handler) (rt : runtime) (r : routeStep) (alternatives : list routeStep) (now : time)
    : option RoutingDecision * bool :=
  if negb (epoch (availability rt) =? routingEpoch h) then (None, false)
  else cooldownChoiceLocked h rt r alternatives now.

Definition retainedRoute (h : handler) (rt : runtime) (r : routeStep) (alternatives : list routeStep) (now : time)
    : routeStep * bool :=
  let '(d, retain) := cooldownChoice h rt r alternatives now in
  let r := r <| route_decision := d |> in
  (if retain then r <| route_holdAffinity := true |> else r, retain).

(** ** Order of the providers of a shared model *)

Inductive order_error := errRoutingPriceUnavailable | errSharedModelStrategyDisabled.

Record pricedProvider := Priced { priced_name : string; cost : spec_float }.

(** The order of [sort.Slice]: by cost, then by name. *)
Definition priced_before (a b : pricedProvider) : bool :=
  if Float.eq (cost a) (cost b) then String.ltb (priced_name a) (priced_name b) else Float.lt (cost a) (cost b).
Definition priced_le (a b : pricedProvider) : Prop := priced_before b a = false.

#[export] Instance priced_le_dec : RelDecision priced_le.
Proof. intros a b. unfold priced_le. apply _. Defined.

Section with_pricing.
Context (ToUpper ToLower : string -> string) (hostname : string -> option string).

(** The price of a provider for the upstream model. *)
Definition price_of (h : handler) (name upstreamModel : string) : option Price :=
  match Prices (provider h name) !! upstreamModel with
  | Some p => Some p
  | None => BuiltInPrice ToLower hostname (BaseURL (provider h name)) upstreamModel
  end.

(** The cost by which a provider is ordered, with the currency of its price. *)
Definition provider_cost (h : handler) (model name : string) : option (string * spec_float) :=
  match price_of h name (UpstreamModel (provider h name) model) with
  | None => None
  | Some p =>
      match Validate ToUpper p, InputCacheHit p, InputCacheMiss p, OutputPrice p with
      | None, Some hit, Some miss, Some out =>
          let cost := Float.add (Float.add hit miss) out in
          if Float.is_inf cost || Float.is_nan cost then None else Some (Currency p, cost)
      | _, _, _, _ => None
      end
  end.

(** The loop that collects the costs; one currency for all. *)
Fixpoint price_all (h : handler) (model : string) (names : list string) (currency : string)
    : option (list pricedProvider) :=
  match names with
  | [] => Some []
  | name :: names =>
      match provider_cost h model name with
      | None => None
      | Some (c, cost) =>
          if String.eqb currency "" || String.eqb currency c
          then (fun l => Priced name cost :: l) <$> price_all h model names (if String.eqb currency "" then c else currency)
          else None
      end
  end.

Definition in_bounds (index size : Z) : Z := if (index <? 0) || (size <=? index) then 0 else index.

Definition orderSharedModelProviders (choose : Z -> Z) (h : handler) (model : string) (names : list string)
    : order_error + list string :=
  let ordered := Sort.Strings names in
  if String.eqb (strategy h) "random" then
    let start := Z.to_nat (in_bounds (choose (Z.of_nat (length ordered))) (Z.of_nat (length ordered))) in
    inr (drop start ordered ++ take start ordered)
  else if String.eqb (strategy h) "price_priority" then
    match price_all h model ordered "" with
    | None => inl errRoutingPriceUnavailable
    | Some priced => inr (priced_name <$> merge_sort priced_le priced)
    end
  else inl errSharedModelStrategyDisabled.
End with_pricing.

(** ** Resolution of a model identifier *)

(** [([]routeStep, code, status)]. *)
Record resolution := Resolution {
  routes : list routeStep;
  error_code : string;
  error_status : Z;
}.

Definition route_to (r : routeStep) : resolution := Resolution [r] "" 0.
Definition reject (code : string) (status : Z) : resolution := Resolution [] code status.

Section resolve.
Context (ToUpper ToLower : string -> string) (hostname : string -> option string) (Sum256 : string -> string).
Context (HasAnthropicServerTools : string -> bool).
Context (PrepareRequest : string -> string -> string -> string -> Z -> bool).
(** [h.chooseRandomProvider]. *)
Context (choose : Z -> Z).
Context (h : handler) (now : time).

Definition dynamic_route (name model : string) : routeStep := (new_routeStep name model) <| route_dynamic := true |>.

(** [decision] after another provider was selected. *)
Definition redirected (decision : option RoutingDecision) (selected : string) : option RoutingDecision :=
  match decision with
  | Some d => if String.eqb selected (FromProvider d) then None else Some (d <| ToProvider := selected |>)
  | None => None
  end.

(** A session of a shared model under the random strategy. *)
Definition sessionRoute (rt : runtime) (model : string) (candidates : list string) (key : sharedModelSessionKey)
    : runtime * resolution :=
  let alternatives := (fun name => new_routeStep name model) <$> candidates in
  let '(a, bound) := Affinity.affinity_boundRoute (sharedAffinity rt) key model (routingEpoch h) candidates
                       (providerGenerations h) now in
  let rt := rt <| sharedAffinity := a |> in
  let held := (fun b => retainedRoute h rt b alternatives now) <$> bound in
  match held with
  | Some (r, true) => (rt, route_to r)
  | _ =>
      let decision := held ≫= fun r => route_decision r.1 in
      let '(a, selected) :=
        Affinity.selectProviderForView (sharedAffinity rt) key model (routingEpoch h) candidates
          (fun name => modelRouteAvailable h rt name model now) choose (generation h)
          (Some (reusableRandomCandidates h rt now)) now in
      let rt := rt <| sharedAffinity := a |> in
      match selected with
      | None => (rt, reject "provider_keys_cooling_down" StatusServiceUnavailable)
      | Some name =>
          (rt, route_to ((dynamic_route name model) <| route_sessionKey := Some key |>
                           <| route_decision := redirected decision name |>))
      end
  end.

(** The hold of the preferred provider under the price order. *)
Definition price_hold (rt : runtime) (model : string) (candidates : list string) : option (routeStep * bool) :=
  if String.eqb (strategy h) "price_priority" then
    match orderSharedModelProviders ToUpper ToLower hostname choose h model candidates with
    | inr (name :: names) =>
        let alternatives := (fun name => dynamic_route name model) <$> name :: names in
        Some (retainedRoute h rt (dynamic_route name model) alternatives now)
    | _ => None
    end
  else None.

(** Several candidates, no session. *)
Definition sharedRoute (rt : runtime) (model : string) (candidates : list string) : resolution :=
  let held := price_hold rt model candidates in
  match held with
  | Some (r, true) => route_to r
  | _ =>
      let decision := held ≫= fun r => route_decision r.1 in
      match List.filter (fun name => modelRouteAvailable h rt name model now) candidates with
      | [] => reject "provider_keys_cooling_down" StatusServiceUnavailable
      | names =>
          let names := if String.eqb (strategy h) "random" then reusableRandomCandidates h rt now names else names in
          match orderSharedModelProviders ToUpper ToLower hostname choose h model names with
          | inl _ => reject "routing_price_unavailable" StatusServiceUnavailable
          | inr ordered =>
              let selected := default "" (head ordered) in
              route_to ((dynamic_route selected model) <| route_decision := redirected decision selected |>)
          end
      end
  end.

Definition singleRoute (rt : runtime) (model name : string) : resolution :=
  let r := dynamic_route name model in
  if String.eqb (strategy h) "price_priority" then
    let '(held, retain) := retainedRoute h rt r [] now in
    if retain then route_to held else route_to r
  else route_to r.

Definition routesForBareModel (rt : runtime) (model : string) (candidates : list string) (qualifiedUnknown : bool)
    (sessionKey : option sharedModelSessionKey) : runtime * resolution :=
  match candidates with
  | [] => (rt, reject (if qualifiedUnknown then "provider_not_found" else "model_not_found") StatusNotFound)
  | first :: others =>
      match sessionKey with
      | Some key =>
          if String.eqb (strategy h) "random" then sessionRoute rt model candidates key
          else if bool_decide (others = []) then (rt, singleRoute rt model first)
          else if String.eqb (strategy h) "" then (rt, reject "model_ambiguous" StatusBadRequest)
          else (rt, sharedRoute rt model candidates)
      | None =>
          if bool_decide (others = []) then (rt, singleRoute rt model first)
          else if String.eqb (strategy h) "" then (rt, reject "model_ambiguous" StatusBadRequest)
          else (rt, sharedRoute rt model candidates)
      end
  end.

(** [h.supportScopeAllows(...) && h.routeRequestCompatible(...)]. *)
Definition chain_compatible (protocol body : string) (e : AutoChainEntry) : bool :=
  supportScopeAllows h (entry_provider e) (entry_model e) &&
  routeRequestCompatible HasAnthropicServerTools PrepareRequest h (entry_provider e) (entry_model e) protocol body.

Definition chain_route (i : nat) (e : AutoChainEntry) : routeStep :=
  (dynamic_route (entry_provider e) (entry_model e)) <| route_autoChainIndex := Some i |>.

Definition compatible_chain_routes (protocol body : string) : list routeStep :=
  mjoin (imap (fun i e => if chain_compatible protocol body e then [chain_route i e] else []) (AutoChain h)).

(** The decision recorded when the chain moved to another provider. *)
Definition chain_redirected (decision : option RoutingDecision) (r : routeStep) : routeStep :=
  match decision with
  | Some d =>
      if String.eqb (route_provider r) (FromProvider d) then r
      else
        let d := d <| ToProvider := route_provider r |> in
        let d := if String.eqb (route_model r) (Model d) then d else d <| ToModel := route_model r |> in
        r <| route_decision := Some d |>
  | None => r
  end.

(** The hold of the session's bound route. *)
Definition chain_held (rt : runtime) (preferred : option routeStep) (protocol body : string) : option (routeStep * bool) :=
  match preferred with
  | Some r =>
      if chain_compatible protocol body (ChainEntry (route_provider r) (route_model r))
      then Some (retainedRoute h rt r (compatible_chain_routes protocol body) now) else None
  | None => None
  end.

Definition autoRoute (rt : runtime) (protocol body : string) (sessionKey : option sharedModelSessionKey)
    : runtime * resolution :=
  if bool_decide (AutoChain h = []) then (rt, reject "auto_chain_unconfigured" StatusBadRequest)
  else if negb (existsb (chain_compatible protocol body) (AutoChain h))
  then (rt, reject "unsupported_request_feature" StatusBadRequest)
  else
    let '(c, preferred) := AutoChain.boundRoute Sum256 (autoChain rt) sessionKey now in
    let rt := rt <| autoChain := c |> in
    let held := chain_held rt preferred protocol body in
    match held with
    | Some (r, true) => (rt, route_to r)
    | _ =>
        let decision := held ≫= fun r => route_decision r.1 in
        let '(c, selected) :=
          AutoChain.selectRouteAvailable Sum256 (autoChain rt) sessionKey
            (Some (fun e => chain_compatible protocol body e && modelRouteAvailable h rt (entry_provider e) (entry_model e) now))
            now in
        let rt := rt <| autoChain := c |> in
        match selected with
        | None => (rt, reject "auto_chain_exhausted" StatusServiceUnavailable)
        | Some r => (rt, route_to (chain_redirected decision (r <| route_sessionKey := sessionKey |>)))
        end
    end.

(** A bare model, or a qualified one whose prefix names no provider. *)
Definition bareRoute (rt : runtime) (modelID protocol body : string) (qualified : bool)
    (sessionKey : option sharedModelSessionKey) : runtime * resolution :=
  let requiresNativeTools := String.eqb protocol "anthropic" && HasAnthropicServerTools body in
  let allCandidates := bareModelCandidates h modelID qualified in
  let candidates := routingCandidates HasAnthropicServerTools PrepareRequest h modelID qualified protocol body in
  if bool_decide (candidates = []) && negb (bool_decide (allCandidates = [])) &&
     (requiresNativeTools || negb (String.eqb (strategy h) ""))
  then (rt, reject "unsupported_request_feature" StatusBadRequest)
  else routesForBareModel rt modelID candidates qualified sessionKey.

Definition resolveRoutes (rt : runtime) (modelID protocol body : string) (sessionKey : option sharedModelSessionKey)
    : runtime * resolution :=
  let requiresNativeTools := String.eqb protocol "anthropic" && HasAnthropicServerTools body in
  match parseQualifiedModelID modelID with
  | Some (ref, model) =>
      if bool_decide (is_Some (providers h !! ref)) then
        if String.eqb model "auto" then (rt, reject "auto_model_must_be_unqualified" StatusBadRequest)
        else if requiresNativeTools && negb (supportsNativeAnthropicTools h ref)
        then (rt, reject "unsupported_request_feature" StatusBadRequest)
        else (rt, route_to (new_routeStep ref model))
      else bareRoute rt modelID protocol body true sessionKey
  | None =>
      if String.eqb modelID "auto" then autoRoute rt protocol body sessionKey
      else bareRoute rt modelID protocol body false sessionKey
  end.

(** [retainQueuedAffinity]: the hold is decided again before dispatch. *)
Definition queued_alternatives (r : routeStep) (protocol body : string) : list routeStep :=
  match route_autoChainIndex r with
  | Some _ => (fun e => new_routeStep (entry_provider e) (entry_model e)) <$>
                List.filter (chain_compatible protocol body) (AutoChain h)
  | None => (fun name => new_routeStep name (route_model r)) <$>
              List.filter (fun name => chain_compatible protocol body (ChainEntry name (route_model r)))
                (map_to_list (providers h)).*1
  end.

Definition retainQueuedAffinity (rt : runtime) (r : routeStep) (protocol body : string) : bool :=
  (cooldownChoice h rt r (queued_alternatives r protocol body) now).2.

(** [sharedSessionKey] and [callerSessionKey]. *)
Definition callerSessionKey (model protocol sessionID : string) : option sharedModelSessionKey :=
  if String.eqb (Strings.TrimSpace sessionID) "" then None
  else Some (Affinity.newSharedModelSessionKey Sum256 (Sum256 (AccessToken h)) protocol model sessionID).

Definition sharedSessionKey (model protocol sessionID : string) : option sharedModelSessionKey :=
  if negb (String.eqb (strategy h) "random") || String.eqb (Strings.TrimSpace sessionID) "" || String.eqb model "auto"
  then None
  else match parseQualifiedModelID model with
  | Some (ref, _) => if bool_decide (is_Some (providers h !! ref)) then None else callerSessionKey model protocol sessionID
  | None => callerSessionKey model protocol sessionID
  end.
End resolve.

(** ** Publication of a view: [internal/gateway/routing_reload.go] *)

Record routingReload := {
  preserve : gmap AutoChainEntry bool;
  preserveFailures : gmap AutoChainEntry bool;
  reset : bool;
}.

Definition flags (f : AutoChainEntry -> bool) (l : list AutoChainEntry) : gmap AutoChainEntry bool :=
  foldl (fun m e => <[e := f e]> m) ∅ l.
Definition flag (m : gmap AutoChainEntry bool) (e : AutoChainEntry) : bool := default false (m !! e).

Definition preserved (h : handler) (e : AutoChainEntry) : bool :=
  supportScopeAllows h (entry_provider e) (entry_model e) && providerBindingPresent h (entry_provider e).
Definition preserved_failure (h : handler) (e : AutoChainEntry) : bool :=
  default false (reusedConnections h !! entry_provider e) && supportScopeAllows h (entry_provider e) (entry_model e).

Section reload.
Context {RangeTargets : MapRange availabilityTarget entry_ptr} {RangeFailed : MapRange nat failure_ptr}
        {RangeRoutes : MapRange Affinity.sharedModelRoute failure_ptr}.

Definition reconfigured_chain (h : handler) (source : AutoChain.autoChainState) (p : routingReload) (now : time)
    : AutoChain.autoChainState :=
  AutoChain.reconfiguredWithFailures (AutoChain h) (flag (preserve p)) (flag (preserveFailures p)) source
    (wrap64 (ActiveSessionIdleTimeoutSeconds h * Second)) (reset p) now.

(** The reload data and the chain of the new view; [source] is the chain of
    the previous one. *)
Definition prepareRouting (h : handler) (source : AutoChain.autoChainState) (changedChain : bool) (now : time)
    : routingReload * AutoChain.autoChainState :=
  let p := {| preserve := flags (preserved h) (AutoChain h); preserveFailures := flags (preserved_failure h) (AutoChain h);
              reset := changedChain |} in
  (p, reconfigured_chain h source p now).

(** [source] is the previous view's chain as it is at publication. *)
Definition publish_chain (h : handler) (prep : option (AutoChain.autoChainState * routingReload)) (rt : runtime) (now : time)
    : runtime :=
  match prep with
  | None => rt
  | Some (source, p) =>
      let p := {| preserve := foldl (fun m e => <[e := preserved h e]> m) (preserve p) (AutoChain h);
                  preserveFailures := preserveFailures p; reset := reset p |} in
      rt <| autoChain := reconfigured_chain h source p now |>
  end.

Definition binding_in_scope (h : handler) (b : Affinity.sharedModelBinding) : bool :=
  has_client h (Affinity.bound_provider b) && supportScopeAllows h (Affinity.bound_provider b) (Affinity.bound_model b).

Definition activateRouting (h : handler) (prep : option (AutoChain.autoChainState * routingReload)) (rt : runtime)
    (now : time) : runtime :=
  let rt := rt <| keyPools := (fun p => setDiagnostics p (HealthDiagnostics h)) <$> keyPools rt |> in
  let rt := rt <| availability := activate (availability rt) (routingEpoch h) (providerGenerations h)
                                    (Some (upstreamScopeAllows h)) |> in
  let rt := publish_chain h prep rt now in
  rt <| sharedAffinity := Affinity.activateForView (sharedAffinity rt) (routingEpoch h) (binding_in_scope h)
                            (Some (generation h)) (Some (providerBindingPresent h)) |>.
End reload.
