(* ===== verification/RoutingFacts.v ===== *)
(** * Routing: properties of waits and holds

    The wait computed for a route agrees with the admission check, a known wait
    lies in the future, and a session is held on its provider only within the
    switch threshold. *)

From S2P Require Import Prelude GoStrings GoFloat Diagnostics Errors Availability KeyPool KeyPoolFacts Pricing Routes.
From S2P Require AutoChain Affinity.
From S2P Require Import View Routing.

(** ** Waits of a key pool *)

Lemma sub_pos t u : u < t -> 0 < Time.sub t u.
Proof. unfold Time.sub, clamp64, min_int64, max_int64. lia. Qed.

Lemma wait_loop_spec now l : 0 < now -> forall e, e = 0 \/ now < e ->
  0 <= wait_loop now l e /\ (wait_loop now l e = 0 <-> (exists x, x ∈ l /\ x <= now) \/ (l = [] /\ e = 0)).
Proof.
  intros Hnow. induction l as [|x l IH]; intros e He; cbn [wait_loop].
  - destruct (is_zero_spec e) as [->|Hz].
    + split; [done|]. split; [by right|done].
    + pose proof (sub_pos e now ltac:(lia)). split; [lia|]. split; [lia|].
      intros [(? & []%not_elem_of_nil & _)|[_ ?]]; lia.
  - destruct (after_spec x now) as [Hx|Hx]; cbn [negb].
    + destruct (IH (earlier e x)) as [H0 IHx]; [unfold earlier; repeat case_test; simpl; lia|].
      split; [done|]. rewrite IHx. split.
      * intros [(y & Hy & Hle)|[-> Hz]]; [left; exists y; split; [by right|done]|].
        exfalso. unfold earlier in Hz. revert Hz. repeat case_test; simpl; lia.
      * intros [(y & [->|Hy]%elem_of_cons & Hle)|[? _]]; [lia|left; eauto|done].
    + split; [done|]. split; [left; exists x; split; [by left|lia]|done].
Qed.

Lemma larger_wait_zero now l : forall d, 0 <= d ->
  let w := foldl (fun delay until => let remaining := Time.sub until now in if delay <? remaining then remaining else delay) d l in
  0 <= w /\ (w = 0 <-> d = 0 /\ forall u, u ∈ l -> u <= now).
Proof.
  induction l as [|u l IH]; intros d Hd w; cbn [foldl] in w; subst w.
  - split; [done|]. split; [|tauto]. intros ->. split; [done|]. by intros ? ?%not_elem_of_nil.
  - destruct (Z.ltb_spec d (Time.sub u now)) as [Hlt|Hge].
    + destruct (IH (Time.sub u now)) as [H0 HI]; [lia|]. split; [done|]. rewrite HI. split; [lia|].
      intros [-> Hall]. specialize (Hall u ltac:(left)). unfold Time.sub, clamp64, min_int64, max_int64 in Hlt. lia.
    + destruct (IH d Hd) as [H0 HI]. split; [done|]. rewrite HI. split.
      * intros [-> Hall]. split; [done|]. intros v [->|Hv]%elem_of_cons; [|auto].
        destruct (Z_le_gt_dec u now); [done|]. pose proof (sub_pos u now ltac:(lia)). lia.
      * intros [-> Hall]. split; [done|]. intros v Hv. apply Hall. by right.
Qed.

Definition claims_free (p : providerKeyPool) (s : providerRetryState) : Prop := rateProbe p = None /\ server_probe s = None.

(** A request can start on the pool now. *)
Definition pool_ready (p : providerKeyPool) (s : providerRetryState) (now : time) : Prop :=
  claims_free p s /\ rateProviderUntil p <= now /\ server_until s <= now /\
  (cooldowns p = [] \/ exists t, t ∈ cooldowns p /\ t <= now).

Lemma CooldownWaitAt_zero p s now : 0 < now -> CooldownWaitAt p s now = 0 <-> pool_ready p s now.
Proof.
  intros Hnow. unfold CooldownWaitAt, pool_ready, claims_free.
  destruct (bool_decide_reflect (rateProbe p <> None)) as [Hp|Hp%dec_stable]; cbn [orb].
  { split; [discriminate|]. by intros [[? _] _]. }
  destruct (bool_decide_reflect (server_probe s <> None)) as [Hq|Hq%dec_stable].
  { split; [discriminate|]. by intros [[_ ?] _]. }
  destruct (wait_loop_spec now (cooldowns p) Hnow 0 ltac:(by left)) as [H0 Hw].
  destruct (larger_wait_zero now [rateProviderUntil p; server_until s] _ H0) as [_ ->].
  unfold cooldownWaitLocked. rewrite Hw. split.
  - intros [Hk Hu]. split; [done|]. split; [apply Hu; left|]. split; [apply Hu; right; left|].
    destruct Hk as [?|[? _]]; [by right|by left].
  - intros (_ & Hr & Hs & Hk). split; [destruct Hk as [?|?]; [by right|by left]|].
    intros u [->|[->|[]%not_elem_of_nil]%elem_of_cons]%elem_of_cons; done.
Qed.

(** Status of the keys. *)

Lemma imap_elem {A B} (f : nat -> A -> B) l y : y ∈ imap f l <-> exists i x, l !! i = Some x /\ y = f i x.
Proof.
  rewrite list_elem_of_lookup. setoid_rewrite list_lookup_imap. split.
  - intros [i Hi]. destruct (l !! i) as [x|] eqn:E; [|done]. cbn in Hi. exists i, x. naive_solver.
  - intros (i & x & E & ->). exists i. by rewrite E.
Qed.

Lemma count_zero {A} (f : A -> bool) l : count f l = 0%nat <-> forall x, x ∈ l -> f x = false.
Proof.
  split; [|apply count_none]. intros H x [i Hi]%list_elem_of_lookup. destruct (f x) eqn:E; [|done].
  pose proof (count_positive f l i x Hi E). lia.
Qed.

Lemma no_key_eligible p s now : pool_wf p -> server_until s <= now ->
  Eligible (diagnosticStatus p s now).2 = 0%nat <-> forall t, t ∈ cooldowns p -> now < t.
Proof.
  intros Hwf Hs. unfold diagnosticStatus. cbn [snd Eligible]. rewrite count_zero.
  assert (Hst : forall i l, String.eqb (KeyState (key_status (pruneDecisions p now) s now i l)) "cooling" =
                            Time.after (item (cooldowns p) i) now).
  { intros i l. unfold key_status, key_until. cbn [KeyState].
    change (cooldowns (pruneDecisions p now)) with (cooldowns p).
    destruct (Time.after (server_until s) _) eqn:E; [|by destruct (Time.after _ now)].
    destruct (after_spec (server_until s) (item (cooldowns p) i)) as [Ha|]; [|done].
    destruct (after_spec (server_until s) now), (after_spec (item (cooldowns p) i) now); done || lia. }
  change (labels (pruneDecisions p now)) with (labels p).
  split.
  - intros H t [i Hi]%list_elem_of_lookup.
    assert (i < length (labels p))%nat as [l Hl]%lookup_lt_is_Some_2.
    { rewrite (wf_labels p Hwf), <- (wf_cooldowns p Hwf). by eapply lookup_lt_Some. }
    pose proof (H _ (proj2 (imap_elem _ _ _) (ex_intro _ i (ex_intro _ l (conj Hl eq_refl))))) as Hk. cbn beta in Hk.
    rewrite Hst, negb_false_iff in Hk. unfold item in Hk. rewrite Hi in Hk. cbn in Hk. by destruct (after_spec t now).
  - intros H y (i & l & Hl & ->)%imap_elem. rewrite Hst. rewrite negb_false_iff.
    assert (i < length (cooldowns p))%nat as [t Ht]%lookup_lt_is_Some_2.
    { rewrite (wf_cooldowns p Hwf), <- (wf_labels p Hwf). by eapply lookup_lt_Some. }
    unfold item. rewrite Ht. cbn. apply list_elem_of_lookup_2, H in Ht. by destruct (after_spec t now).
Qed.

Lemma blocked_add_wait w t b : blocked (add_wait w t b) = true.
Proof. unfold add_wait. by destruct (Time.after _ _). Qed.

Lemma blocked_if (b : bool) w t u : blocked (if b then add_wait w t u else w) = b || blocked w.
Proof. destruct b; [apply blocked_add_wait|done]. Qed.

Lemma cooldowns_later p now : (forall t, t ∈ cooldowns p -> now < t) <-> ~ exists t, t ∈ cooldowns p /\ t <= now.
Proof.
  split; [intros H (t & Ht%H & Hle); lia|]. intros H t Ht. destruct (Z_lt_ge_dec now t); [done|].
  exfalso. apply H. exists t. split; [done|lia].
Qed.

Lemma add_pool_blocked p s now w : pool_wf p ->
  blocked (add_pool now (diagnosticStatus p s now).2 w) = true <-> blocked w = true \/ ~ pool_ready p s now.
Proof.
  intros Hwf. unfold add_pool. rewrite !blocked_if.
  change (RecoveryInProgress (diagnosticStatus p s now).2) with
    (bool_decide (rateProbe p <> None) || bool_decide (server_probe s <> None)).
  change (RateLimitRetryAt (diagnosticStatus p s now).2) with (rateProviderUntil p).
  change (ProviderRetryAt (diagnosticStatus p s now).2) with (server_until s).
  change (Capacity (diagnosticStatus p s now).2) with (length (keys p)).
  rewrite !orb_true_iff, !bool_decide_eq_true, andb_true_iff, Nat.ltb_lt, Nat.eqb_eq.
  unfold pool_ready, claims_free.
  assert (Hlen : (0 < length (keys p))%nat <-> cooldowns p <> []).
  { rewrite <- (wf_cooldowns p Hwf). destruct (cooldowns p); simpl; split; done || lia. }
  destruct (after_spec (server_until s) now) as [Hs|Hs]; [split; [|tauto]; intros _; right; lia|].
  rewrite (no_key_eligible p s now Hwf) by lia. rewrite cooldowns_later.
  destruct (after_spec (rateProviderUntil p) now) as [Hr|Hr]; [split; [|tauto]; intros _; right; lia|].
  destruct (decide (rateProbe p = None)), (decide (server_probe s = None)), (decide (cooldowns p = []));
    split; naive_solver lia.
Qed.

Lemma add_health_blocked rt now t w :
  blocked (add_health rt now t w) = blocked w || negb (eligible (entry_at (availability rt) t) now).
Proof.
  unfold add_health. destruct (entry_at _ t) as [e|]; [|by rewrite orb_false_r].
  destruct (eligible (Some e) now); [by rewrite orb_false_r|]. cbn [negb]. rewrite orb_true_r.
  destruct (member _ _); [|apply blocked_add_wait].
  change (blocked (add_wait w (retryAt e) (probing e)) = true). apply blocked_add_wait.
Qed.

Lemma pool_wait_blocked rt r now w :
  (forall p, keyPools rt !! route_provider r = Some p -> pool_wf p) -> 0 < now ->
  blocked (match pool_status rt now (route_provider r) with Some s => add_pool now s w | None => w end) =
  blocked w || match keyPools rt !! route_provider r with
               | Some p => negb (CooldownWaitAt p (retry_state rt p) now =? 0)
               | None => false
               end.
Proof.
  intros Hwf Hnow. unfold pool_status. destruct (keyPools rt !! route_provider r) as [p|]; cbn [fmap option_fmap option_map];
    [|by rewrite orb_false_r].
  apply eq_bool_prop_intro. rewrite !Is_true_true, orb_true_iff, negb_true_iff, Z.eqb_neq.
  rewrite (CooldownWaitAt_zero p _ now Hnow). apply add_pool_blocked. by apply Hwf.
Qed.

(** What routing reads of the runtime is well formed at [now]. *)
Record runtime_wf (h : handler) (rt : runtime) (now : time) : Prop := {
  rt_now : 0 < now;
  rt_epoch : epoch (availability rt) = routingEpoch h;
  rt_pools : forall name p, keyPools rt !! name = Some p -> pool_wf p;
}.

(** C38. Retry guidance and admission agree.  The wait computed for the advice and
    the hold decision, from the status of the pool and the health table, blocks
    a route exactly when the independent check of the selection refuses it:
    nothing advertised as ready is refused, nothing refused is advertised. *)
Theorem route_wait_agrees_with_selection h rt r now :
  runtime_wf h rt now -> now < nextSweep (availability rt) ->
  modelRouteAvailable h rt (route_provider r) (route_model r) now = negb (blocked (routeWaitLocked h rt r now)).
Proof.
  intros [Hnow Hep Hwf] Hsweep. unfold modelRouteAvailable, providerRouteAvailable, routeWaitLocked.
  destruct (unavailable h _); cbn [orb]; [rewrite orb_true_r; by rewrite blocked_add_wait|]. rewrite orb_false_r.
  destruct (has_client h _); cbn [negb]; [|by rewrite blocked_add_wait].
  cbn [blocked update]. change (blocked (?w <| temporary := _ |>)) with (blocked w).
  rewrite pool_wait_blocked by eauto. rewrite !add_health_blocked. cbn [blocked no_wait orb].
  unfold available. rewrite Hep, Z.eqb_refl. cbn [negb snd]. unfold prune.
  destruct (before_spec now (nextSweep (availability rt))); [|lia].
  unfold route_target, route_upstream.
  destruct (keyPools rt !! route_provider r) as [p|]; [destruct (_ =? 0)|];
    destruct (eligible _ now); destruct (eligible _ now); done.
Qed.

(** ** Known waits *)

(** A wait without an unknown part ends after [now]. *)
Definition wait_future (now : time) (w : routeWait) : Prop := blocked w = true -> unknown_wait w = true \/ now < wait_retryAt w.

Lemma add_wait_future now w t b : wait_future now w -> b = true \/ now < t -> wait_future now (add_wait w t b).
Proof.
  intros Hw Hb _. unfold add_wait. destruct (after_spec t (wait_retryAt (w <| blocked := true |> <| unknown_wait := unknown_wait w || b |>)));
    cbn in *; rewrite orb_true_iff; destruct Hb as [->|Hb]; (by auto) || (right; lia).
Qed.

Lemma if_add_wait_future now (c : bool) w t b :
  wait_future now w -> (c = true -> b = true \/ now < t) -> wait_future now (if c then add_wait w t b else w).
Proof. intros Hw Hc. destruct c; [apply add_wait_future; auto|done]. Qed.

Lemma add_health_future rt now t w : wait_future now w -> wait_future now (add_health rt now t w).
Proof.
  intros Hw. unfold add_health. destruct (entry_at _ t) as [e|]; [|done].
  destruct (eligible (Some e) now) eqn:E; [done|].
  assert (Ha : wait_future now (add_wait w (retryAt e) (probing e))).
  { apply add_wait_future; [done|]. cbn [eligible] in E.
    rewrite orb_false_iff, andb_false_iff, !negb_false_iff in E. destruct E as [_ [?|E]]; [by left|right]. by destruct (before_spec now (retryAt e)). }
  destruct (member _ _); [|done]. exact Ha.
Qed.

Lemma earliest_key_future p s now : pool_wf p -> 0 < now -> Eligible (diagnosticStatus p s now).2 = 0%nat ->
  Time.is_zero (earliest_key (Keys (diagnosticStatus p s now).2)) = true \/
  now < earliest_key (Keys (diagnosticStatus p s now).2).
Proof.
  intros Hwf Hnow He. set (ks := Keys _).
  assert (Hall : forall k, k ∈ ks -> now < KeyCooldownUntil k).
  { intros k Hk. unfold diagnosticStatus in He. cbn [snd Eligible] in He. apply count_zero with (x := k) in He; [|done].
    rewrite negb_false_iff in He. apply imap_elem in Hk as (i & l & Hl & ->). unfold key_status in *. cbn [KeyState KeyCooldownUntil] in *.
    by destruct (after_spec (key_until (pruneDecisions p now) s i) now). }
  clearbody ks. unfold earliest_key. clear He.
  assert (Hgen : forall e, e = 0 \/ now < e -> let m := foldl (fun e k => earlier e (KeyCooldownUntil k)) e ks in m = 0 \/ now < m).
  { induction ks as [|k ks IH]; intros e He'; cbn [foldl]; [done|]. apply IH; [intros; apply Hall; by right|].
    pose proof (Hall k ltac:(left)). unfold earlier. repeat case_test; simpl; lia. }
  destruct (Hgen Time.zero ltac:(by left)) as [E|?]; [left; by rewrite E|by right].
Qed.

Lemma add_pool_future p s now w : pool_wf p -> 0 < now -> wait_future now w ->
  wait_future now (add_pool now (diagnosticStatus p s now).2 w).
Proof.
  intros Hwf Hnow Hw. unfold add_pool.
  apply if_add_wait_future.
  - repeat apply if_add_wait_future; try done; intros H; [by left| |]; right; revert H; case_test; done.
  - rewrite andb_true_iff, Nat.eqb_eq. intros [_ He]. by apply earliest_key_future.
Qed.

Lemma known_wait_ends_later h rt r now : runtime_wf h rt now -> wait_future now (routeWaitLocked h rt r now).
Proof.
  intros [Hnow _ Hwf]. unfold routeWaitLocked.
  destruct (_ || _); [intros _; by left|].
  match goal with |- wait_future now (?w <| temporary := _ |>) => cut (wait_future now w); [done|] end.
  unfold pool_status. assert (Hh : wait_future now (add_health rt now (route_target h r (route_upstream h r)) (add_health rt now (route_target h r "") no_wait))).
  { by do 2 apply add_health_future. }
  destruct (keyPools rt !! route_provider r) as [p|] eqn:E; cbn; [|done]. apply add_pool_future; eauto.
Qed.

(** ** Hold or switch *)

Definition threshold_of (h : handler) (r : routeStep) : Z := switchThreshold h (route_provider r) (route_model r).

Lemma wait_decision_from r threshold w now : FromProvider (wait_decision r threshold w now) = route_provider r.
Proof. unfold wait_decision. by destruct (Time.after _ _). Qed.

(** A hold is bounded, a switch is useful.  A session is held on its blocked
    provider only when the threshold is not zero (zero turns holding off) and,
    if another provider could serve it now, only while the known wait ends
    within the threshold; and it is told to switch only when another provider
    can serve it now. *)
Theorem hold_within_threshold h rt r alternatives now :
  runtime_wf h rt now -> 0 <= threshold_of h r <= 86400 ->
  let w := routeWaitLocked h rt r now in
  let ready a := a ∈ alternatives /\ route_provider a <> route_provider r /\ blocked (routeWaitLocked h rt a now) = false in
  let '(d, retain) := cooldownChoiceLocked h rt r alternatives now in
  if retain then
    blocked w = true /\ threshold_of h r <> 0 /\ is_Some d /\
    (forall a, ready a -> wait_retryAt w <= now + threshold_of h r * Second)
  else match d with
  | Some d =>
      blocked w = true /\ Action d = "switch" /\ FromProvider d = route_provider r /\ (exists a, ready a) /\
      (unknown_wait w = true \/ now + threshold_of h r * Second < wait_retryAt w)
  | None => True
  end.
Proof.
  intros Hwf Hthr w ready. pose proof (known_wait_ends_later h rt r now Hwf) as Hfut.
  unfold cooldownChoiceLocked. destruct (negb (providerBindingPresent _ _)); [done|].
  fold (threshold_of h r) w. destruct (blocked w) eqn:Eb; cbn [negb]; [|done]. specialize (Hfut Eb). fold w in Hfut.
  assert (Hl : reflect (now + threshold_of h r * Second < wait_retryAt w) (long_wait w (threshold_of h r) now)).
  { unfold long_wait. rewrite wrap64_id by (unfold min_int64, max_int64, Second; lia). apply after_spec. }
  assert (Hr : existsb (alternative_ready h rt r now) alternatives = true <-> exists a, ready a).
  { rewrite existsb_exists. subst ready. unfold alternative_ready. cbn. setoid_rewrite andb_true_iff.
    setoid_rewrite negb_true_iff. setoid_rewrite String.eqb_neq. setoid_rewrite <- list_elem_of_In. done. }
  destruct (unknown_wait w) eqn:Eu, Hl as [Hl|Hl], (Z.eqb_spec (threshold_of h r) 0) as [Hz|Hz]; cbn [negb andb];
    try (destruct Hfut; [done|]; exfalso; lia);
    try (split_and!; [done|done|eauto|intros; lia]);
    (destruct (existsb _ _) eqn:Ex; [split_and!; [done|done|apply wait_decision_from|by apply Hr|auto]|]); try done;
    (split_and!; [done|done|eauto|]); intros a Ha; by discriminate (proj2 Hr ltac:(eauto)).
Qed.
