(* ===== verification/RoutingResolve.v ===== *)
(** * Routing: properties of the resolution

    Candidates, the resolution of a model identifier, the price order and the
    publication of a view. *)

From S2P Require Import Prelude GoStrings GoFloat Diagnostics Errors Availability KeyPool KeyPoolFacts Pricing Routes.
From Stdlib Require Import SpecFloat.
From S2P Require AutoChain AutoChainFacts Affinity.
From S2P Require Import View Routing RoutingFacts.

(** ** Candidates *)

Lemma elem_of_names {A} (m : gmap string A) name : name ∈ (map_to_list m).*1 <-> is_Some (m !! name).
Proof.
  rewrite list_elem_of_fmap. split.
  - intros ([k v] & -> & H%elem_of_map_to_list). eauto.
  - intros [v H]. exists (name, v). split; [done|]. by apply elem_of_map_to_list.
Qed.

Lemma elem_of_List_filter {A} (f : A -> bool) l x : x ∈ List.filter f l <-> x ∈ l /\ f x = true.
Proof. rewrite !list_elem_of_In. apply filter_In. Qed.

Lemma NoDup_List_filter {A} (f : A -> bool) l : NoDup l -> NoDup (List.filter f l).
Proof. rewrite !NoDup_ListNoDup. apply List.NoDup_filter. Qed.

Lemma elem_of_bareModelCandidates h m known name :
  name ∈ bareModelCandidates h m known <-> is_Some (providers h !! name) /\ bare_candidate h m known name = true.
Proof. unfold bareModelCandidates. by rewrite Sort.elem_of_Strings, elem_of_List_filter, elem_of_names. Qed.

Lemma bareModelCandidates_NoDup h m known : NoDup (bareModelCandidates h m known).
Proof. unfold bareModelCandidates. rewrite Sort.Strings_perm. apply NoDup_List_filter, NoDup_fst_map_to_list. Qed.

Section resolve.
Context (ToUpper ToLower : string -> string) (hostname : string -> option string) (Sum256 : string -> string).
Context (HasAnthropicServerTools : string -> bool).
Context (PrepareRequest : string -> string -> string -> string -> Z -> bool).
Context (choose : Z -> Z) (h : handler) (now : time).

#[local] Abbreviation order := (orderSharedModelProviders ToUpper ToLower hostname choose h).
#[local] Abbreviation candidates := (routingCandidates HasAnthropicServerTools PrepareRequest h).
#[local] Abbreviation compatible := (chain_compatible HasAnthropicServerTools PrepareRequest h).
#[local] Abbreviation resolve := (resolveRoutes ToUpper ToLower hostname Sum256 HasAnthropicServerTools PrepareRequest choose h now).

(** ** Order of shared providers *)

Lemma price_all_names model names : forall currency l,
  price_all ToUpper ToLower hostname h model names currency = Some l -> priced_name <$> l = names.
Proof.
  induction names as [|name names IH]; intros currency l; cbn [price_all]; [by intros [= <-]|].
  destruct (provider_cost _ _ _ _ _ _) as [[c x]|]; [|done]. destruct (_ || _); [|done].
  destruct (price_all _ _ _ _ _ names _) as [l'|] eqn:E; cbn; [|done]. intros [= <-]. cbn. by rewrite (IH _ _ E).
Qed.

Lemma order_perm model names ordered : order model names = inr ordered -> ordered ≡ₚ names.
Proof.
  unfold orderSharedModelProviders. destruct (String.eqb (strategy h) "random").
  - intros [= <-]. rewrite (Permutation_app_comm (drop _ _)), take_drop. apply Sort.Strings_perm.
  - destruct (String.eqb (strategy h) "price_priority"); [|done].
    destruct (price_all _ _ _ _ _ _ _) as [l|] eqn:E; [|done]. intros [= <-].
    rewrite merge_sort_Permutation, (price_all_names _ _ _ _ E). apply Sort.Strings_perm.
Qed.

(** ** What a resolution may return *)

(** A model that is looked up among the providers: with no provider before it,
    or ([qualified]) with a prefix that names none. *)
Definition looked_up (modelID : string) (qualified : bool) : Prop :=
  match parseQualifiedModelID modelID with
  | Some (ref, _) => qualified = true /\ providers h !! ref = None
  | None => qualified = false /\ modelID <> "auto"
  end.

Definition native_tools (protocol body : string) : Prop :=
  protocol = "anthropic" /\ HasAnthropicServerTools body = true.

(** How the chosen route of a request is justified: the client named its
    provider, which takes the tools of the body; it is a candidate for the model
    and can be used now, holds the session while it is blocked, or is the only
    one; or it is an entry of the chain that takes the body, and can be used or
    holds the session. *)
Inductive justified (rt : runtime) (modelID protocol body : string) (key : option sharedModelSessionKey) : routeStep -> Prop :=
| by_name ref m :
    parseQualifiedModelID modelID = Some (ref, m) -> is_Some (providers h !! ref) -> m <> "auto" ->
    (native_tools protocol body -> supportsNativeAnthropicTools h ref = true) ->
    justified rt modelID protocol body key (new_routeStep ref m)
| by_candidate qualified r :
    looked_up modelID qualified -> route_provider r ∈ candidates modelID qualified protocol body -> route_model r = modelID ->
    (modelRouteAvailable h rt (route_provider r) modelID now = true \/
     (route_holdAffinity r = true /\ blocked (routeWaitLocked h rt r now) = true) \/
     candidates modelID qualified protocol body = [route_provider r]) ->
    justified rt modelID protocol body key r
| by_chain i r :
    modelID = "auto" -> route_autoChainIndex r = Some i ->
    AutoChain.chain (autoChain rt) !! i = Some (ChainEntry (route_provider r) (route_model r)) ->
    compatible protocol body (ChainEntry (route_provider r) (route_model r)) = true ->
    (modelRouteAvailable h rt (route_provider r) (route_model r) now = true \/
     (route_holdAffinity r = true /\ blocked (routeWaitLocked h rt r now) = true)) ->
    justified rt modelID protocol body key r.

(** A hold is of a blocked route. *)
Lemma retain_blocked rt r alternatives : (cooldownChoice h rt r alternatives now).2 = true ->
  blocked (routeWaitLocked h rt r now) = true.
Proof.
  unfold cooldownChoice. destruct (negb (_ =? _)); [done|]. unfold cooldownChoiceLocked.
  destruct (negb (providerBindingPresent _ _)); [done|]. by destruct (blocked _).
Qed.

(** A held route is the route, marked. *)
Lemma retained_spec rt r alternatives :
  let '(r', retain) := retainedRoute h rt r alternatives now in
  route_provider r' = route_provider r /\ route_model r' = route_model r /\
  route_autoChainIndex r' = route_autoChainIndex r /\
  (retain = true -> route_holdAffinity r' = true /\ blocked (routeWaitLocked h rt r' now) = true).
Proof.
  pose proof (retain_blocked rt r alternatives) as Hb. unfold retainedRoute.
  destruct (cooldownChoice h rt r alternatives now) as [d retain]. destruct retain; [|done].
  split_and!; try done. intros _. split; [done|]. by apply Hb.
Qed.

(** A route to one of the candidates of [m], with its justification. *)
Definition chosen (rt : runtime) (m : string) (names : list string) (r : routeStep) : Prop :=
  route_provider r ∈ names /\ route_model r = m /\
  (modelRouteAvailable h rt (route_provider r) m now = true \/
   (route_holdAffinity r = true /\ blocked (routeWaitLocked h rt r now) = true) \/ names = [route_provider r]).

Lemma held_chosen rt m names r alternatives :
  route_provider r ∈ names -> route_model r = m ->
  let '(r', retain) := retainedRoute h rt r alternatives now in retain = true -> chosen rt m names r'.
Proof.
  intros Hin Hm. pose proof (retained_spec rt r alternatives) as H.
  destruct (retainedRoute h rt r alternatives now) as [r' retain]. destruct H as (Hp & Hm' & _ & Hh).
  intros Hr. split; [by rewrite Hp|]. split; [by rewrite Hm'|]. right. left. auto.
Qed.

Lemma singleRoute_spec rt m name : exists r, singleRoute h now rt m name = route_to r /\ chosen rt m [name] r.
Proof.
  assert (Hplain : chosen rt m [name] (dynamic_route name m)).
  { split; [by left|]. split; [done|]. by right; right. }
  unfold singleRoute. destruct (String.eqb _ _); [|eauto].
  pose proof (held_chosen rt m [name] (dynamic_route name m) [] ltac:(by left) eq_refl) as H.
  destruct (retainedRoute _ _ _ _ _) as [r' retain]. destruct retain; eauto.
Qed.

(** No candidate can be used: each is unavailable, or (for a session) its last
    failure is still cooling or being probed. *)
Definition none_usable (rt : runtime) (m : string) (names : list string) : Prop :=
  forall name, name ∈ names ->
    modelRouteAvailable h rt name m now = false \/
    failure_eligible (Affinity.route_failure (sharedAffinity rt) (Affinity.SharedRoute name m (generation h name))) now = false.

Lemma reusable_incl rt names : names <> [] ->
  reusableRandomCandidates h rt now names <> [] /\
  forall x, In x (reusableRandomCandidates h rt now names) -> In x names.
Proof.
  intros Hne. unfold reusableRandomCandidates. set (l := List.filter _ names).
  assert (Hl : forall x, In x l -> In x names) by (intros x Hx; by apply filter_In in Hx as [? _]).
  clearbody l. by destruct l.
Qed.

Lemma boundRoute_spec a key m names now' a' r :
  Affinity.affinity_boundRoute a key m (routingEpoch h) names (providerGenerations h) now' = (a', Some r) ->
  route_provider r ∈ names /\ route_model r = m /\ Affinity.route_failure a' = Affinity.route_failure a.
Proof.
  unfold Affinity.affinity_boundRoute. destruct (Affinity.bindings a !! key) as [b|]; [|done].
  destruct (_ || negb (member _ _)) eqn:E; [done|]. intros [= <- <-]. rewrite orb_false_iff in E. destruct E as [_ E].
  rewrite negb_false_iff, member_spec, <- list_elem_of_In in E. done.
Qed.

Lemma boundRoute_keeps a key m names now' :
  Affinity.route_failure (Affinity.affinity_boundRoute a key m (routingEpoch h) names (providerGenerations h) now').1 =
  Affinity.route_failure a.
Proof. unfold Affinity.affinity_boundRoute. destruct (Affinity.bindings a !! key); [|done]. by destruct (_ || negb (member _ _)). Qed.

Definition cooling_down : resolution := reject "provider_keys_cooling_down" StatusServiceUnavailable.

Lemma sessionRoute_spec rt m names key :
  let res := (sessionRoute choose h now rt m names key).2 in
  (exists r, res = route_to r /\ chosen rt m names r) \/ (res = cooling_down /\ none_usable rt m names).
Proof.
  unfold sessionRoute.
  destruct (Affinity.affinity_boundRoute _ _ _ _ _ _ _) as [a bound] eqn:Eb.
  assert (Hbound : forall r, bound = Some r -> route_provider r ∈ names /\ route_model r = m).
  { intros r ->. by destruct (boundRoute_spec _ _ _ _ _ _ _ Eb) as (? & ? & _). }
  assert (Hf : Affinity.route_failure a = Affinity.route_failure (sharedAffinity rt)).
  { pose proof (boundRoute_keeps (sharedAffinity rt) key m names now) as H. by rewrite Eb in H. }
  set (rt1 := rt <| sharedAffinity := a |>).
  set (held := (fun b => retainedRoute h rt1 b _ now) <$> bound).
  assert (Hheld : match held with Some (r, true) => chosen rt m names r | _ => True end).
  { subst held. destruct bound as [b|]; [|done]. cbn. destruct (Hbound b eq_refl) as [Hin Hm].
    pose proof (held_chosen rt1 m names b ((fun name => new_routeStep name m) <$> names) Hin Hm) as H.
    destruct (retainedRoute _ _ _ _ _) as [r retain]. destruct retain; [|done]. exact (H eq_refl). }
  clearbody held. destruct held as [[r []]|]; [left; eauto| |].
  all: destruct (Affinity.selectProviderForView _ _ _ _ _ _ _ _ _ _) as [a2 selected] eqn:Es;
    apply Affinity.selection_spec in Es; [|intros f l [= <-]; apply reusable_incl].
  all: destruct selected as [name|]; [left|right; split; [done|]].
  1, 3: destruct Es as [Hin Hel]; eexists; split; [reflexivity|]; split; [by apply list_elem_of_In|]; split; [done|];
    left; by apply andb_true_iff in Hel as [_ ?].
  all: intros name Hin; apply list_elem_of_In, Es in Hin; unfold Affinity.eligible_provider in Hin;
    apply andb_false_iff in Hin as [Hin|Hin]; [right; by rewrite <- Hf|by left].
Qed.

Lemma price_hold_chosen rt m names :
  match price_hold ToUpper ToLower hostname choose h now rt m names with
  | Some (r, true) => chosen rt m names r
  | _ => True
  end.
Proof.
  unfold price_hold. destruct (String.eqb _ _); [|done].
  destruct (order m names) as [|[|name l]] eqn:E; [done|done|].
  assert (Hin : name ∈ names) by (rewrite <- (order_perm _ _ _ E); left).
  pose proof (held_chosen rt m names (dynamic_route name m) ((fun name => dynamic_route name m) <$> name :: l) Hin eq_refl) as H.
  destruct (retainedRoute _ _ _ _ _) as [r retain]. destruct retain; [|done]. auto.
Qed.

(** Some candidates are available but cannot be ordered. *)
Definition unordered (rt : runtime) (m : string) (names : list string) : Prop :=
  exists available e, available <> [] /\ order m available = inl e /\
    forall x, x ∈ available -> x ∈ names /\ modelRouteAvailable h rt x m now = true.

Lemma sharedRoute_spec rt m names :
  let res := sharedRoute ToUpper ToLower hostname choose h now rt m names in
  (exists r, res = route_to r /\ chosen rt m names r) \/
  (res = cooling_down /\ none_usable rt m names) \/
  (res = reject "routing_price_unavailable" StatusServiceUnavailable /\ unordered rt m names).
Proof.
  unfold sharedRoute. pose proof (price_hold_chosen rt m names) as Hheld.
  destruct (price_hold _ _ _ _ _ _ _ _ _) as [[r []]|]; [left; eauto| |].
  all: destruct (List.filter _ names) as [|n0 l] eqn:Ef;
    [right; left; split; [done|]; intros name Hin; left; apply not_true_iff_false; intros Ha;
     by apply (not_elem_of_nil name); rewrite <- Ef; apply elem_of_List_filter|].
  all: set (av := if String.eqb (strategy h) "random" then _ else _);
    assert (Hav : av <> [] /\ forall x, x ∈ av -> x ∈ names /\ modelRouteAvailable h rt x m now = true)
      by (subst av; destruct (String.eqb _ _);
          [destruct (reusable_incl rt (n0 :: l) ltac:(done)) as [Hne Hsub]|];
          (split; [done|]); intros x Hx;
          [apply list_elem_of_In, Hsub, list_elem_of_In in Hx|]; by rewrite <- Ef, elem_of_List_filter in Hx).
  all: clearbody av; destruct (order m av) as [err|ordered] eqn:Eo; [right; right; split; [done|]; exists av, err; by destruct Hav|left];
    apply order_perm in Eo; destruct ordered as [|sel ordered];
    [by apply Permutation_nil_l in Eo as <-; destruct Hav|]; cbn [head default];
    eexists; (split; [reflexivity|]);
    destruct (proj2 Hav sel) as [Hin Ha]; [rewrite <- Eo; left|]; (split; [done|]); (split; [done|]); by left.
Qed.

Lemma routesForBareModel_spec rt m names qualified key :
  let res := (routesForBareModel ToUpper ToLower hostname choose h now rt m names qualified key).2 in
  (exists r, res = route_to r /\ chosen rt m names r) \/
  (res = reject (if qualified then "provider_not_found" else "model_not_found") StatusNotFound /\ names = []) \/
  (res = reject "model_ambiguous" StatusBadRequest /\ strategy h = "" /\ (1 < length names)%nat) \/
  (res = cooling_down /\ names <> [] /\ none_usable rt m names) \/
  (res = reject "routing_price_unavailable" StatusServiceUnavailable /\ unordered rt m names).
Proof.
  assert (Hplain : forall name names', names = name :: names' -> let res :=
    if bool_decide (names' = []) then singleRoute h now rt m name
    else if String.eqb (strategy h) "" then reject "model_ambiguous" StatusBadRequest
    else sharedRoute ToUpper ToLower hostname choose h now rt m names in
    (exists r, res = route_to r /\ chosen rt m names r) \/
    (res = reject "model_ambiguous" StatusBadRequest /\ strategy h = "" /\ (1 < length names)%nat) \/
    (res = cooling_down /\ names <> [] /\ none_usable rt m names) \/
    (res = reject "routing_price_unavailable" StatusServiceUnavailable /\ unordered rt m names)).
  { intros name names' -> res. subst res. case_bool_decide as Hn.
    - subst names'. left. apply singleRoute_spec.
    - destruct (String.eqb_spec (strategy h) "") as [He|He].
      + right. left. split_and!; try done. destruct names'; [done|]. cbn. lia.
      + destruct (sharedRoute_spec rt m (name :: names')) as [?|[[? ?]|?]]; [by left|right; right; left; done|by do 3 right]. }
  unfold routesForBareModel. destruct names as [|name names'] eqn:En; [by right; left|]. rewrite <- En in *.
  specialize (Hplain name names' En). cbn zeta in Hplain.
  destruct key as [key|]; [destruct (String.eqb (strategy h) "random")|].
  - rewrite En in *. destruct (sessionRoute_spec rt m (name :: names') key) as [?|[? ?]]; [by left|].
    do 3 right. left. done.
  - destruct (bool_decide (names' = [])); [|destruct (String.eqb (strategy h) "")]; cbn [snd]; rewrite En in *; tauto.
  - destruct (bool_decide (names' = [])); [|destruct (String.eqb (strategy h) "")]; cbn [snd]; rewrite En in *; tauto.
Qed.

(** ** The automatic chain *)

Lemma chain_find_valid s available now' i : AutoChain.choose_index s now' available = Some i -> AutoChain.valid s now' available i = true.
Proof. intros H. pose proof (AutoChainFacts.choose_index_spec s now' available) as Hs. rewrite H in Hs. by destruct Hs. Qed.

(** [valid] reads the entries and the failures only. *)
Lemma valid_same s s' now' available i :
  AutoChain.chain s' = AutoChain.chain s -> AutoChain.failed s' = AutoChain.failed s ->
  AutoChain.failure_heap s' = AutoChain.failure_heap s ->
  AutoChain.valid s' now' available i = AutoChain.valid s now' available i.
Proof. intros Hc Hf Hh. unfold AutoChain.valid, AutoChain.failure_at. by rewrite Hc, Hf, Hh. Qed.

Lemma chain_selection_valid s id sticky available now' s' c :
  AutoChain.selectForSessionAvailable Sum256 s id sticky available now' = (s', Some c) ->
  exists i, AutoChain.valid s now' available i = true /\ c = AutoChain.selection s i.
Proof.
  unfold AutoChain.selectForSessionAvailable. destruct (_ || _); [done|].
  set (s1 := if sticky then AutoChain.sweep s now' else s).
  assert (Hs1 : AutoChain.chain s1 = AutoChain.chain s /\ AutoChain.failed s1 = AutoChain.failed s /\
                AutoChain.failure_heap s1 = AutoChain.failure_heap s).
  { subst s1. destruct sticky; [|done]. destruct (AutoChainFacts.sweep_fields s now') as (? & _ & ? & ? & _). done. }
  clearbody s1. destruct Hs1 as (Hc & Hf & Hh).
  assert (Hsel : forall i, AutoChain.selection s1 i = AutoChain.selection s i) by (intros i; unfold AutoChain.selection; by rewrite Hc).
  destruct (if sticky then _ else None) as [i|] eqn:Eb.
  - intros [= _ <-]. exists i. split; [|by rewrite Hsel]. destruct sticky; [|done].
    destruct (AutoChain.sessions s1 !! _) as [b|]; [|done].
    destruct (negb _ && AutoChain.valid _ _ _ _) eqn:Ev; [|done]. injection Eb as <-.
    apply andb_true_iff in Ev as [_ Ev]. by rewrite <- (valid_same s s1).
  - set (s2 := if sticky then _ else s1).
    assert (Hs2 : AutoChain.chain s2 = AutoChain.chain s /\ AutoChain.failed s2 = AutoChain.failed s /\
                  AutoChain.failure_heap s2 = AutoChain.failure_heap s) by (subst s2; by destruct sticky).
    clearbody s2. destruct Hs2 as (Hc2 & Hf2 & Hh2).
    destruct (AutoChain.choose_index s2 now' available) as [i|] eqn:Ei; [|done].
    intros [= _ <-]. exists i. apply chain_find_valid in Ei. split; [by rewrite <- (valid_same s s2)|].
    unfold AutoChain.selection. by rewrite Hc2.
Qed.

(** The route is the entry of the chain at the index that it carries. *)
Definition in_chain (s : AutoChain.autoChainState) (r : routeStep) : Prop :=
  exists i, route_autoChainIndex r = Some i /\ AutoChain.chain s !! i = Some (ChainEntry (route_provider r) (route_model r)).

(** What the chain selects is available. *)
Lemma chain_select_spec s key f now' s' r :
  AutoChain.selectRouteAvailable Sum256 s key (Some f) now' = (s', Some r) ->
  f (ChainEntry (route_provider r) (route_model r)) = true /\ in_chain s r.
Proof.
  unfold AutoChain.selectRouteAvailable. destruct (AutoChain.selectForSessionAvailable _ _ _ _ _ _) as [s1 [c|]] eqn:E; [|done].
  intros [= _ <-]. apply chain_selection_valid in E as (i & Hv & ->).
  unfold AutoChain.valid in Hv. unfold in_chain. cbn. unfold AutoChain.selection.
  destruct (AutoChain.chain s !! i) as [[p m]|] eqn:Ei; [|done]. apply andb_true_iff in Hv as [_ Hv]. eauto.
Qed.

Lemma failure_at_same s s' i :
  AutoChain.failed s' = AutoChain.failed s -> AutoChain.failure_heap s' = AutoChain.failure_heap s ->
  AutoChain.failure_at s' i = AutoChain.failure_at s i.
Proof. intros Hf Hh. unfold AutoChain.failure_at. by rewrite Hf, Hh. Qed.

(** The chain is refused only when no entry from the current one on is valid. *)
Lemma chain_select_none s key f now' s' :
  AutoChain.selectRouteAvailable Sum256 s key (Some f) now' = (s', None) ->
  AutoChain.session_id key = "" \/ AutoChain.chain s = [] \/
  forall i, (AutoChain.next s <= i)%nat -> AutoChain.valid s now' (Some f) i = false.
Proof.
  unfold AutoChain.selectRouteAvailable. destruct (AutoChain.selectForSessionAvailable _ _ _ _ _ _) as [s1 [c|]] eqn:E; [done|].
  intros _. revert E. unfold AutoChain.selectForSessionAvailable.
  destruct (String.eqb_spec (AutoChain.session_id key) "") as [Hid|Hid]; [by left|]. cbn [orb].
  case_bool_decide as Hc; [by right; left|]. set (sticky := bool_decide (is_Some key)).
  set (s2 := if sticky then AutoChain.sweep s now' else s).
  assert (Hs2 : AutoChain.chain s2 = AutoChain.chain s /\ AutoChain.failed s2 = AutoChain.failed s /\
                AutoChain.failure_heap s2 = AutoChain.failure_heap s /\ AutoChain.next s2 = AutoChain.next s).
  { subst s2. destruct sticky; [|done]. destruct (AutoChainFacts.sweep_fields s now') as (? & ? & ? & ? & _). done. }
  clearbody s2. destruct Hs2 as (Hch & Hf & Hh & Hn).
  destruct (if sticky then _ else None) as [i|]; [done|].
  set (s3 := if sticky then _ else s2).
  assert (Hs3 : AutoChain.chain s3 = AutoChain.chain s /\ AutoChain.failed s3 = AutoChain.failed s /\
                AutoChain.failure_heap s3 = AutoChain.failure_heap s /\ AutoChain.next s3 = AutoChain.next s) by (subst s3; by destruct sticky).
  clearbody s3. destruct Hs3 as (Hch3 & Hf3 & Hh3 & Hn3).
  pose proof (AutoChainFacts.choose_index_spec s3 now' (Some f)) as Hspec.
  destruct (AutoChain.choose_index s3 now' (Some f)); [done|]. intros _. right. right. intros i Hi.
  rewrite <- (valid_same s s3) by done. apply Hspec. by rewrite Hn3.
Qed.

Lemma boundRoute_keeps_chain s key now' :
  let s' := (AutoChain.boundRoute Sum256 s key now').1 in
  AutoChain.chain s' = AutoChain.chain s /\ AutoChain.failed s' = AutoChain.failed s /\
  AutoChain.failure_heap s' = AutoChain.failure_heap s /\ AutoChain.next s' = AutoChain.next s.
Proof.
  unfold AutoChain.boundRoute. destruct key as [k|]; [|done]. destruct (AutoChain.sessions s !! _) as [b|]; [|done].
  destruct (AutoChain.chain s !! _) as [e|]; [|done]. by destruct (AutoChain.expired _ _ _).
Qed.

Lemma boundRoute_index s key now' s' r :
  AutoChain.boundRoute Sum256 s key now' = (s', Some r) -> in_chain s r.
Proof.
  unfold AutoChain.boundRoute. destruct key as [k|]; [|done]. destruct (AutoChain.sessions s !! _) as [b|]; [|done].
  destruct (AutoChain.chain s !! _) as [[p m]|] eqn:E; [|done]. destruct (AutoChain.expired _ _ _); [done|].
  intros [= _ <-]. by exists (AutoChain.binding_index b).
Qed.

Lemma chain_redirected_fields decision r :
  let r' := chain_redirected decision r in
  route_provider r' = route_provider r /\ route_model r' = route_model r /\ route_autoChainIndex r' = route_autoChainIndex r.
Proof. destruct decision as [d|]; [|done]. unfold chain_redirected. by destruct (String.eqb _ _). Qed.

(** No entry of the chain from the current position on can be used. *)
Definition exhausted (rt : runtime) (protocol body : string) (key : option sharedModelSessionKey) : Prop :=
  AutoChain.chain (autoChain rt) = [] \/ AutoChain.session_id key = "" \/
  forall i e, (AutoChain.next (autoChain rt) <= i)%nat -> AutoChain.chain (autoChain rt) !! i = Some e ->
    failure_eligible (AutoChain.failure_at (autoChain rt) i) now = false \/ compatible protocol body e = false \/
    modelRouteAvailable h rt (entry_provider e) (entry_model e) now = false.

Definition chain_justified (rt : runtime) (protocol body : string) (r : routeStep) : Prop :=
  compatible protocol body (ChainEntry (route_provider r) (route_model r)) = true /\ in_chain (autoChain rt) r /\
  (modelRouteAvailable h rt (route_provider r) (route_model r) now = true \/
   (route_holdAffinity r = true /\ blocked (routeWaitLocked h rt r now) = true)).

Lemma exhausted_by_chain rt c protocol body key s' :
  AutoChain.chain c = AutoChain.chain (autoChain rt) /\ AutoChain.failed c = AutoChain.failed (autoChain rt) /\
  AutoChain.failure_heap c = AutoChain.failure_heap (autoChain rt) /\ AutoChain.next c = AutoChain.next (autoChain rt) ->
  AutoChain.selectRouteAvailable Sum256 c key
    (Some (fun e => compatible protocol body e && modelRouteAvailable h rt (entry_provider e) (entry_model e) now)) now = (s', None) ->
  exhausted rt protocol body key.
Proof.
  intros (Hc & Hf & Hh & Hn) [Hid|[Hnil|Hv]]%chain_select_none; [by right; left|left; congruence|right; right].
  intros i e Hi He. rewrite <- Hn in Hi. specialize (Hv i Hi). unfold AutoChain.valid in Hv. rewrite Hc, He in Hv.
  rewrite (failure_at_same (autoChain rt) c) in Hv by done. rewrite !andb_false_iff in Hv. tauto.
Qed.

Lemma autoRoute_spec rt protocol body key :
  let res := (autoRoute Sum256 HasAnthropicServerTools PrepareRequest h now rt protocol body key).2 in
  (exists r, res = route_to r /\ chain_justified rt protocol body r) \/
  (res = reject "auto_chain_unconfigured" StatusBadRequest /\ AutoChain h = []) \/
  (res = reject "unsupported_request_feature" StatusBadRequest /\ forall e, e ∈ AutoChain h -> compatible protocol body e = false) \/
  (res = reject "auto_chain_exhausted" StatusServiceUnavailable /\ exhausted rt protocol body key).
Proof.
  unfold autoRoute. case_bool_decide as He; [by right; left|].
  destruct (existsb _ _) eqn:Ex; cbn [negb].
  2: { do 2 right. left. split; [done|]. intros e Hin%list_elem_of_In. apply not_true_iff_false. intros Hc.
       apply not_true_iff_false in Ex. apply Ex, existsb_exists. eauto. }
  pose proof (boundRoute_keeps_chain (autoChain rt) key now) as Hsame.
  destruct (AutoChain.boundRoute _ _ _ _) as [c preferred] eqn:Eb. cbn [fst] in Hsame.
  set (rt1 := rt <| autoChain := c |>).
  set (held := chain_held _ _ _ _ rt1 _ _ _).
  assert (Hheld : match held with Some (r, true) => chain_justified rt protocol body r | _ => True end).
  { subst held. unfold chain_held. destruct preferred as [r|]; [|done]. destruct (chain_compatible _ _ _ _ _ _) eqn:Ec; [|done].
    pose proof (retained_spec rt1 r (compatible_chain_routes HasAnthropicServerTools PrepareRequest h protocol body)) as Hr.
    destruct (retainedRoute _ _ _ _ _) as [r' retain]. destruct retain; [|done]. destruct Hr as (Hp & Hm & Hi & Hh).
    destruct (Hh eq_refl) as [? ?]. apply boundRoute_index in Eb. split_and!; [by rewrite Hp, Hm|by unfold in_chain; rewrite Hi, Hp, Hm|by right]. }
  clearbody held. destruct held as [[r []]|]; [left; eauto| |].
  all: destruct (AutoChain.selectRouteAvailable _ _ _ _ _) as [c' [r'|]] eqn:Es;
    [|do 3 right; split; [done|]; by apply (exhausted_by_chain _ _ _ _ _ _ Hsame Es)].
  all: apply chain_select_spec in Es as [Hf Hi]; cbn beta in Hf; apply andb_true_iff in Hf as [Hc Ha]; left.
  all: unfold in_chain in Hi; change (autoChain rt1) with c in Hi; rewrite (proj1 Hsame) in Hi.
  all: match goal with |- context [chain_redirected ?d ?r] => set (dec := d); pose proof (chain_redirected_fields dec r) as (Hp & Hm & Hx) end.
  all: eexists; split; [reflexivity|]; unfold chain_justified, in_chain; rewrite Hp, Hm, Hx; split_and!; [exact Hc|exact Hi|by left].
Qed.

(** ** The outcome of a resolution *)

(** The errors of a resolution and what each one says. *)
Inductive refused (rt : runtime) (modelID protocol body : string) (key : option sharedModelSessionKey) : string -> Z -> Prop :=
| auto_qualified ref :
    parseQualifiedModelID modelID = Some (ref, "auto") -> is_Some (providers h !! ref) ->
    refused rt modelID protocol body key "auto_model_must_be_unqualified" StatusBadRequest
| tools_unsupported ref m :
    parseQualifiedModelID modelID = Some (ref, m) -> is_Some (providers h !! ref) -> native_tools protocol body ->
    supportsNativeAnthropicTools h ref = false ->
    refused rt modelID protocol body key "unsupported_request_feature" StatusBadRequest
| body_unsupported qualified :
    looked_up modelID qualified ->
    candidates modelID qualified protocol body = [] -> bareModelCandidates h modelID qualified <> [] ->
    refused rt modelID protocol body key "unsupported_request_feature" StatusBadRequest
| chain_unconfigured :
    modelID = "auto" -> AutoChain h = [] -> refused rt modelID protocol body key "auto_chain_unconfigured" StatusBadRequest
| chain_unsupported :
    modelID = "auto" -> (forall e, e ∈ AutoChain h -> compatible protocol body e = false) ->
    refused rt modelID protocol body key "unsupported_request_feature" StatusBadRequest
| chain_exhausted :
    modelID = "auto" -> exhausted rt protocol body key ->
    refused rt modelID protocol body key "auto_chain_exhausted" StatusServiceUnavailable
| no_provider qualified :
    looked_up modelID qualified -> candidates modelID qualified protocol body = [] ->
    refused rt modelID protocol body key (if qualified then "provider_not_found" else "model_not_found") StatusNotFound
| ambiguous qualified :
    looked_up modelID qualified -> strategy h = "" -> (1 < length (candidates modelID qualified protocol body))%nat ->
    refused rt modelID protocol body key "model_ambiguous" StatusBadRequest
| all_cooling qualified :
    looked_up modelID qualified -> candidates modelID qualified protocol body <> [] ->
    none_usable rt modelID (candidates modelID qualified protocol body) ->
    refused rt modelID protocol body key "provider_keys_cooling_down" StatusServiceUnavailable
| no_price qualified :
    looked_up modelID qualified -> unordered rt modelID (candidates modelID qualified protocol body) ->
    refused rt modelID protocol body key "routing_price_unavailable" StatusServiceUnavailable.

Lemma bareRoute_outcome rt modelID protocol body qualified key :
  looked_up modelID qualified ->
  let res := (bareRoute ToUpper ToLower hostname HasAnthropicServerTools PrepareRequest choose h now rt modelID protocol
                body qualified key).2 in
  (exists r, res = route_to r /\ justified rt modelID protocol body key r) \/
  (exists code status, res = reject code status /\ refused rt modelID protocol body key code status).
Proof.
  intros Hq. unfold bareRoute. destruct (bool_decide _ && _ && _) eqn:E.
  { right. do 2 eexists. split; [reflexivity|]. rewrite !andb_true_iff, bool_decide_eq_true, negb_true_iff, bool_decide_eq_false in E.
    destruct E as [[E1 E2] _]. by eapply body_unsupported. }
  clear E. set (names := routingCandidates _ _ _ _ _ _ _).
  destruct (routesForBareModel_spec rt modelID names qualified key)
    as [(r & -> & Hin & Hm & Hj)|[[-> Hn]|[[-> [Hs Hl]]|[[-> [Hn Hu]]|[-> Hp]]]]].
  - left. exists r. split; [done|]. eapply by_candidate; done.
  - right. do 2 eexists. split; [reflexivity|]. by eapply no_provider.
  - right. do 2 eexists. split; [reflexivity|]. by eapply ambiguous.
  - right. do 2 eexists. split; [reflexivity|]. by eapply all_cooling.
  - right. do 2 eexists. split; [reflexivity|]. by eapply no_price.
Qed.

Lemma resolution_outcome rt modelID protocol body key :
  let res := (resolve rt modelID protocol body key).2 in
  (exists r, res = route_to r /\ justified rt modelID protocol body key r) \/
  (exists code status, res = reject code status /\ refused rt modelID protocol body key code status).
Proof.
  unfold resolveRoutes. destruct (parseQualifiedModelID modelID) as [[ref m]|] eqn:Ep.
  - case_bool_decide as Hp.
    2: { apply bareRoute_outcome. unfold looked_up. rewrite Ep. split; [done|]. by apply eq_None_not_Some. }
    destruct (String.eqb_spec m "auto") as [->|Hm].
    { right. do 2 eexists. split; [reflexivity|]. by eapply auto_qualified. }
    destruct (_ && negb _) eqn:E.
    + right. do 2 eexists. split; [reflexivity|]. rewrite !andb_true_iff, negb_true_iff, String.eqb_eq in E.
      destruct E as [[E1 E2] E3]. by eapply tools_unsupported.
    + left. eexists. split; [reflexivity|]. apply (by_name _ _ _ _ _ ref m); [done..|]. intros [-> Ht].
      rewrite Ht in E. cbn in E. by apply negb_false_iff in E.
  - destruct (String.eqb_spec modelID "auto") as [->|Hm].
    2: { apply bareRoute_outcome. unfold looked_up. by rewrite Ep. }
    destruct (autoRoute_spec rt protocol body key) as [(r & -> & Hc & (i & Hi & He) & Hj)|[[-> ?]|[[-> ?]|[-> ?]]]].
    + left. exists r. split; [done|]. by eapply by_chain.
    + right. do 2 eexists. split; [reflexivity|]. by apply chain_unconfigured.
    + right. do 2 eexists. split; [reflexivity|]. by apply chain_unsupported.
    + right. do 2 eexists. split; [reflexivity|]. by apply chain_exhausted.
Qed.

End resolve.
