(* ===== verification/RoutingOrder.v ===== *)
(** * Routing: price order, publication of a view, model identifiers

    The price order is total and the cheapest provider comes first; publishing
    a view drops exactly what the new configuration does not support; every
    advertised model identifier resolves to the provider that advertises it. *)

From S2P Require Import Prelude GoStrings GoFloat Diagnostics Errors Availability KeyPool KeyPoolFacts Pricing Routes.
From Stdlib Require Import SpecFloat.
From S2P Require AutoChain AutoChainFacts Affinity.
From S2P Require Import View Routing RoutingFacts RoutingResolve.

#[local] Existing Instances Affinity.sharedModelRoute_eq_dec Affinity.sharedModelRoute_countable
  Affinity.sharedModelBinding_eta Affinity.sharedModelAffinity_eta.

(** ** The order of priced providers *)

Definition has_cost (a : pricedProvider) : Prop := Float.is_nan (cost a) = false.

#[export] Instance priced_le_total : Total priced_le.
Proof.
  intros [n c] [n' c']. unfold priced_le, priced_before. cbn [cost priced_name]. rewrite (FloatOrder.eq_sym c' c).
  destruct (Float.eq c c').
  - unfold String.ltb. rewrite (String.compare_antisym n' n). destruct (String.compare n n'); auto.
  - destruct (Float.lt c c') eqn:E; [|by right]. left. by apply Float.lt_asym.
Qed.

(** Below or equal, on numbers. *)
Definition cost_le (a b : pricedProvider) : Prop :=
  Float.lt (cost a) (cost b) = true \/ (Float.eq (cost a) (cost b) = true /\ Sort.le (priced_name a) (priced_name b)).

Lemma ltb_leb s t : String.ltb t s = false <-> Sort.le s t.
Proof. unfold Sort.le, String.ltb, String.leb. rewrite (String.compare_antisym t s). by destruct (String.compare s t). Qed.

Lemma priced_le_cost a b : has_cost a -> has_cost b -> priced_le a b <-> cost_le a b.
Proof.
  intros Ha Hb. unfold priced_le, priced_before, cost_le. rewrite <- ltb_leb, (FloatOrder.eq_sym (cost b)).
  destruct (Float.eq (cost a) (cost b)) eqn:E.
  - split; [auto|]. intros [H|[_ H]]; [|done]. apply FloatOrder.lt_not_eq in H. congruence.
  - destruct (FloatOrder.total (cost a) (cost b) Ha Hb) as [H|[H|H]]; [|congruence|].
    + rewrite (Float.lt_asym _ _ H). naive_solver.
    + rewrite H. split; [done|]. intros [H'|[? _]]; [|done]. rewrite (Float.lt_asym _ _ H) in H'. done.
Qed.

#[export] Instance cost_le_trans : Transitive cost_le.
Proof.
  intros a b c [Hab|[Hab Nab]] [Hbc|[Hbc Nbc]].
  - left. by eapply FloatOrder.lt_trans.
  - left. by eapply FloatOrder.lt_eq_trans.
  - left. by eapply FloatOrder.eq_lt_trans.
  - right. split; [by eapply FloatOrder.eq_trans|]. exact (Sort.le_trans _ _ _ Nab Nbc).
Qed.

Lemma sorted_costs l : Forall has_cost l -> StronglySorted cost_le (merge_sort priced_le l).
Proof.
  intros Hl. apply Sorted_StronglySorted; [apply _|].
  assert (Hs : Forall has_cost (merge_sort priced_le l)) by (by rewrite merge_sort_Permutation).
  assert (H : Sorted priced_le (merge_sort priced_le l)) by (apply Sorted_merge_sort; apply _).
  induction H as [|a l' H IH Hd]; [constructor|]. apply Forall_cons in Hs as [Ha Hs].
  constructor; [by apply IH|]. destruct Hd as [|b l'' Hab]; constructor. apply Forall_cons in Hs as [Hb _].
  by apply priced_le_cost.
Qed.

Section pricing.
Context (ToUpper ToLower : string -> string) (hostname : string -> option string) (choose : Z -> Z) (h : handler).
#[local] Abbreviation price_cost := (provider_cost ToUpper ToLower hostname h).

Lemma provider_cost_finite model name c x : price_cost model name = Some (c, x) -> Float.is_nan x = false /\ c <> "".
Proof.
  unfold provider_cost. destruct (price_of _ _ _ _ _) as [p|]; [|done]. destruct (Validate ToUpper p) eqn:Ev; [done|].
  destruct (InputCacheHit p), (InputCacheMiss p), (OutputPrice p); try done. destruct (_ || _) eqn:E; [done|].
  intros [= <- <-]. rewrite orb_false_iff in E. split; [by destruct E|]. intros Hc. unfold Validate in Ev. by rewrite Hc in Ev.
Qed.

Lemma price_all_costs model names : forall currency l,
  price_all ToUpper ToLower hostname h model names currency = Some l ->
  exists c, (currency = "" \/ c = currency) /\
    Forall (fun a => has_cost a /\ price_cost model (priced_name a) = Some (c, cost a)) l.
Proof.
  induction names as [|name names IH]; intros currency l; cbn [price_all].
  { intros [= <-]. exists currency. split; [by right|constructor]. }
  destruct (price_cost model name) as [[c x]|] eqn:Ec; [|done]. destruct (provider_cost_finite _ _ _ _ Ec) as [Hx Hc].
  destruct (_ || _) eqn:E; [|done]. destruct (price_all _ _ _ _ _ names _) as [l'|] eqn:El; cbn; [|done].
  intros [= <-]. apply IH in El as (c' & Hc' & Hl'). exists c'.
  assert (c' = c) as ->.
  { destruct (String.eqb_spec currency "") as [->|Hne]; [by destruct Hc'|]. cbn in E.
    apply String.eqb_eq in E as ->. by destruct Hc'. }
  split; [|by constructor]. destruct (String.eqb_spec currency "") as [->|Hne]; [by left|right].
  cbn in E. by apply String.eqb_eq in E.
Qed.

(** The price order.  Under [price_priority] an order exists only when every
    candidate has a valid price in one common currency; then it lists each
    candidate once, from the lowest to the highest total rate, equal rates by
    name: the choice is deterministic and nothing cheaper is passed over. *)
Theorem price_order_sorted model names ordered :
  strategy h = "price_priority" ->
  orderSharedModelProviders ToUpper ToLower hostname choose h model names = inr ordered ->
  ordered ≡ₚ names /\
  exists currency (costs : list pricedProvider),
    priced_name <$> costs = ordered /\ StronglySorted cost_le costs /\
    Forall (fun a => has_cost a /\ price_cost model (priced_name a) = Some (currency, cost a)) costs.
Proof.
  intros Hs Ho. split; [by eapply order_perm|]. revert Ho. unfold orderSharedModelProviders. rewrite Hs. cbn.
  destruct (price_all _ _ _ _ _ _ _) as [l|] eqn:E; [|done]. intros [= <-].
  apply price_all_costs in E as (c & _ & Hl). exists c, (merge_sort priced_le l). split; [done|].
  split; [|by rewrite merge_sort_Permutation]. apply sorted_costs. eapply Forall_impl; [exact Hl|]. by intros a [? _].
Qed.
End pricing.

(** ** Publication of a view *)

Lemma activate_entries gens valid l : forall s t, is_Some (entries (foldl (activate_step gens valid) s l) !! t) ->
  (t ∈ l.*1 /\ kept gens valid t = true) \/ (t ∉ l.*1 /\ is_Some (entries s !! t)).
Proof.
  induction l as [|[u p] l IH]; intros s t; cbn [foldl fmap list_fmap fst].
  { intros H. right. split; [apply not_elem_of_nil|done]. }
  intros [[Hin Hk]|[Hout Hs]]%IH; [left; by split; [right|]|].
  destruct (decide (t = u)) as [->|Hne].
  - left. split; [left|]. unfold activate_step in Hs. destruct (kept gens valid u) eqn:E; [done|].
    cbn in Hs. rewrite lookup_delete_eq in Hs. by destruct Hs.
  - right. split; [by intros [?|?]%elem_of_cons|]. unfold activate_step in Hs. destruct (kept gens valid u).
    + destruct (heap s !! p) as [e|]; [|done]. cbn in Hs. by rewrite lookup_insert_ne in Hs.
    + cbn in Hs. by rewrite lookup_delete_ne in Hs.
Qed.

(** Publishing keeps a failure of a route only when it is in scope and of the
    current generation. *)
Definition failure_kept (ok : Affinity.sharedModelBinding -> bool) (generation : string -> Z) (r : Affinity.sharedModelRoute) : Prop :=
  ok {| Affinity.bound_provider := Affinity.shared_provider r; Affinity.lastUsed := Time.zero;
        Affinity.bound_model := Affinity.shared_model r; Affinity.bound_generation := Affinity.shared_generation r |} = true /\
  Affinity.shared_generation r = generation (Affinity.shared_provider r).

Lemma activate_failures ok generation l : forall a r,
  is_Some (Affinity.failedRoutes (foldl (Affinity.activate_route ok (Some generation)) a l) !! r) ->
  (r ∈ l.*1 /\ failure_kept ok generation r) \/ (r ∉ l.*1 /\ is_Some (Affinity.failedRoutes a !! r)).
Proof.
  induction l as [|[u p] l IH]; intros a r; cbn [foldl fmap list_fmap fst].
  { intros H. right. split; [apply not_elem_of_nil|done]. }
  intros [[Hin Hk]|[Hout Hs]]%IH; [left; by split; [right|]|].
  unfold Affinity.activate_route in Hs. cbn [fst snd] in Hs. destruct (decide (r = u)) as [->|Hne].
  - left. split; [left|]. unfold failure_kept. destruct (negb _ || negb _) eqn:E.
    + cbn in Hs. rewrite lookup_delete_eq in Hs. by destruct Hs.
    + by rewrite orb_false_iff, !negb_false_iff, Z.eqb_eq in E.
  - right. split; [by intros [?|?]%elem_of_cons|]. destruct (negb _ || negb _).
    + cbn in Hs. by rewrite lookup_delete_ne in Hs.
    + destruct (Affinity.route_failures a !! p); [|done]. cbn in Hs. by rewrite lookup_insert_ne in Hs.
Qed.

Lemma range_keys `{Countable K} {V} {R : MapRange K V} (m : gmap K V) k : k ∈ (range m).*1 <-> is_Some (m !! k).
Proof.
  rewrite list_elem_of_fmap. split.
  - intros ([k' v] & -> & Hin%elem_of_range). eauto.
  - intros [v Hv]. exists (k, v). split; [done|]. by apply elem_of_range.
Qed.

Lemma activate_keeps_epoch gens valid l : forall s, epoch (foldl (activate_step gens valid) s l) = epoch s.
Proof.
  induction l as [|[t p] l IH]; intros s; [done|]. cbn [foldl]. rewrite IH. unfold activate_step.
  destruct (kept gens valid t); [|done]. by destruct (heap s !! p).
Qed.

Lemma activate_route_fields ok generation l : forall a,
  let a' := foldl (Affinity.activate_route ok generation) a l in
  Affinity.activeEpoch a' = Affinity.activeEpoch a /\ Affinity.bindings a' = Affinity.bindings a.
Proof.
  induction l as [|[r p] l IH]; intros a; [done|]. cbn [foldl]. destruct (IH (Affinity.activate_route ok generation a (r, p))) as [-> ->].
  unfold Affinity.activate_route. destruct (_ || _); [done|]. by destruct (Affinity.route_failures a !! _).
Qed.

Section publication.
Context {RangeTargets : MapRange availabilityTarget entry_ptr} {RangeFailed : MapRange nat failure_ptr}
        {RangeRoutes : MapRange Affinity.sharedModelRoute failure_ptr}.

Lemma activateRouting_parts h prep rt now :
  availability (activateRouting h prep rt now) =
    activate (availability rt) (routingEpoch h) (providerGenerations h) (Some (upstreamScopeAllows h)) /\
  sharedAffinity (activateRouting h prep rt now) =
    Affinity.activateForView (sharedAffinity rt) (routingEpoch h) (binding_in_scope h) (Some (View.generation h))
      (Some (providerBindingPresent h)).
Proof. by destruct prep as [[source p]|]. Qed.

(** Publishing a view fences the old one.  Both health tables move to the new
    epoch; a session keeps its provider exactly when that provider is present
    and serves the model in the new view, under its new generation; and no
    health entry or route failure survives for another generation or outside
    the scope of the new configuration. *)
Theorem publication_prunes h prep rt now :
  let rt' := activateRouting h prep rt now in
  let served b := binding_in_scope h b && providerBindingPresent h (Affinity.bound_provider b) in
  epoch (availability rt') = routingEpoch h /\ Affinity.activeEpoch (sharedAffinity rt') = routingEpoch h /\
  (forall key, Affinity.bindings (sharedAffinity rt') !! key =
     match Affinity.bindings (sharedAffinity rt) !! key with
     | Some b => if served b then Some (b <| Affinity.bound_generation := View.generation h (Affinity.bound_provider b) |>) else None
     | None => None
     end) /\
  (forall t, is_Some (entries (availability rt') !! t) -> kept (providerGenerations h) (Some (upstreamScopeAllows h)) t = true) /\
  (forall r, is_Some (Affinity.failedRoutes (sharedAffinity rt') !! r) ->
     failure_kept (binding_in_scope h) (View.generation h) r).
Proof.
  intros rt' served. subst rt'. destruct (activateRouting_parts h prep rt now) as [-> ->].
  unfold activate, Affinity.activateForView.
  set (a1 := (sharedAffinity rt) <| Affinity.activeEpoch := routingEpoch h |>).
  destruct (activate_route_fields (binding_in_scope h) (Some (View.generation h)) (range (Affinity.failedRoutes a1)) a1) as [He Hb].
  split; [by rewrite activate_keeps_epoch|]. split; [exact He|]. split; [|split].
  - intros key. change (Affinity.bindings ((?a) <| Affinity.bindings := ?x |>)) with x. rewrite lookup_omap, Hb.
    change (Affinity.bindings a1) with (Affinity.bindings (sharedAffinity rt)).
    destruct (Affinity.bindings (sharedAffinity rt) !! key) as [b|]; [|done]. cbn.
    unfold Affinity.activate_binding, served. by destruct (binding_in_scope h b), (providerBindingPresent h _).
  - intros t [[_ Hk]|[Hout Hin]]%activate_entries; [done|]. exfalso. apply Hout, range_keys. exact Hin.
  - intros r Hr. change (Affinity.failedRoutes (?a <| Affinity.bindings := ?x |>)) with (Affinity.failedRoutes a) in Hr.
    apply activate_failures in Hr as [[_ Hk]|[Hout Hin]]; [done|]. exfalso. by apply Hout, range_keys.
Qed.
End publication.

(** ** Qualified model identifiers *)

Definition slash : Ascii.ascii := ascii_of_byte 47.

(** The two parts of an identifier that the gateway accepts. *)
Record qualified_parts (name m : string) : Prop := {
  parts_name : name <> "";
  parts_no_slash : IndexByte name slash = None;
  parts_model : m <> "";
  parts_name_trim : Strings.TrimSpace name = name;
  parts_model_trim : Strings.TrimSpace m = m;
  parts_control : control_bytes (qualifiedModelID name m) = false;
}.

Lemma substring_all s : String.substring 0 (String.length s) s = s.
Proof. induction s as [|a s IH]; [done|]. cbn. by rewrite IH. Qed.

Lemma substring_left s t : String.substring 0 (String.length s) (s +:+ t) = s.
Proof.
  induction s as [|a s IH]; [by destruct t|]. change (String a s +:+ t) with (String a (s +:+ t)). cbn. by rewrite IH.
Qed.

Lemma substring_right s t n k : String.substring (String.length s + n) k (s +:+ t) = String.substring n k t.
Proof. induction s as [|a s IH]; [done|]. change (String a s +:+ t) with (String a (s +:+ t)). exact IH. Qed.

Lemma length_append s t : String.length (s +:+ t) = (String.length s + String.length t)%nat.
Proof. induction s as [|a s IH]; [done|]. change (String a s +:+ t) with (String a (s +:+ t)). cbn. by rewrite IH. Qed.

Lemma IndexByte_app s t : IndexByte s slash = None -> IndexByte (s +:+ String slash t) slash = Some (String.length s).
Proof.
  induction s as [|a s IH]; [done|]. change (String a s +:+ String slash t) with (String a (s +:+ String slash t)).
  cbn [IndexByte String.length]. destruct (Ascii.eqb a slash); [done|].
  intros H. rewrite IH; [done|]. by destruct (IndexByte s slash).
Qed.

Lemma IndexByte_split v i : IndexByte v slash = Some i ->
  v = String.substring 0 i v +:+ String slash (String.substring (S i) (String.length v - S i) v) /\
  IndexByte (String.substring 0 i v) slash = None /\ String.length (String.substring 0 i v) = i /\ (i < String.length v)%nat.
Proof.
  revert i. induction v as [|a v IH]; intros i; cbn [IndexByte]; [done|].
  destruct (Ascii.eqb_spec a slash) as [->|Ha].
  - intros [= <-]. cbn [String.length]. replace (S (String.length v) - 1)%nat with (String.length v) by lia.
    split; [|split_and!; [done|done|lia]]. change ("" +:+ ?x) with x. cbn [String.substring]. rewrite substring_all. done.
  - destruct (IndexByte v slash) as [j|] eqn:E; cbn; [|done]. intros [= <-]. destruct (IH j eq_refl) as (Hv & Hn & Hl & Hlt).
    split_and!.
    + change (String a v = String a (String.substring 0 j v +:+ String slash (String.substring (S j) (String.length v - S j) v))).
      by rewrite <- Hv.
    + change (IndexByte (String a (String.substring 0 j v)) slash = None). cbn [IndexByte].
      apply Ascii.eqb_neq in Ha. rewrite Ha. by rewrite Hn.
    + cbn. by rewrite Hl.
    + lia.
Qed.

(** Identifiers print and parse.  The listed form provider/model is read back
    as exactly its two parts, and whatever is accepted is the listed form of
    its parts: the first slash separates, a model may contain more of them. *)
Theorem qualified_id_roundtrip v name m :
  parseQualifiedModelID v = Some (name, m) <-> v = qualifiedModelID name m /\ qualified_parts name m.
Proof.
  unfold parseQualifiedModelID. change (ascii_of_byte 47) with slash. split.
  - destruct (IndexByte v slash) as [i|] eqn:E; [|done]. destruct (_ || _) eqn:E0; [done|].
    destruct (_ || control_bytes v) eqn:E1; [done|]. intros [= <- <-].
    destruct (IndexByte_split v i E) as (Hv & Hn & Hl & Hlt).
    rewrite orb_false_iff, Nat.leb_gt, Nat.eqb_neq in E0. rewrite !orb_false_iff, !negb_false_iff, !String.eqb_eq in E1.
    destruct E1 as [[E1 E2] E3]. split; [exact Hv|]. split; [|done| |done|done|].
    + intros H. rewrite H in Hl. cbn in Hl. lia.
    + intros H. apply (f_equal String.length) in Hv. rewrite length_append, Hl in Hv. cbn [String.length] in Hv.
      rewrite H in Hv. cbn in Hv. lia.
    + change (control_bytes (String.substring 0 i v +:+ String slash (String.substring (S i) (String.length v - S i) v)) = false).
      by rewrite <- Hv.
  - intros [-> [Hn Hs Hm Ht Htm Hc]].
    change (qualifiedModelID name m) with (name +:+ String slash m) in *. rewrite IndexByte_app by done.
    rewrite length_append. cbn [String.length].
    assert (String.length name <> 0)%nat by (by destruct name). assert (String.length m <> 0)%nat by (by destruct m).
    destruct (Nat.leb_spec (String.length name) 0); [lia|].
    destruct (Nat.eqb_spec (String.length name) (String.length name + S (String.length m) - 1)); [lia|]. cbn [orb].
    rewrite substring_left. replace (S (String.length name)) with (String.length name + 1)%nat by lia.
    rewrite substring_right. replace (String.length name + S (String.length m) - (String.length name + 1))%nat with (String.length m) by lia.
    cbn [String.substring]. rewrite substring_all, Ht, Htm, !String.eqb_refl, Hc. done.
Qed.

(** * A concrete configuration *)

From S2P Require Import Prelude GoStrings GoFloat Diagnostics Errors Availability KeyPool KeyPoolFacts Pricing Routes.
From Stdlib Require Import SpecFloat.
From S2P Require AutoChain Affinity.
From S2P Require Import View Routing RoutingFacts RoutingResolve.

Definition flat_price (cents : Z) : Price :=
  let rate := Some (decimal cents 100) in
  {| Currency := "USD"; Source := "list"; Version := "1"; InputCacheHit := rate; InputCacheMiss := rate; OutputPrice := rate |}.

Definition demo_provider (cents : Z) : Provider :=
  {| BaseURL := "https://example.org"; SupportedModels := ["chat"]; ModelAliases := {["chat" := "chat-v2"]};
     ProviderSwitchThreshold := None; ModelSwitchThresholds := ∅; Prices := {["chat-v2" := flat_price cents]};
     MaxActiveSessions := 0; ProviderBudget := None |}.

Definition demo_client : Client := {| Protocol := "openai"; MaxOutputTokens := 0; ModelOutputLimits := ∅ |}.

Definition demo_handler : handler :=
  {| Routing := Some {| SharedModelStrategy := "price_priority"; RoutingSwitchThreshold := Some 60 |};
     AutoChain := [ChainEntry "cheap" "chat"; ChainEntry "other" "chat"]; AccessToken := "t";
     providers := {["cheap" := demo_provider 20; "other" := demo_provider 90]};
     clients := {["cheap" := demo_client; "other" := demo_client]}; unavailableProviders := ∅; discovered := ∅;
     modelsKnown := ∅; providerGenerations := {["cheap" := 1; "other" := 1]}; routingEpoch := 1; reusedConnections := ∅;
     HealthDiagnostics := true; ActiveSessionIdleTimeoutSeconds := 60 |}.

(** The pool of [cheap] has one key, cooling until [until]. *)
Definition demo_fresh_pool : providerKeyPool :=
  match newProviderKeyPool ["k"] "b" ["l"] 0%nat
    as o return match o with Some _ => providerKeyPool | None => unit end with
  | Some p => p
  | None => tt
  end.
Definition demo_key_pool (until : time) : providerKeyPool := demo_fresh_pool <| cooldowns := [until] |>.

Definition demo_runtime (until : time) : runtime :=
  {| availability := newAvailabilityState <| epoch := 1 |> <| nextSweep := 10 * Hour |>;
     keyPools := {["cheap" := demo_key_pool until]}; retryStates := ∅;
     autoChain := AutoChain.newAutoChainState (AutoChain demo_handler) 0;
     sharedAffinity := Affinity.new_sharedModelAffinity |}.

Definition demo_now : time := Hour.
Definition demo_resolve (until : time) (modelID : string) : resolution :=
  (resolveRoutes (fun s => s) (fun s => s) (fun _ => None) (fun s => s) (fun _ => false) (fun _ _ _ _ _ => true)
     (fun _ => 0) demo_handler demo_now (demo_runtime until) modelID "openai" "{}" None).2.

Definition providers_of (r : resolution) : list (string * bool) := (fun r => (route_provider r, route_holdAffinity r)) <$> routes r.

(** The cheapest provider; held for 30 seconds of cooldown, left after 90. *)
Example demo_cheapest : providers_of (demo_resolve 0 "chat") = [("cheap", false)].
Proof. by vm_compute. Qed.
Example demo_held : providers_of (demo_resolve (demo_now + 30 * Second) "chat") = [("cheap", true)].
Proof. by vm_compute. Qed.
Example demo_switched : providers_of (demo_resolve (demo_now + 90 * Second) "chat") = [("other", false)].
Proof. by vm_compute. Qed.
Example demo_chain : providers_of (demo_resolve (demo_now + 90 * Second) "auto") = [("other", false)].
Proof. by vm_compute. Qed.
Example demo_unknown : demo_resolve 0 "missing/chat" = reject "provider_not_found" StatusNotFound.
Proof. by vm_compute. Qed.

Lemma demo_pool_wf until : pool_wf (demo_key_pool until).
Proof. split; by vm_compute. Qed.

Lemma demo_runtime_wf until : runtime_wf demo_handler (demo_runtime until) demo_now.
Proof.
  split; [by vm_compute|done|]. intros name p Hp. cbn in Hp. apply lookup_singleton_Some in Hp as [_ <-]. apply demo_pool_wf.
Qed.

Definition demo_route : routeStep := dynamic_route "cheap" "chat".

Lemma route_wait_agrees_with_selection_witness :
  let rt := demo_runtime (demo_now + 30 * Second) in
  modelRouteAvailable demo_handler rt "cheap" "chat" demo_now = negb (blocked (routeWaitLocked demo_handler rt demo_route demo_now)) /\
  blocked (routeWaitLocked demo_handler rt demo_route demo_now) = true.
Proof.
  intros rt. split; [|by vm_compute].
  apply (route_wait_agrees_with_selection demo_handler rt demo_route demo_now (demo_runtime_wf _)). by vm_compute.
Defined.

Lemma hold_within_threshold_witness :
  let rt := demo_runtime (demo_now + 30 * Second) in
  (cooldownChoiceLocked demo_handler rt demo_route [dynamic_route "other" "chat"] demo_now).2 = true /\
  0 <= threshold_of demo_handler demo_route <= 86400 /\
  wait_retryAt (routeWaitLocked demo_handler rt demo_route demo_now) <= demo_now + 60 * Second.
Proof.
  intros rt. split; [by vm_compute|]. split; [split; by vm_compute|].
  pose proof (hold_within_threshold demo_handler rt demo_route [dynamic_route "other" "chat"] demo_now (demo_runtime_wf _)
                ltac:(split; by vm_compute)) as H.
  cbn zeta in H. destruct (cooldownChoiceLocked _ _ _ _ _) as [d retain] eqn:E.
  assert (retain = true) as -> by (change retain with (snd (d, retain)); rewrite <- E; by vm_compute).
  cbv beta iota zeta in H. destruct H as (_ & _ & _ & H). apply (H (dynamic_route "other" "chat")).
  split; [by left|]. split; [done|]. by vm_compute.
Defined.

Lemma price_order_sorted_witness :
  orderSharedModelProviders (fun s => s) (fun s => s) (fun _ => None) (fun _ => 0) demo_handler "chat" ["other"; "cheap"] =
    inr ["cheap"; "other"] /\
  ["cheap"; "other"] ≡ₚ ["other"; "cheap"].
Proof.
  assert (E : orderSharedModelProviders (fun s => s) (fun s => s) (fun _ => None) (fun _ => 0) demo_handler "chat" ["other"; "cheap"] =
    inr ["cheap"; "other"]) by (by vm_compute).
  split; [exact E|].
  exact (proj1 (price_order_sorted (fun s => s) (fun s => s) (fun _ => None) (fun _ => 0) demo_handler "chat" _ _ eq_refl E)).
Defined.
