(* ===== verification/ConfigFacts.v ===== *)
(** * What a valid configuration guarantees

    Properties of [Config.v]: the rules do not depend on the order of Go's
    maps, an accepted configuration satisfies what routing, budgets and error
    mappings assume, and resolved credentials are fit for use. *)

From S2P Require Import Prelude GoStrings GoFloat Json NetText Diagnostics Errors Pricing Routes View Catalog CatalogFacts Config.
From S2P Require Upstream Budget.
From S2P Require Import RoutingOrder.

(** ** Rules *)

Lemma first_error_None {A} (f : A -> option string) l : first_error f l = None <-> Forall (fun x => f x = None) l.
Proof.
  induction l as [|x l IH]; cbn; [done|]. rewrite Forall_cons. destruct (f x); [split; [done|by intros [? _]]|].
  rewrite IH. naive_solver.
Qed.

Lemma rule_None bad message : rule bad message = None <-> bad = false.
Proof. unfold rule. by destruct bad. Qed.

Lemma all_rules_cons e l : all_rules (e :: l) = None <-> e = None /\ all_rules l = None.
Proof. unfold all_rules. by rewrite !first_error_None, Forall_cons. Qed.
Lemma all_rules_nil : all_rules [] = None <-> True.
Proof. done. Qed.

Lemma prefixed_None prefix e : prefixed prefix e = None <-> e = None.
Proof. unfold prefixed. by destruct e. Qed.

(** A rule for every entry of a map, in any order. *)
Lemma range_rules {V} `{!MapRange string V} (f : string * V -> option string) (m : gmap string V) :
  first_error f (range m) = None <-> map_Forall (fun k v => f (k, v) = None) m.
Proof.
  rewrite first_error_None, Forall_forall. split.
  - intros H k v Hkv. apply H. by apply elem_of_range.
  - intros H [k v] Hkv. apply elem_of_range in Hkv. by apply H.
Qed.

Ltac rules := rewrite ?all_rules_cons, ?rule_None, ?prefixed_None, ?range_rules, ?all_rules_nil in *.

Section orders.
Context (ToLower ToUpper : string -> string) (parse_url : string -> option URL).
Context (P1 P2 : MapRange string Profile) (C1 C2 : MapRange string Price) (A1 A2 : MapRange string string) (T1 T2 : MapRange string Z).

Lemma prices_order prices : validatePrices ToUpper (RangePrices := C1) prices = None <-> validatePrices ToUpper (RangePrices := C2) prices = None.
Proof. unfold validatePrices. by rewrite !range_rules. Qed.

Lemma provider_order name p :
  validate_provider ToLower ToUpper parse_url (RangePrices := C1) (RangeAliases := A1) (RangeThresholds := T1) name p = None <->
  validate_provider ToLower ToUpper parse_url (RangePrices := C2) (RangeAliases := A2) (RangeThresholds := T2) name p = None.
Proof.
  assert (Ha : validateModelAliases (RangeAliases := A1) (profile p) = None <-> validateModelAliases (RangeAliases := A2) (profile p) = None).
  { unfold validateModelAliases. destruct (128 <? _); [done|]. by rewrite !range_rules. }
  assert (Ht : validateSwitchThresholds (RangeThresholds := T1) (profile p) = None <-> validateSwitchThresholds (RangeThresholds := T2) (profile p) = None).
  { unfold validateSwitchThresholds. destruct (validSwitchThreshold _); [done|]. destruct (256 <? _); [done|]. by rewrite !range_rules. }
  unfold validate_provider. rewrite !all_rules_cons, !prefixed_None, prices_order, Ha, Ht. tauto.
Qed.

(** Whether a configuration is accepted does not depend on the order in
    which Go walks through the maps of providers, prices, aliases and
    thresholds; only the error that is reported first does. *)
Theorem validation_order_free c :
  Config_Validate ToLower ToUpper parse_url (RangeProviders := P1) (RangePrices := C1) (RangeAliases := A1) (RangeThresholds := T1) c = None <->
  Config_Validate ToLower ToUpper parse_url (RangeProviders := P2) (RangePrices := C2) (RangeAliases := A2) (RangeThresholds := T2) c = None.
Proof.
  unfold Config_Validate. cbv zeta. rewrite !all_rules_cons. unfold validate_providers. rewrite !range_rules.
  destruct (bool_decide _); cbn [negb]; rewrite ?prices_order; [tauto|]. rewrite !all_rules_cons, !range_rules.
  assert (Hp : map_Forall (fun k v => validate_provider ToLower ToUpper parse_url (RangePrices := C1) (RangeAliases := A1) (RangeThresholds := T1) k v = None) (Providers c) <->
    map_Forall (fun k v => validate_provider ToLower ToUpper parse_url (RangePrices := C2) (RangeAliases := A2) (RangeThresholds := T2) k v = None) (Providers c)).
  { split; intros H k v Hkv; apply provider_order, (H k v Hkv). }
  cbn [fst snd]. tauto.
Qed.
End orders.

(** ** Lists without repetition *)

Lemma distinct_cons {A} (x : A) l seen : x ∉ seen -> NoDup l -> Forall (fun y => y ∉ x :: seen) l ->
  NoDup (x :: l) /\ Forall (fun y => y ∉ seen) (x :: l).
Proof.
  intros Hx Hn Hl. rewrite Forall_forall in Hl. split.
  - constructor; [|done]. intros Hr. apply (Hl x Hr). left.
  - constructor; [done|]. apply Forall_forall. intros y Hy Hs. apply (Hl y Hy). by right.
Qed.

Lemma references_distinct seen refs : validate_references seen refs = None ->
  NoDup refs /\ Forall (fun r => r ∉ seen) refs /\ Forall (fun r => blank (Service r) = false /\ blank (Account r) = false) refs.
Proof.
  revert seen. induction refs as [|r refs IH]; intros seen; cbn; [intros _; split_and!; constructor|].
  destruct (KeychainReference_Validate r _) eqn:Hv; [done|]. case_bool_decide as Hin; [done|]. intros (Hn & Hs & Hb)%IH.
  apply rule_None, orb_false_iff in Hv. destruct (distinct_cons r refs seen Hin Hn Hs). split_and!; [done..|by constructor].
Qed.

Lemma models_distinct name seen models : validate_models name seen models = None ->
  NoDup models /\ Forall (fun m => m ∉ seen) models /\ Forall (fun m => m <> "" /\ Strings.TrimSpace m = m) models.
Proof.
  revert seen. induction models as [|m models IH]; intros seen; cbn; [intros _; split_and!; constructor|].
  destruct (blank m || _) eqn:Hv; [done|]. case_bool_decide as Hin; [done|]. intros (Hn & Hs & Hb)%IH.
  apply orb_false_iff in Hv as [Hblank Heq]. apply negb_false_iff, String.eqb_eq in Heq. destruct (distinct_cons m models seen Hin Hn Hs). split_and!; [done..|].
  constructor; [|done]. split; [|done]. intros ->. done.
Qed.

(** The model of a provider is one that its configuration lets it serve. *)
Definition in_scope (p : Profile) (model : string) : Prop := SupportedModels (profile p) = [] \/ model ∈ SupportedModels (profile p).

Lemma containsModel_spec models model : containsModel models model = true <-> model ∈ models.
Proof.
  unfold containsModel. rewrite existsb_exists, list_elem_of_In. split; [intros (x & Hx & ->%String.eqb_eq); done|].
  intros H. exists model. by rewrite String.eqb_refl.
Qed.

Definition chain_entry_ok (providers : gmap string Profile) (e : AutoChainEntry) : Prop :=
  entry_model e <> "" /\ Strings.TrimSpace (entry_model e) = entry_model e /\ entry_model e <> "auto" /\
  exists p, providers !! entry_provider e = Some p /\ in_scope p (entry_model e).

Lemma chain_distinct providers seen chain : validate_chain providers seen chain = None ->
  NoDup chain /\ Forall (fun e => e ∉ seen) chain /\ Forall (chain_entry_ok providers) chain.
Proof.
  revert seen. induction chain as [|e chain IH]; intros seen; cbn; [intros _; split_and!; constructor|].
  destruct (providers !! entry_provider e) as [p|] eqn:Hp; [|done]. destruct (_ || _ || _ || _) eqn:Hm; [done|].
  destruct (negb (bool_decide (SupportedModels (profile p) = [])) && _) eqn:Hs; [done|].
  destruct (bool_decide (e ∈ seen)) eqn:Hin; [done|]. apply bool_decide_eq_false in Hin.
  intros (Hn & Hseen & Hall)%IH. rewrite !orb_false_iff in Hm. destruct Hm as [[[Hblank Htrim] Hauto] _].
  assert (Hne : entry_model e <> "") by (intros E; by rewrite E in Hblank).
  assert (Hna : entry_model e <> "auto") by (intros E; by rewrite E in Hauto).
  apply negb_false_iff, String.eqb_eq in Htrim. destruct (distinct_cons e chain seen Hin Hn Hseen). split_and!; [done..|].
  constructor; [|done]. unfold chain_entry_ok. split_and!; [done..|].
    exists p. split; [done|]. unfold in_scope. case_bool_decide; [by left|]. right. apply containsModel_spec.
    by destruct (containsModel _ _).
Qed.

(** ** What routing may assume *)

Section accepted.
Context (ToLower ToUpper : string -> string) (parse_url : string -> option URL).
Context {RangeProviders : MapRange string Profile} {RangePrices : MapRange string Price}.
Context {RangeAliases : MapRange string string} {RangeThresholds : MapRange string Z}.
Abbreviation valid c := (Config_Validate ToLower ToUpper parse_url c = None).

Lemma valid_parts c : valid c ->
  match cfg_Routing c with Some r => RoutingConfig_Validate r = None | None => True end /\
  map_Forall (fun name p => validate_provider ToLower ToUpper parse_url name p = None) (Providers c) /\
  validateAutoChain c = None.
Proof.
  unfold Config_Validate. cbv zeta. rules. intros H. split_and!.
  - destruct (cfg_Routing c); tauto.
  - destruct H as (_ & _ & _ & _ & _ & _ & _ & _ & _ & _ & H & _).
    destruct (bool_decide (size (Providers c) = 0%nat)) eqn:Hs; cbn [negb] in H.
    + apply bool_decide_eq_true, map_size_empty_inv in Hs. rewrite Hs. apply map_Forall_empty.
    + unfold validate_providers in H. rules. by destruct H as (_ & _ & H & _).
  - tauto.
Qed.

Lemma name_bytes name : Strings.all name_byte name = true -> IndexByte name slash = None /\ control_bytes name = false.
Proof.
  unfold Strings.all, control_bytes, bytes_of_string. induction name as [|a name IH]; [done|].
  cbn [String.list_ascii_of_string forallb IndexByte fmap list_fmap existsb]. intros [Ha Hall]%andb_true_iff. destruct (IH Hall) as [-> ->].
  assert (Hb : byte_of_ascii a <> 47 /\ byte_of_ascii a <> 13 /\ byte_of_ascii a <> 10 /\ byte_of_ascii a <> 0).
  { unfold name_byte, Utf8.between in Ha. lia. }
  destruct (Ascii.eqb_spec a slash) as [->|]; [by destruct Hb|]. split; [done|]. rewrite orb_false_r. lia.
Qed.

Lemma control_bytes_append s t : control_bytes (s +:+ t) = control_bytes s || control_bytes t.
Proof.
  induction s as [|a s IH]; [done|]. change (String a s +:+ t) with (String a (s +:+ t)).
  unfold control_bytes, bytes_of_string in *. cbn [String.list_ascii_of_string fmap list_fmap existsb]. rewrite IH. by rewrite orb_assoc.
Qed.

(** A model identifier without surrounding space or control bytes. *)
Definition clean_model (m : string) : Prop := m <> "" /\ Strings.TrimSpace m = m /\ control_bytes m = false.

Lemma threshold_range value : validSwitchThreshold value = None -> forall v, value = Some v -> 0 <= v <= 86400.
Proof. intros H v ->. cbn in H. destruct (Z.ltb_spec v 0), (Z.ltb_spec 86400 v); done || lia. Qed.

Lemma valid_thresholds p : validateSwitchThresholds p = None ->
  (forall v, ProviderSwitchThreshold p = Some v -> 0 <= v <= 86400) /\
  (forall model v, ModelSwitchThresholds p !! model = Some v -> 0 <= v <= 86400).
Proof.
  unfold validateSwitchThresholds. destruct (validSwitchThreshold (ProviderSwitchThreshold p)) eqn:Hp; [done|].
  destruct (256 <? _); [done|]. rewrite range_rules. intros Hm. split; [by apply threshold_range|].
  intros model v Hv. specialize (Hm model v Hv). cbn in Hm. unfold threshold_error in Hm. destruct (_ || _ || _); [done|].
  by apply (threshold_range _ Hm).
Qed.

Lemma valid_threshold h name model :
  match Routing h with Some r => RoutingConfig_Validate r = None | None => True end ->
  (forall p, providers h !! name = Some p -> validateSwitchThresholds p = None) -> 0 <= switchThreshold h name model <= 86400.
Proof.
  intros Hr Hp.
  assert (Hd : 0 <= match RoutingSwitchThreshold (EffectiveRouting (Routing h)) with Some s => s | None => defaultProviderSwitchThreshold end <= 86400).
  { unfold defaultProviderSwitchThreshold. destruct (Routing h) as [r|]; cbn; [|lia]. unfold RoutingConfig_Validate in Hr.
    destruct (validSwitchThreshold _) eqn:E; [done|]. pose proof (threshold_range _ E) as Hv.
    destruct (RoutingSwitchThreshold r); [by apply Hv|lia]. }
  unfold switchThreshold, provider. destruct (providers h !! name) as [p|] eqn:Hq; cbn [default from_option id].
  - destruct (valid_thresholds p (Hp p eq_refl)) as [H1 H2].
    destruct (ModelSwitchThresholds p !! model) eqn:E2; [by eapply H2|]. destruct (ProviderSwitchThreshold p) eqn:E1; [by apply H1|done].
  - cbn [no_Provider ModelSwitchThresholds ProviderSwitchThreshold]. by rewrite lookup_empty.
Qed.

Lemma valid_aliases p : validateModelAliases p = None ->
  forall model, UpstreamModel p (UpstreamModel p model) = UpstreamModel p model.
Proof.
  unfold validateModelAliases. destruct (128 <? _); [done|]. rewrite range_rules. intros H model.
  unfold UpstreamModel. destruct (ModelAliases p !! model) as [up|] eqn:Hm; cbn; [|by rewrite Hm].
  specialize (H model up Hm). cbn in H. unfold alias_error in H. destruct (_ || _ || _); [done|]. case_bool_decide as Hc; [done|].
  apply eq_None_not_Some in Hc. by rewrite Hc.
Qed.

Lemma valid_provider_parts name p : validate_provider ToLower ToUpper parse_url name p = None ->
  validProviderName name = true /\ validateModelAliases (profile p) = None /\ validateSwitchThresholds (profile p) = None /\
  (exists refs, KeychainReferences p = inr refs) /\ ModelCapabilities_Validate (prof_Capabilities p) = None /\
  ValidateProviderErrorMappings (ErrorCodeMappings p) = None.
Proof.
  unfold validate_provider. cbv zeta. rules. rewrite negb_false_iff.
  destruct (KeychainReferences p) as [e|refs]; [by intros (_ & _ & _ & _ & ? & _)|].
  destruct (ValidateProviderErrorMappings _); [by intros (_ & _ & _ & _ & _ & _ & _ & _ & _ & _ & _ & ? & _)|].
  intros H. split_and!; try tauto. by exists refs.
Qed.

(** The view of a configuration, as far as routing reads it. *)
Record viewed (c : Config) (h : handler) : Prop := {
  viewed_routing : Routing h = cfg_Routing c;
  viewed_providers : providers h = profile <$> Providers c;
  viewed_chain : AutoChain h = cfg_AutoChain c;
}.

(** C34. What an accepted configuration guarantees to the view that is made of
    it: every switch threshold is between zero and a day, aliases resolve in
    one step, the automatic chain has no repetitions and each of its entries
    names a configured provider that may serve its model, and the listed
    identifier of a model of a provider is read back as these two when the
    model has no control bytes (one with a line break is accepted and listed,
    but not read back: [line_break_listed]). *)
Theorem valid_config_routes c h : valid c -> viewed c h ->
  (forall name model, 0 <= switchThreshold h name model <= 86400) /\
  (forall name model, let p := provider h name in UpstreamModel p (UpstreamModel p model) = UpstreamModel p model) /\
  (NoDup (AutoChain h) /\ (length (AutoChain h) <= maxAutoChainEntries)%nat /\
   Forall (fun e => supportScopeAllows h (entry_provider e) (entry_model e) = true /\ entry_model e <> "auto") (AutoChain h)) /\
  (forall name model, is_Some (providers h !! name) -> clean_model model ->
     parseQualifiedModelID (qualifiedModelID name model) = Some (name, model)).
Proof.
  intros (Hr & Hp & Hc)%valid_parts [Vr Vp Vc].
  assert (Hprov : forall name p, providers h !! name = Some p -> exists q, p = profile q /\ Providers c !! name = Some q /\
    validProviderName name = true /\ validateModelAliases p = None /\ validateSwitchThresholds p = None).
  { intros name p. rewrite Vp, lookup_fmap. destruct (Providers c !! name) as [q|] eqn:Hq; [|done]. intros [= <-].
    exists q. destruct (valid_provider_parts name q (Hp name q Hq)) as (? & ? & ? & _). done. }
  assert (Hchain : NoDup (AutoChain h) /\ (length (AutoChain h) <= maxAutoChainEntries)%nat /\
    Forall (fun e => supportScopeAllows h (entry_provider e) (entry_model e) = true /\ entry_model e <> "auto") (AutoChain h)).
  { unfold validateAutoChain in Hc. destruct (Nat.ltb_spec maxAutoChainEntries (length (cfg_AutoChain c))); [done|].
    apply chain_distinct in Hc as (Hn & _ & Hall). rewrite Vc. split; [done|]. split; [done|]. eapply Forall_impl; [exact Hall|].
    intros e (_ & _ & Hauto & p & Hq & Hs). split; [|done]. unfold supportScopeAllows. rewrite Vp, lookup_fmap, Hq. cbn.
    destruct Hs as [->|Hs]; [done|]. apply orb_true_iff. right. by apply containsModel_spec. }
  split; [|split; [|split; [exact Hchain|]]].
  - intros name model. apply valid_threshold; [by rewrite Vr|]. intros p Hq. by destruct (Hprov name p Hq) as (q & _ & _ & _ & _ & Ht).
  - intros name model. cbv zeta. unfold provider. destruct (providers h !! name) as [p|] eqn:Hq; cbn [default]; [|done].
    destruct (Hprov name p Hq) as (q & _ & _ & _ & Ha & _). by apply valid_aliases.
  - intros name model [p Hq] (Hm & Ht & Hb). apply qualified_id_roundtrip. split; [done|].
    destruct (Hprov name p Hq) as (_ & _ & _ & Hname & _). unfold validProviderName in Hname. rewrite !andb_true_iff, negb_true_iff in Hname.
    destruct Hname as [[[Hne Htrim] _] Hall]. apply String.eqb_neq in Hne. apply String.eqb_eq in Htrim. apply name_bytes in Hall as [Hs Hctl].
    split; [done..|]. unfold qualifiedModelID. rewrite !control_bytes_append, Hctl, Hb. done.
Qed.

(** ** Credentials *)

Context (lookup_key : KeychainReference -> option string).

Definition usable_key (k : string) : Prop := Strings.TrimSpace k <> "" /\ contains_any line_breaks k = false.
Lemma usable_spec k : bad_credential k = false <-> usable_key k.
Proof. unfold bad_credential, usable_key, blank. rewrite orb_false_iff, String.eqb_neq. done. Qed.

(** [p'] is [p] with the keys of its references. *)
Definition with_keys (p p' : Profile) : Prop :=
  exists refs keys, KeychainReferences p = inr refs /\ mapM lookup_key refs = Some keys /\
    p' = p <| prof_APIKeys := keys |> <| prof_APIKey := default "" (head keys) |>.

Lemma resolve_provider_spec name p p' : resolve_provider lookup_key name p = inr p' -> with_keys p p'.
Proof.
  unfold resolve_provider. destruct (KeychainReferences p) as [|refs] eqn:Hr; [done|]. destruct (mapM lookup_key refs) as [keys|] eqn:Hk; [|done].
  intros [= <-]. by exists refs, keys.
Qed.

Lemma resolve_all_spec l providers keys providers' keys' : NoDup l.*1 ->
  resolve_all lookup_key l providers keys = inr (providers', keys') ->
  (forall name, name ∉ l.*1 -> providers' !! name = providers !! name) /\
  (forall name p, (name, p) ∈ l -> exists p', providers' !! name = Some p' /\ with_keys p p' /\ prof_APIKeys p' ⊆ keys') /\ keys ⊆ keys'.
Proof.
  revert providers keys. induction l as [|[name p] l IH]; intros providers keys Hn; cbn.
  { intros [= <- <-]. split_and!; [done|by intros ? ? ?%list_elem_of_In|done]. }
  apply NoDup_cons in Hn as [Hname Hn]. destruct (resolve_provider lookup_key name p) as [|q] eqn:Hq; [done|]. intros Hall.
  destruct (IH _ _ Hn Hall) as (Hout & Hin & Hkeys). split_and!.
  - intros x Hx. apply not_elem_of_cons in Hx as [Hx Hl]. rewrite Hout by done. by apply lookup_insert_ne.
  - intros x r Hx. apply elem_of_cons in Hx as [[= -> ->]|Hx]; [|by apply Hin]. exists q. rewrite Hout by done. split_and!.
    + apply lookup_insert_eq.
    + by eapply resolve_provider_spec.
    + intros k Hk. apply Hkeys, elem_of_app. by right.
  - intros k Hk. apply Hkeys, elem_of_app. by left.
Qed.

Lemma check_keys_spec token keys : check_keys token keys = None <-> Forall (fun k => usable_key k /\ k <> token) keys.
Proof.
  unfold check_keys. rewrite first_error_None. apply Forall_iff. intros k. rules. rewrite usable_spec, String.eqb_neq. tauto.
Qed.

Lemma references_bounds p refs : KeychainReferences p = inr refs -> (1 <= length refs <= 128)%nat /\ NoDup refs.
Proof.
  unfold KeychainReferences. destruct (_ && _); [done|]. set (rs := if _ : bool then [_] else _).
  destruct (bool_decide (rs = [])) eqn:He; [done|]. apply bool_decide_eq_false in He. cbn [orb].
  destruct (Nat.ltb_spec 128 (length rs)); [done|]. destruct (validate_references [] rs) eqn:Hv; [done|]. intros [= <-].
  apply references_distinct in Hv as (Hn & _). destruct rs; [done|]. cbn in *. split; [lia|done].
Qed.

(** The keys of a provider are fit for use. *)
Record fit_keys (token : string) (p : Profile) : Prop := {
  fit_count : (1 <= length (prof_APIKeys p) <= 128)%nat;
  fit_first : head (prof_APIKeys p) = Some (prof_APIKey p);
  fit_distinct : NoDup (prof_APIKeys p);
  fit_usable : Forall (fun k => usable_key k /\ k <> token) (prof_APIKeys p);
}.

Lemma with_keys_fit token p p' : with_keys p p' -> NoDup (prof_APIKeys p') ->
  Forall (fun k => usable_key k /\ k <> token) (prof_APIKeys p') -> fit_keys token p' /\ profile p' = profile p.
Proof.
  intros (refs & keys & Hr & Hk & ->) Hn Hu. split; [|done]. apply references_bounds in Hr as [Hlen _].
  apply mapM_Some, Forall2_length in Hk. cbn in *. split; cbn; [lia| |done..]. destruct keys; [cbn in *; lia|done].
Qed.

(** Resolving the credentials of a configuration either fails or gives one
    whose every provider has between one and 128 distinct keys, those of its
    references in their order; each is a text without line breaks that is not
    blank and is not the gateway's own token.  Providers are neither added nor
    lost, and what routing reads of them stays. *)
Theorem credentials_fit c c' : ResolveCredentials ToLower ToUpper parse_url lookup_key c = inr c' ->
  lookup_key (AccessTokenKeychain c) = Some (cfg_AccessToken c') /\ usable_key (cfg_AccessToken c') /\
  (forall name, is_Some (Providers c' !! name) <-> is_Some (Providers c !! name)) /\
  (forall name p', Providers c' !! name = Some p' -> exists p, Providers c !! name = Some p /\
     with_keys p p' /\ profile p' = profile p /\ fit_keys (cfg_AccessToken c') p').
Proof.
  unfold ResolveCredentials. destruct (Config_Validate _ _ _ _) eqn:Hv; [done|]. clear Hv.
  destruct (lookup_key (AccessTokenKeychain c)) as [token|] eqn:Ht; [|done]. cbv zeta.
  change (Providers (c <| cfg_AccessToken := token |>)) with (Providers c). change (cfg_BaseURL (c <| cfg_AccessToken := token |>)) with (cfg_BaseURL c).
  change (cfg_Keychain (c <| cfg_AccessToken := token |>)) with (cfg_Keychain c).
  set (c1 := c <| cfg_AccessToken := token |>).
  set (resolved := if bool_decide (size (Providers c) = 0%nat) then _ else _).
  assert (Hres : forall c2 keys, resolved = inr (c2, keys) -> cfg_AccessToken c2 = token /\
    (forall name, Providers c !! name = None -> Providers c2 !! name = None) /\
    (forall name p, Providers c !! name = Some p -> exists p', Providers c2 !! name = Some p' /\ with_keys p p' /\ prof_APIKeys p' ⊆ keys)).
  { intros c2 keys. unfold resolved. destruct (bool_decide (size (Providers c) = 0%nat)) eqn:Hs.
    - apply bool_decide_eq_true, map_size_empty_inv in Hs.
      assert (Hnone : forall c2, Providers c2 = Providers c -> (forall name, Providers c !! name = None -> Providers c2 !! name = None) /\
        (forall name p, Providers c !! name = Some p -> exists p', Providers c2 !! name = Some p' /\ with_keys p p' /\ prof_APIKeys p' ⊆ keys)).
      { intros c3 ->. rewrite Hs. split; [done|]. intros name p. by rewrite lookup_empty. }
      destruct (String.eqb (cfg_BaseURL c) ""); [intros [= <- _]; split; [done|by apply Hnone]|].
      destruct (lookup_key (cfg_Keychain c)); [|done]. intros [= <- _]. split; [done|by apply Hnone].
    - destruct (resolve_all _ _ _ _) as [|[providers keys2]] eqn:Hall; [done|]. intros [= <- <-].
      apply resolve_all_spec in Hall as (Hout & Hin & _).
      2: { rewrite range_perm. apply NoDup_fst_map_to_list. }
      split; [done|]. split.
      + intros name Hname. cbn. rewrite Hout; [done|]. intros (kv & -> & Hkv)%list_elem_of_fmap. destruct kv as [k v].
        apply elem_of_range in Hkv. cbn in Hname. congruence.
      + intros name p Hp. apply Hin. by apply elem_of_range. }
  clearbody resolved. destruct resolved as [|[c2 keys]]; [done|]. destruct (Hres c2 keys eq_refl) as (Htok & Hnone & Hsome). clear Hres.
  destruct (all_rules _) eqn:Hrules; [done|]. intros [= <-]. rewrite !all_rules_cons, rule_None, usable_spec, check_keys_spec in Hrules.
  destruct Hrules as (Hu & Hkeys & Hgroups & _). unfold check_groups in Hgroups. apply range_rules in Hgroups.
  rewrite Htok. split_and!; [done|done| |].
  - intros name. split; intros [p Hp].
    + destruct (Providers c !! name) eqn:E; [done|]. apply Hnone in E. congruence.
    + apply Hsome in Hp as (p' & -> & _). done.
  - intros name p' Hp'. destruct (Providers c !! name) as [p|] eqn:Hp; [|apply Hnone in Hp; congruence].
    destruct (Hsome name p Hp) as (q & Hq & Hw & Hsub). assert (q = p') as -> by congruence. exists p.
    specialize (Hgroups name p' Hp'). cbn in Hgroups. apply rule_None, negb_false_iff, bool_decide_eq_true in Hgroups.
    assert (Hfit : fit_keys token p' /\ profile p' = profile p); [|by destruct Hfit].
    apply (with_keys_fit token p p' Hw Hgroups). apply Forall_forall. intros k Hk. rewrite Forall_forall in Hkeys. by apply Hkeys, Hsub.
Qed.
End accepted.
