(* ===== verification/Reload.v ===== *)
(** * Publication of configurations

    internal/gateway/config_reload.go, with the start of a gateway
    (gateway_server.go, [resolveProvidersPartial] of provider.go): the view
    that is prepared of a configuration, what it takes over from the view
    before, and the ticks of the watcher.  Pools and their retry states are
    pointers here; [KeyPool.v] has what is behind them.  What a tick reads from
    the file, the key chain and the providers is an argument, and
    [reflect.DeepEqual] a test that can tell apart more than the model does
    (a nil map and an empty one). *)

From S2P Require Import Prelude GoStrings GoFloat Json NetText Diagnostics Errors Pricing Routes View Catalog Config.
From S2P Require Upstream.

(** ** Views *)

Record pool_ref := { pool_id : nat; retry_id : nat; pool_keys : list string }.

(** The [adapter.Client] of a provider, without what all of them share. *)
Record upstream_client := {
  cl_Protocol : string;
  cl_BaseURL : string;
  cl_APIKey : string;
  cl_APIVersion : string;
  cl_Upstream : string;
  cl_ProviderRef : string;
  cl_Prices : gmap string Price;
  cl_ErrorCodeMappings : list ProviderErrorMapping;
  cl_CacheNamespace : string;
  cl_Limits : Upstream.Limits;
  cl_MaxOutputTokens : Z;
  cl_ModelOutputLimits : gmap string Z;
  cl_ForwardErrorMessages : option bool;
  cl_RedactValues : list string;
}.

Record config_view := {
  v_config : Config;
  v_providers : gmap string Profile;
  v_clients : gmap string upstream_client;
  v_pools : gmap string pool_ref;
  v_models : gmap string (list string);
  v_known : gmap string bool;
  v_catalogs : gmap string providerCatalog;
  v_unavailable : gmap string string;
  v_generations : gmap string Z;
  v_reused : gmap string bool;
  v_epoch : Z;
  v_warnings : list string;       (** [capabilityWarnings] *)
}.
#[export] Instance config_view_eta : Eta config_view := fun v =>
  {| v_config := v_config v; v_providers := v_providers v; v_clients := v_clients v; v_pools := v_pools v; v_models := v_models v;
     v_known := v_known v; v_catalogs := v_catalogs v; v_unavailable := v_unavailable v; v_generations := v_generations v;
     v_reused := v_reused v; v_epoch := v_epoch v; v_warnings := v_warnings v |}.

(** What routing sees of a view. *)
Definition handler_of (v : config_view) : handler :=
  {| Routing := cfg_Routing (v_config v); AutoChain := cfg_AutoChain (v_config v); AccessToken := cfg_AccessToken (v_config v);
     providers := profile <$> v_providers v;
     clients := (fun c => {| Protocol := cl_Protocol c; MaxOutputTokens := cl_MaxOutputTokens c; ModelOutputLimits := cl_ModelOutputLimits c |}) <$> v_clients v;
     unavailableProviders := v_unavailable v; discovered := v_models v; modelsKnown := v_known v;
     providerGenerations := v_generations v; routingEpoch := v_epoch v; reusedConnections := v_reused v;
     HealthDiagnostics := HealthDiagnosticsEnabled (v_config v); ActiveSessionIdleTimeoutSeconds := IdleTimeoutSeconds (v_config v) |}.

(** Counters of the process: the last generation and the next pointer. *)
Record counters := { last_generation : Z; next_pointer : nat }.
#[export] Instance counters_eta : Eta counters := fun c => {| last_generation := last_generation c; next_pointer := next_pointer c |}.

(** [newProviderKeyPool]: two new pointers, or nil without keys. *)
Definition new_pool (keys : list string) (n : counters) : option pool_ref * counters :=
  match keys with
  | [] => (None, n)
  | _ => (Some {| pool_id := next_pointer n; retry_id := S (next_pointer n); pool_keys := keys |},
          n <| next_pointer := S (S (next_pointer n)) |>)
  end.
Definition put_optional {A} (name : string) (x : option A) (m : gmap string A) : gmap string A :=
  match x with Some a => <[name := a]> m | None => delete name m end.

Definition providerCacheNamespace (generation : Z) : string := "provider:" +:+ GoFloat.Decimal.of_Z generation.

Section with_range.
Context {RangeProviders : MapRange string Profile}.

(** [configureProviderErrors]. *)
Definition redact_values (c : Config) (p : Profile) : list string :=
  [cfg_AccessToken c; cfg_APIKey c] ++ ResolvedAPIKeys p ++ concat ((fun kv => ResolvedAPIKeys kv.2) <$> range (Providers c)).
Definition new_client (c : Config) (name : string) (p : Profile) (catalog : providerCatalog) (generation : Z) : upstream_client :=
  {| cl_Protocol := prof_Protocol p; cl_BaseURL := BaseURL (profile p); cl_APIKey := prof_APIKey p; cl_APIVersion := prof_APIVersion p;
     cl_Upstream := prof_UpstreamID p; cl_ProviderRef := name; cl_Prices := Prices (profile p);
     cl_ErrorCodeMappings := ErrorCodeMappings p; cl_CacheNamespace := providerCacheNamespace generation; cl_Limits := cfg_Limits c;
     cl_MaxOutputTokens := cap_MaxOutputTokens (prof_Capabilities p);
     cl_ModelOutputLimits := providerOutputLimits (profile p) (prof_Capabilities p) catalog;
     cl_ForwardErrorMessages := prof_ForwardErrorMessages p; cl_RedactValues := redact_values c p |}.

(** The single provider of an old configuration. *)
Definition legacy_profile (c : Config) : Profile :=
  no_Profile <| prof_Protocol := cfg_Protocol c |> <| prof_ForwardErrorMessages := cfg_ForwardErrorMessages c |>
             <| prof_APIKey := cfg_APIKey c |> <| prof_Keychain := cfg_Keychain c |> <| prof_APIVersion := cfg_APIVersion c |>
             <| prof_UpstreamID := cfg_UpstreamID c |> <| prof_Capabilities := cfg_Capabilities c |>
             <| profile := no_Provider <| BaseURL := cfg_BaseURL c |> <| Prices := cfg_Prices c |> |>.
Definition legacy (c : Config) : bool := bool_decide (size (Providers c) = 0%nat) && negb (String.eqb (cfg_BaseURL c) "").
Definition raw_providers (c : Config) : gmap string Profile := if legacy c then {["legacy" := legacy_profile c]} else Providers c.

Context (ToLower ToUpper : string -> string) (parse_url : string -> option URL).
Context {RangePrices : MapRange string Price} {RangeAliases : MapRange string string} {RangeThresholds : MapRange string Z}.
Context (same_config : Config -> Config -> bool) (same_profile : Profile -> Profile -> bool).

Definition sameProviderEndpoint (before after : Profile) : bool :=
  String.eqb (prof_Protocol before) (prof_Protocol after) &&
  String.eqb (trim_slashes (BaseURL (profile before))) (trim_slashes (BaseURL (profile after))).

(** The settings that a connection to a provider consists of. *)
Definition same_connection (before raw : Profile) : bool :=
  String.eqb (BaseURL (profile before)) (BaseURL (profile raw)) &&
  String.eqb (normalizeProviderProtocol ToLower (prof_Protocol before)) (normalizeProviderProtocol ToLower (prof_Protocol raw)) &&
  String.eqb (prof_APIVersion before) (prof_APIVersion raw) && bool_decide (ResolvedAPIKeys before = ResolvedAPIKeys raw).

(** The fields that the resolution of a protocol fills in. *)
Definition resolved_profile (name : string) (p : Profile) (protocol : string) : Profile :=
  let p := p <| prof_Protocol := protocol |> in
  let p := if String.eqb protocol "anthropic" && String.eqb (prof_APIVersion p) "" then p <| prof_APIVersion := defaultAnthropicAPIVersion |> else p in
  if String.eqb (prof_UpstreamID p) "" then p <| prof_UpstreamID := name |> else p.

(** ** Preparation *)

Section prepare.
Context (exchange : string -> string -> received) (expired : string -> bool).

(** The probe of a changed connection: the protocol and the catalog. *)
Definition probe (name : string) (p : Profile) : option (string * providerCatalog) :=
  let protocol := normalizeProviderProtocol ToLower (prof_Protocol p) in
  if String.eqb protocol "" || String.eqb protocol "auto" then detectProviderCatalog ToLower (exchange name)
  else
    r ← requestProviderModels protocol (exchange name protocol);
    if (Catalog.resp_status r =? 404) || (Catalog.resp_status r =? 405) then Some (protocol, no_catalog)
    else if negb (success_status (Catalog.resp_status r)) then None
    else Some (protocol, parseProviderCatalog (resp_body r) protocol).

Definition had_client (previous : config_view) (name : string) : bool := bool_decide (is_Some (v_clients previous !! name)).

(** A provider that is as it was before. *)
Definition keep_provider (previous : config_view) (name : string) (v : config_view) : config_view :=
  v <| v_providers := put_optional name (v_providers previous !! name) (v_providers v) |>
    <| v_clients := put_optional name (v_clients previous !! name) (v_clients v) |>
    <| v_pools := put_optional name (v_pools previous !! name) (v_pools v) |>
    <| v_models := put_optional name (v_models previous !! name) (v_models v) |>
    <| v_known := put_optional name (v_known previous !! name) (v_known v) |>
    <| v_catalogs := put_optional name (v_catalogs previous !! name) (v_catalogs v) |>
    <| v_generations := put_optional name (v_generations previous !! name) (v_generations v) |>
    <| v_reused := <[name := true]> (v_reused v) |>.

(** A provider with new settings; [connection] is what it keeps when its
    connection stays: the generation, the pool and the catalog. *)
Definition add_provider (c : Config) (name : string) (p : Profile) (catalog : providerCatalog) (models : option (list string)) (known : option bool)
    (generation : option Z) (pool : option pool_ref) (reused : bool) (v : config_view) : config_view :=
  v <| v_providers := <[name := p]> (v_providers v) |>
    <| v_clients := <[name := new_client c name p catalog (default 0 generation)]> (v_clients v) |>
    <| v_pools := put_optional name pool (v_pools v) |>
    <| v_models := put_optional name models (v_models v) |>
    <| v_known := put_optional name known (v_known v) |>
    <| v_catalogs := <[name := catalog]> (v_catalogs v) |>
    <| v_generations := put_optional name generation (v_generations v) |>
    <| v_reused := if reused then <[name := true]> (v_reused v) else v_reused v |>
    <| v_warnings := v_warnings v ++ [name] |>.

(** A provider with a new connection: a new generation and a new pool, which
    shares the retry state of the pool before if the endpoint stays. *)
Definition connect_provider (c : Config) (previous : config_view) (name : string) (p : Profile) (catalog : providerCatalog)
    (v : config_view) (n : counters) : config_view * counters :=
  let g := last_generation n + 1 in
  let '(pool, n) := new_pool (ResolvedAPIKeys p) (n <| last_generation := g |>) in
  let pool := match pool, v_providers previous !! name, v_pools previous !! name with
              | Some q, Some prior, Some old =>
                  if sameProviderEndpoint prior p then Some {| pool_id := pool_id q; retry_id := retry_id old; pool_keys := pool_keys q |} else pool
              | _, _, _ => pool
              end in
  (add_provider c name p catalog (Some (cat_models catalog)) (Some (cat_known catalog)) (Some g) pool false v, n).

(** The body of the loop of [prepareConfigView]; no view is a failed probe,
    the counters stay counted. *)
Definition prepare_provider (c : Config) (previousProviders : gmap string Profile) (previous : config_view)
    (v : config_view) (n : counters) (name : string) (raw : Profile) : option config_view * counters :=
  let before := if had_client previous name then previousProviders !! name else None in
  let unchanged := match before with Some b => same_profile raw b | None => false end in
  let connected := match before with Some b => same_connection b raw | None => false end in
  if unchanged then (Some (keep_provider previous name v), n)
  else if connected then
    if expired name then (None, n)
    else
      let prior := default no_Profile (v_providers previous !! name) in
      let p := resolved_profile name (raw <| prof_APIVersion := prof_APIVersion prior |>) (prof_Protocol prior) in
      (Some (add_provider c name p (default no_catalog (v_catalogs previous !! name)) (v_models previous !! name) (v_known previous !! name)
               (v_generations previous !! name) (v_pools previous !! name) true v), n)
  else
    match probe name raw with
    | None => (None, n)
    | Some (protocol, catalog) =>
        if expired name then (None, n)
        else let '(v, n) := connect_provider c previous name (resolved_profile name raw protocol) catalog v n in (Some v, n)
    end.

Definition prepare_step (c : Config) (previousProviders : gmap string Profile) (previous : config_view)
    (st : option config_view * counters) (kv : string * Profile) : option config_view * counters :=
  match st with
  | (Some v, n) => prepare_provider c previousProviders previous v n kv.1 kv.2
  | (None, n) => (None, n)
  end.

Definition empty_view (c : Config) (epoch : Z) : config_view :=
  {| v_config := c; v_providers := ∅; v_clients := ∅; v_pools := ∅; v_models := ∅; v_known := ∅; v_catalogs := ∅; v_unavailable := ∅;
     v_generations := ∅; v_reused := ∅; v_epoch := epoch; v_warnings := [] |}.

(** The configuration of a view has the providers as they were resolved. *)
Definition resolved_config (c : Config) (providers : gmap string Profile) : Config :=
  if negb (bool_decide (size (Providers c) = 0%nat)) then c <| Providers := providers |>
  else if negb (String.eqb (cfg_BaseURL c) "") then
    let p := default no_Profile (providers !! "legacy") in
    c <| cfg_Protocol := prof_Protocol p |> <| cfg_APIVersion := prof_APIVersion p |>
  else c.

Definition prepareConfigView (c previousRaw : Config) (previous : config_view) (n : counters) : option config_view * counters :=
  match foldl (prepare_step c (raw_providers previousRaw) previous) (Some (empty_view c (v_epoch previous + 1)), n) (range (raw_providers c)) with
  | (Some v, n) =>
      let v := v <| v_config := resolved_config c (v_providers v) |> in
      match Config_Validate ToLower ToUpper parse_url (v_config v) with Some _ => (None, n) | None => (Some v, n) end
  | (None, n) => (None, n)
  end.
End prepare.

(** ** The start of a gateway *)

Section start.
Context (exchange : string -> string -> received).

Definition provider_keys_ok (token : string) (p : Profile) : bool :=
  negb (bool_decide (ResolvedAPIKeys p = [])) &&
  forallb (fun k => negb (String.eqb k "") && negb (String.eqb k token)) (ResolvedAPIKeys p) && bool_decide (NoDup (ResolvedAPIKeys p)).

Definition detection_error : string :=
  "cannot determine one provider API protocol from authenticated GET /models probes; set --protocol openai or --protocol anthropic".

(** One provider of [resolveProvidersPartial]: the profile, and whether its
    protocol could not be determined; or an error. *)
Definition start_provider (name : string) (p : Profile) : option (Profile * bool) :=
  let p := match ResolvedAPIKeys p with k :: _ => p <| prof_APIKey := k |> | [] => p end in
  let protocol := normalizeProviderProtocol ToLower (prof_Protocol p) in
  let detected := if String.eqb protocol "" || String.eqb protocol "auto" then fst <$> detectProviderCatalog ToLower (exchange name) else Some protocol in
  match detected with
  | None => Some ((if String.eqb (prof_UpstreamID p) "" then p <| prof_UpstreamID := name |> else p) <| prof_Protocol := "auto" |>, true)
  | Some protocol =>
      let p := resolved_profile name p protocol in
      if String.eqb protocol "anthropic" then (if Dates.is_date (prof_APIVersion p) then Some (p, false) else None)
      else if negb (String.eqb (prof_APIVersion p) "") then None else Some (p, false)
  end.

(** The single provider: [resolveProviderProtocol]. *)
Definition start_legacy (c : Config) : option (Profile * bool) :=
  let p := (legacy_profile c) <| prof_Keychain := no_reference |> in
  let protocol := normalizeProviderProtocol ToLower (cfg_Protocol c) in
  if String.eqb protocol "openai" || String.eqb protocol "anthropic" then Some (p <| prof_Protocol := protocol |>, false)
  else if negb (String.eqb protocol "") && negb (String.eqb protocol "auto") then None
  else
    '(detected, _) ← detectProviderCatalog ToLower (exchange "legacy");
    if String.eqb detected "anthropic" then
      let version := if String.eqb (cfg_APIVersion c) "" then defaultAnthropicAPIVersion else cfg_APIVersion c in
      if Dates.is_date version then Some (p <| prof_Protocol := detected |> <| prof_APIVersion := version |>, false) else None
    else Some (p <| prof_Protocol := detected |>, false).

Fixpoint start_all (l : list (string * Profile)) (acc : gmap string (Profile * bool)) : option (gmap string (Profile * bool)) :=
  match l with
  | [] => Some acc
  | (name, p) :: l => r ← start_provider name p; start_all l (<[name := r]> acc)
  end.

(** The loop that makes pools, generations, catalogs and clients. *)
Definition start_step (c : Config) (named : bool) (st : config_view * counters) (kv : string * (Profile * bool)) : config_view * counters :=
  let '(v, n) := st in
  let '(name, (p, failed)) := kv in
  let '(pool, n) := new_pool (ResolvedAPIKeys p) n in
  let v := v <| v_providers := <[name := p]> (v_providers v) |> <| v_pools := put_optional name pool (v_pools v) |> in
  if failed : bool then (v <| v_unavailable := <[name := detection_error]> (v_unavailable v) |>, n)
  else
    let g := last_generation n + 1 in
    let catalog := if named then discoverProviderCatalog (prof_Protocol p) (exchange name (prof_Protocol p)) else no_catalog in
    let v := v <| v_generations := <[name := g]> (v_generations v) |>
               <| v_clients := <[name := new_client c name p catalog g]> (v_clients v) |> in
    let v := if named then v <| v_catalogs := <[name := catalog]> (v_catalogs v) |>
                               <| v_models := <[name := cat_models catalog]> (v_models v) |>
                               <| v_known := <[name := cat_known catalog]> (v_known v) |> else v in
    (v, n <| last_generation := g |>).

(** [NewHandlerWithLogger] up to the parts that open files: the stage that
    failed, or the first view. *)
Definition NewHandler {RangeStarted : MapRange string (Profile * bool)} (c : Config) : string + config_view * counters :=
  match Config_Validate ToLower ToUpper parse_url c with
  | Some _ => inl "config"
  | None =>
      let named := negb (bool_decide (size (Providers c) = 0%nat)) in
      if negb named && String.eqb (cfg_BaseURL c) "" then inl "providers"
      else if String.eqb (cfg_AccessToken c) "" then inl "credentials"
      else if (if named then negb (forallb (fun kv => provider_keys_ok (cfg_AccessToken c) kv.2) (range (Providers c)))
               else String.eqb (cfg_APIKey c) "" || String.eqb (cfg_APIKey c) (cfg_AccessToken c)) then inl "credentials"
      else
        match (if named then start_all (range (Providers c)) ∅ else (fun r => {["legacy" := r]}) <$> start_legacy c) with
        | None => inl "providers"
        | Some started =>
            if forallb (fun kv : string * (Profile * bool) => kv.2.2) (map_to_list started) then inl "providers"
            else
              let c := resolved_config c (fst <$> started) in
              match Config_Validate ToLower ToUpper parse_url c with
              | Some _ => inl "config"
              | None => inr (foldl (start_step c named) (empty_view c 0, {| last_generation := 0; next_pointer := 0 |}) (range started))
              end
        end
  end.
End start.

(** ** The watcher *)

(** [runtimeSettings]: what a running gateway keeps. *)
Definition runtimeSettings (c : Config) : Config :=
  c <| ContentOutput := (ContentOutput c) <| Enabled := false |> |> <| cfg_ForwardErrorMessages := None |> <| cfg_HealthDiagnostics := None |>
    <| Providers := ∅ |> <| cfg_Routing := None |> <| cfg_AutoChain := [] |> <| cfg_BaseURL := "" |> <| cfg_Protocol := "" |>
    <| cfg_APIKey := "" |> <| cfg_Keychain := no_reference |> <| cfg_APIVersion := "" |> <| cfg_UpstreamID := "" |>
    <| cfg_Prices := ∅ |> <| cfg_Capabilities := no_capabilities |> <| cfg_Model := "" |>.

Record watch := {
  w_active : config_view;
  w_raw : Config;
  w_revision : string;
  w_checked : time;
  w_error : string;
  w_counters : counters;
}.
#[export] Instance watch_eta : Eta watch := fun w =>
  {| w_active := w_active w; w_raw := w_raw w; w_revision := w_revision w; w_checked := w_checked w; w_error := w_error w;
     w_counters := w_counters w |}.

(** What one tick reads: the file when it begins and when it ends, the keys,
    what the providers answer, whether its time ran out and the clock. *)
Record tick_input := {
  in_file : option string;
  in_lookup : KeychainReference -> option string;
  in_exchange : string -> string -> received;
  in_expired : string -> bool;
  in_timed_out : bool;
  in_again : option string;
  in_time : time;
}.

Section watch.
(** The hexadecimal SHA-256 of a file. *)
Context (configDataRevision : string -> string).

Definition ConfigRevision (file : option string) : string := match file with Some data => configDataRevision data | None => "" end.

(** The candidate of a tick, or the code of its failure. *)
Definition load (raw : Config) (i : tick_input) : string + Config :=
  match in_file i with
  | None => inl "config_validation_failed"
  | Some data =>
      match decodeConfig ToLower data with
      | inl _ => inl "config_validation_failed"
      | inr c =>
          match Config_Validate ToLower ToUpper parse_url c with
          | Some _ => inl "config_validation_failed"
          | None =>
              match ResolveCredentials ToLower ToUpper parse_url (in_lookup i) c with
              | inl _ => inl "config_credentials_unavailable"
              | inr c => if same_config (runtimeSettings c) (runtimeSettings raw) then inr c else inl "config_requires_restart"
              end
          end
      end
  end.

Definition tick (w : watch) (i : tick_input) : watch :=
  match load (w_raw w) i with
  | inl code => w <| w_error := code |>
  | inr c =>
      let '(view, n) := if same_config c (w_raw w) then (Some None, w_counters w)
                        else let '(v, n) := prepareConfigView (in_exchange i) (in_expired i) c (w_raw w) (w_active w) (w_counters w) in (Some <$> v, n) in
      let w := w <| w_counters := n |> in
      let revision := ConfigRevision (in_file i) in
      match view with
      | None => w <| w_error := "config_provider_probe_failed" |>
      | Some view =>
          if in_timed_out i || String.eqb revision "" || negb (String.eqb revision (ConfigRevision (in_again i)))
          then w <| w_error := "config_changed_during_load" |>
          else w <| w_active := default (w_active w) view |> <| w_raw := c |> <| w_revision := revision |>
                 <| w_checked := in_time i |> <| w_error := "" |>
      end
  end.

(** [applicationStatus]: whether what is in the file is what runs. *)
Definition applied (w : watch) (file : option string) : bool :=
  let desired := ConfigRevision file in
  negb (String.eqb desired "") && String.eqb desired (w_revision w) && String.eqb (w_error w) "".

(** [WatchConfig] before its first tick. *)
Definition WatchConfig (root : config_view) (original : Config) (n : counters) (now : time) : watch :=
  {| w_active := root; w_raw := original; w_revision := ""; w_checked := now; w_error := ""; w_counters := n |}.
Definition watch_run : watch -> list tick_input -> watch := foldl tick.
End watch.
End with_range.
