(* ===== verification/ReloadFacts.v ===== *)
(** * Configurations come and go

    Properties of [Reload.v] over all runs of the watcher: the view that runs
    is always one of a valid configuration, a generation number names one
    connection for good, and the secrets of a client are known to its
    redaction. *)

From S2P Require Import Prelude GoStrings GoFloat Json NetText Diagnostics Errors Pricing Routes View Catalog Config Reload.
From S2P Require Upstream.

Section reload.
Context (ToLower ToUpper : string -> string) (parse_url : string -> option URL).
Context {RangeProviders : MapRange string Profile} {RangePrices : MapRange string Price}.
Context {RangeAliases : MapRange string string} {RangeThresholds : MapRange string Z} {RangeStarted : MapRange string (Profile * bool)}.
Context (same_config : Config -> Config -> bool) (same_profile : Profile -> Profile -> bool).
(** [reflect.DeepEqual] only says yes of equal values. *)
Context (same_config_eq : forall a b, same_config a b = true -> a = b) (same_profile_eq : forall a b, same_profile a b = true -> a = b).
Context (digest : string -> string).

(** ** Connections *)

Definition connection : Type := string * string * string * list string.
Definition connection_of (p : Profile) : connection :=
  (BaseURL (profile p), normalizeProviderProtocol ToLower (prof_Protocol p), prof_APIVersion p, ResolvedAPIKeys p).

Lemma same_connection_spec a b : same_connection ToLower a b = true <-> connection_of a = connection_of b.
Proof.
  unfold same_connection, connection_of. rewrite !andb_true_iff, !String.eqb_eq, bool_decide_eq_true. split.
  - intros [[[H1 H2] H3] H4]. congruence.
  - intros H. injection H as H1 H2 H3 H4. done.
Qed.

Lemma resolved_keys name p protocol : ResolvedAPIKeys (resolved_profile name p protocol) = ResolvedAPIKeys p.
Proof. unfold resolved_profile. cbv zeta. destruct (_ && _), (String.eqb _ _); done. Qed.

(** What is known of the generations that were ever given out. *)
Abbreviation owners_map := (gmap Z (string * connection)) (only parsing).

(** A view that belongs to the profiles [raws], with the gateway's [token]. *)
Record view_ok (token : string) (raws : gmap string Profile) (owners : owners_map) (v : config_view) : Prop := {
  ok_generation : forall name g, v_generations v !! name = Some g ->
    exists raw, raws !! name = Some raw /\ owners !! g = Some (name, connection_of raw);
  ok_client : forall name cl, v_clients v !! name = Some cl -> token ∈ cl_RedactValues cl /\
    (exists g, v_generations v !! name = Some g /\ cl_CacheNamespace cl = providerCacheNamespace g) /\
    exists raw, raws !! name = Some raw /\ ResolvedAPIKeys raw ⊆ cl_RedactValues cl /\
      forall q, v_pools v !! name = Some q -> pool_keys q = ResolvedAPIKeys raw;
}.
Definition owners_ok (owners : owners_map) (n : counters) : Prop :=
  0 <= last_generation n /\ forall g x, owners !! g = Some x -> 1 <= g <= last_generation n.

Lemma lookup_put {A} name (x : option A) m : put_optional name x m !! name = x.
Proof. destruct x; cbn; [apply lookup_insert_eq|apply lookup_delete_eq]. Qed.
Lemma lookup_put_ne {A} name name' (x : option A) m : name <> name' -> put_optional name x m !! name' = m !! name'.
Proof. intros. destruct x; cbn; [by apply lookup_insert_ne|by apply lookup_delete_ne]. Qed.

Lemma view_ok_owners token raws owners owners' v : owners ⊆ owners' -> view_ok token raws owners v -> view_ok token raws owners' v.
Proof.
  intros Hsub [Hg Hc]. split; [|done]. intros name g Hn. destruct (Hg name g Hn) as (raw & ? & ?). exists raw. split; [done|].
  by eapply lookup_weaken.
Qed.

(** What one provider of a view is replaced by. *)
Lemma view_ok_change token raws owners v v' name :
  view_ok token raws owners v ->
  (forall x, x <> name -> v_generations v' !! x = v_generations v !! x /\ v_clients v' !! x = v_clients v !! x /\ v_pools v' !! x = v_pools v !! x) ->
  (forall g, v_generations v' !! name = Some g -> exists raw, raws !! name = Some raw /\ owners !! g = Some (name, connection_of raw)) ->
  (forall cl, v_clients v' !! name = Some cl -> token ∈ cl_RedactValues cl /\
    (exists g, v_generations v' !! name = Some g /\ cl_CacheNamespace cl = providerCacheNamespace g) /\
    exists raw, raws !! name = Some raw /\ ResolvedAPIKeys raw ⊆ cl_RedactValues cl /\
      forall q, v_pools v' !! name = Some q -> pool_keys q = ResolvedAPIKeys raw) ->
  view_ok token raws owners v'.
Proof.
  intros [Hg Hc] Hother Hg' Hc'. split; intros x; destruct (decide (x = name)) as [->|Hx]; try done; destruct (Hother x Hx) as (E1 & E2 & E3); rewrite ?E1, ?E2, ?E3; auto.
Qed.

Lemma redacts c p : cfg_AccessToken c ∈ redact_values c p /\ ResolvedAPIKeys p ⊆ redact_values c p.
Proof.
  unfold redact_values. split; [left|]. intros k Hk. apply elem_of_app. right. apply elem_of_app. by left.
Qed.

(** A provider that is added with a generation that is known for it. *)
Lemma add_provider_ok token raws owners v c name p raw catalog models known g pool reused :
  view_ok token raws owners v -> cfg_AccessToken c = token -> raws !! name = Some raw -> ResolvedAPIKeys p = ResolvedAPIKeys raw ->
  owners !! g = Some (name, connection_of raw) -> (forall q, pool = Some q -> pool_keys q = ResolvedAPIKeys raw) ->
  view_ok token raws owners (add_provider c name p catalog models known (Some g) pool reused v).
Proof.
  intros Hv <- Hraw Hkeys Hg Hpool. apply (view_ok_change _ _ _ v _ name Hv); cbn [add_provider v_generations v_clients v_pools].
  - intros x Hx. destruct reused; cbn; (split; [by apply lookup_insert_ne|split; [by apply lookup_insert_ne|by apply lookup_put_ne]]).
  - intros g'. assert (Hl : v_generations (add_provider c name p catalog models known (Some g) pool reused v) !! name = Some g) by apply lookup_insert_eq.
    rewrite Hl. intros [= <-]. by exists raw.
  - intros cl. assert (Hl : v_clients (add_provider c name p catalog models known (Some g) pool reused v) !! name = Some (new_client c name p catalog g))
      by apply lookup_insert_eq.
    rewrite Hl. intros [= <-]. destruct (redacts c p) as [Ht Hk]. split; [exact Ht|]. split.
    + exists g. split; [apply lookup_insert_eq|done].
    + exists raw. split; [done|]. split; [by rewrite <-Hkeys|]. intros q.
      assert (Hq : v_pools (add_provider c name p catalog models known (Some g) pool reused v) !! name = pool) by apply lookup_put.
      rewrite Hq. apply Hpool.
Qed.

Lemma keep_provider_ok token raws owners v previous previous_raws name raw :
  view_ok token raws owners v -> view_ok token previous_raws owners previous -> raws !! name = Some raw -> previous_raws !! name = Some raw ->
  view_ok token raws owners (keep_provider previous name v).
Proof.
  intros Hv [Pg Pc] Hraw Hprev. apply (view_ok_change _ _ _ v _ name Hv).
  - intros x Hx. unfold keep_provider. cbn. split_and!; by apply lookup_put_ne.
  - intros g. assert (Hl : v_generations (keep_provider previous name v) !! name = v_generations previous !! name) by apply lookup_put.
    rewrite Hl. intros H. destruct (Pg name g H) as (raw' & Hr & Ho). exists raw. split; [done|]. congruence.
  - intros cl. assert (Hl : v_clients (keep_provider previous name v) !! name = v_clients previous !! name) by apply lookup_put.
    assert (Hg : v_generations (keep_provider previous name v) !! name = v_generations previous !! name) by apply lookup_put.
    assert (Hq : v_pools (keep_provider previous name v) !! name = v_pools previous !! name) by apply lookup_put.
    rewrite Hl, Hg, Hq. intros H. destruct (Pc name cl H) as (Ht & Hgen & raw' & Hr & Hk). split_and!; [done..|].
    exists raw. split; [done|]. by assert (raw' = raw) as -> by congruence.
Qed.

Lemma new_pool_keys keys n q : (new_pool keys n).1 = Some q -> pool_keys q = keys.
Proof. by destruct keys; intros [= <-]. Qed.
Lemma new_pool_generation keys n : last_generation (new_pool keys n).2 = last_generation n.
Proof. by destruct keys. Qed.

Lemma owners_next owners n g x n' : owners_ok owners n -> g = last_generation n + 1 -> last_generation n' = g ->
  owners ⊆ <[g := x]> owners /\ owners_ok (<[g := x]> owners) n'.
Proof.
  intros [Hn Ho] -> Hn'. split.
  - apply insert_subseteq. destruct (owners !! _) as [y|] eqn:E; [|done]. apply Ho in E. lia.
  - split; [lia|]. intros g y. destruct (decide (g = last_generation n + 1)) as [->|Hg]; [intros _; lia|].
    rewrite lookup_insert_ne by done. intros E%Ho. lia.
Qed.

(** ** Preparation *)

Section prepare.
Context (exchange : string -> string -> option (Z * string * option string)) (expired : string -> bool).

Lemma connect_ok token raws owners c previous name raw protocol catalog v n :
  view_ok token raws owners v -> owners_ok owners n -> cfg_AccessToken c = token -> raws !! name = Some raw ->
  let r := connect_provider c previous name (resolved_profile name raw protocol) catalog v n in
  exists owners', owners ⊆ owners' /\ owners_ok owners' r.2 /\ view_ok token raws owners' r.1.
Proof.
  intros Hv Ho Ht Hraw. cbv zeta. unfold connect_provider. rewrite resolved_keys. set (g := last_generation n + 1).
  pose proof (new_pool_keys (ResolvedAPIKeys raw) (n <| last_generation := g |>)) as Hkeys.
  pose proof (new_pool_generation (ResolvedAPIKeys raw) (n <| last_generation := g |>)) as Hgen.
  destruct (new_pool (ResolvedAPIKeys raw) _) as [pool n']. cbn [fst snd] in *.
  destruct (owners_next owners n g (name, connection_of raw) n' Ho eq_refl Hgen) as [Hsub Ho']. exists (<[g := (name, connection_of raw)]> owners).
  split; [done|]. split; [done|]. apply add_provider_ok with (raw := raw); [by eapply view_ok_owners|done|done|apply resolved_keys|apply lookup_insert_eq|].
  intros q Hq. destruct pool as [q0|]; [|done]. specialize (Hkeys q0 eq_refl).
  destruct (v_providers previous !! name) as [prior|]; [|by injection Hq as <-].
  destruct (v_pools previous !! name) as [old|]; [|by injection Hq as <-].
  destruct (sameProviderEndpoint _ _); by injection Hq as <-.
Qed.

Lemma prepare_provider_ok token raws praws owners c previous v n name raw :
  view_ok token raws owners v -> view_ok token praws owners previous -> owners_ok owners n -> cfg_AccessToken c = token ->
  raws !! name = Some raw ->
  let r := prepare_provider ToLower same_profile exchange expired c praws previous v n name raw in
  exists owners', owners ⊆ owners' /\ owners_ok owners' r.2 /\ forall v', r.1 = Some v' -> view_ok token raws owners' v'.
Proof.
  intros Hv Hp Ho Ht Hraw. cbv zeta. unfold prepare_provider.
  assert (Hbefore : forall b, (if had_client previous name then praws !! name else None) = Some b ->
    praws !! name = Some b /\ exists g, v_generations previous !! name = Some g /\ owners !! g = Some (name, connection_of b) /\
    forall q, v_pools previous !! name = Some q -> pool_keys q = ResolvedAPIKeys b).
  { intros b. unfold had_client. case_bool_decide as Hcl; [|done]. intros Hb. split; [done|]. destruct Hcl as [cl Hcl].
    destruct (ok_client _ _ _ _ Hp name cl Hcl) as (_ & (g & Hg & _) & raw' & Hr' & _ & Hq). exists g.
    assert (raw' = b) as -> by congruence. split; [done|]. split; [|done].
    destruct (ok_generation _ _ _ _ Hp name g Hg) as (b' & Hb' & Hown). by assert (b' = b) as -> by congruence. }
  set (before := if had_client previous name then praws !! name else None) in *. clearbody before.
  destruct (match before with Some b => same_profile raw b | None => false end) eqn:Hsame.
  { destruct before as [b|]; [|done]. apply same_profile_eq in Hsame as ->. destruct (Hbefore b eq_refl) as (Hb & _).
    exists owners. cbn [fst snd]. split_and!; [done|done|]. intros v' [= <-]. by apply (keep_provider_ok token raws owners v previous praws name b). }
  destruct (match before with Some b => same_connection ToLower b raw | None => false end) eqn:Hconn.
  { destruct before as [b|]; [|done]. apply same_connection_spec in Hconn. destruct (Hbefore b eq_refl) as (_ & g & Hg & Hown & Hpool).
    exists owners. destruct (expired name); cbn [fst snd]; split_and!; try done. intros v' [= <-]. rewrite Hg.
    assert (Hk : ResolvedAPIKeys b = ResolvedAPIKeys raw) by (unfold connection_of in Hconn; congruence).
    apply add_provider_ok with (raw := raw); [done|done|done|by rewrite resolved_keys|by rewrite <-Hconn|]. intros q Hq. by rewrite <-Hk; apply Hpool. }
  destruct (probe ToLower exchange name raw) as [[protocol catalog]|]; [|by exists owners].
  destruct (expired name); [by exists owners|].
  destruct (connect_ok token raws owners c previous name raw protocol catalog v n Hv Ho Ht Hraw) as (owners' & H1 & H2 & H3). exists owners'.
  destruct (connect_provider _ _ _ _ _ _ _) as [v1 n1]. cbn in *. split_and!; [done..|]. by intros v' [= <-].
Qed.

Lemma prepare_all_ok token raws praws owners c previous l st :
  cfg_AccessToken c = token -> view_ok token praws owners previous -> owners_ok owners st.2 ->
  (forall v, st.1 = Some v -> view_ok token raws owners v) -> (forall name raw, (name, raw) ∈ l -> raws !! name = Some raw) ->
  let r := foldl (prepare_step ToLower same_profile exchange expired c praws previous) st l in
  exists owners', owners ⊆ owners' /\ owners_ok owners' r.2 /\ forall v', r.1 = Some v' -> view_ok token raws owners' v'.
Proof.
  intros Ht. cbv zeta. revert owners st. induction l as [|[name raw] l IH]; intros owners [v n] Hp Ho Hv Hl; [by exists owners|].
  cbn [foldl]. destruct v as [v|].
  2: { apply (IH owners (None, n)); [done..|]. intros name' raw' ?. apply Hl. by right. }
  destruct (prepare_provider_ok token raws praws owners c previous v n name raw (Hv v eq_refl) Hp Ho Ht) as (o1 & S1 & O1 & V1).
  { apply Hl. left. }
  set (st1 := prepare_step _ _ _ _ _ _ _ (Some v, n) (name, raw)). change (prepare_provider _ _ _ _ _ _ _ _ _ _ _) with st1 in O1, V1.
  destruct (IH o1 st1) as (o2 & S2 & O2 & V2); [by eapply view_ok_owners|done|done|intros name' raw' ?; apply Hl; by right|].
  exists o2. split; [by transitivity o1|]. split; [exact O2|exact V2].
Qed.

Lemma prepareConfigView_ok token owners c previousRaw previous n : cfg_AccessToken c = token ->
  view_ok token (raw_providers previousRaw) owners previous -> owners_ok owners n ->
  let r := prepareConfigView ToLower ToUpper parse_url same_profile exchange expired c previousRaw previous n in
  exists owners', owners ⊆ owners' /\ owners_ok owners' r.2 /\
    forall v', r.1 = Some v' -> view_ok token (raw_providers c) owners' v' /\ Config_Validate ToLower ToUpper parse_url (v_config v') = None.
Proof.
  intros Ht Hp Ho. cbv zeta. unfold prepareConfigView.
  destruct (prepare_all_ok token (raw_providers c) (raw_providers previousRaw) owners c previous (range (raw_providers c))
    (Some (empty_view c (v_epoch previous + 1)), n) Ht Hp Ho) as (o & S & O & V).
  { intros v [= <-]. split; intros name; cbn; by rewrite lookup_empty. }
  { intros name raw. apply elem_of_range. }
  exists o. destruct (foldl _ _ _) as [[v|] n1]; cbn [fst snd] in *; [|done].
  destruct (Config_Validate _ _ _ _) eqn:Hv; cbn [fst snd]; split_and!; try done. intros v' [= <-]. split; [|done].
  destruct (V v eq_refl) as [Vg Vc]. split; [exact Vg|exact Vc].
Qed.
End prepare.

(** ** The first view *)

Section start.
Context (exchange : string -> string -> option (Z * string * option string)).

Lemma start_provider_keys name p p' failed : start_provider ToLower exchange name p = Some (p', failed) -> ResolvedAPIKeys p' = ResolvedAPIKeys p.
Proof.
  unfold start_provider. set (p1 := match ResolvedAPIKeys p with k :: _ => _ | [] => _ end).
  assert (Hk : ResolvedAPIKeys p1 = ResolvedAPIKeys p).
  { unfold p1. unfold ResolvedAPIKeys. destruct (prof_APIKeys p) as [|k ks] eqn:Hks; cbn; [|by rewrite Hks].
    destruct (String.eqb_spec (prof_APIKey p) "") as [He|He]; cbn; [by rewrite Hks, He|]. rewrite Hks. cbn.
    by destruct (String.eqb_spec (prof_APIKey p) ""). }
  clearbody p1. destruct (if _ : bool then fst <$> _ else Some _) as [protocol|]; [|intros [= <- _]; by destruct (String.eqb _ _)].
  rewrite <-Hk, <-(resolved_keys name p1 protocol). repeat case_match; by intros [= <- _].
Qed.

(** The profiles that the start works with, and those of the configuration. *)
Definition started_from (raws : gmap string Profile) (l : list (string * (Profile * bool))) : Prop :=
  NoDup l.*1 /\ forall name p failed, (name, (p, failed)) ∈ l -> exists raw, raws !! name = Some raw /\ ResolvedAPIKeys p = ResolvedAPIKeys raw.

Lemma start_step_ok token raws owners c named v n name p failed raw :
  view_ok token raws owners v -> owners_ok owners n -> cfg_AccessToken c = token -> v_clients v !! name = None -> v_generations v !! name = None ->
  raws !! name = Some raw -> ResolvedAPIKeys p = ResolvedAPIKeys raw ->
  let r := start_step exchange c named (v, n) (name, (p, failed)) in
  exists owners', owners ⊆ owners' /\ owners_ok owners' r.2 /\ view_ok token raws owners' r.1 /\
    forall x, x <> name -> v_clients r.1 !! x = v_clients v !! x /\ v_generations r.1 !! x = v_generations v !! x.
Proof.
  intros Hv Ho Ht Hc Hg Hraw Hk. cbv zeta. unfold start_step. rewrite Hk.
  pose proof (new_pool_keys (ResolvedAPIKeys raw) n) as Hkeys. pose proof (new_pool_generation (ResolvedAPIKeys raw) n) as Hgen.
  destruct (new_pool (ResolvedAPIKeys raw) n) as [pool n1]. cbn [fst snd] in *.
  destruct failed.
  - exists owners. cbn [fst snd]. split; [done|]. split; [by destruct Ho as [? Ho]; split; rewrite Hgen|]. split; [|done].
    apply (view_ok_change _ _ _ v _ name Hv); cbn.
    + intros x Hx. split; [done|]. split; [done|]. by apply lookup_put_ne.
    + intros g. by rewrite Hg.
    + intros cl. by rewrite Hc.
  - set (g := last_generation n1 + 1). set (catalog := if named then discoverProviderCatalog _ _ else no_catalog).
    destruct (owners_next owners n g (name, connection_of raw) (n1 <| last_generation := g |>) Ho ltac:(by unfold g; rewrite Hgen) eq_refl) as [Hsub Ho'].
    exists (<[g := (name, connection_of raw)]> owners). split; [done|].
    assert (Hparts : forall v2, v_generations v2 = <[name := g]> (v_generations v) ->
      v_clients v2 = <[name := new_client c name p catalog g]> (v_clients v) -> v_pools v2 = put_optional name pool (v_pools v) ->
      view_ok token raws (<[g := (name, connection_of raw)]> owners) v2 /\
      forall x, x <> name -> v_clients v2 !! x = v_clients v !! x /\ v_generations v2 !! x = v_generations v !! x).
    { intros v2 E1 E2 E3. split; [|intros x Hx; rewrite E1, E2; by rewrite !lookup_insert_ne].
      apply (view_ok_change _ _ _ v _ name (view_ok_owners _ _ _ _ _ Hsub Hv)); rewrite ?E1, ?E2, ?E3.
      - intros x Hx. rewrite !lookup_insert_ne, lookup_put_ne by done. done.
      - intros g'. rewrite lookup_insert_eq. intros [= <-]. exists raw. split; [done|]. apply lookup_insert_eq.
      - intros cl. rewrite lookup_insert_eq. intros [= <-]. destruct (redacts c p) as [Hr1 Hr2]. split; [by rewrite <-Ht|]. split.
        + exists g. split; [apply lookup_insert_eq|done].
        + exists raw. split; [done|]. split; [by rewrite <-Hk|]. intros q. rewrite lookup_put. apply Hkeys. }
    cbn [fst snd]. split; [exact Ho'|]. destruct named; apply Hparts; done.
Qed.

Lemma start_fold_ok token raws owners c named l st :
  view_ok token raws owners st.1 -> owners_ok owners st.2 -> cfg_AccessToken c = token -> started_from raws l ->
  (forall name, name ∈ l.*1 -> v_clients st.1 !! name = None /\ v_generations st.1 !! name = None) ->
  let r := foldl (start_step exchange c named) st l in
  exists owners', owners_ok owners' r.2 /\ view_ok token raws owners' r.1.
Proof.
  intros Hv Ho Ht. cbv zeta. revert owners st Hv Ho. induction l as [|[name [p failed]] l IH]; intros owners [v n] Hv Ho [Hn Hl] Hnew; [by exists owners|].
  cbn [foldl]. apply NoDup_cons in Hn as [Hname Hn]. destruct (Hl name p failed) as (raw & Hraw & Hk); [left|].
  destruct (Hnew name) as [Hc Hg]; [left|]. cbn [fst snd] in *.
  destruct (start_step_ok token raws owners c named v n name p failed raw Hv Ho Ht Hc Hg Hraw Hk) as (o1 & S1 & O1 & V1 & X1).
  set (st1 := start_step exchange c named (v, n) (name, (p, failed))) in *. apply (IH o1 st1); [done|done| |].
  - split; [done|]. intros name' p' failed' Hin. apply (Hl name' p' failed'). by right.
  - intros x Hx. assert (x <> name) as Hne by (intros ->; done). destruct (X1 x Hne) as [-> ->]. apply Hnew. by right.
Qed.

Lemma start_all_spec l acc started : start_all ToLower exchange l acc = Some started ->
  forall name r, started !! name = Some r -> acc !! name = Some r \/ exists p, (name, p) ∈ l /\ start_provider ToLower exchange name p = Some r.
Proof.
  revert acc. induction l as [|[name p] l IH]; intros acc; cbn; [intros [= <-]; auto|].
  destruct (start_provider ToLower exchange name p) as [r0|] eqn:Hp; [|done]. intros Hs name' r Hr. destruct (IH _ Hs name' r Hr) as [H|(p' & Hin & H)].
  - destruct (decide (name' = name)) as [->|Hne]; [|left; by rewrite lookup_insert_ne in H].
    rewrite lookup_insert_eq in H. right. exists p. split; [left|congruence].
  - right. exists p'. split; [by right|done].
Qed.

Lemma start_legacy_keys c p failed : start_legacy ToLower exchange c = Some (p, failed) -> ResolvedAPIKeys p = ResolvedAPIKeys (legacy_profile c).
Proof.
  unfold start_legacy. cbv zeta. destruct (_ || _); [by intros [= <- _]|]. destruct (_ && _); [done|].
  destruct (detectProviderCatalog _ _) as [[detected catalog]|]; [|done]. cbn [mbind option_bind].
  destruct (String.eqb detected "anthropic"); [|by intros [= <- _]]. destruct (Dates.is_date _); [by intros [= <- _]|done].
Qed.

Lemma start_config c named l st : v_config (foldl (start_step exchange c named) st l).1 = v_config st.1.
Proof.
  revert st. induction l as [|[name [p failed]] l IH]; intros [v n]; [done|]. cbn [foldl]. rewrite IH. unfold start_step.
  destruct (new_pool _ _) as [pool n1]. by destruct failed, named.
Qed.

Lemma NewHandler_ok c v n : NewHandler ToLower ToUpper parse_url exchange c = inr (v, n) ->
  Config_Validate ToLower ToUpper parse_url (v_config v) = None /\
  exists owners, owners_ok owners n /\ view_ok (cfg_AccessToken c) (raw_providers c) owners v.
Proof.
  unfold NewHandler. destruct (Config_Validate ToLower ToUpper parse_url c); [done|]. cbv zeta.
  set (named := negb (bool_decide (size (Providers c) = 0%nat))).
  destruct (negb named && String.eqb (cfg_BaseURL c) "") eqn:Hbase; [done|]. destruct (String.eqb (cfg_AccessToken c) ""); [done|].
  destruct (if named then _ else _); [done|]. set (begun := if named then start_all _ _ _ _ else _).
  assert (Hfrom : forall started, begun = Some started -> started_from (raw_providers c) (range started)).
  { intros started Hs. split; [rewrite range_perm; apply NoDup_fst_map_to_list|]. intros name p failed Hin. apply elem_of_range in Hin.
    unfold begun, raw_providers, legacy in *. destruct named eqn:Hn; unfold named in Hn.
    - apply negb_true_iff in Hn. rewrite Hn. cbn [andb].
      destruct (start_all_spec _ _ _ Hs name _ Hin) as [H|(raw & Hr & Hstart)]; [by rewrite lookup_empty in H|].
      apply elem_of_range in Hr. exists raw. split; [done|]. by eapply start_provider_keys.
    - apply negb_false_iff in Hn. rewrite Hn. cbn [negb andb] in *. rewrite Hbase. cbn [negb].
      destruct (start_legacy ToLower exchange c) as [r|] eqn:Hl; [|done]. injection Hs as <-.
      apply lookup_singleton_Some in Hin as [<- ->]. exists (legacy_profile c). rewrite lookup_singleton_eq. split; [done|]. by eapply start_legacy_keys. }
  destruct begun as [started|]; [|done]. destruct (forallb _ _); [done|].
  destruct (Config_Validate ToLower ToUpper parse_url (resolved_config c (fst <$> started))) eqn:Hv; [done|]. intros Hr. apply (inj inr) in Hr.
  set (st0 := (empty_view (resolved_config c (fst <$> started)) 0, {| last_generation := 0; next_pointer := 0 |})) in Hr.
  assert (Htok : cfg_AccessToken (resolved_config c (fst <$> started)) = cfg_AccessToken c).
  { unfold resolved_config. by repeat case_match. }
  pose proof (start_config (resolved_config c (fst <$> started)) named (range started) st0) as Hcfg. rewrite Hr in Hcfg. cbn [fst] in Hcfg.
  split; [by rewrite Hcfg|].
  destruct (start_fold_ok (cfg_AccessToken c) (raw_providers c) ∅ (resolved_config c (fst <$> started)) named (range started) st0) as (owners & Ho & Hok).
  - by split; intros name; cbn; rewrite lookup_empty.
  - split; [done|]. intros g x. by rewrite lookup_empty.
  - done.
  - by apply Hfrom.
  - intros name _. cbn. by rewrite !lookup_empty.
  - rewrite Hr in Ho, Hok. by exists owners.
Qed.
End start.

(** ** Ticks *)

Abbreviation valid c := (Config_Validate ToLower ToUpper parse_url c = None).
Abbreviation tick := (tick ToLower ToUpper parse_url same_config same_profile digest).
Abbreviation watch_run := (watch_run ToLower ToUpper parse_url same_config same_profile digest).

Lemma load_spec raw i c : load ToLower ToUpper parse_url same_config raw i = inr c ->
  exists data decoded, in_file i = Some data /\ decodeConfig ToLower data = inr decoded /\ valid decoded /\
    ResolveCredentials ToLower ToUpper parse_url (in_lookup i) decoded = inr c /\ runtimeSettings c = runtimeSettings raw.
Proof.
  unfold load. destruct (in_file i) as [data|]; [|done]. destruct (decodeConfig ToLower data) as [|decoded] eqn:Hd; [done|].
  destruct (Config_Validate _ _ _ decoded) eqn:Hv; [done|]. destruct (ResolveCredentials _ _ _ _ decoded) as [|c'] eqn:Hr; [done|].
  destruct (same_config _ _) eqn:Hs; [|done]. intros [= ->]. exists data, decoded. split_and!; [done..|]. by apply same_config_eq.
Qed.

Lemma load_code raw i code : load ToLower ToUpper parse_url same_config raw i = inl code -> code <> "".
Proof. unfold load. repeat case_match; intros [= <-]; done. Qed.

(** A tick publishes or fails. *)
Definition failed_tick (w w' : watch) : Prop :=
  w_error w' <> "" /\ w_active w' = w_active w /\ w_raw w' = w_raw w /\ w_revision w' = w_revision w /\ w_checked w' = w_checked w.
Definition published (w : watch) (i : tick_input) (w' : watch) : Prop :=
  w_error w' = "" /\ exists data decoded, in_file i = Some data /\ w_revision w' = digest data /\ w_revision w' = ConfigRevision digest (in_again i) /\
    decodeConfig ToLower data = inr decoded /\ valid decoded /\
    ResolveCredentials ToLower ToUpper parse_url (in_lookup i) decoded = inr (w_raw w') /\
    runtimeSettings (w_raw w') = runtimeSettings (w_raw w) /\
    (w_active w' = w_active w /\ w_raw w' = w_raw w \/
     (prepareConfigView ToLower ToUpper parse_url same_profile (in_exchange i) (in_expired i) (w_raw w') (w_raw w) (w_active w) (w_counters w)).1
       = Some (w_active w')).

Lemma tick_spec w i : failed_tick w (tick w i) \/ published w i (tick w i).
Proof.
  unfold Reload.tick. destruct (load _ _ _ _ _ i) as [code|c] eqn:Hl.
  { left. split; [|done]. by apply load_code in Hl. }
  apply load_spec in Hl as (data & decoded & Hf & Hd & Hv & Hr & Hs).
  assert (Hrev : ConfigRevision digest (in_file i) = digest data) by (by rewrite Hf).
  destruct (same_config c (w_raw w)) eqn:Hsame; [|destruct (prepareConfigView _ _ _ _ _ _ _ _ _ _) as [[v|] n] eqn:Hp]; cbn [fmap option_fmap option_map].
  3: { left. by split. }
  all: destruct (in_timed_out i || _ || _) eqn:Ht; [left; by split|].
  all: rewrite !orb_false_iff, negb_false_iff, String.eqb_eq in Ht; destruct Ht as [_ Hagain].
  all: right; split; [done|]; exists data, decoded; split_and!; try done.
  - left. apply same_config_eq in Hsame as ->. done.
  - right. cbn. by rewrite Hp.
Qed.

(** ** Runs *)

(** The invariant of the watcher, with the [token] of the gateway. *)
Record watch_ok (settings : Config) (owners : owners_map) (w : watch) : Prop := {
  watch_owners : owners_ok owners (w_counters w);
  watch_view : view_ok (cfg_AccessToken settings) (raw_providers (w_raw w)) owners (w_active w);
  watch_valid : valid (v_config (w_active w));
  watch_settings : runtimeSettings (w_raw w) = runtimeSettings settings;
}.

Lemma settings_token c c' : runtimeSettings c = runtimeSettings c' -> cfg_AccessToken c = cfg_AccessToken c'.
Proof. intros H. by apply (f_equal cfg_AccessToken) in H. Qed.

Lemma tick_counters_ok settings owners w i : watch_ok settings owners w ->
  exists owners', owners ⊆ owners' /\ watch_ok settings owners' (tick w i).
Proof.
  intros [Ho Hview Hvalid Hset].
  assert (Hnow : exists owners', owners ⊆ owners' /\ owners_ok owners' (w_counters (tick w i)) /\
    (published w i (tick w i) -> view_ok (cfg_AccessToken settings) (raw_providers (w_raw (tick w i))) owners' (w_active (tick w i)) /\
                                 valid (v_config (w_active (tick w i))))).
  { unfold Reload.tick. destruct (load _ _ _ _ _ i) as [code|c] eqn:Hl.
    { exists owners. split; [done|]. split; [done|]. intros (He & _). by apply load_code in Hl. }
    apply load_spec in Hl as (_ & _ & _ & _ & _ & _ & Hs). rewrite Hset in Hs. apply settings_token in Hs as Ht.
    destruct (same_config c (w_raw w)) eqn:Hsame.
    - apply same_config_eq in Hsame as ->. exists owners. split; [done|]. destruct (_ || _ || _); split; done.
    - destruct (prepareConfigView_ok (in_exchange i) (in_expired i) (cfg_AccessToken settings) owners c (w_raw w) (w_active w) (w_counters w) Ht Hview Ho)
        as (o & S & O & V).
      destruct (prepareConfigView _ _ _ _ _ _ _ _ _ _) as [[v|] n]; cbn [fst snd fmap option_fmap option_map] in *.
      + exists o. split; [done|]. destruct (_ || _ || _); (split; [exact O|]); [|intros _; by apply V].
        intros (He & _). done.
      + exists o. split; [done|]. split; [exact O|]. intros (He & _). done. }
  destruct Hnow as (o & S & O & P). exists o. split; [done|].
  destruct (tick_spec w i) as [(_ & Ha & Hr & _)|Hp].
  - split; [done|rewrite Hr, Ha; by eapply view_ok_owners|by rewrite Ha|by rewrite Hr].
  - destruct (P Hp) as [Pv Pc]. split; [done..|]. destruct Hp as (_ & ? & ? & _ & _ & _ & _ & _ & _ & Hs & _). by rewrite Hs.
Qed.

Lemma run_ok settings owners w l : watch_ok settings owners w -> exists owners', owners ⊆ owners' /\ watch_ok settings owners' (watch_run w l).
Proof.
  revert owners w. induction l as [|i l IH]; intros owners w Hw; [by exists owners|].
  destruct (tick_counters_ok settings owners w i Hw) as (o1 & S1 & H1). destruct (IH o1 _ H1) as (o2 & S2 & H2).
  exists o2. split; [by transitivity o1|done].
Qed.

(** A gateway that was started with a configuration and has watched its file. *)
Definition running (c : Config) (l : list tick_input) (w : watch) : Prop :=
  exists exchange v n now, NewHandler ToLower ToUpper parse_url exchange c = inr (v, n) /\ w = watch_run (WatchConfig v c n now) l.

Lemma running_ok c l w : running c l w -> exists owners, watch_ok c owners w.
Proof.
  intros (exchange & v & n & now & Hn & ->). apply NewHandler_ok in Hn as (Hv & owners & Ho & Hok).
  destruct (run_ok c owners (WatchConfig v c n now) l) as (o & _ & H); [|by exists o]. by split.
Qed.

(** C24. A running gateway always serves a valid configuration.  Each tick
    either fails, with a code, and leaves the view, its configuration and its
    revision as they were, or it publishes: then the file was the same at its
    end as at its beginning, it decodes to an accepted configuration whose
    credentials were all found, and the settings of the process are those the
    gateway was started with. *)
Theorem last_valid_view_kept c l w i : running c l w ->
  valid (v_config (w_active w)) /\ runtimeSettings (w_raw w) = runtimeSettings c /\
  (failed_tick w (tick w i) \/ published w i (tick w i)).
Proof. intros Hr. destruct (running_ok c l w Hr) as (o & [_ _ Hv Hs]). split_and!; [done..|]. apply tick_spec. Qed.

(** C23. A generation names one connection for good.  If two views that were
    ever published by a gateway, one earlier and one later, give a provider the
    same generation, then it is the same provider with the same address,
    protocol, version and keys; what is remembered under the namespace of that
    generation can never serve another connection. *)
Theorem generation_identifies_connection c l1 l2 w1 name1 name2 g : running c l1 w1 -> let w2 := watch_run w1 l2 in
  v_generations (w_active w1) !! name1 = Some g -> v_generations (w_active w2) !! name2 = Some g ->
  name1 = name2 /\ exists raw1 raw2, raw_providers (w_raw w1) !! name1 = Some raw1 /\ raw_providers (w_raw w2) !! name2 = Some raw2 /\
    connection_of raw1 = connection_of raw2.
Proof.
  intros Hr. cbv zeta. destruct (running_ok c l1 w1 Hr) as (o1 & H1). destruct (run_ok c o1 w1 l2 H1) as (o2 & S & H2).
  intros G1 G2. destruct (ok_generation _ _ _ _ (watch_view _ _ _ H1) _ _ G1) as (raw1 & R1 & O1).
  destruct (ok_generation _ _ _ _ (watch_view _ _ _ H2) _ _ G2) as (raw2 & R2 & O2).
  pose proof (lookup_weaken _ _ _ _ O1 S) as O1'. rewrite O2 in O1'. apply (inj Some) in O1'.
  pose proof (f_equal fst O1') as E1. pose proof (f_equal snd O1') as E2. cbn [fst snd] in E1, E2. split; [done|]. by exists raw1, raw2.
Qed.

(** C25. The secrets that a client can send are known to its redaction: in every
    view that runs, its list contains the token of the gateway and all keys of
    its provider and of its pool, also after the view was replaced around it;
    and the client's cache is that of its own generation. *)
Theorem secrets_redacted c l w name cl : running c l w -> v_clients (w_active w) !! name = Some cl ->
  cfg_AccessToken c ∈ cl_RedactValues cl /\
  (exists g, v_generations (w_active w) !! name = Some g /\ cl_CacheNamespace cl = providerCacheNamespace g) /\
  exists raw, raw_providers (w_raw w) !! name = Some raw /\ ResolvedAPIKeys raw ⊆ cl_RedactValues cl /\
    forall q, v_pools (w_active w) !! name = Some q -> pool_keys q ⊆ cl_RedactValues cl.
Proof.
  intros Hr Hc. destruct (running_ok c l w Hr) as (o & [_ Hv _ _]). destruct (ok_client _ _ _ _ Hv name cl Hc) as (Ht & Hg & raw & Hraw & Hk & Hq).
  split_and!; [done..|]. exists raw. split_and!; [done..|]. intros q H. by rewrite (Hq q H).
Qed.
End reload.

(** * A catalog, a configuration and its replacement, run through the model *)

From Stdlib Require Import SpecFloat.
From S2P Require Import Prelude GoStrings GoFloat Json NetText Diagnostics Errors Pricing Routes View.
From S2P Require Import Catalog CatalogFacts Config ConfigFacts Reload.
From S2P Require Upstream Budget StreamDemo.

(** [reflect.DeepEqual] on the model's values. *)
#[local] Instance spec_float_eq : EqDecision spec_float.
Proof. solve_decision. Defined.
#[local] Instance Price_eq : EqDecision Price.
Proof. solve_decision. Defined.
#[local] Instance BudgetPolicy_eq : EqDecision Budget.BudgetPolicy.
Proof. solve_decision. Defined.
#[local] Instance Provider_eq : EqDecision Provider.
Proof. solve_decision. Defined.
#[local] Instance ProviderErrorMapping_eq : EqDecision ProviderErrorMapping.
Proof. solve_decision. Defined.
#[local] Instance Profile_eq : EqDecision Profile.
Proof. solve_decision. Defined.
#[local] Instance RoutingConfig_eq : EqDecision RoutingConfig.
Proof. solve_decision. Defined.
#[local] Instance ReconciliationConfig_eq : EqDecision ReconciliationConfig.
Proof. solve_decision. Defined.
#[local] Instance Limits_eq : EqDecision Upstream.Limits.
Proof. solve_decision. Defined.
#[local] Instance Config_eq : EqDecision Config.
Proof. solve_decision. Defined.
Definition same_value {A} `{EqDecision A} (a b : A) : bool := bool_decide (a = b).
Lemma same_value_eq {A} `{EqDecision A} (a b : A) : same_value a b = true -> a = b.
Proof. apply bool_decide_eq_true. Qed.

Abbreviation quoted := StreamDemo.quoted.
Abbreviation lower := Strings.ToLowerASCII.
Abbreviation upper := Strings.ToUpperASCII.

(** ** A catalog *)

(** Three records of two models: one pair agrees, the other model is stated
    with an output limit above its context. *)
Definition demo_catalog : string :=
  quoted "{'object':'list','data':[{'id':'a','object':'model','context_length':1000},{'id':'b','object':'model','context_length':10,'max_output_tokens':20},{'id':'a','object':'model','max_model_len':1000}]}".
(** As before, but the records of the first model contradict each other. *)
Definition torn_catalog : string :=
  quoted "{'object':'list','data':[{'id':'a','object':'model','context_length':1000},{'id':'a','object':'model','context_length':2000}]}".

Lemma models_learned_witness : parseProviderModels demo_catalog "openai" = (["a"; "b"], true) /\ NoDup ["a"; "b"].
Proof.
  split; [vm_compute; reflexivity|].
  refine (proj1 (models_learned demo_catalog "openai" ["a"; "b"] true _)). vm_compute. reflexivity.
Defined.

Lemma catalog_limits_agreed_witness :
  capabilities (parseProviderCatalog demo_catalog "openai") !! "a" = Some {| cap_ContextTokens := 1000; cap_MaxOutputTokens := 0 |} /\
  capabilities (parseProviderCatalog demo_catalog "openai") !! "b" = Some no_capabilities /\
  capabilities (parseProviderCatalog torn_catalog "openai") !! "a" = Some no_capabilities /\
  forall records, records ≡ₚ catalog_records torn_catalog ->
    capabilities (foldl (catalog_step "openai") ((parseProviderCatalog torn_catalog "openai") <| capabilities := ∅ |>) records) =
    capabilities (parseProviderCatalog torn_catalog "openai").
Proof.
  split; [vm_compute; reflexivity|]. split; [vm_compute; reflexivity|]. split; [vm_compute; reflexivity|].
  refine (proj2 (proj2 (catalog_limits_agreed torn_catalog "openai")) _). vm_compute. reflexivity.
Defined.

Definition declared_output : ModelCapabilities := {| cap_ContextTokens := 0; cap_MaxOutputTokens := 2000 |}.
Definition learned : providerCatalog := parseProviderCatalog demo_catalog "openai".
Lemma effective_limits_witness :
  effectiveModelCapabilities no_Provider declared_output learned "a" = (declared_output, true) /\
  valid_caps (effectiveModelCapabilities no_Provider declared_output learned "a").1.
Proof.
  split; [vm_compute; reflexivity|].
  assert (H : valid_caps declared_output) by (vm_compute; reflexivity).
  assert (Hc : map_Forall (fun _ => valid_caps) (capabilities learned)) by (intros id caps; apply catalog_valid).
  pose proof (effective_limits no_Provider declared_output learned "a" H Hc) as R. cbv zeta in R.
  destruct (effectiveModelCapabilities no_Provider declared_output learned "a") as [caps conflict]. exact (proj1 R).
Defined.

(** A provider that answers the first way to authenticate only. *)
Definition demo_exchange (auth : string) : option (Z * string * option string) :=
  if String.eqb auth "openai" then Some (200, "application/json; charset=utf-8", Some demo_catalog) else Some (401, "", None).
Example detected : detectProviderCatalog lower demo_exchange = Some ("openai", learned).
Proof. vm_compute. reflexivity. Qed.

(** ** A configuration *)

Definition demo_url (v : string) : option URL :=
  if Strings.HasPrefix v "https://" then
    Some {| Scheme := "https"; Opaque := ""; User := false; Host := "example.org"; Hostname := "example.org"; RawQuery := ""; Fragment := "" |}
  else None.
Definition demo_text (second_key : string) : string :=
  quoted ("{'listen_addr':'127.0.0.1:8080','access_token_keychain':{'service':'tidemux','account':'token'},'max_in_flight':4,'ledger_path':'/tmp/ledger','routing':{'provider_switch_threshold':30},'providers':{'one':{'protocol':'openai','base_url':'https://one.example/v1','upstream_keychains':[{'service':'one','account':'k1'},{'service':'one','account':'k2'}],'model_aliases':{'fast':'gpt-x'},'budget':{'currency':''}},'two':{'protocol':'anthropic','base_url':'https://two.example','upstream_keychain':{'service':'two','account':'" +:+ second_key +:+ "'},'model_capabilities':{'context_tokens':1000}}},'auto_chain':[{'provider':'one','model':'fast'},{'provider':'two','model':'opus'}]}").
Definition decoded (second_key : string) : Config :=
  match decodeConfig lower (demo_text second_key) with inr c => c | inl _ => no_Config end.
Definition demo_lookup (r : KeychainReference) : option string := Some (Service r +:+ "-" +:+ Account r).
Definition resolved (second_key : string) : Config :=
  match ResolveCredentials lower upper demo_url demo_lookup (decoded second_key) with inr c => c | inl _ => no_Config end.

Example decoded_ok : match decodeConfig lower (demo_text "k") with inr c => size (Providers c) = 2%nat | inl _ => False end.
Proof. vm_compute. reflexivity. Qed.
Example obsolete_refused : match decodeConfig lower (quoted "{'max_active_sessions':0}") with inl _ => True | inr _ => False end.
Proof. vm_compute. done. Qed.
Example unknown_refused :
  match decodeConfig lower (quoted "{'providers':{'one':{'api_key':'secret'}}}") with inl _ => True | inr _ => False end.
Proof. vm_compute. done. Qed.

Definition demo_handler : handler := handler_of ((empty_view (decoded "k") 0) <| v_providers := Providers (decoded "k") |>).
Lemma valid_config_routes_witness :
  switchThreshold demo_handler "two" "opus" = 30 /\ 0 <= switchThreshold demo_handler "one" "fast" <= 86400.
Proof.
  split; [vm_compute; reflexivity|].
  refine (proj1 (valid_config_routes lower upper demo_url (decoded "k") demo_handler _ _) "one" "fast"); [vm_compute; reflexivity|].
  by split.
Defined.

Lemma credentials_fit_witness :
  (prof_APIKeys <$> Providers (resolved "k") !! "one") = Some ["one-k1"; "one-k2"] /\ usable_key (cfg_AccessToken (resolved "k")).
Proof.
  split; [vm_compute; reflexivity|].
  refine (proj1 (proj2 (credentials_fit lower upper demo_url demo_lookup (decoded "k") (resolved "k") _))). vm_compute. reflexivity.
Defined.

(** ** A run of the watcher *)

(** Nobody lists models. *)
Definition silent (name auth : string) : option (Z * string * option string) := Some (404, "", None).
Definition first_view : config_view * counters :=
  match NewHandler lower upper demo_url silent (resolved "k") with inr r => r | inl _ => (empty_view no_Config 0, {| last_generation := 0; next_pointer := 0 |}) end.
Definition demo_tick (file again : option string) : tick_input :=
  {| in_file := file; in_lookup := demo_lookup; in_exchange := silent; in_expired := fun _ => false; in_timed_out := false;
     in_again := again; in_time := 1 |}.
(** The key of the second provider changes; then the file is broken; then it
    changes while it is read. *)
Definition demo_ticks : list tick_input :=
  [demo_tick (Some (demo_text "k")) (Some (demo_text "k")); demo_tick (Some (demo_text "new")) (Some (demo_text "new"));
   demo_tick (Some "{") (Some "{"); demo_tick (Some (demo_text "k")) (Some (demo_text "new"))].
Definition identity_digest (s : string) : string := s.
Abbreviation demo_run l := (watch_run lower upper demo_url same_value same_value identity_digest (WatchConfig first_view.1 (resolved "k") first_view.2 0) l).
Definition after (k : nat) : watch := demo_run (take k demo_ticks).

Example demo_errors : (fun k => w_error (after k)) <$> [1; 2; 3; 4]%nat = [""; ""; "config_validation_failed"; "config_changed_during_load"].
Proof. vm_compute. reflexivity. Qed.
Example demo_generations : (fun k => (v_generations (w_active (after k)) !! "one", v_generations (w_active (after k)) !! "two")) <$> [0; 1; 2; 4]%nat =
  [(Some 1, Some 2); (Some 1, Some 2); (Some 1, Some 3); (Some 1, Some 3)].
Proof. vm_compute. reflexivity. Qed.
(** The endpoint of the second provider stayed, and so did its retry state. *)
Example demo_retry_state : (fun k => retry_id <$> v_pools (w_active (after k)) !! "two") <$> [0; 2]%nat = [Some 3%nat; Some 3%nat].
Proof. vm_compute. reflexivity. Qed.

Lemma demo_running l : running lower upper demo_url same_value same_value identity_digest (resolved "k") l (demo_run l).
Proof.
  exists silent, first_view.1, first_view.2, 0. split; [|reflexivity]. vm_compute. reflexivity.
Qed.

Lemma last_valid_view_kept_witness :
  runtimeSettings (w_raw (after 2)) = runtimeSettings (resolved "k") /\ w_error (after 3) = "config_validation_failed".
Proof.
  split; [|vm_compute; reflexivity].
  exact (proj1 (proj2 (last_valid_view_kept lower upper demo_url same_value same_value same_value_eq same_value_eq identity_digest
    (resolved "k") (take 2 demo_ticks) (after 2) (demo_tick None None) (demo_running _)))).
Defined.

Lemma generation_identifies_connection_witness :
  v_generations (w_active (after 2)) !! "one" = Some 1 /\ "one" = "one".
Proof.
  split; [vm_compute; reflexivity|].
  refine (proj1 (generation_identifies_connection lower upper demo_url same_value same_value same_value_eq same_value_eq identity_digest
    (resolved "k") (take 1 demo_ticks) [demo_tick (Some (demo_text "new")) (Some (demo_text "new"))] (after 1) "one" "one" 1 (demo_running _) _ _));
    vm_compute; reflexivity.
Defined.

Definition client_two : option upstream_client := v_clients (w_active (after 2)) !! "two".
Lemma secrets_redacted_witness :
  cl_APIKey <$> client_two = Some "two-new" /\
  match client_two with Some cl => cfg_AccessToken (resolved "k") ∈ cl_RedactValues cl | None => True end.
Proof.
  split; [vm_compute; reflexivity|]. destruct client_two as [cl|] eqn:E; [|done].
  exact (proj1 (secrets_redacted lower upper demo_url same_value same_value same_value_eq same_value_eq identity_digest
    (resolved "k") (take 2 demo_ticks) (after 2) "two" cl (demo_running _) E)).
Defined.
