(* ===== verification/Frontend.v ===== *)
(** * The front end of a request

    [serveHTTP] of internal/gateway/gateway.go up to the call of a route: which
    protocol a request speaks, whether its caller is known, the status pages
    and the listing of models, and what is checked of a request before it is
    handed to its route.  The body, the random identifiers, the admission of
    the call and the clock are arguments. *)

From S2P Require Import Prelude GoStrings GoFloat Json Diagnostics Errors Routes View Catalog Routing.
From S2P Require Upstream InputRules RequestMessages PromptCache AutoChain Streams.

#[local] Existing Instance Upstream.CallOptions_eta.

(** ** The request *)

Record http_request := {
  Method : string;
  Path : string;
  Header : string -> string;            (** [Header.Get] *)
  HeaderValues : string -> list string; (** [Header.Values] *)
  incoming : string;                    (** the bytes of the body that arrive *)
  read_failed : bool;                   (** reading ends with an error after them *)
}.

Definition is_get (r : http_request) : bool := String.eqb (Method r) "GET".
Definition model_list_path (p : string) : bool := String.eqb p "/v1/models" || String.eqb p "/models".
Definition model_detail_path (p : string) : bool := Strings.HasPrefix p "/v1/models/" || Strings.HasPrefix p "/models/".

Definition protocolForRequest (r : http_request) : string :=
  let modelRoute := is_get r && (model_list_path (Path r) || model_detail_path (Path r)) in
  if String.eqb (Path r) "/v1/messages" ||
     (modelRoute && (negb (String.eqb (Header r "anthropic-version") "") || negb (String.eqb (Header r "x-api-key") "")))
  then "anthropic" else "openai".

(** The body under the limit: what [io.ReadAll] of a [MaxBytesReader] gives. *)
Inductive body_error := BodyTooLarge | BodyUnreadable.
Definition read_body (limit : Z) (r : http_request) : body_error + string :=
  if limit <? Strings.len (incoming r) then inl BodyTooLarge
  else if read_failed r then inl BodyUnreadable else inr (incoming r).

(** ** Answers *)

Inductive status_page := ContentOutputStatus | AvailabilityStatus | SessionStatus | ConfigStatus.

(** What is handed to the route of the request. *)
Record admitted_request := {
  adm_protocol : string;
  adm_model : string;
  adm_body : string;
  adm_stream : bool;
  adm_persistent : bool;
  adm_sessionKey : option sharedModelSessionKey;
  adm_options : Upstream.CallOptions;
  adm_capacityKey : option sharedModelSessionKey;
  adm_routes : list routeStep;
}.

Inductive answer :=
| Reject (status : Z) (code param : string)
| Page (p : status_page)
| Models (payload : value)
| Admit (a : admitted_request).

Definition StatusUnauthorized : Z := 401.
Definition StatusRequestEntityTooLarge : Z := 413.
Definition StatusInternalServerError : Z := 500.

Section front.
Context (ToUpper ToLower : string -> string) (hostname : string -> option string) (Sum256 : string -> string).
Context (IsPrint : Z -> bool) {Range : MapRange string json} (TypeErrorField : json -> string) (choose : Z -> Z).

Definition HasAnthropicServerTools : string -> bool := InputRules.HasAnthropicServerTools ToLower.
Definition PrepareRequestWithWarnings := RequestMessages.PrepareRequestWithWarnings IsPrint ToLower TypeErrorField.
Definition PrepareRequest (client provider body model : string) (limit : Z) : bool :=
  match (PrepareRequestWithWarnings client provider body model limit).2 with inr _ => true | inl _ => false end.

(** The view, with the catalogs and declared limits of its providers, the
    identifiers of their accounts, the limits of requests, and whether the
    gateway watches its configuration. *)
Context (h : handler) (catalogs : gmap string providerCatalog) (declared : gmap string ModelCapabilities).
Context (upstreamID : string -> string) (RequestBytes : Z) (watched : bool).

(** ** Authentication *)

(** [subtle.ConstantTimeCompare] of two digests. *)
Definition same_digest (a b : string) : bool := String.eqb (Sum256 a) (Sum256 b).
Definition authorized (r : http_request) : bool :=
  same_digest (Header r "Authorization") ("Bearer " +:+ AccessToken h) ||
  (String.eqb (protocolForRequest r) "anthropic" && same_digest (Header r "x-api-key") (AccessToken h)).

(** ** The models *)

Definition capabilitiesForModel (name model : string) : ModelCapabilities :=
  (effectiveModelCapabilities (provider h name) (default no_capabilities (declared !! name)) (default no_catalog (catalogs !! name)) model).1.

Definition model_object (protocol id name model : string) : value :=
  VMap (addToModel (capabilitiesForModel name model)
          (if String.eqb protocol "anthropic" then [("id", VStr id); ("type", VStr "model"); ("display_name", VStr id)]
           else [("id", VStr id); ("object", VStr "model"); ("created", VInt 0);
                 ("owned_by", VStr (if bool_decide (is_Some (providers h !! name)) then upstreamID name else ""))])).

(** The entry of a listed identifier; [parseQualifiedModelID] gives empty names
    for an identifier that it does not accept. *)
Definition listed_object (protocol id : string) : value :=
  let '(name, model) := default ("", "") (parseQualifiedModelID id) in model_object protocol id name model.
Definition list_payload (protocol : string) : value :=
  let models := allQualifiedModels h in
  let data := VArr (listed_object protocol <$> models) in
  if String.eqb protocol "anthropic" then
    VMap ([("data", data); ("has_more", VBool false)] ++
          match head models, last models with Some f, Some l => [("first_id", VStr f); ("last_id", VStr l)] | _, _ => [] end)
  else VMap [("object", VStr "list"); ("data", data)].

Definition detail_id (path : string) : string := Streams.TrimPrefix (Streams.TrimPrefix path "/v1") "/models/".

Definition detail_answer (protocol path : string) : answer :=
  let id := detail_id path in
  match parseQualifiedModelID id with
  | None => Reject StatusNotFound "model_not_found" ""
  | Some (name, model) =>
      if bool_decide (is_Some (providers h !! name)) && unavailable h name
      then Reject StatusServiceUnavailable "provider_unavailable" "model"
      else if negb (bool_decide (is_Some (providers h !! name))) || negb (containsModel (modelsForProvider h name).1 model)
      then Reject StatusNotFound "model_not_found" ""
      else Models (model_object protocol id name model)
  end.

(** The answers that need no body. *)
Definition page_answer (r : http_request) : option answer :=
  if negb (is_get r) then None
  else if String.eqb (Path r) "/tidemux/content-output-status" then Some (Page ContentOutputStatus)
  else if String.eqb (Path r) "/tidemux/availability-status" then Some (Page AvailabilityStatus)
  else if String.eqb (Path r) "/tidemux/session-status" then Some (Page SessionStatus)
  else if String.eqb (Path r) "/tidemux/config-status" && watched then Some (Page ConfigStatus)
  else if model_detail_path (Path r) then Some (detail_answer (protocolForRequest r) (Path r))
  else if model_list_path (Path r) then Some (Models (list_payload (protocolForRequest r)))
  else None.

(** ** A completion request *)

Definition endpoint_path (protocol : string) : string :=
  if String.eqb protocol "anthropic" then "/v1/messages" else "/v1/chat/completions".

Definition join_values (l : list string) : string := Strings.Join l ",".
Definition request_options (r : http_request) : Upstream.CallOptions :=
  {| Upstream.AnthropicBeta := join_values (HeaderValues r "anthropic-beta");
     Upstream.SessionID := Strings.TrimSpace (Header r Upstream.SessionIDHeader);
     Upstream.RequestScopedSession := false; Upstream.ResponseModel := ""; Upstream.OptionsStartedAt := Time.zero;
     Upstream.PriorQueueMS := 0; Upstream.OptionsDecision := None |}.

(** [err.Error()] of a validation error. *)
Definition error_text (e : InputRules.request_error) : string :=
  match e with
  | InputRules.ValidationError code _ => code
  | InputRules.RequestError code => code
  | InputRules.EncodeError => "invalid_request"
  end.

(** [routeErrorParameter]. *)
Definition candidate_parameter (model protocol body ref : string) : option string :=
  c ← clients h !! ref;
  let upstreamModel := UpstreamModel (provider h ref) model in
  match (PrepareRequestWithWarnings protocol (Protocol c) body upstreamModel (OutputTokenDefault c upstreamModel)).2 with
  | inl e => if String.eqb (InputRules.ValidationParameter e) "" then None else Some (InputRules.ValidationParameter e)
  | inr _ => None
  end.
Fixpoint first_some {A B} (f : A -> option B) (l : list A) : option B :=
  match l with [] => None | x :: l => match f x with Some b => Some b | None => first_some f l end end.
Definition routeErrorParameter (model protocol body : string) : string :=
  if String.eqb protocol "anthropic" && HasAnthropicServerTools body then "tools"
  else
    let candidates := bareModelCandidates h model false ++ (if String.eqb model "auto" then entry_provider <$> AutoChain h else []) in
    default "model" (first_some (candidate_parameter model protocol body) candidates).

Definition sessionCapacityEnabled (routes : list routeStep) : bool :=
  existsb (fun s => 0 <? MaxActiveSessions (provider h (route_provider s))) routes.

Definition stream_mode (body : string) : bool :=
  default false (Unmarshal (dec_struct [field_of "stream" dec_bool id (fun b _ => b)]) false body).

(** What happens around the request: whether its call is admitted, whether the
    shutdown has cancelled it when its body has been read, the random
    identifiers it draws, the end of its context, and the clock. *)
Record surroundings := {
  call_admitted : bool;
  shut_down : bool;
  random_id : nat -> option string;
  context_ended : bool;
  now : time;
}.

(** The checks of the first route. *)
Definition initial_answer (rt : runtime) (s : surroundings) (initial : routeStep) : runtime * option answer :=
  let name := route_provider initial in
  if negb (bool_decide (is_Some (providers h !! name))) then (rt, Some (Reject StatusNotFound "provider_not_found" "model"))
  else if unavailable h name then
    let rt := match route_autoChainIndex initial with
              | Some i => rt <| autoChain := AutoChain.recordFailure (autoChain rt) i
                                  (Some ((new_CallError 0 "") <| FailoverSafe := true |> <| UpstreamNotAttempted := true |>
                                           <| CallCategory := ProviderErrorTemporarilyUnavailable |>))
                                  (context_ended s) false false (now s) |>
              | None => rt
              end in
    (rt, Some (Reject StatusServiceUnavailable "provider_unavailable" "model"))
  else if negb (has_client h name) then (rt, Some (Reject StatusNotFound "provider_not_found" "model"))
  else if negb (supportScopeAllows h name (route_model initial)) then (rt, Some (Reject StatusNotFound "model_not_found" ""))
  else (rt, None).

Definition valid_options (protocol : string) (o : Upstream.CallOptions) : bool :=
  match Upstream.CallOptions_Validate o protocol with Some _ => false | None => true end.
Definition named_session (id : string) : bool := negb (String.eqb (Strings.TrimSpace id) "").

(** A random identifier when the request needs one: the session it is sent
    with, and the number of identifiers drawn. *)
Definition draw (s : surroundings) (wanted : bool) (o : Upstream.CallOptions) (drawn : nat)
    : option (Upstream.CallOptions * nat) :=
  if wanted then
    match random_id s drawn with
    | Some id => Some (o <| Upstream.SessionID := id |> <| Upstream.RequestScopedSession := true |>, S drawn)
    | None => None
    end
  else Some (o, drawn).

(** The end: the mode of the answer and the identity under which the request
    takes its sessions. *)
Definition admit_call (s : surroundings) (protocol model body : string) (persistent : bool) (key : option sharedModelSessionKey)
    (o : Upstream.CallOptions) (drawn : nat) (routes : list routeStep) : answer :=
  match draw s (sessionCapacityEnabled routes && String.eqb (Upstream.SessionID o) "") o drawn with
  | None => Reject StatusInternalServerError "request_id_failed" ""
  | Some (o, drawn) =>
      match (if String.eqb (Upstream.SessionID o) "" then random_id s drawn else Some (Upstream.SessionID o)) with
      | None => Reject StatusInternalServerError "request_id_failed" ""
      | Some capacityID =>
          Admit {| adm_protocol := protocol; adm_model := model; adm_body := body; adm_stream := stream_mode body;
                   adm_persistent := persistent; adm_sessionKey := key; adm_options := o;
                   adm_capacityKey := callerSessionKey Sum256 h "" protocol capacityID; adm_routes := routes |}
      end
  end.

(** The resolution of the checked request. *)
Definition route_request (rt : runtime) (s : surroundings) (protocol model body : string) (persistent : bool)
    (key : option sharedModelSessionKey) (o : Upstream.CallOptions) (drawn : nat) : runtime * answer :=
  let '(rt, r) := resolveRoutes ToUpper ToLower hostname Sum256 HasAnthropicServerTools PrepareRequest choose h (now s) rt model protocol body key in
  if negb (String.eqb (error_code r) "") then
    (rt, Reject (error_status r) (error_code r)
           (if String.eqb (error_code r) "unsupported_request_feature" then routeErrorParameter model protocol body else "model"))
  else match routes r with
  | [] => (rt, Reject StatusServiceUnavailable "provider_unavailable" "model")
  | initial :: _ =>
      match initial_answer rt s initial with
      | (rt, Some refused) => (rt, refused)
      | (rt, None) => (rt, admit_call s protocol model body persistent key o drawn (routes r))
      end
  end.

Definition caller_key (model protocol sessionID : string) : option sharedModelSessionKey :=
  if String.eqb model "auto" then callerSessionKey Sum256 h "auto" protocol sessionID
  else sharedSessionKey Sum256 h model protocol sessionID.

(** A request that was read. *)
Definition check_request (rt : runtime) (s : surroundings) (protocol data : string) (o : Upstream.CallOptions) : runtime * answer :=
  match (InputRules.RequestWithWarnings ToLower TypeErrorField protocol data "").2 with
  | inl e => (rt, Reject StatusBadRequest (error_text e) (InputRules.ValidationParameter e))
  | inr (body, model) =>
      let model := Strings.TrimSpace model in
      let o := if String.eqb (Upstream.SessionID o) "" then o <| Upstream.SessionID := PromptCache.SessionID ToLower protocol body |> else o in
      if negb (valid_options protocol o) then (rt, Reject StatusBadRequest "invalid_session_id" "")
      else
        let persistent := named_session (Upstream.SessionID o) in
        let key := caller_key model protocol (Upstream.SessionID o) in
        match draw s (String.eqb model "auto" && negb persistent) o 0 with
        | None => (rt, Reject StatusInternalServerError "request_id_failed" "")
        | Some (o, drawn) => route_request rt s protocol model body persistent key o drawn
        end
  end.

Definition completion_answer (rt : runtime) (s : surroundings) (r : http_request) : runtime * answer :=
  let protocol := protocolForRequest r in
  let o := request_options r in
  if negb (String.eqb (Path r) (endpoint_path protocol)) || negb (String.eqb (Method r) "POST")
  then (rt, Reject StatusNotFound "unsupported_endpoint" "")
  else if negb (call_admitted s) then (rt, Reject StatusServiceUnavailable "server_shutting_down" "")
  else match Upstream.CallOptions_Validate o protocol with
  | Some (code, param) => (rt, Reject StatusBadRequest code param)
  | None =>
      if shut_down s then (rt, Reject StatusServiceUnavailable "server_shutting_down" "")
      else match read_body RequestBytes r with
      | inl BodyTooLarge => (rt, Reject StatusRequestEntityTooLarge "request_too_large" "")
      | inl BodyUnreadable => (rt, Reject StatusBadRequest "request_read_error" "")
      | inr data => check_request rt s protocol data o
      end
  end.

(** [serveHTTP] up to the call of the route. *)
Definition front (rt : runtime) (s : surroundings) (r : http_request) : runtime * answer :=
  if negb (authorized r) then (rt, Reject StatusUnauthorized "invalid_api_key" "")
  else match page_answer r with
  | Some a => (rt, a)
  | None => completion_answer rt s r
  end.
End front.
