(* ===== verification/FrontFacts.v ===== *)
(** * The front end of a request: properties

    Who is let in, what an admitted request has been checked for and why any
    other is refused, and the agreement of the models that are listed with the
    ones that can be looked up and called. *)

From S2P Require Import Prelude GoStrings GoFloat Json Diagnostics Errors Routes View Catalog Routing RoutingFacts.
From S2P Require Import RoutingOrder RoutingResolve ConfigFacts Frontend.
From S2P Require Upstream InputRules RequestMessages PromptCache AutoChain Streams.

#[local] Existing Instance Upstream.CallOptions_eta.

Section front.
Context (ToUpper ToLower : string -> string) (hostname : string -> option string) (Sum256 : string -> string).
Context (IsPrint : Z -> bool) {Range : MapRange string json} (TypeErrorField : json -> string) (choose : Z -> Z).
Context (h : handler) (catalogs : gmap string providerCatalog) (declared : gmap string ModelCapabilities).
Context (upstreamID : string -> string) (RequestBytes : Z) (watched : bool).

#[local] Abbreviation tools := (HasAnthropicServerTools ToLower).
#[local] Abbreviation prepare := (PrepareRequest ToLower IsPrint TypeErrorField).
#[local] Abbreviation front := (front ToUpper ToLower hostname Sum256 IsPrint TypeErrorField choose h catalogs declared upstreamID
  RequestBytes watched).
#[local] Abbreviation authorized := (authorized Sum256 h).
#[local] Abbreviation resolve := (resolveRoutes ToUpper ToLower hostname Sum256 tools prepare choose h).
#[local] Abbreviation justified := (justified tools prepare h).
#[local] Abbreviation refused := (refused ToUpper ToLower hostname tools prepare choose h).

(** ** The caller *)

(** The caller shows the token of the gateway in a header of its protocol. *)
Definition shows_token (r : http_request) : Prop :=
  Header r "Authorization" = "Bearer " +:+ AccessToken h \/
  (protocolForRequest r = "anthropic" /\ Header r "x-api-key" = AccessToken h).

Lemma shows_token_authorized r : shows_token r -> authorized r = true.
Proof.
  unfold Frontend.authorized, same_digest. intros [-> | [-> ->]]; rewrite !String.eqb_refl; [done|]. exact (orb_true_r _).
Qed.

(** Two different texts with one digest. *)
Definition collision (x y : string) : Prop := x <> y /\ Sum256 x = Sum256 y.

Lemma authorized_shows_token r : authorized r = true -> shows_token r \/
  collision (Header r "Authorization") ("Bearer " +:+ AccessToken h) \/ collision (Header r "x-api-key") (AccessToken h).
Proof.
  unfold Frontend.authorized, same_digest, shows_token, collision.
  intros [H%String.eqb_eq|[Hp%String.eqb_eq H%String.eqb_eq]%andb_true_iff]%orb_true_iff.
  - destruct (String.eqb_spec (Header r "Authorization") ("Bearer " +:+ AccessToken h)); tauto.
  - destruct (String.eqb_spec (Header r "x-api-key") (AccessToken h)); tauto.
Qed.

(** ** The answers of the front end *)

(** The session that the request names, in its header or in its body. *)
Definition session_of (r : http_request) (protocol body : string) : string :=
  let id := Upstream.SessionID (request_options r) in
  if String.eqb id "" then PromptCache.SessionID ToLower protocol body else id.

Definition checked (r : http_request) (body model : string) : Prop :=
  exists warnings named, InputRules.RequestWithWarnings ToLower TypeErrorField (protocolForRequest r) (incoming r) "" = (warnings, inr (body, named)) /\
    model = Strings.TrimSpace named.

Definition usable (route : routeStep) : Prop :=
  is_Some (providers h !! route_provider route) /\ unavailable h (route_provider route) = false /\
  has_client h (route_provider route) = true /\ supportScopeAllows h (route_provider route) (route_model route) = true.

(** The session under which a request is sent: the one that it names, kept for
    the next ones, or a fresh identifier or none. *)
Definition sends_session (s : surroundings) (id : string) (persistent : bool) (o : Upstream.CallOptions) : Prop :=
  if persistent then Upstream.SessionID o = id /\ Upstream.RequestScopedSession o = false
  else if Upstream.RequestScopedSession o then exists n, random_id s n = Some (Upstream.SessionID o)
  else Strings.TrimSpace (Upstream.SessionID o) = "".

(** What is known of a request that is handed to its route. *)
Record admissible (rt : runtime) (s : surroundings) (r : http_request) (a : admitted_request) : Prop := {
  admissible_protocol : adm_protocol a = protocolForRequest r;
  admissible_endpoint : Method r = "POST" /\ Path r = endpoint_path (adm_protocol a);
  admissible_running : call_admitted s = true /\ shut_down s = false;
  admissible_body : read_failed r = false /\ Strings.len (incoming r) <= RequestBytes;
  admissible_checked : checked r (adm_body a) (adm_model a);
  admissible_route : exists route, adm_routes a = [route] /\ usable route /\
    justified (now s) rt (adm_model a) (adm_protocol a) (adm_body a) (adm_sessionKey a) route;
  admissible_options : valid_options (adm_protocol a) (request_options r) = true /\
    Upstream.AnthropicBeta (adm_options a) = Upstream.AnthropicBeta (request_options r);
  admissible_session : let id := session_of r (adm_protocol a) (adm_body a) in
    adm_persistent a = named_session id /\ sends_session s id (adm_persistent a) (adm_options a) /\
    (Strings.len id <= 256 /\ Upstream.header_breaking id = false) /\
    adm_sessionKey a = caller_key Sum256 h (adm_model a) (adm_protocol a) id;
}.

(** Why a request is refused: the status, the code, the parameter. *)
Inductive justly_refused (rt : runtime) (s : surroundings) (r : http_request) : Z -> string -> string -> Prop :=
| unknown_caller : authorized r = false -> justly_refused rt s r 401 "invalid_api_key" ""
| unlisted_model : Method r = "GET" -> model_detail_path (Path r) = true ->
    (forall name model, detail_id (Path r) = qualifiedModelID name model -> qualified_parts name model ->
       ~ (is_Some (providers h !! name) /\ model ∈ (modelsForProvider h name).1)) ->
    justly_refused rt s r 404 "model_not_found" ""
| provider_out name model : Method r = "GET" -> detail_id (Path r) = qualifiedModelID name model ->
    unavailable h name = true -> justly_refused rt s r 503 "provider_unavailable" "model"
| wrong_endpoint : Method r <> "POST" \/ (Path r <> "/v1/messages" /\ Path r <> "/v1/chat/completions") ->
    justly_refused rt s r 404 "unsupported_endpoint" ""
| shutting_down : call_admitted s = false \/ shut_down s = true -> justly_refused rt s r 503 "server_shutting_down" ""
| bad_options code param : Upstream.CallOptions_Validate (request_options r) (protocolForRequest r) = Some (code, param) ->
    justly_refused rt s r 400 code param
| too_large : RequestBytes < Strings.len (incoming r) -> justly_refused rt s r 413 "request_too_large" ""
| unreadable : read_failed r = true -> justly_refused rt s r 400 "request_read_error" ""
| invalid_request warnings e :
    InputRules.RequestWithWarnings ToLower TypeErrorField (protocolForRequest r) (incoming r) "" = (warnings, inl e) ->
    justly_refused rt s r 400 (error_text e) (InputRules.ValidationParameter e)
| bad_session body model : checked r body model ->
    256 < Strings.len (session_of r (protocolForRequest r) body) \/
    Upstream.header_breaking (session_of r (protocolForRequest r) body) = true -> justly_refused rt s r 400 "invalid_session_id" ""
| no_identifier n : random_id s n = None -> justly_refused rt s r 500 "request_id_failed" ""
| unroutable body model status code param : checked r body model ->
    refused (now s) rt model (protocolForRequest r) body (caller_key Sum256 h model (protocolForRequest r) (session_of r (protocolForRequest r) body)) code status ->
    (code <> "unsupported_request_feature" -> param = "model") -> justly_refused rt s r status code param
| route_unusable body model route code status param : checked r body model ->
    justified (now s) rt model (protocolForRequest r) body
      (caller_key Sum256 h model (protocolForRequest r) (session_of r (protocolForRequest r) body)) route ->
    (status, code, param) = (503, "provider_unavailable", "model") /\ unavailable h (route_provider route) = true \/
    (status, code, param) = (404, "provider_not_found", "model") /\ (providers h !! route_provider route = None \/ has_client h (route_provider route) = false) \/
    (status, code, param) = (404, "model_not_found", "") /\ supportScopeAllows h (route_provider route) (route_model route) = false ->
    justly_refused rt s r status code param.

Lemma endpoint_known r : Path r <> endpoint_path (protocolForRequest r) \/ Method r <> "POST" ->
  Method r <> "POST" \/ (Path r <> "/v1/messages" /\ Path r <> "/v1/chat/completions").
Proof.
  intros [H|H]; [|by left]. destruct (String.eqb_spec (Method r) "POST") as [Hm|]; [|by left]. right.
  unfold protocolForRequest, is_get in H. rewrite Hm in H. split; intros Hp; apply H; by rewrite Hp.
Qed.

Lemma draw_spec s wanted o n : match draw s wanted o n with
  | None => random_id s n = None
  | Some (o', m) => Upstream.AnthropicBeta o' = Upstream.AnthropicBeta o /\
      (if wanted then random_id s n = Some (Upstream.SessionID o') /\ Upstream.RequestScopedSession o' = true else o' = o)
  end.
Proof. unfold draw. destruct wanted; [|done]. by destruct (random_id s n). Qed.

Lemma valid_options_session o protocol : valid_options protocol o = true -> Strings.len (Upstream.SessionID o) <= 256 /\
  Upstream.header_breaking (Upstream.SessionID o) = false.
Proof.
  unfold valid_options, Upstream.CallOptions_Validate. destruct (_ || _) eqn:E; [done|]. intros _.
  apply orb_false_iff in E as [E%Z.ltb_ge E2]. done.
Qed.

Lemma invalid_session o o' protocol : valid_options protocol o = true -> valid_options protocol o' = false ->
  Upstream.AnthropicBeta o' = Upstream.AnthropicBeta o ->
  256 < Strings.len (Upstream.SessionID o') \/ Upstream.header_breaking (Upstream.SessionID o') = true.
Proof.
  unfold valid_options, Upstream.CallOptions_Validate. intros H H' E. rewrite E in H'.
  destruct (_ || Upstream.header_breaking (Upstream.SessionID o)); [done|].
  destruct (_ || Upstream.header_breaking (Upstream.SessionID o')) eqn:E'.
  - apply orb_true_iff in E' as [?%Z.ltb_lt|?]; tauto.
  - repeat (destruct (String.eqb _ _) || destruct (_ || _) || destruct (forallb _ _)); done.
Qed.

(** A route that is not used at the end, and why. *)
Lemma initial_answer_spec rt s route : match (initial_answer h rt s route).2 with
  | None => usable route
  | Some (Reject status code param) =>
      (status, code, param) = (503, "provider_unavailable", "model") /\ unavailable h (route_provider route) = true \/
      (status, code, param) = (404, "provider_not_found", "model") /\ (providers h !! route_provider route = None \/ has_client h (route_provider route) = false) \/
      (status, code, param) = (404, "model_not_found", "") /\ supportScopeAllows h (route_provider route) (route_model route) = false
  | Some _ => False
  end.
Proof.
  unfold initial_answer, usable. case_bool_decide as Hp; cbn [negb].
  2: { cbn. right. left. split; [done|]. left. by apply eq_None_not_Some. }
  destruct (unavailable h _) eqn:Hu; [destruct (route_autoChainIndex _); cbn; by left|].
  destruct (has_client h _) eqn:Hc; cbn [negb]; [|cbn; right; left; auto].
  destruct (supportScopeAllows h _ _) eqn:Hs; cbn [negb]; [done|]. cbn. by right; right.
Qed.

Lemma admit_spec s protocol model body persistent key o n routes :
  match admit_call Sum256 h s protocol model body persistent key o n routes with
  | Reject status code param => (status, code, param) = (500, "request_id_failed", "") /\ exists n, random_id s n = None
  | Admit a => (adm_protocol a = protocol /\ adm_model a = model /\ adm_body a = body) /\
      (adm_persistent a = persistent /\ adm_sessionKey a = key /\ adm_routes a = routes) /\
      Upstream.AnthropicBeta (adm_options a) = Upstream.AnthropicBeta o /\
      (adm_options a = o \/ Upstream.SessionID o = "" /\ Upstream.RequestScopedSession (adm_options a) = true /\
         exists n, random_id s n = Some (Upstream.SessionID (adm_options a)))
  | _ => False
  end.
Proof.
  unfold admit_call. set (w := _ && _). pose proof (draw_spec s w o n) as Hd. destruct (draw s w o n) as [[o' m]|]; [|eauto].
  destruct Hd as [Hb Hd].
  assert (Ho : o' = o \/ Upstream.SessionID o = "" /\ Upstream.RequestScopedSession o' = true /\
    exists n, random_id s n = Some (Upstream.SessionID o')).
  { destruct w eqn:Ew; [|by left]. apply andb_true_iff in Ew as [_ Ew%String.eqb_eq]. destruct Hd. eauto 6. }
  destruct (String.eqb_spec (Upstream.SessionID o') "") as [|]; [destruct (random_id s m) eqn:Er; [|eauto]|]; done.
Qed.

Lemma route_request_spec rt s protocol model body persistent key o n :
  match (route_request ToUpper ToLower hostname Sum256 IsPrint TypeErrorField choose h rt s protocol model body persistent key o n).2 with
  | Reject status code param =>
      (status, code, param) = (500, "request_id_failed", "") /\ (exists n, random_id s n = None) \/
      refused (now s) rt model protocol body key code status /\ (code <> "unsupported_request_feature" -> param = "model") \/
      (exists route, justified (now s) rt model protocol body key route /\
        ((status, code, param) = (503, "provider_unavailable", "model") /\ unavailable h (route_provider route) = true \/
         (status, code, param) = (404, "provider_not_found", "model") /\ (providers h !! route_provider route = None \/ has_client h (route_provider route) = false) \/
         (status, code, param) = (404, "model_not_found", "") /\ supportScopeAllows h (route_provider route) (route_model route) = false))
  | Admit a => exists route, usable route /\ justified (now s) rt model protocol body key route /\
      Admit a = admit_call Sum256 h s protocol model body persistent key o n [route]
  | _ => False
  end.
Proof.
  unfold route_request.
  pose proof (resolution_outcome ToUpper ToLower hostname Sum256 tools prepare choose h (now s) rt model protocol body key) as Hr.
  change (Frontend.HasAnthropicServerTools ToLower) with tools.
  destruct (resolveRoutes _ _ _ _ _ _ _ _ _ _ _ _ _ _) as [rt' res]. cbv zeta in Hr. cbn [snd] in Hr.
  destruct Hr as [(route & -> & Hj)|(code & status & -> & Hx)].
  - cbn. pose proof (initial_answer_spec rt' s route) as Hi. destruct (initial_answer h rt' s route) as [rt2 [ans|]]; cbn [snd] in Hi |- *.
    + destruct ans; try done. right. right. eauto.
    + pose proof (admit_spec s protocol model body persistent key o n [route]) as Ha.
      destruct (admit_call _ _ _ _ _ _ _ _ _ _ _) eqn:Ea; try done; [by left|]. exists route. rewrite <-Ea. done.
  - cbn. assert (Hc : code <> "") by (destruct Hx; try done; by destruct qualified). apply String.eqb_neq in Hc. rewrite Hc. cbn. right. left.
    split; [done|]. intros Hn%String.eqb_neq. by rewrite Hn.
Qed.

(** The options of a request with the session that its body may name. *)
Lemma named_options r body : let protocol := protocolForRequest r in let o := request_options r in
  let o' := if String.eqb (Upstream.SessionID o) "" then o <| Upstream.SessionID := PromptCache.SessionID ToLower protocol body |> else o in
  Upstream.SessionID o' = session_of r protocol body /\ Upstream.AnthropicBeta o' = Upstream.AnthropicBeta o /\
  Upstream.RequestScopedSession o' = false.
Proof. cbv zeta. unfold session_of. by destruct (String.eqb (Upstream.SessionID (request_options r)) ""). Qed.

(** The request as far as it was checked when it was read. *)
Definition read_fine (s : surroundings) (r : http_request) : Prop :=
  authorized r = true /\ Method r = "POST" /\ Path r = endpoint_path (protocolForRequest r) /\ call_admitted s = true /\
  shut_down s = false /\ read_failed r = false /\ Strings.len (incoming r) <= RequestBytes /\
  valid_options (protocolForRequest r) (request_options r) = true.

Definition answered_well (rt : runtime) (s : surroundings) (r : http_request) (a : answer) : Prop :=
  match a with
  | Reject status code param => justly_refused rt s r status code param
  | Admit a => admissible rt s r a
  | Page _ | Models _ => authorized r = true /\ Method r = "GET"
  end.

Lemma routed_answered rt s r body model o n : read_fine s r -> checked r body model ->
  let protocol := protocolForRequest r in let id := session_of r protocol body in
  Strings.len id <= 256 -> Upstream.header_breaking id = false -> sends_session s id (named_session id) o ->
  Upstream.AnthropicBeta o = Upstream.AnthropicBeta (request_options r) ->
  answered_well rt s r (route_request ToUpper ToLower hostname Sum256 IsPrint TypeErrorField choose h rt s protocol model body
    (named_session id) (caller_key Sum256 h model protocol id) o n).2.
Proof.
  intros (_ & Hm & Hp & Hc & Hs & Hf & Hl & Hv) Hk. cbv zeta. intros Ho1 Ho2 Hsend Hb.
  pose proof (route_request_spec rt s (protocolForRequest r) model body (named_session (session_of r (protocolForRequest r) body))
    (caller_key Sum256 h model (protocolForRequest r) (session_of r (protocolForRequest r) body)) o n) as Hx.
  match goal with |- answered_well _ _ _ ?x => generalize dependent x end.
  intros [status code param| | |a] Hx; [|by destruct Hx..|].
  - destruct Hx as [[[= -> -> ->] [k Hk']]|[[Hx Hparam]|(route & Hj & Hx)]]; [by eapply no_identifier|by eapply unroutable|].
    by eapply route_unusable.
  - destruct Hx as (route & Hu & Hj & Ha). pose proof (admit_spec s (protocolForRequest r) model body (named_session (session_of r (protocolForRequest r) body))
      (caller_key Sum256 h model (protocolForRequest r) (session_of r (protocolForRequest r) body)) o n [route]) as Had.
    rewrite <-Ha in Had. destruct Had as ((E1 & E2 & E3) & (E4 & E5 & E6) & E7 & E8).
    split; rewrite ?E1, ?E2, ?E3, ?E4, ?E5, ?E6.
    + reflexivity.
    + by split.
    + by split.
    + by split.
    + exact Hk.
    + exists route. split; [reflexivity|]. split; [exact Hu|exact Hj].
    + split; [exact Hv|congruence].
    + cbv zeta. split; [reflexivity|]. split; [|split; [by split|reflexivity]].
      destruct E8 as [->|(E & E9 & E10)]; [exact Hsend|]. revert Hsend. unfold sends_session.
      destruct (named_session _) eqn:Ep; [|by rewrite E9].
      intros [Hi _]. rewrite Hi in E. by rewrite E in Ep.
Qed.

Lemma check_request_answered rt s r : read_fine s r ->
  answered_well rt s r (check_request ToUpper ToLower hostname Sum256 IsPrint TypeErrorField choose h rt s (protocolForRequest r)
    (incoming r) (request_options r)).2.
Proof.
  intros Hfine. pose proof Hfine as (_ & _ & _ & _ & _ & _ & _ & Hv). unfold check_request.
  destruct (InputRules.RequestWithWarnings _ _ _ _ _) as [warnings [e|[body named]]] eqn:Hq; cbn [snd].
  { by eapply invalid_request. }
  pose proof (named_options r body) as Ho. cbv zeta in Ho. destruct Ho as (Hid & Hb & Hr).
  set (protocol := protocolForRequest r) in *. set (o := if String.eqb _ _ then _ else _) in *. set (model := Strings.TrimSpace named).
  assert (Hk : checked r body model) by (by exists warnings, named).
  destruct (valid_options protocol o) eqn:Ho; cbn [negb].
  2: { cbn. eapply bad_session; [done|]. fold protocol. rewrite <-Hid. by eapply invalid_session. }
  apply valid_options_session in Ho as [Ho1 Ho2]. rewrite Hid in *. set (id := session_of r protocol body) in *.
  set (persistent := named_session id). set (w := String.eqb model "auto" && negb persistent).
  pose proof (draw_spec s w o 0) as Hd. destruct (draw s w o 0) as [[o' n]|]; [|cbn; by eapply no_identifier].
  destruct Hd as [Hb' Hd].
  assert (Hsend : sends_session s id persistent o').
  { unfold sends_session. subst w. destruct persistent eqn:Ep.
    - rewrite andb_false_r in Hd. by subst o'.
    - destruct (String.eqb model "auto"); cbn in Hd; [destruct Hd as [? ->]; eauto|]. subst o'. rewrite Hr, Hid.
      unfold persistent, named_session in Ep. by apply negb_false_iff, String.eqb_eq in Ep. }
  apply routed_answered; [exact Hfine|exact Hk|exact Ho1|exact Ho2|exact Hsend|congruence].
Qed.

Lemma detail_spec protocol path : match detail_answer h catalogs declared upstreamID protocol path with
  | Reject status code param =>
      (status, code, param) = (404, "model_not_found", "") /\
        (forall name model, detail_id path = qualifiedModelID name model -> qualified_parts name model ->
          ~ (is_Some (providers h !! name) /\ model ∈ (modelsForProvider h name).1)) \/
      (status, code, param) = (503, "provider_unavailable", "model") /\
        exists name model, detail_id path = qualifiedModelID name model /\ unavailable h name = true
  | Models payload => exists name model, detail_id path = qualifiedModelID name model /\ qualified_parts name model /\
      is_Some (providers h !! name) /\ unavailable h name = false /\ model ∈ (modelsForProvider h name).1 /\
      payload = model_object h catalogs declared upstreamID protocol (detail_id path) name model
  | _ => False
  end.
Proof.
  unfold detail_answer. destruct (parseQualifiedModelID (detail_id path)) as [[name model]|] eqn:Hq.
  2: { left. split; [done|]. intros name model Hn Hp. by rewrite (proj2 (qualified_id_roundtrip _ name model) (conj Hn Hp)) in Hq. }
  pose proof (proj1 (qualified_id_roundtrip _ _ _) Hq) as [Hi Hparts].
  case_bool_decide as Hp; cbn [andb negb orb].
  - destruct (unavailable h name) eqn:Hu; [right; split; [done|]; by exists name, model|].
    destruct (containsModel (modelsForProvider h name).1 model) eqn:Hc; cbn [negb].
    + exists name, model. split_and!; try done. by apply containsModel_spec.
    + left. split; [done|]. intros n m Hn Hp' [_ Hin]. rewrite (proj2 (qualified_id_roundtrip _ n m) (conj Hn Hp')) in Hq.
      injection Hq as -> ->. apply containsModel_spec in Hin. congruence.
  - left. split; [done|]. intros n m Hn Hp' [Hs _]. rewrite (proj2 (qualified_id_roundtrip _ n m) (conj Hn Hp')) in Hq.
    injection Hq as -> ->. done.
Qed.

Lemma page_spec r : match page_answer h catalogs declared upstreamID watched r with
  | Some (Models payload) => Method r = "GET" /\
      (detail_answer h catalogs declared upstreamID (protocolForRequest r) (Path r) = Models payload \/
       model_list_path (Path r) = true /\ payload = list_payload h catalogs declared upstreamID (protocolForRequest r))
  | Some (Page _) => Method r = "GET"
  | Some a => Method r = "GET" /\ model_detail_path (Path r) = true /\
      a = detail_answer h catalogs declared upstreamID (protocolForRequest r) (Path r)
  | None => True
  end.
Proof.
  unfold page_answer, is_get. destruct (String.eqb_spec (Method r) "GET") as [Hm|]; [|done]. cbn [negb].
  repeat (destruct (String.eqb (Path r) _); [done|]). destruct (_ && watched); [done|].
  destruct (model_detail_path (Path r)); [|destruct (model_list_path (Path r)) eqn:El; [|done]; auto].
  by destruct (detail_answer _ _ _ _ _ _) eqn:Ed; auto.
Qed.

Lemma completion_answered rt s r : authorized r = true -> answered_well rt s r
  (completion_answer ToUpper ToLower hostname Sum256 IsPrint TypeErrorField choose h RequestBytes rt s r).2.
Proof.
  intros Ha. unfold completion_answer. destruct (_ || _) eqn:E.
  { apply wrong_endpoint, endpoint_known. rewrite orb_true_iff, !negb_true_iff, !String.eqb_neq in E. tauto. }
  rewrite orb_false_iff, !negb_false_iff, !String.eqb_eq in E. destruct E as [Hp Hm].
  destruct (call_admitted s) eqn:Hc; cbn [negb]; [|apply shutting_down; auto].
  destruct (Upstream.CallOptions_Validate _ _) as [[code param]|] eqn:Hv; [by apply bad_options|].
  destruct (shut_down s) eqn:Hs; [apply shutting_down; auto|]. unfold read_body.
  destruct (Z.ltb_spec RequestBytes (Strings.len (incoming r))) as [Hl|Hl]; [by apply too_large|].
  destruct (read_failed r) eqn:Hf; [by apply unreadable|]. apply check_request_answered.
  split_and!; try assumption. unfold valid_options. by rewrite Hv.
Qed.

Lemma front_answered rt s r : answered_well rt s r (front rt s r).2.
Proof.
  unfold Frontend.front. destruct (authorized r) eqn:Ha; cbn [negb]; [|by apply unknown_caller].
  pose proof (page_spec r) as Hp. destruct (page_answer _ _ _ _ _ r) as [a|]; [|by apply completion_answered].
  destruct a as [status code param|p|payload|a]; cbn [snd answered_well]; [|by split|by destruct Hp|].
  - destruct Hp as (Hm & Hd & Hx). pose proof (detail_spec (protocolForRequest r) (Path r)) as Hs. rewrite <-Hx in Hs.
    destruct Hs as [[[= -> -> ->] Hn]|[[= -> -> ->] (name & model & Hn & Hu)]]; [by apply unlisted_model|by eapply provider_out].
  - destruct Hp as (_ & _ & Hx). pose proof (detail_spec (protocolForRequest r) (Path r)) as Hs. by rewrite <-Hx in Hs.
Qed.

(** ** Paths *)

Lemma substring_long s k : (String.length s <= k)%nat -> String.substring 0 k s = s.
Proof.
  revert k. induction s as [|a s IH]; intros [|k]; cbn; try done; [lia|]. intros H. rewrite IH; [done|lia].
Qed.

Lemma HasPrefix_app p s : Strings.HasPrefix (p +:+ s) p = true.
Proof. unfold Strings.HasPrefix. induction p as [|a p IH]; [by destruct s|]. change (String a p +:+ s) with (String a (p +:+ s)). cbn. by case_match. Qed.

Lemma TrimPrefix_app p s : Streams.TrimPrefix (p +:+ s) p = s.
Proof.
  unfold Streams.TrimPrefix. rewrite HasPrefix_app. rewrite <-(Nat.add_0_r (String.length p)), substring_right. apply substring_long.
  rewrite length_append. lia.
Qed.

Lemma detail_id_path prefix id : prefix = "/v1/models/" \/ prefix = "/models/" -> detail_id (prefix +:+ id) = id.
Proof.
  unfold detail_id. intros [-> | ->].
  - change ("/v1/models/" +:+ id) with ("/v1" +:+ ("/models/" +:+ id)). by rewrite !TrimPrefix_app.
  - change (Streams.TrimPrefix (_ +:+ id) "/v1") with ("/models/" +:+ id). apply TrimPrefix_app.
Qed.

(** ** Listed models *)

Lemma elem_of_allQualifiedModels id : id ∈ allQualifiedModels h <-> exists name model, is_Some (providers h !! name) /\
  unavailable h name = false /\ model ∈ (modelsForProvider h name).1 /\ id = qualifiedModelID name model.
Proof.
  unfold allQualifiedModels. rewrite Sort.elem_of_Strings, list_elem_of_join. split.
  - intros (l & Hid & (name & -> & [Hn%elem_of_names Hu%negb_true_iff]%elem_of_List_filter)%list_elem_of_fmap).
    apply list_elem_of_fmap in Hid as (model & -> & Hm). by exists name, model.
  - intros (name & model & Hp & Hu & Hm & ->). exists (qualifiedModelID name <$> (modelsForProvider h name).1). split.
    + apply list_elem_of_fmap. by exists model.
    + apply list_elem_of_fmap. exists name. split; [done|]. apply elem_of_List_filter. by rewrite elem_of_names, Hu.
Qed.

(** The listed identifiers can be read back. *)
Definition readable_models : Prop := forall name model, is_Some (providers h !! name) -> model ∈ (modelsForProvider h name).1 ->
  qualified_parts name model.

Lemma listed_parts id : readable_models -> id ∈ allQualifiedModels h -> exists name model,
  parseQualifiedModelID id = Some (name, model) /\ is_Some (providers h !! name) /\ unavailable h name = false /\
  model ∈ (modelsForProvider h name).1.
Proof.
  intros Hr (name & model & Hp & Hu & Hm & ->)%elem_of_allQualifiedModels. exists name, model. split_and!; try done.
  apply qualified_id_roundtrip. split; [done|]. by apply Hr.
Qed.

Lemma detail_listed protocol prefix id : readable_models -> prefix = "/v1/models/" \/ prefix = "/models/" ->
  (id ∈ allQualifiedModels h <-> exists payload, detail_answer h catalogs declared upstreamID protocol (prefix +:+ id) = Models payload) /\
  (id ∈ allQualifiedModels h ->
     detail_answer h catalogs declared upstreamID protocol (prefix +:+ id) = Models (listed_object h catalogs declared upstreamID protocol id)).
Proof.
  intros Hr Hp. assert (Hin : id ∈ allQualifiedModels h ->
    detail_answer h catalogs declared upstreamID protocol (prefix +:+ id) = Models (listed_object h catalogs declared upstreamID protocol id)).
  { intros (name & model & Hq & Hs & Hu & Hm)%listed_parts; [|done]. unfold detail_answer, listed_object.
    rewrite (detail_id_path prefix id Hp), Hq. cbn [default]. rewrite bool_decide_eq_true_2, Hu by done. cbn [andb negb orb].
    apply containsModel_spec in Hm. by rewrite Hm. }
  split; [|done]. split; [eauto|]. intros [payload Hd]. pose proof (detail_spec protocol (prefix +:+ id)) as H. rewrite Hd in H.
  destruct H as (name & model & Hi & _ & Hs & Hu & Hm & _). rewrite (detail_id_path prefix id Hp) in Hi.
  apply elem_of_allQualifiedModels. by exists name, model.
Qed.

Lemma page_detail r prefix id : Method r = "GET" -> prefix = "/v1/models/" \/ prefix = "/models/" -> Path r = prefix +:+ id ->
  page_answer h catalogs declared upstreamID watched r = Some (detail_answer h catalogs declared upstreamID (protocolForRequest r) (prefix +:+ id)).
Proof.
  intros Hm Hp E. unfold page_answer, is_get, model_detail_path. rewrite Hm, E. cbn [String.eqb Ascii.eqb Bool.eqb negb].
  destruct Hp as [-> | ->]; (rewrite (HasPrefix_app "/v1/models/") || rewrite (HasPrefix_app "/models/"), orb_true_r); reflexivity.
Qed.

Lemma page_list r : Method r = "GET" -> Path r = "/v1/models" \/ Path r = "/models" ->
  page_answer h catalogs declared upstreamID watched r = Some (Models (list_payload h catalogs declared upstreamID (protocolForRequest r))).
Proof. intros Hm Hp. unfold page_answer, is_get. rewrite Hm. by destruct Hp as [-> | ->]. Qed.

Lemma front_page rt s r a : authorized r = true -> page_answer h catalogs declared upstreamID watched r = Some a -> front rt s r = (rt, a).
Proof. intros Ha Hp. unfold Frontend.front. by rewrite Ha, Hp. Qed.

Lemma listed_scope name model : is_Some (providers h !! name) -> model ∈ (modelsForProvider h name).1 -> supportScopeAllows h name model = true.
Proof.
  unfold modelsForProvider, supportScopeAllows. intros [p ->]. case_bool_decide as Hs; [done|]. cbn. by intros ->%containsModel_spec.
Qed.

Lemma resolve_named rt t id name model protocol body key : parseQualifiedModelID id = Some (name, model) -> is_Some (providers h !! name) ->
  model <> "auto" -> String.eqb protocol "anthropic" && tools body && negb (supportsNativeAnthropicTools h name) = false ->
  resolve t rt id protocol body key = (rt, route_to (new_routeStep name model)).
Proof.
  intros Hq Hs Hm Ht. unfold resolveRoutes. rewrite Hq, bool_decide_eq_true_2 by done. apply String.eqb_neq in Hm. rewrite Hm.
  by rewrite Ht.
Qed.

(** ** The properties *)

Lemma refused_unauthorized rt s r code param : justly_refused rt s r 401 code param -> authorized r = false.
Proof.
  intros H. inversion H as [ | | | | | | | | | | | ? ? ? ? ? _ Hx | ? ? ? ? ? ? _ _ Hx ]; [done| |].
  - by inversion Hx.
  - destruct Hx as [[[=] _]|[[[=] _]|[[=] _]]].
Qed.

(** C30. The gateway answers those who show its token, and nobody else.  A caller
    that shows it in a header of its protocol is never told that its key is
    invalid; any other request is refused for that reason, whatever it asks
    for, and changes nothing, unless it shows a text with the same SHA-256
    digest as the expected one. *)
Theorem only_token_holders rt s r :
  (shows_token r -> forall status code param, (front rt s r).2 = Reject status code param -> status <> 401) /\
  (~ shows_token r -> front rt s r = (rt, Reject 401 "invalid_api_key" "") \/
     collision (Header r "Authorization") ("Bearer " +:+ AccessToken h) \/ collision (Header r "x-api-key") (AccessToken h)).
Proof.
  split.
  - intros Ht%shows_token_authorized status code param Hf. pose proof (front_answered rt s r) as Ha. rewrite Hf in Ha. cbn in Ha.
    intros ->. by rewrite (refused_unauthorized _ _ _ _ _ Ha) in Ht.
  - intros Hn. destruct (authorized r) eqn:Ha.
    + destruct (authorized_shows_token r Ha) as [?|?]; [done|by right].
    + left. unfold Frontend.front. by rewrite Ha.
Qed.

(** C29. Every request is answered for a reason.  What is handed to a route came
    from a known caller to the endpoint of its protocol while the gateway was
    running, with acceptable options, within the limit of the body, accepted
    by the validation, and goes to one justified route that is configured and
    usable; it is sent under the session that it names, or under none, or
    under a fresh one.  A refusal has the status, the code and the parameter
    of something that is wrong with the request or that prevents its route. *)
Theorem requests_answered rt s r :
  match (front rt s r).2 with
  | Reject status code param => justly_refused rt s r status code param
  | Admit a => authorized r = true /\ admissible rt s r a
  | Page _ | Models _ => authorized r = true /\ Method r = "GET"
  end.
Proof.
  pose proof (front_answered rt s r) as H. unfold Frontend.front in *. destruct (authorized r); cbn [negb] in *; [|exact H].
  destruct (page_answer _ _ _ _ _ _) as [a|]; revert H.
  - destruct a; cbn [snd answered_well]; intros H; (exact H || (split; [done|]; (exact H || apply H))).
  - match goal with |- answered_well _ _ _ ?x -> _ => generalize x end. intros []; cbn [answered_well]; intros H; (exact H || (split; [done|]; (exact H || apply H))).
Qed.

(** C32. What is listed can be looked up and called.  When the identifiers of the
    models can be read back, which those with control bytes cannot
    ([line_break_listed]), a known caller is shown, in the list and under both
    paths of an identifier, the same description of exactly the listed models;
    and a listed model other than [auto] is resolved to the route of its
    provider, which is configured, in service and in scope, unless a client of
    the Messages API asks for tools that the provider runs. *)
Theorem discovery_agrees rt s r : readable_models -> authorized r = true -> Method r = "GET" ->
  (Path r = "/v1/models" \/ Path r = "/models" ->
     front rt s r = (rt, Models (list_payload h catalogs declared upstreamID (protocolForRequest r)))) /\
  (forall prefix id, prefix = "/v1/models/" \/ prefix = "/models/" -> Path r = prefix +:+ id ->
     (id ∈ allQualifiedModels h <-> exists payload, front rt s r = (rt, Models payload)) /\
     (id ∈ allQualifiedModels h -> front rt s r = (rt, Models (listed_object h catalogs declared upstreamID (protocolForRequest r) id)))) /\
  (forall id protocol body key t, id ∈ allQualifiedModels h -> exists name model, id = qualifiedModelID name model /\
     is_Some (providers h !! name) /\ unavailable h name = false /\ supportScopeAllows h name model = true /\
     (model <> "auto" -> protocol <> "anthropic" \/ tools body = false ->
      resolve t rt id protocol body key = (rt, route_to (new_routeStep name model)))).
Proof.
  intros Hr Ha Hm. split_and!.
  - intros Hp. apply front_page; [done|]. by apply page_list.
  - intros prefix id Hpre Hp. pose proof (page_detail r prefix id Hm Hpre Hp) as Hpage. rewrite (front_page rt s r _ Ha Hpage).
    destruct (detail_listed (protocolForRequest r) prefix id Hr Hpre) as [H1 H2]. split; [|by intros Hin; rewrite (H2 Hin)].
    rewrite H1. split; [intros [p ->]; by exists p|]. intros [p [= Hp']]. by exists p.
  - intros id protocol body key t (name & model & Hq & Hs & Hu & Hin)%listed_parts; [|done].
    exists name, model. split_and!; try done; [by apply qualified_id_roundtrip in Hq as [? _]|by apply listed_scope|].
    intros Hauto Htools. apply resolve_named; try done. destruct Htools as [Hx%String.eqb_neq| ->]; [by rewrite Hx|]. by rewrite andb_false_r.
Qed.
End front.
