(* ===== verification/RetryGuidance.v ===== *)
(** * Retry guidance: [internal/gateway/retry_guidance.go]

    The advice that a refused or failed request carries: when a new request can
    succeed, on which providers, and the retry headers of the response.  The
    advice is computed against the active view, which the caller passes as [h];
    the request of the context is an optional argument.  [Payload.v] has the
    JSON payload. *)

From S2P Require Import Prelude GoStrings GoFloat Diagnostics Errors Availability KeyPool Pricing Routes.
From S2P Require AutoChain Affinity.
From S2P Require Import View Routing.
From stdpp Require pretty.

(** ** Data *)

Record recoveryRequest := {
  request_model : string;
  request_protocol : string;
  request_body : string;
}.

Record retryAdvice := {
  Strategy : string;
  AfterSeconds : option Z;
  EligibleAfterSeconds : option Z;
  AdviceProviderRetryAt : time;
  InitialDelaySeconds : Z;
  MaxDelaySeconds : Z;
  MaxAttempts : Z;
  NewRequestRequired : bool;
  ReselectProvider : bool;
  Alternatives : list string;
  AlternativesRequireModelChange : bool;
  AlternativesScope : string;
  WaitSource : string;
  AlternativeCount : nat;
  hasCooldown : bool;
  terminalProviderBlocked : bool;
  advice_terminalCategory : string;
}.

#[export] Instance retryAdvice_eta : Eta retryAdvice := fun a =>
  {| Strategy := Strategy a; AfterSeconds := AfterSeconds a; EligibleAfterSeconds := EligibleAfterSeconds a;
     AdviceProviderRetryAt := AdviceProviderRetryAt a; InitialDelaySeconds := InitialDelaySeconds a;
     MaxDelaySeconds := MaxDelaySeconds a; MaxAttempts := MaxAttempts a; NewRequestRequired := NewRequestRequired a;
     ReselectProvider := ReselectProvider a; Alternatives := Alternatives a;
     AlternativesRequireModelChange := AlternativesRequireModelChange a; AlternativesScope := AlternativesScope a;
     WaitSource := WaitSource a; AlternativeCount := AlternativeCount a; hasCooldown := hasCooldown a;
     terminalProviderBlocked := terminalProviderBlocked a; advice_terminalCategory := advice_terminalCategory a |}.

Definition default_advice : retryAdvice :=
  {| Strategy := "exponential_backoff_with_jitter"; AfterSeconds := None; EligibleAfterSeconds := None;
     AdviceProviderRetryAt := Time.zero; InitialDelaySeconds := 1; MaxDelaySeconds := 30; MaxAttempts := 3;
     NewRequestRequired := true; ReselectProvider := false; Alternatives := []; AlternativesRequireModelChange := false;
     AlternativesScope := "model_protocol_health"; WaitSource := "unknown"; AlternativeCount := 0; hasCooldown := false;
     terminalProviderBlocked := false; advice_terminalCategory := "" |}.

Definition manualAuditAdvice : retryAdvice :=
  {| Strategy := "manual_check"; AfterSeconds := None; EligibleAfterSeconds := None;
     AdviceProviderRetryAt := Time.zero; InitialDelaySeconds := 0; MaxDelaySeconds := 0; MaxAttempts := 0;
     NewRequestRequired := true; ReselectProvider := false; Alternatives := []; AlternativesRequireModelChange := false;
     AlternativesScope := "none"; WaitSource := "audit_persistence"; AlternativeCount := 0; hasCooldown := false;
     terminalProviderBlocked := false; advice_terminalCategory := "" |}.

(** ** Waits in seconds *)

Definition retryDelaySeconds (delay : duration) : Z :=
  if delay <=? 0 then 0
  else
    let seconds := delay / Second in
    if negb (delay mod Second =? 0) then seconds + 1 else seconds.

(** ** The advice *)

(** What the loop over the routes of the request accumulates. *)
Record route_summary := {
  sum_earliest : time;
  sum_unknown : bool;
  sum_ready : bool;
  sum_terminalOnly : bool;
  sum_terminalCategory : string;
  sum_mixedTerminal : bool;
  sum_hasCooldown : bool;
  sum_alternatives : list string;
}.

#[export] Instance route_summary_eta : Eta route_summary := fun a =>
  {| sum_earliest := sum_earliest a; sum_unknown := sum_unknown a; sum_ready := sum_ready a;
     sum_terminalOnly := sum_terminalOnly a; sum_terminalCategory := sum_terminalCategory a;
     sum_mixedTerminal := sum_mixedTerminal a; sum_hasCooldown := sum_hasCooldown a;
     sum_alternatives := sum_alternatives a |}.

Definition route_name (r : routeStep) : string := route_provider r +:+ "/" +:+ route_model r.

(** The terminal category seen so far, and whether two differ. *)
Definition summarize_terminal (w : routeWait) (a : route_summary) : route_summary :=
  let a := a <| sum_terminalOnly := sum_terminalOnly a && terminal w |> in
  if terminal w then
    a <| sum_mixedTerminal := sum_mixedTerminal a ||
           (negb (String.eqb (sum_terminalCategory a) "") &&
            negb (String.eqb (sum_terminalCategory a) (wait_terminalCategory w))) |>
      <| sum_terminalCategory := wait_terminalCategory w |>
  else a.

Definition summarize_wait (providerRef : string) (r : routeStep) (w : routeWait) (a : route_summary) : route_summary :=
  let a := a <| sum_hasCooldown := sum_hasCooldown a || temporary w |> in
  if negb (blocked w) then
    let a := a <| sum_ready := true |> in
    if String.eqb (route_provider r) providerRef then a
    else a <| sum_alternatives := sum_alternatives a ++ [route_name r] |>
  else if unknown_wait w then a <| sum_unknown := true |>
  else if Time.is_zero (sum_earliest a) || Time.before (wait_retryAt w) (sum_earliest a)
  then a <| sum_earliest := wait_retryAt w |> else a.

Section advice.
Context (HasAnthropicServerTools : string -> bool).
Context (PrepareRequest : string -> string -> string -> string -> Z -> bool).
Context (h : handler) (rt : runtime) (now : time).

#[local] Abbreviation candidates := (routingCandidates HasAnthropicServerTools PrepareRequest h).

(** Routes of the request, routes of other providers for an explicit one, and
    whether the client named the provider. *)
Definition recoveryRoutes (request : recoveryRequest) : list routeStep * list routeStep * bool :=
  let '{| request_model := m; request_protocol := protocol; request_body := body |} := request in
  let bare := if String.eqb m "auto"
    then ((fun e => new_routeStep (entry_provider e) (entry_model e)) <$>
            List.filter (chain_compatible HasAnthropicServerTools PrepareRequest h protocol body) (AutoChain h), [], false)
    else ((fun name => new_routeStep name m) <$> candidates m false protocol body, [], false) in
  match parseQualifiedModelID m with
  | Some (ref, model) =>
      if bool_decide (is_Some (providers h !! ref)) then
        ([new_routeStep ref model],
         (fun name => new_routeStep name model) <$>
           List.filter (fun name => negb (String.eqb name ref)) (candidates model false protocol body), true)
      else bare
  | None => bare
  end.

Definition summarize (providerRef : string) (a : route_summary) (r : routeStep) : route_summary :=
  let w := routeWaitLocked h rt r now in
  summarize_wait providerRef r w (summarize_terminal w a).

Definition start_summary (routes : list routeStep) : route_summary :=
  {| sum_earliest := Time.zero; sum_unknown := bool_decide (routes = []); sum_ready := false;
     sum_terminalOnly := negb (bool_decide (routes = [])); sum_terminalCategory := ""; sum_mixedTerminal := false;
     sum_hasCooldown := false; sum_alternatives := [] |}.

(** A held session waits for its own route only. *)
Definition held_routes (chosen : option routeStep) (explicit : bool) (routes : list routeStep) : option (list routeStep) :=
  match chosen with
  | Some c =>
      if negb explicit && (bool_decide (is_Some (route_sessionKey c)) || String.eqb (strategy h) "price_priority")
      then if (cooldownChoiceLocked h rt c routes now).2 then Some [c] else None
      else None
  | None => None
  end.

(** The timing part of the advice. *)
Definition timed_advice (s : route_summary) (advice : retryAdvice) : retryAdvice :=
  let advice :=
    if sum_ready s then
      advice <| EligibleAfterSeconds := Some 0 |> <| Strategy := "new_request" |> <| AfterSeconds := Some 0 |>
             <| WaitSource := "eligible_route" |>
    else if negb (sum_unknown s) && Time.after (sum_earliest s) now then
      let actual := retryDeadlineSeconds (sum_earliest s) now in
      advice <| EligibleAfterSeconds := Some actual |> <| Strategy := "retry_after" |>
             <| AfterSeconds := Some (Z.min actual 30) |> <| WaitSource := "gateway_cooldown" |>
    else advice in
  let advice :=
    if negb (sum_ready s) && negb (bool_decide (Alternatives advice = [])) && bool_decide (is_Some (AfterSeconds advice))
    then advice <| AfterSeconds := Some 2 |> else advice in
  if bool_decide (is_Some (AfterSeconds advice))
  then advice <| InitialDelaySeconds := 0 |> <| MaxDelaySeconds := 0 |> else advice.

(** [sort.Strings], then the count before the list is cut to 16. *)
Definition list_alternatives (names : list string) (advice : retryAdvice) : retryAdvice :=
  let sorted := Sort.Strings names in
  advice <| AlternativeCount := length sorted |> <| Alternatives := take 16 sorted |>.

(** [retryAdviceFor] of the active view; [chosen] is the routing choice of the
    request and [providerRef] the provider its log details name. *)
Definition retryAdviceFor (request : option recoveryRequest) (providerRef : string) (chosen : option routeStep) : retryAdvice :=
  match request with
  | None => default_advice
  | Some request =>
      let '(routes, manual, explicit) := recoveryRoutes request in
      let advice := default_advice
        <| ReselectProvider := negb explicit && (String.eqb (request_model request) "auto" ||
                                 ((1 <? length routes)%nat && negb (String.eqb (strategy h) ""))) |>
        <| AlternativesRequireModelChange := explicit |> in
      if negb (epoch (availability rt) =? routingEpoch h) then advice
      else
        let held := held_routes chosen explicit routes in
        let advice := if bool_decide (is_Some held) then advice <| ReselectProvider := false |> else advice in
        let manual := if bool_decide (is_Some held) then [] else manual in
        let routes := default routes held in
        let s := foldl (summarize providerRef) (start_summary routes) routes in
        let others := route_name <$> List.filter (fun r => negb (blocked (routeWaitLocked h rt r now))) manual in
        let advice := advice <| hasCooldown := sum_hasCooldown s |>
          <| terminalProviderBlocked := negb (sum_ready s) && sum_terminalOnly s |>
          <| advice_terminalCategory := if sum_mixedTerminal s then "" else sum_terminalCategory s |> in
        timed_advice s (list_alternatives (sum_alternatives s ++ others) advice)
  end.
End advice.

(** ** Messages *)

Definition itoa (n : Z) : string := @pretty.pretty Z pretty.pretty_Z n.

Definition retryMessage (advice : retryAdvice) : string :=
  if String.eqb (Strategy advice) "manual_check" then
    "Audit persistence failed and a provider request may already have completed. Do not retry automatically; reconcile the failed request's accounting, repair storage and restart the gateway before resubmitting."
  else
    let message :=
      match AfterSeconds advice with
      | None => "Recovery time is unknown. Retry as a new request with bounded exponential backoff and jitter (up to 30 seconds)"
      | Some s => if 0 <? s then "Retry after " +:+ itoa s +:+ " seconds as a new request" else "Retry as a new request"
      end in
    let message :=
      if ReselectProvider advice then message +:+ "; routing will reselect an eligible provider"
      else if AlternativesRequireModelChange advice && negb (bool_decide (Alternatives advice = []))
      then message +:+ "; another listed provider requires an explicit model change" else message in
    let message :=
      match EligibleAfterSeconds advice, AfterSeconds advice with
      | Some e, Some s =>
          if s <? e then message +:+ "; the selected routes remain paused for " +:+ itoa e +:+
                         " seconds, and this shorter retry only rechecks routing"
          else message
      | _, _ => message
      end in
    message +:+ ". Limit retries to 3 attempts; request features, capacity and budgets are rechecked.".

(** ** Response headers *)

Definition headers : Type := gmap string string.

(** [writeRetryHeaders]; [wrote] says that the response header is sent. *)
Definition writeRetryHeaders (w : headers) (wrote : bool) (retry : option RetryHeaders) : headers :=
  if wrote then w
  else
    let w := delete "Retry-After-Ms" (delete "Retry-After" (delete "X-Should-Retry" w)) in
    match RetryHeaders_Normalize <$> retry with
    | None => w
    | Some r =>
        let w := if String.eqb (ShouldRetry r) "" then w else <["X-Should-Retry" := ShouldRetry r]> w in
        let w := match RetryAfterSeconds r with Some s => <["Retry-After" := itoa s]> w | None => w end in
        match RetryAfterMS r with Some ms => <["Retry-After-Ms" := itoa ms]> w | None => w end
    end.

Definition after_headers (signal : string) (advice : option retryAdvice) : RetryHeaders :=
  match advice ≫= AfterSeconds with
  | Some s => if 0 <? s then {| ShouldRetry := signal; RetryAfterSeconds := Some s; RetryAfterMS := Some (wrap64 (s * 1000)) |}
              else {| ShouldRetry := signal; RetryAfterSeconds := None; RetryAfterMS := None |}
  | None => {| ShouldRetry := signal; RetryAfterSeconds := None; RetryAfterMS := None |}
  end.

Definition applyRetryHeader (w : headers) (wrote : bool) (advice : retryAdvice) : headers :=
  writeRetryHeaders w wrote (Some (after_headers "true" (Some advice))).

(** ** The decision of a failed request *)

(** A [*CallError] with its pointer, by which a prepared response is found. *)
Record retryResponse := {
  prepared_error : option nat;                 (** nil before the first error *)
  prepared_advice : option retryAdvice;
  prepared_headers : RetryHeaders;
}.

Definition denied_categories : list string :=
  [ProviderErrorAuthentication; ProviderErrorPermissionDenied; ProviderErrorPolicyDenied; ProviderErrorInvalidRequest].

Definition other_route_categories (c : string) : bool := String.eqb c ProviderErrorModelNotFound || ProviderScopedTerminal c.

(** [mayRetry] and [signal], from the error alone. *)
Definition error_signal (e : CallError) : bool * string :=
  let mayRetry := isAvailabilityError (Code e) || String.eqb (CallCategory e) ProviderErrorRateLimited ||
                  String.eqb (CallCategory e) ProviderErrorTemporarilyUnavailable in
  match CallFailure e with
  | None => (mayRetry, "")
  | Some f =>
      (mayRetry || String.eqb (Retryability f) "retryable" ||
       (String.eqb (Diagnostics.Source f) "stream_error" && String.eqb (Retryability f) "unknown"),
       if String.eqb (Retryability f) "terminal" then "false" else "")
  end.

(** The same after the advice and the state of the audit. *)
Definition retry_signal (e : CallError) (advice : retryAdvice) (manualCheck : bool) : bool * string :=
  let '(mayRetry, signal) := error_signal e in
  let '(mayRetry, signal) := if member (CallCategory e) denied_categories then (false, "false") else (mayRetry, signal) in
  let '(mayRetry, signal) :=
    if other_route_categories (CallCategory e)
    then (ReselectProvider advice && negb (bool_decide (Alternatives advice = [])), "false") else (mayRetry, signal) in
  let '(mayRetry, signal) := if terminalProviderBlocked advice then (false, "false") else (mayRetry, signal) in
  let '(mayRetry, signal) := if manualCheck then (false, "false") else (mayRetry, signal) in
  (mayRetry, if mayRetry then "true" else signal).

(** Not at once after a provider's own refusal. *)
Definition short_delay (e : CallError) (advice : retryAdvice) : retryAdvice :=
  if bool_decide (AfterSeconds advice = Some 0) &&
     (RetryProvided e || String.eqb (CallCategory e) ProviderErrorRateLimited || other_route_categories (CallCategory e))
  then advice <| AfterSeconds := Some 2 |> else advice.

(** The wait that the provider asked for. *)
Definition provider_wait (e : CallError) (advice : retryAdvice) : retryAdvice :=
  if RetryProvided e then
    let advice := advice <| AdviceProviderRetryAt := CooldownUntil e |> in
    if bool_decide (AfterSeconds advice = None) && String.eqb (WaitSource advice) "unknown" then
      advice <| AfterSeconds := Some (Z.min (Z.max (retryDelaySeconds (Cooldown e)) 2) 30) |> <| Strategy := "retry_after" |>
             <| WaitSource := "provider_cooldown" |> <| InitialDelaySeconds := 0 |> <| MaxDelaySeconds := 0 |>
    else advice
  else advice.

Definition manual_check (e : CallError) (auditUnavailable : bool) : bool :=
  String.eqb (Code e) "audit_failed_do_not_retry_blindly" || String.eqb (Code e) "audit_unavailable" || auditUnavailable.

(** The advice that a response carries, if any, and its signal. *)
Definition final_advice (e : CallError) (advice : retryAdvice) (auditUnavailable : bool) : option retryAdvice * string :=
  let manualCheck := manual_check e auditUnavailable in
  let '(mayRetry, signal) := retry_signal e advice manualCheck in
  (if mayRetry then Some (provider_wait e (short_delay e advice))
   else if manualCheck then Some manualAuditAdvice else None, signal).

(** [prepareRetryResponse]: [advice] is the result of [retryAdviceFor],
    [prepared] the response prepared before in the same request. *)
Definition prepareRetryResponse (w : headers) (wrote : bool) (prepared : option retryResponse) (errorPtr : nat) (e : CallError)
    (advice : retryAdvice) (auditUnavailable : bool) : headers * CallError * option retryResponse * option retryAdvice :=
  let fresh :=
    let '(advice, signal) := final_advice e advice auditUnavailable in
    let retry := if wrote then {| ShouldRetry := ""; RetryAfterSeconds := None; RetryAfterMS := None |}
                 else after_headers signal advice in
    let retry := RetryHeaders_Normalize retry in
    let e := e <| CallFailure := (fun f => (Normalize f) <| ResponseRetryHeaders := Some retry |>) <$> CallFailure e |> in
    (writeRetryHeaders w wrote (Some retry), e,
     (fun _ => {| prepared_error := Some errorPtr; prepared_advice := advice; prepared_headers := retry |}) <$> prepared, advice) in
  match prepared with
  | Some p => if bool_decide (prepared_error p = Some errorPtr)
              then (writeRetryHeaders w wrote (Some (prepared_headers p)), e, prepared, prepared_advice p) else fresh
  | None => fresh
  end.
