(* ===== verification/RetryFacts.v ===== *)
(** * Retry guidance: properties

    The advice tells the truth about the routes it was computed from, and a
    response invites a retry only when a retry can help. *)

From S2P Require Import Prelude GoStrings GoFloat Diagnostics Errors Availability KeyPool KeyPoolFacts Pricing Routes.
From S2P Require Import View Routing RoutingFacts RoutingResolve RoutingOrder RetryGuidance.

(** ** Seconds to a deadline *)

Lemma deadline_seconds until now : now < until ->
  let e := retryDeadlineSeconds until now in 0 < e /\ (e - 1) * Second < until - now <= e * Second.
Proof.
  intros H. unfold retryDeadlineSeconds, Time.unix, Time.nanosecond, Second in *.
  destruct (after_spec until now); [|lia]. cbn [negb].
  pose proof (Z.div_mod until 1000000000). pose proof (Z.div_mod now 1000000000).
  pose proof (Z.mod_pos_bound until 1000000000). pose proof (Z.mod_pos_bound now 1000000000).
  destruct (Z.ltb_spec (now mod 1000000000) (until mod 1000000000)); lia.
Qed.

Lemma delay_seconds_nonneg d : 0 <= retryDelaySeconds d.
Proof.
  unfold retryDelaySeconds. destruct (Z.leb_spec d 0); [done|].
  pose proof (Z.div_pos d Second). unfold Second in *. destruct (negb _); lia.
Qed.

(** ** The loop over the routes *)

Section summary.
Context (h : handler) (rt : runtime) (now : time) (providerRef : string).
#[local] Abbreviation wait r := (routeWaitLocked h rt r now).

(** A blocked route whose wait has a known end. *)
Definition known_blocked (r : routeStep) : Prop := blocked (wait r) = true /\ unknown_wait (wait r) = false.

Definition free (r : routeStep) : Prop := blocked (wait r) = false.

(** A blocked route whose wait has no known end. *)
Definition unknown_blocked (r : routeStep) : Prop := blocked (wait r) = true /\ unknown_wait (wait r) = true.

(** The names of the free routes of other providers than [providerRef]. *)
Definition elsewhere (l : list routeStep) : list string :=
  route_name <$> List.filter (fun r => negb (blocked (wait r)) && negb (String.eqb (route_provider r) providerRef)) l.

(** What the summary of the routes [l] says; [u] is what it started from. *)
Record summary_of (u : bool) (l : list routeStep) (s : route_summary) : Prop := {
  sum_ready_ok : sum_ready s = true <-> exists r, r ∈ l /\ free r;
  sum_known_ok : sum_unknown s = true <-> u = true \/ exists r, r ∈ l /\ unknown_blocked r;
  sum_earliest_ok : (sum_earliest s = 0 \/ exists r, r ∈ l /\ known_blocked r /\ sum_earliest s = wait_retryAt (wait r)) /\
    forall r, r ∈ l -> known_blocked r -> sum_earliest s <= wait_retryAt (wait r) /\ now < sum_earliest s;
  sum_alternatives_ok : sum_alternatives s = elsewhere l;
}.

Lemma summary_start l : summary_of (bool_decide (l = [])) [] (start_summary l).
Proof.
  split; cbn.
  - split; [done|]. by intros (? & []%not_elem_of_nil & _).
  - split; [by left|]. by intros [?|(? & []%not_elem_of_nil & _)].
  - split; [by left|]. by intros ? []%not_elem_of_nil.
  - done.
Qed.

Lemma elsewhere_snoc l r : elsewhere (l ++ [r]) =
  elsewhere l ++ (if negb (blocked (wait r)) && negb (String.eqb (route_provider r) providerRef) then [route_name r] else []).
Proof. unfold elsewhere. rewrite List.filter_app, fmap_app. cbn [List.filter]. by destruct (_ && _). Qed.

Lemma in_snoc {A} (x y : A) l : x ∈ l ++ [y] <-> x ∈ l \/ x = y.
Proof. by rewrite elem_of_app, list_elem_of_singleton. Qed.

(** The fields that the terminal bookkeeping leaves alone. *)
Lemma summarize_terminal_fields w a :
  let a' := summarize_terminal w a in
  sum_ready a' = sum_ready a /\ sum_unknown a' = sum_unknown a /\ sum_earliest a' = sum_earliest a /\
  sum_alternatives a' = sum_alternatives a.
Proof. unfold summarize_terminal. by destruct (terminal w). Qed.

Lemma summary_step u l s r : runtime_wf h rt now -> summary_of u l s -> summary_of u (l ++ [r]) (summarize h rt now providerRef s r).
Proof.
  intros Hwf [Hr Hk He Ha]. pose proof (known_wait_ends_later h rt r now Hwf) as Hfut. unfold summarize, wait_future in *.
  destruct (summarize_terminal_fields (wait r) s) as (Fr & Fu & Fe & Fa).
  set (s1 := summarize_terminal _ s) in *. clearbody s1. rewrite <- Fr in Hr. rewrite <- Fu in Hk. rewrite <- Fe in He. rewrite <- Fa in Ha.
  clear s Fr Fu Fe Fa. unfold summarize_wait. destruct He as [He1 He2].
  destruct (blocked (wait r)) eqn:Eb; cbn [negb].
  - assert (Hnf : forall r', r' ∈ l ++ [r] /\ free r' <-> r' ∈ l /\ free r').
    { intros r'. rewrite in_snoc. split; [intros [[?| ->] Hf]; [done|unfold free in Hf; congruence]|naive_solver]. }
    assert (Hel : elsewhere (l ++ [r]) = elsewhere l) by (by rewrite elsewhere_snoc, Eb, app_nil_r).
    specialize (Hfut eq_refl). destruct (unknown_wait (wait r)) eqn:Eu.
    + assert (Hnot : ~ known_blocked r) by (intros [_ ?]; congruence).
      split; cbn; [by rewrite Hr; setoid_rewrite Hnf|split; [|done]|split|by rewrite Ha, Hel].
      * intros _. right. exists r. rewrite in_snoc. split; [by right|done].
      * destruct He1 as [?|(r' & ? & ?)]; [by left|right; exists r'; by rewrite in_snoc; auto].
      * intros r' [Hin| ->]%in_snoc Hkb; [eauto|done].
    + destruct Hfut as [?|Hfut]; [done|].
      assert (Hkr : known_blocked r) by done. assert (Hnow := rt_now _ _ _ Hwf).
      set (s2 := if Time.is_zero _ || _ then _ else _).
      assert (Hs2 : sum_ready s2 = sum_ready s1 /\ sum_unknown s2 = sum_unknown s1 /\ sum_alternatives s2 = sum_alternatives s1 /\
                    (sum_earliest s2 = wait_retryAt (wait r) \/ sum_earliest s2 = sum_earliest s1 /\ sum_earliest s1 <> 0) /\
                    sum_earliest s2 <= wait_retryAt (wait r) /\
                    (sum_earliest s1 <> 0 -> sum_earliest s2 <= sum_earliest s1)).
      { subst s2. change (sum_earliest (s1 <| sum_hasCooldown := sum_hasCooldown s1 || temporary (wait r) |>)) with (sum_earliest s1).
        destruct (is_zero_spec (sum_earliest s1)) as [Hz|Hz]; cbn [orb]; [cbn; split_and!; first [done|by left|lia]|].
        destruct (before_spec (wait_retryAt (wait r)) (sum_earliest s1)); cbn; split_and!; first [done|by left|by right|lia]. }
      clearbody s2. destruct Hs2 as (Er & Eu2 & Ea & Ee & Ele & Emono).
      assert (Hun : forall r', r' ∈ l ++ [r] /\ unknown_blocked r' <-> r' ∈ l /\ unknown_blocked r').
      { intros r'. rewrite in_snoc. split; [intros [[?| ->] [? Hf]]; [done|congruence]|naive_solver]. }
      split; [by rewrite Er, Hr; setoid_rewrite Hnf|by rewrite Eu2, Hk; setoid_rewrite Hun| |by rewrite Ea, Ha, Hel].
      assert (Hin : forall r', r' ∈ l -> known_blocked r' -> sum_earliest s1 <= wait_retryAt (wait r') /\ now < sum_earliest s1) by auto.
      split.
      * right. destruct Ee as [->|[-> Hne]]; [exists r; rewrite in_snoc; auto|].
        destruct He1 as [?|(r' & ? & ?)]; [done|]. exists r'. rewrite in_snoc. auto.
      * assert (Hlate : now < sum_earliest s2).
        { destruct Ee as [->|[-> Hne]]; [done|]. destruct He1 as [?|(r' & Hr' & Hk' & _)]; [done|]. by apply (Hin r'). }
        intros r' [Hr'| ->]%in_snoc Hk'; [|by split]. destruct (Hin r' Hr' Hk'). split; [|done].
        assert (sum_earliest s1 <> 0) by lia. lia.
  - assert (Hf : free r) by done. assert (Hnk : ~ known_blocked r) by (intros [? _]; congruence).
    assert (Hnu : ~ unknown_blocked r) by (intros [? _]; congruence).
    set (s2 := if String.eqb _ _ then _ else _).
    assert (Hs2 : sum_ready s2 = true /\ sum_unknown s2 = sum_unknown s1 /\ sum_earliest s2 = sum_earliest s1 /\
                  sum_alternatives s2 = sum_alternatives s1 ++ (if negb (String.eqb (route_provider r) providerRef) then [route_name r] else [])).
    { subst s2. destruct (String.eqb _ _); cbn; rewrite ?app_nil_r; auto. }
    clearbody s2. destruct Hs2 as (Er & Eu & Ee & Ea). split.
    + rewrite Er. split; [|done]. intros _. exists r. rewrite in_snoc. auto.
    + rewrite Eu, Hk. setoid_rewrite in_snoc. naive_solver.
    + rewrite Ee. split; [destruct He1 as [?|(r' & ? & ?)]; [by left|right; exists r'; rewrite in_snoc; auto]|].
      intros r' [Hin| ->]%in_snoc Hkb; [eauto|done].
    + by rewrite Ea, Ha, elsewhere_snoc, Eb.
Qed.

Lemma summary_loop u l : runtime_wf h rt now -> forall l0 s, summary_of u l0 s ->
  summary_of u (l0 ++ l) (foldl (summarize h rt now providerRef) s l).
Proof.
  intros Hwf. induction l as [|r l IH]; intros l0 s H; [by rewrite app_nil_r|].
  cbn [foldl]. replace (l0 ++ r :: l) with ((l0 ++ [r]) ++ l) by (by rewrite <- app_assoc).
  apply IH. by apply summary_step.
Qed.
End summary.

(** ** The advice *)

Section advice.
Context (HasAnthropicServerTools : string -> bool).
Context (PrepareRequest : string -> string -> string -> string -> Z -> bool).
Context (h : handler) (rt : runtime) (now : time).

(** The timing part, from the summary of the routes. *)
Lemma timed_advice_spec s advice :
  AfterSeconds advice = None -> EligibleAfterSeconds advice = None ->
  let a := timed_advice now s advice in
  (sum_ready s = true -> AfterSeconds a = Some 0 /\ EligibleAfterSeconds a = Some 0) /\
  (sum_ready s = false -> sum_unknown s = false -> now < sum_earliest s ->
     let e := retryDeadlineSeconds (sum_earliest s) now in
     EligibleAfterSeconds a = Some e /\ AfterSeconds a = Some (if bool_decide (Alternatives a = []) then Z.min e 30 else 2)) /\
  (sum_ready s = false -> sum_unknown s = true -> AfterSeconds a = None /\ EligibleAfterSeconds a = None) /\
  Alternatives a = Alternatives advice /\ AlternativeCount a = AlternativeCount advice.
Proof.
  intros Hn He a. subst a. unfold timed_advice. destruct (sum_ready s); cbn [negb andb]; [by split_and!|].
  destruct (sum_unknown s); cbn [negb andb].
  - rewrite Hn. cbn. rewrite andb_false_r. by rewrite bool_decide_eq_false_2 by (by rewrite Hn; intros [? ?]).
  - destruct (after_spec (sum_earliest s) now) as [Hlt|Hle].
    + cbn. destruct (bool_decide (Alternatives advice = [])) eqn:E; cbn; rewrite ?E; by split_and!.
    + rewrite Hn. cbn. rewrite andb_false_r. rewrite bool_decide_eq_false_2 by (by rewrite Hn; intros [? ?]). split_and!; [done|lia|done..].
Qed.

Lemma summary_of_routes providerRef l : runtime_wf h rt now ->
  summary_of h rt now providerRef (bool_decide (l = [])) l (foldl (summarize h rt now providerRef) (start_summary l) l).
Proof. intros Hwf. exact (summary_loop h rt now providerRef _ l Hwf [] _ (summary_start h rt now providerRef l)). Qed.

(** The routes that the advice is about, and those of other providers. *)
Definition advised_routes (request : recoveryRequest) (chosen : option routeStep) : list routeStep * list routeStep :=
  let '(routes, manual, explicit) := recoveryRoutes HasAnthropicServerTools PrepareRequest h request in
  match held_routes h rt now chosen explicit routes with
  | Some held => (held, [])
  | None => (routes, manual)
  end.

Definition others_free (manual : list routeStep) : list string :=
  route_name <$> List.filter (fun r => negb (blocked (routeWaitLocked h rt r now))) manual.

(** [e] is the time to [until], rounded up to seconds. *)
Definition seconds_to (until : time) (e : Z) : Prop := (e - 1) * Second < until - now <= e * Second.

(** The advice about [routes], with the routes [manual] of other providers. *)
Record exact (providerRef : string) (routes manual : list routeStep) (advice : retryAdvice) : Prop := {
  exact_now : (exists r, r ∈ routes /\ free h rt now r) -> AfterSeconds advice = Some 0 /\ EligibleAfterSeconds advice = Some 0;
  exact_wait r0 : r0 ∈ routes -> (forall r, r ∈ routes -> known_blocked h rt now r /\
      wait_retryAt (routeWaitLocked h rt r0 now) <= wait_retryAt (routeWaitLocked h rt r now)) ->
    exists e, EligibleAfterSeconds advice = Some e /\ 0 < e /\ seconds_to (wait_retryAt (routeWaitLocked h rt r0 now)) e /\
              AfterSeconds advice = Some (if bool_decide (Alternatives advice = []) then Z.min e 30 else 2);
  exact_unknown : (forall r, r ∈ routes -> ~ free h rt now r) -> routes = [] \/ (exists r, r ∈ routes /\ unknown_blocked h rt now r) ->
    AfterSeconds advice = None /\ EligibleAfterSeconds advice = None;
  exact_alternatives : exists names,
    names ≡ₚ elsewhere h rt now providerRef routes ++ others_free manual /\ StronglySorted Sort.le names /\
    Alternatives advice = take 16 names /\ AlternativeCount advice = length names;
}.

Lemma advice_from_summary providerRef s routes manual base :
  runtime_wf h rt now -> summary_of h rt now providerRef (bool_decide (routes = [])) routes s -> AfterSeconds base = None -> EligibleAfterSeconds base = None ->
  exact providerRef routes manual (timed_advice now s (list_alternatives (sum_alternatives s ++ others_free manual) base)).
Proof.
  intros Hwf [Hr Hk [He1 He2] Ha] Hb1 Hb2. set (listed := list_alternatives _ base).
  destruct (timed_advice_spec s listed Hb1 Hb2) as (H1 & H2 & H3 & H4 & H5).
  assert (Hnr : forall P : Prop, (forall r, r ∈ routes -> ~ free h rt now r) -> (sum_ready s = false -> P) -> P).
  { intros P Hno HP. apply HP. apply not_true_iff_false. intros (r & Hin & Hf)%Hr. by apply (Hno r). }
  split.
  - intros H. by apply H1, Hr.
  - intros r0 Hin0 Hall. apply Hnr; [intros r Hin Hf; destruct (Hall r Hin) as [[Hb _] _]; unfold free in Hf; congruence|]. intros Hready.
    assert (Hun : sum_unknown s = false).
    { apply not_true_iff_false. intros [Hz|(r & Hin & _ & Hu)]%Hk; [|destruct (Hall r Hin) as [[_ ?] _]; congruence].
      apply bool_decide_eq_true in Hz. rewrite Hz in Hin0. by apply elem_of_nil in Hin0. }
    destruct (He2 r0 Hin0 (proj1 (Hall r0 Hin0))) as [Hle Hlt]. assert (E : sum_earliest s = wait_retryAt (routeWaitLocked h rt r0 now)).
    { destruct He1 as [Hz|(r & Hin & _ & Heq)]; [pose proof (rt_now _ _ _ Hwf); lia|]. destruct (Hall r Hin) as [_ Hmin]. lia. }
    destruct (H2 Hready Hun Hlt) as [E1 E2]. destruct (deadline_seconds _ _ Hlt) as [Hpos Hsec]. unfold seconds_to. rewrite <- E. eauto 10.
  - intros Hno Hu. apply Hnr; [done|]. intros Hready. apply H3; [done|]. apply Hk. destruct Hu as [->|Hu]; [left; done|by right].
  - exists (Sort.Strings (sum_alternatives s ++ others_free manual)). rewrite H4, H5, <- Ha. split_and!; [apply Sort.Strings_perm|apply Sort.Strings_sorted|done|done].
Qed.

(** C40. The advice is what the routes of the request allow.  A route is free:
    "now".  All are blocked until known times: the time until the first of
    them, rounded up to seconds, and shown as at most 30 seconds, or as 2 when
    there are alternatives.  None is free and an end is unknown, or there is no
    route: no time.  The alternatives are the free routes of other providers,
    sorted, the first 16 of them, with the number of all; and these routes are
    those of the session, when it is held to one, or all that the request can
    take. *)
Theorem advice_exact request providerRef chosen :
  runtime_wf h rt now ->
  let advice := retryAdviceFor HasAnthropicServerTools PrepareRequest h rt now (Some request) providerRef chosen in
  let '(routes, manual) := advised_routes request chosen in exact providerRef routes manual advice.
Proof.
  intros Hwf advice. unfold advice, retryAdviceFor, advised_routes.
  destruct (recoveryRoutes _ _ h request) as [[routes0 manual0] explicit].
  rewrite (rt_epoch _ _ _ Hwf), Z.eqb_refl. cbn [negb].
  destruct (held_routes h rt now chosen explicit routes0) as [held|]; cbn [default];
    [rewrite bool_decide_eq_true_2 by eauto|rewrite bool_decide_eq_false_2 by (by intros [? ?])].
  - by apply (advice_from_summary _ _ held []); [|apply summary_of_routes| |].
  - by apply (advice_from_summary _ _ routes0 manual0); [|apply summary_of_routes| |].
Qed.
End advice.

(** ** The decision of a failed request *)

Lemma short_delay_fields e a :
  (forall n, AfterSeconds a = Some n -> 0 <= n <= 30) ->
  let a' := short_delay e a in
  (forall n, AfterSeconds a' = Some n -> 0 <= n <= 30) /\
  (RetryProvided e || String.eqb (CallCategory e) ProviderErrorRateLimited || other_route_categories (CallCategory e) = true ->
   AfterSeconds a' <> Some 0).
Proof.
  intros H a'. subst a'. unfold short_delay. case_bool_decide as H0; cbn [andb].
  - destruct (_ || other_route_categories _); [|done]. cbn. split; [intros n [= <-]; lia|done].
  - done.
Qed.

Lemma provider_wait_fields e a :
  (forall n, AfterSeconds a = Some n -> 0 <= n <= 30) ->
  let a' := provider_wait e a in
  (forall n, AfterSeconds a' = Some n -> 0 <= n <= 30) /\ (AfterSeconds a <> Some 0 -> AfterSeconds a' <> Some 0).
Proof.
  intros H a'. subst a'. unfold provider_wait. destruct (RetryProvided e); [|done].
  destruct (bool_decide _ && _); [|done]. cbn. split; [intros n [= <-]; lia|intros _ [= ?]; lia].
Qed.

(** A retry is invited only when it can help.  The response says "retry" only
    for an error outside the denied categories, with the audit intact, and
    when not every route is stopped for a terminal reason; for an error that
    another provider may not share, only when routing will reselect among
    listed providers; and after a refusal by the provider itself never at
    once.  An audit failure always gets the manual advice and "do not retry". *)
Theorem retry_invited_only_when_useful e advice auditUnavailable :
  (forall n, AfterSeconds advice = Some n -> 0 <= n <= 30) ->
  match final_advice e advice auditUnavailable with
  | (Some a, signal) =>
      (signal = "true" /\ manual_check e auditUnavailable = false /\ ~ In (CallCategory e) denied_categories /\
       terminalProviderBlocked advice = false /\
       (other_route_categories (CallCategory e) = true -> ReselectProvider advice = true /\ Alternatives advice <> []) /\
       (RetryProvided e || String.eqb (CallCategory e) ProviderErrorRateLimited || other_route_categories (CallCategory e) = true ->
        AfterSeconds a <> Some 0) /\
       (forall n, AfterSeconds a = Some n -> 0 <= n <= 30)) \/
      (signal = "false" /\ manual_check e auditUnavailable = true /\ a = manualAuditAdvice)
  | (None, signal) => signal <> "true" /\ manual_check e auditUnavailable = false
  end.
Proof.
  intros Hb. unfold final_advice, retry_signal.
  destruct (error_signal e) as [may signal] eqn:Es.
  assert (Hs : signal = "" \/ signal = "false").
  { revert Es. unfold error_signal. destruct (CallFailure e) as [f|]; intros [= _ <-]; [|by left].
    destruct (String.eqb _ "terminal"); auto. }
  clear Es. destruct (member (CallCategory e) denied_categories) eqn:Ed.
  - assert (Ho : other_route_categories (CallCategory e) = false).
    { apply member_spec in Ed. by repeat (destruct Ed as [<-|Ed]; [reflexivity|]). }
    rewrite Ho. destruct (terminalProviderBlocked advice), (manual_check e auditUnavailable); try (split; [done|done]); right; done.
  - assert (Hd : ~ In (CallCategory e) denied_categories) by (intros H%member_spec; congruence).
    destruct (short_delay_fields e advice Hb) as [Hsd Hsz]. destruct (provider_wait_fields e _ Hsd) as [Hpd Hpz].
    destruct (manual_check e auditUnavailable) eqn:Em.
    { destruct (other_route_categories _), (terminalProviderBlocked advice); right; done. }
    destruct (terminalProviderBlocked advice) eqn:Et.
    { destruct (other_route_categories _); split; done. }
    destruct (other_route_categories (CallCategory e)) eqn:Eo.
    + destruct (ReselectProvider advice && negb (bool_decide (Alternatives advice = []))) eqn:Er; [|split; done].
      rewrite andb_true_iff, negb_true_iff, bool_decide_eq_false in Er.
      left. split_and!; try done. intros _. apply Hpz, Hsz. by rewrite orb_true_r.
    + destruct may; [|split; [by destruct Hs as [-> | ->]|done]]. left. split_and!; try done. intros H. by apply Hpz, Hsz.
Qed.

(** ** Examples *)

Definition demo_request : recoveryRequest := {| request_model := "chat"; request_protocol := "openai"; request_body := "{}" |}.
Definition demo_advice (until : time) : retryAdvice :=
  retryAdviceFor (fun _ => false) (fun _ _ _ _ _ => true) demo_handler (demo_runtime until) demo_now (Some demo_request) "cheap" None.

Example demo_alternative : Alternatives (demo_advice (demo_now + Minute)) = ["other/chat"] /\ AfterSeconds (demo_advice (demo_now + Minute)) = Some 0.
Proof. split; by vm_compute. Qed.

(** Both routes of the request are free, and one of them is elsewhere. *)
Lemma advice_exact_witness :
  runtime_wf demo_handler (demo_runtime (demo_now + Minute)) demo_now /\
  exists names, names ≡ₚ elsewhere demo_handler (demo_runtime (demo_now + Minute)) demo_now "cheap"
      (advised_routes (fun _ => false) (fun _ _ _ _ _ => true) demo_handler (demo_runtime (demo_now + Minute)) demo_now demo_request None).1 ++
      others_free demo_handler (demo_runtime (demo_now + Minute)) demo_now
      (advised_routes (fun _ => false) (fun _ _ _ _ _ => true) demo_handler (demo_runtime (demo_now + Minute)) demo_now demo_request None).2 /\
    take 16 names = ["other/chat"].
Proof.
  split; [apply demo_runtime_wf|].
  pose proof (advice_exact (fun _ => false) (fun _ _ _ _ _ => true) demo_handler (demo_runtime (demo_now + Minute)) demo_now
                demo_request "cheap" None (demo_runtime_wf _)) as H.
  cbv zeta in H. destruct (advised_routes _ _ _ _ _ _ _) as [routes manual]. destruct (exact_alternatives _ _ _ _ _ _ _ H) as (names & H1 & _ & H2 & _).
  exists names. split; [exact H1|]. rewrite <- H2. by vm_compute.
Defined.

Definition demo_refused : CallError := (new_CallError 429 "rate_limited") <| CallCategory := ProviderErrorRateLimited |>.

Lemma demo_after n : AfterSeconds (demo_advice 0) = Some n -> 0 <= n <= 30.
Proof.
  assert (E : AfterSeconds (demo_advice 0) = Some 0) by (by vm_compute). rewrite E. intros [= <-]. lia.
Qed.

Lemma retry_invited_only_when_useful_witness :
  snd (final_advice demo_refused (demo_advice 0) false) = "true" /\
  terminalProviderBlocked (demo_advice 0) = false.
Proof.
  pose proof (retry_invited_only_when_useful demo_refused (demo_advice 0) false demo_after) as H.
  assert (E : snd (final_advice demo_refused (demo_advice 0) false) = "true") by (by vm_compute).
  split; [exact E|]. destruct (final_advice demo_refused (demo_advice 0) false) as [[a|] signal]; cbn [snd] in E.
  - destruct H as [(_ & _ & _ & H & _)|[H _]]; [exact H|]. rewrite E in H. discriminate.
  - destruct H as [H _]. done.
Defined.
