(* ===== verification/Payload.v ===== *)
(** * Error payloads

    [errorPayload], [failUpstream] and [reject] of internal/gateway/gateway.go,
    error_policy.go, the payload half of retry_guidance.go and the failure
    frame of a stream of lifecycle.go: what a client is told when a request
    fails, in the envelope of its protocol.  The advice, the random identifier,
    the outcome of the diagnostic record and the text of an instant are
    arguments. *)

From S2P Require Import Prelude GoStrings GoFloat Diagnostics Errors Availability RetryGuidance.
From S2P Require Import Json.
From S2P Require Streams.

(** ** The maps of a payload *)

Abbreviation details := (list (string * value)).
Definition get (k : string) (d : details) : option value := snd <$> head (filter (fun kv => kv.1 = k) d).
Definition set (k : string) (v : value) (d : details) : details := put d (k, v).
(** [fmt.Sprintf("%s", detail[k])] of a text. *)
Definition text (k : string) (d : details) : string := match get k d with Some (VStr s) => s | _ => "" end.

(** A payload, with its map [error]. *)
Record payload := { outer : details; detail : details }.
#[export] Instance payload_eta : Eta payload := fun p => {| outer := outer p; detail := detail p |}.
Definition payload_value (p : payload) : value := VMap (set "error" (VMap (detail p)) (outer p)).

(** ** The records inside *)

Definition unless {A} (zero : bool) (field : string * A) : list (string * A) := if zero then [] else [field].
Definition text_field (k s : string) : details := unless (String.eqb s "") (k, VStr s).
Definition int_field (k : string) (n : Z) : details := unless (n =? 0) (k, VInt n).
Definition int_pointer (k : string) (n : option Z) : details := match n with Some n => [(k, VInt n)] | None => [] end.

Definition RetryHeaders_value (r : RetryHeaders) : value :=
  VStruct (text_field "x_should_retry" (ShouldRetry r) ++ int_pointer "retry_after_seconds" (RetryAfterSeconds r) ++
           int_pointer "retry_after_ms" (RetryAfterMS r)).

Definition Failure_value (f : Failure) : value :=
  VStruct ([("source", VStr (Source f)); ("phase", VStr (Phase f))] ++ int_field "http_status" (HTTPStatus f) ++
    int_field "error_status" (ErrorStatus f) ++ text_field "provider_code" (ProviderCode f) ++
    [("provider_code_state", VStr (CodeState f))] ++ unless (negb (ConfiguredCode f)) ("provider_code_configured", VBool true) ++
    text_field "provider_request_id" (ProviderRequestID f) ++ text_field "provider_type" (ProviderType f) ++
    text_field "provider_message" (ProviderMessage f) ++ int_field "actual_tokens" (ActualTokens f) ++
    int_field "limit_tokens" (LimitTokens f) ++ text_field "key_label" (KeyLabelField f) ++ text_field "backend_id" (BackendID f) ++
    [("category", VStr (Category f)); ("retryability", VStr (Retryability f))] ++ text_field "cooldown_scope" (CooldownScope f) ++
    int_field "cooldown_seconds" (CooldownSeconds f) ++ int_field "cooldown_until_ms" (CooldownUntilMS f) ++
    int_field "provider_rate_limit_streak" (ProviderRateLimitStreak f) ++
    match ResponseRetryHeaders f with Some r => [("response_retry_headers", RetryHeaders_value r)] | None => [] end).

Definition RoutingDecision_value (d : RoutingDecision) : value :=
  VStruct ([("from_provider", VStr (FromProvider d)); ("to_provider", VStr (ToProvider d)); ("model", VStr (Model d))] ++
    text_field "to_model" (ToModel d) ++ [("action", VStr (Action d)); ("reason", VStr (Reason d)); ("threshold_ms", VInt (ThresholdMS d))] ++
    int_pointer "remaining_ms" (RemainingMS d) ++ int_field "cooldown_until_ms" (DecisionCooldownUntilMS d) ++
    [("wait_unknown", VBool (WaitUnknown d))]).

Section payloads.
(** [time.Time.MarshalJSON], which writes the zone of the host. *)
Context (time_text : time -> string).

Definition retryAdvice_value (a : retryAdvice) : value :=
  VStruct ([("strategy", VStr (Strategy a))] ++ int_pointer "after_seconds" (AfterSeconds a) ++
    int_pointer "eligible_after_seconds" (EligibleAfterSeconds a) ++
    unless (Time.is_zero (AdviceProviderRetryAt a)) ("provider_retry_at", VStr (time_text (AdviceProviderRetryAt a))) ++
    int_field "initial_delay_seconds" (InitialDelaySeconds a) ++ int_field "max_delay_seconds" (MaxDelaySeconds a) ++
    [("max_attempts", VInt (MaxAttempts a)); ("new_request_required", VBool (NewRequestRequired a));
     ("reselect_provider", VBool (ReselectProvider a)); ("alternatives", VArr (VStr <$> Alternatives a));
     ("alternatives_require_model_change", VBool (AlternativesRequireModelChange a));
     ("alternatives_scope", VStr (AlternativesScope a)); ("wait_source", VStr (WaitSource a));
     ("alternative_count", VInt (Z.of_nat (AlternativeCount a)))]).

(** ** Payloads *)

Definition addFailureDetails (d : details) (failure : option Failure) : details :=
  match Normalize <$> failure with Some f => set "failure" (Failure_value f) d | None => d end.

Definition error_kind (status : Z) : string :=
  if (status =? 400) || (status =? 413) then "invalid_request_error" else if status =? 401 then "authentication_error"
  else if status =? 404 then "not_found_error" else if status =? 429 then "rate_limit_error" else "api_error".

Definition client_text (c : category) (protocol : string) : value := let '(_, _, message, _) := ClientError c protocol in VStr message.

(** The switch over the codes: the detail and the field that remains. *)
Definition code_details (request_limit : Z) (max_sessions : string -> Z) (code protocol field : string) (d : details) : details * string :=
  if String.eqb code "provider_fair_use_throttled_cooling_down" then (set "message" (client_text ProviderErrorFairUseThrottled protocol) d, field)
  else if String.eqb code "provider_access_denied_cooling_down" then (set "message" (client_text ProviderErrorAccessDenied protocol) d, field)
  else if String.eqb code "request_too_large" then
    let d := set "message" (VStr ("request_too_large: body exceeds gateway limit of " +:+ itoa request_limit +:+
                                  " bytes; configure limits.request_bytes to change it")) d in
    let d := set "limit_bytes" (VInt request_limit) d in
    (if String.eqb protocol "anthropic" then set "type" (VStr "request_too_large") d else d, field)
  else if String.eqb code "active_session_limit" then
    let limit := max_sessions field in
    let d := set "provider_ref" (VStr field) d in
    let d := set "message" (VStr ("provider capacity of " +:+ itoa limit +:+
      " active sessions is full; capacity release time is unknown. Retry with bounded exponential backoff and jitter (up to 30 seconds).")) d in
    let d := set "limit" (VInt limit) (set "scope" (VStr "provider") d) in
    (set "retry" (VMap [("strategy", VStr "exponential_backoff_with_jitter"); ("initial_delay_seconds", VInt 1); ("max_delay_seconds", VInt 30)]) d, "")
  else (d, field).

(** The limit of a request and the sessions of the providers come from the view. *)
Definition errorPayload (request_limit : Z) (max_sessions : string -> Z) (status : Z) (code protocol : string)
    (failure : option Failure) (field : string) : payload :=
  let message := if String.eqb code "unsupported_request_feature" && negb (String.eqb field "")
    then "unsupported_request_feature: " +:+ field +:+ " cannot be represented by the configured upstream protocol" else code in
  let d := [("type", VStr (error_kind status)); ("message", VStr message); ("code", VStr code)] in
  let d := addFailureDetails d failure in
  let '(d, field) := code_details request_limit max_sessions code protocol field d in
  if String.eqb protocol "anthropic" then
    {| outer := [("type", VStr "error")]; detail := if String.eqb field "" then d else set "param" (VStr field) d |}
  else {| outer := []; detail := set "param" (if String.eqb field "" then VNull else VStr field) d |}.

Definition mappedUpstreamErrorPayload (e : CallError) (protocol : string) : payload :=
  let '(_, code, message, kind) := ClientError (CallCategory e) protocol in
  let d := addFailureDetails [("type", VStr kind); ("message", VStr message); ("code", VStr code)] (CallFailure e) in
  let d := if String.eqb (CallProviderCode e) "" then d else set "provider_code" (VStr (CallProviderCode e)) d in
  let d := if String.eqb (Param e) "" then d else set "param" (VStr (Param e)) d in
  {| outer := if String.eqb protocol "anthropic" then [("type", VStr "error")] else []; detail := d |}.

Definition addProviderErrorSemantics (d : details) (e : CallError) (protocol : string) : details :=
  match Normalize <$> CallFailure e with
  | None => d
  | Some f =>
      if negb (member (Source f) ["http_error"; "stream_error"]) || String.eqb (Code e) "audit_failed_do_not_retry_blindly" then d
      else
        let '(_, _, guidance, _) := ClientError (CallCategory e) protocol in
        let d := if String.eqb (ProviderMessage f) "" then d
                 else set "message" (VStr (if String.eqb (CallCategory e) ProviderErrorFairUseThrottled
                                           then ProviderMessage f +:+ " " +:+ guidance else ProviderMessage f)) d in
        let d := if String.eqb (ProviderCode f) "" then d
                 else
                   let d := set "provider_code" (VStr (ProviderCode f)) d in
                   if negb (ConfiguredCode f) && String.eqb (Param e) "" && StandardErrorCode (ProviderCode f)
                   then set "code" (VStr (ProviderCode f)) (set "gateway_code" (default VNull (get "code" d)) d) else d in
        let d := if negb (ConfiguredCode f) && String.eqb protocol "anthropic" &&
                    ((String.eqb (ProviderType f) "overloaded_error" && String.eqb (CallCategory e) ProviderErrorTemporarilyUnavailable) ||
                     (String.eqb (ProviderType f) "request_too_large" && String.eqb (CallCategory e) ProviderErrorInvalidRequest))
                 then set "type" (VStr (ProviderType f)) d else d in
        if 0 <? ActualTokens f then set "limit_tokens" (VInt (LimitTokens f)) (set "actual_tokens" (VInt (ActualTokens f)) d) else d
  end.

Definition addRetryAdvice (d : details) (a : retryAdvice) : details :=
  let d := set "retry" (retryAdvice_value a) d in set "message" (VStr (text "message" d +:+ ". " +:+ retryMessage a)) d.

Definition addRequestID (p : payload) (id : string) : payload :=
  if String.eqb id "" then p
  else
    let d := set "request_id" (VStr id) (detail p) in
    {| outer := set "request_id" (VStr id) (outer p);
       detail := match get "retry" d with
                 | Some _ => set "message" (VStr (text "message" d +:+ " [request_id: " +:+ id +:+ "]")) d
                 | None => d
                 end |}.

(** The frame that ends a stream that failed. *)
Definition writeStreamFailure (id protocol code : string) : string :=
  let p := addRequestID {| outer := []; detail := [("type", VStr "api_error"); ("code", VStr code); ("message", VStr code)] |} id in
  let p := if String.eqb protocol "anthropic" then p <| outer := set "type" (VStr "error") (outer p) |> else p in
  "event: error" +:+ Streams.nl +:+ "data: " +:+ Marshal (payload_value p) +:+ Streams.nl +:+ Streams.nl.

(** ** Responses *)

Record response := { resp_headers : headers; resp_status : Z; resp_payload : payload }.
Definition requestIDHeader : string := "X-Tidemux-Request-Id".
Definition request_id (w : headers) : string := default "" (w !! requestIDHeader).
Definition setRequestIDHeaders (w : headers) (id : string) : headers :=
  <["X-Request-Id" := id]> (<["Request-Id" := id]> (<[requestIDHeader := id]> w)).
Definition respond (w : headers) (status : Z) (p : payload) : response :=
  {| resp_headers := <["Content-Type" := "application/json"]> w; resp_status := status; resp_payload := p |}.

Section view.
Context (request_limit : Z) (max_sessions : string -> Z).

Definition fail (w : headers) (status : Z) (code protocol field : string) : response :=
  respond w status (addRequestID (errorPayload request_limit max_sessions status code protocol None field) (request_id w)).

(** [upstreamErrorPayload]; [advice] is that of [retryAdviceFor]. *)
Definition upstreamErrorPayload (w : headers) (wrote : bool) (prepared : option retryResponse) (errorPtr : nat) (e : CallError)
    (advice : retryAdvice) (auditUnavailable : bool) (protocol : string) : headers * CallError * option retryResponse * payload :=
  let '(w, e, prepared, advice) := prepareRetryResponse w wrote prepared errorPtr e advice auditUnavailable in
  let p := if String.eqb (CallCategory e) "" then
             errorPayload request_limit max_sessions (if isAvailabilityError (Code e) then 429 else Status e) (Code e) protocol
               (CallFailure e) (Param e)
           else mappedUpstreamErrorPayload e protocol in
  let d := addProviderErrorSemantics (detail p) e protocol in
  (w, e, prepared, p <| detail := match advice with Some a => addRetryAdvice d a | None => d end |>).

Definition failure_status (e : CallError) (protocol : string) : Z :=
  let '(canonical, _, _, _) := ClientError (CallCategory e) protocol in
  let status := if (Status e <? 400) || (599 <? Status e) then canonical else Status e in
  if isAvailabilityError (Code e) then 429 else status.

Definition failUpstream (w : headers) (wrote : bool) (prepared : option retryResponse) (errorPtr : nat) (e : CallError)
    (advice : retryAdvice) (auditUnavailable : bool) (protocol : string) : response :=
  let '(w, e', _, p) := upstreamErrorPayload w wrote prepared errorPtr e advice auditUnavailable protocol in
  respond w (failure_status e protocol) (addRequestID p (request_id w)).

(** ** Rejections *)

(** What the ledger records of a rejection. *)
Record Diagnostic := {
  diag_ID : string;
  diag_TimestampMS : Z;
  diag_Protocol : string;
  diag_Method : string;
  diag_Endpoint : string;
  diag_Status : Z;
  diag_ErrorCode : string;
  diag_RoutingDecision : option RoutingDecision;
}.

Definition no_retry : RetryHeaders := {| ShouldRetry := "false"; RetryAfterSeconds := None; RetryAfterMS := None |}.

(** What happens around a rejection: the state of the audit, the advice of the
    active view, the identifier that is drawn, the clock in milliseconds, and
    whether the ledger takes the record. *)
Record circumstances := {
  audit_unavailable : bool;
  advice_now : retryAdvice;
  nonce : option string;
  timestamp : Z;
  recorded : bool;
  decision : option RoutingDecision;   (** normalised *)
}.

(** The status, the code, the advice and the headers after the state of the
    audit and the availability of the routes were looked at. *)
Record verdict := { v_headers : headers; v_status : Z; v_code : string; v_advice : option retryAdvice }.

Definition audited (c : circumstances) (w : headers) (wrote : bool) (status : Z) (code : string) : verdict :=
  let '(status, code) :=
    if audit_unavailable c && (isAvailabilityError code || member code ["auto_chain_exhausted"; "active_session_limit"])
    then (503, "audit_unavailable") else (status, code) in
  if String.eqb code "audit_unavailable"
  then {| v_headers := writeRetryHeaders w wrote (Some no_retry); v_status := status; v_code := code; v_advice := Some manualAuditAdvice |}
  else {| v_headers := w; v_status := status; v_code := code; v_advice := None |}.

Definition terminal_code (a : retryAdvice) (protocol : string) : string :=
  if String.eqb (advice_terminalCategory a) "" then "provider_restriction_cooling_down"
  else let '(_, code, _, _) := ClientError (advice_terminalCategory a) protocol in code +:+ "_cooling_down".

Definition advised (c : circumstances) (wrote : bool) (protocol : string) (v : verdict) : verdict :=
  if isAvailabilityError (v_code v) || String.eqb (v_code v) "auto_chain_exhausted" then
    let a := advice_now c in
    if isAvailabilityError (v_code v) || hasCooldown a then
      if terminalProviderBlocked a
      then {| v_headers := writeRetryHeaders (v_headers v) wrote (Some no_retry); v_status := 429; v_code := terminal_code a protocol; v_advice := None |}
      else {| v_headers := applyRetryHeader (v_headers v) wrote a; v_status := 429; v_code := v_code v; v_advice := Some a |}
    else {| v_headers := v_headers v; v_status := v_status v; v_code := v_code v; v_advice := None |}
  else v.

Definition log_method (verb : string) : string := if member verb ["GET"; "POST"] then verb else "OTHER".
Definition log_endpoint (path : string) : string :=
  if String.eqb path "/v1/messages" then "messages" else if String.eqb path "/v1/chat/completions" then "chat_completions"
  else if member path ["/v1/models"; "/models"] then "models" else "unsupported".

(** [reject]: the record that it offers to the ledger, if it comes so far, and
    the response. *)
Definition reject (c : circumstances) (w : headers) (wrote : bool) (verb path protocol : string) (status : Z) (code field : string)
    : option Diagnostic * response :=
  let v := advised c wrote protocol (audited c w wrote status code) in
  match nonce c with
  | None => (None, fail (v_headers v) 500 "request_id_failed" protocol "")
  | Some id =>
      let w := setRequestIDHeaders (v_headers v) id in
      let record := {| diag_ID := id; diag_TimestampMS := timestamp c; diag_Protocol := protocol; diag_Method := log_method verb;
                       diag_Endpoint := log_endpoint path; diag_Status := v_status v; diag_ErrorCode := v_code v;
                       diag_RoutingDecision := decision c |} in
      (Some record,
       if negb (recorded c) then fail (writeRetryHeaders w wrote (Some no_retry)) 500 "local_diagnostic_failed" protocol ""
       else
         let w := match v_advice v with
                  | Some _ => w
                  | None => if String.eqb (v_code v) "active_session_limit" then applyRetryHeader w wrote (advice_now c)
                            else writeRetryHeaders w wrote (Some no_retry)
                  end in
         let p := errorPayload request_limit max_sessions (v_status v) (v_code v) protocol None field in
         let d := match decision c with Some r => set "routing_decision" (RoutingDecision_value r) (detail p) | None => detail p end in
         let d := match v_advice v with Some a => addRetryAdvice d a | None => d end in
         respond w (v_status v) (addRequestID (p <| detail := d |>) id))
  end.
End view.
End payloads.
