(* ===== verification/PayloadFacts.v ===== *)
(** * Error payloads: properties

    The envelope of an error, what the ledger records of a rejection, and when
    a rejection invites a retry. *)

From S2P Require Import Prelude GoStrings GoFloat Diagnostics Errors Availability RetryGuidance.
From S2P Require Import Json Payload.

(** ** Maps *)

Lemma filter_set k k' (v : value) d : filter (fun kv : string * value => kv.1 = k') (set k v d) =
  if decide (k = k') then [(k, v)] else filter (fun kv => kv.1 = k') d.
Proof.
  unfold set, put. cbn [fst]. rewrite filter_app, list_filter_filter. destruct (decide (k = k')) as [->|Hk].
  - rewrite filter_cons_True by done. rewrite (list_filter_iff _ (fun _ => False)) by (intros [a b]; cbn; tauto).
    by induction d as [|kv d IH].
  - rewrite filter_cons_False by done. rewrite filter_nil, app_nil_r. apply list_filter_iff. intros [a b]. cbn. split; [tauto|].
    intros ->. split; congruence.
Qed.

Lemma get_set k k' v d : get k' (set k v d) = if decide (k = k') then Some v else get k' d.
Proof. unfold get. rewrite filter_set. by destruct (decide (k = k')). Qed.
Lemma get_set_eq k v d : get k (set k v d) = Some v.
Proof. by rewrite get_set, decide_True. Qed.
Lemma get_set_ne k k' v d : k <> k' -> get k' (set k v d) = get k' d.
Proof. intros H. by rewrite get_set, decide_False. Qed.
Lemma text_set_eq k s d : text k (set k (VStr s) d) = s.
Proof. unfold text. by rewrite get_set_eq. Qed.

(** ** The envelope *)

(** A detail says what kind of error it is, in words and by a code. *)
Definition speaks (d : details) : Prop := forall k, In k ["type"; "message"; "code"] -> exists s, get k d = Some (VStr s).
Definition enveloped (protocol : string) (p : payload) : Prop :=
  get "type" (outer p) = (if String.eqb protocol "anthropic" then Some (VStr "error") else None) /\ speaks (detail p).

Lemma speaks_text k s d : speaks d -> speaks (set k (VStr s) d).
Proof. intros H k' Hk'. rewrite get_set. case_decide; [eauto|]. by apply H. Qed.
Lemma speaks_other k v d : existsb (String.eqb k) ["type"; "message"; "code"] = false -> speaks d -> speaks (set k v d).
Proof.
  intros Hk H k' Hk'. rewrite get_set. case_decide as E; [|by apply H]. subst k'. exfalso. apply not_true_iff_false in Hk. apply Hk, existsb_exists.
  exists k. split; [done|]. apply String.eqb_refl.
Qed.
Lemma speaks_start kind message code : speaks [("type", VStr kind); ("message", VStr message); ("code", VStr code)].
Proof. intros k [<-|[<-|[<-|[]]]]; by eexists. Qed.
Lemma speaks_code d : speaks d -> exists s, get "code" d = Some (VStr s).
Proof. intros H. apply H. cbn. auto. Qed.

#[local] Hint Resolve speaks_text speaks_start : core.
Ltac speak := repeat (case_match || (apply speaks_text) || (apply speaks_other; [reflexivity|])); auto.

Lemma speaks_failure d f : speaks d -> speaks (addFailureDetails d f).
Proof. intros H. unfold addFailureDetails. speak. Qed.
Lemma speaks_codes request_limit max_sessions code protocol field d : speaks d ->
  speaks (code_details request_limit max_sessions code protocol field d).1.
Proof. intros H. unfold code_details, client_text. speak. Qed.

Lemma errorPayload_enveloped request_limit max_sessions status code protocol failure field :
  enveloped protocol (errorPayload request_limit max_sessions status code protocol failure field).
Proof.
  unfold errorPayload. cbv zeta. set (d := addFailureDetails _ _).
  assert (Hd : speaks d) by (apply speaks_failure; auto). apply (speaks_codes request_limit max_sessions code protocol field) in Hd.
  destruct (code_details _ _ _ _ _ _) as [d' field']. cbn [fst] in Hd. unfold enveloped.
  destruct (String.eqb protocol "anthropic"); cbn [outer detail]; (split; [done|]); speak.
Qed.

Lemma mapped_enveloped e protocol : enveloped protocol (mappedUpstreamErrorPayload e protocol).
Proof.
  unfold mappedUpstreamErrorPayload, ClientError, enveloped. cbn [outer detail]. split; [by destruct (String.eqb protocol "anthropic")|].
  assert (H : speaks (addFailureDetails [("type", VStr (client_kind (CallCategory e) protocol)); ("message", VStr (client_message (CallCategory e)));
    ("code", VStr (client_code (CallCategory e)))] (CallFailure e))) by (apply speaks_failure; auto). speak.
Qed.

Lemma semantics_speaks d e protocol : speaks d -> speaks (addProviderErrorSemantics d e protocol).
Proof.
  intros H. unfold addProviderErrorSemantics. destruct (Normalize <$> CallFailure e) as [f|]; [|done]. cbv zeta. unfold ClientError. speak.
Qed.

Section responses.
Context (time_text : time -> string) (request_limit : Z) (max_sessions : string -> Z).

Lemma advice_speaks d a : speaks d -> speaks (addRetryAdvice time_text d a).
Proof. intros H. unfold addRetryAdvice. speak. Qed.

Lemma addRequestID_enveloped protocol p id : enveloped protocol p -> enveloped protocol (addRequestID p id).
Proof.
  intros [Ht Hs]. unfold addRequestID, enveloped. destruct (String.eqb id ""); [done|]. cbn [outer detail]. split.
  - rewrite get_set_ne by done. exact Ht.
  - speak.
Qed.

Lemma client_status_range c : 400 <= client_status c <= 599.
Proof. unfold client_status, switch. cbn. repeat case_match; lia. Qed.

Lemma failure_status_range e protocol : 400 <= failure_status e protocol <= 599.
Proof.
  unfold failure_status, ClientError. destruct (isAvailabilityError (Code e)); [lia|]. destruct (_ || _) eqn:E; [apply client_status_range|lia].
Qed.

(** The identifier of the request, where the client looks for it. *)
Definition identified (id : string) (r : response) : Prop :=
  resp_headers r !! requestIDHeader = Some id /\ get "request_id" (outer (resp_payload r)) = Some (VStr id) /\
  get "request_id" (detail (resp_payload r)) = Some (VStr id).

Lemma addRequestID_identified p id : id <> "" -> get "request_id" (outer (addRequestID p id)) = Some (VStr id) /\
  get "request_id" (detail (addRequestID p id)) = Some (VStr id).
Proof.
  intros Hid%String.eqb_neq. unfold addRequestID. rewrite Hid. cbn [outer detail]. split; [apply get_set_eq|].
  destruct (get "retry" _); rewrite ?(get_set_ne "message" "request_id") by done; apply get_set_eq.
Qed.

Lemma respond_identified w status p id : id <> "" -> w !! requestIDHeader = Some id -> identified id (respond w status (addRequestID p id)).
Proof.
  intros Hid Hw. unfold identified, respond, headers in *. cbn [resp_headers resp_payload]. rewrite lookup_insert_ne by done. split; [done|].
  by apply addRequestID_identified.
Qed.

Lemma retry_headers_others w wrote r k : k ∉ ["X-Should-Retry"; "Retry-After"; "Retry-After-Ms"] -> writeRetryHeaders w wrote r !! k = w !! k.
Proof.
  intros Hk. unfold writeRetryHeaders, headers in *. destruct wrote; [done|]. rewrite !not_elem_of_cons in Hk. destruct Hk as (? & ? & ? & _).
  destruct (RetryHeaders_Normalize <$> r) as [n|]; [|by rewrite !lookup_delete_ne by congruence].
  destruct (String.eqb (ShouldRetry n) ""), (RetryAfterSeconds n), (RetryAfterMS n);
    by rewrite ?lookup_insert_ne, ?lookup_delete_ne by congruence.
Qed.

Lemma set_ids w id : setRequestIDHeaders w id !! requestIDHeader = Some id.
Proof. unfold setRequestIDHeaders, headers in *. by rewrite !lookup_insert_ne, lookup_insert_eq by done. Qed.

(** ** Retry headers *)

Definition should_retry (w : headers) : option string := w !! "X-Should-Retry".

Lemma refuses_retry w : should_retry (writeRetryHeaders w false (Some no_retry)) = Some "false".
Proof. unfold should_retry, writeRetryHeaders, headers in *. cbn -[lookup insert delete]. by rewrite lookup_insert_eq. Qed.

Lemma invites_retry w a : should_retry (applyRetryHeader w false a) = Some "true".
Proof.
  unfold should_retry, applyRetryHeader, writeRetryHeaders, headers in *. set (n := after_headers "true" (Some a)).
  assert (Hn : ShouldRetry (RetryHeaders_Normalize n) = "true") by (unfold n, after_headers; by repeat case_match).
  cbn -[RetryHeaders_Normalize lookup insert delete]. rewrite Hn. cbn -[RetryHeaders_Normalize lookup insert delete].
  destruct (RetryAfterSeconds _), (RetryAfterMS _); rewrite ?(lookup_insert_ne _ "Retry-After-Ms"), ?(lookup_insert_ne _ "Retry-After") by done;
    apply lookup_insert_eq.
Qed.

Lemma should_retry_ids w id : should_retry (setRequestIDHeaders w id) = should_retry w.
Proof. unfold should_retry, setRequestIDHeaders, headers in *. by rewrite !lookup_insert_ne by done. Qed.

Lemma should_retry_respond w status p : should_retry (resp_headers (respond w status p)) = should_retry w.
Proof. unfold should_retry, respond, headers in *. cbn [resp_headers]. by rewrite lookup_insert_ne by done. Qed.

Lemma should_retry_fail w status code protocol field :
  should_retry (resp_headers (fail request_limit max_sessions w status code protocol field)) = should_retry w.
Proof. apply should_retry_respond. Qed.

(** ** Codes *)

Lemma get_code_details code protocol field d k : k ∉ ["message"; "limit_bytes"; "type"; "provider_ref"; "limit"; "scope"; "retry"] ->
  get k (code_details request_limit max_sessions code protocol field d).1 = get k d.
Proof.
  rewrite !not_elem_of_cons. intros H. unfold code_details. destruct H as (? & ? & ? & ? & ? & ? & ? & _).
  repeat case_match; cbn [fst]; rewrite ?get_set_ne by congruence; done.
Qed.

Lemma errorPayload_code status code protocol failure field :
  get "code" (detail (errorPayload request_limit max_sessions status code protocol failure field)) = Some (VStr code).
Proof.
  unfold errorPayload. cbv zeta. set (d := addFailureDetails _ _).
  assert (Hd : get "code" d = Some (VStr code)).
  { unfold d, addFailureDetails. destruct (Normalize <$> failure); [by rewrite get_set_ne|done]. }
  rewrite <-(get_code_details code protocol field d "code") in Hd by (rewrite !not_elem_of_cons; split_and!; done || apply not_elem_of_nil).
  destruct (code_details _ _ _ _ _ _) as [d' field']. cbn [fst] in Hd.
  destruct (String.eqb protocol "anthropic"); cbn [detail]; [destruct (String.eqb field' ""); [done|]|]; by rewrite get_set_ne.
Qed.

Lemma get_request_id p id k : k <> "request_id" -> k <> "message" -> get k (detail (addRequestID p id)) = get k (detail p).
Proof.
  intros H1 H2. unfold addRequestID. destruct (String.eqb id ""); [done|]. cbn [detail].
  destruct (get "retry" _); rewrite ?get_set_ne by congruence; done.
Qed.

Lemma terminal_code_session a protocol : String.eqb (terminal_code a protocol) "active_session_limit" = false.
Proof.
  unfold terminal_code, ClientError. destruct (String.eqb _ ""); [done|]. cbn [fst snd]. unfold client_code, switch.
  cbn -[String.eqb]. repeat case_match; done.
Qed.

(** ** Rejections *)

Definition rejection := reject time_text request_limit max_sessions.

Lemma respond_enveloped protocol w status p : enveloped protocol p -> enveloped protocol (resp_payload (respond w status p)).
Proof. done. Qed.

Lemma fail_enveloped w status code protocol field : enveloped protocol (resp_payload (fail request_limit max_sessions w status code protocol field)).
Proof. apply respond_enveloped, addRequestID_enveloped, errorPayload_enveloped. Qed.

(** The payload of a recorded rejection. *)
Lemma rejection_payload protocol status code field (a : option retryAdvice) (dec : option RoutingDecision) :
  let p := errorPayload request_limit max_sessions status code protocol None field in
  let d := match dec with Some r => set "routing_decision" (RoutingDecision_value r) (detail p) | None => detail p end in
  let d := match a with Some a => addRetryAdvice time_text d a | None => d end in
  enveloped protocol (p <| detail := d |>) /\ get "code" d = Some (VStr code) /\
  (forall a', a = Some a' -> get "retry" d = Some (retryAdvice_value time_text a')).
Proof.
  cbv zeta. destruct (errorPayload_enveloped request_limit max_sessions status code protocol None field) as [Ho Hs].
  pose proof (errorPayload_code status code protocol None field) as Hc. set (p := errorPayload _ _ _ _ _ _ _) in *.
  set (d := match dec with Some _ => _ | None => _ end).
  assert (Hd : speaks d) by (unfold d; destruct dec; [by apply speaks_other|done]).
  assert (Hdc : get "code" d = Some (VStr code)) by (unfold d; destruct dec; [by rewrite get_set_ne|done]).
  destruct a as [a|].
  - unfold enveloped. cbn [update]. split; [split; [exact Ho|by apply advice_speaks]|]. unfold addRetryAdvice. split.
    + by rewrite !get_set_ne by done.
    + intros a' [= <-]. by rewrite get_set_ne, get_set_eq by done.
  - split; [by split|]. by split.
Qed.

(** Every rejection is answered in the envelope of the client's protocol and
    accounted for: the ledger is offered one record with the identifier that
    the client receives, in the header and in the payload, and with the status
    and the code of the response; when it does not take the record, the client
    is told so instead, and nothing is offered without an identifier. *)
Theorem rejections_accounted c w wrote verb path protocol status code field :
  let '(record, r) := rejection c w wrote verb path protocol status code field in
  enveloped protocol (resp_payload r) /\
  match nonce c with
  | None => record = None /\ resp_status r = 500
  | Some id => (id <> "" -> identified id r) /\ exists d, record = Some d /\ diag_ID d = id /\ diag_Protocol d = protocol /\
      if recorded c then diag_Status d = resp_status r /\ get "code" (detail (resp_payload r)) = Some (VStr (diag_ErrorCode d))
      else resp_status r = 500 /\ get "code" (detail (resp_payload r)) = Some (VStr "local_diagnostic_failed")
  end.
Proof.
  unfold rejection, reject. set (v := advised _ _ _ _). destruct (nonce c) as [id|].
  2: { split; [apply fail_enveloped|done]. }
  destruct (recorded c); cbn [negb].
  - destruct (rejection_payload protocol (v_status v) (v_code v) field (v_advice v) (decision c)) as (He & Hc & _).
    set (p := _ <| detail := _ |>) in *. split; [by apply respond_enveloped, addRequestID_enveloped|]. split.
    + intros Hid. apply respond_identified; [done|]. destruct (v_advice v); [apply set_ids|].
      destruct (String.eqb _ _); unfold applyRetryHeader; rewrite retry_headers_others;
        [apply set_ids|rewrite !not_elem_of_cons; split_and!; done || apply not_elem_of_nil|apply set_ids|rewrite !not_elem_of_cons; split_and!; done || apply not_elem_of_nil].
    + eexists. split; [reflexivity|]. split_and!; try done. cbn [respond resp_payload]. rewrite get_request_id by done. exact Hc.
  - set (w' := writeRetryHeaders _ _ _).
    assert (Hw : w' !! requestIDHeader = Some id).
    { unfold w'. rewrite retry_headers_others; [apply set_ids|]. rewrite !not_elem_of_cons. split_and!; done || apply not_elem_of_nil. }
    split; [apply fail_enveloped|]. unfold fail, request_id. rewrite Hw. split.
    + intros Hid. by apply respond_identified.
    + eexists. split; [reflexivity|]. split_and!; try done. cbn [respond resp_payload]. rewrite get_request_id by done. apply errorPayload_code.
Qed.

(** A new request can help: the sessions of the provider are full, or routes
    are paused for a while that ends. *)
Definition paused (c : circumstances) (code : string) : bool :=
  (isAvailabilityError code || (String.eqb code "auto_chain_exhausted" && hasCooldown (advice_now c))) &&
  negb (terminalProviderBlocked (advice_now c)).
Definition invited (c : circumstances) (code : string) : bool :=
  recorded c && negb (audit_unavailable c) && (String.eqb code "active_session_limit" || paused c code).

Definition verdict_of (c : circumstances) (w : headers) (protocol : string) (status : Z) (code : string) : verdict :=
  advised c false protocol (audited c w false status code).

(** The headers of a verdict, as the rejection completes them. *)
Definition verdict_retry (c : circumstances) (v : verdict) : option string :=
  match v_advice v with
  | Some _ => should_retry (v_headers v)
  | None => if String.eqb (v_code v) "active_session_limit" then Some "true" else Some "false"
  end.

Lemma verdict_spec c w protocol status code : let v := verdict_of c w protocol status code in
  verdict_retry c v = Some (if negb (audit_unavailable c) && (String.eqb code "active_session_limit" || paused c code) then "true" else "false") /\
  (negb (audit_unavailable c) && paused c code = true -> v_status v = 429 /\ v_code v = code /\ v_advice v = Some (advice_now c)).
Proof.
  cbv zeta. unfold verdict_of, audited, paused.
  destruct (isAvailabilityError code || member code ["auto_chain_exhausted"; "active_session_limit"]) eqn:Hp.
  - destruct (audit_unavailable c); cbn [andb negb].
    + split; [|done]. unfold advised. cbn [v_code]. change (isAvailabilityError "audit_unavailable") with false. cbn. apply refuses_retry.
    + destruct (String.eqb_spec code "audit_unavailable") as [->|_]; [by vm_compute in Hp|]. unfold advised. cbn [v_code v_headers v_status v_advice].
      destruct (isAvailabilityError code) eqn:Ha; cbn [orb andb].
      * assert (Hs : String.eqb code "active_session_limit" = false) by (destruct (String.eqb_spec code "active_session_limit") as [->|]; [by vm_compute in Ha|done]).
        rewrite Hs. cbn [orb]. destruct (terminalProviderBlocked (advice_now c)) eqn:Ht; cbn [negb].
        -- split; [|done]. unfold verdict_retry. cbn [v_advice v_code]. by rewrite terminal_code_session.
        -- split; [|done]. apply invites_retry.
      * cbn [orb member existsb] in Hp. destruct (String.eqb_spec code "auto_chain_exhausted") as [->|Hc]; cbn [andb orb].
        -- change (String.eqb "auto_chain_exhausted" "active_session_limit") with false. cbn [orb].
           destruct (hasCooldown (advice_now c)) eqn:Hh; cbn [andb]; [|by split].
           destruct (terminalProviderBlocked (advice_now c)) eqn:Ht; cbn [negb].
           ++ split; [|done]. unfold verdict_retry. cbn [v_advice v_code]. by rewrite terminal_code_session.
           ++ split; [|done]. apply invites_retry.
        -- rewrite orb_false_r in *. unfold verdict_retry. cbn [v_advice v_code]. split; [by destruct (String.eqb code "active_session_limit")|done].
  - apply orb_false_iff in Hp as [Ha Hm]. cbn in Hm. rewrite !orb_false_iff in Hm. destruct Hm as (Hc & Hs & _).
    rewrite Ha, andb_false_r. cbn [orb]. rewrite Hc, Hs. cbn [andb orb]. rewrite andb_false_r. split; [|done].
    destruct (String.eqb_spec code "audit_unavailable") as [->|He].
    + unfold advised. cbn [v_code]. change (isAvailabilityError "audit_unavailable") with false. cbn. apply refuses_retry.
    + unfold advised. cbn [v_code]. rewrite Ha, Hc. cbn [orb]. unfold verdict_retry. cbn [v_advice v_code]. by rewrite Hs.
Qed.

(** A rejection invites a retry exactly when one can help.  As long as no
    header was sent, it says true if the audit works, the rejection was
    recorded, and either the sessions of the provider are full or its routes
    are paused without a restriction that only the operator can lift; else it
    says false.  A paused request is answered with 429 and carries the advice
    that was computed for it. *)
Theorem rejections_invite c w verb path protocol status code field id : nonce c = Some id ->
  let r := (rejection c w false verb path protocol status code field).2 in
  should_retry (resp_headers r) = Some (if invited c code then "true" else "false") /\
  (recorded c && negb (audit_unavailable c) && paused c code = true ->
     resp_status r = 429 /\ get "code" (detail (resp_payload r)) = Some (VStr code) /\
     get "retry" (detail (resp_payload r)) = Some (retryAdvice_value time_text (advice_now c))).
Proof.
  intros Hn. cbv zeta. unfold rejection, reject, invited. rewrite Hn. destruct (verdict_spec c w protocol status code) as [Hr Hp].
  unfold verdict_of in Hr, Hp. set (v := advised _ _ _ _) in *. cbn [snd]. destruct (recorded c); cbn [andb negb].
  - rewrite should_retry_respond. split.
    + rewrite <-Hr. unfold verdict_retry. destruct (v_advice v); [apply should_retry_ids|].
      destruct (String.eqb (v_code v) "active_session_limit"); [apply invites_retry|apply refuses_retry].
    + intros Hq. destruct (Hp Hq) as (Hs & Hc & Ha). rewrite Hs, Hc, Ha. cbn [respond resp_status resp_payload].
      destruct (rejection_payload protocol 429 code field (Some (advice_now c)) (decision c)) as (_ & H1 & H2).
      rewrite !get_request_id by done. split_and!; [done|exact H1|by apply H2].
  - rewrite should_retry_fail. split; [apply refuses_retry|done].
Qed.

(** Every failure of a call upstream is answered with an error status, in
    the envelope of the client's protocol, with the identifier that the
    response carries. *)
Theorem failures_enveloped w wrote prepared errorPtr e advice auditUnavailable protocol :
  let r := failUpstream time_text request_limit max_sessions w wrote prepared errorPtr e advice auditUnavailable protocol in
  400 <= resp_status r <= 599 /\ enveloped protocol (resp_payload r) /\
  (isAvailabilityError (Code e) = true -> resp_status r = 429) /\
  (forall id, w !! requestIDHeader = Some id -> id <> "" -> identified id r).
Proof.
  cbv zeta. unfold failUpstream, upstreamErrorPayload.
  assert (Hw : (prepareRetryResponse w wrote prepared errorPtr e advice auditUnavailable).1.1.1 !! requestIDHeader = w !! requestIDHeader).
  { unfold prepareRetryResponse. destruct (final_advice _ _ _) as [a signal].
    assert (Hk : requestIDHeader ∉ ["X-Should-Retry"; "Retry-After"; "Retry-After-Ms"]) by (rewrite !not_elem_of_cons; split_and!; done || apply not_elem_of_nil).
    destruct prepared; [case_bool_decide|]; cbn [fst]; by apply retry_headers_others. }
  destruct (prepareRetryResponse _ _ _ _ _ _ _) as [[[w' e'] prepared'] a]. cbn [fst] in Hw.
  set (p := if String.eqb (CallCategory e') "" then _ else _).
  assert (Hp : enveloped protocol p) by (unfold p; destruct (String.eqb _ _); [apply errorPayload_enveloped|apply mapped_enveloped]).
  set (d := match a with Some _ => _ | None => _ end).
  assert (Hd : speaks d).
  { destruct Hp as [_ Hp]. apply (semantics_speaks _ e' protocol) in Hp. unfold d. destruct a; [by apply advice_speaks|exact Hp]. }
  assert (He : enveloped protocol (p <| detail := d |>)) by (split; [apply Hp|exact Hd]).
  cbn [respond resp_status resp_payload]. split; [apply failure_status_range|]. split; [by apply addRequestID_enveloped|]. split.
  - intros Ha. unfold failure_status, ClientError. by rewrite Ha.
  - intros id Hid Hne. unfold request_id. rewrite Hw, Hid. apply respond_identified; [done|]. by rewrite Hw.
Qed.
End responses.

(** * The front end of a request and its errors: runs *)

From S2P Require Import Prelude GoStrings GoFloat Json Diagnostics Errors Routes View Catalog Routing RoutingOrder RoutingResolve ConfigFacts Frontend FrontFacts.
From S2P Require Upstream Streams StreamDemo Config.

Definition demo_header (headers : list (string * string)) (name : string) : string :=
  default "" (snd <$> head (filter (fun kv => kv.1 = name) headers)).
Definition demo_request (verb path : string) (headers : list (string * string)) (body : string) : http_request :=
  {| Method := verb; Path := path; Header := demo_header headers; HeaderValues := fun _ => []; incoming := body; read_failed := false |}.
Definition token : string * string := ("Authorization", "Bearer t").
Definition demo_surroundings : surroundings :=
  {| call_admitted := true; shut_down := false; random_id := fun n => nth_error ["r0"; "r1"] n; context_ended := false; now := demo_now |}.


Definition demo_front_limit (limit : Z) (r : http_request) : answer :=
  (front (fun s => s) Strings.ToLowerASCII (fun _ => None) (fun s => s) (fun _ => true) (fun _ => "") (fun _ => 0) demo_handler ∅ ∅
     (fun name => "account of " +:+ name) limit false (demo_runtime 0) demo_surroundings r).2.

Definition demo_front := demo_front_limit 80.
Definition chat_body : string := StreamDemo.quoted "{'model':'cheap/chat','messages':[{'role':'user','content':'hi'}]}".

(** The request as it goes to its route, or its refusal. *)
Definition outcome (a : answer) : string * list (string * string) :=
  match a with
  | Reject _ code _ => (code, [])
  | Page _ => ("page", [])
  | Models _ => ("models", [])
  | Admit a => (Upstream.SessionID (adm_options a), (fun r => (route_provider r, route_model r)) <$> adm_routes a)
  end.
Definition post (headers : list (string * string)) (body : string) : string * list (string * string) :=
  outcome (demo_front (demo_request "POST" "/v1/chat/completions" headers body)).

Example no_token : post [] chat_body = ("invalid_api_key", []).
Proof. by vm_compute. Qed.
Example too_long : outcome (demo_front_limit 64 (demo_request "POST" "/v1/chat/completions" [token] chat_body)) = ("request_too_large", []).
Proof. by vm_compute. Qed.
Example wrong_method : outcome (demo_front (demo_request "GET" "/v1/chat/completions" [token] "")) = ("unsupported_endpoint", []).
Proof. by vm_compute. Qed.
Definition asks (model : string) : string :=
  StreamDemo.quoted ("{'model':'" +:+ model +:+ "','messages':[{'role':'user','content':'hi'}]}").
Example bad_json : post [token] "{" = ("invalid_request", []).
Proof. by vm_compute. Qed.
Example by_qualified_name : post [token] (asks "cheap/chat") = ("", [("cheap", "chat")]).
Proof. by vm_compute. Qed.
Example by_price : post [token] (asks "chat") = ("", [("cheap", "chat")]).
Proof. by vm_compute. Qed.

(** The chain needs a session: that of the request, or a fresh one. *)
Example by_chain : post [token] (asks "auto") = ("r0", [("cheap", "chat")]).
Proof. by vm_compute. Qed.
Example chain_session : post [token; ("X-TideMux-Session-ID", " s ")] (asks "auto") = ("s", [("cheap", "chat")]).
Proof. by vm_compute. Qed.
Example unknown_provider : post [token] (asks "x/y") = ("provider_not_found", []).
Proof. by vm_compute. Qed.

(** A configured model with a line break inside is accepted and listed, but it
    is neither found under its listed identifier nor can it be called. *)
Definition broken_name : string := "a" +:+ Streams.nl +:+ "b".
Definition broken_handler : handler :=
  {| Routing := None; AutoChain := []; AccessToken := "t";
     providers := {["p" :=
       {| BaseURL := "https://example.org"; SupportedModels := [broken_name]; ModelAliases := ∅; ProviderSwitchThreshold := None;
          ModelSwitchThresholds := ∅; Prices := ∅; MaxActiveSessions := 0; ProviderBudget := None |}]}; clients := {["p" := demo_client]};
     unavailableProviders := ∅; discovered := ∅; modelsKnown := ∅; providerGenerations := {["p" := 1]}; routingEpoch := 1;
     reusedConnections := ∅; HealthDiagnostics := true; ActiveSessionIdleTimeoutSeconds := 60 |}.
Lemma line_break_listed : Config.validate_models "p" [] [broken_name] = None /\
  allQualifiedModels broken_handler = [qualifiedModelID "p" broken_name] /\
  detail_answer broken_handler ∅ ∅ (fun _ => "") "openai" ("/v1/models/" +:+ qualifiedModelID "p" broken_name) =
    Reject 404 "model_not_found" "" /\
  (resolveRoutes (fun s => s) (fun s => s) (fun _ => None) (fun s => s) (fun _ => false) (fun _ _ _ _ _ => true) (fun _ => 0)
     broken_handler demo_now (demo_runtime 0) (qualifiedModelID "p" broken_name) "openai" "{}" None).2 =
    Routing.reject "model_not_found" 404.
Proof. by vm_compute. Qed.

(** ** Witness *)

Definition detail_request : http_request := demo_request "GET" "/v1/models/cheap/chat" [token] "".

Lemma demo_readable : readable_models demo_handler.
Proof.
  assert (Hparts : forall name, name = "cheap" \/ name = "other" -> qualified_parts name "chat").
  { intros name Hn. refine (proj2 (proj1 (qualified_id_roundtrip (qualifiedModelID name "chat") name "chat") _)).
    destruct Hn as [-> | ->]; by vm_compute. }
  intros name model [p Hp] Hm. assert (Hn : name = "cheap" \/ name = "other").
  { cbn [providers demo_handler] in Hp. apply lookup_insert_Some in Hp as [[<- _]|[_ Hp]]; [by left|]. apply lookup_singleton_Some in Hp as [<- _]. by right. }
  assert (Hc : model = "chat"); [|subst; by apply Hparts].
  destruct Hn as [-> | ->]; vm_compute in Hm; by apply list_elem_of_singleton in Hm.
Qed.

Lemma discovery_agrees_witness : demo_front detail_request =
  Models (listed_object demo_handler ∅ ∅ (fun name => "account of " +:+ name) "openai" "cheap/chat").
Proof.
  refine (f_equal snd (proj2 (proj1 (proj2 (discovery_agrees (fun s => s) Strings.ToLowerASCII (fun _ => None) (fun s => s) (fun _ => true)
    (fun _ => "") (fun _ => 0) demo_handler ∅ ∅ (fun name => "account of " +:+ name) 80 false (demo_runtime 0) demo_surroundings
    detail_request demo_readable _ _)) "/v1/models/" "cheap/chat" (or_introl eq_refl) eq_refl) _)).
  all: try (vm_compute; reflexivity).
  apply (bool_decide_unpack _). vm_compute. reflexivity.
Defined.

(** * Rejections *)

From S2P Require Import Prelude GoStrings GoFloat Diagnostics Errors Availability RetryGuidance.
From S2P Require Import Json Payload.
From S2P Require StreamDemo.

Definition demo_advice : retryAdvice := default_advice <| AfterSeconds := Some 5 |> <| hasCooldown := true |>.
Definition demo_circumstances (recorded : bool) : circumstances :=
  {| audit_unavailable := false; advice_now := demo_advice; nonce := Some "id"; timestamp := 1; recorded := recorded; decision := None |}.
Definition demo_reject (ok : bool) (protocol : string) (status : Z) (code field : string) : option Diagnostic * response :=
  rejection (fun _ => "") 1024 (fun _ => 2) (demo_circumstances ok) ∅ false "POST" "/v1/messages" protocol status code field.
Definition shown (r : option Diagnostic * response) : Z * string * list (string * string) :=
  (resp_status r.2, Marshal (payload_value (resp_payload r.2)), map_to_list (resp_headers r.2)).

Example too_large_messages : (shown (demo_reject true "anthropic" 413 "request_too_large" "")).1 =
  (413, StreamDemo.quoted "{'error':{'code':'request_too_large','limit_bytes':1024,'message':'request_too_large: body exceeds gateway limit of 1024 bytes; configure limits.request_bytes to change it','request_id':'id','type':'request_too_large'},'request_id':'id','type':'error'}").
Proof. by vm_compute. Qed.
Example unauthorized_chat : (shown (demo_reject true "openai" 401 "invalid_api_key" "")).1 =
  (401, StreamDemo.quoted "{'error':{'code':'invalid_api_key','message':'invalid_api_key','param':null,'request_id':'id','type':'authentication_error'},'request_id':'id'}").
Proof. by vm_compute. Qed.
Example exhausted_retries : let r := (demo_reject true "openai" 503 "auto_chain_exhausted" "model").2 in
  resp_status r = 429 /\ resp_headers r !! "Retry-After" = Some "5" /\ should_retry (resp_headers r) = Some "true".
Proof. by vm_compute. Qed.
Example unrecorded : let r := (demo_reject false "openai" 503 "auto_chain_exhausted" "model").2 in
  resp_status r = 500 /\ should_retry (resp_headers r) = Some "false".
Proof. by vm_compute. Qed.

Lemma rejections_invite_witness : let r := (demo_reject true "openai" 503 "auto_chain_exhausted" "model").2 in
  should_retry (resp_headers r) = Some "true" /\ resp_status r = 429.
Proof.
  pose proof (rejections_invite (fun _ => "") 1024 (fun _ => 2) (demo_circumstances true) ∅ "POST" "/v1/messages" "openai" 503
    "auto_chain_exhausted" "model" "id" eq_refl) as H. cbv zeta in H. destruct H as [H1 H2]. split; [exact H1|].
  exact (proj1 (H2 eq_refl)).
Defined.
