(* ===== verification/Dispatch.v ===== *)
(** * A request, from admission to settlement

    The composition of the components: [callWithKeyCandidates] of
    internal/adapter/client.go, [callRouteCandidate] of
    internal/gateway/provider_dispatch.go, [callRouteWithRecovery] of
    route_recovery.go and the part of [ServeHTTP] (gateway.go) that runs a
    resolved request.  Each is a program (Interaction.v) whose actions are the
    critical sections of the other components, the ledger, the queue and the
    upstream; whatever other requests do in between shows in the answers.

    Local variables that closures share ([healthCompleted], the recovery claim
    of the request, the observations of its keys, the leases of its sessions)
    are the fields of [local].  Functions deferred in the code run here, in
    their order, after the body that they follow; panics are not modelled. *)

From S2P Require Import Prelude GoStrings GoFloat Diagnostics Errors Availability KeyPool Routes.
From S2P Require Pricing Budget AutoChain Routing RetryGuidance ProviderSessions.
From S2P Require Import View Upstream Interaction.

Import ProviderSessions.Providers (lease_ptr, Lease).
Local Open Scope proc_scope.

(** ** Actions *)

(** [r.Context()] after its end: cancelled by the client, by the shutdown of
    the gateway, or past its deadline. *)
Inductive ctx_end := CtxCanceled | CtxShutdown | CtxDeadline.

(** Before [client.Do]: the request cannot be built, the context is over, or
    the attempt starts. *)
Inductive build := BuildFailed | ContextOver | Built.

(** [ledger.Audit], without the token counts and the fields fixed by the route. *)
Record audit := {
  audit_id : string;
  audit_status : string;
  audit_error : string;
  audit_cost : option SpecFloat.spec_float;
  audit_key : string;
  audit_events : list string;
  audit_queue_ms : Z;
  audit_failure : option Failure;
}.

#[export] Instance audit_eta : Eta audit := fun a =>
  {| audit_id := audit_id a; audit_status := audit_status a; audit_error := audit_error a; audit_cost := audit_cost a;
     audit_key := audit_key a; audit_events := audit_events a; audit_queue_ms := audit_queue_ms a;
     audit_failure := audit_failure a |}.

Abbreviation pool_ptr := nat (only parsing).

Inductive action :=
  (* the request's context, the clock, fresh identifiers *)
  | ContextErr | RequestDeadline | Now | RandomID
  (* upstream health *)
  | HealthBegin (provider model : string)
  | HealthDispatch (l : nat)
  | HealthComplete (l : nat) (handled : bool) (err : option CallError) (ctxErr : bool)
  (* key pools *)
  | RateBegin (k : pool_ptr)
  | RateFinish (k : pool_ptr) (lease : option rateRecoveryLease)
  | PoolCandidates (k : pool_ptr)
  | CandidateState (k : pool_ptr) (i : nat)
  | SucceededCurrent (provider : string) (key : option (pool_ptr * nat * rateLimitObservation))
  | HoldProvider (k : pool_ptr) (until : time)
  | FailedCurrent (provider : string) (k : pool_ptr) (i : nat) (e : CallError) (serverUntil : time)
  | AttemptBegin (k : pool_ptr) (i : nat) (first : bool) (last : Z) (reason : string)
  | AttemptEnd (k : pool_ptr) (i : nat) (c : counters_ptr) (result : HTTPAttemptResult)
  (* automatic chain *)
  | ChainFailed (i : nat) (err : option CallError) (ctxErr delivered : bool)
  | ChainRestore (provider : string)
  (* sessions *)
  | SessionAcquire (held : gmap string lease_ptr) (ref : string) (limit : Z)
  | SessionRelease (held : gmap string lease_ptr) (ref : string)
  | SessionEnd (held : gmap string lease_ptr) (retain : bool)
  | SessionTouch (held : gmap string lease_ptr)
  (* budgets and the audit log *)
  | BudgetBlocked (provider currency : string)
  | BudgetBlock (provider currency : string)
  | BudgetCheck (id provider : string) (p : Budget.BudgetPolicy) (confirmed : bool)
  | BudgetRelease (id : string)
  | BudgetCharge (id auditID provider currency : string)
  | BudgetChargeCost (id auditID provider currency : string) (cost : SpecFloat.spec_float)
  | AuditUnavailable
  | AuditAppend (a : audit)
  (* the queue, the upstream, the prompt cache *)
  | GateAcquire | GateRelease
  | BuildRequest
  | Upstream (i : nat) (key : string)
  | LocalEstimate | Remember
  (* routing and the response *)
  | PrepareFailure (e : CallError)
  | Resolve (model : string) (key : option sharedModelSessionKey)
  | RetainQueued (r : routeStep)
  | Reject (retryAfter : option string) (status : Z) (code param : string)
  | Respond (id : string) (err : option CallError).

Definition answer (a : action) : Type :=
  match a with
  | ContextErr => option ctx_end
  | RequestDeadline => bool
  | Now => time
  | RandomID => option string
  | HealthBegin _ _ => nat * option CallError
  | HealthDispatch _ => option CallError
  | HealthComplete _ _ _ _ => bool
  | RateBegin _ => option rateRecoveryLease * option CallError
  | PoolCandidates _ => list providerKeyCandidate * duration
  | CandidateState _ _ => bool * duration * rateLimitObservation
  | SucceededCurrent _ _ => bool * bool        (** current, and stale for the pool *)
  | HoldProvider _ _ => time
  | FailedCurrent _ _ _ _ _ => option (time * (duration * duration * Z)) (** none: no longer current *)
  | AttemptBegin _ _ _ _ _ => option counters_ptr
  | SessionAcquire _ _ _ => gmap string lease_ptr * option Limiter.Sessions.session_error
  | SessionRelease _ _ => gmap string lease_ptr
  | BudgetBlocked _ _ => bool
  | BudgetCheck _ _ _ _ => string + Budget.BudgetDecision
  | BudgetRelease _ | BudgetCharge _ _ _ _ | BudgetChargeCost _ _ _ _ _ => option string
  | AuditUnavailable => bool
  | AuditAppend _ => bool                      (** stored *)
  | GateAcquire => bool * bool * Z             (** acquired, queued, milliseconds waited *)
  | BuildRequest => build
  | Upstream _ _ => attempt
  | LocalEstimate => option SpecFloat.spec_float
  | PrepareFailure _ => RetryHeaders
  | Resolve _ _ => Routing.resolution
  | RetainQueued _ => bool
  | Respond _ _ => bool                        (** delivered completely *)
  | RateFinish _ _ | AttemptEnd _ _ _ _ | ChainFailed _ _ _ _ | ChainRestore _ | SessionEnd _ _ | SessionTouch _ | BudgetBlock _ _
  | GateRelease | Remember | Reject _ _ _ _ => unit
  end.

(** ** Local variables *)

Record local := {
  rate_claim : option rateRecoveryLease;            (** [rateRecoveryClaim.lease] *)
  observed : gmap nat rateLimitObservation;         (** [observations], by candidate *)
  health_done : bool;                               (** [healthCompleted] *)
  held : gmap string lease_ptr;                     (** [requestSessionAdmission.providers] *)
  delivered : bool;
  tried : list nat;                                 (** [seen] *)
  last_key : Z;
  last_reason : string;
}.

#[export] Instance local_eta : Eta local := fun l =>
  {| rate_claim := rate_claim l; observed := observed l; health_done := health_done l; held := held l;
     delivered := delivered l; tried := tried l; last_key := last_key l; last_reason := last_reason l |}.

Definition start_local : local :=
  {| rate_claim := None; observed := ∅; health_done := false; held := ∅; delivered := false; tried := []; last_key := -1;
     last_reason := "upstream_error" |}.

Abbreviation Proc A := (proc answer local A).
Abbreviation perform := (@do action answer local).

(** ** The failure of a key *)

(** [setCooldownFailure]. *)
Definition setCooldownFailure (e : CallError) (now : time) : CallError :=
  e <| CallFailure := (fun f =>
         (Normalize f) <| CooldownScope := if AllKeysCooling e then "provider" else "key" |>
           <| CooldownSeconds := retryDeadlineSeconds (CooldownUntil e) now |>
           <| CooldownUntilMS := Time.unix_milli (CooldownUntil e) |>
           <| ProviderRateLimitStreak := RateLimitFailures e |>) <$> CallFailure e |>.

(** The provider as a whole waits until [until]. *)
Definition cool_provider (e : CallError) (until : time) (delay : duration) : CallError :=
  e <| AllKeysCooling := true |> <| CooldownUntil := until |> <| Cooldown := delay |>.

(** What the pool decides about a failed key: the delay of the key, the delay
    of the provider and the streak of limits, all zero without a rate limit. *)
Abbreviation key_decision := (duration * duration * Z)%type (only parsing).

(** The closure given to [withCurrent], what it does to the pool. *)
Definition failed_pool (jitter : duration -> duration) (p : providerKeyPool) (i : nat) (e : CallError)
    (serverUntil now : time) : providerKeyPool * key_decision :=
  if String.eqb (CallCategory e) ProviderErrorRateLimited then
    let upstreamDelay := if RetryProvided e then Z.max (Time.sub (CooldownUntil e) now) 0 else Cooldown e in
    rateLimitedAt jitter p (Z.of_nat i) upstreamDelay (RetryProvided e) now
  else if negb (Time.is_zero serverUntil) then (p, (0, 0, 0))
  else if negb (String.eqb (CallCategory e) ProviderErrorAuthentication) && negb (UpstreamStatus e =? 401) then (p, (0, 0, 0))
  else (CooldownAt p (Z.of_nat i) (Cooldown e) now (Some (SafeFailureClass (Some (ECall e)))), (0, 0, 0)).

(** ... and to the error. *)
Definition failed_error (e : CallError) (serverUntil now : time) (d : key_decision) : CallError :=
  let '(delay, providerDelay, streak) := d in
  if String.eqb (CallCategory e) ProviderErrorRateLimited then
    let e := e <| Cooldown := delay |> <| RateLimitFailures := streak |> in
    let e := if 0 <? providerDelay then e <| AllKeysCooling := true |> <| Cooldown := providerDelay |> else e in
    let e := e <| CooldownUntil := Time.add now (Cooldown e) |> in
    let e := if Time.after serverUntil now then
               let until := Time.add now providerDelay in
               let until := if Time.after serverUntil until then serverUntil else until in
               cool_provider e until (Time.sub until now)
             else e in
    setCooldownFailure e now
  else if negb (Time.is_zero serverUntil)
  then setCooldownFailure (cool_provider e serverUntil (Time.sub serverUntil now)) now
  else e.

(** [setRetryAfterHeader] before the response started. *)
Definition retry_after_header (e : CallError) : option string :=
  if RetryProvided e then Some "2"
  else if String.eqb (CallCategory e) ProviderErrorRateLimited then None
  else if 0 <? RetryAfterSecs e then Some (RetryGuidance.itoa (Z.min (RetryAfterSecs e) 30))
  else if 0 <? Cooldown e then Some (RetryGuidance.itoa (Z.min (RetryGuidance.retryDelaySeconds (Cooldown e)) 30))
  else None.
