(* ===== verification/ClientCall.v ===== *)
(** * The call of a provider: [callWithKeyCandidates] of internal/adapter/client.go

    One ready key is chosen after the queue, at most one attempt is made with
    it, and its outcome is given to the callbacks before the queue's slot is
    freed and the audit row is written.  The callbacks are procedures; the
    gateway's are in RouteCall.v. *)

From S2P Require Import Prelude GoStrings GoFloat Diagnostics Errors Availability KeyPool Routes.
From S2P Require Pricing Budget AutoChain Routing ProviderSessions.
From S2P Require Import View Upstream Interaction Dispatch.

Local Open Scope proc_scope.

(** [KeyCandidateCallbacks]; a nil callback is [None]. *)
Record callbacks := {
  cb_Ready : option (nat -> Proc (bool * duration));
  cb_Failed : nat -> CallError -> Proc CallError;
  cb_Completed : nat -> option CallError -> Proc unit;
  cb_Attempt : option (nat -> Proc (HTTPAttemptResult -> Proc unit));
  cb_KeyLabel : nat -> string;
  cb_YieldUnavailable : bool;
}.

(** The fields of [Client] that [View.Client] does not have. *)
Record UpstreamClient := {
  APIKey : string;
  RedactValues : list string;
  ForwardErrorMessages : option bool;
  ErrorCodeMappings : list ProviderErrorMapping;
  ClientBackendID : string;
}.

Section client.
Context (ParseTime : string -> option time) (ToLower : string -> string).
(** [PrepareRequestWithWarnings]: the prepared model, or the code and the
    parameter of a validation error. *)
Context (prepare : string + string * string).
(** The client, the price of the model, the protocol of the caller, its
    options, and whether the response is streamed. *)
Context (c : UpstreamClient) (price : option Pricing.Price) (clientProtocol : string) (options : CallOptions) (stream : bool).
Context (cb : callbacks).

Definition unattempted (status : Z) (code : string) : CallError :=
  (new_CallError status code) <| UpstreamNotAttempted := true |>.

(** ** Choosing a key *)

(** The loop over the candidates after one that is not ready: it blanks the
    others that are not ready, up to the first that is. *)
Fixpoint probe_rest (ready : nat -> Proc (bool * duration)) (rest : list (nat * string)) (earliest : duration)
    : Proc (list (nat * string) * bool * duration) :=
  match rest with
  | [] => ret ([], false, earliest)
  | (i, key) :: rest =>
      if String.eqb key "" then
        x <- probe_rest ready rest earliest ;;
        let '(rest, found, earliest) := x in ret ((i, key) :: rest, found, earliest)
      else
        r <- ready i ;;
        if (r.1 : bool) then ret ((i, key) :: rest, true, earliest)
        else
          let earliest := if (0 <? r.2) && ((earliest =? 0) || (r.2 <? earliest)) then r.2 else earliest in
          x <- probe_rest ready rest earliest ;;
          let '(rest, found, earliest) := x in ret ((i, "") :: rest, found, earliest)
  end.

Inductive choice :=
  | Chosen (i : nat) (key : string)
  | NoneReady (earliest : duration)
  | NoCandidate.

(** The loop over the candidates, up to the attempt; the fuel is their number. *)
Fixpoint choose_key (fuel : nat) (keys : list (nat * string)) : Proc choice :=
  match fuel, keys with
  | S fuel, (i, key) :: rest =>
      match cb_Ready cb with
      | None => ret (Chosen i key)
      | Some ready =>
          if String.eqb key "" then choose_key fuel rest
          else
            r <- ready i ;;
            if (r.1 : bool) then ret (Chosen i key)
            else
              x <- probe_rest ready rest r.2 ;;
              let '(rest, found, earliest) := x in
              if (found : bool) then choose_key fuel rest else ret (NoneReady earliest)
      end
  | _, _ => ret NoCandidate
  end.

(** ** One attempt *)

Definition secrets (key : string) : list string := key :: SessionID options :: RedactValues c.

Definition describe (key : string) (phase : nat) (resp : option response) (idle_expired : bool) (e : CallError) : CallError :=
  describe_error (secrets key) (ForwardErrorMessages c) stream phase resp idle_expired e.

(** The telemetry of the attempt, when the callback is set. *)
Definition begin_attempt (i : nat) : Proc (HTTPAttemptResult -> Proc unit) :=
  match cb_Attempt cb with Some start => start i | None => ret (fun _ => ret tt) end.

(** [doAttempt], and whether some of the response was observed.  The frames that the sink delivered touched the sessions;
    the last touch stands for all of them. *)
Definition doAttempt (i : nat) (key : string) : Proc (bool * (CallError + attempt)) :=
  b <- perform BuildRequest ;;
  match b with
  | BuildFailed => ret (false, inl (describe key 0 None false (new_CallError 502 "upstream_request_failed")))
  | ContextOver => ret (false, inl (describe key 0 None false (new_CallError 502 "upstream_transport_error")))
  | Built =>
      finish <- begin_attempt i ;;
      a <- perform (Upstream i key) ;;
      set (fun l => l <| delivered := delivered l || att_delivered a |>) ;;;
      leases <- get held ;;
      (if att_delivered a then perform (SessionTouch leases) else ret tt) ;;;
      (let raw := raw_error ParseTime ToLower (ErrorCodeMappings c) a in
       finish (httpAttemptResult (att_cause_deadline a) (att_ctx_canceled a) (ECall <$> raw) (att_timed_out a)) ;;;
       ret (att_observed a, match raw with
            | Some e => inl (describe key (att_phase a) (attempt_response a) (att_idle_expired a) e)
            | None => inr a
            end))
  end.

(** ** The call under the queue's slot *)

Record outcome := {
  o_response : option string;
  o_id : string;
  o_err : option CallError;
  o_attempted : option nat;       (** [selectedCandidate], once [attempted] *)
  o_yielded : bool;
  o_audit : audit;
}.

#[local] Instance outcome_eta : Eta outcome := fun o =>
  {| o_response := o_response o; o_id := o_id o; o_err := o_err o; o_attempted := o_attempted o;
     o_yielded := o_yielded o; o_audit := o_audit o |}.

Definition failed_outcome (id : string) (a : audit) (e : CallError) : outcome :=
  {| o_response := None; o_id := id; o_err := Some e; o_attempted := None; o_yielded := false; o_audit := a |}.

Definition priced : bool := match price with Some _ => true | None => false end.

(** [localEstimate], which leaves a known cost alone. *)
Definition localEstimate (a : audit) : Proc audit :=
  match priced, audit_cost a with
  | true, None => cost <- perform LocalEstimate ;; ret (a <| audit_cost := cost |>)
  | _, _ => ret a
  end.

(** The end of a call without an error, with the answer of the attempt if there was one. *)
Definition answered (id : string) (a : audit) (attempted : option nat) (data : option string) (usage : Pricing.TokenUsage)
    : Proc outcome :=
  let a := a <| audit_cost := price ≫= fun p => Pricing.Estimate p usage |> in
  a <- (match audit_cost a with None => localEstimate a | Some _ => ret a end) ;;
  (if RequestScopedSession options then ret tt else perform Remember) ;;;
  ret {| o_response := data; o_id := id; o_err := None; o_attempted := attempted; o_yielded := false;
         o_audit := a <| audit_status := "ok" |> |}.

(** The attempt with a chosen key and what follows it. *)
Definition attempt_with (id : string) (a : audit) (i : nat) (key : string) : Proc outcome :=
  let a := a <| audit_key := KeyLabel (cb_KeyLabel cb i) |> in
  r <- doAttempt i key ;;
  match r.2 with
  | inl e =>
      let e := e <| CallFailure := (fun f => f <| KeyLabelField := audit_key a |> <| BackendID := KeyLabel (ClientBackendID c) |>)
                                   <$> CallFailure e |> in
      let a := if String.eqb (CallCategory e) ProviderErrorRateLimited
               then a <| audit_events := audit_events a ++ ["rate_limit"] |> else a in
      e <- cb_Failed cb i e ;;
      a <- (if (r.1 : bool) then localEstimate a else ret a) ;;
      ret ((failed_outcome id a e) <| o_attempted := Some i |>)
  | inr att =>
      match att_result att with
      | Answered data usage => answered id a (Some i) (Some data) usage
      | _ => ret {| o_response := None; o_id := id; o_err := None; o_attempted := Some i; o_yielded := false; o_audit := a |}
      end
  end.

(** The body after the queue, up to the deferred functions. *)
Definition gated_body (started : time) (id : string) (a : audit) (keys : list (nat * string)) : Proc outcome :=
  k <- choose_key (length keys) keys ;;
  match k with
  | NoneReady earliest =>
      let e := (unattempted 429 "provider_keys_cooling_down") <| Cooldown := earliest |> <| RequestStartedAt := started |>
                 <| QueueMS := audit_queue_ms a |> in
      ret (if cb_YieldUnavailable cb then (failed_outcome "" a e) <| o_yielded := true |> else failed_outcome id a e)
  | NoCandidate =>
      answered id a None None
        {| Pricing.Input := None; Pricing.Output := None; Pricing.CacheRead := None; Pricing.CacheWrite := None |}
  | Chosen i key =>
      down <- perform AuditUnavailable ;;
      if down then ret ((failed_outcome "" a (unattempted 503 "audit_unavailable")) <| o_yielded := true |>)
      else attempt_with id a i key
  end.

(** The deferred check of the request's own deadline. *)
Definition reclassify_timeout (o : outcome) : Proc outcome :=
  match o_err o with
  | None => ret o
  | Some e =>
      ctx <- perform ContextErr ;;
      match ctx with
      | Some _ => ret o
      | None =>
          late <- perform RequestDeadline ;;
          if late then
            let f := (fun f => (Normalize f) <| Category := "timeout" |> <| Retryability := "retryable" |>) <$> CallFailure e in
            ret (o <| o_err := Some ((new_CallError 504 "upstream_timeout") <| CallFailure := f |>) |>)
          else ret o
      end
  end.

(** From the slot of the queue to its release. *)
Definition under_gate (started : time) (id : string) (a : audit) (keys : list (nat * string)) : Proc outcome :=
  ctx <- perform ContextErr ;;
  match ctx with
  | Some _ => perform GateRelease ;;; ret (failed_outcome id a (new_CallError 408 "request_canceled"))
  | None =>
      o <- gated_body started id a keys ;;
      o <- reclassify_timeout o ;;
      match o_attempted o with Some i => cb_Completed cb i (o_err o) | None => ret tt end ;;;
      perform GateRelease ;;;
      ret o
  end.

(** ** The audit *)

Definition with_guidance (h : RetryHeaders) (e : CallError) : CallError :=
  e <| CallFailure := (fun f => (Normalize f) <| ResponseRetryHeaders := Some h |>) <$> CallFailure e |>.

Definition cancelled_error (why : ctx_end) (f : option Failure) : CallError :=
  match why with
  | CtxShutdown => (new_CallError 503 "server_shutting_down") <| CallFailure := f |>
  | _ => (new_CallError 408 "request_canceled") <| CallFailure := f |>
  end.

(** The error the caller sees when its context is over. *)
Definition cancellation (ctx : option ctx_end) (a : audit) (e : CallError) : audit * CallError :=
  match ctx with
  | None => (a <| audit_error := Code e |>, e)
  | Some why =>
      let f := (fun f => (Normalize f) <| Source := "canceled" |> <| Category := "canceled" |> <| Retryability := "terminal" |>)
               <$> CallFailure e in
      let e := cancelled_error why f in
      (a <| audit_status := "canceled" |> <| audit_error := Code e |>, e)
  end.

Definition audit_failed (a : audit) : CallError :=
  (new_CallError 500 "audit_failed_do_not_retry_blindly") <| CallFailure := Normalize <$> audit_failure a |>
    <| BudgetCost := audit_cost a |>.

(** [if !attempted { callErr.UpstreamNotAttempted = true }] *)
Definition flag_unattempted (attempted : option nat) (e : CallError) : CallError :=
  match attempted with None => e <| UpstreamNotAttempted := true |> | Some _ => e end.

(** The deferred function that writes the audit row. *)
Definition conclude (o : outcome) : Proc outcome :=
  if o_yielded o then ret o
  else
    a <- match o_attempted o with Some _ => localEstimate (o_audit o) | None => ret (o_audit o) end ;;
    x <- match o_err o with
         | None => ret (a, None)
         | Some e =>
             ctx <- perform ContextErr ;;
             let '(a, e) := cancellation ctx a e in
             h <- perform (PrepareFailure e) ;;
             let e := with_guidance h e in
             ret (a <| audit_failure := Normalize <$> CallFailure e |>, Some e)
         end ;;
    let '(a, err) := x in
    stored <- perform (AuditAppend a) ;;
    if stored then ret (o <| o_err := flag_unattempted (o_attempted o) <$> err |> <| o_audit := a |>)
    else
      let e := audit_failed a in
      h <- perform (PrepareFailure e) ;;
      ret (o <| o_response := None |> <| o_audit := a |>
             <| o_err := Some (flag_unattempted (o_attempted o) (with_guidance h e)) |>).

(** ** The call *)

Definition new_audit (id : string) (queue_ms : Z) (events : list string) : audit :=
  {| audit_id := id; audit_status := "error"; audit_error := ""; audit_cost := None; audit_key := ""; audit_events := events;
     audit_queue_ms := queue_ms; audit_failure := None |}.

(** From the queue on. *)
Definition queued_call (started : time) (id : string) (keys : list string) : Proc outcome :=
  g <- perform GateAcquire ;;
  let '(acquired, waited, ms) := g in
  let a := new_audit id (PriorQueueMS options + ms) (if waited || (0 <? PriorQueueMS options) then ["queue_wait"] else []) in
  o <- (if (acquired : bool) then under_gate started id a (zip (List.seq 0 (length keys)) keys)
        else ret (failed_outcome id a (new_CallError 408 "request_canceled"))) ;;
  conclude o.

(** [callWithKeyCandidates]: the response, the request ID and the error. *)
Definition callWithKeyCandidates (keys : list string) : Proc (option string * string * option CallError) :=
  match CallOptions_Validate options clientProtocol with
  | Some (code, param) => ret (None, "", Some ((unattempted 400 code) <| Param := param |>))
  | None =>
      down <- perform AuditUnavailable ;;
      if down then ret (None, "", Some (unattempted 503 "audit_unavailable"))
      else
        now <- perform Now ;;
        let started := if Time.is_zero (OptionsStartedAt options) then now else OptionsStartedAt options in
        nonce <- perform RandomID ;;
        match nonce with
        | None => ret (None, "", Some (unattempted 500 "request_id_failed"))
        | Some id =>
            match prepare with
            | inr (code, param) => ret (None, id, Some ((unattempted 400 code) <| Param := param |>))
            | inl _ =>
                o <- queued_call started id (match keys with [] => [APIKey c] | _ => keys end) ;;
                ret (o_response o, o_id o, o_err o)
            end
        end
  end.
End client.
