(* ===== verification/RouteCall.v ===== *)
(** * The route of a request: provider_dispatch.go, route_recovery.go and gateway.go

    [callRouteCandidate] with the callbacks it gives to the adapter,
    [callRouteWithRecovery] with its deferred releases, [attemptRoutes], which
    resolves again after a rejection that preceded any dispatch, and the end of
    [ServeHTTP].  The configuration of the view is the context of the section;
    the server always has a health table, so the recovery of
    [callRouteWithLegacyRecovery] is not part of the composition. *)

From S2P Require Import Prelude GoStrings GoFloat Diagnostics Errors Availability KeyPool Routes.
From S2P Require Pricing Budget AutoChain Routing ProviderSessions Limiter.
From S2P Require Import View Upstream Interaction Dispatch ClientCall.

Local Open Scope proc_scope.

(** ** Callbacks *)

Section callbacks.
(** The provider of the route, its pool, the candidates of this request, the
    lease of the health table, and the labels of the pool. *)
Context (provider : string) (pool : option pool_ptr) (candidates : list providerKeyCandidate) (lease : nat)
        (pool_labels : list string).

(** The claim of the pool's recovery: taken now unless the request has it. *)
Definition claim_rate (k : pool_ptr) : Proc (option CallError) :=
  claim <- get rate_claim ;;
  match claim with
  | Some _ => ret None
  | None =>
      r <- perform (RateBegin k) ;;
      match r with
      | (_, Some blocked) => ret (Some blocked)
      | (claim, None) => set (fun l => l <| rate_claim := claim |>) ;;; ret None
      end
  end.

(** The callback [Ready]. *)
Definition ready (i : nat) : Proc (bool * duration) :=
  blocked <- perform (HealthDispatch lease) ;;
  match blocked with
  | Some e => ret (false, Cooldown e)
  | None =>
      match pool with
      | None => ret (true, 0)
      | Some k =>
          match candidates !! i with
          | None => ret (false, 0)
          | Some candidate =>
              blocked <- claim_rate k ;;
              match blocked with
              | Some e => ret (false, Z.max (Cooldown e) Second)
              | None =>
                  s <- perform (CandidateState k (index candidate)) ;;
                  let '(ready, delay, observation) := s in
                  (if (ready : bool) then set (fun l => l <| observed := <[i := observation]> (observed l) |>) else ret tt) ;;;
                  ret (ready, delay)
              end
          end
      end
  end.

(** The key of a candidate that was observed before its attempt. *)
Definition observed_key (i : nat) (l : local) : option (pool_ptr * nat * rateLimitObservation) :=
  match pool, candidates !! i with
  | Some k, Some candidate => Some (k, index candidate, default no_observation (observed l !! i))
  | _, _ => None
  end.

(** [availabilityResult.finish]. *)
Definition finish_health (stale : bool) (err : option CallError) : Proc unit :=
  set (fun l => l <| health_done := true |>) ;;;
  ctx <- perform ContextErr ;;
  restored <- perform (HealthComplete lease stale err (bool_decide (ctx <> None))) ;;
  if restored then perform (ChainRestore provider) else ret tt.

(** The callback [Completed]. *)
Definition completed (i : nat) (err : option CallError) : Proc unit :=
  key <- get (observed_key i) ;;
  r <- perform (SucceededCurrent provider (match err with None => key | Some _ => None end)) ;;
  finish_health (negb r.1 || r.2) err.

(** The callback [Failed]: the error with what the pool decided. *)
Definition failed (i : nat) (e : CallError) : Proc CallError :=
  match pool, candidates !! i with
  | Some k, Some candidate =>
      if UpstreamNotAttempted e && String.eqb (Code e) "upstream_transport_error" then ret e
      else
        x <- (if RetryProvided e then
                until <- perform (HoldProvider k (CooldownUntil e)) ;;
                now <- perform Now ;;
                ret (if Time.is_zero until then e
                     else setCooldownFailure (cool_provider e until (Z.max (Time.sub until now) 0)) now, until)
              else ret (e, Time.zero)) ;;
        let '(e, until) := x in
        decision <- perform (FailedCurrent provider k (index candidate) e until) ;;
        ret (match decision with Some (now, d) => failed_error e until now d | None => e end)
  | _, _ => ret e
  end.

(** The callback [Attempt], which is set when telemetry is on. *)
Definition start_attempt (k : pool_ptr) (i : nat) : Proc (HTTPAttemptResult -> Proc unit) :=
  let key := match candidates !! i with Some c => index c | None => 0%nat end in
  l <- get (fun l => l) ;;
  counter <- perform (AttemptBegin k key (negb (existsb (Nat.eqb key) (tried l))) (last_key l) (last_reason l)) ;;
  set (fun l => l <| tried := key :: tried l |> <| last_key := Z.of_nat key |>) ;;;
  ret (fun result =>
    set (fun l => l <| last_reason := FailureClass result |>) ;;;
    match counter with Some c => perform (AttemptEnd k key c result) | None => ret tt end).

(** [KeyLabel]. *)
Definition key_label (i : nat) : string :=
  match pool, candidates !! i with
  | Some _, Some candidate => nth (index candidate) pool_labels ""
  | _, _ => ""
  end.

Definition gateway_callbacks (diagnostics yields : bool) : callbacks :=
  {| cb_Ready := Some ready; cb_Failed := failed; cb_Completed := completed;
     cb_Attempt := match pool with Some k => if diagnostics then Some (start_attempt k) else None | None => None end;
     cb_KeyLabel := key_label; cb_YieldUnavailable := yields |}.
End callbacks.

(** ** One route *)

Section route.
Context (ParseTime : string -> option time) (ToLower : string -> string) (hostname : string -> option string).
(** The view: the handler, the clients behind [View.clients], the pools and
    their labels. *)
Context (h : handler) (client_of : string -> UpstreamClient) (keyPools : gmap string pool_ptr) (labels_of : pool_ptr -> list string).
(** The request: protocol, body, [X-TideMux-Budget-Confirm], streaming; the
    body with another model, and its preparation for a provider. *)
Context (protocol body : string) (confirmed stream : bool) (replaceRequestModel : string -> option string)
        (prepareFor : string -> string -> string -> string + string * string).

(** The result of a call: response, request ID, error, handled. *)
Definition call_result : Type := option string * string * option CallError * bool.
Definition handled_result : call_result := (None, "", None, true).

Definition rejected (retryAfter : option string) (status : Z) (code param : string) : Proc call_result :=
  perform (Reject retryAfter status code param) ;;; ret handled_result.

Definition rebinds (r : routeStep) : bool :=
  match route_sessionKey r, route_autoChainIndex r with None, None => false | _, _ => true end.

(** The static checks at the start of [callRouteCandidate]: the rejection. *)
Definition route_rejection (r : routeStep) : option (Z * string * string) :=
  if negb (bool_decide (is_Some (providers h !! route_provider r))) then Some (404, "provider_not_found", "model")
  else if unavailable h (route_provider r) then Some (503, "provider_unavailable", "model")
  else if negb (supportScopeAllows h (route_provider r) (route_model r)) then Some (404, "model_not_found", "")
  else if negb (has_client h (route_provider r)) then Some (404, "provider_not_found", "model")
  else None.

(** The error of a session admission. *)
Definition session_rejection (ref : string) (e : Limiter.Sessions.session_error) : Proc call_result :=
  match e with
  | Limiter.Sessions.ErrActiveSessionLimit => rejected None 429 "active_session_limit" ref
  | _ =>
      ctx <- perform ContextErr ;;
      match ctx with
      | Some CtxShutdown => rejected None 503 "server_shutting_down" ""
      | _ => rejected None 400 "invalid_session_id" ""
      end
  end.

(** The candidates of the pool, unless they are all cooling. *)
Definition pool_candidates (r : routeStep) (pool : option pool_ptr) : Proc (list providerKeyCandidate + call_result) :=
  match pool with
  | None => ret (inl [Candidate 0 (APIKey (client_of (route_provider r)))])
  | Some k =>
      x <- perform (PoolCandidates k) ;;
      let '(candidates, delay) := x in
      match candidates with
      | [] =>
          let e := (unattempted 503 "provider_keys_cooling_down") <| Cooldown := delay |> in
          if rebinds r then ret (inr (None, "", Some e, false))
          else x <- rejected (retry_after_header e) (Status e) (Code e) "" ;; ret (inr x)
      | _ => ret (inl candidates)
      end
  end.

Definition budget_codes : list string := ["budget_hard_limit"; "budget_confirmation_required"; "budget_usage_unknown"].

Definition budget_rejection (e : string) : Proc call_result :=
  ctx <- perform ContextErr ;;
  match ctx with
  | Some CtxShutdown => rejected None 503 "server_shutting_down" ""
  | _ => rejected None 429 (if member e budget_codes then e else "budget_reservation_failed") ""
  end.

(** Admission against the provider's budget: the reservation, [None] without a
    budget, or the rejection. *)
Definition reserve_budget (ref upstreamModel : string) : Proc (option (string * string) + call_result) :=
  match ProviderBudget (provider h ref) with
  | None => ret (inl None)
  | Some budget =>
      if Budget.zero_policy budget then ret (inl None)
      else
        match Routing.price_of ToLower hostname h ref upstreamModel with
        | None => x <- rejected None 503 "budget_pricing_unconfigured" "" ;; ret (inr x)
        | Some price =>
            if negb (String.eqb (Pricing.Currency price) (Budget.Currency budget))
            then x <- rejected None 503 "budget_pricing_unconfigured" "" ;; ret (inr x)
            else
              blocked <- perform (BudgetBlocked ref (Budget.Currency budget)) ;;
              if blocked then x <- rejected None 429 "budget_usage_unknown" "" ;; ret (inr x)
              else
                nonce <- perform RandomID ;;
                match nonce with
                | None => x <- rejected None 500 "request_id_failed" "" ;; ret (inr x)
                | Some id =>
                    decision <- perform (BudgetCheck id ref budget confirmed) ;;
                    match decision with
                    | inl e => x <- budget_rejection e ;; ret (inr x)
                    | inr _ => ret (inl (Some (id, Budget.Currency budget)))
                    end
                end
        end
  end.

(** The settlement of a reservation. *)
Definition settle_budget (ref : string) (reservation : option (string * string)) (id : string) (err : option CallError) : Proc unit :=
  match reservation with
  | None => ret tt
  | Some (reservationID, currency) =>
      failure <- match err with
                 | Some e =>
                     if UpstreamNotAttempted e then perform (BudgetRelease reservationID)
                     else match BudgetCost e with
                          | Some cost => perform (BudgetChargeCost reservationID id ref currency cost)
                          | None => perform (BudgetCharge reservationID id ref currency)
                          end
                 | None => perform (BudgetCharge reservationID id ref currency)
                 end ;;
      match failure with
      | None => ret tt
      | Some _ => perform (BudgetBlock ref currency)
      end
  end.

Definition acquire_session (ref : string) (limit : Z) : Proc (option Limiter.Sessions.session_error) :=
  leases <- get held ;;
  x <- perform (SessionAcquire leases ref limit) ;;
  set (fun l => l <| held := x.1 |>) ;;;
  ret x.2.

Definition release_session (ref : string) : Proc unit :=
  leases <- get held ;;
  leases <- perform (SessionRelease leases ref) ;;
  set (fun l => l <| held := leases |>).

(** The model names of the options. *)
Definition route_options (r : routeStep) (upstreamModel : string) (o : CallOptions) : CallOptions :=
  match route_autoChainIndex r with
  | Some _ => o <| ResponseModel := route_model r |>
  | None => if String.eqb upstreamModel (route_model r) then o else o <| ResponseModel := route_model r |>
  end.

(** The part of [callRouteCandidate] that runs with the session's lease. *)
Definition call_with_session (lease : nat) (r : routeStep) (routeBody upstreamModel : string) (options : CallOptions)
    : Proc call_result :=
  let ref := route_provider r in
  let pool := keyPools !! ref in
  x <- pool_candidates r pool ;;
  match x with
  | inr result => ret result
  | inl candidates =>
      x <- reserve_budget ref upstreamModel ;;
      match x with
      | inr result => ret result
      | inl reservation =>
          let cb := gateway_callbacks ref pool candidates lease (match pool with Some k => labels_of k | None => [] end)
                      (HealthDiagnostics h) (route_dynamic r || rebinds r) in
          out <- callWithKeyCandidates ParseTime ToLower (prepareFor ref routeBody upstreamModel) (client_of ref)
                   (Routing.price_of ToLower hostname h ref upstreamModel) protocol options stream cb (key <$> candidates) ;;
          let '(response, id, err) := out in
          settle_budget ref reservation id err ;;;
          ret (response, id, err, false)
      end
  end.

(** [callRouteCandidate].  The lease of the session is given back unless the
    call succeeded. *)
Definition callRouteCandidate (lease : nat) (r : routeStep) (options : CallOptions) : Proc call_result :=
  match route_rejection r with
  | Some (status, code, param) => rejected None status code param
  | None =>
      let ref := route_provider r in
      let upstreamModel := UpstreamModel (provider h ref) (route_model r) in
      match replaceRequestModel upstreamModel with
      | None => rejected None 400 "invalid_request" "model"
      | Some routeBody =>
          e <- acquire_session ref (MaxActiveSessions (provider h ref)) ;;
          match e with
          | Some e => session_rejection ref e
          | None =>
              result <- call_with_session lease r routeBody upstreamModel (route_options r upstreamModel options) ;;
              let '(response, id, err, handled) := result in
              (if handled || bool_decide (err <> None) then release_session ref else ret tt) ;;;
              ret result
          end
      end
  end.

(** ** Recovery *)

(** The part of [callRouteWithRecovery] that runs with the lease of the health
    table: the call and the deferred completion. *)
Definition call_with_health (lease : nat) (r : routeStep) (options : CallOptions) : Proc call_result :=
  set (fun l => l <| health_done := false |>) ;;;
  result <- callRouteCandidate lease r options ;;
  let '(_, _, err, handled) := result in
  match route_autoChainIndex r with
  | Some i =>
      ctx <- perform ContextErr ;;
      out <- get delivered ;;
      perform (ChainFailed i err (bool_decide (ctx <> None)) out)
  | None => ret tt
  end ;;;
  done <- get health_done ;;
  (if (done : bool) then ret tt
   else
     ctx <- perform ContextErr ;;
     restored <- perform (HealthComplete lease handled err (bool_decide (ctx <> None))) ;;
     if restored then perform (ChainRestore (route_provider r)) else ret tt) ;;;
  ret result.

(** The refusal of the health table. *)
Definition health_refused (r : routeStep) (e : CallError) : Proc call_result :=
  if route_dynamic r || rebinds r then ret (None, "", Some e, false)
  else rejected (retry_after_header e) (Status e) (Code e) "".

Definition call_with_claim (r : routeStep) (options : CallOptions) : Proc call_result :=
  x <- perform (HealthBegin (route_provider r) (UpstreamModel (provider h (route_provider r)) (route_model r))) ;;
  match x with
  | (_, Some e) => health_refused r e
  | (lease, None) => call_with_health lease r options
  end.

(** [defer func() { pool.finishRateRecovery(claim.lease) }()]; a request that
    claimed nothing has nothing to finish. *)
Definition finish_claim (pool : option pool_ptr) : Proc unit :=
  claim <- get rate_claim ;;
  match pool, claim with
  | Some k, Some _ => perform (RateFinish k claim) ;;; set (fun l => l <| rate_claim := None |>)
  | _, _ => ret tt
  end.

(** [callRouteWithRecovery]. *)
Definition callRouteWithRecovery (r : routeStep) (options : CallOptions) : Proc call_result :=
  let pool := keyPools !! route_provider r in
  x <- match pool with Some k => perform (RateBegin k) | None => ret (None, None) end ;;
  match x with
  | (_, Some e) => ret (None, "", Some e, false)
  | (claim, None) =>
      set (fun l => l <| rate_claim := claim |> <| observed := ∅ |> <| tried := [] |> <| last_key := -1 |>
                      <| last_reason := "upstream_error" |>) ;;;
      result <- call_with_claim r options ;;
      finish_claim pool ;;;
      ret result
  end.

(** ** The routes of a request *)

Definition rebindable (r : routeStep) : bool := route_dynamic r || rebinds r.

(** The decision of the previous route is kept while it still describes the
    route. *)
Definition keep_decision (previous : option RoutingDecision) (r : routeStep) : routeStep :=
  match route_decision r, previous with
  | None, Some d =>
      if String.eqb (ToProvider d) (route_provider r) &&
         (String.eqb (ToModel d) (route_model r) || (String.eqb (ToModel d) "" && String.eqb (Model d) (route_model r)))
      then r <| route_decision := previous |> else r
  | _, _ => r
  end.

(** The model and the key with which a route is resolved again. *)
Definition rebind_query (r : routeStep) (sessionKey : option sharedModelSessionKey) : string * option sharedModelSessionKey :=
  match route_autoChainIndex r with
  | Some _ => ("auto", sessionKey)
  | None => (route_model r, route_sessionKey r)
  end.

(** [routeErrorParameter] names the field of the body that no provider takes. *)
Context (routeErrorParameter : string -> string).

Definition rejection_parameter (code model : string) : string :=
  if String.eqb code "unsupported_request_feature" then routeErrorParameter model else "model".

(** A resolution for the next attempt: the route, or the rejection. *)
Definition rebind (sessionKey : option sharedModelSessionKey) (r : routeStep) : Proc (routeStep + call_result) :=
  if rebindable r then
    let '(model, key) := rebind_query r sessionKey in
    resolved <- perform (Resolve model key) ;;
    if negb (String.eqb (Routing.error_code resolved) "")
    then x <- rejected None (Routing.error_status resolved) (Routing.error_code resolved)
                (rejection_parameter (Routing.error_code resolved) (route_model r)) ;; ret (inr x)
    else match Routing.routes resolved with
         | r' :: _ => ret (inl (keep_decision (route_decision r) r'))
         | [] => ret (inl r)
         end
  else ret (inl r).

(** The conditions under which the loop tries another resolution. *)
Definition retries (remaining : nat) (l : local) (ctx : option ctx_end) (retained : bool) (r : routeStep) (result : call_result)
    : option CallError :=
  let '(_, _, err, handled) := result in
  if retained || negb (rebindable r) || handled || delivered l || bool_decide (ctx <> None) || (remaining =? 0)%nat then None
  else match err with
       | Some e => if UpstreamNotAttempted e && isAvailabilityError (Code e) then Some e else None
       | None => None
       end.

Definition carry_timing (e : CallError) (o : CallOptions) : CallOptions :=
  if Time.is_zero (RequestStartedAt e) then o else o <| OptionsStartedAt := RequestStartedAt e |> <| PriorQueueMS := QueueMS e |>.

(** The loop of [attemptRoutes]; [remaining] counts down from the number of
    providers. *)
Fixpoint attempt_loop (remaining : nat) (sessionKey : option sharedModelSessionKey) (r : routeStep) (options : CallOptions)
    : Proc call_result :=
  x <- rebind sessionKey r ;;
  match x with
  | inr result => ret result
  | inl r =>
      result <- callRouteWithRecovery r (options <| OptionsDecision := route_decision r |>) ;;
      retained <- (if route_holdAffinity r then perform (RetainQueued r) else ret false) ;;
      l <- get (fun l => l) ;;
      ctx <- perform ContextErr ;;
      match retries remaining l ctx retained r result, remaining with
      | Some e, S remaining => attempt_loop remaining sessionKey r (carry_timing e options)
      | _, _ => ret result
      end
  end.

Definition local_state_error (id : string) (err : option CallError) : option CallError :=
  match err with
  | Some e =>
      if String.eqb id "" && UpstreamNotAttempted e && (isAvailabilityError (Code e) || String.eqb (Code e) "audit_unavailable")
      then Some e else None
  | None => None
  end.

(** [attemptRoutes]. *)
Definition attemptRoutes (sessionKey : option sharedModelSessionKey) (r : routeStep) (options : CallOptions) : Proc call_result :=
  result <- attempt_loop (size (providers h)) sessionKey r options ;;
  let '(_, id, err, handled) := result in
  if handled then ret (None, id, None, true)
  else match local_state_error id err with
       | Some e => rejected (retry_after_header e) (Status e) (Code e) ""
       | None => ret result
       end.

(** ** The end of [ServeHTTP] *)

(** From the resolved route to the release of the sessions.  [persistent]: the
    client named its session. *)
Definition serve (persistent : bool) (sessionKey : option sharedModelSessionKey) (r : routeStep) (options : CallOptions)
    : Proc unit :=
  result <- attemptRoutes sessionKey r options ;;
  let '(_, id, err, handled) := result in
  retain <- (if (handled : bool) then ret false
             else
               sent <- perform (Respond id err) ;;
               started <- get delivered ;;
               leases <- get held ;;
               if stream then
                 (** [send], for the end of the stream or for an error event *)
                 (if sent && (bool_decide (err = None) || started) then perform (SessionTouch leases) else ret tt) ;;;
                 ret false
               else
                 match err with
                 | Some _ => ret false
                 | None =>
                     ctx <- perform ContextErr ;;
                     if sent && bool_decide (ctx = None) then
                       perform (SessionTouch leases) ;;;
                       ret persistent
                     else ret false
                 end) ;;
  leases <- get held ;;
  perform (SessionEnd leases retain) ;;;
  set (fun l => l <| held := ∅ |>).
End route.
