(* ===== verification/DispatchFacts.v ===== *)
(** * The conduct of a request

    One protocol collects what a request promises to every component it calls:
    it completes the lease of the health table that it began, gives back the
    recovery claim of a pool, its sessions and its slot of the queue, settles
    the reservation of the budget, and makes at most one upstream attempt, with
    a key that was ready.  [serve] obeys it whatever the answers are, so under
    any interference by other requests and reloads. *)

From S2P Require Import Prelude GoStrings GoFloat Diagnostics Errors Availability KeyPool Routes.
From S2P Require Pricing Budget AutoChain Routing ProviderSessions Limiter.
From S2P Require Import View Upstream Interaction Dispatch ClientCall RouteCall.

Import ProviderSessions.Providers (lease_ptr, Lease).
Local Open Scope proc_scope.

(** ** The protocol *)

Inductive reservation := Reserved (id provider currency : string) | Unsettled (provider currency : string).

Record conduct := {
  upstreams : nat;                                          (** attempts made so far *)
  health : option nat;                                      (** the lease of the health table *)
  claim : option (pool_ptr * rateRecoveryLease);            (** the recovery claim *)
  sessions : gmap string lease_ptr;
  budget : option reservation;
  slot : bool;                                              (** the slot of the queue *)
  counter : option (pool_ptr * nat * counters_ptr);         (** the telemetry of an attempt *)
  offered : list providerKeyCandidate;                      (** the candidates of the pool *)
  healthy : bool;                                           (** the health table admitted the dispatch *)
  checked : option nat;                                     (** the key that was ready *)
}.

#[export] Instance conduct_eta : Eta conduct := fun s =>
  {| upstreams := upstreams s; health := health s; claim := claim s; sessions := sessions s; budget := budget s;
     slot := slot s; counter := counter s; offered := offered s; healthy := healthy s; checked := checked s |}.

Definition fresh : conduct :=
  {| upstreams := 0; health := None; claim := None; sessions := ∅; budget := None; slot := false; counter := None;
     offered := []; healthy := false; checked := None |}.

(** The key of an attempt was found ready, after the health table admitted the
    request. *)
Definition may_attempt (s : conduct) (i : nat) (key : string) : Prop :=
  upstreams s = 0%nat /\ slot s = true /\ is_Some (health s) /\ healthy s = true /\
  (offered s <> [] -> exists j, checked s = Some j /\ offered s !! i = Some (Candidate j key)).

Definition permitted (limit_of : string -> Z) (s : conduct) (a : action) : Prop :=
  match a with
  | HealthBegin _ _ => health s = None /\ upstreams s = 0%nat  (** no other route after an attempt *)
  | HealthDispatch l | HealthComplete l _ _ _ => health s = Some l
  | RateBegin _ => claim s = None
  | RateFinish k lease => exists c, lease = Some c /\ claim s = Some (k, c)
  | SessionAcquire held ref limit => sessions s = held /\ limit = limit_of ref
  | SessionRelease held _ | SessionEnd held _ | SessionTouch held => sessions s = held
  | BudgetCheck _ _ _ _ => budget s = None
  | BudgetRelease id => exists p c, budget s = Some (Reserved id p c)
  | BudgetCharge id _ p c | BudgetChargeCost id _ p c _ => budget s = Some (Reserved id p c)
  | BudgetBlock p c => budget s = Some (Unsettled p c)
  | GateAcquire => slot s = false
  | GateRelease => slot s = true
  | AttemptBegin _ _ _ _ _ => counter s = None
  | AttemptEnd k i c _ => counter s = Some (k, i, c)
  | Upstream i key => may_attempt s i key
  | _ => True
  end.

(** A settlement that the ledger refuses leaves the reservation unsettled. *)
Definition settle (failure : option string) (r : option reservation) : option reservation :=
  match failure, r with
  | Some _, Some (Reserved _ p c) => Some (Unsettled p c)
  | _, _ => None
  end.

Definition track (s : conduct) (a : action) : answer a -> conduct :=
  match a with
  | HealthBegin _ _ => fun r => match r with
      | (l, None) => s <| health := Some l |> <| offered := [] |> <| healthy := false |> <| checked := None |>
      | (_, Some _) => s
      end
  | HealthDispatch _ => fun r => s <| healthy := match r with None => true | Some _ => false end |>
  | HealthComplete _ _ _ _ => fun _ => s <| health := None |>
  | RateBegin k => fun r => match r with (Some c, None) => s <| claim := Some (k, c) |> | _ => s end
  | RateFinish _ _ => fun _ => s <| claim := None |>
  | PoolCandidates _ => fun r => s <| offered := r.1 |>
  | CandidateState _ i => fun r => s <| checked := if r.1.1 : bool then Some i else None |>
  | SessionAcquire _ _ _ => fun r => s <| sessions := r.1 |>
  | SessionRelease _ _ => fun r => s <| sessions := r |>
  | SessionEnd _ _ => fun _ => s <| sessions := ∅ |>
  | BudgetCheck id p b _ => fun r => match r with
      | inr _ => s <| budget := Some (Reserved id p (Budget.Currency b)) |>
      | inl _ => s
      end
  | BudgetRelease _ | BudgetCharge _ _ _ _ | BudgetChargeCost _ _ _ _ _ => fun r => s <| budget := settle r (budget s) |>
  | BudgetBlock _ _ => fun _ => s <| budget := None |>
  | GateAcquire => fun r => s <| slot := r.1.1 |>
  | GateRelease => fun _ => s <| slot := false |>
  | AttemptBegin k i _ _ _ => fun r => s <| counter := (fun c => (k, i, c)) <$> r |>
  | AttemptEnd _ _ _ _ => fun _ => s <| counter := None |>
  | Upstream _ _ => fun _ => s <| upstreams := S (upstreams s) |>
  | _ => fun _ => s
  end.

(** The limits of sessions are those of the configuration. *)
Definition Conduct_of (limit_of : string -> Z) : protocol answer :=
  {| pstate := conduct; allows := permitted limit_of; after := track |}.

(** ** Actions that the protocol ignores *)

Definition quiet (a : action) : bool :=
  match a with
  | ContextErr | RequestDeadline | Now | RandomID | SucceededCurrent _ _ | HoldProvider _ _ | FailedCurrent _ _ _ _ _
  | ChainFailed _ _ _ _ | ChainRestore _ | BudgetBlocked _ _ | AuditUnavailable | AuditAppend _ | BuildRequest
  | LocalEstimate | Remember | PrepareFailure _ | Resolve _ _ | RetainQueued _ | Reject _ _ _ _ | Respond _ _ => true
  | _ => false
  end.

Lemma quiet_ignored limit_of s a : quiet a = true -> permitted limit_of s a /\ forall r, track s a r = s.
Proof. by destruct a. Qed.

(** [m] performs quiet actions only and ends as [Q] says. *)
Definition calm {A} (l : local) (m : Proc A) (Q : local -> A -> Prop) : Prop := spec (flat quiet) tt l m (fun _ => Q).

Lemma calm_conduct {A} limit_of s l (m : Proc A) Q :
  calm l m Q -> spec (Conduct_of limit_of) s l m (fun s' l' x => s' = s /\ Q l' x).
Proof. intros H. exact (spec_flat quiet (Conduct_of limit_of) s l m (fun _ => Q) H (quiet_ignored limit_of s)). Qed.

Lemma spec_calm {A B} limit_of s l (m : Proc A) (f : A -> Proc B) Q R :
  calm l m Q -> (forall l' x, Q l' x -> spec (Conduct_of limit_of) s l' (f x) R) -> spec (Conduct_of limit_of) s l (seq m f) R.
Proof.
  intros Hm Hf. eapply spec_seq; [by apply calm_conduct|]. intros s' l' x [-> HQ]. by apply Hf.
Qed.

Ltac calm := unfold calm; repeat spec_step; cbn; try done.

Section conduct.
Context (ParseTime : string -> option time) (ToLower : string -> string) (hostname : string -> option string).
Context (h : handler) (client_of : string -> UpstreamClient) (keyPools : gmap string pool_ptr) (labels_of : pool_ptr -> list string).
Context (protocol body : string) (confirmed stream : bool) (replaceRequestModel : string -> option string)
        (prepareFor : string -> string -> string -> string + string * string) (routeErrorParameter : string -> string).

(** The sessions that the configuration admits for each provider. *)
Context (limit_of : string -> Z) (Hlimit : forall ref, MaxActiveSessions (provider h ref) = limit_of ref).
Local Abbreviation Conduct := (Conduct_of limit_of).

(** An error after which no other route is tried. *)
Definition final (err : option CallError) : Prop :=
  forall e, err = Some e -> UpstreamNotAttempted e = true -> isAvailabilityError (Code e) = false.

Lemma rejected_calm l retryAfter status code param :
  calm l (rejected retryAfter status code param) (fun l' x => l' = l /\ x = handled_result).
Proof. calm. Qed.

Lemma session_rejection_calm l ref e :
  calm l (session_rejection ref e) (fun l' x => l' = l /\ x = handled_result).
Proof. unfold session_rejection, rejected. calm. Qed.

Lemma budget_rejection_calm l e : calm l (budget_rejection e) (fun l' x => l' = l /\ x = handled_result).
Proof. unfold budget_rejection, rejected. calm. Qed.

Lemma localEstimate_calm l price a : calm l (localEstimate price a) (fun l' _ => l' = l).
Proof. unfold localEstimate. calm. Qed.

(** ** Choosing a key *)

(** What the choice of a key leaves alone. *)
Record steady (s s' : conduct) : Prop := {
  st_upstreams : upstreams s' = upstreams s;
  st_health : health s' = health s;
  st_sessions : sessions s' = sessions s;
  st_budget : budget s' = budget s;
  st_slot : slot s' = slot s;
  st_counter : counter s' = counter s;
  st_offered : offered s' = offered s;
}.

#[local] Instance steady_preorder : PreOrder steady.
Proof. split; [done|]. intros s1 s2 s3 [] []. split; congruence. Qed.

(** The local variables agree with the protocol. *)
Record linked (pool : option pool_ptr) (s : conduct) (l : local) : Prop := {
  lk_claim : rate_claim l = snd <$> claim s;
  lk_pool : forall k c, claim s = Some (k, c) -> pool = Some k;
  lk_held : sessions s = held l;
}.

Section candidates.
Context (provider : string) (pool : option pool_ptr) (candidates : list providerKeyCandidate) (lease : nat).

(** Candidate [i] may be attempted. *)
Definition go (s : conduct) (i : nat) : Prop :=
  healthy s = true /\ (is_Some pool -> exists c, candidates !! i = Some c /\ checked s = Some (index c)).

Definition in_call (s : conduct) (l : local) : Prop :=
  health s = Some lease /\ (is_Some pool -> offered s = candidates) /\ (pool = None -> offered s = []) /\ linked pool s l.

Definition chosen_state (s : conduct) (l : local) (s' : conduct) (l' : local) : Prop :=
  steady s s' /\ in_call s' l' /\ health_done l' = health_done l.

Lemma claim_rate_spec s l k :
  in_call s l -> pool = Some k -> spec Conduct s l (claim_rate k) (fun s' l' _ =>
    chosen_state s l s' l' /\ healthy s' = healthy s).
Proof.
  intros (Hh & Ho & Hn & [Hc Hp Hs]) Hpool. unfold claim_rate. spec_step. spec_step. cbn. destruct (rate_claim l) as [c|] eqn:Hl.
  - spec_step. repeat split; auto; by rewrite Hl.
  - spec_step. spec_step.
    + cbn. by destruct (claim s).
    + destruct r as [[c|] [e|]]; cbn; repeat spec_step; repeat split; cbn; auto; try congruence; try (intros ? ? [= <- <-]; done).
      all: by destruct (claim s).
Qed.

Lemma chosen_state_refl s l : in_call s l -> chosen_state s l s l.
Proof. repeat split; apply H. Qed.

Lemma chosen_state_trans s1 l1 s2 l2 s3 l3 :
  chosen_state s1 l1 s2 l2 -> chosen_state s2 l2 s3 l3 -> chosen_state s1 l1 s3 l3.
Proof. intros (H1 & _ & H2) (H3 & H4 & H5). split; [by etrans|]. split; [done|congruence]. Qed.

(** Setting [healthy] and [checked] is all that the checks themselves do. *)
Lemma in_call_checks s l b j : in_call s l -> chosen_state s l (s <| healthy := b |> <| checked := j |>) l.
Proof. intros (Hh & Ho & Hn & [Hc Hp Hs]). repeat split; auto. Qed.

Lemma in_call_observed s l o : in_call s l -> chosen_state s l s (l <| observed := o |>).
Proof. intros (Hh & Ho & Hn & [Hc Hp Hs]). repeat split; auto. Qed.

Lemma ready_spec s l i :
  in_call s l -> spec Conduct s l (ready pool candidates lease i) (fun s' l' r =>
    chosen_state s l s' l' /\ (r.1 = true -> go s' i)).
Proof.
  intros Hin. unfold ready. spec_step. spec_step; [apply Hin|].
  assert (H1 : forall b, chosen_state s l (s <| healthy := b |>) l).
  { intros b. pose proof (in_call_checks s l b (checked s) Hin). by destruct s. }
  destruct r as [e|]; cbn.
  - spec_step. by split.
  - set (s1 := s <| healthy := true |>). assert (Hs1 : chosen_state s l s1 l) by apply H1.
    assert (Hok : healthy s1 = true) by done. clearbody s1.
    destruct pool as [k|] eqn:Hk; [|spec_step; split; [done|]; intros _; split; [done|rewrite Hk; by intros []]].
    destruct (candidates !! i) as [candidate|] eqn:Hi; [|spec_step; by split].
    eapply spec_seq; [apply claim_rate_spec; [apply Hs1|done]|]. intros s2 l2 blocked [Hs2 Hh2].
    assert (H2 : chosen_state s l s2 l2) by (by eapply chosen_state_trans). rewrite Hok in Hh2. clear Hs1 Hok Hs2 H1.
    destruct blocked as [e|]; [spec_step; by split|]. spec_step. spec_step.
    destruct r as [[rdy delay] observation]. cbn. set (s3 := s2 <| checked := _ |>).
    assert (H3 : chosen_state s2 l2 s3 l2).
    { pose proof (in_call_checks s2 l2 (healthy s2) (if rdy then Some (index candidate) else None) (proj1 (proj2 H2))) as H3.
      subst s3. by destruct s2. }
    assert (Hc3 : rdy = true -> healthy s3 = true /\ checked s3 = Some (index candidate)) by (subst s3; by intros ->).
    clearbody s3. destruct rdy; repeat spec_step; cbn.
    + split; [|intros _; split; [by apply Hc3|]; intros _; exists candidate; split; [done|by apply Hc3]].
      do 2 (eapply chosen_state_trans; [eassumption|]). apply in_call_observed, H3.
    + split; [|done]. by eapply chosen_state_trans.
Qed.

Lemma probe_rest_spec rest : forall s l earliest,
  in_call s l -> spec Conduct s l (probe_rest (ready pool candidates lease) rest earliest) (fun s' l' x =>
    chosen_state s l s' l' /\ length x.1.1 = length rest /\
    forall i key, (i, key) ∈ x.1.1 -> key <> "" -> (i, key) ∈ rest).
Proof.
  induction rest as [|[i key] rest IH]; intros s l earliest Hin; cbn [probe_rest].
  - spec_step. split; [by apply chosen_state_refl|]. done.
  - assert (Htail : forall s1 l1 e k, chosen_state s l s1 l1 -> (k <> "" -> k = key) ->
              spec Conduct s1 l1 (x <- probe_rest (ready pool candidates lease) rest e ;; let '(rest, found, earliest) := x in ret ((i, k) :: rest, found, earliest))
                (fun s' l' x => chosen_state s l s' l' /\ length x.1.1 = length ((i, key) :: rest) /\
                   forall i' key', (i', key') ∈ x.1.1 -> key' <> "" -> (i', key') ∈ (i, key) :: rest)).
    { intros s1 l1 e k H1 Hk. eapply spec_seq; [apply IH, H1|]. intros s2 l2 [[rest' found] e'] (H2 & Hlen & Hsub).
      spec_step. cbn in *. split; [by eapply chosen_state_trans|]. split; [by rewrite Hlen|].
      intros i' key' [[= -> ->]|Hr]%elem_of_cons Hne; [rewrite Hk by done; left|right; eauto]. }
    destruct (String.eqb_spec key "") as [->|Hne]; [by apply Htail; [apply chosen_state_refl|]|].
    eapply spec_seq; [by apply ready_spec|]. intros s1 l1 [rdy cooldown] [H1 _]. cbn. destruct rdy.
    + spec_step. cbn. split; [done|]. split; [done|]. auto.
    + by apply Htail.
Qed.

Definition choice_ok (keys : list (nat * string)) (s : conduct) (x : choice) : Prop :=
  match x with Chosen i key => (i, key) ∈ keys /\ key <> "" /\ go s i | _ => True end.

Lemma choose_key_spec cb fuel : forall s l keys,
  cb_Ready cb = Some (ready pool candidates lease) -> in_call s l ->
  spec Conduct s l (choose_key cb fuel keys) (fun s' l' x => chosen_state s l s' l' /\ choice_ok keys s' x).
Proof.
  intros s l keys Hcb. revert s l keys. induction fuel as [|fuel IH]; intros s l keys Hin; cbn [choose_key].
  { spec_step. split; [by apply chosen_state_refl|done]. }
  destruct keys as [|[i key] rest]; [spec_step; split; [by apply chosen_state_refl|done]|]. rewrite Hcb.
  assert (Hnext : forall s1 l1 rest', chosen_state s l s1 l1 ->
            (forall i key, (i, key) ∈ rest' -> key <> "" -> (i, key) ∈ rest) ->
            spec Conduct s1 l1 (choose_key cb fuel rest') (fun s' l' x => chosen_state s l s' l' /\ choice_ok ((i, key) :: rest) s' x)).
  { intros s1 l1 rest' H1 Hsub. eapply spec_mono; [apply IH, H1|]. cbn. intros s2 l2 x [H2 Hx].
    split; [by eapply chosen_state_trans|]. destruct x as [i' key'| |]; try done. destruct Hx as (Hx & Hne & Hgo).
    split_and!; try done. right. auto. }
  destruct (String.eqb_spec key "") as [->|Hne]; [by apply Hnext; [apply chosen_state_refl|auto]|].
  eapply spec_seq; [by apply ready_spec|]. intros s1 l1 [rdy cooldown] [H1 Hgo]. cbn in *. destruct rdy.
  - spec_step. split; [done|]. split_and!; [left|done|by apply Hgo].
  - eapply spec_seq; [apply probe_rest_spec, H1|]. intros s2 l2 [[rest' found] e] (H2 & Hlen & Hsub). cbn in *.
    assert (H3 : chosen_state s l s2 l2) by (by eapply chosen_state_trans).
    destruct found; [by apply Hnext|]. spec_step. by split.
Qed.

(** ** The callbacks *)

Definition same_identity (e e' : CallError) : Prop :=
  UpstreamNotAttempted e' = UpstreamNotAttempted e /\ Code e' = Code e.

Lemma setCooldownFailure_identity e now : same_identity e (setCooldownFailure e now).
Proof. done. Qed.

Lemma failed_error_identity e until now d : same_identity e (failed_error e until now d).
Proof. unfold failed_error. destruct d as [[delay pd] streak]. repeat case_match; done. Qed.

Lemma failed_calm l i e :
  calm l (failed provider pool candidates i e) (fun l' e' => l' = l /\ same_identity e e').
Proof.
  unfold failed. destruct pool as [k|]; [|calm]. destruct (candidates !! i) as [c|]; [|calm].
  destruct (_ && _); [calm|]. unfold calm.
  eapply spec_seq with (R := fun _ l' x => l' = l /\ same_identity e x.1).
  - destruct (RetryProvided e); repeat spec_step; cbn; (split; [done|]); first [done|by destruct (Time.is_zero _)|by split].
  - intros s' l' [e' until] [-> He]. repeat spec_step. cbn in *. split; [done|].
    destruct r as [[now d]|]; [|done]. destruct He as [H1 H2], (failed_error_identity e' until now d) as [H3 H4]. split; congruence.
Qed.

(** The completion of the health lease inside the call. *)
Lemma completed_spec s l i err :
  in_call s l ->
  spec Conduct s l (completed provider pool candidates lease i err) (fun s' l' _ =>
    s' = s <| health := None |> /\ l' = l <| health_done := true |>).
Proof.
  intros Hin. unfold completed, finish_health. repeat spec_step; cbn; try done; apply Hin.
Qed.

Definition same_locals (l l' : local) : Prop :=
  rate_claim l' = rate_claim l /\ held l' = held l /\ health_done l' = health_done l.

Lemma start_attempt_spec s l k i :
  counter s = None ->
  spec Conduct s l (start_attempt candidates k i) (fun s' l' finish =>
    (exists c, s' = s <| counter := c |>) /\ same_locals l l' /\
    forall s2 l2 result, counter s2 = counter s' ->
      spec Conduct s2 l2 (finish result) (fun s3 l3 _ => s3 = s2 <| counter := None |> /\ same_locals l2 l3)).
Proof.
  intros Hc. unfold start_attempt. repeat spec_step. cbn. split_and!; [by eexists|done|].
  intros s2 l2 result Hc2. do 2 spec_step. destruct r as [c|]; cbn in Hc2.
  - spec_step. done.
  - spec_step. split; [|done]. destruct s2. cbn in *. by subst.
Qed.

(** ** The attempt *)

(** What a call may change before its completion, the attempts apart. *)
Record during (s : conduct) (l : local) (s' : conduct) (l' : local) : Prop := {
  du_health : health s' = health s;
  du_sessions : sessions s' = sessions s;
  du_budget : budget s' = budget s;
  du_slot : slot s' = slot s;
  du_counter : counter s' = None;
  du_call : in_call s' l';
  du_done : health_done l' = health_done l;
}.

Lemma during_trans s1 l1 s2 l2 s3 l3 : during s1 l1 s2 l2 -> during s2 l2 s3 l3 -> during s1 l1 s3 l3.
Proof. intros [] []. split; congruence || done. Qed.

Lemma chosen_during s l s' l' : counter s = None -> chosen_state s l s' l' -> during s l s' l'.
Proof. intros Hc ([] & Hin & Hd). split; congruence || done. Qed.

(** A change that only concerns the counters or the number of attempts. *)
Lemma in_call_same s l s' l' :
  in_call s l -> health s' = health s -> offered s' = offered s -> claim s' = claim s -> sessions s' = sessions s ->
  rate_claim l' = rate_claim l -> held l' = held l -> in_call s' l'.
Proof.
  intros (Hh & Ho & Hn & [Hc Hp Hs]) E1 E2 E3 E4 E5 E6. unfold in_call. rewrite E1, E2. split_and!; try done.
  split; rewrite ?E3, ?E4, ?E5, ?E6; done.
Qed.

(** At most one attempt so far, and none that another route could follow. *)
Definition once (s : conduct) (err : option CallError) : Prop := upstreams s = 0%nat \/ upstreams s = 1%nat /\ final err.

Lemma transport_final e : UpstreamNotAttempted e = true -> Code e = "upstream_transport_error" -> isAvailabilityError (Code e) = false.
Proof. intros _ ->. by vm_compute. Qed.

Section call.
Context (c : UpstreamClient) (price : option Pricing.Price) (options : CallOptions) (prepared : string + string * string)
        (labels : list string) (diagnostics yields : bool).

Let cb : callbacks := gateway_callbacks provider pool candidates lease labels diagnostics yields.
Let call_key := doAttempt ParseTime ToLower c options stream cb.

Definition result_error {A} (r : CallError + A) : option CallError := match r with inl e => Some e | inr _ => None end.

Lemma describe_final key a e :
  raw_error ParseTime ToLower (ErrorCodeMappings c) a = Some e ->
  final (Some (describe c options stream key (att_phase a) (attempt_response a) (att_idle_expired a) e)).
Proof.
  intros Hr e' [= <-] Hu. apply transport_final; [done|].
  apply (attempt_error_unattempted ParseTime ToLower (ErrorCodeMappings c) (secrets c options key) (ForwardErrorMessages c) stream a); [|done].
  unfold attempt_error. by rewrite Hr.
Qed.

(** A callback that keeps the telemetry of one attempt. *)
Definition finisher (s : conduct) (l : local) (s' : conduct) (l' : local) (finish : HTTPAttemptResult -> Proc unit) : Prop :=
  (exists k, s' = s <| counter := k |>) /\ same_locals l l' /\
  forall s2 l2 result, counter s2 = counter s' ->
    spec Conduct s2 l2 (finish result) (fun s3 l3 _ => s3 = s2 <| counter := None |> /\ same_locals l2 l3).

Lemma begin_attempt_spec s l i :
  counter s = None -> spec Conduct s l (begin_attempt cb i) (finisher s l).
Proof.
  intros Hc. assert (Hnone : spec Conduct s l (ret (fun _ => ret tt)) (finisher s l)).
  { spec_step. split_and!; [exists (counter s); by destruct s|done|]. intros s2 l2 result H2. spec_step.
    split; [|done]. by destruct s2; cbn in *; subst; rewrite Hc. }
  unfold begin_attempt, cb, gateway_callbacks, cb_Attempt.
  destruct pool; [destruct diagnostics|]; [by apply start_attempt_spec|exact Hnone..].
Qed.

Lemma doAttempt_spec s l i key :
  in_call s l -> counter s = None -> may_attempt s i key ->
  spec Conduct s l (call_key i key) (fun s' l' r => during s l s' l' /\ once s' (result_error r.2)).
Proof.
  intros Hin Hc Hmay. unfold call_key, doAttempt. spec_step. spec_step. destruct r; cbn.
  1,2: spec_step; split; [by split|left; apply Hmay].
  eapply spec_seq; [by apply begin_attempt_spec|]. intros s1 l1 finish ([k ->] & (E1 & E2 & E3) & Hfin).
  spec_step. spec_step. spec_step. spec_step. spec_step. spec_step.
  match goal with |- spec _ ?s2 ?l2 _ _ => set (S2 := s2); set (L2 := l2) end.
  assert (H2 : in_call S2 L2) by (by eapply in_call_same; try exact Hin).
  assert (Hu2 : upstreams S2 = 1%nat) by (unfold S2; cbn; f_equal; apply Hmay).
  eapply spec_seq with (R := fun s' l' _ => s' = S2 /\ l' = L2).
  { destruct (att_delivered r); spec_step; try done. apply H2. }
  intros s3 l3 _ [-> ->]. eapply spec_seq; [by apply Hfin|]. intros s4 l4 _ [-> (F1 & F2 & F3)].
  spec_step. split.
  - split; try done; [|unfold L2 in F3; cbn in F3; congruence]. by eapply in_call_same; try exact H2.
  - right. split; [done|]. destruct (raw_error _ _ _ r) as [e|] eqn:Hr; [by apply describe_final|done].
Qed.

(** What a finished call owes: without an attempt the upstream saw nothing. *)
Definition owed (s : conduct) (o : outcome) : Prop :=
  match o_attempted o with None => upstreams s = 0%nat | Some _ => once s (o_err o) end.

Lemma final_identity e e' : same_identity e e' -> final (Some e) -> final (Some e').
Proof. intros [H1 H2] H x [= <-]. rewrite H1, H2. by apply H. Qed.

Lemma once_identity s e e' : same_identity e e' -> once s (Some e) -> once s (Some e').
Proof. intros He [H|[H1 H2]]; [by left|right]. split; [done|by eapply final_identity]. Qed.

Lemma once_success s err : once s err -> once s None.
Proof. intros [H|[H _]]; [by left|by right]. Qed.

Definition attempted_outcome (s : conduct) (l : local) (i : nat) (s' : conduct) (l' : local) (o : outcome) : Prop :=
  during s l s' l' /\ owed s' o /\ o_attempted o = Some i /\ o_yielded o = false.

Lemma answered_calm l id a attempted data usage :
  calm l (answered price options id a attempted data usage)
    (fun l' o => l' = l /\ o_err o = None /\ o_attempted o = attempted /\ o_yielded o = false).
Proof.
  unfold answered. eapply spec_seq with (R := fun _ l' _ => l' = l); [destruct (audit_cost _); [calm|apply localEstimate_calm]|].
  intros ? ? ? ->. eapply spec_seq with (R := fun _ l' _ => l' = l); [destruct (RequestScopedSession options); calm|].
  intros ? ? ? ->. by calm.
Qed.

Lemma attempt_with_spec s l id a i key :
  in_call s l -> counter s = None -> may_attempt s i key ->
  spec Conduct s l (attempt_with ParseTime ToLower c price options stream cb id a i key) (attempted_outcome s l i).
Proof.
  intros Hin Hc Hmay. unfold attempt_with. eapply spec_seq; [by apply doAttempt_spec|].
  intros s1 l1 [observed [e|att]] [Hd Ho]; cbn in Ho; cbn [fst snd].
  - eapply spec_calm; [apply failed_calm|]. intros l2 e' [-> He].
    eapply spec_calm with (Q := fun l' _ => l' = l1); [destruct observed; [apply localEstimate_calm|calm]|].
    intros ? ? ->. spec_step. split_and!; try done.
    cbn. eapply once_identity, Ho. done.
  - destruct (att_result att); try (spec_step; by split_and!).
    eapply spec_mono; [apply calm_conduct, answered_calm|]. cbn. intros s2 l2 o (-> & -> & He & Hi & Hy).
    unfold attempted_outcome, owed in *. by rewrite Hi, He.
Qed.

(** The keys of the call are those of the candidates. *)
Definition keyed (keys : list (nat * string)) : Prop :=
  forall i k, (i, k) ∈ keys -> is_Some pool -> exists x, candidates !! i = Some x /\ KeyPool.key x = k.

Lemma keyed_candidates : keyed (zip (List.seq 0 (length (KeyPool.key <$> candidates))) (KeyPool.key <$> candidates)).
Proof.
  intros i k Hin _. rewrite length_fmap in Hin. apply list_elem_of_lookup in Hin as [j Hj].
  rewrite lookup_zip_with_Some in Hj. destruct Hj as (x & y & [= -> ->] & Hx & Hy).
  apply lookup_seq in Hx as [-> _]. rewrite list_lookup_fmap in Hy. cbn.
  destruct (candidates !! j) as [z|]; [|done]. injection Hy as <-. by exists z.
Qed.

Lemma go_may_attempt s i key keys :
  keyed keys -> (i, key) ∈ keys -> go s i -> upstreams s = 0%nat -> slot s = true ->
  health s = Some lease -> (is_Some pool -> offered s = candidates) -> (pool = None -> offered s = []) ->
  may_attempt s i key.
Proof.
  intros Hk Hin [Hh Hgo] Hu Hs He Ho Hn. split_and!; try done. intros Hne.
  assert (Hp : is_Some pool) by (destruct pool; [done|by destruct Hne; apply Hn]).
  destruct (Hgo Hp) as (x & Hx & Hc). exists (index x). split; [done|]. rewrite (Ho Hp), Hx.
  destruct (Hk _ _ Hin Hp) as (y & Hy & <-). rewrite Hx in Hy. injection Hy as <-. by destruct x.
Qed.

Definition outcome_ok (s : conduct) (l : local) (s' : conduct) (l' : local) (o : outcome) : Prop :=
  during s l s' l' /\ owed s' o.

Lemma gated_body_spec s l started id a keys :
  keyed keys -> in_call s l -> counter s = None -> upstreams s = 0%nat -> slot s = true ->
  spec Conduct s l (gated_body ParseTime ToLower c price options stream cb started id a keys) (outcome_ok s l).
Proof.
  intros Hk Hin Hc Hu Hs. unfold gated_body. eapply spec_seq; [by apply choose_key_spec|].
  intros s1 l1 k [H1 Hx]. assert (Hd : during s l s1 l1) by (by apply chosen_during).
  assert (Hu1 : upstreams s1 = 0%nat) by (destruct H1 as [[] _]; congruence).
  destruct k as [i key|earliest|].
  - destruct Hx as (Hi & _ & Hgo). spec_step. spec_step; try done. destruct r.
    + spec_step. by split.
    + eapply spec_mono; [apply attempt_with_spec; [apply Hd..|]|].
      * destruct (du_call _ _ _ _ Hd) as (E1 & E2 & E3 & _). eapply go_may_attempt; try done. pose proof (du_slot _ _ _ _ Hd) as E4. cbn. congruence.
      * intros s2 l2 o (H2 & Ho & _). split; [by eapply during_trans|done].
  - spec_step. split; [done|]. destruct (cb_YieldUnavailable cb); done.
  - eapply spec_mono; [apply calm_conduct, answered_calm|]. cbn. intros s2 l2 o (-> & -> & He & Hi & _).
    split; [done|]. unfold owed. by rewrite Hi.
Qed.

Lemma reclassify_timeout_calm l s o :
  owed s o -> calm l (reclassify_timeout o) (fun l' o' => l' = l /\ owed s o' /\ o_attempted o' = o_attempted o).
Proof.
  intros Ho. unfold reclassify_timeout. destruct (o_err o) as [e|] eqn:He; calm.
  split_and!; try done. unfold owed in *. cbn. destruct (o_attempted o); [|done].
  destruct Ho as [H|[H _]]; [by left|right]. split; [done|]. by intros ? [= <-].
Qed.

(** The state in which a call leaves the conduct of its request. *)
Record ended (s : conduct) (l : local) (s' : conduct) (l' : local) : Prop := {
  en_sessions : sessions s' = sessions s;
  en_budget : budget s' = budget s;
  en_slot : slot s' = false;
  en_counter : counter s' = None;
  en_linked : linked pool s' l';
  en_health : health s' = (if health_done l' then None else Some lease);
}.

Lemma under_gate_spec s l started id a keys :
  keyed keys -> in_call s l -> counter s = None -> upstreams s = 0%nat -> slot s = true -> health_done l = false ->
  spec Conduct s l (under_gate ParseTime ToLower c price options stream cb started id a keys)
    (fun s' l' o => ended s l s' l' /\ owed s' o).
Proof.
  intros Hk Hin Hc Hu Hs Hd. unfold under_gate. spec_step. spec_step; try done. destruct r as [why|].
  { spec_step. spec_step; try done. spec_step. split; [|done]. destruct Hin as (Hh & _ & _ & [L1 L2 L3]).
    split; try done. cbn. by rewrite Hd. }
  eapply spec_seq; [by apply gated_body_spec|]. intros s1 l1 o [Hdur Ho].
  eapply spec_calm; [by apply reclassify_timeout_calm|]. cbn. intros l2 o' (-> & Ho' & Ea). clear Ho.
  destruct Hdur as [D1 D2 D3 D4 D5 D6 D7]. cbn in D1, D2, D3, D4.
  assert (Hrel : forall s2 l2, sessions s2 = sessions s1 -> budget s2 = budget s1 -> upstreams s2 = upstreams s1 ->
            slot s2 = true -> counter s2 = None -> linked pool s2 l2 -> health s2 = (if health_done l2 then None else Some lease) ->
            spec Conduct s2 l2 (perform GateRelease ;;; ret o') (fun s' l' o => ended s l s' l' /\ owed s' o)).
  { intros s2 l2 E1 E2 E3 E4 E5 [L1 L2 L3] E7. spec_step. spec_step; try done. spec_step. split.
    - split; try done; cbn; congruence.
    - unfold owed in *. destruct (o_attempted o'); cbn; [|congruence].
      destruct Ho' as [H|[H1 H2]]; [left; cbn; congruence|right; cbn; split; [congruence|done]]. }
  destruct D6 as (Hh & Ho & Hn & Hl). destruct (o_attempted o') as [i|] eqn:Hi.
  - eapply spec_seq; [by apply completed_spec|]. intros s2 l2 _ [-> ->]. apply Hrel; try done; [by rewrite <- Hs, <- D4|].
    destruct Hl. by split.
  - apply spec_bind, spec_ret. apply Hrel; try done; [congruence|]. by rewrite D7, Hd, Hh.
Qed.

Lemma once_attempted s err e : UpstreamNotAttempted e = false -> once s err -> once s (Some e).
Proof. intros He [H|[H _]]; [by left|right]. split; [done|]. intros x [= <-]. by rewrite He. Qed.

Lemma cancellation_once s ctx a e : once s (Some e) -> once s (Some (snd (cancellation ctx a e))).
Proof. destruct ctx as [why|]; [|done]. apply once_attempted. by destruct why. Qed.

Lemma owed_once s o : owed s o -> once s (o_err o).
Proof. unfold owed. destruct (o_attempted o); [done|by left]. Qed.

Lemma owed_intro s o o' : owed s o -> o_attempted o' = o_attempted o -> (once s (o_err o) -> once s (o_err o')) -> owed s o'.
Proof. unfold owed. intros Ho -> H. destruct (o_attempted o); auto. Qed.

Lemma conclude_calm l s o : owed s o -> calm l (conclude price o) (fun l' o' => l' = l /\ owed s o').
Proof.
  intros Ho. unfold conclude. destruct (o_yielded o); [by calm|]. unfold calm.
  eapply spec_seq with (R := fun _ l' _ => l' = l). { destruct (o_attempted o); [apply localEstimate_calm|calm]. }
  intros [] ? a ->.
  eapply spec_seq with (R := fun _ l' x => l' = l /\ (once s (o_err o) -> once s x.2)).
  { destruct (o_err o) as [e|]; [|by calm]. spec_step. spec_step; try done.
    pose proof (cancellation_once s r a e) as Hx. destruct (cancellation r a e) as [a' e']. cbn in Hx.
    repeat spec_step. split; [done|]. intros H. eapply once_identity; [|by apply Hx]. done. }
  intros [] ? [a' err] [-> Herr]. cbn in Herr. spec_step. spec_step. destruct r.
  - spec_step. split; [done|]. destruct (o_attempted o) eqn:Ea.
    + eapply owed_intro; [exact Ho|by cbn; rewrite Ea|]. cbn. by destruct err.
    + unfold owed in *. cbn. rewrite Ea in Ho |- *. done.
  - repeat spec_step. split; [done|]. destruct (o_attempted o) eqn:Ea.
    + eapply owed_intro; [exact Ho|by cbn; rewrite Ea|]. cbn. by apply once_attempted.
    + unfold owed in *. cbn. rewrite Ea in Ho |- *. done.
Qed.

(** A call from the queue on, and as a whole. *)
Definition start_ok (s : conduct) (l : local) : Prop :=
  in_call s l /\ counter s = None /\ upstreams s = 0%nat /\ slot s = false /\ health_done l = false.

Lemma start_ended s l : start_ok s l -> ended s l s l.
Proof. intros ((Hh & _ & _ & Hl) & Hc & _ & Hs & Hd). split; try done. by rewrite Hd. Qed.

Lemma queued_call_spec s l started id :
  start_ok s l -> forall keys, keyed (zip (List.seq 0 (length keys)) keys) ->
  spec Conduct s l (queued_call ParseTime ToLower c price options stream cb started id keys)
    (fun s' l' o => ended s l s' l' /\ owed s' o).
Proof.
  intros Hok keys Hk. destruct (start_ended s l Hok). destruct Hok as (Hin & Hc & Hu & Hs & Hd). unfold queued_call. spec_step. spec_step; try done.
  destruct r as [[[] waited] ms]; cbn.
  - eapply spec_seq; [apply under_gate_spec; try done|].
    + eapply in_call_same; try exact Hin; done.
    + intros s1 l1 o [He Ho]. eapply spec_mono; [apply calm_conduct, conclude_calm, Ho|].
      intros s2 l2 o' (-> & -> & Ho'). split; [|done]. destruct He. by split.
  - spec_step. spec_step. eapply spec_mono; [apply calm_conduct, conclude_calm; by instantiate (1 := s)|].
    intros s2 l2 o' (-> & -> & Ho'). split; [|done]. split; try done. by destruct en_linked0; split.
Qed.

Lemma callWithKeyCandidates_spec s l :
  start_ok s l -> candidates <> [] ->
  spec Conduct s l
    (callWithKeyCandidates ParseTime ToLower prepared c price protocol options stream cb (KeyPool.key <$> candidates))
    (fun s' l' r => ended s l s' l' /\ once s' r.2).
Proof.
  intros Hok Hne. pose proof (start_ended s l Hok) as He. pose proof Hok as (_ & _ & Hu & _ & _).
  unfold callWithKeyCandidates. repeat spec_step; try done; try (split; [done|by left]).
  replace (match KeyPool.key <$> candidates with [] => _ | _ => _ end) with (KeyPool.key <$> candidates) by by destruct candidates.
  eapply spec_mono; [by apply queued_call_spec, keyed_candidates|]. cbn. intros s' l' o [Ho1 Ho2]. spec_step.
  split; [done|by apply owed_once].
Qed.
End call.
End candidates.

(** ** One route *)

(** What holds around the call of a route once its lease was given. *)
Record returned (pool : option pool_ptr) (lease : nat) (s : conduct) (l : local) : Prop := {
  rt_budget : budget s = None;
  rt_slot : slot s = false;
  rt_counter : counter s = None;
  rt_linked : linked pool s l;
  rt_health : health s = (if health_done l then None else Some lease);
}.

(** ... before it. *)
Definition prepared (pool : option pool_ptr) (lease : nat) (s : conduct) (l : local) : Prop :=
  returned pool lease s l /\ health_done l = false /\ offered s = [] /\ upstreams s = 0%nat.

Definition err_of (r : call_result) : option CallError := let '(_, _, err, _) := r in err.

Definition route_ok (pool : option pool_ptr) (lease : nat) (s : conduct) (l : local) (r : call_result) : Prop :=
  returned pool lease s l /\ once s (err_of r).

Lemma prepared_route_ok pool lease s l r : prepared pool lease s l -> route_ok pool lease s l r.
Proof. intros (H & _ & _ & Hu). split; [done|by left]. Qed.

(** Changes of the sessions, the candidates and the budget. *)
Lemma returned_sessions pool lease s l m :
  returned pool lease s l -> returned pool lease (s <| sessions := m |>) (l <| held := m |>).
Proof. intros [H1 H2 H3 [L1 L2 L3] H5]. by split. Qed.

Lemma prepared_sessions pool lease s l m :
  prepared pool lease s l -> prepared pool lease (s <| sessions := m |>) (l <| held := m |>).
Proof. intros (H & Hd & Ho & Hu). split_and!; try done. by apply returned_sessions. Qed.

Lemma pool_candidates_spec s l r pool :
  offered s = [] ->
  spec Conduct s l (pool_candidates client_of r pool) (fun s' l' x =>
    l' = l /\ (exists o, s' = s <| offered := o |>) /\
    forall candidates, x = inl candidates ->
      candidates <> [] /\ (is_Some pool -> offered s' = candidates) /\ (pool = None -> offered s' = [])).
Proof.
  intros Hs. unfold pool_candidates, rejected. destruct pool as [k|].
  - spec_step. spec_step. destruct r0 as [candidates delay]. destruct candidates as [|x cs]; cbn.
    + destruct (rebinds r); repeat spec_step; (split_and!; [done|by eexists|]; by intros).
    + spec_step. split_and!; [done|by eexists|]. intros ? [= <-]. by split_and!.
  - spec_step. split_and!; [done|by exists (offered s); destruct s|]. intros ? [= <-]. split_and!; [done|by intros []|done].
Qed.

Definition reserved_for (ref : string) (r : option (string * string)) : option reservation :=
  (fun '(id, currency) => Reserved id ref currency) <$> r.

Lemma reserve_budget_spec s l ref upstreamModel :
  budget s = None ->
  spec Conduct s l (reserve_budget ToLower hostname h confirmed ref upstreamModel) (fun s' l' x =>
    l' = l /\ match x with
              | inl r => s' = s <| budget := reserved_for ref r |>
              | inr result => s' = s /\ result = handled_result
              end).
Proof.
  intros Hb. assert (Hs : s = s <| budget := None |>) by (destruct s; cbn in *; by subst).
  unfold reserve_budget, rejected. repeat spec_step; try done.
  eapply spec_mono; [apply calm_conduct, budget_rejection_calm|]. intros s' l' x (-> & -> & ->). by spec_step.
Qed.

Lemma settle_budget_spec s l ref r id err :
  budget s = reserved_for ref r ->
  spec Conduct s l (settle_budget ref r id err) (fun s' l' _ => l' = l /\ s' = s <| budget := None |>).
Proof.
  intros Hb. unfold settle_budget. destruct r as [[rid currency]|]; [|spec_step; split; [done|by destruct s; cbn in *; subst]].
  cbn in Hb. eapply spec_seq with (R := fun s' l' failure => l' = l /\ s' = s <| budget := settle failure (budget s) |>).
  - destruct err as [e|]; [destruct (UpstreamNotAttempted e); [|destruct (BudgetCost e)]|]; spec_step; cbn; eauto.
  - intros s' l' failure [-> ->]. rewrite Hb. destruct failure; repeat spec_step; done.
Qed.

Lemma call_with_session_spec s l lease r routeBody upstreamModel options :
  prepared (keyPools !! route_provider r) lease s l ->
  spec Conduct s l (call_with_session ParseTime ToLower hostname h client_of keyPools labels_of protocol confirmed stream
                      prepareFor lease r routeBody upstreamModel options)
    (route_ok (keyPools !! route_provider r) lease).
Proof.
  intros (Hr & Hd & Ho & Hu). unfold call_with_session. set (pool := keyPools !! route_provider r) in *.
  eapply spec_seq; [by apply pool_candidates_spec|]. intros s1 l1 x (-> & [o ->] & Hx).
  assert (H1 : returned pool lease (s <| offered := o |>) l) by (destruct Hr as [? ? ? [] ?]; by split).
  destruct x as [candidates|result]; [|spec_step; split; [done|by left]].
  destruct (Hx _ eq_refl) as (Hne & Hsome & Hnone). clear Hx.
  eapply spec_seq; [apply reserve_budget_spec, H1|]. intros s2 l2 x [-> Hx].
  destruct x as [reservation|result]; [subst s2|destruct Hx as [-> ->]; spec_step; split; [done|by left]].
  destruct H1 as [B1 B2 B3 [L1 L2 L3] B5]. eapply spec_seq.
  { apply callWithKeyCandidates_spec with (lease := lease) (pool := pool); [|exact Hne].
    split; [|by split_and!]. split_and!; try done. cbn in *. by rewrite B5, Hd. }
  intros s3 l3 [[response id] err] [[E1 E2 E3 E4 [L1' L2' L3'] E6] Honce]. cbn in Honce.
  eapply spec_seq; [apply settle_budget_spec, E2|]. intros s4 l4 _ [-> ->]. spec_step. by split.
Qed.

Lemma acquire_session_spec pool lease s l ref limit :
  limit = limit_of ref -> prepared pool lease s l -> spec Conduct s l (acquire_session ref limit) (fun s' l' _ => prepared pool lease s' l').
Proof.
  intros Hlim H. unfold acquire_session. repeat spec_step; by apply prepared_sessions || (destruct H as ([? ? ? [] ?] & _); split).
Qed.

Lemma release_session_spec pool lease s l ref err :
  returned pool lease s l -> once s err ->
  spec Conduct s l (release_session ref) (fun s' l' _ => returned pool lease s' l' /\ once s' err).
Proof.
  intros H Ho. unfold release_session. repeat spec_step; [|split; [by apply returned_sessions|done]].
  cbn. destruct H as [? ? ? [] ?]. done.
Qed.

Lemma callRouteCandidate_spec s l lease r options :
  prepared (keyPools !! route_provider r) lease s l ->
  spec Conduct s l (callRouteCandidate ParseTime ToLower hostname h client_of keyPools labels_of protocol confirmed stream
                      replaceRequestModel prepareFor lease r options)
    (route_ok (keyPools !! route_provider r) lease).
Proof.
  intros H. assert (Hrej : forall s l a b c d, prepared (keyPools !! route_provider r) lease s l ->
    spec Conduct s l (rejected a b c d) (route_ok (keyPools !! route_provider r) lease)).
  { intros s1 l1 a b c d H1. eapply spec_mono; [apply calm_conduct, rejected_calm|].
    intros s2 l2 x (-> & -> & _). by apply prepared_route_ok. }
  unfold callRouteCandidate. destruct (route_rejection h r) as [[[status code] param]|]; [by apply Hrej|].
  cbv zeta. destruct (replaceRequestModel _) as [routeBody|]; [|by apply Hrej].
  eapply spec_seq; [by apply acquire_session_spec, H || apply Hlimit|]. intros s1 l1 e H1. cbn in H1. destruct e as [e|].
  { eapply spec_mono; [apply calm_conduct, session_rejection_calm|]. intros s2 l2 x (-> & -> & _). by apply prepared_route_ok. }
  eapply spec_seq; [by apply call_with_session_spec|]. intros s2 l2 [[[response id] err] handled] [H2 Ho]. cbn in Ho.
  destruct (_ || _); [eapply spec_seq; [by apply release_session_spec|]|spec_step; spec_step];
    [intros s3 l3 _ [H3 Ho3]|]; spec_step; by split.
Qed.

(** ** A route with its recovery *)

(** What holds between two routes of a request. *)
Record idle (s : conduct) (l : local) : Prop := {
  id_health : health s = None;
  id_claim : claim s = None;
  id_local : rate_claim l = None;
  id_budget : budget s = None;
  id_slot : slot s = false;
  id_counter : counter s = None;
  id_held : sessions s = held l;
}.

(** ... when the lease of the health table is completed, the claim not yet. *)
Record completed_route (pool : option pool_ptr) (s : conduct) (l : local) : Prop := {
  cr_health : health s = None;
  cr_budget : budget s = None;
  cr_slot : slot s = false;
  cr_counter : counter s = None;
  cr_linked : linked pool s l;
}.

Lemma idle_same s l l' : idle s l -> rate_claim l' = rate_claim l -> held l' = held l -> idle s l'.
Proof. intros [] H1 H2. split; congruence. Qed.

Abbreviation pool_of r := (keyPools !! route_provider r).

Definition closed_route (r : routeStep) (s : conduct) (l : local) (x : call_result) : Prop :=
  completed_route (pool_of r) s l /\ once s (err_of x).

Lemma call_with_health_spec s l lease r options :
  returned (pool_of r) lease s (l <| health_done := false |>) -> offered s = [] -> upstreams s = 0%nat ->
  spec Conduct s l (call_with_health ParseTime ToLower hostname h client_of keyPools labels_of protocol confirmed stream
                      replaceRequestModel prepareFor lease r options) (closed_route r).
Proof.
  intros Hr Ho Hu. unfold call_with_health. spec_step. spec_step.
  eapply spec_seq; [by apply callRouteCandidate_spec|]. intros s1 l1 [[[response id] err] handled] [H1 Honce].
  eapply spec_calm with (Q := fun l' _ => l' = l1); [calm|]. intros l2 _ ->.
  destruct H1 as [B1 B2 B3 B4 B5]. spec_step. spec_step.
  eapply spec_seq with (R := fun s' l' _ => l' = l1 /\ s' = s1 <| health := None |>).
  - destruct (health_done l1) eqn:Hd; [spec_step; split; [done|by destruct s1; cbn in *; subst]|].
    repeat spec_step; try done.
  - intros s3 l3 _ [-> ->]. spec_step. split; [|done]. destruct B4. by split.
Qed.

Lemma health_refused_calm l r e :
  calm l (health_refused r e) (fun l' x => l' = l).
Proof. unfold health_refused, rejected. calm. Qed.

Lemma call_with_claim_spec s l r options :
  completed_route (pool_of r) s l -> upstreams s = 0%nat ->
  spec Conduct s l (call_with_claim ParseTime ToLower hostname h client_of keyPools labels_of protocol confirmed stream
                      replaceRequestModel prepareFor r options) (closed_route r).
Proof.
  intros [C1 C2 C3 C4 [L1 L2 L3]] Hu. unfold call_with_claim. spec_step. spec_step; try done. destruct r0 as [lease [e|]]; cbn.
  - eapply spec_mono; [apply calm_conduct, health_refused_calm|]. intros s' l' x [-> ->]. split; [by split|by left].
  - by apply call_with_health_spec.
Qed.

Lemma finish_claim_spec s l pool :
  completed_route pool s l -> spec Conduct s l (finish_claim pool) (fun s' l' _ => idle s' l' /\ upstreams s' = upstreams s).
Proof.
  intros [C1 C2 C3 C4 [L1 L2 L3]]. unfold finish_claim. do 2 spec_step.
  destruct (claim s) as [[k c]|] eqn:Hc; cbn in L1; rewrite L1.
  - rewrite (L2 _ _ eq_refl). repeat spec_step; [by exists c|]. by split.
  - destruct pool; spec_step; by split.
Qed.

Lemma callRouteWithRecovery_spec s l r options :
  idle s l -> upstreams s = 0%nat ->
  spec Conduct s l (callRouteWithRecovery ParseTime ToLower hostname h client_of keyPools labels_of protocol confirmed
                      stream replaceRequestModel prepareFor r options)
    (fun s' l' x => idle s' l' /\ once s' (err_of x)).
Proof.
  intros [] Hu. unfold callRouteWithRecovery.
  eapply spec_seq with (R := fun s' l' x => l' = l /\ upstreams s' = 0%nat /\
    match x.2 with
    | Some _ => s' = s
    | None => forall l2, rate_claim l2 = x.1 -> held l2 = held l -> completed_route (pool_of r) s' l2
    end).
  - destruct (pool_of r) as [k|].
    + spec_step; try done. destruct r0 as [[c|] [e|]]; cbn; split_and!; try done; intros l2 E1 E2; split; try done;
        split; cbn; rewrite ?E1, ?E2; try done; [by intros ? ? [= <- <-]|by rewrite id_claim0|by rewrite id_claim0].
    + spec_step. split_and!; try done. intros l2 E1 E2. split; try done. split; rewrite ?E1, ?E2, ?id_claim0; done.
  - intros s1 l1 [claim0 [e|]] (-> & Hu1 & H1); cbn in H1.
    + spec_step. subst s1. split; [by split|by left].
    + spec_step. spec_step. eapply spec_seq; [apply call_with_claim_spec; [by apply H1|done]|].
      intros s2 l2 x [H2 Ho]. eapply spec_seq; [by apply finish_claim_spec|]. intros s3 l3 _ [H3 Hu3]. spec_step.
      split; [done|]. destruct Ho as [Ho|[Ho Hf]]; [left; congruence|right; split; [congruence|done]].
Qed.

(** ** The routes of a request *)

Lemma rebind_calm l sessionKey r :
  calm l (rebind routeErrorParameter sessionKey r) (fun l' x => l' = l /\ forall result, x = inr result -> result = handled_result).
Proof. unfold rebind, rejected. calm; (split; [done|]); by intros ? [=]. Qed.

(** Another route is tried only after an error before any attempt. *)
Lemma retries_none remaining l ctx retained r result e s :
  retries remaining l ctx retained r result = Some e -> once s (err_of result) -> upstreams s = 0%nat.
Proof.
  unfold retries. destruct result as [[[response id] err] handled]. cbn. case_match; [done|].
  destruct err as [x|]; [|done]. intros Hx [Ho|[_ Hf]]; [done|]. destruct (UpstreamNotAttempted x) eqn:Hu; [|done].
  by rewrite (Hf x eq_refl Hu) in Hx.
Qed.

Definition routed (s : conduct) (l : local) (x : call_result) : Prop := idle s l /\ once s (err_of x).

Lemma attempt_loop_spec remaining : forall s l sessionKey r options,
  idle s l -> upstreams s = 0%nat ->
  spec Conduct s l (attempt_loop ParseTime ToLower hostname h client_of keyPools labels_of protocol confirmed stream
                      replaceRequestModel prepareFor routeErrorParameter remaining sessionKey r options) routed.
Proof.
  induction remaining as [|remaining IH]; intros s l sessionKey r options Hi Hu; cbn [attempt_loop].
  all: eapply spec_calm; [apply rebind_calm|]; intros l1 x [-> Hx].
  all: destruct x as [r1|result]; [|spec_step; rewrite (Hx _ eq_refl); split; [done|by left]].
  all: eapply spec_seq; [by apply callRouteWithRecovery_spec|]; intros s2 l2 result [H2 Ho].
  all: eapply spec_calm with (Q := fun l' _ => l' = l2); [calm|]; intros l3 retained ->; do 4 spec_step; try done.
  all: destruct (retries _ _ _ _ _ _) as [e|] eqn:Hr; [|by spec_step].
  - by spec_step.
  - apply IH; [done|]. by eapply retries_none.
Qed.

Lemma attemptRoutes_spec s l sessionKey r options :
  idle s l -> upstreams s = 0%nat ->
  spec Conduct s l (attemptRoutes ParseTime ToLower hostname h client_of keyPools labels_of protocol confirmed stream
                      replaceRequestModel prepareFor routeErrorParameter sessionKey r options) 
    (fun s' l' _ => idle s' l' /\ upstreams s' <= 1)%nat.
Proof.
  intros Hi Hu. unfold attemptRoutes. eapply spec_seq; [by apply attempt_loop_spec|].
  intros s1 l1 [[[response id] err] handled] [H1 Ho].
  assert (Hle : (upstreams s1 <= 1)%nat) by (destruct Ho as [->|[-> _]]; lia).
  destruct handled; [by spec_step|]. destruct (local_state_error id err) as [e|]; [|by spec_step].
  eapply spec_mono; [apply calm_conduct, rejected_calm|]. by intros s2 l2 x (-> & -> & _).
Qed.

(** ** The request as a whole *)

(** Everything that was taken is given back. *)
Definition given_back (s : conduct) : Prop :=
  (upstreams s <= 1)%nat /\ health s = None /\ claim s = None /\ sessions s = ∅ /\ budget s = None /\ slot s = false /\
  counter s = None.

Lemma serve_obeys persistent sessionKey r options :
  spec Conduct fresh start_local
    (serve ParseTime ToLower hostname h client_of keyPools labels_of protocol confirmed stream
       replaceRequestModel prepareFor routeErrorParameter persistent sessionKey r options)
    (fun s' _ _ => given_back s').
Proof.
  unfold serve. eapply spec_seq; [by apply attemptRoutes_spec|]. intros s1 l1 [[[response id] err] handled] [[] Hle].
  eapply spec_seq with (R := fun s' l' _ => s' = s1 /\ l' = l1).
  - destruct handled; [by spec_step|]. repeat spec_step; try done.
  - intros s2 l2 retain [-> ->]. repeat spec_step; try done. 
Qed.
End conduct.
