(* ===== verification/RequestFacts.v ===== *)
(** * What one request does, whatever the others do

    Consequences of [serve_obeys] (DispatchFacts.v) for the traces of a
    request: how often it calls the upstream, what it gives back, how it
    settles its budget, and how many routes it tries. *)

From S2P Require Import Prelude GoStrings GoFloat Diagnostics Errors Availability KeyPool Routes.
From S2P Require Pricing Budget AutoChain Routing ProviderSessions Limiter.
From S2P Require Import View Upstream Interaction Dispatch ClientCall RouteCall DispatchFacts.

Local Open Scope proc_scope.

(** ** Procedures that begin no route *)

Definition within_route (a : action) : bool := match a with HealthBegin _ _ => false | _ => true end.
Abbreviation inside := (avoids within_route).

Section route_free.
Context (ParseTime : string -> option time) (ToLower : string -> string) (hostname : string -> option string).
Context (h : handler) (client_of : string -> UpstreamClient) (keyPools : gmap string pool_ptr) (labels_of : pool_ptr -> list string).
Context (protocol : string) (confirmed stream : bool) (replaceRequestModel : string -> option string)
        (prepareFor : string -> string -> string -> string + string * string) (routeErrorParameter : string -> string).

Lemma rejected_inside a b c d : inside (rejected a b c d).
Proof. unfold rejected. avoid. Qed.
#[local] Hint Resolve rejected_inside : avoids.

Section callbacks.
Context (provider : string) (pool : option pool_ptr) (candidates : list providerKeyCandidate) (lease : nat)
        (labels : list string) (diagnostics yields : bool).

Lemma claim_rate_inside k : inside (claim_rate k).
Proof. unfold claim_rate. avoid. Qed.
#[local] Hint Resolve claim_rate_inside : avoids.

Lemma ready_inside i : inside (ready pool candidates lease i).
Proof. unfold ready. avoid. Qed.
#[local] Hint Resolve ready_inside : avoids.

Lemma probe_rest_inside rest : forall e, inside (probe_rest (ready pool candidates lease) rest e).
Proof. induction rest as [|[i key] rest IH]; cbn [probe_rest]; avoid. Qed.
#[local] Hint Resolve probe_rest_inside : avoids.

Let cb := gateway_callbacks provider pool candidates lease labels diagnostics yields.

Lemma choose_key_inside fuel : forall keys, inside (choose_key cb fuel keys).
Proof. induction fuel as [|fuel IH]; intros [|[i key] rest]; cbn [choose_key cb_Ready cb gateway_callbacks]; avoid. Qed.
#[local] Hint Resolve choose_key_inside : avoids.

Lemma failed_inside i e : inside (failed provider pool candidates i e).
Proof. unfold failed. avoid. Qed.
#[local] Hint Resolve failed_inside : avoids.

Lemma completed_inside i err : inside (completed provider pool candidates lease i err).
Proof. unfold completed, finish_health. avoid. Qed.
#[local] Hint Resolve completed_inside : avoids.

Lemma begin_attempt_inside l i : spec (flat within_route) tt l (begin_attempt cb i) (fun _ _ finish => forall r, inside (finish r)).
Proof.
  unfold begin_attempt, cb, gateway_callbacks, cb_Attempt, start_attempt. destruct pool; [destruct diagnostics|]; repeat spec_step; avoid.
Qed.

Context (c : UpstreamClient) (price : option Pricing.Price) (options : CallOptions) (prepared : string + string * string).

Lemma localEstimate_inside a : inside (localEstimate price a).
Proof. unfold localEstimate. avoid. Qed.
#[local] Hint Resolve localEstimate_inside : avoids.

Lemma doAttempt_inside i key : inside (doAttempt ParseTime ToLower c options stream cb i key).
Proof.
  unfold doAttempt. apply avoids_seq; [avoid|]. intros []; [avoid..|]. intros l.
  eapply spec_seq; [apply begin_attempt_inside|]. cbn. intros [] l' finish Hfin. revert l'.
  change (inside (a <- perform (Upstream i key) ;; set (fun l => l <| delivered := delivered l || att_delivered a |>) ;;;
    leases <- get held ;; (if att_delivered a then perform (SessionTouch leases) else ret tt) ;;;
    (let raw := raw_error ParseTime ToLower (ErrorCodeMappings c) a in
       finish (httpAttemptResult (att_cause_deadline a) (att_ctx_canceled a) (ECall <$> raw) (att_timed_out a)) ;;;
       ret (att_observed a, match raw with
            | Some e => inl (describe c options stream key (att_phase a) (attempt_response a) (att_idle_expired a) e)
            | None => inr a
            end)))). avoid.
Qed.
#[local] Hint Resolve doAttempt_inside : avoids.

Lemma gated_body_inside started id a keys : inside (gated_body ParseTime ToLower c price options stream cb started id a keys).
Proof. unfold gated_body, attempt_with, answered. avoid. all: cbn [cb_Failed cb gateway_callbacks]; avoid. Qed.
#[local] Hint Resolve gated_body_inside : avoids.

Lemma under_gate_inside started id a keys : inside (under_gate ParseTime ToLower c price options stream cb started id a keys).
Proof. unfold under_gate, reclassify_timeout. avoid. all: cbn [cb_Completed cb gateway_callbacks]; avoid. Qed.
#[local] Hint Resolve under_gate_inside : avoids.

Lemma callWithKeyCandidates_inside keys :
  inside (callWithKeyCandidates ParseTime ToLower prepared c price protocol options stream cb keys).
Proof. unfold callWithKeyCandidates, queued_call, conclude. avoid. Qed.
End callbacks.
#[local] Hint Resolve callWithKeyCandidates_inside : avoids.

Lemma callRouteCandidate_inside lease r options :
  inside (callRouteCandidate ParseTime ToLower hostname h client_of keyPools labels_of protocol confirmed stream
            replaceRequestModel prepareFor lease r options).
Proof.
  unfold callRouteCandidate, acquire_session, release_session, session_rejection, call_with_session, pool_candidates,
    reserve_budget, budget_rejection, settle_budget. avoid.
Qed.
#[local] Hint Resolve callRouteCandidate_inside : avoids.

Lemma call_with_health_inside lease r options :
  inside (call_with_health ParseTime ToLower hostname h client_of keyPools labels_of protocol confirmed stream
            replaceRequestModel prepareFor lease r options).
Proof. unfold call_with_health. avoid. Qed.

(** ** The number of routes *)

Definition begins_route (a : action) : bool := negb (within_route a).
Abbreviation Routes := (allowance begins_route).

Lemma inside_routes {A} n l (m : Proc A) : inside m -> spec Routes n l m (fun n' _ _ => n' = n).
Proof.
  intros H. eapply spec_mono; [apply (spec_flat within_route Routes n l m (fun _ _ _ => True)); [apply H|]|].
  - intros a Ha. unfold Routes, begins_route. cbn. by rewrite Ha.
  - by intros s' l' x [-> _].
Qed.

Lemma spec_inside {A B} n l (m : Proc A) (f : A -> Proc B) Q :
  inside m -> (forall l' x, spec Routes n l' (f x) Q) -> spec Routes n l (seq m f) Q.
Proof. intros Hm Hf. eapply spec_seq; [by apply inside_routes|]. intros s' l' x ->. apply Hf. Qed.

Lemma callRouteWithRecovery_routes n l r options :
  spec Routes (S n) l (callRouteWithRecovery ParseTime ToLower hostname h client_of keyPools labels_of protocol confirmed
                         stream replaceRequestModel prepareFor r options) (fun n' _ _ => (n <= n')%nat).
Proof.
  unfold callRouteWithRecovery. apply spec_inside; [avoid|]. intros l1 [claim [e|]]; [spec_step; lia|].
  apply spec_inside; [avoid|]. intros l2 _. eapply spec_seq with (R := fun n' _ _ => (n <= n')%nat).
  - unfold call_with_claim. spec_step. spec_step; [intros _; lia|]. destruct r0 as [lease [e|]]; cbn;
      (eapply spec_mono; [apply inside_routes|]); try (intros; cbn in *; lia); [unfold health_refused; avoid|].
    apply call_with_health_inside.
  - intros s3 l3 x H3. apply spec_inside; [unfold finish_claim; avoid|]. intros l4 _. by spec_step.
Qed.

Lemma attempt_loop_routes remaining : forall n l sessionKey r options,
  (remaining < n)%nat -> spec Routes n l (attempt_loop ParseTime ToLower hostname h client_of keyPools labels_of protocol confirmed
    stream replaceRequestModel prepareFor routeErrorParameter remaining sessionKey r options) (fun _ _ _ => True).
Proof.
  induction remaining as [|remaining IH]; intros [|n] l sessionKey r options Hlt; try lia; cbn [attempt_loop].
  all: apply spec_inside; [unfold rebind; avoid|]; intros l1 [r1|result]; [|by spec_step].
  all: eapply spec_seq; [apply callRouteWithRecovery_routes|]; intros n2 l2 result Hn; cbn in Hn.
  all: apply spec_inside; [avoid|]; intros l3 retained; do 2 spec_step; apply spec_inside; [avoid|]; intros l4 ctx.
  all: destruct (retries _ _ _ _ _ _) as [e|]; [|by spec_step].
  - by spec_step.
  - apply IH. lia.
Qed.

Lemma serve_routes persistent sessionKey r options :
  spec Routes (S (size (providers h))) start_local
    (serve ParseTime ToLower hostname h client_of keyPools labels_of protocol confirmed stream replaceRequestModel prepareFor
       routeErrorParameter persistent sessionKey r options) (fun _ _ _ => True).
Proof.
  unfold serve, attemptRoutes. eapply spec_seq with (R := fun _ _ _ => True).
  - eapply spec_seq; [apply attempt_loop_routes; lia|]. intros n l [[[response id] err] handled] _.
    eapply spec_mono; [apply inside_routes; avoid|done].
  - intros n l [[[response id] err] handled] _. eapply spec_mono; [apply inside_routes; avoid|done].
Qed.
End route_free.

(** ** The traces of a request *)

Definition is_upstream (e : event answer) : bool := match projT1 e with Upstream _ _ => true | _ => false end.
Definition is_route (e : event answer) : bool := negb (within_route (projT1 e)).

(** What an event takes from a component, and what it gives back: a lease of
    the health table, a recovery claim of a pool, the slot of the queue, and the
    counters of an attempt. *)
Definition takes_health (e : event answer) : option nat :=
  match projT1 e as a return answer a -> option nat with
  | HealthBegin _ _ => fun r => match r with (l, None) => Some l | _ => None end | _ => fun _ => None end (projT2 e).
Definition gives_health (e : event answer) : option nat := match projT1 e with HealthComplete l _ _ _ => Some l | _ => None end.
Definition takes_claim (e : event answer) : option (pool_ptr * rateRecoveryLease) :=
  match projT1 e as a return answer a -> option (pool_ptr * rateRecoveryLease) with
  | RateBegin k => fun r => match r with (Some c, None) => Some (k, c) | _ => None end | _ => fun _ => None end (projT2 e).
Definition gives_claim (e : event answer) : option (pool_ptr * rateRecoveryLease) :=
  match projT1 e with RateFinish k lease => pair k <$> lease | _ => None end.
Definition takes_slot (e : event answer) : option unit :=
  match projT1 e as a return answer a -> option unit with
  | GateAcquire => fun r => if r.1.1 : bool then Some tt else None | _ => fun _ => None end (projT2 e).
Definition gives_slot (e : event answer) : option unit := match projT1 e with GateRelease => Some tt | _ => None end.
Definition takes_counter (e : event answer) : option (pool_ptr * nat * counters_ptr) :=
  match projT1 e as a return answer a -> option (pool_ptr * nat * counters_ptr) with
  | AttemptBegin k i _ _ _ => fun r => pair (k, i) <$> r | _ => fun _ => None end (projT2 e).
Definition gives_counter (e : event answer) : option (pool_ptr * nat * counters_ptr) :=
  match projT1 e with AttemptEnd k i c _ => Some (k, i, c) | _ => None end.

(** *** One at a time, and the same one back *)

Section paired.
Context {X : Type} (take give : event answer -> option X).

Definition unrelated (e : event answer) : Prop := take e = None /\ give e = None.

(** After whatever is taken the next related event gives just that back. *)
Inductive paired : list (event answer) -> Prop :=
  | paired_none tr : Forall unrelated tr -> paired tr
  | paired_next pre e x mid f tr :
      Forall unrelated pre -> take e = Some x -> Forall unrelated mid -> give f = Some x -> paired tr ->
      paired (pre ++ e :: mid ++ f :: tr).

Lemma paired_skip e tr : unrelated e -> paired tr -> paired (e :: tr).
Proof.
  intros He [tr' H|pre e' x mid f tr' H1 H2 H3 H4 H5]; [apply paired_none; by constructor|].
  apply (paired_next (e :: pre) e' x mid f tr'); try done. by constructor.
Qed.

(** A component of the conduct that holds one thing at a time. *)
Definition held_singly (limit_of : string -> Z) (hold : conduct -> option X) : Prop :=
  forall s a r, permitted limit_of s a ->
    match take (existT a r), give (existT a r) with
    | Some x, None => hold s = None /\ hold (track s a r) = Some x
    | None, Some x => hold s = Some x /\ hold (track s a r) = None
    | None, None => hold (track s a r) = hold s
    | Some _, Some _ => False
    end.

Lemma singly_paired limit_of hold tr s :
  held_singly limit_of hold -> accepts (Conduct_of limit_of) s tr -> hold (state_after (Conduct_of limit_of) s tr) = None ->
  match hold s with
  | None => paired tr
  | Some x => exists mid f tr', tr = mid ++ f :: tr' /\ Forall unrelated mid /\ give f = Some x /\ paired tr'
  end.
Proof.
  intros Hs. revert s. induction tr as [|[a r] tr IH]; intros s; [intros _ H; change (hold s = None) in H; rewrite H; apply paired_none; constructor|].
  intros [Ha Htr] Hend. specialize (IH (track s a r) Htr Hend). specialize (Hs s a r Ha).
  destruct (take (existT a r)) as [x|] eqn:Ht, (give (existT a r)) as [y|] eqn:Hg; [done|..].
  - destruct Hs as [-> E]. rewrite E in IH. destruct IH as (mid & f & tr' & -> & Hmid & Hf & Hp).
    apply (paired_next [] _ x mid f tr'); done.
  - destruct Hs as [-> E]. rewrite E in IH. exists [], (existT a r), tr. split_and!; done.
  - rewrite Hs in IH. destruct (hold s) as [x|]; [|by apply paired_skip]. destruct IH as (mid & f & tr' & -> & Hmid & Hf & Hp).
    exists (existT a r :: mid), f, tr'. split_and!; try done. by constructor.
Qed.
End paired.

(** *** The ledger *)

Definition is_ledger (e : event answer) : bool :=
  match projT1 e with
  | BudgetCheck _ _ _ _ | BudgetRelease _ | BudgetCharge _ _ _ _ | BudgetChargeCost _ _ _ _ _ | BudgetBlock _ _ => true
  | _ => false
  end.

(** [e] releases or charges reservation [id] of a provider; [failure] is the
    answer of the ledger. *)
Inductive settlement (id provider currency : string) (failure : option string) : event answer -> Prop :=
  | settlement_release : settlement id provider currency failure (existT (BudgetRelease id) failure)
  | settlement_charge audit : settlement id provider currency failure (existT (BudgetCharge id audit provider currency) failure)
  | settlement_cost audit cost : settlement id provider currency failure (existT (BudgetChargeCost id audit provider currency cost) failure).

(** The events of the ledger, in order: what is granted is settled next, and a
    settlement that fails is followed by a block of the same provider. *)
Inductive accounted : list (event answer) -> Prop :=
  | accounted_nil : accounted []
  | accounted_refused id provider policy confirmed e tr :
      accounted tr -> accounted (existT (BudgetCheck id provider policy confirmed) (inl e) :: tr)
  | accounted_settled id provider policy confirmed d e tr :
      settlement id provider (Budget.Currency policy) None e -> accounted tr ->
      accounted (existT (BudgetCheck id provider policy confirmed) (inr d) :: e :: tr)
  | accounted_blocked id provider policy confirmed d failure e u tr :
      settlement id provider (Budget.Currency policy) (Some failure) e -> accounted tr ->
      accounted (existT (BudgetCheck id provider policy confirmed) (inr d) :: e ::
                 existT (BudgetBlock provider (Budget.Currency policy)) u :: tr).

(** What follows when a reservation is open, or was left unsettled. *)
Definition accounted_from (r : option reservation) (l : list (event answer)) : Prop :=
  match r with
  | None => accounted l
  | Some (Reserved id p c) => exists e failure rest, l = e :: rest /\ settlement id p c failure e /\
      match failure with
      | None => accounted rest
      | Some _ => exists u rest', rest = existT (BudgetBlock p c) u :: rest' /\ accounted rest'
      end
  | Some (Unsettled p c) => exists u rest, l = existT (BudgetBlock p c) u :: rest /\ accounted rest
  end.

Lemma ledger_accounted limit_of tr s :
  accepts (Conduct_of limit_of) s tr -> budget (state_after (Conduct_of limit_of) s tr) = None ->
  accounted_from (budget s) (List.filter is_ledger tr).
Proof.
  revert s. induction tr as [|[a r] tr IH]; intros s.
  { intros _ H. change (budget s = None) in H. rewrite H. constructor. }
  intros [Ha Htr] Hend. specialize (IH (track s a r) Htr Hend). cbn [List.filter].
  assert (Hsame : is_ledger (existT a r) = false -> budget (track s a r) = budget s -> accounted_from (budget s) (if is_ledger (existT a r) then existT a r :: List.filter is_ledger tr else List.filter is_ledger tr)).
  { intros -> <-. exact IH. }
  destruct a; try (apply Hsame; [done|]; cbn; repeat case_match; done); cbn [is_ledger projT1].
  - (* block *) cbn in Ha, IH. rewrite Ha. by eexists r, _.
  - (* check *) cbn in Ha. rewrite Ha. destruct r as [e|d]; cbn in IH |- *; [rewrite Ha in IH; by constructor|].
    destruct IH as (e & failure & rest & -> & Hset & Hrest). destruct failure as [f|]; [|by eapply accounted_settled].
    destruct Hrest as (u & rest' & -> & Hrest). by eapply accounted_blocked.
  - (* release *) destruct Ha as (p' & c' & Hb). cbn in IH. rewrite Hb in IH |- *. eexists _, r, _. split; [done|]. split; [constructor|]. by destruct r.
  - (* charge *) cbn in Ha, IH. rewrite Ha in IH |- *. eexists _, r, _. split; [done|]. split; [constructor|]. by destruct r.
  - (* cost *) cbn in Ha, IH. rewrite Ha in IH |- *. eexists _, r, _. split; [done|]. split; [constructor|]. by destruct r.
Qed.

Definition holds {A} (x : option A) : nat := match x with Some _ => 1%nat | None => 0%nat end.
Section balances.
Context (limit_of : string -> Z).

Definition balanced (hold : conduct -> nat) (take give : event answer -> bool) : Prop :=
  forall s a r, permitted limit_of s a ->
    (hold (track s a r) + (if give (existT a r) then 1 else 0) = hold s + (if take (existT a r) then 1 else 0))%nat.

Ltac balance a :=
  destruct a; cbn; intros ? Ha; destruct_and?; repeat match goal with H : exists _, _ |- _ => destruct H end; destruct_and?;
  repeat (case_match; simplify_eq/=);
  repeat match goal with H : _ = Some _ |- _ => rewrite H | H : _ = None |- _ => rewrite H | H : _ = true |- _ => rewrite H
                       | H : _ = false |- _ => rewrite H end; unfold settle; cbn; repeat case_match; done.

Definition related {X} (f : event answer -> option X) (e : event answer) : bool := match f e with Some _ => true | None => false end.

Lemma health_balanced : balanced (fun s => holds (health s)) (related takes_health) (related gives_health).
Proof. intros s a. unfold related. balance a. Qed.

Lemma slot_balanced : balanced (fun s => if slot s then 1 else 0)%nat (related takes_slot) (related gives_slot).
Proof. intros s a. unfold related. balance a. Qed.

Ltac singly a :=
  destruct a; cbn; intros ? Ha; destruct_and?; repeat match goal with H : exists _, _ |- _ => destruct H end; destruct_and?; simplify_eq/=;
  repeat (case_match; simplify_eq/=); eauto.

Lemma health_singly : held_singly takes_health gives_health limit_of health.
Proof. intros s a. singly a. Qed.

Lemma claim_singly : held_singly takes_claim gives_claim limit_of claim.
Proof. intros s a. singly a. Qed.

Lemma slot_singly : held_singly takes_slot gives_slot limit_of (fun s => if slot s then Some tt else None).
Proof. intros s a. singly a. Qed.

Lemma counter_singly : held_singly takes_counter gives_counter limit_of counter.
Proof. intros s a. singly a. Qed.

(** Attempts are only counted. *)
Lemma upstream_balanced : balanced upstreams is_upstream (fun _ => false).
Proof. intros s a. balance a. Qed.
End balances.

Section request.
Context (ParseTime : string -> option time) (ToLower : string -> string) (hostname : string -> option string).
Context (h : handler) (client_of : string -> UpstreamClient) (keyPools : gmap string pool_ptr) (labels_of : pool_ptr -> list string).
Context (protocol : string) (confirmed stream : bool) (replaceRequestModel : string -> option string)
        (prepareFor : string -> string -> string -> string + string * string) (routeErrorParameter : string -> string).
Context (persistent : bool) (sessionKey : option sharedModelSessionKey) (r : routeStep) (options : CallOptions).

Definition session_limit (ref : string) : Z := MaxActiveSessions (provider h ref).

Definition request : prog answer (local * unit) :=
  serve ParseTime ToLower hostname h client_of keyPools labels_of protocol confirmed stream replaceRequestModel prepareFor
    routeErrorParameter persistent sessionKey r options start_local.

Lemma request_conduct tr x :
  runs request tr x ->
  accepts (Conduct_of session_limit) fresh tr /\ given_back (state_after (Conduct_of session_limit) fresh tr).
Proof.
  intros Hr. eapply (wp_sound (Conduct_of session_limit) fresh request (fun s _ => given_back s)); [|exact Hr].
  by apply serve_obeys.
Qed.

(** C4. A request keeps to its protocol, under any interference.  Whatever
    the other requests, the upstream and the ledger answer, every action of a
    request is one that the protocol of its components permits at that point:
    leases are completed by the request that began them, recovery claims are
    finished with the lease that was given, sessions are those it holds, and an
    attempt is only made in the queue's slot with a key that was ready; and at
    the end the request holds nothing. *)
Theorem request_refines_conduct tr x :
  runs request tr x ->
  accepts (Conduct_of session_limit) fresh tr /\ given_back (state_after (Conduct_of session_limit) fresh tr).
Proof. apply request_conduct. Qed.

(** C14. Everything taken is given back, one at a time and the same one.  In a
    complete trace of a request, whatever is answered, each lease that the
    health table grants is completed, itself and once, before the next is
    taken; so are recovery claims, of the same pool, slots of the queue, and
    the counters of an attempt with the same key. *)
Theorem request_gives_back tr x :
  runs request tr x ->
  paired takes_health gives_health tr /\ paired takes_claim gives_claim tr /\
  paired takes_slot gives_slot tr /\ paired takes_counter gives_counter tr.
Proof.
  intros [Hacc (_ & H1 & H2 & _ & _ & H3 & H4)]%request_conduct. split_and!.
  - exact (singly_paired _ _ session_limit health tr fresh (health_singly _) Hacc H1).
  - exact (singly_paired _ _ session_limit claim tr fresh (claim_singly _) Hacc H2).
  - apply (singly_paired _ _ session_limit (fun s => if slot s then Some tt else None) tr fresh (slot_singly _) Hacc). by rewrite H3.
  - exact (singly_paired _ _ session_limit counter tr fresh (counter_singly _) Hacc H4).
Qed.

(** C3. Every reservation of budget is settled exactly once, itself.  Among the
    actions of a request on the ledger, whatever is answered, a granted
    reservation is followed by its own release or charge, of its provider and
    currency, before the next check; and when the ledger refuses that, the
    same provider is blocked next.  There are no other settlements. *)
Theorem reservations_settled tr x : runs request tr x -> accounted (List.filter is_ledger tr).
Proof. intros [Hacc (_ & _ & _ & _ & H & _)]%request_conduct. exact (ledger_accounted session_limit tr fresh Hacc H). Qed.

Lemma upstreams_count pre :
  accepts (Conduct_of session_limit) fresh pre -> upstreams (state_after (Conduct_of session_limit) fresh pre) = occurrences is_upstream pre.
Proof.
  intros H. pose proof (accepts_balance (Conduct_of session_limit) upstreams is_upstream (fun _ => false) fresh pre H (upstream_balanced _)) as B.
  assert (Hz : occurrences (fun _ : event answer => false) pre = 0%nat) by (clear; unfold occurrences; by induction pre).
  cbn in *. lia.
Qed.

(** C1. At most one attempt, and no failover after it.  A request calls an
    upstream at most once, and once it did no other route is tried: failover
    only follows an error that precedes every dispatch, so a request is never
    billed twice. *)
Theorem one_upstream_attempt tr x :
  runs request tr x ->
  (occurrences is_upstream tr <= 1)%nat /\
  forall pre i key a post, tr = pre ++ existT (Upstream i key) a :: post -> occurrences is_route post = 0%nat.
Proof.
  intros [Hacc (Hle & _)]%request_conduct. split; [by rewrite <- upstreams_count|].
  intros pre i key a post ->. apply accepts_app in Hacc as [Hpre [Ha Hpost]].
  assert (Hup : forall tr s, accepts (Conduct_of session_limit) s tr -> (0 < upstreams s)%nat -> occurrences is_route tr = 0%nat).
  { induction tr as [|[b ans] tr IH]; intros s; [done|]. intros [Hb Htr] Hs. unfold occurrences in *. cbn.
    assert (Hs' : (0 < upstreams (track s b ans))%nat).
    { pose proof (upstream_balanced session_limit s b ans Hb) as B. cbn in B. destruct (is_upstream _); lia. }
    destruct b; cbn; try exact (IH _ Htr Hs'). cbn in Hb. lia. }
  eapply Hup; [exact Hpost|]. cbn. lia.
Qed.

(** Whatever the answers, the loop of a request over its routes stops after at
    most one call per provider and one more, and for every strategy of answers
    it has a complete run. *)
Theorem request_ends :
  (forall strategy : (forall a, answer a), exists tr x, runs request tr x /\ Forall (fun e : event answer => projT2 e = strategy (projT1 e)) tr) /\
  forall tr x, runs request tr x -> (occurrences is_route tr <= S (size (providers h)))%nat.
Proof.
  split; [apply runs_total|]. intros tr x Hr.
  destruct (wp_sound (allowance begins_route) (S (size (providers h))) request (fun _ _ => True) tr x) as [H _]; [|done|].
  - apply serve_routes.
  - exact (allowance_bound begins_route _ tr H).
Qed.

(** ** What an attempt was preceded by *)

Definition is_check (e : event answer) : bool := match projT1 e with CandidateState _ _ => true | _ => false end.

(** The last check of a key in [pre] found key [j] ready. *)
Definition last_ready (pre : list (event answer)) (j : nat) : Prop :=
  exists k delay observation pre1 pre2,
    pre = pre1 ++ existT (CandidateState k j) (true, delay, observation) :: pre2 /\ occurrences is_check pre2 = 0%nat.

Lemma last_ready_snoc pre e j : is_check e = false -> last_ready pre j -> last_ready (pre ++ [e]) j.
Proof.
  intros He (k & d & o & pre1 & pre2 & -> & H). exists k, d, o, pre1, (pre2 ++ [e]).
  split; [by rewrite <- app_assoc|]. by rewrite occurrences_snoc, H, He.
Qed.

Lemma checked_last_ready pre j :
  checked (state_after (Conduct_of session_limit) fresh pre) = Some j -> last_ready pre j.
Proof.
  induction pre as [|[a ans] pre IH] using rev_ind; [done|]. rewrite state_after_app. cbn.
  set (s := state_after _ _ pre) in *. unfold advance. cbn. intros H.
  destruct a; cbn in H; try (apply last_ready_snoc; [done|]; apply IH; try done; by repeat case_match).
  destruct ans as [[[] delay] observation]; cbn in H; [|done]. injection H as <-. by exists k, delay, observation, pre, [].
Qed.

(** C15. An attempt is made with a ready key, under the limits.  When a request
    calls the upstream it is in its slot of the queue, its lease of the health
    table is not completed, and if the provider's pool offered candidates, the
    key is that of a candidate whose last check, after the queue, found it
    ready. *)
Theorem attempt_with_ready_key tr x pre i key a post :
  runs request tr x -> tr = pre ++ existT (Upstream i key) a :: post ->
  occurrences (related takes_slot) pre = S (occurrences (related gives_slot) pre) /\
  occurrences (related takes_health) pre = S (occurrences (related gives_health) pre) /\
  (offered (state_after (Conduct_of session_limit) fresh pre) <> [] ->
   exists j, last_ready pre j /\ offered (state_after (Conduct_of session_limit) fresh pre) !! i = Some (Candidate j key)).
Proof.
  intros [Hacc _]%request_conduct ->. apply accepts_app in Hacc as [Hpre [(_ & Hslot & [l Hh] & _ & Hkey) _]].
  pose proof (accepts_balance (Conduct_of session_limit) _ _ _ fresh pre Hpre (slot_balanced session_limit)) as Bs.
  pose proof (accepts_balance (Conduct_of session_limit) _ _ _ fresh pre Hpre (health_balanced session_limit)) as Bh.
  cbn beta in Bs, Bh. rewrite Hslot in Bs. rewrite Hh in Bh. cbn in Bs, Bh. split_and!; try lia.
  intros Hne. destruct (Hkey Hne) as (j & Hj & Hi). exists j. split; [|done]. by apply checked_last_ready.
Qed.
End request.
