(* ===== verification/System.v ===== *)
(** * The gateway: requests that share the components

    Requests of RouteCall.v run interleaved, one action at a time, on one
    health table, the key pools of all configurations, and the sessions of the
    providers; configurations are published in between, and may change any
    setting.  An action has the effect its component defines (Availability.v,
    KeyPool.v, ProviderSessions.v); the answers of the ledger, the queue, the
    upstream and the clock are arbitrary.

    The system is shown to implement the step systems of the components, whose
    invariants assume that leases are completed by those that hold them. *)

From S2P Require Import Prelude GoStrings GoFloat Diagnostics Errors Availability AvailabilityFacts KeyPool KeyPoolTraces KeyPoolClaims Routes.
From S2P Require Pricing Budget AutoChain Routing ProviderSessions Limiter.
From S2P Require Import View Upstream Interaction Dispatch ClientCall RouteCall DispatchFacts.

(** ** The shared state *)

Record shared := {
  health_table : availabilityState;                     (** [Server.availability] *)
  key_pools : gmap nat providerKeyPool;
  servers : gmap nat providerRetryState;                (** the waits that pools share *)
  next_claim : nat;
  provider_sessions : ProviderSessions.Providers.state;
}.

#[export] Instance shared_eta : Eta shared := fun s =>
  {| health_table := health_table s; key_pools := key_pools s; servers := servers s; next_claim := next_claim s;
     provider_sessions := provider_sessions s |}.

(** A request in flight: its session identity, the configuration it was
    admitted under, what it holds, and what it still does. *)
Record thread := {
  th_session : string;
  th_view : handler;
  th_conduct : conduct;
  th_todo : prog answer (local * unit);
}.

Record gateway := { sh : shared; running : gmap nat thread }.

(** ** The effect of an action *)

Section effects.
Context {Range : MapRange availabilityTarget nat}.
(** The configuration and the session identity of the request. *)
Context (v : handler) (id : string).

Definition set_pool (s : shared) (k : nat) (q : providerKeyPool) (t : providerRetryState) : shared :=
  s <| key_pools := <[k := q]> (key_pools s) |> <| servers := <[providerRetry q := t]> (servers s) |>.

(** [f] relates the pool and its wait before and after. *)
Definition on_pool (s : shared) (k : nat)
    (f : providerKeyPool -> providerRetryState -> providerKeyPool -> providerRetryState -> Prop) (s' : shared) : Prop :=
  exists p t q t', key_pools s !! k = Some p /\ servers s !! providerRetry p = Some t /\ providerRetry q = providerRetry p /\
                   f p t q t' /\ s' = set_pool s k q t'.

(** The provider has not changed since the request was admitted. *)
Definition still_current (s : shared) (ref : string) : bool :=
  (withCurrent (health_table s) (routingEpoch v) ref (generation v ref) (fun _ => tt) tt).2.

(** Queries of the health table, which forget expired entries. *)
Definition query (t : availabilityState) (q : string * string * time) : availabilityState :=
  let '(ref, model, now) := q in (available t (routingEpoch v) ref model (generation v ref) now).1.

Definition effect (s : shared) (a : action) : answer a -> shared -> Prop :=
  match a as a return answer a -> shared -> Prop with
  | HealthBegin ref model => fun (r : nat * option CallError) s' => exists now t trs,
      begin (health_table s) (routingEpoch v) ref model (generation v ref) now = (t, r.1, r.2, trs) /\ s' = s <| health_table := t |>
  | HealthDispatch l => fun r s' => exists now t trs,
      dispatch (health_table s) l now = (t, r, trs) /\ s' = s <| health_table := t |>
  | HealthComplete l handled err ctxErr => fun r s' => exists now jitter t trs,
      complete handled (ECall <$> err) ctxErr now jitter (health_table s) l = (t, trs, r) /\ s' = s <| health_table := t |>
  | RateBegin k => fun r s' => exists now s1,
      on_pool s k (fun p t q t' => beginRateRecovery p t (next_claim s) now = (q, t', r.1, r.2)) s1 /\
      s' = s1 <| next_claim := S (next_claim s) |>
  | RateFinish k lease => fun _ s' => on_pool s k (fun p t q t' => finishRateRecovery p t lease = (q, t')) s'
  | PoolCandidates k => fun r s' => exists now,
      on_pool s k (fun p t q t' => CandidatesAt p t now = (q, r.1, r.2) /\ t' = t) s'
  | CandidateState k i => fun r s' => exists now,
      on_pool s k (fun p t q t' => candidateStateAt p t (Z.of_nat i) now = (q, r) /\ t' = t) s'
  | SucceededCurrent ref key => fun r s' =>
      r.1 = still_current s ref /\
      match key with
      | Some (k, i, o) =>
          if still_current s ref then on_pool s k (fun p t q t' => rateSucceeded p t (Z.of_nat i) o = (q, t', negb r.2)) s'
          else r.2 = false /\ s' = s
      | None => r.2 = false /\ s' = s
      end
  | HoldProvider k until => fun r s' => on_pool s k (fun p t q t' => holdProviderUntil p t until = (q, t', r)) s'
  | FailedCurrent ref k i e until => fun r s' =>
      match r with
      | Some (now, d) => still_current s ref = true /\
          exists jitter, on_pool s k (fun p t q t' => failed_pool jitter p i e until now = (q, d) /\ t' = t) s'
      | None => still_current s ref = false /\ s' = s
      end
  | AttemptBegin k i first from reason => fun r s' => exists now x,
      on_pool s k (fun p t q t' => beginAttempt p (Z.of_nat i) first from reason now = (q, x) /\ t' = t) s' /\ r = snd <$> x
  | AttemptEnd k i c result => fun _ s' => exists now,
      on_pool s k (fun p t q t' => q = finishAttempt p i c result now /\ t' = t) s'
  | SessionAcquire held ref limit => fun r s' => exists configured idle ctxErr now x,
      ProviderSessions.Providers.acquireProvider configured idle (provider_sessions s) held id ref limit ctxErr now = (x, r.1, r.2) /\
      s' = s <| provider_sessions := x |>
  | SessionRelease held ref => fun r s' => exists now x,
      ProviderSessions.Providers.releaseProvider (provider_sessions s) held ref now = (x, r) /\ s' = s <| provider_sessions := x |>
  | SessionEnd held retain => fun _ s' => exists now,
      s' = s <| provider_sessions := ProviderSessions.Providers.release_all (provider_sessions s) held retain now |>
  | SessionTouch held => fun _ s' => exists now,
      s' = s <| provider_sessions := ProviderSessions.Providers.touchOutput (provider_sessions s) held now |>
  | Resolve _ _ | PrepareFailure _ => fun _ s' => exists queries,
      s' = s <| health_table := foldl query (health_table s) queries |>
  | _ => fun _ s' => s' = s
  end.
End effects.

(** ** Steps *)

Section system.
(** The configurations that are published: any set of them. *)
Context {Range : MapRange availabilityTarget nat} (published : handler -> Prop).

Definition view_limit (v : handler) (ref : string) : Z := MaxActiveSessions (provider v ref).

Definition put (g : gateway) (s : shared) (r : nat) (t : thread) : gateway := {| sh := s; running := <[r := t]> (running g) |}.

Inductive step : gateway -> gateway -> Prop :=
  (** a request was resolved to a route and starts under a published view *)
  | step_start g r id v ParseTime ToLower hostname client_of keyPools labels_of protocol confirmed stream
      replaceRequestModel prepareFor routeErrorParameter persistent sessionKey route options :
      running g !! r = None -> published v ->
      step g (put g (sh g) r
        {| th_session := id; th_view := v; th_conduct := fresh;
           th_todo := serve ParseTime ToLower hostname v client_of keyPools labels_of protocol confirmed stream replaceRequestModel
                        prepareFor routeErrorParameter persistent sessionKey route options start_local |})
  | step_act g r t a k ans s :
      running g !! r = Some t -> th_todo t = Act a k -> effect (th_view t) (th_session t) (sh g) a ans s ->
      step g (put g s r
        {| th_session := th_session t; th_view := th_view t; th_conduct := track (th_conduct t) a ans; th_todo := k ans |})
  | step_return g r t x :
      running g !! r = Some t -> th_todo t = Return x ->
      step g {| sh := sh g; running := delete r (running g) |}
  (** a configuration is published: it takes over the health table, and adds
      waits of endpoints, key pools and their diagnostics setting *)
  | step_publish g ep gens valid :
      epoch (health_table (sh g)) < ep ->
      step g {| sh := (sh g) <| health_table := activate (health_table (sh g)) ep gens valid |>; running := running g |}
  | step_endpoint g j :
      servers (sh g) !! j = None ->
      step g {| sh := (sh g) <| servers := <[j := new_providerRetryState]> (servers (sh g)) |>; running := running g |}
  | step_pool g k j ks backend lbls p :
      key_pools (sh g) !! k = None -> is_Some (servers (sh g) !! j) -> newProviderKeyPool ks backend lbls j = Some p ->
      step g {| sh := (sh g) <| key_pools := <[k := p]> (key_pools (sh g)) |>; running := running g |}
  | step_diagnostics g k p enabled :
      key_pools (sh g) !! k = Some p ->
      step g {| sh := (sh g) <| key_pools := <[k := setDiagnostics p enabled]> (key_pools (sh g)) |>; running := running g |}
  (** the resolution of a request and the status page *)
  | step_query g ep ref model generation now :
      step g {| sh := (sh g) <| health_table := (available (health_table (sh g)) ep ref model generation now).1 |>; running := running g |}
  | step_status g limits now :
      step g {| sh := (sh g) <| provider_sessions := (ProviderSessions.Providers.sessionStatus limits (provider_sessions (sh g)) now).1 |>;
                running := running g |}.

Definition started (gens : gmap string Z) (valid : option (string -> string -> bool)) : gateway :=
  {| sh := {| health_table := activate newAvailabilityState 0 gens valid; key_pools := ∅; servers := ∅; next_claim := 0;
              provider_sessions := ProviderSessions.Providers.no_sessions |}; running := ∅ |}.

Inductive reachable : gateway -> Prop :=
  | reach_start gens valid : reachable (started gens valid)
  | reach_step g g' : reachable g -> step g g' -> reachable g'.

(** ** Requests behave *)

Definition well_behaved (t : thread) : Prop :=
  wp (Conduct_of (view_limit (th_view t))) (th_conduct t) (th_todo t) (fun s _ => given_back s).

(** They follow the protocol of the view that each was admitted under. *)
Definition behaved (g : gateway) : Prop := forall r t, running g !! r = Some t -> published (th_view t) /\ well_behaved t.

Lemma step_behaved g g' : behaved g -> step g g' -> behaved g'.
Proof.
  intros Hg Hstep. destruct Hstep as [| | |g0|g0|g0|g0|g0|g0]; try exact Hg; intros r' t'; cbn.
  - rewrite lookup_insert_Some. intros [[<- <-]|[_ Ht]]; [|by apply (Hg r')]. split; [done|]. by apply serve_obeys.
  - rewrite lookup_insert_Some. intros [[<- <-]|[_ Ht]]; [|by apply (Hg r')].
    destruct (Hg r t H) as [Hv Hw]. split; [done|]. unfold well_behaved in *. rewrite H0 in Hw. apply Hw.
  - intros [_ Ht]%lookup_delete_Some. by apply (Hg r').
Qed.

Lemma reachable_behaved g : reachable g -> behaved g.
Proof. induction 1; [by intros r t|by eapply step_behaved]. Qed.
End system.
