(* ===== verification/SystemFacts.v ===== *)
(** * The gateway implements the step systems of its components

    A forward simulation from the gateway (System.v) to each component: to the
    leases in flight of AvailabilityFacts.v, to the recovery claims in flight
    of KeyPoolClaims.v and to the sessions of ProviderSessions.v.  What those
    systems assume of their clients, the requests are shown to do; so the
    invariants of the components hold of the gateway as a whole. *)

From S2P Require Import Prelude GoStrings GoFloat Diagnostics Errors Availability AvailabilityFacts KeyPool KeyPoolTraces KeyPoolClaims Routes.
From S2P Require Pricing Budget AutoChain Routing ProviderSessions Limiter.
From S2P Require Import View Upstream Interaction Dispatch ClientCall RouteCall DispatchFacts System.


(** ** Who holds what *)

Section owners.
Context {X : Type}.

(** [O r] is what request [r] holds; [P] is what is held in all. *)
Record owns (O : nat -> option X) (P : X -> Prop) : Prop := {
  owns_all : forall x, P x <-> exists r, O r = Some x;
  owns_one : forall r r' x, O r = Some x -> O r' = Some x -> r = r';
}.

Definition upd (O : nat -> option X) (r : nat) (x : option X) : nat -> option X :=
  fun r' => if decide (r = r') then x else O r'.

Lemma owns_ext O O' P P' :
  owns O P -> (forall r, O' r = O r) -> (forall x, P' x <-> P x) -> owns O' P'.
Proof.
  intros [H1 H2] HO HP. split.
  - intros x. rewrite HP, H1. by setoid_rewrite HO.
  - intros r r' x. rewrite !HO. apply H2.
Qed.

Lemma owns_take O P P' r x :
  owns O P -> O r = None -> ~ P x -> (forall y, P' y <-> y = x \/ P y) -> owns (upd O r (Some x)) P'.
Proof.
  intros [H1 H2] Hr Hx HP. unfold upd. split.
  - intros y. rewrite HP, H1. split.
    + intros [->|[r' Hy]]; [exists r; by rewrite decide_True|]. exists r'. rewrite decide_False by congruence. done.
    + intros [r' Hy]. destruct (decide (r = r')); [left; congruence|right; by exists r'].
  - intros r1 r2 y. repeat case_decide; subst; try congruence; intros Hy Hy'; [..|by eapply H2].
    all: exfalso; apply Hx, H1; simplify_eq; eauto.
Qed.

Lemma owns_drop O P P' r x :
  owns O P -> O r = Some x -> (forall y, P' y <-> P y /\ y <> x) -> owns (upd O r None) P'.
Proof.
  intros [H1 H2] Hr HP. unfold upd. split.
  - intros y. rewrite HP, H1. split.
    + intros [[r' Hy] Hne]. exists r'. rewrite decide_False by congruence. done.
    + intros [r' Hy]. case_decide; [done|]. split; [by exists r'|]. intros ->. by destruct (H2 r r' x Hr Hy).
  - intros r1 r2 y. repeat case_decide; try done. apply H2.
Qed.
End owners.

Definition held_by {X} (f : conduct -> option X) (g : gateway) (r : nat) : option X := running g !! r ≫= fun t => f (th_conduct t).

Section refinement.
Context {Range : MapRange availabilityTarget nat} (published : handler -> Prop).

Abbreviation step := (System.step published).
Abbreviation reachable := (System.reachable published).

(** The session limits of the published configurations. *)
Definition limits_of (ref : string) (m : Z) : Prop := exists v, published v /\ view_limit v ref = m.

(** What a request holds changes with its own steps only. *)
Lemma held_by_put {X} (f : conduct -> option X) g s r t :
  forall r', held_by f (put g s r t) r' = upd (held_by f g) r (f (th_conduct t)) r'.
Proof.
  intros r'. unfold held_by, upd, put. cbn. case_decide; subst; [by rewrite lookup_insert_eq|by rewrite lookup_insert_ne].
Qed.

Lemma held_by_same {X} (f : conduct -> option X) g s r t t' :
  running g !! r = Some t -> f (th_conduct t') = f (th_conduct t) -> forall r', held_by f (put g s r t') r' = held_by f g r'.
Proof.
  intros Hr Hf r'. rewrite held_by_put. unfold upd. case_decide; [subst|done]. unfold held_by. by rewrite Hr.
Qed.

Lemma held_by_delete {X} (f : conduct -> option X) g s r t :
  running g !! r = Some t -> f (th_conduct t) = None ->
  forall r', held_by f {| sh := s; running := delete r (running g) |} r' = held_by f g r'.
Proof.
  intros Hr Hf r'. unfold held_by. cbn. destruct (decide (r = r')) as [<-|]; [|by rewrite lookup_delete_ne].
  rewrite lookup_delete_eq, Hr. cbn. by rewrite Hf.
Qed.

Lemma held_by_start {X} (f : conduct -> option X) g s r t :
  running g !! r = None -> f (th_conduct t) = None -> forall r', held_by f (put g s r t) r' = held_by f g r'.
Proof.
  intros Hr Hf r'. rewrite held_by_put. unfold upd. case_decide; [subst|done]. unfold held_by. by rewrite Hr.
Qed.

(** A step of a request is permitted by its protocol. *)
Lemma act_permitted t a k :
  well_behaved t -> th_todo t = Act a k -> permitted (view_limit (th_view t)) (th_conduct t) a.
Proof. unfold well_behaved. intros H E. rewrite E in H. apply H. Qed.

Lemma return_given_back t x :
  well_behaved t -> th_todo t = Return x -> given_back (th_conduct t).
Proof. unfold well_behaved. intros H E. rewrite E in H. apply H. Qed.

(** ** The health table *)

Record health_sim (g : gateway) (w : world) : Prop := {
  hs_table : st w = health_table (sh g);
  hs_leases : owns (held_by health g) (fun l => l ∈ active w);
}.

Inductive star {A} (R : A -> A -> Prop) : A -> A -> Prop :=
  | star_refl x : star R x x
  | star_step x y z : R x y -> star R y z -> star R x z.

Lemma star_one {A} (R : A -> A -> Prop) x y : R x y -> star R x y.
Proof. intros H. eapply star_step; [exact H|constructor]. Qed.

Lemma star_reachable w w' : AvailabilityFacts.reachable w -> star AvailabilityFacts.step w w' -> AvailabilityFacts.reachable w'.
Proof. intros Hw H. induction H; [done|]. apply IHstar. by eapply AvailabilityFacts.reach_step. Qed.

Lemma queries_star v w queries :
  star AvailabilityFacts.step w {| st := foldl (query v) (st w) queries; active := active w |}.
Proof.
  revert w. induction queries as [|[[ref model] now] qs IH]; intros w; [destruct w; constructor|].
  eapply star_step; [apply (AvailabilityFacts.step_available w (routingEpoch v) ref model (generation v ref) now)|].
  apply (IH {| st := _; active := _ |}).
Qed.

(** An action that leaves the lease of the request alone. *)
Lemma health_sim_same g w s r t t' table :
  health_sim g w -> running g !! r = Some t -> health (th_conduct t') = health (th_conduct t) ->
  table = health_table s -> health_sim (put g s r t') {| st := table; active := active w |}.
Proof.
  intros [H1 H2] Hr Hh ->. split; [done|]. eapply owns_ext; [exact H2|by eapply held_by_same|done].
Qed.

Lemma set_pool_health s k q t : health_table (set_pool s k q t) = health_table s.
Proof. done. Qed.

Lemma on_pool_health s k f s' : on_pool s k f s' -> health_table s' = health_table s.
Proof. by intros (? & ? & ? & ? & _ & _ & _ & _ & ->). Qed.

Lemma act_health g w r t a k ans s :
  AvailabilityFacts.reachable w -> health_sim g w -> well_behaved t ->
  running g !! r = Some t -> th_todo t = Act a k -> effect (th_view t) (th_session t) (sh g) a ans s ->
  exists w', star AvailabilityFacts.step w w' /\
    health_sim (put g s r {| th_session := th_session t; th_view := th_view t; th_conduct := track (th_conduct t) a ans; th_todo := k ans |}) w'.
Proof.
  intros Hw Hsim Hb Hr Ht He. pose proof (act_permitted _ _ _ Hb Ht) as Hp. destruct Hsim as [Hst Hown] eqn:Hsim'.
  assert (Hsame : health (track (th_conduct t) a ans) = health (th_conduct t) -> health_table s = health_table (sh g) ->
    exists w', star AvailabilityFacts.step w w' /\
      health_sim (put g s r {| th_session := th_session t; th_view := th_view t; th_conduct := track (th_conduct t) a ans; th_todo := k ans |}) w').
  { intros H1 H2. exists w. split; [constructor|]. split; [by rewrite Hst|]. eapply owns_ext; [exact Hown|by eapply held_by_same|done]. }
  destruct a; cbn in He; try (apply Hsame; [by cbn; repeat case_match|by naive_solver eauto using on_pool_health]).
  - (* begin *) destruct He as (now & table & trs & Hb' & ->). destruct ans as [l err]. cbn in Hb'. destruct Hp as [Hnone _].
    rewrite <- Hst in Hb'. eexists. split; [apply star_one; by eapply AvailabilityFacts.step_begin|].
    destruct err as [e|]; cbn in *; [by eapply health_sim_same|].
    split; [done|]. cbn. eapply owns_ext; [eapply (owns_take _ _ (fun l' => l' ∈ {[l]} ∪ active w) r l Hown)| |done].
    + unfold held_by. by rewrite Hr.
    + rewrite begin_dispatch in Hb'. destruct (dispatch _ _ now) as [[? ?] ?]. simplify_eq.
      destruct (reachable_consistent w Hw) as [Hinv Hact]. intros Hin. apply Hact, (inv_fresh _ _ _ Hinv) in Hin. lia.
    + set_solver.
    + intros r'. by rewrite held_by_put.
  - (* dispatch *) destruct He as (now & table & trs & Hd & ->). rewrite <- Hst in Hd. eexists. split.
    + apply star_one, (AvailabilityFacts.step_dispatch w l now). apply (owns_all _ _ Hown). exists r. unfold held_by. by rewrite Hr.
    + rewrite Hd. by eapply health_sim_same.
  - (* complete *) destruct He as (now & jitter & table & trs & Hc & ->). rewrite <- Hst in Hc.
    assert (Hl : held_by health g r = Some l) by (unfold held_by; by rewrite Hr). eexists. split.
    + apply star_one, (AvailabilityFacts.step_complete w l handled (ECall <$> err) ctxErr now jitter). apply (owns_all _ _ Hown). by exists r.
    + rewrite Hc. split; [done|]. cbn. eapply owns_ext; [eapply (owns_drop _ _ (fun l' => l' ∈ active w ∖ {[l]}) r l Hown Hl)| |done].
      * set_solver.
      * intros r'. by rewrite held_by_put.
  - apply Hsame; [done|]. destruct He as [_ He]. repeat case_match; destruct_and?; subst; eauto using on_pool_health.
  - apply Hsame; [done|]. destruct ans as [[now d]|]; [destruct He as [_ [jitter He]]; eauto using on_pool_health|by destruct He as [_ ->]].
  - destruct He as [qs ->]. exists {| st := foldl (query (th_view t)) (st w) qs; active := active w |}.
    split; [apply queries_star|]. by eapply health_sim_same; rewrite ?Hst.
  - destruct He as [qs ->]. exists {| st := foldl (query (th_view t)) (st w) qs; active := active w |}.
    split; [apply queries_star|]. by eapply health_sim_same; rewrite ?Hst.
Qed.

(** ** The key pools *)

Definition live_claim (w : pools) (x : nat * rateRecoveryLease) : Prop := live w !! lease_id x.2 = Some x.

Record pools_sim (g : gateway) (w : pools) : Prop := {
  sim_pools : pool_of w = key_pools (sh g);
  sim_servers : server_of w = servers (sh g);
  sim_next : next_rate_lease w = next_claim (sh g);
  sim_claims : owns (held_by claim g) (live_claim w);
}.

(** A step that neither takes nor returns a claim. *)
Lemma on_pool_plain g w k f s :
  pools_sim g w -> on_pool (sh g) k f s ->
  (forall p t q t', f p t q t' -> exists op, plain op /\ apply_op op (p, t) = (q, t')) ->
  exists w', pools_step w w' /\ pool_of w' = key_pools s /\ server_of w' = servers s /\ next_rate_lease w' = next_rate_lease w /\
             live w' = live w /\ next_claim s = next_claim (sh g).
Proof.
  intros [H1 H2 H3 _] (p & t & q & t' & Hp & Ht & Hq & Hf & ->) Hplain. destruct (Hplain _ _ _ _ Hf) as (op & Hop & E).
  eexists. split; [eapply (step_plain w k (providerRetry p) p t q t' op); congruence|]. cbn. rewrite H1, H2, Hq. done.
Qed.

Lemma on_pool_attempt g w k f s :
  pools_sim g w -> on_pool (sh g) k f s ->
  (forall p t q t', f p t q t' -> t' = t /\ ((exists i first from reason now x, beginAttempt p i first from reason now = (q, x)) \/
                                           exists i c result now, q = finishAttempt p i c result now)) ->
  exists w', pools_step w w' /\ pool_of w' = key_pools s /\ server_of w' = servers s /\ next_rate_lease w' = next_rate_lease w /\
             live w' = live w /\ next_claim s = next_claim (sh g).
Proof.
  intros [H1 H2 H3 _] (p & t & q & t' & Hp & Ht & Hq & Hf & ->) Hatt.
  destruct (Hatt _ _ _ _ Hf) as [-> [(i & first & from & reason & now & x & E)|(i & c & result & now & ->)]].
  - eexists. split; [eapply (step_attempt_begins w k p q x); [congruence|exact E]|]. cbn. rewrite H1, H2, Hq, (insert_id (servers (sh g))) by done. done.
  - eexists. split; [eapply (step_attempt_ends w k p i c result now); congruence|]. cbn. rewrite H1, H2, Hq, (insert_id (servers (sh g))) by done. done.
Qed.

Lemma failed_pool_plain jitter p i e until now q d (t : providerRetryState) :
  failed_pool jitter p i e until now = (q, d) -> exists op, plain op /\ apply_op op (p, t) = (q, t).
Proof.
  assert (Hid : exists op, plain op /\ apply_op op (p, t) = (p, t)) by (by exists (OCooldown (-1) 0 0 None)).
  unfold failed_pool. destruct (String.eqb (CallCategory e) ProviderErrorRateLimited).
  - set (upstream := if RetryProvided e then _ else _). intros E.
    exists (ORateLimited jitter (Z.of_nat i) upstream (RetryProvided e) now). cbn. by rewrite E.
  - destruct (negb (Time.is_zero until)); [by intros [= <- _]|]. destruct (_ && _); [by intros [= <- _]|].
    intros [= <- _]. by exists (OCooldown (Z.of_nat i) (Cooldown e) now (Some (SafeFailureClass (Some (ECall e))))).
Qed.

Definition pools_step_opt (w w' : pools) : Prop := w' = w \/ pools_step w w'.

Lemma act_pools g w r t a k ans s :
  pools_reachable w -> pools_sim g w -> well_behaved t ->
  running g !! r = Some t -> th_todo t = Act a k -> effect (th_view t) (th_session t) (sh g) a ans s ->
  exists w', pools_step_opt w w' /\
    pools_sim (put g s r {| th_session := th_session t; th_view := th_view t; th_conduct := track (th_conduct t) a ans; th_todo := k ans |}) w'.
Proof.
  intros Hw Hsim Hb Hr Ht He. pose proof (act_permitted _ _ _ Hb Ht) as Hp.
  set (t1 := {| th_session := _ |}).
  assert (Hsame : claim (th_conduct t1) = claim (th_conduct t) ->
    (exists w', pools_step_opt w w' /\ pool_of w' = key_pools s /\ server_of w' = servers s /\ next_rate_lease w' = next_rate_lease w /\
             live w' = live w /\ next_claim s = next_claim (sh g)) ->
    exists w', pools_step_opt w w' /\ pools_sim (put g s r t1) w').
  { intros Hc (w' & Hstep & E1 & E2 & E3 & E4 & E5). exists w'. split; [done|]. destruct Hsim as [S1 S2 S3 S4]. split; try done; cbn; [congruence|].
    eapply owns_ext; [exact S4|by eapply held_by_same|]. intros x. unfold live_claim. by rewrite E4. }
  assert (Hstill : claim (th_conduct t1) = claim (th_conduct t) -> key_pools s = key_pools (sh g) -> servers s = servers (sh g) ->
    next_claim s = next_claim (sh g) -> exists w', pools_step_opt w w' /\ pools_sim (put g s r t1) w').
  { intros Hc E1 E2 E3. apply Hsame; [done|]. exists w. destruct Hsim as [S1 S2 S3 S4]. split_and!; try done; [by left|congruence..]. }
  assert (Hplain : forall k f, claim (th_conduct t1) = claim (th_conduct t) -> on_pool (sh g) k f s ->
    (forall p t q t', f p t q t' -> exists op, plain op /\ apply_op op (p, t) = (q, t')) ->
    exists w', pools_step_opt w w' /\ pools_sim (put g s r t1) w').
  { intros k1 f Hc Hon Hf. apply Hsame; [done|]. destruct (on_pool_plain g w k1 f s Hsim Hon Hf) as (w' & H & ?). exists w'. split; [by right|done]. }
  destruct a; cbn in He; 
    try (solve [apply Hstill; [by subst t1; cbn; repeat case_match|..]; 
      repeat match type of He with ex _ => destruct He as [? He] | _ /\ _ => destruct He as [_ He] end; by rewrite He]).
  - (* begin *) destruct He as (now & s1 & (p & sv & q & sv' & Hk & Hsv & Hq & Hbeg & ->) & ->).
    destruct Hsim as [S1 S2 S3 S4]. rewrite <- S3 in Hbeg. eexists. split.
    { right. eapply (step_begin_recovery w k0 (providerRetry p) p sv q sv'); [congruence|done|congruence|exact Hbeg]. }
    pose proof (begin_spec p sv (next_rate_lease w) now) as Hspec. rewrite Hbeg in Hspec.
    split; cbn; [congruence..|]. destruct ans as [[l|] err]; cbn in *.
    + destruct Hspec as (_ & _ & -> & Hid & _). cbn. eapply owns_ext; [eapply (owns_take _ _ (fun x => x = (k0, l) \/ live_claim w x) r (k0, l) S4)| |].
      * unfold held_by. by rewrite Hr.
      * unfold live_claim. cbn. rewrite Hid. intros Hl. apply (ci_fresh _ (pools_reachable_inv _ Hw)) in Hl. lia.
      * done.
      * intros r'. by rewrite held_by_put.
      * intros x. unfold live_claim. cbn. rewrite Hid, lookup_insert_Some. split.
        -- intros [[_ <-]|[_ Hx]]; [by left|by right].
        -- intros [->|Hx]; [left; cbn; by rewrite Hid|]. right. split; [|done].
           apply (ci_fresh _ (pools_reachable_inv _ Hw)) in Hx. lia.
    + eapply owns_ext; [exact S4|by eapply held_by_same|done].
  - (* finish *) destruct Hp as (c & -> & Hc). destruct He as (p & sv & q & sv' & Hk & Hsv & Hq & Hfin & ->).
    destruct Hsim as [S1 S2 S3 S4]. assert (Hl : held_by claim g r = Some (k0, c)) by (unfold held_by; by rewrite Hr).
    assert (Hlive : live w !! lease_id c = Some (k0, c)) by (apply (owns_all _ _ S4 (k0, c)); by exists r). eexists. split.
    { right. eapply (step_finish_recovery w k0 (providerRetry p) p sv q sv' c); [done|congruence|done|congruence|exact Hfin]. }
    split; cbn; [congruence..|]. eapply owns_ext; [eapply (owns_drop _ _ (fun x => live_claim w x /\ x <> (k0, c)) r (k0, c) S4 Hl)| |].
    * done.
    * intros r'. by rewrite held_by_put.
    * intros x. unfold live_claim. cbn. rewrite lookup_delete_Some. split.
      -- intros [Hne Hx]. split; [done|]. by intros ->.
      -- intros [Hx Hne]. split; [|done]. intros Heq. apply Hne. rewrite <- Heq in Hx. congruence.
  - destruct He as [now He]. eapply Hplain; [done|exact He|]. cbn. intros p sv q sv' [E ->]. exists (OCandidates now).
    split; [done|]. cbn. by rewrite E.
  - destruct He as [now He]. eapply Hplain; [done|exact He|]. cbn. intros p sv q sv' [E ->]. exists (OReady (Z.of_nat i) now).
    split; [done|]. cbn. by rewrite E.
  - destruct He as [_ He]. destruct key as [[[k1 i] o]|]; [|destruct He as [_ ->]; by apply Hstill].
    destruct (still_current _ _ _); [|destruct He as [_ ->]; by apply Hstill]. eapply Hplain; [done|exact He|].
    cbn. intros p sv q sv' E. exists (OSucceeded (Z.of_nat i) o). split; [done|]. cbn. by rewrite E.
  - eapply Hplain; [done|exact He|]. cbn. intros p sv q sv' E. exists (OHold until). split; [done|]. cbn. by rewrite E.
  - destruct ans as [[now d]|]; [|destruct He as [_ ->]; by apply Hstill]. destruct He as [_ [jitter He]].
    eapply Hplain; [done|exact He|]. cbn. intros p sv q sv' [E ->]. exact (failed_pool_plain _ _ _ _ _ _ _ _ _ E).
  - destruct He as (now & x & He & ->). apply Hsame; [done|]. 
    destruct (on_pool_attempt g w k0 _ s Hsim He) as (w' & H & ?); [|exists w'; split; [by right|done]].
    cbn. intros p sv q sv' [E ->]. split; [done|]. left. eauto 10.
  - destruct He as (now & He). apply Hsame; [done|].
    destruct (on_pool_attempt g w k0 _ s Hsim He) as (w' & H & ?); [|exists w'; split; [by right|done]].
    cbn. intros p sv q sv' [-> ->]. split; [done|]. right. eauto.
Qed.

(** ** The sessions of the providers *)

Abbreviation session_system := ProviderSessions.Providers.system.
Abbreviation session_step := (ProviderSessions.Providers.step limits_of).

Definition thread_sessions (t : thread) : string * gmap string ProviderSessions.Providers.lease_ptr :=
  (th_session t, sessions (th_conduct t)).

Record sessions_sim (g : gateway) (x : session_system) : Prop := {
  ss_shared : ProviderSessions.Providers.shared x = provider_sessions (sh g);
  ss_requests : ProviderSessions.Providers.requests_of x = thread_sessions <$> running g;
}.

Lemma ss_lookup g x r t :
  sessions_sim g x -> running g !! r = Some t -> ProviderSessions.Providers.requests_of x !! r = Some (thread_sessions t).
Proof. intros [_ H] Hr. by rewrite H, lookup_fmap, Hr. Qed.

(** The request [r] becomes [t'] and the sessions become [s]. *)
Lemma sessions_sim_put g x r s t' v :
  sessions_sim g x -> v = thread_sessions t' ->
  sessions_sim (put g s r t') {| ProviderSessions.Providers.shared := provider_sessions s;
                                 ProviderSessions.Providers.requests_of := <[r := v]> (ProviderSessions.Providers.requests_of x) |}.
Proof. intros [_ H] ->. split; [done|]. cbn. by rewrite fmap_insert, H. Qed.

Lemma sessions_sim_still g x r s t t' :
  sessions_sim g x -> running g !! r = Some t -> thread_sessions t' = thread_sessions t ->
  sessions_sim (put g s r t') {| ProviderSessions.Providers.shared := provider_sessions s;
                                 ProviderSessions.Providers.requests_of := ProviderSessions.Providers.requests_of x |}.
Proof.
  intros H Hr Ht. rewrite <- (insert_id _ r (thread_sessions t) (ss_lookup g x r t H Hr)).
  by apply sessions_sim_put.
Qed.

Lemma on_pool_sessions s k f s' : on_pool s k f s' -> provider_sessions s' = provider_sessions s.
Proof. by intros (? & ? & ? & ? & _ & _ & _ & _ & ->). Qed.

Lemma act_sessions g x r t a k ans s :
  sessions_sim g x -> published (th_view t) -> well_behaved t ->
  running g !! r = Some t -> th_todo t = Act a k -> effect (th_view t) (th_session t) (sh g) a ans s ->
  exists x', star session_step x x' /\
    sessions_sim (put g s r {| th_session := th_session t; th_view := th_view t; th_conduct := track (th_conduct t) a ans; th_todo := k ans |}) x'.
Proof.
  intros Hsim Hv Hb Hr Ht He. pose proof (act_permitted _ _ _ Hb Ht) as Hp. pose proof (ss_lookup g x r t Hsim Hr) as Hx.
  set (t1 := {| th_session := _ |}).
  assert (Hsame : sessions (th_conduct t1) = sessions (th_conduct t) -> provider_sessions s = provider_sessions (sh g) ->
    exists x', star session_step x x' /\ sessions_sim (put g s r t1) x').
  { intros H1 H2. exists x. split; [constructor|].
    pose proof (sessions_sim_still g x r s t t1 Hsim Hr) as H. rewrite H2 in H.
    rewrite <- (ss_shared _ _ Hsim) in H. destruct x. apply H. unfold thread_sessions. by rewrite H1. }
  destruct a; cbn in He;
    try (solve [apply Hsame; [by subst t1; cbn; repeat case_match|];
      repeat match type of He with ex _ => destruct He as [? He] | _ /\ _ => destruct He as [_ He] end;
      first [exact (on_pool_sessions _ _ _ _ He) | by rewrite He]]).
  - destruct He as (now & s1 & He & ->). apply Hsame; [by subst t1; cbn; repeat case_match|]. exact (on_pool_sessions _ _ _ _ He).
  - apply Hsame; [done|]. destruct He as [_ He]. destruct key as [[[k1 i] o]|]; [|by destruct He as [_ ->]].
    destruct (still_current _ _ _); [exact (on_pool_sessions _ _ _ _ He)|by destruct He as [_ ->]].
  - apply Hsame; [done|]. destruct ans as [[now d]|]; [|by destruct He as [_ ->]].
    destruct He as [_ [jitter He]]. exact (on_pool_sessions _ _ _ _ He).
  - apply Hsame; [done|]. destruct He as (now & y & He & _). exact (on_pool_sessions _ _ _ _ He).
  - destruct Hp as [Hheld ->]. destruct He as (configured & idle & ctxErr & now & y & He & ->). destruct ans as [held' e]. cbn in He.
    rewrite <- (ss_shared _ _ Hsim) in He. eexists. split.
    + apply star_one. eapply (ProviderSessions.Providers.step_acquire limits_of x r (th_session t) held); [|by exists (th_view t)|exact He].
      rewrite Hx. unfold thread_sessions. by rewrite Hheld.
    + exact (sessions_sim_put g x r ((sh g) <| provider_sessions := y |>) t1 _ Hsim eq_refl).
  - cbn in Hp. destruct He as (now & y & He & ->). rewrite <- (ss_shared _ _ Hsim) in He. eexists. split.
    + apply star_one. eapply (ProviderSessions.Providers.step_release limits_of x r (th_session t) held); [|exact He].
      rewrite Hx. unfold thread_sessions. by rewrite Hp.
    + exact (sessions_sim_put g x r ((sh g) <| provider_sessions := y |>) t1 _ Hsim eq_refl).
  - cbn in Hp. destruct He as (now & ->). eexists. split.
    + eapply star_step; [eapply (ProviderSessions.Providers.step_end limits_of x r (th_session t) held retain now);
        rewrite Hx; unfold thread_sessions; by rewrite Hp|].
      apply star_one, (ProviderSessions.Providers.step_admit limits_of _ r (th_session t)). cbn. by rewrite lookup_delete_eq.
    + cbn. rewrite insert_delete_eq, (ss_shared _ _ Hsim).
      exact (sessions_sim_put g x r ((sh g) <| provider_sessions := _ |>) t1 _ Hsim eq_refl).
  - cbn in Hp. destruct He as (now & ->). eexists. split.
    + apply star_one, (ProviderSessions.Providers.step_touch limits_of x r (th_session t) held now).
      rewrite Hx. unfold thread_sessions. by rewrite Hp.
    + rewrite (ss_shared _ _ Hsim).
      exact (sessions_sim_still g x r ((sh g) <| provider_sessions := _ |>) t t1 Hsim Hr eq_refl).
Qed.

(** ** The gateway *)

Record refines (g : gateway) (w : world) (p : pools) (x : session_system) : Prop := {
  rf_health : AvailabilityFacts.reachable w /\ health_sim g w;
  rf_pools : pools_reachable p /\ pools_sim g p;
  rf_sessions : ProviderSessions.Providers.reachable limits_of x /\ sessions_sim g x;
}.

Lemma pools_reachable_opt w w' : pools_reachable w -> pools_step_opt w w' -> pools_reachable w'.
Proof. intros Hw [->|H]; [done|]. by eapply pools_next. Qed.

Lemma star_sessions x x' :
  ProviderSessions.Providers.reachable limits_of x -> star session_step x x' -> ProviderSessions.Providers.reachable limits_of x'.
Proof. intros Hx H. induction H; [done|]. apply IHstar. by eapply ProviderSessions.Providers.reach_step. Qed.

(** A step that leaves the requests alone. *)
Lemma owns_running {X} (f : conduct -> option X) g g' P :
  owns (held_by f g) P -> running g' = running g -> owns (held_by f g') P.
Proof. intros H E. eapply owns_ext; [exact H| |done]. intros r. unfold held_by. by rewrite E. Qed.

(** A step of the environment on one component. *)
Lemma health_frame g g' w : health_sim g w -> running g' = running g -> health_table (sh g') = health_table (sh g) -> health_sim g' w.
Proof. intros [H1 H2] Hr Hh. split; [congruence|]. by eapply owns_running. Qed.

Lemma pools_frame g g' p :
  pools_sim g p -> running g' = running g -> key_pools (sh g') = key_pools (sh g) -> servers (sh g') = servers (sh g) ->
  next_claim (sh g') = next_claim (sh g) -> pools_sim g' p.
Proof. intros [H1 H2 H3 H4] Hr E1 E2 E3. split; try congruence. by eapply owns_running. Qed.

Lemma sessions_frame g g' x :
  sessions_sim g x -> running g' = running g -> provider_sessions (sh g') = provider_sessions (sh g) -> sessions_sim g' x.
Proof. intros [H1 H2] Hr E. split; congruence. Qed.

Lemma refines_act g w p x r t a k ans s :
  refines g w p x -> behaved published g -> running g !! r = Some t -> th_todo t = Act a k ->
  effect (th_view t) (th_session t) (sh g) a ans s ->
  exists w' p' x', refines (put g s r
    {| th_session := th_session t; th_view := th_view t; th_conduct := track (th_conduct t) a ans; th_todo := k ans |}) w' p' x'.
Proof.
  intros [[W1 W2] [P1 P2] [X1 X2]] Hb Hr Ht He. destruct (Hb r t Hr) as [Hv Hw].
  destruct (act_health g w r t a k ans s W1 W2 Hw Hr Ht He) as (w' & Hs & Hw').
  destruct (act_pools g p r t a k ans s P1 P2 Hw Hr Ht He) as (p' & Hps & Hp').
  destruct (act_sessions g x r t a k ans s X2 Hv Hw Hr Ht He) as (x' & Hxs & Hx').
  exists w', p', x'. split; split; try done; [by eapply star_reachable|by eapply pools_reachable_opt|by eapply star_sessions].
Qed.

Lemma refines_start g w p x r t :
  refines g w p x -> running g !! r = None -> th_conduct t = fresh -> exists x', refines (put g (sh g) r t) w p x'.
Proof.
  intros [[W1 [W2 W3]] [P1 [P2 P3 P4 P5]] [X1 [X2 X3]]] Hr Ht. eexists. split; [split; [done|]|split; [done|]|split].
  - split; [done|]. eapply owns_ext; [exact W3|apply held_by_start; [done|by rewrite Ht]|done].
  - split; try done. eapply owns_ext; [exact P5|apply held_by_start; [done|by rewrite Ht]|done].
  - eapply ProviderSessions.Providers.reach_step; [exact X1|]. apply (ProviderSessions.Providers.step_admit limits_of x r (th_session t)).
    by rewrite X3, lookup_fmap, Hr.
  - split; [done|]. cbn. rewrite fmap_insert, X3. f_equal. unfold thread_sessions. by rewrite Ht.
Qed.

Lemma refines_return g w p x r t y :
  refines g w p x -> behaved published g -> running g !! r = Some t -> th_todo t = Return y ->
  exists x', refines {| sh := sh g; running := delete r (running g) |} w p x'.
Proof.
  intros [[W1 [W2 W3]] [P1 [P2 P3 P4 P5]] [X1 X2]] Hb Hr Ht.
  destruct (return_given_back t y (proj2 (Hb r t Hr)) Ht) as (_ & Hh & Hc & Hs & _).
  pose proof (ss_lookup g x r t X2 Hr) as Hx. unfold thread_sessions in Hx. rewrite Hs in Hx.
  eexists. split; [split; [done|]|split; [done|]|split].
  - split; [done|]. eapply owns_ext; [exact W3|by eapply held_by_delete|done].
  - split; try done. eapply owns_ext; [exact P5|by eapply held_by_delete|done].
  - eapply ProviderSessions.Providers.reach_step; [exact X1|]. exact (ProviderSessions.Providers.step_end limits_of x r _ ∅ false 0 Hx).
  - destruct X2 as [X2 X3]. split; cbn; [by rewrite X2|]. by rewrite fmap_delete, X3.
Qed.

(** Publication sets the diagnostics of a pool. *)
Lemma diagnostics_step w k q enabled :
  pools_reachable w -> pool_of w !! k = Some q ->
  exists w', pools_step_opt w w' /\ pool_of w' = <[k := setDiagnostics q enabled]> (pool_of w) /\ server_of w' = server_of w /\
             next_rate_lease w' = next_rate_lease w /\ live w' = live w.
Proof.
  intros Hw Hk. destruct (ci_server _ (pools_reachable_inv _ Hw) _ _ Hk) as [sv Hsv]. eexists. split.
  - right. by apply (step_plain w k (providerRetry q) q sv (setDiagnostics q enabled) sv (ODiagnostics enabled)).
  - split_and!; try done. cbn [server_of]. by rewrite insert_id.
Qed.

Lemma refines_step g g' w p x :
  refines g w p x -> behaved published g -> step g g' -> exists w' p' x', refines g' w' p' x'.
Proof.
  intros H Hb Hstep. destruct Hstep.
  - edestruct refines_start as [x' Hx']; [exact H|done| |by exists w, p, x']. done.
  - by eapply refines_act.
  - edestruct refines_return as [x' Hx']; [exact H|done..|]. by exists w, p, x'.
  - destruct H as [[W1 [W2 W3]] [P1 P2] [X1 X2]]. eexists _, p, x.
    split; [split|split; [exact P1|by eapply pools_frame]|split; [exact X1|by eapply sessions_frame]].
    + eapply AvailabilityFacts.reach_step; [exact W1|]. apply (AvailabilityFacts.step_activate w ep gens valid). by rewrite W2.
    + split; [cbn; by rewrite W2|by eapply owns_running].
  - destruct H as [[W1 W2] [P1 [P2 P3 P4 P5]] [X1 X2]]. eexists w, _, x.
    split; [split; [exact W1|by eapply health_frame]|split|split; [exact X1|by eapply sessions_frame]].
    + eapply pools_next; [exact P1|]. apply (step_new_server p j). congruence.
    + split; cbn; try congruence. by eapply owns_running.
  - destruct H as [[W1 W2] [P1 [P2 P3 P4 P5]] [X1 X2]]. eexists w, _, x.
    split; [split; [exact W1|by eapply health_frame]|split|split; [exact X1|by eapply sessions_frame]].
    + eapply pools_next; [exact P1|]. eapply (step_new_pool p k j); [congruence|congruence|done].
    + split; cbn; try congruence. by eapply owns_running.
  - destruct H as [[W1 W2] [P1 [P2 P3 P4 P5]] [X1 X2]]. edestruct diagnostics_step as (p' & Hp' & E1 & E2 & E3 & E4); [exact P1|rewrite P2; eassumption|]. exists w, p', x.
    split; [split; [exact W1|by eapply health_frame]|split|split; [exact X1|by eapply sessions_frame]].
    + by eapply pools_reachable_opt.
    + split; [by rewrite E1, P2|by rewrite E2|by rewrite E3|]. eapply owns_ext; [exact P5|done|]. intros y. unfold live_claim. by rewrite E4.
  - destruct H as [[W1 [W2 W3]] [P1 P2] [X1 X2]]. eexists _, p, x.
    split; [split|split; [exact P1|by eapply pools_frame]|split; [exact X1|by eapply sessions_frame]].
    + eapply AvailabilityFacts.reach_step; [exact W1|]. apply (AvailabilityFacts.step_available w ep ref model generation now).
    + split; [cbn; by rewrite W2|by eapply owns_running].
  - destruct H as [[W1 W2] [P1 P2] [X1 [X2 X3]]]. eexists w, p, _.
    split; [split; [exact W1|by eapply health_frame]|split; [exact P1|by eapply pools_frame]|split].
    + eapply ProviderSessions.Providers.reach_step; [exact X1|]. apply (ProviderSessions.Providers.step_status limits_of x limits now).
    + split; [cbn; by rewrite X2|done].
Qed.

Lemma reachable_refines g : reachable g -> exists w p x, refines g w p x.
Proof.
  induction 1 as [gens valid|g g' Hg (w & p & x & H) Hstep].
  - eexists _, _, _. split; split; [apply AvailabilityFacts.reach_start| |apply pools_start| |apply ProviderSessions.Providers.reach_start|].
    + split; [done|]. split; [|by unfold held_by]. intros l. split; [set_solver|]. by intros [r Hr].
    + split; try done. split; [|by unfold held_by]. intros y. split; [by unfold live_claim|]. by intros [r Hr].
    + by split.
  - eapply refines_step; [exact H|by apply reachable_behaved|done].
Qed.

(** C2. The gateway implements the step systems of its components.  However
    requests interleave, with each other and with published configurations,
    which may change every setting, the limits of sessions and the diagnostics
    of the pools included, the health table, the key pools and the sessions go through states that
    their own step systems reach, and what those count as in flight is what
    the running requests hold: each lease in flight is held by one running
    request, each recovery claim by the one that was given it, and each
    session lease by the request that acquired it. *)
Theorem gateway_refines_components g :
  reachable g ->
  exists w p x,
    (AvailabilityFacts.reachable w /\ st w = health_table (sh g) /\ owns (held_by health g) (fun l => l ∈ active w)) /\
    (pools_reachable p /\ pool_of p = key_pools (sh g) /\ server_of p = servers (sh g) /\ owns (held_by claim g) (live_claim p)) /\
    (ProviderSessions.Providers.reachable limits_of x /\ ProviderSessions.Providers.shared x = provider_sessions (sh g) /\
     ProviderSessions.Providers.requests_of x = thread_sessions <$> running g).
Proof.
  intros (w & p & x & [[W1 [W2 W3]] [P1 [P2 P3 P4 P5]] [X1 [X2 X3]]])%reachable_refines.
  by exists w, p, x.
Qed.

(** A recovery belongs to a running request.  Whenever an entry of the
    health table is marked as probing, a running request holds the lease that
    probes it; whenever a pool, or the wait of an endpoint, is marked as
    recovering, a running request holds that claim.  So nothing stays closed
    once the requests are gone. *)
Theorem recovery_belongs_to_request g :
  reachable g ->
  (forall t e, entry_at (health_table (sh g)) t = Some e -> probing e = true ->
     exists r l, held_by health g r = Some l /\ owner e = Some l) /\
  (forall k p i, key_pools (sh g) !! k = Some p -> rateProbe p = Some i ->
     exists r c, held_by claim g r = Some (k, c) /\ lease_id c = i) /\
  (forall j s i, servers (sh g) !! j = Some s -> server_probe s = Some i ->
     exists r k c, held_by claim g r = Some (k, c) /\ lease_id c = i /\ lease_server c = Some j).
Proof.
  intros (w & p & x & [[W1 [W2 W3]] [P1 [P2 P3 P4 P5]] _])%reachable_refines. rewrite <- W2, <- P2, <- P3.
  pose proof (pools_reachable_inv p P1) as Hp. split_and!.
  - intros t e (q & Ht & Hq)%entry_at_Some Hpr. destruct (reachable_consistent w W1) as [Hinv _].
    destruct (inv_claim _ _ _ Hinv t q e Ht Hq Hpr) as (_ & l & le & i & Ho & Hl & _). apply (owns_all _ _ W3) in Hl as [r Hr]. eauto.
  - intros k q i Hk Hi. apply (ci_pool p Hp k q i Hk) in Hi as [c Hc].
    assert (Hid : lease_id c = i) by (by apply (ci_id p Hp i k c)).
    assert (Hl : live_claim p (k, c)) by (unfold live_claim; cbn; by rewrite Hid). apply (owns_all _ _ P5) in Hl as [r Hr]. eauto.
  - intros j s i Hj Hi. apply (ci_probe p Hp j s i Hj) in Hi as (k & c & Hc & Hs).
    assert (Hid : lease_id c = i) by (by apply (ci_id p Hp i k c)).
    assert (Hl : live_claim p (k, c)) by (unfold live_claim; cbn; by rewrite Hid). apply (owns_all _ _ P5) in Hl as [r Hr]. eauto 10.
Qed.

(** Sessions of the gateway are within their limits.  While the published
    configurations give a provider positive limits of at most [n], the running
    requests that hold a session of it belong to at most [n] distinct
    sessions. *)
Theorem gateway_session_capacity g ref n ids :
  reachable g -> 0 < n -> (forall v, published v -> 0 < MaxActiveSessions (provider v ref) <= n) -> NoDup ids ->
  Forall (fun id => exists r t, running g !! r = Some t /\ Strings.TrimSpace (th_session t) = id /\
                                is_Some (sessions (th_conduct t) !! ref)) ids ->
  Z.of_nat (length ids) <= n.
Proof.
  intros (w & p & x & [_ _ [X1 [X2 X3]]])%reachable_refines Hpos Hlimits Hnd Hids.
  eapply (ProviderSessions.Providers.capacity_users limits_of x ref n ids X1 Hpos); [by intros m (v & Hv & <-); apply Hlimits|done|].
  eapply Forall_impl; [exact Hids|]. cbn. intros id (r & t & Hr & Hid & Hheld).
  assert (Hin : (r, (th_session t, sessions (th_conduct t))) ∈ ProviderSessions.Providers.users x ref id).
  { apply ProviderSessions.Providers.users_spec. rewrite X3, lookup_fmap, Hr. done. }
  intros E. rewrite E in Hin. by apply elem_of_nil in Hin.
Qed.
End refinement.

(** * Requests run through the model *)

From S2P Require Import Prelude GoStrings GoFloat Diagnostics Errors Availability KeyPool Routes.
From S2P Require Pricing Budget AutoChain Routing ProviderSessions Limiter.
From S2P Require Import View Upstream Interaction Dispatch ClientCall RouteCall DispatchFacts RequestFacts.

Definition demo_price : Pricing.Price :=
  let rate := Some (Pricing.decimal 20 100) in
  {| Pricing.Currency := "USD"; Pricing.Source := "list"; Pricing.Version := "1"; Pricing.InputCacheHit := rate;
     Pricing.InputCacheMiss := rate; Pricing.OutputPrice := rate |}.

Definition demo_budget : Budget.BudgetPolicy :=
  {| Budget.Currency := "USD"; Budget.FiveHourLimit := Pricing.decimal 5 1; Budget.WeeklyLimit := Pricing.decimal 20 1;
     Budget.AlertThreshold := Float.zero; Budget.Mode := "" |}.

Definition demo_provider : Provider :=
  {| BaseURL := "https://example.org"; SupportedModels := ["chat"]; ModelAliases := ∅;
     ProviderSwitchThreshold := None; ModelSwitchThresholds := ∅; Prices := {["chat" := demo_price]};
     MaxActiveSessions := 2; ProviderBudget := Some demo_budget |}.

Definition demo_client : Client := {| Protocol := "openai"; MaxOutputTokens := 0; ModelOutputLimits := ∅ |}.

Definition demo_handler : handler :=
  {| Routing := None; AutoChain := []; AccessToken := "t"; providers := {["a" := demo_provider; "b" := demo_provider]};
     clients := {["a" := demo_client; "b" := demo_client]}; unavailableProviders := ∅; discovered := ∅;
     modelsKnown := ∅; providerGenerations := {["a" := 1; "b" := 1]}; routingEpoch := 0; reusedConnections := ∅;
     HealthDiagnostics := true; ActiveSessionIdleTimeoutSeconds := 60 |}.

Definition demo_upstream : UpstreamClient :=
  {| APIKey := ""; RedactValues := []; ForwardErrorMessages := None; ErrorCodeMappings := []; ClientBackendID := "b" |}.

Definition demo_route (ref : string) : routeStep := (Routing.dynamic_route ref "chat") <| route_sessionKey := Some "shared" |>.

Definition demo_options : CallOptions :=
  {| AnthropicBeta := ""; SessionID := "s"; RequestScopedSession := false; ResponseModel := ""; OptionsStartedAt := 0;
     PriorQueueMS := 0; OptionsDecision := None |}.

Definition demo_usage : Pricing.TokenUsage :=
  {| Pricing.Input := Some 10; Pricing.Output := Some 2; Pricing.CacheRead := None; Pricing.CacheWrite := None |}.
Definition demo_attempt (r : attempt_result) : attempt :=
  {| att_phase := 6; att_resp := {| resp_status := 200; resp_header := fun _ => "" |}; att_idle_expired := false; att_cause_deadline := false; att_ctx_canceled := false;
     att_timed_out := false; att_delivered := false; att_observed := true; att_now := 5; att_result := r |}.

(** The keys of pool 0 are cooling; a resolution avoids [a] once they were found so. *)
Definition demo_answer (past : list (event answer)) (a : action) : answer a :=
  match a as a return answer a with
  | ContextErr => None
  | RequestDeadline => false
  | Now => 5
  | RandomID => Some "id"
  | HealthBegin _ _ => (length past, None)
  | HealthDispatch _ => None
  | HealthComplete _ _ _ _ => false
  | RateBegin k => (Some (RateLease (length past) None), None)
  | PoolCandidates k => match k with O => ([], Second) | S _ => ([Candidate 0 "key"], 0) end
  | CandidateState _ _ => (true, 0, no_observation)
  | SucceededCurrent _ _ => (true, false)
  | HoldProvider _ until => until
  | FailedCurrent _ _ _ _ _ => None
  | AttemptBegin _ _ _ _ _ => Some 3%nat
  | SessionAcquire held ref _ => (<[ref := ProviderSessions.Providers.Lease 0 (length past)]> held, None)
  | SessionRelease held ref => delete ref held
  | BudgetBlocked _ _ => false
  | BudgetCheck _ _ _ _ => inr (Budget.Decision false)
  | BudgetRelease _ => None
  | BudgetCharge _ _ _ _ => None
  | BudgetChargeCost _ _ _ _ _ => None
  | AuditUnavailable => false
  | AuditAppend _ => true
  | GateAcquire => (true, false, 0)
  | BuildRequest => Built
  | Upstream _ _ => demo_attempt (Answered "{}" demo_usage)
  | LocalEstimate => None
  | PrepareFailure _ => {| ShouldRetry := ""; RetryAfterSeconds := None; RetryAfterMS := None |}
  | Resolve _ _ =>
      Routing.route_to (demo_route (if (occurrences (fun e => match projT1 e with PoolCandidates _ => true | _ => false end) past =? 0)%nat
                                    then "a" else "b"))
  | RetainQueued _ => false
  | Respond _ _ => true
  | RateFinish _ _ | AttemptEnd _ _ _ _ | ChainFailed _ _ _ _ | ChainRestore _ | SessionEnd _ _ | SessionTouch _ | BudgetBlock _ _
  | GateRelease | Remember | Reject _ _ _ _ => tt
  end.

Definition demo_request : prog answer (local * unit) :=
  request (fun _ => None) (fun s => s) (fun _ => None) demo_handler (fun _ => demo_upstream) {["a" := 0%nat; "b" := 1%nat]}
    (fun _ => ["label"]) "openai" false false Some (fun _ _ model => inl model) (fun _ => "") true None (demo_route "a") demo_options.

Definition demo_run : list (event answer) * (local * unit) := play demo_answer [] demo_request.

Lemma demo_runs : runs demo_request demo_run.1 demo_run.2.
Proof. unfold demo_run. exact (play_runs demo_answer demo_request []). Qed.

(** It tried two routes, reserved and settled once, and called the upstream
    once. *)
Example demo_counts :
  (occurrences is_route demo_run.1, length (List.filter is_ledger demo_run.1), occurrences is_upstream demo_run.1, length demo_run.1) =
  (2, 2, 1, 43)%nat.
Proof. by vm_compute. Qed.

Lemma request_refines_conduct_witness :
  runs demo_request demo_run.1 demo_run.2 /\
  given_back (state_after (Conduct_of (session_limit demo_handler)) fresh demo_run.1).
Proof. split; [exact demo_runs|]. edestruct request_refines_conduct as [_ H]; [exact demo_runs|]. exact H. Defined.

Lemma request_gives_back_witness :
  occurrences (related takes_claim) demo_run.1 = 2%nat /\ paired takes_claim gives_claim demo_run.1.
Proof. split; [by vm_compute|]. edestruct request_gives_back as (_ & H & _); [exact demo_runs|]. exact H. Defined.

Lemma reservations_settled_witness :
  length (List.filter is_ledger demo_run.1) = 2%nat /\ accounted (List.filter is_ledger demo_run.1).
Proof. split; [by vm_compute|]. eapply reservations_settled, demo_runs. Defined.

Lemma one_upstream_attempt_witness :
  occurrences is_upstream demo_run.1 = 1%nat /\ (occurrences is_upstream demo_run.1 <= 1)%nat.
Proof. split; [by vm_compute|]. edestruct one_upstream_attempt as [H _]; [exact demo_runs|]. exact H. Defined.

Lemma attempt_with_ready_key_witness :
  exists pre a post, demo_run.1 = pre ++ existT (Upstream 0 "key") a :: post /\
    occurrences (related takes_slot) pre = S (occurrences (related gives_slot) pre).
Proof.
  exists (take 28 demo_run.1), (demo_attempt (Answered "{}" demo_usage)), (drop 29 demo_run.1).
  assert (H : demo_run.1 = take 28 demo_run.1 ++ existT (Upstream 0 "key") (demo_attempt (Answered "{}" demo_usage)) :: drop 29 demo_run.1)
    by (by vm_compute).
  split; [exact H|]. edestruct attempt_with_ready_key as [Hs _]; [exact demo_runs|exact H|]. exact Hs.
Defined.

Lemma request_ends_witness :
  (occurrences is_route demo_run.1 <= S (size (providers demo_handler)))%nat /\ occurrences is_route demo_run.1 = 2%nat.
Proof. split; [edestruct request_ends as [_ H]; eapply H, demo_runs|by vm_compute]. Defined.

(** * A gateway with a request in flight *)

From S2P Require Import Prelude GoStrings GoFloat Diagnostics Errors Availability AvailabilityFacts KeyPool KeyPoolTraces KeyPoolClaims Routes.
From S2P Require Pricing Budget AutoChain Routing ProviderSessions Limiter.
From S2P Require Import View Upstream Interaction Dispatch ClientCall RouteCall DispatchFacts System.

(** The provider [a] was published with two sessions; later with one. *)
Definition demo_small : Provider :=
  {| BaseURL := "https://example.org"; SupportedModels := ["chat"]; ModelAliases := ∅;
     ProviderSwitchThreshold := None; ModelSwitchThresholds := ∅; Prices := {["chat" := demo_price]};
     MaxActiveSessions := 1; ProviderBudget := Some demo_budget |}.
Definition demo_smaller : handler :=
  {| Routing := None; AutoChain := []; AccessToken := "t"; providers := {["a" := demo_small; "b" := demo_provider]};
     clients := {["a" := demo_client; "b" := demo_client]}; unavailableProviders := ∅; discovered := ∅;
     modelsKnown := ∅; providerGenerations := {["a" := 1; "b" := 1]}; routingEpoch := 1; reusedConnections := ∅;
     HealthDiagnostics := true; ActiveSessionIdleTimeoutSeconds := 60 |}.
Definition demo_published (v : handler) : Prop := v = demo_handler \/ v = demo_smaller.

Definition demo_thread : thread :=
  {| th_session := "s"; th_view := demo_handler; th_conduct := fresh;
     th_todo := serve (fun _ => None) (fun s => s) (fun _ => None) demo_handler (fun _ => demo_upstream) ∅ (fun _ => [])
                  "openai" false false Some (fun _ _ model => inl model) (fun _ => "") true None
                  (new_routeStep "a" "chat") demo_options start_local |}.

Definition demo_held : conduct :=
  fresh <| health := Some 0%nat |> <| sessions := {["a" := ProviderSessions.Providers.Lease 0 0]} |>.

Definition in_flight_as (g : gateway) (t : thread) : Prop := reachable demo_published g /\ running g !! 1%nat = Some t.

Lemma continue g t a ans k s :
  in_flight_as g t -> th_todo t = Act a k -> effect (th_view t) (th_session t) (sh g) a ans s ->
  exists g', sh g' = s /\ in_flight_as g'
    {| th_session := th_session t; th_view := th_view t; th_conduct := track (th_conduct t) a ans; th_todo := k ans |}.
Proof.
  intros [Hg Hr] Ht He. eexists. split; [|split; [eapply reach_step; [exact Hg|by eapply step_act]|]]; [done|]. cbn. by rewrite lookup_insert_eq.
Qed.

Lemma start_demo : exists g, sh g = sh (started ∅ None) /\ in_flight_as g demo_thread.
Proof.
  exists (put (started ∅ None) (sh (started ∅ None)) 1%nat demo_thread). split; [done|]. split; [|by cbn; rewrite lookup_insert_eq].
  eapply reach_step; [apply (reach_start _ ∅ None)|]. apply step_start; [done|by left].
Qed.

(** After [begin] and the admission of the session. *)
Lemma demo_in_flight :
  exists g t, in_flight_as g t /\ th_session t = "s" /\ th_conduct t = demo_held.
Proof.
  destruct start_demo as (g0 & S0 & H0).
  edestruct (continue g0 demo_thread (HealthBegin "a" "chat") (0%nat, None)) as (g1 & S1 & H1); [exact H0|reflexivity| |].
  { rewrite S0. exists 0. do 2 eexists. split; reflexivity. }
  assert (P1 : provider_sessions (sh g1) = ProviderSessions.Providers.no_sessions) by (by rewrite S1).
  epose proof (continue g1 _ (SessionAcquire ∅ "a" 2) ({["a" := ProviderSessions.Providers.Lease 0 0]}, None)) as Hc.
  edestruct Hc as (g2 & S2 & H2); [exact H1|reflexivity| |].
  { cbn [effect]. rewrite P1. exists (fun _ => true), Minute, false, 0. eexists. split; [|reflexivity]. by vm_compute. }
  eexists g2, _. split; [exact H2|]. done.
Qed.

Lemma gateway_refines_components_witness :
  exists g, reachable demo_published g /\ held_by health g 1%nat = Some 0%nat /\
    exists w, AvailabilityFacts.reachable w /\ st w = health_table (sh g) /\ owns (held_by health g) (fun l => l ∈ active w).
Proof.
  destruct demo_in_flight as (g & t & [Hg Hr] & _ & Ht). exists g. split_and!; [done|unfold held_by; by rewrite Hr; cbn; rewrite Ht|].
  destruct (gateway_refines_components demo_published g Hg) as (w & _ & _ & Hw & _). by exists w.
Defined.

Lemma recovery_belongs_to_request_witness :
  exists g, reachable demo_published g /\ held_by health g 1%nat = Some 0%nat /\
    forall t e, entry_at (health_table (sh g)) t = Some e -> probing e = true -> exists r l, held_by health g r = Some l /\ owner e = Some l.
Proof.
  destruct demo_in_flight as (g & t & [Hg Hr] & _ & Ht). exists g. split_and!; [done|unfold held_by; by rewrite Hr; cbn; rewrite Ht|].
  apply (recovery_belongs_to_request demo_published g Hg).
Defined.

Lemma gateway_session_capacity_witness :
  exists g, reachable demo_published g /\ Z.of_nat (length ["s"]) <= 2.
Proof.
  destruct demo_in_flight as (g & t & [Hg Hr] & Hs & Ht). exists g. split; [done|].
  apply (gateway_session_capacity demo_published g "a" 2 ["s"] Hg); [done|by intros v [->| ->]|apply NoDup_singleton|].
  apply Forall_singleton. exists 1%nat, t. rewrite Hs, Ht. split_and!; [done|by vm_compute|by eexists].
Defined.
