(* ===== verification/Reconciliation.v ===== *)
(** * Reconciliation: internal/ledger/reconciliation_schema.go and reconcile.go

    Audited requests are matched with the lines of supplier statements, with
    token counts and with balances.  The matches are kept in tables that
    triggers update in the transaction of each insertion; the views that define
    them are evaluated only for the inserted rows and once for an old database.
    Tables are finite maps by their primary keys.  Foreign keys are not
    enforced, as the connection leaves them off.  A column or a result that is
    a sum of amounts is the list of its addends: every amount that enters it,
    once; the order in which SQLite adds them and the rounding are left open. *)

From S2P Require Import Prelude GoStrings GoFloat.
From Stdlib Require Import SpecFloat.

(** ** Sources *)

Abbreviation sum := (list spec_float).

(** A row of [request_audit], by its [id]. *)
Record audit_row := {
  audit_timestamp : Z;
  audit_status : string;
  audit_model : string;
  audit_input : option Z;
  audit_output : option Z;
  audit_cost : option spec_float;
  audit_currency : option string;
}.

(** A row of [supplier_statement_lines]. *)
Record statement_line := {
  line_start : Z;
  line_end : Z;
  line_currency : string;
  line_amount : spec_float;
  line_request : option string;
  line_model : string;
  line_imported : Z;
}.

(** A row of [token_comparisons], by its [request_id]. *)
Record TokenComparison := {
  Tokenizer : string;
  TokenizerVersion : string;
  EstimatedInput : Z;
  EstimatedOutput : Z;
  MeasuredAtMS : Z;
}.

(** A row of [balance_snapshots], by its [id]. *)
Record BalanceSnapshot := {
  ObservedAtMS : Z;
  SnapshotCurrency : string;
  Total : spec_float;
  Granted : spec_float;
  ToppedUp : spec_float;
}.

(** ** Materialised rows *)

Record request_row := {
  req_timestamp : Z;
  req_currency : string;
  req_model : string;
  req_cost : option spec_float;
  req_input : option Z;
  req_output : option Z;
  req_lines : Z;
  req_supplier : sum;
  req_compared : bool;
  req_mismatch : bool;
}.

Record matched_row := { match_line : statement_line; match_status : string }.

Record interval_row := {
  int_from : option Z;
  int_to : Z;
  int_currency : string;
  int_net : option spec_float;
  int_local : sum;
  int_unknown : Z;
}.

#[export] Instance request_row_eta : Eta request_row := fun r =>
  {| req_timestamp := req_timestamp r; req_currency := req_currency r; req_model := req_model r; req_cost := req_cost r;
     req_input := req_input r; req_output := req_output r; req_lines := req_lines r; req_supplier := req_supplier r;
     req_compared := req_compared r; req_mismatch := req_mismatch r |}.
#[export] Instance interval_row_eta : Eta interval_row := fun r =>
  {| int_from := int_from r; int_to := int_to r; int_currency := int_currency r; int_net := int_net r; int_local := int_local r;
     int_unknown := int_unknown r |}.

Record database := {
  request_audit : gmap string audit_row;
  supplier_statement_lines : gmap Z statement_line;
  token_comparisons : gmap string TokenComparison;
  balance_snapshots : gmap Z BalanceSnapshot;
  reconciliation_requests : gmap string request_row;
  reconciliation_statements : gmap Z matched_row;
  reconciliation_balance_intervals : gmap Z interval_row;
  next_line : Z;                         (** AUTOINCREMENT *)
  next_snapshot : Z;
}.

#[export] Instance database_eta : Eta database := fun d =>
  {| request_audit := request_audit d; supplier_statement_lines := supplier_statement_lines d; token_comparisons := token_comparisons d;
     balance_snapshots := balance_snapshots d; reconciliation_requests := reconciliation_requests d;
     reconciliation_statements := reconciliation_statements d; reconciliation_balance_intervals := reconciliation_balance_intervals d;
     next_line := next_line d; next_snapshot := next_snapshot d |}.

Definition empty_database : database :=
  {| request_audit := ∅; supplier_statement_lines := ∅; token_comparisons := ∅; balance_snapshots := ∅; reconciliation_requests := ∅;
     reconciliation_statements := ∅; reconciliation_balance_intervals := ∅; next_line := 1; next_snapshot := 1 |}.

(** ** Views *)

Definition minus (x y : spec_float) : spec_float := SFsub Float.prec Float.emax x y.

Section views.
Context (d : database).

(** The rows of a table that satisfy a condition. *)
Definition rows {K V} `{Countable K} (p : K -> V -> bool) (m : gmap K V) : list (K * V) :=
  List.filter (fun kv => p kv.1 kv.2) (map_to_list m).

(** [reconciliation_statement_source]. *)
Definition line_status (l : statement_line) : string :=
  match line_request l with
  | None => "missing_request_id"
  | Some id =>
      if String.eqb id "" then "missing_request_id"
      else match request_audit d !! id with
      | None => "request_not_found"
      | Some a =>
          if negb (String.eqb (default "" (audit_currency a)) (line_currency l)) then "currency_mismatch"
          else if negb (String.eqb (line_model l) "") && negb (String.eqb (line_model l) (audit_model a)) then "model_mismatch"
          else if (audit_timestamp a <? line_start l) || (line_end l <=? audit_timestamp a) then "outside_request_period"
          else "matched"
      end
  end.
Definition statement_source (l : statement_line) : matched_row := {| match_line := l; match_status := line_status l |}.

Definition for_request (id : string) (l : statement_line) : bool :=
  match line_request l with Some r => String.eqb r id | None => false end.
Definition matches (id : string) (l : statement_line) : bool := for_request id l && String.eqb (line_status l) "matched".
Definition matched_lines (id : string) : list (Z * statement_line) := rows (fun _ l => matches id l) (supplier_statement_lines d).

Definition tokens_differ (estimated : Z) (counted : option Z) : bool := negb (estimated =? default (-1) counted).
Definition mismatch (c : TokenComparison) (input output : option Z) : bool :=
  tokens_differ (EstimatedInput c) input || tokens_differ (EstimatedOutput c) output.

(** [reconciliation_request_source]. *)
Definition request_source (id : string) (a : audit_row) : request_row :=
  {| req_timestamp := audit_timestamp a; req_currency := default "" (audit_currency a); req_model := audit_model a;
     req_cost := audit_cost a; req_input := audit_input a; req_output := audit_output a;
     req_lines := Z.of_nat (length (matched_lines id)); req_supplier := (fun kv => line_amount kv.2) <$> matched_lines id;
     req_compared := bool_decide (is_Some (token_comparisons d !! id));
     req_mismatch := match token_comparisons d !! id with Some c => mismatch c (audit_input a) (audit_output a) | None => false end |}.

(** The latest earlier snapshot of the currency; observations of a currency
    are unique. *)
Definition latest (best : option BalanceSnapshot) (kv : Z * BalanceSnapshot) : option BalanceSnapshot :=
  match best with
  | Some b => if ObservedAtMS b <? ObservedAtMS kv.2 then Some kv.2 else best
  | None => Some kv.2
  end.
Definition previous (b : BalanceSnapshot) : option BalanceSnapshot :=
  foldl latest None (rows (fun _ p => String.eqb (SnapshotCurrency p) (SnapshotCurrency b) && (ObservedAtMS p <? ObservedAtMS b))
                       (balance_snapshots d)).

Definition audited_between (currency : string) (from until : Z) : list (string * audit_row) :=
  rows (fun _ a => bool_decide (audit_currency a = Some currency) && (from <=? audit_timestamp a) && (audit_timestamp a <? until))
    (request_audit d).
Definition costs (l : list (string * audit_row)) : sum := omap (fun kv => audit_cost kv.2) l.
Definition unknown_costs (l : list (string * audit_row)) : Z :=
  Z.of_nat (length (List.filter (fun kv => bool_decide (audit_cost kv.2 = None)) l)).

(** [reconciliation_balance_source]. *)
Definition balance_source (b : BalanceSnapshot) : interval_row :=
  let p := previous b in
  let audits := match p with Some p => audited_between (SnapshotCurrency b) (ObservedAtMS p) (ObservedAtMS b) | None => [] end in
  {| int_from := ObservedAtMS <$> p; int_to := ObservedAtMS b; int_currency := SnapshotCurrency b;
     int_net := (fun p => minus (Total b) (Total p)) <$> p; int_local := costs audits; int_unknown := unknown_costs audits |}.
End views.

(** ** Triggers *)

Definition replace_lines (d : database) (p : statement_line -> bool) : gmap Z matched_row :=
  foldl (fun m kv => <[kv.1 := statement_source d kv.2]> m) (reconciliation_statements d) (rows (fun _ l => p l) (supplier_statement_lines d)).

(** [reconciliation_audit_insert]. *)
Definition add_to_interval (a : audit_row) (i : interval_row) : interval_row :=
  if bool_decide (audit_currency a = Some (int_currency i)) &&
     match int_from i with Some from => from <=? audit_timestamp a | None => false end && (audit_timestamp a <? int_to i)
  then i <| int_local := int_local i ++ option_list (audit_cost a) |>
         <| int_unknown := int_unknown i + (if bool_decide (audit_cost a = None) then 1 else 0) |>
  else i.
Definition audit_trigger (d : database) (id : string) (a : audit_row) : database :=
  d <| reconciliation_requests := <[id := request_source d id a]> (reconciliation_requests d) |>
    <| reconciliation_statements := replace_lines d (for_request id) |>
    <| reconciliation_balance_intervals := add_to_interval a <$> reconciliation_balance_intervals d |>.

(** [reconciliation_token_insert]. *)
Definition compare_tokens (c : TokenComparison) (r : request_row) : request_row :=
  r <| req_compared := true |> <| req_mismatch := mismatch c (req_input r) (req_output r) |>.
Definition token_trigger (d : database) (id : string) (c : TokenComparison) : database :=
  d <| reconciliation_requests := alter (compare_tokens c) id (reconciliation_requests d) |>.

(** [reconciliation_statement_insert]: the new row decides whether the line
    counts for its request. *)
Definition add_line (l : statement_line) (r : request_row) : request_row :=
  r <| req_lines := req_lines r + 1 |> <| req_supplier := req_supplier r ++ [line_amount l] |>.
Definition count_line (l : statement_line) (status : option string) (m : gmap string request_row) : gmap string request_row :=
  match line_request l with
  | Some id => if bool_decide (status = Some "matched") then alter (add_line l) id m else m
  | None => m
  end.
Definition line_trigger (d : database) (n : Z) (l : statement_line) : database :=
  let statements := <[n := statement_source d l]> (reconciliation_statements d) in
  d <| reconciliation_statements := statements |>
    <| reconciliation_requests := count_line l (match_status <$> statements !! n) (reconciliation_requests d) |>.

(** [reconciliation_balance_insert]: the new snapshot and the next one. *)
Definition earliest (best : option (Z * BalanceSnapshot)) (kv : Z * BalanceSnapshot) : option (Z * BalanceSnapshot) :=
  match best with
  | Some b => if ObservedAtMS kv.2 <? ObservedAtMS b.2 then Some kv else best
  | None => Some kv
  end.
Definition next_balance (d : database) (b : BalanceSnapshot) : option (Z * BalanceSnapshot) :=
  foldl earliest None (rows (fun _ n => String.eqb (SnapshotCurrency n) (SnapshotCurrency b) && (ObservedAtMS b <? ObservedAtMS n))
                         (balance_snapshots d)).
Definition balance_trigger (d : database) (n : Z) (b : BalanceSnapshot) : database :=
  let put m kv := <[kv.1 := balance_source d kv.2]> m in
  d <| reconciliation_balance_intervals :=
         foldl put (put (reconciliation_balance_intervals d) (n, b)) (option_list (next_balance d b)) |>.

(** The backfill of a database without the tables. *)
Definition backfill (d : database) : database :=
  d <| reconciliation_requests := map_imap (fun id a => Some (request_source d id a)) (request_audit d) |>
    <| reconciliation_statements := statement_source d <$> supplier_statement_lines d |>
    <| reconciliation_balance_intervals := balance_source d <$> balance_snapshots d |>.

(** ** Insertions

    A statement that violates a constraint changes nothing. *)

Definition insert_audit (id : string) (a : audit_row) (d : database) : option database :=
  match request_audit d !! id with
  | Some _ => None
  | None => Some (audit_trigger (d <| request_audit := <[id := a]> (request_audit d) |>) id a)
  end.

Definition insert_comparison (id : string) (c : TokenComparison) (d : database) : option database :=
  match token_comparisons d !! id with
  | Some _ => None
  | None => Some (token_trigger (d <| token_comparisons := <[id := c]> (token_comparisons d) |>) id c)
  end.

Definition insert_line (l : statement_line) (d : database) : database :=
  let n := next_line d in
  line_trigger (d <| supplier_statement_lines := <[n := l]> (supplier_statement_lines d) |> <| next_line := n + 1 |>) n l.

Definition same_observation (b : BalanceSnapshot) (kv : Z * BalanceSnapshot) : bool :=
  (ObservedAtMS kv.2 =? ObservedAtMS b) && String.eqb (SnapshotCurrency kv.2) (SnapshotCurrency b).
Definition insert_snapshot (b : BalanceSnapshot) (d : database) : option database :=
  if existsb (same_observation b) (map_to_list (balance_snapshots d)) then None
  else
    let n := next_snapshot d in
    Some (balance_trigger (d <| balance_snapshots := <[n := b]> (balance_snapshots d) |> <| next_snapshot := n + 1 |>) n b).

(** [AppendTokenComparison] and [AppendBalanceSnapshot]. *)
Definition validAmount (x : spec_float) : bool := negb (Float.is_nan x) && negb (Float.is_inf x) && Float.le Float.zero x.
Definition blank (s : string) : bool := String.eqb (Strings.TrimSpace s) "".

Definition AppendTokenComparison (id : string) (c : TokenComparison) (d : database) : option database :=
  if String.eqb id "" || blank (Tokenizer c) || blank (TokenizerVersion c) || (EstimatedInput c <? 0) || (EstimatedOutput c <? 0) ||
     (MeasuredAtMS c <=? 0) then None
  else insert_comparison id c d.

Definition AppendBalanceSnapshot (b : BalanceSnapshot) (d : database) : option database :=
  if (ObservedAtMS b <=? 0) || blank (SnapshotCurrency b) || negb (validAmount (Total b)) || negb (validAmount (Granted b)) ||
     negb (validAmount (ToppedUp b)) then None
  else insert_snapshot b d.

(** [AppendAudit] as far as the columns; a failure, also one of the database,
    makes the audit of this ledger unavailable for good. *)
Record Audit := {
  ID : string;
  TimestampMS : Z;
  Protocol : string;
  Upstream : string;
  Model : string;
  Status : string;
  InputTokens : option Z;
  OutputTokens : option Z;
  CacheReadTokens : option Z;
  CacheWriteTokens : option Z;
  EstimatedCost : option spec_float;
  Currency : string;
}.

Definition negative (n : option Z) : bool := match n with Some n => n <? 0 | None => false end.
Definition bad_audit (a : Audit) : bool :=
  String.eqb (ID a) "" || (TimestampMS a <=? 0) || negb (bool_decide (In (Protocol a) ["openai"; "anthropic"])) ||
  String.eqb (Upstream a) "" || String.eqb (Model a) "" || negb (bool_decide (In (Status a) ["ok"; "error"; "canceled"])) ||
  existsb negative [InputTokens a; OutputTokens a; CacheReadTokens a; CacheWriteTokens a] ||
  match EstimatedCost a with
  | Some x => Float.lt x Float.zero || Float.is_nan x || Float.is_inf x || String.eqb (Currency a) ""
  | None => false
  end.
Definition audit_columns (a : Audit) : audit_row :=
  {| audit_timestamp := TimestampMS a; audit_status := Status a; audit_model := Model a; audit_input := InputTokens a;
     audit_output := OutputTokens a; audit_cost := EstimatedCost a; audit_currency := Some (Currency a) |}.

(** The ledger as far as reconciliation goes: [statement_imports] by their
    fingerprint and the one row of [statement_sync]. *)
Record StatementSync := {
  LastAttemptMS : Z;
  LastSuccessMS : option Z;
  FilesImported : Z;
  LinesImported : Z;
  Failures : Z;
}.
Record statement_import := { imported_at : Z; row_count : Z }.
Record Ledger := {
  db : database;
  auditUnavailable : bool;
  statement_imports : gmap string statement_import;
  statement_import_sources : gmap string string;
  statement_sync : option StatementSync;
}.
#[export] Instance Ledger_eta : Eta Ledger := fun l =>
  {| db := db l; auditUnavailable := auditUnavailable l; statement_imports := statement_imports l;
     statement_import_sources := statement_import_sources l; statement_sync := statement_sync l |}.

Definition AppendAudit (a : Audit) (write_ok : bool) (l : Ledger) : Ledger * bool :=
  match (if bad_audit a || negb write_ok then None else insert_audit (ID a) (audit_columns a) (db l)) with
  | Some d => (l <| db := d |>, true)
  | None => (l <| auditUnavailable := true |>, false)
  end.

(** [BillingUsage]; [SUM] of integers fails when it overflows. *)
Record UsageSummary := {
  RequestCount : Z;
  SuccessfulRequests : Z;
  ErrorRequests : Z;
  CanceledRequests : Z;
  SumInputTokens : Z;
  SumOutputTokens : Z;
  UnknownInputRequests : Z;
  UnknownOutputRequests : Z;
}.

(** ** Statistics *)

(** [Reconciliation]; a difference is the amounts that count for it and those
    that count against it. *)
Record Reconciliation := {
  Coverage : string;
  LocalEstimated : sum;
  SupplierStatement : sum;
  Difference : option (sum * sum);
  StatementLines : Z;
  PartialStatementLines : Z;
  MatchedLines : Z;
  UnmatchedLines : Z;
  MissingStatementRequests : Z;
  UnknownCostRequests : Z;
  MatchedLocalEstimated : sum;
  MatchedDifference : option (sum * sum);
  TokenizerComparisons : Z;
  TokenizerMismatches : Z;
  BalanceNetChange : option sum;
  UnattributedBalanceDelta : option sum;
}.
#[export] Instance Reconciliation_eta : Eta Reconciliation := fun x =>
  {| Coverage := Coverage x; LocalEstimated := LocalEstimated x; SupplierStatement := SupplierStatement x; Difference := Difference x;
     StatementLines := StatementLines x; PartialStatementLines := PartialStatementLines x; MatchedLines := MatchedLines x;
     UnmatchedLines := UnmatchedLines x; MissingStatementRequests := MissingStatementRequests x; UnknownCostRequests := UnknownCostRequests x;
     MatchedLocalEstimated := MatchedLocalEstimated x; MatchedDifference := MatchedDifference x;
     TokenizerComparisons := TokenizerComparisons x; TokenizerMismatches := TokenizerMismatches x;
     BalanceNetChange := BalanceNetChange x; UnattributedBalanceDelta := UnattributedBalanceDelta x |}.
Definition new_Reconciliation : Reconciliation :=
  {| Coverage := ""; LocalEstimated := []; SupplierStatement := []; Difference := None; StatementLines := 0; PartialStatementLines := 0;
     MatchedLines := 0; UnmatchedLines := 0; MissingStatementRequests := 0; UnknownCostRequests := 0; MatchedLocalEstimated := [];
     MatchedDifference := None; TokenizerComparisons := 0; TokenizerMismatches := 0; BalanceNetChange := None; UnattributedBalanceDelta := None |}.

Definition validatePeriod (from until : Z) : bool := negb ((from <? 0) || (until <? 0) || ((0 <? until) && (until <=? from))).

(** [periodWhere] and [statementWhereColumns]: a bound of zero is open. *)
Definition in_period (from until t : Z) : bool := ((from <=? 0) || (from <=? t)) && ((until <=? 0) || (t <? until)).
Definition period_within (from until first last : Z) : bool := ((from <=? 0) || (from <=? first)) && ((until <=? 0) || (last <=? until)).
Definition period_overlaps (from until first last : Z) : bool := ((from <=? 0) || (from <? last)) && ((until <=? 0) || (first <? until)).

(** One query: its rows by their currency, and what the loop over the groups
    does with the result of a currency. *)
Abbreviation data := (gmap string Reconciliation).
Definition grouped {R} (currency : R -> string) (l : list R) : gmap string (list R) :=
  foldr (fun r m => <[currency r := r :: default [] (m !! currency r)]> m) ∅ l.
Definition each_group {R} (f : list R -> Reconciliation -> Reconciliation) (groups : gmap string (list R)) (x : data) : data :=
  map_imap (fun c l => Some (f l (default new_Reconciliation (x !! c)))) groups ∪ x.

Definition count {R} (p : R -> bool) (l : list R) : Z := Z.of_nat (length (List.filter p l)).

Definition total (f : audit_row -> option Z) (l : list (string * audit_row)) : Z := foldr Z.add 0 (omap (fun kv => f kv.2) l).

Section stats.
Context (d : database) (from until : Z).

Definition BillingUsage : option UsageSummary :=
  if validatePeriod from until then
    let l := rows (fun _ a => in_period from until (audit_timestamp a)) (request_audit d) in
    let of_status s := count (fun kv => String.eqb (audit_status kv.2) s) l in
    if (total audit_input l <=? max_int64) && (total audit_output l <=? max_int64)
    then Some {| RequestCount := Z.of_nat (length l); SuccessfulRequests := of_status "ok"; ErrorRequests := of_status "error";
      CanceledRequests := of_status "canceled"; SumInputTokens := total audit_input l; SumOutputTokens := total audit_output l;
      UnknownInputRequests := count (fun kv => bool_decide (audit_input kv.2 = None)) l;
      UnknownOutputRequests := count (fun kv => bool_decide (audit_output kv.2 = None)) l |}
    else None
  else None.

Definition requests_in : list (string * request_row) := rows (fun _ r => in_period from until (req_timestamp r)) (reconciliation_requests d).
Definition statements_in : list (Z * matched_row) :=
  rows (fun _ m => period_within from until (line_start (match_line m)) (line_end (match_line m))) (reconciliation_statements d).
Definition partial_statements : list (Z * matched_row) :=
  rows (fun _ m => let l := match_line m in
          period_overlaps from until (line_start l) (line_end l) && negb (period_within from until (line_start l) (line_end l)))
    (reconciliation_statements d).
Definition is_matched (kv : Z * matched_row) : bool := String.eqb (match_status kv.2) "matched".
Definition statement_currency (kv : Z * matched_row) : string := line_currency (match_line kv.2).
Definition amounts (l : list (Z * matched_row)) : sum := (fun kv => line_amount (match_line kv.2)) <$> l.

Definition request_totals (l : list (string * request_row)) (x : Reconciliation) : Reconciliation :=
  x <| LocalEstimated := omap (fun kv => req_cost kv.2) l |>
    <| UnknownCostRequests := count (fun kv => bool_decide (req_cost kv.2 = None)) l |>
    <| MissingStatementRequests := count (fun kv => req_lines kv.2 =? 0) l |>
    <| TokenizerComparisons := count (fun kv => req_compared kv.2) l |>
    <| TokenizerMismatches := count (fun kv => req_mismatch kv.2) l |>.

Definition statement_totals (l : list (Z * matched_row)) (x : Reconciliation) : Reconciliation :=
  x <| SupplierStatement := amounts l |> <| StatementLines := Z.of_nat (length l) |> <| MatchedLines := count is_matched l |>
    <| UnmatchedLines := count (fun kv => negb (is_matched kv)) l |>.

Definition partial_totals (l : list (Z * matched_row)) (x : Reconciliation) : Reconciliation :=
  x <| PartialStatementLines := Z.of_nat (length l) |>.

(** The join: every request with matched lines in the period, once, with all of
    their amounts. *)
Definition lines_of (id : string) : list (Z * matched_row) :=
  List.filter (fun kv => is_matched kv && for_request id (match_line kv.2)) statements_in.
Definition joined : list (request_row * sum) :=
  omap (fun kv => match lines_of kv.1 with [] => None | l => Some (kv.2, amounts l) end) (map_to_list (reconciliation_requests d)).
Definition matched_totals (l : list (request_row * sum)) (x : Reconciliation) : Reconciliation :=
  let local := omap (fun r => req_cost r.1) l in
  let x := x <| MatchedLocalEstimated := local |> in
  if count (fun r => bool_decide (req_cost r.1 = None)) l =? 0
  then x <| MatchedDifference := Some (concat (snd <$> l), local) |> else x.

Definition intervals_in : list (Z * interval_row) :=
  rows (fun _ i => match int_from i with Some first => period_within from until first (int_to i) | None => false end)
    (reconciliation_balance_intervals d).
Definition balance_totals (l : list (Z * interval_row)) (x : Reconciliation) : Reconciliation :=
  let delta := omap (fun kv => int_net kv.2) l in
  let x := x <| BalanceNetChange := Some delta |> in
  if foldr Z.add 0 ((fun kv => int_unknown kv.2) <$> l) =? 0
  then x <| UnattributedBalanceDelta := Some (delta ++ concat ((fun kv => int_local kv.2) <$> l)) |> else x.

Definition balances_in : list (Z * BalanceSnapshot) := rows (fun _ b => in_period from until (ObservedAtMS b)) (balance_snapshots d).

Definition conclude (x : Reconciliation) : Reconciliation :=
  let x := x <| Coverage := "partial" |> in
  let x := if (StatementLines x =? 0) && (PartialStatementLines x =? 0) then x <| Coverage := "no_statement" |> else x in
  if (0 <? StatementLines x) && (PartialStatementLines x =? 0) && (UnmatchedLines x =? 0) && (MissingStatementRequests x =? 0) &&
     (UnknownCostRequests x =? 0)
  then x <| Coverage := "complete" |> <| Difference := Some (SupplierStatement x, LocalEstimated x) |> else x.

Definition collect : data :=
  let x : data := ∅ in
  let x := each_group request_totals (grouped (fun kv => req_currency kv.2) requests_in) x in
  let x := each_group statement_totals (grouped statement_currency statements_in) x in
  let x := if (0 <? from) || (0 <? until) then each_group partial_totals (grouped statement_currency partial_statements) x else x in
  let x := each_group matched_totals (grouped (fun r => req_currency r.1) joined) x in
  let x := each_group balance_totals (grouped (fun kv => int_currency kv.2) intervals_in) x in
  each_group (fun _ x => x) (grouped (fun kv => SnapshotCurrency kv.2) balances_in) x.

(** The statistics of every currency; the code lists them by currency. *)
Definition ReconciliationStats : option data := if validatePeriod from until then Some (conclude <$> collect) else None.
End stats.
