(* ===== verification/ReconciliationFacts.v ===== *)
(** * Reconciliation: the tables are what the views say

    Every insertion leaves the materialised tables as the views define them
    over all rows. *)

From S2P Require Import Prelude GoStrings GoFloat Reconciliation.
From Stdlib Require Import SpecFloat.

(** ** Rows *)

Section rows.
Context {K V : Type} `{Countable K}.
Implicit Types (m : gmap K V) (p : K -> V -> bool).

Lemma in_rows p m k v : (k, v) ∈ rows p m <-> m !! k = Some v /\ p k v = true.
Proof. unfold rows. rewrite list_elem_of_In, filter_In, <-list_elem_of_In, elem_of_map_to_list. done. Qed.

Lemma filter_perm {A} (f : A -> bool) l l' : l ≡ₚ l' -> List.filter f l ≡ₚ List.filter f l'.
Proof.
  induction 1 as [|x l l' _ IH|x y l|]; [done| |cbn; repeat case_match; solve [done | constructor]|by etrans].
  cbn. destruct (f x); [by constructor|done].
Qed.

Lemma rows_insert p m k v : m !! k = None -> rows p (<[k := v]> m) ≡ₚ (if p k v then [(k, v)] else []) ++ rows p m.
Proof.
  intros Hk. unfold rows. rewrite (filter_perm _ _ _ (map_to_list_insert m k v Hk)). cbn. by destruct (p k v).
Qed.

Lemma filter_ext_in {A} (f g : A -> bool) l : (forall x, x ∈ l -> f x = g x) -> List.filter f l = List.filter g l.
Proof. intros Hl. apply List.filter_ext_in. intros x Hx. by apply Hl, list_elem_of_In. Qed.

Lemma rows_ext p q m : (forall k v, m !! k = Some v -> p k v = q k v) -> rows p m = rows q m.
Proof. intros Hpq. apply filter_ext_in. intros [k v] Hkv%elem_of_map_to_list. by apply Hpq. Qed.

Lemma rows_NoDup p m : NoDup (rows p m).*1.
Proof.
  unfold rows. pose proof (NoDup_fst_map_to_list m) as Hn. revert Hn. generalize (map_to_list m) as l.
  induction l as [|[k v] l IH]; cbn; [done|]. intros [Hk Hl]%NoDup_cons. destruct (p k v); cbn; [|by apply IH]. constructor; [|by apply IH].
  intros ([k' v'] & -> & Hin)%list_elem_of_fmap. apply Hk, list_elem_of_fmap. exists (k', v'). split; [done|].
  apply list_elem_of_In in Hin. apply filter_In in Hin as [Hin _]. by apply list_elem_of_In.
Qed.

(** Inserting the images of rows. *)
Lemma lookup_put_all {W} (f : V -> W) (l : list (K * V)) (m : gmap K W) k : NoDup l.*1 ->
  foldl (fun acc kv => <[kv.1 := f kv.2]> acc) m l !! k =
  match list_to_map (M := gmap K V) l !! k with Some v => Some (f v) | None => m !! k end.
Proof.
  revert m. induction l as [|[k' v] l IH]; intros m; cbn; [by rewrite lookup_empty|]. intros [Hk Hl]%NoDup_cons.
  rewrite IH by done. destruct (decide (k = k')) as [->|Hne].
  - rewrite !lookup_insert_eq. rewrite not_elem_of_list_to_map_1 by done. done.
  - by rewrite !lookup_insert_ne by congruence.
Qed.

Lemma lookup_rows_map p m k : (list_to_map (rows p m) : gmap K V) !! k = match m !! k with Some v => if p k v then Some v else None | None => None end.
Proof.
  destruct (m !! k) as [v|] eqn:E.
  - destruct (p k v) eqn:Hp.
    + apply elem_of_list_to_map; [apply rows_NoDup|]. by apply in_rows.
    + apply not_elem_of_list_to_map. intros ([k' v'] & -> & Hin)%list_elem_of_fmap. apply in_rows in Hin as [? ?]. cbn in *. congruence.
  - apply not_elem_of_list_to_map. intros ([k' v'] & -> & Hin)%list_elem_of_fmap. apply in_rows in Hin as [? ?]. cbn in *. congruence.
Qed.

Lemma lookup_put_rows {W} (f : V -> W) p m (m0 : gmap K W) k :
  foldl (fun acc kv => <[kv.1 := f kv.2]> acc) m0 (rows p m) !! k =
  match m !! k with Some v => if p k v then Some (f v) else m0 !! k | None => m0 !! k end.
Proof. rewrite lookup_put_all by apply rows_NoDup. rewrite lookup_rows_map. destruct (m !! k); [|done]. by destruct (p k v). Qed.
End rows.


(** ** Fresh tables *)

(** A row as the view has it; amounts in any order. *)
Definition same_request (r s : request_row) : Prop :=
  r <| req_supplier := [] |> = s <| req_supplier := [] |> /\ req_supplier r ≡ₚ req_supplier s.
Definition same_interval (i j : interval_row) : Prop :=
  i <| int_local := [] |> = j <| int_local := [] |> /\ int_local i ≡ₚ int_local j.

Definition unique_observations (d : database) : Prop := forall n1 n2 b1 b2, balance_snapshots d !! n1 = Some b1 ->
  balance_snapshots d !! n2 = Some b2 -> SnapshotCurrency b1 = SnapshotCurrency b2 -> ObservedAtMS b1 = ObservedAtMS b2 -> n1 = n2.

Record sources_ok (d : database) : Prop := {
  lines_below : forall n, is_Some (supplier_statement_lines d !! n) -> n < next_line d;
  snapshots_below : forall n, is_Some (balance_snapshots d !! n) -> n < next_snapshot d;
  observed_once : unique_observations d;
}.

(** Every materialised table is what its view says of all rows. *)
Record fresh (d : database) : Prop := {
  fresh_sources : sources_ok d;
  fresh_requests : forall id, option_Forall2 same_request (reconciliation_requests d !! id) (request_source d id <$> request_audit d !! id);
  fresh_statements : reconciliation_statements d = statement_source d <$> supplier_statement_lines d;
  fresh_intervals : forall n, option_Forall2 same_interval (reconciliation_balance_intervals d !! n) (balance_source d <$> balance_snapshots d !! n);
}.

#[local] Instance same_request_refl : Reflexive same_request.
Proof. by intros r. Qed.
#[local] Instance same_interval_refl : Reflexive same_interval.
Proof. by intros r. Qed.
Lemma same_request_trans r s t : same_request r s -> same_request s t -> same_request r t.
Proof. intros [H1 H2] [H3 H4]. split; [congruence|by etrans]. Qed.
Lemma same_interval_trans r s t : same_interval r s -> same_interval s t -> same_interval r t.
Proof. intros [H1 H2] [H3 H4]. split; [congruence|by etrans]. Qed.

(** ** What the views read *)

Lemma for_request_spec id l : for_request id l = true <-> line_request l = Some id.
Proof.
  unfold for_request. destruct (line_request l) as [r|]; [|done]. rewrite String.eqb_eq. split; [by intros ->|by intros [= ->]].
Qed.

Lemma line_status_audits d d' l : request_audit d = request_audit d' -> line_status d l = line_status d' l.
Proof. intros E. unfold line_status. by rewrite E. Qed.

Lemma line_status_insert d id a l : for_request id l = false ->
  line_status (d <| request_audit := <[id := a]> (request_audit d) |>) l = line_status d l.
Proof.
  intros Hl. unfold line_status. destruct (line_request l) as [r|] eqn:Hr; [|done]. cbn [request_audit update].
  rewrite lookup_insert_ne; [done|]. intros <-. apply not_true_iff_false in Hl. by apply Hl, for_request_spec.
Qed.

Lemma matched_status d l : line_status d l = "matched" -> exists id a, line_request l = Some id /\ request_audit d !! id = Some a /\
  default "" (audit_currency a) = line_currency l /\ line_start l <= audit_timestamp a < line_end l.
Proof.
  unfold line_status. destruct (line_request l) as [id|]; [|done]. destruct (String.eqb id ""); [done|].
  destruct (request_audit d !! id) as [a|] eqn:Ha; [|done]. destruct (String.eqb_spec (default "" (audit_currency a)) (line_currency l)); cbn [negb]; [|done].
  destruct (negb _ && negb _); [done|]. destruct (_ || _) eqn:E; [done|]. apply orb_false_iff in E as [E1%Z.ltb_ge E2%Z.leb_gt].
  intros _. exists id, a. split_and!; done.
Qed.

Lemma same_request_source d d' id a : token_comparisons d = token_comparisons d' ->
  matched_lines d id ≡ₚ matched_lines d' id -> same_request (request_source d id a) (request_source d' id a).
Proof.
  intros Ht Hm. unfold same_request, request_source. rewrite Ht, (Permutation_length Hm). split; [done|]. cbn. by rewrite Hm.
Qed.

Lemma matched_lines_ext d d' id : supplier_statement_lines d = supplier_statement_lines d' ->
  (forall l, for_request id l = true -> line_status d l = line_status d' l) -> matched_lines d id = matched_lines d' id.
Proof.
  intros Hl Hs. unfold matched_lines. rewrite Hl. apply rows_ext. intros n l _. unfold matches. destruct (for_request id l) eqn:Hf; [|done].
  by rewrite (Hs l Hf).
Qed.

(** ** An audited request *)

Lemma audited_insert d id a currency from until : request_audit d !! id = None ->
  audited_between (d <| request_audit := <[id := a]> (request_audit d) |>) currency from until ≡ₚ
  (if bool_decide (audit_currency a = Some currency) && (from <=? audit_timestamp a) && (audit_timestamp a <? until) then [(id, a)] else []) ++
  audited_between d currency from until.
Proof. intros Hn. unfold audited_between. cbn [request_audit update]. by rewrite rows_insert. Qed.

Lemma unknown_costs_perm l l' : l ≡ₚ l' -> unknown_costs l = unknown_costs l'.
Proof. intros H. unfold unknown_costs. by rewrite (filter_perm _ _ _ H). Qed.

Lemma same_interval_intro f t c n l u l' u' : u = u' -> l ≡ₚ l' ->
  same_interval (Build_interval_row f t c n l u) (Build_interval_row f t c n l' u').
Proof. intros -> H. by split. Qed.

(** What the trigger adds to an interval is what its view gains. *)
Lemma interval_gains d id a i b : request_audit d !! id = None -> same_interval i (balance_source d b) ->
  same_interval (add_to_interval a i) (balance_source (d <| request_audit := <[id := a]> (request_audit d) |>) b).
Proof.
  intros Hn [H1 H2]. set (d1 := d <| request_audit := <[id := a]> (request_audit d) |>).
  assert (Hp : previous d1 b = previous d b) by done.
  destruct i as [f t c net loc unk]. unfold balance_source in *. rewrite Hp. cbn in H1, H2. injection H1 as -> -> -> -> ->.
  unfold add_to_interval. cbn [int_currency int_from int_to]. destruct (previous d b) as [p|]; cbn [fmap option_fmap option_map].
  2: { rewrite andb_false_r. by split. }
  pose proof (audited_insert d id a (SnapshotCurrency b) (ObservedAtMS p) (ObservedAtMS b) Hn) as Hi. fold d1 in Hi.
  destruct (bool_decide _ && _ && _).
  - refine (same_interval_intro _ _ _ _ (loc ++ option_list (audit_cost a)) (_ + _) _ _ _ _).
    + rewrite (unknown_costs_perm _ _ Hi). unfold unknown_costs. cbn [app List.filter fst snd].
      destruct (bool_decide (audit_cost a = None)); cbn [length int_unknown]; lia.
    + unfold costs. rewrite Hi. cbn [app]. rewrite H2, (Permutation_app_comm _ (option_list _)).
      cbn [omap list_omap snd]. by destruct (audit_cost a).
  - refine (same_interval_intro _ _ _ _ loc _ _ _ _ _); [by rewrite (unknown_costs_perm _ _ Hi)|]. unfold costs. by rewrite Hi.
Qed.

Lemma insert_audit_fresh id a d d' : fresh d -> insert_audit id a d = Some d' -> fresh d'.
Proof.
  intros [[Hl Hs Hu] Hreq Hst Hint]. unfold insert_audit. destruct (request_audit d !! id) eqn:Hn; [done|]. intros [= <-].
  set (d1 := d <| request_audit := <[id := a]> (request_audit d) |>).
  assert (Hother : forall l, for_request id l = false -> line_status d1 l = line_status d l) by (intros l; apply line_status_insert).
  split.
  - by split.
  - intros id'. change (request_audit (audit_trigger d1 id a)) with (<[id := a]> (request_audit d)).
    change (reconciliation_requests (audit_trigger d1 id a)) with (<[id := request_source d1 id a]> (reconciliation_requests d)).
    destruct (decide (id = id')) as [<-|Hne].
    + rewrite !lookup_insert_eq. constructor. reflexivity.
    + rewrite !lookup_insert_ne by done. specialize (Hreq id'). destruct (request_audit d !! id') as [a'|]; [|exact Hreq].
      inversion Hreq as [r s Hrs Er Es|]; subst. constructor. eapply same_request_trans; [exact Hrs|]. apply same_request_source; [done|].
      change (matched_lines (audit_trigger d1 id a) id') with (matched_lines d1 id').
      rewrite (matched_lines_ext d d1 id'); [done|done|]. intros l Hf. symmetry. apply Hother.
      apply not_true_iff_false. rewrite for_request_spec. apply for_request_spec in Hf. congruence.
  - apply map_eq. intros n. change (reconciliation_statements (audit_trigger d1 id a)) with (replace_lines d1 (for_request id)).
    unfold replace_lines. rewrite (lookup_put_rows (statement_source d1)), lookup_fmap.
    change (supplier_statement_lines (audit_trigger d1 id a)) with (supplier_statement_lines d).
    change (supplier_statement_lines d1) with (supplier_statement_lines d). change (reconciliation_statements d1) with (reconciliation_statements d).
    rewrite Hst, lookup_fmap. destruct (supplier_statement_lines d !! n) as [l|]; [|done]. cbn.
    destruct (for_request id l) eqn:Hf; [done|]. f_equal. unfold statement_source. f_equal.
    change (line_status (audit_trigger d1 id a) l) with (line_status d1 l). by rewrite Hother.
  - intros n. change (reconciliation_balance_intervals (audit_trigger d1 id a)) with (add_to_interval a <$> reconciliation_balance_intervals d).
    change (balance_source (audit_trigger d1 id a)) with (balance_source d1). change (balance_snapshots (audit_trigger d1 id a)) with (balance_snapshots d).
    rewrite lookup_fmap. specialize (Hint n). destruct (balance_snapshots d !! n) as [b|]; inversion Hint; subst; cbn; constructor.
    by apply interval_gains.
Qed.

(** ** A token comparison *)

Lemma insert_comparison_fresh id c d d' : fresh d -> insert_comparison id c d = Some d' -> fresh d'.
Proof.
  intros [[Hl Hs Hu] Hreq Hst Hint]. unfold insert_comparison. destruct (token_comparisons d !! id) eqn:Hn; [done|]. intros [= <-].
  set (d1 := d <| token_comparisons := <[id := c]> (token_comparisons d) |>). split; [by split| |exact Hst|exact Hint].
  intros id'. change (request_audit (token_trigger d1 id c)) with (request_audit d). change (request_source (token_trigger d1 id c)) with (request_source d1).
  change (reconciliation_requests (token_trigger d1 id c)) with (alter (compare_tokens c) id (reconciliation_requests d)).
  specialize (Hreq id'). destruct (decide (id = id')) as [<-|Hne].
  - rewrite lookup_alter_eq. destruct (request_audit d !! id) as [a|]; inversion Hreq as [r s Hrs Er Es|]; subst; cbn; constructor.
    destruct Hrs as [H1 H2]. destruct r. cbn in H1. injection H1 as -> -> -> -> -> -> -> -> ->.
    split; [|exact H2]. unfold request_source, compare_tokens. cbn. by rewrite lookup_insert_eq.
  - rewrite lookup_alter_ne by done. destruct (request_audit d !! id') as [a|]; [|exact Hreq].
    inversion Hreq as [r s Hrs Er Es|]; subst. constructor. destruct Hrs as [H1 H2]. split; [|exact H2].
    rewrite H1. unfold request_source. cbn. by rewrite lookup_insert_ne.
Qed.

(** ** A statement line *)

Lemma matches_request d id l : matches d id l = true -> line_request l = Some id /\ line_status d l = "matched".
Proof. unfold matches. intros [H1%for_request_spec H2%String.eqb_eq]%andb_true_iff. done. Qed.

Lemma same_request_intro t c m k i o n s f e n' s' : n = n' -> s ≡ₚ s' ->
  same_request (Build_request_row t c m k i o n s f e) (Build_request_row t c m k i o n' s' f e).
Proof. intros -> H. by split. Qed.

Lemma insert_line_fresh l d : fresh d -> fresh (insert_line l d).
Proof.
  intros [[Hl Hs Hu] Hreq Hst Hint]. unfold insert_line. set (n := next_line d).
  set (d1 := d <| supplier_statement_lines := <[n := l]> (supplier_statement_lines d) |> <| next_line := n + 1 |>).
  assert (Hn : supplier_statement_lines d !! n = None).
  { destruct (supplier_statement_lines d !! n) eqn:E; [|done]. exfalso. apply (Z.lt_irrefl n). apply Hl. by rewrite E. }
  assert (Hm : forall id, matched_lines d1 id ≡ₚ (if matches d id l then [(n, l)] else []) ++ matched_lines d id).
  { intros id. unfold matched_lines. exact (rows_insert (fun _ l => matches d id l) _ n l Hn). }
  assert (Hrow : forall id r a, same_request r (request_source d id a) ->
    same_request (if matches d id l then add_line l r else r) (request_source d1 id a)).
  { intros id r a [H1 H2]. destruct r as [t c m k i o q s f e]. cbn in H1. injection H1 as -> -> -> -> -> -> -> -> ->. cbn in H2.
    pose proof (Permutation_length (Hm id)) as Hlen. pose proof (Hm id) as Hp. destruct (matches d id l);
      (refine (same_request_intro _ _ _ _ _ _ _ _ _ _ _ _ _ _); [rewrite Hlen|rewrite Hp]); clear - H2; revert H2; generalize (matched_lines d id); intros ls H2.
    - cbn -[Z.of_nat]. lia.
    - cbn. by rewrite H2, Permutation_app_comm.
    - done.
    - done. }
  assert (Hcount : forall id, reconciliation_requests (line_trigger d1 n l) !! id =
    (fun r => if matches d id l then add_line l r else r) <$> reconciliation_requests d !! id).
  { intros id. cbn -[lookup insert]. rewrite lookup_insert_eq. unfold count_line, matches, for_request. cbn.
    destruct (line_request l) as [rid|]; [|by destruct (_ !! id)].
    change (line_status d1 l) with (line_status d l). destruct (String.eqb_spec (line_status d l) "matched") as [->|Hne].
    - rewrite bool_decide_eq_true_2 by done. destruct (String.eqb_spec rid id) as [->|Hr]; cbn.
      + by rewrite lookup_alter_eq.
      + rewrite lookup_alter_ne by done. by destruct (_ !! id).
    - rewrite bool_decide_eq_false_2 by congruence. rewrite andb_false_r. by destruct (_ !! id). }
  split.
  - split; [|exact Hs|exact Hu]. intros k. change (supplier_statement_lines (line_trigger d1 n l)) with (<[n := l]> (supplier_statement_lines d)).
    change (next_line (line_trigger d1 n l)) with (n + 1). destruct (decide (n = k)) as [<-|Hne]; [intros _; lia|].
    rewrite lookup_insert_ne by done. intros Hk%Hl. fold n in Hk. lia.
  - intros id. rewrite Hcount. change (request_audit (line_trigger d1 n l)) with (request_audit d).
    change (request_source (line_trigger d1 n l)) with (request_source d1). specialize (Hreq id).
    destruct (request_audit d !! id) as [a|]; inversion Hreq as [r s Hrs Er Es|]; subst; cbn; constructor. by apply Hrow.
  - change (reconciliation_statements (line_trigger d1 n l)) with (<[n := statement_source d l]> (reconciliation_statements d)).
    change (statement_source (line_trigger d1 n l)) with (statement_source d).
    change (supplier_statement_lines (line_trigger d1 n l)) with (<[n := l]> (supplier_statement_lines d)).
    by rewrite Hst, fmap_insert.
  - exact Hint.
Qed.

(** ** A balance snapshot *)

(** A snapshot of the currency that was observed before. *)
Definition earlier (b p : BalanceSnapshot) : Prop := SnapshotCurrency p = SnapshotCurrency b /\ ObservedAtMS p < ObservedAtMS b.
Definition is_previous (d : database) (b : BalanceSnapshot) (o : option BalanceSnapshot) : Prop :=
  match o with
  | Some p => (exists n, balance_snapshots d !! n = Some p /\ earlier b p) /\
      forall n q, balance_snapshots d !! n = Some q -> earlier b q -> ObservedAtMS q <= ObservedAtMS p
  | None => forall n q, balance_snapshots d !! n = Some q -> ~ earlier b q
  end.

Lemma latest_spec l best : match foldl latest best l with
  | Some p => (best = Some p \/ exists n, (n, p) ∈ l) /\ (forall n q, (n, q) ∈ l -> ObservedAtMS q <= ObservedAtMS p) /\
      (forall q, best = Some q -> ObservedAtMS q <= ObservedAtMS p)
  | None => l = [] /\ best = None
  end.
Proof.
  revert best. induction l as [|[n b] l IH]; intros best; cbn [foldl].
  { destruct best as [p|]; [|done]. split_and!; [by left|by intros ? ? ?%not_elem_of_nil|by intros ? [= ->]]. }
  specialize (IH (latest best (n, b))). destruct (foldl latest _ l) as [p|].
  - destruct IH as (Hp & Hl & Hb). unfold latest in *. cbn [snd] in *. split_and!.
    + destruct Hp as [Hp|[k Hk]]; [|right; exists k; by constructor]. destruct best as [q|]; [destruct (_ <? _)|]; [| by left|].
      all: injection Hp as <-; right; exists n; by constructor.
    + intros k q [[= -> ->]|Hk]%elem_of_cons; [|by eapply Hl]. destruct best as [q0|]; [|by apply Hb].
      destruct (Z.ltb_spec (ObservedAtMS q0) (ObservedAtMS b)); [by apply Hb|]. etrans; [done|by apply Hb].
    + intros q ->. destruct (Z.ltb_spec (ObservedAtMS q) (ObservedAtMS b)); [|by apply Hb]. etrans; [|by apply Hb]. lia.
  - destruct IH as [_ IH]. unfold latest in IH. destruct best; [by destruct (_ <? _)|done].
Qed.

Lemma previous_spec d b : is_previous d b (previous d b).
Proof.
  set (c := fun (_ : Z) p => String.eqb (SnapshotCurrency p) (SnapshotCurrency b) && (ObservedAtMS p <? ObservedAtMS b)).
  assert (Hc : forall n p, (n, p) ∈ rows c (balance_snapshots d) <-> balance_snapshots d !! n = Some p /\ earlier b p).
  { intros n p. rewrite in_rows. unfold c, earlier. by rewrite andb_true_iff, String.eqb_eq, Z.ltb_lt. }
  unfold previous, is_previous. fold c. pose proof (latest_spec (rows c (balance_snapshots d)) None) as Hs. destruct (foldl latest _ _) as [p|].
  - destruct Hs as ([?|[n Hn]] & Hl & _); [done|]. split; [exists n; by apply Hc|]. intros k q H1 H2. apply (Hl k). by apply Hc.
  - destruct Hs as [Hs _]. intros n q H1 H2. assert (Hq : (n, q) ∈ rows c (balance_snapshots d)) by by apply Hc. rewrite Hs in Hq. by apply not_elem_of_nil in Hq.
Qed.

Lemma previous_unique d b o : unique_observations d -> is_previous d b o -> previous d b = o.
Proof.
  intros Hu Ho. pose proof (previous_spec d b) as Hp. destruct (previous d b) as [p|], o as [q|]; [|exfalso|exfalso|done].
  - destruct Hp as [(n & Hn & Hnb) Hp], Ho as [(k & Hk & Hkb) Ho]. specialize (Hp k q Hk Hkb). specialize (Ho n p Hn Hnb).
    assert (E : n = k) by (apply (Hu n k p q); [done|done|by rewrite (proj1 Hnb), (proj1 Hkb)|lia]). subst. congruence.
  - destruct Hp as [(n & Hn & Hnb) _]. by apply (Ho n p).
  - destruct Ho as [(n & Hn & Hnb) _]. by apply (Hp n q).
Qed.

Lemma earliest_snapshot_spec l best : match foldl earliest best l with
  | Some m => (best = Some m \/ m ∈ l) /\ (forall x, x ∈ l -> ObservedAtMS m.2 <= ObservedAtMS x.2) /\
      (forall x, best = Some x -> ObservedAtMS m.2 <= ObservedAtMS x.2)
  | None => l = [] /\ best = None
  end.
Proof.
  revert best. induction l as [|x l IH]; intros best; cbn [foldl].
  { destruct best as [m|]; [|done]. split_and!; [by left|by intros ? ?%not_elem_of_nil|by intros ? [= ->]]. }
  specialize (IH (earliest best x)). destruct (foldl earliest _ l) as [m|].
  - destruct IH as (Hm & Hl & Hb). unfold earliest in *. split_and!.
    + destruct Hm as [Hm|Hm]; [|right; by constructor]. destruct best as [q|]; [destruct (_ <? _)|]; [| by left|].
      all: injection Hm as <-; right; by constructor.
    + intros y [->|Hy]%elem_of_cons; [|by apply Hl]. destruct best as [q|]; [|by apply Hb].
      destruct (Z.ltb_spec (ObservedAtMS x.2) (ObservedAtMS q.2)); [by apply Hb|]. etrans; [by apply Hb|done].
    + intros q ->. destruct (Z.ltb_spec (ObservedAtMS x.2) (ObservedAtMS q.2)); [|by apply Hb]. etrans; [by apply Hb|]. lia.
  - destruct IH as [_ IH]. unfold earliest in IH. destruct best; [by destruct (_ <? _)|done].
Qed.

Lemma next_balance_spec d b : match next_balance d b with
  | Some m => balance_snapshots d !! m.1 = Some m.2 /\ earlier m.2 b /\
      forall k c, balance_snapshots d !! k = Some c -> earlier c b -> ObservedAtMS m.2 <= ObservedAtMS c
  | None => forall k c, balance_snapshots d !! k = Some c -> ~ earlier c b
  end.
Proof.
  set (c := fun (_ : Z) p => String.eqb (SnapshotCurrency p) (SnapshotCurrency b) && (ObservedAtMS b <? ObservedAtMS p)).
  assert (Hc : forall n p, (n, p) ∈ rows c (balance_snapshots d) <-> balance_snapshots d !! n = Some p /\ earlier p b).
  { intros n p. rewrite in_rows. unfold c, earlier. rewrite andb_true_iff, String.eqb_eq, Z.ltb_lt. naive_solver. }
  unfold next_balance. fold c. pose proof (earliest_snapshot_spec (rows c (balance_snapshots d)) None) as Hs. destruct (foldl earliest _ _) as [[n m]|].
  - destruct Hs as ([?|Hm] & Hl & _); [done|]. apply Hc in Hm as [Hm1 Hm2]. split_and!; [done..|]. intros k p H1 H2. apply (Hl (k, p)). by apply Hc.
  - destruct Hs as [Hs _]. intros k p H1 H2. assert (Hq : (k, p) ∈ rows c (balance_snapshots d)) by by apply Hc. rewrite Hs in Hq. by apply not_elem_of_nil in Hq.
Qed.

Lemma balance_source_ext d d' b : previous d b = previous d' b -> request_audit d = request_audit d' -> balance_source d b = balance_source d' b.
Proof. intros Hp Ha. unfold balance_source, audited_between. by rewrite Hp, Ha. Qed.

Section snapshot.
Context (d : database) (n : Z) (b : BalanceSnapshot).
Context (Hu : unique_observations d) (Hn : balance_snapshots d !! n = None)
  (Hb : forall k c, balance_snapshots d !! k = Some c -> SnapshotCurrency c = SnapshotCurrency b -> ObservedAtMS c <> ObservedAtMS b).
Let d1 := d <| balance_snapshots := <[n := b]> (balance_snapshots d) |>.

Lemma snapshots_insert k c : balance_snapshots d1 !! k = Some c <-> (k = n /\ c = b) \/ balance_snapshots d !! k = Some c.
Proof.
  change (balance_snapshots d1) with (<[n := b]> (balance_snapshots d)). destruct (decide (n = k)) as [<-|Hne].
  - rewrite lookup_insert_eq, Hn. naive_solver.
  - rewrite lookup_insert_ne by done. naive_solver.
Qed.

Lemma observations_insert : unique_observations d1.
Proof.
  intros k1 k2 c1 c2 [[-> ->]|H1]%snapshots_insert [[-> ->]|H2]%snapshots_insert Hc Ht; [done| | |by apply (Hu k1 k2 c1 c2)].
  - by destruct (Hb k2 c2 H2).
  - by destruct (Hb k1 c1 H1).
Qed.

(** Only the next snapshot of the currency gets another predecessor. *)
Lemma previous_insert k c : balance_snapshots d !! k = Some c -> (forall m, next_balance d1 b = Some m -> m.1 <> k) ->
  previous d1 c = previous d c.
Proof.
  intros Hk Hm. apply previous_unique; [exact observations_insert|]. pose proof (previous_spec d c) as Hp. pose proof (next_balance_spec d1 b) as Hs.
  assert (Hsmall : earlier c b -> exists j q, balance_snapshots d !! j = Some q /\ earlier c q /\ ObservedAtMS b < ObservedAtMS q).
  { intros He. destruct (next_balance d1 b) as [[j q]|]; [|destruct (Hs k c); [by apply snapshots_insert; right|done]].
    specialize (Hm (j, q) eq_refl). cbn in Hm. destruct Hs as (H1 & H2 & H3). cbn [fst snd] in H1, H2, H3. apply snapshots_insert in H1 as [[-> ->]|H1]; [destruct H2; lia|].
    exists j, q. destruct H2 as [H2 H4], He as [He1 He2]. cbn in *. split_and!; [done| |done]. split; [congruence|].
    assert (ObservedAtMS q <= ObservedAtMS c) by (apply (H3 k c); [by apply snapshots_insert; right|done]).
    assert (ObservedAtMS q <> ObservedAtMS c); [|lia]. intros E. apply Hm, (Hu j k q c); [done|done|congruence|done]. }
  destruct (previous d c) as [p|].
  - destruct Hp as [(j & Hj & Hjc) Hp]. split; [exists j; split; [by apply snapshots_insert; right|done]|].
    intros i q [[-> ->]|Hi]%snapshots_insert He; [|by apply (Hp i)]. destruct (Hsmall He) as (j' & q' & H1 & H2 & H3). specialize (Hp _ _ H1 H2). lia.
  - intros i q [[-> ->]|Hi]%snapshots_insert He; [|by apply (Hp i q)]. destruct (Hsmall He) as (j' & q' & H1 & H2 & H3). by apply (Hp j' q').
Qed.
End snapshot.

Lemma insert_snapshot_fresh b d d' : fresh d -> insert_snapshot b d = Some d' -> fresh d'.
Proof.
  intros [[Hl Hs Hu] Hreq Hst Hint]. unfold insert_snapshot. destruct (existsb _ _) eqn:He; [done|]. intros [= <-]. set (n := next_snapshot d).
  set (d1 := d <| balance_snapshots := <[n := b]> (balance_snapshots d) |> <| next_snapshot := n + 1 |>).
  assert (Hn : balance_snapshots d !! n = None).
  { destruct (balance_snapshots d !! n) eqn:E; [|done]. exfalso. apply (Z.lt_irrefl n). apply Hs. by rewrite E. }
  assert (Hb : forall k c, balance_snapshots d !! k = Some c -> SnapshotCurrency c = SnapshotCurrency b -> ObservedAtMS c <> ObservedAtMS b).
  { intros k c Hk Hc Ht. apply not_true_iff_false in He. apply He, existsb_exists. exists (k, c). split; [by apply list_elem_of_In, elem_of_map_to_list|].
    unfold same_observation. cbn. by rewrite Hc, Ht, Z.eqb_refl, String.eqb_refl. }
  pose proof (snapshots_insert d n b Hn Hb) as Hins. pose proof (previous_insert d n b Hu Hn Hb) as Hprev.
  pose proof (next_balance_spec d1 b) as Hnext.
  change (balance_snapshots d1) with (<[n := b]> (balance_snapshots d)) in Hnext.
  change (next_balance (d <| balance_snapshots := <[n := b]> (balance_snapshots d) |>) b) with (next_balance d1 b) in Hprev.
  change (balance_snapshots (d <| balance_snapshots := <[n := b]> (balance_snapshots d) |>)) with (<[n := b]> (balance_snapshots d)) in Hins.
  split.
  - split; [exact Hl| |exact (observations_insert d n b Hu Hn Hb)]. intros k [c Hk]. change (balance_snapshots (balance_trigger d1 n b)) with (<[n := b]> (balance_snapshots d)) in Hk.
    change (next_snapshot (balance_trigger d1 n b)) with (n + 1). apply (proj1 (Hins k c)) in Hk; destruct Hk as [[Ek _]|Hk]; [lia|]. specialize (Hs k). rewrite Hk in Hs.
    assert (k < n) by by apply Hs. lia.
  - exact Hreq.
  - exact Hst.
  - intros k. change (balance_source (balance_trigger d1 n b)) with (balance_source d1).
    change (balance_snapshots (balance_trigger d1 n b)) with (<[n := b]> (balance_snapshots d)).
    set (put := fun m kv => <[kv.1 := balance_source d1 kv.2]> m : gmap Z interval_row).
    change (reconciliation_balance_intervals (balance_trigger d1 n b)) with
      (foldl put (put (reconciliation_balance_intervals d) (n, b)) (option_list (next_balance d1 b))).
    assert (Hrest : forall j, j <> n -> (forall m, next_balance d1 b = Some m -> m.1 <> j) ->
      option_Forall2 same_interval (reconciliation_balance_intervals d !! j) (balance_source d1 <$> <[n := b]> (balance_snapshots d) !! j)).
    { intros j Hj Hm. rewrite lookup_insert_ne by done. specialize (Hint j). destruct (balance_snapshots d !! j) as [c|] eqn:Ec; [|exact Hint]. cbn in *.
      rewrite (balance_source_ext d1 d c); [exact Hint| |done]. exact (Hprev j c Ec Hm). }
    destruct (next_balance d1 b) as [[j m]|]; unfold put, option_list; cbn [option_rect foldl fst snd].
    + destruct Hnext as (H1 & H2 & _). cbn [fst snd] in *. destruct (decide (j = k)) as [<-|Hne].
      * rewrite lookup_insert_eq, H1. constructor. reflexivity.
      * rewrite lookup_insert_ne by done. destruct (decide (n = k)) as [<-|Hnk]; [rewrite !lookup_insert_eq; constructor; reflexivity|].
        rewrite lookup_insert_ne by done. apply Hrest; [done|]. by intros ? [= <-].
    + destruct (decide (n = k)) as [<-|Hnk]; [rewrite !lookup_insert_eq; constructor; reflexivity|].
      rewrite lookup_insert_ne by done. by apply Hrest.
Qed.

(** ** Every sequence of insertions *)

Lemma backfill_fresh d : sources_ok d -> fresh (backfill d).
Proof.
  intros [Hl Hs Hu]. split; [by split| |done|].
  - intros id. change (reconciliation_requests (backfill d)) with (map_imap (fun id a => Some (request_source d id a)) (request_audit d)).
    rewrite map_lookup_imap. change (request_source (backfill d)) with (request_source d). change (request_audit (backfill d)) with (request_audit d).
    destruct (request_audit d !! id); cbn; constructor. reflexivity.
  - intros n. change (reconciliation_balance_intervals (backfill d)) with (balance_source d <$> balance_snapshots d).
    change (balance_source (backfill d)) with (balance_source d). change (balance_snapshots (backfill d)) with (balance_snapshots d).
    rewrite lookup_fmap. destruct (balance_snapshots d !! n); cbn; constructor. reflexivity.
Qed.

(** ** The statistics of a currency *)

Lemma lookup_grouped {R} (currency : R -> string) l c : grouped currency l !! c =
  match List.filter (fun r => String.eqb (currency r) c) l with [] => None | l' => Some l' end.
Proof.
  induction l as [|r l IH]; cbn; [by rewrite lookup_empty|]. fold (grouped currency l). destruct (String.eqb_spec (currency r) c) as [<-|Hne].
  - rewrite lookup_insert_eq, IH. by destruct (List.filter _ l).
  - by rewrite lookup_insert_ne.
Qed.

(** The statistics after one query. *)
Definition after_query {R} (f : list R -> Reconciliation -> Reconciliation) (l : list R) (x : Reconciliation) : Reconciliation :=
  match l with [] => x | _ => f l x end.
Definition of_currency {R} (currency : R -> string) (c : string) (l : list R) : list R := List.filter (fun r => String.eqb (currency r) c) l.

Lemma lookup_each_group {R} (f : list R -> Reconciliation -> Reconciliation) currency l (x : data) c :
  default new_Reconciliation (each_group f (grouped currency l) x !! c) =
  after_query f (of_currency currency c l) (default new_Reconciliation (x !! c)).
Proof.
  unfold each_group, of_currency. rewrite lookup_union, map_lookup_imap, lookup_grouped. destruct (List.filter _ l) as [|r l']; cbn.
  - by destruct (x !! c).
  - by destruct (x !! c).
Qed.

Lemma after_nothing {R} (l : list R) x : after_query (fun _ y => y) l x = x.
Proof. by destruct l. Qed.

Lemma collect_lookup d from until c : exists x6, default new_Reconciliation (collect d from until !! c) =
    after_query balance_totals (of_currency (fun kv => int_currency kv.2) c (intervals_in d from until))
      (after_query matched_totals (of_currency (fun r => req_currency r.1) c (joined d from until)) x6) /\
  x6 = (if (0 <? from) || (0 <? until) then after_query partial_totals (of_currency statement_currency c (partial_statements d from until)) else id)
      (after_query statement_totals (of_currency statement_currency c (statements_in d from until))
        (after_query request_totals (of_currency (fun kv => req_currency kv.2) c (requests_in d from until)) new_Reconciliation)).
Proof.
  eexists. split; [|reflexivity]. unfold collect. rewrite lookup_each_group.
  rewrite after_nothing.
  rewrite !lookup_each_group. do 2 f_equal. destruct ((0 <? from) || (0 <? until)); by rewrite !lookup_each_group.
Qed.

(** What the queries leave in the fields. *)
Lemma after_request_totals l : after_query request_totals l new_Reconciliation = request_totals l new_Reconciliation.
Proof. by destruct l. Qed.

Record totals (x : Reconciliation) (requests : list (string * request_row)) (statements partial : list (Z * matched_row))
    (matched : list (request_row * sum)) : Prop := {
  totals_local : LocalEstimated x = omap (fun kv => req_cost kv.2) requests;
  totals_unknown : UnknownCostRequests x = count (fun kv => bool_decide (req_cost kv.2 = None)) requests;
  totals_missing : MissingStatementRequests x = count (fun kv => req_lines kv.2 =? 0) requests;
  totals_supplier : SupplierStatement x = amounts statements;
  totals_lines : StatementLines x = Z.of_nat (length statements);
  totals_unmatched : UnmatchedLines x = count (fun kv => negb (is_matched kv)) statements;
  totals_partial : PartialStatementLines x = Z.of_nat (length partial);
  totals_matched : matched <> [] -> count (fun r => bool_decide (req_cost r.1 = None)) matched = 0 ->
    MatchedDifference x = Some (concat (snd <$> matched), omap (fun r => req_cost r.1) matched);
}.

Lemma totals_balance x lr ls lp lj l : totals x lr ls lp lj -> totals (after_query balance_totals l x) lr ls lp lj.
Proof. destruct l as [|i l]; [done|]. intros []. cbn [after_query]. unfold balance_totals. destruct (_ =? 0); by split. Qed.

Lemma totals_join x lr ls lp lj : totals x lr ls lp [] -> totals (after_query matched_totals lj x) lr ls lp lj.
Proof.
  destruct lj as [|r l]; [done|]. intros []. cbn [after_query]. unfold matched_totals. destruct (_ =? 0) eqn:E; (split; try done); intros _ E'.
  apply Z.eqb_neq in E. done.
Qed.

Lemma totals_start (bounds : bool) lr ls lp : (bounds = false -> lp = []) ->
  totals ((if bounds then after_query partial_totals lp else id) (after_query statement_totals ls (request_totals lr new_Reconciliation))) lr ls lp [].
Proof. intros Hp. destruct bounds; [|rewrite Hp by done]; destruct ls; destruct lp; by split. Qed.

Lemma collect_totals d from until c x : 0 <= from -> 0 <= until -> (conclude <$> collect d from until) !! c = Some x -> exists y, x = conclude y /\
  totals y (of_currency (fun kv => req_currency kv.2) c (requests_in d from until)) (of_currency statement_currency c (statements_in d from until))
    (of_currency statement_currency c (partial_statements d from until)) (of_currency (fun r => req_currency r.1) c (joined d from until)).
Proof.
  intros Hf Hu. rewrite lookup_fmap. intros (y & Hy & ->)%fmap_Some. exists y. split; [done|].
  destruct (collect_lookup d from until c) as (x6 & Hx & ->). rewrite Hy in Hx. change (default new_Reconciliation (Some y)) with y in Hx. rewrite after_request_totals in Hx. clear Hy. subst y.
  assert (Hp : (0 <? from) || (0 <? until) = false -> of_currency statement_currency c (partial_statements d from until) = []).
  { intros [H1%Z.ltb_ge H2%Z.ltb_ge]%orb_false_iff. replace from with 0 by lia. replace until with 0 by lia.
    unfold partial_statements, rows. generalize (map_to_list (reconciliation_statements d)) as l. by induction l. }
  by apply totals_balance, totals_join, totals_start.
Qed.

(** ** A complete statement *)

Lemma filter_fmap {A B} (f : A -> B) (p : B -> bool) l : List.filter p (f <$> l) = f <$> List.filter (fun x => p (f x)) l.
Proof. induction l as [|x l IH]; [done|]. cbn. rewrite IH. by destruct (p (f x)). Qed.

Lemma filter_filter {A} (p q : A -> bool) l : List.filter p (List.filter q l) = List.filter (fun x => p x && q x) l.
Proof. induction l as [|x l IH]; [done|]. cbn. destruct (q x); cbn; [rewrite andb_true_r, IH; done|by rewrite andb_false_r]. Qed.

Lemma of_currency_rows {K V} `{Countable K} (f : V -> string) c (p : K -> V -> bool) (m : gmap K V) :
  of_currency (fun kv => f kv.2) c (rows p m) = rows (fun k v => String.eqb (f v) c && p k v) m.
Proof. unfold of_currency, rows. by rewrite filter_filter. Qed.

Lemma rows_fmap {K V W} `{Countable K} (f : V -> W) (p : K -> W -> bool) (m : gmap K V) :
  rows p (f <$> m) ≡ₚ prod_map id f <$> rows (fun k v => p k (f v)) m.
Proof. unfold rows. rewrite map_to_list_fmap, filter_fmap. done. Qed.

Lemma count_nothing {A} (p : A -> bool) l : count p l = 0 -> forall x, x ∈ l -> p x = false.
Proof.
  unfold count. intros E x Hx. apply not_true_iff_false. intros Hp. destruct (List.filter p l) as [|y l'] eqn:El; [|cbn in E; lia].
  assert (Hin : In x (List.filter p l)) by (apply filter_In; split; [by apply list_elem_of_In|done]). by rewrite El in Hin.
Qed.

Lemma concat_nils {A B} (f : A -> list B) l : (forall x, x ∈ l -> f x = []) -> concat (f <$> l) = [].
Proof. induction l as [|x l IH]; [done|]. intros Hl. cbn. rewrite Hl by constructor. apply IH. intros y Hy. apply Hl. by constructor. Qed.

(** A list is its parts by the values of a key. *)
Lemma parts_perm {A B} `{EqDecision B} (f : A -> B) (keys : list B) (l : list A) : NoDup keys -> (forall x, x ∈ l -> f x ∈ keys) ->
  concat ((fun k => List.filter (fun x => bool_decide (f x = k)) l) <$> keys) ≡ₚ l.
Proof.
  intros Hk. induction l as [|x l IH]; intros Hl; [by rewrite concat_nils|].
  assert (Hx : f x ∈ keys) by (apply Hl; constructor). specialize (IH (fun y Hy => Hl y (list_elem_of_further _ _ _ Hy))).
  trans (x :: concat ((fun k => List.filter (fun x => bool_decide (f x = k)) l) <$> keys)); [|by constructor].
  clear IH Hl. induction Hk as [|k keys Hnk Hk IH]; [by apply not_elem_of_nil in Hx|]. cbn [fmap list_fmap concat List.filter].
  destruct (decide (f x = k)) as [Hf|Hne].
  - rewrite bool_decide_eq_true_2 by done. cbn [app]. constructor. f_equiv. apply reflexive_eq. f_equal. apply list_fmap_ext. intros i k' Hi.
    rewrite bool_decide_eq_false_2; [done|]. intros <-. apply Hnk. rewrite <-Hf. by eapply list_elem_of_lookup_2.
  - rewrite bool_decide_eq_false_2 by done. rewrite IH by (by apply elem_of_cons in Hx as [?|?]). by rewrite Permutation_middle.
Qed.

Definition requests_of (d : database) (c : string) (from until : Z) : list (string * audit_row) :=
  rows (fun _ a => String.eqb (default "" (audit_currency a)) c && in_period from until (audit_timestamp a)) (request_audit d).
Definition lines_over (d : database) (c : string) (from until : Z) : list (Z * statement_line) :=
  rows (fun _ l => String.eqb (line_currency l) c && period_overlaps from until (line_start l) (line_end l)) (supplier_statement_lines d).

Section complete.
Context (d : database) (Hd : fresh d) (from until : Z) (c : string).
Let requests := of_currency (fun kv => req_currency kv.2) c (requests_in d from until).
Let statements := of_currency statement_currency c (statements_in d from until).
Let partial := of_currency statement_currency c (partial_statements d from until).
Let matched := of_currency (fun r => req_currency r.1) c (joined d from until).

Lemma fresh_request id : match reconciliation_requests d !! id, request_audit d !! id with
  | Some r, Some a => same_request r (request_source d id a)
  | None, None => True
  | _, _ => False
  end.
Proof. pose proof (fresh_requests d Hd id) as H. destruct (reconciliation_requests d !! id), (request_audit d !! id); by inversion H. Qed.

Lemma elem_of_requests id r : (id, r) ∈ requests <-> exists a, reconciliation_requests d !! id = Some r /\ request_audit d !! id = Some a /\
  same_request r (request_source d id a) /\ (id, a) ∈ requests_of d c from until.
Proof.
  unfold requests, requests_in. rewrite (of_currency_rows req_currency), in_rows. pose proof (fresh_request id) as Hf.
  unfold requests_of. setoid_rewrite in_rows. split.
  - intros [Hr Hp]. rewrite Hr in Hf. destruct (request_audit d !! id) as [a|]; [|done]. exists a. split_and!; [done..|].
    destruct Hf as [H1 _], r. cbn in H1. injection H1 as -> -> -> -> -> -> -> -> ->. exact Hp.
  - intros (a & Hr & Ha & Hs & _ & Hp). split; [done|]. destruct Hs as [H1 _], r. cbn in H1. injection H1 as -> -> -> -> -> -> -> -> ->. exact Hp.
Qed.

Lemma requests_costs : omap (fun kv => req_cost kv.2) requests ≡ₚ omap (fun kv => audit_cost kv.2) (requests_of d c from until).
Proof.
  set (key := fun r => (req_currency r, req_timestamp r, req_cost r)).
  set (key' := fun a => (default "" (audit_currency a), audit_timestamp a, audit_cost a)).
  assert (E : key <$> reconciliation_requests d = key' <$> request_audit d).
  { apply map_eq. intros id. rewrite !lookup_fmap. pose proof (fresh_request id) as Hf.
    destruct (reconciliation_requests d !! id) as [r|], (request_audit d !! id) as [a|]; [|done..]. cbn. f_equal.
    destruct Hf as [H1 _], r. cbn in H1. by injection H1 as -> -> -> -> -> -> -> -> ->. }
  set (p := fun (_ : string) (k : string * Z * option spec_float) => String.eqb k.1.1 c && in_period from until k.1.2).
  pose proof (rows_fmap key p (reconciliation_requests d)) as H1. pose proof (rows_fmap key' p (request_audit d)) as H2. rewrite E, H2 in H1.
  unfold requests, requests_in, requests_of. rewrite (of_currency_rows req_currency).
  assert (Hc : forall {A} (f : A -> string * Z * option spec_float) (l : list (string * A)),
    omap (fun kv => (f kv.2).2) l = omap (fun kv => kv.2.2) (prod_map id f <$> l)).
  { intros A f l. induction l as [|[i x] l IH]; [done|]. cbn. destruct (f x).2; cbn; by rewrite <-IH. }
  rewrite (Hc _ key), (Hc _ key').
  match goal with |- omap _ ?x ≡ₚ omap _ ?y => assert (x ≡ₚ y) as -> by (symmetry; exact H1) end. done.
Qed.

Lemma elem_of_statements n m : (n, m) ∈ statements <-> exists l, supplier_statement_lines d !! n = Some l /\ m = statement_source d l /\
  line_currency l = c /\ period_within from until (line_start l) (line_end l) = true.
Proof.
  unfold statements, statements_in. change statement_currency with (fun kv : Z * matched_row => line_currency (match_line kv.2)).
  rewrite (of_currency_rows (fun m => line_currency (match_line m))), in_rows, (fresh_statements d Hd), lookup_fmap.
  rewrite andb_true_iff, String.eqb_eq. split.
  - intros [(l & Hl & ->)%fmap_Some Hp]. by exists l.
  - intros (l & Hl & -> & Hp). by rewrite Hl.
Qed.

(** What the counts of a complete statement say. *)
Context (Hpartial : partial = []) (Hunmatched : count (fun kv => negb (is_matched kv)) statements = 0)
  (Hmissing : count (fun kv => req_lines kv.2 =? 0) requests = 0) (Hbounds : 0 <= from /\ 0 <= until).

Lemma complete_within n l : (n, l) ∈ lines_over d c from until -> period_within from until (line_start l) (line_end l) = true.
Proof.
  unfold lines_over. rewrite in_rows. intros (Hl & [Hc%String.eqb_eq Ho]%andb_true_iff). apply not_false_iff_true. intros Hw.
  assert (Hin : (n, statement_source d l) ∈ partial); [|rewrite Hpartial in Hin; by apply not_elem_of_nil in Hin].
  unfold partial, partial_statements. change statement_currency with (fun kv : Z * matched_row => line_currency (match_line kv.2)).
  rewrite (of_currency_rows (fun m => line_currency (match_line m))), in_rows, (fresh_statements d Hd), lookup_fmap, Hl.
  split; [done|]. cbn [match_line statement_source]. by rewrite Hc, String.eqb_refl, Ho, Hw.
Qed.

Lemma within_overlaps l : line_start l < line_end l -> period_within from until (line_start l) (line_end l) = true ->
  period_overlaps from until (line_start l) (line_end l) = true.
Proof. unfold period_within, period_overlaps. lia. Qed.

Lemma complete_matched n m : (n, m) ∈ statements -> is_matched (n, m) = true.
Proof. intros Hm. apply negb_false_iff. exact (count_nothing _ _ Hunmatched _ Hm). Qed.

(** A matched line of the period has its request in the period. *)
Lemma matched_in_period n l id : supplier_statement_lines d !! n = Some l -> matches d id l = true -> line_currency l = c ->
  period_within from until (line_start l) (line_end l) = true -> exists a, (id, a) ∈ requests_of d c from until.
Proof.
  intros Hl [Hr Hs]%matches_request Hc Hw. apply matched_status in Hs as (id' & a & Hr' & Ha & Hca & Ht). exists a. unfold requests_of. rewrite in_rows.
  assert (id' = id) by congruence. subst id'. split; [done|]. rewrite Hca, Hc, String.eqb_refl. cbn. unfold in_period, period_within in *. lia.
Qed.

(** A request of the period has a matched line in the period. *)
Lemma request_has_line id a : (id, a) ∈ requests_of d c from until -> exists n l, (n, l) ∈ lines_over d c from until /\ matches d id l = true.
Proof.
  intros Ha. pose proof Ha as [Hl Hp]%in_rows. pose proof (fresh_request id) as Hf. destruct (reconciliation_requests d !! id) as [r|] eqn:Er; rewrite Hl in Hf; [|done].
  assert (Hin : (id, r) ∈ requests) by (apply elem_of_requests; by exists a). apply (count_nothing _ _ Hmissing) in Hin. cbn in Hin.
  destruct Hf as [H1 _]. assert (Hn : req_lines r = Z.of_nat (length (matched_lines d id))) by (destruct r; cbn in H1; by injection H1).
  destruct (matched_lines d id) as [|[n l] ls] eqn:El; [rewrite Hn in Hin; done|].
  assert (Hm : (n, l) ∈ matched_lines d id) by (rewrite El; constructor). apply in_rows in Hm as [Hn1 Hm]. exists n, l. split; [|done].
  pose proof (matches_request _ _ _ Hm) as [Hr (id' & a' & Hr' & Ha' & Hc & Ht)%(matched_status)].
  assert (id' = id) by congruence. subst id'. assert (a' = a) by congruence. subst a'.
  apply andb_true_iff in Hp as [Hp1%String.eqb_eq Hp2]. apply in_rows. split; [done|]. rewrite <-Hc, Hp1, String.eqb_refl. cbn.
  unfold in_period, period_overlaps in *. lia.
Qed.

Lemma lines_of_nonempty id r : (id, r) ∈ map_to_list (reconciliation_requests d) -> req_currency r = c ->
  match lines_of d from until id with [] => false | _ => true end = in_period from until (req_timestamp r).
Proof.
  intros Hr%elem_of_map_to_list Hc. pose proof (fresh_request id) as Hf. rewrite Hr in Hf. destruct (request_audit d !! id) as [a|] eqn:Ea; [|done].
  assert (Hra : (id, r) ∈ requests <-> in_period from until (req_timestamp r) = true).
  { unfold requests, requests_in. rewrite (of_currency_rows req_currency), in_rows, Hc, String.eqb_refl. by split; [intros []|]. }
  destruct (lines_of d from until id) as [|[n m] ls] eqn:El; symmetry.
  - apply not_true_iff_false. rewrite <-Hra, elem_of_requests. intros (a' & _ & _ & _ & (n & l & Hn & Hm)%request_has_line).
    assert (Hin : (n, statement_source d l) ∈ lines_of d from until id); [|rewrite El in Hin; by apply not_elem_of_nil in Hin].
    apply list_elem_of_In, filter_In. pose proof (matches_request _ _ _ Hm) as [Hq%for_request_spec Hs]. split; [|cbn; by rewrite Hs, Hq].
    apply list_elem_of_In, in_rows. rewrite (fresh_statements d Hd), lookup_fmap. pose proof Hn as [-> _]%in_rows. split; [done|].
    by apply complete_within in Hn.
  - assert (Hin : (n, m) ∈ lines_of d from until id) by (rewrite El; constructor). apply list_elem_of_In, filter_In in Hin as [Hin [Hm Hq]%andb_true_iff].
    apply list_elem_of_In, in_rows in Hin as [Hn Hw]. rewrite (fresh_statements d Hd), lookup_fmap in Hn. apply fmap_Some in Hn as (l & Hl & ->).
    cbn in Hm, Hq, Hw. assert (Hmatch : matches d id l = true) by (unfold matches; by rewrite Hq, Hm).
    pose proof (matches_request _ _ _ Hmatch) as [Hq' (id' & a' & Hr' & Ha' & Hca & Ht)%matched_status].
    assert (id' = id) by congruence. subst id'. assert (a' = a) by congruence. subst a'. destruct Hf as [H1 _], r. cbn in H1, Hc. injection H1 as -> -> -> -> -> -> -> -> ->.
    cbn. unfold period_within, in_period in *. lia.
Qed.

Lemma join_filter {K R L S} (p q : K * R -> bool) (g : K -> list L) (h : list L -> S) (l : list (K * R)) (cur : R -> bool) :
  (forall kv, kv ∈ l -> cur kv.2 = true -> match g kv.1 with [] => false | _ => true end = q kv) ->
  List.filter (fun r => cur r.1) (omap (fun kv => match g kv.1 with [] => None | ls => Some (kv.2, h ls) end) l) =
  (fun kv => (kv.2, h (g kv.1))) <$> List.filter (fun kv => cur kv.2) (List.filter q l).
Proof.
  induction l as [|kv l IH]; intros Hl; [done|]. specialize (IH (fun x Hx => Hl x (list_elem_of_further _ _ _ Hx))).
  specialize (Hl kv (list_elem_of_here _ _)). cbn [omap list_omap List.filter]. destruct (cur kv.2) eqn:Ec.
  - rewrite <-Hl by done. destruct (g kv.1) eqn:Eg; cbn; rewrite ?Ec; cbn; by rewrite ?IH, ?Eg.
  - destruct (g kv.1) eqn:Eg; destruct (q kv); cbn; rewrite ?Ec; cbn; exact IH.
Qed.

Lemma complete_joined : matched = (fun kv => (kv.2, amounts (lines_of d from until kv.1))) <$> requests.
Proof.
  unfold matched, joined, requests, requests_in, of_currency, rows.
  apply (join_filter (fun _ => true) (fun kv => in_period from until (req_timestamp kv.2)) (lines_of d from until) amounts
    (map_to_list (reconciliation_requests d)) (fun r => String.eqb (req_currency r) c)).
  intros [id r] Hr Hc%String.eqb_eq. by apply lines_of_nonempty.
Qed.

Definition line_key (kv : Z * matched_row) : option string := line_request (match_line kv.2).

Lemma complete_lines id r : (id, r) ∈ requests ->
  lines_of d from until id = List.filter (fun kv => bool_decide (line_key kv = Some id)) statements.
Proof.
  intros (a & _ & Ha & _ & [_ [Hc%String.eqb_eq _]%andb_true_iff]%in_rows)%elem_of_requests. unfold lines_of, statements, of_currency. rewrite filter_filter.
  apply filter_ext_in. intros [n m] Hm. unfold line_key. cbn [snd]. apply eq_true_iff_eq. rewrite !andb_true_iff, bool_decide_eq_true, for_request_spec, String.eqb_eq.
  pose proof Hm as [Hn Hw]%in_rows. rewrite (fresh_statements d Hd), lookup_fmap in Hn. apply fmap_Some in Hn as (l & Hl & ->). split.
  - intros [Hs Hq]. split; [done|]. cbn in Hs, Hq |- *. apply String.eqb_eq, matched_status in Hs as (id' & a' & Hr' & Ha' & Hca & _).
    unfold statement_currency. cbn. congruence.
  - intros [Hq Hcur]. split; [|done]. apply (complete_matched n), elem_of_statements. by exists l.
Qed.

Lemma complete_matched_amounts : concat (snd <$> matched) ≡ₚ amounts statements.
Proof.
  rewrite complete_joined. rewrite <-list_fmap_compose.
  assert (E : concat (compose snd (fun kv => (kv.2, amounts (lines_of d from until kv.1))) <$> requests) =
    amounts (concat ((fun k => List.filter (fun kv => bool_decide (line_key kv = k)) statements) <$> ((fun kv => Some kv.1) <$> requests)))).
  { unfold amounts. rewrite <-list_fmap_compose. rewrite concat_map. f_equal. change (map ?f ?l) with (f <$> l). rewrite <-list_fmap_compose.
    apply list_fmap_ext. intros i [id r] Hi%list_elem_of_lookup_2. cbn. by rewrite <-(complete_lines id r Hi). }
  rewrite E. unfold amounts. f_equiv. apply parts_perm.
  - change ((fun kv : string * request_row => Some kv.1) <$> requests) with ((Some ∘ fst) <$> requests). rewrite list_fmap_compose. apply NoDup_fmap_2; [apply _|]. unfold requests, requests_in. rewrite (of_currency_rows req_currency). apply rows_NoDup.
  - intros [n m] Hm. pose proof (complete_matched n m Hm) as Hs. apply elem_of_statements in Hm as (l & Hl & -> & Hc & Hw).
    apply String.eqb_eq in Hs. cbn in Hs. pose proof (matched_status _ _ Hs) as (id & a & Hq & Ha & _).
    assert (Hmatch : matches d id l = true) by (unfold matches; rewrite Hs; apply for_request_spec in Hq; by rewrite Hq).
    destruct (matched_in_period n l id Hl Hmatch Hc Hw) as [a' Ha']. pose proof (fresh_request id) as Hf. rewrite Ha in Hf.
    destruct (reconciliation_requests d !! id) as [r|] eqn:Er; [|done]. unfold line_key. cbn. rewrite Hq. apply list_elem_of_fmap. exists (id, r).
    split; [done|]. apply elem_of_requests. exists a. split_and!; [done..|]. pose proof Ha' as [Ha'' _]%in_rows. by replace a with a' by congruence.
Qed.
Lemma complete_match n l : supplier_statement_lines d !! n = Some l -> line_currency l = c ->
  period_within from until (line_start l) (line_end l) = true -> exists id a, matches d id l = true /\ line_start l <= audit_timestamp a < line_end l.
Proof.
  intros Hl Hc Hw. assert (Hin : (n, statement_source d l) ∈ statements) by (apply elem_of_statements; by exists l).
  apply complete_matched, String.eqb_eq in Hin. cbn in Hin. pose proof (matched_status _ _ Hin) as (id & a & Hq & _ & _ & Ht).
  exists id, a. unfold matches. rewrite Hin. apply for_request_spec in Hq. by rewrite Hq.
Qed.

Lemma complete_line n l : (n, l) ∈ lines_over d c from until -> period_within from until (line_start l) (line_end l) = true /\
  exists id a, (id, a) ∈ requests_of d c from until /\ matches d id l = true.
Proof.
  intros Hl. pose proof (complete_within n l Hl) as Hw. split; [done|]. apply in_rows in Hl as [Hl [Hc%String.eqb_eq _]%andb_true_iff].
  destruct (complete_match n l Hl Hc Hw) as (id & a & Hm & _). destruct (matched_in_period n l id) as [a' Ha']; [done..|]. by exists id, a'.
Qed.

Lemma complete_known id a : count (fun kv => bool_decide (req_cost kv.2 = None)) requests = 0 -> (id, a) ∈ requests_of d c from until -> is_Some (audit_cost a).
Proof.
  intros Hu Ha. pose proof (fresh_request id) as Hf. pose proof Ha as [Hl _]%in_rows. rewrite Hl in Hf.
  destruct (reconciliation_requests d !! id) as [r|] eqn:Er; [|done]. assert (Hin : (id, r) ∈ requests) by (apply elem_of_requests; by exists a).
  apply (count_nothing _ _ Hu), bool_decide_eq_false in Hin. destruct Hf as [Hf _], r. cbn in Hf, Hin. injection Hf as -> -> -> -> -> -> -> -> ->.
  by apply not_eq_None_Some.
Qed.

(** Of the currency, the lines inside the period are the ones that touch it. *)
Lemma complete_charges : amounts statements ≡ₚ (fun kv => line_amount kv.2) <$> lines_over d c from until.
Proof.
  unfold amounts, statements, statements_in. change statement_currency with (fun kv : Z * matched_row => line_currency (match_line kv.2)).
  rewrite (of_currency_rows (fun m => line_currency (match_line m))), (fresh_statements d Hd), rows_fmap, <-list_fmap_compose.
  unfold lines_over. rewrite (rows_ext _ (fun _ l => String.eqb (line_currency l) c && period_overlaps from until (line_start l) (line_end l))); [done|].
  intros n l Hl. cbn [match_line statement_source]. destruct (String.eqb_spec (line_currency l) c) as [Hc|]; [|done]. apply eq_true_iff_eq. split; intros Hw.
  - destruct (complete_match n l Hl Hc Hw) as (_ & a & _ & Ht). apply within_overlaps; [lia|done].
  - eapply complete_within. apply in_rows. split; [done|]. by rewrite Hc, String.eqb_refl.
Qed.
End complete.


Lemma conclude_cases y : conclude y =
  if (0 <? StatementLines y) && (PartialStatementLines y =? 0) && (UnmatchedLines y =? 0) && (MissingStatementRequests y =? 0) && (UnknownCostRequests y =? 0)
  then y <| Coverage := "complete" |> <| Difference := Some (SupplierStatement y, LocalEstimated y) |>
  else y <| Coverage := if (StatementLines y =? 0) && (PartialStatementLines y =? 0) then "no_statement" else "partial" |>.
Proof.
  destruct y as [cov loc sup diff lines part mat unm miss unk mloc mdiff tc tm bn un]. unfold conclude. cbn -[Z.eqb Z.ltb andb].
  destruct ((lines =? 0) && (part =? 0)); cbn -[Z.eqb Z.ltb andb]; by destruct (_ && _).
Qed.

Lemma conclude_fields y : LocalEstimated (conclude y) = LocalEstimated y /\ SupplierStatement (conclude y) = SupplierStatement y /\
  MatchedDifference (conclude y) = MatchedDifference y.
Proof. rewrite conclude_cases. by destruct ((0 <? _) && _ && _ && _ && _). Qed.

Lemma conclude_complete y : Coverage (conclude y) = "complete" -> 0 < StatementLines y /\ PartialStatementLines y = 0 /\ UnmatchedLines y = 0 /\
  MissingStatementRequests y = 0 /\ UnknownCostRequests y = 0 /\ Difference (conclude y) = Some (SupplierStatement y, LocalEstimated y).
Proof.
  rewrite conclude_cases. destruct ((0 <? _) && _ && _ && _ && _) eqn:E.
  - intros _. split_and!; [lia..|done].
  - cbn -[Z.eqb andb]. by destruct ((StatementLines y =? 0) && _).
Qed.

Lemma joined_costs (f : string -> sum) (l : list (string * request_row)) :
  omap (fun r : request_row * sum => req_cost r.1) ((fun kv => (kv.2, f kv.1)) <$> l) = omap (fun kv => req_cost kv.2) l.
Proof. induction l as [|[id r] l IH]; [done|]. cbn. destruct (req_cost r); by rewrite <-IH. Qed.

(** C8. When the statistics of a currency say [complete], the supplier's
    statement and the local estimates are comparable: every audited request of
    the period has a known cost and a matched line of the statement, every line
    that touches the period lies in it and is matched to one of these requests,
    the sums are those of exactly these lines and requests, and comparing
    request by request gives the same difference. *)
Theorem complete_statement d from until stats c x : fresh d -> ReconciliationStats d from until = Some stats -> stats !! c = Some x ->
  Coverage x = "complete" ->
  (forall id a, (id, a) ∈ requests_of d c from until ->
     is_Some (audit_cost a) /\ exists n l, (n, l) ∈ lines_over d c from until /\ matches d id l = true) /\
  (forall n l, (n, l) ∈ lines_over d c from until -> period_within from until (line_start l) (line_end l) = true /\
     exists id a, (id, a) ∈ requests_of d c from until /\ matches d id l = true) /\
  LocalEstimated x ≡ₚ omap (fun kv => audit_cost kv.2) (requests_of d c from until) /\
  SupplierStatement x ≡ₚ (fun kv => line_amount kv.2) <$> lines_over d c from until /\
  Difference x = Some (SupplierStatement x, LocalEstimated x) /\
  exists supplier local, MatchedDifference x = Some (supplier, local) /\ supplier ≡ₚ SupplierStatement x /\ local ≡ₚ LocalEstimated x.
Proof.
  intros Hd. unfold ReconciliationStats. destruct (validatePeriod from until) eqn:Hv; [|done]. intros [= <-] Hx Hcov.
  assert (Hbounds : 0 <= from /\ 0 <= until) by (unfold validatePeriod in Hv; lia).
  destruct (collect_totals d from until c x (proj1 Hbounds) (proj2 Hbounds) Hx) as (y & -> & []).
  destruct (conclude_complete y Hcov) as (H1 & H2 & H3 & H4 & H5 & ->). destruct (conclude_fields y) as (-> & -> & ->). clear Hv Hx Hcov.
  rewrite H2 in totals_partial0. rewrite H3 in totals_unmatched0. rewrite H4 in totals_missing0. rewrite H5 in totals_unknown0.
  rewrite totals_lines0 in H1. symmetry in totals_partial0. apply (Nat2Z.inj _ 0), length_zero_iff_nil in totals_partial0.
  symmetry in totals_unmatched0, totals_missing0, totals_unknown0.
  split_and!.
  - intros id a Ha. split; [by eapply complete_known|by eapply request_has_line].
  - by apply complete_line.
  - rewrite totals_local0. by apply requests_costs.
  - rewrite totals_supplier0. by apply complete_charges.
  - done.
  - pose proof (complete_joined d Hd from until c totals_partial0 totals_missing0) as Hj.
    pose proof (complete_matched_amounts d Hd from until c totals_partial0 totals_unmatched0 totals_missing0) as Ha.
    eexists _, _. split; [apply totals_matched0|split; [by rewrite totals_supplier0|]].
    + intros E. rewrite E in Ha. apply Permutation_length in Ha. unfold amounts in Ha. rewrite length_fmap in Ha. cbn in Ha. lia.
    + rewrite Hj. unfold count. rewrite filter_fmap, length_fmap. exact totals_unknown0.
    + rewrite Hj, totals_local0. apply reflexive_eq. exact (joined_costs (fun id => amounts (lines_of d from until id)) _).
Qed.
