(* ===== verification/Statements.v ===== *)
(** * Supplier statements: internal/ledger/reconcile.go, billing_export.go and
    internal/gateway/reconciliation.go

    The import of a supplier's CSV statement, once per content; the export of
    the reconciled rows; the scans of the statement directory.  [encoding/csv]
    is modelled as far as the defaults of its reader and writer go;
    [strconv.ParseFloat], [time.Parse] of RFC 3339 and SHA-256 are arguments.
    What the file system, the database and the clock do is an argument too. *)

From S2P Require Import Prelude GoStrings GoFloat Reconciliation.
From Stdlib Require Import SpecFloat.

(** ** [encoding/csv] *)

Module CSV.
Definition NL : byte := 10.
Definition CR : byte := 13.
Definition quote : byte := 34.
Definition comma : byte := 44.

(** [Reader]: the lines of the input with their ends, as [readLine] returns
    them: CR LF is LF and a CR before the end of the input is dropped. *)
Definition normal_line (line : list byte) : list byte :=
  match rev line with
  | c :: b :: l => if c =? NL then (if b =? CR then rev l ++ [NL] else line) else if c =? CR then rev (b :: l) else line
  | [c] => if c =? CR then [] else line
  | [] => []
  end.
Fixpoint raw_lines (p : list byte) : list (list byte) :=
  match p with
  | [] => []
  | c :: p =>
      if c =? NL then [c] :: raw_lines p
      else match raw_lines p with [] => [[c]] | l :: ls => (c :: l) :: ls end
  end.
Definition lines (p : list byte) : list (list byte) := normal_line <$> raw_lines p.

Inductive csv_error := ErrBareQuote | ErrQuote | ErrFieldCount.

(** Where a line is read: at the start of a field, inside one that is not
    quoted, inside quotes. *)
Inductive mode := Start | Plain | Quoted.
Inductive scanned :=
  | Fields (fields : list (list byte))
  | More (field : list byte) (fields : list (list byte))
  | Bad (e : csv_error).

Definition line_end (l : list byte) : bool := match l with [] => true | [c] => c =? NL | _ => false end.

(** One line; [buf] is what is read of the current field, [fs] the fields
    before.  [More]: the line ends inside quotes. *)
Fixpoint scan (m : mode) (buf : list byte) (fs : list (list byte)) (line : list byte) : scanned :=
  match line with
  | [] => match m with Quoted => More buf fs | _ => Fields (fs ++ [buf]) end
  | c :: l =>
      match m with
      | Quoted =>
          if c =? quote then
            match l with
            | [] => Fields (fs ++ [buf])
            | q :: l' =>
                if q =? quote then scan Quoted (buf ++ [quote]) fs l'
                else if q =? comma then scan Start [] (fs ++ [buf]) l'
                else if line_end l then Fields (fs ++ [buf])
                else Bad ErrQuote
            end
          else scan Quoted (buf ++ [c]) fs l
      | _ =>
          if c =? quote then (match m with Start => scan Quoted buf fs l | _ => Bad ErrBareQuote end)
          else if c =? comma then scan Start [] (fs ++ [buf]) l
          else if line_end line then Fields (fs ++ [buf])
          else scan Plain (buf ++ [c]) fs l
      end
  end.

(** A record from a line on; a quoted field goes on in the next line. *)
Fixpoint record (m : mode) (buf : list byte) (fs : list (list byte)) (line : list byte) (rest : list (list byte)) :
    (list (list byte) + csv_error) * list (list byte) :=
  match scan m buf fs line with
  | Fields fs => (inl fs, rest)
  | Bad e => (inr e, rest)
  | More buf fs => match rest with [] => (inr ErrQuote, []) | line :: rest => record Quoted buf fs line rest end
  end.

Fixpoint skip_empty (ls : list (list byte)) : list (list byte) :=
  match ls with l :: rest => if line_end l then skip_empty rest else ls | [] => [] end.

(** [Reader.Read]; [None] at the end of the input.  The first record sets the
    number of fields. *)
Record Reader := { input : list (list byte); FieldsPerRecord : nat }.
Definition NewReader (p : list byte) : Reader := {| input := lines p; FieldsPerRecord := 0 |}.
Definition Read (r : Reader) : option ((list string + csv_error) * Reader) :=
  match skip_empty (input r) with
  | [] => None
  | line :: rest =>
      Some match record Start [] [] line rest with
      | (inl fs, rest) =>
          let n := FieldsPerRecord r in
          let result := if (0 <? n)%nat && negb (n =? length fs)%nat then inr ErrFieldCount else inl (string_of_bytes <$> fs) in
          (result, {| input := rest; FieldsPerRecord := if (n =? 0)%nat then length fs else n |})
      | (inr e, rest) => (inr e, {| input := rest; FieldsPerRecord := FieldsPerRecord r |})
      end
  end.

(** [Writer.Write]. *)
Definition needs_quotes (field : list byte) : bool :=
  match field with
  | [] => false
  | _ => bool_decide (field = [92; 46]) || existsb (fun c => (c =? NL) || (c =? CR) || (c =? quote) || (c =? comma)) field ||
      Unicode.IsSpace (fst (Utf8.DecodeRune field))
  end.
Definition escape (c : byte) : list byte := if c =? quote then [quote; quote] else [c].
Definition write_field (field : list byte) : list byte :=
  if needs_quotes field then quote :: concat (escape <$> field) ++ [quote] else field.
Fixpoint write_fields (fs : list (list byte)) : list byte :=
  match fs with
  | [] => []
  | [f] => write_field f
  | f :: fs => write_field f ++ comma :: write_fields fs
  end.
Definition Write (row : list string) : list byte := write_fields (bytes_of_string <$> row) ++ [NL].
End CSV.

(** ** The import *)

Definition MaxStatementBytes : Z := 32 * 1024 * 1024.
Definition MaxStatementRows : Z := 100000.

(** [strconv.ParseInt(v, 10, 64)]. *)
Definition ParseInt (s : string) : option Z :=
  match s with
  | String c t => if byte_of_ascii c =? 43 then Strconv.ParseDigits t else Decimal.ParseInt s
  | EmptyString => None
  end.

Inductive import_error :=
  | ErrImportTime | ErrRead | ErrTooLarge | ErrDatabase | ErrChanged | ErrHeader | ErrDuplicateColumn (name : string)
  | ErrMissingColumn (name : string) | ErrRow (n : Z) (e : CSV.csv_error) | ErrTooManyRows | ErrInvalidRow (n : Z) | ErrNoRows.

(** The columns of a header by their names. *)
Fixpoint columns (header : list string) (i : nat) (head : gmap string nat) : gmap string nat + import_error :=
  match header with
  | [] => inl head
  | h :: rest =>
      let h := Strings.TrimSpace h in
      if decide (is_Some (head !! h)) then inr (ErrDuplicateColumn h) else columns rest (S i) (<[h := i]> head)
  end.
Definition required : list string := ["period_start"; "period_end"; "currency"; "amount"].
Definition missing (head : gmap string nat) : option string :=
  List.find (fun name => bool_decide (head !! name = None)) required.

Definition field (head : gmap string nat) (row : list string) (name : string) : string :=
  match head !! name with Some i => Strings.TrimSpace (default "" (row !! i)) | None => "" end.

Definition nullIfEmpty (v : string) : option string := if String.eqb v "" then None else Some v.

Section import.
(** [time.Parse(time.RFC3339, v)] in Unix milliseconds, [strconv.ParseFloat]
    and [hex.EncodeToString(sha256.Sum256(data))]. *)
Context (Parse3339 : string -> option Z) (ParseFloat : string -> option spec_float) (digest : list byte -> string).

Definition parseStatementTime (v : string) : option Z :=
  match ParseInt v with
  | Some n => if 0 <=? n then Some n else Parse3339 v
  | None => Parse3339 v
  end.

(** A row as the line it stands for. *)
Definition statement_row (head : gmap string nat) (row : list string) (importedAtMS : Z) : option statement_line :=
  let field := field head row in
  match parseStatementTime (field "period_start"), parseStatementTime (field "period_end"), ParseFloat (field "amount") with
  | Some start, Some stop, Some amount =>
      if (start <? 0) || (stop <=? start) || String.eqb (field "currency") "" || negb (validAmount amount) then None
      else Some {| line_start := start; line_end := stop; line_currency := field "currency"; line_amount := amount;
        line_request := nullIfEmpty (field "request_id"); line_model := field "model"; line_imported := importedAtMS |}
  | _, _, _ => None
  end.

(** The loop over the rows, inside the transaction.  Every [Read] takes a line
    at least, [fuel] is their number. *)
Fixpoint import_rows (fuel : nat) (head : gmap string nat) (importedAtMS : Z) (r : CSV.Reader) (n : Z) (d : database) : (Z * database) + import_error :=
  match CSV.Read r with
  | None => inl (n, d)
  | Some (inr e, _) => inr (ErrRow (n + 2) e)
  | Some (inl row, r) =>
      let n := n + 1 in
      if MaxStatementRows <? n then inr ErrTooManyRows
      else match statement_row head row importedAtMS with
      | None => inr (ErrInvalidRow (n + 1))
      | Some l =>
          let d := insert_line l d in
          match fuel with O => inl (n, d) | S fuel => import_rows fuel head importedAtMS r n d end
      end
  end.

(** The statement as the lines it adds to the database. *)
Definition import_csv (data : list byte) (importedAtMS : Z) (d : database) : (Z * database) + import_error :=
  match CSV.Read (CSV.NewReader data) with
  | None | Some (inr _, _) => inr ErrHeader
  | Some (inl header, r) =>
      match columns header 0 ∅ with
      | inr e => inr e
      | inl head =>
          match missing head with
          | Some name => inr (ErrMissingColumn name)
          | None =>
              match import_rows (length (CSV.lines data)) head importedAtMS r 0 d with
              | inl (n, d) => if n =? 0 then inr ErrNoRows else inl (n, d)
              | inr e => inr e
              end
          end
      end
  end.

(** [ImportStatementFile] of a file that reads as [data].  [db_ok]: the
    context, the statements and the commit of the transaction hold. *)
Definition remember (source fingerprint : string) (l : Ledger) : Ledger :=
  if String.eqb source "" then l else l <| statement_import_sources := <[source := fingerprint]> (statement_import_sources l) |>.
Definition ImportStatementFile (source : string) (data : option (list byte)) (importedAtMS : Z) (db_ok : bool) (l : Ledger) :
    Ledger * (Z + import_error) :=
  if importedAtMS <=? 0 then (l, inr ErrImportTime)
  else match data with
  | None => (l, inr ErrRead)
  | Some data =>
      if MaxStatementBytes <? Z.of_nat (length data) then (l, inr ErrTooLarge)
      else if negb db_ok then (l, inr ErrDatabase)
      else
        let fingerprint := digest data in
        let known := if String.eqb source "" then None else statement_import_sources l !! source in
        if match known with Some previous => negb (String.eqb previous fingerprint) | None => false end then (l, inr ErrChanged)
        else match statement_imports l !! fingerprint with
        | Some _ => (match known with Some _ => l | None => remember source fingerprint l end, inl 0)
        | None =>
            match import_csv data importedAtMS (db l) with
            | inr e => (l, inr e)
            | inl (n, d) =>
                match known with
                | Some _ => (l, inr ErrDatabase)                (* the key of [statement_import_sources] *)
                | None =>
                    (remember source fingerprint
                       (l <| db := d |> <| statement_imports := <[fingerprint := {| imported_at := importedAtMS; row_count := n |}]> (statement_imports l) |>),
                     inl n)
                end
            end
        end
  end.

(** ** The scans of the directory *)

Definition RecordStatementSync (attemptedAtMS files lines failures : Z) (write_ok : bool) (l : Ledger) : Ledger * bool :=
  if (attemptedAtMS <=? 0) || (files <? 0) || (lines <? 0) || (failures <? 0) || negb write_ok then (l, false)
  else
    let before := match statement_sync l with Some s => LastSuccessMS s | None => None end in
    (l <| statement_sync := Some {| LastAttemptMS := attemptedAtMS; LastSuccessMS := if failures =? 0 then Some attemptedAtMS else before;
       FilesImported := files; LinesImported := lines; Failures := failures |} |>, true).

(** [strings.EqualFold] with [.csv]: the long s folds too. *)
Definition fold_rune (c : Z) : Z := if Utf8.between 65 90 c then c + 32 else if c =? 383 then 115 else if c =? 8490 then 107 else c.
Fixpoint last_dot (s best : string) : string :=
  match s with
  | EmptyString => best
  | String c t => last_dot t (if byte_of_ascii c =? 46 then s else best)
  end.
Definition is_csv (name : string) : bool :=
  bool_decide (fold_rune <$> Strings.runes (last_dot name "") = Strings.runes ".csv") && negb (Strings.HasPrefix name ".").

(** What the scan finds of one entry: the size of a regular file, its absolute
    path, whether it opens as the same file, its contents and whether it closes. *)
Record entry := {
  entry_name : string;
  entry_info : option Z;
  entry_path : option string;
  entry_opens : bool;
  entry_data : option (list byte);
  entry_db_ok : bool;
  entry_closes : bool;
}.

Record scan_counts := { files : Z; lines : Z; failures : Z }.
Definition fail (s : scan_counts) : scan_counts := {| files := files s; lines := lines s; failures := failures s + 1 |}.

Definition scan_entry (attemptedAt : Z) (e : entry) (x : Ledger * scan_counts) : Ledger * scan_counts :=
  let (l, s) := x in
  if negb (is_csv (entry_name e)) then (l, s)
  else match entry_info e with
  | None => (l, fail s)
  | Some size =>
      if MaxStatementBytes <? size then (l, fail s)
      else match entry_path e with
      | None => (l, fail s)
      | Some path =>
          if negb (entry_opens e) then (l, fail s)
          else match ImportStatementFile path (entry_data e) attemptedAt (entry_db_ok e) l with
          | (l, inr _) => (l, fail s)
          | (l, inl n) =>
              if negb (entry_closes e) then (l, fail s)
              else (l, if 0 <? n then {| files := files s + 1; lines := lines s + n; failures := failures s |} else s)
          end
      end
  end.

(** One scan.  [opened]: the directory is there and opens; [entries] are what
    it lists until the scan is canceled or the listing ends, with an error when
    [listed] does not hold. *)
Definition scan_directory (attemptedAt : Z) (opened : bool) (entries : list entry) (listed : bool) (l : Ledger) : Ledger * scan_counts :=
  let s := {| files := 0; lines := 0; failures := 0 |} in
  if negb opened then (l, fail s)
  else let (l, s) := foldl (fun x e => scan_entry attemptedAt e x) (l, s) entries in (l, if listed then s else fail s).

(** [statementSyncReporter]: the warning, or nothing. *)
Record statementSyncSummary := { summary_files : Z; summary_lines : Z; summary_failures : Z; statusWriteFailed : bool }.
Record statementSyncReporter := { lastFailureAt : option Z; suppressed : Z }.
Definition minute : Z := 60 * 1000000000.
Definition report (now : Z) (summary : statementSyncSummary) (canceled : bool) (r : statementSyncReporter) :
    statementSyncReporter * option (statementSyncSummary * Z) :=
  if (summary_failures summary =? 0) || canceled then (r, None)
  else if match lastFailureAt r with Some t => now - t <? minute | None => false end
  then ({| lastFailureAt := lastFailureAt r; suppressed := suppressed r + 1 |}, None)
  else ({| lastFailureAt := Some now; suppressed := 0 |}, Some (summary, suppressed r)).

Definition syncStatements (attemptedAt now : Z) (opened : bool) (entries : list entry) (listed canceled write_ok : bool)
    (x : Ledger * statementSyncReporter) : (Ledger * statementSyncReporter) * option (statementSyncSummary * Z) :=
  let (l, r) := x in
  let (l, s) := scan_directory attemptedAt opened entries listed l in
  let s := if canceled then fail s else s in
  let (l, recorded) := RecordStatementSync attemptedAt (files s) (lines s) (failures s) write_ok l in
  let summary := {| summary_files := files s; summary_lines := lines s;
    summary_failures := failures s + (if recorded then 0 else 1); statusWriteFailed := negb recorded |} in
  let (r, warning) := report now summary canceled r in
  ((l, r), warning).
End import.

(** ** The export *)

(** [strconv.FormatFloat(x, 'g', -1, 64)] of an amount. *)
Definition two_digits (n : Z) : list byte := (if n <? 10 then [48] else []) ++ Decimal.digits n.
Definition exponential (ds : list byte) (k : Z) : list byte :=
  match ds with
  | [] => []
  | d :: rest =>
      [d] ++ (match rest with [] => [] | _ => 46 :: rest end) ++ [101] ++ (if k <? 0 then 45 :: two_digits (- k) else 43 :: two_digits k)
  end.
Definition FormatFloat (x : spec_float) : string :=
  match x with
  | S754_finite neg m e =>
      let (ds, k) := FloatText.shortest_digits m e in
      string_of_bytes ((if neg then [45] else []) ++ (if (k <? -4) || (6 <=? k) then exponential ds k else FloatText.plain ds k))
  | S754_zero neg => if neg then "-0" else "0"
  | S754_infinity neg => if neg then "-Inf" else "+Inf"
  | S754_nan => "NaN"
  end.

Definition csvFloat (v : option spec_float) : string := match v with Some x => FormatFloat x | None => "" end.
Definition csvInt (v : option Z) : string := match v with Some n => Decimal.of_Z n | None => "" end.
Definition bit (b : bool) : string := if b then "1" else "0".

Definition export_header : list string :=
  ["row_type"; "request_id"; "timestamp_ms"; "period_start_ms"; "period_end_ms"; "currency"; "model"; "local_estimated"; "supplier_amount";
   "status"; "input_tokens"; "output_tokens"; "tokenizer_compared"; "tokenizer_mismatch"].

Definition request_status (r : request_row) : string :=
  let status := if req_lines r =? 0 then "missing_statement" else "matched" in
  match req_cost r with Some _ => status | None => "unknown_cost_" +:+ status end.
Definition request_record (kv : string * request_row) : list string :=
  let (id, r) := kv in
  ["request"; id; Decimal.of_Z (req_timestamp r); ""; ""; req_currency r; req_model r; csvFloat (req_cost r); ""; request_status r;
   csvInt (req_input r); csvInt (req_output r); bit (req_compared r); bit (req_mismatch r)].

Definition statement_status (from until : Z) (m : matched_row) : string :=
  let l := match_line m in
  if ((0 <? from) && (line_start l <? from)) || ((0 <? until) && (until <? line_end l)) then "partial_period_" +:+ match_status m else match_status m.
Definition statement_record (from until : Z) (kv : Z * matched_row) : list string :=
  let l := match_line kv.2 in
  ["supplier_statement"; default "" (line_request l); ""; Decimal.of_Z (line_start l); Decimal.of_Z (line_end l); line_currency l; line_model l; "";
   FormatFloat (line_amount l); statement_status from until kv.2; ""; ""; ""; ""].

(** [ORDER BY timestamp_ms,request_id] and [ORDER BY period_start_ms,statement_id]. *)
Definition request_before (x y : string * request_row) : Prop :=
  req_timestamp x.2 < req_timestamp y.2 \/ (req_timestamp x.2 = req_timestamp y.2 /\ Sort.le x.1 y.1).
Definition statement_before (x y : Z * matched_row) : Prop :=
  line_start (match_line x.2) < line_start (match_line y.2) \/ (line_start (match_line x.2) = line_start (match_line y.2) /\ x.1 <= y.1).
#[export] Instance request_before_dec : RelDecision request_before.
Proof. intros x y. unfold request_before, Sort.le. apply _. Defined.
#[export] Instance statement_before_dec : RelDecision statement_before.
Proof. intros x y. unfold statement_before. apply _. Defined.

Definition overlapping (d : database) (from until : Z) : list (Z * matched_row) :=
  rows (fun _ m => period_overlaps from until (line_start (match_line m)) (line_end (match_line m))) (reconciliation_statements d).
Definition export_rows (d : database) (from until : Z) : list (list string) :=
  export_header :: (request_record <$> merge_sort request_before (requests_in d from until)) ++
  (statement_record from until <$> merge_sort statement_before (overlapping d from until)).
Definition ExportBillingCSV (d : database) (from until : Z) : option (list byte) :=
  if validatePeriod from until then Some (concat (CSV.Write <$> export_rows d from until)) else None.
