(* ===== verification/StatementFacts.v ===== *)
(** * Supplier statements: properties

    The export can be read back, and the import adds exactly the rows of a
    file, once. *)

From S2P Require Import Prelude GoStrings GoFloat Reconciliation ReconciliationFacts Statements.
From Stdlib Require Import SpecFloat.

(** ** Reading what was written *)

Section csv.
Import CSV.

(** The reader on the text that is left. *)
Definition on_text (m : mode) (buf : list byte) (fs : list (list byte)) (t : list byte) : (list (list byte) + csv_error) * list (list byte) :=
  match raw_lines t with [] => record m buf fs [] [] | l :: ls => record m buf fs l ls end.

Lemma record_eq m buf fs line rest : record m buf fs line rest =
  match scan m buf fs line with
  | Fields fs => (inl fs, rest)
  | Bad e => (inr e, rest)
  | More buf fs => match rest with [] => (inr ErrQuote, []) | line :: rest => record Quoted buf fs line rest end
  end.
Proof. by destruct rest. Qed.

Lemma raw_lines_cons c t : c <> NL -> raw_lines (c :: t) = match raw_lines t with [] => [[c]] | l :: ls => (c :: l) :: ls end.
Proof. intros Hc. cbn [raw_lines]. by rewrite (proj2 (Z.eqb_neq c NL) Hc). Qed.

Lemma raw_lines_nl t : raw_lines (NL :: t) = [NL] :: raw_lines t.
Proof. done. Qed.

Lemma quoted_byte buf fs c t : c <> quote -> on_text Quoted buf fs (c :: t) = on_text Quoted (buf ++ [c]) fs t.
Proof.
  intros Hq%Z.eqb_neq. unfold on_text. destruct (Z.eqb_spec c NL) as [->|Hn].
  - cbn [raw_lines]. rewrite Z.eqb_refl, record_eq. cbn [scan]. rewrite Hq. cbn [scan]. destruct (raw_lines t); [by rewrite record_eq|done].
  - rewrite raw_lines_cons by done. destruct (raw_lines t) as [|l ls]; rewrite record_eq; cbn [scan]; rewrite Hq; [|by rewrite (record_eq _ _ _ l)].
    by rewrite record_eq.
Qed.

Lemma quoted_quote buf fs t : on_text Quoted buf fs (quote :: quote :: t) = on_text Quoted (buf ++ [quote]) fs t.
Proof.
  unfold on_text. rewrite !raw_lines_cons by done. destruct (raw_lines t) as [|l ls]; rewrite record_eq; cbn [scan]; rewrite !Z.eqb_refl; by rewrite (record_eq _ (buf ++ [quote])).
Qed.

Lemma quoted_comma buf fs t : on_text Quoted buf fs (quote :: comma :: t) = on_text Start [] (fs ++ [buf]) t.
Proof.
  unfold on_text. rewrite !raw_lines_cons by done. destruct (raw_lines t) as [|l ls]; rewrite record_eq; cbn [scan]; by rewrite (record_eq Start).
Qed.

Lemma quoted_end buf fs t : on_text Quoted buf fs (quote :: NL :: t) = (inl (fs ++ [buf]), raw_lines t).
Proof. unfold on_text. rewrite raw_lines_cons by done. cbn [raw_lines]. rewrite Z.eqb_refl, record_eq. done. Qed.

Lemma plain_byte m buf fs c t : m <> Quoted -> c <> quote -> c <> comma -> c <> NL -> on_text m buf fs (c :: t) = on_text Plain (buf ++ [c]) fs t.
Proof.
  intros Hm Hq%Z.eqb_neq Hc%Z.eqb_neq Hn. unfold on_text. rewrite raw_lines_cons by done. apply Z.eqb_neq in Hn.
  destruct (raw_lines t) as [|l ls]; rewrite record_eq, (record_eq Plain); destruct m; try done; cbn [scan]; rewrite Hq, Hc; cbn [line_end]; rewrite ?Hn; try done;
    destruct l; by rewrite ?Hn.
Qed.

Lemma plain_comma m buf fs t : m <> Quoted -> on_text m buf fs (comma :: t) = on_text Start [] (fs ++ [buf]) t.
Proof.
  intros Hm. unfold on_text. rewrite raw_lines_cons by done. destruct (raw_lines t) as [|l ls]; rewrite record_eq, (record_eq Start); destruct m; done.
Qed.

Lemma plain_end m buf fs t : m <> Quoted -> on_text m buf fs (NL :: t) = (inl (fs ++ [buf]), raw_lines t).
Proof. intros Hm. unfold on_text. cbn [raw_lines]. rewrite Z.eqb_refl, record_eq. by destruct m. Qed.

Lemma start_quote fs t : on_text Start [] fs (quote :: t) = on_text Quoted [] fs t.
Proof. unfold on_text. rewrite raw_lines_cons by done. destruct (raw_lines t) as [|l ls]; rewrite record_eq, (record_eq Quoted); done. Qed.

Lemma quoted_text f buf fs t : on_text Quoted buf fs (concat (escape <$> f) ++ t) = on_text Quoted (buf ++ f) fs t.
Proof.
  revert buf. induction f as [|c f IH]; intros buf; [by rewrite app_nil_r|]. cbn [fmap list_fmap concat]. rewrite <-app_assoc. unfold escape at 1.
  destruct (Z.eqb_spec c quote) as [->|Hc]; cbn [app].
  - rewrite quoted_quote, IH, <-app_assoc. done.
  - rewrite quoted_byte by done. rewrite IH, <-app_assoc. done.
Qed.

Lemma plain_text f m buf fs t : m <> Quoted -> Forall (fun c => c <> quote /\ c <> comma /\ c <> NL) f -> f <> [] ->
  on_text m buf fs (f ++ t) = on_text Plain (buf ++ f) fs t.
Proof.
  intros Hm Hf. revert m buf Hm. induction Hf as [|c f (H1 & H2 & H3) Hf IH]; intros m buf Hm Hne; [done|]. cbn [app]. rewrite plain_byte by done.
  destruct f as [|c' f]; [done|]. rewrite IH by done. by rewrite <-app_assoc.
Qed.

Lemma plain_bytes f : needs_quotes f = false -> Forall (fun c => c <> quote /\ c <> comma /\ c <> NL) f.
Proof.
  destruct f as [|c0 f0]; [constructor|]. unfold needs_quotes. intros [[_ He]%orb_false_iff _]%orb_false_iff. apply Forall_forall. intros c Hc.
  assert (Hb : ((c =? NL) || (c =? CR) || (c =? quote) || (c =? comma)) = false).
  { apply not_true_iff_false. intros Hb. apply not_true_iff_false in He. apply He, existsb_exists. exists c. split; [by apply list_elem_of_In|done]. }
  apply orb_false_iff in Hb as [[[Hb1 _]%orb_false_iff Hb2]%orb_false_iff Hb3]. by apply Z.eqb_neq in Hb1, Hb2, Hb3.
Qed.

(** One field, then the next one or the end of the record. *)
Lemma field_comma f fs t : on_text Start [] fs (write_field f ++ comma :: t) = on_text Start [] (fs ++ [f]) t.
Proof.
  unfold write_field. destruct (needs_quotes f) eqn:Hq.
  - cbn [app]. rewrite start_quote, <-app_assoc, quoted_text. apply quoted_comma.
  - destruct f as [|c f]; [by apply plain_comma|]. rewrite plain_text by (done || by apply plain_bytes). by apply plain_comma.
Qed.
Lemma field_end f fs t : on_text Start [] fs (write_field f ++ NL :: t) = (inl (fs ++ [f]), raw_lines t).
Proof.
  unfold write_field. destruct (needs_quotes f) eqn:Hq.
  - cbn [app]. rewrite start_quote, <-app_assoc, quoted_text. apply quoted_end.
  - destruct f as [|c f]; [by apply plain_end|]. rewrite plain_text by (done || by apply plain_bytes). by apply plain_end.
Qed.

Lemma fields_text l fs t : l <> [] -> on_text Start [] fs (write_fields l ++ NL :: t) = (inl (fs ++ l), raw_lines t).
Proof.
  revert fs. induction l as [|f l IH]; intros fs Hl; [done|]. destruct l as [|f' l]; [apply field_end|].
  change (write_fields (f :: f' :: l)) with (write_field f ++ comma :: write_fields (f' :: l)). rewrite <-app_assoc. cbn [app].
  rewrite field_comma, IH by done. by rewrite <-app_assoc.
Qed.

(** A line break that reading would change. *)
Fixpoint has_crlf (p : list byte) : bool :=
  match p with a :: (b :: _) as t => (a =? CR) && (b =? NL) || has_crlf t | _ => false end.
Definition joins (p x : list byte) : bool :=
  match last p, head x with Some a, Some b => (a =? CR) && (b =? NL) | _, _ => false end.

Lemma has_crlf_app p x : has_crlf (p ++ x) = has_crlf p || has_crlf x || joins p x.
Proof.
  induction p as [|a p IH]; [cbn; by rewrite orb_false_r|]. destruct p as [|b p].
  - destruct x as [|c x]; [done|]. change (has_crlf ([a] ++ c :: x)) with ((a =? CR) && (c =? NL) || has_crlf (c :: x)). unfold joins. cbn [last head has_crlf orb].
    by rewrite orb_comm.
  - change ((a :: b :: p) ++ x) with (a :: b :: (p ++ x)). change (has_crlf (a :: b :: (p ++ x))) with ((a =? CR) && (b =? NL) || has_crlf ((b :: p) ++ x)).
    change (has_crlf (a :: b :: p)) with ((a =? CR) && (b =? NL) || has_crlf (b :: p)). rewrite IH.
    change (joins (a :: b :: p) x) with (joins (b :: p) x). by rewrite !orb_assoc.
Qed.

Lemma normal_id l : (forall x, l <> x ++ [CR; NL]) -> (forall x, l <> x ++ [CR]) -> normal_line l = l.
Proof.
  intros H1 H2. destruct l as [|c l _] using rev_ind; [done|]. destruct l as [|b l _] using rev_ind.
  - unfold normal_line. cbn. destruct (Z.eqb_spec c CR) as [->|]; [|done]. by destruct (H2 []).
  - unfold normal_line. rewrite !rev_app_distr. cbn [rev app].
    destruct (Z.eqb_spec c NL) as [->|]; [destruct (Z.eqb_spec b CR) as [->|]; [|done]|destruct (Z.eqb_spec c CR) as [->|]; [|done]].
    + destruct (H1 l). by rewrite <-app_assoc.
    + by destruct (H2 (l ++ [b])).
Qed.

Lemma concat_raw_lines p : concat (raw_lines p) = p.
Proof.
  induction p as [|c p IH]; [done|]. cbn [raw_lines]. destruct (Z.eqb_spec c NL) as [->|_]; [by cbn; rewrite IH|].
  destruct (raw_lines p); cbn in *; by rewrite <-IH.
Qed.

Lemma raw_line_ends p i l : raw_lines p !! i = Some l -> last l = Some NL \/ S i = length (raw_lines p).
Proof.
  revert i l. induction p as [|c p IH]; intros i l; cbn [raw_lines]; [done|]. destruct (Z.eqb_spec c NL) as [->|Hc].
  - destruct i as [|i]; [intros [= <-]; by left|]. intros [Hl|Hl]%IH; [by left|right; cbn; congruence].
  - destruct (raw_lines p) as [|l0 ls] eqn:E; [destruct i; [intros [= <-]; by right|done]|]. destruct i as [|i].
    + intros [= <-]. destruct (IH 0%nat l0) as [Hl|Hl]; [done| |by right]. left. by destruct l0.
    + intros Hl. by apply (IH (S i) l).
Qed.

Lemma raw_lines_app a x : last a = Some NL -> raw_lines (a ++ x) = raw_lines a ++ raw_lines x.
Proof.
  induction a as [|c a IH]; [done|]. destruct a as [|b a].
  - intros [= ->]. done.
  - intros Hl. change (last (b :: a) = Some NL) in Hl. specialize (IH Hl). change ((c :: b :: a) ++ x) with (c :: ((b :: a) ++ x)).
    destruct (decide (c = NL)) as [->|Hc].
    + by rewrite !raw_lines_nl, IH.
    + rewrite !raw_lines_cons, IH by done. destruct (raw_lines (b :: a)) eqn:E; [|done].
      pose proof (concat_raw_lines (b :: a)) as Hb. by rewrite E in Hb.
Qed.

(** Without such a break, and with a line break at the end, the lines are the
    text. *)
Lemma lines_text p : has_crlf p = false -> last p <> Some CR -> lines p = raw_lines p.
Proof.
  intros Hp Hl. unfold lines. trans (id <$> raw_lines p); [|apply list_fmap_id].
  apply list_fmap_ext. intros i l Hi. change (normal_line l = l). apply normal_id.
  - intros x ->. apply list_elem_of_split_length in Hi as (l1 & l2 & E & _). pose proof (concat_raw_lines p) as Hc. rewrite E, concat_app in Hc. cbn in Hc.
    rewrite <-Hc in Hp. rewrite <-(app_assoc x), !has_crlf_app in Hp. cbn in Hp. rewrite !orb_true_r in Hp. done.
  - intros x ->. destruct (raw_line_ends p i _ Hi) as [Hx|Hx]; [by rewrite last_snoc in Hx|].
    apply list_elem_of_split_length in Hi as (l1 & l2 & E & Hi). pose proof (concat_raw_lines p) as Hc. rewrite E in Hc, Hx.
    rewrite length_app in Hx. cbn in Hx. destruct l2; [|cbn in Hx; lia]. rewrite concat_app in Hc. cbn in Hc. rewrite app_nil_r, app_assoc in Hc.
    rewrite <-Hc, last_snoc in Hl. done.
Qed.

(** Written rows *)

Definition cell_ok (s : string) : Prop := has_crlf (bytes_of_string s) = false.

Lemma last_app_ne {A} (l k : list A) : k <> [] -> last (l ++ k) = last k.
Proof. destruct k as [|x k _] using rev_ind; [done|]. intros _. by rewrite app_assoc, !last_snoc. Qed.

Lemma escape_crlf f : has_crlf (concat (escape <$> f)) = has_crlf f /\ (f <> [] -> last (concat (escape <$> f)) = last f) /\ head (concat (escape <$> f)) = head f.
Proof.
  induction f as [|c f (IH1 & IH2 & IH3)]; [done|]. cbn [fmap list_fmap concat].
  assert (He : has_crlf (escape c) = false /\ last (escape c) = Some c /\ head (escape c) = Some c).
  { unfold escape. destruct (Z.eqb_spec c quote) as [->|]; done. }
  destruct He as (H1 & H2 & H3). split_and!.
  - rewrite has_crlf_app, H1, IH1. unfold joins. rewrite H2, IH3. change (c :: f) with ([c] ++ f). rewrite (has_crlf_app [c]). done.
  - intros _. destruct f as [|b f]; [cbn [fmap list_fmap concat]; by rewrite app_nil_r|].
    rewrite last_app_ne, IH2 by (done || by (cbn; unfold escape; destruct (b =? quote))). done.
  - by destruct (escape c).
Qed.

Lemma joins_quote p x : joins p (quote :: x) = false.
Proof. unfold joins. destruct (last p); [|done]. cbn. by rewrite andb_false_r. Qed.
Lemma joins_last_quote p x : joins (p ++ [quote]) x = false.
Proof. unfold joins. rewrite last_snoc. by destruct x. Qed.

Lemma write_field_crlf f x : has_crlf f = false -> has_crlf x = false -> has_crlf (write_field f ++ x) = false.
Proof.
  intros Hf Hx. unfold write_field. destruct (needs_quotes f) eqn:Hq.
  - change ((quote :: concat (escape <$> f) ++ [quote]) ++ x) with ([quote] ++ (concat (escape <$> f) ++ [quote]) ++ x).
    rewrite !has_crlf_app, (proj1 (escape_crlf f)), Hf, Hx, joins_quote, joins_last_quote. cbn. by destruct (concat _).
  - rewrite has_crlf_app, Hf, Hx. cbn. unfold joins. destruct (last f) as [c|] eqn:Hl; [|done]. destruct (head x) as [b|]; [|done].
    assert (Hc : c <> CR); [|by rewrite (proj2 (Z.eqb_neq c CR) Hc)].
    intros ->. destruct f as [|c0 f0]; [done|]. unfold needs_quotes in Hq. apply orb_false_iff in Hq as [[_ Hq]%orb_false_iff _].
    apply not_true_iff_false in Hq. apply Hq, existsb_exists. exists CR. split; [|done]. apply list_elem_of_In. by apply last_Some_elem_of.
Qed.

Lemma write_fields_crlf l x : Forall (fun f => has_crlf f = false) l -> has_crlf x = false -> has_crlf (write_fields l ++ x) = false.
Proof.
  intros Hl Hx. induction Hl as [|f l Hf Hl IH]; [done|]. destruct l as [|f' l]; [by apply write_field_crlf|].
  change (write_fields (f :: f' :: l)) with (write_field f ++ comma :: write_fields (f' :: l)). rewrite <-app_assoc. apply write_field_crlf; [done|].
  change ((comma :: write_fields (f' :: l)) ++ x) with ([comma] ++ (write_fields (f' :: l) ++ x)). rewrite has_crlf_app, IH. unfold joins. cbn. by destruct (head _).
Qed.

Lemma Write_eq row t : Write row ++ t = write_fields (bytes_of_string <$> row) ++ NL :: t.
Proof. unfold Write. by rewrite <-app_assoc. Qed.

Lemma write_fields_head f f' l : exists c x, write_fields (f :: f' :: l) = c :: x /\ c <> NL.
Proof.
  change (write_fields (f :: f' :: l)) with (write_field f ++ comma :: write_fields (f' :: l)). unfold write_field. destruct (needs_quotes f) eqn:Hq.
  - by eexists quote, _.
  - destruct f as [|c f]; [by eexists comma, _|]. eexists c, _. split; [done|]. by apply plain_bytes, Forall_cons in Hq as [(_ & _ & H) _].
Qed.

Lemma read_row row t n : (1 < length row)%nat -> n = 0%nat \/ n = length row ->
  Read {| input := raw_lines (Write row ++ t); FieldsPerRecord := n |} =
  Some (inl row, {| input := raw_lines t; FieldsPerRecord := length row |}).
Proof.
  intros Hlen Hn. rewrite Write_eq. destruct row as [|a [|b row]]; [cbn in Hlen; lia..|]. set (fs := bytes_of_string <$> a :: b :: row).
  assert (Hrec : on_text Start [] [] (write_fields fs ++ NL :: t) = (inl fs, raw_lines t)) by by apply (fields_text fs []).
  destruct (write_fields_head (bytes_of_string a) (bytes_of_string b) (bytes_of_string <$> row)) as (c & x & Hc & Hne).
  change (write_fields fs = c :: x) in Hc. rewrite Hc in Hrec |- *. cbn [app] in *.
  assert (exists l ls, raw_lines (c :: x ++ NL :: t) = (c :: l) :: ls) as (l & ls & Hl).
  { rewrite raw_lines_cons by done. destruct (raw_lines (x ++ NL :: t)) as [|l ls]; [by eexists [], []|by eexists l, ls]. }
  unfold on_text in Hrec. rewrite Hl in Hrec |- *. unfold Read. cbn [skip_empty input FieldsPerRecord].
  assert (Hend : line_end (c :: l) = false) by (destruct l; [by apply Z.eqb_neq|done]). rewrite Hend, Hrec.
  assert (Hfs : length fs = length (a :: b :: row)) by apply length_fmap.
  assert (Hback : string_of_bytes <$> fs = a :: b :: row).
  { unfold fs. rewrite <-list_fmap_compose. trans (id <$> a :: b :: row); [|apply list_fmap_id]. apply list_fmap_ext. intros i s _. apply string_of_bytes_of_string. }
  rewrite Hfs, Hback. destruct Hn as [-> | ->]; [done|]. by rewrite Nat.eqb_refl, andb_false_r.
Qed.

Inductive reads : Reader -> list (list string) -> Prop :=
  | reads_end r : Read r = None -> reads r []
  | reads_row r row r' rows : Read r = Some (inl row, r') -> reads r' rows -> reads r (row :: rows).

Lemma read_rows k rows n : Forall (fun row => length row = k) rows -> (1 < k)%nat -> n = 0%nat \/ n = k ->
  reads {| input := raw_lines (concat (Write <$> rows)); FieldsPerRecord := n |} rows.
Proof.
  intros Hr Hk. revert n. induction Hr as [|row rows Hrow Hr IH]; intros n Hn; [by constructor|]. cbn [fmap list_fmap concat].
  econstructor; [apply read_row; rewrite Hrow; done|]. rewrite Hrow. apply IH. by right.
Qed.

Lemma written_crlf rows : Forall (Forall cell_ok) rows -> has_crlf (concat (Write <$> rows)) = false /\ last (concat (Write <$> rows)) <> Some CR.
Proof.
  induction 1 as [|row rows Hrow _ [IH1 IH2]]; [done|]. cbn [fmap list_fmap concat]. rewrite Write_eq. split.
  - apply write_fields_crlf; [by apply Forall_fmap|]. change (NL :: concat (Write <$> rows)) with ([NL] ++ concat (Write <$> rows)).
    rewrite has_crlf_app, IH1. unfold joins. cbn. by destruct (head _).
  - rewrite last_app_ne by done. destruct (concat (Write <$> rows)) eqn:E; done.
Qed.

Lemma written_read k rows : Forall (Forall cell_ok) rows -> Forall (fun row => length row = k) rows -> (1 < k)%nat ->
  reads (NewReader (concat (Write <$> rows))) rows.
Proof. intros Hc Hk Hlt. destruct (written_crlf rows Hc) as [H1 H2]. unfold NewReader. rewrite lines_text by done. by apply (read_rows k); [..|left]. Qed.
End csv.

(** ** The text of numbers *)

Definition sign_or_digit (l : list byte) : Prop := Forall (fun b => 43 <= b < 128) l.

Lemma digits_text n : sign_or_digit (Decimal.digits n).
Proof.
  unfold Decimal.digits. generalize (S (Z.to_nat (Z.log2 n))) as fuel. intros fuel. assert (Hacc : sign_or_digit []) by constructor. revert n Hacc.
  generalize (@nil byte) as acc. induction fuel as [|fuel IH]; intros acc n Hacc; cbn [Decimal.digits_fuel]; [done|].
  assert (Hn : sign_or_digit (48 + n mod 10 :: acc)) by (apply Forall_cons; split; [pose proof (Z.mod_pos_bound n 10); lia|done]).
  destruct (n / 10 =? 0); [done|by apply IH].
Qed.

Lemma drop_zeros_text l : sign_or_digit l -> sign_or_digit (FloatText.drop_zeros l).
Proof.
  induction 1 as [|b l Hb H IH]; cbn [FloatText.drop_zeros]; [constructor|]. assert (sign_or_digit (b :: l)) by (by constructor).
  repeat case_match; done.
Qed.

Lemma text_cons b l : 43 <= b < 128 -> sign_or_digit l -> sign_or_digit (b :: l).
Proof. by constructor. Qed.

Lemma plain_float_text ds k : sign_or_digit ds -> sign_or_digit (FloatText.plain ds k).
Proof.
  intros Hd. assert (Hz : forall n, sign_or_digit (FloatText.zeros n)) by (intros n; unfold FloatText.zeros; induction (Z.to_nat n); cbn; constructor; [lia|done]).
  unfold FloatText.plain. destruct (k <? 0).
  - apply Forall_app. split; [repeat constructor; lia|]. apply Forall_app. split; [apply Hz|done].
  - apply Forall_app. split; [by apply Forall_take|]. apply Forall_app. split; [apply Hz|].
    assert (H : sign_or_digit (drop (Z.to_nat (k + 1)) ds)) by by apply Forall_drop. destruct (drop _ ds); [constructor|apply text_cons; [lia|done]].
Qed.

Lemma exponential_text ds k : sign_or_digit ds -> sign_or_digit (exponential ds k).
Proof.
  intros [|d rest Hd Hr]; [constructor|]. unfold exponential. cbn [app]. apply text_cons; [done|].
  apply Forall_app. split; [destruct rest; [constructor|apply text_cons; [lia|done]]|]. apply text_cons; [lia|].
  assert (H2 : forall n, sign_or_digit (two_digits n)).
  { intros n. unfold two_digits. apply Forall_app. split; [destruct (n <? 10); repeat constructor; lia|apply digits_text]. }
  destruct (k <? 0); (apply text_cons; [lia|done]).
Qed.

Lemma number_cell l : sign_or_digit l -> cell_ok (string_of_bytes l).
Proof.
  intros Hl. unfold cell_ok. rewrite bytes_of_string_of_bytes by (eapply Forall_impl; [exact Hl|cbn; lia]).
  induction Hl as [|b l Hb Hl IH]; [done|]. destruct l as [|b' l]; [done|]. cbn [has_crlf].
  assert (Hc : b =? CSV.CR = false) by (apply Z.eqb_neq; unfold CSV.CR; lia). by rewrite Hc.
Qed.

Lemma of_Z_cell n : cell_ok (Decimal.of_Z n).
Proof.
  assert (H : Decimal.of_Z n = string_of_bytes ((if n <? 0 then [45] else []) ++ Decimal.digits (Z.abs n))).
  { unfold Decimal.of_Z. destruct (Z.ltb_spec n 0); [by rewrite Z.abs_neq by lia|by rewrite Z.abs_eq by lia]. }
  rewrite H. apply number_cell, Forall_app. split; [|apply digits_text]. destruct (n <? 0); repeat constructor; lia.
Qed.

Lemma FormatFloat_cell x : cell_ok (FormatFloat x).
Proof.
  destruct x as [[]|[]| |neg m e]; try reflexivity. cbn [FormatFloat]. destruct (FloatText.shortest_digits m e) as [ds k] eqn:Hds.
  assert (Hd : sign_or_digit ds).
  { unfold FloatText.shortest_digits in Hds. destruct (FloatText.value m e), (FloatText.shortest _ _ _ _ _ _) as [c t]. injection Hds as <- _.
    apply Forall_rev, drop_zeros_text, Forall_rev, digits_text. }
  apply number_cell, Forall_app. split; [destruct neg; repeat constructor; lia|].
  destruct (_ || _); [by apply exponential_text|by apply plain_float_text].
Qed.

(** ** The export *)

(** The texts of the tables, as far as the export shows them. *)
Record texts_ok (d : database) : Prop := {
  requests_ok : forall id r, reconciliation_requests d !! id = Some r -> cell_ok id /\ cell_ok (req_currency r) /\ cell_ok (req_model r);
  statements_ok : forall n m, reconciliation_statements d !! n = Some m -> cell_ok (default "" (line_request (match_line m))) /\
    cell_ok (line_currency (match_line m)) /\ cell_ok (line_model (match_line m)) /\
    In (match_status m) ["missing_request_id"; "request_not_found"; "currency_mismatch"; "model_mismatch"; "outside_request_period"; "matched"];
}.

Lemma export_row_lengths d from until : Forall (fun row => length row = 14%nat) (export_rows d from until).
Proof. unfold export_rows. constructor; [done|]. apply Forall_app. split; apply Forall_fmap, Forall_true; intros []; done. Qed.

Lemma export_cells d from until : texts_ok d -> Forall (Forall cell_ok) (export_rows d from until).
Proof.
  intros [Hr Hs]. unfold export_rows. constructor; [by repeat constructor|]. apply Forall_app. split; apply Forall_fmap, Forall_forall.
  - intros [id r] Hin. rewrite merge_sort_Permutation in Hin. apply in_rows in Hin as [Hin _]. destruct (Hr id r Hin) as (H1 & H2 & H3).
    assert (Hst : cell_ok (request_status r)) by (unfold request_status; destruct (_ =? 0), (req_cost r); reflexivity).
    assert (Hf : cell_ok (csvFloat (req_cost r))) by (destruct (req_cost r); [apply FormatFloat_cell|reflexivity]).
    assert (Hi : forall v, cell_ok (csvInt v)) by (intros []; [apply of_Z_cell|reflexivity]).
    assert (Hb : forall b, cell_ok (bit b)) by (intros []; reflexivity).
    cbn [request_record compose]. pose proof (of_Z_cell (req_timestamp r)). repeat (constructor; try done).
  - intros [n m] Hin. rewrite merge_sort_Permutation in Hin. apply in_rows in Hin as [Hin _]. destruct (Hs n m Hin) as (H1 & H2 & H3 & H4).
    assert (Hst : cell_ok (statement_status from until m)).
    { unfold statement_status. destruct (_ || _); destruct H4 as [<-|[<-|[<-|[<-|[<-|[<-|[]]]]]]]; reflexivity. }
    pose proof (of_Z_cell (line_start (match_line m))). pose proof (of_Z_cell (line_end (match_line m))). pose proof (FormatFloat_cell (line_amount (match_line m))).
    unfold statement_record, compose. cbn [snd]. repeat (constructor; try done).
Qed.

#[local] Instance request_before_total : base.Total request_before.
Proof. intros x y. unfold request_before. destruct (Z.lt_trichotomy (req_timestamp x.2) (req_timestamp y.2)) as [|[|]]; [by left; left| |by right; left]. destruct (Sort.le_total x.1 y.1); auto. Qed.
#[local] Instance request_before_trans : Transitive request_before.
Proof. intros x y z. unfold request_before. intros [H1|[H1 H2]] [H3|[H3 H4]]; [left; lia..|right]. split; [lia|by eapply Sort.le_trans]. Qed.
#[local] Instance statement_before_total : base.Total statement_before.
Proof. intros x y. unfold statement_before. lia. Qed.
#[local] Instance statement_before_trans : Transitive statement_before.
Proof. intros x y z. unfold statement_before. lia. Qed.

(** The texts that audits and imported lines brought in. *)
Record source_texts_ok (d : database) : Prop := {
  audit_texts : forall id a, request_audit d !! id = Some a -> cell_ok id /\ cell_ok (default "" (audit_currency a)) /\ cell_ok (audit_model a);
  line_texts : forall n l, supplier_statement_lines d !! n = Some l ->
    cell_ok (default "" (line_request l)) /\ cell_ok (line_currency l) /\ cell_ok (line_model l);
}.

Lemma status_names d l : In (line_status d l)
  ["missing_request_id"; "request_not_found"; "currency_mismatch"; "model_mismatch"; "outside_request_period"; "matched"].
Proof. unfold line_status. repeat case_match; cbn; auto 8. Qed.

Lemma fresh_texts d : fresh d -> source_texts_ok d -> texts_ok d.
Proof.
  intros Hd [Ha Hl]. split.
  - intros id r Hr. pose proof (fresh_request d Hd id) as Hf. rewrite Hr in Hf. destruct (request_audit d !! id) as [a|] eqn:E; [|done].
    destruct Hf as [Hf _], r. cbn in Hf. injection Hf as -> -> -> -> -> -> -> -> ->. by apply Ha.
  - intros n m Hm. rewrite (fresh_statements d Hd), lookup_fmap in Hm. apply fmap_Some in Hm as (l & El & ->).
    destruct (Hl n l El) as (H1 & H2 & H3). split_and!; [done..|]. apply status_names.
Qed.

(** C31. The exported bill can be read back by the reader of supplier
    statements, and nothing is dropped from it: after the header it has one row
    for each audited request of the period, by time and identifier, and one
    for each supplier charge whose own period overlaps, by the start of this
    period.  No text of the ledger may contain a CR LF, which a reader of CSV
    changes. *)
Theorem export_reads_back d from until p : fresh d -> source_texts_ok d -> ExportBillingCSV d from until = Some p ->
  exists requests charges,
    reads (CSV.NewReader p) (export_header :: (request_record <$> requests) ++ (statement_record from until <$> charges)) /\
    NoDup requests.*1 /\ StronglySorted request_before requests /\
    (forall id r, (id, r) ∈ requests <-> reconciliation_requests d !! id = Some r /\ in_period from until (req_timestamp r) = true) /\
    NoDup charges.*1 /\ StronglySorted statement_before charges /\
    (forall n m, (n, m) ∈ charges <-> exists l, supplier_statement_lines d !! n = Some l /\ m = statement_source d l /\
       period_overlaps from until (line_start l) (line_end l) = true).
Proof.
  intros Hd Ht Hp. exists (merge_sort request_before (requests_in d from until)), (merge_sort statement_before (overlapping d from until)).
  unfold ExportBillingCSV in Hp. destruct (validatePeriod from until); [|done]. apply (inj Some) in Hp. subst p. split_and!.
  - exact (written_read 14 _ (export_cells d from until (fresh_texts d Hd Ht)) (export_row_lengths d from until) ltac:(lia)).
  - rewrite merge_sort_Permutation. apply rows_NoDup.
  - apply StronglySorted_merge_sort; apply _.
  - intros id r. rewrite merge_sort_Permutation. unfold requests_in. by rewrite in_rows.
  - rewrite merge_sort_Permutation. apply rows_NoDup.
  - apply StronglySorted_merge_sort; apply _.
  - intros n m. rewrite merge_sort_Permutation. unfold overlapping. rewrite in_rows, (fresh_statements d Hd), lookup_fmap. split.
    + intros [(l & Hl & ->)%fmap_Some Ho]. by exists l.
    + intros (l & Hl & -> & Ho). by rewrite Hl.
Qed.

(** ** The import *)

Section reader.
Import CSV.

Lemma skip_empty_length ls : (length (skip_empty ls) <= length ls)%nat.
Proof. induction ls as [|l ls IH]; cbn; [done|]. destruct (line_end l); cbn; lia. Qed.

Lemma record_length rest m buf fs line : (length (record m buf fs line rest).2 <= length rest)%nat.
Proof.
  revert m buf fs line. induction rest as [|l rest IH]; intros m buf fs line; rewrite record_eq; destruct (scan m buf fs line); cbn [snd length]; try lia.
  etrans; [apply IH|lia].
Qed.

Lemma Read_shorter r x r' : Read r = Some (x, r') -> (length (input r') < length (input r))%nat.
Proof.
  unfold Read. pose proof (skip_empty_length (input r)) as Hs. destruct (skip_empty (input r)) as [|line rest]; [done|]. cbn in Hs.
  pose proof (record_length rest Start [] [] line) as Hr. destruct (record Start [] [] line rest) as [[fs|e] rest']; cbn in Hr; intros [= <- <-]; cbn; lia.
Qed.
End reader.

Definition add_lines (ls : list statement_line) (d : database) : database := foldl (fun d l => insert_line l d) d ls.

Section import.
Context (Parse3339 : string -> option Z) (ParseFloat : string -> option spec_float) (digest : list byte -> string).
Let statement_row := statement_row Parse3339 ParseFloat.
Let import_rows := import_rows Parse3339 ParseFloat.
Let import_csv := import_csv Parse3339 ParseFloat.
Let ImportStatementFile := ImportStatementFile Parse3339 ParseFloat digest.

(** The lines that the rows of a file stand for, under its header. *)
Definition file_lines (p : list byte) (importedAtMS : Z) (ls : list statement_line) : Prop := exists header head rows,
  reads (CSV.NewReader p) (header :: rows) /\ columns header 0 ∅ = inl head /\ missing head = None /\
  Forall2 (fun row l => statement_row head row importedAtMS = Some l) rows ls.

Lemma import_rows_spec fuel head t r n d n' d' : (length (CSV.input r) <= fuel)%nat -> n <= MaxStatementRows ->
  import_rows fuel head t r n d = inl (n', d') ->
  exists rows ls, reads r rows /\ Forall2 (fun row l => statement_row head row t = Some l) rows ls /\
    n' = n + Z.of_nat (length ls) /\ n' <= MaxStatementRows /\ d' = add_lines ls d.
Proof.
  revert r n d. induction fuel as [|fuel IH]; intros r n d Hf Hn; cbn [import_rows Statements.import_rows]; unfold import_rows; cbn [Statements.import_rows];
    destruct (CSV.Read r) as [[[row|e] r']|] eqn:Hr; try done;
    try (intros [= <- <-]; exists [], []; split_and!; [by constructor|constructor|cbn; lia|done|done]).
  - apply Read_shorter in Hr. lia.
  - destruct (Z.ltb_spec MaxStatementRows (n + 1)); [done|]. destruct (Statements.statement_row _ _ _ _ _) as [l|] eqn:Hl; [|done]. intros Hi.
    pose proof (Read_shorter _ _ _ Hr). apply IH in Hi as (rows & ls & H1 & H2 & H3 & H4 & H5); [|lia..].
    exists (row :: rows), (l :: ls). split_and!; [by econstructor|by constructor|cbn; lia|done|done].
Qed.

Lemma import_csv_spec p t d n d' : import_csv p t d = inl (n, d') ->
  exists ls, file_lines p t ls /\ n = Z.of_nat (length ls) /\ 0 < n <= MaxStatementRows /\ d' = add_lines ls d.
Proof.
  unfold import_csv, Statements.import_csv. destruct (CSV.Read (CSV.NewReader p)) as [[[header|e] r]|] eqn:Hr; [|done..].
  destruct (columns header 0 ∅) as [head|] eqn:Hc; [|done]. destruct (missing head) eqn:Hm; [done|].
  destruct (Statements.import_rows _ _ _ _ _ _ _ _) as [[n0 d0]|] eqn:Hi; [|done]. destruct (Z.eqb_spec n0 0) as [|Hn]; [done|]. intros [= -> ->].
  pose proof (Read_shorter _ _ _ Hr) as Hlt. cbn in Hlt. apply (import_rows_spec _ _ _ _ 0) in Hi as (rows & ls & H1 & H2 & H3 & H4 & H5); [|lia|done].
  exists ls. split_and!; [|lia|lia|lia|done]. exists header, head, rows. split_and!; [by econstructor|done..].
Qed.

(** What a call of the import did. *)
Definition known_source (source : string) (l : Ledger) : option string := if String.eqb source "" then None else statement_import_sources l !! source.
Definition record_import (fingerprint : string) (t n : Z) (d : database) (l : Ledger) : Ledger :=
  l <| db := d |> <| statement_imports := <[fingerprint := {| imported_at := t; row_count := n |}]> (statement_imports l) |>.

Inductive import_outcome (source : string) (t : Z) (l : Ledger) : option (list byte) -> Ledger -> Z + import_error -> Prop :=
  | import_refused data e : import_outcome source t l data l (inr e)
  | import_known p l' : Z.of_nat (length p) <= MaxStatementBytes -> is_Some (statement_imports l !! digest p) ->
      (known_source source l = Some (digest p) /\ l' = l) \/ (known_source source l = None /\ l' = remember source (digest p) l) ->
      import_outcome source t l (Some p) l' (inl 0)
  | import_new p n d : Z.of_nat (length p) <= MaxStatementBytes -> statement_imports l !! digest p = None -> known_source source l = None ->
      import_csv p t (db l) = inl (n, d) -> import_outcome source t l (Some p) (remember source (digest p) (record_import (digest p) t n d l)) (inl n).

Lemma import_cases source data t ok l : let '(l', result) := ImportStatementFile source data t ok l in import_outcome source t l data l' result.
Proof.
  unfold ImportStatementFile, Statements.ImportStatementFile. destruct (t <=? 0); [constructor|]. destruct data as [p|]; [|constructor].
  destruct (Z.ltb_spec MaxStatementBytes (Z.of_nat (length p))); [constructor|]. destruct (negb ok); [constructor|].
  fold (known_source source l). destruct (known_source source l) as [f|] eqn:Hk.
  - destruct (String.eqb_spec f (digest p)) as [->|]; cbn [negb]; [|constructor]. destruct (statement_imports l !! digest p) eqn:Hi.
    + apply import_known; [done|by rewrite Hi|by left].
    + destruct (Statements.import_csv _ _ _ _ _) as [[n d]|e]; constructor.
  - destruct (statement_imports l !! digest p) eqn:Hi; [apply import_known; [done|by rewrite Hi|by right]|].
    destruct (Statements.import_csv _ _ _ _ _) as [[n d]|e] eqn:Hc; [|constructor]. by apply import_new.
Qed.

Lemma remember_keeps source f l : db (remember source f l) = db l /\ statement_imports (remember source f l) = statement_imports l.
Proof. unfold remember. by destruct (String.eqb source ""). Qed.

(** A file is imported as a whole or not at all.  An import that is refused
    changes nothing.  One that is accepted finds the content imported before
    and adds nothing, or reads the file to its end under its header, and adds
    exactly one line for every row, in order, at most 100,000 of them, together
    with the fingerprint and the number. *)
Theorem import_all_or_nothing source data t ok l l' result : ImportStatementFile source data t ok l = (l', result) ->
  match result with
  | inr _ => l' = l
  | inl n => exists p, data = Some p /\ Z.of_nat (length p) <= MaxStatementBytes /\
      if decide (is_Some (statement_imports l !! digest p)) then n = 0 /\ db l' = db l /\ statement_imports l' = statement_imports l
      else exists ls, file_lines p t ls /\ n = Z.of_nat (length ls) /\ 0 < n <= MaxStatementRows /\ db l' = add_lines ls (db l) /\
        statement_imports l' = <[digest p := {| imported_at := t; row_count := n |}]> (statement_imports l)
  end.
Proof.
  intros E. pose proof (import_cases source data t ok l) as H. rewrite E in H. destruct H as [data e|p l' Hp Hi Hl|p n d Hp Hi Hk Hc]; [done|..].
  - exists p. split_and!; [done..|]. rewrite decide_True by done. destruct (remember_keeps source (digest p) l) as [H1 H2]. by destruct Hl as [[_ ->]|[_ ->]].
  - exists p. split_and!; [done..|]. rewrite decide_False by (rewrite Hi; by intros []). apply import_csv_spec in Hc as (ls & H1 & H2 & H3 & ->).
    destruct (remember_keeps source (digest p) (record_import (digest p) t n (add_lines ls (db l)) l)) as [-> ->]. by exists ls.
Qed.

(** ** Every sequence of operations *)

Inductive operation :=
  | OpAudit (a : Audit) (write_ok : bool)
  | OpComparison (id : string) (c : TokenComparison)
  | OpSnapshot (b : BalanceSnapshot)
  | OpImport (source : string) (data : option (list byte)) (importedAtMS : Z) (db_ok : bool)
  | OpScan (attemptedAt now : Z) (opened : bool) (entries : list entry) (listed canceled write_ok : bool) (r : statementSyncReporter).

Definition run (l : Ledger) (o : operation) : Ledger :=
  match o with
  | OpAudit a ok => (AppendAudit a ok l).1
  | OpComparison id c => l <| db := default (db l) (AppendTokenComparison id c (db l)) |>
  | OpSnapshot b => l <| db := default (db l) (AppendBalanceSnapshot b (db l)) |>
  | OpImport source data t ok => (ImportStatementFile source data t ok l).1
  | OpScan attemptedAt now opened entries listed canceled write_ok r =>
      (syncStatements Parse3339 ParseFloat digest attemptedAt now opened entries listed canceled write_ok (l, r)).1.1
  end.

(** The lines come from the remembered imports. *)
Definition import_total (m : gmap string statement_import) : Z := foldr Z.add 0 ((fun kv => row_count kv.2) <$> map_to_list m).
Record consistent (l : Ledger) : Prop := {
  tables_fresh : fresh (db l);
  lines_accounted : Z.of_nat (size (supplier_statement_lines (db l))) = import_total (statement_imports l);
}.

Lemma sum_perm l l' : l ≡ₚ l' -> foldr Z.add 0 l = foldr Z.add 0 l'.
Proof. induction 1; cbn; lia. Qed.

Lemma import_total_insert m f i : m !! f = None -> import_total (<[f := i]> m) = import_total m + row_count i.
Proof. intros Hf. unfold import_total. rewrite (sum_perm _ _ (fmap_Permutation _ _ _ (map_to_list_insert m f i Hf))). cbn. lia. Qed.

Lemma add_lines_fresh ls d : fresh d -> fresh (add_lines ls d) /\
  Z.of_nat (size (supplier_statement_lines (add_lines ls d))) = Z.of_nat (size (supplier_statement_lines d)) + Z.of_nat (length ls).
Proof.
  revert d. induction ls as [|l ls IH]; intros d Hd; [split; [done|cbn; lia]|]. cbn [add_lines foldl length].
  destruct (IH (insert_line l d) (insert_line_fresh l d Hd)) as [H1 H2]. split; [done|]. unfold add_lines in H2. rewrite H2.
  change (supplier_statement_lines (insert_line l d)) with (<[next_line d := l]> (supplier_statement_lines d)). rewrite map_size_insert_None; [lia|].
  destruct (supplier_statement_lines d !! next_line d) eqn:E; [|done]. destruct Hd as [[Hl _ _] _ _ _]. exfalso. apply (Z.lt_irrefl (next_line d)), Hl. by rewrite E.
Qed.

(** Audits, comparisons and snapshots add no statement line. *)
Lemma insert_fresh (d d' : database) : fresh d -> (exists id a, insert_audit id a d = Some d') \/ (exists id c, insert_comparison id c d = Some d') \/
    (exists b, insert_snapshot b d = Some d') -> fresh d' /\ supplier_statement_lines d' = supplier_statement_lines d.
Proof.
  intros Hd [(id & a & H)|[(id & c & H)|(b & H)]].
  - split; [by eapply insert_audit_fresh|]. unfold insert_audit in H. destruct (request_audit d !! id); [done|]. by injection H as <-.
  - split; [by eapply insert_comparison_fresh|]. unfold insert_comparison in H. destruct (token_comparisons d !! id); [done|]. by injection H as <-.
  - split; [by eapply insert_snapshot_fresh|]. unfold insert_snapshot in H. destruct (existsb _ _); [done|]. by injection H as <-.
Qed.

Lemma import_consistent source t l data l' result : consistent l -> import_outcome source t l data l' result -> consistent l'.
Proof.
  intros [Hf Ha] [data' e|p l'' Hp Hi Hl|p n d Hp Hi Hk Hc]; [done|..].
  - destruct (remember_keeps source (digest p) l) as [H1 H2]. destruct Hl as [[_ ->]|[_ ->]]; [done|]. split; by rewrite ?H1, ?H2.
  - destruct (remember_keeps source (digest p) (record_import (digest p) t n d l)) as [H1 H2]. apply import_csv_spec in Hc as (ls & _ & -> & _ & ->).
    destruct (add_lines_fresh ls (db l) Hf) as [H3 H4]. split; rewrite ?H1, ?H2; [exact H3|].
    change (db (record_import (digest p) t (Z.of_nat (length ls)) (add_lines ls (db l)) l)) with (add_lines ls (db l)).
    change (statement_imports (record_import _ _ _ _ _)) with (<[digest p := {| imported_at := t; row_count := Z.of_nat (length ls) |}]> (statement_imports l)).
    rewrite H4, import_total_insert by done. cbn. lia.
Qed.

(** A property of ledgers that imports keep is kept by a scan. *)
Lemma scan_entry_keeps (P : Ledger -> Prop) (HP : forall source t l data l' result, P l -> import_outcome source t l data l' result -> P l') t e x :
  P x.1 -> P (scan_entry Parse3339 ParseFloat digest t e x).1.
Proof.
  destruct x as [l s]. intros Hl. unfold scan_entry. destruct (negb (is_csv _)); [done|]. destruct (entry_info e) as [size|]; [|done].
  destruct (_ <? size); [done|]. destruct (entry_path e) as [path|]; [|done]. destruct (negb (entry_opens e)); [done|].
  pose proof (import_cases path (entry_data e) t (entry_db_ok e) l) as H. unfold ImportStatementFile in H.
  destruct (Statements.ImportStatementFile _ _ _ _ _ _ _ _) as [l' [n|err]]; [|by eapply HP]. destruct (negb (entry_closes e)); by eapply HP.
Qed.

Lemma scan_keeps (P : Ledger -> Prop) (HP : forall source t l data l' result, P l -> import_outcome source t l data l' result -> P l') t opened entries listed l :
  P l -> P (scan_directory Parse3339 ParseFloat digest t opened entries listed l).1.
Proof.
  intros Hl. unfold scan_directory. destruct (negb opened); [done|]. set (x := (l, _)). assert (Hx : P x.1) by done. generalize dependent x.
  induction entries as [|e entries IH]; intros x Hx; [by destruct x|]. cbn [foldl]. by apply IH, scan_entry_keeps.
Qed.

Lemma sync_keeps (P : Ledger -> Prop) (HP : forall source t l data l' result, P l -> import_outcome source t l data l' result -> P l')
    (HS : forall l s, P l -> P (l <| statement_sync := s |>)) t now opened entries listed canceled ok l r :
  P l -> P (syncStatements Parse3339 ParseFloat digest t now opened entries listed canceled ok (l, r)).1.1.
Proof.
  intros Hl. unfold syncStatements. pose proof (scan_keeps P HP t opened entries listed l Hl) as H. destruct (scan_directory _ _ _ _ _ _ _ _) as [l' s]. cbn in H.
  set (s' := if canceled then _ else _). unfold RecordStatementSync. destruct (_ || _); destruct (report _ _ _ _); [done|]. by apply HS.
Qed.

Lemma run_consistent l o : consistent l -> consistent (run l o).
Proof.
  intros Hl. pose proof Hl as [Hf Ha]. destruct o as [a ok|id c|b|source data t ok|t now opened entries listed canceled ok r]; cbn [run].
  - unfold AppendAudit. destruct (bad_audit a || negb ok); [by split|]. destruct (insert_audit _ _ _) as [d|] eqn:E; [|by split].
    destruct (insert_fresh (db l) d Hf) as [H1 H2]; [eauto|]. split; [done|]. change (db (l <| db := d |>, true).1) with d. by rewrite H2.
  - unfold AppendTokenComparison. destruct (_ || _); [by split|]. destruct (insert_comparison _ _ _) as [d|] eqn:E; [|by split].
    destruct (insert_fresh (db l) d Hf) as [H1 H2]; [eauto|]. split; [done|]. change (db (l <| db := default (db l) (Some d) |>)) with d. by rewrite H2.
  - unfold AppendBalanceSnapshot. destruct (_ || _); [by split|]. destruct (insert_snapshot _ _) as [d|] eqn:E; [|by split].
    destruct (insert_fresh (db l) d Hf) as [H1 H2]; [eauto 6|]. split; [done|]. change (db (l <| db := default (db l) (Some d) |>)) with d. by rewrite H2.
  - pose proof (import_cases source data t ok l) as H. destruct (ImportStatementFile source data t ok l) as [l' result]. by eapply import_consistent.
  - apply sync_keeps; [by apply import_consistent|by intros ? ? []|done].
Qed.

(** A remembered content, with the path it came from. *)
Definition remembered (source f : string) (l : Ledger) : Prop :=
  is_Some (statement_imports l !! f) /\ (source <> "" -> known_source source l = Some f).

Lemma known_remember source source' f f' l : source <> "" -> known_source source' l = None -> known_source source l = Some f ->
  known_source source (remember source' f' l) = Some f.
Proof.
  intros Hs Hk Hf. unfold remember. destruct (String.eqb source' "") eqn:E; [done|]. unfold known_source in *. rewrite E in Hk.
  apply String.eqb_neq in Hs. rewrite Hs in *. cbn. rewrite lookup_insert_ne; [done|]. intros <-. congruence.
Qed.

Lemma import_remembers source f source' t l data l' result : remembered source f l -> import_outcome source' t l data l' result -> remembered source f l'.
Proof.
  intros [H1 H2] [data' e|p l'' Hp Hi Hl|p n d Hp Hi Hk Hc]; [done|..].
  - destruct Hl as [[_ ->]|[Hk ->]]; [done|]. destruct (remember_keeps source' (digest p) l) as [_ E]. split; [by rewrite E|].
    intros Hs. by apply known_remember; [..|apply H2].
  - destruct (remember_keeps source' (digest p) (record_import (digest p) t n d l)) as [_ E]. split.
    + rewrite E. apply lookup_insert_is_Some'. by right.
    + intros Hs. apply known_remember; [done|exact Hk|by apply H2].
Qed.

Lemma run_remembers source f l o : remembered source f l -> remembered source f (run l o).
Proof.
  intros Hl. destruct o as [a ok|id c|b|source' data t ok|t now opened entries listed canceled ok r]; cbn [run].
  - unfold AppendAudit. by destruct (if bad_audit a || negb ok then None else insert_audit (ID a) (audit_columns a) (db l)).
  - done.
  - done.
  - pose proof (import_cases source' data t ok l) as H. destruct (ImportStatementFile source' data t ok l) as [l' result]. by eapply import_remembers.
  - apply sync_keeps; [intros source' t' l0 data l' result; apply import_remembers|by intros ? ? []|done].
Qed.

(** A prefix is kept along a sequence of operations. *)
Lemma foldl_run (P : Ledger -> Prop) (HP : forall l o, P l -> P (run l o)) ops l : P l -> P (foldl run l ops).
Proof. revert l. induction ops as [|o ops IH]; intros l Hl; [done|]. apply IH, HP, Hl. Qed.

(** C5. Whatever is audited, compared, observed, imported and scanned, in
    whatever order and with whatever failures: the tables that the triggers
    keep are what their views say of all rows, and every line of a statement
    belongs to a remembered import, of which none is missing a line.  It starts
    from an old database, once it is backfilled. *)
Theorem tables_maintained l d ops : sources_ok d -> db l = backfill d ->
  Z.of_nat (size (supplier_statement_lines d)) = import_total (statement_imports l) -> consistent (foldl run l ops).
Proof.
  intros Hd Hb Ha. apply foldl_run; [apply run_consistent|]. split; rewrite Hb; [by apply backfill_fresh|exact Ha].
Qed.

(** C9. The lines of a file are counted once: after an import was accepted,
    now or before any sequence of operations, the same content adds nothing
    again, under whatever path and after whatever restart; and if its path then
    holds other contents, they are refused. *)
Theorem imported_once l source p t ok n l1 ops : ImportStatementFile source (Some p) t ok l = (l1, inl n) ->
  let l2 := foldl run l1 ops in
  (forall source' p' t' ok', digest p' = digest p -> db (ImportStatementFile source' (Some p') t' ok' l2).1 = db l2) /\
  (forall p' t' ok', source <> "" -> digest p' <> digest p -> exists e, ImportStatementFile source (Some p') t' ok' l2 = (l2, inr e)).
Proof.
  intros E. assert (Hm : remembered source (digest p) (foldl run l1 ops)).
  { apply foldl_run; [apply run_remembers|]. pose proof (import_cases source (Some p) t ok l) as H. rewrite E in H.
    assert (Hk : forall x, source <> "" -> known_source source (remember source (digest p) x) = Some (digest p)).
    { intros x Hs. apply String.eqb_neq in Hs. unfold known_source, remember. rewrite Hs. cbn. by rewrite lookup_insert_eq. }
    inversion H as [|p' l' Hp Hi Hl|p' n' d Hp Hi Hn Hc]; subst; (split; [|intros Hs]).
    - destruct Hl as [[_ ->]|[_ ->]]; [done|]. by rewrite (proj2 (remember_keeps _ _ _)).
    - destruct Hl as [[Hl ->]|[_ ->]]; [done|by apply Hk].
    - rewrite (proj2 (remember_keeps _ _ _)). cbn. rewrite lookup_insert_eq. done.
    - by apply Hk. }
  intros l2. fold l2 in Hm. clearbody l2. destruct Hm as [H1 H2]. split.
  - intros source' p' t' ok' Hd. pose proof (import_cases source' (Some p') t' ok' l2) as H. destruct (ImportStatementFile source' (Some p') t' ok' l2) as [l3 r].
    inversion H as [|p'' l' Hp Hi Hl|p'' n' d Hp Hi Hn Hc]; subst; cbn [fst]; [done| |].
    + destruct Hl as [[_ ->]|[_ ->]]; [done|]. by rewrite (proj1 (remember_keeps _ _ _)).
    + rewrite Hd in Hi. rewrite Hi in H1. by destruct H1.
  - intros p' t' ok' Hs Hd. pose proof (import_cases source (Some p') t' ok' l2) as H. destruct (ImportStatementFile source (Some p') t' ok' l2) as [l3 r].
    specialize (H2 Hs). inversion H as [|p'' l' Hp Hi Hl|p'' n' d Hp Hi Hn Hc]; subst; [by eexists| |congruence].
    destruct Hl as [[Hl _]|[Hl _]]; congruence.
Qed.
End import.

(** ** At concrete inputs *)

Section demo.
#[local] Abbreviation import := (ImportStatementFile (fun _ => None) FloatText.ParseFloat string_of_bytes).
#[local] Abbreviation step := (run (fun _ => None) FloatText.ParseFloat string_of_bytes).

Definition demo_file : list byte :=
  bytes_of_string "period_start,period_end,currency,amount,request_id,model" ++ [10] ++
  bytes_of_string "0,1000,USD,1.5,r1,m" ++ [10] ++ bytes_of_string "1000,2000,USD,0.25,r2," ++ [10].
Definition demo_changed : list byte := demo_file ++ bytes_of_string "2000,3000,USD,2,r3,m" ++ [10].
Definition demo_audit (id : string) (at_ : Z) : Audit :=
  {| ID := id; TimestampMS := at_; Protocol := "openai"; Upstream := "p"; Model := "m"; Status := "ok"; InputTokens := Some 10; OutputTokens := Some 5;
     CacheReadTokens := None; CacheWriteTokens := None; EstimatedCost := Some (Float.of_Z 1); Currency := "USD" |}.
Definition demo_new : Ledger :=
  {| db := empty_database; auditUnavailable := false; statement_imports := ∅; statement_import_sources := ∅; statement_sync := None |}.
Definition demo_ops : list operation :=
  [OpAudit (demo_audit "r1" 500) true; OpImport "/s/a.csv" (Some demo_file) 7 true; OpAudit (demo_audit "r2" 1500) true].
Definition demo_ledger : Ledger := foldl step demo_new demo_ops.
Definition demo_stats : data := default ∅ (ReconciliationStats (db demo_ledger) 0 0).
Definition demo_usd : Reconciliation := default new_Reconciliation (demo_stats !! "USD").

Lemma empty_sources : sources_ok empty_database.
Proof. split; [intros n [? H]|intros n [? H]|intros n1 n2 b1 b2 H]; cbn in H; by rewrite lookup_empty in H. Qed.
Lemma demo_fresh : fresh (db demo_ledger).
Proof.
  apply tables_fresh, (foldl_run (fun _ => None) FloatText.ParseFloat string_of_bytes consistent); [apply run_consistent|]. split; [|done].
  exact (backfill_fresh empty_database empty_sources).
Qed.

Lemma complete_statement_witness : Coverage demo_usd = "complete" /\
  exists supplier local, MatchedDifference demo_usd = Some (supplier, local) /\ supplier ≡ₚ SupplierStatement demo_usd.
Proof.
  assert (Hc : Coverage demo_usd = "complete") by (vm_compute; reflexivity). split; [exact Hc|].
  destruct (complete_statement (db demo_ledger) 0 0 demo_stats "USD" demo_usd demo_fresh) as (_ & _ & _ & _ & _ & supplier & local & H1 & H2 & _);
    [vm_compute; reflexivity|vm_compute; reflexivity|exact Hc|exists supplier, local; split; [exact H1|exact H2]].
Defined.

Lemma tables_maintained_witness : size (supplier_statement_lines (db demo_ledger)) = 2%nat /\ consistent demo_ledger.
Proof.
  split; [vm_compute; reflexivity|]. apply (tables_maintained (fun _ => None) FloatText.ParseFloat string_of_bytes demo_new empty_database demo_ops);
    [exact empty_sources|reflexivity|reflexivity].
Defined.

Lemma import_all_or_nothing_witness : exists ls, file_lines (fun _ => None) FloatText.ParseFloat demo_file 7 ls /\ length ls = 2%nat.
Proof.
  pose proof (import_all_or_nothing (fun _ => None) FloatText.ParseFloat string_of_bytes "/s/a.csv" (Some demo_file) 7 true demo_new
    (import "/s/a.csv" (Some demo_file) 7 true demo_new).1 (inl 2)) as H.
  destruct H as (p & [= <-] & _ & H); [vm_compute; reflexivity|]. rewrite decide_False in H by (vm_compute; by intros []).
  destruct H as (ls & H1 & H2 & _). exists ls. split; [exact H1|lia].
Defined.

Lemma imported_once_witness : let l := foldl step (import "/s/a.csv" (Some demo_file) 7 true demo_new).1 [OpAudit (demo_audit "r3" 9) true] in
  db (import "/s/b.csv" (Some demo_file) 8 true l).1 = db l /\ exists e, import "/s/a.csv" (Some demo_changed) 8 true l = (l, inr e).
Proof.
  destruct (imported_once (fun _ => None) FloatText.ParseFloat string_of_bytes demo_new "/s/a.csv" demo_file 7 true 2
    (import "/s/a.csv" (Some demo_file) 7 true demo_new).1 [OpAudit (demo_audit "r3" 9) true]) as [H1 H2]; [vm_compute; reflexivity|].
  split; [apply H1; reflexivity|apply H2; [discriminate|vm_compute; discriminate]].
Defined.

Lemma demo_texts : source_texts_ok (db demo_ledger).
Proof.
  assert (Ha : map_Forall (fun id a => cell_ok id /\ cell_ok (default "" (audit_currency a)) /\ cell_ok (audit_model a)) (request_audit (db demo_ledger)))
    by (apply map_Forall_to_list; vm_compute; repeat constructor).
  assert (Hl : map_Forall (fun _ l => cell_ok (default "" (line_request l)) /\ cell_ok (line_currency l) /\ cell_ok (line_model l))
    (supplier_statement_lines (db demo_ledger))) by (apply map_Forall_to_list; vm_compute; repeat constructor).
  split; [exact Ha|exact Hl].
Qed.

Definition demo_bill : list byte := default [] (ExportBillingCSV (db demo_ledger) 0 0).

Lemma export_reads_back_witness : ExportBillingCSV (db demo_ledger) 0 0 = Some demo_bill /\
  exists requests charges : list (list string), reads (CSV.NewReader demo_bill) (export_header :: requests ++ charges) /\ requests <> [] /\ charges <> [].
Proof.
  assert (Hp : ExportBillingCSV (db demo_ledger) 0 0 = Some demo_bill) by reflexivity. split; [exact Hp|].
  destruct (export_reads_back (db demo_ledger) 0 0 demo_bill demo_fresh demo_texts Hp) as (rs & cs & H1 & _ & _ & H2 & _ & _ & H3).
  exists (request_record <$> rs), (statement_record 0 0 <$> cs). split; [exact H1|split].
  - intros E%fmap_nil_inv. specialize (H2 "r1" (default (request_source (db demo_ledger) "" (audit_columns (demo_audit "" 0)))
      (reconciliation_requests (db demo_ledger) !! "r1"))). rewrite E in H2. eapply not_elem_of_nil, H2. split; vm_compute; reflexivity.
  - intros E%fmap_nil_inv. pose proof (fun m => proj2 (H3 1 m)) as H. rewrite E in H. eapply not_elem_of_nil, H.
    exists (default {| line_start := 0; line_end := 0; line_currency := ""; line_amount := S754_nan; line_request := None; line_model := ""; line_imported := 0 |}
      (supplier_statement_lines (db demo_ledger) !! 1)). split; [vm_compute; reflexivity|split; [reflexivity|vm_compute; reflexivity]].
Defined.
End demo.
