(* ===== verification/Content.v ===== *)
(** * The content log: internal/contentlog/content.go

    An optional, bounded log of what clients send and receive.  Every request
    has a capture, which cuts the bytes into events; a queue of limited length
    hands them to one writer, which appends them to files.  What is lost is
    marked: a terminal event says [complete] only when nothing was.  Base64,
    the clock, the names of new files and the results of the file system are
    modelled as far as the code uses them; SHA-256 is an argument. *)

From S2P Require Import Prelude GoStrings GoFloat Json.
From S2P Require Config.

#[local] Existing Instance Config.ContentConfig_eq.

#[local] Abbreviation text := (list byte).

(** ** Events *)

Definition ChunkBytes : nat := 8 * 1024.
Definition MaxEventBytes : Z := Config.MaxEventBytes.

Record Metadata := {
  RequestID : string;
  SessionID : string;
  Protocol : string;
  ProviderProtocol : string;
  Provider : string;
  Model : string;
}.

Record Event := {
  metadata : Metadata;
  EventID : string;
  Timestamp : string;
  event : string;
  Seq : Z;
  Direction : string;
  Offset : Z;
  Data : text;
  Outcome : string;
  Complete : option bool;
  InputBytes : Z;
  OutputBytes : Z;
  InputSHA256 : string;
  OutputSHA256 : string;
}.
#[export] Instance Event_eta : Eta Event := fun e =>
  {| metadata := metadata e; EventID := EventID e; Timestamp := Timestamp e; event := event e; Seq := Seq e; Direction := Direction e;
     Offset := Offset e; Data := Data e; Outcome := Outcome e; Complete := Complete e; InputBytes := InputBytes e; OutputBytes := OutputBytes e;
     InputSHA256 := InputSHA256 e; OutputSHA256 := OutputSHA256 e |}.

(** [base64.StdEncoding]. *)
Definition base64_digit (n : Z) : byte :=
  if n <? 26 then 65 + n else if n <? 52 then 71 + n else if n <? 62 then n - 4 else if n =? 62 then 43 else 47.
Fixpoint base64 (l : text) : text :=
  match l with
  | a :: b :: c :: l =>
      [base64_digit (a / 4); base64_digit (a mod 4 * 16 + b / 16); base64_digit (b mod 16 * 4 + c / 64); base64_digit (c mod 64)] ++ base64 l
  | [a; b] => [base64_digit (a / 4); base64_digit (a mod 4 * 16 + b / 16); base64_digit (b mod 16 * 4); 61]
  | [a] => [base64_digit (a / 4); base64_digit (a mod 4 * 16); 61; 61]
  | [] => []
  end.

(** The fields of an event after [omitempty]; [data] and [text] are the same
    bytes. *)
Definition text_member (k s : string) : list (string * value) := if String.eqb s "" then [] else [(k, VStr s)].
Definition int_member (k : string) (n : Z) : list (string * value) := if n =? 0 then [] else [(k, VInt n)].
Definition event_value (e : Event) : value :=
  let m := metadata e in
  VStruct ([("requestId", VStr (RequestID m))] ++ text_member "sessionId" (SessionID m) ++
    [("protocol", VStr (Protocol m)); ("provider_protocol", VStr (ProviderProtocol m)); ("provider_ref", VStr (Provider m)); ("model", VStr (Model m));
     ("schema_version", VInt 1); ("event_id", VStr (EventID e)); ("timestamp", VStr (Timestamp e)); ("event", VStr (event e));
     ("view", VStr "client"); ("seq", VInt (Seq e))] ++
    text_member "direction" (Direction e) ++ int_member "offset" (Offset e) ++
    text_member "data" (string_of_bytes (base64 (Data e))) ++ text_member "text" (string_of_bytes (Data e)) ++
    text_member "outcome" (Outcome e) ++ match Complete e with Some b => [("complete", VBool b)] | None => [] end ++
    int_member "input_bytes" (InputBytes e) ++ int_member "output_bytes" (OutputBytes e) ++
    text_member "input_sha256" (InputSHA256 e) ++ text_member "output_sha256" (OutputSHA256 e)).
Definition line (e : Event) : text := encode (event_value e) ++ [10].

(** ** The log *)

(** [event_of] is what [data] encodes; the code keeps it of a terminal event. *)
Record packet := {
  data : text;
  gap_of : nat;                 (** the capture that has the gap flag *)
  terminal : option Event;
  event_of : Event;
}.
Definition new_packet (e : Event) (capture : nat) : packet :=
  {| data := line e; gap_of := capture; terminal := match Complete e with Some _ => Some e | None => None end; event_of := e |}.

Record Log := {
  config : Config.ContentConfig;
  queue : list packet;
  writing : option packet;      (** what the writer has taken *)
  closed : bool;
  file : option string;
  size : Z;
  used : Z;
  dropped : Z;
  failures : Z;
  written : Z;
  warning : Z;
}.
#[export] Instance Log_eta : Eta Log := fun l =>
  {| config := config l; queue := queue l; writing := writing l; closed := closed l; file := file l; size := size l; used := used l;
     dropped := dropped l; failures := failures l; written := written l; warning := warning l |}.

Definition Status (l : option Log) : list (string * Z) :=
  match l with
  | None => []
  | Some l => [("written_events", written l); ("dropped_events", dropped l); ("write_failures", failures l); ("queued_events", Z.of_nat (length (queue l)))]
  end.
(** [Close]; the writer still empties the queue. *)
Definition Close (l : Log) : Log := l <| closed := true |>.

(** [warn]: the counters, at most once a minute. *)
Definition warn (now : Z) (l : Log) : Log * option (Z * Z) :=
  if 60 <=? now - warning l then (l <| warning := now |>, Some (dropped l, failures l)) else (l, None).

(** [enqueue] never waits. *)
Definition enqueue (e : Event) (capture : nat) (l : Log) : Log * bool :=
  if MaxEventBytes <? Z.of_nat (length (line e)) then (l <| dropped := dropped l + 1 |>, false)
  else if negb (closed l) && (Z.of_nat (length (queue l)) <? Config.QueueEvents (config l)) then
    (l <| queue := queue l ++ [new_packet e capture] |>, true)
  else (l <| dropped := dropped l + 1 |>, false).

(** ** The files *)

Abbreviation disk := (gmap string (list byte)).

Definition TrimSuffix (s suffix : string) : string :=
  if Strings.HasSuffix s suffix then String.substring 0 (String.length s - String.length suffix) s else s.
Definition sealed_name (name : string) : string := TrimSuffix name ".active" +:+ ".jsonl".
Definition contentFile (name : string) : bool :=
  Strings.HasPrefix name "content-" && (Strings.HasSuffix name ".active" || Strings.HasSuffix name ".jsonl").
Definition disk_total (d : disk) : Z := map_fold (fun name c n => (if contentFile name then Z.of_nat (length c) else 0) + n) 0 d.
Definition maxDirectoryEntries : Z := 4096.
Definition too_many (d : disk) : bool := maxDirectoryEntries <=? Z.of_nat (length (map_to_list d)).

(** What the file system answers to one packet or tick. *)
Record answers := {
  sync_ok : bool;
  close_ok : bool;
  rename_ok : bool;
  scan_ok : bool;
  created : option string;
  written_bytes : nat;
  write_ok : bool;
}.

Definition seal (o : answers) (l : Log) (d : disk) : Log * disk * bool :=
  match file l with
  | None => (l, d, true)
  | Some name =>
      let l := l <| file := None |> <| size := 0 |> in
      if negb (sync_ok o) || negb (close_ok o) then (l, d, false)
      else match d !! name with
      | Some c => if rename_ok o then (l, <[sealed_name name := c]> (delete name d), true) else (l, d, false)
      | None => (l, d, false)
      end
  end.

(** [scan(false)]: the size of the content files; fails on an unsafe file, an
    error or too many entries. *)
Definition scan (o : answers) (l : Log) (d : disk) : option Log := if scan_ok o && negb (too_many d) then Some (l <| used := disk_total d |>) else None.

(** The write of the data itself, to the open file. *)
Definition append (o : answers) (line : text) (name : string) (l : Log) (d : disk) : Log * disk * bool :=
  let n := Nat.min (written_bytes o) (length line) in
  let l := l <| size := size l + Z.of_nat n |> <| used := used l + Z.of_nat n |> in
  let d := alter (fun c => c ++ take n line) name d in
  if negb (write_ok o) || negb (n =? length line)%nat then (l <| file := None |> <| size := 0 |>, d, false) else (l, d, true).

Definition write (o : answers) (line : text) (l : Log) (d : disk) : Log * disk * bool :=
  let len := Z.of_nat (length line) in
  let '(l, d, sealed) := if bool_decide (is_Some (file l)) && (Config.FileBytes (config l) <? size l + len) then seal o l d else (l, d, true) in
  if negb sealed then (l, d, false)
  else match (if bool_decide (file l = None) || (Config.DirectoryBytes (config l) <? used l + len) then scan o l d else Some l) with
  | None => (l, d, false)
  | Some l =>
      if Config.DirectoryBytes (config l) <? used l + len then (l, d, false)
      else match file l with
      | Some name => append o line name l d
      | None => match created o with Some name => append o line name (l <| file := Some name |>) (<[name := []]> d) | None => (l, d, false) end
      end
  end.

(** [Open] of a directory: the files that were left active are handed off as
    interrupted. *)
Definition interrupted_name (name : string) : string := TrimSuffix name ".active" +:+ ".interrupted.jsonl".
Definition recover_file (name : string) (d : option disk) : option disk :=
  d ← d; c ← d !! name;
  match d !! interrupted_name name with Some _ => None | None => Some (<[interrupted_name name := c]> (delete name d)) end.
Definition recover (d : disk) : option disk :=
  foldr recover_file (Some d) (List.filter (fun name => contentFile name && Strings.HasSuffix name ".active") (map_to_list d).*1).
Definition Open (c : Config.ContentConfig) (accessible : bool) (d : disk) : option (option Log * disk) :=
  if bool_decide (c = Config.no_content) then Some (None, d)
  else match Config.ContentConfig_Validate c with
  | Some _ => None
  | None =>
      if negb accessible || too_many d then None
      else
        d' ← recover d;
        Some (Some {| config := Config.ContentConfig_Effective c; queue := []; writing := None; closed := false; file := None; size := 0;
          used := disk_total d; dropped := 0; failures := 0; written := 0; warning := 0 |}, d')
  end.

(** ** Captures *)

(** What the handler is at: cutting [data] into chunks, or about to emit the
    terminal event. *)
Inductive work := Chunks (direction : string) (data : text) | End (outcome : string) (complete : bool).

Record Capture := {
  cap_metadata : Metadata;
  cap_seq : Z;
  cap_input : text;            (** what the hash of the input has taken *)
  cap_output : text;
  inputBytes : Z;
  outputBytes : Z;
  gap : bool;
  todo : work;
}.
#[export] Instance Capture_eta : Eta Capture := fun c =>
  {| cap_metadata := cap_metadata c; cap_seq := cap_seq c; cap_input := cap_input c; cap_output := cap_output c; inputBytes := inputBytes c;
     outputBytes := outputBytes c; gap := gap c; todo := todo c |}.

Definition Start (m : Metadata) (input : text) : Capture :=
  {| cap_metadata := m; cap_seq := 0; cap_input := []; cap_output := []; inputBytes := 0; outputBytes := 0; gap := false; todo := Chunks "input" input |}.

(** [Write] and [Finish], which reads the flag before the event is made. *)
Definition Capture_Write (data : text) (c : Capture) : Capture := c <| todo := Chunks "output" data |>.
Definition finish_complete (outcome : string) (complete : bool) (c : Capture) : bool := complete && negb (gap c) && String.eqb outcome "success".
Definition Capture_Finish (outcome : string) (complete : bool) (c : Capture) : Capture := c <| todo := End outcome (finish_complete outcome complete c) |>.

(** [emit]: the event with its identity, and the gap when it is not taken. *)
Definition identify (c : Capture) (timestamp : string) (e : Event) : Event :=
  e <| metadata := cap_metadata c |> <| Seq := cap_seq c |> <| EventID := RequestID (cap_metadata c) +:+ ":" +:+ Decimal.of_Z (cap_seq c) |>
    <| Timestamp := timestamp |>.
Definition emit (id : nat) (timestamp : string) (e : Event) (c : Capture) (l : Log) : Capture * Log :=
  let (l, taken) := enqueue (identify c timestamp e) id l in
  (c <| cap_seq := cap_seq c + 1 |> <| gap := gap c || negb taken |>, l).

Definition no_metadata : Metadata := {| RequestID := ""; SessionID := ""; Protocol := ""; ProviderProtocol := ""; Provider := ""; Model := "" |}.
Definition new_Event (name : string) : Event :=
  {| metadata := no_metadata; EventID := ""; Timestamp := ""; event := name; Seq := 0; Direction := ""; Offset := 0; Data := []; Outcome := "";
     Complete := None; InputBytes := 0; OutputBytes := 0; InputSHA256 := ""; OutputSHA256 := "" |}.

Definition counted (direction : string) (c : Capture) : Z := if String.eqb direction "output" then outputBytes c else inputBytes c.
Definition hash_more (direction : string) (part : text) (c : Capture) : Capture :=
  if String.eqb direction "output" then c <| cap_output := cap_output c ++ part |> else c <| cap_input := cap_input c ++ part |>.
Definition count_more (direction : string) (n : Z) (c : Capture) : Capture :=
  if String.eqb direction "output" then c <| outputBytes := outputBytes c + n |> else c <| inputBytes := inputBytes c + n |>.
Definition chunk_event (direction : string) (offset : Z) (part : text) : Event :=
  (new_Event "content_chunk") <| Direction := direction |> <| Offset := offset |> <| Data := part |>.

(** One turn of the loop of [chunks]. *)
Definition chunk (id : nat) (timestamp direction : string) (rest : text) (c : Capture) (l : Log) : Capture * Log :=
  let part := take ChunkBytes rest in
  let c := hash_more direction part c in
  let (c, l) := emit id timestamp (chunk_event direction (counted direction c) part) c l in
  (count_more direction (Z.of_nat (length part)) c <| todo := Chunks direction (drop ChunkBytes rest) |>, l).

Section digest.
(** [hex.EncodeToString] of SHA-256. *)
Context (digest : text -> string).

Definition end_event (outcome : string) (complete : bool) (c : Capture) : Event :=
  (new_Event "content_end") <| Outcome := outcome |> <| Complete := Some complete |> <| InputBytes := inputBytes c |> <| OutputBytes := outputBytes c |>
    <| InputSHA256 := digest (cap_input c) |> <| OutputSHA256 := digest (cap_output c) |>.

(** The end of [Finish]. *)
Definition finish (id : nat) (timestamp outcome : string) (complete : bool) (c : Capture) (l : Log) : Capture * Log :=
  let (c', l) := emit id timestamp (end_event outcome complete c) c l in (c' <| todo := Chunks "output" [] |>, l).
End digest.

(** ** The writer *)

(** What is written of a packet: a terminal event takes back its claim when the
    capture has a gap by now. *)
Definition final_data (gap : bool) (p : packet) : text :=
  match terminal p with Some e => if gap then line (e <| Complete := Some false |>) else data p | None => data p end.

Definition warn_if (b : bool) (now : Z) (l : Log) : Log := if b then (warn now l).1 else l.

(** One packet; the result says whether it was written. *)
Definition process (o : answers) (now : Z) (gap : bool) (p : packet) (l : Log) (d : disk) : Log * disk * bool :=
  let '(l, d, ok) := write o (final_data gap p) (l <| writing := None |>) d in
  let l := if ok then l <| written := written l + 1 |> else (warn now (l <| failures := failures l + 1 |>)).1 in
  (warn_if (0 <? dropped l) now l, d, ok).

Definition tick (o : answers) (now : Z) (l : Log) (d : disk) : Log * disk :=
  let '(l, d, ok) := seal o l d in
  let l := if ok then l else (warn now (l <| failures := failures l + 1 |>)).1 in
  (warn_if (0 <? dropped l) now l, d).

Definition last_seal (o : answers) (now : Z) (l : Log) (d : disk) : Log * disk :=
  let '(l, d, ok) := seal o l d in
  (if ok then l else (warn now (l <| failures := failures l + 1 |>)).1, d).
