(* ===== verification/ContentFacts.v ===== *)
(** * The content log: properties

    Handlers, the writer, its ticks, the shutdown and the collectors that
    remove files interleave in any order. *)

From S2P Require Import Prelude GoStrings GoFloat Json Content.
From S2P Require Config Utf8Facts.

#[local] Abbreviation text := (list byte).

(** ** The length of lines *)

(** What a field takes, with its colon and the comma or brace after it. *)
Definition weight (kv : string * value) : nat := length (encode_string kv.1) + length (encode kv.2) + 2.
Definition weights (l : list (string * value)) : nat := sum_list_with weight l.

Lemma encode_struct l : l <> [] -> length (encode (VStruct l)) = S (weights l).
Proof.
  destruct l as [|kv l]; [done|]. intros _. cbn [encode]. unfold encode_members, weights. cbn [fmap list_fmap join_bytes length sum_list_with].
  rewrite !length_app. cbn [length fst snd]. unfold weight at 1.
  assert (H : length (concat ((fun y => 44 :: y) <$> ((fun kv => encode_string kv.1 ++ 58 :: kv.2) <$> ((fun kv => (kv.1, encode kv.2)) <$> l)))) = sum_list_with weight l).
  { induction l as [|kv' l IH]; [done|]. cbn [fmap list_fmap concat length sum_list_with app] in *. rewrite !length_app. cbn [length fst snd].
    rewrite IH. unfold weight. lia. }
  unfold fmap in *. rewrite H. lia.
Qed.

Lemma weights_app l l' : weights (l ++ l') = (weights l + weights l')%nat.
Proof. apply sum_list_with_app. Qed.

(** An event but for its claim, and but for its data. *)
Definition before_claim (e : Event) : list (string * value) := let m := metadata e in
  [("requestId", VStr (RequestID m))] ++ text_member "sessionId" (SessionID m) ++
    [("protocol", VStr (Protocol m)); ("provider_protocol", VStr (ProviderProtocol m)); ("provider_ref", VStr (Provider m)); ("model", VStr (Model m));
     ("schema_version", VInt 1); ("event_id", VStr (EventID e)); ("timestamp", VStr (Timestamp e)); ("event", VStr (event e));
     ("view", VStr "client"); ("seq", VInt (Seq e))] ++ text_member "direction" (Direction e) ++ int_member "offset" (Offset e).
Definition data_members (d : text) : list (string * value) := text_member "data" (string_of_bytes (base64 d)) ++ text_member "text" (string_of_bytes d).
Definition claim_members (e : Event) : list (string * value) := match Complete e with Some b => [("complete", VBool b)] | None => [] end.
Definition after_claim (e : Event) : list (string * value) :=
  int_member "input_bytes" (InputBytes e) ++ int_member "output_bytes" (OutputBytes e) ++
    text_member "input_sha256" (InputSHA256 e) ++ text_member "output_sha256" (OutputSHA256 e).

Lemma line_length e : length (line e) =
  (2 + weights (before_claim e) + weights (data_members (Data e)) + weights (text_member "outcome" (Outcome e)) + weights (claim_members e) + weights (after_claim e))%nat.
Proof.
  unfold line. rewrite length_app. unfold event_value.
  replace (_ ++ _) with (before_claim e ++ data_members (Data e) ++ text_member "outcome" (Outcome e) ++ claim_members e ++ after_claim e).
  - rewrite encode_struct by done. rewrite !weights_app. cbn [length]. lia.
  - unfold before_claim, data_members, claim_members, after_claim. rewrite <-!app_assoc. done.
Qed.

Lemma claim_back e : is_Some (Complete e) -> (length (line (e <| Complete := Some false |>)) <= S (length (line e)))%nat.
Proof.
  intros [b Hb]. rewrite !line_length. unfold claim_members at 2. rewrite Hb. set (e' := e <| Complete := Some false |>).
  change (before_claim e') with (before_claim e). change (after_claim e') with (after_claim e). change (Data e') with (Data e). change (Outcome e') with (Outcome e).
  assert (H : (weights (claim_members e') <= S (weights [("complete", VBool b)]))%nat) by (destruct b; vm_compute; lia). lia.
Qed.

(** Whatever its bytes are, a chunk leaves room for the rest of its event. *)
Lemma escape_length r bytes : (1 <= length bytes)%nat -> (length (escape_rune r bytes) <= 6 * length bytes)%nat.
Proof. intros H. unfold escape_rune, unicode_u. repeat match goal with |- context [if ?b then _ else _] => destruct b end; cbn [length]; lia. Qed.

Lemma runes_nonempty fuel p : Forall (fun rb => (1 <= length rb.2)%nat) (Utf8.runes_fuel fuel p).
Proof.
  revert p. induction fuel as [|fuel IH]; intros [|b p]; try constructor. cbn [Utf8.runes_fuel].
  pose proof (Utf8.DecodeRune_width (b :: p) ltac:(done)) as Hw. destruct (Utf8.DecodeRune (b :: p)) as [r size]. cbn [snd] in Hw.
  constructor; [|apply IH]. cbn [snd]. rewrite length_take. lia.
Qed.

Lemma string_length s : (length (encode_string s) <= 6 * length (bytes_of_string s) + 2)%nat.
Proof.
  unfold encode_string. cbn [length]. rewrite length_app. cbn [length]. rewrite <-(Utf8.runes_concat (bytes_of_string s)) at 2.
  pose proof (runes_nonempty (length (bytes_of_string s)) (bytes_of_string s)) as H. fold (Utf8.runes (bytes_of_string s)) in H.
  induction H as [|[r bytes] l Hb _ IH]; [done|]. cbn [fmap list_fmap concat fst snd]. rewrite !length_app. pose proof (escape_length r bytes Hb).
  unfold fmap in *. cbn [snd] in *. lia.
Qed.

Definition plain (b : byte) : Prop := 32 <= b < 128 /\ b <> 34 /\ b <> 92 /\ b <> 60 /\ b <> 62 /\ b <> 38.
Lemma plain_runes fuel l : Forall plain l -> (length (concat ((fun rb => escape_rune rb.1 rb.2) <$> Utf8.runes_fuel fuel l)) <= length l)%nat.
Proof.
  intros Hl. revert fuel. induction Hl as [|b l Hb Hl IH]; intros [|fuel]; cbn [Utf8.runes_fuel fmap list_fmap concat length]; try lia.
  destruct Hb as (Hr & Hne). unfold Utf8.DecodeRune at 1. rewrite (proj2 (Z.ltb_lt b 128)) by lia. cbn [fmap list_fmap concat fst snd take drop]. rewrite length_app.
  assert (E : length (escape_rune b [b]) = 1%nat) by (unfold escape_rune, Utf8.RuneError; repeat case_match; try done; exfalso; lia).
  rewrite take_0, drop_0, E. specialize (IH fuel). unfold fmap in *. lia.
Qed.

Lemma base64_digit_plain n : 0 <= n < 64 -> plain (base64_digit n).
Proof. intros Hn. unfold base64_digit. repeat case_match; unfold plain; lia. Qed.

Lemma equals_plain : plain 61.
Proof. unfold plain. lia. Qed.
#[local] Ltac digits := repeat apply List.Forall_cons; try exact (List.Forall_nil _); try exact equals_plain; apply base64_digit_plain; Z.div_mod_to_equations; lia.
Lemma base64_spec l : Utf8Facts.is_bytes l -> Forall plain (base64 l) /\ (3 * length (base64 l) <= 4 * length l + 8)%nat.
Proof.
  assert (H : forall n, (length l <= n)%nat -> Utf8Facts.is_bytes l -> Forall plain (base64 l) /\ (3 * length (base64 l) <= 4 * length l + 8)%nat); [|by apply (H (length l))].
  intros n. revert l. induction n as [|n IH]; intros l Hlen Hl; [destruct l; cbn in *; [split; [constructor|lia]|lia]|].
  destruct l as [|a [|b [|c l]]]; [cbn; split; [constructor|lia]|..].
  - apply Forall_inv in Hl as Ha. split; [|cbn; lia]. digits.
  - apply Forall_cons in Hl as [Ha Hl]. apply Forall_inv in Hl as Hb. split; [|cbn; lia]. digits.
  - apply Forall_cons in Hl as [Ha Hl]. apply Forall_cons in Hl as [Hb Hl]. apply Forall_cons in Hl as [Hc Hl]. destruct (IH l) as [H1 H2]; [cbn in Hlen; lia|done|].
    cbn [base64]. rewrite length_app. split; [|cbn [length] in *; lia]. apply Forall_app. split; [|done].
    digits.
Qed.

Lemma data_weights d : Utf8Facts.is_bytes d -> (length d <= ChunkBytes)%nat -> Z.of_nat (weights (data_members d)) <= 60100.
Proof.
  intros Hd Hlen. destruct (base64_spec d Hd) as [Hp Hb]. unfold data_members. rewrite weights_app.
  assert (H1 : (weights (text_member "data" (string_of_bytes (base64 d))) <= length (base64 d) + 10)%nat).
  { unfold text_member. destruct (String.eqb _ _); [cbn; lia|]. unfold weights, weight. cbn [sum_list_with fst snd encode].
    replace (length (encode_string "data")) with 6%nat by (vm_compute; reflexivity). unfold encode_string. cbn [length]. rewrite length_app.
    rewrite bytes_of_string_of_bytes by (eapply Forall_impl; [exact Hp|]; unfold plain; intros; lia). pose proof (plain_runes (length (base64 d)) _ Hp). unfold Utf8.runes. cbn [length]. lia. }
  assert (H2 : (weights (text_member "text" (string_of_bytes d)) <= 6 * length d + 10)%nat).
  { unfold text_member. destruct (String.eqb _ _); [cbn; lia|]. unfold weights, weight. cbn [sum_list_with fst snd encode].
    replace (length (encode_string "text")) with 6%nat by (vm_compute; reflexivity). pose proof (string_length (string_of_bytes d)) as H.
    rewrite bytes_of_string_of_bytes in H by done. lia. }
  unfold ChunkBytes in Hlen. lia.
Qed.

Lemma event_fits e : Utf8Facts.is_bytes (Data e) -> (length (Data e) <= ChunkBytes)%nat ->
  Z.of_nat (length (line (e <| Data := [] |>))) <= 5 * 1024 -> Z.of_nat (length (line e)) <= MaxEventBytes.
Proof.
  intros Hd Hlen. pose proof (data_weights _ Hd Hlen). rewrite !line_length. change (Data (e <| Data := [] |>)) with (@nil byte).
  change (before_claim (e <| Data := [] |>)) with (before_claim e). change (after_claim (e <| Data := [] |>)) with (after_claim e).
  change (claim_members (e <| Data := [] |>)) with (claim_members e). change (Outcome (e <| Data := [] |>)) with (Outcome e). change MaxEventBytes with 65536. lia.
Qed.

(** C37. Whatever the next 8 KiB of the data are, and however they grow in base64 and as JSON text: while the
    queue has room, their chunk is queued and nothing counts as lost, provided that the rest of the event takes
    up to 5 KiB. *)
Theorem chunk_taken id timestamp direction rest c l : Utf8Facts.is_bytes rest -> closed l = false ->
  Z.of_nat (length (queue l)) < Config.QueueEvents (config l) ->
  Z.of_nat (length (line (identify c timestamp (chunk_event direction (counted direction c) [])))) <= 5 * 1024 ->
  let (c', l') := chunk id timestamp direction rest c l in gap c' = gap c /\ dropped l' = dropped l /\
  queue l' = queue l ++ [new_packet (identify c timestamp (chunk_event direction (counted direction c) (take ChunkBytes rest))) id].
Proof.
  intros Hb Hc Hq Hl. set (e := identify c timestamp (chunk_event direction (counted direction c) (take ChunkBytes rest))).
  assert (Hfit : Z.of_nat (length (line e)) <= MaxEventBytes) by (apply event_fits; [by apply Forall_take|change (length (take ChunkBytes rest) <= ChunkBytes)%nat; rewrite length_take; lia|exact Hl]).
  unfold chunk, emit. set (c1 := hash_more direction _ c). set (e' := identify c1 timestamp _).
  assert (H1 : e' = e /\ gap c1 = gap c) by (unfold e', e, c1, hash_more, counted; destruct (String.eqb direction "output"); done). destruct H1 as [-> H1].
  unfold enqueue. rewrite (proj2 (Z.ltb_ge MaxEventBytes _)) by done. rewrite Hc, (proj2 (Z.ltb_lt _ _)) by done. cbn [negb andb].
  split_and!; [|done..]. unfold count_more. destruct (String.eqb direction "output"); cbn -[ChunkBytes]; by rewrite orb_false_r.
Qed.

Section content.
Context (digest : text -> string).

(** ** The whole log as a step relation *)

(** [history] is what was written as whole lines, in order, and [made] the
    same by the file it went to. *)
Record state := {
  log : Log;
  captures : gmap nat Capture;
  files : disk;
  history : list (nat * Event);
  made : gmap string (list (nat * Event));
}.
#[export] Instance state_eta : Eta state := fun s =>
  {| log := log s; captures := captures s; files := files s; history := history s; made := made s |}.

Definition active (base : string) : string := base +:+ ".active".
Definition is_active (name : string) : Prop := exists base, name = active ("content-" +:+ base).
(** The name of a new file, the time and a random number: it is not in the
    directory, and neither it nor its sealed name has been used before. *)
Definition new_name (d : disk) (m : gmap string (list (nat * Event))) (name : string) : Prop :=
  is_active name /\ d !! name = None /\ d !! sealed_name name = None /\ m !! name = None.

Definition idle (c : Capture) : Prop := exists direction, todo c = Chunks direction [].
Definition final_event (gap : bool) (p : packet) : Event :=
  match terminal p with Some e => if gap then e <| Complete := Some false |> else e | None => event_of p end.
Definition put (s : state) (id : nat) (x : Capture * Log) : state := s <| captures := <[id := x.1]> (captures s) |> <| log := x.2 |>.
Definition remember (id : nat) (e : Event) (s : state) : state :=
  match file (log s) with
  | Some name => s <| history := history s ++ [(id, e)] |> <| made := <[name := default [] (made s !! name) ++ [(id, e)]]> (made s) |>
  | None => s
  end.

Inductive step : state -> state -> Prop :=
  | step_start s id m input : captures s !! id = None -> step s (s <| captures := <[id := Start m input]> (captures s) |>)
  | step_write s id c data : captures s !! id = Some c -> idle c -> step s (s <| captures := <[id := Capture_Write data c]> (captures s) |>)
  | step_finish s id c outcome complete : captures s !! id = Some c -> idle c ->
      step s (s <| captures := <[id := Capture_Finish outcome complete c]> (captures s) |>)
  | step_chunk s id c timestamp direction rest : captures s !! id = Some c -> todo c = Chunks direction rest -> rest <> [] ->
      step s (put s id (chunk id timestamp direction rest c (log s)))
  | step_end s id c timestamp outcome complete : captures s !! id = Some c -> todo c = End outcome complete ->
      step s (put s id (finish digest id timestamp outcome complete c (log s)))
  | step_take s p q : writing (log s) = None -> queue (log s) = p :: q ->
      step s (s <| log := (log s) <| queue := q |> <| writing := Some p |> |>)
  | step_process s p c o now l d ok : writing (log s) = Some p -> captures s !! gap_of p = Some c ->
      (forall name, created o = Some name -> new_name (files s) (made s) name) -> process o now (gap c) p (log s) (files s) = (l, d, ok) ->
      let s' := s <| log := l |> <| files := d |> in
      step s (if ok then remember (gap_of p) (final_event (gap c) p) s' else s' <| captures := <[gap_of p := c <| gap := true |>]> (captures s) |>)
  | step_tick s o now l d : writing (log s) = None -> tick o now (log s) (files s) = (l, d) -> step s (s <| log := l |> <| files := d |>)
  | step_close s : step s (s <| log := Close (log s) |>)
  | step_last s o now l d : closed (log s) = true -> writing (log s) = None -> queue (log s) = [] -> last_seal o now (log s) (files s) = (l, d) ->
      step s (s <| log := l |> <| files := d |>)
  | step_external s d : d ⊆ files s -> step s (s <| files := d |>).

Definition start_state (l : Log) (d : disk) : state := {| log := l; captures := ∅; files := d; history := []; made := ∅ |}.
Definition reachable (config : Config.ContentConfig) (d0 : disk) (s : state) : Prop :=
  exists l d, Open config true d0 = Some (Some l, d) /\ rtc step (start_state l d) s.

(** ** What the writer does not touch *)

Definition same_queue (l l' : Log) : Prop := queue l = queue l' /\ closed l = closed l' /\ config l = config l' /\ writing l = writing l'.
#[local] Instance same_queue_refl : Reflexive same_queue.
Proof. by intros l. Qed.
#[local] Instance same_queue_trans : Transitive same_queue.
Proof. intros l1 l2 l3 (?&?&?&?) (?&?&?&?). unfold same_queue. split_and!; congruence. Qed.

Lemma warn_keeps now l : same_queue (warn now l).1 l /\ file (warn now l).1 = file l /\ size (warn now l).1 = size l /\ used (warn now l).1 = used l.
Proof. unfold warn. by destruct (_ <=? _). Qed.
Lemma warn_failure now l : same_queue (warn now (l <| failures := failures l + 1 |>)).1 l.
Proof. unfold warn. by destruct (_ <=? _). Qed.
Lemma warn_if_keeps b now l : same_queue (warn_if b now l) l /\ file (warn_if b now l) = file l /\ size (warn_if b now l) = size l /\ used (warn_if b now l) = used l.
Proof. destruct b; [apply warn_keeps|done]. Qed.

Lemma seal_keeps o l d : same_queue (seal o l d).1.1 l.
Proof. unfold seal. destruct (file l) as [name|]; [|done]. destruct (_ || _); [done|]. destruct (d !! name); [|done]. by destruct (rename_ok o). Qed.

Lemma append_keeps o line name l d : same_queue (append o line name l d).1.1 l /\ ((append o line name l d).2 = true -> file (append o line name l d).1.1 = file l).
Proof. unfold append. destruct (negb (write_ok o) || _); cbn [fst snd]; (split; [split_and!; reflexivity|done]). Qed.

Lemma write_keeps o line l d : same_queue (write o line l d).1.1 l /\ ((write o line l d).2 = true -> is_Some (file (write o line l d).1.1)).
Proof.
  unfold write. set (b := bool_decide _ && _). assert (Hs : same_queue (if b then seal o l d else (l, d, true)).1.1 l) by (destruct b; [apply seal_keeps|done]).
  destruct (if b then seal o l d else (l, d, true)) as [[l1 d1] sealed]. cbn in Hs. destruct (negb sealed); [done|].
  set (b2 := bool_decide _ || _). assert (Hc : forall l2, (if b2 then scan o l1 d1 else Some l1) = Some l2 -> same_queue l2 l /\ file l2 = file l1).
  { intros l2. destruct b2; [unfold scan; destruct (scan_ok o && _); [|done]|]; intros [= <-]; done. }
  destruct (if b2 then scan o l1 d1 else Some l1) as [l2|]; [|split; [exact Hs|discriminate]]. destruct (Hc l2 eq_refl) as [H1 H2]. destruct (Config.DirectoryBytes (config l2) <? _); [split; [exact H1|discriminate]|].
  destruct (file l2) as [name|] eqn:Hf.
  - destruct (append_keeps o line name l2 d1) as [H3 H4]. split; [by etrans|]. intros Hok. rewrite H4, Hf by done. done.
  - destruct (created o) as [name|]; [|done]. destruct (append_keeps o line name (l2 <| file := Some name |>) (<[name := []]> d1)) as [H3 H4].
    split; [etrans; [exact H3|exact H1]|]. intros Hok. rewrite H4 by done. done.
Qed.

Lemma process_keeps o now gap p l d : let '(l', d', ok) := process o now gap p l d in
  same_queue l' (l <| writing := None |>) /\ (ok = true -> is_Some (file l')).
Proof.
  unfold process. destruct (write_keeps o (final_data gap p) (l <| writing := None |>) d) as [H1 H2].
  destruct (write _ _ _ _) as [[l1 d1] ok]. cbn [fst snd] in H1, H2.
  set (l2 := if ok then _ else _). assert (H3 : same_queue l2 l1 /\ file l2 = file l1).
  { unfold l2. destruct ok; [done|]. destruct (warn_keeps now (l1 <| failures := failures l1 + 1 |>)) as (H & H' & _). by split. }
  destruct (warn_if_keeps (0 <? dropped l2) now l2) as (H4 & H5 & _). split; [etrans; [exact H4|etrans; [exact (proj1 H3)|exact H1]]|].
  intros Hok. rewrite H5, (proj2 H3). by apply H2.
Qed.

Lemma tick_keeps o now l d : same_queue (tick o now l d).1 l.
Proof.
  unfold tick. pose proof (seal_keeps o l d) as Hs. destruct (seal o l d) as [[l1 d1] ok]. cbn in Hs. cbn [fst].
  set (l2 := if ok then _ else _). assert (H3 : same_queue l2 l1) by (unfold l2; destruct ok; [done|]; apply warn_failure).
  destruct (warn_if_keeps (0 <? dropped l2) now l2) as (H4 & _). etrans; [exact H4|]. by etrans.
Qed.
Lemma last_seal_keeps o now l d : same_queue (last_seal o now l d).1 l.
Proof.
  unfold last_seal. pose proof (seal_keeps o l d) as Hs. destruct (seal o l d) as [[l1 d1] ok]. cbn in Hs. cbn [fst].
  destruct ok; [done|]. etrans; [apply warn_failure|exact Hs].
Qed.

(** ** The account of a capture *)

Definition events_of (id : nat) (l : list (nat * Event)) : list Event := omap (fun x => if decide (x.1 = id) then Some x.2 else None) l.
Lemma events_of_app id l l' : events_of id (l ++ l') = events_of id l ++ events_of id l'.
Proof. apply omap_app. Qed.
Lemma events_of_other id l : (forall x, x ∈ l -> x.1 <> id) -> events_of id l = [].
Proof.
  induction l as [|x l IH]; [done|]. intros Hl. cbn. rewrite decide_False by (apply Hl; constructor). apply IH. intros y Hy. apply Hl. by constructor.
Qed.

(** The events of a capture account for the bytes [i] and [o]: numbered, with
    the offset of each chunk, and with the hashes and lengths of all bytes
    before a terminal event. *)
Inductive account (m : Metadata) : list Event -> text -> text -> Prop :=
  | account_nil : account m [] [] []
  | account_input l i o e : account m l i o -> metadata e = m -> Seq e = Z.of_nat (length l) -> Direction e = "input" -> Offset e = Z.of_nat (length i) ->
      Complete e = None -> account m (l ++ [e]) (i ++ Data e) o
  | account_output l i o e : account m l i o -> metadata e = m -> Seq e = Z.of_nat (length l) -> Direction e = "output" -> Offset e = Z.of_nat (length o) ->
      Complete e = None -> account m (l ++ [e]) i (o ++ Data e)
  | account_end l i o e : account m l i o -> metadata e = m -> Seq e = Z.of_nat (length l) -> is_Some (Complete e) ->
      InputBytes e = Z.of_nat (length i) -> OutputBytes e = Z.of_nat (length o) -> InputSHA256 e = digest i -> OutputSHA256 e = digest o ->
      account m (l ++ [e]) i o.

Lemma account_prefix m l e l' i o : account m (l ++ e :: l') i o -> exists i' o', account m (l ++ [e]) i' o'.
Proof.
  revert i o. induction l' as [|e' l' IH] using rev_ind; intros i o H; [by eauto|].
  rewrite app_comm_cons, app_assoc in H. remember ((l ++ e :: l') ++ [e']) as k eqn:Hk.
  destruct H as [|k0 i o e0 H|k0 i o e0 H|k0 i o e0 H]; [by apply (f_equal length) in Hk; rewrite !length_app in Hk; cbn in Hk; lia|..];
    apply app_inj_tail in Hk as [-> ->]; by eapply IH.
Qed.

(** What a claim of completeness says of the events before it. *)
Definition claim_holds (id : nat) (e : Event) (before : list (nat * Event)) : Prop := exists i o,
  account (metadata e) (events_of id before) i o /\ Seq e = Z.of_nat (length (events_of id before)) /\
  InputBytes e = Z.of_nat (length i) /\ OutputBytes e = Z.of_nat (length o) /\ InputSHA256 e = digest i /\ OutputSHA256 e = digest o.

Lemma account_claim m id e l i o : account m (events_of id l ++ [e]) i o -> is_Some (Complete e) -> claim_holds id e l.
Proof.
  intros H Hc. remember (events_of id l ++ [e]) as k eqn:Hk.
  destruct H as [|k0 i o e0 H ? ? ? ? HN|k0 i o e0 H ? ? ? ? HN|k0 i o e0 H Hm Hs _ H1 H2 H3 H4]; [by destruct (events_of id l)|..];
    apply app_inj_tail in Hk as [Hk ->]; [by rewrite HN in Hc; destruct Hc..|]. rewrite Hk in *. exists i, o. by rewrite Hm.
Qed.

(** ** The invariant of captures, queue and history *)

Definition sent (s : state) : list (nat * Event) :=
  history s ++ ((fun p => (gap_of p, event_of p)) <$> option_list (writing (log s)) ++ queue (log s)).
Definition counts (c : Capture) : Prop := inputBytes c = Z.of_nat (length (cap_input c)) /\ outputBytes c = Z.of_nat (length (cap_output c)) /\
  match todo c with Chunks direction _ => direction = "input" \/ direction = "output" | End _ _ => True end.
Definition told (c : Capture) (l : list Event) : Prop :=
  account (cap_metadata c) l (cap_input c) (cap_output c) /\ cap_seq c = Z.of_nat (length l).

Record sound (s : state) : Prop := {
  packets_new : forall p, p ∈ option_list (writing (log s)) ++ queue (log s) -> p = new_packet (event_of p) (gap_of p);
  captures_known : forall x, x ∈ sent s -> is_Some (captures s !! x.1);
  captures_count : forall id c, captures s !! id = Some c -> counts c;
  captures_told : forall id c, captures s !! id = Some c -> gap c = false -> told c (events_of id (sent s));
  claims_hold : forall before id e after, history s = before ++ (id, e) :: after -> Complete e = Some true -> claim_holds id e before;
}.

Lemma enqueue_spec e id l : let '(l', taken) := enqueue e id l in
  writing l' = writing l /\ queue l' = queue l ++ (if taken then [new_packet e id] else []).
Proof. unfold enqueue. destruct (_ <? _); [by rewrite app_nil_r|]. destruct (_ && _); [done|by rewrite app_nil_r]. Qed.

Lemma sent_put s id c' l' e taken : enqueue e id (log s) = (l', taken) ->
  sent (put s id (c', l')) = sent s ++ (if taken then [(id, e)] else []).
Proof.
  intros E. pose proof (enqueue_spec e id (log s)) as H. rewrite E in H. destruct H as [H1 H2].
  unfold sent. change (history (put s id (c', l'))) with (history s). change (log (put s id (c', l'))) with l'. rewrite H1, H2, !fmap_app, <-!app_assoc. by destruct taken.
Qed.

Lemma events_of_one id e : events_of id [(id, e)] = [e].
Proof. cbn. by rewrite decide_True. Qed.
Lemma events_of_skip id id' e : id' <> id -> events_of id [(id', e)] = [].
Proof. intros H. cbn. by rewrite decide_False. Qed.

Lemma sound_put s id c c' l' e taken : sound s -> captures s !! id = Some c -> enqueue e id (log s) = (l', taken) -> counts c' ->
  gap c' = gap c || negb taken -> (forall l, told c l -> told c' (l ++ [e])) -> sound (put s id (c', l')).
Proof.
  intros [Hp Hk Hc Ht Hh] Hid E Hcount Hgap Htold. pose proof (enqueue_spec e id (log s)) as H. rewrite E in H. destruct H as [H1 H2].
  pose proof (sent_put s id c' l' e taken E) as Hsent. split.
  - change (log (put s id (c', l'))) with l'. rewrite H1, H2, app_assoc. intros p [Hin|Hin]%elem_of_app; [by apply Hp|]. destruct taken; [|by apply not_elem_of_nil in Hin].
    by apply list_elem_of_singleton in Hin as ->.
  - intros x. rewrite Hsent. change (captures (put s id (c', l'))) with (<[id := c']> (captures s)). intros [Hin|Hin]%elem_of_app.
    + apply lookup_insert_is_Some'. right. by apply Hk.
    + destruct taken; [|by apply not_elem_of_nil in Hin]. apply list_elem_of_singleton in Hin as ->. cbn. by rewrite lookup_insert_eq.
  - change (captures (put s id (c', l'))) with (<[id := c']> (captures s)). intros id' x [[<- <-]|[? Hx]]%lookup_insert_Some; [done|by eapply Hc].
  - change (captures (put s id (c', l'))) with (<[id := c']> (captures s)). intros id' x Hx Hg. rewrite Hsent, events_of_app.
    apply lookup_insert_Some in Hx as [[<- <-]|[Hne Hx]].
    + rewrite Hgap in Hg. apply orb_false_iff in Hg as [Hg Htk]. apply negb_false_iff in Htk. subst taken. rewrite events_of_one. by apply Htold, Ht.
    + destruct taken; [rewrite events_of_skip by done|]; rewrite app_nil_r; by apply Ht.
  - exact Hh.
Qed.

Lemma sound_chunk s id c timestamp direction rest : sound s -> captures s !! id = Some c -> todo c = Chunks direction rest -> sound (put s id (chunk id timestamp direction rest c (log s))).
Proof.
  intros Hs Hid Htodo. pose proof (captures_count s Hs id c Hid) as (Hi & Ho & Hdir). rewrite Htodo in Hdir. unfold chunk, emit.
  set (part := take ChunkBytes rest). set (c1 := hash_more direction part c). set (e := identify c1 timestamp _).
  destruct (enqueue e id (log s)) as [l' taken] eqn:E. eapply (sound_put s id c _ l' e taken); [done..| | |].
  - destruct Hdir as [-> | ->]; unfold counts; cbn -[ChunkBytes]; rewrite length_app; (split_and!; [lia|lia|auto]).
  - by destruct Hdir as [-> | ->].
  - intros l [Hacc Hseq]. destruct Hdir as [-> | ->]; (split; [|cbn -[ChunkBytes]; rewrite length_app; cbn; lia]).
    + apply (account_input _ l (cap_input c) (cap_output c) e); done.
    + apply (account_output _ l (cap_input c) (cap_output c) e); done.
Qed.

Lemma sound_end s id c timestamp outcome complete : sound s -> captures s !! id = Some c ->
  sound (put s id (finish digest id timestamp outcome complete c (log s))).
Proof.
  intros Hs Hid. pose proof (captures_count s Hs id c Hid) as (Hi & Ho & _). unfold finish, emit. set (e := identify c timestamp _).
  destruct (enqueue e id (log s)) as [l' taken] eqn:E. eapply (sound_put s id c _ l' e taken); [done..|by split_and!; [..|right]|done|].
  intros l [Hacc Hseq]. split; [|cbn; rewrite length_app; cbn; lia]. by apply (account_end _ l (cap_input c) (cap_output c) e).
Qed.

(** A step that leaves the packets, the history and the accounts as they are. *)
Lemma sound_same s s' : sound s -> sent s' = sent s -> history s' = history s ->
  (forall p, p ∈ option_list (writing (log s')) ++ queue (log s') -> p ∈ option_list (writing (log s)) ++ queue (log s)) ->
  (forall id, is_Some (captures s !! id) -> is_Some (captures s' !! id)) ->
  (forall id c', captures s' !! id = Some c' -> counts c' /\ (gap c' = false -> told c' (events_of id (sent s)))) -> sound s'.
Proof.
  intros [Hp Hk Hc Ht Hh] Hsent Hhist Hpk Hcap Hnew. split.
  - intros p Hin. by apply Hp, Hpk.
  - intros x. rewrite Hsent. intros Hin. by apply Hcap, Hk.
  - intros id c Hid. exact (proj1 (Hnew id c Hid)).
  - intros id c Hid. rewrite Hsent. exact (proj2 (Hnew id c Hid)).
  - rewrite Hhist. exact Hh.
Qed.

Lemma sound_log s l d : sound s -> same_queue l (log s) -> sound (s <| log := l |> <| files := d |>).
Proof.
  intros Hs (Hq & _ & _ & Hw). apply (sound_same s); [done|by unfold sent; cbn; rewrite Hq, Hw|done|by cbn; rewrite Hq, Hw|done|].
  intros id c Hid. split; [by eapply captures_count|by apply captures_told].
Qed.

Lemma sound_capture s id c' : sound s -> counts c' ->
  (gap c' = false -> told c' (events_of id (sent s))) -> sound (s <| captures := <[id := c']> (captures s) |>).
Proof.
  intros Hs Hc Ht. apply (sound_same s); [done..| |].
  - intros id' H. apply lookup_insert_is_Some'. by right.
  - intros id' x Hx. change (<[id := c']> (captures s) !! id' = Some x) in Hx. apply lookup_insert_Some in Hx as [[<- <-]|[_ Hx]]; [done|]. split; [by eapply captures_count|by apply captures_told].
Qed.

Lemma final_new e id g : final_event g (new_packet e id) = match Complete e with Some _ => if g then e <| Complete := Some false |> else e | None => e end.
Proof. unfold final_event, new_packet. by destruct (Complete e). Qed.

(** The writer is done with a packet. *)
Lemma sound_written s p c l d : sound s -> writing (log s) = Some p -> captures s !! gap_of p = Some c -> same_queue l ((log s) <| writing := None |>) ->
  is_Some (file l) -> sound (remember (gap_of p) (final_event (gap c) p) (s <| log := l |> <| files := d |>)).
Proof.
  intros [Hp Hk Hc Ht Hh] Hw Hid (Hq & _ & _ & Hw') [name Hname]. cbn in Hq, Hw'.
  assert (Hpn : p = new_packet (event_of p) (gap_of p)) by (apply Hp; rewrite Hw; constructor).
  set (e := final_event (gap c) p). set (id := gap_of p) in *. set (rest := (fun p => (gap_of p, event_of p)) <$> queue (log s)).
  assert (Hold : sent s = history s ++ (id, event_of p) :: rest) by (unfold sent; rewrite Hw; done).
  unfold remember. change (file (log (s <| log := l |> <| files := d |>))) with (file l). rewrite Hname.
  set (s' := _ <| made := _ |>). assert (Hnew : sent s' = history s ++ (id, e) :: rest).
  { unfold sent, s'. cbn. rewrite Hw', Hq, <-app_assoc. done. }
  assert (He : gap c = false -> e = event_of p).
  { intros Hg. unfold e. rewrite Hg, Hpn, final_new. cbn. by destruct (Complete (event_of p)). }
  split.
  - unfold s'. cbn. rewrite Hw', Hq. intros x Hx. apply Hp, elem_of_app. by right.
  - intros x. rewrite Hnew. intros Hx. destruct (decide (x.1 = id)) as [->|Hne]; [by exists c|]. apply Hk. rewrite Hold.
    apply elem_of_app in Hx as [Hx|[->|Hx]%elem_of_cons]; [apply elem_of_app; by left|done|]. apply elem_of_app. right. by constructor.
  - exact Hc.
  - intros id' c' Hc' Hg. rewrite Hnew. specialize (Ht id' c' Hc' Hg). rewrite Hold in Ht. rewrite !events_of_app in *.
    change ((id, event_of p) :: rest) with ([(id, event_of p)] ++ rest) in Ht. change ((id, e) :: rest) with ([(id, e)] ++ rest).
    rewrite !events_of_app in *. destruct (decide (id = id')) as [<-|Hne].
    + change (captures s' !! id = Some c') in Hc'. rewrite He; [done|]. change (captures s !! id = Some c') in Hc'. congruence.
    + by rewrite events_of_skip in Ht |- * by done.
  - intros before id' e' after Hhist Hcomp. change (history s') with (history s ++ [(id, e)]) in Hhist.
    destruct after as [|x after _] using rev_ind.
    + apply app_inj_tail in Hhist as [<- [= <- <-]]. assert (Hg : gap c = false).
      { apply not_true_iff_false. intros Hg. unfold e in Hcomp. rewrite Hg, Hpn, final_new in Hcomp. cbn in Hcomp.
        destruct (Complete (event_of p)) eqn:Ec; [done|]. congruence. }
      destruct (Ht id c Hid Hg) as [Hacc _]. rewrite Hold, <-(He Hg), events_of_app in Hacc.
      change ((id, e) :: rest) with ([(id, e)] ++ rest) in Hacc. rewrite events_of_app, events_of_one in Hacc. cbn [app] in Hacc.
      apply account_prefix in Hacc as (i & o & Hacc). eapply account_claim; [exact Hacc|]. by rewrite Hcomp.
    + rewrite app_comm_cons, app_assoc in Hhist. apply app_inj_tail in Hhist as [Hhist _]. by eapply Hh.
Qed.

Lemma sound_lost s p c l d : sound s -> writing (log s) = Some p -> captures s !! gap_of p = Some c -> same_queue l ((log s) <| writing := None |>) ->
  sound (s <| log := l |> <| files := d |> <| captures := <[gap_of p := c <| gap := true |>]> (captures s) |>).
Proof.
  intros [Hp Hk Hc Ht Hh] Hw Hid (Hq & _ & _ & Hw'). cbn in Hq, Hw'. set (id := gap_of p) in *. set (s' := _ <| captures := _ |>).
  set (rest := (fun p => (gap_of p, event_of p)) <$> queue (log s)).
  assert (Hold : sent s = history s ++ [(id, event_of p)] ++ rest) by (unfold sent; rewrite Hw; done).
  assert (Hnew : sent s' = history s ++ rest) by (unfold sent, s'; cbn; by rewrite Hw', Hq).
  assert (Hcap : captures s' = <[id := c <| gap := true |>]> (captures s)) by done. split; rewrite ?Hcap.
  - unfold s'. cbn. rewrite Hw', Hq. intros x Hx. apply Hp, elem_of_app. by right.
  - intros x Hx. apply lookup_insert_is_Some'. right. apply Hk. rewrite Hnew in Hx. rewrite Hold. set_solver.
  - intros id' x [[<- <-]|[_ Hx]]%lookup_insert_Some; [exact (Hc id c Hid)|by eapply Hc].
  - intros id' x [[<- <-]|[Hne Hx]]%lookup_insert_Some Hg; [done|]. rewrite Hnew. specialize (Ht id' x Hx Hg).
    rewrite Hold, !events_of_app, events_of_skip in Ht by done. by rewrite events_of_app.
  - exact Hh.
Qed.

Lemma step_sound s s' : sound s -> step s s' -> sound s'.
Proof.
  intros Hs Hstep. revert Hs. destruct Hstep as [s0 id m input Hn|s0 id c data Hid Hi|s0 id c outcome complete Hid Hi|s0 id c timestamp direction rest Hid Ht _|s0 id c timestamp outcome complete Hid Ht|
    s0 p q Hw Hq|s0 p c o now l d ok Hw Hid Hf E s1|s0 o now l d Hw E|s0|s0 o now l d Hcl Hw Hq E|s0 d Hd];
    intros Hs.
  - apply sound_capture; [done|unfold counts; cbn; auto|]. intros _. rewrite events_of_other; [by split; [constructor|]|].
    intros x Hx <-. destruct (captures_known _ Hs x Hx) as [c Hc]. congruence.
  - pose proof (captures_count _ Hs id c Hid) as (H1 & H2 & _). apply sound_capture; [done|unfold counts; cbn; auto|].
    intros Hg. exact (captures_told _ Hs id c Hid Hg).
  - pose proof (captures_count _ Hs id c Hid) as (H1 & H2 & _). apply sound_capture; [done|unfold counts; cbn; auto|].
    intros Hg. exact (captures_told _ Hs id c Hid Hg).
  - by apply sound_chunk.
  - by apply sound_end.
  - apply (sound_same s0); [done|unfold sent; cbn; by rewrite Hw, Hq|done|cbn; by rewrite Hw, Hq|done|].
    intros id c Hid. split; [by eapply captures_count|by apply captures_told].
  - pose proof (process_keeps o now (gap c) p (log s0) (files s0)) as H. rewrite E in H. destruct H as [H1 H2]. unfold s1. destruct ok.
    + apply sound_written; [done..|by apply H2].
    + by apply sound_lost.
  - pose proof (tick_keeps o now (log s0) (files s0)) as H. rewrite E in H. by apply sound_log.
  - apply (sound_same s0); [done..|]. intros id c Hid. split; [by eapply captures_count|by apply captures_told].
  - pose proof (last_seal_keeps o now (log s0) (files s0)) as H. rewrite E in H. by apply sound_log.
  - apply (sound_same s0); [done..|]. intros id c Hid. split; [by eapply captures_count|by apply captures_told].
Qed.

(** ** The names of files *)

Lemma cons_app c s t : String c s +:+ t = String c (s +:+ t).
Proof. done. Qed.
Lemma rev_acc s acc : Strings.string_rev s acc = Strings.string_rev s "" +:+ acc.
Proof.
  revert acc. induction s as [|c s IH]; intros acc; [done|]. cbn. rewrite IH, (IH (String c "")).
  generalize (Strings.string_rev s "") as x. intros x. induction x as [|a x IHx]; [done|]. by rewrite !cons_app, IHx.
Qed.
Lemma rev_app s t acc : Strings.string_rev (s +:+ t) acc = Strings.string_rev t (Strings.string_rev s acc).
Proof. revert acc. induction s as [|c s IH]; intros acc; [done|]. rewrite cons_app. cbn. apply IH. Qed.
Lemma prefix_app s t : String.prefix s (s +:+ t) = true.
Proof. induction s as [|c s IH]; [by destruct t|]. rewrite cons_app. cbn. by destruct (Ascii.ascii_dec c c). Qed.
Lemma suffix_app s t : Strings.HasSuffix (s +:+ t) t = true.
Proof. unfold Strings.HasSuffix. rewrite rev_app, (rev_acc t (Strings.string_rev s "")). apply prefix_app. Qed.
Lemma length_string_app s t : String.length (s +:+ t) = (String.length s + String.length t)%nat.
Proof. induction s as [|c s IH]; [done|]. rewrite cons_app. cbn. by rewrite IH. Qed.
Lemma substring_app s t : String.substring 0 (String.length s) (s +:+ t) = s.
Proof. induction s as [|c s IH]; [by destruct t|]. rewrite cons_app. cbn. by rewrite IH. Qed.

Lemma sealed_active base : sealed_name (active base) = base +:+ ".jsonl".
Proof.
  unfold sealed_name, TrimSuffix, active. rewrite suffix_app, length_string_app.
  replace (String.length base + String.length ".active" - String.length ".active")%nat with (String.length base) by lia. by rewrite substring_app.
Qed.

Lemma active_not_sealed base base' : active base <> base' +:+ ".jsonl".
Proof. intros E. apply (f_equal (fun s => Strings.string_rev s "")) in E. unfold active in E. rewrite !rev_app in E. cbn in E. discriminate. Qed.

Lemma app_cancel (s t x : string) : s +:+ x = t +:+ x -> s = t.
Proof.
  intros E. pose proof (f_equal String.length E) as Hl. rewrite !length_string_app in Hl.
  rewrite <-(substring_app s x), <-(substring_app t x), E. by replace (String.length s) with (String.length t) by lia.
Qed.

Lemma sealed_inj name name' : is_active name -> is_active name' -> sealed_name name = sealed_name name' -> name = name'.
Proof. intros [b ->] [b' ->]. rewrite !sealed_active. intros E%app_cancel. by rewrite E. Qed.
Lemma active_sealed name name' : is_active name -> is_active name' -> name <> sealed_name name'.
Proof. intros [b ->] [b' ->]. rewrite sealed_active. apply active_not_sealed. Qed.

(** ** Whole lines *)

Definition lines_of (l : list (nat * Event)) : text := concat ((fun x => line x.2) <$> l).
Lemma lines_of_snoc l x : lines_of (l ++ [x]) = lines_of l ++ line x.2.
Proof. unfold lines_of. by rewrite fmap_app, concat_app; cbn; rewrite app_nil_r. Qed.

(** The most that a file can hold: a line may be longer by one byte than it was
    when it was queued, once it takes its claim back. *)
Definition most (c : Config.ContentConfig) : Z := Z.max (Config.FileBytes c) (MaxEventBytes + 1).

Record tidy (l : Log) (d : disk) (m : gmap string (list (nat * Event))) : Prop := {
  made_tidy : forall name evs, m !! name = Some evs -> is_active name /\ Z.of_nat (length (lines_of evs)) <= most (config l) /\
    (forall c, d !! sealed_name name = Some c -> c = lines_of evs);
  open_tidy : forall name, file l = Some name -> exists evs, m !! name = Some evs /\ size l = Z.of_nat (length (lines_of evs)) /\
    d !! sealed_name name = None /\ (forall c, d !! name = Some c -> c = lines_of evs);
  closed_tidy : file l = None -> size l = 0;
}.

Lemma tidy_log l l' d m : config l' = config l -> file l' = file l -> size l' = size l -> tidy l d m -> tidy l' d m.
Proof. intros Hc Hf Hs [H1 H2 H3]. split; [by rewrite Hc|by rewrite Hf, Hs|by rewrite Hf, Hs]. Qed.
Lemma tidy_taken l d m : tidy l d m -> tidy (l <| writing := None |>) d m.
Proof. intros Ht. by apply (tidy_log l). Qed.
Lemma tidy_closed l d m : tidy l d m -> tidy (l <| file := None |> <| size := 0 |>) d m.
Proof. intros [H1 H2 H3]. by split. Qed.
Lemma tidy_subset l d d' m : d' ⊆ d -> tidy l d m -> tidy l d' m.
Proof.
  intros Hd [H1 H2 H3]. assert (Hsub : forall name c, d' !! name = Some c -> d !! name = Some c) by (intros name c Hc; by eapply lookup_weaken).
  split.
  - intros name evs Hm. destruct (H1 name evs Hm) as (? & ? & H). split_and!; [done..|]. intros c Hc. by apply H, Hsub.
  - intros name Hf. destruct (H2 name Hf) as (evs & ? & ? & Hn & H). exists evs. split_and!; [done..| |].
    + by eapply lookup_weaken_None.
    + intros c Hc. by apply H, Hsub.
  - done.
Qed.

Lemma seal_tidy o l d m : tidy l d m -> let '(l', d', ok) := seal o l d in
  tidy l' d' m /\ file l' = None /\ config l' = config l /\ (forall name, new_name d m name -> new_name d' m name).
Proof.
  intros Ht. unfold seal. destruct (file l) as [name|] eqn:Hf; [|done]. pose proof (tidy_closed l d m Ht) as Hcl.
  destruct (negb (sync_ok o) || _); [done|]. destruct (d !! name) as [c|] eqn:Hc; [|done]. destruct (rename_ok o); [|done].
  destruct Ht as [H1 H2 _]. destruct (H2 name Hf) as (evs & Hm & Hs & Hn & Hl). destruct (H1 name evs Hm) as (Ha & _ & _).
  split_and!; [|done|done|].
  - split; [|done..]. intros name' evs' Hm'. destruct (H1 name' evs' Hm') as (Ha' & Hb' & Hc'). split_and!; [done..|]. intros c' Hlook.
    apply lookup_insert_Some in Hlook as [[Hn' <-]|[_ Hlook]].
    + apply sealed_inj in Hn'; [|done..]. subst name'. rewrite Hm in Hm'. injection Hm' as <-. by apply Hl.
    + apply lookup_delete_Some in Hlook as [_ Hlook]. by apply Hc'.
  - intros new (Hna & Hn1 & Hn2 & Hn3). assert (new <> name) by congruence. split_and!; [done| | |done].
    + rewrite lookup_insert_ne by (by apply not_eq_sym, active_sealed). by rewrite lookup_delete_ne.
    + rewrite lookup_insert_ne; [|intros E; by apply sealed_inj in E]. rewrite lookup_delete_ne; [done|]. by apply active_sealed.
Qed.

(** Appending to the open file, or to a new one. *)
Lemma append_tidy o x name evs l d m : tidy (l <| file := None |> <| size := 0 |>) d m -> is_active name ->
  m !! name = Some evs \/ (m !! name = None /\ evs = []) ->
  d !! sealed_name name = None -> (forall c, d !! name = Some c -> c = lines_of evs) -> file l = Some name -> size l = Z.of_nat (length (lines_of evs)) ->
  Z.of_nat (length (lines_of (evs ++ [x]))) <= most (config l) ->
  let '(l', d', ok) := append o (line x.2) name l d in
  config l' = config l /\
  if ok then file l' = Some name /\ tidy l' d' (<[name := evs ++ [x]]> m) else tidy l' d' m.
Proof.
  intros [H1 _ _] Ha Hm Hn Hl Hf Hs Hmost. unfold append. set (n := Nat.min _ _).
  assert (Hsealed : forall f name', is_active name' -> alter f name d !! sealed_name name' = d !! sealed_name name').
  { intros f name' Ha'. apply lookup_alter_ne. by apply active_sealed. }
  assert (H1' : forall f name' evs', m !! name' = Some evs' -> is_active name' /\ Z.of_nat (length (lines_of evs')) <= most (config l) /\
    (forall c, alter f name d !! sealed_name name' = Some c -> c = lines_of evs')).
  { intros f name' evs' Hm'. destruct (H1 name' evs' Hm') as (Ha' & Hb & Hc). rewrite Hsealed by done. by split_and!. }
  destruct (negb (write_ok o) || negb (n =? length (line x.2))%nat) eqn:E.
  - split; [done|]. split; [|done..]. exact (H1' _).
  - apply orb_false_iff in E as [_ E%negb_false_iff%Nat.eqb_eq]. split; [done|]. split; [done|].
    assert (Hlook : forall c, alter (fun c => c ++ take n (line x.2)) name d !! name = Some c -> c = lines_of (evs ++ [x])).
    { intros c Hc. rewrite lookup_alter_eq in Hc. apply fmap_Some in Hc as (c0 & Hc0 & ->). rewrite lines_of_snoc, (Hl c0 Hc0). f_equal. rewrite E. by rewrite firstn_all. }
    assert (Hnone : alter (fun c => c ++ take n (line x.2)) name d !! sealed_name name = None) by by rewrite Hsealed.
    split.
    + intros name' evs' Hm'. apply lookup_insert_Some in Hm' as [[<- <-]|[_ Hm']]; [|by apply H1']. split_and!; [done..|]. intros c Hc. congruence.
    + intros name' Hf'. change (file l = Some name') in Hf'. assert (name' = name) as -> by congruence. exists (evs ++ [x]).
      split_and!; [by rewrite lookup_insert_eq| |done|done]. cbn. rewrite Hs, lines_of_snoc, length_app, E. lia.
    + intros Hf'. change (file l = None) in Hf'. congruence.
Qed.

(** What happens before the data is written: the full file is sealed. *)
Lemma rotate_tidy o len l d m : tidy l d m ->
  let '(l1, d1, ok) := if bool_decide (is_Some (file l)) && (Config.FileBytes (config l) <? size l + len) then seal o l d else (l, d, true) in
  tidy l1 d1 m /\ config l1 = config l /\ (forall name, new_name d m name -> new_name d1 m name) /\
  (is_Some (file l1) -> size l1 + len <= Config.FileBytes (config l)).
Proof.
  intros Ht. destruct (bool_decide (is_Some (file l))) eqn:Hf; cbn [andb].
  - destruct (Z.ltb_spec (Config.FileBytes (config l)) (size l + len)); [|done].
    pose proof (seal_tidy o l d m Ht) as H'. destruct (seal o l d) as [[l1 d1] ok]. destruct H' as (H1 & H2 & H3 & H4). split_and!; [done..|]. rewrite H2. by intros [].
  - apply bool_decide_eq_false in Hf. done.
Qed.

Lemma write_tidy o x l d m : tidy l d m -> Z.of_nat (length (line x.2)) <= MaxEventBytes + 1 ->
  (forall name, created o = Some name -> new_name d m name) ->
  let '(l', d', ok) := write o (line x.2) l d in config l' = config l /\
    if ok then exists name, file l' = Some name /\ tidy l' d' (<[name := default [] (m !! name) ++ [x]]> m) else tidy l' d' m.
Proof.
  intros Ht Hlen Hnew. unfold write. pose proof (rotate_tidy o (Z.of_nat (length (line x.2))) l d m Ht) as Hr.
  destruct (if bool_decide _ && _ then seal o l d else (l, d, true)) as [[l1 d1] sealed]. destruct Hr as (Ht1 & Hc1 & Hn1 & Hs1).
  destruct (negb sealed); [done|]. destruct (if bool_decide _ || _ then scan o l1 d1 else Some l1) as [l2|] eqn:El2; [|done].
  assert (H2 : config l2 = config l1 /\ file l2 = file l1 /\ size l2 = size l1).
  { destruct (bool_decide _ || _); [|by injection El2 as <-]. unfold scan in El2. destruct (scan_ok o && _); [|done]. by injection El2 as <-. }
  destruct H2 as (Hc2 & Hf2 & Hs2). pose proof (tidy_log l1 l2 d1 m Hc2 Hf2 Hs2 Ht1) as Ht2. rewrite <-Hc1, <-Hc2 in Hs1 |- *. rewrite <-Hf2, <-Hs2 in Hs1.
  destruct (Config.DirectoryBytes (config l2) <? _); [done|]. destruct (file l2) as [name|] eqn:Hf.
  - destruct (open_tidy l2 d1 m Ht2 name Hf) as (evs & Hm & Hsz & Hn & Hl). destruct (made_tidy l2 d1 m Ht2 name evs Hm) as (Ha & Hb & _).
    pose proof (append_tidy o x name evs l2 d1 m (tidy_closed _ _ _ Ht2) Ha (or_introl Hm) Hn Hl Hf Hsz) as H.
    destruct (append o (line x.2) name l2 d1) as [[l' d'] ok]. destruct H as [H3 H4].
    { rewrite lines_of_snoc, length_app, Nat2Z.inj_add, <-Hsz. etrans; [by apply Hs1|]. unfold most. lia. }
    split; [done|]. destruct ok; [|done]. destruct H4 as [H4 H5]. exists name. by rewrite Hm.
  - destruct (created o) as [name|] eqn:Hcr; [|done]. destruct (Hn1 name (Hnew name eq_refl)) as (Ha & Hd & Hn & Hm).
    pose proof (append_tidy o x name [] (l2 <| file := Some name |>) (<[name := []]> d1) m) as H.
    destruct (append o (line x.2) name _ _) as [[l' d'] ok]. destruct H as [H3 H4]; [|done|by right| | |done| | |].
    + split; [|done..]. intros name' evs' Hm'. destruct (made_tidy _ _ _ Ht2 name' evs' Hm') as (Ha' & Hb' & Hc'). split_and!; [done..|].
      intros c Hc. rewrite lookup_insert_ne in Hc by (by apply active_sealed). by apply Hc'.
    + rewrite lookup_insert_ne; [done|]. by apply active_sealed.
    + intros c Hc. rewrite lookup_insert_eq in Hc. by injection Hc as <-.
    + cbn. by apply (closed_tidy _ _ _ Ht2).
    + rewrite lines_of_snoc. cbn -[line]. unfold most. lia.
    + split; [done|]. destruct ok; [|done]. exists name. rewrite Hm. exact H4.
Qed.

Lemma final_data_line g p : p = new_packet (event_of p) (gap_of p) -> final_data g p = line (final_event g p).
Proof. intros ->. unfold final_data, final_event, new_packet. cbn [terminal event_of data]. destruct (Complete (event_of p)); [|done]. by destruct g. Qed.
Lemma final_line_length g p : p = new_packet (event_of p) (gap_of p) -> Z.of_nat (length (line (event_of p))) <= MaxEventBytes ->
  Z.of_nat (length (line (final_event g p))) <= MaxEventBytes + 1.
Proof.
  intros -> H. rewrite final_new. cbn [event_of new_packet] in H. destruct (Complete (event_of p)) as [b|] eqn:E; [|lia]. destruct g; [|lia].
  pose proof (claim_back (event_of p) ltac:(by rewrite E)). lia.
Qed.

Lemma warn_tidy now l d m : tidy l d m -> tidy (warn now l).1 d m.
Proof. destruct (warn_keeps now l) as ((_ & _ & Hc & _) & Hf & Hs & _). by apply tidy_log. Qed.
Lemma failure_tidy now l d m : tidy l d m -> tidy (warn now (l <| failures := failures l + 1 |>)).1 d m.
Proof. intros Ht. apply warn_tidy. by apply (tidy_log l). Qed.
Lemma written_tidy l d m : tidy l d m -> tidy (l <| written := written l + 1 |>) d m.
Proof. intros Ht. by apply (tidy_log l). Qed.
Lemma warn_if_tidy b now l d m : tidy l d m -> tidy (warn_if b now l) d m.
Proof. destruct b; [apply warn_tidy|done]. Qed.

Lemma process_tidy o now g p x l d m : tidy l d m -> final_data g p = line x.2 -> Z.of_nat (length (line x.2)) <= MaxEventBytes + 1 ->
  (forall name, created o = Some name -> new_name d m name) ->
  let '(l', d', ok) := process o now g p l d in
    if ok then exists name, file l' = Some name /\ tidy l' d' (<[name := default [] (m !! name) ++ [x]]> m) else tidy l' d' m.
Proof.
  intros Ht Hx Hlen Hnew. unfold process. rewrite Hx.
  pose proof (write_tidy o x _ d m (tidy_taken l d m Ht) Hlen Hnew) as H.
  destruct (write _ _ _ _) as [[l' d'] ok]. destruct H as [_ H]. destruct ok; [|by apply warn_if_tidy, failure_tidy].
  destruct H as (name & Hf & H). exists name. split; [|by apply warn_if_tidy, written_tidy]. by rewrite (proj1 (proj2 (warn_if_keeps _ _ _))).
Qed.

Lemma tick_tidy o now l d m : tidy l d m -> tidy (tick o now l d).1 (tick o now l d).2 m.
Proof.
  intros Ht. unfold tick. pose proof (seal_tidy o l d m Ht) as H. destruct (seal o l d) as [[l' d'] ok]. destruct H as [H _].
  apply warn_if_tidy. destruct ok; [done|by apply failure_tidy].
Qed.
Lemma last_seal_tidy o now l d m : tidy l d m -> tidy (last_seal o now l d).1 (last_seal o now l d).2 m.
Proof.
  intros Ht. unfold last_seal. pose proof (seal_tidy o l d m Ht) as H. destruct (seal o l d) as [[l' d'] ok]. destruct H as [H _].
  destruct ok; [done|by apply failure_tidy].
Qed.

(** ** Everything written is in its file *)

Record whole (s : state) : Prop := {
  whole_sound : sound s;
  whole_tidy : tidy (log s) (files s) (made s);
  whole_lines : forall p, p ∈ option_list (writing (log s)) ++ queue (log s) -> Z.of_nat (length (line (event_of p))) <= MaxEventBytes;
  whole_made : forall name evs, made s !! name = Some evs -> evs `sublist_of` history s;
}.

Lemma enqueue_keeps e id l : let (l', taken) := enqueue e id l in file l' = file l /\ size l' = size l /\ used l' = used l /\ config l' = config l /\
  (taken = true -> Z.of_nat (length (line e)) <= MaxEventBytes).
Proof. unfold enqueue. destruct (Z.ltb_spec MaxEventBytes (Z.of_nat (length (line e)))); [done|]. by destruct (_ && _). Qed.

(** What the handlers do to the log. *)
Lemma whole_log s s' : whole s -> sound s' -> files s' = files s -> made s' = made s -> history s' = history s ->
  config (log s') = config (log s) -> file (log s') = file (log s) -> size (log s') = size (log s) ->
  (forall p, p ∈ option_list (writing (log s')) ++ queue (log s') -> p ∈ option_list (writing (log s)) ++ queue (log s) \/
    Z.of_nat (length (line (event_of p))) <= MaxEventBytes) -> whole s'.
Proof.
  intros [_ Ht Hl Hm] Hs Hfiles Hmade Hhist Hc Hf Hsz Hp. split; [done| | |].
  - rewrite Hfiles, Hmade. by apply (tidy_log (log s)).
  - intros p Hin. destruct (Hp p Hin) as [H|H]; [by apply Hl|done].
  - rewrite Hmade, Hhist. exact Hm.
Qed.

Lemma whole_put s id c' l' e taken : whole s -> enqueue e id (log s) = (l', taken) -> sound (put s id (c', l')) -> whole (put s id (c', l')).
Proof.
  intros Hw E Hs. pose proof (enqueue_spec e id (log s)) as H. pose proof (enqueue_keeps e id (log s)) as Hk. rewrite E in H, Hk.
  destruct H as [H1 H2], Hk as (Hf & Hsz & _ & Hc & Hlen). apply (whole_log s); [done..|].
  change (log (put s id (c', l'))) with l'. rewrite H1, H2, app_assoc. intros p [Hin|Hin]%elem_of_app; [by left|]. right.
  destruct taken; [|by apply not_elem_of_nil in Hin]. apply list_elem_of_singleton in Hin as ->. by apply Hlen.
Qed.

Lemma whole_written s p c l d name : whole s -> writing (log s) = Some p -> same_queue l ((log s) <| writing := None |>) ->
  sound (remember (gap_of p) (final_event (gap c) p) (s <| log := l |> <| files := d |>)) -> file l = Some name ->
  tidy l d (<[name := default [] (made s !! name) ++ [(gap_of p, final_event (gap c) p)]]> (made s)) ->
  whole (remember (gap_of p) (final_event (gap c) p) (s <| log := l |> <| files := d |>)).
Proof.
  intros [_ _ Hl Hm] Hw (Hq & _ & _ & Hw') Hs Hf Ht. cbn in Hq, Hw'. revert Hs. unfold remember.
  change (file (log (s <| log := l |> <| files := d |>))) with (file l). rewrite Hf. intros Hs. split; [done|done| |].
  - cbn. rewrite Hw', Hq. intros x Hx. apply Hl, elem_of_app. by right.
  - intros name' evs. cbn. intros [[<- <-]|[_ H]]%lookup_insert_Some; [|apply sublist_inserts_r; by apply (Hm name')].
    apply sublist_app; [|done]. destruct (made s !! name) eqn:E; [by apply (Hm name)|apply sublist_nil_l].
Qed.

Lemma step_whole s s' : whole s -> step s s' -> whole s'.
Proof.
  intros Hs Hstep. pose proof (step_sound s s' (whole_sound s Hs) Hstep) as Hsound. revert Hs Hsound.
  destruct Hstep as [s0 id m input Hn|s0 id c data Hid Hi|s0 id c outcome complete Hid Hi|s0 id c timestamp direction rest Hid Ht _|s0 id c timestamp outcome complete Hid Ht|
    s0 p q Hw Hq|s0 p c o now l d ok Hw Hid Hf E s1|s0 o now l d Hw E|s0|s0 o now l d Hcl Hw Hq E|s0 d Hd];
    intros Hs Hsound.
  1-3, 9: by apply (whole_log s0); [..|intros p Hp; left].
  - revert Hsound. unfold chunk, emit. destruct (enqueue _ _ _) as [l' taken] eqn:E. intros Hsound. by eapply whole_put.
  - revert Hsound. unfold finish, emit. destruct (enqueue _ _ _) as [l' taken] eqn:E. intros Hsound. by eapply whole_put.
  - apply (whole_log s0); [done..|]. cbn. rewrite Hw, Hq. intros x Hx. by left.
  - pose proof (process_keeps o now (gap c) p (log s0) (files s0)) as Hk. rewrite E in Hk.
    assert (Hp : p ∈ option_list (writing (log s0)) ++ queue (log s0)) by (rewrite Hw; constructor).
    pose proof (packets_new _ (whole_sound _ Hs) p Hp) as Hpn.
    pose proof (process_tidy o now (gap c) p (gap_of p, final_event (gap c) p) (log s0) (files s0) (made s0) (whole_tidy _ Hs) (final_data_line _ p Hpn)
      (final_line_length _ p Hpn (whole_lines _ Hs p Hp)) Hf) as Ht. rewrite E in Ht.
    unfold s1 in *. destruct ok.
    + destruct Ht as (name & Hname & Ht). apply (whole_written _ p c l d name); [done|done|exact (proj1 Hk)|done..].
    + destruct Hk as [(Hq & _ & _ & Hw') _]. cbn in Hq, Hw'. split; [done|done| |apply (whole_made _ Hs)].
      cbn. rewrite Hw', Hq. intros x Hx. apply (whole_lines _ Hs), elem_of_app. by right.
  - pose proof (tick_tidy o now _ _ _ (whole_tidy _ Hs)) as Ht. pose proof (tick_keeps o now (log s0) (files s0)) as (Hq & _ & _ & Hw'). rewrite E in *. cbn in *.
    split; [done|done| |apply (whole_made _ Hs)]. cbn. rewrite Hw', Hq. apply (whole_lines _ Hs).
  - pose proof (last_seal_tidy o now _ _ _ (whole_tidy _ Hs)) as Ht. pose proof (last_seal_keeps o now (log s0) (files s0)) as (Hq' & _ & _ & Hw'). rewrite E in *. cbn in *.
    split; [done|done| |apply (whole_made _ Hs)]. cbn. rewrite Hw', Hq'. apply (whole_lines _ Hs).
  - split; [done| |apply (whole_lines _ Hs)|apply (whole_made _ Hs)]. by apply (tidy_subset _ (files s0)), (whole_tidy _ Hs).
Qed.

Lemma Open_start c d l d' : Open c true d = Some (Some l, d') -> recover d = Some d' /\ config l = Config.ContentConfig_Effective c /\
  MaxEventBytes <= Config.FileBytes (config l) /\ queue l = [] /\ writing l = None /\ file l = None /\ size l = 0 /\ used l = disk_total d.
Proof.
  unfold Open. destruct (bool_decide (c = Config.no_content)) eqn:Hno; [done|]. destruct (Config.ContentConfig_Validate c) eqn:Hv; [done|]. destruct (_ || _); [done|].
  destruct (recover d) as [d''|]; [|done]. intros [= <- <-]. split_and!; try done. unfold Config.ContentConfig_Validate in Hv. rewrite Hno in Hv.
  destruct (negb _ || (Config.FileBytes (Config.ContentConfig_Effective c) <? Config.MaxEventBytes) || _ || _ || _) eqn:E; [done|].
  apply orb_false_iff in E as [[[[_ E]%orb_false_iff _]%orb_false_iff _]%orb_false_iff _]. by apply Z.ltb_ge in E.
Qed.

Lemma start_whole c d l d' : Open c true d = Some (Some l, d') -> whole (start_state l d').
Proof.
  intros (_ & _ & _ & Hq & Hw & Hf & Hs & _)%Open_start. split.
  - split; cbn; rewrite ?Hw, ?Hq; try done; [by intros p ?%elem_of_nil|unfold sent; cbn; rewrite ?Hw, ?Hq; by intros x ?%elem_of_nil|].
    intros before id e after H. by destruct before.
  - split; cbn; [done|congruence|done].
  - cbn. rewrite Hw, Hq. by intros p ?%elem_of_nil.
  - done.
Qed.

Lemma step_config s s' : step s s' -> config (log s') = config (log s).
Proof.
  intros Hstep. destruct Hstep as [s0 id m input Hn|s0 id c data Hid Hi|s0 id c outcome complete Hid Hi|s0 id c timestamp direction rest Hid Ht _|s0 id c timestamp outcome complete Hid Ht|
    s0 p q Hw Hq|s0 p c o now l d ok Hw Hid Hf E s1|s0 o now l d Hw E|s0|s0 o now l d Hcl Hw Hq E|s0 d Hd]; try done.
  - unfold chunk, emit. destruct (enqueue _ _ _) as [l' taken] eqn:E. pose proof (enqueue_keeps (identify (hash_more direction (take ChunkBytes rest) c) timestamp (chunk_event direction (counted direction (hash_more direction (take ChunkBytes rest) c)) (take ChunkBytes rest))) id (log s0)) as H.
    rewrite E in H. by destruct H as (_ & _ & _ & H & _).
  - unfold finish, emit. destruct (enqueue _ _ _) as [l' taken] eqn:E. pose proof (enqueue_keeps (identify c timestamp (end_event digest outcome complete c)) id (log s0)) as H.
    rewrite E in H. by destruct H as (_ & _ & _ & H & _).
  - pose proof (process_keeps o now (gap c) p (log s0) (files s0)) as H. rewrite E in H. destruct H as [(_ & _ & H & _) _]. unfold s1, remember. cbn in H. destruct ok; [|done]. cbn. by destruct (file l).
  - pose proof (tick_keeps o now (log s0) (files s0)) as (_ & _ & H & _). by rewrite E in H.
  - pose proof (last_seal_keeps o now (log s0) (files s0)) as (_ & _ & H & _). by rewrite E in H.
Qed.

Lemma reachable_whole c d s : reachable c d s -> whole s /\ config (log s) = Config.ContentConfig_Effective c /\ MaxEventBytes <= Config.FileBytes (config (log s)).
Proof.
  intros (l & d' & HO & Hr). pose proof (start_whole c d l d' HO) as Hw. destruct (Open_start c d l d' HO) as (_ & Hc & Hb & _). clear HO.
  rewrite <-Hc. change (config l) with (config (log (start_state l d'))) in *. revert Hr Hw Hb. generalize (start_state l d'). intros s0 Hr.
  induction Hr as [s0|s0 s1 s2 Hstep _ IH]; [done|]. intros Hw Hb. rewrite <-(step_config s0 s1 Hstep) in Hb |- *. apply IH; [|done]. by eapply step_whole.
Qed.

(** ** The directory *)

Definition counted_length (name : string) (c : text) : Z := if contentFile name then Z.of_nat (length c) else 0.
Lemma disk_total_insert d name c : d !! name = None -> disk_total (<[name := c]> d) = counted_length name c + disk_total d.
Proof. intros H. unfold disk_total. rewrite map_fold_insert_L; [done| |done]. intros. lia. Qed.
Lemma disk_total_delete d name c : d !! name = Some c -> disk_total d = counted_length name c + disk_total (delete name d).
Proof. intros H. rewrite <-(insert_delete_id d name c H) at 1. apply disk_total_insert, lookup_delete_eq. Qed.
Lemma counted_nonneg name c : 0 <= counted_length name c.
Proof. unfold counted_length. destruct (contentFile name); lia. Qed.
Lemma disk_total_subset d d' : d' ⊆ d -> disk_total d' <= disk_total d.
Proof.
  revert d. induction d' as [|name c d' Hn IH] using map_ind; intros d Hd.
  - clear Hd. induction d as [|name c d Hn IH] using map_ind; [done|]. rewrite disk_total_insert by done. pose proof (counted_nonneg name c). lia.
  - assert (Hc : d !! name = Some c) by (eapply lookup_weaken; [|exact Hd]; apply lookup_insert_eq).
    rewrite disk_total_insert by done. rewrite (disk_total_delete d name c Hc).
    specialize (IH (delete name d) ltac:(by eapply insert_delete_subseteq)). lia.
Qed.
Lemma disk_total_rename d name name' c : d !! name = Some c -> d !! name' = None -> contentFile name = true ->
  disk_total (<[name' := c]> (delete name d)) <= disk_total d.
Proof.
  intros Hc Hn Hcf. rewrite (disk_total_delete d name c Hc), disk_total_insert by (by rewrite lookup_delete_None; right).
  unfold counted_length. rewrite Hcf. destruct (contentFile name'); lia.
Qed.
Lemma disk_total_append d name x : disk_total (alter (fun c => c ++ x) name d) <= disk_total d + Z.of_nat (length x).
Proof.
  destruct (d !! name) as [c|] eqn:Hc.
  - rewrite (disk_total_delete d name c Hc), (disk_total_delete (alter _ name d) name (c ++ x)) by (by rewrite lookup_alter_eq, Hc).
    rewrite delete_alter_eq. unfold counted_length. rewrite length_app. destruct (contentFile name); lia.
  - rewrite alter_id; [lia|]. congruence.
Qed.

Lemma active_content name : is_active name -> contentFile name = true.
Proof.
  intros [base ->]. unfold contentFile, Strings.HasPrefix, active. apply andb_true_intro. split; [|by rewrite suffix_app].
  replace (("content-" +:+ base) +:+ ".active") with ("content-" +:+ (base +:+ ".active")); [apply prefix_app|by rewrite !cons_app].
Qed.

Lemma recover_total d d' : recover d = Some d' -> disk_total d' <= disk_total d.
Proof.
  unfold recover. set (l := (map_to_list d).*1). clearbody l. revert d'. induction l as [|name l IH]; intros d'; [by intros [= ->]|].
  cbn [List.filter]. destruct (contentFile name) eqn:Hc; [|exact (IH d')]. destruct (Strings.HasSuffix name ".active"); [|exact (IH d')].
  cbn [andb foldr]. unfold recover_file at 1. destruct (foldr _ _ _) as [d1|]; [|done]. cbn. destruct (d1 !! name) as [c|] eqn:Hl; [|done]. cbn.
  destruct (d1 !! interrupted_name name) eqn:Hi; [done|]. intros [= <-]. etrans; [by apply disk_total_rename|by apply IH].
Qed.

(** What is in the directory is counted, and the count is within the limit, or
    what was there at the start. *)
Definition within (most : Z) (l : Log) (d : disk) : Prop := disk_total d <= used l <= Z.max (Config.DirectoryBytes (config l)) most.
Lemma within_log n l l' d : config l' = config l -> used l' = used l -> within n l d -> within n l' d.
Proof. intros Hc Hu. unfold within. by rewrite Hc, Hu. Qed.

Lemma seal_within n o l d m : tidy l d m -> within n l d -> within n (seal o l d).1.1 (seal o l d).1.2.
Proof.
  intros [H1 H2 _] Hw. unfold seal. destruct (file l) as [name|] eqn:Hf; [|done]. destruct (negb (sync_ok o) || _); [done|].
  destruct (d !! name) as [c|] eqn:Hc; [|done]. destruct (rename_ok o); [|done]. destruct (H2 name eq_refl) as (evs & Hm & _ & Hn & _). destruct (H1 name evs Hm) as (Ha & _).
  destruct Hw as [Hd Hu]. split; [|exact Hu]. etrans; [|exact Hd]. apply disk_total_rename; [done..|]. by apply active_content.
Qed.

Lemma append_within n o line name l d : disk_total d <= used l -> used l + Z.of_nat (length line) <= Config.DirectoryBytes (config l) ->
  within n (append o line name l d).1.1 (append o line name l d).1.2.
Proof.
  intros Hd Hu. unfold append. pose proof (disk_total_append d name (take (Nat.min (written_bytes o) (length line)) line)) as H. rewrite length_take in H.
  destruct (negb (write_ok o) || _); unfold within; cbn [fst snd]; (split; [etrans; [exact H|]|]); cbn; lia.
Qed.

Lemma write_within n o line l d m : tidy l d m -> within n l d -> (forall name, created o = Some name -> new_name d m name) ->
  within n (write o line l d).1.1 (write o line l d).1.2.
Proof.
  intros Ht Hw Hnew. unfold write. set (b := bool_decide _ && _). pose proof (seal_tidy o l d m Ht) as Hs. pose proof (seal_within n o l d m Ht Hw) as Hsw.
  assert (H1 : let '(l1, d1, ok) := if b then seal o l d else (l, d, true) in within n l1 d1 /\ config l1 = config l /\ (forall name, new_name d m name -> d1 !! name = None)).
  { destruct b; [|by split_and!; [..|intros name (_ & ? & _)]]. destruct (seal o l d) as [[l1 d1] ok]. destruct Hs as (_ & _ & Hc & Hn). split_and!; [done..|]. by intros name (_ & ? & _)%Hn. }
  destruct (if b then seal o l d else (l, d, true)) as [[l1 d1] sealed]. destruct H1 as (Hw1 & Hc1 & Hn1). destruct (negb sealed); [done|].
  destruct (if bool_decide _ || _ then scan o l1 d1 else Some l1) as [l2|] eqn:El2; [|done].
  assert (Hw2 : within n l2 d1).
  { destruct (bool_decide _ || _); [|by injection El2 as <-]. unfold scan in El2. destruct (scan_ok o && _); [|done]. injection El2 as <-. unfold within in *. cbn. lia. }
  destruct (Z.ltb_spec (Config.DirectoryBytes (config l2)) (used l2 + Z.of_nat (length line))) as [|Hfit]; [done|]. destruct Hw2 as [Hd2 Hu2].
  destruct (file l2) as [name|]; [by apply append_within|]. destruct (created o) as [name|] eqn:Hcr; [|done]. apply append_within; [|done].
  rewrite disk_total_insert by (by apply Hn1, Hnew). unfold counted_length. cbn. destruct (contentFile name); lia.
Qed.

Lemma warn_within n now l d : within n l d -> within n (warn now (l <| failures := failures l + 1 |>)).1 d.
Proof. intros H. destruct (warn_keeps now (l <| failures := failures l + 1 |>)) as ((_ & _ & Hc & _) & _ & _ & Hu). by apply (within_log n l). Qed.
Lemma warn_if_within n b now l d : within n l d -> within n (warn_if b now l) d.
Proof. intros H. destruct (warn_if_keeps b now l) as ((_ & _ & Hc & _) & _ & _ & Hu). by apply (within_log n l). Qed.
Lemma within_taken n l d : within n l d -> within n (l <| writing := None |>) d.
Proof. done. Qed.

Lemma process_within n o now g p l d m : tidy l d m -> within n l d -> (forall name, created o = Some name -> new_name d m name) ->
  let '(l', d', ok) := process o now g p l d in within n l' d'.
Proof.
  intros Ht Hw Hnew. unfold process. pose proof (write_within n o (final_data g p) _ d m (tidy_taken l d m Ht) (within_taken n l d Hw) Hnew) as H.
  destruct (write _ _ _ _) as [[l' d'] ok]. cbn [fst snd] in H. apply warn_if_within. destruct ok; [done|by apply warn_within].
Qed.

Lemma sealed_within n o now l d m : tidy l d m -> within n l d -> within n (tick o now l d).1 (tick o now l d).2 /\ within n (last_seal o now l d).1 (last_seal o now l d).2.
Proof.
  intros Ht Hw. unfold tick, last_seal. pose proof (seal_within n o l d m Ht Hw) as H. destruct (seal o l d) as [[l' d'] ok]. cbn [fst snd] in *.
  assert (Hl : within n (if ok then l' else (warn now (l' <| failures := failures l' + 1 |>)).1) d') by (destruct ok; [done|by apply warn_within]).
  split; [by apply warn_if_within|done].
Qed.

Lemma put_within n s id l' e taken : enqueue e id (log s) = (l', taken) -> within n (log s) (files s) -> within n l' (files s).
Proof. intros E. pose proof (enqueue_keeps e id (log s)) as H. rewrite E in H. destruct H as (_ & _ & Hu & Hc & _). by apply within_log. Qed.

Lemma step_within n s s' : whole s -> within n (log s) (files s) -> step s s' -> within n (log s') (files s').
Proof.
  intros Hs Hw Hstep. revert Hs Hw. pose proof (whole_tidy s) as Ht.
  destruct Hstep as [s0 id m input Hn|s0 id c data Hid Hi|s0 id c outcome complete Hid Hi|s0 id c timestamp direction rest Hid _ _|s0 id c timestamp outcome complete Hid _|
    s0 p q Hwr Hq|s0 p c o now l d ok Hwr Hid Hf E s1|s0 o now l d Hwr E|s0|s0 o now l d Hcl Hwr Hq E|s0 d Hd]; intros Hs Hw; try done.
  - unfold chunk, emit. destruct (enqueue _ _ _) as [l' taken] eqn:E. change (within n l' (files s0)). by eapply put_within.
  - unfold finish, emit. destruct (enqueue _ _ _) as [l' taken] eqn:E. change (within n l' (files s0)). by eapply put_within.
  - pose proof (process_within n o now (gap c) p _ _ _ (Ht Hs) Hw Hf) as H. rewrite E in H. unfold s1, remember. destruct ok; [|done]. cbn. by destruct (file l).
  - pose proof (sealed_within n o now _ _ _ (Ht Hs) Hw) as [H _]. by rewrite E in H.
  - pose proof (sealed_within n o now _ _ _ (Ht Hs) Hw) as [_ H]. by rewrite E in H.
  - destruct Hw as [H1 H2]. split; [|done]. etrans; [|exact H1]. by apply disk_total_subset.
Qed.

(** C22. The directory stays within its limit: while nobody else adds to it, its content files never have more bytes
    than the configured limit, or than they had when the log was opened where that was more. *)
Theorem directory_bounded config d0 s : reachable config d0 s ->
  disk_total (files s) <= Z.max (Config.DirectoryBytes (Config.ContentConfig_Effective config)) (disk_total d0).
Proof.
  intros H. pose proof (proj1 (proj2 (reachable_whole _ _ _ H))) as Hc. destruct H as (l & d & HO & Hr). rewrite <-Hc.
  assert (H : within (disk_total d0) (log s) (files s)); [|unfold within in H; lia].
  assert (Hs : whole (start_state l d)) by (by eapply start_whole). destruct (Open_start _ _ _ _ HO) as (Hrec & _ & _ & _ & _ & _ & _ & Hu).
  assert (Hw : within (disk_total d0) (log (start_state l d)) (files (start_state l d))).
  { unfold within. cbn. rewrite Hu. split; [by apply recover_total|lia]. }
  clear HO Hc Hrec Hu. revert Hr Hs Hw. generalize (start_state l d). intros s0 Hr. induction Hr as [s0|s0 s1 s2 Hstep _ IH]; [done|].
  intros Hs Hw. apply IH; [by eapply step_whole|by eapply step_within].
Qed.

(** C6. A claim of completeness is true: however handlers, writer, ticks, shutdown and collectors interleave, and
    whatever is lost or fails, when the terminal event of a capture that was written says complete, then the events
    of the capture written before it are all of its events, numbered from 0, their chunks are all bytes of both
    directions at the offsets they say, and the lengths and hashes of the terminal event are those bytes'. *)
Theorem complete_means_complete config d0 s before id e after : reachable config d0 s ->
  history s = before ++ (id, e) :: after -> Complete e = Some true -> claim_holds id e before.
Proof. intros H. destruct (reachable_whole _ _ _ H) as ([Hs _ _ _] & _). by apply (claims_hold s Hs). Qed.

(** C21. Files that were handed off are whole: what a collector finds under the sealed name of a file of this log is
    exactly the lines of events that were written, in their order in the history, and at most one byte longer than
    the configured size. *)
Theorem sealed_files_whole config d0 s name evs content : reachable config d0 s ->
  made s !! name = Some evs -> files s !! sealed_name name = Some content ->
  content = lines_of evs /\ evs `sublist_of` history s /\ Z.of_nat (length content) <= Config.FileBytes (Config.ContentConfig_Effective config) + 1.
Proof.
  intros H Hm Hf. destruct (reachable_whole _ _ _ H) as ([_ Ht _ Hmade] & Hc & Hb). destruct (made_tidy _ _ _ Ht name evs Hm) as (_ & Hlen & Hl).
  rewrite (Hl content Hf). split_and!; [done|by eapply Hmade|]. rewrite <-Hc. unfold most in Hlen. lia.
Qed.
End content.

(** ** A run *)

Definition demo_config : Config.ContentConfig :=
  {| Config.Enabled := true; Config.Directory := "/content"; Config.FileBytes := 0; Config.DirectoryBytes := 0; Config.QueueEvents := 0 |}.
Definition demo_metadata : Metadata :=
  {| RequestID := "r1"; SessionID := ""; Protocol := "openai"; ProviderProtocol := "openai"; Provider := "p"; Model := "m" |}.
Definition demo_name : string := "content-1.active".
Definition demo_answers (new : option string) : answers :=
  {| sync_ok := true; close_ok := true; rename_ok := true; scan_ok := true; created := new; written_bytes := 100 * 100; write_ok := true |}.
Definition demo_digest (l : text) : string := Decimal.of_Z (Z.of_nat (length l)).

(** One request of two bytes without an answer: its chunk and its end are
    written, and the file is sealed. *)
Definition demo_log : Log :=
  {| config := Config.ContentConfig_Effective demo_config; queue := []; writing := None; closed := false; file := None; size := 0; used := 0;
     dropped := 0; failures := 0; written := 0; warning := 0 |}.
Definition demo_started : state := (start_state demo_log ∅) <| captures := <[0%nat := Start demo_metadata [104; 105]]> ∅ |>.
Definition demo_capture (s : state) : Capture := default (Start demo_metadata []) (captures s !! 0%nat).
Definition demo_begun : state := put demo_started 0 (chunk 0 "t" "input" [104; 105] (demo_capture demo_started) (log demo_started)).
Definition demo_ending : state := demo_begun <| captures := <[0%nat := Capture_Finish "success" true (demo_capture demo_begun)]> (captures demo_begun) |>.
Definition demo_finished : state := put demo_ending 0 (finish demo_digest 0 "t" "success" true (demo_capture demo_ending) (log demo_ending)).
Definition demo_take (s : state) : state :=
  match queue (log s) with p :: q => s <| log := (log s) <| queue := q |> <| writing := Some p |> |> | [] => s end.
Definition demo_process (new : option string) (s : state) : state :=
  match writing (log s) with
  | Some p =>
      let '(l, d, _) := process (demo_answers new) 100 false p (log s) (files s) in
      remember (gap_of p) (final_event false p) (s <| log := l |> <| files := d |>)
  | None => s
  end.
Definition demo_tick (s : state) : state := let '(l, d) := tick (demo_answers None) 100 (log s) (files s) in s <| log := l |> <| files := d |>.
Definition demo_first : state := demo_process (Some demo_name) (demo_take demo_finished).
Definition demo_written : state := demo_process None (demo_take demo_first).


Definition demo_packet : packet := new_packet (new_Event "x") 0.

Lemma demo_handled : rtc (step demo_digest) (start_state demo_log ∅) demo_finished.
Proof.
  apply rtc_l with demo_started; [by apply step_start|].
  apply rtc_l with demo_begun; [apply step_chunk; [reflexivity|reflexivity|discriminate]|].
  apply rtc_l with demo_ending; [apply step_finish; [reflexivity|by exists "input"]|].
  apply rtc_once, step_end; reflexivity.
Qed.

Lemma demo_take_step s p q : writing (log s) = None -> queue (log s) = p :: q -> step demo_digest s (demo_take s).
Proof. intros Hw Hq. unfold demo_take. rewrite Hq. by apply step_take. Qed.
Lemma demo_process_step new s p c : writing (log s) = Some p -> captures s !! gap_of p = Some c -> gap c = false ->
  (forall name, new = Some name -> new_name (files s) (made s) name) -> (process (demo_answers new) 100 false p (log s) (files s)).2 = true ->
  step demo_digest s (demo_process new s).
Proof.
  intros Hw Hc Hg Hn. unfold demo_process. rewrite Hw. destruct (process _ _ _ _ _ _) as [[l d] ok] eqn:E. cbn [snd]. intros ->.
  rewrite <-Hg in E |- *. by eapply (step_process demo_digest s p c (demo_answers new) 100 l d true).
Qed.

Lemma logged_reachable : reachable demo_digest demo_config ∅ (demo_tick demo_written).
Proof.
  exists demo_log, ∅. split; [reflexivity|]. etrans; [apply demo_handled|].
  apply rtc_l with (demo_take demo_finished); [eapply demo_take_step; vm_compute; reflexivity|].
  apply rtc_l with demo_first.
  { eapply demo_process_step; [vm_compute; reflexivity|vm_compute; reflexivity|vm_compute; reflexivity| |vm_compute; reflexivity].
    intros name [= <-]. split_and!; [by exists "1"|vm_compute; reflexivity..]. }
  apply rtc_l with (demo_take demo_first); [eapply demo_take_step; vm_compute; reflexivity|].
  apply rtc_l with demo_written; [eapply demo_process_step; try (vm_compute; reflexivity); discriminate|].
  apply rtc_once. unfold demo_tick. destruct (tick _ _ _ _) as [l d] eqn:E. eapply step_tick; [|exact E]. vm_compute. reflexivity.
Qed.

Lemma complete_means_complete_witness : exists x e, history (demo_tick demo_written) = [x] ++ (0%nat, e) :: [] /\ Complete e = Some true /\ claim_holds demo_digest 0 e [x].
Proof.
  eexists _, _. split; [vm_compute; reflexivity|]. split; [reflexivity|].
  eapply (complete_means_complete demo_digest demo_config ∅ (demo_tick demo_written)); [apply logged_reachable|vm_compute; reflexivity|reflexivity].
Defined.

Lemma sealed_files_whole_witness : exists evs content, files (demo_tick demo_written) !! "content-1.jsonl" = Some content /\ content = lines_of evs /\
  evs `sublist_of` history (demo_tick demo_written) /\ length evs = 2%nat /\ Z.of_nat (length content) <= 8 * 1024 * 1024 + 1.
Proof.
  assert (H : exists evs, made (demo_tick demo_written) !! demo_name = Some evs /\ length evs = 2%nat) by (eexists; split; [vm_compute; reflexivity|reflexivity]).
  assert (Hf : exists content, files (demo_tick demo_written) !! sealed_name demo_name = Some content) by (eexists; vm_compute; reflexivity).
  destruct H as (evs & Hm & Hl), Hf as (content & Hf). exists evs, content.
  destruct (sealed_files_whole demo_digest demo_config ∅ (demo_tick demo_written) demo_name evs content logged_reachable Hm Hf) as (H1 & H2 & H3). by split_and!.
Defined.

Lemma directory_bounded_witness : disk_total (files (demo_tick demo_written)) <= 256 * 1024 * 1024 /\ 500 < disk_total (files (demo_tick demo_written)).
Proof. split; [exact (directory_bounded demo_digest demo_config ∅ (demo_tick demo_written) logged_reachable)|vm_compute; reflexivity]. Defined.

Lemma chunk_taken_witness : let (c', l') := chunk 0 "t" "input" [60; 255; 10] (demo_capture demo_started) demo_log in
  gap c' = false /\ dropped l' = 0 /\ queue l' = [new_packet (identify (demo_capture demo_started) "t" (chunk_event "input" 0 [60; 255; 10])) 0].
Proof.
  apply (chunk_taken 0 "t" "input" [60; 255; 10] (demo_capture demo_started) demo_log); [repeat constructor; lia|reflexivity|by vm_compute|by vm_compute].
Defined.
