(* ===== verification/Commands.v ===== *)
(** * The commands that change a configuration and its credentials

    The commands of cmd/tidemux that edit the configuration file and the key
    chain: config_mutation.go, keychain.go, provider_command.go,
    provider_keys.go, provider_mutation_commands.go, provider_validation.go and
    the parts of other command files named below, with
    internal/gateway/keychain.go.  A command is a program of [Interaction.v]
    over the operations of the file system, of the [security] tool, of the
    terminal and of the network, each of which can fail.  Flags are parsed
    already, the temporary files and the text of a command's report are left
    out. *)

From Stdlib Require Import SpecFloat.
From S2P Require Import Prelude GoStrings GoFloat Json NetText Diagnostics Errors Pricing Routes View Catalog Config Interaction.
From S2P Require Upstream Budget Statements.

(** ** What a command does outside *)

(** What [os.ReadFile] of the configuration gives. *)
Inductive reading := NotExist | Unreadable | Contents (data : string).

Inductive action :=
  | Find (r : KeychainReference)                     (** [security find-generic-password -w]: its output *)
  | Add (r : KeychainReference) (value : string)     (** [security -i]: its exit status *)
  | Remove (r : KeychainReference)                   (** [security delete-generic-password] *)
  | ReadFile
  | Prepare (step : string)                          (** a step of the temporary file *)
  | Rename (data : string)                           (** it replaces the configuration *)
  | Random (n : nat)
  | Ask (question : string)                          (** the terminal; [None] is an error *)
  | Inspect (url key version : string)               (** [InspectProviderEndpoint]: protocol, models, whether these are known *)
  | Discover (url key version protocol : string).    (** [DiscoverProviderModels] *)

Definition answer (a : action) : Type :=
  match a with
  | Find _ | Ask _ => option string
  | Add _ _ | Remove _ | Prepare _ | Rename _ => bool
  | ReadFile => reading
  | Random _ => option (list byte)
  | Inspect _ _ _ => option (string * list string * bool)
  | Discover _ _ _ _ => list string * bool
  end.

(** A command that fails with a message. *)
Definition cmd (A : Type) : Type := prog answer (string + A).
Definition ok {A} (x : A) : cmd A := Return (inr x).
Definition fail {A} (e : string) : cmd A := Return (inl e).
Definition lift {A} (r : string + A) : cmd A := Return r.
Definition call {A B} (p : cmd A) (f : A -> cmd B) : cmd B := bind p (fun r => match r with inl e => Return (inl e) | inr x => f x end).
(** The caller looks at the error itself, or drops it. *)
Definition attempt {A B} (p : cmd A) (f : string + A -> cmd B) : cmd B := bind p f.
Definition check (bad : bool) (e : string) : cmd unit := if bad then fail e else ok tt.

Declare Scope cmd_scope.
Delimit Scope cmd_scope with cmd.
Notation "'let!' x := p 'in' k" := (call p (fun x => k)) (at level 10, x name, p at level 100, k at level 200) : cmd_scope.
Notation "p ;! k" := (call p (fun _ => k)) (at level 60, right associativity) : cmd_scope.
#[local] Open Scope cmd_scope.

Definition ask (question e : string) : cmd string := Act (Ask question) (fun r => match r with Some s => ok s | None => fail e end).
Definition prepare (step e : string) : cmd unit := Act (Prepare step) (fun b => check (negb b) e).
Definition random_bytes (n : nat) (e : string) : cmd (list byte) := Act (Random n) (fun r => match r with Some b => ok b | None => fail e end).

(** ** The key chain: internal/gateway/keychain.go *)

Definition line_bytes : list byte := [13; 10; 0].
Definition hex_text (l : list byte) : string := string_of_bytes (flat_map (fun b => [hex_digit (b / 16); hex_digit (b mod 16)]) l).

(** [Lookup] on macOS; the tool ends its output with a line break. *)
Definition Lookup (r : KeychainReference) : cmd string :=
  match KeychainReference_Validate r "keychain reference" with
  | Some e => fail e
  | None => Act (Find r) (fun out => match out with
            | Some out => ok (Strings.TrimSpace out)
            | None => fail "Keychain item not found or unavailable"
            end)
  end.
Definition StoreNew (r : KeychainReference) (value : string) : cmd unit :=
  match KeychainReference_Validate r "keychain reference" with
  | Some e => fail e
  | None =>
      check (contains_any line_bytes (Service r) || contains_any line_bytes (Account r)) "invalid Keychain reference" ;!
      check (String.eqb value "" || contains_any line_bytes value) "invalid credential" ;!
      Act (Add r value) (fun exited =>
        check (negb exited) "cannot write Keychain item" ;!
        attempt (Lookup r) (fun actual => match actual with
          | inr actual => check (negb (String.eqb actual value)) "Keychain write could not be verified"
          | inl _ => fail "Keychain write could not be verified"
          end))
  end.
Definition Delete (r : KeychainReference) : cmd unit := Act (Remove r) (fun b => check (negb b) "cannot remove newly created Keychain item").

(** An error of the key chain under the caller's own message. *)
Definition or_else {A} (e : string) (p : cmd A) : cmd A := attempt p (fun r => match r with inr x => ok x | inl _ => fail e end).
(** The deferred removal of new items when what follows fails. *)
Definition or_delete {A} (r : KeychainReference) (p : cmd A) : cmd A :=
  attempt p (fun x => match x with inr _ => lift x | inl _ => attempt (Delete r) (fun _ => lift x) end).
(** The item is read back. *)
Definition read_back (r : KeychainReference) (value e : string) : cmd unit :=
  attempt (Lookup r) (fun stored => match stored with
    | inr stored => check (negb (String.eqb stored value)) e
    | inl _ => fail e
    end).

Definition credentialRefEmpty (r : KeychainReference) : bool := credentialReferenceEmpty r.
Definition newKeychainReference (service : string) : cmd KeychainReference :=
  let! nonce := random_bytes 16 "cannot generate credential reference" in
  ok {| Service := service; Account := hex_text nonce |}.
Definition randomCredential : cmd string :=
  let! value := random_bytes 32 "cannot generate gateway credential" in ok (hex_text value).

Definition validSecret (value : string) : bool := negb (blank value) && negb (contains_any line_bytes value).

(** ** Names of providers *)

(** [strings.Trim] with a set of ASCII characters. *)
Definition trim_set (set : list byte) (l : list byte) : list byte :=
  let l := Strings.drop_while (fun b => has_byte b set) l in rev (Strings.drop_while (fun b => has_byte b set) (rev l)).
Definition max_label : nat := 80.
Definition suffixed (base : list byte) (suffix : Z) : list byte :=
  let ending := 45 :: bytes_of_string (Decimal.of_Z suffix) in
  let prefix := if (max_label <? length base + length ending)%nat then take (max_label - length ending) base else base in
  prefix ++ ending.
(** The loop over the suffixes; the fuel is more than the names that are taken. *)
Fixpoint free_name {A} (fuel : nat) (providers : gmap string A) (base : list byte) (suffix : Z) : option string :=
  match fuel with
  | O => None
  | S fuel =>
      let name := string_of_bytes (suffixed base suffix) in
      match providers !! name with None => Some name | Some _ => free_name fuel providers base (suffix + 1) end
  end.
Definition label_base (candidate : string) : list byte :=
  let base := trim_set [45; 46] (bytes_of_string (Strings.TrimSpace candidate)) in
  let base := if bool_decide (base = []) then bytes_of_string "provider" else base in
  take max_label base.
Definition uniqueProviderName {A} (providers : gmap string A) (candidate : string) : option string :=
  let base := label_base candidate in
  match providers !! string_of_bytes base with
  | None => Some (string_of_bytes base)
  | Some _ => free_name (S (size providers)) providers base 2
  end.
Definition validProviderLabel (value : string) : bool := validProviderName value.

Definition slug_rune (r : Z) : bool := Utf8.between 97 122 r || Utf8.between 48 57 r.
(** The loop over the runes of the first label; [out] is reversed. *)
Fixpoint slug (runes : list Z) (out : list byte) (lastHyphen : bool) : list byte :=
  match runes with
  | [] => rev out
  | r :: runes =>
      if slug_rune r then slug runes (r :: out) false
      else if negb lastHyphen && negb (bool_decide (out = [])) then slug runes (45 :: out) true
      else slug runes out lastHyphen
  end.
(** The labels after leading [api] and [www]. *)
Fixpoint first_label (labels : list (list byte)) : list byte :=
  match labels with
  | [] => []
  | l :: rest =>
      if negb (bool_decide (rest = [])) && (bool_decide (l = bytes_of_string "api") || bool_decide (l = bytes_of_string "www")) then first_label rest else l
  end.

(** ** The text of a configuration *)

(** [json.MarshalIndent] with two spaces. *)
Definition line_break (depth : nat) : list byte := 10 :: concat (replicate depth [32; 32]).
Definition enclose (opening closing : byte) (depth : nat) (items : list (list byte)) : list byte :=
  match items with
  | [] => [opening; closing]
  | _ => opening :: join_bytes 44 ((fun i => line_break (S depth) ++ i) <$> items) ++ line_break depth ++ [closing]
  end.
Definition member_text (kv : string * list byte) : list byte := encode_string kv.1 ++ [58; 32] ++ kv.2.
Fixpoint indented (depth : nat) (v : value) : list byte :=
  match v with
  | VArr items => enclose 91 93 depth (indented (S depth) <$> items)
  | VMap members => enclose 123 125 depth (member_text <$> merge_sort key_le ((fun kv => (kv.1, indented (S depth) kv.2)) <$> members))
  | VStruct fields => enclose 123 125 depth (member_text <$> ((fun kv => (kv.1, indented (S depth) kv.2)) <$> fields))
  | _ => encode v
  end.

(** The fields under [omitempty]. *)
Definition when (b : bool) (k : string) (v : value) : list (string * value) := if b then [(k, v)] else [].
Definition str_field (k s : string) : list (string * value) := when (negb (String.eqb s "")) k (VStr s).
Definition int_field (k : string) (n : Z) : list (string * value) := when (negb (n =? 0)) k (VInt n).
Definition ptr_field {A} (k : string) (f : A -> value) (x : option A) : list (string * value) := match x with Some x => [(k, f x)] | None => [] end.
Definition list_field {A} (k : string) (f : A -> value) (l : list A) : list (string * value) := when (negb (bool_decide (l = []))) k (VArr (f <$> l)).
Definition map_field {A} (k : string) (f : A -> value) (m : gmap string A) : list (string * value) :=
  when (negb (bool_decide (map_to_list m = []))) k (VMap ((fun kv => (kv.1, f kv.2)) <$> map_to_list m)).
Definition ptr_value {A} (f : A -> value) (x : option A) : value := match x with Some x => f x | None => VNull end.

Definition reference_value (r : KeychainReference) : value := VStruct [("service", VStr (Service r)); ("account", VStr (Account r))].
Definition capabilities_value (c : ModelCapabilities) : value :=
  VStruct (int_field "context_tokens" (cap_ContextTokens c) ++ int_field "max_output_tokens" (cap_MaxOutputTokens c)).
Definition mapping_value (m : ProviderErrorMapping) : value :=
  VStruct ([("upstream_code", VStr (UpstreamCode m))] ++ int_field "http_status" (MappedStatus m) ++ [("category", VStr (MappedCategory m))]).
Definition price_value (p : Price) : value :=
  VStruct [("currency", VStr (Pricing.Currency p)); ("source", VStr (Source p)); ("version", VStr (Version p));
           ("input_cache_hit_per_million", ptr_value VFloat (InputCacheHit p)); ("input_cache_miss_per_million", ptr_value VFloat (InputCacheMiss p));
           ("output_per_million", ptr_value VFloat (OutputPrice p))].
Definition budget_value (b : Budget.BudgetPolicy) : value :=
  VStruct [("currency", VStr (Budget.Currency b)); ("five_hour_limit", VFloat (Budget.FiveHourLimit b)); ("weekly_limit", VFloat (Budget.WeeklyLimit b));
           ("alert_threshold", VFloat (Budget.AlertThreshold b)); ("mode", VStr (Budget.Mode b))].
Definition limits_value (l : Upstream.Limits) : value :=
  VStruct (int_field "upstream_timeout_seconds" (Upstream.UpstreamTimeoutSeconds l) ++ int_field "request_bytes" (Upstream.RequestBytes l) ++
           int_field "response_bytes" (Upstream.ResponseBytes l) ++ int_field "stream_bytes" (Upstream.StreamBytes l) ++
           int_field "event_bytes" (Upstream.EventBytes l)).
Definition content_value (c : ContentConfig) : value :=
  VStruct (when (Enabled c) "enabled" (VBool true) ++ str_field "directory" (Directory c) ++ int_field "file_bytes" (FileBytes c) ++
           int_field "directory_bytes" (DirectoryBytes c) ++ int_field "queue_events" (QueueEvents c)).
Definition routing_value (r : RoutingConfig) : value :=
  VStruct (str_field "shared_model_strategy" (SharedModelStrategy r) ++ ptr_field "provider_switch_threshold" VInt (RoutingSwitchThreshold r)).
Definition entry_value (e : AutoChainEntry) : value := VStruct [("provider", VStr (entry_provider e)); ("model", VStr (entry_model e))].

Definition provider_value (p : Profile) : value :=
  let q := profile p in
  VStruct ([("protocol", VStr (prof_Protocol p)); ("base_url", VStr (BaseURL q))] ++
    when (negb (bool_decide (prof_Keychain p = no_reference))) "upstream_keychain" (reference_value (prof_Keychain p)) ++
    list_field "upstream_keychains" reference_value (prof_Keychains p) ++ str_field "anthropic_version" (prof_APIVersion p) ++
    list_field "supported_models" VStr (SupportedModels q) ++ map_field "model_aliases" VStr (ModelAliases q) ++
    str_field "upstream_id" (prof_UpstreamID p) ++ [("model_capabilities", capabilities_value (prof_Capabilities p))] ++
    list_field "error_code_mappings" mapping_value (ErrorCodeMappings p) ++ ptr_field "provider_switch_threshold" VInt (ProviderSwitchThreshold q) ++
    map_field "model_switch_thresholds" VInt (ModelSwitchThresholds q) ++ ptr_field "forward_error_messages" VBool (prof_ForwardErrorMessages p) ++
    map_field "prices" price_value (Prices q) ++ ptr_field "budget" budget_value (ProviderBudget q) ++
    int_field "max_active_sessions" (MaxActiveSessions q)).

Definition config_value (c : Config) : value :=
  VStruct (when (negb (bool_decide (ContentOutput c = no_content))) "content_output" (content_value (ContentOutput c)) ++
    ptr_field "health_diagnostics" VBool (cfg_HealthDiagnostics c) ++
    [("reconciliation", VStruct (str_field "statement_dir" (StatementDir (Reconciliation c)) ++
                                 int_field "poll_interval_seconds" (PollIntervalSeconds (Reconciliation c))));
     ("report_schedule", VStruct (str_field "time" (schedule_Time (Schedule c)) ++ str_field "channel" (schedule_Channel (Schedule c))));
     ("report_webhook", VStruct (str_field "provider" (webhook_Provider (ReportWebhook c)) ++
                                 [("keychain", reference_value (webhook_Keychain (ReportWebhook c)))]));
     ("model_capabilities", capabilities_value (cfg_Capabilities c)); ("limits", limits_value (cfg_Limits c)); ("listen_addr", VStr (ListenAddr c))] ++
    str_field "protocol" (cfg_Protocol c) ++ str_field "base_url" (cfg_BaseURL c) ++
    ptr_field "forward_error_messages" VBool (cfg_ForwardErrorMessages c) ++ map_field "providers" provider_value (Providers c) ++
    ptr_field "routing" routing_value (cfg_Routing c) ++ list_field "auto_chain" entry_value (cfg_AutoChain c) ++ str_field "model" (cfg_Model c) ++
    str_field "upstream_id" (cfg_UpstreamID c) ++ str_field "anthropic_version" (cfg_APIVersion c) ++
    [("upstream_keychain", reference_value (cfg_Keychain c)); ("access_token_keychain", reference_value (AccessTokenKeychain c));
     ("max_in_flight", VInt (MaxInFlight c))] ++
    int_field "active_session_idle_timeout_seconds" (IdleTimeoutSeconds c) ++ [("ledger_path", VStr (LedgerPath c))] ++
    map_field "prices" price_value (cfg_Prices c)).
(** What [writeCommandConfig] writes. *)
Definition config_text (c : Config) : string := string_of_bytes (indented 0 (config_value c) ++ [10]).

(** [refs] of all providers, with the gateway's own. *)
Definition configurationKeychainReferencesInUse `{!MapRange string Profile} (c : Config) : string + list KeychainReference :=
  let own := List.filter (fun r => negb (bool_decide (r = no_reference))) [AccessTokenKeychain c; cfg_Keychain c] in
  foldl (fun acc kv => match acc with
    | inl e => inl e
    | inr l => match KeychainReferences kv.2 with inl _ => inl "provider Keychain references are invalid" | inr refs => inr (l ++ refs) end
    end) (inr own) (range (Providers c)).

Section commands.
Context (ToLower ToUpper : string -> string) (parse_url : string -> option URL).
Context {RangeProviders : MapRange string Profile} {RangePrices : MapRange string Price}.
Context {RangeAliases : MapRange string string} {RangeThresholds : MapRange string Z}.
(** Whether the system is macOS, and the ledger beside the configuration. *)
Context (darwin : bool) (ledger_path : string).

Definition Validate (c : Config) : option string := Config_Validate ToLower ToUpper parse_url c.
Definition ValidateProviderBaseURL (value : string) : option string := validateBaseURL parse_url value "base_url".
Definition decodeValidatedConfig (data : string) : string + Config :=
  match decodeConfig ToLower data with
  | inl e => inl e
  | inr c => match Validate c with Some e => inl e | None => inr c end
  end.
Definition LoadConfig : cmd Config :=
  Act ReadFile (fun r => match r with Contents data => lift (decodeValidatedConfig data) | _ => fail "cannot read config" end).

Definition defaultListenAddr : string := "127.0.0.1:4000".
(** The configuration and the bytes it was read from; [None] without a file. *)
Definition loadCommandConfig : cmd (Config * option string) :=
  Act ReadFile (fun r => match r with
    | NotExist => ok (no_Config <| ListenAddr := defaultListenAddr |> <| LedgerPath := ledger_path |>, None)
    | Unreadable => fail "cannot read config"
    | Contents data => let! c := LoadConfig in ok (c, Some data)
    end).

Definition unchanged (expected : option string) (r : reading) : cmd unit :=
  match expected with
  | None => match r with NotExist => ok tt | _ => fail "config appeared during update; no changes were made" end
  | Some before =>
      match r with
      | Contents now => check (negb (String.eqb now before)) "config changed during update; no changes were made"
      | _ => fail "config changed during update; no changes were made"
      end
  end.
Definition writeCommandConfig (c : Config) (expected : option string) : cmd unit :=
  match Validate c with
  | Some e => fail e
  | None =>
      prepare "mkdir" "cannot create configuration directory" ;! prepare "create" "cannot prepare config" ;!
      prepare "chmod" "cannot protect config" ;! prepare "write" "cannot write config" ;! prepare "sync" "cannot sync config" ;!
      prepare "close" "cannot close config" ;!
      Act ReadFile (fun r => unchanged expected r ;!
        Act (Rename (config_text c)) (fun b => check (negb b) "could not atomically install config"))
  end.

(** ** The old form of a configuration *)

Definition providerNameFromBaseURL (baseURL : string) : string :=
  match parse_url baseURL with
  | None => "provider"
  | Some u =>
      let host := ToLower (Hostname u) in
      if String.eqb host "localhost" || bool_decide (is_Some (Net.ParseIP host)) then "local-provider"
      else
        let name := slug (Strings.runes (string_of_bytes (first_label (split_byte 46 (bytes_of_string host))))) [] false in
        let name := trim_set [45] name in
        if bool_decide (name = []) then "provider" else string_of_bytes (take max_label name)
  end.

(** The provider that the old fields describe. *)
Definition legacy_profile (c : Config) (protocol : string) : Profile :=
  no_Profile <| profile := no_Provider <| BaseURL := cfg_BaseURL c |> <| Prices := cfg_Prices c |> |> <| prof_Protocol := protocol |>
    <| prof_ForwardErrorMessages := cfg_ForwardErrorMessages c |> <| prof_Keychain := cfg_Keychain c |> <| prof_APIVersion := cfg_APIVersion c |>
    <| prof_UpstreamID := cfg_UpstreamID c |> <| prof_Capabilities := cfg_Capabilities c |>.
Definition legacy_name (c : Config) : option string := uniqueProviderName (∅ : gmap string Profile) (providerNameFromBaseURL (cfg_BaseURL c)).
Definition migrated (c : Config) (name protocol : string) : Config :=
  c <| cfg_ForwardErrorMessages := None |> <| Providers := {[ name := legacy_profile c protocol ]} |> <| cfg_Protocol := "" |> <| cfg_BaseURL := "" |>
    <| cfg_APIVersion := "" |> <| cfg_Keychain := no_reference |> <| cfg_Model := "" |> <| cfg_UpstreamID := "" |>
    <| cfg_Capabilities := no_capabilities |> <| cfg_Prices := ∅ |>.
(** [secrets]: whether the caller gave a key chain to look the key up in. *)
Definition migrateLegacyProvider (c : Config) (secrets : bool) : cmd Config :=
  if String.eqb (cfg_BaseURL c) "" || negb (bool_decide (size (Providers c) = 0%nat)) then ok c
  else match legacy_name c with
  | None => fail ""
  | Some name =>
      let protocol := if String.eqb (cfg_Protocol c) "" then "auto" else cfg_Protocol c in
      if secrets && String.eqb protocol "auto" then
        attempt (Lookup (cfg_Keychain c)) (fun key => match key with
          | inr key => Act (Inspect (cfg_BaseURL c) key (cfg_APIVersion c)) (fun info => match info with
              | Some (detected, _, _) => ok (migrated c name detected)
              | None => ok (migrated c name protocol)
              end)
          | inl _ => ok (migrated c name protocol)
          end)
      else ok (migrated c name protocol)
  end.

(** ** Transactions over the key chain and the configuration *)

(** The loop over the references of removed keys: whether a removal failed. *)
Fixpoint delete_all (seen inUse refs : list KeychainReference) (failed : bool) : cmd bool :=
  match refs with
  | [] => ok failed
  | r :: refs =>
      if bool_decide (r ∈ seen) then delete_all seen inUse refs failed
      else if bool_decide (r ∈ inUse) then delete_all (r :: seen) inUse refs failed
      else attempt (Delete r) (fun e => delete_all (r :: seen) inUse refs (match e with inl _ => true | inr _ => failed end))
  end.
Definition deleteUnreferencedProviderKeys (c : Config) (references : list KeychainReference) : cmd unit :=
  match first_error (fun r => KeychainReference_Validate r "upstream_keychains") references with
  | Some _ => fail "configuration was updated, but API key cleanup was skipped because a Keychain reference is invalid"
  | None =>
      match configurationKeychainReferencesInUse c with
      | inl _ => fail "configuration was updated, but API key cleanup was skipped because Keychain references are invalid"
      | inr inUse =>
          let! failed := delete_all [] inUse references false in
          check failed "configuration was updated, but one or more removed API keys could not be deleted from Keychain"
      end
  end.

Definition references_or (e : string) (p : Profile) : string + list KeychainReference :=
  match KeychainReferences p with inl _ => inl e | inr refs => inr refs end.
Definition invalid_references : string := "provider Keychain references are invalid".
Definition put_profile (name : string) (p : Profile) (c : Config) : Config := c <| Providers := <[name := p]> (Providers c) |>.
Definition not_found (ref : string) : string := "provider " +:+ dq +:+ ref +:+ dq +:+ " not found".
Definition with_provider {A} (c : Config) (ref : string) (f : Profile -> cmd A) : cmd A :=
  match Providers c !! ref with Some p => f p | None => fail (not_found ref) end.

(** [provider add], after the provider was described. *)
Definition persistProviderAddition (c : Config) (before : option string) (name apiKey : string) : cmd unit :=
  let p := default no_Profile (Providers c !! name) in
  let! providerRef := newKeychainReference "com.tidemux.provider" in
  let c := put_profile name (p <| prof_Keychain := providerRef |>) c in
  (if credentialRefEmpty (AccessTokenKeychain c) then ok tt
   else let! gatewayKey := or_else "gateway Keychain item unavailable" (Lookup (AccessTokenKeychain c)) in
        check (String.eqb gatewayKey apiKey) "provider API key must differ from the gateway API key") ;!
  or_else "cannot save provider API key in Keychain; unlock your login keychain and try again" (StoreNew providerRef apiKey) ;!
  or_delete providerRef
    (read_back providerRef apiKey "provider API key Keychain read-back verification failed" ;!
     if credentialRefEmpty (AccessTokenKeychain c) then
       let! gatewayRef := newKeychainReference "com.tidemux.gateway" in
       let! credential := randomCredential in
       or_else "cannot save gateway credential in Keychain" (StoreNew gatewayRef credential) ;!
       or_delete gatewayRef
         (read_back gatewayRef credential "gateway credential Keychain read-back verification failed" ;!
          writeCommandConfig (c <| AccessTokenKeychain := gatewayRef |>) before)
     else writeCommandConfig c before).

(** The loop of [appendProviderKey] over the keys of the group. *)
Fixpoint key_is_new (value : string) (refs : list KeychainReference) : cmd unit :=
  match refs with
  | [] => ok tt
  | r :: refs =>
      let! key := or_else "provider Keychain item unavailable" (Lookup r) in
      check (String.eqb key value) "provider API key is already present in this group" ;! key_is_new value refs
  end.
Definition appendProviderKey (c : Config) (before : option string) (name value : string) : cmd unit :=
  check (negb (validSecret value)) "a valid provider API key is required" ;!
  with_provider c name (fun p =>
    check (credentialRefEmpty (AccessTokenKeychain c)) "gateway credential is not configured" ;!
    let! accessToken := or_else "gateway Keychain item unavailable" (Lookup (AccessTokenKeychain c)) in
    check (String.eqb value accessToken) "provider API key must differ from the gateway API key" ;!
    let! refs := lift (references_or invalid_references p) in
    key_is_new value refs ;!
    let! newRef := newKeychainReference "com.tidemux.provider" in
    or_else "cannot save provider API key in Keychain" (StoreNew newRef value) ;!
    or_delete newRef
      (read_back newRef value "provider API key Keychain read-back verification failed" ;!
       writeCommandConfig (put_profile name (p <| prof_Keychain := no_reference |> <| prof_Keychains := refs ++ [newRef] |>) c) before)).

Definition removeProviderKey (c : Config) (before : option string) (name : string) (index : Z) : cmd unit :=
  with_provider c name (fun p =>
    let! refs := lift (references_or invalid_references p) in
    check (length refs <=? 1)%nat "a provider group must retain at least one API key" ;!
    check ((index <? 1) || (Z.of_nat (length refs) <? index)) "provider key index must identify an existing key" ;!
    let i := Z.to_nat (index - 1) in
    let target := nth i refs no_reference in
    or_else "provider Keychain item unavailable" (Lookup target) ;!
    let c := put_profile name (p <| prof_Keychain := no_reference |> <| prof_Keychains := take i refs ++ drop (S i) refs |>) c in
    writeCommandConfig c before ;!
    deleteUnreferencedProviderKeys c [target]).

(** The end of [provider update --rotate-key]. *)
Definition rotateProviderKey (c : Config) (before : option string) (name newKey : string) (p : Profile) (previous : list KeychainReference) : cmd unit :=
  let! gatewayKey := or_else "gateway Keychain item unavailable" (Lookup (AccessTokenKeychain c)) in
  check (String.eqb gatewayKey newKey) "provider API key must differ from the gateway API key" ;!
  let! newRef := newKeychainReference "com.tidemux.provider" in
  let p := if negb (bool_decide (prof_Keychains p = [])) then p <| prof_Keychains := [newRef] |> <| prof_Keychain := no_reference |>
           else p <| prof_Keychain := newRef |> in
  let c := put_profile name p c in
  or_else "cannot save provider API key in Keychain" (StoreNew newRef newKey) ;!
  or_delete newRef
    (read_back newRef newKey "provider API key Keychain read-back verification failed" ;! writeCommandConfig c before) ;!
  deleteUnreferencedProviderKeys c previous.

(** The end of [provider remove]. *)
Definition removeProvider (c : Config) (before : option string) (ref : string) (keyReferences : list KeychainReference) : cmd unit :=
  let c := c <| Providers := delete ref (Providers c) |> in
  writeCommandConfig c before ;! deleteUnreferencedProviderKeys c keyReferences.

(** The new key of the gateway, of [gateway configure]: it must differ from all
    keys of providers. *)
Fixpoint differs_from (key : string) (refs : list KeychainReference) : cmd unit :=
  match refs with
  | [] => ok tt
  | r :: refs =>
      let! providerKey := or_else "cannot verify distinct gateway and provider credentials" (Lookup r) in
      check (String.eqb key providerKey) "gateway API key must differ from every provider API key" ;! differs_from key refs
  end.
Fixpoint differs_from_all (key : string) (l : list (string * Profile)) : cmd unit :=
  match l with
  | [] => ok tt
  | (_, p) :: l =>
      let! refs := lift (references_or "cannot verify distinct gateway and provider credentials" p) in
      differs_from key refs ;! differs_from_all key l
  end.
Definition replaceGatewayKey (c : Config) (before : option string) (key : string) : cmd unit :=
  check (negb (validSecret key)) "gateway API key is empty or invalid" ;!
  differs_from_all key (range (Providers c)) ;!
  let! ref := newKeychainReference "com.tidemux.gateway" in
  or_else "cannot save gateway API key in Keychain" (StoreNew ref key) ;!
  or_delete ref
    (read_back ref key "gateway API key Keychain read-back verification failed" ;! writeCommandConfig (c <| AccessTokenKeychain := ref |>) before).

(** ** Lists of models *)

Definition comma_items (value : string) : list string := (fun l => Strings.TrimSpace (string_of_bytes l)) <$> split_byte 44 (bytes_of_string value).
Definition fold_word (s : string) : string := Strings.ToLowerASCII (Strings.ReplaceAll s (string_of_bytes [197; 191]) "s").
Definition isAllProviderModels (value : string) : bool :=
  let value := Strings.TrimSpace value in String.eqb (fold_word value) "all" || String.eqb value "*".

Definition listed_twice (model : string) : string := "model " +:+ dq +:+ model +:+ dq +:+ " is listed more than once".
(** The loop over the items; the models so far are in order. *)
Fixpoint model_list (items models : list string) : string + list string :=
  match items with
  | [] => inr models
  | m :: items =>
      if String.eqb m "" then inl "model list contains an empty ID"
      else if bool_decide (m ∈ models) then inl (listed_twice m)
      else model_list items (models ++ [m])
  end.
Definition parseProviderModelList (value : string) : string + list string := if blank value then inr [] else model_list (comma_items value) [].

Definition parseCommaList (value : string) : list string :=
  foldl (fun out m => if String.eqb m "" || bool_decide (m ∈ out) then out else out ++ [m]) [] (comma_items value).
Definition intersectModels (models allow : list string) : list string := List.filter (fun m => bool_decide (m ∈ allow)) models.

Definition visibleProviderModels : Z := 20.
Definition listed_model (models : list string) (number : string) : option string :=
  i ← Statements.ParseInt number;
  if (i <? 1) || (visibleProviderModels <? i) || (Z.of_nat (length models) <? i) then None else models !! Z.to_nat (i - 1).

Fixpoint select_discovered (items models selected : list string) : string + list string :=
  match items with
  | [] => inr selected
  | item :: items =>
      if String.eqb item "" then inl "model selection contains an empty entry"
      else match (if bool_decide (item ∈ models) then Some item else listed_model models item) with
      | None => inl (dq +:+ item +:+ dq +:+ " is not a listed model")
      | Some m => if bool_decide (m ∈ selected) then inl (listed_twice m) else select_discovered items models (selected ++ [m])
      end
  end.
Definition selectDiscoveredProviderModels (value : string) (models : list string) : string + list string := select_discovered (comma_items value) models [].

Definition control_set : list byte := [13; 10; 0].
Fixpoint select_scope (items models : list string) (known : bool) (selected : list string) : string + list string :=
  match items with
  | [] => inr selected
  | item :: items =>
      if String.eqb item "" then inl "model selection contains an empty entry"
      else
        let chosen :=
          if Strings.HasPrefix item "#" then
            if negb known then inl "numbered selection requires a discovered catalog; enter exact model IDs instead"
            else match listed_model models (String.substring 1 (String.length item - 1) item) with
            | Some m => inr m
            | None =>
                if bool_decide (models = []) then inl "the discovered catalog is empty; enter exact model IDs instead"
                else inl ("choose a listed number from #1 to #" +:+ Decimal.of_Z (Z.min visibleProviderModels (Z.of_nat (length models))) +:+
                          ", or enter an exact model ID")
            end
          else inr item in
        match chosen with
        | inl e => inl e
        | inr m =>
            if String.eqb m "" || negb (String.eqb m (Strings.TrimSpace m)) || contains_any control_set m
            then inl "model IDs must be non-empty, trimmed and contain no line breaks"
            else if bool_decide (m ∈ selected) then select_scope items models known selected
            else select_scope items models known (selected ++ [m])
        end
  end.
Definition parseModelScopeSelection (value : string) (models : list string) (known : bool) : string + list string :=
  select_scope (comma_items value) models known [].
Definition sameModelScope (left right : list string) : bool := bool_decide (left = right).

(** ** Questions *)

(** The loops that ask again end after [patience] answers. *)
Context (patience : nat).

Fixpoint ask_until {A} (fuel : nat) (question e : string) (accept : string -> option A) : cmd A :=
  match fuel with
  | O => fail e
  | S fuel =>
      let! value := ask question e in
      match accept (Strings.TrimSpace value) with Some x => ok x | None => ask_until fuel question e accept end
  end.

Definition openControlTTY (message : string) : cmd unit := Act (Ask "terminal") (fun r => match r with Some _ => ok tt | None => fail message end).
Definition unlockKeychainIfNeeded : cmd unit :=
  Act (Ask "unlock") (fun r => match r with Some _ => ok tt | None => fail "keychain is still unavailable after unlock; no configuration was changed" end).

Definition chooseProviderModels (models : list string) (known : bool) : cmd (list string) :=
  let all value := String.eqb value "" || isAllProviderModels value in
  if known then
    check (bool_decide (models = [])) "the provider returned an empty model list" ;!
    ask_until patience "models" "could not read allowed models" (fun value =>
      if all value then Some [] else match selectDiscoveredProviderModels value models with inr l => Some l | inl _ => None end)
  else
    ask_until patience "models" "could not read allowed model IDs" (fun value =>
      if all value then Some []
      else match parseProviderModelList value with inr (_ :: _ as l) => Some l | _ => None end).

Definition promptModelScope (models : list string) (known : bool) (current : list string) : cmd (list string * bool) :=
  ask_until patience "scope" "could not read model scope" (fun value =>
    if String.eqb value "" then Some (current, false)
    else if String.eqb (fold_word value) "all" then Some ([], negb (bool_decide (current = [])))
    else match parseModelScopeSelection value models known with
    | inr (_ :: _ as selected) => Some (selected, negb (sameModelScope selected current))
    | _ => None
    end).

Definition promptProviderProtocol : cmd string :=
  ask_until patience "protocol" "could not read provider protocol" (fun value =>
    let protocol := ToLower value in if member protocol ["openai"; "anthropic"] then Some protocol else None).

(** ** A new provider *)

Definition inspectAndCompleteProvider (endpoint key forcedProtocol apiVersion : string) : cmd Profile :=
  let! protocol :=
    if String.eqb forcedProtocol "" then
      Act (Inspect endpoint key apiVersion) (fun info => match info with Some (protocol, _, _) => ok protocol | None => promptProviderProtocol end)
    else ok forcedProtocol in
  let version := if String.eqb protocol "anthropic" then apiVersion else "" in
  ok (no_Profile <| profile := no_Provider <| BaseURL := endpoint |> |> <| prof_Protocol := protocol |> <| prof_APIVersion := version |>
    <| prof_UpstreamID := providerNameFromBaseURL endpoint |>).
Definition set_models (models : list string) (p : Profile) : Profile := p <| profile := (profile p) <| SupportedModels := models |> |>.
(** [allowedModels] is [None] when it is nil. *)
Definition inspectAndCompleteProviderWithModels (endpoint key forcedProtocol : string) (allowedModels : option (list string)) (promptForModels : bool)
    (apiVersion : string) : cmd Profile :=
  let! setup := inspectAndCompleteProvider endpoint key forcedProtocol apiVersion in
  match allowedModels with
  | Some models => ok (set_models models setup)
  | None =>
      if negb promptForModels then ok setup
      else Act (Discover endpoint key apiVersion (prof_Protocol setup)) (fun '(models, known) =>
        let! models := chooseProviderModels models known in ok (set_models models setup))
  end.

(** The hidden key, which is not trimmed. *)
Fixpoint ask_key (fuel : nat) : cmd string :=
  match fuel with
  | O => fail "could not read provider API key"
  | S fuel => let! key := ask "key" "could not read provider API key" in if validSecret key then ok key else ask_key fuel
  end.
Record setup := { setup_Name : string; setup_Provider : Profile; setup_APIKey : string }.
Definition promptNewProvider (anthropicVersion forcedProtocol : string) (allowedModels : option (list string)) (promptForModels : bool) (preferredName : string) : cmd setup :=
  let! baseURL := ask_until patience "url" "could not read provider API Base URL" (fun value =>
    if String.eqb value "" then None else match ValidateProviderBaseURL value with None => Some value | Some _ => None end) in
  let name := if String.eqb preferredName "" then providerNameFromBaseURL baseURL else preferredName in
  let! apiKey := ask_key patience in
  let! p := inspectAndCompleteProviderWithModels baseURL apiKey forcedProtocol allowedModels promptForModels anthropicVersion in
  ok {| setup_Name := name; setup_Provider := p <| prof_UpstreamID := name |>; setup_APIKey := apiKey |}.

(** ** The commands *)

Definition flag {A} (zero : A) (f : option A) : A := default zero f.
Definition some_models (l : list string) : option (list string) := if bool_decide (l = []) then None else Some l.
Definition needs_macos (e : string) : cmd unit := check (negb darwin) e.
Definition protocol_flag (protocol : string) : cmd unit :=
  check (negb (String.eqb protocol "") && negb (member protocol ["openai"; "anthropic"])) "--protocol must be openai or anthropic".

Definition promptReportSchedule : cmd ReportSchedule :=
  let! value := ask "notification time" "could not read notification time" in
  if blank value then ok no_schedule
  else match NormalizeReportScheduleTime value with
  | Some time => ok {| schedule_Time := time; schedule_Channel := "macos" |}
  | None => fail "report notification time must use HH:MM"
  end.

Record add_flags := { add_endpoint : string; add_name : string; add_protocol : string; add_model : option string; add_version : string }.
Definition providerAdd (f : add_flags) : cmd unit :=
  protocol_flag (add_protocol f) ;!
  let! allowed := lift (match parseProviderModelList (flag "" (add_model f)) with inl e => inl ("invalid --model allowlist: " +:+ e) | inr l => inr l end) in
  check (bool_decide (is_Some (add_model f)) && bool_decide (allowed = [])) "--model requires at least one allowed model ID" ;!
  needs_macos "provider credentials require macOS Keychain" ;!
  openControlTTY "provider setup requires an interactive terminal; API keys are read securely and never accepted as arguments" ;!
  unlockKeychainIfNeeded ;!
  let! s :=
    if String.eqb (add_endpoint f) "" then
      promptNewProvider (add_version f) (add_protocol f) (some_models allowed) (negb (bool_decide (is_Some (add_model f)))) (add_name f)
    else
      lift (match ValidateProviderBaseURL (add_endpoint f) with Some e => inl e | None => inr tt end) ;!
      let! key := ask "key" "could not read provider API key" in
      check (negb (validSecret key)) "a valid provider API key is required" ;!
      let! p := inspectAndCompleteProviderWithModels (add_endpoint f) key (add_protocol f) (some_models allowed) false (add_version f) in
      ok {| setup_Name := prof_UpstreamID p; setup_Provider := p; setup_APIKey := key |} in
  let wanted := if String.eqb (add_name f) "" then setup_Name s else add_name f in
  let! loaded := loadCommandConfig in
  let (c, before) := loaded : Config * option string in
  let! c :=
    if String.eqb (add_endpoint f) "" && bool_decide (before = None)
    then let! schedule := promptReportSchedule in ok (c <| Schedule := schedule |>) else ok c in
  let! c := migrateLegacyProvider c true in
  match uniqueProviderName (Providers c) wanted with
  | None => fail ""
  | Some name =>
      check (negb (validProviderLabel name)) "provider labels may contain only letters, numbers, dots, underscores and hyphens" ;!
      check (negb (String.eqb (add_name f) "") && negb (String.eqb name (add_name f)))
        ("provider " +:+ dq +:+ add_name f +:+ dq +:+ " already exists; choose another --name") ;!
      let p := (setup_Provider s) <| prof_UpstreamID := name |> <| prof_Capabilities := no_capabilities |> in
      let p := if String.eqb (prof_Protocol p) "anthropic" && String.eqb (prof_APIVersion p) "" then p <| prof_APIVersion := add_version f |> else p in
      let c := if bool_decide (size (Providers c) = 0%nat) then c <| cfg_ForwardErrorMessages := None |> else c in
      persistProviderAddition (put_profile name p c) before name (setup_APIKey s)
  end.

Definition providerKeyAdd (ref : string) : cmd unit :=
  check (String.eqb ref "") "usage: tidemux provider key add REF [--config PATH]" ;!
  needs_macos "provider credentials require macOS Keychain" ;!
  let! loaded := loadCommandConfig in
  let (c, before) := loaded : Config * option string in
  let! c := migrateLegacyProvider c true in
  with_provider c ref (fun _ =>
    openControlTTY "adding a provider API key requires an interactive terminal; keys are never accepted as command arguments" ;!
    unlockKeychainIfNeeded ;!
    let! secret := ask "key" "could not read provider API key" in
    appendProviderKey c before ref secret).

Definition confirmed (answer : string) : bool := member (fold_word (Strings.TrimSpace answer)) ["y"; "yes"].
Definition confirm (canceled : string) : cmd unit :=
  let! answer := ask "confirm" canceled in check (negb (confirmed answer)) canceled.

Definition providerKeyRemove (ref number : string) (yes : bool) : cmd unit :=
  check (String.eqb ref "") "usage: tidemux provider key remove REF INDEX [--yes] [--config PATH]" ;!
  needs_macos "provider credentials require macOS Keychain" ;!
  let! loaded := loadCommandConfig in
  let (c, before) := loaded : Config * option string in
  with_provider c ref (fun p =>
    let! refs := lift (references_or invalid_references p) in
    check (length refs <=? 1)%nat "a provider group must retain at least one API key" ;!
    match Statements.ParseInt number with
    | None => fail "provider key index must identify an existing key"
    | Some index =>
        check ((index <? 1) || (Z.of_nat (length refs) <? index)) "provider key index must identify an existing key" ;!
        (if yes then ok tt
         else openControlTTY "provider key removal requires a terminal; use --yes for non-interactive use" ;!
              confirm "provider key removal canceled" ;! unlockKeychainIfNeeded) ;!
        removeProviderKey c before ref index
    end).

Definition providerRemove (ref : string) (yes : bool) : cmd unit :=
  check (String.eqb ref "") "usage: tidemux provider remove REF [--yes] [--config PATH]" ;!
  let! loaded := loadCommandConfig in
  let (c, before) := loaded : Config * option string in
  let! c := migrateLegacyProvider c true in
  with_provider c ref (fun p =>
    let! refs := lift (references_or invalid_references p) in
    needs_macos "provider removal requires macOS Keychain" ;!
    (if yes then ok tt
     else openControlTTY "provider removal requires an interactive terminal; pass --yes for non-interactive use" ;! confirm "provider removal canceled") ;!
    removeProvider c before ref refs).

(** [provider update]; without any flag it asks.  The test for a changed field
    after that cannot fail. *)
Record update_flags := {
  up_endpoint : string; up_protocol : string; up_model : option string; up_aliases : option string; up_context : option Z; up_rotate : bool;
  up_sessions : option Z; up_version : option string }.
#[local] Instance update_flags_eta : Eta update_flags := fun f =>
  {| up_endpoint := up_endpoint f; up_protocol := up_protocol f; up_model := up_model f; up_aliases := up_aliases f; up_context := up_context f;
     up_rotate := up_rotate f; up_sessions := up_sessions f; up_version := up_version f |}.
Definition default_version : string := "2023-06-01".
Definition nothing_requested (f : update_flags) : bool :=
  String.eqb (up_endpoint f) "" && String.eqb (up_protocol f) "" && bool_decide (up_model f = None) && bool_decide (up_aliases f = None) &&
  negb (up_rotate f) && bool_decide (up_version f = None) && bool_decide (up_sessions f = None) && bool_decide (up_context f = None).

(** [promptProviderUpdate]: the endpoint, the protocol and the models, when it
    changes something. *)
Definition promptProviderUpdate (p : Profile) : cmd (option (string * string * option string)) :=
  let current := BaseURL (profile p) in
  let! endpoint := ask "endpoint" "could not read provider endpoint" in
  let endpoint := Strings.TrimSpace endpoint in
  (if String.eqb endpoint "" then ok tt
   else match ValidateProviderBaseURL endpoint with Some e => fail ("invalid provider endpoint: " +:+ e) | None => ok tt end) ;!
  let endpointChanged := negb (String.eqb endpoint "") && negb (String.eqb endpoint current) in
  let! protocol := ask "protocol override" "could not read provider protocol" in
  let protocol := ToLower (Strings.TrimSpace protocol) in
  check (negb (String.eqb protocol "") && negb (member protocol ["openai"; "anthropic"])) "protocol override must be openai or anthropic" ;!
  let! models := ask "allowed models" "could not read provider model scope" in
  let models := Strings.TrimSpace models in
  let scope := SupportedModels (profile p) in
  let! model :=
    if String.eqb models "" then ok None
    else if isAllProviderModels models then ok (if bool_decide (scope = []) then None else Some "all")
    else match parseProviderModelList models with
    | inl e => fail ("invalid model scope: " +:+ e)
    | inr l =>
        check (bool_decide (l = [])) "invalid model scope: enter model IDs or 'all'" ;!
        ok (if endpointChanged || negb (sameModelScope l scope) then Some (Strings.Join l ",") else None)
    end in
  let endpoint := if endpointChanged then endpoint else "" in
  let protocol := if negb (String.eqb protocol "") && (endpointChanged || negb (String.eqb protocol (prof_Protocol p))) then protocol else "" in
  ok (if String.eqb endpoint "" && String.eqb protocol "" && bool_decide (model = None) then None else Some (endpoint, protocol, model)).

(** [--model]: the new scope, if any. *)
Definition requested_models (model : option string) : string + option (list string) :=
  match model with
  | None => inr None
  | Some m =>
      if isAllProviderModels m then inr (Some [])
      else match parseProviderModelList m with
      | inl e => inl ("invalid --model allowlist: " +:+ e)
      | inr l => if bool_decide (l = []) then inl "--model requires model IDs or 'all'" else inr (Some l)
      end
  end.
(** [--model-aliases]. *)
Definition parse_aliases (text : string) : option (gmap string string) :=
  j ← parse text; if is_null j then None else dec_map_of "" dec_string j ∅.
Definition alias_usage : string := "--model-aliases must be a JSON object mapping client names to upstream model IDs".

(** The fields that need no credential. *)
Definition update_fields (f : update_flags) (models : option (list string)) (p : Profile) : string + Profile :=
  let p := match models with Some l => set_models l p | None => p end in
  match (match up_aliases f with
         | None => inr p
         | Some text => match parse_aliases text with Some m => inr (p <| profile := (profile p) <| ModelAliases := m |> |>) | None => inl alias_usage end
         end) with
  | inl e => inl e
  | inr p =>
      let p := match up_sessions f with Some n => p <| profile := (profile p) <| MaxActiveSessions := n |> |> | None => p end in
      let p := match up_context f with Some n => p <| prof_Capabilities := (prof_Capabilities p) <| cap_ContextTokens := n |> |> | None => p end in
      match (match up_context f with Some _ => ModelCapabilities_Validate (prof_Capabilities p) | None => None end) with
      | Some e => inl ("invalid --context-tokens: " +:+ e)
      | None =>
          let version := flag default_version (up_version f) in
          if bool_decide (is_Some (up_version f)) && negb (String.eqb (prof_Protocol p) "anthropic")
          then inl "--anthropic-version is valid only for an Anthropic provider"
          else
            let p := if bool_decide (is_Some (up_version f)) then p <| prof_APIVersion := version |> else p in
            let p := if String.eqb (prof_Protocol p) "anthropic" && String.eqb (prof_APIVersion p) "" then p <| prof_APIVersion := version |> else p in
            inr (if String.eqb (prof_Protocol p) "openai" then p <| prof_APIVersion := "" |> else p)
      end
  end.

Definition providerUpdate (ref : string) (f : update_flags) : cmd unit :=
  check (String.eqb ref "") "usage: tidemux provider update REF" ;!
  check (match up_sessions f with Some n => (n <? 0) || (4096 <? n) | None => false end) "--max-active-sessions must be 0..4096" ;!
  needs_macos "provider credentials require macOS Keychain" ;!
  let! loaded := loadCommandConfig in
  let (c, before) := loaded : Config * option string in
  let! c := migrateLegacyProvider c true in
  with_provider c ref (fun p =>
    let! changes :=
      if nothing_requested f then
        openControlTTY "provider update requires an interactive terminal; supply fields with flags for non-interactive use" ;!
        let! changes := promptProviderUpdate p in
        ok (match changes with
            | None => None
            | Some (endpoint, protocol, model) => Some (f <| up_endpoint := endpoint |> <| up_protocol := protocol |> <| up_model := model |>)
            end)
      else ok (Some f) in
    match changes with
    | None => ok tt
    | Some f =>
        protocol_flag (up_protocol f) ;!
        let! models := lift (requested_models (up_model f)) in
        check (up_rotate f && (1 <? length (prof_Keychains p))%nat)
          "provider update --rotate-key supports one-key profiles; use provider key management for a key group" ;!
        let! previous := if up_rotate f then lift (references_or invalid_references p) else ok [] in
        (if String.eqb (up_endpoint f) "" then ok tt else lift (match ValidateProviderBaseURL (up_endpoint f) with Some e => inl e | None => inr tt end)) ;!
        let inspects := negb (String.eqb (up_endpoint f) "") || negb (String.eqb (up_protocol f) "") in
        (if inspects || up_rotate f then
           openControlTTY "provider credential or endpoint changes require an interactive terminal" ;! unlockKeychainIfNeeded
         else ok tt) ;!
        let! key :=
          if inspects then
            let! refs := lift (references_or invalid_references p) in
            or_else "provider Keychain item unavailable" (Lookup (nth 0 refs no_reference))
          else ok "" in
        let! newKey :=
          if up_rotate f then
            let! newKey := ask "key" "could not read provider API key" in
            check (negb (validSecret newKey)) "a valid provider API key is required" ;! ok newKey
          else ok "" in
        let key := if up_rotate f then newKey else key in
        let! p :=
          if inspects then
            let baseURL := if String.eqb (up_endpoint f) "" then BaseURL (profile p) else up_endpoint f in
            let forced := if String.eqb (up_protocol f) "" && String.eqb (up_endpoint f) "" && negb (String.eqb (prof_Protocol p) "auto")
                          then prof_Protocol p else up_protocol f in
            let! s := inspectAndCompleteProvider baseURL key forced (flag default_version (up_version f)) in
            let p := p <| profile := (profile p) <| BaseURL := BaseURL (profile s) |> |> <| prof_Protocol := prof_Protocol s |> <| prof_APIVersion := prof_APIVersion s |> in
            ok (if String.eqb (up_endpoint f) "" then p else set_models [] p)
          else ok p in
        let! p := lift (update_fields f models p) in
        if up_rotate f then rotateProviderKey (put_profile ref p c) before ref newKey p previous
        else writeCommandConfig (put_profile ref p c) before
    end).

(** A command that edits one provider, without its credentials. *)
Definition edit_provider (ref : string) (edit : Profile -> string + Profile) : cmd unit :=
  let! loaded := loadCommandConfig in
  let (c, before) := loaded : Config * option string in
  with_provider c ref (fun p => let! p := lift (edit p) in writeCommandConfig (put_profile ref p c) before).

Definition set_prices (prices : gmap string Price) (p : Profile) : Profile := p <| profile := (profile p) <| Prices := prices |> |>.
(** A rate below zero is one that was not given. *)
Definition providerPricingSet (ref model currency source version : string) (hit miss output : spec_float) : cmd unit :=
  check (String.eqb ref "" || String.eqb model "") "usage: tidemux provider pricing set REF MODEL" ;!
  check (Float.lt hit Float.zero || Float.lt miss Float.zero || Float.lt output Float.zero)
    "pricing set requires --input-cache-hit, --input-cache-miss and --output" ;!
  edit_provider ref (fun p =>
    let price := {| Pricing.Currency := ToUpper currency; Source := source; Version := version; InputCacheHit := Some hit;
                    InputCacheMiss := Some miss; OutputPrice := Some output |} in
    match Pricing.Validate ToUpper price with
    | Some e => inl e
    | None => inr (set_prices (<[model := price]> (Prices (profile p))) p)
    end).
Definition providerPricingRemove (ref model : string) : cmd unit :=
  check (String.eqb ref "" || String.eqb model "") "usage: tidemux provider pricing remove REF MODEL [--config PATH]" ;!
  edit_provider ref (fun p =>
    match Prices (profile p) !! model with
    | None => inl ("no custom price for " +:+ model)
    | Some _ => inr (set_prices (delete model (Prices (profile p))) p)
    end).

Definition error_map_add (mapping : ProviderErrorMapping) (p : Profile) : string + Profile :=
  let l := ErrorCodeMappings p ++ [mapping] in
  match ValidateProviderErrorMappings l with Some e => inl (mapping_error_text e) | None => inr (p <| ErrorCodeMappings := l |>) end.
Definition error_map_remove (code : string) (status : Z) (p : Profile) : string + Profile :=
  let matches m := String.eqb (UpstreamCode m) code && (MappedStatus m =? status) in
  if existsb matches (ErrorCodeMappings p) then inr (p <| ErrorCodeMappings := List.filter (fun m => negb (matches m)) (ErrorCodeMappings p) |>)
  else inl "matching provider error-code mapping not found".
(** [provider error-map add] and [remove], with the flags that were given. *)
Definition providerErrorMapAdd (ref : string) (code category : option string) (status : option Z) : cmd unit :=
  edit_provider ref (fun p =>
    match code, category with
    | Some code, Some category => error_map_add {| UpstreamCode := code; MappedStatus := flag 0 status; MappedCategory := category |} p
    | _, _ => inl "provider error-map add requires --code CODE and --category CATEGORY"
    end).
Definition providerErrorMapRemove (ref : string) (code category : option string) (status : option Z) : cmd unit :=
  edit_provider ref (fun p =>
    match code, category with
    | Some code, None => error_map_remove code (flag 0 status) p
    | _, _ => inl "provider error-map remove requires --code CODE and accepts --status STATUS"
    end).

(** [provider models] with [--only], [--all] or [--select]; the list without a
    flag only reads. *)
Inductive scope_flag := Only (models : string) | AllModels | Select.
Definition saveProviderModelScope (c : Config) (before : option string) (ref : string) (models : list string) : cmd unit :=
  with_provider c ref (fun p => writeCommandConfig (put_profile ref (set_models models p) c) before).
Definition providerModelsSelect (ref : string) : cmd unit :=
  needs_macos "model catalog selection requires macOS Keychain" ;!
  let! loaded := loadCommandConfig in
  let (c, before) := loaded : Config * option string in
  let! c := migrateLegacyProvider c false in
  with_provider c ref (fun p =>
    openControlTTY "interactive model selection requires a terminal" ;! unlockKeychainIfNeeded ;!
    let! refs := lift (references_or invalid_references p) in
    let! key := or_else "provider Keychain item unavailable" (Lookup (nth 0 refs no_reference)) in
    let choose models known :=
      let! chosen := promptModelScope models known (SupportedModels (profile p)) in
      let (selected, changed) := chosen : list string * bool in
      if changed : bool then saveProviderModelScope c before ref selected else ok tt in
    let url := BaseURL (profile p) in
    if String.eqb (prof_Protocol p) "" || String.eqb (prof_Protocol p) "auto" then
      Act (Inspect url key (prof_APIVersion p)) (fun info => match info with Some (_, models, known) => choose models known | None => choose [] false end)
    else Act (Discover url key (prof_APIVersion p) (prof_Protocol p)) (fun '(models, known) => choose models known)).
Definition providerModels (ref : string) (f : scope_flag) : cmd unit :=
  check (String.eqb ref "") "usage: tidemux provider models REF [--only MODELS|--all|--select] [--config PATH]" ;!
  match f with
  | Only models => edit_provider ref (fun p =>
      let l := parseCommaList models in if bool_decide (l = []) then inl "--only requires at least one model ID" else inr (set_models l p))
  | AllModels => edit_provider ref (fun p => inr (set_models [] p))
  | Select => let! loaded := loadCommandConfig in with_provider loaded.1 ref (fun _ => providerModelsSelect ref)
  end.

(** [provider budget]. *)
Record budget_flags := {
  bf_five_hour : option spec_float; bf_weekly : option spec_float; bf_currency : option string; bf_mode : option string;
  bf_threshold : option spec_float; bf_disable : bool }.
(** [strconv.ParseFloat(s, 64)] and [strconv.FormatFloat(x, 'g', -1, 64)]. *)
Context (ParseFloat : string -> option spec_float) (FormatFloat : spec_float -> string).
Definition ask_field (question value : string) : cmd string :=
  let! answer := ask question "interactive input ended" in
  let answer := Strings.TrimSpace answer in ok (if String.eqb answer "" then value else answer).
Definition parseBudgetValue (value : string) : cmd spec_float :=
  if String.eqb value "" then ok Float.zero
  else match ParseFloat value with
  | Some n => if Float.lt n Float.zero then fail "budget limit must be a non-negative number" else ok n
  | None => fail "budget limit must be a non-negative number"
  end.
Definition is_zero (x : spec_float) : bool := SFeqb x Float.zero.
Definition or_text (s value : string) : string := if String.eqb s "" then value else s.
Definition or_float (x value : spec_float) : spec_float := if is_zero x then value else x.
Definition default_threshold : spec_float := default Float.zero (FloatText.ParseFloat "0.8").
Definition with_defaults (b : Budget.BudgetPolicy) : Budget.BudgetPolicy :=
  b <| Budget.Currency := or_text (Budget.Currency b) "USD" |> <| Budget.AlertThreshold := or_float (Budget.AlertThreshold b) default_threshold |>
    <| Budget.Mode := or_text (Budget.Mode b) "hard" |>.
Definition no_limits (b : Budget.BudgetPolicy) : bool := is_zero (Budget.FiveHourLimit b) && is_zero (Budget.WeeklyLimit b).
Definition promptBudget (current : Budget.BudgetPolicy) : cmd Budget.BudgetPolicy :=
  let! value := ask_field "5h limit" (FormatFloat (Budget.FiveHourLimit current)) in
  let! five := parseBudgetValue value in
  let! value := ask_field "weekly limit" (FormatFloat (Budget.WeeklyLimit current)) in
  let! weekly := parseBudgetValue value in
  let current := current <| Budget.FiveHourLimit := five |> <| Budget.WeeklyLimit := weekly |> in
  if no_limits current then ok no_budget
  else
    let current := with_defaults current in
    let! currency := ask_field "currency" (Budget.Currency current) in
    let! mode := ask_field "mode" (Budget.Mode current) in
    let! value := ask_field "alert threshold" (FormatFloat (Budget.AlertThreshold current)) in
    match ParseFloat value with
    | None => fail "invalid alert threshold"
    | Some threshold =>
        ok (current <| Budget.Currency := currency |> <| Budget.Mode := mode |> <| Budget.AlertThreshold := threshold |>)
    end.
Definition sortedProviderNames (providers : gmap string Profile) : list string := Sort.Strings (map_to_list providers).*1.
Definition asks_budget (f : budget_flags) : bool :=
  negb (bf_disable f) && bool_decide (bf_five_hour f = None) && bool_decide (bf_weekly f = None) && bool_decide (bf_currency f = None) &&
  bool_decide (bf_mode f = None) && bool_decide (bf_threshold f = None).
Definition flagged_budget (f : budget_flags) (b : Budget.BudgetPolicy) : Budget.BudgetPolicy :=
  b <| Budget.FiveHourLimit := flag (Budget.FiveHourLimit b) (bf_five_hour f) |> <| Budget.WeeklyLimit := flag (Budget.WeeklyLimit b) (bf_weekly f) |>
    <| Budget.Currency := flag (Budget.Currency b) (bf_currency f) |> <| Budget.Mode := flag (Budget.Mode b) (bf_mode f) |>
    <| Budget.AlertThreshold := flag (Budget.AlertThreshold b) (bf_threshold f) |>.
Definition settled_budget (b : Budget.BudgetPolicy) : Budget.BudgetPolicy := if no_limits b then no_budget else with_defaults b.
Definition providerBudgetCommand (ref : string) (f : budget_flags) : cmd unit :=
  Act ReadFile (fun r => match r with
    | Contents before =>
        let! c := LoadConfig in
        let! c := migrateLegacyProvider c false in
        check (bool_decide (size (Providers c) = 0%nat)) "no provider is configured; run `tidemux provider add` first" ;!
        let! ref :=
          if negb (String.eqb ref "") then ok ref
          else check (negb (bool_decide (size (Providers c) = 1%nat))) "specify a provider: `tidemux provider budget REF`" ;!
               ok (nth 0 (sortedProviderNames (Providers c)) "") in
        with_provider c ref (fun p =>
          let current := default no_budget (ProviderBudget (profile p)) in
          let! current :=
            if asks_budget f then promptBudget current else ok (if bf_disable f then no_budget else flagged_budget f current) in
          let current := settled_budget current in
          let budget := if Budget.zero_policy current then None else Some current in
          writeCommandConfig (put_profile ref (p <| profile := (profile p) <| ProviderBudget := budget |> |>) c) (Some before))
    | _ => fail "cannot read config"
    end).

(** [routing set]; [None] for [--provider-switch-threshold default]. *)
Definition routing_settings (r : RoutingConfig) (shared threshold : option string) : string + RoutingConfig :=
  match (match shared with
         | None => inr r
         | Some s => if member s ["off"; "none"] then inr (r <| SharedModelStrategy := "" |>)
                     else if member s ["random"; "price_priority"] then inr (r <| SharedModelStrategy := s |>)
                     else inl "--shared-model-strategy must be off, random or price_priority"
         end) with
  | inl e => inl e
  | inr r =>
      match threshold with
      | None => inr r
      | Some t =>
          if String.eqb t "default" then inr (r <| RoutingSwitchThreshold := None |>)
          else match Statements.ParseInt t with
          | Some n => if (n <? 0) || (86400 <? n) then inl "--provider-switch-threshold must be 0..86400 seconds or default"
                      else inr (r <| RoutingSwitchThreshold := Some n |>)
          | None => inl "--provider-switch-threshold must be 0..86400 seconds or default"
          end
      end
  end.
Definition stored_routing (r : RoutingConfig) : option RoutingConfig :=
  if String.eqb (SharedModelStrategy r) "" && bool_decide (RoutingSwitchThreshold r = None) then None else Some r.
Definition routingCommand (shared threshold : option string) : cmd unit :=
  let! loaded := loadCommandConfig in
  let (c, before) := loaded : Config * option string in
  check (bool_decide (shared = None) && bool_decide (threshold = None)) "routing set requires --shared-model-strategy or --provider-switch-threshold" ;!
  let! r := lift (routing_settings (EffectiveRouting (cfg_Routing c)) shared threshold) in
  writeCommandConfig (c <| cfg_Routing := stored_routing r |>) before.

(** [auto-chain set] with [--entries] or pairs of arguments, and [clear]. *)
Definition parse_entry (value : string) : string + AutoChainEntry :=
  match cut_byte 47 (bytes_of_string value) with
  | Some (provider, model) =>
      if bool_decide (provider = []) || bool_decide (model = []) then inl "each auto-chain entry must use REF/MODEL"
      else inr (ChainEntry (string_of_bytes provider) (string_of_bytes model))
  | None => inl "each auto-chain entry must use REF/MODEL"
  end.
Fixpoint parse_entries (l : list string) : string + list AutoChainEntry :=
  match l with
  | [] => inr []
  | v :: l => match parse_entry v with inl e => inl e | inr x => match parse_entries l with inl e => inl e | inr xs => inr (x :: xs) end end
  end.
Fixpoint entry_pairs (args : list string) : option (list AutoChainEntry) :=
  match args with
  | [] => Some []
  | p :: m :: args => (fun l => ChainEntry p m :: l) <$> entry_pairs args
  | _ => None
  end.
Definition chain_of (entries : option string) (args : list string) : string + list AutoChainEntry :=
  match entries with
  | Some e =>
      if negb (bool_decide (args = [])) || blank e then inl "auto-chain set requires either --entries or PROVIDER MODEL pairs"
      else parse_entries (comma_items e)
  | None =>
      match args, entry_pairs args with
      | _ :: _, Some l => inr l
      | _, _ => inl "usage: tidemux auto-chain set [--config PATH] PROVIDER MODEL [PROVIDER MODEL ...]"
      end
  end.
Definition autoChainSet (entries : option string) (args : list string) : cmd unit :=
  let! loaded := loadCommandConfig in
  let (c, before) := loaded : Config * option string in
  let! chain := lift (chain_of entries args) in writeCommandConfig (c <| cfg_AutoChain := chain |>) before.
Definition autoChainClear (entries : option string) : cmd unit :=
  let! loaded := loadCommandConfig in
  let (c, before) := loaded : Config * option string in
  check (bool_decide (is_Some entries)) "auto-chain clear accepts only --config" ;! writeCommandConfig (c <| cfg_AutoChain := [] |>) before.

(** [gateway configure]. *)
Record gateway_flags := { gw_listen : option string; gw_max : option Z; gw_idle : option Z; gw_health : option bool; gw_rotate : option bool }.
Definition isLoopbackListenAddr (addr : string) : bool :=
  match Net.SplitHostPort addr with
  | Some (host, _) => default false (Net.IsLoopback <$> Net.ParseIP host)
  | None => false
  end.
(** [net.JoinHostPort] of an IPv4 address. *)
Definition JoinHostPort (host port : string) : string := host +:+ ":" +:+ port.
Definition dec_listen : decoder string := dec_struct [field_of "listen_addr" dec_string (fun s : string => s) (fun x _ => x)].
Definition mustCurrentListenAddr (before : option string) (fallback : string) : string :=
  match before with
  | None => fallback
  | Some text =>
      if String.eqb text "" then fallback
      else match Unmarshal dec_listen "" text with Some addr => or_text addr fallback | None => fallback end
  end.
Definition readPromptDefault (label current : string) : cmd string :=
  let! value := ask label "could not read gateway setting" in
  ok (if blank value then current else Strings.TrimSpace value).
Definition readPromptInt (label : string) (current : Z) : cmd Z :=
  let! value := readPromptDefault label (Decimal.of_Z current) in
  match Statements.ParseInt value with Some n => ok n | None => fail (label +:+ " must be an integer") end.

(** [listen] is set when the flag was given or asked for; rotating needs a
    terminal, which a listener that was opened up has. *)
Definition gatewayConfigure (f : gateway_flags) : cmd unit :=
  let given := flag "" (gw_listen f) in
  check (negb (String.eqb given "") && negb (member given ["loopback"; "0.0.0.0"])) "--listen must be loopback or 0.0.0.0" ;!
  let! loaded := loadCommandConfig in
  let (c, before) := loaded : Config * option string in
  let! c := migrateLegacyProvider c true in
  let rotate := flag false (gw_rotate f) in
  let interactive := bool_decide (gw_listen f = None) && bool_decide (gw_max f = None) && bool_decide (gw_idle f = None) &&
                     bool_decide (gw_health f = None) && bool_decide (gw_rotate f = None) in
  let terminal := interactive || (String.eqb given "0.0.0.0" && isLoopbackListenAddr (ListenAddr c)) || rotate ||
                  credentialRefEmpty (AccessTokenKeychain c) in
  (if terminal then needs_macos "gateway credentials require macOS Keychain" ;! openControlTTY "gateway setup requires an interactive terminal" ;!
                    unlockKeychainIfNeeded
   else ok tt) ;!
  let! asked :=
    if interactive then
      let! mode := readPromptDefault "Listener mode (loopback or 0.0.0.0)" (if isLoopbackListenAddr (ListenAddr c) then "loopback" else "0.0.0.0") in
      check (negb (member mode ["loopback"; "0.0.0.0"])) "listener mode must be loopback or 0.0.0.0" ;!
      let! n := readPromptInt "Maximum simultaneous upstream requests (0 disables; requires restart)" (MaxInFlight c) in
      let! idle := readPromptInt "Inactive session release seconds (0 means 300)" (IdleTimeoutSeconds c) in
      ok (mode, Some n, Some idle)
    else ok (given, gw_max f, gw_idle f) in
  let '(listen, max, idle) := asked : string * option Z * option Z in
  let! c :=
    if String.eqb listen "" then ok c
    else match Net.SplitHostPort (ListenAddr c) with
    | Some (_, port) => ok (c <| ListenAddr := JoinHostPort (if String.eqb listen "0.0.0.0" then "0.0.0.0" else "127.0.0.1") port |>)
    | None => fail "current listener address is invalid"
    end in
  let c := c <| MaxInFlight := flag (MaxInFlight c) max |> <| IdleTimeoutSeconds := flag (IdleTimeoutSeconds c) idle |> in
  let c := match gw_health f with Some b => c <| cfg_HealthDiagnostics := Some b |> | None => c end in
  let wasLoopback := isLoopbackListenAddr (mustCurrentListenAddr before (ListenAddr c)) in
  if credentialRefEmpty (AccessTokenKeychain c) || (String.eqb listen "0.0.0.0" && wasLoopback) || rotate then
    check (negb terminal) "switching to external access requires a terminal; enter a gateway API key or press Enter to generate one" ;!
    let! key := ask "key" "could not read gateway API key" in
    let! key := if String.eqb key "" then randomCredential else ok key in
    replaceGatewayKey c before key
  else
    (if isLoopbackListenAddr (ListenAddr c) then ok tt
     else attempt (Lookup (AccessTokenKeychain c)) (fun r => match r with
       | inr _ => ok tt
       | inl _ => fail "external access requires an available gateway API key; rerun with --rotate-key"
       end)) ;!
    writeCommandConfig c before.
End commands.
