(* ===== verification/CommandFacts.v ===== *)
(** * Commands on the configuration: properties

    A command runs in a [world] of one file and a key chain.  Every operation
    can fail, and the command can be killed between any two: [safe] says what
    holds of every world on the way. *)

From S2P Require Import Prelude GoStrings GoFloat Json NetText Diagnostics Errors Pricing Routes View Catalog Config ConfigFacts Interaction Commands.
From S2P Require Upstream Budget Statements Utf8Facts.

#[local] Open Scope cmd_scope.

#[export] Instance KeychainReference_countable : Countable KeychainReference.
Proof. refine (inj_countable' (fun r => (Service r, Account r)) (fun p => {| Service := p.1; Account := p.2 |}) _). by intros []. Defined.

(** ** Credentials that resolve *)

Section credentials.
Context (ToLower ToUpper : string -> string) (parse_url : string -> option URL).
Context {RangeProviders : MapRange string Profile} {RangePrices : MapRange string Price}.
Context {RangeAliases : MapRange string string} {RangeThresholds : MapRange string Z}.
Let Validate := Validate ToLower ToUpper parse_url.

Definition fit_key (token k : string) : Prop := usable_key k /\ k <> token.
(** The keys of a provider are found, usable and distinct. *)
Definition group (lookup : KeychainReference -> option string) (token : string) (p : Profile) : Prop :=
  exists refs keys, KeychainReferences p = inr refs /\ mapM lookup refs = Some keys /\ Forall (fit_key token) keys /\ NoDup keys.
Definition keyed (lookup : KeychainReference -> option string) (c : Config) : Prop :=
  exists token, lookup (AccessTokenKeychain c) = Some token /\ usable_key token /\ map_Forall (fun _ => group lookup token) (Providers c) /\
    (Providers c = ∅ -> cfg_BaseURL c <> "" -> exists k, lookup (cfg_Keychain c) = Some k /\ fit_key token k).
Definition resolves (lookup : KeychainReference -> option string) (c : Config) : Prop :=
  exists c', ResolveCredentials ToLower ToUpper parse_url lookup c = inr c'.

Lemma resolve_all_group lookup token l providers acc : (forall name p, (name, p) ∈ l -> group lookup token p) -> Forall (fit_key token) acc ->
  (forall name p, providers !! name = Some p -> NoDup (prof_APIKeys p) \/ name ∈ l.*1) ->
  exists providers' keys, resolve_all lookup l providers acc = inr (providers', keys) /\ Forall (fit_key token) keys /\ map_Forall (fun _ p => NoDup (prof_APIKeys p)) providers'.
Proof.
  revert providers acc. induction l as [|[name p] l IH]; intros providers acc Hl Hacc Hp; cbn.
  { exists providers, acc. split_and!; [done..|]. intros name p Hname. destruct (Hp name p Hname) as [|Hin]; [done|]. by apply not_elem_of_nil in Hin. }
  destruct (Hl name p) as (refs & keys & Hr & Hk & Hf & Hn); [constructor|]. unfold resolve_provider. rewrite Hr, Hk. apply IH.
  - intros n q Hq. apply (Hl n). by constructor.
  - apply Forall_app. by split.
  - intros n q Hq. apply lookup_insert_Some in Hq as [[<- <-]|[Hne Hq]]; [by left|]. destruct (Hp n q Hq) as [|[->|Hin]%elem_of_cons]; auto. done.
Qed.

Lemma resolves_intro lookup c : Validate c = None -> keyed lookup c -> resolves lookup c.
Proof.
  intros Hv (token & Ht & Hu & Hg & Hb). unfold resolves, ResolveCredentials. change (Config_Validate ToLower ToUpper parse_url c) with (Validate c). rewrite Hv, Ht. cbv zeta.
  change (Providers (c <| cfg_AccessToken := token |>)) with (Providers c). change (cfg_BaseURL (c <| cfg_AccessToken := token |>)) with (cfg_BaseURL c).
  change (cfg_Keychain (c <| cfg_AccessToken := token |>)) with (cfg_Keychain c).
  assert (Hfinal : forall c' keys, Forall (fit_key token) keys -> map_Forall (fun _ p => NoDup (prof_APIKeys p)) (Providers c') ->
    all_rules [rule (bad_credential token) "invalid Keychain credential"; check_keys token keys; check_groups (Providers c')] = None).
  { intros c' keys Hk Hn. rewrite !all_rules_cons, all_rules_nil, rule_None, usable_spec, (check_keys_spec ToLower ToUpper parse_url). split_and!; [done|done| |done].
    unfold check_groups. apply range_rules. intros name p Hp. apply rule_None, negb_false_iff, bool_decide_eq_true. by apply (Hn name). }
  destruct (bool_decide (size (Providers c) = 0%nat)) eqn:Hs.
  - apply bool_decide_eq_true, map_size_empty_inv in Hs. destruct (String.eqb_spec (cfg_BaseURL c) "") as [|Hne].
    + rewrite Hfinal; [by eexists|done|]. cbn. by rewrite Hs.
    + destruct (Hb Hs Hne) as (k & -> & Hk). rewrite Hfinal; [by eexists|by constructor|]. cbn. by rewrite Hs.
  - destruct (resolve_all_group lookup token (range (Providers c)) (Providers c) []) as (providers & keys & -> & Hk & Hn); [|done| |].
    + intros name p Hp. apply elem_of_range in Hp. by apply (Hg name).
    + intros name p Hp. right. apply list_elem_of_fmap. exists (name, p). split; [done|]. by apply elem_of_range.
    + rewrite Hfinal; [by eexists|done|done].
Qed.

Lemma resolves_elim lookup c : resolves lookup c -> Validate c = None /\ keyed lookup c.
Proof.
  intros [c' H]. destruct (credentials_fit _ _ _ _ c c' H) as (Ht & Hu & Hdom & Hp). revert H. unfold ResolveCredentials.
  change (Config_Validate ToLower ToUpper parse_url c) with (Validate c). destruct (Validate c); [done|]. rewrite Ht. cbv zeta. intros H. split; [done|].
  exists (cfg_AccessToken c'). split_and!; [done..| |].
  - intros name p Hname. destruct (proj2 (Hdom name) ltac:(by eexists)) as [p' Hp']. destruct (Hp name p' Hp') as (q & Hq & (refs & keys & Hr & Hk & He) & _ & Hfit).
    assert (q = p) as -> by congruence. exists refs, keys. rewrite He in Hfit. destruct Hfit as [_ _ Hd Hf]. split_and!; [done..| |exact Hd]. exact Hf.
  - intros Hs Hne. change (Providers (c <| cfg_AccessToken := cfg_AccessToken c' |>)) with (Providers c) in H.
    change (cfg_BaseURL (c <| cfg_AccessToken := cfg_AccessToken c' |>)) with (cfg_BaseURL c) in H.
    change (cfg_Keychain (c <| cfg_AccessToken := cfg_AccessToken c' |>)) with (cfg_Keychain c) in H. rewrite Hs, map_size_empty, bool_decide_eq_true_2 in H by done. cbv iota in H.
    apply String.eqb_neq in Hne. rewrite Hne in H. cbv iota in H. destruct (lookup (cfg_Keychain c)) as [k|]; [|done]. exists k. split; [done|].
    destruct (all_rules _) eqn:E; [done|]. rewrite !all_rules_cons, (check_keys_spec ToLower ToUpper parse_url) in E. destruct E as (_ & E & _). by apply Forall_inv in E.
Qed.
End credentials.

(** ** Worlds *)

Record world := { file : option string; keychain : gmap KeychainReference string }.
#[export] Instance world_eta : Eta world := fun w => {| file := file w; keychain := keychain w |}.

Section worlds.
(** What the tool prints of an item, with its line break. *)
Context (printed : string -> string).

Definition secret (w : world) (r : KeychainReference) : option string := (fun v => Strings.TrimSpace (printed v)) <$> keychain w !! r.

(** An operation with its answer.  Anything can fail; the tool may have added
    an item although it failed, and the other way round.  Random bytes are new:
    no item has them as its account, and no secret is their text. *)
Definition effect (w : world) (a : action) : answer a -> world -> Prop :=
  match a with
  | Find r => fun out w' => w' = w /\ (forall s, out = Some s -> exists v, keychain w !! r = Some v /\ s = printed v)
  | Add r v => fun _ w' => w' = w \/ (keychain w !! r = None /\ w' = w <| keychain := <[r := v]> (keychain w) |>)
  | Remove r => fun b w' => (b = false /\ w' = w) \/ w' = w <| keychain := delete r (keychain w) |>
  | ReadFile => fun out w' => w' = w /\ match out with NotExist => file w = None | Contents data => file w = Some data | Unreadable => True end
  | Rename data => fun b w' => (b = false /\ w' = w) \/ (b = true /\ w' = w <| file := Some data |>)
  | Random n => fun out w' => w' = w /\ (forall b, out = Some b -> length b = n /\ Utf8Facts.is_bytes b /\
      (forall service, keychain w !! {| Service := service; Account := hex_text b |} = None) /\ (forall r, secret w r <> Some (hex_text b)))
  | _ => fun _ w' => w' = w
  end.

(** ** Every world of a run *)

Section safe.
Context (I : world -> Prop).

Fixpoint safe {A} (w : world) (p : prog answer A) (Q : world -> A -> Prop) : Prop :=
  I w /\ match p with Return x => Q w x | Act a k => forall r w', effect w a r w' -> safe w' (k r) Q end.

Lemma safe_here {A} w (p : prog answer A) Q : safe w p Q -> I w.
Proof. destruct p; by intros [H _]. Qed.
Lemma safe_mono {A} w (p : prog answer A) (Q Q' : world -> A -> Prop) : safe w p Q -> (forall w' x, I w' -> Q w' x -> Q' w' x) -> safe w p Q'.
Proof.
  intros H HQ. revert w H. induction p as [x|a k IH]; intros w [H1 H2]; (split; [done|]); [by apply HQ|]. intros r w' He. by apply IH, H2.
Qed.
Lemma safe_bind {A B} w (p : prog answer A) (f : A -> prog answer B) Q : safe w p (fun w' x => safe w' (f x) Q) -> safe w (bind p f) Q.
Proof. revert w. induction p as [x|a k IH]; intros w [H1 H2]; cbn; [done|]. split; [done|]. intros r w' He. by apply IH, H2. Qed.

(** A command that ends in [E] when it fails. *)
Definition ends {A} (w : world) (p : cmd A) (E : world -> Prop) (Q : world -> A -> Prop) : Prop :=
  safe w p (fun w' r => match r with inl _ => E w' | inr x => Q w' x end).

Lemma ends_ok {A} w (x : A) (E : world -> Prop) (Q : world -> A -> Prop) : I w -> Q w x -> ends w (ok x) E Q.
Proof. by split. Qed.
Lemma ends_fail {A} w e (E : world -> Prop) (Q : world -> A -> Prop) : I w -> E w -> ends w (fail e) E Q.
Proof. by split. Qed.
Lemma ends_lift {A} w (r : string + A) (E : world -> Prop) (Q : world -> A -> Prop) : I w -> (forall e, r = inl e -> E w) -> (forall x, r = inr x -> Q w x) -> ends w (lift r) E Q.
Proof. intros H HE HQ. split; [done|]. destruct r; [by eapply HE|by apply HQ]. Qed.
Lemma ends_check w bad e (E : world -> Prop) (Q : world -> unit -> Prop) : I w -> (bad = true -> E w) -> (bad = false -> Q w tt) -> ends w (check bad e) E Q.
Proof. intros H HE HQ. unfold check. destruct bad; split; auto. Qed.
Lemma ends_mono {A} w (p : cmd A) (E E' : world -> Prop) (Q Q' : world -> A -> Prop) : ends w p E Q -> (forall w', I w' -> E w' -> E' w') ->
  (forall w' x, I w' -> Q w' x -> Q' w' x) -> ends w p E' Q'.
Proof. intros H HE HQ. eapply safe_mono; [exact H|]. intros w' [e|x] Hw; auto. Qed.
Lemma ends_call {A B} w (p : cmd A) (f : A -> cmd B) (E : world -> Prop) Q : ends w p E (fun w' x => ends w' (f x) E Q) -> ends w (call p f) E Q.
Proof. intros H. apply safe_bind. eapply safe_mono; [exact H|]. intros w' [e|x] Hw HE; [by split|exact HE]. Qed.
Lemma ends_or_else {A} w e (p : cmd A) (E : world -> Prop) Q : ends w p E Q -> ends w (or_else e p) E Q.
Proof. intros H. apply safe_bind. eapply safe_mono; [exact H|]. intros w' [e'|x] Hw HE; by split. Qed.
Lemma ends_or_delete {A} w r (p : cmd A) (E E' : world -> Prop) Q : ends w p E' Q ->
  (forall w', E' w' -> I w' -> E w' /\ I (w' <| keychain := delete r (keychain w') |>) /\ E (w' <| keychain := delete r (keychain w') |>)) ->
  ends w (or_delete r p) E Q.
Proof.
  intros H Hd. apply safe_bind. eapply safe_mono; [exact H|]. intros w' [e|x] Hw HE; [|by split]. destruct (Hd w' HE Hw) as (H1 & H2 & H3).
  apply safe_bind. split; [done|]. intros b w'' [[-> ->]| ->]; [|destruct b]; (split; [done|]); (split; [done|]); done.
Qed.

(** ** Operations that change nothing *)

Definition quiet (a : action) : bool := match a with Add _ _ | Remove _ | Rename _ => false | _ => true end.
Lemma quiet_effect w a r w' : quiet a = true -> effect w a r w' -> w' = w.
Proof. destruct a; cbn; intros Hq He; try done; by destruct He. Qed.

(** [p] changes nothing, and its result is as [P] says. *)
Fixpoint steady {A} (p : prog answer A) (P : A -> Prop) : Prop :=
  match p with Return x => P x | Act a k => quiet a = true /\ forall r, steady (k r) P end.
Definition returns {A} (p : cmd A) (P : A -> Prop) : Prop := steady p (fun r => match r with inl _ => True | inr x => P x end).

Lemma steady_bind {A B} (p : prog answer A) (f : A -> prog answer B) (P : A -> Prop) Q : steady p P -> (forall x, P x -> steady (f x) Q) -> steady (bind p f) Q.
Proof. intros H Hf. induction p as [x|a k IH]; cbn in *; [by apply Hf|]. destruct H as [Hq Hk]. split; [done|]. intros r. by apply IH. Qed.
Lemma steady_mono {A} (p : prog answer A) (P Q : A -> Prop) : steady p P -> (forall x, P x -> Q x) -> steady p Q.
Proof. intros H Hf. induction p as [x|a k IH]; cbn in *; [auto|]. destruct H as [Hq Hk]. split; [done|]. intros r. by apply IH. Qed.
Lemma returns_ok {A} (x : A) (P : A -> Prop) : P x -> returns (ok x) P.
Proof. done. Qed.
Lemma returns_fail {A} e (P : A -> Prop) : returns (fail e) P.
Proof. done. Qed.
Lemma returns_lift {A} (r : string + A) (P : A -> Prop) : (forall x, r = inr x -> P x) -> returns (lift r) P.
Proof. intros H. destruct r; [done|by apply H]. Qed.
Lemma returns_check bad e (P : unit -> Prop) : (bad = false -> P tt) -> returns (check bad e) P.
Proof. intros H. destruct bad; [done|by apply H]. Qed.
Lemma returns_call {A B} (p : cmd A) (f : A -> cmd B) (P : A -> Prop) Q : returns p P -> (forall x, P x -> returns (f x) Q) -> returns (call p f) Q.
Proof. intros H Hf. eapply steady_bind; [exact H|]. intros [e|x] Hx; [done|by apply Hf]. Qed.
Lemma returns_act {A} a (k : answer a -> cmd A) (P : A -> Prop) : quiet a = true -> (forall r, returns (k r) P) -> returns (Act a k) P.
Proof. by split. Qed.
Lemma returns_or_else {A} e (p : cmd A) (P : A -> Prop) : returns p P -> returns (or_else e p) P.
Proof. intros H. eapply steady_bind; [exact H|]. by intros [e'|x] Hx. Qed.
Lemma returns_attempt {A B} (p : cmd A) (f : string + A -> cmd B) P : returns p (fun _ => True) -> (forall x, returns (f x) P) -> returns (attempt p f) P.
Proof. intros H Hf. eapply steady_bind; [exact H|]. intros x _. apply Hf. Qed.
Lemma returns_Lookup r : returns (Lookup r) (fun _ => True).
Proof. unfold Lookup. destruct (KeychainReference_Validate _ _); [done|]. apply returns_act; [done|]. by intros [s|]. Qed.

Lemma safe_steady {A} w (p : prog answer A) (P : A -> Prop) (Q : world -> A -> Prop) : I w -> steady p P -> (forall x, P x -> Q w x) -> safe w p Q.
Proof.
  intros H Hp HQ. induction p as [x|a k IH]; cbn in *; [auto|]. destruct Hp as [Hq Hk]. split; [done|]. intros r w' He.
  rewrite (quiet_effect w a r w' Hq He). by apply IH.
Qed.
Lemma ends_first {A B} w (p : cmd A) (f : A -> cmd B) (P : A -> Prop) (E : world -> Prop) Q : I w -> E w -> returns p P ->
  (forall x, P x -> ends w (f x) E Q) -> ends w (call p f) E Q.
Proof. intros H HE Hp HQ. apply ends_call. eapply safe_steady; [done|exact Hp|]. intros [e|x] Hx; [done|by apply HQ]. Qed.
Lemma ends_steady {A} w (p : cmd A) (P : A -> Prop) (E : world -> Prop) (Q : world -> A -> Prop) : I w -> E w -> returns p P -> (forall x, P x -> Q w x) -> ends w p E Q.
Proof. intros H HE Hp HQ. eapply safe_steady; [done|exact Hp|]. intros [e|x] Hx; [done|by apply HQ]. Qed.

(** ** The operations of the key chain *)

Lemma ends_Lookup w r (E : world -> Prop) (Q : world -> string -> Prop) : I w -> E w -> (forall v, secret w r = Some v -> Q w v) -> ends w (Lookup r) E Q.
Proof.
  intros H HE HQ. unfold Lookup. destruct (KeychainReference_Validate _ _); [by apply ends_fail|]. split; [done|]. intros out w' [-> Ho]. destruct out as [s|]; [|by split].
  split; [done|]. destruct (Ho s eq_refl) as (v & Hv & ->). apply HQ. unfold secret. by rewrite Hv.
Qed.
Lemma ends_lookup_or {B} w r e (f : string -> cmd B) (E : world -> Prop) Q : I w -> E w -> (forall v, secret w r = Some v -> ends w (f v) E Q) ->
  ends w (let! v := or_else e (Lookup r) in f v) E Q.
Proof. intros H HE HQ. apply ends_call, ends_or_else, ends_Lookup; done. Qed.

Definition added (w : world) (r : KeychainReference) (v : string) : world := w <| keychain := <[r := v]> (keychain w) |>.
Lemma ends_StoreNew w r v (E : world -> Prop) (Q : world -> unit -> Prop) : I w -> I (added w r v) -> keychain w !! r = None -> E w -> E (added w r v) ->
  (secret (added w r v) r = Some v -> v <> "" -> contains_any line_bytes v = false -> Q (added w r v) tt) -> ends w (StoreNew r v) E Q.
Proof.
  intros H Ha Hn HE HEa HQ. unfold StoreNew. destruct (KeychainReference_Validate _ _); [by apply ends_fail|].
  apply ends_call, ends_check; [done..|]. intros _. apply ends_call, ends_check; [done..|]. intros Hv%orb_false_iff. destruct Hv as [Hne Hb].
  apply String.eqb_neq in Hne. split; [done|].
  assert (Hl : forall w', I w' -> E w' -> (forall s, secret w' r = Some s -> s = v -> Q w' tt) ->
    ends w' (attempt (Lookup r) (fun actual => match actual with inr actual => check (negb (String.eqb actual v)) "Keychain write could not be verified"
      | inl _ => fail "Keychain write could not be verified" end)) E Q).
  { intros w' H' HE' HQ'. apply safe_bind. eapply safe_mono; [apply (ends_Lookup w' r (fun w'' => w'' = w') (fun w'' s => w'' = w' /\ secret w' r = Some s)); done|].
    intros w'' [e|s]; [by intros _ ->; split|]. intros _ [-> Hs]. apply ends_check; [done..|]. intros Heq%negb_false_iff%String.eqb_eq. by apply (HQ' s). }
  intros exited w' [->|[_ ->]]; (apply ends_call, ends_check; [done..|]); intros _; apply Hl; try done.
  - intros s Hs. unfold secret in Hs. by rewrite Hn in Hs.
  - intros s Hs ->. by apply HQ.
Qed.

Lemma ends_read_back w r v e (E : world -> Prop) (Q : world -> unit -> Prop) : I w -> E w -> Q w tt -> ends w (read_back r v e) E Q.
Proof.
  intros H HE HQ. eapply ends_steady; [done..| |intros [] _; exact HQ]. apply returns_attempt; [apply returns_Lookup|].
  intros [e'|s]; [done|]. by apply returns_check.
Qed.

Lemma ends_new_reference {B} w service (f : KeychainReference -> cmd B) (E : world -> Prop) Q : I w -> E w ->
  (forall r, keychain w !! r = None -> Service r = service -> ends w (f r) E Q) -> ends w (let! r := newKeychainReference service in f r) E Q.
Proof.
  intros H HE HQ. apply ends_call. split; [done|]. intros out w' [-> Ho]. destruct out as [b|]; [|by split]. destruct (Ho b eq_refl) as (_ & _ & Hn & _).
  cbn. split; [done|]. by apply HQ.
Qed.
End safe.
End worlds.

(** ** Generated text *)

Lemma runes_plain b l : 0 <= b < 128 -> Utf8.runes (b :: l) = (b, [b]) :: Utf8.runes l.
Proof.
  intros Hb. unfold Utf8.runes. cbn [length Utf8.runes_fuel]. assert (E : Utf8.DecodeRune (b :: l) = (b, 1%nat)).
  { unfold Utf8.DecodeRune. destruct (Z.ltb_spec b 128); [done|lia]. }
  by rewrite E.
Qed.
Lemma drop_while_kept {A} (f : A -> bool) x l : x ∈ l -> f x = false -> Strings.drop_while f l <> [].
Proof.
  intros Hin Hf. induction l as [|y l IH]; [by apply not_elem_of_nil in Hin|]. cbn. apply elem_of_cons in Hin as [->|Hin]; [by rewrite Hf|].
  destruct (f y); [by apply IH|done].
Qed.
Lemma plain_not_blank b l : 33 <= b < 127 -> Utf8Facts.is_bytes (b :: l) -> Strings.TrimSpace (string_of_bytes (b :: l)) <> "".
Proof.
  intros Hb Hl. unfold Strings.TrimSpace. rewrite bytes_of_string_of_bytes by done. rewrite runes_plain by lia.
  assert (Hs : Unicode.IsSpace b = false) by (unfold Unicode.IsSpace, Utf8.between; lia).
  unfold Strings.trim_runes. cbn [Strings.drop_while fst]. rewrite Hs. cbn [rev].
  set (l' := rev (Utf8.runes l)). assert (E : exists k, Strings.drop_while (fun rb : Z * list byte => Unicode.IsSpace rb.1) (l' ++ [(b, [b])]) = k ++ [(b, [b])]).
  { induction l' as [|x l' IH]; cbn; [rewrite Hs; by exists []|]. destruct (Unicode.IsSpace x.1); [done|]. by exists (x :: l'). }
  destruct E as [k ->]. rewrite rev_app_distr. cbn. done.
Qed.
Lemma hex_text_range l : Utf8Facts.is_bytes l -> Forall (fun b => 48 <= b <= 102) (flat_map (fun b => [hex_digit (b / 16); hex_digit (b mod 16)]) l).
Proof.
  assert (Hd : forall n, 0 <= n < 16 -> 48 <= hex_digit n <= 102) by (intros n H; unfold hex_digit; destruct (Z.ltb_spec n 10); lia).
  induction 1 as [|b l Hb _ IH]; cbn; [done|]. apply Forall_cons; split; [|apply Forall_cons; split; [|exact IH]]; apply Hd.
  - split; [apply Z.div_pos|apply Z.div_lt_upper_bound]; lia.
  - apply Z.mod_pos_bound. lia.
Qed.
(** A generated credential is not blank. *)
Lemma hex_not_blank l : Utf8Facts.is_bytes l -> l <> [] -> Strings.TrimSpace (hex_text l) <> "".
Proof.
  intros Hl Hne. unfold hex_text. pose proof (hex_text_range l Hl) as H. destruct l as [|b l]; [done|]. cbn [flat_map app] in *. apply plain_not_blank.
  - inversion H; subst. lia.
  - eapply Forall_impl; [exact H|]. cbn. lia.
Qed.

Lemma mapM_weaken {A B} (f g : A -> option B) l k : (forall x y, x ∈ l -> f x = Some y -> g x = Some y) -> mapM f l = Some k -> mapM g l = Some k.
Proof.
  revert k. induction l as [|x l IH]; intros k Hfg; [done|]. cbn. destruct (f x) as [y|] eqn:Hx; [|done]. cbn. rewrite (Hfg x y) by (done || constructor). cbn.
  destruct (mapM f l) as [ys|]; [|done]. cbn. rewrite (IH ys) by (done || (intros; apply Hfg; [by constructor|done])). done.
Qed.

(** ** References in use *)

Section references.
Context (ToLower ToUpper : string -> string) (parse_url : string -> option URL).
Context {RangeProviders : MapRange string Profile} {RangePrices : MapRange string Price}.
Context {RangeAliases : MapRange string string} {RangeThresholds : MapRange string Z}.
Abbreviation Validate := (Commands.Validate ToLower ToUpper parse_url).

(** The references of the providers, of all API keys, and of all credentials
    of the gateway and its providers; the URL of the report webhook, which is a
    reference too, is not one of them. *)
Definition group_ref (c : Config) (r : KeychainReference) : Prop :=
  exists name p refs, Providers c !! name = Some p /\ KeychainReferences p = inr refs /\ r ∈ refs.
Definition api_key (c : Config) (r : KeychainReference) : Prop := r = cfg_Keychain c \/ group_ref c r.
Definition credential (c : Config) (r : KeychainReference) : Prop := r = AccessTokenKeychain c \/ api_key c r.

Lemma keyed_weaken f g c : (forall r s, credential c r -> f r = Some s -> g r = Some s) -> keyed f c -> keyed g c.
Proof.
  intros Hfg (token & Ht & Hu & Hg & Hb). exists token. split_and!; [apply Hfg; [by left|done]|done| |].
  - intros name p Hp. destruct (Hg name p Hp) as (refs & keys & Hr & Hk & Hf & Hn). exists refs, keys. split_and!; [done| |done..].
    apply (mapM_weaken f g); [|done]. intros r k Hin Hl. apply Hfg; [|done]. right; right. by exists name, p, refs.
  - intros He Hne. destruct (Hb He Hne) as (k & Hk & Hfit). exists k. split; [|done]. apply Hfg; [by right; left|done].
Qed.
Lemma keyed_same f c c' : AccessTokenKeychain c' = AccessTokenKeychain c -> Providers c' = Providers c -> cfg_BaseURL c' = cfg_BaseURL c ->
  cfg_Keychain c' = cfg_Keychain c -> keyed f c -> keyed f c'.
Proof. unfold keyed. by intros -> -> -> ->. Qed.
Lemma keyed_put f c name p : (forall token, f (AccessTokenKeychain c) = Some token -> group f token p) -> keyed f c -> keyed f (put_profile name p c).
Proof.
  intros Hp (token & Ht & Hu & Hg & _). exists token. split_and!; [done|done| |].
  - apply map_Forall_insert_2; [by apply Hp|done].
  - intros H. exfalso. revert H. apply insert_non_empty.
Qed.
Lemma group_same f token p p' : KeychainReferences p' = KeychainReferences p -> group f token p -> group f token p'.
Proof. unfold group. by intros ->. Qed.
Lemma keyed_edit f c name p p' : Providers c !! name = Some p -> KeychainReferences p' = KeychainReferences p -> keyed f c -> keyed f (put_profile name p' c).
Proof.
  intros Hp Hr Hk. apply keyed_put; [|done]. intros token Ht. destruct Hk as (token' & Ht' & _ & Hg & _). assert (token' = token) as -> by congruence.
  eapply group_same; [exact Hr|]. by apply (Hg name).
Qed.
Lemma keyed_delete f c name : (Providers c <> ∅ -> cfg_BaseURL c = "") -> keyed f c -> keyed f (c <| Providers := delete name (Providers c) |>).
Proof.
  intros Hurl (token & Ht & Hu & Hg & Hb). exists token. split_and!; [done|done|by apply map_Forall_delete|].
  intros _ Hne. change (cfg_BaseURL c <> "") in Hne. destruct (decide (Providers c = ∅)) as [He|He]; [by apply Hb|]. by rewrite Hurl in Hne.
Qed.

(** What [configurationKeychainReferencesInUse] finds. *)
Lemma inUse_spec c l r : configurationKeychainReferencesInUse c = inr l -> r <> no_reference -> credential c r -> r ∈ l.
Proof.
  unfold configurationKeychainReferencesInUse. set (own := List.filter _ _). intros H Hne Hr.
  assert (Hl : forall kvs acc l, foldl (fun acc (kv : string * Profile) => match acc with
    | inl e => inl e
    | inr l => match KeychainReferences kv.2 with inl _ => inl "provider Keychain references are invalid" | inr refs => inr (l ++ refs) end
    end) (inr acc) kvs = inr l -> acc ⊆ l /\ forall kv refs, kv ∈ kvs -> KeychainReferences kv.2 = inr refs -> refs ⊆ l).
  { clear. assert (Hinl : forall kvs e, foldl (fun acc (kv : string * Profile) => match acc with
      | inl e => inl e
      | inr l => match KeychainReferences kv.2 with inl _ => inl "provider Keychain references are invalid" | inr refs => inr (l ++ refs) end
      end) (inl e : string + list KeychainReference) kvs = inl e) by (induction kvs; [done|]; intros e; cbn; done).
    induction kvs as [|kv kvs IH]; intros acc l; cbn; [intros [= <-]; split; [done|]; by intros ? ? ?%not_elem_of_nil|].
    destruct (KeychainReferences kv.2) as [e|refs] eqn:Hr; [by rewrite Hinl|]. intros [H1 H2]%IH. split; [set_solver|].
    intros kv' refs' [->|Hin]%elem_of_cons Hr'; [|by eapply H2]. assert (refs' = refs) as -> by congruence. set_solver. }
  destruct (Hl _ _ _ H) as [H1 H2]. destruct Hr as [->|[->|(name & p & refs & Hp & Hk & Hin)]].
  - apply H1, list_elem_of_In, filter_In. split; [by left|]. by rewrite bool_decide_eq_false_2.
  - apply H1, list_elem_of_In, filter_In. split; [by right; left|]. by rewrite bool_decide_eq_false_2.
  - eapply (H2 (name, p)); [by apply elem_of_range|exact Hk|exact Hin].
Qed.

(** What an accepted configuration says of the references. *)
Lemma valid_references c name p : Validate c = None -> Providers c !! name = Some p -> exists refs, KeychainReferences p = inr refs.
Proof.
  intros (_ & Hp & _)%valid_parts Hname. by destruct (valid_provider_parts _ _ _ _ _ (Hp name p Hname)) as (_ & _ & _ & H & _).
Qed.
Lemma valid_token c : Validate c = None -> credentialRefEmpty (AccessTokenKeychain c) = false.
Proof.
  unfold Commands.Validate, Config_Validate. cbv zeta. rules. intros H. assert (Hr : KeychainReference_Validate (AccessTokenKeychain c) "access_token_keychain" = None) by tauto.
  unfold KeychainReference_Validate in Hr. apply rule_None, orb_false_iff in Hr as [Hr _]. unfold credentialRefEmpty, credentialReferenceEmpty.
  destruct (String.eqb_spec (Service (AccessTokenKeychain c)) "") as [E|]; [|done]. by rewrite E in Hr.
Qed.
Lemma valid_url c : Validate c = None -> Providers c <> ∅ -> cfg_BaseURL c = "".
Proof.
  unfold Commands.Validate, Config_Validate. cbv zeta. rules. intros (_ & _ & _ & _ & _ & _ & _ & _ & _ & _ & H & _) Hne.
  rewrite bool_decide_eq_false_2 in H by (by intros ?%map_size_empty_inv). cbn [negb] in H. unfold validate_providers in H. rules.
  destruct H as (H & _). apply orb_false_iff in H as [H _]. apply orb_false_iff in H as [H _]. by apply negb_false_iff, String.eqb_eq in H.
Qed.
Lemma valid_legacy_key c : Validate c = None -> Providers c = ∅ -> cfg_BaseURL c <> "" -> KeychainReference_Validate (cfg_Keychain c) "upstream_keychain" = None.
Proof.
  unfold Commands.Validate, Config_Validate. cbv zeta. rules. intros (_ & _ & _ & _ & _ & _ & _ & _ & _ & _ & H & _) He Hne.
  rewrite He, map_size_empty, bool_decide_eq_true_2 in H by done. cbn [negb] in H. unfold validate_legacy in H. apply String.eqb_neq in Hne. rewrite Hne in H.
  rules. tauto.
Qed.
End references.

(** ** Transactions *)

Section transactions.
Context (ToLower ToUpper : string -> string) (parse_url : string -> option URL).
Context {RangeProviders : MapRange string Profile} {RangePrices : MapRange string Price}.
Context {RangeAliases : MapRange string string} {RangeThresholds : MapRange string Z}.
Context (darwin : bool) (ledger_path : string) (printed : string -> string) (w0 : world).
Abbreviation Validate := (Commands.Validate ToLower ToUpper parse_url).
Abbreviation resolves := (resolves ToLower ToUpper parse_url).
Abbreviation decode := (decodeValidatedConfig ToLower ToUpper parse_url).
Abbreviation secret := (secret printed).
Abbreviation write := (writeCommandConfig ToLower ToUpper parse_url).

(** Nothing was installed, and nothing that the key chain had is lost. *)
Definition before (w : world) : Prop := file w = file w0 /\ keychain w0 ⊆ keychain w.
(** An API key of the configuration the command found. *)
Definition old (r : KeychainReference) : Prop := exists data c, file w0 = Some data /\ decode data = inr c /\ api_key c r.
(** A configuration was installed whose credentials are in the key chain, which
    lost at most API keys of the old configuration that are no credentials of
    the new one. *)
Definition installed (w : world) (c : Config) : Prop :=
  file w = Some (config_text c) /\ resolves (secret w) c /\
  forall r v, keychain w0 !! r = Some v -> keychain w !! r = Some v \/ (old r /\ ~ credential c r).
Definition intact (w : world) : Prop := before w \/ exists c, installed w c.
Abbreviation ends := (ends printed intact).

Lemma before_intact w : before w -> intact w.
Proof. by left. Qed.
Lemma before_start : before w0.
Proof. done. Qed.
Lemma secret_before w r s : before w -> secret w0 r = Some s -> secret w r = Some s.
Proof.
  intros [_ Hw] H. unfold CommandFacts.secret in *. destruct (keychain w0 !! r) as [v|] eqn:E; [|done]. by rewrite (lookup_weaken _ _ _ _ E Hw).
Qed.
Lemma secret_added w r v r' s : keychain w !! r = None -> secret w r' = Some s -> secret (added w r v) r' = Some s.
Proof.
  intros Hn H. unfold CommandFacts.secret in *. cbn. destruct (decide (r = r')) as [<-|Hne]; [by rewrite Hn in H|]. by rewrite lookup_insert_ne.
Qed.
Lemma before_added w r v : before w -> keychain w !! r = None -> before (added w r v).
Proof. intros [Hf Hw] Hn. split; [done|]. cbn. etrans; [exact Hw|]. by apply insert_subseteq. Qed.
Lemma before_new w r : before w -> keychain w !! r = None -> keychain w0 !! r = None.
Proof. intros [_ Hw] Hn. by eapply lookup_weaken_None. Qed.
Lemma before_removed w r : before w -> keychain w0 !! r = None -> before (w <| keychain := delete r (keychain w) |>).
Proof.
  intros [Hf Hw] Hn. split; [done|]. cbn. apply map_subseteq_spec. intros r' v Hv. rewrite lookup_delete_ne by (intros <-; congruence). by eapply lookup_weaken.
Qed.

Definition written (w : world) (c : Config) : world := w <| file := Some (config_text c) |>.
Lemma ends_write w c expected (Q : world -> unit -> Prop) : before w -> (Validate c = None -> keyed (secret w) c) ->
  (installed (written w c) c -> Q (written w c) tt) -> ends w (write c expected) before Q.
Proof.
  intros Hw Hk HQ. pose proof (before_intact _ Hw) as Hi. unfold writeCommandConfig. destruct (Commands.Validate _ _ _ c) eqn:Hv; [by apply ends_fail|].
  unfold prepare.
  do 6 (eapply ends_first with (P := fun _ => True); [done|done|apply returns_act; [done|]; intros []; done|intros _ _]).
  split; [done|]. intros r w' [-> Hr].
  eapply ends_first with (P := fun _ => True); [done|done| |intros _ _].
  { unfold unchanged. destruct expected as [b|], r as [| |d]; try done. by apply returns_check. }
  split; [done|].
  assert (Hin : installed (written w c) c).
  { split_and!; [done| |].
    - apply resolves_intro; [done|]. by apply Hk.
    - intros r' v Hl. left. destruct Hw as [_ Hw]. by eapply lookup_weaken. }
  assert (Hi' : intact (written w c)) by (right; by exists c).
  intros b w' [[-> ->]|[-> ->]]; [by split|]. split; [done|]. by apply HQ.
Qed.

Lemma ends_store w r v e (Q : world -> unit -> Prop) : before w -> keychain w !! r = None ->
  (before (added w r v) -> secret (added w r v) r = Some v -> contains_any line_bytes v = false -> Q (added w r v) tt) ->
  ends w (or_else e (StoreNew r v)) before Q.
Proof.
  intros Hw Hn HQ. pose proof (before_added w r v Hw Hn) as Ha. apply ends_or_else, ends_StoreNew; try done.
  - by left.
  - by left.
  - intros Hs Hne Hb. by apply HQ.
Qed.
(** The new item is read back, and removed again when what follows fails. *)
Lemma ends_or_remove w r v e (f : cmd unit) Q : before w -> keychain w0 !! r = None -> ends w f before Q ->
  ends w (or_delete r (read_back r v e ;! f)) before Q.
Proof.
  intros Hw Hn Hf. eapply ends_or_delete with (E' := before).
  - apply ends_call, ends_read_back; [by left|done|done].
  - intros w' Hw' Hi. pose proof (before_removed w' r Hw' Hn). split_and!; [done|by left|done].
Qed.

(** The loop over removed references. *)
Lemma installed_removed w c r : installed w c -> old r -> ~ credential c r -> installed (w <| keychain := delete r (keychain w) |>) c.
Proof.
  intros (Hf & Hr & Hk) Ho Hn. split_and!; [done| |].
  - apply resolves_elim in Hr as [Hv Hr]. apply resolves_intro; [done|]. eapply keyed_weaken; [|exact Hr]. intros r' s Hin Hs.
    unfold CommandFacts.secret in *. cbn. rewrite lookup_delete_ne; [done|]. by intros <-.
  - intros r' v Hv. destruct (decide (r' = r)) as [->|Hne]; [by right|]. cbn. rewrite lookup_delete_ne by done. by apply Hk.
Qed.
Lemma ends_delete_all c inUse refs : Forall (fun r => old r /\ (r ∉ inUse -> ~ credential c r)) refs ->
  forall w seen failed, installed w c -> ends w (delete_all seen inUse refs failed) intact (fun _ _ => True).
Proof.
  induction 1 as [|r refs [Ho Hn] _ IH]; intros w seen failed Hw; (assert (Hi : intact w) by (right; by exists c)); cbn [delete_all]; [by apply ends_ok|].
  case_bool_decide; [by apply IH|]. case_bool_decide as Hin; [by apply IH|]. apply safe_bind. split; [done|].
  assert (Hnext : forall e w', installed w' c -> safe printed intact w' (check (negb e) "cannot remove newly created Keychain item")
    (fun w'' x => safe printed intact w'' (delete_all (r :: seen) inUse refs (match x with inl _ => true | inr _ => failed end))
      (fun w''' r => match r with inl _ => intact w''' | inr _ => True end))).
  { intros e w' Hw'. assert (Hi' : intact w') by (right; by exists c). destruct e; (split; [done|]); by apply IH. }
  intros b w' [[-> ->]| ->]; apply Hnext; [done|]. apply installed_removed; auto.
Qed.
Lemma ends_delete_unreferenced w c refs : installed w c -> Forall old refs ->
  ends w (deleteUnreferencedProviderKeys c refs) intact (fun _ _ => True).
Proof.
  intros Hw Ho. assert (Hi : intact w) by (right; by exists c). unfold deleteUnreferencedProviderKeys.
  destruct (first_error _ refs) eqn:Hv; [by apply ends_fail|]. destruct (configurationKeychainReferencesInUse c) as [e|l] eqn:Hl; [by apply ends_fail|].
  rewrite first_error_None in Hv. apply ends_call. eapply ends_mono; [apply (ends_delete_all c l)| |]; [|done|done|].
  - apply Forall_forall. intros r Hr. rewrite Forall_forall in Ho, Hv. split; [by apply Ho|]. intros Hn Hin. apply Hn. eapply inUse_spec; [exact Hl| |exact Hin].
    intros ->. specialize (Hv _ Hr). vm_compute in Hv. done.
  - intros w' failed Hw' _. apply ends_check; [done|done|done].
Qed.

(** ** The configuration a command works on *)

(** There was none: no provider and no gateway key. *)
Definition fresh (c : Config) : Prop := credentialRefEmpty (AccessTokenKeychain c) = true /\ Providers c = ∅ /\ cfg_BaseURL c = "".
(** Its credentials resolve, and they were there before the command. *)
Definition usable (c : Config) : Prop :=
  credentialRefEmpty (AccessTokenKeychain c) = false /\ keyed (secret w0) c /\ (Providers c <> ∅ -> cfg_BaseURL c = "") /\
  (forall r, group_ref c r -> old r).
Definition ready (c : Config) : Prop := usable c \/ fresh c.
(** As it was read. *)
Definition loaded (c : Config) : Prop := (Validate c = None /\ usable c /\ (forall r, api_key c r -> old r)) \/ fresh c.

Context (startable : forall data c, file w0 = Some data -> decode data = inr c -> resolves (secret w0) c).

Lemma loaded_ready c : loaded c -> ready c.
Proof. intros [(_ & H & _)|H]; [by left|by right]. Qed.
Lemma decoded_loaded data c : file w0 = Some data -> decode data = inr c -> loaded c.
Proof.
  intros Hf Hd. left. pose proof (startable data c Hf Hd) as Hr. apply resolves_elim in Hr as [Hv Hk]. split_and!; [done| |].
  - split_and!; [by eapply valid_token|done|by eapply valid_url|]. intros r Hr. exists data, c. split_and!; [done..|]. by right.
  - intros r Hr. by exists data, c.
Qed.
Lemma ends_LoadConfig {B} w (f : Config -> cmd B) (E : world -> Prop) Q : before w -> E w ->
  (forall c, loaded c -> ends w (f c) E Q) -> ends w (call (LoadConfig ToLower ToUpper parse_url) f) E Q.
Proof.
  intros Hw HE Hf. pose proof (before_intact _ Hw) as Hi. apply ends_call. unfold LoadConfig. split; [done|]. intros out w' [-> Ho].
  destruct out as [| |data]; [by apply ends_fail..|]. apply ends_lift; [done|done|]. intros c Hc. apply Hf. destruct Hw as [Hw _]. rewrite Hw in Ho. by eapply decoded_loaded.
Qed.
Lemma ends_load {B} w (f : Config * option string -> cmd B) (E : world -> Prop) Q : before w -> E w ->
  (forall c b, loaded c -> (b = None -> fresh c) -> ends w (f (c, b)) E Q) -> ends w (call (loadCommandConfig ToLower ToUpper parse_url ledger_path) f) E Q.
Proof.
  intros Hw HE Hf. pose proof (before_intact _ Hw) as Hi. unfold loadCommandConfig. apply ends_call. split; [done|]. intros out w' [-> Ho].
  destruct out as [| |data]; [| |].
  - apply ends_ok; [done|]. apply Hf; [by right|done].
  - by apply ends_fail.
  - apply ends_LoadConfig; [done|done|]. intros c Hc. apply ends_ok; [done|]. by apply Hf.
Qed.

Lemma legacy_references c protocol : KeychainReference_Validate (cfg_Keychain c) "upstream_keychain" = None ->
  KeychainReferences (legacy_profile c protocol) = inr [cfg_Keychain c].
Proof.
  unfold KeychainReference_Validate. intros H%rule_None. pose proof H as Hb. apply orb_false_iff in H as [Hs Ha]. unfold KeychainReferences, credentialReferenceEmpty.
  change (prof_Keychain (legacy_profile c protocol)) with (cfg_Keychain c). change (prof_Keychains (legacy_profile c protocol)) with ([] : list KeychainReference).
  destruct (String.eqb_spec (Service (cfg_Keychain c)) "") as [E|]; [by rewrite E in Hs|]. cbn. unfold KeychainReference_Validate. by rewrite Hb.
Qed.
Lemma migrated_usable c name protocol : Validate c = None -> usable c -> (forall r, api_key c r -> old r) -> Providers c = ∅ -> cfg_BaseURL c <> "" -> usable (migrated c name protocol).
Proof.
  intros Hv (Ht & Hk & _ & _) Hold He Hne. pose proof (legacy_references c protocol (valid_legacy_key _ _ _ c Hv He Hne)) as Hr.
  split_and!; [done| |done|].
  - destruct Hk as (token & Htok & Hu & _ & Hb). destruct (Hb He Hne) as (k & Hk & Hfit). exists token. split_and!; [done|done| |].
    + apply map_Forall_singleton. exists [cfg_Keychain c], [k]. split_and!; [done| |by constructor|apply NoDup_singleton]. cbn. by rewrite Hk.
    + intros H. exfalso. revert H. apply map_non_empty_singleton.
  - intros r (n & p & refs & Hp & Hr' & Hin). change (({[ name := legacy_profile c protocol ]} : gmap string Profile) !! n = Some p) in Hp. apply lookup_singleton_Some in Hp as [<- <-]. rewrite Hr in Hr'. injection Hr' as <-.
    apply list_elem_of_singleton in Hin as ->. apply Hold. by left.
Qed.
Lemma ends_migrate {B} w c secrets (f : Config -> cmd B) (E : world -> Prop) Q : before w -> E w -> loaded c ->
  (forall c', ready c' -> cfg_BaseURL c' = "" -> ends w (f c') E Q) -> ends w (call (migrateLegacyProvider ToLower parse_url c secrets) f) E Q.
Proof.
  intros Hw HE Hc Hf. eapply ends_first with (P := fun c => ready c /\ cfg_BaseURL c = ""); [by left|done| |intros c' []; auto]. unfold migrateLegacyProvider.
  destruct (String.eqb_spec (cfg_BaseURL c) "") as [|Hne]; [by apply returns_ok; split; [apply loaded_ready|]|]. cbn [orb].
  case_bool_decide as Hs; cbn [negb].
  2: { destruct Hc as [(_ & (_ & _ & Hu & _) & _)|(_ & _ & ?)]; [|done]. exfalso. apply Hne, Hu. intros He. apply Hs. by rewrite He. }
  apply map_size_empty_inv in Hs. destruct (legacy_name _ _ c) as [name|]; [|done].
  assert (Hm : forall protocol, ready (migrated c name protocol) /\ cfg_BaseURL (migrated c name protocol) = "").
  { intros protocol. destruct Hc as [(Hv & Hu & Hold)|(_ & _ & ?)]; [|done]. split; [|done]. left. by apply migrated_usable. }
  destruct (_ && _); [|by apply returns_ok]. apply returns_attempt; [apply returns_Lookup|]. intros [e|key]; [by apply returns_ok|].
  apply returns_act; [done|]. intros [[[detected ?] ?]|]; by apply returns_ok.
Qed.

(** ** The transactions *)

Lemma keyed_before w c : before w -> keyed (secret w0) c -> keyed (secret w) c.
Proof. intros Hw. apply keyed_weaken. intros r s _. by apply secret_before. Qed.
Lemma keyed_added w r v c : keychain w !! r = None -> keyed (secret w) c -> keyed (secret (added w r v)) c.
Proof. intros Hn. apply keyed_weaken. intros r' s _. by apply secret_added. Qed.

(** An edit that leaves the credentials alone. *)
Lemma ends_edit w c name p p' expected (Q : world -> unit -> Prop) : before w -> ready c -> Providers c !! name = Some p ->
  KeychainReferences p' = KeychainReferences p -> (forall w', intact w' -> Q w' tt) -> ends w (write (put_profile name p' c) expected) before Q.
Proof.
  intros Hw Hc Hp Hr HQ. apply ends_write; [done| |].
  - intros _. destruct Hc as [(_ & Hk & _)|(_ & He & _)]; [|by rewrite He in Hp]. eapply keyed_before; [done|]. by eapply keyed_edit.
  - intros H. apply HQ. right. by eexists.
Qed.
(** One that leaves the providers alone. *)
Lemma ends_settings w c c' expected (Q : world -> unit -> Prop) : before w -> ready c -> AccessTokenKeychain c' = AccessTokenKeychain c -> Providers c' = Providers c ->
  cfg_BaseURL c' = cfg_BaseURL c -> cfg_Keychain c' = cfg_Keychain c -> (forall w', intact w' -> Q w' tt) -> ends w (write c' expected) before Q.
Proof.
  intros Hw Hc H1 H2 H3 H4 HQ. apply ends_write; [done| |].
  - intros Hv. destruct Hc as [(_ & Hk & _)|(He & _ & _)]; [|apply valid_token in Hv; congruence]. eapply keyed_before; [done|]. by eapply keyed_same.
  - intros H. apply HQ. right. by eexists.
Qed.

(** A key that the user typed. *)
Lemma stored_usable v : validSecret v = true -> usable_key v.
Proof.
  unfold validSecret. intros [Hb Hl]%andb_true_iff. apply usable_spec. unfold bad_credential. apply negb_true_iff in Hb, Hl. rewrite Hb. cbn.
  unfold contains_any in *. rewrite <- not_true_iff_false in Hl |- *. intros H. apply Hl. apply existsb_exists in H as (b & Hin & Hb'). apply existsb_exists.
  exists b. split; [done|]. unfold line_breaks, line_bytes in *. cbn in *. rewrite !orb_true_iff in *. tauto.
Qed.

Lemma references_one p refs : credentialReferenceEmpty (prof_Keychain p) = false -> KeychainReferences p = inr refs -> refs = [prof_Keychain p].
Proof.
  unfold KeychainReferences. intros ->. cbn [negb andb]. case_bool_decide; [|done]. cbn [negb]. destruct (_ || _); [done|]. destruct (validate_references _ _); [done|].
  by intros [= <-].
Qed.
Lemma references_many p refs : credentialReferenceEmpty (prof_Keychain p) = true -> KeychainReferences p = inr refs -> refs = prof_Keychains p.
Proof.
  unfold KeychainReferences. intros ->. cbn [negb andb]. destruct (_ || _); [done|]. destruct (validate_references _ _); [done|]. by intros [= <-].
Qed.
Lemma group_one f token p k : credentialReferenceEmpty (prof_Keychain p) = false -> (exists refs, KeychainReferences p = inr refs) ->
  f (prof_Keychain p) = Some k -> fit_key token k -> group f token p.
Proof.
  intros He [refs Hr] Hk Hf. pose proof (references_one p refs He Hr) as ->. exists [prof_Keychain p], [k].
  split_and!; [done| |by constructor|apply NoDup_singleton]. cbn. by rewrite Hk.
Qed.

Lemma secret_new w r v : secret (added w r v) r = Some (Strings.TrimSpace (printed v)).
Proof. unfold CommandFacts.secret. cbn. by rewrite lookup_insert_eq. Qed.
Lemma named_reference (r : KeychainReference) service : Service r = service -> service <> "" -> credentialReferenceEmpty r = false.
Proof. intros <- H. unfold credentialReferenceEmpty. apply String.eqb_neq in H. by rewrite H. Qed.

Lemma ends_random {B} w (f : string -> cmd B) (E : world -> Prop) Q : intact w -> E w ->
  (forall v, usable_key v -> (forall r, secret w r <> Some v) -> ends w (f v) E Q) -> ends w (call randomCredential f) E Q.
Proof.
  intros Hi HE Hf. apply ends_call. unfold randomCredential, random_bytes. split; [done|]. intros out w' [-> Ho]. destruct out as [b|]; [|by split].
  destruct (Ho b eq_refl) as (Hl & Hb & _ & Hn). cbn. split; [done|]. apply Hf; [|done]. split.
  - apply hex_not_blank; [done|]. by intros ->.
  - unfold hex_text, contains_any. pose proof (hex_text_range b Hb) as Hx. rewrite bytes_of_string_of_bytes by (eapply Forall_impl; [exact Hx|]; cbn; lia).
    rewrite <- not_true_iff_false. intros (x & Hin & Hx')%existsb_exists. rewrite Forall_forall in Hx. apply list_elem_of_In, Hx in Hin. cbn in Hx'. lia.
Qed.

Lemma put_lookup name p c : Providers (put_profile name p c) !! name = Some p.
Proof. apply lookup_insert_eq. Qed.
Lemma put_put name p p' c : Providers (put_profile name p' (put_profile name p c)) = Providers (put_profile name p' c).
Proof. apply insert_insert_eq. Qed.
Lemma keyed_put_put f c name p p' : keyed f (put_profile name p' c) -> keyed f (put_profile name p' (put_profile name p c)).
Proof. by apply keyed_same; [|apply put_put| |]. Qed.
Lemma valid_put c name p : Validate (put_profile name p c) = None -> exists refs, KeychainReferences p = inr refs.
Proof. intros Hv. eapply valid_references; [exact Hv|]. apply put_lookup. Qed.

Lemma ends_persist w c expected name p key (Q : world -> unit -> Prop) : before w -> ready c -> validSecret key = true -> (forall w', intact w' -> Q w' tt) ->
  ends w (persistProviderAddition ToLower ToUpper parse_url (put_profile name p c) expected name key) before Q.
Proof.
  intros Hw Hc Hkey HQ. pose proof (before_intact w Hw) as Hi. unfold persistProviderAddition. cbv zeta. rewrite put_lookup. cbn [default from_option id].
  apply ends_new_reference; [done..|]. intros r Hn Hs.
  set (p' := p <| prof_Keychain := r |>). set (c' := put_profile name p' (put_profile name p c)).
  assert (Hp : credentialReferenceEmpty (prof_Keychain p') = false) by (by eapply named_reference).
  pose proof (before_added w r key Hw Hn) as Hw1. pose proof (before_new w r Hw Hn) as Hn0.
  change (AccessTokenKeychain c') with (AccessTokenKeychain c).
  assert (Hstored : forall f, secret (added w r key) r = Some key -> ends (added w r key) f before Q ->
    ends (added w r key) (or_delete r (read_back r key "provider API key Keychain read-back verification failed" ;! f)) before Q).
  { intros f _ Hf. by apply ends_or_remove. }
  destruct (credentialRefEmpty (AccessTokenKeychain c)) eqn:He.
  - eapply ends_first with (P := fun _ => True); [done..|]. intros _ _. apply ends_call, ends_store; [done..|]. intros _ Hk _. apply Hstored; [done|].
    apply ends_new_reference; [by left|done|]. intros g Hng Hsg. apply ends_random; [by left|done|]. intros v Hv Hnew.
    apply ends_call, ends_store; [done..|]. intros Hw2 Hkv _. apply ends_or_remove; [done|exact (before_new _ g Hw1 Hng)|].
    apply ends_write; [done| |].
    + intros Hval. exists v. split_and!; [done|done| |].
      * change (Providers (c' <| AccessTokenKeychain := g |>)) with (Providers c'). unfold c'. rewrite put_put. apply map_Forall_insert_2.
        -- eapply group_one; [done| | |split; [by apply stored_usable|]].
           ++ apply (valid_references _ _ _ _ name p' Hval). change (Providers (c' <| AccessTokenKeychain := g |>)) with (Providers c'). apply put_lookup.
           ++ apply secret_added; [done|exact Hk].
           ++ intros ->. by apply (Hnew r).
        -- destruct Hc as [(Ht & _)|(_ & -> & _)]; [|apply map_Forall_empty]. unfold credentialRefEmpty in *. congruence.
      * intros H. exfalso. revert H. change (Providers (c' <| AccessTokenKeychain := g |>)) with (Providers c'). apply insert_non_empty.
    + intros Hin. apply HQ. right. by eexists.
  - destruct Hc as [(_ & Hk & _)|(Ht & _)]; [|unfold credentialRefEmpty in *; congruence].
    apply ends_call. apply ends_lookup_or; [done..|]. intros token Htoken. apply ends_check; [done|done|]. intros Hne%String.eqb_neq.
    apply ends_call, ends_store; [done..|]. intros _ Hkr _. apply Hstored; [done|]. apply ends_write; [done| |].
    + intros Hval. apply keyed_put_put. apply keyed_put; [|apply keyed_added; [done|]; by apply keyed_before].
      intros token' Ht'. eapply group_one; [done|by eapply valid_put|exact Hkr|]. split; [by apply stored_usable|].
      apply (secret_added w r key) in Htoken; [|done]. congruence.
    + intros Hin. apply HQ. right. by eexists.
Qed.

Lemma ends_key_is_new value refs w (E : world -> Prop) (Q : world -> unit -> Prop) : intact w -> E w ->
  (Forall (fun r => exists k, secret w r = Some k /\ k <> value) refs -> Q w tt) -> ends w (key_is_new value refs) E Q.
Proof.
  intros Hi HE. induction refs as [|r refs IH]; intros HQ; cbn [key_is_new]; [apply ends_ok; [done|by apply HQ]|].
  apply ends_lookup_or; [done..|]. intros v Hv. apply ends_call, ends_check; [done..|]. intros Hne%String.eqb_neq. apply IH. intros Hall. apply HQ.
  constructor; [by exists v|done].
Qed.
Lemma group_snoc f token p p' refs r v : KeychainReferences p = inr refs -> group f token p -> prof_Keychain p' = no_reference -> prof_Keychains p' = refs ++ [r] ->
  (exists refs, KeychainReferences p' = inr refs) -> f r = Some v -> fit_key token v -> Forall (fun r => f r <> Some v) refs -> group f token p'.
Proof.
  intros Hr (refs1 & keys & Hr1 & Hk & Hf & Hn) H1 H2 [refs' Hr'] Hv Hfit Hnew. rewrite Hr in Hr1. injection Hr1 as <-.
  apply references_many in Hr' as E; [|by rewrite H1]. rewrite H2 in E. subst refs'. exists (refs ++ [r]), (keys ++ [v]). apply mapM_Some in Hk. split_and!; [done| | |].
  - apply mapM_Some, Forall2_app; [done|]. by constructor.
  - apply Forall_app. split; [done|by constructor].
  - apply NoDup_app. split_and!; [done| |apply NoDup_singleton]. intros k Hin ->%list_elem_of_singleton.
    apply list_elem_of_lookup in Hin as [i Hi]. destruct (Forall2_lookup_r _ _ _ _ _ Hk Hi) as (r' & Hr1 & Hs). rewrite Forall_forall in Hnew.
    eapply Hnew; [by eapply list_elem_of_lookup_2|exact Hs].
Qed.
Lemma ready_usable c name p : ready c -> Providers c !! name = Some p -> usable c.
Proof. intros [H|(_ & He & _)]; [done|]. by rewrite He. Qed.

Lemma ends_append w c expected name value (Q : world -> unit -> Prop) : before w -> ready c -> (forall w', intact w' -> Q w' tt) ->
  ends w (appendProviderKey ToLower ToUpper parse_url c expected name value) before Q.
Proof.
  intros Hw Hc HQ. pose proof (before_intact w Hw) as Hi. unfold appendProviderKey. apply ends_call, ends_check; [done..|]. intros Hkey%negb_false_iff.
  unfold with_provider. destruct (Providers c !! name) as [p|] eqn:Hp; [|by apply ends_fail]. destruct (ready_usable c name p Hc Hp) as (_ & Hk & _).
  apply ends_call, ends_check; [done..|]. intros _. apply ends_lookup_or; [done..|]. intros token Ht.
  apply ends_call, ends_check; [done..|]. intros Hne%String.eqb_neq. apply ends_call, ends_lift; [done..|]. intros refs Hr.
  unfold references_or in Hr. destruct (KeychainReferences p) as [|refs1] eqn:Hr1; [done|]. injection Hr as <-.
  apply ends_call, ends_key_is_new; [done..|]. intros Hnew. apply ends_new_reference; [done..|]. intros r Hn Hs. apply ends_call, ends_store; [done..|].
  intros Hw1 Hkr _. apply ends_or_remove; [done|exact (before_new w r Hw Hn)|]. apply ends_write; [done| |].
  - intros Hval. pose proof (keyed_added w r value c Hn (keyed_before w c Hw Hk)) as Hk1. apply keyed_put; [|done]. intros token' Ht'.
    apply (secret_added w r value) in Ht; [|done]. assert (token' = token) as -> by congruence.
    eapply (group_snoc _ _ p _ refs1 r value); [done| |done|done|by eapply valid_put|done|split; [by apply stored_usable|done]|].
    + destruct Hk1 as (t & Ht1 & _ & Hg & _). assert (t = token) as -> by congruence. by apply (Hg name).
    + eapply Forall_impl; [exact Hnew|]. intros r' (k & Hk' & Hd). apply (secret_added w r value) in Hk'; [|done]. congruence.
  - intros Hin. apply HQ. right. by eexists.
Qed.

(** A part of the keys of a provider. *)
Lemma group_part f token p p' refs refs' : KeychainReferences p = inr refs -> group f token p -> prof_Keychain p' = no_reference -> prof_Keychains p' = refs' ->
  (exists refs, KeychainReferences p' = inr refs) -> refs' `sublist_of` refs -> group f token p'.
Proof.
  intros Hr (refs1 & keys & Hr1 & Hk & Hf & Hn) H1 H2 [refs2 Hr'] Hsub. rewrite Hr in Hr1. injection Hr1 as <-.
  apply references_many in Hr' as E; [|by rewrite H1]. rewrite H2 in E. subst refs2. clear Hr H1 H2.
  assert (Hex : exists keys', mapM f refs' = Some keys' /\ keys' `sublist_of` keys).
  { clear Hr' Hf Hn. revert keys Hk. induction Hsub as [|r l1 l2 Hsub IH|r l1 l2 Hsub IH]; intros keys; cbn.
    - intros [= <-]. by exists [].
    - destruct (f r) as [k|]; [|done]. cbn. destruct (mapM f l2) as [ks|]; [|done]. cbn. intros [= <-]. destruct (IH ks eq_refl) as (ks' & -> & Hs).
      exists (k :: ks'). split; [done|]. by apply sublist_skip.
    - destruct (f r) as [k|]; [|done]. cbn. destruct (mapM f l2) as [ks|]; [|done]. cbn. intros [= <-]. destruct (IH ks eq_refl) as (ks' & -> & Hs).
      exists ks'. split; [done|]. by apply sublist_cons. }
  destruct Hex as (keys' & Hk' & Hs). exists refs', keys'. split_and!; [done|done| |by eapply sublist_NoDup].
  rewrite Forall_forall in Hf |- *. intros k Hin. apply Hf. by eapply sublist_subseteq.
Qed.

Lemma ends_then_delete w c' refs (f : cmd unit) : ends w f before (fun w' _ => installed w' c') -> Forall old refs ->
  ends w (f ;! deleteUnreferencedProviderKeys c' refs) intact (fun _ _ => True).
Proof.
  intros Hf Ho. apply ends_call. eapply ends_mono; [exact Hf|by left|]. intros w' ? _ Hw'. by apply ends_delete_unreferenced.
Qed.

Lemma old_group c name p refs : usable c -> Providers c !! name = Some p -> KeychainReferences p = inr refs -> Forall old refs.
Proof. intros (_ & _ & _ & Ho) Hp Hr. apply Forall_forall. intros r Hin. apply Ho. by exists name, p, refs. Qed.

Lemma ends_remove_key w c expected name index : before w -> ready c ->
  ends w (removeProviderKey ToLower ToUpper parse_url c expected name index) intact (fun _ _ => True).
Proof.
  intros Hw Hc. pose proof (before_intact w Hw) as Hi. unfold removeProviderKey, with_provider. destruct (Providers c !! name) as [p|] eqn:Hp; [|by apply ends_fail].
  pose proof (ready_usable c name p Hc Hp) as Hu. apply ends_call, ends_lift; [done..|]. intros refs Hr. unfold references_or in Hr.
  destruct (KeychainReferences p) as [|refs1] eqn:Hr1; [done|]. injection Hr as <-.
  apply ends_call, ends_check; [done..|]. intros _. apply ends_call, ends_check; [done..|]. intros Hindex%orb_false_iff. cbv zeta.
  set (i := Z.to_nat (index - 1)). eapply ends_first with (P := fun _ => True); [done|done|apply returns_or_else, returns_Lookup|]. intros _ _.
  set (p' := p <| prof_Keychain := no_reference |> <| prof_Keychains := take i refs1 ++ drop (S i) refs1 |>).
  apply ends_then_delete; [|].
  - apply ends_write; [done| |done]. intros Hval. destruct Hu as (_ & Hk & _). apply (keyed_before w) in Hk; [|done]. apply keyed_put; [|done]. intros token Ht.
    eapply (group_part _ _ p p' refs1); [done| |done|done|by eapply valid_put|].
    + destruct Hk as (t & Ht1 & _ & Hg & _). assert (t = token) as -> by congruence. by apply (Hg name).
    + trans (take i refs1 ++ drop i refs1); [|by rewrite take_drop]. apply sublist_app; [done|]. replace (S i) with (i + 1)%nat by lia. rewrite <- drop_drop. apply sublist_drop.
  - constructor; [|done]. pose proof (old_group c name p refs1 Hu Hp Hr1) as Ho. rewrite Forall_forall in Ho. apply Ho, list_elem_of_In, nth_In.
    unfold i. lia.
Qed.

Lemma ends_rotate w c expected name key p p' previous : before w -> ready c -> validSecret key = true -> Providers c !! name = Some p -> KeychainReferences p = inr previous ->
  ends w (rotateProviderKey ToLower ToUpper parse_url (put_profile name p' c) expected name key p' previous) intact (fun _ _ => True).
Proof.
  intros Hw Hc Hkey Hp Hr. pose proof (before_intact w Hw) as Hi. pose proof (ready_usable c name p Hc Hp) as Hu. unfold rotateProviderKey.
  change (AccessTokenKeychain (put_profile name p' c)) with (AccessTokenKeychain c).
  apply ends_lookup_or; [done..|]. intros token Ht. apply ends_call, ends_check; [done..|]. intros Hne%String.eqb_neq.
  apply ends_new_reference; [done..|]. intros r Hn Hs. cbv zeta. set (q := if _ : bool then _ else _). apply ends_call.
  eapply ends_mono with (E := before); [|by left|by intros w' ? ? Hq; exact Hq]. apply ends_store; [done..|]. intros Hw1 Hkr _.
  apply ends_then_delete; [|by eapply old_group]. apply ends_or_remove; [done|exact (before_new w r Hw Hn)|]. apply ends_write; [done| |done].
  intros Hval. apply keyed_put_put. destruct Hu as (_ & Hk & _). apply keyed_put; [|apply keyed_added; [done|]; by apply keyed_before]. intros token' Ht'.
  apply (secret_added w r key) in Ht; [|done]. assert (token' = token) as -> by congruence.
  assert (Hfit : fit_key token key) by (split; [by apply stored_usable|congruence]). destruct (valid_put _ name q Hval) as [refs Hq]. revert Hq. unfold q.
  destruct (bool_decide (prof_Keychains p' = [])); intros Hq; cbn [negb] in *.
  - eapply group_one; [by eapply named_reference|by eexists|exact Hkr|done].
  - pose proof (references_many (p' <| prof_Keychains := [r] |> <| prof_Keychain := no_reference |>) refs eq_refl Hq) as ->. eexists _, [key]. split_and!; [exact Hq| |by constructor|apply NoDup_singleton]. cbn. by rewrite Hkr.
Qed.

Lemma ends_remove_provider w c expected name p refs : before w -> ready c -> Providers c !! name = Some p -> KeychainReferences p = inr refs ->
  ends w (removeProvider ToLower ToUpper parse_url c expected name refs) intact (fun _ _ => True).
Proof.
  intros Hw Hc Hp Hr. pose proof (ready_usable c name p Hc Hp) as Hu. unfold removeProvider. cbv zeta.
  apply ends_then_delete; [|by eapply old_group]. apply ends_write; [done| |done]. intros _. destruct Hu as (_ & Hk & Hurl & _).
  eapply keyed_before; [done|]. by apply keyed_delete.
Qed.

Lemma ends_differs key refs w (E : world -> Prop) (Q : world -> unit -> Prop) : intact w -> E w ->
  (Forall (fun r => exists k, secret w r = Some k /\ k <> key) refs -> Q w tt) -> ends w (differs_from key refs) E Q.
Proof.
  intros Hi HE. induction refs as [|r refs IH]; intros HQ; cbn [differs_from]; [apply ends_ok; [done|by apply HQ]|].
  apply ends_lookup_or; [done..|]. intros v Hv. apply ends_call, ends_check; [done..|]. intros Hne%String.eqb_neq. apply IH. intros Hall. apply HQ.
  constructor; [by exists v|done].
Qed.
Lemma ends_differs_all key l w (E : world -> Prop) (Q : world -> unit -> Prop) : intact w -> E w ->
  (Forall (fun kv : string * Profile => exists refs, KeychainReferences kv.2 = inr refs /\ Forall (fun r => exists k, secret w r = Some k /\ k <> key) refs) l -> Q w tt) ->
  ends w (differs_from_all key l) E Q.
Proof.
  intros Hi HE. induction l as [|[name p] l IH]; intros HQ; cbn [differs_from_all]; [apply ends_ok; [done|by apply HQ]|].
  apply ends_call, ends_lift; [done..|]. intros refs Hr. unfold references_or in Hr. destruct (KeychainReferences p) as [|refs1] eqn:Hr1; [done|]. injection Hr as <-.
  apply ends_call, ends_differs; [done..|]. intros Hall. apply IH. intros Hl. apply HQ. constructor; [by exists refs1|done].
Qed.
Lemma group_token f token token' p refs : KeychainReferences p = inr refs -> Forall (fun r => exists k, f r = Some k /\ k <> token') refs ->
  group f token p -> group f token' p.
Proof.
  intros Hr Hall (refs1 & keys & Hr1 & Hk & Hf & Hn). rewrite Hr in Hr1. injection Hr1 as <-. exists refs, keys. split_and!; [done..| |done].
  apply mapM_Some in Hk. clear Hr Hn. induction Hk as [|r k refs keys H Hk IH]; [done|]. inversion Hall as [|? ? (k' & Hk' & Hne) Hall']; subst.
  inversion Hf as [|? ? [Hu _] Hf']; subst. constructor; [|by apply IH]. split; [done|]. congruence.
Qed.

(** A new key of the gateway; the configuration may have changed in fields that
    have nothing to do with credentials. *)
Lemma ends_gateway_key w c c' expected key (Q : world -> unit -> Prop) : before w -> ready c -> Providers c' = Providers c -> cfg_BaseURL c' = "" ->
  (forall w', intact w' -> Q w' tt) -> ends w (replaceGatewayKey ToLower ToUpper parse_url c' expected key) before Q.
Proof.
  intros Hw Hc HP HB HQ. pose proof (before_intact w Hw) as Hi. unfold replaceGatewayKey. apply ends_call, ends_check; [done..|]. intros Hkey%negb_false_iff.
  apply ends_call, ends_differs_all; [done..|]. intros Hall. rewrite HP in Hall. apply ends_new_reference; [done..|]. intros r Hn Hs.
  apply ends_call, ends_store; [done..|]. intros Hw1 Hkr _. apply ends_or_remove; [done|exact (before_new w r Hw Hn)|]. apply ends_write; [done| |].
  - intros Hval. exists key. split_and!; [done|by apply stored_usable| |].
    + change (Providers (c' <| AccessTokenKeychain := r |>)) with (Providers c'). rewrite HP. destruct Hc as [(_ & Hk & _)|(_ & -> & _)]; [|apply map_Forall_empty].
      apply (keyed_before w) in Hk; [|done]. apply (keyed_added w r key) in Hk; [|done]. destruct Hk as (token & _ & _ & Hg & _). intros name p Hp.
      rewrite Forall_forall in Hall. destruct (Hall (name, p)) as (refs & Hr & Hrefs); [by apply elem_of_range|]. eapply group_token; [exact Hr| |by apply (Hg name)].
      eapply Forall_impl; [exact Hrefs|]. intros r' (k & Hk & Hne). exists k. split; [|done]. by apply secret_added.
    + intros _. change (cfg_BaseURL (c' <| AccessTokenKeychain := r |>)) with (cfg_BaseURL c'). by rewrite HB.
  - intros Hin. apply HQ. right. by eexists.
Qed.
End transactions.
