(* ===== verification/CommandClaims.v ===== *)
(** * The commands keep the credentials of a configuration

    Whatever fails and wherever a command stops, the configuration file is
    either as it was or a new one whose credentials are in the key chain
    ([credentials_kept]).  A configuration of the old form is migrated to an
    acceptable one just when its version fits its protocol ([migration_valid]);
    a label is always found for a provider ([unique_name]); removing a mapping
    of error codes undoes adding it ([mapping_added_removed]). *)

From S2P Require Import Prelude GoStrings GoFloat Json NetText Diagnostics Errors Pricing Routes View Catalog Config ConfigFacts Interaction Commands CommandFacts.
From S2P Require Upstream Budget Statements Utf8Facts ReloadFacts.

#[local] Open Scope cmd_scope.

(** ** Questions change nothing *)

Create HintDb silent discriminated.
#[export] Hint Constants Opaque : silent.
(** Walks through a program that only asks. *)
Ltac silent :=
  repeat lazymatch goal with
  | |- True => exact I
  | |- forall _, _ => intros ?
  | |- returns (ok _) _ => apply returns_ok
  | |- returns (fail _) _ => apply returns_fail
  | |- returns (lift _) _ => apply returns_lift
  | |- returns (check _ _) _ => apply returns_check
  | |- returns (or_else _ _) _ => apply returns_or_else
  | |- returns (attempt _ _) _ => apply returns_attempt; [|intros ?]
  | |- returns (call _ _) _ => eapply returns_call with (P := fun _ => True); [|intros ? _]
  | |- returns (Act _ _) _ => apply returns_act; [reflexivity|]
  | |- returns (match ?x with _ => _ end) _ => destruct x
  | |- returns _ _ => cbv zeta; solve [eauto with silent nocore]
  end.

Section questions.
Context (ToLower ToUpper : string -> string) (parse_url : string -> option URL).
Context (patience : nat) (ParseFloat : string -> option SpecFloat.spec_float) (FormatFloat : SpecFloat.spec_float -> string) (darwin : bool).
Abbreviation asks p := (returns p (fun _ => True)).

Lemma asks_lookup r : asks (Lookup r).
Proof. apply returns_Lookup. Qed.
Lemma asks_ask q e : asks (ask q e).
Proof. unfold ask. silent. Qed.
Lemma asks_tty e : asks (openControlTTY e).
Proof. unfold openControlTTY. silent. Qed.
Lemma asks_unlock : asks unlockKeychainIfNeeded.
Proof. unfold unlockKeychainIfNeeded. silent. Qed.
Lemma asks_macos e : asks (needs_macos darwin e).
Proof. unfold needs_macos. silent. Qed.
Lemma asks_random : asks randomCredential.
Proof. unfold randomCredential, random_bytes. silent. Qed.
Lemma asks_protocol_flag p : asks (protocol_flag p).
Proof. unfold protocol_flag. silent. Qed.
End questions.
#[export] Hint Resolve asks_lookup asks_ask asks_tty asks_unlock asks_macos asks_random asks_protocol_flag : silent.

Section prompts.
Context (ToLower ToUpper : string -> string) (parse_url : string -> option URL).
Context (patience : nat) (ParseFloat : string -> option SpecFloat.spec_float) (FormatFloat : SpecFloat.spec_float -> string) (darwin : bool).
Abbreviation asks p := (returns p (fun _ => True)).

Lemma asks_until {A} fuel q e (accept : string -> option A) : asks (ask_until fuel q e accept).
Proof. induction fuel as [|fuel IH]; cbn [ask_until]; silent. Qed.
Hint Resolve asks_until : silent.
Lemma asks_models models known : asks (chooseProviderModels patience models known).
Proof. unfold chooseProviderModels. silent. Qed.
Lemma asks_scope models known current : asks (promptModelScope patience models known current).
Proof. unfold promptModelScope. silent. Qed.
Lemma asks_protocol : asks (promptProviderProtocol ToLower patience).
Proof. unfold promptProviderProtocol. silent. Qed.
Hint Resolve asks_models asks_scope asks_protocol : silent.
Lemma asks_inspect endpoint key forced version : asks (inspectAndCompleteProvider ToLower parse_url patience endpoint key forced version).
Proof. unfold inspectAndCompleteProvider. silent. Qed.
Hint Resolve asks_inspect : silent.
Lemma asks_setup endpoint key forced models p version : asks (inspectAndCompleteProviderWithModels ToLower parse_url patience endpoint key forced models p version).
Proof. unfold inspectAndCompleteProviderWithModels. silent. Qed.
Hint Resolve asks_setup : silent.
Lemma returns_key fuel : returns (ask_key fuel) (fun key => validSecret key = true).
Proof.
  induction fuel as [|fuel IH]; cbn [ask_key]; [done|]. eapply returns_call; [apply asks_ask|]. intros key _. destruct (validSecret key) eqn:E; [done|exact IH].
Qed.
Lemma returns_new_provider version forced models p name :
  returns (promptNewProvider ToLower parse_url patience version forced models p name) (fun s => validSecret (setup_APIKey s) = true).
Proof.
  unfold promptNewProvider. eapply returns_call; [apply asks_until|]. intros url _. eapply returns_call; [apply returns_key|]. intros key Hkey.
  eapply returns_call; [apply asks_setup|]. intros q _. done.
Qed.
Lemma asks_schedule : asks promptReportSchedule.
Proof. unfold promptReportSchedule. silent. Qed.
Lemma asks_confirm e : asks (confirm e).
Proof. unfold confirm. silent. Qed.
Lemma asks_update p : asks (promptProviderUpdate ToLower parse_url p).
Proof. unfold promptProviderUpdate. silent. Qed.
Lemma asks_field q v : asks (ask_field q v).
Proof. unfold ask_field. silent. Qed.
Lemma asks_budget_value v : asks (parseBudgetValue ParseFloat v).
Proof. unfold parseBudgetValue. silent. Qed.
Hint Resolve asks_field asks_budget_value : silent.
Lemma asks_budget b : asks (promptBudget ParseFloat FormatFloat b).
Proof. unfold promptBudget. silent. Qed.
Lemma asks_default q v : asks (readPromptDefault q v).
Proof. unfold readPromptDefault. silent. Qed.
Hint Resolve asks_default : silent.
Lemma asks_int q v : asks (readPromptInt q v).
Proof. unfold readPromptInt. silent. Qed.
End prompts.
#[export] Hint Resolve asks_until asks_models asks_scope asks_protocol asks_inspect asks_setup asks_schedule asks_confirm asks_update asks_budget asks_default asks_int : silent.

Section commands.
Context (ToLower ToUpper : string -> string) (parse_url : string -> option URL).
Context {RangeProviders : MapRange string Profile} {RangePrices : MapRange string Price}.
Context {RangeAliases : MapRange string string} {RangeThresholds : MapRange string Z}.
Context (darwin : bool) (ledger_path : string) (patience : nat).
Context (ParseFloat : string -> option SpecFloat.spec_float) (FormatFloat : SpecFloat.spec_float -> string).
Context (printed : string -> string) (w0 : world).
Context (startable : forall data c, file w0 = Some data -> decodeValidatedConfig ToLower ToUpper parse_url data = inr c ->
  resolves ToLower ToUpper parse_url (secret printed w0) c).
Abbreviation before := (before w0).
Abbreviation intact := (intact ToLower ToUpper parse_url printed w0).
Abbreviation ready := (ready ToLower ToUpper parse_url printed w0).
Abbreviation loaded := (loaded ToLower ToUpper parse_url printed w0).
Abbreviation done_with p := (ends printed intact w0 p intact (fun _ _ => True)).
Abbreviation ends := (ends printed intact).

Lemma start_intact : intact w0.
Proof. by left. Qed.
Lemma ends_final w (p : cmd unit) : ends w p before (fun _ _ => True) -> ends w p intact (fun _ _ => True).
Proof. intros H. eapply ends_mono; [exact H|by left|done]. Qed.
Lemma ends_silent {A B} (p : cmd A) (f : A -> cmd B) Q : returns p (fun _ => True) -> (forall x, ends w0 (f x) intact Q) -> ends w0 (call p f) intact Q.
Proof. intros Hp Hf. eapply ends_first; [apply start_intact|apply start_intact|exact Hp|]. intros x _. apply Hf. Qed.
Lemma ends_stop {A} e (Q : world -> A -> Prop) : ends w0 (fail e) intact Q.
Proof. apply ends_fail; apply start_intact. Qed.
Lemma ends_look {A} a (k : answer a -> cmd A) Q : quiet a = true -> (forall r, ends w0 (k r) intact Q) -> ends w0 (Act a k) intact Q.
Proof. intros Hq Hk. split; [apply start_intact|]. intros r w' He. apply quiet_effect in He as ->; [|done]. apply Hk. Qed.
Lemma ends_with {A} c ref (f : Profile -> cmd A) Q : (forall p, Providers c !! ref = Some p -> ends w0 (f p) intact Q) -> ends w0 (with_provider c ref f) intact Q.
Proof. intros Hf. unfold with_provider. destruct (Providers c !! ref) as [p|]; [by apply Hf|apply ends_stop]. Qed.

(** Goes through a command up to what it does with the configuration. *)
Ltac steps :=
  repeat lazymatch goal with
  | |- forall _, _ => intros ?
  | |- CommandFacts.ends _ _ _ (fail _) _ _ => apply ends_stop
  | |- CommandFacts.ends _ _ _ (ok _) _ _ => apply ends_ok; [apply start_intact|exact I]
  | |- CommandFacts.ends _ _ _ (with_provider _ _ _) _ _ => apply ends_with
  | |- CommandFacts.ends _ _ _ (call (lift _) _) _ _ => apply ends_call, ends_lift; [apply start_intact|intros ? _; apply start_intact|]
  | |- CommandFacts.ends _ _ _ (call (check _ _) _) _ _ => apply ends_call, ends_check; [apply start_intact|intros _; apply start_intact|]
  | |- CommandFacts.ends _ _ _ (call (loadCommandConfig _ _ _ _) _) _ _ =>
      apply (ends_load ToLower ToUpper parse_url _ printed w0 startable); [exact (before_start w0)|apply start_intact|]
  | |- CommandFacts.ends _ _ _ (call (LoadConfig _ _ _) _) _ _ =>
      apply (ends_LoadConfig ToLower ToUpper parse_url printed w0 startable); [exact (before_start w0)|apply start_intact|]
  | |- CommandFacts.ends _ _ _ (call (migrateLegacyProvider _ _ _ _) _) _ _ =>
      apply (ends_migrate ToLower ToUpper parse_url printed w0); [exact (before_start w0)|apply start_intact|eassumption|]
  | |- CommandFacts.ends _ _ _ (@call ?T _ _ _) _ _ =>
      lazymatch T with Config => fail | Profile => fail | setup => fail | list KeychainReference => fail | _ => idtac end; apply ends_silent; [solve [silent]|]
  | |- CommandFacts.ends _ _ _ (Act _ _) _ _ => apply ends_look; [reflexivity|]
  | |- CommandFacts.ends _ _ _ (match ?x with _ => _ end) _ _ => destruct x eqn:?
  | |- CommandFacts.ends _ _ _ (let x := _ in _) _ _ => cbv zeta
  end.

Lemma loaded_is_ready c : loaded c -> ready c.
Proof. apply loaded_ready. Qed.
Lemma ends_edit_command c ref p p' expected : ready c -> Providers c !! ref = Some p -> KeychainReferences p' = KeychainReferences p ->
  done_with (writeCommandConfig ToLower ToUpper parse_url (put_profile ref p' c) expected).
Proof. intros Hc Hp Hr. apply ends_final. by eapply ends_edit. Qed.
Lemma ends_settings_command c c' expected : ready c -> AccessTokenKeychain c' = AccessTokenKeychain c -> Providers c' = Providers c ->
  cfg_BaseURL c' = cfg_BaseURL c -> cfg_Keychain c' = cfg_Keychain c -> done_with (writeCommandConfig ToLower ToUpper parse_url c' expected).
Proof. intros. apply ends_final. by eapply ends_settings. Qed.

Lemma ends_provider_key_add ref : done_with (providerKeyAdd ToLower ToUpper parse_url darwin ledger_path ref).
Proof. unfold providerKeyAdd. steps. apply ends_final. by eapply ends_append. Qed.
Lemma ends_provider_key_remove ref number yes : done_with (providerKeyRemove ToLower ToUpper parse_url darwin ledger_path ref number yes).
Proof.
  unfold providerKeyRemove. steps. eapply ends_remove_key; [done|].
  by apply loaded_is_ready.
Qed.
Lemma references_of p refs e : references_or e p = inr refs -> KeychainReferences p = inr refs.
Proof. unfold references_or. by destruct (KeychainReferences p). Qed.
Lemma ends_provider_remove ref yes : done_with (providerRemove ToLower ToUpper parse_url darwin ledger_path ref yes).
Proof. unfold providerRemove. steps. eapply ends_remove_provider; [done..|]. by eapply references_of. Qed.
Lemma ends_edit_provider ref edit : (forall p p', edit p = inr p' -> KeychainReferences p' = KeychainReferences p) ->
  done_with (edit_provider ToLower ToUpper parse_url ledger_path ref edit).
Proof. intros He. unfold edit_provider. steps. eapply ends_edit_command; [by apply loaded_is_ready|done|by apply He]. Qed.

(** The commands that edit one provider. *)
Lemma ends_pricing_set ref model currency source version hit miss output :
  done_with (providerPricingSet ToLower ToUpper parse_url ledger_path ref model currency source version hit miss output).
Proof.
  unfold providerPricingSet. steps. apply ends_edit_provider. intros p p'. cbv zeta. destruct (Pricing.Validate _ _); [done|]. by intros [= <-].
Qed.
Lemma ends_pricing_remove ref model : done_with (providerPricingRemove ToLower ToUpper parse_url ledger_path ref model).
Proof. unfold providerPricingRemove. steps. apply ends_edit_provider. intros p p'. destruct (_ !! _); [|done]. by intros [= <-]. Qed.
Lemma ends_map_add ref code category status : done_with (providerErrorMapAdd ToLower ToUpper parse_url ledger_path ref code category status).
Proof.
  apply ends_edit_provider. intros p p'. destruct code, category; try done. unfold error_map_add. destruct (ValidateProviderErrorMappings _); [done|]. by intros [= <-].
Qed.
Lemma ends_map_remove ref code category status : done_with (providerErrorMapRemove ToLower ToUpper parse_url ledger_path ref code category status).
Proof.
  apply ends_edit_provider. intros p p'. destruct code, category; try done. unfold error_map_remove. destruct (existsb _ _); [|done]. by intros [= <-].
Qed.
Lemma ends_save_scope c expected ref models : ready c -> done_with (saveProviderModelScope ToLower ToUpper parse_url c expected ref models).
Proof. intros Hc. unfold saveProviderModelScope. steps. by eapply ends_edit_command. Qed.
Lemma ends_models_select ref : done_with (providerModelsSelect ToLower ToUpper parse_url darwin ledger_path patience ref).
Proof. unfold providerModelsSelect. steps; by apply ends_save_scope. Qed.
Lemma ends_models ref f : done_with (providerModels ToLower ToUpper parse_url darwin ledger_path patience ref f).
Proof.
  unfold providerModels. steps; [apply ends_edit_provider..|apply ends_models_select].
  - intros p p'. cbv zeta. case_bool_decide; [done|]. by intros [= <-].
  - by intros p p' [= <-].
Qed.
Lemma ends_budget ref f : done_with (providerBudgetCommand ToLower ToUpper parse_url ParseFloat FormatFloat ref f).
Proof. unfold providerBudgetCommand. steps. by eapply ends_edit_command. Qed.
Lemma ends_routing shared threshold : done_with (routingCommand ToLower ToUpper parse_url ledger_path shared threshold).
Proof. unfold routingCommand. steps. eapply ends_settings_command; [by apply loaded_is_ready|done..]. Qed.
Lemma ends_chain_set entries args : done_with (autoChainSet ToLower ToUpper parse_url ledger_path entries args).
Proof. unfold autoChainSet. steps. eapply ends_settings_command; [by apply loaded_is_ready|done..]. Qed.
Lemma ends_chain_clear entries : done_with (autoChainClear ToLower ToUpper parse_url ledger_path entries).
Proof. unfold autoChainClear. steps. eapply ends_settings_command; [by apply loaded_is_ready|done..]. Qed.

Lemma ends_provider_add f : done_with (providerAdd ToLower ToUpper parse_url darwin ledger_path patience f).
Proof.
  unfold providerAdd. steps. eapply ends_first with (P := fun s => validSecret (setup_APIKey s) = true); [apply start_intact|apply start_intact| |].
  { destruct (String.eqb _ _); [apply returns_new_provider|]. apply returns_call with (P := fun _ => True); [silent|intros _ _].
    apply returns_call with (P := fun _ => True); [silent|intros key _]. destruct (validSecret key) eqn:Hkey; [|done].
    apply returns_call with (P := fun _ => True); [done|intros _ _]. apply returns_call with (P := fun _ => True); [silent|intros p _]. done. }
  intros s Hs. steps. eapply ends_first with (P := loaded); [apply start_intact|apply start_intact| |].
  { destruct (String.eqb _ _ && bool_decide (b = None)) eqn:Hb; [|by apply returns_ok]. apply returns_call with (P := fun _ => True); [silent|intros schedule _].
    apply returns_ok. right. apply andb_true_iff in Hb as [_ Hb%bool_decide_eq_true]. auto. }
  steps. apply ends_final, ends_persist; [done| |done|done]. by destruct (bool_decide (size (Providers c') = 0%nat)).
Qed.
Lemma update_references f models p q : update_fields f models p = inr q -> KeychainReferences q = KeychainReferences p.
Proof.
  unfold update_fields. cbv zeta. set (p1 := match models with Some _ => _ | None => _ end).
  assert (H1 : KeychainReferences p1 = KeychainReferences p) by (unfold p1; by destruct models). clearbody p1. rewrite <- H1. clear H1.
  set (edited := match up_aliases f with Some _ => _ | None => _ end).
  assert (H2 : forall p2, edited = inr p2 -> KeychainReferences p2 = KeychainReferences p1).
  { unfold edited. intros p2. destruct (up_aliases f) as [t|]; [destruct (parse_aliases t); [|done]|]; by intros [= <-]. }
  clearbody edited. destruct edited as [|p2]; [done|]. rewrite <- (H2 p2 eq_refl). clear H2.
  destruct (match up_context f with Some _ => _ | None => None end); [done|]. destruct (_ && _); [done|]. intros [= <-].
  by destruct (up_context f), (up_sessions f), (bool_decide _); repeat destruct (String.eqb _ _).
Qed.

Lemma ends_provider_update ref f : done_with (providerUpdate ToLower ToUpper parse_url darwin ledger_path patience ref f).
Proof.
  unfold providerUpdate. steps. eapply ends_first with (P := fun previous => up_rotate u = true -> KeychainReferences p = inr previous);
    [apply start_intact|apply start_intact| |].
  { destruct (up_rotate u); [|done]. apply returns_lift. intros refs Hr _. by eapply references_of. }
  intros previous Hprevious. do 3 (apply ends_silent; [solve [silent]|intros ?]).
  eapply ends_first with (P := fun key => up_rotate u = true -> validSecret key = true); [apply start_intact|apply start_intact| |].
  { destruct (up_rotate u); [|done]. apply returns_call with (P := fun _ => True); [silent|intros key _]. destruct (validSecret key) eqn:Hkey; [|done]. cbn. done. }
  intros key Hkey. eapply ends_first with (P := fun q => KeychainReferences q = KeychainReferences p); [apply start_intact|apply start_intact| |].
  { destruct (_ || _); [|done]. cbv zeta. apply returns_call with (P := fun _ => True); [silent|intros s _]. apply returns_ok. cbv beta; destruct (String.eqb (up_endpoint u) ""); reflexivity. }
  intros q Hq. apply ends_call, ends_lift; [apply start_intact|intros ? _; apply start_intact|]. intros q' Hq'%update_references. rewrite Hq in Hq'.
  destruct (up_rotate u); [eapply ends_rotate; eauto; done|by eapply ends_edit_command].
Qed.

Lemma ends_gateway f : done_with (gatewayConfigure ToLower ToUpper parse_url darwin ledger_path f).
Proof.
  unfold gatewayConfigure. steps.
  eapply ends_first with (P := fun c => ready c /\ cfg_BaseURL c = "" /\ Providers c = Providers c'); [apply start_intact|apply start_intact| |].
  { destruct (String.eqb s ""); [done|]. destruct (Net.SplitHostPort _) as [[host port]|]; [|done]. apply returns_ok. by split_and!. }
  intros c2 (Hc2 & Hu2 & Hp2). set (c3 := match gw_health f with Some _ => _ | None => _ end).
  assert (Hc3 : ready c3 /\ cfg_BaseURL c3 = "") by (unfold c3; destruct (gw_health f); by split). clearbody c3. destruct Hc3 as [Hc3 Hu3].
  steps; apply ends_final; [by eapply ends_gateway_key|]. by eapply ends_settings.
Qed.
End commands.

(** ** Runs *)

Section runs.
Context (printed : string -> string).

(** A command goes on with an answer that the world may give. *)
Inductive step {A} : world * prog answer A -> world * prog answer A -> Prop :=
  | performs w a k r w' : effect printed w a r w' -> step (w, Act a k) (w', k r).

Lemma safe_steps {A} I (s s' : world * prog answer A) Q : rtc step s s' -> safe printed I s.1 s.2 Q -> safe printed I s'.1 s'.2 Q.
Proof. induction 1 as [s|s1 s2 s3 [w a k r w' He] _ IH]; [done|]. intros [_ H]. apply IH. by apply H. Qed.

(** A world that is played: the key chain answers, random bytes and what the
    user types are given. *)
Record script := { typed : list (option string); bytes : list (list byte); inspected : option (string * list string * bool) }.
Definition new_bytes (w : world) (b : list byte) : bool :=
  bool_decide (Forall (fun x => 0 <= x < 256) b) &&
  bool_decide (map_Forall (fun r v => Account r <> hex_text b /\ Strings.TrimSpace (printed v) <> hex_text b) (keychain w)).
Definition perform (w : world) (s : script) (a : action) : answer a * world * script :=
  match a with
  | Find r => (printed <$> keychain w !! r, w, s)
  | Add r v => match keychain w !! r with Some _ => (false, w, s) | None => (true, added w r v, s) end
  | Remove r => (true, w <| keychain := delete r (keychain w) |>, s)
  | ReadFile => (match file w with Some data => Contents data | None => NotExist end, w, s)
  | Prepare _ => (true, w, s)
  | Rename data => (true, w <| file := Some data |>, s)
  | Random n =>
      match bytes s with
      | b :: rest => (if bool_decide (length b = n) && new_bytes w b then Some b else None, w, {| typed := typed s; bytes := rest; inspected := inspected s |})
      | [] => (None, w, s)
      end
  | Ask _ =>
      match typed s with
      | x :: rest => (x, w, {| typed := rest; bytes := bytes s; inspected := inspected s |})
      | [] => (None, w, s)
      end
  | Inspect _ _ _ => (inspected s, w, s)
  | Discover _ _ _ _ => (([], false), w, s)
  end.
(** The world and the result of a played command. *)
Fixpoint play {A} (w : world) (s : script) (p : prog answer A) : world * A :=
  match p with
  | Return x => (w, x)
  | Act a k => let '(r, w, s) := perform w s a in play w s (k r)
  end.

Lemma perform_effect w s a : effect printed w a (perform w s a).1.1 (perform w s a).1.2.
Proof.
  destruct a; cbn.
  - split; [done|]. intros x Hx. apply fmap_Some in Hx as (v & -> & ->). by exists v.
  - destruct (keychain w !! r) eqn:E; [by left|by right].
  - by right.
  - split; [done|]. by destruct (file w).
  - done.
  - by right.
  - destruct (bytes s) as [|b rest]; cbn; [done|]. split; [done|]. intros b'. destruct (bool_decide (length b = n)) eqn:El; cbn; [|done].
    destruct (new_bytes w b) eqn:En; [|done]. intros [= <-]. apply bool_decide_eq_true in El. unfold new_bytes in En.
    apply andb_true_iff in En as [Eb%bool_decide_eq_true En%bool_decide_eq_true]. split_and!; [done|done| |].
    + intros service. destruct (keychain w !! _) as [v|] eqn:E; [|done]. by destruct (En _ _ E).
    + intros r. unfold secret. destruct (keychain w !! r) as [v|] eqn:E; [|done]. destruct (En _ _ E) as [_ H]. cbn. congruence.
  - by destruct (typed s).
  - done.
  - done.
Qed.
Lemma play_steps {A} w s (p : prog answer A) : rtc step (w, p) ((play w s p).1, Return (play w s p).2).
Proof.
  revert w s. induction p as [x|a k IH]; intros w s; cbn; [done|]. pose proof (perform_effect w s a) as H. destruct (perform w s a) as [[r w'] s']. cbn in *.
  eapply rtc_l; [by constructor|]. apply IH.
Qed.
End runs.

(** ** The commands *)

Inductive command :=
  | CmdProviderAdd (f : add_flags)
  | CmdProviderRemove (ref : string) (yes : bool)
  | CmdProviderUpdate (ref : string) (f : update_flags)
  | CmdKeyAdd (ref : string)
  | CmdKeyRemove (ref number : string) (yes : bool)
  | CmdPricingSet (ref model currency source version : string) (hit miss output : SpecFloat.spec_float)
  | CmdPricingRemove (ref model : string)
  | CmdMapAdd (ref : string) (code category : option string) (status : option Z)
  | CmdMapRemove (ref : string) (code category : option string) (status : option Z)
  | CmdModels (ref : string) (f : scope_flag)
  | CmdBudget (ref : string) (f : budget_flags)
  | CmdRouting (shared threshold : option string)
  | CmdChainSet (entries : option string) (args : list string)
  | CmdChainClear (entries : option string)
  | CmdGateway (f : gateway_flags).

Section commands.
Context (ToLower ToUpper : string -> string) (parse_url : string -> option URL).
Context {RangeProviders : MapRange string Profile} {RangePrices : MapRange string Price}.
Context {RangeAliases : MapRange string string} {RangeThresholds : MapRange string Z}.
Context (darwin : bool) (ledger_path : string) (patience : nat).
Context (ParseFloat : string -> option SpecFloat.spec_float) (FormatFloat : SpecFloat.spec_float -> string).

Definition run (c : command) : cmd unit :=
  match c with
  | CmdProviderAdd f => providerAdd ToLower ToUpper parse_url darwin ledger_path patience f
  | CmdProviderRemove ref yes => providerRemove ToLower ToUpper parse_url darwin ledger_path ref yes
  | CmdProviderUpdate ref f => providerUpdate ToLower ToUpper parse_url darwin ledger_path patience ref f
  | CmdKeyAdd ref => providerKeyAdd ToLower ToUpper parse_url darwin ledger_path ref
  | CmdKeyRemove ref number yes => providerKeyRemove ToLower ToUpper parse_url darwin ledger_path ref number yes
  | CmdPricingSet ref model currency source version hit miss output =>
      providerPricingSet ToLower ToUpper parse_url ledger_path ref model currency source version hit miss output
  | CmdPricingRemove ref model => providerPricingRemove ToLower ToUpper parse_url ledger_path ref model
  | CmdMapAdd ref code category status => providerErrorMapAdd ToLower ToUpper parse_url ledger_path ref code category status
  | CmdMapRemove ref code category status => providerErrorMapRemove ToLower ToUpper parse_url ledger_path ref code category status
  | CmdModels ref f => providerModels ToLower ToUpper parse_url darwin ledger_path patience ref f
  | CmdBudget ref f => providerBudgetCommand ToLower ToUpper parse_url ParseFloat FormatFloat ref f
  | CmdRouting shared threshold => routingCommand ToLower ToUpper parse_url ledger_path shared threshold
  | CmdChainSet entries args => autoChainSet ToLower ToUpper parse_url ledger_path entries args
  | CmdChainClear entries => autoChainClear ToLower ToUpper parse_url ledger_path entries
  | CmdGateway f => gatewayConfigure ToLower ToUpper parse_url darwin ledger_path f
  end.

Section one_run.
Context (printed : string -> string) (w0 : world).
Context (startable : forall data c, file w0 = Some data -> decodeValidatedConfig ToLower ToUpper parse_url data = inr c ->
  resolves ToLower ToUpper parse_url (secret printed w0) c).

Lemma ends_run c : ends printed (intact ToLower ToUpper parse_url printed w0) w0 (run c) (intact ToLower ToUpper parse_url printed w0) (fun _ _ => True).
Proof.
  destruct c; cbn [run].
  - by apply ends_provider_add.
  - by apply ends_provider_remove.
  - by apply ends_provider_update.
  - by apply ends_provider_key_add.
  - by apply ends_provider_key_remove.
  - by apply ends_pricing_set.
  - by apply ends_pricing_remove.
  - by apply ends_map_add.
  - by apply ends_map_remove.
  - by apply ends_models.
  - by apply ends_budget.
  - by apply ends_routing.
  - by apply ends_chain_set.
  - by apply ends_chain_clear.
  - by apply ends_gateway.
Qed.
End one_run.

(** C7. Commands keep the credentials of the gateway.  Suppose the configuration
    that a command finds resolves, or there is none.  At every moment of every
    run of the command - any operation may fail, a failed one may have taken
    effect in the key chain, and the command may be killed anywhere - either
    the file is as it was and nothing is lost from the key chain, or the file
    is the text of a configuration whose credentials all resolve: they are in
    the key chain, usable, distinct within a provider and different from the
    gateway's own key; and of the items that were there only API keys of the
    old configuration are gone that are neither the access token nor an API key
    of the new one.  (A URL of the report webhook that shares the reference of
    such a key is lost with it: [webhook_item_deleted].) *)
Theorem credentials_kept printed c w0 w p :
  (forall data c, file w0 = Some data -> decodeValidatedConfig ToLower ToUpper parse_url data = inr c -> resolves ToLower ToUpper parse_url (secret printed w0) c) ->
  rtc (step printed) (w0, run c) (w, p) ->
  (file w = file w0 /\ keychain w0 ⊆ keychain w) \/
  exists c', file w = Some (config_text c') /\ resolves ToLower ToUpper parse_url (secret printed w) c' /\
    forall r v, keychain w0 !! r = Some v -> keychain w !! r = Some v \/
      ((exists data c0, file w0 = Some data /\ decodeValidatedConfig ToLower ToUpper parse_url data = inr c0 /\ api_key c0 r) /\ ~ credential c' r).
Proof. intros Hs Hr. exact (safe_here _ _ _ _ _ (safe_steps _ _ _ _ _ Hr (ends_run printed w0 Hs c))). Qed.
End commands.

(** ** Names *)

Lemma digits_read fuel n acc : 0 <= n < 2 ^ Z.of_nat fuel -> (0 < fuel)%nat ->
  Strconv.digits_value (Decimal.digits_fuel fuel n acc) 0 = Strconv.digits_value acc n.
Proof.
  revert n acc. induction fuel as [|fuel IH]; intros n acc Hn Hf; [lia|]. cbn [Decimal.digits_fuel].
  assert (Hstep : forall k, k * 10 + n mod 10 = n -> Strconv.digits_value (48 + n mod 10 :: acc) k = Strconv.digits_value acc n).
  { intros k Hk. cbn [Strconv.digits_value]. f_equal. lia. }
  pose proof (Z.div_mod n 10 ltac:(lia)) as Hd. destruct (Z.eqb_spec (n / 10) 0) as [E|E]; [apply Hstep; lia|].
  pose proof (Z.div_pos n 10 ltac:(lia) ltac:(lia)). rewrite IH; [apply Hstep; lia| |].
  - split; [lia|]. apply Z.div_lt_upper_bound; [lia|]. rewrite Nat2Z.inj_succ, Z.pow_succ_r in Hn by lia. lia.
  - destruct fuel; [|lia]. cbn in Hn. assert (n = 0 \/ n = 1) as [->| ->] by lia; done.
Qed.
Lemma digits_inj m n : 0 <= m -> 0 <= n -> Decimal.digits m = Decimal.digits n -> m = n.
Proof.
  assert (H : forall k, 0 <= k -> Strconv.digits_value (Decimal.digits k) 0 = k).
  { intros k Hk. unfold Decimal.digits. rewrite digits_read; [done| |lia]. split; [done|]. rewrite Nat2Z.inj_succ, Z2Nat.id by apply Z.log2_nonneg.
    destruct (Z.eq_dec k 0) as [->|]; [done|]. apply Z.log2_spec. lia. }
  intros Hm Hn E. rewrite <- (H m Hm), <- (H n Hn). by rewrite E.
Qed.
Lemma digits_range n : Forall (fun b => 48 <= b <= 57) (Decimal.digits n).
Proof.
  unfold Decimal.digits. generalize (S (Z.to_nat (Z.log2 n))) as fuel. intros fuel. assert (Hacc : Forall (fun b => 48 <= b <= 57) []) by constructor. revert n Hacc.
  generalize (@nil byte) as acc. induction fuel as [|fuel IH]; intros acc n Hacc; cbn [Decimal.digits_fuel]; [done|].
  assert (Hn : Forall (fun b => 48 <= b <= 57) (48 + n mod 10 :: acc)) by (apply Forall_cons; split; [pose proof (Z.mod_pos_bound n 10); lia|done]).
  destruct (n / 10 =? 0); [done|by apply IH].
Qed.

Lemma ending_text n : 0 <= n -> bytes_of_string (Decimal.of_Z n) = Decimal.digits n.
Proof.
  intros Hn. unfold Decimal.of_Z. destruct (Z.ltb_spec n 0); [lia|]. apply bytes_of_string_of_bytes. eapply Forall_impl; [apply digits_range|]. cbn. lia.
Qed.
(** The text after the last hyphen. *)
Lemma last_part (p q d e : list byte) : 45 ∉ d -> 45 ∉ e -> p ++ 45 :: d = q ++ 45 :: e -> d = e.
Proof.
  intros Hd He. revert q. induction p as [|x p IH]; intros [|y q]; cbn.
  - by intros [= ->].
  - intros [= _ ->]. exfalso. apply Hd, elem_of_app. right. by left.
  - intros [= _ <-]. exfalso. apply He, elem_of_app. right. by left.
  - intros [= _ E]. by eapply IH.
Qed.
Lemma suffixed_inj base m n : 0 <= m -> 0 <= n -> suffixed base m = suffixed base n -> m = n.
Proof.
  intros Hm Hn. unfold suffixed. rewrite !ending_text by done. intros E. apply digits_inj; [done..|]. eapply last_part; [| |exact E].
  - intros H. pose proof (digits_range m) as Hr. rewrite Forall_forall in Hr. apply Hr in H. cbn in H. lia.
  - intros H. pose proof (digits_range n) as Hr. rewrite Forall_forall in Hr. apply Hr in H. cbn in H. lia.
Qed.
Lemma suffixed_bytes base n : Utf8Facts.is_bytes base -> 0 <= n -> Utf8Facts.is_bytes (suffixed base n).
Proof.
  intros Hb Hn. unfold suffixed. rewrite ending_text by done. apply Forall_app. split; [destruct (_ <? _)%nat; [by apply Forall_take|done]|].
  constructor; [lia|]. eapply Forall_impl; [apply digits_range|]. cbn. lia.
Qed.

Lemma name_inj base m n : Utf8Facts.is_bytes base -> 0 <= m -> 0 <= n -> string_of_bytes (suffixed base m) = string_of_bytes (suffixed base n) -> m = n.
Proof.
  intros Hb Hm Hn E. apply (suffixed_inj base); [done..|]. apply (f_equal bytes_of_string) in E. by rewrite !bytes_of_string_of_bytes in E by by apply suffixed_bytes.
Qed.
Lemma free_name_spec {A} (providers : gmap string A) base fuel suffix :
  (exists n, suffix <= n < suffix + Z.of_nat fuel /\ free_name fuel providers base suffix = Some (string_of_bytes (suffixed base n)) /\
     providers !! string_of_bytes (suffixed base n) = None) \/
  (forall n, suffix <= n < suffix + Z.of_nat fuel -> is_Some (providers !! string_of_bytes (suffixed base n))).
Proof.
  revert suffix. induction fuel as [|fuel IH]; intros suffix; [right; lia|]. cbn [free_name].
  destruct (providers !! string_of_bytes (suffixed base suffix)) as [a|] eqn:E; [|left; exists suffix; split_and!; [lia..|done|done]].
  destruct (IH (suffix + 1)) as [(n & Hn & H)|H]; [left; exists n; split; [lia|done]|right]. intros n Hn. destruct (Z.eq_dec n suffix) as [->|]; [by exists a|].
  apply H. lia.
Qed.
(** The loop stops: the names it tries differ, and not all of them are taken. *)
Lemma free_name_found {A} (providers : gmap string A) base suffix : Utf8Facts.is_bytes base -> 0 <= suffix ->
  exists n, suffix <= n <= suffix + Z.of_nat (size providers) /\ free_name (S (size providers)) providers base suffix = Some (string_of_bytes (suffixed base n)) /\
    providers !! string_of_bytes (suffixed base n) = None.
Proof.
  intros Hb Hs. destruct (free_name_spec providers base (S (size providers)) suffix) as [(n & Hn & H)|H]; [exists n; split; [lia|done]|]. exfalso.
  set (names := (fun n => string_of_bytes (suffixed base n)) <$> seqZ suffix (Z.of_nat (S (size providers)))).
  assert (Hnames : length names = S (size providers)) by (unfold names; rewrite length_fmap, length_seqZ; lia).
  assert (Hsub : list_to_set names ⊆ dom providers).
  { intros x Hx. apply elem_of_list_to_set, list_elem_of_fmap in Hx as (n & -> & Hn%elem_of_seqZ). apply elem_of_dom, H. lia. }
  apply subseteq_size in Hsub. rewrite size_dom, size_list_to_set in Hsub; [lia|]. unfold names. apply NoDup_fmap_2_strong; [|apply NoDup_seqZ].
  intros m n Hm%elem_of_seqZ Hn%elem_of_seqZ. apply name_inj; [done|lia..].
Qed.

Lemma digits_length fuel n acc k : 0 <= n < 10 ^ k -> 1 <= k -> Z.of_nat (length (Decimal.digits_fuel fuel n acc)) <= Z.of_nat (length acc) + k.
Proof.
  revert n acc k. induction fuel as [|fuel IH]; intros n acc k Hn Hk; cbn [Decimal.digits_fuel]; [lia|].
  destruct (Z.eqb_spec (n / 10) 0) as [E|E]; [cbn [length]; lia|]. pose proof (Z.div_pos n 10 ltac:(lia) ltac:(lia)).
  destruct (Z.eq_dec k 1) as [->|]; [exfalso; apply E, Z.div_small; lia|]. etrans; [apply (IH _ _ (k - 1))|cbn [length]; lia]; [|lia].
  split; [done|]. apply Z.div_lt_upper_bound; [lia|]. replace k with (Z.succ (k - 1)) in Hn by lia. rewrite Z.pow_succ_r in Hn by lia. lia.
Qed.
Lemma suffixed_length base n : 0 <= n < 10 ^ 79 -> (length (suffixed base n) <= max_label)%nat.
Proof.
  intros Hn. unfold suffixed. rewrite ending_text by lia. pose proof (digits_length (S (Z.to_nat (Z.log2 n))) n [] 79 Hn ltac:(lia)) as H.
  fold (Decimal.digits n) in H. cbn [length Z.of_nat] in H. destruct (Nat.ltb_spec max_label (length base + length (45 :: Decimal.digits n))).
  - rewrite length_app, length_take. cbn [length]. unfold max_label in *. lia.
  - by rewrite length_app.
Qed.
Lemma drop_while_subset {A} f (l : list A) : Strings.drop_while f l ⊆ l.
Proof. induction l as [|x l IH]; cbn; [done|]. destruct (f x); set_solver. Qed.
Lemma trim_set_subset set l : trim_set set l ⊆ l.
Proof. unfold trim_set. intros x. rewrite list_elem_of_In, <- in_rev, <- list_elem_of_In. intros H%drop_while_subset.
  rewrite list_elem_of_In, <- in_rev, <- list_elem_of_In in H. by apply drop_while_subset in H. Qed.

Lemma label_base_bytes candidate : Utf8Facts.is_bytes (label_base candidate) /\ label_base candidate <> [] /\ (length (label_base candidate) <= max_label)%nat.
Proof.
  unfold label_base. set (base := trim_set _ _). assert (Hb : Utf8Facts.is_bytes base).
  { apply Forall_forall. intros x Hx%trim_set_subset. pose proof (Utf8Facts.bytes_of_string_bytes (Strings.TrimSpace candidate)) as H. exact (proj1 (Forall_forall _ _) H x Hx). }
  clearbody base. case_bool_decide as He; [by vm_compute; split_and!; [repeat constructor| |lia]|]. split_and!; [by apply Forall_take| |rewrite length_take; lia].
  destruct base; [done|]. done.
Qed.

Lemma text_length l : String.length (string_of_bytes l) = length l.
Proof. unfold string_of_bytes. induction l as [|x l IH]; cbn; [done|]. by f_equal. Qed.
Lemma text_nonempty l : l <> [] -> string_of_bytes l <> "".
Proof. by destruct l. Qed.

(** A label is always found: it is free, it is not empty, and it has at most 80
    bytes. *)
Theorem unique_name {A} (providers : gmap string A) candidate :
  exists name, uniqueProviderName providers candidate = Some name /\ providers !! name = None /\ name <> "" /\
    (Z.of_nat (size providers) < 10 ^ 70 -> (String.length name <= max_label)%nat).
Proof.
  unfold uniqueProviderName. destruct (label_base_bytes candidate) as (Hb & Hne & Hl). cbv zeta. set (base := label_base candidate) in *.
  destruct (providers !! string_of_bytes base) eqn:E.
  - destruct (free_name_found providers base 2 Hb ltac:(lia)) as (n & Hn & -> & Hfree). eexists. split_and!; [done|done| |].
    + apply text_nonempty. unfold suffixed. by destruct (if _ : bool then _ else _).
    + intros Hs. rewrite text_length. apply suffixed_length. lia.
  - eexists. split_and!; [done|done|by apply text_nonempty|]. by rewrite text_length.
Qed.

(** ** The name of a migrated provider *)

Definition label_bytes (l : list byte) : Prop := Forall (fun b => name_byte b = true) l.
Lemma label_plain b : name_byte b = true -> 45 <= b <= 122 /\ Unicode.IsSpace b = false.
Proof. unfold name_byte, Unicode.IsSpace, Utf8.between. lia. Qed.
Lemma label_is_bytes l : label_bytes l -> Utf8Facts.is_bytes l.
Proof. intros H. eapply Forall_impl; [exact H|]. intros b Hb. cbn. apply label_plain in Hb. lia. Qed.
Lemma label_runes l : label_bytes l -> Utf8.runes l = (fun b => (b, [b])) <$> l.
Proof. induction 1 as [|b l Hb _ IH]; [done|]. rewrite runes_plain by (apply label_plain in Hb; lia). cbn. by rewrite IH. Qed.
Lemma drop_while_none {A} (f : A -> bool) l : Forall (fun x => f x = false) l -> Strings.drop_while f l = l.
Proof. destruct 1 as [|x l Hx _]; [done|]. cbn. by rewrite Hx. Qed.
Lemma label_trimmed l : label_bytes l -> Strings.TrimSpace (string_of_bytes l) = string_of_bytes l.
Proof.
  intros H. unfold Strings.TrimSpace. rewrite bytes_of_string_of_bytes by by apply label_is_bytes. rewrite label_runes by done. unfold Strings.trim_runes.
  assert (Hf : forall k, Forall (fun b => name_byte b = true) k -> Forall (fun rb : Z * list byte => Unicode.IsSpace rb.1 = false) ((fun b => (b, [b])) <$> k)).
  { intros k Hk. apply Forall_fmap. eapply Forall_impl; [exact Hk|]. intros b Hb. exact (proj2 (label_plain b Hb)). }
  rewrite (drop_while_none _ ((fun b => (b, [b])) <$> l)) by by apply Hf. rewrite drop_while_none.
  - rewrite rev_involutive, <- list_fmap_compose. f_equal. clear. induction l as [|b l IH]; [done|]. cbn. by f_equal.
  - apply Forall_forall. intros x Hx. rewrite list_elem_of_In, <- in_rev, <- list_elem_of_In in Hx. pose proof (Hf l H) as Ha. rewrite Forall_forall in Ha. by apply Ha.
Qed.
Lemma label_subset l l' : label_bytes l -> l' ⊆ l -> label_bytes l'.
Proof. unfold label_bytes. rewrite !Forall_forall. auto. Qed.
Lemma all_bytes f s : Strings.all f s = forallb f (bytes_of_string s).
Proof. unfold Strings.all, bytes_of_string. induction (String.list_ascii_of_string s) as [|a l IH]; [done|]. cbn. by rewrite IH. Qed.
Lemma label_valid l : label_bytes l -> l <> [] -> (length l <= 80)%nat -> validProviderName (string_of_bytes l) = true.
Proof.
  intros H Hne Hl. unfold validProviderName. rewrite label_trimmed by done. rewrite String.eqb_refl. apply andb_true_iff; split; [apply andb_true_iff; split; [apply andb_true_iff; split|]|].
  - apply negb_true_iff, String.eqb_neq. by apply text_nonempty.
  - done.
  - unfold Strings.len. rewrite text_length. lia.
  - rewrite all_bytes, bytes_of_string_of_bytes by by apply label_is_bytes. apply forallb_forall. intros b Hb. apply list_elem_of_In in Hb.
    unfold label_bytes in H. rewrite Forall_forall in H. by apply H.
Qed.

Lemma slug_label runes out last : label_bytes out -> label_bytes (slug runes out last).
Proof.
  revert out last. induction runes as [|r runes IH]; intros out last H; cbn [slug].
  - eapply label_subset; [exact H|]. intros x. by rewrite list_elem_of_In, <- in_rev, <- list_elem_of_In.
  - destruct (slug_rune r) eqn:Hr; [|destruct (_ && _)]; apply IH; try done; (constructor; [|done]); [|done].
    unfold slug_rune in Hr. unfold name_byte. unfold Utf8.between in *. lia.
Qed.
Lemma url_name_label ToLower parse_url url : exists l, providerNameFromBaseURL ToLower parse_url url = string_of_bytes l /\ label_bytes l.
Proof.
  assert (Hc : forall s, label_bytes (bytes_of_string s) -> exists l, s = string_of_bytes l /\ label_bytes l).
  { intros s Hs. exists (bytes_of_string s). split; [|done]. by rewrite string_of_bytes_of_string. }
  unfold providerNameFromBaseURL. destruct (parse_url url) as [u|]; [|apply Hc; repeat constructor]. cbv zeta.
  destruct (_ || _); [apply Hc; repeat constructor|]. case_bool_decide; [apply Hc; repeat constructor|]. eexists. split; [done|]. apply Forall_take.
  eapply label_subset; [|apply trim_set_subset]. apply slug_label. constructor.
Qed.
Lemma legacy_name_valid ToLower parse_url c : exists name, legacy_name ToLower parse_url c = Some name /\ validProviderName name = true.
Proof.
  unfold legacy_name, uniqueProviderName. rewrite lookup_empty. eexists. split; [done|]. destruct (url_name_label ToLower parse_url (cfg_BaseURL c)) as (l & -> & Hl).
  destruct (label_base_bytes (string_of_bytes l)) as (_ & Hne & Hlen). apply label_valid; [|done|done]. unfold label_base. rewrite label_trimmed by done.
  rewrite bytes_of_string_of_bytes by by apply label_is_bytes. apply Forall_take. case_bool_decide; [repeat constructor|].
  eapply label_subset; [exact Hl|apply trim_set_subset].
Qed.

Section migration.
Context (ToLower ToUpper : string -> string) (parse_url : string -> option URL).
Context {RangeProviders : MapRange string Profile} {RangePrices : MapRange string Price}.
Context {RangeAliases : MapRange string string} {RangeThresholds : MapRange string Z}.
Abbreviation Validate := (Commands.Validate ToLower ToUpper parse_url).

(** Whether a version goes with a protocol in a named provider. *)
Definition version_fits (protocol version : string) : Prop :=
  let protocol := normalizeProviderProtocol ToLower protocol in
  version = "" \/ (protocol <> "openai" /\ (protocol = "anthropic" \/ protocol = "auto" -> Dates.is_date version = true)).

Lemma url_any_name url name name' : validateBaseURL parse_url url name = None -> validateBaseURL parse_url url name' = None.
Proof. unfold validateBaseURL. cbv zeta. destruct (parse_url url); [|done]. by rules. Qed.
Lemma version_rules protocol version :
  String.eqb (normalizeProviderProtocol ToLower protocol) "openai" && negb (String.eqb version "") = false /\
  (String.eqb (normalizeProviderProtocol ToLower protocol) "anthropic" || String.eqb (normalizeProviderProtocol ToLower protocol) "auto") &&
    negb (String.eqb version "") && negb (Dates.is_date version) = false <-> version_fits protocol version.
Proof.
  unfold version_fits. cbv zeta. generalize (normalizeProviderProtocol ToLower protocol) as p. intros p. destruct (String.eqb_spec version "") as [->|Hv].
  { cbn. rewrite !andb_false_r. tauto. }
  cbn. rewrite !andb_true_r, andb_false_iff, orb_false_iff, !String.eqb_neq, negb_false_iff. split.
  - intros [Ho Hd]. right. split; [done|]. intros [->| ->]; destruct Hd as [[]|]; done.
  - intros [?|[Ho Hd]]; [done|]. split; [done|]. destruct (String.eqb_spec p "anthropic"), (String.eqb_spec p "auto"); tauto.
Qed.
Lemma legacy_profile_valid c name protocol : Validate c = None -> Providers c = ∅ -> cfg_BaseURL c <> "" -> validProviderName name = true ->
  known_protocol (normalizeProviderProtocol ToLower protocol) = true ->
  validate_provider ToLower ToUpper parse_url name (legacy_profile c protocol) = None <-> version_fits protocol (cfg_APIVersion c).
Proof.
  intros Hv He Hne Hname Hp. pose proof (legacy_references c protocol (valid_legacy_key ToLower ToUpper parse_url c Hv He Hne)) as Hrefs.
  unfold Commands.Validate, Config_Validate in Hv. cbv zeta in Hv. rules. rewrite He, map_size_empty, bool_decide_eq_true_2 in Hv by done. cbn [negb] in Hv.
  destruct Hv as (_ & _ & _ & _ & _ & _ & _ & _ & _ & Hcaps & Hlegacy & _ & _ & _ & _ & _ & _ & Hprices & _).
  unfold validate_legacy in Hlegacy. apply String.eqb_neq in Hne. rewrite Hne in Hlegacy. rules. destruct Hlegacy as (Hurl & _ & _ & _ & _).
  unfold validate_provider. cbv zeta. rules. rewrite Hrefs, Hname.
  change (prof_Protocol (legacy_profile c protocol)) with protocol. change (prof_APIVersion (legacy_profile c protocol)) with (cfg_APIVersion c).
  rewrite Hp, <- version_rules.
  split; [tauto|]. intros [Ho Hd]. split_and!; try done.
  - eapply url_any_name, Hurl.
  - unfold validateModelAliases. change (ModelAliases (profile (legacy_profile c protocol))) with (∅ : gmap string string). rewrite map_size_empty.
    apply range_rules, map_Forall_empty.
  - unfold validateSwitchThresholds. change (ModelSwitchThresholds (profile (legacy_profile c protocol))) with (∅ : gmap string Z). rewrite map_size_empty.
    apply range_rules, map_Forall_empty.
Qed.

(** C28. A configuration of the old form that the gateway accepts gets the name
    of a provider that validation accepts, and its migration is accepted
    exactly when its version fits the protocol: for OpenAI there must be none,
    otherwise it must be empty or a date.  So the commands that migrate it fail
    on an OpenAI configuration with a version, which the gateway runs. *)
Theorem migration_valid c : Validate c = None -> Providers c = ∅ -> cfg_BaseURL c <> "" -> cfg_APIKey c = "" ->
  exists name, legacy_name ToLower parse_url c = Some name /\
  forall protocol, known_protocol (normalizeProviderProtocol ToLower protocol) = true ->
    (Validate (migrated c name protocol) = None <-> version_fits protocol (cfg_APIVersion c)).
Proof.
  intros Hv He Hne Hkey. destruct (legacy_name_valid ToLower parse_url c) as (name & Hname & Hvalid). exists name. split; [done|]. intros protocol Hp.
  rewrite <- (legacy_profile_valid c name protocol Hv He Hne Hvalid Hp). unfold Commands.Validate, Config_Validate in Hv. cbv zeta in Hv. rules.
  rewrite He, map_size_empty, bool_decide_eq_true_2 in Hv by done. cbn [negb andb] in Hv.
  destruct Hv as (H1 & H2 & H3 & H4 & H5 & H6 & H7 & H8 & H9 & H10 & H11 & H12 & H13 & H14 & H15 & H16 & H17 & H18 & H19 & _).
  set (c' := migrated c name protocol). assert (HP : Providers c' = {[ name := legacy_profile c protocol ]}) by done.
  assert (Hs' : bool_decide (size (Providers c') = 0%nat) = false) by (apply bool_decide_eq_false; rewrite HP, map_size_singleton; done).
  unfold Commands.Validate, Config_Validate. cbv zeta. rules. rewrite Hs'. cbn [negb andb]. unfold validate_providers. rules. rewrite HP, !map_Forall_singleton.
  split; [tauto|]. intros Hprofile. split_and!; try done.
  - unfold legacy_fields. change (cfg_APIKey c') with (cfg_APIKey c). rewrite Hkey. cbn. reflexivity.
  - by rewrite map_size_singleton.
  - by apply rule_None.
  - unfold validateAutoChain in *. change (cfg_AutoChain c') with (cfg_AutoChain c). destruct (_ <? _)%nat; [done|]. destruct (cfg_AutoChain c); [done|]. cbn in H19. by rewrite He in H19.
Qed.
End migration.

(** Removing the mapping that was added restores the provider. *)
Lemma mapping_added_removed m p p' : error_map_add m p = inr p' -> error_map_remove (UpstreamCode m) (MappedStatus m) p' = inr p.
Proof.
  unfold error_map_add. cbv zeta. destruct (ValidateProviderErrorMappings _) eqn:Hv; [done|]. intros [= <-]. apply validated in Hv as [_ Hk].
  unfold error_map_remove. cbv zeta. change (ErrorCodeMappings (p <| ErrorCodeMappings := ErrorCodeMappings p ++ [m] |>)) with (ErrorCodeMappings p ++ [m]).
  set (matches := fun x => String.eqb (UpstreamCode x) (UpstreamCode m) && (MappedStatus x =? MappedStatus m)).
  assert (Hm : matches m = true) by (unfold matches; by rewrite String.eqb_refl, Z.eqb_refl).
  assert (Ho : Forall (fun x => matches x = false) (ErrorCodeMappings p)).
  { rewrite map_app in Hk. apply NoDup_app in Hk as (_ & Hk & _). apply Forall_forall. intros x Hx. apply not_true_iff_false. intros E.
    apply (same_mapping_spec x m) in E. apply (Hk (UpstreamCode x, MappedStatus x)); [|rewrite E; by left].
    apply list_elem_of_In, (in_map (fun m => (UpstreamCode m, MappedStatus m))). by apply list_elem_of_In. }
  assert (E1 : existsb matches (ErrorCodeMappings p ++ [m]) = true) by (rewrite existsb_app; cbn [existsb]; rewrite Hm; by rewrite orb_true_r).
  rewrite E1. assert (E2 : List.filter (fun x => negb (matches x)) (ErrorCodeMappings p ++ [m]) = ErrorCodeMappings p).
  { rewrite List.filter_app. assert (E3 : List.filter (fun x => negb (matches x)) [m] = []) by (cbn [List.filter]; by rewrite Hm). rewrite E3, app_nil_r.
    clear - Ho. induction Ho as [|x l Hx _ IH]; [done|]. cbn [List.filter]. by rewrite Hx, IH. }
  transitivity (inr (p <| ErrorCodeMappings := List.filter (fun x => negb (matches x)) (ErrorCodeMappings p ++ [m]) |>) : string + Profile); [done|].
  rewrite E2. by destruct p.
Qed.

(** ** Commands that are played *)

#[local] Existing Instance ReloadFacts.Config_eq.

Definition lined (v : string) : string := v +:+ "
".
Definition demo_keys : gmap KeychainReference string :=
  let item s a := ({| Service := s; Account := a |}, s +:+ "-" +:+ a) in
  list_to_map [item "tidemux" "token"; item "one" "k1"; item "one" "k2"; item "two" "k"].
Definition demo_world : world := {| file := Some (ReloadFacts.demo_text "k"); keychain := demo_keys |}.
Definition demo_script (key : string) : script := {| typed := [Some ""; Some ""; Some key]; bytes := [replicate 16 7; replicate 32 9]; inspected := None |}.
#[local] Abbreviation lower := Strings.ToLowerASCII.
#[local] Abbreviation upper := Strings.ToUpperASCII.
#[local] Abbreviation demo_command := (run lower upper ReloadFacts.demo_url true "/ledger" 3 (fun _ => None) (fun _ => "")).
Definition played (s : script) (c : command) : world * (string + unit) := play lined demo_world s (demo_command c).
Definition key_added : world * (string + unit) := played (demo_script "third") (CmdKeyAdd "one").
Definition groups (w : world) : option (option (list string)) :=
  match file w with
  | Some text => match decodeConfig lower text with
                 | inr c => Some ((fun p => match KeychainReferences p with inr l => Account <$> l | _ => [] end) <$> Providers c !! "one")
                 | inl _ => None
                 end
  | None => None
  end.
Example added_key : groups key_added.1 = Some (Some ["k1"; "k2"; hex_text (replicate 16 7)]) /\ key_added.2 = inr tt.
Proof. vm_compute. split; reflexivity. Qed.
Example same_key : played (demo_script "one-k2") (CmdKeyAdd "one") = (demo_world, inl "provider API key is already present in this group").
Proof. vm_compute. reflexivity. Qed.
Example text_round : match decodeConfig lower (config_text (ReloadFacts.decoded "k")) with inr c => ReloadFacts.same_value c (ReloadFacts.decoded "k") | _ => false end = true.
Proof. vm_compute. reflexivity. Qed.
(** The automatic chain still names the provider. *)
Example remove_refused : played (demo_script "") (CmdProviderRemove "one" true) =
  (demo_world, inl "auto_chain entries must reference configured named providers").
Proof. vm_compute. reflexivity. Qed.
Definition key_removed : world * (string + unit) := played (demo_script "") (CmdKeyRemove "one" "1" true).
Example removed_key : groups key_removed.1 = Some (Some ["k2"]) /\ key_removed.2 = inr tt /\ keychain key_removed.1 !! {| Service := "one"; Account := "k1" |} = None.
Proof. vm_compute. split_and!; reflexivity. Qed.

(** The report webhook has the reference of a provider's key: removing the key
    deletes the item that the webhook still names. *)
Definition hooked_item : KeychainReference := {| Service := "one"; Account := "k1" |}.
Definition hooked_world : world :=
  {| file := Some (config_text ((ReloadFacts.decoded "k") <| ReportWebhook := {| webhook_Provider := "generic"; webhook_Keychain := hooked_item |} |>));
     keychain := demo_keys |}.
Definition unhooked : world * (string + unit) := play lined hooked_world (demo_script "") (demo_command (CmdKeyRemove "one" "1" true)).
Example webhook_item_deleted :
  unhooked.2 = inr tt /\ keychain hooked_world !! hooked_item = Some "one-k1" /\ keychain unhooked.1 !! hooked_item = None /\
  match file unhooked.1 with
  | Some text => match decodeConfig lower text with inr c => bool_decide (webhook_Keychain (ReportWebhook c) = hooked_item) | inl _ => false end
  | None => false
  end = true.
Proof. vm_compute. split_and!; reflexivity. Qed.

(** *** Witnesses *)

Definition resolves_now (w : world) : bool :=
  match file w with
  | Some text => match decodeValidatedConfig lower upper ReloadFacts.demo_url text with
                 | inr c => match ResolveCredentials lower upper ReloadFacts.demo_url (secret lined w) c with inr _ => true | inl _ => false end
                 | inl _ => true
                 end
  | None => true
  end.
Lemma resolves_now_spec w : resolves_now w = true -> forall data c, file w = Some data -> decodeValidatedConfig lower upper ReloadFacts.demo_url data = inr c ->
  resolves lower upper ReloadFacts.demo_url (secret lined w) c.
Proof.
  unfold resolves_now, resolves. intros H data c Hf Hd. rewrite Hf, Hd in H. destruct (ResolveCredentials _ _ _ _ c) as [|c']; [done|by exists c'].
Qed.
Lemma credentials_kept_witness :
  key_removed.2 = inr tt /\
  exists c', file key_removed.1 = Some (config_text c') /\ resolves lower upper ReloadFacts.demo_url (secret lined key_removed.1) c'.
Proof.
  split; [vm_compute; reflexivity|].
  destruct (credentials_kept lower upper ReloadFacts.demo_url true "/ledger" 3 (fun _ => None) (fun _ => "") lined (CmdKeyRemove "one" "1" true) demo_world
    key_removed.1 (Return key_removed.2)) as [[Hf _]|(c' & Hf & Hr & _)].
  - apply resolves_now_spec. vm_compute. reflexivity.
  - apply play_steps.
  - exfalso. apply (f_equal (fun t => match t with Some t => String.length t | None => 0%nat end)) in Hf. vm_compute in Hf. discriminate.
  - exists c'. split; [exact Hf|exact Hr].
Defined.

(** A configuration of the old form that the gateway accepts. *)
Definition old_config (version : string) : Config :=
  match decodeConfig lower (StreamDemo.quoted ("{'listen_addr':'127.0.0.1:4000','protocol':'openai','base_url':'https://api.example.org/v1','upstream_id':'example','anthropic_version':'" +:+ version +:+ "','upstream_keychain':{'service':'s','account':'a'},'access_token_keychain':{'service':'tidemux','account':'token'},'ledger_path':'/tmp/ledger'}")) with
  | inr c => c
  | inl _ => no_Config
  end.
Lemma migration_valid_witness :
  Validate lower upper ReloadFacts.demo_url (old_config "2023-06-01") = None /\
  legacy_name lower ReloadFacts.demo_url (old_config "2023-06-01") = Some "example" /\
  Validate lower upper ReloadFacts.demo_url (migrated (old_config "2023-06-01") "example" "openai") <> None /\
  Validate lower upper ReloadFacts.demo_url (migrated (old_config "") "example" "openai") = None.
Proof.
  split; [vm_compute; reflexivity|]. split; [vm_compute; reflexivity|]. split.
  - destruct (migration_valid lower upper ReloadFacts.demo_url (old_config "2023-06-01")) as (name & Hn & H); [vm_compute; reflexivity|vm_compute; reflexivity|vm_compute; discriminate|vm_compute; reflexivity|].
    assert (E : name = "example") by (vm_compute in Hn; congruence). subst name. intros Hv. apply H in Hv; [|vm_compute; reflexivity].
    destruct Hv as [Hv|[Hv _]]; [vm_compute in Hv; discriminate|]. apply Hv. vm_compute. reflexivity.
  - destruct (migration_valid lower upper ReloadFacts.demo_url (old_config "")) as (name & Hn & H); [vm_compute; reflexivity|vm_compute; reflexivity|vm_compute; discriminate|vm_compute; reflexivity|].
    assert (E : name = "example") by (vm_compute in Hn; congruence). subst name. apply H; [vm_compute; reflexivity|]. left. vm_compute. reflexivity.
Defined.

Lemma unique_name_witness : uniqueProviderName ({["example" := 1; "example-2" := 2]} : gmap string Z) " -example." = Some "example-3" /\
  exists name, uniqueProviderName ({["example" := 1]} : gmap string Z) "example" = Some name /\ (String.length name <= 80)%nat.
Proof.
  split; [vm_compute; reflexivity|]. destruct (unique_name ({["example" := 1]} : gmap string Z) "example") as (name & H & _ & _ & Hl). exists name.
  split; [exact H|]. apply Hl. vm_compute. reflexivity.
Defined.
